(* ===== verification/_CoqProject ===== *)
-Q . S2P
Prelude.v
RBTree.v
FreeSet.v
Buddy.v
Heap.v
PhysMem.v
PageTable.v
KernelVM.v
VmPages.v
Bytes.v
BlockDevice.v
CharDevice.v
FsTypes.v
Ext2.v
Ext2File.v
RamFs.v
FakeFs.v
DevFs.v
Vfs.v
UserVM.v
UserFault.v
KernelFs.v
File.v
Process.v
UserCopy.v
Syscall.v
Elf.v
Stack.v
UserDemo.v
Symbols.v
SymbolsWriter.v
Cmdline.v
Modules.v
FlanTerm.v
FlanTermSafe.v
FbFont.v
FbTerm.v
FbTermDraw.v
FbTermSafe.v
FbTermInit.v
Console.v
Ramdisk.v
Pid.v
Mutex.v
Sync.v
Sched.v
