(* ===== verification/Prelude.v ===== *)
(** * CabOS verification library

    CabOS is a kernel written in Rust (src/src/) for x86_64 and aarch64, with a
    terminal library in C (src/flanterm/), a derive macro (src/proc-macros/) and a
    build tool (src/buildtool/).  Paths below are those of the source: src/ is the
    kernel.  This library models the parts of it whose correctness does not rest on machine
    code, as executable definitions that follow the source function by
    function, and proves what they do.

    ** The parts and how they interact

    - Memory.  At boot [PhysMem] walks the memory map of the boot loader and
      hands out frames; the rest of memory is given to the buddy allocator
      ([Buddy]), on which the kernel heap ([Heap]) keeps its slab pages.  The
      address ranges of a process that are free are a [FreeSet], built on the
      ordered trees of a third-party crate ([RBTree]).
    - Virtual memory.  [PageTable] is the four-level table of aarch64 in frames
      of [PhysMem]; [KernelVM] and [VmPages] give the kernel ranges of addresses
      and map their pages; [UserVM] and [UserFault] are the mappings of a
      process, its page faults and the page cache.
    - Processes.  [Process] has a process with its files and [mmap], [UserCopy]
      the copies between it and the kernel, [Syscall] the system calls, [Elf] the
      loader and [Stack] the first stack of a program.
    - Locks and threads.  [Mutex] is the spin lock and the sleeping mutex;
      [Sync] has the semaphore, promise, reader-writer lock and bounded buffer
      built on it.  [Sched] is the scheduler: the queues threads are on, the
      timer, and the event handler that serves page faults and system calls.
      [Pid] allocates process identifiers.
    - Files.  [BlockDevice] and [CharDevice] are the device traits and drivers;
      [Ext2] and [Ext2File] are the ext2 file system on a block device,
      [RamFs], [FakeFs] and [DevFs] the file systems in memory.  [Vfs] mounts
      file systems on each other and walks paths, against an interface that
      [KernelFs] discharges for the kernel's file systems.  [File] is an open
      file with a position, [Ramdisk] the disk image the boot loader loads.
    - The console.  [FlanTerm] reads the bytes that are printed and calls a back
      end, [FbTerm] is the one that draws on the frame buffer with the font of
      [FbFont], [Console] is what the kernel prints through.
    - The start.  [Cmdline] parses the command line, which enables the console,
      and [Modules] takes the debug symbols from a boot module.  The build tool
      writes them and the kernel looks functions up in them ([Symbols],
      [SymbolsWriter]).

    ** The files

    - [Prelude]: results and panics ([res]), the state monad ([M]), checked and
      wrapping machine integers, alignment, generic lemmas and tactics.
    - [RBTree]: RBTree of the crate intrusive_collections as a class of
      operations ([RBTree]) and of laws, with an executable instance.
    - [FreeSet]: src/memory/freeset.rs.  [add_range] and both [remove_range]
      operations change the set of free addresses exactly as they should, on
      every branch; ranges stay disjoint and coalesced.
    - [Buddy]: BuddyPageAllocator of src/memory/heap.rs, with the list nodes
      inside the free memory.  Blocks handed out never overlap and the lists
      stay well formed while clients write to their own blocks (honestly: a
      theorem shows what a forged node does); allocation fails exactly when
      nothing fits.
    - [Heap]: HeapAllocator and GlobalAllocImpl of src/memory/heap.rs.
      Allocations are aligned and disjoint under every interleaving of the
      critical sections; freeing keeps the others.
    - [PhysMem]: src/memory/physical_memory.rs.  No frame is handed out twice.
    - [PageTable]: src/arch/aarch64/vmm.rs.  Mapping and unmapping a page do to
      the addresses that can be translated what they do to a map, and keep the
      tables apart; unmapping gives back the tables that became empty.
    - [KernelVM], [VmPages]: src/memory/virtual_memory.rs.  A reservation takes a
      range that was free and no other, a release gives it back; allocations are
      mapped page by page, and a page fault of the kernel maps just its page.
    - [UserVM], [UserFault]: src/memory/user_virtual_memory.rs, page_cache.rs.
      [mmap] finds a free range or says that there is none (a range past the
      end of the address space and an empty one are exceptions); a fault gives
      the process the page of the file or a page of zeroes and keeps other pages.
    - [Bytes]: byte buffers, slices, little-endian fields.
    - [BlockDevice]: src/devices/block/.  Reads and writes of byte ranges are
      exact for every driver that keeps [BlockDeviceSpec]; the virtio driver
      keeps it if the third-party driver under it does.
    - [CharDevice]: src/devices/char/: framebuffer, UART, virtio input.
    - [FsTypes]: errors, keys and metadata of src/fs/vfs.rs.
    - [Ext2], [Ext2File]: src/fs/ext2.rs: superblock, group descriptors,
      bitmaps, inodes; files, directories, reading and writing.  Allocation
      and release round trip; reads and overwrites are exact with respect to the
      order of the blocks in the format ([file_layout]), for files of up to two
      levels of indirection, overwrites for files without holes; directory
      search is exact.  Several theorems prove defects, among them of the paths
      of three levels and of writes into holes.
    - [RamFs], [FakeFs], [DevFs]: src/fs/ramfs.rs, fake.rs, dev.rs.
    - [Vfs], [KernelFs]: src/fs/vfs.rs and the mounts of src/lib.rs.  The
      traits Filesystem and VNode are classes, [FilesystemSpec] their laws.
      The mount tables stay consistent as long as nothing is mounted on a mount
      point and no file system while it is in use; paths resolve through mounts
      and back as the mount points say.
    - [File]: src/fs/file.rs.  An open file whose node is a byte array refines a
      byte array with a cursor.
    - [Process]: src/process.rs.  [UserCopy]: [copy_to_user] and [copy_from_user]
      round trip through the page tables of the process.
    - [Syscall]: src/syscall/.  What a process writes to a file it reads back.
    - [Elf], [Stack]: src/elf.rs and [setup_stack] of src/arch/aarch64/mod.rs.
      After loading the process sees the segments of the file, and its arguments.
    - [UserDemo]: a concrete machine to which the theorems above are applied.
    - [Symbols], [SymbolsWriter]: src/symbols.rs and buildtool/src/debug/.  Every
      function that was written is found at each of its addresses, and what is
      collected with ranges that are apart can be written.
    - [Cmdline]: src/cmdline/, proc-macros/src/lib.rs.  The parsers accept exactly
      the documented commands in which no flag is cleared with [!] and give the
      options they stand for; any other text gives the default options and an
      error.  [Modules]: src/modules/.
    - [FlanTerm], [FlanTermSafe]: flanterm/flanterm-c/src/flanterm.c.  With a back
      end that keeps its promises no input makes the terminal leave its arrays,
      and it behaves as with any other such back end.
    - [FbFont], [FbTerm], [FbTermDraw], [FbTermSafe], [FbTermInit]: the frame
      buffer back end fb.c.  It refines a plain screen of cells, after a flush the
      pixels show the cells, and the static pool is enough at the start.
    - [Console]: src/print.rs.  What is printed up to the end of a line is on the
      screen; coloured text is in its colour.  Examples show defects of the
      terminal.
    - [Ramdisk]: src/fs/ramdisk.rs.  [Pid]: the allocator of src/process.rs.
    - [Mutex]: src/sync/int_mutex.rs and int_spinlock.rs as a transition system
      of any number of threads: mutual exclusion, and no wake-up is lost.
    - [Sync]: semaphore, promise, rwlock and bounded buffer of src/sync/, one
      Module each, as transition systems over their critical sections.
    - [Sched]: src/thread.rs, src/event.rs, src/state.rs and the timer handler:
      every thread is in exactly one place, as long as no thread traps while it
      does not allow preemption; sleepers wake when they are due.

    ** Conventions

    A value of a machine integer type is a [Z].  The development profile checks
    arithmetic, so an operation that leaves its type is a [Panic]; [wrap] is
    used where the source wraps.  A panic aborts the kernel and leaves no
    state.  Errors are values, and an error keeps the state the operation left
    behind.  An object shared through Arc is a reference into a store.
    Third-party code is a class with the laws its documentation states, and
    every theorem that assumes them has a witness with a concrete instance.
    Concurrency is a step function or relation and an inductive [reachable].

    ** Fuel

    Loops that are not structural take fuel, and the callers pass a bound on
    the number of turns: the pages of a range ([add_range_loop]), the orders of
    the buddy system ([find_order], [free_loop]), the pages of a slab list
    ([unlink_loop]), the memory map entries ([advance]), the length of a buffer
    in bytes ([read_loop], [write_loop], [input_loop]), the elements of a tree
    ([clone_loop]), the pages of an allocation ([map_loop], [unmap_loop]), the
    bytes to copy ([copy_to_loop], [copy_from_loop]), the limit on a string
    ([read_user_string_loop]), the open files ([free_fd]), 64 turns of a binary
    search over machine integers ([function_search_loop]), the values of a control
    sequence ([sgr_loop]), the cells of the grid ([revscroll_loop]), the entries of
    a table ([bisearch_loop], which has no result if they are not enough), 20
    decimal digits ([digits]), the parts of the text that are left ([block_loop],
    [flags_loop]).  The theorems about them give the result itself, so they show
    that the fuel is enough.  [search] and [lookup] of ext2 take the fuel as an
    argument because the scan need not end: [search_correct] gives the turns that
    are enough on a directory that is well formed, and proves that the scan does
    not end on a record of length 0.

    ** Not modelled

    - Machine code and hardware: context switches, descriptor tables, interrupt
      controllers, the walk of the page tables by the hardware, TLB maintenance
      and its interrupts to other cores (src/arch/), coroutines, per-core and
      per-thread storage, DMA buffers.
    - The page tables of x86_64 (src/arch/x86_64/vmm.rs): they only call the
      mapper of the third-party crate x86_64.
    - Third-party code: the Limine protocol, virtio_drivers, intrusive
      collections, acpi, fdt, zerocopy, logos, the DWARF parser; where modelled
      code calls it, it is a parameter.
    - Device discovery and random numbers: they do little but call third-party
      parsers and instructions of the CPU.
    - Of the terminal: the start with an allocator or a font of the client and
      the end of the back end, which the kernel does not use, and the second copy
      of the library, which is not compiled.  Of the console: stack traces.
    - Of the derive macro: producing the code (what it produces is modelled) and
      variants with fields.  The text of messages.
    - Memory ordering: atomic operations are sequentially consistent here.
    - Running out of heap memory in the file systems: the contents of a RAM file
      are a list that can grow to [isize::MAX] bytes, beyond which it panics.
    - Tests, and the parts of the build tool that build images and run tests. *)

From stdpp Require Export base numbers list gmap sets strings fin_maps.
From Stdlib Require Export ZArith Lia.

#[export] Set Default Goal Selector "!".
Open Scope Z_scope.

(** ** Results, panics and the state monad

    Rust code that can return [Err] or panic is modelled by [res]: a panic
    aborts the kernel (both Cargo profiles set [panic = "abort"]), so no state
    survives it.  Stateful code is a function [M S E A] that threads the state
    through success and through [Err]. *)

Inductive res (E A : Type) : Type :=
| Ok (a : A)
| Err (e : E)
| Panic.
Arguments Ok {E A} a.
Arguments Err {E A} e.
Arguments Panic {E A}.

Definition rbind {E A B} (m : res E A) (k : A → res E B) : res E B :=
  match m with
  | Ok a => k a
  | Err e => Err e
  | Panic => Panic
  end.

Definition M (S E A : Type) : Type := S → res (E * S) (A * S).

Definition mret {S E A} (a : A) : M S E A := λ s, Ok (a, s).
Definition mfail {S E A} (e : E) : M S E A := λ s, Err (e, s).
Definition mpanic {S E A} : M S E A := λ _, Panic.
Definition mget {S E} : M S E S := λ s, Ok (s, s).
Definition mput {S E} (s : S) : M S E unit := λ _, Ok (tt, s).
Definition mmodify {S E} (f : S → S) : M S E unit := λ s, Ok (tt, f s).
Definition mbind' {S E A B} (m : M S E A) (k : A → M S E B) : M S E B :=
  λ s, match m s with
       | Ok (a, s') => k a s'
       | Err (e, s') => Err (e, s')
       | Panic => Panic
       end.

(** A pure result used inside stateful code. *)
Definition mlift {S E A} (r : res E A) : M S E A :=
  λ s, match r with
       | Ok a => Ok (a, s)
       | Err e => Err (e, s)
       | Panic => Panic
       end.

(** [.unwrap()] / [.expect()] of an [Option], and [assert!]. *)
Definition unwrap {E A} (o : option A) : res E A :=
  match o with Some a => Ok a | None => Panic end.
Definition rassert {E} (b : bool) : res E unit :=
  if b then Ok tt else Panic.

Declare Scope cab_scope.
Delimit Scope cab_scope with cab.
Notation "'let?' x := m 'in' k" := (rbind m (fun x => k))
  (at level 10, x pattern, m at level 150, k at level 200,
   format "'[v' 'let?'  x  :=  m  'in' '//' k ']'") : cab_scope.
Notation "'let!' x := m 'in' k" := (mbind' m (fun x => k))
  (at level 10, x pattern, m at level 150, k at level 200,
   format "'[v' 'let!'  x  :=  m  'in' '//' k ']'") : cab_scope.
Open Scope cab_scope.

(** ** Machine integers

    [usize] and [u64] are 64 bits wide on both targets.  The default (dev)
    profile checks arithmetic, so an operation whose result leaves the type
    panics; [wrapping_*] operations are written with [wrap]. *)

Definition usize_max : Z := 2 ^ 64 - 1.
Definition isize_max : Z := 2 ^ 63 - 1.
Definition u32_max : Z := 2 ^ 32 - 1.
Definition u16_max : Z := 2 ^ 16 - 1.
Definition wrap (w z : Z) : Z := z mod 2 ^ w.

Definition in_usize (z : Z) : Prop := 0 ≤ z ≤ usize_max.

Definition uadd {E} (a b : Z) : res E Z :=
  if a + b <=? usize_max then Ok (a + b) else Panic.
Definition usub {E} (a b : Z) : res E Z :=
  if b <=? a then Ok (a - b) else Panic.
Definition umul {E} (a b : Z) : res E Z :=
  if a * b <=? usize_max then Ok (a * b) else Panic.
(** [a / b] and [a % b], which panic on zero. *)
Definition udiv {E} (a b : Z) : res E Z := if b =? 0 then Panic else Ok (a / b).
Definition umod {E} (a b : Z) : res E Z := if b =? 0 then Panic else Ok (a mod b).
Definition saturating_sub (a b : Z) : Z := Z.max 0 (a - b).
Definition saturating_add (a b : Z) : Z := Z.min usize_max (a + b).
Definition saturating_mul (a b : Z) : Z := Z.min usize_max (a * b).
Definition div_ceil (a b : Z) : Z := (a + b - 1) / b.
Definition is_multiple_of (a b : Z) : bool := a mod b =? 0.

(** Both architectures have [PAGE_SIZE = 4096] (src/arch/x86_64/mod.rs,
    src/arch/aarch64/mod.rs). *)
Definition PAGE_SIZE : Z := 4096.

Lemma uadd_ok {E} a b : a + b ≤ usize_max → @uadd E a b = Ok (a + b).
Proof. intros. unfold uadd. case (Z.leb_spec (a + b) usize_max); [done|lia]. Qed.
Lemma usub_ok {E} a b : b ≤ a → @usub E a b = Ok (a - b).
Proof. intros. unfold usub. case (Z.leb_spec b a); [done|lia]. Qed.
Lemma umul_ok {E} a b : a * b ≤ usize_max → @umul E a b = Ok (a * b).
Proof. intros. unfold umul. case (Z.leb_spec (a * b) usize_max); [done|lia]. Qed.
Lemma udiv_ok {E} a b : b ≠ 0 → @udiv E a b = Ok (a / b).
Proof. unfold udiv. intros. by destruct (Z.eqb_spec b 0). Qed.
Lemma umod_ok {E} a b : b ≠ 0 → @umod E a b = Ok (a mod b).
Proof. unfold umod. intros. by destruct (Z.eqb_spec b 0). Qed.
Lemma uadd_inv {E} a b c : @uadd E a b = Ok c → c = a + b ∧ a + b ≤ usize_max.
Proof. unfold uadd. case (Z.leb_spec (a + b) usize_max); intros ? [=]; lia. Qed.

(** ** Alignment *)

Definition aligned (a n : Z) : Prop := (n | a).

Lemma is_multiple_of_spec a b : b ≠ 0 → is_multiple_of a b = true ↔ aligned a b.
Proof.
  intros. unfold is_multiple_of, aligned. rewrite Z.eqb_eq.
  by rewrite Z.mod_divide.
Qed.

Lemma aligned_add a b n : aligned a n → aligned b n → aligned (a + b) n.
Proof. apply Z.divide_add_r. Qed.
Lemma aligned_sub a b n : aligned a n → aligned b n → aligned (a - b) n.
Proof. apply Z.divide_sub_r. Qed.
Lemma aligned_mul a n : aligned (a * n) n.
Proof. apply Z.divide_factor_r. Qed.
Lemma aligned_trans a m n : aligned a m → aligned m n → aligned a n.
Proof. unfold aligned. intros ??. by etrans. Qed.

(** Two multiples of [n] that are closer than [n] are equal. *)
Lemma aligned_close a b n :
  0 < n → aligned a n → aligned b n → a - n < b < a + n → a = b.
Proof.
  intros Hn [x ->] [y ->] [H1 H2].
  assert (x - 1 < y) by (apply (Z.mul_lt_mono_pos_r n); lia).
  assert (y < x + 1) by (apply (Z.mul_lt_mono_pos_r n); lia).
  by replace y with x by lia.
Qed.

(** Aligned blocks that start at ordered addresses do not overlap. *)
Lemma aligned_step a b n :
  0 < n → aligned a n → aligned b n → a < b → a + n ≤ b.
Proof.
  intros Hn [x ->] [y ->] H.
  assert (x < y) by (apply (Z.mul_lt_mono_pos_r n); lia). nia.
Qed.

Create HintDb cab discriminated.
#[export] Hint Resolve aligned_add aligned_sub aligned_mul : cab.

(** ** Automation *)

(** Running one step of a stateful computation whose outcome is known. *)
Lemma mbind_ok {S E A B} (m : M S E A) (k : A → M S E B) s a s' :
  m s = Ok (a, s') → mbind' m k s = k a s'.
Proof. unfold mbind'. by intros ->. Qed.

Lemma mbind_err {S E A B} (m : M S E A) (k : A → M S E B) s e s' :
  m s = Err (e, s') → mbind' m k s = Err (e, s').
Proof. unfold mbind'. by intros ->. Qed.

Lemma mbind_panic {S E A B} (m : M S E A) (k : A → M S E B) s :
  m s = Panic → mbind' m k s = Panic.
Proof. unfold mbind'. by intros ->. Qed.

Lemma mlift_ok {S E A} (r : res E A) (a : A) (s : S) : r = Ok a → mlift r s = Ok (a, s).
Proof. by intros ->. Qed.

Lemma mbind_assert {S E A} (b : bool) (k : unit → M S E A) (s : S) :
  b = true → mbind' (mlift (rassert b)) k s = k tt s.
Proof. by intros ->. Qed.

(** Split the boolean comparisons of a hypothesis or of the goal. *)
Ltac zcase :=
  match goal with
  | |- context [Z.leb ?a ?b] => destruct (Z.leb_spec a b)
  | |- context [Z.ltb ?a ?b] => destruct (Z.ltb_spec a b)
  | |- context [Z.eqb ?a ?b] => destruct (Z.eqb_spec a b)
  | H : context [Z.leb ?a ?b] |- _ => destruct (Z.leb_spec a b)
  | H : context [Z.ltb ?a ?b] |- _ => destruct (Z.ltb_spec a b)
  | H : context [Z.eqb ?a ?b] |- _ => destruct (Z.eqb_spec a b)
  end.

(** Run checked arithmetic whose side condition [lia] can prove. *)
Ltac arith_ok :=
  repeat (first [rewrite uadd_ok by lia | rewrite usub_ok by lia | rewrite umul_ok by lia];
          cbn [rbind]).

(** Unfold the state monad in the goal. *)
Ltac mstep :=
  cbv beta iota zeta delta [mbind' mlift mret mfail mpanic mget mput mmodify].

(** ** Lists *)

Section lists.
Context {A : Type}.
Implicit Types l : list A.

Lemma delete_perm l i x : l !! i = Some x → l ≡ₚ x :: delete i l.
Proof. apply delete_Permutation. Qed.

(** [pairwise R l]: any two entries at different positions are related. *)
Fixpoint pairwise (R : A → A → Prop) (l : list A) : Prop :=
  match l with
  | [] => True
  | x :: l => Forall (R x) l ∧ pairwise R l
  end.

Lemma pairwise_perm (R : A → A → Prop) l l' :
  Symmetric R → l ≡ₚ l' → pairwise R l → pairwise R l'.
Proof.
  intros HR. induction 1 as [|x l l' Hp IH|x y l|]; simpl; [done| |..|by auto].
  - intros [? ?]. split; [by rewrite <-Hp|by apply IH].
  - rewrite !Forall_cons. naive_solver.
Qed.

Lemma pairwise_elem (R : A → A → Prop) x y l :
  pairwise R (x :: l) → y ∈ l → R x y.
Proof. intros [HF _] Hy. rewrite Forall_forall in HF. auto. Qed.

Lemma pairwise_app_elem (R : A → A → Prop) l1 l2 x y :
  pairwise R (l1 ++ l2) → x ∈ l1 → y ∈ l2 → R x y.
Proof.
  intros Hp Hx Hy. induction l1 as [|z l1 IH]; [by apply not_elem_of_nil in Hx|].
  destruct Hp as [Hz Hp]. apply elem_of_cons in Hx as [->|Hx]; [|by apply IH].
  rewrite Forall_forall in Hz. apply Hz, elem_of_app. by right.
Qed.

Lemma pairwise_app (R : A → A → Prop) l1 l2 :
  pairwise R (l1 ++ l2) ↔
  pairwise R l1 ∧ pairwise R l2 ∧ (∀ x y, x ∈ l1 → y ∈ l2 → R x y).
Proof.
  induction l1 as [|z l1 IH]; simpl.
  - split; [|tauto]. intros ?. split_and!; [done..|]. by intros ?? ?%not_elem_of_nil.
  - rewrite IH, Forall_app, !Forall_forall. setoid_rewrite elem_of_cons. naive_solver.
Qed.

Lemma last_default l (x d : A) : List.last (x :: l) d = List.last l x.
Proof.
  destruct l as [|y l]; [done|]. change (List.last (x :: y :: l) d) with (List.last (y :: l) d).
  revert y. induction l as [|z l IH]; intros y; [done|]. apply (IH z).
Qed.

Lemma elem_of_perm_cons l l' (x y : A) : l ≡ₚ x :: l' → y ∈ l ↔ y = x ∨ y ∈ l'.
Proof. intros ->. apply elem_of_cons. Qed.
End lists.

Lemma pairwise_fmap {A B} (R : B → B → Prop) (f : A → B) (l : list A) :
  pairwise R (f <$> l) ↔ pairwise (λ x y, R (f x) (f y)) l.
Proof. induction l as [|x l IH]; simpl; [done|]. by rewrite IH, Forall_fmap. Qed.

Lemma pairwise_nodup {A} (R : A → A → Prop) (l : list A) :
  NoDup l → (∀ x y, x ∈ l → y ∈ l → x ≠ y → R x y) → pairwise R l.
Proof.
  induction 1 as [|x l Hx Hnd IH]; intros HR; [done|]. split.
  - apply Forall_forall. intros y Hy. apply HR; [by left|by right|by intros ->].
  - apply IH. intros y z Hy Hz. apply HR; by right.
Qed.

Lemma nodup_fmap_inj {A B} (f : A → B) (l : list A) x y :
  NoDup (f <$> l) → x ∈ l → y ∈ l → f x = f y → x = y.
Proof.
  intros Hnd Hx Hy E. induction l as [|z l IH]; [by apply not_elem_of_nil in Hx|].
  apply NoDup_cons in Hnd as [Hz Hnd].
  apply elem_of_cons in Hx as [->|Hx], Hy as [->|Hy]; [done|..|by apply IH];
    destruct Hz; apply list_elem_of_fmap; eauto.
Qed.
