(* ===== verification/RBTree.v ===== *)
(** * The ordered-tree interface

    [RBTree] of the [intrusive_collections] crate is not part of the
    repository, so it is an interface here: a class of operations and a class
    of laws that state the crate's documented behaviour.  A tree is observed
    through its in-order traversal [rb_elems]; a cursor is the position of an
    element in that traversal, [None] being the null cursor.  The clients
    are proved against the laws; [list_tree] is an executable instance that
    satisfies them and lets the clients run on concrete inputs. *)

From S2P Require Import Prelude.
From Stdlib Require Import Sorting.Sorted.

Inductive bound (K : Type) : Type :=
| Included (k : K)
| Excluded (k : K).
Arguments Included {K} k.
Arguments Excluded {K} k.

Definition cursor : Type := option nat.

(** The operations, for elements of type [V] kept in the order of the key that
    the client's [KeyAdapter::get_key] computes. *)
Class RBTree {K V : Type} (key : V → K) (T : Type) : Type := {
  rb_elems : T → list V;
  rb_empty : T;
  rb_insert : V → T → T;
  rb_find : T → K → cursor;
  rb_lower_bound : T → bound K → cursor;
  rb_upper_bound : T → bound K → cursor;
  rb_from_ptr : T → V → cursor;
  rb_cursor : T → cursor;
  rb_front : T → cursor;
  rb_back : T → cursor;
  rb_move_next : T → cursor → cursor;
  rb_move_prev : T → cursor → cursor;
  rb_remove : T → nat → T;
}.

Definition rb_get {K V} {key : V → K} {T} `{!RBTree key T} (t : T) (c : cursor) : option V :=
  match c with Some i => rb_elems t !! i | None => None end.

Section above_below.
Context {K : Type} (kle : relation K).
(** [lower_bound(b)] looks for keys above [b], [upper_bound(b)] for keys below. *)
Definition above (b : bound K) (k : K) : Prop :=
  match b with Included k0 => kle k0 k | Excluded k0 => ¬ kle k k0 end.
Definition below (b : bound K) (k : K) : Prop :=
  match b with Included k0 => kle k k0 | Excluded k0 => ¬ kle k0 k end.
End above_below.

Class RBTreeSpec {K V} {key : V → K} {T} (kle : relation K) (O : RBTree key T) : Prop := {
  rb_sorted t : StronglySorted (λ x y, kle (key x) (key y)) (rb_elems t);
  rb_elems_empty : rb_elems rb_empty = [];
  rb_elems_insert x t :
    ∃ l1 l2, rb_elems t = l1 ++ l2 ∧ rb_elems (rb_insert x t) = l1 ++ x :: l2;
  rb_find_Some t k i : rb_find t k = Some i →
    ∃ x, rb_elems t !! i = Some x ∧ key x = k;
  rb_find_None t k : rb_find t k = None → ∀ x, x ∈ rb_elems t → key x ≠ k;
  rb_lower_Some t b i : rb_lower_bound t b = Some i →
    ∃ x, rb_elems t !! i = Some x ∧ above kle b (key x) ∧
      ∀ j y, (j < i)%nat → rb_elems t !! j = Some y → ¬ above kle b (key y);
  rb_lower_None t b : rb_lower_bound t b = None →
    ∀ x, x ∈ rb_elems t → ¬ above kle b (key x);
  rb_upper_Some t b i : rb_upper_bound t b = Some i →
    ∃ x, rb_elems t !! i = Some x ∧ below kle b (key x) ∧
      ∀ j y, (i < j)%nat → rb_elems t !! j = Some y → ¬ below kle b (key y);
  rb_upper_None t b : rb_upper_bound t b = None →
    ∀ x, x ∈ rb_elems t → ¬ below kle b (key x);
  rb_from_ptr_spec t x : x ∈ rb_elems t →
    ∃ i, rb_from_ptr t x = Some i ∧ rb_elems t !! i = Some x;
  rb_cursor_null t : rb_cursor t = None;
  rb_front_spec t : rb_front t = match rb_elems t with [] => None | _ => Some 0%nat end;
  rb_back_spec t :
    rb_back t = match rb_elems t with [] => None | _ => Some (pred (length (rb_elems t))) end;
  rb_move_next_spec t c : rb_move_next t c =
    match c with
    | None => rb_front t
    | Some i => if decide (S i < length (rb_elems t))%nat then Some (S i) else None
    end;
  rb_move_prev_spec t c : rb_move_prev t c =
    match c with
    | None => rb_back t
    | Some O => None
    | Some (S i) => Some i
    end;
  rb_elems_remove t i : rb_elems (rb_remove t i) = delete i (rb_elems t);
}.

(** ** Client-side lemmas *)

Section client.
Context {K V T : Type} {key : V → K} (kle : relation K) `{!Reflexive kle}.
Context {O : RBTree key T} {HO : RBTreeSpec kle O}.
Implicit Types (t : T) (x y : V).

Lemma rb_insert_perm x t : rb_elems (rb_insert x t) ≡ₚ x :: rb_elems t.
Proof.
  destruct (rb_elems_insert x t) as (l1 & l2 & -> & ->).
  by rewrite Permutation_middle.
Qed.

Lemma rb_elem_of_insert x y t :
  y ∈ rb_elems (rb_insert x t) ↔ y = x ∨ y ∈ rb_elems t.
Proof. rewrite rb_insert_perm. apply elem_of_cons. Qed.

Lemma rb_remove_perm t i x :
  rb_elems t !! i = Some x → rb_elems t ≡ₚ x :: rb_elems (rb_remove t i).
Proof. intros. rewrite rb_elems_remove. by apply delete_perm. Qed.

Lemma rb_sorted_lookup t i j x y :
  (i < j)%nat → rb_elems t !! i = Some x → rb_elems t !! j = Some y →
  kle (key x) (key y).
Proof.
  generalize (rb_sorted t). generalize (rb_elems t) as l. intros l Hs.
  revert i j. induction Hs as [|z l Hs IH HF]; intros i j Hij Hi Hj; [done|].
  destruct j as [|j]; [lia|]. destruct i as [|i]; simpl in *.
  - simplify_eq. rewrite Forall_forall in HF. eapply HF.
    by eapply list_elem_of_lookup_2.
  - eapply (IH i j); [lia|done..].
Qed.

(** The element an inclusive [upper_bound] cursor points to is a greatest one
    with a key at most [k]. *)
Lemma rb_upper_get t k x :
  rb_get t (rb_upper_bound t (Included k)) = Some x →
  x ∈ rb_elems t ∧ kle (key x) k ∧
  ∀ y, y ∈ rb_elems t → kle (key y) k → kle (key y) (key x).
Proof.
  destruct (rb_upper_bound t (Included k)) as [i|] eqn:E; [|done]. simpl. intros Hx.
  apply rb_upper_Some in E as (x' & Hx' & Hb & Hmax). simplify_eq. simpl in *.
  split; [by eapply list_elem_of_lookup_2|]. split; [done|].
  intros y [j Hj]%list_elem_of_lookup Hy.
  destruct (lt_eq_lt_dec i j) as [[Hlt| ->]|Hlt].
  - by destruct (Hmax _ _ Hlt Hj).
  - by simplify_eq.
  - by eapply rb_sorted_lookup.
Qed.

Lemma rb_upper_get_None t k :
  rb_get t (rb_upper_bound t (Included k)) = None →
  ∀ y, y ∈ rb_elems t → ¬ kle (key y) k.
Proof.
  destruct (rb_upper_bound t (Included k)) as [i|] eqn:E; simpl.
  - intros Hn. apply rb_upper_Some in E as (x' & Hx' & _). congruence.
  - intros _. by apply (rb_upper_None t (Included k)).
Qed.

Lemma rb_lower_get t k x :
  rb_get t (rb_lower_bound t (Included k)) = Some x →
  x ∈ rb_elems t ∧ kle k (key x) ∧
  ∀ y, y ∈ rb_elems t → kle k (key y) → kle (key x) (key y).
Proof.
  destruct (rb_lower_bound t (Included k)) as [i|] eqn:E; [|done]. simpl. intros Hx.
  apply rb_lower_Some in E as (x' & Hx' & Hb & Hmin). simplify_eq. simpl in *.
  split; [by eapply list_elem_of_lookup_2|]. split; [done|].
  intros y [j Hj]%list_elem_of_lookup Hy.
  destruct (lt_eq_lt_dec i j) as [[Hlt| ->]|Hlt].
  - by eapply rb_sorted_lookup.
  - by simplify_eq.
  - by destruct (Hmin _ _ Hlt Hj).
Qed.

Lemma rb_lower_get_None t k :
  rb_get t (rb_lower_bound t (Included k)) = None →
  ∀ y, y ∈ rb_elems t → ¬ kle k (key y).
Proof.
  destruct (rb_lower_bound t (Included k)) as [i|] eqn:E; simpl.
  - intros Hn. apply rb_lower_Some in E as (x' & Hx' & _). congruence.
  - intros _. by apply (rb_lower_None t (Included k)).
Qed.

Lemma rb_find_elem t k x :
  x ∈ rb_elems t → key x = k → ∃ i y, rb_find t k = Some i ∧
    rb_elems t !! i = Some y ∧ key y = k.
Proof.
  intros Hx Hk. destruct (rb_find t k) as [i|] eqn:E.
  - destruct (rb_find_Some _ _ _ E) as (y & ? & ?). eauto.
  - by destruct (rb_find_None _ _ E x Hx).
Qed.
End client.

(** ** An executable instance *)

Section list_tree.
Context {K V : Type} (kle : relation K) (key : V → K).
Context `{!∀ a b, Decision (kle a b), !EqDecision K, !EqDecision V}.
Context `{!PartialOrder kle, !Total kle}.

Fixpoint ins (x : V) (l : list V) : list V :=
  match l with
  | [] => [x]
  | y :: l => if decide (kle (key x) (key y)) then x :: y :: l else y :: ins x l
  end.
Definition isort (l : list V) : list V := foldr ins [] l.

Fixpoint find_last (P : V → Prop) `{!∀ x, Decision (P x)} (l : list V) : option nat :=
  match l with
  | [] => None
  | x :: l =>
      match find_last P l with
      | Some i => Some (S i)
      | None => if decide (P x) then Some 0%nat else None
      end
  end.

#[global] Instance above_dec b k : Decision (above kle b k).
Proof. destruct b; apply _. Defined.
#[global] Instance below_dec b k : Decision (below kle b k).
Proof. destruct b; apply _. Defined.

Definition list_tree : RBTree key (list V) := {|
  rb_elems := isort;
  rb_empty := [];
  rb_insert := cons;
  rb_find t k := fst <$> list_find (λ x, key x = k) (isort t);
  rb_lower_bound t b := fst <$> list_find (λ x, above kle b (key x)) (isort t);
  rb_upper_bound t b := find_last (λ x, below kle b (key x)) (isort t);
  rb_from_ptr t x := fst <$> list_find (λ y, y = x) (isort t);
  rb_cursor _ := None;
  rb_front t := match isort t with [] => None | _ => Some 0%nat end;
  rb_back t := match isort t with [] => None | _ => Some (pred (length (isort t))) end;
  rb_move_next t c :=
    match c with
    | None => match isort t with [] => None | _ => Some 0%nat end
    | Some i => if decide (S i < length (isort t))%nat then Some (S i) else None
    end;
  rb_move_prev t c :=
    match c with
    | None => match isort t with [] => None | _ => Some (pred (length (isort t))) end
    | Some O => None
    | Some (S i) => Some i
    end;
  rb_remove t i := delete i (isort t);
|}.

Let kle_V x y := kle (key x) (key y).

Lemma ins_split x l : ∃ l1 l2, l = l1 ++ l2 ∧ ins x l = l1 ++ x :: l2.
Proof.
  induction l as [|y l (l1 & l2 & -> & IH)]; simpl; [by exists [], []|].
  case_decide; [by exists [], (y :: l1 ++ l2)|].
  exists (y :: l1), l2. by rewrite IH.
Qed.

Lemma ins_sorted x l : StronglySorted kle_V l → StronglySorted kle_V (ins x l).
Proof.
  induction 1 as [|y l Hs IH HF]; simpl; [by repeat constructor|].
  case_decide as Hd.
  - constructor; [by constructor|]. constructor; [done|].
    eapply Forall_impl; [done|]. intros z Hz. unfold kle_V in *. by etrans.
  - destruct (total kle (key x) (key y)) as [|Hyx]; [done|].
    constructor; [done|]. destruct (ins_split x l) as (l1 & l2 & E & ->). subst l.
    apply Forall_app in HF as [??]. apply Forall_app; split; [done|].
    by constructor.
Qed.

Lemma isort_sorted l : StronglySorted kle_V (isort l).
Proof. induction l; simpl; [constructor|by apply ins_sorted]. Qed.

Lemma isort_id l : StronglySorted kle_V l → isort l = l.
Proof.
  induction 1 as [|x l Hs IH HF]; simpl; [done|]. rewrite IH.
  destruct HF; simpl; [done|]. by case_decide.
Qed.

Lemma sorted_delete l i : StronglySorted kle_V l → StronglySorted kle_V (delete i l).
Proof.
  intros Hs. revert i. induction Hs as [|x l Hs IH HF]; intros [|i]; simpl.
  1-2: constructor.
  - done.
  - constructor; [apply IH|by apply Forall_delete].
Qed.

Lemma find_last_Some P `{!∀ x, Decision (P x)} l i :
  find_last P l = Some i → ∃ x, l !! i = Some x ∧ P x ∧
    ∀ j y, (i < j)%nat → l !! j = Some y → ¬ P y.
Proof.
  revert i. induction l as [|x l IH]; simpl; intros i; [done|].
  destruct (find_last P l) as [i'|] eqn:E.
  - intros [= <-]. destruct (IH _ eq_refl) as (y & ? & ? & Hm).
    exists y. split_and!; [done..|]. intros [|j] z Hj; [lia|]. apply Hm. lia.
  - case_decide; intros [= <-]. exists x. split_and!; [done..|].
    assert (∀ y, y ∈ l → ¬ P y) as Hn.
    { clear -E. induction l as [|z l IH]; intros y; [by intros ?%not_elem_of_nil|].
      simpl in E. destruct (find_last P l); [done|]. case_decide; [done|].
      intros [->|?]%elem_of_cons; [done|by apply IH]. }
    intros [|j] y Hj Hy; [lia|]. eapply Hn, list_elem_of_lookup_2, Hy.
Qed.

Lemma find_last_None P `{!∀ x, Decision (P x)} l :
  find_last P l = None → ∀ y, y ∈ l → ¬ P y.
Proof.
  induction l as [|z l IH]; intros E y; [by intros ?%not_elem_of_nil|].
  simpl in E. destruct (find_last P l); [done|]. case_decide; [done|].
  intros [->|?]%elem_of_cons; [done|by apply IH].
Qed.

Lemma list_find_fst_Some P `{!∀ x, Decision (P x)} (l : list V) i :
  fst <$> list_find P l = Some i → ∃ x, l !! i = Some x ∧ P x ∧
    ∀ j y, (j < i)%nat → l !! j = Some y → ¬ P y.
Proof.
  destruct (list_find P l) as [[i' x]|] eqn:E; [|done]. intros [= <-].
  apply list_find_Some in E as (? & ? & Hm). exists x. split_and!; [done..|].
  intros j y ??. by eapply Hm.
Qed.

Lemma list_find_fst_None P `{!∀ x, Decision (P x)} (l : list V) :
  fst <$> list_find P l = None → ∀ x, x ∈ l → ¬ P x.
Proof.
  destruct (list_find P l) eqn:E; [done|]. intros _.
  apply list_find_None in E. by rewrite Forall_forall in E.
Qed.

Lemma list_tree_spec : RBTreeSpec kle list_tree.
Proof.
  split; simpl.
  - apply isort_sorted.
  - done.
  - intros x t. apply ins_split.
  - intros t k i (x & ? & ? & _)%list_find_fst_Some. eauto.
  - intros t k Hf. by apply (list_find_fst_None (λ x, key x = k)).
  - intros t b i Hf. by apply (list_find_fst_Some (λ x, above kle b (key x))) in Hf.
  - intros t b Hf. by apply (list_find_fst_None (λ x, above kle b (key x))).
  - intros t b i Hf. by apply (find_last_Some (λ x, below kle b (key x))) in Hf.
  - intros t b Hf. by apply (find_last_None (λ x, below kle b (key x))).
  - intros t x Hx. destruct (fst <$> list_find (λ y, y = x) (isort t)) as [i|] eqn:E.
    + apply list_find_fst_Some in E as (y & ? & -> & _). eauto.
    + by destruct (list_find_fst_None (λ y, y = x) _ E x Hx).
  - done.
  - done.
  - done.
  - by intros t [i|].
  - by intros t [[|i]|].
  - intros t i. apply isort_id, sorted_delete, isort_sorted.
Qed.
End list_tree.
Arguments list_tree {K V} kle key {_ _ _}.
