(* ===== verification/FreeSet.v ===== *)
(** * The free-range set (src/memory/freeset.rs)

    [FreeSet] keeps the free address ranges of a process in two ordered trees,
    one keyed by base and one keyed by length, and coalesces neighbours when a
    range is returned.  The operations below follow the source line by line;
    the theorems relate them to the set of free addresses [covers]. *)

From S2P Require Import Prelude RBTree.

Record Free : Type := mkFree { fbase : Z; flength : Z }.
#[global] Instance Free_eq_dec : EqDecision Free.
Proof. solve_decision. Defined.

Definition fend (f : Free) : Z := fbase f + flength f.

Record FreeSet (TB TL : Type) : Type := mkFreeSet { base_set : TB; length_set : TL }.
Arguments mkFreeSet {TB TL}.
Arguments base_set {TB TL}.
Arguments length_set {TB TL}.

Section freeset.
Context {TB TL : Type} {OB : RBTree fbase TB} {OL : RBTree flength TL}.
Abbreviation FS := (FreeSet TB TL).
Abbreviation Op A := (M FS string A).

Definition new : FS := mkFreeSet rb_empty rb_empty.

Definition add_to_sets (base length : Z) : Op unit :=
  mmodify (λ s, let free := mkFree base length in
                mkFreeSet (rb_insert free (base_set s)) (rb_insert free (length_set s))).

Definition remove_from_sets (base : Z) : Op unit := λ s,
  match rb_find (base_set s) base with
  | None => Panic
  | Some i =>
      match rb_elems (base_set s) !! i with
      | None => Panic
      | Some free =>
          match rb_from_ptr (length_set s) free with
          | None => Panic
          | Some j => Ok (tt, mkFreeSet (rb_remove (base_set s) i) (rb_remove (length_set s) j))
          end
      end
  end.

(** The neighbour below [base]: [Err] when it overlaps, [Some] when it ends
    exactly at [base]. *)
Definition find_left (s : FS) (base : Z) : res string (option (Z * Z)) :=
  match rb_get (base_set s) (rb_upper_bound (base_set s) (Included base)) with
  | None => Ok None
  | Some free =>
      let? e := uadd (fbase free) (flength free) in
      if base <? e then Err "added range conflicts with upper part of existing range"%string
      else if e =? base then Ok (Some (fbase free, flength free)) else Ok None
  end.

Definition find_right (s : FS) (base length : Z) : res string (option (Z * Z)) :=
  match rb_get (base_set s) (rb_lower_bound (base_set s) (Included base)) with
  | None => Ok None
  | Some free =>
      let? e := uadd base length in
      if fbase free <? e then Err "added range conflicts with lower part of existing range"%string
      else if e =? fbase free then Ok (Some (fbase free, flength free)) else Ok None
  end.

(** The two [if let Some(..) = coalesce_..] blocks of [add_range]. *)
Definition merge_left (coalesce_left : option (Z * Z)) (base length : Z) : Op (Z * Z) :=
  match coalesce_left with
  | Some (free_base, free_length) =>
      let! l := mlift (uadd length free_length) in
      let! _ := remove_from_sets free_base in
      mret (free_base, l)
  | None => mret (base, length)
  end.

Definition merge_right (coalesce_right : option (Z * Z)) (coalesced_length : Z) : Op Z :=
  match coalesce_right with
  | Some (free_base, free_length) =>
      let! l := mlift (uadd coalesced_length free_length) in
      let! _ := remove_from_sets free_base in
      mret l
  | None => mret coalesced_length
  end.

Definition add_range (base length : Z) : Op unit :=
  if length =? 0 then mfail "trying to add an empty range"%string else
  let! s := mget in
  let! coalesce_left := mlift (find_left s base) in
  let! coalesce_right := mlift (find_right s base length) in
  let! (coalesced_base, coalesced_length) := merge_left coalesce_left base length in
  let! coalesced_length := merge_right coalesce_right coalesced_length in
  add_to_sets coalesced_base coalesced_length.

Definition remove_range_by_base_unchecked
    (cut_base cut_length whole_base whole_length : Z) : Op unit :=
  let! _ := remove_from_sets whole_base in
  let! _ := (if whole_base <? cut_base
             then let! l := mlift (usub cut_base whole_base) in
                  add_to_sets whole_base l
             else mret tt) in
  let! cut_end := mlift (uadd cut_base cut_length) in
  let! whole_end := mlift (uadd whole_length whole_base) in
  if cut_end <? whole_end
  then let! l := mlift (usub whole_end cut_end) in
       add_to_sets cut_end l
  else mret tt.

Definition remove_range_by_base (base length : Z) : Op unit :=
  let! s := mget in
  match rb_get (base_set s) (rb_upper_bound (base_set s) (Included base)) with
  | Some free =>
      let! e := mlift (uadd (fbase free) (flength free)) in
      let! r := mlift (uadd base length) in
      if e <? r then mfail "range can't be cleanly removed"%string
      else remove_range_by_base_unchecked base length (fbase free) (flength free)
  | None => mfail "there is no free range <= base"%string
  end.

Definition remove_range_by_length (length : Z) : Op Z :=
  let! s := mget in
  match rb_get (length_set s) (rb_lower_bound (length_set s) (Included length)) with
  | None => mfail "there is no free range big enough"%string
  | Some free =>
      let whole_base := fbase free in
      let whole_length := flength free in
      let! _ := remove_range_by_base_unchecked whole_base length whole_base whole_length in
      mret whole_base
  end.

(** [Clone::clone]: the loop walks a cursor until [get()] is [None].  The fuel
    is the number of steps a cursor can make before it is null again. *)
Fixpoint clone_loop (fuel : nat) (t : TB) (c : cursor) (acc : FS) : FS :=
  match fuel with
  | O => acc
  | S fuel =>
      match rb_get t c with
      | None => acc
      | Some f =>
          let free := mkFree (fbase f) (flength f) in
          clone_loop fuel t (rb_move_next t c)
            (mkFreeSet (rb_insert free (base_set acc)) (rb_insert free (length_set acc)))
      end
  end.

Definition clone (s : FS) : FS :=
  clone_loop (S (length (rb_elems (base_set s)))) (base_set s) (rb_cursor (base_set s))
    (mkFreeSet rb_empty rb_empty).

(** ** The set of free addresses and the invariant *)

Definition covers_list (l : list Free) (a : Z) : Prop :=
  ∃ x, x ∈ l ∧ fbase x ≤ a < fend x.
Definition covers (s : FS) (a : Z) : Prop := covers_list (rb_elems (base_set s)) a.

Definition range_ok (x : Free) : Prop := 0 ≤ fbase x ∧ 0 < flength x ∧ fend x ≤ usize_max.

(** Coalesced ranges do not even touch. *)
Definition sep (x y : Free) : Prop := fend x < fbase y ∨ fend y < fbase x.
Definition coalesced (l : list Free) : Prop := Forall range_ok l ∧ pairwise sep l.

(** Both trees hold the same ranges. *)
Definition repr (s : FS) (l : list Free) : Prop :=
  rb_elems (base_set s) ≡ₚ l ∧ rb_elems (length_set s) ≡ₚ l.

Definition fs_inv (s : FS) : Prop := ∃ l, repr s l ∧ coalesced l.

Context {HB : RBTreeSpec Z.le OB} {HL : RBTreeSpec Z.le OL}.

#[local] Instance sep_sym : Symmetric sep.
Proof. unfold sep. intros ??. lia. Qed.

Lemma coalesced_perm l l' : l ≡ₚ l' → coalesced l → coalesced l'.
Proof.
  intros Hp [??]. split; [by rewrite <-Hp|].
  by apply (pairwise_perm sep l l' _ Hp).
Qed.

Lemma coalesced_cons x l :
  coalesced (x :: l) ↔ range_ok x ∧ (∀ y, y ∈ l → sep x y) ∧ coalesced l.
Proof.
  unfold coalesced. rewrite Forall_cons. simpl.
  rewrite (Forall_forall (sep x)). naive_solver.
Qed.

Lemma covers_list_perm l l' a : l ≡ₚ l' → covers_list l a ↔ covers_list l' a.
Proof. intros Hp. unfold covers_list. by setoid_rewrite Hp. Qed.

Lemma covers_list_cons x l a :
  covers_list (x :: l) a ↔ fbase x ≤ a < fend x ∨ covers_list l a.
Proof. unfold covers_list. setoid_rewrite elem_of_cons. naive_solver. Qed.

Lemma covers_repr s l a : repr s l → covers s a ↔ covers_list l a.
Proof. intros [Hp _]. by apply covers_list_perm. Qed.

Lemma repr_perm s l l' : repr s l → l ≡ₚ l' → repr s l'.
Proof. unfold repr. intros [-> ->]. done. Qed.

(** ** The tree operations at the level of range lists *)

Lemma add_to_sets_spec b n s l :
  repr s l → ∃ s', add_to_sets b n s = Ok (tt, s') ∧ repr s' (mkFree b n :: l).
Proof.
  intros [Hb Hl]. eexists. split; [done|]. split; simpl.
  - by rewrite (rb_insert_perm Z.le), Hb.
  - by rewrite (rb_insert_perm Z.le), Hl.
Qed.

Lemma remove_from_sets_spec x s l :
  repr s (x :: l) → coalesced (x :: l) →
  ∃ s', remove_from_sets (fbase x) s = Ok (tt, s') ∧ repr s' l.
Proof.
  intros [Hb Hl] Hco. unfold remove_from_sets.
  destruct (rb_find_elem Z.le (base_set s) (fbase x) x) as (i & y & -> & Hi & Hk); [|done|].
  { rewrite Hb. by left. }
  rewrite Hi. assert (y = x) as ->.
  { assert (y ∈ x :: l) as [->|Hy]%elem_of_cons; [|done|].
    { rewrite <-Hb. by eapply list_elem_of_lookup_2. }
    exfalso. rewrite coalesced_cons in Hco. destruct Hco as (Hx & Hs & [HF _]).
    specialize (Hs y Hy). rewrite Forall_forall in HF. specialize (HF y Hy).
    unfold sep, range_ok, fend in *. lia. }
  destruct (rb_from_ptr_spec (length_set s) x) as (j & -> & Hj).
  { rewrite Hl. by left. }
  eexists. split; [done|]. split; simpl; apply (Permutation_cons_inv (a := x)).
  - by rewrite <-(rb_remove_perm Z.le _ _ _ Hi).
  - by rewrite <-(rb_remove_perm Z.le _ _ _ Hj).
Qed.

(** The head of a representing list can be any of its members. *)
Lemma repr_elem s l x : repr s l → x ∈ l → ∃ l', repr s (x :: l') ∧ l ≡ₚ x :: l'.
Proof.
  intros Hr (l1 & l2 & ->)%list_elem_of_split. exists (l1 ++ l2).
  split; [|by rewrite Permutation_middle].
  eapply repr_perm; [done|]. by rewrite Permutation_middle.
Qed.

Lemma coalesced_elem l x : coalesced l → x ∈ l → range_ok x.
Proof. intros [HF _] Hx. rewrite Forall_forall in HF. auto. Qed.

Lemma coalesced_sep l x y : coalesced l → x ∈ l → y ∈ l → x = y ∨ sep x y.
Proof.
  intros Hco (l1 & l2 & ->)%list_elem_of_split Hy.
  apply (coalesced_perm _ (x :: l1 ++ l2)) in Hco; [|by rewrite Permutation_middle].
  apply coalesced_cons in Hco as (_ & Hs & _).
  setoid_rewrite elem_of_app in Hs. rewrite elem_of_app, elem_of_cons in Hy.
  destruct Hy as [?|[->|?]]; eauto.
Qed.

(** ** Looking up the neighbours *)

Lemma upper_spec s l base x :
  repr s l → rb_get (base_set s) (rb_upper_bound (base_set s) (Included base)) = Some x →
  x ∈ l ∧ fbase x ≤ base ∧ ∀ y, y ∈ l → fbase y ≤ base → fbase y ≤ fbase x.
Proof. intros [Hb _] (Hx & Hk & Hm)%(rb_upper_get Z.le). by setoid_rewrite <-Hb. Qed.

Lemma find_left_spec s l base :
  repr s l → coalesced l →
  (∃ e x, find_left s base = Err e ∧ x ∈ l ∧ fbase x ≤ base < fend x) ∨
  (∃ x, find_left s base = Ok (Some (fbase x, flength x)) ∧ x ∈ l ∧ fend x = base) ∨
  (find_left s base = Ok None ∧ ∀ y, y ∈ l → fbase y ≤ base → fend y < base).
Proof.
  intros Hr Hco. unfold find_left. case_match eqn:E.
  - destruct (upper_spec _ _ _ _ Hr E) as (Hx & Hk & Hm).
    pose proof (coalesced_elem _ _ Hco Hx) as Hok. unfold range_ok, fend in Hok.
    arith_ok. zcase; [left; eauto 10 with lia|].
    zcase; [right; left; by eauto|]. right; right. split; [done|]. intros y Hy Hyb.
    specialize (Hm y Hy Hyb).
    destruct (coalesced_sep _ _ _ Hco Hx Hy) as [<-|Hsep]; unfold sep, fend in *; [lia|].
    pose proof (coalesced_elem _ _ Hco Hy) as Hok'. unfold range_ok, fend in *. lia.
  - right; right. split; [done|]. intros y Hy Hyb.
    eapply (rb_upper_get_None Z.le) in E; [done|]. destruct Hr as [Hb _]. by rewrite Hb.
Qed.

Lemma find_right_spec s l base len :
  repr s l → coalesced l → 0 < len → base + len ≤ usize_max →
  (∃ e x, find_right s base len = Err e ∧ x ∈ l ∧ base ≤ fbase x < base + len) ∨
  (∃ x, find_right s base len = Ok (Some (fbase x, flength x)) ∧ x ∈ l ∧
     fbase x = base + len ∧ ∀ y, y ∈ l → base ≤ fbase y → fbase x ≤ fbase y) ∨
  (find_right s base len = Ok None ∧ ∀ y, y ∈ l → base ≤ fbase y → base + len < fbase y).
Proof.
  intros Hr Hco Hlen Hmax. unfold find_right. case_match eqn:E.
  - destruct (rb_lower_get Z.le _ _ _ E) as (Hx & Hk & Hm).
    destruct Hr as [Hb _]. setoid_rewrite Hb in Hm. setoid_rewrite Hb in Hx.
    arith_ok. zcase; [left; eauto 10 with lia|].
    zcase; [right; left; by eauto|]. right; right. split; [done|]. intros y Hy Hyb.
    specialize (Hm y Hy Hyb). lia.
  - right; right. split; [done|]. intros y Hy Hyb.
    eapply (rb_lower_get_None Z.le) in E; [done|]. destruct Hr as [Hb _]. by rewrite Hb.
Qed.

(** ** Adding a range *)

Lemma merge_left_spec s l base len o :
  repr s l → coalesced l → 0 ≤ base → 0 < len → base + len ≤ usize_max →
  find_left s base = Ok o →
  ∃ nb s' l', merge_left o base len s = Ok ((nb, base + len - nb), s') ∧
    repr s' l' ∧ coalesced l' ∧ 0 ≤ nb ≤ base ∧ (∀ y, y ∈ l' → y ∈ l) ∧
    (∀ y, y ∈ l' → fbase y ≤ base → fend y < nb) ∧
    (∀ y, y ∈ l → y ∈ l' ∨ fend y = base) ∧
    (∀ a, covers_list l a ↔ covers_list l' a ∨ nb ≤ a < base).
Proof.
  intros Hr Hco Hb Hlen Hmax Ho.
  destruct (find_left_spec s l base Hr Hco) as
    [(e & x & E & _)|[(x & E & Hx & Hend)|[E HN]]]; rewrite E in Ho; simplify_eq.
  - destruct (repr_elem s l x Hr Hx) as (l' & Hr' & Hp).
    apply (coalesced_perm _ _ Hp) in Hco as Hco'.
    destruct (remove_from_sets_spec x s l' Hr' Hco') as (s' & Hrm & Hr'').
    apply coalesced_cons in Hco' as (Hok & Hs & Hco'). unfold range_ok, fend in *.
    exists (fbase x), s', l'. unfold merge_left. rewrite uadd_ok by lia. mstep. rewrite Hrm.
    split_and!; [do 3 f_equal; lia|done..|lia|lia| | | |].
    + intros y Hy. rewrite Hp. by right.
    + intros y Hy Hyb. specialize (Hs y Hy). pose proof (coalesced_elem _ _ Hco' Hy) as Hok'.
      unfold sep, range_ok, fend in *. lia.
    + intros y. rewrite Hp, elem_of_cons. intros [->|]; auto.
    + intros a. rewrite (covers_list_perm _ _ a Hp), covers_list_cons. unfold fend. naive_solver lia.
  - exists base, s, l. replace (base + len - base) with len by lia.
    split_and!; [done..|auto|done|auto|].
    intros a. split; [auto|]. intros [?|?]; [done|lia].
Qed.

Lemma merge_right_spec s l base len nl o s0 l0 :
  repr s l → coalesced l → repr s0 l0 → coalesced l0 →
  0 ≤ base → 0 < len → base + len ≤ usize_max → 0 < nl ≤ base + len →
  (∀ y, y ∈ l → y ∈ l0) → (∀ y, y ∈ l0 → y ∈ l ∨ fend y = base) →
  find_right s0 base len = Ok o →
  ∃ re s' l', merge_right o nl s = Ok (nl + re - (base + len), s') ∧
    repr s' l' ∧ coalesced l' ∧ base + len ≤ re ≤ usize_max ∧ (∀ y, y ∈ l' → y ∈ l) ∧
    (∀ y, y ∈ l' → base ≤ fbase y → re < fbase y) ∧
    (∀ a, covers_list l a ↔ covers_list l' a ∨ base + len ≤ a < re).
Proof.
  intros Hr Hco Hr0 Hco0 Hb Hlen Hmax Hnl Hsub Hsup Ho.
  destruct (find_right_spec s0 l0 base len Hr0 Hco0 Hlen Hmax) as
    [(e & x & E & _)|[(x & E & Hx & Hend & Hlow)|[E HN]]]; rewrite E in Ho; simplify_eq.
  - assert (x ∈ l) as Hxl.
    { destruct (Hsup x Hx) as [|Hf]; [done|]. pose proof (coalesced_elem _ _ Hco0 Hx).
      unfold range_ok, fend in *. lia. }
    destruct (repr_elem s l x Hr Hxl) as (l' & Hr' & Hp).
    apply (coalesced_perm _ _ Hp) in Hco as Hco'.
    destruct (remove_from_sets_spec x s l' Hr' Hco') as (s' & Hrm & Hr'').
    apply coalesced_cons in Hco' as (Hok & Hs & Hco'). unfold range_ok, fend in *.
    exists (fend x), s', l'. unfold merge_right, fend. rewrite uadd_ok by lia.
    mstep. rewrite Hrm.
    split_and!; [do 2 f_equal; lia|done..|lia|lia| | |].
    + intros y Hy. rewrite Hp. by right.
    + intros y Hy Hyb. specialize (Hs y Hy). pose proof (coalesced_elem _ _ Hco' Hy) as Hok'.
      assert (y ∈ l) as Hyl by (rewrite Hp; by right).
      specialize (Hlow y (Hsub y Hyl) Hyb). unfold sep, range_ok, fend in *. lia.
    + intros a. rewrite (covers_list_perm _ _ a Hp), covers_list_cons. unfold fend. naive_solver lia.
  - exists (base + len), s, l. replace (nl + (base + len) - (base + len)) with nl by lia.
    split_and!; [done..|auto|].
    intros a. split; [auto|]. intros [?|?]; [done|lia].
Qed.

Lemma find_left_free s l base :
  repr s l → coalesced l → ¬ covers_list l base → ∃ o, find_left s base = Ok o.
Proof.
  intros Hr Hco Hfree.
  destruct (find_left_spec s l base Hr Hco) as [(e & x & _ & Hx & ?)|[(x & -> & _)|[-> _]]]; [|eauto..].
  destruct Hfree. by exists x.
Qed.

Lemma find_right_free s l base len :
  repr s l → coalesced l → 0 < len → base + len ≤ usize_max →
  (∀ a, base ≤ a < base + len → ¬ covers_list l a) → ∃ o, find_right s base len = Ok o.
Proof.
  intros Hr Hco Hlen Hmax Hfree.
  destruct (find_right_spec s l base len Hr Hco Hlen Hmax) as
    [(e & x & _ & Hx & ?)|[(x & -> & _)|[-> _]]]; [|eauto..].
  destruct (Hfree (fbase x)); [done|]. exists x. split; [done|].
  pose proof (coalesced_elem _ _ Hco Hx). unfold range_ok, fend in *. lia.
Qed.

Lemma add_range_free s base len :
  fs_inv s → 0 ≤ base → 0 < len → base + len ≤ usize_max →
  (∀ a, base ≤ a < base + len → ¬ covers s a) →
  ∃ s', add_range base len s = Ok (tt, s') ∧ fs_inv s' ∧
    ∀ a, covers s' a ↔ covers s a ∨ base ≤ a < base + len.
Proof.
  intros (l & Hr & Hco) Hb Hlen Hmax Hfree. unfold add_range.
  assert (∀ a, base ≤ a < base + len → ¬ covers_list l a) as Hfree'.
  { intros a Ha Hc. apply (Hfree a Ha). by rewrite (covers_repr _ l). }
  destruct (find_left_free s l base Hr Hco) as [o El]; [by apply Hfree'; lia|].
  destruct (find_right_free s l base len Hr Hco Hlen Hmax Hfree') as [o' Er].
  destruct (merge_left_spec s l base len o Hr Hco Hb Hlen Hmax El) as
    (nb & s1 & l1 & E1 & Hr1 & Hco1 & Hnb & Hs1 & Hlo & Hsup & Hc1).
  destruct (merge_right_spec s1 l1 base len (base + len - nb) o' s l) as
    (re & s2 & l2 & E2 & Hr2 & Hco2 & Hre & Hs2 & Hhi & Hc2); [done..|lia|done|done|done|].
  destruct (add_to_sets_spec nb (re - nb) s2 l2 Hr2) as (s3 & E3 & Hr3).
  exists s3. zcase; [lia|]. mstep. rewrite El, Er, E1, E2.
  replace (base + len - nb + re - (base + len)) with (re - nb) by lia.
  split_and!; [done| |].
  - exists (mkFree nb (re - nb) :: l2). split; [done|]. apply coalesced_cons.
    unfold range_ok, fend; simpl. split_and!; [lia..| |done].
    intros y Hy. unfold sep, fend; simpl.
    destruct (Z.le_gt_cases base (fbase y)); [left|right].
    + specialize (Hhi y Hy). lia.
    + specialize (Hlo y (Hs2 y Hy)). unfold fend in Hlo. lia.
  - intros a. rewrite (covers_repr _ _ a Hr3), (covers_repr _ _ a Hr), covers_list_cons.
    rewrite (Hc1 a), (Hc2 a). unfold fend; simpl. split.
    + intros [?|?]; [|by auto]. destruct (Z.lt_ge_cases a base), (Z.lt_ge_cases a (base + len)); auto with lia.
    + intros [[[?|?]|?]|?]; auto with lia.
Qed.

Lemma add_range_overlap s base len :
  fs_inv s → 0 ≤ base → 0 < len → base + len ≤ usize_max →
  (∃ a, base ≤ a < base + len ∧ covers s a) →
  ∃ e, add_range base len s = Err (e, s).
Proof.
  intros (l & Hr & Hco) Hb Hlen Hmax (a & Ha & Hc). rewrite (covers_repr _ l) in Hc by done.
  destruct Hc as (x & Hx & Hxa). unfold add_range. zcase; [lia|]. mstep.
  destruct (find_left_spec s l base Hr Hco) as
    [(e & y & -> & _)|[(y & -> & Hy & Hend)|[-> HN]]]; [by eexists|..];
  destruct (find_right_spec s l base len Hr Hco Hlen Hmax) as
    [(e & z & -> & _)|[(z & -> & Hz & Hzb & Hlow)|[-> HN']]]; try by eexists.
  all: exfalso; pose proof (coalesced_elem _ _ Hco Hx) as Hok; unfold range_ok in Hok.
  all: assert (fbase x < base) by
    (destruct (Z.lt_ge_cases (fbase x) base); [done|];
     try specialize (Hlow x Hx ltac:(lia)); try specialize (HN' x Hx ltac:(lia)); lia).
  all: try (specialize (HN x Hx); lia).
  all: destruct (coalesced_sep _ _ _ Hco Hx Hy) as [<-|Hsep]; [lia|].
  all: pose proof (coalesced_elem _ _ Hco Hy) as Hok'.
  all: unfold sep, range_ok, fend in *; lia.
Qed.

(** ** Removing a range *)

(** What is left of [x] below and above the cut. *)
Definition piece (lo hi : Z) : list Free := if lo <? hi then [mkFree lo (hi - lo)] else [].

Lemma covers_piece lo hi l a : covers_list (piece lo hi ++ l) a ↔ lo ≤ a < hi ∨ covers_list l a.
Proof.
  unfold piece. zcase; simpl.
  - rewrite covers_list_cons. unfold fend; simpl. naive_solver lia.
  - naive_solver lia.
Qed.

Lemma coalesced_piece lo hi l :
  0 ≤ lo → hi ≤ usize_max → coalesced l →
  (lo < hi → ∀ y, y ∈ l → sep (mkFree lo (hi - lo)) y) → coalesced (piece lo hi ++ l).
Proof.
  intros ??? Hs. unfold piece. zcase; [|done]. simpl. apply coalesced_cons.
  unfold range_ok, fend; simpl. split_and!; [lia..|auto|done].
Qed.

Lemma add_piece_spec lo hi s l :
  repr s l → ∃ s',
    (if lo <? hi then let! n := mlift (usub hi lo) in add_to_sets lo n else mret tt) s = Ok (tt, s') ∧
    repr s' (piece lo hi ++ l).
Proof.
  intros Hr. unfold piece. zcase; [|by eauto].
  rewrite usub_ok by lia. mstep. by apply add_to_sets_spec.
Qed.

Lemma remove_unchecked_spec x s l cb cl :
  repr s (x :: l) → coalesced (x :: l) →
  fbase x ≤ cb → 0 < cl → cb + cl ≤ fend x →
  ∃ s', remove_range_by_base_unchecked cb cl (fbase x) (flength x) s = Ok (tt, s') ∧
    fs_inv s' ∧ ∀ a, covers s' a ↔ covers s a ∧ ¬ (cb ≤ a < cb + cl).
Proof.
  intros Hr Hco Hlo Hcl Hhi.
  destruct (remove_from_sets_spec x s l Hr Hco) as (s1 & E1 & Hr1).
  pose proof Hco as (Hok & Hs & Hco')%coalesced_cons. unfold range_ok in Hok.
  destruct (add_piece_spec (fbase x) cb s1 l Hr1) as (s2 & E2 & Hr2).
  destruct (add_piece_spec (cb + cl) (fend x) s2 _ Hr2) as (s3 & E3 & Hr3).
  exists s3. unfold fend in *. split_and!.
  - unfold remove_range_by_base_unchecked. unfold mbind' at 1. rewrite E1.
    unfold mbind' at 1. rewrite E2. rewrite !uadd_ok by lia.
    rewrite (Z.add_comm (flength x)). exact E3.
  - eexists. split; [done|].
    assert (∀ lo hi, fbase x ≤ lo → hi ≤ fend x → lo < hi → ∀ y, y ∈ l → sep (mkFree lo (hi - lo)) y).
    { intros lo hi ??? y Hy. specialize (Hs y Hy). unfold sep, fend in *; simpl. lia. }
    unfold fend in *. apply coalesced_piece; [lia..| |].
    + apply coalesced_piece; [lia..|done|]. intros ?. auto with lia.
    + intros Hlt y. unfold piece. zcase; simpl; [|auto with lia].
      rewrite elem_of_cons. intros [->|?]; [|auto with lia]. unfold sep, fend; simpl. lia.
  - intros a. rewrite (covers_repr _ _ a Hr3), (covers_repr _ _ a Hr), !covers_piece, covers_list_cons.
    assert (covers_list l a → a < fbase x ∨ fend x ≤ a).
    { intros (y & Hy & Hya). specialize (Hs y Hy). unfold sep, fend in *. lia. }
    unfold fend in *. split; [|intros [[?|?] ?]; auto; destruct (Z.lt_ge_cases a cb); auto with lia].
    intros [?|[?|Hc]]; [split; [left|]; lia..|]. split; [by right|]. specialize (H Hc). lia.
Qed.

Lemma covered_single l base len :
  coalesced l → 0 < len → (∀ a, base ≤ a < base + len → covers_list l a) →
  ∃ x, x ∈ l ∧ fbase x ≤ base ∧ base + len ≤ fend x.
Proof.
  intros Hco Hlen Hall. destruct (Hall base) as (x & Hx & Hxb); [lia|].
  exists x. split_and!; [done|lia|]. destruct (Z.le_gt_cases (base + len) (fend x)); [done|].
  destruct (Hall (fend x)) as (y & Hy & Hyb); [lia|].
  destruct (coalesced_sep _ _ _ Hco Hx Hy) as [<-|Hsep]; unfold sep, fend in *; lia.
Qed.

Lemma remove_by_base_hit s base len :
  fs_inv s → 0 ≤ base → 0 < len → base + len ≤ usize_max →
  (∀ a, base ≤ a < base + len → covers s a) →
  ∃ s', remove_range_by_base base len s = Ok (tt, s') ∧ fs_inv s' ∧
    ∀ a, covers s' a ↔ covers s a ∧ ¬ (base ≤ a < base + len).
Proof.
  intros (l & Hr & Hco) Hb Hlen Hmax Hall. setoid_rewrite (covers_repr _ l) in Hall; [|done].
  destruct (covered_single l base len Hco Hlen Hall) as (x & Hx & Hxb & Hxe).
  unfold remove_range_by_base. unfold mbind' at 1, mget.
  destruct (rb_get _ _) as [y|] eqn:E.
  2: { eapply (rb_upper_get_None Z.le) in E; [done|]. destruct Hr as [Hrb _]. by rewrite Hrb. }
  destruct (upper_spec _ _ _ _ Hr E) as (Hy & Hk & Hm). specialize (Hm x Hx Hxb).
  pose proof (coalesced_elem _ _ Hco Hx). pose proof (coalesced_elem _ _ Hco Hy).
  assert (x = y) as <-.
  { destruct (coalesced_sep _ _ _ Hco Hx Hy); [done|]. unfold sep, range_ok, fend in *. lia. }
  unfold range_ok in *. unfold fend in *. rewrite !uadd_ok by lia. mstep. zcase; [lia|].
  destruct (repr_elem s l x Hr Hx) as (l' & Hr' & Hp).
  apply (remove_unchecked_spec x s l'); [done|by eapply coalesced_perm|done..].
Qed.

Lemma remove_by_base_miss s base len :
  fs_inv s → 0 ≤ base → 0 < len → base + len ≤ usize_max →
  (∃ a, base ≤ a < base + len ∧ ¬ covers s a) →
  ∃ e, remove_range_by_base base len s = Err (e, s).
Proof.
  intros (l & Hr & Hco) Hb Hlen Hmax (a & Ha & Hn). unfold remove_range_by_base. mstep.
  destruct (rb_get _ _) as [y|] eqn:E; [|by eexists].
  destruct (upper_spec _ _ _ _ Hr E) as (Hy & Hk & Hm).
  pose proof (coalesced_elem _ _ Hco Hy). unfold range_ok, fend in *.
  rewrite !uadd_ok by lia. zcase; [by eexists|]. destruct Hn.
  rewrite (covers_repr _ l) by done. exists y. unfold fend. split; [done|lia].
Qed.

(** ** Best fit *)

Lemma remove_by_length_hit s len y :
  fs_inv s → 0 < len → y ∈ rb_elems (base_set s) → len ≤ flength y →
  ∃ x s', remove_range_by_length len s = Ok (fbase x, s') ∧ fs_inv s' ∧
    x ∈ rb_elems (base_set s) ∧ len ≤ flength x ∧
    (∀ z, z ∈ rb_elems (base_set s) → len ≤ flength z → flength x ≤ flength z) ∧
    ∀ a, covers s' a ↔ covers s a ∧ ¬ (fbase x ≤ a < fbase x + len).
Proof.
  intros (l & Hr & Hco) Hlen Hy Hfit. unfold remove_range_by_length. unfold mbind' at 1, mget.
  destruct (rb_get _ _) as [x|] eqn:E.
  2: { exfalso. eapply (rb_lower_get_None Z.le) in E; [done|]. destruct Hr as [Hrb Hrl].
       by rewrite Hrl, <-Hrb. }
  apply (rb_lower_get Z.le) in E as (Hx & Hk & Hm).
  destruct Hr as [Hrb Hrl]. setoid_rewrite Hrl in Hx. setoid_rewrite Hrl in Hm.
  destruct (repr_elem s l x (conj Hrb Hrl) Hx) as (l' & Hr' & Hp).
  destruct (remove_unchecked_spec x s l' (fbase x) len) as (s' & E' & Hi & Hc);
    [done|by eapply coalesced_perm|lia|lia|unfold fend; lia|].
  exists x, s'. unfold mbind' at 1. rewrite E'. split_and!; try done.
  - by rewrite Hrb.
  - intros z Hz. apply Hm. by rewrite <-Hrb.
Qed.

Lemma remove_by_length_miss s len :
  fs_inv s → (∀ y, y ∈ rb_elems (base_set s) → flength y < len) →
  ∃ e, remove_range_by_length len s = Err (e, s).
Proof.
  intros (l & [Hrb Hrl] & Hco) Hn. unfold remove_range_by_length. mstep.
  destruct (rb_get _ _) as [x|] eqn:E; [|by eexists].
  apply (rb_lower_get Z.le) in E as (Hx & Hk & _).
  specialize (Hn x). rewrite Hrb, <-Hrl in Hn. specialize (Hn Hx). lia.
Qed.

(** ** Correctness *)

Lemma new_inv : fs_inv new.
Proof.
  exists []. unfold new, repr, coalesced; simpl.
  by rewrite (rb_elems_empty (O := OB)), (rb_elems_empty (O := OL)).
Qed.

(** adding a range to a coalesced free set either reports a conflict, exactly
    when some address of the range is already free, and then leaves the set
    unchanged; or it succeeds, keeps the set coalesced, and the free addresses
    become the old ones together with the added range. *)
Lemma add_range_correct s base len
    (Hinv : fs_inv s) (Hb : 0 ≤ base) (Hlen : 0 < len) (Hmax : base + len ≤ usize_max) :
  ((∃ a, base ≤ a < base + len ∧ covers s a) → ∃ e, add_range base len s = Err (e, s)) ∧
  ((∀ a, base ≤ a < base + len → ¬ covers s a) →
   ∃ s', add_range base len s = Ok (tt, s') ∧ fs_inv s' ∧
     ∀ a, covers s' a ↔ covers s a ∨ base ≤ a < base + len).
Proof. split; intros; [by apply add_range_overlap|by apply add_range_free]. Qed.

(** removing a non-empty range at a given base succeeds exactly when all of
    its addresses are free; the free addresses lose that range and nothing
    else, and the set stays coalesced.  Otherwise an error is returned and the
    set is unchanged. *)
Lemma remove_range_by_base_correct s base len
    (Hinv : fs_inv s) (Hb : 0 ≤ base) (Hlen : 0 < len) (Hmax : base + len ≤ usize_max) :
  ((∀ a, base ≤ a < base + len → covers s a) →
   ∃ s', remove_range_by_base base len s = Ok (tt, s') ∧ fs_inv s' ∧
     ∀ a, covers s' a ↔ covers s a ∧ ¬ (base ≤ a < base + len)) ∧
  ((∃ a, base ≤ a < base + len ∧ ¬ covers s a) →
   ∃ e, remove_range_by_base base len s = Err (e, s)).
Proof. split; intros; [by apply remove_by_base_hit|by apply remove_by_base_miss]. Qed.

(** removing by length is best fit: it fails, without changing the set,
    exactly when no free range is long enough; otherwise it cuts the request
    from the bottom of a shortest sufficient range, returns that range's base,
    and keeps the set coalesced. *)
Lemma remove_range_by_length_correct s len (Hinv : fs_inv s) (Hlen : 0 < len) :
  ((∀ y, y ∈ rb_elems (base_set s) → flength y < len) →
   ∃ e, remove_range_by_length len s = Err (e, s)) ∧
  (∀ y, y ∈ rb_elems (base_set s) → len ≤ flength y →
   ∃ x s', remove_range_by_length len s = Ok (fbase x, s') ∧ fs_inv s' ∧
     x ∈ rb_elems (base_set s) ∧ len ≤ flength x ∧
     (∀ z, z ∈ rb_elems (base_set s) → len ≤ flength z → flength x ≤ flength z) ∧
     ∀ a, covers s' a ↔ covers s a ∧ ¬ (fbase x ≤ a < fbase x + len)).
Proof.
  split; [by apply remove_by_length_miss|]. intros y ??. by eapply remove_by_length_hit.
Qed.

(** [FreeSet::clone] returns an empty set whatever it is given: the loop
    starts from [RBTree::cursor()], which is the null cursor, so its body never
    runs. *)
Lemma clone_is_empty s : clone s = new.
Proof. unfold clone. by rewrite rb_cursor_null. Qed.
End freeset.

(** ** Concrete runs *)

#[global] Instance list_base_tree : RBTree fbase (list Free) := list_tree Z.le fbase.
#[global] Instance list_length_tree : RBTree flength (list Free) := list_tree Z.le flength.
#[global] Instance Zle_total : Total Z.le.
Proof. intros ??. lia. Qed.
#[global] Instance list_base_tree_spec : RBTreeSpec Z.le list_base_tree.
Proof. apply list_tree_spec; apply _. Qed.
#[global] Instance list_length_tree_spec : RBTreeSpec Z.le list_length_tree.
Proof. apply list_tree_spec; apply _. Qed.

Definition ListFreeSet : Type := FreeSet (list Free) (list Free).

Definition fs_of (l : list Free) : ListFreeSet := mkFreeSet l l.

Definition fs_demo : ListFreeSet := fs_of [mkFree 0 5; mkFree 10 5].
Lemma isort_perm key l : isort Z.le key l ≡ₚ (l : list Free).
Proof.
  induction l as [|x l IH]; simpl; [done|].
  destruct (ins_split Z.le key x (isort Z.le key l)) as (l1 & l2 & E & ->).
  by rewrite <-Permutation_middle, <-E, IH.
Qed.

Lemma fs_of_repr l : repr (fs_of l) l.
Proof. split; apply isort_perm. Qed.

Lemma fs_of_inv l : coalesced l → fs_inv (fs_of l).
Proof. intros Hc. exists l. split; [apply fs_of_repr|done]. Qed.

Lemma fs_demo_inv : fs_inv fs_demo.
Proof.
  apply fs_of_inv. unfold coalesced, range_ok, sep, fend, usize_max. simpl.
  repeat constructor; simpl; lia.
Qed.

Lemma fs_demo_covers a : covers fs_demo a ↔ 0 ≤ a < 5 ∨ 10 ≤ a < 15.
Proof.
  unfold fs_demo. rewrite (covers_repr _ _ a (fs_of_repr _)).
  rewrite !covers_list_cons. unfold fend, covers_list. simpl. set_solver by lia.
Qed.

Lemma add_range_witness :
  (∃ s', add_range 5 5 fs_demo = Ok (tt, s') ∧ fs_inv s' ∧
     ∀ a, covers s' a ↔ covers fs_demo a ∨ 5 ≤ a < 5 + 5) ∧
  (∃ e, add_range 4 2 fs_demo = Err (e, fs_demo)).
Proof.
  split.
  - apply (add_range_correct fs_demo 5 5 fs_demo_inv); [lia..|unfold usize_max; lia|].
    intros a Ha. rewrite fs_demo_covers. lia.
  - apply (add_range_correct fs_demo 4 2 fs_demo_inv); [lia..|unfold usize_max; lia|].
    exists 4. rewrite fs_demo_covers. lia.
Defined.

Lemma remove_range_by_base_witness :
  ∃ s', remove_range_by_base 11 2 fs_demo = Ok (tt, s') ∧ fs_inv s' ∧
    ∀ a, covers s' a ↔ covers fs_demo a ∧ ¬ (11 ≤ a < 11 + 2).
Proof.
  apply (remove_range_by_base_correct fs_demo 11 2 fs_demo_inv); [lia..|unfold usize_max; lia|].
  intros a Ha. rewrite fs_demo_covers. lia.
Defined.

Lemma remove_range_by_length_witness :
  ∃ e, remove_range_by_length 6 fs_demo = Err (e, fs_demo).
Proof.
  apply (remove_range_by_length_correct fs_demo 6 fs_demo_inv); [lia|].
  intros y Hy. vm_compute in Hy. set_solver by (simpl; lia).
Defined.

Lemma clone_is_empty_witness : clone fs_demo = new.
Proof. apply (clone_is_empty fs_demo). Defined.

(** an empty cut is accepted inside a free range and splits it in two: after
    [remove_range_by_base(5, 0)] on the free range [0, 10) all ten addresses are
    still free, but a request for ten bytes is refused. *)
Lemma empty_cut_fragments :
  ∃ s', remove_range_by_base 5 0 (fs_of [mkFree 0 10]) = Ok (tt, s') ∧
    remove_range_by_length 10 s' = Err ("there is no free range big enough"%string, s') ∧
    is_Some (match remove_range_by_length 10 (fs_of [mkFree 0 10]) with Ok r => Some r | _ => None end).
Proof. eexists. split_and!; [vm_compute; reflexivity..|]. vm_compute. eauto. Qed.
