(* ===== verification/Buddy.v ===== *)
(** * The buddy page allocator (src/memory/heap.rs, [BuddyPageAllocator])

    Free blocks carry their list node in their own first bytes, so the model
    keeps the memory that holds the nodes: [mem] maps the virtual address of a
    page to the [FreeBlockNode] stored there.  Memory a node was never written
    to reads as zeroes.  A client of the allocator may write to the blocks it
    owns; [Client] models that. *)

From S2P Require Import Prelude.

Definition MAX_ORDER : nat := 18.
Definition BUDDY_NONE : Z := 2 ^ 64 - 1.
Definition BUDDY_FREE_MAGIC : Z := 0xBDDFFACE.
Definition MAX_REGIONS : Z := 256.

Record FreeBlockNode : Type := mkNode { magic : Z; order : Z; next : Z; prev : Z }.
Record PhysRegion : Type := mkRegion { rbase : Z; rend : Z }.
Definition EMPTY_REGION : PhysRegion := mkRegion 0 0.

(** [BuddyPageAllocator] and the memory its nodes live in. *)
Record Buddy : Type := mkBuddy {
  free_heads : list Z;
  regions : list PhysRegion;
  region_count : Z;
  mem : gmap Z FreeBlockNode;
}.

Abbreviation Op A := (M Buddy Empty_set A).

Definition set_heads (f : list Z → list Z) (s : Buddy) : Buddy :=
  mkBuddy (f (free_heads s)) (regions s) (region_count s) (mem s).
Definition set_mem (f : gmap Z FreeBlockNode → gmap Z FreeBlockNode) (s : Buddy) : Buddy :=
  mkBuddy (free_heads s) (regions s) (region_count s) (f (mem s)).

(** Reading and writing through a [*mut FreeBlockNode]. *)
Definition node0 : FreeBlockNode := mkNode 0 0 0 0.
Definition node_at (m : gmap Z FreeBlockNode) (virt : Z) : FreeBlockNode := default node0 (m !! virt).
Definition upd_node (virt : Z) (f : FreeBlockNode → FreeBlockNode) : Op unit :=
  mmodify (set_mem (λ m, <[virt := f (node_at m virt)]> m)).
Definition read_node (virt : Z) : Op FreeBlockNode := λ s, Ok (node_at (mem s) virt, s).
Definition set_magic (x : Z) (n : FreeBlockNode) := mkNode x (order n) (next n) (prev n).
Definition set_next (x : Z) (n : FreeBlockNode) := mkNode (magic n) (order n) x (prev n).
Definition set_prev (x : Z) (n : FreeBlockNode) := mkNode (magic n) (order n) (next n) x.

(** [self.free_heads[i]], which panics out of range. *)
Definition get_head (o : nat) : Op Z := λ s,
  match free_heads s !! o with Some h => Ok (h, s) | None => Panic end.
Definition set_head (o : nat) (h : Z) : Op unit := λ s,
  match free_heads s !! o with
  | Some _ => Ok (tt, set_heads (<[o := h]>) s)
  | None => Panic
  end.

Definition new : Buddy :=
  mkBuddy (replicate (MAX_ORDER + 1) BUDDY_NONE) (replicate (Z.to_nat MAX_REGIONS) EMPTY_REGION) 0 ∅.

Definition add_region (base endp : Z) : Op unit := λ s,
  if MAX_REGIONS <=? region_count s then Ok (tt, s)
  else Ok (tt, mkBuddy (free_heads s) (<[Z.to_nat (region_count s) := mkRegion base endp]> (regions s))
                 (region_count s + 1) (mem s)).

Definition block_size_bytes (o : nat) : Z := Z.shiftl PAGE_SIZE (Z.of_nat o).

(** [usize::next_power_of_two], which overflows above [2^63]. *)
Definition next_power_of_two {E} (n : Z) : res E Z :=
  let p := 2 ^ Z.log2_up n in if p <=? usize_max then Ok p else Panic.
Definition trailing_zeros (n : Z) : Z := Z.log2 (Z.land n (- n)).

Definition order_for_pages {E} (pages : Z) : res E (option nat) :=
  if pages =? 0 then Ok None
  else let? p2 := next_power_of_two pages in
       let o := trailing_zeros p2 in
       Ok (if Z.of_nat MAX_ORDER <? o then None else Some (Z.to_nat o)).

Definition contains_in_same_region (s : Buddy) (addr size : Z) : bool :=
  let endp := wrap 64 (addr + size) in
  existsb (λ r, (rbase r <=? addr) && (endp <=? rend r))
    (take (Z.to_nat (region_count s)) (regions s)).

Definition push_free (hhdm_offset : Z) (o : nat) (phys : Z) : Op unit :=
  let! old_head := get_head o in
  let! virt := mlift (uadd phys hhdm_offset) in
  let! _ := upd_node virt (λ _, mkNode BUDDY_FREE_MAGIC (Z.of_nat o) old_head BUDDY_NONE) in
  let! _ := (if old_head =? BUDDY_NONE then mret tt
             else let! old_virt := mlift (uadd old_head hhdm_offset) in
                  upd_node old_virt (set_prev phys)) in
  set_head o phys.

Definition pop_free (hhdm_offset : Z) (o : nat) : Op (option Z) :=
  let! head := get_head o in
  if head =? BUDDY_NONE then mret None
  else
    let! virt := mlift (uadd head hhdm_offset) in
    let! _ := upd_node virt (set_magic 0) in
    let! n := read_node virt in
    let! _ := (if next n =? BUDDY_NONE then mret tt
               else let! next_virt := mlift (uadd (next n) hhdm_offset) in
                    upd_node next_virt (set_prev BUDDY_NONE)) in
    let! _ := set_head o (next n) in
    mret (Some head).

Definition try_remove_buddy (hhdm_offset : Z) (o : nat) (target : Z) : Op bool :=
  let! virt := mlift (uadd target hhdm_offset) in
  let! n := read_node virt in
  if negb (magic n =? BUDDY_FREE_MAGIC) || negb (order n =? Z.of_nat o) then mret false
  else
    let! _ := (if prev n =? BUDDY_NONE then set_head o (next n)
               else let! prev_node := mlift (uadd (prev n) hhdm_offset) in
                    upd_node prev_node (set_next (next n))) in
    let! _ := (if next n =? BUDDY_NONE then mret tt
               else let! next_node := mlift (uadd (next n) hhdm_offset) in
                    upd_node next_node (set_prev (prev n))) in
    let! _ := upd_node virt (set_magic 0) in
    mret true.

(** The inner [loop] of [add_range]: the largest order, from [o] down, whose
    block fits in [pages] and at whose size [base] is aligned; order 0 if none. *)
Fixpoint pick_order (o : nat) (base pages : Z) : nat :=
  let block_pages := Z.shiftl 1 (Z.of_nat o) in
  let block_bytes := block_pages * PAGE_SIZE in
  if (block_pages <=? pages) && is_multiple_of base block_bytes then o
  else match o with O => O | S o => pick_order o base pages end.

(** The outer [while pages > 0]; every turn uses at least one page, so [pages]
    turns of fuel are enough. *)
Fixpoint add_range_loop (fuel : nat) (hhdm_offset base pages : Z) : Op unit :=
  match fuel with
  | O => mret tt
  | S fuel =>
      if pages <=? 0 then mret tt
      else
        let o := pick_order MAX_ORDER base pages in
        let used_pages := Z.shiftl 1 (Z.of_nat o) in
        let! _ := push_free hhdm_offset o base in
        let! base := mlift (uadd base (used_pages * PAGE_SIZE)) in
        let! pages := mlift (usub pages used_pages) in
        add_range_loop fuel hhdm_offset base pages
  end.

Definition add_range (hhdm_offset base pages : Z) : Op unit :=
  if pages =? 0 then mret tt
  else
    let! bytes := mlift (umul pages PAGE_SIZE) in
    let! endp := mlift (uadd base bytes) in
    let! _ := add_region base endp in
    add_range_loop (Z.to_nat pages) hhdm_offset base pages.

(** [while cur_order <= MAX_ORDER]: the first non-empty list at [cur_order] or
    above; [MAX_ORDER + 1] when there is none. *)
Fixpoint find_order (fuel cur_order : nat) : Op nat :=
  match fuel with
  | O => mret cur_order
  | S fuel =>
      if decide (cur_order ≤ MAX_ORDER)%nat then
        let! h := get_head cur_order in
        if negb (h =? BUDDY_NONE) then mret cur_order
        else find_order fuel (S cur_order)
      else mret cur_order
  end.

(** [while cur_order > order]: hand back the upper halves. *)
Fixpoint split_down (n : nat) (hhdm_offset : Z) (o : nat) (block : Z) : Op unit :=
  match n with
  | O => mret tt
  | S n =>
      let cur_order := (o + n)%nat in
      let! buddy := mlift (uadd block (block_size_bytes cur_order)) in
      let! _ := push_free hhdm_offset cur_order buddy in
      split_down n hhdm_offset o block
  end.

Definition alloc_pages (hhdm_offset : Z) (o : nat) : Op (option Z) :=
  if decide (MAX_ORDER < o)%nat then mret None
  else
    let! cur_order := find_order (S MAX_ORDER) o in
    if decide (MAX_ORDER < cur_order)%nat then mret None
    else
      let! b := pop_free hhdm_offset cur_order in
      match b with
      | None => mret None
      | Some block =>
          let! _ := split_down (cur_order - o) hhdm_offset o block in
          mret (Some block)
      end.

(** The [loop] of [free_pages]; the order grows by one each turn and the loop
    ends when it passes [MAX_ORDER]. *)
Fixpoint free_loop (fuel : nat) (hhdm_offset base : Z) (o : nat) : Op unit :=
  match fuel with
  | O => mret tt
  | S fuel =>
      let size := block_size_bytes o in
      let buddy := Z.lxor base size in
      let combined_base := Z.min base buddy in
      let! s := mget in
      if negb (contains_in_same_region s combined_base (size * 2)) then
        push_free hhdm_offset o base
      else
        let! removed := try_remove_buddy hhdm_offset o buddy in
        if removed then
          if decide (MAX_ORDER < S o)%nat then push_free hhdm_offset MAX_ORDER combined_base
          else free_loop fuel hhdm_offset combined_base (S o)
        else push_free hhdm_offset o base
  end.

Definition free_pages (hhdm_offset base : Z) (o : nat) : Op unit :=
  if decide (MAX_ORDER < o)%nat then mret tt
  else free_loop (S MAX_ORDER) hhdm_offset base o.

(** ** Sizes and buddies *)

Lemma block_size_eq o : block_size_bytes o = 4096 * 2 ^ Z.of_nat o.
Proof. unfold block_size_bytes, PAGE_SIZE. rewrite Z.shiftl_mul_pow2 by lia. done. Qed.

Lemma block_size_pos o : 0 < block_size_bytes o.
Proof. rewrite block_size_eq. pose proof (Z.pow_pos_nonneg 2 (Z.of_nat o)). lia. Qed.

Lemma block_size_S o : block_size_bytes (S o) = 2 * block_size_bytes o.
Proof. rewrite !block_size_eq, Nat2Z.inj_succ, Z.pow_succ_r by lia. lia. Qed.

Lemma block_size_pow o : block_size_bytes o = 2 ^ (12 + Z.of_nat o).
Proof. rewrite block_size_eq, Z.pow_add_r by lia. done. Qed.

Lemma block_size_mono o o' : (o ≤ o')%nat → block_size_bytes o ≤ block_size_bytes o'.
Proof. intros. rewrite !block_size_pow. apply Z.pow_le_mono_r; lia. Qed.

(** Flipping bit [k] of a multiple of [2^k]. *)
Lemma lxor_pow2 a k : 0 ≤ k → (2 ^ k | a) →
  (a mod 2 ^ (k + 1) = 0 ∧ Z.lxor a (2 ^ k) = a + 2 ^ k) ∨
  (a mod 2 ^ (k + 1) = 2 ^ k ∧ Z.lxor a (2 ^ k) = a - 2 ^ k).
Proof.
  intros Hk [q ->]. pose proof (Z.pow_pos_nonneg 2 k).
  assert (∀ z, z * 2 ^ k = Z.shiftl z k) as Hs by (intros; by rewrite Z.shiftl_mul_pow2).
  assert (Z.lxor (q * 2 ^ k) (2 ^ k) = Z.lxor q 1 * 2 ^ k) as ->.
  { rewrite <-(Z.mul_1_l (2 ^ k)) at 2. rewrite !Hs. by rewrite Z.shiftl_lxor. }
  rewrite Z.pow_add_r by lia. change (2 ^ 1) with 2.
  rewrite (Z.mul_comm q), Z.mul_mod_distr_l by lia.
  assert (∀ r, r * 2 + 1 = Z.lxor (r * 2) 1) as Hx.
  { intros r. apply Z.add_nocarry_lxor. change 1 with (Z.ones 1) at 1.
    rewrite Z.land_ones by lia. apply Z.mod_mul. lia. }
  destruct (Z.Even_or_Odd q) as [[r ->]|[r ->]].
  - left. replace (2 * r) with (r * 2) by lia. rewrite Z.mod_mul by lia.
    rewrite <-Hx. lia.
  - right. replace (2 * r + 1) with (1 + r * 2) by lia. rewrite Z.mod_add by lia.
    rewrite (Z.add_comm 1), Hx, Z.lxor_assoc, Z.lxor_nilpotent, Z.lxor_0_r.
    change (1 mod 2) with 1. rewrite <-Hx. lia.
Qed.

Lemma buddy_cases base o : (block_size_bytes o | base) → 
  (block_size_bytes (S o) | Z.min base (Z.lxor base (block_size_bytes o))) ∧
  (block_size_bytes o | Z.lxor base (block_size_bytes o)) ∧
  (Z.lxor base (block_size_bytes o) = base + block_size_bytes o ∨
   Z.lxor base (block_size_bytes o) = base - block_size_bytes o).
Proof.
  intros Hd. rewrite block_size_S. pose proof (block_size_pos o).
  rewrite block_size_pow in *. assert (0 ≤ 12 + Z.of_nat o) as Hk by lia.
  revert Hd H Hk. generalize (12 + Z.of_nat o) as k. intros k Hd Hpos Hk.
  assert (2 * 2 ^ k = 2 ^ (k + 1)) as E by (rewrite Z.pow_add_r by lia; lia). rewrite E.
  destruct (lxor_pow2 base k Hk Hd) as [[Hm ->]|[Hm ->]].
  - rewrite Z.min_l by lia. split_and!; [by apply Z.mod_divide; lia| |by left].
    apply Z.divide_add_r; [done|reflexivity].
  - rewrite Z.min_r by lia. split_and!; [|apply Z.divide_sub_r; [done|reflexivity]|by right].
    apply Z.mod_divide; [lia|]. rewrite Zminus_mod, Hm.
    rewrite (Z.mod_small (2 ^ k)) by lia. rewrite Z.sub_diag. apply Z.mod_0_l. lia.
Qed.

(** ** Doubly linked lists in memory *)

Lemma node_at_insert m v n v' :
  node_at (<[v := n]> m) v' = if decide (v = v') then n else node_at m v'.
Proof. unfold node_at. rewrite lookup_insert. by case_decide. Qed.

Section buddy.
Context (h : Z).

(** The nodes of [l] are linked in order; the first one's [prev] is [p], the
    last one's [next] is [nx]. *)
Fixpoint seg (m : gmap Z FreeBlockNode) (o : nat) (p : Z) (l : list Z) (nx : Z) : Prop :=
  match l with
  | [] => True
  | x :: l => node_at m (x + h) = mkNode BUDDY_FREE_MAGIC (Z.of_nat o) (hd nx l) p ∧ seg m o x l nx
  end.

Lemma seg_app m o p l1 l2 nx :
  seg m o p (l1 ++ l2) nx ↔ seg m o p l1 (hd nx l2) ∧ seg m o (List.last l1 p) l2 nx.
Proof.
  revert p. induction l1 as [|x l1 IH]; intros p; [simpl; tauto|].
  cbn [app seg]. rewrite IH.
  replace (hd nx (l1 ++ l2)) with (hd (hd nx l2) l1) by (by destruct l1).
  rewrite last_default. tauto.
Qed.

Lemma seg_frame m v n o p l nx :
  (∀ y, y ∈ l → v ≠ y + h) → seg m o p l nx → seg (<[v := n]> m) o p l nx.
Proof.
  revert p. induction l as [|x l IH]; intros p Hv; [done|]. simpl. intros [Hx Hl].
  rewrite node_at_insert, decide_False by (apply Hv; by left).
  split; [done|]. apply IH; [|done]. intros y ?. apply Hv. by right.
Qed.

Lemma seg_set_prev m o p q y l nx :
  y ∉ l → seg m o p (y :: l) nx →
  seg (<[y + h := set_prev q (node_at m (y + h))]> m) o q (y :: l) nx.
Proof.
  intros Hy [Hn Hs]. split.
  - by rewrite node_at_insert, decide_True, Hn.
  - apply seg_frame; [|done]. intros z Hz ?. assert (y = z) by lia. by subst.
Qed.

Lemma seg_set_next m o p l y nx nx' :
  y ∉ l → seg m o p (l ++ [y]) nx →
  seg (<[y + h := set_next nx' (node_at m (y + h))]> m) o p (l ++ [y]) nx'.
Proof.
  rewrite !seg_app. intros Hy [Hs [Hn _]]. split; [|split; [|done]].
  - apply seg_frame; [|done]. intros z Hz ?. assert (y = z) by lia. by subst.
  - by rewrite node_at_insert, decide_True, Hn.
Qed.

Lemma seg_elem m o p l nx x :
  seg m o p l nx → x ∈ l → ∃ n q, node_at m (x + h) = mkNode BUDDY_FREE_MAGIC (Z.of_nat o) n q.
Proof.
  revert p. induction l as [|y l IH]; intros p; [by intros _ ?%not_elem_of_nil|].
  intros [Hn Hs] [->|Hx]%elem_of_cons; eauto.
Qed.

(** ** The invariant *)

Definition free_block (fl : list (list Z)) (o : nat) (x : Z) : Prop :=
  ∃ l, fl !! o = Some l ∧ x ∈ l.

(** A block the allocator may own: aligned to its size, addressable, and inside
    one registered region. *)
Definition good_block (s : Buddy) (o : nat) (x : Z) : Prop :=
  (o ≤ MAX_ORDER)%nat ∧ 0 ≤ x ∧ (block_size_bytes o | x) ∧
  x + block_size_bytes o + h ≤ usize_max ∧
  contains_in_same_region s x (block_size_bytes o) = true.

Definition apart (o : nat) (x : Z) (o' : nat) (x' : Z) : Prop :=
  x + block_size_bytes o ≤ x' ∨ x' + block_size_bytes o' ≤ x.

Record buddy_inv (s : Buddy) (fl : list (list Z)) : Prop := {
  inv_len : length fl = S MAX_ORDER;
  inv_heads : free_heads s = hd BUDDY_NONE <$> fl;
  inv_seg o l : fl !! o = Some l → seg (mem s) o BUDDY_NONE l BUDDY_NONE;
  inv_nodup o l : fl !! o = Some l → NoDup l;
  inv_good o x : free_block fl o x → good_block s o x;
  inv_apart o x o' x' : free_block fl o x → free_block fl o' x' → (o, x) ≠ (o', x') →
    apart o x o' x';
  (** only heads of free blocks carry the free-block magic *)
  inv_magic o x n q : node_at (mem s) (x + h) = mkNode BUDDY_FREE_MAGIC (Z.of_nat o) n q →
    free_block fl o x;
}.

(** The addresses that are free. *)
Definition is_free (fl : list (list Z)) (a : Z) : Prop :=
  ∃ o x, free_block fl o x ∧ x ≤ a < x + block_size_bytes o.

Definition same_regions (s s' : Buddy) : Prop :=
  regions s' = regions s ∧ region_count s' = region_count s.

Context (Hh : 0 ≤ h).

Lemma good_block_bounds s o x :
  good_block s o x → 0 ≤ x ∧ x + h < usize_max ∧ x ≠ BUDDY_NONE.
Proof.
  intros (_ & ? & _ & ? & _). pose proof (block_size_pos o).
  unfold BUDDY_NONE, usize_max in *. lia.
Qed.

Lemma good_block_regions s s' o x : same_regions s s' → good_block s o x → good_block s' o x.
Proof.
  intros [Hr Hc] (?&?&?&?&Hin). unfold good_block, contains_in_same_region in *.
  rewrite Hr, Hc. tauto.
Qed.

Lemma free_block_insert fl o l o' x :
  (o < length fl)%nat →
  free_block (<[o := l]> fl) o' x ↔ (o' = o ∧ x ∈ l) ∨ (o' ≠ o ∧ free_block fl o' x).
Proof.
  intros Hlt. unfold free_block. destruct (decide (o' = o)) as [->|Hne].
  - rewrite list_lookup_insert_eq by done. naive_solver.
  - rewrite list_lookup_insert_ne by done. naive_solver.
Qed.

(** A block is at the address of a free block only if it is that block. *)
Lemma inv_same_addr s fl o x o' :
  buddy_inv s fl → free_block fl o x → free_block fl o' x → o = o'.
Proof.
  intros Hi H1 H2. destruct (decide (o = o')) as [|Hne]; [done|].
  destruct (inv_apart _ _ Hi o x o' x H1 H2); [congruence|..];
    pose proof (block_size_pos o); pose proof (block_size_pos o'); lia.
Qed.

Lemma inv_head_lookup s fl o l :
  buddy_inv s fl → fl !! o = Some l → free_heads s !! o = Some (hd BUDDY_NONE l).
Proof. intros Hi Hl. rewrite (inv_heads _ _ Hi), list_lookup_fmap, Hl. done. Qed.

Lemma inv_lookup s fl o : buddy_inv s fl → (o ≤ MAX_ORDER)%nat → ∃ l, fl !! o = Some l.
Proof. intros Hi Ho. apply lookup_lt_is_Some. rewrite (inv_len _ _ Hi). lia. Qed.

Lemma inv_elem_ne_NONE s fl o l x : buddy_inv s fl → fl !! o = Some l → x ∈ l → x ≠ BUDDY_NONE.
Proof.
  intros Hi Hl Hx. eapply good_block_bounds, (inv_good _ _ Hi o). by exists l.
Qed.

(** The memory after [push_free]. *)
Definition push_mem (m : gmap Z FreeBlockNode) (o : nat) (x : Z) (l : list Z) :=
  let m1 := <[x + h := mkNode BUDDY_FREE_MAGIC (Z.of_nat o) (hd BUDDY_NONE l) BUDDY_NONE]> m in
  match l with
  | [] => m1
  | y :: _ => <[y + h := set_prev x (node_at m1 (y + h))]> m1
  end.

Lemma push_free_run s fl o l x :
  buddy_inv s fl → fl !! o = Some l → good_block s o x →
  push_free h o x s =
    Ok (tt, mkBuddy (<[o := x]> (free_heads s)) (regions s) (region_count s) (push_mem (mem s) o x l)).
Proof.
  intros Hi Hl Hg. pose proof (inv_head_lookup _ _ _ _ Hi Hl) as Hhd.
  destruct (good_block_bounds _ _ _ Hg) as (_ & ? & _).
  unfold push_free, get_head, set_head, upd_node. mstep. rewrite Hhd, uadd_ok by lia.
  destruct l as [|y l]; simpl; [by rewrite Hhd|].
  assert (free_block fl o y) as Hy by (exists (y :: l); split; [done|by left]).
  destruct (good_block_bounds _ _ _ (inv_good _ _ Hi _ _ Hy)) as (_ & ? & ?).
  zcase; [done|]. rewrite uadd_ok by lia. simpl. by rewrite Hhd.
Qed.

Lemma push_mem_lookup m o x l v :
  x ∉ l → node_at (push_mem m o x l) v =
    if decide (v = x + h) then mkNode BUDDY_FREE_MAGIC (Z.of_nat o) (hd BUDDY_NONE l) BUDDY_NONE
    else match l with
         | y :: _ => if decide (v = y + h) then set_prev x (node_at m v) else node_at m v
         | [] => node_at m v
         end.
Proof.
  intros Hx. unfold push_mem. destruct l as [|y l]; rewrite !node_at_insert.
  - repeat case_decide; congruence.
  - assert (x ≠ y) by set_solver.
    repeat case_decide; subst; try congruence; try lia.
Qed.

Lemma push_mem_seg m o x l :
  x ∉ l → NoDup l → seg m o BUDDY_NONE l BUDDY_NONE →
  seg (push_mem m o x l) o BUDDY_NONE (x :: l) BUDDY_NONE.
Proof.
  intros Hx Hnd Hs. split; [by rewrite push_mem_lookup, decide_True|].
  destruct l as [|y l]; [done|]. unfold push_mem. apply NoDup_cons in Hnd as [Hy _].
  eapply seg_set_prev; [done|]. apply seg_frame; [|done].
  intros z Hz ?. assert (x = z) by lia. by subst.
Qed.

Lemma push_mem_seg_other s fl o x l o' l' :
  buddy_inv s fl → fl !! o = Some l → o' ≠ o → fl !! o' = Some l' → x ∉ l' →
  seg (push_mem (mem s) o x l) o' BUDDY_NONE l' BUDDY_NONE.
Proof.
  intros Hi Hl Hne Hl' Hx. pose proof (inv_seg _ _ Hi _ _ Hl') as Hs.
  assert (seg (<[x + h := mkNode BUDDY_FREE_MAGIC (Z.of_nat o) (hd BUDDY_NONE l) BUDDY_NONE]>
    (mem s)) o' BUDDY_NONE l' BUDDY_NONE).
  { apply seg_frame; [|done]. intros z Hz ?. assert (x = z) by lia. by subst. }
  unfold push_mem. destruct l as [|y l]; [done|]. apply seg_frame; [|done].
  intros z Hz ?. assert (y = z) as -> by lia. apply Hne.
  eapply (inv_same_addr _ _ _ z); [done|by exists l'|by exists (z :: l); split; [done|left]].
Qed.

Lemma push_free_spec s fl o l x :
  buddy_inv s fl → fl !! o = Some l → good_block s o x →
  (∀ o' x', free_block fl o' x' → apart o x o' x') →
  ∃ s', push_free h o x s = Ok (tt, s') ∧ buddy_inv s' (<[o := x :: l]> fl) ∧ same_regions s s'.
Proof.
  intros Hi Hl Hg Hap. eexists. split; [by eapply push_free_run|]. split; [|done].
  assert (∀ o' l', fl !! o' = Some l' → x ∉ l') as Hx.
  { intros o' l' Hl' Hx. destruct (Hap o' x); [by exists l'|..];
      pose proof (block_size_pos o); pose proof (block_size_pos o'); lia. }
  assert (o < length fl)%nat as Hlt by (by eapply lookup_lt_Some).
  assert (∀ o' x', free_block (<[o := x :: l]> fl) o' x' ↔
    (o' = o ∧ x' = x) ∨ free_block fl o' x') as Hfb.
  { intros o' x'. rewrite free_block_insert, elem_of_cons by done.
    unfold free_block. destruct (decide (o' = o)) as [->|]; naive_solver. }
  split; simpl.
  - rewrite length_insert. by eapply inv_len.
  - by rewrite list_fmap_insert, (inv_heads _ _ Hi).
  - intros o' l'. destruct (decide (o' = o)) as [->|Hne].
    + rewrite list_lookup_insert_eq by done. intros [= <-].
      apply push_mem_seg; [eauto| |]; [by eapply inv_nodup|by eapply inv_seg].
    + rewrite list_lookup_insert_ne by done. intros Hl'. eapply push_mem_seg_other; eauto.
  - intros o' l'. destruct (decide (o' = o)) as [->|Hne].
    + rewrite list_lookup_insert_eq by done. intros [= <-].
      apply NoDup_cons. split; [eauto|by eapply inv_nodup].
    + rewrite list_lookup_insert_ne by done. by eapply inv_nodup.
  - intros o' x' [[-> ->]|Hf]%Hfb; [done|]. exact (inv_good _ _ Hi _ _ Hf).
  - intros o1 x1 o2 x2 [[-> ->]|H1]%Hfb [[-> ->]|H2]%Hfb Hne; [done|by apply Hap| |].
    + destruct (Hap _ _ H1); [by right|by left].
    + by eapply inv_apart.
  - intros o' x' n q. rewrite push_mem_lookup by eauto. rewrite Hfb. repeat case_decide.
    + intros [= ?%Nat2Z.inj]. left. lia.
    + destruct l as [|y l]; [by eauto using inv_magic|]. case_decide; [|by eauto using inv_magic].
      destruct (node_at (mem s) (x' + h)) eqn:E. unfold set_prev; simpl. intros [= -> -> -> ->].
      right. by eapply inv_magic.
Qed.

(** ** Unlinking a block *)

Lemma free_block_remove s fl o l1 x l2 :
  buddy_inv s fl → fl !! o = Some (l1 ++ x :: l2) →
  ∀ o' x', free_block (<[o := l1 ++ l2]> fl) o' x' ↔
    free_block fl o' x' ∧ (o', x') ≠ (o, x).
Proof.
  intros Hi Hl o' x'. pose proof (inv_nodup _ _ Hi _ _ Hl) as Hnd.
  rewrite free_block_insert by (by eapply lookup_lt_Some).
  rewrite NoDup_app in Hnd. destruct Hnd as (_ & Hd & [Hx _]%NoDup_cons).
  assert (x ∉ l1) by (intros ?; by apply (Hd x); [|left]).
  unfold free_block. destruct (decide (o' = o)) as [->|Hne].
  - rewrite Hl, elem_of_app. split.
    + intros [[_ Hx']|[? _]]; [|done]. split; [|intros [= ->]; tauto].
      eexists. split; [done|]. rewrite elem_of_app, elem_of_cons. tauto.
    + intros [(l & [= <-] & Hx') Hne]. left. split; [done|].
      rewrite elem_of_app, elem_of_cons in Hx'. destruct Hx' as [?|[->|?]]; tauto.
  - split; [intros [[? _]|[_ ?]]; [done|]; split; [done|congruence]|tauto].
Qed.

Lemma inv_remove s fl o l1 x l2 m' :
  buddy_inv s fl → fl !! o = Some (l1 ++ x :: l2) →
  seg m' o BUDDY_NONE (l1 ++ l2) BUDDY_NONE →
  (∀ o' l', o' ≠ o → fl !! o' = Some l' → seg m' o' BUDDY_NONE l' BUDDY_NONE) →
  (∀ v, v ≠ x + h → magic (node_at m' v) = magic (node_at (mem s) v) ∧
                    order (node_at m' v) = order (node_at (mem s) v)) →
  magic (node_at m' (x + h)) = 0 →
  buddy_inv (mkBuddy (<[o := hd BUDDY_NONE (l1 ++ l2)]> (free_heads s)) (regions s) (region_count s) m')
    (<[o := l1 ++ l2]> fl).
Proof.
  intros Hi Hl Hseg Hother Hsame Hmagic.
  assert (o < length fl)%nat as Hlt by (by eapply lookup_lt_Some).
  pose proof (free_block_remove _ _ _ _ _ _ Hi Hl) as Hfb.
  split; simpl.
  - rewrite length_insert. by eapply inv_len.
  - by rewrite list_fmap_insert, (inv_heads _ _ Hi).
  - intros o' l'. destruct (decide (o' = o)) as [->|Hne].
    + rewrite list_lookup_insert_eq by done. by intros [= <-].
    + rewrite list_lookup_insert_ne by done. eauto.
  - intros o' l'. destruct (decide (o' = o)) as [->|Hne].
    + rewrite list_lookup_insert_eq by done. intros [= <-].
      pose proof (inv_nodup _ _ Hi _ _ Hl) as Hnd.
      rewrite <-Permutation_middle in Hnd. by apply NoDup_cons in Hnd as [_ ?].
    + rewrite list_lookup_insert_ne by done. by eapply inv_nodup.
  - intros o' x' [Hf _]%Hfb. exact (inv_good _ _ Hi _ _ Hf).
  - intros o1 x1 o2 x2 [H1 _]%Hfb [H2 _]%Hfb. by eapply inv_apart.
  - intros o' x' n q E. rewrite Hfb. destruct (decide (x' = x)) as [->|Hne].
    { rewrite E in Hmagic. done. }
    destruct (Hsame (x' + h)) as [Hm Ho]; [lia|]. rewrite E in Hm, Ho. simpl in *.
    split; [|congruence]. destruct (node_at (mem s) (x' + h)) eqn:E'. simpl in *. subst.
    by eapply inv_magic.
Qed.

(** Writing to a node of list [o] does not disturb the other lists. *)
Lemma frame_list s fl o l y o' l' m n :
  buddy_inv s fl → fl !! o = Some l → y ∈ l → o' ≠ o → fl !! o' = Some l' →
  seg m o' BUDDY_NONE l' BUDDY_NONE → seg (<[y + h := n]> m) o' BUDDY_NONE l' BUDDY_NONE.
Proof.
  intros Hi Hl Hy Hne Hl'. apply seg_frame. intros z Hz ?. assert (y = z) as -> by lia.
  apply Hne. eapply (inv_same_addr _ _ _ z); [done|by exists l'|by exists l].
Qed.

Lemma pop_free_empty s fl o :
  buddy_inv s fl → fl !! o = Some [] → pop_free h o s = Ok (None, s).
Proof.
  intros Hi Hl. unfold pop_free, get_head. mstep.
  by rewrite (inv_head_lookup _ _ _ _ Hi Hl).
Qed.

Lemma pop_free_spec s fl o x l :
  buddy_inv s fl → fl !! o = Some (x :: l) →
  ∃ s', pop_free h o s = Ok (Some x, s') ∧ buddy_inv s' (<[o := l]> fl) ∧ same_regions s s'.
Proof.
  intros Hi Hl. pose proof (inv_head_lookup _ _ _ _ Hi Hl) as Hhd.
  assert (∀ y, y ∈ x :: l → y + h < usize_max ∧ y ≠ BUDDY_NONE) as Hb.
  { intros y Hy. eapply good_block_bounds, (inv_good _ _ Hi o). by exists (x :: l). }
  pose proof (inv_seg _ _ Hi _ _ Hl) as [Hn Hs].
  pose proof (inv_nodup _ _ Hi _ _ Hl) as [Hx Hnd]%NoDup_cons.
  set (m1 := <[x + h := set_magic 0 (node_at (mem s) (x + h))]> (mem s)).
  set (m2 := match l with
             | [] => m1
             | y :: _ => <[y + h := set_prev BUDDY_NONE (node_at m1 (y + h))]> m1
             end).
  exists (mkBuddy (<[o := hd BUDDY_NONE l]> (free_heads s)) (regions s) (region_count s) m2).
  assert (seg m1 o x l BUDDY_NONE) as Hs1.
  { apply seg_frame; [|done]. intros z Hz ?. assert (x = z) by lia. by subst. }
  split_and!; [| |done].
  - destruct (Hb x) as [??]; [by left|].
    unfold pop_free, get_head, set_head, upd_node, read_node. mstep. rewrite Hhd. simpl.
    zcase; [done|]. rewrite uadd_ok by lia. simpl. rewrite node_at_insert, decide_True, Hn by done.
    simpl. subst m2 m1. destruct l as [|y l]; simpl; [by rewrite Hhd|].
    destruct (Hb y) as [??]; [set_solver|].
    zcase; [done|]. rewrite uadd_ok by lia. simpl. by rewrite Hhd.
  - apply (inv_remove s fl o [] x l); [done..| | | |].
    + subst m2. destruct l as [|y l]; [done|]. apply NoDup_cons in Hnd as [Hy _].
      by eapply seg_set_prev.
    + intros o' l' Hne Hl'. subst m2 m1. pose proof (inv_seg _ _ Hi _ _ Hl').
      destruct l as [|y l].
      * by apply (frame_list s fl o [x] x); first [done|left].
      * apply (frame_list s fl o (x :: y :: l) y); [done..|set_solver|done|done|].
        by apply (frame_list s fl o (x :: y :: l) x); first [done|left].
    + intros v Hv. subst m2 m1. destruct l as [|y l]; rewrite !node_at_insert;
        repeat case_decide; subst; try congruence; try lia; done.
    + subst m2 m1. destruct l as [|y l]; rewrite !node_at_insert;
        repeat case_decide; try congruence; try lia; try done.
Qed.

Lemma try_remove_miss s fl o x :
  buddy_inv s fl → x + h ≤ usize_max → ¬ free_block fl o x →
  try_remove_buddy h o x s = Ok (false, s).
Proof.
  intros Hi Hb Hn. unfold try_remove_buddy, read_node. mstep. rewrite uadd_ok by lia. simpl.
  destruct (node_at (mem s) (x + h)) as [mg od nx pv] eqn:E. simpl.
  destruct (Z.eqb_spec mg BUDDY_FREE_MAGIC) as [->|]; [|done].
  destruct (Z.eqb_spec od (Z.of_nat o)) as [->|]; [|done].
  destruct Hn. by eapply inv_magic.
Qed.

(** The memory after unlinking [x] from [l1 ++ x :: l2]. *)
Definition unlink_mem (m : gmap Z FreeBlockNode) (l1 : list Z) (x : Z) (l2 : list Z) :=
  let pv := List.last l1 BUDDY_NONE in
  let nx := hd BUDDY_NONE l2 in
  let m1 := match l1 with
            | [] => m
            | _ => <[pv + h := set_next nx (node_at m (pv + h))]> m
            end in
  let m2 := match l2 with
            | [] => m1
            | _ => <[nx + h := set_prev pv (node_at m1 (nx + h))]> m1
            end in
  <[x + h := set_magic 0 (node_at m2 (x + h))]> m2.

Lemma last_elem (l : list Z) d : l ≠ [] → List.last l d ∈ l.
Proof.
  intros Hl. destruct (exists_last Hl) as (l' & x & ->). rewrite List.last_last.
  apply elem_of_app. right. by left.
Qed.

Lemma try_remove_run s fl o l1 x l2 :
  buddy_inv s fl → fl !! o = Some (l1 ++ x :: l2) →
  try_remove_buddy h o x s =
    Ok (true, mkBuddy (<[o := hd BUDDY_NONE (l1 ++ l2)]> (free_heads s)) (regions s)
                (region_count s) (unlink_mem (mem s) l1 x l2)).
Proof.
  intros Hi Hl. pose proof (inv_head_lookup _ _ _ _ Hi Hl) as Hhd.
  assert (∀ y, y ∈ l1 ++ x :: l2 → y + h < usize_max ∧ y ≠ BUDDY_NONE) as Hb.
  { intros y Hy. eapply good_block_bounds, (inv_good _ _ Hi o). by eexists. }
  pose proof (inv_seg _ _ Hi _ _ Hl) as Hs. apply seg_app in Hs as [_ [Hn _]].
  destruct (Hb x) as [??]; [set_solver|].
  assert (l2 ≠ [] → hd BUDDY_NONE l2 + h < usize_max ∧ hd BUDDY_NONE l2 ≠ BUDDY_NONE) as Hnx.
  { intros. apply Hb. destruct l2; [done|]. set_solver. }
  assert (l1 ≠ [] → List.last l1 BUDDY_NONE + h < usize_max ∧ List.last l1 BUDDY_NONE ≠ BUDDY_NONE) as Hpv.
  { intros. apply Hb. apply elem_of_app. left. by apply last_elem. }
  unfold try_remove_buddy, read_node, set_head, upd_node. mstep. rewrite uadd_ok by lia. rewrite Hn.
  cbn [magic order next prev]. rewrite !Z.eqb_refl. cbn [negb orb].
  unfold unlink_mem. destruct l1 as [|y1 l1].
  - simpl. rewrite Hhd. destruct l2 as [|z l2]; simpl in *; [done|].
    destruct Hnx as [??]; [done|]. zcase; [done|]. by rewrite uadd_ok by lia.
  - destruct Hpv as [??]; [done|]. zcase; [done|]. rewrite uadd_ok by lia.
    simpl in Hhd. cbn [app hd]. rewrite (list_insert_id (free_heads s)) by done.
    destruct l2 as [|z l2]; cbn [hd] in *; [done|].
    destruct Hnx as [??]; [done|]. zcase; [done|]. by rewrite uadd_ok by lia.
Qed.

Lemma unlink_mem_seg m o l1 x l2 :
  NoDup (l1 ++ x :: l2) → seg m o BUDDY_NONE (l1 ++ x :: l2) BUDDY_NONE →
  seg (unlink_mem m l1 x l2) o BUDDY_NONE (l1 ++ l2) BUDDY_NONE.
Proof.
  rewrite NoDup_app, NoDup_cons. intros (Hnd1 & Hd & Hx & Hnd2) [H1 [_ H2]]%seg_app.
  assert (∀ (y : Z) (l : list Z), y ∉ l → ∀ z, z ∈ l → y + h ≠ z + h) as Hfr.
  { intros y l Hy z Hz ?. assert (y = z) as -> by lia. done. }
  assert (x ∉ l1) by (intros ?; by apply (Hd x); [|left]).
  set (pv := List.last l1 BUDDY_NONE). set (nx := hd BUDDY_NONE l2).
  unfold unlink_mem. fold pv nx. set (m1 := match l1 with [] => _ | _ => _ end).
  assert (seg m1 o BUDDY_NONE l1 nx ∧ seg m1 o x l2 BUDDY_NONE) as [Ha Hb].
  { destruct (decide (l1 = [])) as [->|Hl1]; [done|].
    assert (m1 = <[pv + h:=set_next nx (node_at m (pv + h))]> m) as -> by (by destruct l1).
    destruct (exists_last Hl1) as (l' & p & ->). subst pv. rewrite List.last_last. apply NoDup_app in Hnd1 as (_ & Hp & _).
    split.
    - eapply seg_set_next; [|done]. intros Hin. apply (Hp p Hin). by left.
    - apply seg_frame; [|done]. apply Hfr. intros Hin. apply (Hd p); [|by right].
      apply elem_of_app. right. by left. }
  clearbody m1. set (m2 := match l2 with [] => _ | _ => _ end).
  assert (seg m2 o BUDDY_NONE l1 nx ∧ seg m2 o pv l2 BUDDY_NONE) as [Hc He].
  { subst m2 nx. destruct l2 as [|z l2]; [done|]. simpl in *. apply NoDup_cons in Hnd2 as [Hz _].
    split; [|by eapply seg_set_prev]. apply seg_frame; [|done]. apply Hfr.
    intros Hin. apply (Hd z Hin). set_solver. }
  apply seg_app. split; (apply seg_frame; [by apply Hfr|done]).
Qed.

Lemma unlink_mem_other s fl o l1 x l2 o' l' :
  buddy_inv s fl → fl !! o = Some (l1 ++ x :: l2) → o' ≠ o → fl !! o' = Some l' →
  seg (unlink_mem (mem s) l1 x l2) o' BUDDY_NONE l' BUDDY_NONE.
Proof.
  intros Hi Hl Hne Hl'. pose proof (inv_seg _ _ Hi _ _ Hl') as Hs.
  assert (∀ m n y, y ∈ l1 ++ x :: l2 → seg m o' BUDDY_NONE l' BUDDY_NONE →
    seg (<[y + h := n]> m) o' BUDDY_NONE l' BUDDY_NONE) as Hfr.
  { intros m n y Hy. by apply (frame_list s fl o (l1 ++ x :: l2)). }
  unfold unlink_mem. apply Hfr; [set_solver|].
  set (m1 := match l1 with [] => _ | _ => _ end).
  assert (seg m1 o' BUDDY_NONE l' BUDDY_NONE).
  { subst m1. destruct l1 as [|y l1]; [done|]. apply Hfr; [|done].
    apply elem_of_app. left. by apply last_elem. }
  destruct l2 as [|z l2]; [done|]. apply Hfr; [|done]. simpl. set_solver.
Qed.

Lemma unlink_mem_lookup m l1 x l2 v :
  (v ≠ x + h → magic (node_at (unlink_mem m l1 x l2) v) = magic (node_at m v) ∧
               order (node_at (unlink_mem m l1 x l2) v) = order (node_at m v)) ∧
  magic (node_at (unlink_mem m l1 x l2) (x + h)) = 0.
Proof.
  unfold unlink_mem. rewrite !node_at_insert, (decide_True (P := x + h = x + h)) by done.
  split; [|done]. intros Hv. rewrite decide_False by done.
  generalize (List.last l1 BUDDY_NONE) (hd BUDDY_NONE l2). intros pv nx.
  destruct l1, l2; rewrite ?node_at_insert; repeat case_decide;
    split; simpl; congruence.
Qed.

Lemma try_remove_hit s fl o l1 x l2 :
  buddy_inv s fl → fl !! o = Some (l1 ++ x :: l2) →
  ∃ s', try_remove_buddy h o x s = Ok (true, s') ∧ buddy_inv s' (<[o := l1 ++ l2]> fl) ∧
    same_regions s s'.
Proof.
  intros Hi Hl. eexists. split; [by eapply try_remove_run|]. split; [|done].
  apply (inv_remove s fl o l1 x l2); [done..| | | |].
  - apply unlink_mem_seg; [by eapply inv_nodup|by eapply inv_seg].
  - intros. by eapply unlink_mem_other.
  - intros v. apply unlink_mem_lookup.
  - by apply unlink_mem_lookup.
Qed.
(** ** Free addresses

    From here on the allocator's operations are described by the addresses
    they make free or take, not by the shape of the lists. *)

Definition in_block (o : nat) (x a : Z) : Prop := x ≤ a < x + block_size_bytes o.

Definition taken (fl : list (list Z)) (o : nat) (x : Z) : Prop :=
  ∀ a, in_block o x a → ¬ is_free fl a.

(** [fl'] has the free addresses of [fl] and those of one more block. *)
Definition gains (fl fl' : list (list Z)) (o : nat) (x : Z) : Prop :=
  ∀ a, is_free fl' a ↔ is_free fl a ∨ in_block o x a.

Lemma taken_apart fl o x o' x' : taken fl o x → free_block fl o' x' → apart o x o' x'.
Proof.
  intros Ht Hf. unfold apart. pose proof (block_size_pos o). pose proof (block_size_pos o').
  destruct (decide (x + block_size_bytes o ≤ x')); [by left|].
  destruct (decide (x' + block_size_bytes o' ≤ x)); [by right|].
  destruct (Ht (Z.max x x')); [unfold in_block; lia|]. exists o', x'. split; [done|lia].
Qed.

Lemma push_free_gains s fl o x :
  buddy_inv s fl → good_block s o x → taken fl o x →
  ∃ s' fl', push_free h o x s = Ok (tt, s') ∧ buddy_inv s' fl' ∧ same_regions s s' ∧
    gains fl fl' o x.
Proof.
  intros Hi Hg Ht. destruct (inv_lookup s fl o Hi) as [l Hl]; [by apply Hg|].
  destruct (push_free_spec s fl o l x) as (s' & Hrun & Hi' & Hr); [done..| |].
  { intros. by eapply taken_apart. }
  exists s', (<[o := x :: l]> fl). split_and!; [done..|].
  intros a. unfold is_free. setoid_rewrite free_block_insert; [|by eapply lookup_lt_Some].
  setoid_rewrite elem_of_cons. unfold free_block, in_block. split.
  - intros (o' & x' & [(-> & [->|Hx])|[? Hf]] & ?); [by right|left..]; [by eauto 10|].
    exists o', x'. by eauto.
  - intros [(o' & x' & (l' & Hl' & Hx) & ?)|?]; [|exists o, x; by eauto].
    exists o', x'. split; [|done]. destruct (decide (o' = o)) as [->|]; [|by eauto].
    left. split; [done|]. right. congruence.
Qed.

Lemma remove_gains s fl o l1 x l2 :
  buddy_inv s fl → fl !! o = Some (l1 ++ x :: l2) →
  gains (<[o := l1 ++ l2]> fl) fl o x ∧ taken (<[o := l1 ++ l2]> fl) o x.
Proof.
  intros Hi Hl. pose proof (free_block_remove _ _ _ _ _ _ Hi Hl) as Hfb.
  assert (free_block fl o x) as Hx by (eexists; split; [done|set_solver]).
  split.
  - intros a. unfold is_free, in_block. setoid_rewrite Hfb. split.
    + intros (o' & x' & Hf & Ha). destruct (decide ((o', x') = (o, x))) as [[= -> ->]|];
        [by right|left; by eauto 10].
    + intros [(o' & x' & [Hf _] & Ha)|Ha]; by eauto.
  - intros a Ha (o' & x' & [Hf Hne]%Hfb & Ha').
    destruct (inv_apart _ _ Hi _ _ _ _ Hf Hx Hne); unfold in_block in *; lia.
Qed.

Lemma pop_free_gains s fl o x l :
  buddy_inv s fl → fl !! o = Some (x :: l) →
  ∃ s' fl', pop_free h o s = Ok (Some x, s') ∧ buddy_inv s' fl' ∧ same_regions s s' ∧
    good_block s o x ∧ gains fl' fl o x ∧ taken fl' o x.
Proof.
  intros Hi Hl. destruct (pop_free_spec s fl o x l) as (s' & Hrun & Hi' & Hr); [done..|].
  destruct (remove_gains s fl o [] x l Hi Hl) as [Hg Ht].
  exists s', (<[o := l]> fl). split_and!; [done..| |exact Hg|exact Ht].
  apply (inv_good _ _ Hi). exists (x :: l). split; [done|by left].
Qed.

Lemma try_remove_gains s fl o x :
  buddy_inv s fl → x + h ≤ usize_max →
  try_remove_buddy h o x s = Ok (false, s) ∨
  ∃ s' fl', try_remove_buddy h o x s = Ok (true, s') ∧ buddy_inv s' fl' ∧ same_regions s s' ∧
    good_block s o x ∧ gains fl' fl o x ∧ taken fl' o x.
Proof.
  intros Hi Hx. destruct (decide (x ∈ default [] (fl !! o))) as [Hin|Hout].
  - right. destruct (fl !! o) as [l|] eqn:Hl; [|by apply not_elem_of_nil in Hin].
    simpl in Hin. assert (good_block s o x) by (apply (inv_good _ _ Hi); by exists l).
    apply list_elem_of_split in Hin as (l1 & l2 & ->).
    destruct (try_remove_hit s fl o l1 x l2) as (s' & Hrun & Hi' & Hr); [done..|].
    exists s', (<[o := l1 ++ l2]> fl). split_and!; [done..| |]; by eapply remove_gains.
  - left. eapply try_remove_miss; [done..|]. intros (l & Hl & Hin). by rewrite Hl in Hout.
Qed.
(** ** Allocation *)

Lemma contains_sub s a n a' n' :
  contains_in_same_region s a n = true → 0 ≤ a → a ≤ a' → 0 ≤ n' → a' + n' ≤ a + n →
  a + n ≤ usize_max → contains_in_same_region s a' n' = true.
Proof.
  unfold contains_in_same_region. intros Hc ?????. apply existsb_exists in Hc as (r & Hr & Hin).
  apply existsb_exists. exists r. split; [done|]. unfold wrap, usize_max in *.
  rewrite !Z.mod_small in * by lia. apply andb_true_iff in Hin as [?%Z.leb_le ?%Z.leb_le].
  apply andb_true_iff. rewrite !Z.leb_le. lia.
Qed.

Lemma good_block_halves s o x :
  good_block s (S o) x → good_block s o x ∧ good_block s o (x + block_size_bytes o).
Proof.
  intros (Ho & ? & Hd & ? & Hc). rewrite block_size_S in *. pose proof (block_size_pos o).
  assert (block_size_bytes o | x) by (eapply Z.divide_trans; [|done]; by exists 2).
  split; split_and!; try lia; try done.
  - eapply contains_sub; [done|lia..].
  - by apply Z.divide_add_r.
  - eapply contains_sub; [done|lia..].
Qed.

Lemma find_order_spec s fl fuel o :
  buddy_inv s fl → (S MAX_ORDER ≤ o + fuel)%nat →
  ∃ c, find_order fuel o s = Ok (c, s) ∧ (o ≤ c)%nat ∧
    (∀ o', (o ≤ o' < c)%nat → (o' ≤ MAX_ORDER)%nat → fl !! o' = Some []) ∧
    ((c ≤ MAX_ORDER)%nat → ∃ x l, fl !! c = Some (x :: l)).
Proof.
  intros Hi. revert o. induction fuel as [|fuel IH]; intros o Hf; cbn [find_order].
  { exists o. split_and!; [done|lia|lia|lia]. }
  case_decide as Ho; [|exists o; split_and!; [done|lia|lia|lia]].
  destruct (inv_lookup s fl o Hi Ho) as [l Hl].
  unfold get_head. mstep. rewrite (inv_head_lookup _ _ _ _ Hi Hl).
  destruct l as [|x l]; simpl.
  - destruct (IH (S o)) as (c & Hrun & Hc & Hemp & Hne); [lia|]. exists c.
    split_and!; [done|lia| |done]. intros o' ??. destruct (decide (o' = o)) as [->|]; [done|].
    apply Hemp; lia.
  - assert (x ≠ BUDDY_NONE) by (eapply inv_elem_ne_NONE; [done..|by left]).
    zcase; [done|]. exists o. split_and!; [done|lia|lia|by eauto].
Qed.

Lemma split_down_spec n s fl o x :
  buddy_inv s fl → good_block s (o + n) x → taken fl (o + n) x →
  ∃ s' fl', split_down n h o x s = Ok (tt, s') ∧ buddy_inv s' fl' ∧ same_regions s s' ∧
    good_block s o x ∧
    (∀ a, is_free fl' a ↔
      is_free fl a ∨ x + block_size_bytes o ≤ a < x + block_size_bytes (o + n)).
Proof.
  revert s fl. induction n as [|n IH]; intros s fl Hi Hg Ht.
  { rewrite Nat.add_0_r in *. exists s, fl. split_and!; [done..|]. intros a. naive_solver lia. }
  rewrite Nat.add_succ_r in *. destruct (good_block_halves _ _ _ Hg) as [Hlo Hhi].
  pose proof (block_size_S (o + n)) as HS. pose proof (block_size_pos (o + n)).
  pose proof (block_size_mono o (o + n)).
  destruct (push_free_gains s fl (o + n) (x + block_size_bytes (o + n)))
    as (s1 & fl1 & Hrun1 & Hi1 & Hr1 & Hga); [done..| |].
  { intros a Ha. apply Ht. unfold in_block in *. lia. }
  destruct (IH s1 fl1) as (s2 & fl2 & Hrun2 & Hi2 & Hr2 & Hg2 & Hfree); [done|..].
  { by eapply good_block_regions. }
  { intros a Ha [Hf|Hf]%Hga; [apply (Ht a)|]; unfold in_block in *; [lia|done|lia]. }
  exists s2, fl2. split_and!; [| |unfold same_regions in *; intuition congruence| |].
  - simpl. mstep. rewrite uadd_ok by (destruct Hhi as (_ & _ & _ & ? & _); lia).
    rewrite Hrun1. exact Hrun2.
  - done.
  - destruct Hr1 as [Ha Hb]. eapply good_block_regions; [|exact Hg2].
    unfold same_regions. by rewrite Ha, Hb.
  - intros a. rewrite Hfree, (Hga a). unfold in_block. rewrite HS. assert (o ≤ o + n)%nat by lia.
    intuition lia.
Qed.

Lemma alloc_pages_none s fl o :
  buddy_inv s fl → (∀ o', (o ≤ o' ≤ MAX_ORDER)%nat → fl !! o' = Some []) →
  alloc_pages h o s = Ok (None, s).
Proof.
  intros Hi Hemp. unfold alloc_pages. case_decide as Ho; [done|].
  destruct (find_order_spec s fl (S MAX_ORDER) o Hi) as (c & Hrun & Hc & _ & Hne); [lia|].
  mstep. rewrite Hrun. case_decide as Hcm; [done|]. destruct Hne as (x & l & Hl); [lia|].
  rewrite Hemp in Hl by lia. done.
Qed.

Lemma alloc_pages_some s fl o :
  buddy_inv s fl → ¬ (∀ o', (o ≤ o' ≤ MAX_ORDER)%nat → fl !! o' = Some []) →
  ∃ x s' fl', alloc_pages h o s = Ok (Some x, s') ∧ buddy_inv s' fl' ∧ same_regions s s' ∧
    good_block s o x ∧ gains fl' fl o x ∧ taken fl' o x.
Proof.
  intros Hi Hne. unfold alloc_pages. case_decide as Ho; [destruct Hne; intros; lia|].
  destruct (find_order_spec s fl (S MAX_ORDER) o Hi) as (c & Hrun & Hc & Hemp & Hl); [lia|].
  mstep. rewrite Hrun. case_decide as Hcm; [destruct Hne; intros; apply Hemp; lia|].
  destruct Hl as (x & l & Hl); [lia|].
  destruct (pop_free_gains s fl c x l) as (s1 & fl1 & Hrun1 & Hi1 & Hr1 & Hg & Hga & Ht); [done..|].
  rewrite Hrun1. replace c with (o + (c - o))%nat in Hg, Hga, Ht by lia.
  destruct (split_down_spec (c - o) s1 fl1 o x) as (s2 & fl2 & Hrun2 & Hi2 & Hr2 & Hg2 & Hfree);
    [done|by eapply good_block_regions|done|].
  rewrite Hrun2. exists x, s2, fl2. pose proof (block_size_mono o (o + (c - o))).
  pose proof (block_size_pos o).
  destruct Hr1 as [Ha Hb], Hr2. split_and!; [done|done|unfold same_regions; intuition congruence| | |].
  - eapply good_block_regions; [|exact Hg2]. unfold same_regions. by rewrite Ha, Hb.
  - intros a. rewrite (Hga a), (Hfree a). unfold in_block. assert (o ≤ o + (c - o))%nat by lia.
    intuition lia.
  - intros a Ha' [Hf|Hf]%Hfree; [apply (Ht a)|]; unfold in_block in *; [lia|done|lia].
Qed.
(** ** Release *)

(** No region has room for two buddies of the largest order. *)
Definition small_regions (s : Buddy) : Prop :=
  Forall (λ r, rend r - rbase r < block_size_bytes (S MAX_ORDER)) (regions s).

Lemma small_regions_contains s a n :
  small_regions s → 0 ≤ a → a + n ≤ usize_max → block_size_bytes (S MAX_ORDER) ≤ n →
  contains_in_same_region s a n = false.
Proof.
  intros Hs ???. apply not_true_iff_false. intros Hc. unfold contains_in_same_region in Hc.
  apply existsb_exists in Hc as (r & Hr & Hin). pose proof (block_size_pos (S MAX_ORDER)).
  unfold wrap, usize_max in *. rewrite Z.mod_small in Hin by lia.
  apply andb_true_iff in Hin as [?%Z.leb_le ?%Z.leb_le].
  unfold small_regions in Hs. rewrite Forall_forall in Hs. assert (r ∈ regions s) as Hx.
  { apply list_elem_of_In in Hr. by eapply subseteq_take. }
  apply Hs in Hx. lia.
Qed.

(** Two free buddies make one block of the next order. *)
Lemma good_block_combine s o x :
  good_block s o x → good_block s o (Z.lxor x (block_size_bytes o)) → (S o ≤ MAX_ORDER)%nat →
  contains_in_same_region s (Z.min x (Z.lxor x (block_size_bytes o))) (block_size_bytes o * 2) = true →
  good_block s (S o) (Z.min x (Z.lxor x (block_size_bytes o))).
Proof.
  intros (_ & ? & Hd & ? & _) (_ & ? & _ & ? & _) Ho Hc.
  destruct (buddy_cases x o Hd) as (Hd' & _ & Hb). unfold good_block.
  rewrite block_size_S in *. rewrite (Z.mul_comm 2). split_and!; [done|lia| |lia|done].
  by rewrite Z.mul_comm.
Qed.

Lemma in_block_combine o x a :
  (block_size_bytes o | x) →
  in_block (S o) (Z.min x (Z.lxor x (block_size_bytes o))) a ↔
  in_block o x a ∨ in_block o (Z.lxor x (block_size_bytes o)) a.
Proof.
  intros Hd. destruct (buddy_cases x o Hd) as (_ & _ & Hb). unfold in_block.
  rewrite block_size_S. pose proof (block_size_pos o). lia.
Qed.

(** What releasing block [x] of order [o] does to the free addresses: nothing
    but the block becomes free, and all of it does unless a pair of buddies of
    the largest order meets. *)
Definition released (s : Buddy) (fl fl' : list (list Z)) (o : nat) (x : Z) : Prop :=
  (∀ a, is_free fl' a → is_free fl a ∨ in_block o x a) ∧
  (small_regions s → gains fl fl' o x).

Lemma gains_released s fl fl' o x : gains fl fl' o x → released s fl fl' o x.
Proof. intros Hg. split; [apply Hg|done]. Qed.

Lemma push_free_released s fl o x :
  buddy_inv s fl → good_block s o x → taken fl o x →
  ∃ s' fl', push_free h o x s = Ok (tt, s') ∧ buddy_inv s' fl' ∧ same_regions s s' ∧
    released s fl fl' o x.
Proof.
  intros Hi Hg Ht. destruct (push_free_gains s fl o x) as (s' & fl' & ?); [done..|].
  exists s', fl'. intuition auto using gains_released.
Qed.

(** The pair of buddies of order [MAX_ORDER]: only its lower half comes back. *)
Lemma free_max_pair s fl x :
  buddy_inv s fl → good_block s MAX_ORDER x →
  good_block s MAX_ORDER (Z.lxor x (block_size_bytes MAX_ORDER)) →
  taken fl MAX_ORDER x → taken fl MAX_ORDER (Z.lxor x (block_size_bytes MAX_ORDER)) →
  ∃ s' fl', push_free h MAX_ORDER (Z.min x (Z.lxor x (block_size_bytes MAX_ORDER))) s = Ok (tt, s') ∧
    buddy_inv s' fl' ∧ same_regions s s' ∧
    gains fl fl' MAX_ORDER (Z.min x (Z.lxor x (block_size_bytes MAX_ORDER))).
Proof.
  intros Hi Hg Hg' Ht Ht'. apply push_free_gains; [done|..].
  - by destruct (Z.min_spec x (Z.lxor x (block_size_bytes MAX_ORDER))) as [[_ ->]|[_ ->]].
  - by destruct (Z.min_spec x (Z.lxor x (block_size_bytes MAX_ORDER))) as [[_ ->]|[_ ->]].
Qed.

Lemma free_loop_spec fuel s fl o x :
  buddy_inv s fl → good_block s o x → taken fl o x → (S MAX_ORDER ≤ o + fuel)%nat →
  ∃ s' fl', free_loop fuel h x o s = Ok (tt, s') ∧ buddy_inv s' fl' ∧ same_regions s s' ∧
    released s fl fl' o x.
Proof.
  revert s fl o x. induction fuel as [|fuel IH]; intros s fl o x Hi Hg Ht Hf.
  { destruct Hg as [? _]. lia. }
  cbn [free_loop]. mstep. pose proof Hg as (Ho & H0 & Hd & Hb & _).
  destruct (buddy_cases x o Hd) as (Hd' & _ & Hbud). pose proof (block_size_pos o).
  set (y := Z.lxor x (block_size_bytes o)) in *.
  destruct (contains_in_same_region s (Z.min x y) (block_size_bytes o * 2)) eqn:Hc; simpl;
    [|by apply push_free_released].
  destruct (try_remove_gains s fl o y) as [->|(s1 & fl1 & -> & Hi1 & Hr1 & Hgy & Hga & Hty)];
    [done|lia|by apply push_free_released|].
  assert (taken fl1 o x) as Ht1 by (intros a Ha Hfr; apply (Ht a Ha), Hga; by left).
  destruct (decide (MAX_ORDER < S o)%nat) as [Hmax|Hmax].
  - assert (o = MAX_ORDER) as -> by lia.
    destruct (free_max_pair s1 fl1 x) as (s2 & fl2 & Hrun & Hi2 & Hr2 & Hga2);
      [done|by eapply good_block_regions|by eapply good_block_regions|done..|].
    fold y in Hrun, Hga2. rewrite Hrun. exists s2, fl2. split_and!;
      [done..|unfold same_regions in *; intuition congruence|]. split.
    + intros a [Hfr|Hin]%Hga2; [left; apply Hga; by left|].
      destruct (Z.min_spec x y) as [[_ E]|[_ E]]; rewrite E in Hin; [by right|].
      left. apply Hga. by right.
    + intros Hsm. pose proof Hgy as (_ & ? & _ & ? & _).
      rewrite small_regions_contains in Hc; [done..|lia|lia|]. rewrite block_size_S. lia.
  - destruct (IH s1 fl1 (S o) (Z.min x y)) as (s2 & fl2 & -> & Hi2 & Hr2 & Hrel1 & Hrel2).
    + done.
    + eapply good_block_regions; [done|]. apply good_block_combine; [done..|lia|done].
    + intros a [?|?]%in_block_combine; [by apply Ht1|by apply Hty|done].
    + lia.
    + exists s2, fl2. split_and!; [done..|unfold same_regions in *; intuition congruence|].
      split.
      * intros a [Hfr|[Hin|Hin]%in_block_combine]%Hrel1; [left; apply Hga; by left|by right| |done].
        left. apply Hga. by right.
      * intros Hsm a.
        assert (small_regions s1) as Hsm1 by (unfold small_regions; by rewrite (proj1 Hr1)).
        subst y. rewrite (Hrel2 Hsm1 a), in_block_combine, (Hga a) by done. tauto.
Qed.
(** ** Adding memory *)

Lemma pick_order_spec m base pages :
  (4096 | base) → 1 ≤ pages →
  let o := pick_order m base pages in
  (o ≤ m)%nat ∧ 2 ^ Z.of_nat o ≤ pages ∧ (block_size_bytes o | base).
Proof.
  intros Hd Hp. assert (∀ o, Z.shiftl 1 (Z.of_nat o) = 2 ^ Z.of_nat o) as Hsh
    by (intros; rewrite Z.shiftl_mul_pow2 by lia; lia).
  induction m as [|m IH]; cbn [pick_order]; rewrite Hsh.
  - rewrite Tauto.if_same. split_and!; [lia|simpl; lia|exact Hd].
  - destruct IH as (IH1 & IH2 & IH3).
    destruct (Z.leb_spec (2 ^ Z.of_nat (S m)) pages) as [Hle|]; cbn [andb]; [|by split_and!; [lia|..]].
    destruct (is_multiple_of _ _) eqn:Hm; [|by split_and!; [lia|..]].
    apply is_multiple_of_spec in Hm; [|unfold PAGE_SIZE; pose proof (Z.pow_pos_nonneg 2 (Z.of_nat (S m))); lia].
    rewrite block_size_eq. unfold aligned, PAGE_SIZE in Hm. rewrite Z.mul_comm in Hm. by split_and!.
Qed.

Definition in_range (base pages a : Z) : Prop := base ≤ a < base + pages * PAGE_SIZE.

Lemma add_range_loop_spec fuel s fl base pages :
  buddy_inv s fl → 0 ≤ base → (4096 | base) → 0 ≤ pages → (Z.to_nat pages ≤ fuel)%nat →
  base + pages * PAGE_SIZE + h ≤ usize_max →
  contains_in_same_region s base (pages * PAGE_SIZE) = true →
  (∀ a, in_range base pages a → ¬ is_free fl a) →
  ∃ s' fl', add_range_loop fuel h base pages s = Ok (tt, s') ∧ buddy_inv s' fl' ∧
    same_regions s s' ∧ (∀ a, is_free fl' a ↔ is_free fl a ∨ in_range base pages a).
Proof.
  unfold in_range, PAGE_SIZE.
  revert s fl base pages. induction fuel as [|fuel IH]; intros s fl base pages Hi H0 Hd Hp Hf Hb Hc Ht.
  { exists s, fl. split_and!; [done..|]. intros a. intuition lia. }
  cbn [add_range_loop]. zcase; [exists s, fl; split_and!; [done..|]; intros a; intuition lia|].
  destruct (pick_order_spec MAX_ORDER base pages) as (Ho & Hle & Hdo); [done|lia|].
  set (o := pick_order MAX_ORDER base pages) in *. rewrite Z.shiftl_mul_pow2, Z.mul_1_l by lia.
  pose proof (block_size_eq o) as Hsz. pose proof (block_size_pos o).
  mstep. destruct (push_free_gains s fl o base) as (s1 & fl1 & -> & Hi1 & Hr1 & Hga).
  - done.
  - split_and!; [done|lia|done|lia|]. eapply contains_sub; [done|lia..].
  - intros a Ha. apply Ht. unfold in_block in Ha. lia.
  - unfold PAGE_SIZE. rewrite uadd_ok, usub_ok by lia.
    destruct (IH s1 fl1 (base + 2 ^ Z.of_nat o * 4096) (pages - 2 ^ Z.of_nat o))
      as (s2 & fl2 & -> & Hi2 & Hr2 & Hfree).
    + done.
    + lia.
    + apply Z.divide_add_r; [done|apply Z.divide_factor_r].
    + lia.
    + lia.
    + lia.
    + destruct Hr1 as [E1 E2]. unfold contains_in_same_region. rewrite E1, E2.
      eapply contains_sub; [done|lia..].
    + intros a Ha [Hx|Hx]%Hga; [apply (Ht a); [lia|done]|]. unfold in_block in Hx. lia.
    + exists s2, fl2. split_and!; [done..|unfold same_regions in *; intuition congruence|].
      intros a. rewrite (Hfree a), (Hga a). unfold in_block. intuition lia.
Qed.

(** The table of regions: its length is fixed and [region_count] entries are used. *)
Definition regions_wf (s : Buddy) : Prop :=
  length (regions s) = Z.to_nat MAX_REGIONS ∧ 0 ≤ region_count s ≤ MAX_REGIONS.

Lemma add_region_spec s fl base endp :
  buddy_inv s fl → regions_wf s → region_count s < MAX_REGIONS → base ≤ endp ≤ usize_max → 0 ≤ base →
  ∃ s', add_region base endp s = Ok (tt, s') ∧ buddy_inv s' fl ∧ regions_wf s' ∧
    contains_in_same_region s' base (endp - base) = true ∧
    (∀ a n, contains_in_same_region s a n = true → contains_in_same_region s' a n = true).
Proof.
  intros Hi [Hlen Hrc] Hlt Hb H0. unfold add_region. zcase; [lia|]. eexists. split; [done|].
  set (s' := mkBuddy _ _ _ _).
  assert (take (Z.to_nat (region_count s')) (regions s') =
    take (Z.to_nat (region_count s)) (regions s) ++ [mkRegion base endp]) as Htk.
  { unfold s'. cbn [regions region_count].
    replace (Z.to_nat (region_count s + 1)) with (S (Z.to_nat (region_count s))) by lia.
    erewrite take_S_r by (apply list_lookup_insert_eq; unfold MAX_REGIONS in *; lia).
    by rewrite take_insert_ge by lia. }
  assert (∀ a n, contains_in_same_region s a n = true → contains_in_same_region s' a n = true).
  { intros a n Hc. unfold contains_in_same_region in *. rewrite Htk, existsb_app, Hc. done. }
  split_and!; [|split; simpl; [by rewrite length_insert|lia]| |done].
  - destruct Hi as [? ? ? ? Hgood ? ?]. split; try done. intros o x Hf.
    destruct (Hgood o x Hf) as (?&?&?&?&?). split_and!; auto.
  - unfold contains_in_same_region. rewrite Htk, existsb_app. simpl.
    unfold wrap, usize_max in *. rewrite Z.mod_small by lia.
    rewrite (proj2 (Z.leb_le base base)), (proj2 (Z.leb_le _ endp)) by lia. by rewrite orb_true_r.
Qed.
(** ** The allocator and its clients

    A client may allocate, may release a block it holds, and may write to the
    memory of the blocks it holds anything but the free-block magic. *)
Inductive step : Buddy * list (nat * Z) → Buddy * list (nat * Z) → Prop :=
| step_alloc s live o x s' :
    alloc_pages h o s = Ok (Some x, s') → step (s, live) (s', (o, x) :: live)
| step_alloc_fail s live o s' :
    alloc_pages h o s = Ok (None, s') → step (s, live) (s', live)
| step_free s l1 o x l2 s' :
    free_pages h x o s = Ok (tt, s') → step (s, l1 ++ (o, x) :: l2) (s', l1 ++ l2)
| step_write s live o x v n :
    (o, x) ∈ live → in_block o x (v - h) → magic n ≠ BUDDY_FREE_MAGIC →
    step (s, live) (set_mem (<[v := n]>) s, live).

Definition apart_pair (p q : nat * Z) : Prop := apart p.1 p.2 q.1 q.2.

Definition is_live (live : list (nat * Z)) (a : Z) : Prop :=
  ∃ o x, (o, x) ∈ live ∧ in_block o x a.

(** Free and live blocks are well placed and disjoint, and together cover at
    most the memory [P] the allocator was given, all of it if [exact]. *)
Record world_inv (exact : Prop) (P : Z → Prop) (s : Buddy) (live : list (nat * Z)) fl : Prop := {
  w_inv : buddy_inv s fl;
  w_exact : exact → small_regions s;
  w_good o x : (o, x) ∈ live → good_block s o x ∧ taken fl o x;
  w_apart : pairwise apart_pair live;
  w_sound a : is_free fl a ∨ is_live live a → P a;
  w_complete : exact → ∀ a, P a → is_free fl a ∨ is_live live a;
}.

Lemma apart_pair_sym : Symmetric apart_pair.
Proof. intros [o x] [o' x'] [?|?]; [by right|by left]. Qed.

Lemma apart_in_block o x o' x' a : apart o x o' x' → in_block o x a → in_block o' x' a → False.
Proof. unfold apart, in_block. lia. Qed.

Lemma is_live_cons live o x a : is_live ((o, x) :: live) a ↔ in_block o x a ∨ is_live live a.
Proof. unfold is_live. setoid_rewrite elem_of_cons. naive_solver. Qed.

Lemma is_live_perm live live' a : live ≡ₚ live' → is_live live a → is_live live' a.
Proof. intros Hp (o & x & Hin & ?). exists o, x. by rewrite <-Hp. Qed.

Lemma world_perm exact P s live live' fl :
  live ≡ₚ live' → world_inv exact P s live fl → world_inv exact P s live' fl.
Proof.
  intros Hp [????? Hcomp]. split; try done.
  - setoid_rewrite <-Hp. done.
  - eapply pairwise_perm; [apply apart_pair_sym|done..].
  - intros a [?|?]; [by eauto|]. assert (is_live live a) by (by eapply is_live_perm). by eauto.
  - intros He a Ha. destruct (Hcomp He a Ha); [by left|right; by eapply is_live_perm].
Qed.

(** Two blocks that are good and taken at the byte level are apart. *)
Lemma disjoint_apart o x o' x' :
  (∀ a, in_block o x a → in_block o' x' a → False) → apart o x o' x'.
Proof.
  intros Hd. unfold apart. pose proof (block_size_pos o). pose proof (block_size_pos o').
  destruct (decide (x + block_size_bytes o ≤ x')); [by left|].
  destruct (decide (x' + block_size_bytes o' ≤ x)); [by right|].
  destruct (Hd (Z.max x x')); unfold in_block; lia.
Qed.

Lemma world_alloc exact P s live fl o x s' fl' :
  world_inv exact P s live fl → buddy_inv s' fl' → same_regions s s' → good_block s o x →
  gains fl' fl o x → taken fl' o x → world_inv exact P s' ((o, x) :: live) fl'.
Proof.
  intros [Hi Hex Hgood Hap Hsnd Hcmp] Hi' Hr Hg Hga Ht. split.
  - done.
  - intros He. unfold small_regions. rewrite (proj1 Hr). by apply Hex.
  - intros o' x' [[= -> ->]|Hin]%elem_of_cons; [split; [by eapply good_block_regions|done]|].
    destruct (Hgood _ _ Hin) as [? Ht']. split; [by eapply good_block_regions|].
    intros a Ha Hf. apply (Ht' a Ha), Hga. by left.
  - split; [|done]. rewrite Forall_forall. intros [o' x'] Hin. apply disjoint_apart. simpl.
    intros a Ha Ha'. destruct (Hgood _ _ Hin) as [_ Ht']. apply (Ht' a Ha'), Hga. by right.
  - intros a. rewrite is_live_cons. intros Ha. apply Hsnd. rewrite (Hga a). tauto.
  - intros He a Ha. rewrite is_live_cons. destruct (Hcmp He a Ha) as [Hf|?]; [|tauto].
    apply Hga in Hf. tauto.
Qed.

Lemma world_free exact P s live fl o x s' fl' :
  world_inv exact P s ((o, x) :: live) fl → buddy_inv s' fl' → same_regions s s' →
  released s fl fl' o x → world_inv exact P s' live fl'.
Proof.
  intros [Hi Hex Hgood [Hap Hap'] Hsnd Hcmp] Hi' Hr [Hrel1 Hrel2]. split.
  - done.
  - intros He. unfold small_regions. rewrite (proj1 Hr). by apply Hex.
  - intros o' x' Hin. destruct (Hgood o' x') as [? Ht']; [by right|].
    split; [by eapply good_block_regions|]. intros a Ha [Hf|Hf]%Hrel1; [by apply (Ht' a)|].
    rewrite Forall_forall in Hap. by apply (apart_in_block o x o' x' a); [apply (Hap (o', x'))|..].
  - done.
  - intros a Ha. apply Hsnd. rewrite is_live_cons. destruct Ha as [[?|?]%Hrel1|?]; tauto.
  - intros He a Ha. specialize (Hcmp He a Ha). rewrite is_live_cons in Hcmp.
    rewrite (Hrel2 (Hex He) a). tauto.
Qed.

Lemma write_inv s fl o x v n :
  buddy_inv s fl → taken fl o x → in_block o x (v - h) → magic n ≠ BUDDY_FREE_MAGIC →
  buddy_inv (set_mem (<[v := n]>) s) fl.
Proof.
  intros Hi Ht Hv Hn. destruct Hi as [? ? Hseg ? ? ? Hmag]. split; simpl; try done.
  - intros o' l' Hl'. apply seg_frame; [|by eauto]. intros y Hy ->.
    apply (Ht y); [by replace y with (y + h - h) by lia|]. exists o', y. split; [by exists l'|].
    pose proof (block_size_pos o'). lia.
  - intros o' x' nx q. rewrite node_at_insert. case_decide; [|by eauto]. intros ->. done.
Qed.

Lemma world_write exact P s live fl o x v n :
  world_inv exact P s live fl → (o, x) ∈ live → in_block o x (v - h) →
  magic n ≠ BUDDY_FREE_MAGIC → world_inv exact P (set_mem (<[v := n]>) s) live fl.
Proof.
  intros [? ? Hgood ? ? ?] Hin Hv Hn. destruct (Hgood _ _ Hin) as [_ Ht].
  split; try done. by eapply write_inv.
Qed.
Lemma free_pages_released s fl o x :
  buddy_inv s fl → good_block s o x → taken fl o x →
  ∃ s' fl', free_pages h x o s = Ok (tt, s') ∧ buddy_inv s' fl' ∧ same_regions s s' ∧
    released s fl fl' o x.
Proof.
  intros Hi Hg Ht. unfold free_pages. case_decide; [destruct Hg; lia|].
  apply free_loop_spec; [done..|lia].
Qed.

(** ** What the operations leave alone *)

(** Only nodes at addresses in [Q] change. *)
Definition changes_only (Q : Z → Prop) (s s' : Buddy) : Prop :=
  ∀ v, ¬ Q (v - h) → node_at (mem s') v = node_at (mem s) v.

Lemma changes_only_trans (Q1 Q2 Q : Z → Prop) s1 s2 s3 :
  (∀ a, Q1 a → Q a) → (∀ a, Q2 a → Q a) →
  changes_only Q1 s1 s2 → changes_only Q2 s2 s3 → changes_only Q s1 s3.
Proof. intros H1 H2 Ha Hb v Hv. rewrite Hb, Ha by auto. done. Qed.

Lemma listed_free fl o l y : fl !! o = Some l → y ∈ l → is_free fl y.
Proof. intros Hl Hy. exists o, y. split; [by exists l|]. pose proof (block_size_pos o). lia. Qed.

(** A write to a listed node. *)
Lemma node_at_listed fl o l y m n v :
  fl !! o = Some l → y ∈ l → ¬ is_free fl (v - h) → node_at (<[y + h := n]> m) v = node_at m v.
Proof.
  intros Hl Hy Hv. rewrite node_at_insert, decide_False; [done|]. intros <-.
  apply Hv. replace (y + h - h) with y by lia. by eapply listed_free.
Qed.

Lemma push_free_only s fl o x s' :
  buddy_inv s fl → good_block s o x → push_free h o x s = Ok (tt, s') →
  changes_only (λ a, is_free fl a ∨ a = x) s s'.
Proof.
  intros Hi Hg Hrun v Hv. destruct (inv_lookup s fl o Hi) as [l Hl]; [by apply Hg|].
  rewrite (push_free_run s fl o l x) in Hrun by done. injection Hrun as <-.
  assert (¬ is_free fl (v - h)) by tauto. assert (x + h ≠ v) by (intros <-; lia).
  unfold push_mem. simpl. destruct l as [|y l].
  - by rewrite node_at_insert, decide_False.
  - rewrite (node_at_listed fl o (y :: l)) by (done || by left). by rewrite node_at_insert, decide_False.
Qed.

Lemma pop_free_only s fl o x l s' :
  buddy_inv s fl → fl !! o = Some (x :: l) → pop_free h o s = Ok (Some x, s') →
  changes_only (is_free fl) s s'.
Proof.
  intros Hi Hl Hrun v Hv. pose proof (inv_head_lookup _ _ _ _ Hi Hl) as Hhd.
  pose proof (inv_seg _ _ Hi _ _ Hl) as [Hn _].
  assert (∀ y, y ∈ x :: l → y + h ≤ usize_max) as Hb.
  { intros y Hy. assert (free_block fl o y) as Hf by (by exists (x :: l)).
    destruct (good_block_bounds _ _ _ (inv_good _ _ Hi _ _ Hf)). lia. }
  unfold pop_free, get_head, set_head, upd_node, read_node in Hrun. revert Hrun. mstep.
  rewrite Hhd. simpl. zcase; [done|]. rewrite uadd_ok by (apply Hb; by left). simpl.
  rewrite node_at_insert, decide_True, Hn by done. simpl.
  destruct l as [|y l]; simpl; [rewrite Hhd|zcase; [|rewrite uadd_ok by (apply Hb; set_solver)]; simpl; rewrite Hhd];
    intros [= <-]; simpl; rewrite ?(node_at_listed fl o (x :: _)) by (done || set_solver); try done.
Qed.

Lemma try_remove_only s fl o x s' :
  buddy_inv s fl → x + h ≤ usize_max → try_remove_buddy h o x s = Ok (true, s') →
  changes_only (is_free fl) s s'.
Proof.
  intros Hi Hx Hrun v Hv. destruct (decide (x ∈ default [] (fl !! o))) as [Hin|Hout].
  - destruct (fl !! o) as [l|] eqn:Hl; [|by apply not_elem_of_nil in Hin]. simpl in Hin.
    apply list_elem_of_split in Hin as (l1 & l2 & ->).
    rewrite (try_remove_run s fl o l1 x l2) in Hrun by done. injection Hrun as <-. simpl.
    unfold unlink_mem. rewrite (node_at_listed fl o (l1 ++ x :: l2)) by (done || set_solver).
    destruct l2 as [|z l2]; [|rewrite (node_at_listed fl o (l1 ++ x :: z :: l2)) by (done || set_solver)];
      (destruct l1 as [|y l1]; [done|]); (eapply node_at_listed; [done| |done]);
      apply elem_of_app; left; by apply last_elem.
  - rewrite (try_remove_miss s fl) in Hrun; [done..|]. intros (l & Hl & Hin). by rewrite Hl in Hout.
Qed.

Lemma split_down_only n s fl o x s' :
  buddy_inv s fl → good_block s (o + n) x → taken fl (o + n) x → split_down n h o x s = Ok (tt, s') →
  changes_only (λ a, is_free fl a ∨ in_block (o + n) x a) s s'.
Proof.
  revert s fl. induction n as [|n IH]; intros s fl Hi Hg Ht Hrun; [by injection Hrun as <-|].
  rewrite Nat.add_succ_r in *. destruct (good_block_halves _ _ _ Hg) as [Hlo Hhi].
  pose proof (block_size_S (o + n)) as HS. pose proof (block_size_pos (o + n)).
  destruct (push_free_gains s fl (o + n) (x + block_size_bytes (o + n)))
    as (s1 & fl1 & Hrun1 & Hi1 & Hr1 & Hga); [done..| |].
  { intros a Ha. apply Ht. unfold in_block in *. lia. }
  revert Hrun. simpl. mstep. rewrite uadd_ok by (destruct Hhi as (_ & _ & _ & ? & _); lia).
  rewrite Hrun1. intros Hrun.
  eapply changes_only_trans; [| |by eapply push_free_only|eapply (IH s1 fl1); [done| | |done]].
  - intros a [?| ->]; [by left|right]. unfold in_block. lia.
  - intros a [Ha|Ha]; [apply Hga in Ha as [?|Ha]; [by left|]|]; right; unfold in_block in *; lia.
  - by eapply good_block_regions.
  - intros a Ha [Hf|Hf]%Hga; [apply (Ht a)|]; unfold in_block in *; [lia|done|lia].
Qed.

Lemma alloc_pages_only s fl o r s' :
  buddy_inv s fl → alloc_pages h o s = Ok (r, s') → changes_only (is_free fl) s s'.
Proof.
  intros Hi. unfold alloc_pages. case_decide as Ho; [by intros [= _ <-]|].
  destruct (find_order_spec s fl (S MAX_ORDER) o Hi) as (c & Hrun & Hc & _ & Hl); [lia|].
  mstep. rewrite Hrun. case_decide as Hcm; [by intros [= _ <-]|].
  destruct Hl as (x & l & Hl); [lia|].
  destruct (pop_free_gains s fl c x l) as (s1 & fl1 & Hrun1 & Hi1 & Hr1 & Hg & Hga & Ht); [done..|].
  rewrite Hrun1. replace c with (o + (c - o))%nat in Hg, Hga, Ht by lia.
  destruct (split_down_spec (c - o) s1 fl1 o x) as (s2 & fl2 & Hrun2 & _);
    [done|by eapply good_block_regions|done|].
  rewrite Hrun2. intros [= _ <-].
  eapply changes_only_trans; [| |by eapply pop_free_only|eapply split_down_only; [done| |done..]];
    [done| |by eapply good_block_regions]. intros a Ha. by apply Hga.
Qed.

Lemma free_loop_only fuel s fl o x s' :
  buddy_inv s fl → good_block s o x → taken fl o x → (S MAX_ORDER ≤ o + fuel)%nat →
  free_loop fuel h x o s = Ok (tt, s') → changes_only (λ a, is_free fl a ∨ in_block o x a) s s'.
Proof.
  revert s fl o x. induction fuel as [|fuel IH]; intros s fl o x Hi Hg Ht Hf Hrun.
  { destruct Hg as [? _]. lia. }
  assert (∀ s1 fl1 y, buddy_inv s1 fl1 → good_block s1 o y → push_free h o y s1 = Ok (tt, s') →
    (∀ a, is_free fl1 a → is_free fl a) → is_free fl y ∨ in_block o x y →
    changes_only (λ a, is_free fl a ∨ in_block o x a) s1 s') as Hpush.
  { intros s1 fl1 y Hi1 Hg1 Hp Hsub Hy v Hv. eapply push_free_only; [done..|].
    intros [?| <-]; [|tauto]. apply Hv. left. by apply Hsub. }
  pose proof Hg as (Ho & H0 & Hd & Hb & _). pose proof (block_size_pos o).
  assert (in_block o x x) by (unfold in_block; lia).
  revert Hrun. cbn [free_loop]. mstep. destruct (buddy_cases x o Hd) as (Hd' & _ & Hbud).
  set (y := Z.lxor x (block_size_bytes o)) in *.
  destruct (contains_in_same_region s (Z.min x y) (block_size_bytes o * 2)) eqn:Hc; simpl;
    [|intros Hp; by apply (Hpush s fl x); auto].
  destruct (try_remove_gains s fl o y) as [->|(s1 & fl1 & Hrun1 & Hi1 & Hr1 & Hgy & Hga & Hty)];
    [done|lia|intros Hp; by apply (Hpush s fl x); auto|]. rewrite Hrun1.
  assert (∀ a, is_free fl1 a → is_free fl a) as Hsub by (intros; apply Hga; by left).
  assert (∀ a, in_block o y a → is_free fl a) as Hy by (intros; apply Hga; by right).
  assert (taken fl1 o x) as Ht1 by (intros a Ha Hfr; by apply (Ht a Ha), Hsub).
  assert (changes_only (is_free fl) s s1) as Hch by (eapply try_remove_only; [done| |done]; lia).
  destruct (decide (MAX_ORDER < S o)%nat) as [Hmax|Hmax]; intros Hrun;
    (eapply (changes_only_trans (is_free fl) (λ a, is_free fl a ∨ in_block o x a)); [by left|done|exact Hch|]).
  - assert (o = MAX_ORDER) as Eo by lia. rewrite <-Eo in Hrun. eapply Hpush; [done| |done|done|].
    + destruct (Z.min_spec x y) as [[_ ->]|[_ ->]]; by eapply good_block_regions.
    + destruct (Z.min_spec x y) as [[_ ->]|[_ ->]]; [by right|]. left. apply Hy. unfold in_block. lia.
  - assert (changes_only (λ a, is_free fl1 a ∨ in_block (S o) (Z.min x y) a) s1 s') as Hrec.
    { apply IH; [done| | |lia|done].
      - eapply good_block_regions; [done|]. apply good_block_combine; [done..|lia|done].
      - intros a [?|?]%in_block_combine; [by apply Ht1|by apply Hty|done]. }
    intros v Hv. apply Hrec. intros [?|[?|?]%in_block_combine]; [..|done]; apply Hv; auto.
Qed.

Lemma free_pages_only s fl o x s' :
  buddy_inv s fl → good_block s o x → taken fl o x → free_pages h x o s = Ok (tt, s') →
  changes_only (λ a, is_free fl a ∨ in_block o x a) s s'.
Proof.
  intros Hi Hg Ht. unfold free_pages. case_decide; [destruct Hg; lia|].
  apply free_loop_only; [done..|lia].
Qed.

Definition all_empty_from (fl : list (list Z)) (o : nat) : Prop :=
  ∀ o', (o ≤ o' ≤ MAX_ORDER)%nat → fl !! o' = Some [].

Lemma alloc_pages_cases s fl o :
  buddy_inv s fl →
  (all_empty_from fl o ∧ alloc_pages h o s = Ok (None, s)) ∨
  (¬ all_empty_from fl o ∧ ∃ x s' fl', alloc_pages h o s = Ok (Some x, s') ∧ buddy_inv s' fl' ∧
    same_regions s s' ∧ good_block s o x ∧ gains fl' fl o x ∧ taken fl' o x).
Proof.
  intros Hi.
  assert (Forall (λ o', fl !! o' = Some []) (seq o (S MAX_ORDER - o)) ↔ all_empty_from fl o) as Hiff.
  { rewrite Forall_seq. unfold all_empty_from. split; intros Hf o' ?; apply Hf; lia. }
  destruct (decide (Forall (λ o', fl !! o' = Some []) (seq o (S MAX_ORDER - o)))) as [He|Hne];
    rewrite Hiff in *.
  - left. split; [done|]. by eapply alloc_pages_none.
  - right. split; [done|]. by apply alloc_pages_some.
Qed.

Lemma step_world exact P s live fl s' live' :
  world_inv exact P s live fl → step (s, live) (s', live') →
  ∃ fl', world_inv exact P s' live' fl'.
Proof.
  intros Hw Hs. pose proof (w_inv _ _ _ _ _ Hw) as Hi.
  inversion Hs as [? ? o x ? Hrun|? ? o ? Hrun|? l1 o x l2 ? Hrun|? ? o x v n Hin Hv Hn]; subst.
  - destruct (alloc_pages_cases s fl o Hi) as [[_ E]|(_ & y & s1 & fl1 & E & ?)];
      rewrite E in Hrun; [done|]. injection Hrun as -> ->. exists fl1.
    eapply world_alloc; [done|naive_solver..].
  - destruct (alloc_pages_cases s fl o Hi) as [[_ E]|(_ & y & s1 & fl1 & E & ?)];
      rewrite E in Hrun; [|done]. injection Hrun as ->. by exists fl.
  - apply (world_perm _ _ _ _ ((o, x) :: l1 ++ l2)) in Hw; [|by rewrite Permutation_middle].
    destruct (w_good _ _ _ _ _ Hw o x) as [Hg Ht]; [by left|].
    destruct (free_pages_released s fl o x) as (s1 & fl1 & E & ?); [done..|].
    rewrite E in Hrun. injection Hrun as ->. exists fl1. eapply world_free; [done|naive_solver..].
  - exists fl. by eapply world_write.
Qed.

Lemma rtc_world exact P w w' :
  rtc step w w' → ∀ fl, world_inv exact P w.1 w.2 fl → ∃ fl', world_inv exact P w'.1 w'.2 fl'.
Proof.
  induction 1 as [w|[s live] [s1 live1] w' Hs _ IH]; intros fl Hw; [by exists fl|].
  destruct (step_world _ _ _ _ _ _ _ Hw Hs) as [fl1 Hw1]. by eapply IH.
Qed.

Lemma world_init s fl : buddy_inv s fl → world_inv (small_regions s) (is_free fl) s [] fl.
Proof.
  intros Hi. split; try done; [by intros ? ? ?%not_elem_of_nil| |by left].
  intros a [?|(? & ? & ?%not_elem_of_nil & _)]; done.
Qed.
Lemma new_buddy_inv : buddy_inv new (replicate (S MAX_ORDER) []).
Proof.
  assert (∀ o x, ¬ free_block (replicate (S MAX_ORDER) []) o x) as Hno.
  { intros o x (l & [-> _]%lookup_replicate & Hx). by apply not_elem_of_nil in Hx. }
  split; try done.
  - intros o l [-> _]%lookup_replicate. done.
  - intros o l [-> _]%lookup_replicate. constructor.
  - intros o x ?%Hno. done.
  - intros o x o' x' ?%Hno. done.
Qed.

Lemma add_range_spec s fl base pages :
  buddy_inv s fl → regions_wf s → region_count s < MAX_REGIONS →
  0 ≤ base → aligned base PAGE_SIZE → 0 ≤ pages → base + pages * PAGE_SIZE + h ≤ usize_max →
  (∀ a, in_range base pages a → ¬ is_free fl a) →
  ∃ s' fl', add_range h base pages s = Ok (tt, s') ∧ buddy_inv s' fl' ∧ regions_wf s' ∧
    (∀ a, is_free fl' a ↔ is_free fl a ∨ in_range base pages a) ∧
    (pages ≠ 0 → contains_in_same_region s' base (pages * PAGE_SIZE) = true) ∧
    (∀ a n, contains_in_same_region s a n = true → contains_in_same_region s' a n = true).
Proof.
  intros Hi Hwf Hlt H0 Hd Hp Hb Ht. unfold add_range, PAGE_SIZE in *. zcase.
  { exists s, fl. split_and!; [done..| |done|done]. intros a. unfold in_range. intuition lia. }
  mstep. rewrite umul_ok, uadd_ok by lia.
  destruct (add_region_spec s fl base (base + pages * 4096)) as (s1 & -> & Hi1 & Hwf1 & Hc & Hmono);
    [done..|lia|lia|].
  replace (base + pages * 4096 - base) with (pages * 4096) in Hc by lia.
  destruct (add_range_loop_spec (Z.to_nat pages) s1 fl base pages)
    as (s2 & fl2 & -> & Hi2 & Hr2 & Hfree); [done|lia|done|lia|lia|done..|].
  assert (∀ a n, contains_in_same_region s2 a n = contains_in_same_region s1 a n) as Hsame.
  { intros. unfold contains_in_same_region. by rewrite (proj1 Hr2), (proj2 Hr2). }
  exists s2, fl2. split_and!; [done..| |done| |].
  - unfold regions_wf in *. by rewrite (proj1 Hr2), (proj2 Hr2).
  - intros _. by rewrite Hsame.
  - intros a n'. rewrite Hsame. apply Hmono.
Qed.
End buddy.

(** ** Correctness of the page allocator *)

(** C1: From a consistent allocator, after any sequence of allocations,
    releases of live blocks and client writes that do not forge the free-block
    magic, live blocks are aligned, in a known region, disjoint from each other
    and from the free blocks, and cover only memory the allocator started
    with; if no region is 2 GiB or larger nothing is lost; and neither
    allocation nor the release of a live block can panic. *)
Theorem buddy_reachable h s0 fl0 s live :
  0 ≤ h → buddy_inv h s0 fl0 → rtc (step h) (s0, []) (s, live) →
  ∃ fl, world_inv h (small_regions s0) (is_free fl0) s live fl ∧
    (∀ o, ∃ r s', alloc_pages h o s = Ok (r, s')) ∧
    (∀ o x, (o, x) ∈ live → ∃ s', free_pages h x o s = Ok (tt, s')).
Proof.
  intros Hh Hi Hrtc.
  destruct (rtc_world h Hh _ _ _ _ Hrtc fl0 (world_init h s0 fl0 Hi)) as [fl Hw].
  exists fl. split_and!; [done|..].
  - intros o. pose proof (w_inv _ _ _ _ _ _ Hw) as Hi'.
    destruct (alloc_pages_cases h Hh s fl o Hi') as [[_ ->]|(_ & x & s' & _ & -> & _)]; eauto.
  - intros o x Hin. destruct (w_good _ _ _ _ _ _ Hw o x Hin) as [Hg Ht].
    destruct (free_pages_released h Hh s fl o x (w_inv _ _ _ _ _ _ Hw) Hg Ht) as (s' & _ & -> & _).
    eauto.
Qed.

Definition exec {A} (m : Op A) (s : Buddy) : Buddy :=
  match m s with Ok (_, s') => s' | _ => s end.

(** Four pages at physical address 0. *)
Definition demo : Buddy := exec (add_range 0 0 4) new.

Lemma demo_inv :
  ∃ fl, buddy_inv 0 demo fl ∧ (∀ a, is_free fl a ↔ 0 ≤ a < 16384).
Proof.
  destruct (add_range_spec 0 (reflexivity 0) new (replicate (S MAX_ORDER) []) 0 4)
    as (s' & fl & Hrun & Hi & _ & Hf & _); [apply new_buddy_inv|by vm_compute|done|done|by exists 0|done|done| |].
  { intros a _ (o & x & (l & [-> _]%lookup_replicate & ?%not_elem_of_nil) & _). done. }
  exists fl. unfold demo, exec. rewrite Hrun. split; [done|]. intros a. rewrite (Hf a).
  unfold in_range, PAGE_SIZE. split; [|intros; right; lia].
  intros [(o & x & (l & [-> _]%lookup_replicate & ?%not_elem_of_nil) & _)|?]; [done|lia].
Qed.

Lemma demo_small : small_regions demo.
Proof. apply (bool_decide_unpack (Forall _ _)). vm_compute. done. Qed.

(** The client allocates a page, writes to it and releases it. *)
Lemma buddy_reachable_witness :
  ∃ s, rtc (step 0) (demo, []) (s, []) ∧ mem s !! 0 ≠ None ∧
    ∃ fl0 fl, world_inv 0 (small_regions demo) (is_free fl0) s [] fl.
Proof.
  destruct demo_inv as (fl0 & Hi & _).
  set (s1 := exec (alloc_pages 0 0) demo).
  set (s2 := set_mem (<[8 := mkNode 7 7 7 7]>) s1).
  set (s3 := exec (free_pages 0 0 0) s2).
  assert (rtc (step 0) (demo, []) (s3, [])) as Hrtc.
  { eapply rtc_l; [apply (step_alloc 0 demo [] 0%nat 0 s1); vm_compute; reflexivity|].
    eapply rtc_l; [apply (step_write 0 s1 _ 0%nat 0 8 (mkNode 7 7 7 7)); [left|by vm_compute|done]|].
    eapply rtc_l; [apply (step_free 0 s2 [] 0%nat 0 [] s3); vm_compute; reflexivity|].
    apply rtc_refl. }
  destruct (buddy_reachable 0 demo fl0 s3 [] (reflexivity 0) Hi Hrtc) as (fl & Hw & _).
  exists s3. split; [exact Hrtc|]. split; [vm_compute; discriminate|]. exists fl0, fl. exact Hw.
Defined.

(** C5: [alloc_pages] fails exactly when there is no free block of the order or
    above, and then changes nothing; otherwise it returns a block that was
    free, aligned to its size and inside one region, and takes exactly that
    block out of the free memory, whatever splitting was needed. *)
Theorem alloc_pages_correct h s fl o :
  0 ≤ h → buddy_inv h s fl →
  (all_empty_from fl o ∧ alloc_pages h o s = Ok (None, s)) ∨
  (¬ all_empty_from fl o ∧ ∃ x s' fl', alloc_pages h o s = Ok (Some x, s') ∧ buddy_inv h s' fl' ∧
    same_regions s s' ∧ good_block h s o x ∧
    (∀ a, is_free fl a ↔ is_free fl' a ∨ in_block o x a) ∧
    (∀ a, in_block o x a → ¬ is_free fl' a)).
Proof. intros Hh Hi. exact (alloc_pages_cases h Hh s fl o Hi). Qed.

Lemma alloc_pages_witness :
  ∃ s' fl', alloc_pages 0 1 demo = Ok (Some 0, s') ∧ buddy_inv 0 s' fl' ∧
    (∀ a, 0 ≤ a < 16384 ↔ is_free fl' a ∨ in_block 1 0 a).
Proof.
  destruct demo_inv as (fl & Hi & Hf).
  destruct (alloc_pages_correct 0 demo fl 1 (reflexivity 0) Hi)
    as [[_ E]|(_ & x & s' & fl' & E & Hi' & _ & _ & Hg & _)]; [vm_compute in E; discriminate|].
  assert (x = 0) as -> by (vm_compute in E; congruence).
  exists s', fl'. split; [exact E|]. split; [exact Hi'|]. intros a. rewrite <-Hg. symmetry. apply Hf.
Defined.

(** C11: Releasing a block that is not free keeps the allocator consistent and
    frees nothing but that block; when no region is 2 GiB or larger it frees
    all of it, whatever coalescing happens. *)
Theorem free_pages_correct h s fl o x :
  0 ≤ h → buddy_inv h s fl → good_block h s o x → (∀ a, in_block o x a → ¬ is_free fl a) →
  ∃ s' fl', free_pages h x o s = Ok (tt, s') ∧ buddy_inv h s' fl' ∧ same_regions s s' ∧
    (∀ a, is_free fl' a → is_free fl a ∨ in_block o x a) ∧
    (small_regions s → ∀ a, is_free fl' a ↔ is_free fl a ∨ in_block o x a).
Proof. intros Hh Hi Hg Ht. exact (free_pages_released h Hh s fl o x Hi Hg Ht). Qed.

(** Splitting and coalescing: a page is taken from the four and given back. *)
Lemma free_pages_witness :
  ∃ s s' fl', alloc_pages 0 0 demo = Ok (Some 0, s) ∧ free_pages 0 0 0 s = Ok (tt, s') ∧
    free_heads s' = free_heads demo ∧ buddy_inv 0 s' fl' ∧ (∀ a, is_free fl' a ↔ 0 ≤ a < 16384).
Proof.
  destruct demo_inv as (fl & Hi & Hf).
  destruct (alloc_pages_cases 0 (reflexivity 0) demo fl 0 Hi)
    as [[_ E]|(_ & x & s & fl1 & E & Hi1 & Hr & Hg & Hga & Ht)]; [vm_compute in E; discriminate|].
  assert (x = 0) as -> by (vm_compute in E; congruence).
  destruct (free_pages_correct 0 s fl1 0 0 (reflexivity 0) Hi1 (good_block_regions _ _ _ _ _ Hr Hg) Ht)
    as (s' & fl' & E' & Hi' & _ & _ & Hex).
  exists s, s', fl'. split; [exact E|]. split; [exact E'|]. split; [|split; [exact Hi'|]].
  - assert (s = exec (alloc_pages 0 0) demo) as -> by (unfold exec; by rewrite E).
    assert (s' = exec (free_pages 0 0 0) (exec (alloc_pages 0 0) demo)) as -> by (unfold exec at 1; by rewrite E').
    vm_compute. reflexivity.
  - intros a. rewrite Hex; [rewrite <-Hf; symmetry; apply Hga|].
    unfold small_regions. rewrite (proj1 Hr). apply demo_small.
Defined.

(** [add_range] makes exactly the pages of the range free, cut into aligned
    power-of-two blocks, records the range as a region and keeps the earlier
    regions. *)
Lemma buddy_add_range_correct h s fl base pages :
  0 ≤ h → buddy_inv h s fl → regions_wf s → region_count s < MAX_REGIONS →
  0 ≤ base → aligned base PAGE_SIZE → 0 ≤ pages → base + pages * PAGE_SIZE + h ≤ usize_max →
  (∀ a, in_range base pages a → ¬ is_free fl a) →
  ∃ s' fl', add_range h base pages s = Ok (tt, s') ∧ buddy_inv h s' fl' ∧ regions_wf s' ∧
    (∀ a, is_free fl' a ↔ is_free fl a ∨ in_range base pages a) ∧
    (pages ≠ 0 → contains_in_same_region s' base (pages * PAGE_SIZE) = true) ∧
    (∀ a n, contains_in_same_region s a n = true → contains_in_same_region s' a n = true).
Proof. intros Hh. exact (add_range_spec h Hh s fl base pages). Qed.

Lemma buddy_add_range_witness :
  ∃ s' fl', add_range 0x1000 0x3000 5 new = Ok (tt, s') ∧ buddy_inv 0x1000 s' fl' ∧
    free_heads s' !! 0%nat = Some 0x3000 ∧ free_heads s' !! 2%nat = Some 0x4000.
Proof.
  destruct (buddy_add_range_correct 0x1000 new (replicate (S MAX_ORDER) []) 0x3000 5)
    as (s' & fl' & E & Hi & _).
  - lia.
  - apply new_buddy_inv.
  - by vm_compute.
  - done.
  - lia.
  - by exists 3.
  - lia.
  - done.
  - intros a _ (o & x & (l & [-> _]%lookup_replicate & ?%not_elem_of_nil) & _). done.
  - exists s', fl'. split; [exact E|]. split; [exact Hi|].
    assert (s' = exec (add_range 0x1000 0x3000 5) new) as -> by (unfold exec; by rewrite E).
    vm_compute. split; reflexivity.
Defined.

Lemma trailing_zeros_pow2 k : 0 ≤ k → trailing_zeros (2 ^ k) = k.
Proof.
  intros Hk. unfold trailing_zeros.
  assert (Z.land (2 ^ k) (- 2 ^ k) = 2 ^ k) as ->; [|by apply Z.log2_pow2].
  apply Z.bits_inj'. intros n Hn. rewrite Z.land_spec, Z.pow2_bits_eqb by lia.
  destruct (Z.eqb_spec k n) as [->|]; [|done]. cbn [andb].
  rewrite Z.bits_opp by lia. apply negb_true_iff.
  destruct (Z.eq_dec n 0) as [->|]; [done|].
  change (Z.pred (2 ^ n)) with (2 ^ n - 1). rewrite Z.sub_1_r, <-Z.ones_equiv. apply Z.ones_spec_high. lia.
Qed.

(** [order_for_pages] is the least order whose block has the pages asked for; it
    is [None] for no pages and above the largest block. *)
Lemma order_for_pages_spec pages :
  0 ≤ pages ≤ 2 ^ 63 →
  (pages = 0 ∧ @order_for_pages Empty_set pages = Ok None) ∨
  (2 ^ Z.of_nat MAX_ORDER < pages ∧ @order_for_pages Empty_set pages = Ok None) ∨
  (∃ o, @order_for_pages Empty_set pages = Ok (Some o) ∧ (o ≤ MAX_ORDER)%nat ∧ 
    pages * PAGE_SIZE ≤ block_size_bytes o ∧
    ∀ o', pages * PAGE_SIZE ≤ block_size_bytes o' → (o ≤ o')%nat).
Proof.
  intros Hp. unfold order_for_pages. zcase; [by left|right].
  pose proof (Z.log2_up_nonneg pages).
  assert (∀ k, 0 ≤ k → pages ≤ 2 ^ k ↔ Z.log2_up pages ≤ k) as Hup.
  { intros k Hk. rewrite <-(Z.log2_up_pow2 k) at 2 by lia. rewrite <-Z.log2_up_le_pow2 by lia.
    by rewrite Z.log2_up_pow2 by lia. }
  assert (Z.log2_up pages ≤ 63) by (apply Hup; lia).
  unfold next_power_of_two. zcase.
  2: { assert (2 ^ Z.log2_up pages ≤ 2 ^ 63) by (apply Z.pow_le_mono_r; lia).
       unfold usize_max in *. lia. }
  cbn [rbind]. rewrite trailing_zeros_pow2 by lia. zcase.
  - left. split; [|done]. apply Z.nle_gt. rewrite Hup by lia. lia.
  - right. exists (Z.to_nat (Z.log2_up pages)). split; [done|]. split; [lia|].
    assert (∀ o, pages * PAGE_SIZE ≤ block_size_bytes o ↔ Z.log2_up pages ≤ Z.of_nat o) as Hsz.
    { intros o. rewrite block_size_eq, <-Hup by lia. unfold PAGE_SIZE. lia. }
    split; [apply Hsz; lia|]. intros o' Ho'%Hsz. lia.
Qed.

Definition run5 {A B C D E} (a : Op A) (b : Op B) (c : Op C) (d : Op D) (e : Op E) : Op (D * E) :=
  let! _ := a in let! _ := b in let! _ := c in let! x := d in let! y := e in mret (x, y).

(** A region of 2 GiB. *)
Definition two_giga : Buddy := exec (add_range 0 0 0x80000) new.

(** Releasing both halves of a 2 GiB region loses one of them: two blocks of
    1 GiB are allocated and released, and afterwards only one can be allocated. *)
Lemma free_pages_max_order_leak :
  ∃ s, run5 (alloc_pages 0 MAX_ORDER) (alloc_pages 0 MAX_ORDER)
            (let! _ := free_pages 0 0 MAX_ORDER in free_pages 0 0x40000000 MAX_ORDER)
            (alloc_pages 0 MAX_ORDER) (alloc_pages 0 MAX_ORDER) two_giga = Ok ((Some 0, None), s).
Proof. eexists. vm_compute. reflexivity. Qed.

(** A live page that holds the bytes of a free-block node is taken for free
    memory: its owner keeps it and it is allocated again. *)
Lemma forged_node_double_allocation :
  ∃ s, run5 (alloc_pages 0 0) (alloc_pages 0 0)
            (upd_node 0x1000 (λ _, mkNode BUDDY_FREE_MAGIC 0 0x2000 BUDDY_NONE))
            (free_pages 0 0 0) (alloc_pages 0 1) demo = Ok ((tt, Some 0), s) ∧
    alloc_pages 0 0 (exec (alloc_pages 0 0) demo) =
      Ok (Some 0x1000, exec (alloc_pages 0 0) (exec (alloc_pages 0 0) demo)) ∧
    in_block 1 0 0x1000.
Proof. eexists. split; [vm_compute; reflexivity|]. split; vm_compute; done. Qed.
