(* ===== verification/Heap.v ===== *)
(** * The kernel heap (src/memory/heap.rs, [HeapAllocator] and [GlobalAllocImpl])

    Objects of up to 2048 bytes come from slab pages, larger ones from the
    buddy allocator.  A slab page starts with a [SlabPageHeader] and keeps its
    free objects in a list threaded through the objects.

    The header overlays the [FreeBlockNode] the page carried while it was free,
    and the model keeps that: the first 24 bytes of a page are the node of the
    buddy allocator's memory, read and written here through the fields of the
    header, and [words] holds the 8-byte words behind them.  [load64] and
    [store64] give the whole memory as words. *)

From S2P Require Import Prelude Buddy.

Definition MAX_CPUS : Z := 256.
Definition NUM_CLASSES : nat := 8.
Definition CLASS_SIZES : list Z := [16; 32; 64; 128; 256; 512; 1024; 2048].
Definition MAX_SLAB_SIZE : Z := 2048.
Definition SLAB_PAGE_MAGIC : Z := 0x12ABCDEF.

(** ** The header of a slab page

    Little endian: [magic] is the node's [magic], [class_index] and [in_use]
    are the halves of its [order], [capacity] and [_reserved] the low quarters
    of its [next], [free_list] is its [prev]; the [next] of the header is the
    word at offset 24. *)
Module Header.
Definition class_index (n : FreeBlockNode) : Z := order n mod 2 ^ 16.
Definition in_use (n : FreeBlockNode) : Z := order n / 2 ^ 16.
Definition capacity (n : FreeBlockNode) : Z := next n mod 2 ^ 16.
Definition free_list (n : FreeBlockNode) : Z := prev n.

Definition set_class_index (x : Z) (n : FreeBlockNode) : FreeBlockNode :=
  mkNode (magic n) (in_use n * 2 ^ 16 + x) (next n) (prev n).
Definition set_in_use (x : Z) (n : FreeBlockNode) : FreeBlockNode :=
  mkNode (magic n) (x * 2 ^ 16 + class_index n) (next n) (prev n).
Definition set_capacity (x : Z) (n : FreeBlockNode) : FreeBlockNode :=
  mkNode (magic n) (order n) (next n / 2 ^ 16 * 2 ^ 16 + x) (prev n).
Definition set_reserved (x : Z) (n : FreeBlockNode) : FreeBlockNode :=
  mkNode (magic n) (order n) (next n / 2 ^ 32 * 2 ^ 32 + x * 2 ^ 16 + capacity n) (prev n).
Definition set_free_list (x : Z) (n : FreeBlockNode) : FreeBlockNode := set_prev x n.

Definition size : Z := 32.
Definition next_offset : Z := 24.
End Header.

(** ** Layouts *)

Record Layout : Type := mkLayout { lsize : Z; lalign : Z }.

Definition is_power_of_two (n : Z) : bool := (0 <? n) && (Z.land n (n - 1) =? 0).

(** [Layout::from_size_align(..).expect(..)]: the alignment must be a power of
    two and the size, rounded up to it, must fit an [isize]. *)
Definition from_size_align {E} (size align : Z) : res E Layout :=
  if is_power_of_two align && (div_ceil size align * align <=? isize_max)
  then Ok (mkLayout size align) else Panic.

Definition align_down {E} (value align : Z) : res E Z :=
  let? _ := rassert (is_power_of_two align) in
  Ok (Z.land value (Z.lnot (align - 1))).

Definition align_up {E} (value align : Z) : res E Z :=
  let? _ := rassert (is_power_of_two align) in
  let? v := uadd value (align - 1) in
  Ok (Z.land v (Z.lnot (align - 1))).

Definition normalize_layout {E} (layout : Layout) : res E Layout :=
  from_size_align (Z.max (lsize layout) 1) (lalign layout).

(** [iter().position(..)]. *)
Fixpoint position {A} (f : A → bool) (l : list A) : option nat :=
  match l with
  | [] => None
  | x :: l => if f x then Some O else S <$> position f l
  end.

Definition class_index_for_layout (layout : Layout) : option nat :=
  let needed := Z.max (Z.max (lsize layout) 1) (lalign layout) in
  if MAX_SLAB_SIZE <? needed then None
  else position (λ sz, needed <=? sz) CLASS_SIZES.

Definition page_count_for (size : Z) : Z := div_ceil (Z.max size 1) PAGE_SIZE.

(** ** The heap *)

(** [HeapAllocator] and the memory it manages; a pointer is an address and 0 is
    the null pointer. *)
Record Heap : Type := mkHeap {
  hhdm_offset : Z;
  partial_slabs : list Z;
  full_slabs : list Z;
  buddy : Buddy;
  words : gmap Z Z;
}.

Abbreviation HOp A := (M Heap Empty_set A).

Definition heap_new : Heap :=
  mkHeap 0 (replicate NUM_CLASSES 0) (replicate NUM_CLASSES 0) Buddy.new ∅.

Definition set_partial_slabs (f : list Z → list Z) (s : Heap) : Heap :=
  mkHeap (hhdm_offset s) (f (partial_slabs s)) (full_slabs s) (buddy s) (words s).
Definition set_full_slabs (f : list Z → list Z) (s : Heap) : Heap :=
  mkHeap (hhdm_offset s) (partial_slabs s) (f (full_slabs s)) (buddy s) (words s).
Definition set_buddy (b : Buddy) (s : Heap) : Heap :=
  mkHeap (hhdm_offset s) (partial_slabs s) (full_slabs s) b (words s).
Definition set_words (f : gmap Z Z → gmap Z Z) (s : Heap) : Heap :=
  mkHeap (hhdm_offset s) (partial_slabs s) (full_slabs s) (buddy s) (f (words s)).

(** A call on [self.buddy]. *)
Definition on_buddy {A} (m : Buddy.Op A) : HOp A := λ s,
  match m (buddy s) with
  | Ok (a, b) => Ok (a, set_buddy b s)
  | Err (e, b) => Err (e, set_buddy b s)
  | Panic => Panic
  end.

(** Reading and writing the header at [page]. *)
Definition header (page : Z) : HOp FreeBlockNode := on_buddy (read_node page).
Definition upd_header (page : Z) (f : FreeBlockNode → FreeBlockNode) : HOp unit :=
  on_buddy (upd_node page f).

(** The memory as aligned 8-byte words. *)
Definition word_at (m : gmap Z Z) (a : Z) : Z := default 0 (m !! a).
Definition load64 (a : Z) : HOp Z := λ s,
  let page := a / PAGE_SIZE * PAGE_SIZE in
  let n := node_at (mem (buddy s)) page in
  let o := a mod PAGE_SIZE in
  Ok (if o =? 0 then magic n + order n * 2 ^ 32
      else if o =? 8 then next n
      else if o =? 16 then prev n
      else word_at (words s) a, s).
Definition store64 (a x : Z) : HOp unit :=
  let page := a / PAGE_SIZE * PAGE_SIZE in
  let o := a mod PAGE_SIZE in
  if o =? 0 then
    on_buddy (upd_node page (λ n, mkNode (x mod 2 ^ 32) (x / 2 ^ 32) (next n) (prev n)))
  else if o =? 8 then on_buddy (upd_node page (set_next x))
  else if o =? 16 then on_buddy (upd_node page (set_prev x))
  else mmodify (set_words (<[a := x]>)).

(** Indexing the arrays of slab lists. *)
Definition slab_head (sel : Heap → list Z) (class : nat) : HOp Z := λ s,
  match sel s !! class with Some x => Ok (x, s) | None => Panic end.
Definition set_slab_head (upd : (list Z → list Z) → Heap → Heap) (class : nat) (x : Z) : HOp unit :=
  mmodify (upd (<[class := x]>)).

Definition phys_to_virt (phys : Z) : HOp Z := λ s, mlift (uadd phys (hhdm_offset s)) s.
Definition virt_to_phys (virt : Z) : HOp Z := λ s, mlift (usub virt (hhdm_offset s)) s.
Definition buddy_alloc_pages (o : nat) : HOp (option Z) := λ s, on_buddy (alloc_pages (hhdm_offset s) o) s.
Definition buddy_free_pages (phys : Z) (o : nat) : HOp unit := λ s,
  on_buddy (free_pages (hhdm_offset s) phys o) s.

Definition init_from_block (offset len : Z) : HOp unit :=
  let! start := mlift (align_up offset PAGE_SIZE) in
  let! e := mlift (uadd offset len) in
  let! endp := mlift (align_down e PAGE_SIZE) in
  if endp <=? start then mret tt
  else
    let page_count := (endp - start) / PAGE_SIZE in
    if page_count =? 0 then mret tt
    else λ s, on_buddy (Buddy.add_range (hhdm_offset s) start page_count) s.

(** [for i in (0..capacity).rev()]: links the slots from the last to the first. *)
Fixpoint link_slots (i : nat) (start object_size prev : Z) : HOp Z :=
  match i with
  | O => mret prev
  | S i =>
      let slot := start + Z.of_nat i * object_size in
      let! _ := store64 slot prev in
      link_slots i start object_size slot
  end.

Definition add_slab_page (class : nat) : HOp bool :=
  let! r := buddy_alloc_pages 0 in
  match r with
  | None => mret false
  | Some phys =>
      let! virt := phys_to_virt phys in
      let! object_size := mlift (unwrap (CLASS_SIZES !! class)) in
      let! first := mlift (uadd virt Header.size) in
      let! start := mlift (align_up first (Z.max object_size 8)) in
      let! endp := mlift (uadd virt PAGE_SIZE) in
      if endp <=? start then let! _ := buddy_free_pages phys 0 in mret false
      else
        let capacity := (endp - start) / object_size in
        if capacity =? 0 then let! _ := buddy_free_pages phys 0 in mret false
        else
          let! prev := link_slots (Z.to_nat capacity) start object_size 0 in
          let! _ := upd_header virt (set_magic SLAB_PAGE_MAGIC) in
          let! _ := upd_header virt (Header.set_class_index (Z.of_nat class)) in
          let! _ := upd_header virt (Header.set_in_use 0) in
          let! _ := upd_header virt (Header.set_capacity (wrap 16 capacity)) in
          let! _ := upd_header virt (Header.set_reserved 0) in
          let! _ := upd_header virt (Header.set_free_list prev) in
          let! head := slab_head partial_slabs class in
          let! _ := store64 (virt + Header.next_offset) head in
          let! _ := set_slab_head set_partial_slabs class virt in
          mret true
  end.

(** Taking the first free object of [page], the head of the partial list. *)
Definition take_object (class : nat) (page : Z) : HOp Z :=
  let! n := header page in
  let object := Header.free_list n in
  let! rest := load64 object in
  let! _ := upd_header page (Header.set_free_list rest) in
  let! n := header page in
  let! _ := mlift (rassert (Header.in_use n + 1 <=? u16_max)) in
  let! _ := upd_header page (Header.set_in_use (Header.in_use n + 1)) in
  if rest =? 0 then
    let! nx := load64 (page + Header.next_offset) in
    let! _ := set_slab_head set_partial_slabs class nx in
    let! full := slab_head full_slabs class in
    let! _ := store64 (page + Header.next_offset) full in
    let! _ := set_slab_head set_full_slabs class page in
    mret object
  else mret object.

(** The [loop] of [allocate_small].  A page that [add_slab_page] added is found
    in the next turn, so two turns are enough. *)
Fixpoint allocate_small_loop (fuel : nat) (class : nat) : HOp Z :=
  match fuel with
  | O => mret 0
  | S fuel =>
      let! page := slab_head partial_slabs class in
      if negb (page =? 0) then take_object class page
      else
        let! added := add_slab_page class in
        if added then allocate_small_loop fuel class else mret 0
  end.

Definition allocate_small (class : nat) : HOp Z := allocate_small_loop 2 class.

(** The [while] of [unlink_slab_page].  The list has no cycle and every page on
    it has its [next] word, so the number of words is enough turns. *)
Fixpoint unlink_loop (fuel : nat) (sel : Heap → list Z) (upd : (list Z → list Z) → Heap → Heap)
    (class : nat) (victim cur prev : Z) : HOp unit :=
  match fuel with
  | O => mret tt
  | S fuel =>
      if cur =? 0 then mret tt
      else
        let! nx := load64 (cur + Header.next_offset) in
        if cur =? victim then
          if prev =? 0 then set_slab_head upd class nx
          else store64 (prev + Header.next_offset) nx
        else unlink_loop fuel sel upd class victim nx cur
  end.

Definition unlink_slab_page (sel : Heap → list Z) (upd : (list Z → list Z) → Heap → Heap)
    (class : nat) (victim : Z) : HOp unit :=
  let! s := mget in
  let! cur := slab_head sel class in
  unlink_loop (S (size (words s))) sel upd class victim cur 0.

Definition free_small (ptr : Z) : HOp unit :=
  let! page_base := mlift (align_down ptr PAGE_SIZE) in
  let! n := header page_base in
  if negb (magic n =? SLAB_PAGE_MAGIC) then mret tt
  else
    let class := Z.to_nat (Header.class_index n) in
    let was_full := Header.free_list n =? 0 in
    let! _ := store64 ptr (Header.free_list n) in
    let! _ := upd_header page_base (Header.set_free_list ptr) in
    let! n := header page_base in
    let! u := mlift (usub (Header.in_use n) 1) in
    let! _ := upd_header page_base (Header.set_in_use u) in
    if u =? 0 then
      let! _ := (if was_full then unlink_slab_page full_slabs set_full_slabs class page_base
                 else unlink_slab_page partial_slabs set_partial_slabs class page_base) in
      let! phys := virt_to_phys page_base in
      buddy_free_pages phys 0
    else if was_full then
      let! _ := unlink_slab_page full_slabs set_full_slabs class page_base in
      let! head := slab_head partial_slabs class in
      let! _ := store64 (page_base + Header.next_offset) head in
      set_slab_head set_partial_slabs class page_base
    else mret tt.

Definition allocate_large (layout : Layout) : HOp Z :=
  if PAGE_SIZE <? lalign layout then mret 0
  else
    let! o := mlift (order_for_pages (page_count_for (lsize layout))) in
    match o with
    | None => mret 0
    | Some o =>
        let! r := buddy_alloc_pages o in
        match r with
        | None => mret 0
        | Some phys => phys_to_virt phys
        end
    end.

Definition free_large (ptr : Z) (layout : Layout) : HOp unit :=
  let! phys := virt_to_phys ptr in
  let! o := mlift (order_for_pages (page_count_for (lsize layout))) in
  match o with
  | None => mret tt
  | Some o => buddy_free_pages phys o
  end.

Definition allocate (layout : Layout) : HOp Z :=
  match class_index_for_layout layout with
  | Some class => allocate_small class
  | None => allocate_large layout
  end.

Definition free (ptr : Z) (layout : Layout) : HOp unit :=
  if ptr =? 0 then mret tt
  else match class_index_for_layout layout with
       | Some _ => free_small ptr
       | None => free_large ptr layout
       end.

(** ** The global allocator

    [GlobalAllocImpl] puts a cache of one object per core and class in front of
    the heap.  The cache is swapped atomically; the heap is behind a lock. *)

Record Global : Type := mkGlobal {
  heap : Heap;
  PER_CPU_CACHE : gmap (Z * nat) Z;
}.

Abbreviation GOp A := (M Global Empty_set A).

(** The core, if the scheduler runs ([MP_STAGE] is [MPPreempt]) and it has a cache. *)
Definition try_current_cpu (preempt : bool) (core_id : Z) : option Z :=
  if negb preempt then None else if core_id <? MAX_CPUS then Some core_id else None.

Definition cache_at (m : gmap (Z * nat) Z) (cpu : Z) (class : nat) : Z := default 0 (m !! (cpu, class)).

(** [PER_CPU_CACHE[cpu][class].swap(value)]. *)
Definition cache_swap (cpu : Z) (class : nat) (value : Z) : GOp Z := λ g,
  Ok (cache_at (PER_CPU_CACHE g) cpu class,
      mkGlobal (heap g) (<[(cpu, class) := value]> (PER_CPU_CACHE g))).

Definition try_take_from_cpu_cache (cpu : option Z) (class : nat) : GOp Z :=
  match cpu with None => mret 0 | Some cpu => cache_swap cpu class 0 end.

Definition try_put_into_cpu_cache (cpu : option Z) (class : nat) (ptr : Z) : GOp (option Z) :=
  match cpu with
  | None => mret None
  | Some cpu => let! replaced := cache_swap cpu class ptr in mret (Some replaced)
  end.

(** [self.heap.lock().f()]. *)
Definition on_heap {A} (m : HOp A) : GOp A := λ g,
  match m (heap g) with
  | Ok (a, s) => Ok (a, mkGlobal s (PER_CPU_CACHE g))
  | Err (e, s) => Err (e, mkGlobal s (PER_CPU_CACHE g))
  | Panic => Panic
  end.

Definition alloc (cpu : option Z) (layout : Layout) : GOp Z :=
  let! layout := mlift (normalize_layout layout) in
  let! cached := match class_index_for_layout layout with
                 | Some class => try_take_from_cpu_cache cpu class
                 | None => mret 0
                 end in
  if negb (cached =? 0) then mret cached else on_heap (allocate layout).

Definition dealloc (cpu : option Z) (ptr : Z) (layout : Layout) : GOp unit :=
  let! layout := mlift (normalize_layout layout) in
  let! replaced := match class_index_for_layout layout with
                   | Some class => try_put_into_cpu_cache cpu class ptr
                   | None => mret None
                   end in
  match replaced with
  | Some replaced => if replaced =? 0 then mret tt else on_heap (free replaced layout)
  | None => on_heap (free ptr layout)
  end.

(** [copy_from_nonoverlapping]: [n] bytes as words, the last one merged with
    what the target holds behind the copied bytes. *)
Fixpoint copy_words (n : nat) (dst src : Z) : HOp unit :=
  match n with
  | O => mret tt
  | S n => let! x := load64 src in let! _ := store64 dst x in copy_words n (dst + 8) (src + 8)
  end.

Definition copy_bytes (dst src n : Z) : HOp unit :=
  let! _ := copy_words (Z.to_nat (n / 8)) dst src in
  let k := n / 8 * 8 in
  if n mod 8 =? 0 then mret tt
  else
    let! x := load64 (src + k) in
    let! y := load64 (dst + k) in
    let m := 2 ^ (8 * (n mod 8)) in
    store64 (dst + k) (y / m * m + x mod m).

(** The cores of the two calls can differ, as the thread may be moved. *)
Definition realloc (cpu cpu' : option Z) (ptr : Z) (old_layout : Layout) (new_size : Z) : GOp Z :=
  if ptr =? 0 then
    let! new_layout := mlift (from_size_align (Z.max new_size 1) (lalign old_layout)) in
    alloc cpu new_layout
  else if new_size =? 0 then
    let! _ := dealloc cpu ptr old_layout in
    mret 0
  else
    let! old_layout := mlift (normalize_layout old_layout) in
    let! new_layout := mlift (from_size_align new_size (lalign old_layout)) in
    if match class_index_for_layout old_layout, class_index_for_layout new_layout with
       | Some old_class, Some new_class => bool_decide (old_class = new_class)
       | _, _ => false
       end
    then mret ptr
    else
      let! new_ptr := alloc cpu new_layout in
      if new_ptr =? 0 then mret 0
      else
        let! _ := on_heap (copy_bytes new_ptr ptr (Z.min (lsize old_layout) new_size)) in
        let! _ := dealloc cpu' ptr old_layout in
        mret new_ptr.

Definition init_malloc (heap len : Z) : GOp unit := on_heap (init_from_block heap len).

(** ** Alignment and size classes *)

Lemma is_power_of_two_pow k : 0 ≤ k → is_power_of_two (2 ^ k) = true.
Proof.
  intros Hk. unfold is_power_of_two. pose proof (Z.pow_pos_nonneg 2 k).
  replace (2 ^ k - 1) with (Z.ones k) by (rewrite Z.ones_equiv; lia).
  rewrite Z.land_ones, Z_mod_same_full by lia. zcase; [done|lia].
Qed.

Lemma is_power_of_two_inv n : is_power_of_two n = true → ∃ k, 0 ≤ k ∧ n = 2 ^ k.
Proof.
  unfold is_power_of_two. intros [Hn%Z.ltb_lt Hl%Z.eqb_eq]%andb_true_iff.
  exists (Z.log2 n). split; [apply Z.log2_nonneg|]. destruct (Z.log2_spec n Hn) as [Hlo Hhi].
  destruct (decide (n = 2 ^ Z.log2 n)) as [|Hne]; [done|exfalso].
  pose proof (Z.log2_nonneg n) as Hk.
  assert (Z.log2 (n - 1) = Z.log2 n) as Hlog by (apply Z.log2_unique; lia).
  assert (Z.testbit (Z.land n (n - 1)) (Z.log2 n) = true) as Hb.
  { rewrite Z.land_spec. apply andb_true_iff. split; [by apply Z.bit_log2|].
    rewrite <-Hlog. apply Z.bit_log2. pose proof (Z.pow_pos_nonneg 2 (Z.log2 n)). lia. }
  by rewrite Hl, Z.bits_0 in Hb.
Qed.

Lemma land_mask v k : 0 ≤ k → Z.land v (Z.lnot (2 ^ k - 1)) = v / 2 ^ k * 2 ^ k.
Proof.
  intros Hk. replace (2 ^ k - 1) with (Z.ones k) by (rewrite Z.ones_equiv; lia).
  rewrite <-Z.ldiff_land, Z.ldiff_ones_r, Z.shiftl_mul_pow2, Z.shiftr_div_pow2 by lia. done.
Qed.

Lemma align_down_pow {E} v k : 0 ≤ k → @align_down E v (2 ^ k) = Ok (v / 2 ^ k * 2 ^ k).
Proof. intros. unfold align_down. by rewrite is_power_of_two_pow, land_mask. Qed.

Lemma align_up_pow {E} v k :
  0 ≤ k → v + (2 ^ k - 1) ≤ usize_max → @align_up E v (2 ^ k) = Ok ((v + (2 ^ k - 1)) / 2 ^ k * 2 ^ k).
Proof. intros. unfold align_up. rewrite is_power_of_two_pow by done. cbn [rassert rbind]. rewrite uadd_ok by done. cbn [rbind]. by rewrite land_mask. Qed.

Lemma align_down_page {E} a : @align_down E a PAGE_SIZE = Ok (a / PAGE_SIZE * PAGE_SIZE).
Proof. apply (align_down_pow a 12). done. Qed.

Definition object_size (c : nat) : Z := default 0 (CLASS_SIZES !! c).
Definition first_slot (c : nat) : Z := Z.max Header.size (object_size c).
Definition slot_count (c : nat) : nat := Z.to_nat ((PAGE_SIZE - first_slot c) / object_size c).
Definition slots (virt : Z) (c : nat) : list Z :=
  (λ i, virt + first_slot c + Z.of_nat i * object_size c) <$> seq 0 (slot_count c).

(** The eight classes: sizes are powers of two, and the slots start at a
    multiple of the size and fill the page up to less than one object. *)
Lemma class_facts c : (c < NUM_CLASSES)%nat →
  CLASS_SIZES !! c = Some (object_size c) ∧ object_size c = 2 ^ (4 + Z.of_nat c) ∧
  16 ≤ object_size c ≤ 2048 ∧ (16 | object_size c) ∧ (object_size c | PAGE_SIZE) ∧
  (object_size c | first_slot c) ∧ 32 ≤ first_slot c ≤ 2048 ∧ (1 ≤ slot_count c ≤ 254)%nat ∧
  first_slot c + Z.of_nat (slot_count c) * object_size c ≤ PAGE_SIZE.
Proof.
  unfold NUM_CLASSES. intros Hc.
  do 8 (destruct c as [|c];
    [split_and!; try (vm_compute; reflexivity); try (vm_compute; discriminate);
      try lia; try (apply Z.mod_divide; [discriminate|vm_compute; reflexivity]);
      try (apply Nat.leb_le; vm_compute; reflexivity)|]).
  lia.
Qed.

Lemma slots_elem virt c x :
  x ∈ slots virt c ↔ ∃ i, (i < slot_count c)%nat ∧ x = virt + first_slot c + Z.of_nat i * object_size c.
Proof.
  unfold slots. rewrite list_elem_of_fmap. split.
  - intros (i & -> & Hi%elem_of_seq). exists i. split; [lia|done].
  - intros (i & Hi & ->). exists i. split; [done|]. apply elem_of_seq. lia.
Qed.

Lemma slots_nodup virt c : (c < NUM_CLASSES)%nat → NoDup (slots virt c).
Proof.
  intros Hc. destruct (class_facts c Hc) as (_ & _ & ? & _).
  apply NoDup_fmap_2_strong; [|apply NoDup_seq]. intros i j _ _ ?. nia.
Qed.

(** Where a slot is: in its page, behind the header, aligned to its size. *)
Lemma slot_place virt c x :
  (c < NUM_CLASSES)%nat → (PAGE_SIZE | virt) → x ∈ slots virt c →
  x / PAGE_SIZE * PAGE_SIZE = virt ∧ 32 ≤ x mod PAGE_SIZE ∧ x = virt + x mod PAGE_SIZE ∧
  x mod PAGE_SIZE + object_size c ≤ PAGE_SIZE ∧ (object_size c | x) ∧ (16 | x).
Proof.
  intros Hc Hv (i & Hi & E)%slots_elem.
  destruct (class_facts c Hc) as (_ & _ & ? & H16 & Hp & Hf & ? & ? & ?).
  set (o := first_slot c + Z.of_nat i * object_size c). assert (x = virt + o) as Hx by lia.
  assert (32 ≤ o ∧ o + object_size c ≤ PAGE_SIZE) as [? ?] by (subst o; nia).
  assert (0 < PAGE_SIZE) by done. destruct Hv as [q ->].
  assert (x mod PAGE_SIZE = o) as Hm.
  { rewrite Hx, Z.add_comm, Z.mod_add by lia. apply Z.mod_small. lia. }
  assert (x / PAGE_SIZE = q) as Hd.
  { rewrite Hx, Z.div_add_l by lia. rewrite Z.div_small by lia. lia. }
  assert (object_size c | x) as Hdx.
  { rewrite Hx. apply Z.divide_add_r; [by apply Z.divide_mul_r|].
    apply Z.divide_add_r; [done|]. apply Z.divide_factor_r. }
  rewrite Hm, Hd. split_and!; try lia; [done|]. by etrans.
Qed.

(** ** Slab pages and slab lists *)

(** What a slab page holds: its free objects in list order and the objects
    handed out. *)
Record SlabPage : Type := mkPage {
  pg_phys : Z; pg_class : nat; pg_free : list Z; pg_used : list Z;
}.

Section heap.
Context (h : Z).

Definition pvirt (p : SlabPage) : Z := pg_phys p + h.

(** Free objects: each holds the address of the next one. *)
Fixpoint linked (w : gmap Z Z) (l : list Z) : Prop :=
  match l with
  | [] => True
  | x :: l => word_at w x = hd 0 l ∧ linked w l
  end.

(** Slab pages: each header has the address of the next one. *)
Fixpoint chain (w : gmap Z Z) (l : list Z) : Prop :=
  match l with
  | [] => True
  | x :: l => w !! (x + Header.next_offset) = Some (hd 0 l) ∧ chain w l
  end.

Record page_ok (m : gmap Z FreeBlockNode) (w : gmap Z Z) (p : SlabPage) : Prop := {
  po_class : (pg_class p < NUM_CLASSES)%nat;
  po_slots : pg_free p ++ pg_used p ≡ₚ slots (pvirt p) (pg_class p);
  po_magic : magic (node_at m (pvirt p)) = SLAB_PAGE_MAGIC;
  po_order : order (node_at m (pvirt p)) = Z.of_nat (length (pg_used p)) * 2 ^ 16 + Z.of_nat (pg_class p);
  po_capacity : Header.capacity (node_at m (pvirt p)) = Z.of_nat (slot_count (pg_class p));
  po_free : Header.free_list (node_at m (pvirt p)) = hd 0 (pg_free p);
  po_linked : linked w (pg_free p);
}.

Definition is_partial (c : nat) (p : SlabPage) : Prop := pg_class p = c ∧ pg_free p ≠ [].
Definition is_full (c : nat) (p : SlabPage) : Prop := pg_class p = c ∧ pg_free p = [].
#[global] Instance is_partial_dec c p : Decision (is_partial c p).
Proof. unfold is_partial. apply _. Defined.
#[global] Instance is_full_dec c p : Decision (is_full c p).
Proof. unfold is_full. apply _. Defined.

(** The list at [heads[c]] is the pages that satisfy [Q]. *)
Definition listed (heads : list Z) (w : gmap Z Z) (c : nat)
    (Q : SlabPage → Prop) `{!∀ p, Decision (Q p)} (pages : list SlabPage) (l : list Z) : Prop :=
  heads !! c = Some (hd 0 l) ∧ chain w l ∧ l ≡ₚ pvirt <$> filter Q pages.

Definition page_blocks (pages : list SlabPage) : list (nat * Z) := (λ p, (O, pg_phys p)) <$> pages.

(** The heap with slab pages [pages] and large blocks [large]: the buddy
    allocator sees the pages and the blocks as its live blocks. *)
Record heap_inv (exact : Prop) (P : Z → Prop) (s : Heap) (pages : list SlabPage)
    (large : list (nat * Z)) (fl : list (list Z)) : Prop := {
  hi_offset : hhdm_offset s = h;
  hi_world : world_inv h exact P (buddy s) (page_blocks pages ++ large) fl;
  hi_page p : p ∈ pages → page_ok (mem (buddy s)) (words s) p;
  hi_len : length (partial_slabs s) = NUM_CLASSES ∧ length (full_slabs s) = NUM_CLASSES;
  hi_partial c : (c < NUM_CLASSES)%nat →
    ∃ l, listed (partial_slabs s) (words s) c (is_partial c) pages l;
  hi_full c : (c < NUM_CLASSES)%nat →
    ∃ l, listed (full_slabs s) (words s) c (is_full c) pages l;
  hi_pos a : P a → 0 < a + h;
}.

(** The objects handed out, with their class. *)
Definition outstanding (pages : list SlabPage) : list (nat * Z) :=
  p ← pages; (pg_class p,.) <$> pg_used p.

Lemma slab_chain_frame w w' l :
  (∀ x, x ∈ l → w' !! (x + Header.next_offset) = w !! (x + Header.next_offset)) →
  chain w l → chain w' l.
Proof.
  induction l as [|x l IH]; [done|]. intros Hw [Hx Hl]. split; [rewrite Hw by (by left); done|].
  apply IH; [|done]. intros y Hy. apply Hw. by right.
Qed.

Lemma linked_frame w w' l : (∀ x, x ∈ l → word_at w' x = word_at w x) → linked w l → linked w' l.
Proof.
  induction l as [|x l IH]; [done|]. intros Hw [Hx Hl]. split; [rewrite Hw by (by left); done|].
  apply IH; [|done]. intros y Hy. apply Hw. by right.
Qed.

Lemma chain_app w l1 l2 :
  chain w (l1 ++ l2) ↔
  chain w l2 ∧ (∀ i x, l1 !! i = Some x → w !! (x + Header.next_offset) = Some (hd (hd 0 l2) (drop (S i) l1))).
Proof.
  induction l1 as [|y l1 IH]; [simpl; naive_solver|]. cbn [app chain]. rewrite IH.
  replace (hd 0 (l1 ++ l2)) with (hd (hd 0 l2) l1) by (by destruct l1). split.
  - intros (Hy & Hl2 & H1). split; [done|]. intros [|i] x; simpl; [intros [= <-]; exact Hy|].
    intros Hi. apply (H1 i x Hi).
  - intros (Hl2 & H1). split; [exact (H1 O y eq_refl)|]. split; [done|].
    intros i x Hi. apply (H1 (S i) x Hi).
Qed.

Lemma chain_size w l : NoDup l → chain w l → (length l ≤ size w)%nat.
Proof.
  intros Hnd Hc. rewrite <-(size_dom w).
  assert (list_to_set ((λ x, x + Header.next_offset) <$> l) ⊆ dom w) as Hsub.
  { intros k Hk. apply elem_of_list_to_set, list_elem_of_fmap in Hk as (x & -> & Hx).
    revert Hc. clear Hnd. induction l as [|y l IH]; [by apply not_elem_of_nil in Hx|].
    intros [Hy Hl]. apply elem_of_cons in Hx as [->|Hx]; [|by apply IH].
    apply elem_of_dom. by eexists. }
  apply subseteq_size in Hsub. rewrite size_list_to_set, length_fmap in Hsub; [done|].
  apply NoDup_fmap; [|done]. intros a b ?. lia.
Qed.

Lemma page_ok_frame m w m' w' p :
  node_at m' (pvirt p) = node_at m (pvirt p) → (∀ x, x ∈ pg_free p → word_at w' x = word_at w x) →
  page_ok m w p → page_ok m' w' p.
Proof.
  intros Hm Hw [? ? Hmg Ho Hc Hf Hl]. split; rewrite ?Hm; try done. by eapply linked_frame.
Qed.

(** ** Unlinking a page from its list *)

Lemma page_offset x k : (PAGE_SIZE | x) → 0 ≤ k < PAGE_SIZE → (x + k) mod PAGE_SIZE = k.
Proof.
  intros [q ->] Hk. rewrite Z.add_comm, Z.mod_add by (unfold PAGE_SIZE; lia).
  by apply Z.mod_small.
Qed.

Lemma load64_word s a :
  24 ≤ a mod PAGE_SIZE → load64 a s = Ok (word_at (words s) a, s).
Proof. intros Ha. unfold load64. by repeat (zcase; [lia|]). Qed.

Lemma store64_word s a x :
  24 ≤ a mod PAGE_SIZE → store64 a x s = Ok (tt, set_words (<[a := x]>) s).
Proof. intros Ha. unfold store64. by repeat (zcase; [lia|]). Qed.

Lemma load64_next s x :
  (PAGE_SIZE | x) → load64 (x + Header.next_offset) s = Ok (word_at (words s) (x + Header.next_offset), s).
Proof. intros. apply load64_word. by rewrite page_offset. Qed.

Lemma store64_next s x y :
  (PAGE_SIZE | x) →
  store64 (x + Header.next_offset) y s = Ok (tt, set_words (<[x + Header.next_offset := y]>) s).
Proof. intros. apply store64_word. by rewrite page_offset. Qed.

(** The state without the page behind [prev] (the first one if [prev] is null)
    when the rest of the list starts at [nx]. *)
Definition unlinked (upd : (list Z → list Z) → Heap → Heap) (c : nat) (prev nx : Z) (s : Heap) : Heap :=
  if prev =? 0 then upd (<[c := nx]>) s
  else set_words (<[prev + Header.next_offset := nx]>) s.

Definition page_addr (x : Z) : Prop := x ≠ 0 ∧ (PAGE_SIZE | x).

Lemma unlink_loop_spec fuel s sel upd c v l1 l2 prev :
  (length l1 < fuel)%nat → Forall page_addr (l1 ++ [v]) → v ∉ l1 → prev = 0 ∨ page_addr prev →
  chain (words s) (l1 ++ v :: l2) →
  unlink_loop fuel sel upd c v (hd 0 (l1 ++ v :: l2)) prev s =
    Ok (tt, unlinked upd c (List.last l1 prev) (hd 0 l2) s).
Proof.
  revert l1 prev. induction fuel as [|fuel IH]; intros l1 prev Hf Hal Hv Hp Hc; [lia|].
  cbn [unlink_loop]. destruct l1 as [|x l1]; cbn [app hd] in *.
  - apply Forall_singleton in Hal as [Hv0 Hva]. destruct Hc as [Hx _].
    destruct (Z.eqb_spec v 0); [done|]. mstep. rewrite load64_next by done.
    unfold word_at. rewrite Hx, Z.eqb_refl. simpl. unfold unlinked, set_slab_head.
    destruct (Z.eqb_spec prev 0); [done|]. destruct Hp as [?|[_ ?]]; [done|]. by rewrite store64_next.
  - apply Forall_cons in Hal as [[Hx0 Hxa] Hal]. destruct Hc as [Hx Hc].
    apply not_elem_of_cons in Hv as [Hvx Hv].
    destruct (Z.eqb_spec x 0); [done|]. mstep. rewrite load64_next by done.
    unfold word_at. rewrite Hx. cbv [default from_option id]. destruct (Z.eqb_spec x v); [congruence|].
    cbn [length] in Hf. rewrite IH; [by rewrite last_default|lia|done..|by right|done].
Qed.

Lemma unlink_slab_page_run s sel upd c v l1 l2 :
  sel s !! c = Some (hd 0 (l1 ++ v :: l2)) → chain (words s) (l1 ++ v :: l2) →
  NoDup (l1 ++ v :: l2) → Forall page_addr (l1 ++ v :: l2) →
  unlink_slab_page sel upd c v s = Ok (tt, unlinked upd c (List.last l1 0) (hd 0 l2) s).
Proof.
  intros Hs Hc Hnd Hal. pose proof (chain_size _ _ Hnd Hc) as Hsz.
  rewrite length_app in Hsz. simpl in Hsz.
  unfold unlink_slab_page, slab_head. mstep. rewrite Hs. apply unlink_loop_spec; [lia| | |by left|done].
  - apply Forall_app in Hal as [? [??]%Forall_cons]. apply Forall_app. split; [done|]. by constructor.
  - apply NoDup_app in Hnd as (_ & Hd & _). intros Hin. apply (Hd v Hin). by left.
Qed.

(** The list after unlinking, for either array of heads. *)
Lemma unlinked_chain w l1 v l2 :
  NoDup (l1 ++ v :: l2) → Forall page_addr (l1 ++ v :: l2) → chain w (l1 ++ v :: l2) →
  (l1 = [] → chain w l2) ∧
  (l1 ≠ [] → chain (<[List.last l1 0 + Header.next_offset := hd 0 l2]> w) (l1 ++ l2) ∧
             hd 0 (l1 ++ v :: l2) = hd 0 (l1 ++ l2) ∧ List.last l1 0 ≠ 0).
Proof.
  intros Hnd Hal Hc. split; [intros ->; apply Hc|]. intros Hne.
  destruct (exists_last Hne) as (l & y & ->). rewrite List.last_last.
  rewrite <-app_assoc in *. cbn [app] in *. apply NoDup_app in Hnd as (_ & Hd & Hnd).
  apply NoDup_cons in Hnd as [Hy Hnd]. apply NoDup_cons in Hnd as [_ Hnd].
  apply chain_app in Hc as [(Hy' & Hv & Hl2) Hl].
  assert (∀ x, x ≠ y → <[y + Header.next_offset := hd 0 l2]> w !! (x + Header.next_offset) =
    w !! (x + Header.next_offset)) as Hfr by (intros; apply lookup_insert_ne; lia).
  split_and!; [|by destruct l|].
  - apply chain_app. split.
    + split; [apply lookup_insert_eq|]. eapply slab_chain_frame; [|done]. intros x Hx. apply Hfr.
      intros ->. apply Hy. by right.
    + intros i x Hi. rewrite Hfr; [by apply Hl|]. intros ->. apply (Hd y); [|by left].
      by eapply list_elem_of_lookup_2.
  - apply Forall_app in Hal as [_ [[??] _]%Forall_cons]. done.
Qed.

(** ** Pages and their places *)

Context (Hh : 0 ≤ h) (Hpage : (PAGE_SIZE | h)).

Section facts.
Context {exact : Prop} {P : Z → Prop} {s : Heap} {pages : list SlabPage}
  {large : list (nat * Z)} {fl : list (list Z)}.
Context (Hi : heap_inv exact P s pages large fl).

Lemma page_live p : p ∈ pages → (O, pg_phys p) ∈ page_blocks pages ++ large.
Proof. intros Hp. apply elem_of_app. left. apply list_elem_of_fmap. by exists p. Qed.

Lemma page_good p : p ∈ pages → good_block h (buddy s) 0 (pg_phys p) ∧ taken fl 0 (pg_phys p).
Proof. intros Hp. apply (w_good _ _ _ _ _ _ (hi_world _ _ _ _ _ _ Hi)). by apply page_live. Qed.

Lemma page_addr_ok p : p ∈ pages → page_addr (pvirt p).
Proof.
  intros Hp. destruct (page_good p Hp) as [(_ & _ & Hd & _) _]. split.
  - assert (P (pg_phys p)) as Hpos%(hi_pos _ _ _ _ _ _ Hi); [|unfold pvirt; lia].
    apply (w_sound _ _ _ _ _ _ (hi_world _ _ _ _ _ _ Hi)). right. exists O, (pg_phys p).
    split; [by apply page_live|]. unfold in_block. pose proof (block_size_pos 0). lia.
  - by apply Z.divide_add_r.
Qed.

Lemma pages_nodup : NoDup (pvirt <$> pages).
Proof.
  pose proof (w_apart _ _ _ _ _ _ (hi_world _ _ _ _ _ _ Hi)) as Hap. clear Hi.
  unfold page_blocks in Hap. induction pages as [|p l IH]; [constructor|].
  destruct Hap as [Hp Hap]. constructor; [|by apply IH].
  intros (q & E & Hq)%list_elem_of_fmap. rewrite Forall_forall in Hp.
  destruct (Hp (O, pg_phys q)); [apply elem_of_app; left; apply list_elem_of_fmap; by eauto|..];
    simpl in *; unfold pvirt in *; pose proof (block_size_pos 0); lia.
Qed.

Lemma free_slot p x : p ∈ pages → x ∈ pg_free p ∨ x ∈ pg_used p → x ∈ slots (pvirt p) (pg_class p).
Proof.
  intros Hp Hx. rewrite <-(po_slots _ _ _ (hi_page _ _ _ _ _ _ Hi _ Hp)). by apply elem_of_app.
Qed.

(** Words of different pages, and slots and headers, do not overlap. *)
Lemma slot_page p x : p ∈ pages → x ∈ pg_free p ∨ x ∈ pg_used p →
  x / PAGE_SIZE * PAGE_SIZE = pvirt p ∧ 32 ≤ x mod PAGE_SIZE ∧ x ≠ 0 ∧ x mod 16 = 0.
Proof.
  intros Hp Hx. pose proof (po_class _ _ _ (hi_page _ _ _ _ _ _ Hi _ Hp)) as Hc.
  destruct (page_addr_ok p Hp) as [_ Hd].
  destruct (slot_place (pvirt p) _ x Hc Hd) as (? & ? & ? & ? & _ & ?); [by apply free_slot|].
  split_and!; [done..| |]; [intros ->; by vm_compute in H0|]. by apply Z.mod_divide.
Qed.

Lemma slot_ne_next p q x : p ∈ pages → q ∈ pages → x ∈ pg_free p ∨ x ∈ pg_used p →
  x ≠ pvirt q + Header.next_offset.
Proof.
  intros Hp Hq Hx E. destruct (slot_page p x Hp Hx) as (_ & ? & _).
  destruct (page_addr_ok q Hq) as [_ Hd]. rewrite E, page_offset in H by done. done.
Qed.

Lemma slot_ne_slot p q x y : p ∈ pages → q ∈ pages → pvirt p ≠ pvirt q →
  x ∈ pg_free p ∨ x ∈ pg_used p → y ∈ pg_free q ∨ y ∈ pg_used q → x ≠ y.
Proof.
  intros Hp Hq Hne Hx Hy ->. destruct (slot_page p y Hp Hx) as [E1 _].
  destruct (slot_page q y Hq Hy) as [E2 _]. congruence.
Qed.

Lemma listed_pages heads w c (Q : SlabPage → Prop) `{!∀ p, Decision (Q p)} l :
  listed heads w c Q pages l → NoDup l ∧ Forall page_addr l.
Proof.
  intros (_ & _ & Hl). split.
  - rewrite Hl. eapply sublist_NoDup; [apply pages_nodup|]. apply fmap_sublist, sublist_filter.
  - rewrite Hl, Forall_fmap, Forall_forall. intros p [_ Hp]%list_elem_of_filter. by apply page_addr_ok.
Qed.
End facts.

Lemma heap_inv_perm exact P s pages pages' large fl :
  pages ≡ₚ pages' → heap_inv exact P s pages large fl → heap_inv exact P s pages' large fl.
Proof.
  intros Hp [? Hw Hpg ? Hpt Hfu ?]. split; try done.
  - eapply world_perm; [|done]. unfold page_blocks. by rewrite Hp.
  - intros p. rewrite <-Hp. apply Hpg.
  - intros c Hc. destruct (Hpt c Hc) as (l & ? & ? & Hl). exists l. split_and!; [done..|]. by rewrite <-Hp.
  - intros c Hc. destruct (Hfu c Hc) as (l & ? & ? & Hl). exists l. split_and!; [done..|]. by rewrite <-Hp.
Qed.

Lemma listed_frame heads w heads' w' c (Q : SlabPage → Prop) `{!∀ p, Decision (Q p)} pages pages' l :
  listed heads w c Q pages l → heads' !! c = heads !! c →
  (∀ x, x ∈ l → w' !! (x + Header.next_offset) = w !! (x + Header.next_offset)) →
  pvirt <$> filter Q pages' ≡ₚ pvirt <$> filter Q pages → listed heads' w' c Q pages' l.
Proof.
  intros (Hhd & Hc & Hl) E Hw Hp. split_and!; [by rewrite E|by eapply slab_chain_frame|by rewrite Hp].
Qed.

Lemma listed_push heads w c (Q : SlabPage → Prop) `{!∀ p, Decision (Q p)} p rest l :
  listed heads w c Q rest l → Q p → pvirt p ∉ l → (c < length heads)%nat →
  listed (<[c := pvirt p]> heads) (<[pvirt p + Header.next_offset := hd 0 l]> w) c Q (p :: rest) (pvirt p :: l).
Proof.
  intros (Hhd & Hc & Hl) HQ Hp Hlen. split_and!.
  - by rewrite list_lookup_insert_eq.
  - split; [apply lookup_insert_eq|]. eapply slab_chain_frame; [|done]. intros x Hx.
    apply lookup_insert_ne. intros ?. assert (pvirt p = x) as E by lia. by rewrite E in Hp.
  - rewrite filter_cons_True by done. cbn [fmap list_fmap]. by rewrite <-Hl.
Qed.

Lemma filter_class_other (R : SlabPage → Prop) `{!∀ p, Decision (R p)} c c' (new rest : list SlabPage) :
  (∀ p, R p → pg_class p = c') → Forall (λ p, pg_class p = c) new → c' ≠ c →
  filter R (new ++ rest) = filter R rest.
Proof.
  intros HR Hn Hne. rewrite filter_app. induction Hn as [|p new Hp _ IH]; [done|].
  rewrite filter_cons_False; [done|]. intros ?%HR. congruence.
Qed.

(** An operation on class [c] exchanges the pages [old] for [new] and leaves the
    other pages and lists alone. *)
Lemma heap_inv_replace exact P s s' c old new rest large large' fl fl' :
  heap_inv exact P s (old ++ rest) large fl →
  Forall (λ p, pg_class p = c) old → Forall (λ p, pg_class p = c) new →
  hhdm_offset s' = h → world_inv h exact P (buddy s') (page_blocks (new ++ rest) ++ large') fl' →
  Forall (page_ok (mem (buddy s')) (words s')) new →
  (∀ q, q ∈ rest → node_at (mem (buddy s')) (pvirt q) = node_at (mem (buddy s)) (pvirt q) ∧
     ∀ x, x ∈ pg_free q → word_at (words s') x = word_at (words s) x) →
  (∀ q, q ∈ rest → pg_class q ≠ c →
     words s' !! (pvirt q + Header.next_offset) = words s !! (pvirt q + Header.next_offset)) →
  length (partial_slabs s') = NUM_CLASSES ∧ length (full_slabs s') = NUM_CLASSES →
  (∀ c', c' ≠ c → partial_slabs s' !! c' = partial_slabs s !! c' ∧ full_slabs s' !! c' = full_slabs s !! c') →
  (∃ l, listed (partial_slabs s') (words s') c (is_partial c) (new ++ rest) l) →
  (∃ l, listed (full_slabs s') (words s') c (is_full c) (new ++ rest) l) →
  heap_inv exact P s' (new ++ rest) large' fl'.
Proof.
  intros [? _ Hpg _ Hpt Hfu Hpos] Hold Hnew Hoff Hw Hnok Hrest Hnext Hlen Hheads Hlp Hlf.
  assert (∀ heads heads' c' (R : SlabPage → Prop) (HR : ∀ p, Decision (R p)) l,
    c' ≠ c → (∀ p, R p → pg_class p = c') → heads' !! c' = heads !! c' →
    listed heads (words s) c' R (old ++ rest) l → listed heads' (words s') c' R (new ++ rest) l) as Hother.
  { intros heads heads' c' R HR l Hne Hcl Hhd Hl. eapply listed_frame; [done|done| |].
    - destruct Hl as (_ & _ & Hl). intros x. rewrite Hl, (filter_class_other R c c') by done.
      intros (q & -> & [Hq%Hcl Hin]%list_elem_of_filter)%list_elem_of_fmap. apply Hnext; [done|congruence].
    - by rewrite !(filter_class_other R c c'). }
  split; try done.
  - intros p [Hp|Hp]%elem_of_app; [rewrite Forall_forall in Hnok; auto|].
    destruct (Hrest p Hp). eapply page_ok_frame; [done..|]. apply Hpg, elem_of_app. by right.
  - intros c' Hc'. destruct (decide (c' = c)) as [->|Hne]; [done|]. destruct (Hpt c' Hc') as [l Hl].
    exists l. eapply Hother; [done|by intros ? []|by apply Hheads|done].
  - intros c' Hc'. destruct (decide (c' = c)) as [->|Hne]; [done|]. destruct (Hfu c' Hc') as [l Hl].
    exists l. eapply Hother; [done|by intros ? []|by apply Hheads|done].
Qed.

(** Writing the header of a page. *)
Definition put_header (page : Z) (n : FreeBlockNode) (s : Heap) : Heap :=
  set_buddy (set_mem (<[page := n]>) (buddy s)) s.

Lemma upd_header_run page f s :
  upd_header page f s = Ok (tt, put_header page (f (node_at (mem (buddy s)) page)) s).
Proof. done. Qed.

Lemma header_run page s : header page s = Ok (node_at (mem (buddy s)) page, s).
Proof. unfold header, on_buddy, read_node. by destruct s as [? ? ? []]. Qed.

Lemma put_header_twice page n n' s : put_header page n (put_header page n' s) = put_header page n s.
Proof. unfold put_header, set_buddy, set_mem. simpl. by rewrite insert_insert_eq. Qed.

Lemma node_at_put page n s : node_at (mem (buddy (put_header page n s))) page = n.
Proof. simpl. by rewrite node_at_insert, decide_True. Qed.

(** ** The memory of live objects *)

(** The word at [a]. *)
Definition peek (s : Heap) (a : Z) : Z :=
  match load64 a s with Ok (x, _) => x | _ => 0 end.

(** Addresses inside objects and blocks that are handed out. *)
Definition live_addr (pages : list SlabPage) (large : list (nat * Z)) (a : Z) : Prop :=
  (∃ p x, p ∈ pages ∧ x ∈ pg_used p ∧ x ≤ a < x + object_size (pg_class p)) ∨
  is_live large (a - h).

Definition kept (live : Z → Prop) (s s' : Heap) : Prop := ∀ a, live a → peek s' a = peek s a.

Lemma kept_trans (live live' : Z → Prop) s1 s2 s3 :
  (∀ a, live a → live' a) → kept live' s1 s2 → kept live s2 s3 → kept live s1 s3.
Proof. intros Hsub H1 H2 a Ha. rewrite H2, H1 by auto. done. Qed.

Lemma live_addr_page exact P s pages large fl p a :
  heap_inv exact P s pages large fl → p ∈ pages → live_addr pages large a →
  a / PAGE_SIZE * PAGE_SIZE = pvirt p →
  ∃ x, x ∈ pg_used p ∧ x ≤ a < x + object_size (pg_class p).
Proof.
  intros Hi Hp [(q & x & Hq & Hx & Ha)|(o & b & Hb & Hin)] E.
  - exists x. assert (q = p) as ->; [|done]. pose proof (pages_nodup Hi) as Hnd.
    apply (nodup_fmap_inj pvirt pages); [done..|]. rewrite <-E.
    destruct (slot_place (pvirt q) (pg_class q) x) as (Hpx & ? & ? & ? & _);
      [by apply (hi_page _ _ _ _ _ _ Hi)|by apply (page_addr_ok Hi)|by apply (free_slot Hi); auto|].
    rewrite <-Hpx. f_equal. unfold PAGE_SIZE in *. apply (Z.div_unique a _ _ (a - x + x mod 4096));
      [lia|]. pose proof (Z.div_mod x 4096). lia.
  - exfalso. pose proof (w_apart _ _ _ _ _ _ (hi_world _ _ _ _ _ _ Hi)) as Hap.
    assert ((O, pg_phys p) ∈ page_blocks pages) as Hpb by (apply list_elem_of_fmap; by exists p).
    eapply apart_in_block; [exact (pairwise_app_elem _ _ _ _ _ Hap Hpb Hb)| |exact Hin]. unfold in_block. change (block_size_bytes 0) with 4096.
    simpl. change (block_size_bytes 0) with 4096. unfold pvirt, PAGE_SIZE in *.
    pose proof (Z.div_mod a 4096). pose proof (Z.mod_pos_bound a 4096). lia.
Qed.

(** The header of a slab page is not part of an object. *)
Lemma live_addr_header exact P s pages large fl p a :
  heap_inv exact P s pages large fl → p ∈ pages → live_addr pages large a →
  a / PAGE_SIZE * PAGE_SIZE = pvirt p → Header.size ≤ a mod PAGE_SIZE.
Proof.
  intros Hi Hp Ha E. destruct (live_addr_page _ _ _ _ _ _ _ _ Hi Hp Ha E) as (x & Hx & ?).
  destruct (slot_page Hi p x Hp) as (Ex & ? & _); [by right|].
  unfold Header.size, PAGE_SIZE in *. pose proof (Z.div_mod a 4096). pose proof (Z.div_mod x 4096). lia.
Qed.

Lemma kept_header exact P s pages large fl p n :
  heap_inv exact P s pages large fl → p ∈ pages →
  kept (live_addr pages large) s (put_header (pvirt p) n s).
Proof.
  intros Hi Hp a Ha. unfold peek, load64. simpl. rewrite node_at_insert. case_decide as E; [|done].
  symmetry in E. pose proof (live_addr_header _ _ _ _ _ _ _ _ Hi Hp Ha E). unfold Header.size in *.
  by repeat (zcase; [lia|]).
Qed.

Lemma kept_word (live : Z → Prop) s k x : ¬ live k → kept live s (set_words (<[k := x]>) s).
Proof.
  intros Hk a Ha. assert (k ≠ a) by congruence. unfold peek, load64. simpl.
  unfold word_at. by rewrite lookup_insert_ne.
Qed.

Lemma next_not_live exact P s pages large fl p :
  heap_inv exact P s pages large fl → p ∈ pages → ¬ live_addr pages large (pvirt p + Header.next_offset).
Proof.
  intros Hi Hp Ha. destruct (page_addr_ok Hi p Hp) as [_ Hd].
  pose proof (live_addr_header _ _ _ _ _ _ _ _ Hi Hp Ha) as Hb.
  rewrite page_offset in Hb by done. apply Hb; [|done].
  destruct Hd as [q ->]. unfold Header.next_offset, PAGE_SIZE. rewrite Z.div_add_l by lia.
  change (24 / 4096) with 0. lia.
Qed.

Lemma free_not_live exact P s pages large fl p x :
  heap_inv exact P s pages large fl → p ∈ pages → x ∈ pg_free p → ¬ live_addr pages large x.
Proof.
  intros Hi Hp Hx Ha. destruct (slot_page Hi p x Hp) as (E & _); [by left|].
  destruct (live_addr_page _ _ _ _ _ _ _ _ Hi Hp Ha E) as (y & Hy & Hyx).
  pose proof (hi_page _ _ _ _ _ _ Hi p Hp) as Hok. pose proof (po_class _ _ _ Hok) as Hc.
  pose proof (slots_nodup (pvirt p) _ Hc) as Hnd. rewrite <-(po_slots _ _ _ Hok) in Hnd.
  apply NoDup_app in Hnd as (_ & Hd & _). apply (Hd x Hx).
  destruct (class_facts _ Hc) as (_ & _ & ? & _).
  assert (x ∈ slots (pvirt p) (pg_class p)) as (i & _ & Ei)%slots_elem by (apply (free_slot Hi); auto).
  assert (y ∈ slots (pvirt p) (pg_class p)) as (j & _ & Ej)%slots_elem by (apply (free_slot Hi); auto).
  assert (i = j) as -> by nia. by rewrite Ei, <-Ej.
Qed.

(** ** Handing out an object *)

Section ops.
Context {exact : Prop} {P : Z → Prop}.
Abbreviation hinv := (heap_inv exact P).

(** Another page of the heap is at another address. *)
Lemma rest_apart s p rest large fl q :
  hinv s (p :: rest) large fl → q ∈ rest → pvirt q ≠ pvirt p.
Proof.
  intros Hi Hq E. pose proof (pages_nodup Hi) as Hnd. apply NoDup_cons in Hnd as [Hp _].
  apply Hp. rewrite <-E. apply list_elem_of_fmap. by exists q.
Qed.

Lemma put_header_world s pages large fl p n :
  hinv s pages large fl → p ∈ pages → magic n ≠ BUDDY_FREE_MAGIC →
  world_inv h exact P (buddy (put_header (pvirt p) n s)) (page_blocks pages ++ large) fl.
Proof.
  intros Hi Hp Hn. apply (world_write h exact P _ _ _ O (pg_phys p)); [by apply Hi|by apply page_live| |done].
  unfold in_block, pvirt. pose proof (block_size_pos 0). lia.
Qed.

(** The header of [p] for given objects. *)
Definition set_counts (free : list Z) (used : nat) (n : FreeBlockNode) : FreeBlockNode :=
  mkNode (magic n) (Z.of_nat used * 2 ^ 16 + order n mod 2 ^ 16) (next n) (hd 0 free).

Lemma page_ok_counts m w w' p free used :
  page_ok m w p → free ++ used ≡ₚ pg_free p ++ pg_used p → linked w' free →
  page_ok (<[pvirt p := set_counts free (length used) (node_at m (pvirt p))]> m) w'
    (mkPage (pg_phys p) (pg_class p) free used).
Proof.
  intros [Hcl Hsl Hmg Ho Hcap Hf Hl] Hp Hl'.
  assert (∀ n, node_at (<[pvirt p := n]> m) (pvirt (mkPage (pg_phys p) (pg_class p) free used)) = n) as Hn.
  { intros n. unfold pvirt. simpl. by rewrite node_at_insert, decide_True. }
  split; rewrite ?Hn; cbn [magic order next prev set_counts pg_class pg_free pg_used]; try done.
  - by rewrite Hp.
  - rewrite Ho. f_equal. rewrite Z.add_comm, Z.mod_add by lia. apply Z.mod_small.
    unfold NUM_CLASSES in Hcl. lia.
Qed.

Lemma in_use_bound m w p : page_ok m w p → 0 ≤ Z.of_nat (length (pg_used p)) ≤ 254.
Proof.
  intros [Hcl Hsl _ _ _ _ _]. apply Permutation_length in Hsl. unfold slots in Hsl.
  rewrite length_app, length_fmap, length_seq in Hsl.
  destruct (class_facts _ Hcl) as (_ & _ & _ & _ & _ & _ & _ & ? & _). lia.
Qed.

Lemma header_counts m w p :
  page_ok m w p →
  Header.in_use (node_at m (pvirt p)) = Z.of_nat (length (pg_used p)) ∧
  Header.class_index (node_at m (pvirt p)) = Z.of_nat (pg_class p).
Proof.
  intros [Hcl _ _ Ho _ _ _]. unfold Header.in_use, Header.class_index. rewrite Ho.
  unfold NUM_CLASSES in Hcl. split.
  - rewrite Z.div_add_l by lia. rewrite Z.div_small by lia. lia.
  - rewrite Z.add_comm, Z.mod_add by lia. apply Z.mod_small. lia.
Qed.

(** The header and object list part of [take_object]. *)
Lemma take_object_run s p rest large fl x fr :
  hinv s (p :: rest) large fl → pg_free p = x :: fr →
  take_object (pg_class p) (pvirt p) s =
    (let s1 := put_header (pvirt p)
                 (set_counts fr (S (length (pg_used p))) (node_at (mem (buddy s)) (pvirt p))) s in
     (if hd 0 fr =? 0 then
        let! nx := load64 (pvirt p + Header.next_offset) in
        let! _ := set_slab_head set_partial_slabs (pg_class p) nx in
        let! full := slab_head full_slabs (pg_class p) in
        let! _ := store64 (pvirt p + Header.next_offset) full in
        let! _ := set_slab_head set_full_slabs (pg_class p) (pvirt p) in
        mret x
      else mret x) s1).
Proof.
  intros Hi Hf. assert (p ∈ p :: rest) as Hp by left.
  pose proof (hi_page _ _ _ _ _ _ Hi p Hp) as Hok. pose proof (in_use_bound _ _ _ Hok) as Hb.
  destruct (header_counts _ _ _ Hok) as [Hu _].
  pose proof (po_free _ _ _ Hok) as Hfl. pose proof (po_linked _ _ _ Hok) as Hl.
  rewrite Hf in Hfl, Hl. destruct Hl as [Hx _].
  destruct (slot_page Hi p x Hp) as (_ & ? & _); [left; rewrite Hf; by left|].
  unfold take_object. rewrite (mbind_ok _ _ _ _ _ (header_run _ _)). cbv zeta. rewrite Hfl. cbn [hd].
  rewrite (mbind_ok _ _ _ _ _ (load64_word s x ltac:(lia))), Hx.
  rewrite (mbind_ok _ _ _ _ _ (upd_header_run _ _ _)).
  rewrite (mbind_ok _ _ _ _ _ (header_run _ _)), node_at_put.
  unfold Header.set_free_list, set_prev.
  assert (∀ n a, Header.in_use (mkNode (magic n) (order n) (next n) a) = Header.in_use n) as E by done.
  rewrite E, Hu, mbind_assert by (apply Z.leb_le; unfold u16_max; lia).
  rewrite (mbind_ok _ _ _ _ _ (upd_header_run _ _ _)), node_at_put, put_header_twice.
  unfold set_counts, Header.set_in_use, Header.class_index. cbn [magic order next prev].
  by replace (Z.of_nat (length (pg_used p)) + 1) with (Z.of_nat (S (length (pg_used p)))) by lia.
Qed.

Lemma filter_same_addr (Q : SlabPage → Prop) `{!∀ p, Decision (Q p)} p p' rest :
  (Q p ↔ Q p') → pvirt p = pvirt p' →
  pvirt <$> filter Q (p' :: rest) = pvirt <$> filter Q (p :: rest).
Proof.
  intros HQ E. rewrite !filter_cons. repeat case_decide; try tauto. cbn [fmap list_fmap]. by rewrite E.
Qed.

(** Dropping the first page of a list that stops satisfying [Q]. *)
Lemma listed_pop heads w c (Q : SlabPage → Prop) `{!∀ p, Decision (Q p)} p p' rest l :
  listed heads w c Q (p :: rest) (pvirt p :: l) → Q p → ¬ Q p' → (c < length heads)%nat →
  word_at w (pvirt p + Header.next_offset) = hd 0 l ∧
  listed (<[c := hd 0 l]> heads) w c Q (p' :: rest) l.
Proof.
  intros (Hhd & [Hp Hc] & Hl) HQ HnQ Hlen. unfold word_at. rewrite Hp. split; [done|].
  rewrite filter_cons_True in Hl by done. cbn [fmap list_fmap] in Hl.
  apply Permutation_cons_inv in Hl. split_and!; [by rewrite list_lookup_insert_eq|done|].
  by rewrite filter_cons_False.
Qed.

Lemma listed_notin {heads w c} {Q : SlabPage → Prop} `{!∀ p, Decision (Q p)} {p pages l} :
  NoDup (pvirt <$> (p :: pages)) → ¬ Q p → listed heads w c Q (p :: pages) l →
  (pvirt p ∉ l) ∧ listed heads w c Q pages l.
Proof.
  intros [Hp _]%NoDup_cons HQ (Hhd & Hc & Hl). rewrite filter_cons_False in Hl by done.
  split; [|by split_and!]. rewrite Hl. intros (q & E & [_ Hq]%list_elem_of_filter)%list_elem_of_fmap.
  apply Hp. rewrite E. apply list_elem_of_fmap. by exists q.
Qed.

Lemma taken_page_ok m w w' p x fr :
  page_ok m w p → pg_free p = x :: fr → (∀ y, y ∈ fr → word_at w' y = word_at w y) →
  page_ok (<[pvirt p := set_counts fr (S (length (pg_used p))) (node_at m (pvirt p))]> m) w'
    (mkPage (pg_phys p) (pg_class p) fr (x :: pg_used p)).
Proof.
  intros Hok Hf Hw. apply (page_ok_counts m w w' p fr (x :: pg_used p)); [done| |].
  - rewrite Hf. symmetry. apply Permutation_middle.
  - pose proof (po_linked _ _ _ Hok) as Hl. rewrite Hf in Hl. eapply linked_frame; [done|apply Hl].
Qed.

(** The page keeps its place when it has another free object. *)
Lemma take_object_more s p rest large fl x y fr :
  hinv s (p :: rest) large fl → pg_free p = x :: y :: fr →
  ∃ s', take_object (pg_class p) (pvirt p) s = Ok (x, s') ∧
    hinv s' (mkPage (pg_phys p) (pg_class p) (y :: fr) (x :: pg_used p) :: rest) large fl ∧
    kept (live_addr (p :: rest) large) s s'.
Proof.
  intros Hi Hf. assert (p ∈ p :: rest) as Hp by left. set (c := pg_class p) in *.
  pose proof (hi_page _ _ _ _ _ _ Hi p Hp) as Hok. pose proof (po_class _ _ _ Hok) as Hc. fold c in Hc.
  unfold c. rewrite (take_object_run s p rest large fl x (y :: fr) Hi Hf). cbv zeta. fold c.
  set (p' := mkPage (pg_phys p) c (y :: fr) (x :: pg_used p)). set (n := set_counts _ _ _).
  assert (magic n ≠ BUDDY_FREE_MAGIC) as Hmg by (subst n; simpl; by rewrite (po_magic _ _ _ Hok)).
  assert (y ≠ 0) as Hy by (apply (slot_page Hi p y Hp); left; rewrite Hf; right; by left).
  cbn [hd]. destruct (Z.eqb_spec y 0); [done|]. eexists. split; [done|].
  split; [|by eapply kept_header].
  apply (heap_inv_replace exact P s _ c [p] [p'] rest large large fl fl Hi); try done; try by repeat constructor.
  - by apply (hi_offset _ _ _ _ _ _ Hi).
  - by apply (put_header_world s _ large fl p n Hi Hp Hmg).
  - constructor; [|done]. by eapply taken_page_ok.
  - intros q Hq. split; [|done]. simpl. rewrite node_at_insert, decide_False; [done|].
    intros E. by apply (rest_apart s p rest large fl q).
  - by apply (hi_len _ _ _ _ _ _ Hi).
  - destruct (hi_partial _ _ _ _ _ _ Hi c Hc) as [lp Hlip].
    exists lp. eapply listed_frame; [done..|]. cbn [app]. rewrite (filter_same_addr _ p p'); [done| |done].
    split; intros _; split; try done. by rewrite Hf.
  - destruct (hi_full _ _ _ _ _ _ Hi c Hc) as [lf Hlif].
    exists lf. eapply listed_frame; [done..|]. cbn [app]. rewrite (filter_same_addr _ p p'); [done| |done].
    split; intros [_ E]; [by rewrite Hf in E|done].
Qed.

(** Taking the last free object moves the page to the list of full pages. *)
Lemma take_object_last s p rest large fl x :
  hinv s (p :: rest) large fl → pg_free p = [x] → partial_slabs s !! pg_class p = Some (pvirt p) →
  ∃ s', take_object (pg_class p) (pvirt p) s = Ok (x, s') ∧
    hinv s' (mkPage (pg_phys p) (pg_class p) [] (x :: pg_used p) :: rest) large fl ∧
    kept (live_addr (p :: rest) large) s s'.
Proof.
  intros Hi Hf Hhd. assert (p ∈ p :: rest) as Hp by left. set (c := pg_class p) in *.
  pose proof (hi_page _ _ _ _ _ _ Hi p Hp) as Hok. pose proof (po_class _ _ _ Hok) as Hc. fold c in Hc.
  destruct (page_addr_ok Hi p Hp) as [Hp0 Hpa]. destruct (hi_len _ _ _ _ _ _ Hi) as [Hlp Hlf].
  unfold c. rewrite (take_object_run s p rest large fl x [] Hi Hf). cbv zeta. fold c.
  set (p' := mkPage (pg_phys p) c [] (x :: pg_used p)). set (n := set_counts _ _ _).
  assert (magic n ≠ BUDDY_FREE_MAGIC) as Hmg by (subst n; simpl; by rewrite (po_magic _ _ _ Hok)).
  destruct (hi_partial _ _ _ _ _ _ Hi c Hc) as [lp Hlip]. destruct (hi_full _ _ _ _ _ _ Hi c Hc) as [lf Hlif].
  destruct lp as [|y lp]; [destruct Hlip as (E & _); rewrite Hhd in E; injection E as E; done|].
  assert (y = pvirt p) as -> by (destruct Hlip as (E & _); rewrite Hhd in E; by injection E as ->).
  destruct (listed_pop _ _ _ _ p p' rest lp Hlip) as [Hnx Hlp']; [split; [done|by rewrite Hf]|by intros [_ ?]|by rewrite Hlp|].
  destruct (listed_notin (pages_nodup Hi) (λ H : is_full c p, ltac:(destruct H as [_ E]; by rewrite Hf in E)) Hlif)
    as [Hnin Hlif'].
  cbn [hd]. rewrite Z.eqb_refl. rewrite (mbind_ok _ _ _ _ _ (load64_next _ _ Hpa)). simpl words. rewrite Hnx.
  rewrite (mbind_ok _ _ _ tt (set_partial_slabs (<[c := hd 0 lp]>) (put_header (pvirt p) n s))) by done.
  rewrite (mbind_ok _ _ _ (hd 0 lf) (set_partial_slabs (<[c := hd 0 lp]>) (put_header (pvirt p) n s)))
    by (unfold slab_head; simpl; by rewrite (proj1 Hlif)).
  rewrite (mbind_ok _ _ _ _ _ (store64_next _ _ _ Hpa)). eexists. split; [done|]. split.
  - apply (heap_inv_replace exact P s _ c [p] [p'] rest large large fl fl Hi); try done; try by repeat constructor.
    + by apply (hi_offset _ _ _ _ _ _ Hi).
    + by apply (put_header_world s _ large fl p n Hi Hp Hmg).
    + constructor; [|done]. apply taken_page_ok with (w := words s); [done..|]. by intros ? ?%not_elem_of_nil.
    + intros q Hq. split.
      * simpl. rewrite node_at_insert, decide_False; [done|]. intros E. by apply (rest_apart s p rest large fl q).
      * intros z Hz. unfold word_at. simpl. rewrite lookup_insert_ne; [done|].
        intros E. by apply (slot_ne_next Hi q p z); [right|left|left|].
    + intros q Hq _. simpl. apply lookup_insert_ne. intros E. apply (rest_apart s p rest large fl q); [done..|]. lia.
    + simpl. by rewrite !length_insert.
    + intros c' Hc'. simpl. by rewrite !list_lookup_insert_ne.
    + exists lp. destruct (listed_pages Hi _ _ _ _ _ Hlip) as [[Hni _]%NoDup_cons _].
      eapply listed_frame; [exact Hlp'|done| |done]. intros z Hz. simpl. apply lookup_insert_ne.
      intros E. apply Hni. by replace (pvirt p) with z by lia.
    + exists (pvirt p' :: lf).
      apply (listed_push (full_slabs s) (words s) c (is_full c) p' rest lf); [done..|]. by rewrite Hlf.
  - eapply (kept_trans _ (live_addr (p :: rest) large)); [done|by eapply (kept_header _ _ _ _ _ _ p n)|].
    intros a Ha. apply (kept_word (live_addr (p :: rest) large) (put_header (pvirt p) n s)); [|done].
    by eapply next_not_live; [|left].
Qed.

Lemma take_object_spec s p rest large fl x fr :
  hinv s (p :: rest) large fl → pg_free p = x :: fr → partial_slabs s !! pg_class p = Some (pvirt p) →
  ∃ s', take_object (pg_class p) (pvirt p) s = Ok (x, s') ∧
    hinv s' (mkPage (pg_phys p) (pg_class p) fr (x :: pg_used p) :: rest) large fl ∧
    kept (live_addr (p :: rest) large) s s'.
Proof.
  destruct fr as [|y fr]; intros Hi Hf Hhd; [by apply take_object_last|by apply take_object_more].
Qed.

(** ** A new slab page *)

Lemma link_slots_spec i start sz s l :
  0 < sz → (∀ j, (j < i)%nat → 24 ≤ (start + Z.of_nat j * sz) mod PAGE_SIZE) →
  (∀ j, (j < i)%nat → start + Z.of_nat j * sz ∉ l) → linked (words s) l →
  let new := (λ j, start + Z.of_nat j * sz) <$> seq 0 i in
  ∃ w, link_slots i start sz (hd 0 l) s = Ok (hd 0 (new ++ l), set_words (λ _, w) s) ∧
    linked w (new ++ l) ∧ (∀ k, k ∉ new → w !! k = words s !! k).
Proof.
  intros Hsz. revert s l. induction i as [|i IH]; intros s l Hal Hnl Hl.
  { exists (words s). split_and!; [|done|done]. by destruct s. }
  cbn [link_slots]. set (x := start + Z.of_nat i * sz).
  rewrite (mbind_ok _ _ _ _ _ (store64_word s x _ (Hal i ltac:(lia)))).
  destruct (IH (set_words (<[x := hd 0 l]>) s) (x :: l)) as (w & Hrun & Hlk & Hfr).
  - intros j Hj. apply Hal. lia.
  - intros j Hj. apply not_elem_of_cons. split; [subst x; nia|]. apply Hnl. lia.
  - split; [unfold word_at; simpl; by rewrite lookup_insert_eq|]. eapply linked_frame; [|done].
    intros y Hy. unfold word_at. simpl. rewrite lookup_insert_ne; [done|].
    intros <-. by apply (Hnl i ltac:(lia)).
  - exists w. rewrite seq_S, fmap_app, <-app_assoc. split_and!; [exact Hrun|exact Hlk|].
    intros k [Hk Hx]%not_elem_of_app. rewrite (Hfr k Hk). simpl. apply lookup_insert_ne.
    intros E. apply Hx. rewrite <-E. by left.
Qed.

(** A live address lies in a block the buddy allocator handed out. *)
Lemma live_addr_block_sub s pages large large' fl a :
  hinv s pages large' fl → large ⊆ large' → live_addr pages large a →
  ∃ o b, (o, b) ∈ page_blocks pages ++ large ∧ in_block o b (a - h) ∧
    in_block o b (a / PAGE_SIZE * PAGE_SIZE - h).
Proof.
  intros Hi Hsub [(p & x & Hp & Hx & Ha)|(o & b & Hb & Hin)].
  - exists O, (pg_phys p). split; [by apply page_live|].
    destruct (slot_place (pvirt p) (pg_class p) x) as (Hpx & ? & ? & ? & _);
      [by apply (hi_page _ _ _ _ _ _ Hi)|by apply (page_addr_ok Hi)|by apply (free_slot Hi); auto|].
    unfold in_block, pvirt in *. change (block_size_bytes 0) with PAGE_SIZE.
    pose proof (Z.div_mod a PAGE_SIZE). pose proof (Z.mod_pos_bound a PAGE_SIZE).
    assert (a / PAGE_SIZE * PAGE_SIZE = pg_phys p + h); [|unfold PAGE_SIZE in *; lia].
    rewrite <-Hpx. f_equal. symmetry. apply (Z.div_unique a _ _ (a - x + x mod PAGE_SIZE));
      unfold PAGE_SIZE in *; pose proof (Z.div_mod x 4096); lia.
  - exists o, b. split; [apply elem_of_app; by right|]. split; [done|].
    assert ((o, b) ∈ page_blocks pages ++ large') as Hel by (apply elem_of_app; right; by apply Hsub).
    destruct (w_good _ _ _ _ _ _ (hi_world _ _ _ _ _ _ Hi) _ _ Hel) as [(_ & _ & Hd & _) _].
    assert (PAGE_SIZE | b + h) as [q Hq].
    { apply Z.divide_add_r; [|done]. etrans; [|exact Hd]. rewrite block_size_eq. apply Z.divide_factor_l. }
    unfold in_block, PAGE_SIZE in *. pose proof (Z.div_mod a 4096). pose proof (Z.mod_pos_bound a 4096).
    assert (q ≤ a / 4096) by (apply Z.div_le_lower_bound; lia). lia.
Qed.

Lemma live_addr_block s pages large fl a :
  hinv s pages large fl → live_addr pages large a →
  ∃ o b, (o, b) ∈ page_blocks pages ++ large ∧ in_block o b (a - h) ∧
    in_block o b (a / PAGE_SIZE * PAGE_SIZE - h).
Proof. intros Hi. by eapply live_addr_block_sub. Qed.

Lemma buddy_kept (live : Z → Prop) (Q : Z → Prop) s b :
  changes_only h Q (buddy s) b → (∀ a, live a → ¬ Q (a / PAGE_SIZE * PAGE_SIZE - h)) →
  kept live s (set_buddy b s).
Proof. intros Hc Hl a Ha. unfold peek, load64. simpl. by rewrite Hc by (by apply Hl). Qed.

Lemma align_first_slot {E} c virt :
  (c < NUM_CLASSES)%nat → (PAGE_SIZE | virt) → 0 ≤ virt → virt + PAGE_SIZE ≤ usize_max →
  @align_up E (virt + Header.size) (Z.max (object_size c) 8) = Ok (virt + first_slot c).
Proof.
  intros Hc Hv H0 Hb. destruct (class_facts c Hc) as (_ & Hpow & ? & _ & Hd & _).
  replace (Z.max (object_size c) 8) with (2 ^ (4 + Z.of_nat c)) by lia.
  unfold Header.size, PAGE_SIZE in *. rewrite align_up_pow by lia. rewrite <-Hpow. f_equal.
  assert (object_size c | virt) as [q Hq] by (by etrans). rewrite Hq.
  replace (q * object_size c + 32 + (object_size c - 1)) with (q * object_size c + (31 + object_size c)) by lia.
  rewrite Z.div_add_l, Z.mul_add_distr_r by lia. f_equal.
  clear -Hc. unfold NUM_CLASSES in Hc. do 8 (destruct c as [|c]; [by vm_compute|]). lia.
Qed.

(** The header a new page gets. *)
Definition new_header (c : nat) (free : Z) (n : FreeBlockNode) : FreeBlockNode :=
  Header.set_free_list free (Header.set_reserved 0 (Header.set_capacity (wrap 16 (Z.of_nat (slot_count c)))
    (Header.set_in_use 0 (Header.set_class_index (Z.of_nat c) (set_magic SLAB_PAGE_MAGIC n))))).

Lemma new_header_eq c free n :
  (c < NUM_CLASSES)%nat →
  new_header c free n =
    mkNode SLAB_PAGE_MAGIC (Z.of_nat c) (next n / 2 ^ 32 * 2 ^ 32 + Z.of_nat (slot_count c)) free.
Proof.
  intros Hc. destruct (class_facts c Hc) as (_ & _ & _ & _ & _ & _ & _ & Hs & _). unfold NUM_CLASSES in Hc.
  assert (∀ a k, 0 ≤ k < 2 ^ 16 → (a * 2 ^ 16 + k) mod 2 ^ 16 = k) as Hm.
  { intros a k ?. rewrite Z.add_comm, Z.mod_add by lia. by apply Z.mod_small. }
  unfold new_header, Header.set_free_list, Header.set_reserved, Header.set_capacity, Header.capacity,
    Header.set_in_use, Header.set_class_index, Header.class_index, set_magic, set_prev, wrap.
  cbn [magic order next prev]. rewrite (Z.mod_small (Z.of_nat (slot_count c))) by lia.
  rewrite !Hm by lia. f_equal. rewrite Z.mul_0_l, Z.add_0_r. f_equal. f_equal.
  change (2 ^ 32) with (2 ^ 16 * 2 ^ 16). rewrite <-!Z.div_div by lia.
  rewrite Z.div_add_l, (Z.div_small (Z.of_nat (slot_count c))), Z.add_0_r by lia. done.
Qed.

Lemma new_page_ok m w c x :
  (c < NUM_CLASSES)%nat → linked w (slots (x + h) c) →
  page_ok (<[x + h := new_header c (hd 0 (slots (x + h) c)) (node_at m (x + h))]> m) w
    (mkPage x c (slots (x + h) c) []).
Proof.
  intros Hc Hl. destruct (class_facts c Hc) as (_ & _ & _ & _ & _ & _ & _ & Hs & _).
  rewrite new_header_eq by done. set (n := mkNode _ _ _ _).
  assert (node_at (<[x + h := n]> m) (pvirt (mkPage x c (slots (x + h) c) [])) = n) as Hn.
  { unfold pvirt. simpl. by rewrite node_at_insert, decide_True. }
  split; rewrite ?Hn; cbn [pg_class pg_free pg_used]; try done.
  - by rewrite app_nil_r.
  - unfold Header.capacity. subst n. cbn [next]. change (2 ^ 32) with (2 ^ 16 * 2 ^ 16).
    rewrite Z.add_comm, Z.mul_assoc, Z.mod_add by lia. apply Z.mod_small. lia.
Qed.

Lemma add_slab_page_run s c x b1 w head :
  (c < NUM_CLASSES)%nat → hhdm_offset s = h → alloc_pages h 0 (buddy s) = Ok (Some x, b1) →
  0 ≤ x → (PAGE_SIZE | x) → x + h + PAGE_SIZE ≤ usize_max → partial_slabs s !! c = Some head →
  link_slots (slot_count c) (x + h + first_slot c) (object_size c) 0 (set_buddy b1 s) =
    Ok (hd 0 (slots (x + h) c), set_words (λ _, w) (set_buddy b1 s)) →
  add_slab_page c s =
    Ok (true, set_partial_slabs (<[c := x + h]>)
      (set_words (<[x + h + Header.next_offset := head]>)
        (put_header (x + h) (new_header c (hd 0 (slots (x + h) c)) (node_at (mem b1) (x + h)))
          (set_words (λ _, w) (set_buddy b1 s))))).
Proof.
  intros Hc Hoff Hal Hx Hxa Hb Hhd Hlk. assert (PAGE_SIZE | x + h) as Hva by (by apply Z.divide_add_r).
  destruct (class_facts c Hc) as (Hsz & _ & ? & _ & _ & _ & ? & Hs & ?).
  unfold add_slab_page. rewrite (mbind_ok _ _ _ (Some x) (set_buddy b1 s))
    by (unfold buddy_alloc_pages, on_buddy; by rewrite Hoff, Hal).
  rewrite (mbind_ok _ _ _ (x + h) (set_buddy b1 s))
    by (unfold phys_to_virt; simpl; rewrite Hoff; apply mlift_ok, uadd_ok; unfold PAGE_SIZE in *; lia).
  rewrite (mbind_ok _ _ _ (object_size c) (set_buddy b1 s)) by (apply mlift_ok; by rewrite Hsz).
  rewrite (mbind_ok _ _ _ _ _ (mlift_ok _ _ _ (uadd_ok (x + h) Header.size ltac:(unfold Header.size, PAGE_SIZE in *; lia)))).
  rewrite (mbind_ok _ _ _ _ _ (mlift_ok _ _ _ (align_first_slot c (x + h) Hc Hva ltac:(lia) Hb))).
  rewrite (mbind_ok _ _ _ _ _ (mlift_ok _ _ _ (uadd_ok (x + h) PAGE_SIZE Hb))). cbv zeta.
  destruct (Z.leb_spec (x + h + PAGE_SIZE) (x + h + first_slot c)); [unfold PAGE_SIZE in *; lia|].
  replace (x + h + PAGE_SIZE - (x + h + first_slot c)) with (PAGE_SIZE - first_slot c) by lia.
  assert ((PAGE_SIZE - first_slot c) / object_size c = Z.of_nat (slot_count c)) as Hcap
    by (unfold slot_count in *; lia).
  rewrite Hcap. destruct (Z.eqb_spec (Z.of_nat (slot_count c)) 0); [lia|]. rewrite Nat2Z.id.
  rewrite (mbind_ok _ _ _ _ _ Hlk).
  do 6 (rewrite (mbind_ok _ _ _ _ _ (upd_header_run _ _ _)), ?node_at_put, ?put_header_twice).
  rewrite (mbind_ok _ _ _ head (put_header (x + h)
    (new_header c (hd 0 (slots (x + h) c)) (node_at (mem b1) (x + h))) (set_words (λ _, w) (set_buddy b1 s))))
    by (unfold slab_head; simpl; by rewrite Hhd).
  by rewrite (mbind_ok _ _ _ _ _ (store64_next _ _ _ Hva)).
Qed.

(** Live memory is outside a block that was free. *)
Lemma live_outside s pages large fl o x a :
  hinv s pages large fl → (∀ b, in_block o x b → is_free fl b) → live_addr pages large a →
  ¬ in_block o x (a - h) ∧ ¬ in_block o x (a / PAGE_SIZE * PAGE_SIZE - h).
Proof.
  intros Hi Hfree Ha. destruct (live_addr_block _ _ _ _ _ Hi Ha) as (o' & b & Hb & Hin & Hin').
  destruct (w_good _ _ _ _ _ _ (hi_world _ _ _ _ _ _ Hi) _ _ Hb) as [_ Ht].
  split; intros Hk%Hfree; [by apply (Ht _ Hin)|by apply (Ht _ Hin')].
Qed.

Lemma alloc_kept s pages large fl o r b :
  hinv s pages large fl → alloc_pages h o (buddy s) = Ok (r, b) →
  kept (live_addr pages large) s (set_buddy b s).
Proof.
  intros Hi Hal. apply (buddy_kept _ (is_free fl)).
  - eapply alloc_pages_only; [exact Hh|apply Hi|exact Hal].
  - intros a Ha Hf. destruct (live_addr_block _ _ _ _ _ Hi Ha) as (o' & y & Hb & _ & Hin).
    destruct (w_good _ _ _ _ _ _ (hi_world _ _ _ _ _ _ Hi) _ _ Hb) as [_ Ht]. by apply (Ht _ Hin).
Qed.

Lemma alloc_page_nodes s pages large fl o r b q :
  hinv s pages large fl → alloc_pages h o (buddy s) = Ok (r, b) → q ∈ pages →
  node_at (mem b) (pvirt q) = node_at (mem (buddy s)) (pvirt q).
Proof.
  intros Hi Hal Hq. eapply alloc_pages_only; [exact Hh|apply Hi|exact Hal|].
  destruct (page_good Hi q Hq) as [_ Ht]. unfold pvirt. replace (pg_phys q + h - h) with (pg_phys q) by lia.
  apply Ht. unfold in_block. pose proof (block_size_pos 0). lia.
Qed.

(** The words of a new page at [x] are not words of the pages there are. *)
Lemma new_page_words s pages large fl x q k :
  hinv s pages large fl → (∀ b, in_block 0 x b → is_free fl b) → q ∈ pages →
  in_block 0 x (k - h) → pvirt q ≠ x + h ∧ (∀ y, y ∈ pg_free q → y ≠ k) ∧ pvirt q + Header.next_offset ≠ k.
Proof.
  intros Hi Hfree Hq Hk. destruct (page_good Hi q Hq) as [_ Ht].
  assert (∀ o, 0 ≤ o < PAGE_SIZE → ¬ in_block 0 x (pg_phys q + o)) as Hn.
  { intros o Ho Hin. apply (Ht (pg_phys q + o)); [|by apply Hfree]. unfold in_block.
    change (block_size_bytes 0) with PAGE_SIZE. lia. }
  unfold pvirt. split_and!.
  - intros E. apply (Hn 0); [done|]. unfold in_block. change (block_size_bytes 0) with PAGE_SIZE.
    unfold PAGE_SIZE. lia.
  - intros y Hy ->. destruct (slot_page Hi q k Hq) as (E & ? & _); [by left|].
    apply (Hn (k mod PAGE_SIZE)); [apply Z.mod_pos_bound; done|]. unfold pvirt in E.
    replace (pg_phys q + k mod PAGE_SIZE) with (k - h) by (pose proof (Z.div_mod k PAGE_SIZE); unfold PAGE_SIZE in *; lia).
    done.
  - intros <-. apply (Hn Header.next_offset); [done|]. by replace (pg_phys q + Header.next_offset)
      with (pg_phys q + h + Header.next_offset - h) by lia.
Qed.

Lemma slots_in_block x c k :
  (c < NUM_CLASSES)%nat → (PAGE_SIZE | x) → k ∈ slots (x + h) c → in_block 0 x (k - h) ∧ 24 < k mod PAGE_SIZE.
Proof.
  intros Hc Hx Hk. destruct (slot_place (x + h) c k Hc) as (_ & ? & ? & ? & _); [by apply Z.divide_add_r|done|].
  unfold in_block. change (block_size_bytes 0) with PAGE_SIZE. destruct (class_facts c Hc) as (_ & _ & ? & _). lia.
Qed.

Lemma link_new_slots s c x :
  (c < NUM_CLASSES)%nat → (PAGE_SIZE | x) →
  ∃ w, link_slots (slot_count c) (x + h + first_slot c) (object_size c) 0 s =
      Ok (hd 0 (slots (x + h) c), set_words (λ _, w) s) ∧
    linked w (slots (x + h) c) ∧ (∀ k, k ∉ slots (x + h) c → w !! k = words s !! k).
Proof.
  intros Hc Hx. destruct (class_facts c Hc) as (_ & _ & ? & _).
  destruct (link_slots_spec (slot_count c) (x + h + first_slot c) (object_size c) s []) as (w & Hrun & Hl & Hfr);
    [lia| |by intros ?? ?%not_elem_of_nil|done|].
  - intros j Hj. destruct (slots_in_block x c (x + h + first_slot c + Z.of_nat j * object_size c) Hc Hx); [|lia].
    apply slots_elem. by exists j.
  - rewrite app_nil_r in Hrun, Hl. by exists w.
Qed.

(** The words after a new page at [x] was set up. *)
Definition new_page_set (w w0 : gmap Z Z) (c : nat) (x head : Z) : Prop :=
  ∃ w1, w = <[x + h + Header.next_offset := head]> w1 ∧ linked w (slots (x + h) c) ∧
    (∀ k, k ∉ slots (x + h) c → w1 !! k = w0 !! k).

Lemma new_page_frame s pages large fl c x w head q :
  hinv s pages large fl → (c < NUM_CLASSES)%nat → (PAGE_SIZE | x) →
  (∀ b, in_block 0 x b → is_free fl b) → new_page_set w (words s) c x head → q ∈ pages →
  pvirt q ≠ x + h ∧ (∀ y, y ∈ pg_free q → word_at w y = word_at (words s) y) ∧
  w !! (pvirt q + Header.next_offset) = words s !! (pvirt q + Header.next_offset).
Proof.
  intros Hi Hc Hxa Hfree (w1 & -> & _ & Hw1) Hq.
  assert (in_block 0 x (x + h + Header.next_offset - h)) as Hnx.
  { unfold in_block, Header.next_offset. change (block_size_bytes 0) with 4096. lia. }
  destruct (new_page_words s pages large fl x q _ Hi Hfree Hq Hnx) as (Hv & Hy & Hn).
  assert (∀ k, k ∈ slots (x + h) c → (∀ y, y ∈ pg_free q → y ≠ k) ∧ pvirt q + Header.next_offset ≠ k) as Hsl.
  { intros k [Hk _]%slots_in_block; [|done..]. by eapply new_page_words. }
  split_and!; [done| |].
  - intros y Hyf. unfold word_at. rewrite lookup_insert_ne by (intros E; by apply (Hy y)).
    rewrite Hw1; [done|]. intros [Hbad _]%Hsl. by apply (Hbad y).
  - rewrite lookup_insert_ne by done. apply Hw1. by intros [_ ?]%Hsl.
Qed.

Lemma new_page_inv s pages large fl fl' c x w b1 head :
  hinv s pages large fl → (c < NUM_CLASSES)%nat → partial_slabs s !! c = Some head →
  alloc_pages h 0 (buddy s) = Ok (Some x, b1) → (PAGE_SIZE | x) → (∀ b, in_block 0 x b → is_free fl b) →
  world_inv h exact P b1 ((O, x) :: page_blocks pages ++ large) fl' →
  new_page_set w (words s) c x head →
  hinv (mkHeap h (<[c := x + h]> (partial_slabs s)) (full_slabs s)
          (set_mem (<[x + h := new_header c (hd 0 (slots (x + h) c)) (node_at (mem b1) (x + h))]>) b1) w)
    (mkPage x c (slots (x + h) c) [] :: pages) large fl'.
Proof.
  intros Hi Hc Hhd Hal Hxa Hfree Hw Hset. set (p := mkPage x c (slots (x + h) c) []).
  pose proof (λ q, new_page_frame s pages large fl c x w head q Hi Hc Hxa Hfree Hset) as Hfr.
  destruct (hi_len _ _ _ _ _ _ Hi) as [Hlp Hlf].
  destruct (hi_partial _ _ _ _ _ _ Hi c Hc) as [lp Hlip]. destruct (hi_full _ _ _ _ _ _ Hi c Hc) as [lf Hlif].
  destruct (class_facts c Hc) as (_ & _ & _ & _ & _ & _ & _ & Hs & _).
  assert (pg_free p ≠ []) as Hne.
  { intros E%(f_equal length). simpl in E. unfold slots in E. rewrite length_fmap, length_seq in E. simpl in E. lia. }
  assert (∀ y (R : SlabPage → Prop) (HR : ∀ q, Decision (R q)), y ∈ pvirt <$> filter R pages →
    y ≠ x + h ∧ w !! (y + Header.next_offset) = words s !! (y + Header.next_offset)) as Hlw.
  { intros y R HR (q & -> & [_ Hq]%list_elem_of_filter)%list_elem_of_fmap. by destruct (Hfr q Hq) as (? & _ & ?). }
  apply (heap_inv_replace exact P s _ c [] [p] pages large large fl fl' Hi); try done; try by repeat constructor.
  - eapply (world_write h exact P b1 _ fl' O x); [done|left| |].
    + unfold in_block. change (block_size_bytes 0) with 4096. lia.
    + by rewrite new_header_eq.
  - constructor; [|done]. apply (new_page_ok (mem b1)); [done|]. by destruct Hset as (? & _ & ? & _).
  - intros q Hq. destruct (Hfr q Hq) as (Hv & Hy & _). split; [|exact Hy]. simpl.
    rewrite node_at_insert, decide_False by congruence. by eapply alloc_page_nodes.
  - intros q Hq _. by apply Hfr.
  - simpl. by rewrite length_insert.
  - intros c' ?. simpl. by rewrite list_lookup_insert_ne.
  - exists (pvirt p :: lp). destruct Hset as (w1 & -> & _ & Hw1).
    assert (hd 0 lp = head) as <- by (destruct Hlip as (E & _); rewrite Hhd in E; by injection E as ->).
    apply (listed_push (partial_slabs s) w1 c (is_partial c) p pages lp); [|done| |by rewrite Hlp].
    + eapply listed_frame; [exact Hlip|done| |done]. intros y Hy. apply Hw1. intros Hbad.
      rewrite (proj2 (proj2 Hlip)) in Hy. apply list_elem_of_fmap in Hy as (q & -> & [_ Hq]%list_elem_of_filter).
      apply slots_in_block in Hbad as [Hbad _]; [|done..]. by apply (new_page_words s pages large fl x q _ Hi Hfree Hq) in Hbad as (_ & _ & ?).
    + rewrite (proj2 (proj2 Hlip)). by intros [? _]%Hlw.
  - exists lf. eapply listed_frame; [exact Hlif|done| |].
    + intros y. rewrite (proj2 (proj2 Hlif)). by intros [_ ?]%Hlw.
    + cbn [app]. rewrite filter_cons_False; [done|]. by intros [_ ?].
Qed.

Lemma new_page_kept s pages large fl c x w b1 n head heads :
  hinv s pages large fl → (c < NUM_CLASSES)%nat → (PAGE_SIZE | x) →
  (∀ b, in_block 0 x b → is_free fl b) → new_page_set w (words s) c x head →
  alloc_pages h 0 (buddy s) = Ok (Some x, b1) →
  kept (live_addr pages large) s (mkHeap h heads (full_slabs s) (set_mem (<[x + h := n]>) b1) w).
Proof.
  intros Hi Hc Hxa Hfree (w1 & -> & _ & Hw1) Hal a Ha. rewrite <-(alloc_kept s pages large fl 0 _ _ Hi Hal a Ha).
  destruct (live_outside s pages large fl 0 x a Hi Hfree Ha) as [Hout Hout'].
  unfold peek, load64. simpl. rewrite node_at_insert, decide_False.
  - unfold word_at. rewrite lookup_insert_ne, Hw1; [done|..].
    + intros Hbad. apply Hout. by apply (slots_in_block x c a).
    + intros <-. apply Hout. unfold in_block, Header.next_offset. change (block_size_bytes 0) with 4096. lia.
  - intros E. apply Hout'. rewrite <-E. unfold in_block. change (block_size_bytes 0) with 4096. lia.
Qed.

Lemma add_slab_page_spec s pages large fl c :
  hinv s pages large fl → (c < NUM_CLASSES)%nat →
  (all_empty_from fl 0 ∧ add_slab_page c s = Ok (false, s)) ∨
  (∃ x s' fl', add_slab_page c s = Ok (true, s') ∧
    hinv s' (mkPage x c (slots (x + h) c) [] :: pages) large fl' ∧
    partial_slabs s' !! c = Some (x + h) ∧ kept (live_addr pages large) s s').
Proof.
  intros Hi Hc. pose proof (hi_world _ _ _ _ _ _ Hi) as Hw. pose proof (hi_offset _ _ _ _ _ _ Hi) as Hoff.
  destruct (alloc_pages_cases h Hh (buddy s) fl 0 (w_inv _ _ _ _ _ _ Hw))
    as [[He Hal]|(_ & x & b1 & fl' & Hal & Hb1 & Hr & Hg & Hga & Ht)].
  { left. split; [done|]. unfold add_slab_page, buddy_alloc_pages, on_buddy, mbind'. rewrite Hoff, Hal.
    by destruct s. }
  right. assert (∀ b, in_block 0 x b → is_free fl b) as Hfree by (intros; apply Hga; by right).
  pose proof Hg as (_ & Hx0 & Hxa & Hxb & _). change (block_size_bytes 0) with PAGE_SIZE in Hxa, Hxb.
  destruct (link_new_slots (set_buddy b1 s) c x Hc Hxa) as (w & Hlk & Hlinked & Hwfr).
  destruct (hi_partial _ _ _ _ _ _ Hi c Hc) as [lp [Hlip _]].
  assert (new_page_set (<[x + h + Header.next_offset := hd 0 lp]> w) (words s) c x (hd 0 lp)) as Hset.
  { exists w. split_and!; [done| |done]. eapply linked_frame; [|exact Hlinked]. intros k Hk.
    unfold word_at. rewrite lookup_insert_ne; [done|]. intros <-.
    destruct (slots_in_block x c _ Hc Hxa Hk) as [_ Hbad]. rewrite page_offset in Hbad; [done| |done].
    by apply Z.divide_add_r. }
  exists x. eexists. exists fl'. split; [apply (add_slab_page_run s c x b1 w (hd 0 lp)); try done; lia|].
  unfold set_partial_slabs, put_header, set_buddy, set_words. simpl. rewrite Hoff. split_and!.
  - eapply new_page_inv; try done. by eapply world_alloc.
  - destruct (hi_len _ _ _ _ _ _ Hi). by rewrite list_lookup_insert_eq by lia.
  - by eapply new_page_kept.
Qed.

Lemma live_addr_perm pages pages' large a :
  pages ≡ₚ pages' → live_addr pages large a → live_addr pages' large a.
Proof. intros Hp [(p & x & Hin & ?)|?]; [left; exists p, x; by rewrite <-Hp|by right]. Qed.

Lemma outstanding_perm pages pages' : pages ≡ₚ pages' → outstanding pages ≡ₚ outstanding pages'.
Proof. unfold outstanding. by intros ->. Qed.

Lemma partial_page s pages large fl c :
  hinv s pages large fl → (c < NUM_CLASSES)%nat →
  (partial_slabs s !! c = Some 0 ∧ ∀ p, p ∈ pages → ¬ is_partial c p) ∨
  (∃ p rest x fr, pages ≡ₚ p :: rest ∧ pg_class p = c ∧ pg_free p = x :: fr ∧
    partial_slabs s !! c = Some (pvirt p) ∧ pvirt p ≠ 0).
Proof.
  intros Hi Hc. destruct (hi_partial _ _ _ _ _ _ Hi c Hc) as [[|v l] (Hhd & _ & Hl)].
  - left. split; [done|]. intros p Hp Hq. symmetry in Hl. apply Permutation_nil_r in Hl.
    assert (pvirt p ∈ pvirt <$> filter (is_partial c) pages) as Hbad; [|by rewrite Hl in Hbad; apply not_elem_of_nil in Hbad].
    apply list_elem_of_fmap. exists p. split; [done|]. by apply list_elem_of_filter.
  - right. assert (v ∈ pvirt <$> filter (is_partial c) pages) as Hv by (rewrite <-Hl; by left).
    apply list_elem_of_fmap in Hv as (p & -> & [[Hcl Hf] Hp]%list_elem_of_filter).
    destruct (page_addr_ok Hi p Hp) as [? _]. apply elem_of_Permutation in Hp as [rest Hr].
    destruct (pg_free p) as [|x fr] eqn:E; [done|]. by exists p, rest, x, fr.
Qed.

(** Taking an object when there is a partial page of the class. *)
Lemma allocate_partial fuel s p rest pages large fl x fr :
  hinv s pages large fl → pages ≡ₚ p :: rest → pg_free p = x :: fr →
  partial_slabs s !! pg_class p = Some (pvirt p) → pvirt p ≠ 0 →
  ∃ s' pages', allocate_small_loop (S fuel) (pg_class p) s = Ok (x, s') ∧ hinv s' pages' large fl ∧
    outstanding pages' ≡ₚ (pg_class p, x) :: outstanding pages ∧ x ≠ 0 ∧
    kept (live_addr pages large) s s'.
Proof.
  intros Hi Hr Hf Hhd H0. pose proof (heap_inv_perm _ _ _ _ _ _ _ Hr Hi) as Hi'.
  destruct (take_object_spec s p rest large fl x fr Hi' Hf Hhd) as (s' & Hrun & Hinv & Hk).
  exists s'. eexists. split; [|split; [exact Hinv|]].
  - cbn [allocate_small_loop]. unfold slab_head. mstep. rewrite Hhd. simpl.
    destruct (Z.eqb_spec (pvirt p) 0); [done|]. exact Hrun.
  - split_and!; [by rewrite (outstanding_perm _ _ Hr)| |].
    + apply (slot_page Hi' p x); [left|left; rewrite Hf; by left].
    + intros a Ha. apply Hk. by eapply live_addr_perm.
Qed.

Lemma allocate_small_spec s pages large fl c :
  hinv s pages large fl → (c < NUM_CLASSES)%nat →
  (allocate_small c s = Ok (0, s) ∧ all_empty_from fl 0 ∧ ∀ p, p ∈ pages → ¬ is_partial c p) ∨
  (∃ x s' pages' fl', allocate_small c s = Ok (x, s') ∧ hinv s' pages' large fl' ∧
    outstanding pages' ≡ₚ (c, x) :: outstanding pages ∧ x ≠ 0 ∧ kept (live_addr pages large) s s').
Proof.
  intros Hi Hc. unfold allocate_small.
  destruct (partial_page s pages large fl c Hi Hc) as [[Hhd Hnone]|(p & rest & x & fr & Hr & <- & Hf & Hhd & H0)].
  - assert (allocate_small_loop 2 c s = (let! added := add_slab_page c in
      if added then allocate_small_loop 1 c else mret 0) s) as ->.
    { cbn [allocate_small_loop]. unfold slab_head. unfold mbind' at 1. by rewrite Hhd. }
    destruct (add_slab_page_spec s pages large fl c Hi Hc)
      as [[He Hrun]|(x & s1 & fl1 & Hrun & Hi1 & Hhd1 & Hk1)]; rewrite (mbind_ok _ _ _ _ _ Hrun); [by left|right].
    destruct (class_facts c Hc) as (_ & _ & _ & _ & _ & _ & _ & Hs & _).
    set (p := mkPage x c (slots (x + h) c) []) in *.
    destruct (pg_free p) as [|y fr] eqn:E.
    { apply (f_equal length) in E. simpl in E. unfold slots in E. rewrite length_fmap, length_seq in E. simpl in E. lia. }
    destruct (allocate_partial 0 s1 p pages (p :: pages) large fl1 y fr) as (s2 & pages2 & Hrun2 & Hi2 & Ho & Hy & Hk2);
      [done..|by apply (page_addr_ok Hi1 p); left|].
    exists y, s2, pages2, fl1. split_and!; [exact Hrun2|done|exact Ho|done|].
    eapply kept_trans; [|exact Hk1|]; [done|]. intros a Ha. apply Hk2.
    destruct Ha as [(q & z & Hq & ?)|?]; [left; exists q, z; split; [by right|done]|by right].
  - right. destruct (allocate_partial 1 s p rest pages large fl x fr) as (s' & pages' & ?); [done..|].
    by exists x, s', pages', fl.
Qed.

(** ** Giving an object back *)

Lemma heap_inv_used s p rest large fl used :
  hinv s (p :: rest) large fl → used ≡ₚ pg_used p →
  hinv s (mkPage (pg_phys p) (pg_class p) (pg_free p) used :: rest) large fl.
Proof.
  intros Hi Hu. assert (p ∈ p :: rest) as Hp by left. pose proof (hi_page _ _ _ _ _ _ Hi p Hp) as Hok.
  pose proof (po_class _ _ _ Hok) as Hc. set (p' := mkPage _ _ _ used).
  apply (heap_inv_replace exact P s s (pg_class p) [p] [p'] rest large large fl fl Hi); try done;
    try by repeat constructor; try apply Hi.
  - apply (hi_world _ _ _ _ _ _ Hi).
  - constructor; [|done]. destruct Hok as [? Hs ? Ho ? ? ?]. split; try done; simpl.
    + by rewrite Hu.
    + by rewrite Hu.
  - destruct (hi_partial _ _ _ _ _ _ Hi _ Hc) as [l Hl]. exists l. eapply listed_frame; [done..|].
    cbn [app]. by rewrite (filter_same_addr _ p p').
  - destruct (hi_full _ _ _ _ _ _ Hi _ Hc) as [l Hl]. exists l. eapply listed_frame; [done..|].
    cbn [app]. by rewrite (filter_same_addr _ p p').
Qed.

Lemma live_rest s p rest large fl a :
  hinv s (p :: rest) large fl → live_addr rest large a → a / PAGE_SIZE * PAGE_SIZE ≠ pvirt p.
Proof.
  intros Hi Ha E. assert (p ∈ p :: rest) as Hp by left.
  pose proof (w_apart _ _ _ _ _ _ (hi_world _ _ _ _ _ _ Hi)) as Hap. simpl in Hap. destruct Hap as [Hap _].
  assert (∃ o b, (o, b) ∈ page_blocks rest ++ large ∧ in_block o b (a - h)) as (o & b & Hb & Hin).
  { destruct Ha as [(q & x & Hq & Hx & Ha)|(o & b & Hb & Hin)].
    - exists O, (pg_phys q). split; [apply elem_of_app; left; apply list_elem_of_fmap; by exists q|].
      assert (q ∈ p :: rest) as Hq' by (by right).
      destruct (slot_place (pvirt q) (pg_class q) x) as (_ & ? & ? & ? & _);
        [by apply (hi_page _ _ _ _ _ _ Hi)|by apply (page_addr_ok Hi)|by apply (free_slot Hi); auto|].
      unfold in_block, pvirt in *. change (block_size_bytes 0) with PAGE_SIZE. lia.
    - exists o, b. split; [|done]. apply elem_of_app. by right. }
  rewrite Forall_forall in Hap. apply (apart_in_block O (pg_phys p) o b (a - h)); [by apply (Hap (o, b))| |done].
  unfold in_block. change (block_size_bytes 0) with 4096. unfold pvirt, PAGE_SIZE in *.
  pose proof (Z.div_mod a 4096). pose proof (Z.mod_pos_bound a 4096). lia.
Qed.

(** Slots of a page do not overlap. *)
Lemma slot_overlap virt c x y :
  (c < NUM_CLASSES)%nat → x ∈ slots virt c → y ∈ slots virt c → y ≤ x < y + object_size c → x = y.
Proof.
  intros Hc (i & _ & ->)%slots_elem (j & _ & ->)%slots_elem ?.
  destruct (class_facts c Hc) as (_ & _ & ? & _). assert (i = j) as -> by nia. done.
Qed.

(** An object that is given back is not live any more. *)
Lemma freed_not_live s p rest large fl x used free :
  hinv s (p :: rest) large fl → pg_used p = x :: used →
  ¬ live_addr (mkPage (pg_phys p) (pg_class p) free used :: rest) large x.
Proof.
  intros Hi Hu Ha. assert (p ∈ p :: rest) as Hp by left. pose proof (hi_page _ _ _ _ _ _ Hi p Hp) as Hok.
  destruct (slot_page Hi p x Hp) as (E & _); [right; rewrite Hu; by left|].
  pose proof (slots_nodup (pvirt p) _ (po_class _ _ _ Hok)) as Hnd.
  rewrite <-(po_slots _ _ _ Hok), Hu in Hnd. apply NoDup_app in Hnd as (_ & _ & [Hx _]%NoDup_cons).
  assert (¬ live_addr rest large x) as Hr by (intros Hr; by apply (live_rest _ _ _ _ _ _ Hi Hr)).
  destruct Ha as [(q & y & [->|Hq]%elem_of_cons & Hy & ?)|?]; [|by apply Hr; left; eauto|by apply Hr; right].
  simpl in *. apply Hx. replace x with y; [done|]. symmetry. apply (slot_overlap (pvirt p) (pg_class p));
    [by apply Hok|apply (free_slot Hi); [done|]; right; rewrite Hu..|done]; [by left|by right].
Qed.

(** The header and object list part of [free_small]. *)
Definition freed (p : SlabPage) (x : Z) (used : nat) (s : Heap) : Heap :=
  put_header (pvirt p) (set_counts (x :: pg_free p) used (node_at (mem (buddy s)) (pvirt p)))
    (set_words (<[x := hd 0 (pg_free p)]>) s).

Lemma free_small_run s p rest large fl x used :
  hinv s (p :: rest) large fl → pg_used p = x :: used →
  free_small x s =
    (let c := pg_class p in
     let was_full := hd 0 (pg_free p) =? 0 in
     (if Z.of_nat (length used) =? 0 then
        let! _ := (if was_full then unlink_slab_page full_slabs set_full_slabs c (pvirt p)
                   else unlink_slab_page partial_slabs set_partial_slabs c (pvirt p)) in
        let! phys := virt_to_phys (pvirt p) in
        buddy_free_pages phys 0
      else if was_full then
        let! _ := unlink_slab_page full_slabs set_full_slabs c (pvirt p) in
        let! head := slab_head partial_slabs c in
        let! _ := store64 (pvirt p + Header.next_offset) head in
        set_slab_head set_partial_slabs c (pvirt p)
      else mret tt) (freed p x (length used) s)).
Proof.
  intros Hi Hu. assert (p ∈ p :: rest) as Hp by left. pose proof (hi_page _ _ _ _ _ _ Hi p Hp) as Hok.
  destruct (slot_page Hi p x Hp) as (E & ? & _); [right; rewrite Hu; by left|].
  destruct (header_counts _ _ _ Hok) as [Hiu Hci]. unfold free_small.
  rewrite (mbind_ok _ _ _ _ _ (mlift_ok _ _ _ (align_down_page x))), E.
  rewrite (mbind_ok _ _ _ _ _ (header_run _ _)), (po_magic _ _ _ Hok), Z.eqb_refl. cbn [negb]. cbv zeta.
  rewrite (po_free _ _ _ Hok), Hci, Nat2Z.id.
  rewrite (mbind_ok _ _ _ _ _ (store64_word s x _ ltac:(lia))).
  rewrite (mbind_ok _ _ _ _ _ (upd_header_run _ _ _)).
  rewrite (mbind_ok _ _ _ _ _ (header_run _ _)), node_at_put.
  assert (∀ n a, Header.in_use (Header.set_free_list a n) = Header.in_use n) as Efl by done.
  rewrite Efl. change (node_at (mem (buddy (set_words _ s))) (pvirt p)) with (node_at (mem (buddy s)) (pvirt p)).
  rewrite Hiu, Hu. cbn [length].
  rewrite (mbind_ok _ _ _ _ _ (mlift_ok _ _ _ (usub_ok (Z.of_nat (S (length used))) 1 ltac:(lia)))).
  replace (Z.of_nat (S (length used)) - 1) with (Z.of_nat (length used)) by lia.
  rewrite (mbind_ok _ _ _ _ _ (upd_header_run _ _ _)), node_at_put, put_header_twice. done.
Qed.

Lemma freed_world s p rest large fl x n :
  hinv s (p :: rest) large fl →
  world_inv h exact P (buddy (freed p x n s)) (page_blocks (p :: rest) ++ large) fl.
Proof.
  intros Hi. assert (p ∈ p :: rest) as Hp by left.
  apply (put_header_world s (p :: rest) large fl p _ Hi Hp). simpl.
  by rewrite (po_magic _ _ _ (hi_page _ _ _ _ _ _ Hi p Hp)).
Qed.

Lemma freed_page_ok s p rest large fl x used :
  hinv s (p :: rest) large fl → pg_used p = x :: used →
  page_ok (mem (buddy (freed p x (length used) s))) (words (freed p x (length used) s))
    (mkPage (pg_phys p) (pg_class p) (x :: pg_free p) used).
Proof.
  intros Hi Hu. assert (p ∈ p :: rest) as Hp by left. pose proof (hi_page _ _ _ _ _ _ Hi p Hp) as Hok.
  apply (page_ok_counts _ (words s)); [done| |].
  - rewrite Hu. apply Permutation_middle.
  - simpl. split; [unfold word_at; by rewrite lookup_insert_eq|].
    eapply linked_frame; [|apply Hok]. intros y Hy. unfold word_at. rewrite lookup_insert_ne; [done|]. intros <-.
    pose proof (slots_nodup (pvirt p) _ (po_class _ _ _ Hok)) as Hnd.
    rewrite <-(po_slots _ _ _ Hok), Hu in Hnd. apply NoDup_app in Hnd as (_ & Hd & _).
    apply (Hd x Hy). by left.
Qed.

Lemma freed_rest s p rest large fl x used q :
  hinv s (p :: rest) large fl → pg_used p = x :: used → q ∈ rest →
  node_at (mem (buddy (freed p x (length used) s))) (pvirt q) = node_at (mem (buddy s)) (pvirt q) ∧
  (∀ y, y ∈ pg_free q → word_at (words (freed p x (length used) s)) y = word_at (words s) y).
Proof.
  intros Hi Hu Hq. assert (p ∈ p :: rest) as Hp by left. pose proof (rest_apart _ _ _ _ _ _ Hi Hq) as Hne. split.
  - simpl. by rewrite node_at_insert, decide_False by congruence.
  - intros y Hy. unfold word_at. simpl. rewrite lookup_insert_ne; [done|].
    apply (slot_ne_slot Hi p q); [done|by right|done|right; rewrite Hu; by left|by left].
Qed.

Lemma freed_next s p rest large fl x used q :
  hinv s (p :: rest) large fl → pg_used p = x :: used → q ∈ p :: rest →
  words (freed p x (length used) s) !! (pvirt q + Header.next_offset) = words s !! (pvirt q + Header.next_offset).
Proof.
  intros Hi Hu Hq. simpl. apply lookup_insert_ne.
  apply (slot_ne_next Hi p q); [left|done|]. right. rewrite Hu. by left.
Qed.

Lemma freed_kept s p rest large fl x used free :
  hinv s (p :: rest) large fl → pg_used p = x :: used →
  kept (live_addr (mkPage (pg_phys p) (pg_class p) free used :: rest) large) s (freed p x (length used) s).
Proof.
  intros Hi Hu a Ha.
  rewrite <-(kept_word _ s x (hd 0 (pg_free p)) (freed_not_live s p rest large fl x used free Hi Hu) a Ha).
  assert (live_addr (p :: rest) large a) as Ha'.
  { destruct Ha as [(q & y & [->|Hq]%elem_of_cons & Hy & ?)|?]; [..|by right]; left.
    - exists p, y. split_and!; [left|rewrite Hu; by right|simpl in *; lia..].
    - exists q, y. split; [by right|done]. }
  assert (p ∈ p :: rest) as Hp by left. unfold freed. unfold peek, load64. simpl. rewrite node_at_insert.
  case_decide as E; [|done]. symmetry in E.
  pose proof (live_addr_header _ _ _ _ _ _ _ _ Hi Hp Ha' E). unfold Header.size in *.
  by repeat (zcase; [lia|]).
Qed.

(** The heads and the words after unlinking. *)
Definition unlink_heads (prev : Z) (c : nat) (nx : Z) (heads : list Z) : list Z :=
  if prev =? 0 then <[c := nx]> heads else heads.
Definition unlink_words (prev nx : Z) (w : gmap Z Z) : gmap Z Z :=
  if prev =? 0 then w else <[prev + Header.next_offset := nx]> w.

Lemma unlinked_full c prev nx s :
  unlinked set_full_slabs c prev nx s =
    set_words (unlink_words prev nx) (set_full_slabs (unlink_heads prev c nx) s).
Proof. unfold unlinked, unlink_words, unlink_heads. destruct s. by zcase. Qed.

Lemma unlinked_partial c prev nx s :
  unlinked set_partial_slabs c prev nx s =
    set_words (unlink_words prev nx) (set_partial_slabs (unlink_heads prev c nx) s).
Proof. unfold unlinked, unlink_words, unlink_heads. destruct s. by zcase. Qed.

Lemma listed_unlink heads w c (Q : SlabPage → Prop) `{!∀ p, Decision (Q p)} p rest l :
  listed heads w c Q (p :: rest) l → Q p → NoDup l → Forall page_addr l → (c < length heads)%nat →
  ∃ l1 l2, l = l1 ++ pvirt p :: l2 ∧
    (List.last l1 0 = 0 ∨ ∃ q, q ∈ rest ∧ Q q ∧ List.last l1 0 = pvirt q) ∧
    listed (unlink_heads (List.last l1 0) c (hd 0 l2) heads) (unlink_words (List.last l1 0) (hd 0 l2) w)
      c Q rest (l1 ++ l2).
Proof.
  intros (Hhd & Hc & Hl) HQ Hnd Hal Hlen. rewrite filter_cons_True in Hl by done. cbn [fmap list_fmap] in Hl.
  assert (pvirt p ∈ l) as (l1 & l2 & ->)%list_elem_of_split by (rewrite Hl; by left).
  exists l1, l2. split; [done|]. rewrite <-Permutation_middle in Hl. apply Permutation_cons_inv in Hl.
  destruct (unlinked_chain w l1 (pvirt p) l2 Hnd Hal Hc) as [Hnil Hcons].
  destruct (decide (l1 = [])) as [->|Hne].
  - split; [by left|]. unfold unlink_heads, unlink_words. simpl.
    split_and!; [by rewrite list_lookup_insert_eq|by apply Hnil|done].
  - destruct (Hcons Hne) as (Hch & Hhd' & H0). split.
    + right. pose proof (last_elem l1 0 Hne) as Hin.
      assert (List.last l1 0 ∈ pvirt <$> filter Q rest) as Hin' by (rewrite <-Hl; apply elem_of_app; by left).
      apply list_elem_of_fmap in Hin' as (q & E & [??]%list_elem_of_filter). by exists q.
    + unfold unlink_heads, unlink_words. destruct (Z.eqb_spec (List.last l1 0) 0); [done|].
      split_and!; [by rewrite <-Hhd'|done|done].
Qed.

(** The page had free objects before and stays where it is. *)
Lemma freed_partial_inv s p rest large fl x used :
  hinv s (p :: rest) large fl → pg_used p = x :: used → pg_free p ≠ [] →
  hinv (freed p x (length used) s) (mkPage (pg_phys p) (pg_class p) (x :: pg_free p) used :: rest) large fl.
Proof.
  intros Hi Hu Hf. assert (p ∈ p :: rest) as Hp by left. set (c := pg_class p).
  pose proof (po_class _ _ _ (hi_page _ _ _ _ _ _ Hi p Hp)) as Hc. fold c in Hc.
  set (p' := mkPage _ _ _ used).
  assert (∀ (Q : SlabPage → Prop) (HQ : ∀ p, Decision (Q p)) heads l, (Q p ↔ Q p') →
    listed heads (words s) c Q (p :: rest) l → listed heads (words (freed p x (length used) s)) c Q (p' :: rest) l) as Hls.
  { intros Q HQ heads l HQp Hl. eapply listed_frame; [done|done| |by rewrite (filter_same_addr _ p p')].
    intros y. rewrite (proj2 (proj2 Hl)). intros (q & -> & [_ Hq]%list_elem_of_filter)%list_elem_of_fmap.
    by eapply freed_next. }
  apply (heap_inv_replace exact P s _ c [p] [p'] rest large large fl fl Hi); try done; try by repeat constructor.
  - by apply (hi_offset _ _ _ _ _ _ Hi).
  - by apply (freed_world s p rest).
  - constructor; [|done]. by eapply freed_page_ok.
  - intros q Hq. by eapply freed_rest.
  - intros q Hq _. by eapply freed_next; [done..|right].
  - apply (hi_len _ _ _ _ _ _ Hi).
  - destruct (hi_partial _ _ _ _ _ _ Hi c Hc) as [l Hl]. exists l. by apply Hls.
  - destruct (hi_full _ _ _ _ _ _ Hi c Hc) as [l Hl]. exists l. apply Hls; [|done].
    split; by intros [_ ?].
Qed.

(** Unlinking only touches the header of a page of the class. *)
Lemma unlink_words_frame s p rest large fl c prev nx w :
  hinv s (p :: rest) large fl →
  prev = 0 ∨ (∃ q, q ∈ rest ∧ pg_class q = c ∧ prev = pvirt q) →
  (∀ q y, q ∈ p :: rest → y ∈ pg_free q ∨ y ∈ pg_used q → word_at (unlink_words prev nx w) y = word_at w y) ∧
  (∀ q, q ∈ p :: rest → pvirt q ≠ prev →
     unlink_words prev nx w !! (pvirt q + Header.next_offset) = w !! (pvirt q + Header.next_offset)).
Proof.
  intros Hi Hprev. unfold unlink_words. destruct (Z.eqb_spec prev 0) as [|H0]; [done|].
  destruct Hprev as [?|(q0 & Hq0 & _ & ->)]; [done|]. split.
  - intros q y Hq Hy. unfold word_at. rewrite lookup_insert_ne; [done|]. intros E.
    by apply (slot_ne_next Hi q q0 y); [|right| |].
  - intros q Hq Hne. apply lookup_insert_ne. intros ?. apply Hne. lia.
Qed.

Lemma unlink_kept s p rest large fl c prev nx (live : Z → Prop) heads heads' b w :
  hinv s (p :: rest) large fl → (∀ a, live a → live_addr (p :: rest) large a) →
  prev = 0 ∨ (∃ q, q ∈ rest ∧ pg_class q = c ∧ prev = pvirt q) →
  kept live (mkHeap h heads heads' b w) (mkHeap h heads heads' b (unlink_words prev nx w)).
Proof.
  intros Hi Hlive Hprev. unfold unlink_words. destruct (Z.eqb_spec prev 0) as [|H0]; [done|].
  destruct Hprev as [?|(q0 & Hq0 & _ & ->)]; [done|].
  apply (kept_word live (mkHeap h heads heads' b w)). intros Ha%Hlive.
  by apply (next_not_live _ _ _ _ _ _ q0 Hi); [right|].
Qed.

Lemma heap_eta s : hhdm_offset s = h →
  s = mkHeap h (partial_slabs s) (full_slabs s) (buddy s) (words s).
Proof. destruct s. by intros <-. Qed.

(** A page without objects in use leaves its list and becomes a block of its own. *)
Lemma unlink_empty_inv s p rest large fl heads_p heads_f w b :
  hinv s (p :: rest) large fl →
  world_inv h exact P b (page_blocks (p :: rest) ++ large) fl →
  (∀ q, q ∈ rest → node_at (mem b) (pvirt q) = node_at (mem (buddy s)) (pvirt q) ∧
     ∀ y, y ∈ pg_free q → word_at w y = word_at (words s) y) →
  (∀ q, q ∈ rest → pg_class q ≠ pg_class p →
     w !! (pvirt q + Header.next_offset) = words s !! (pvirt q + Header.next_offset)) →
  length heads_p = NUM_CLASSES ∧ length heads_f = NUM_CLASSES →
  (∀ c', c' ≠ pg_class p → heads_p !! c' = partial_slabs s !! c' ∧ heads_f !! c' = full_slabs s !! c') →
  (∃ l, listed heads_p w (pg_class p) (is_partial (pg_class p)) rest l) →
  (∃ l, listed heads_f w (pg_class p) (is_full (pg_class p)) rest l) →
  hinv (mkHeap h heads_p heads_f b w) rest ((O, pg_phys p) :: large) fl.
Proof.
  intros Hi Hw Hnode Hnext Hlen Hheads Hp Hf.
  apply (heap_inv_replace exact P s _ (pg_class p) [p] [] rest large ((O, pg_phys p) :: large) fl fl Hi);
    try done; try by repeat constructor.
  eapply world_perm; [|exact Hw]. cbn [page_blocks fmap list_fmap app]. by rewrite <-Permutation_middle.
Qed.

Lemma freed_listed s p rest large fl x used heads c (Q : SlabPage → Prop) `{!∀ p, Decision (Q p)} l :
  hinv s (p :: rest) large fl → pg_used p = x :: used →
  listed heads (words s) c Q (p :: rest) l → listed heads (words (freed p x (length used) s)) c Q (p :: rest) l.
Proof.
  intros Hi Hu Hl. eapply listed_frame; [done|done| |done].
  intros y. rewrite (proj2 (proj2 Hl)). intros (q & -> & [_ Hq]%list_elem_of_filter)%list_elem_of_fmap.
  by eapply freed_next.
Qed.

(** The list [p] is not on stays as it is when [p] leaves the other one. *)
Lemma other_listed s p rest large fl x used heads c (Q R : SlabPage → Prop)
    `{!∀ p, Decision (R p)} prev nx l :
  hinv s (p :: rest) large fl → pg_used p = x :: used → listed heads (words s) c R (p :: rest) l →
  ¬ R p → (∀ q, Q q → ¬ R q) → prev = 0 ∨ (∃ q, q ∈ rest ∧ Q q ∧ prev = pvirt q) →
  (pvirt p ∉ l) ∧ listed heads (unlink_words prev nx (words (freed p x (length used) s))) c R rest l.
Proof.
  intros Hi Hu Hl HRp HQR Hprev. destruct (listed_notin (pages_nodup Hi) HRp Hl) as [Hn Hl']. split; [done|].
  eapply listed_frame; [exact Hl'|done| |done].
  intros y. rewrite (proj2 (proj2 Hl')). intros (q & -> & [HR Hq]%list_elem_of_filter)%list_elem_of_fmap.
  assert (q ∈ p :: rest) as Hq' by (by right). rewrite <-(freed_next s p rest large fl x used q Hi Hu Hq').
  unfold unlink_words. destruct (Z.eqb_spec prev 0) as [|H0]; [done|].
  destruct Hprev as [?|(q0 & Hq0 & HQ & ->)]; [done|]. apply lookup_insert_ne. intros E.
  assert (q0 = q) as ->; [|by apply (HQR q)].
  apply (nodup_fmap_inj pvirt (p :: rest)); [by apply (pages_nodup Hi)|by right|done|lia].
Qed.

Lemma unlink_heads_facts prev c nx heads :
  length heads = NUM_CLASSES →
  length (unlink_heads prev c nx heads) = NUM_CLASSES ∧
  (∀ c', c' ≠ c → unlink_heads prev c nx heads !! c' = heads !! c').
Proof.
  intros Hl. unfold unlink_heads. zcase; [|done]. rewrite length_insert. split; [done|].
  intros c' ?. by rewrite list_lookup_insert_ne.
Qed.

(** The pages that stay, after [p] was unlinked. *)
Lemma unlinked_rest s p rest large fl x used prev nx :
  hinv s (p :: rest) large fl → pg_used p = x :: used →
  prev = 0 ∨ (∃ q, q ∈ rest ∧ pg_class q = pg_class p ∧ prev = pvirt q) →
  let s1 := freed p x (length used) s in
  (∀ q, q ∈ rest → node_at (mem (buddy s1)) (pvirt q) = node_at (mem (buddy s)) (pvirt q) ∧
     ∀ y, y ∈ pg_free q → word_at (unlink_words prev nx (words s1)) y = word_at (words s) y) ∧
  (∀ q, q ∈ rest → pg_class q ≠ pg_class p →
     unlink_words prev nx (words s1) !! (pvirt q + Header.next_offset) =
     words s !! (pvirt q + Header.next_offset)).
Proof.
  intros Hi Hu Hprev s1.
  destruct (unlink_words_frame s p rest large fl (pg_class p) prev nx (words s1) Hi Hprev) as [Hw Hn]. split.
  - intros q Hq. destruct (freed_rest s p rest large fl x used q Hi Hu Hq) as [Hnode Hword].
    split; [exact Hnode|]. intros y Hy. rewrite (Hw q y); [by apply Hword|by right|by left].
  - intros q Hq Hcl. rewrite Hn; [by eapply freed_next; [done..|right]|by right|].
    destruct Hprev as [->|(q0 & Hq0 & Hc0 & ->)]; [by apply (page_addr_ok Hi q); right|].
    intros E. apply Hcl. assert (q = q0) as ->; [|done].
    apply (nodup_fmap_inj pvirt (p :: rest)); [by apply (pages_nodup Hi)|by right..|done].
Qed.

Lemma is_full_not_partial c p : is_full c p → ¬ is_partial c p.
Proof. intros [_ ?] [_ ?]. done. Qed.
Lemma is_partial_not_full c p : is_partial c p → ¬ is_full c p.
Proof. intros [_ ?] [_ ?]. done. Qed.

Lemma prev_class (Q : nat → SlabPage → Prop) p (rest : list SlabPage) prev :
  (∀ c q, Q c q → pg_class q = c) →
  prev = 0 ∨ (∃ q, q ∈ rest ∧ Q (pg_class p) q ∧ prev = pvirt q) →
  prev = 0 ∨ (∃ q, q ∈ rest ∧ pg_class q = pg_class p ∧ prev = pvirt q).
Proof. intros HQ [?|(q & ? & ?%HQ & ?)]; [by left|right; by exists q]. Qed.

(** Unlinking [p] from the list of full pages. *)
Lemma unlink_full_spec s p rest large fl x used :
  hinv s (p :: rest) large fl → pg_used p = x :: used → pg_free p = [] →
  let c := pg_class p in let s1 := freed p x (length used) s in
  ∃ prev nx lf lp, unlink_slab_page full_slabs set_full_slabs c (pvirt p) s1 =
      Ok (tt, set_words (unlink_words prev nx) (set_full_slabs (unlink_heads prev c nx) s1)) ∧
    (prev = 0 ∨ (∃ q, q ∈ rest ∧ pg_class q = c ∧ prev = pvirt q)) ∧
    listed (unlink_heads prev c nx (full_slabs s)) (unlink_words prev nx (words s1)) c (is_full c) rest lf ∧
    listed (partial_slabs s) (unlink_words prev nx (words s1)) c (is_partial c) rest lp ∧ (pvirt p ∉ lp).
Proof.
  intros Hi Hu Hf c s1. assert (p ∈ p :: rest) as Hp by left.
  pose proof (po_class _ _ _ (hi_page _ _ _ _ _ _ Hi p Hp)) as Hc. fold c in Hc.
  destruct (hi_full _ _ _ _ _ _ Hi c Hc) as [l Hl]. destruct (hi_partial _ _ _ _ _ _ Hi c Hc) as [lp Hlp].
  destruct (hi_len _ _ _ _ _ _ Hi) as [_ Hlen]. destruct (listed_pages Hi _ _ _ _ _ Hl) as [Hnd Hal].
  pose proof (freed_listed s p rest large fl x used _ c (is_full c) l Hi Hu Hl) as Hl1.
  destruct (listed_unlink _ _ c (is_full c) p rest l Hl1) as (l1 & l2 & -> & Hprev & Hl2); [done..|by rewrite Hlen|].
  destruct (other_listed s p rest large fl x used _ c (is_full c) (is_partial c) (List.last l1 0) (hd 0 l2) lp Hi Hu Hlp)
    as [Hn Hlp']; [by intros [_ ?]|apply is_full_not_partial|done|].
  exists (List.last l1 0), (hd 0 l2), (l1 ++ l2), lp. split_and!; [|by eapply (prev_class is_full); [intros ?? []|]|done..].
  rewrite <-unlinked_full. apply (unlink_slab_page_run s1 _ _ c (pvirt p) l1 l2); [|apply Hl1|done..]. apply Hl1.
Qed.

(** Unlinking [p] from the list of partial pages. *)
Lemma unlink_partial_spec s p rest large fl x used :
  hinv s (p :: rest) large fl → pg_used p = x :: used → pg_free p ≠ [] →
  let c := pg_class p in let s1 := freed p x (length used) s in
  ∃ prev nx lf lp, unlink_slab_page partial_slabs set_partial_slabs c (pvirt p) s1 =
      Ok (tt, set_words (unlink_words prev nx) (set_partial_slabs (unlink_heads prev c nx) s1)) ∧
    (prev = 0 ∨ (∃ q, q ∈ rest ∧ pg_class q = c ∧ prev = pvirt q)) ∧
    listed (unlink_heads prev c nx (partial_slabs s)) (unlink_words prev nx (words s1)) c (is_partial c) rest lp ∧
    listed (full_slabs s) (unlink_words prev nx (words s1)) c (is_full c) rest lf.
Proof.
  intros Hi Hu Hf c s1. assert (p ∈ p :: rest) as Hp by left.
  pose proof (po_class _ _ _ (hi_page _ _ _ _ _ _ Hi p Hp)) as Hc. fold c in Hc.
  destruct (hi_partial _ _ _ _ _ _ Hi c Hc) as [l Hl]. destruct (hi_full _ _ _ _ _ _ Hi c Hc) as [lf Hlf].
  destruct (hi_len _ _ _ _ _ _ Hi) as [Hlen _]. destruct (listed_pages Hi _ _ _ _ _ Hl) as [Hnd Hal].
  pose proof (freed_listed s p rest large fl x used _ c (is_partial c) l Hi Hu Hl) as Hl1.
  destruct (listed_unlink _ _ c (is_partial c) p rest l Hl1) as (l1 & l2 & -> & Hprev & Hl2); [done..|by rewrite Hlen|].
  destruct (other_listed s p rest large fl x used _ c (is_partial c) (is_full c) (List.last l1 0) (hd 0 l2) lf Hi Hu Hlf)
    as [Hn Hlf']; [by intros [_ ?]|apply is_partial_not_full|done|].
  exists (List.last l1 0), (hd 0 l2), lf, (l1 ++ l2). split_and!; [|by eapply (prev_class is_partial); [intros ?? []|]|done..].
  rewrite <-unlinked_partial. apply (unlink_slab_page_run s1 _ _ c (pvirt p) l1 l2); [|apply Hl1|done..]. apply Hl1.
Qed.

(** ** Blocks of the buddy allocator *)

(** Changing only the buddy allocator, outside the slab pages. *)
Lemma heap_inv_buddy s pages large large' fl fl' b :
  hinv s pages large fl → world_inv h exact P b (page_blocks pages ++ large') fl' →
  (∀ q, q ∈ pages → node_at (mem b) (pvirt q) = node_at (mem (buddy s)) (pvirt q)) →
  hinv (set_buddy b s) pages large' fl'.
Proof.
  intros [? _ Hpg ? Hpt Hfu ?] Hw Hn. split; try done.
  intros p Hp. eapply page_ok_frame; [by apply Hn|done|by apply Hpg].
Qed.

Lemma alloc_block_spec s pages large fl o :
  hinv s pages large fl →
  (buddy_alloc_pages o s = Ok (None, s) ∧ all_empty_from fl o) ∨
  (∃ x s' fl', buddy_alloc_pages o s = Ok (Some x, s') ∧ hinv s' pages ((o, x) :: large) fl' ∧
    good_block h (buddy s) o x ∧ x + h ≠ 0 ∧ hhdm_offset s' = h ∧ kept (live_addr pages large) s s').
Proof.
  intros Hi. pose proof (hi_world _ _ _ _ _ _ Hi) as Hw. pose proof (hi_offset _ _ _ _ _ _ Hi) as Hoff.
  unfold buddy_alloc_pages, on_buddy. rewrite Hoff.
  destruct (alloc_pages_cases h Hh (buddy s) fl o (w_inv _ _ _ _ _ _ Hw))
    as [[He Hal]|(_ & x & b & fl' & Hal & Hb & Hr & Hg & Hga & Ht)]; rewrite Hal.
  { left. split; [|done]. by destruct s. }
  right. exists x, (set_buddy b s), fl'. split_and!; [done| |done| |done|by eapply alloc_kept].
  - eapply heap_inv_buddy; [done| |intros; by eapply alloc_page_nodes].
    eapply world_perm; [|by eapply world_alloc]. by rewrite <-Permutation_middle.
  - assert (P x) as Hpos%(hi_pos _ _ _ _ _ _ Hi); [|lia]. apply (w_sound _ _ _ _ _ _ Hw). left.
    apply Hga. right. unfold in_block. pose proof (block_size_pos o). lia.
Qed.

Lemma free_block_spec s pages large fl o x :
  hinv s pages ((o, x) :: large) fl →
  ∃ s' fl', buddy_free_pages x o s = Ok (tt, s') ∧ hinv s' pages large fl' ∧
    kept (live_addr pages large) s s'.
Proof.
  intros Hi. pose proof (hi_world _ _ _ _ _ _ Hi) as Hw. pose proof (hi_offset _ _ _ _ _ _ Hi) as Hoff.
  assert (page_blocks pages ++ (o, x) :: large ≡ₚ (o, x) :: page_blocks pages ++ large) as Hperm
    by (by rewrite <-Permutation_middle).
  pose proof (world_perm h _ _ _ _ _ _ Hperm Hw) as Hw'.
  destruct (w_good _ _ _ _ _ _ Hw' o x) as [Hg Ht]; [by left|].
  destruct (free_pages_released h Hh (buddy s) fl o x (w_inv _ _ _ _ _ _ Hw) Hg Ht) as (b & fl' & Hrun & Hb & Hr & Hrel).
  pose proof (free_pages_only h Hh _ _ _ _ _ (w_inv _ _ _ _ _ _ Hw) Hg Ht Hrun) as Honly.
  assert (∀ o' y a, (o', y) ∈ page_blocks pages ++ large → in_block o' y a → ¬ (is_free fl a ∨ in_block o x a)) as Hout.
  { intros o' y a Hin Ha [Hf|Hbad].
    - destruct (w_good _ _ _ _ _ _ Hw' o' y) as [_ Ht']; [by right|]. by apply (Ht' a).
    - pose proof (w_apart _ _ _ _ _ _ Hw') as [Hap _]. rewrite Forall_forall in Hap.
      by apply (apart_in_block o x o' y a); [apply (Hap (o', y))|..]. }
  exists (set_buddy b s), fl'. split_and!.
  - unfold buddy_free_pages, on_buddy. by rewrite Hoff, Hrun.
  - eapply heap_inv_buddy; [done|by eapply world_free|]. intros q Hq. apply Honly.
    apply (Hout O (pg_phys q)); [apply elem_of_app; left; apply list_elem_of_fmap; by exists q|].
    unfold pvirt, in_block. pose proof (block_size_pos 0). lia.
  - apply (buddy_kept _ _ _ _ Honly). intros a Ha.
    assert (large ⊆ (o, x) :: large) as Hsub by (intros ??; by right).
    destruct (live_addr_block_sub _ _ _ _ _ _ Hi Hsub Ha) as (o' & y & ? & _ & ?). by eapply Hout.
Qed.

(** ** Releasing objects *)

Lemma outstanding_page pages c x :
  (c, x) ∈ outstanding pages →
  ∃ p rest used, pages ≡ₚ p :: rest ∧ pg_class p = c ∧ pg_used p ≡ₚ x :: used.
Proof.
  unfold outstanding. intros (p & Hin & Hp)%list_elem_of_bind.
  apply list_elem_of_fmap in Hin as (y & [= -> ->] & Hy).
  apply elem_of_Permutation in Hp as [rest Hr], Hy as [used Hu]. by exists p, rest, used.
Qed.

Lemma live_addr_less p p' rest large a :
  pvirt p = pvirt p' → pg_class p = pg_class p' → pg_used p' ⊆ pg_used p →
  live_addr (p' :: rest) large a → live_addr (p :: rest) large a.
Proof.
  intros E Ec Hsub [(q & y & [->|Hq]%elem_of_cons & Hy & ?)|?]; [left..|by right].
  - exists p, y. split; [left|]. split; [by apply Hsub|]. by rewrite Ec.
  - exists q, y. split; [by right|done].
Qed.

Lemma live_addr_cons p rest large a : live_addr rest large a → live_addr (p :: rest) large a.
Proof. intros [(q & y & Hq & ?)|?]; [left; exists q, y; split; [by right|done]|by right]. Qed.

(** A page whose last object comes back leaves its list. *)
Lemma unlink_last_spec s p rest large fl x :
  hinv s (p :: rest) large fl → pg_used p = [x] →
  ∃ s2, (if hd 0 (pg_free p) =? 0 then unlink_slab_page full_slabs set_full_slabs (pg_class p) (pvirt p)
         else unlink_slab_page partial_slabs set_partial_slabs (pg_class p) (pvirt p)) (freed p x 0 s) = Ok (tt, s2) ∧
    hinv s2 rest ((O, pg_phys p) :: large) fl ∧ kept (live_addr rest large) s s2.
Proof.
  intros Hi Hu. assert (p ∈ p :: rest) as Hp by left. pose proof (hi_offset _ _ _ _ _ _ Hi) as Hoff.
  destruct (hi_len _ _ _ _ _ _ Hi) as [Hlp Hlf]. set (c := pg_class p). set (s1 := freed p x 0 s).
  assert (kept (live_addr rest large) s s1) as Hk1.
  { intros a Ha. apply (freed_kept s p rest large fl x [] [] Hi Hu). by apply live_addr_cons. }
  pose proof (live_addr_cons p rest large) as Hsub. pose proof (freed_world s p rest large fl x 0 Hi) as Hw.
  destruct (pg_free p) as [|y fr] eqn:Hf.
  - destruct (unlink_full_spec s p rest large fl x [] Hi Hu Hf) as (prev & nx & lf & lp & Hrun & Hprev & Hl1 & Hl2 & _).
    destruct (unlink_heads_facts prev c nx _ Hlf). eexists. split; [exact Hrun|].
    unfold set_words, set_full_slabs. simpl. rewrite Hoff. split.
    + destruct (unlinked_rest s p rest large fl x [] prev nx Hi Hu Hprev) as [Ha Hb].
      apply (unlink_empty_inv s p rest large fl); eauto.
    + eapply kept_trans; [by intros a Ha; exact Ha|exact Hk1|].
      intros a Ha. by rewrite (unlink_kept s p rest large fl c prev nx _ _ _ _ _ Hi Hsub Hprev a Ha).
  - assert (pg_free p ≠ []) as Hne by (by rewrite Hf).
    assert (y ≠ 0) as Hy by (apply (slot_page Hi p y Hp); left; rewrite Hf; by left).
    cbn [hd]. destruct (Z.eqb_spec y 0); [done|].
    destruct (unlink_partial_spec s p rest large fl x [] Hi Hu Hne) as (prev & nx & lf & lp & Hrun & Hprev & Hl1 & Hl2).
    destruct (unlink_heads_facts prev c nx _ Hlp). eexists. split; [exact Hrun|].
    unfold set_words, set_partial_slabs. simpl. rewrite Hoff. split.
    + destruct (unlinked_rest s p rest large fl x [] prev nx Hi Hu Hprev) as [Ha Hb].
      apply (unlink_empty_inv s p rest large fl); eauto.
    + eapply kept_trans; [by intros a Ha; exact Ha|exact Hk1|].
      intros a Ha. by rewrite (unlink_kept s p rest large fl c prev nx _ _ _ _ _ Hi Hsub Hprev a Ha).
Qed.

(** The last object of a page: the page goes back to the buddy allocator. *)
Lemma free_small_last s p rest large fl x :
  hinv s (p :: rest) large fl → pg_used p = [x] →
  ∃ s' fl', free_small x s = Ok (tt, s') ∧ hinv s' rest large fl' ∧ kept (live_addr rest large) s s'.
Proof.
  intros Hi Hu. assert (p ∈ p :: rest) as Hp by left.
  destruct (unlink_last_spec s p rest large fl x Hi Hu) as (s2 & Hun & Hi2 & Hk2).
  destruct (free_block_spec s2 rest large fl O (pg_phys p) Hi2) as (s3 & fl3 & Hrun3 & Hi3 & Hk3).
  exists s3, fl3. split_and!; [|done|by eapply kept_trans; [intros a Ha; exact Ha|exact Hk2|]].
  rewrite (free_small_run s p rest large fl x [] Hi Hu). cbv zeta. cbn [length].
  change (Z.of_nat 0 =? 0) with true. cbn match. rewrite (mbind_ok _ _ _ _ _ Hun).
  rewrite (mbind_ok _ _ _ (pg_phys p) s2); [done|].
  unfold virt_to_phys. rewrite (hi_offset _ _ _ _ _ _ Hi2). apply mlift_ok. unfold pvirt.
  rewrite usub_ok; [f_equal; lia|]. destruct (page_good Hi p Hp) as [(_ & ? & _) _]. lia.
Qed.

(** A full page that gets an object back is partial again. *)
Lemma free_small_full s p rest large fl x y used :
  hinv s (p :: rest) large fl → pg_used p = x :: y :: used → pg_free p = [] →
  let p' := mkPage (pg_phys p) (pg_class p) [x] (y :: used) in
  ∃ s', free_small x s = Ok (tt, s') ∧ hinv s' (p' :: rest) large fl ∧ kept (live_addr (p' :: rest) large) s s'.
Proof.
  intros Hi Hu Hf p'. assert (p ∈ p :: rest) as Hp by left. pose proof (hi_offset _ _ _ _ _ _ Hi) as Hoff.
  destruct (page_addr_ok Hi p Hp) as [Hp0 Hpa]. destruct (hi_len _ _ _ _ _ _ Hi) as [Hlp Hlf].
  set (c := pg_class p). set (s1 := freed p x (length (y :: used)) s).
  destruct (unlink_full_spec s p rest large fl x (y :: used) Hi Hu Hf)
    as (prev & nx & lf & lp & Hrun & Hprev & Hl1 & Hl2 & Hnp). fold c s1 in Hrun, Hl1, Hl2.
  destruct (unlink_heads_facts prev c nx _ Hlf) as [Hlf' Hoth].
  destruct (unlinked_rest s p rest large fl x _ prev nx Hi Hu Hprev) as [Hnode Hnext]. fold c s1 in Hnode, Hnext.
  pose proof (rest_apart s p rest large fl) as Hap.
  rewrite (free_small_run s p rest large fl x (y :: used) Hi Hu). cbv zeta. fold c s1. rewrite Hf. cbn [hd].
  destruct (Z.eqb_spec (Z.of_nat (length (y :: used))) 0); [simpl in *; lia|]. rewrite Z.eqb_refl.
  rewrite (mbind_ok _ _ _ _ _ Hrun). set (s2 := set_words _ _).
  rewrite (mbind_ok _ _ _ (hd 0 lp) s2) by (unfold slab_head; simpl; by rewrite (proj1 Hl2)).
  rewrite (mbind_ok _ _ _ _ _ (store64_next _ _ _ Hpa)). eexists. split; [done|]. split.
  - apply (heap_inv_replace exact P s _ c [p] [p'] rest large large fl fl Hi); try done; try by repeat constructor.
    + by apply (freed_world s p rest).
    + constructor; [|done]. pose proof (freed_page_ok s p rest large fl x _ Hi Hu) as Hok. rewrite Hf in Hok.
      eapply page_ok_frame; [done| |exact Hok]. intros z ->%list_elem_of_singleton.
      destruct (unlink_words_frame s p rest large fl c prev nx (words s1) Hi Hprev) as [Hwx _].
      transitivity (word_at (unlink_words prev nx (words s1)) x); [|apply (Hwx p x Hp); right; rewrite Hu; by left].
      unfold word_at. simpl. rewrite lookup_insert_ne; [done|]. intros E. by apply (slot_ne_next Hi p p x Hp Hp); [right; rewrite Hu; left|].
    + intros q Hq. destruct (Hnode q Hq) as [Hn Hwq]. split; [exact Hn|]. intros z Hz. rewrite <-(Hwq z Hz).
      unfold word_at. simpl. rewrite lookup_insert_ne; [done|]. intros E.
      by apply (slot_ne_next Hi q p z); [right|left|left|].
    + intros q Hq Hcl. rewrite <-(Hnext q Hq Hcl). simpl. apply lookup_insert_ne. intros E.
      apply (Hap q); [done..|lia].
    + simpl. by rewrite length_insert.
    + intros c' Hc'. simpl. rewrite list_lookup_insert_ne by done. split; [done|by apply Hoth].
    + exists (pvirt p' :: lp). apply (listed_push (partial_slabs s) _ c (is_partial c) p' rest lp); try done.
      rewrite Hlp. by apply (hi_page _ _ _ _ _ _ Hi).
    + exists lf. eapply listed_frame; [exact Hl1|done| |cbn [app]; by rewrite filter_cons_False by (by intros [_ ?])].
      intros z. rewrite (proj2 (proj2 Hl1)). intros (q & -> & [_ Hq]%list_elem_of_filter)%list_elem_of_fmap.
      simpl. apply lookup_insert_ne. intros E. apply (Hap q); [done..|lia].
  - assert (∀ a, live_addr (p' :: rest) large a → live_addr (p :: rest) large a) as Hsub.
    { intros a. apply live_addr_less; [done..|]. rewrite Hu. intros z ?. by right. }
    eapply kept_trans; [intros a Ha; exact Ha|exact (freed_kept s p rest large fl x _ [x] Hi Hu)|]. fold s1.
    intros a Ha. transitivity (peek s2 a).
    + apply (kept_word (live_addr (p' :: rest) large) s2); [|done]. intros Hbad%Hsub.
      by apply (next_not_live _ _ _ _ _ _ p Hi).
    + unfold s2, set_words, set_full_slabs. simpl. rewrite Hoff.
      by rewrite (unlink_kept s p rest large fl c prev nx _ _ _ _ _ Hi Hsub Hprev a Ha).
Qed.

Lemma free_small_spec s pages large fl c x :
  hinv s pages large fl → (c, x) ∈ outstanding pages →
  ∃ s' pages' fl', free_small x s = Ok (tt, s') ∧ hinv s' pages' large fl' ∧
    outstanding pages ≡ₚ (c, x) :: outstanding pages' ∧ kept (live_addr pages' large) s s'.
Proof.
  intros Hi (p0 & rest & used & Hr & <- & Hu0)%outstanding_page.
  apply (heap_inv_perm _ _ _ _ _ _ _ Hr) in Hi. symmetry in Hu0. apply (heap_inv_used _ _ _ _ _ _ Hi) in Hu0 as Hi'.
  set (p := mkPage (pg_phys p0) (pg_class p0) (pg_free p0) (x :: used)) in *.
  assert (outstanding pages ≡ₚ (pg_class p0, x) :: ((pg_class p0,.) <$> used) ++ outstanding rest) as Ho.
  { rewrite (outstanding_perm _ _ Hr). unfold outstanding. simpl. by rewrite <-Hu0. }
  destruct used as [|y used].
  - destruct (free_small_last s p rest large fl x Hi' eq_refl) as (s' & fl' & ? & ? & ?).
    exists s', rest, fl'. by split_and!.
  - set (p' := mkPage (pg_phys p0) (pg_class p0) (x :: pg_free p0) (y :: used)).
    assert (∃ s', free_small x s = Ok (tt, s') ∧ hinv s' (p' :: rest) large fl ∧
      kept (live_addr (p' :: rest) large) s s') as (s' & ? & ? & ?); [|by exists s', (p' :: rest), fl; split_and!].
    destruct (decide (pg_free p0 = [])) as [E|Hne].
    + destruct (free_small_full s p rest large fl x y used Hi' eq_refl E) as (s' & ? & ? & ?).
      exists s'. unfold p'. rewrite E. by split_and!.
    + exists (freed p x (length (y :: used)) s). split_and!.
      * rewrite (free_small_run s p rest large fl x (y :: used) Hi' eq_refl). cbv zeta.
        destruct (Z.eqb_spec (Z.of_nat (length (y :: used))) 0); [simpl in *; lia|].
        destruct (pg_free p0) as [|z fr] eqn:E; [done|]. cbn [pg_free p hd].
        destruct (Z.eqb_spec z 0) as [->|]; [|done]. exfalso.
        assert (0 ≠ 0); [|done]. apply (slot_page Hi' p 0); [left|]. left. by left.
      * by apply (freed_partial_inv s p rest).
      * by apply (freed_kept s p rest large fl x (y :: used) (x :: pg_free p0)).
Qed.

(** ** Layouts and allocations *)

(** The layouts the allocator is called with, after [normalize_layout]. *)
Definition layout_ok (l : Layout) : Prop :=
  1 ≤ lsize l ∧ is_power_of_two (lalign l) = true ∧ div_ceil (lsize l) (lalign l) * lalign l ≤ isize_max.

Definition order_of (l : Layout) : option nat :=
  match @order_for_pages Empty_set (page_count_for (lsize l)) with Ok o => o | _ => None end.

(** The class of an object fits the size and the alignment. *)
Lemma class_index_spec l c :
  class_index_for_layout l = Some c →
  (c < NUM_CLASSES)%nat ∧ lsize l ≤ object_size c ∧ lalign l ≤ object_size c.
Proof.
  unfold class_index_for_layout, object_size, NUM_CLASSES. destruct (Z.ltb_spec MAX_SLAB_SIZE
    (Z.max (Z.max (lsize l) 1) (lalign l))) as [|Hn]; [done|]. unfold CLASS_SIZES. simpl.
  repeat (zcase; simpl; [intros [= <-]; simpl; lia|]). done.
Qed.

Lemma page_count_bounds l : layout_ok l →
  1 ≤ page_count_for (lsize l) ≤ 2 ^ 52 ∧ lsize l ≤ page_count_for (lsize l) * PAGE_SIZE.
Proof.
  intros (Hs & Ha & Hb). unfold page_count_for, div_ceil, PAGE_SIZE. rewrite Z.max_l by lia.
  apply is_power_of_two_inv in Ha as (k & Hk & E). pose proof (Z.pow_pos_nonneg 2 k).
  unfold div_ceil, isize_max in Hb. rewrite E in Hb.
  pose proof (Z.div_mod (lsize l + 2 ^ k - 1) (2 ^ k)). pose proof (Z.mod_pos_bound (lsize l + 2 ^ k - 1) (2 ^ k)).
  pose proof (Z.div_mod (lsize l + 4096 - 1) 4096). pose proof (Z.mod_pos_bound (lsize l + 4096 - 1) 4096). lia.
Qed.

Lemma order_of_spec l : layout_ok l →
  @order_for_pages Empty_set (page_count_for (lsize l)) = Ok (order_of l) ∧
  (∀ o, order_of l = Some o → (o ≤ MAX_ORDER)%nat ∧ lsize l ≤ block_size_bytes o).
Proof.
  intros Hl. destruct (page_count_bounds l Hl) as [? ?]. unfold order_of.
  destruct (order_for_pages_spec (page_count_for (lsize l))) as [[? _]|[[_ E]|(o & E & Ho & Hle & _)]];
    [lia|lia|rewrite E..]; (split; [done|]); [done|]. intros o' [= <-]. split; [done|]. lia.
Qed.

(** ** Objects and blocks are disjoint *)

(** An address range: start and length. *)
Definition disj (a b : Z * Z) : Prop := a.1 + a.2 ≤ b.1 ∨ b.1 + b.2 ≤ a.1.
Definition object_range (a : nat * Z) : Z * Z := (a.2, object_size a.1).
Definition block_range (a : nat * Z) : Z * Z := (a.2 + h, block_size_bytes a.1).

Lemma disj_sym : Symmetric disj.
Proof. intros ?? [?|?]; [by right|by left]. Qed.

Lemma objects_disjoint s pages large fl :
  hinv s pages large fl → pairwise disj (object_range <$> outstanding pages).
Proof.
  intros Hi. pose proof (pages_nodup Hi) as Hnd.
  assert (∀ p, p ∈ pages → (pg_class p < NUM_CLASSES)%nat ∧ (PAGE_SIZE | pvirt p) ∧ NoDup (pg_used p) ∧
    ∀ x, x ∈ pg_used p → x ∈ slots (pvirt p) (pg_class p)) as Hp.
  { intros p Hp. pose proof (hi_page _ _ _ _ _ _ Hi p Hp) as Hok. pose proof (po_class _ _ _ Hok) as Hc.
    pose proof (slots_nodup (pvirt p) _ Hc) as Hs. rewrite <-(po_slots _ _ _ Hok) in Hs.
    apply NoDup_app in Hs as (_ & _ & ?). split_and!; [done|by apply (page_addr_ok Hi)|done|].
    intros x Hx. apply (free_slot Hi); auto. }
  clear Hi. induction pages as [|p rest IH]; [done|]. unfold outstanding. cbn [mbind list_bind].
  rewrite fmap_app. apply NoDup_cons in Hnd as [Hv Hnd]. apply pairwise_app. split_and!.
  - destruct (Hp p) as (Hc & _ & Hu & Hs); [left|]. rewrite <-list_fmap_compose. apply pairwise_fmap, pairwise_nodup; [done|].
    intros x y Hx%Hs Hy%Hs Hne. unfold disj. simpl.
    destruct (decide (x ≤ y)); [left|right]; apply Z.le_ngt; intros ?; apply Hne;
      [symmetry|]; eapply slot_overlap; eauto; lia.
  - apply IH; [done|]. intros q Hq. apply Hp. by right.
  - intros r1 r2 (a & -> & (x & -> & Hx)%list_elem_of_fmap)%list_elem_of_fmap (b & -> & Hb)%list_elem_of_fmap.
    apply list_elem_of_bind in Hb as (q & (y & -> & Hy)%list_elem_of_fmap & Hq).
    destruct (Hp p) as (Hc & Hpa & _ & Hs); [left|]. destruct (Hp q) as (Hcq & Hqa & _ & Hsq); [by right|].
    destruct (slot_place _ _ x Hc Hpa (Hs x Hx)) as (_ & ? & ? & ? & _).
    destruct (slot_place _ _ y Hcq Hqa (Hsq y Hy)) as (_ & ? & ? & ? & _).
    assert (pvirt p ≠ pvirt q) as Hne by (intros E; apply Hv; rewrite E; apply list_elem_of_fmap; by exists q).
    unfold disj. simpl. destruct (Z.lt_total (pvirt p) (pvirt q)) as [Hlt|[?|Hlt]]; [left|done|right];
      apply (aligned_step _ _ PAGE_SIZE) in Hlt; [lia|done..|lia|done|done|done].
Qed.

Lemma ranges_disjoint s pages large fl :
  hinv s pages large fl →
  pairwise disj ((object_range <$> outstanding pages) ++ (block_range <$> large)).
Proof.
  intros Hi. apply pairwise_app. split_and!; [by eapply objects_disjoint| |].
  - pose proof (w_apart _ _ _ _ _ _ (hi_world _ _ _ _ _ _ Hi)) as Hap. apply pairwise_app in Hap as (_ & Hap & _).
    apply pairwise_fmap. clear -Hap. induction large as [|a l IH]; [done|]. destruct Hap as [Ha Hap].
    split; [|by apply IH]. eapply Forall_impl; [exact Ha|]. intros b Hb.
    unfold apart_pair, apart in Hb. unfold disj, block_range. simpl in *. lia.
  - intros r1 r2 (a & -> & Ha)%list_elem_of_fmap ([o b] & -> & Hb)%list_elem_of_fmap.
    unfold outstanding in Ha. apply list_elem_of_bind in Ha as (p & (x & -> & Hx)%list_elem_of_fmap & Hp).
    destruct (slot_place (pvirt p) (pg_class p) x) as (_ & ? & ? & ? & _);
      [by apply (hi_page _ _ _ _ _ _ Hi)|by apply (page_addr_ok Hi)|by apply (free_slot Hi); auto|].
    pose proof (w_apart _ _ _ _ _ _ (hi_world _ _ _ _ _ _ Hi)) as Hap.
    assert ((O, pg_phys p) ∈ page_blocks pages) as Hpb by (apply list_elem_of_fmap; by exists p).
    pose proof (pairwise_app_elem _ _ _ _ _ Hap Hpb Hb) as Hd.
    unfold apart_pair, apart in Hd. unfold disj, object_range, block_range, pvirt in *. simpl in *.
    change (block_size_bytes 0) with PAGE_SIZE in Hd. lia.
Qed.

(** ** [allocate] and [free] *)

(** An allocation: the pointer and its layout.  It is an object of a slab page
    or a block of the buddy allocator. *)
Definition as_object (a : Z * Layout) : option (nat * Z) :=
  (λ c, (c, a.1)) <$> class_index_for_layout a.2.
Definition as_block (a : Z * Layout) : option (nat * Z) :=
  match class_index_for_layout a.2 with
  | Some _ => None
  | None => (λ o, (o, a.1 - h)) <$> order_of a.2
  end.

(** The layouts that can have allocations. *)
Definition servable (l : Layout) : Prop :=
  layout_ok l ∧ (class_index_for_layout l = None → lalign l ≤ PAGE_SIZE ∧ order_of l ≠ None).

Lemma heap_inv_large s pages large large' fl :
  large ≡ₚ large' → hinv s pages large fl → hinv s pages large' fl.
Proof.
  intros Hp [? Hw Hpg ? Hpt Hfu ?]. split; try done. eapply world_perm; [|done]. by rewrite Hp.
Qed.

Lemma live_addr_large pages large large' a :
  large ≡ₚ large' → live_addr pages large a → live_addr pages large' a.
Proof. intros Hp [?|?]; [by left|right]. by eapply is_live_perm. Qed.

Lemma allocate_spec s pages large fl l :
  hinv s pages large fl → layout_ok l →
  allocate l s = Ok (0, s) ∨
  (∃ ptr s' pages' fl', allocate l s = Ok (ptr, s') ∧ ptr ≠ 0 ∧ servable l ∧
    hinv s' pages' (option_list (as_block (ptr, l)) ++ large) fl' ∧
    outstanding pages' ≡ₚ option_list (as_object (ptr, l)) ++ outstanding pages ∧
    kept (live_addr pages large) s s').
Proof.
  intros Hi Hl. unfold allocate, as_object, as_block, servable. cbn [fst snd].
  destruct (class_index_for_layout l) as [c|] eqn:Ec.
  - destruct (class_index_spec l c Ec) as [Hc _].
    destruct (allocate_small_spec s pages large fl c Hi Hc) as [(? & _)|(x & s' & pages' & fl' & ?&?&?&?&?)];
      [by left|right]. exists x, s', pages', fl'. by split_and!.
  - unfold allocate_large. destruct (Z.ltb_spec PAGE_SIZE (lalign l)); [by left|].
    destruct (order_of_spec l Hl) as [Ho _]. rewrite (mbind_ok _ _ _ _ _ (mlift_ok _ _ _ Ho)).
    destruct (order_of l) as [o|]; [|by left].
    destruct (alloc_block_spec s pages large fl o Hi) as [[Hrun _]|(x & s' & fl' & Hrun & Hi' & Hg & H0 & Hoff & Hk)];
      rewrite (mbind_ok _ _ _ _ _ Hrun); [by left|right].
    exists (x + h), s', pages, fl'. split_and!; try done.
    + unfold phys_to_virt. rewrite Hoff. apply mlift_ok, uadd_ok. destruct Hg as (_ & _ & _ & ? & _).
      pose proof (block_size_pos o). lia.
    + simpl. by replace (x + h - h) with x by lia.
Qed.

Lemma free_spec s pages large fl ptr l :
  hinv s pages (option_list (as_block (ptr, l)) ++ large) fl → servable l →
  (∀ c, as_object (ptr, l) = Some c → c ∈ outstanding pages) → ptr ≠ 0 →
  ∃ s' pages' fl', free ptr l s = Ok (tt, s') ∧ hinv s' pages' large fl' ∧
    outstanding pages ≡ₚ option_list (as_object (ptr, l)) ++ outstanding pages' ∧
    kept (live_addr pages' large) s s'.
Proof.
  intros Hi [Hl Hsv] Ho H0. unfold free, as_object, as_block in *. cbn [fst snd] in *.
  destruct (Z.eqb_spec ptr 0); [done|]. destruct (class_index_for_layout l) as [c|] eqn:Ec; cbn [fmap option_fmap option_map option_list app] in *.
  - apply (free_small_spec s pages large fl c ptr Hi). by apply Ho.
  - destruct (Hsv eq_refl) as [_ Hne]. destruct (order_of_spec l Hl) as [Eo _].
    destruct (order_of l) as [o|]; [|done]. cbn [fmap option_fmap option_map option_list app] in Hi.
    destruct (free_block_spec s pages large fl o (ptr - h) Hi) as (s' & fl' & Hrun & Hi' & Hk).
    exists s', pages, fl'. split_and!; [|done..].
    unfold free_large. rewrite (mbind_ok _ _ _ (ptr - h) s).
    + by rewrite (mbind_ok _ _ _ _ _ (mlift_ok _ _ _ Eo)).
    + unfold virt_to_phys. rewrite (hi_offset _ _ _ _ _ _ Hi). apply mlift_ok, usub_ok.
      destruct (w_good _ _ _ _ _ _ (hi_world _ _ _ _ _ _ Hi) o (ptr - h)) as [(_ & ? & _) _]; [|lia].
      apply elem_of_app. right. by left.
Qed.

(** ** The caches *)

Definition opt_object (c : nat) (v : Z) : list (nat * Z) := if v =? 0 then [] else [(c, v)].
Definition cached (m : gmap (Z * nat) Z) : list (nat * Z) :=
  kv ← map_to_list m; opt_object kv.1.2 kv.2.

Lemma cached_insert m k v :
  m !! k = None → cached (<[k := v]> m) ≡ₚ opt_object k.2 v ++ cached m.
Proof. intros Hk. unfold cached. by rewrite (map_to_list_insert m k v Hk). Qed.

(** A swap exchanges the cached object for the new one. *)
Lemma cached_swap m cpu c v :
  opt_object c (cache_at m cpu c) ++ cached (<[(cpu, c) := v]> m) ≡ₚ opt_object c v ++ cached m.
Proof.
  set (k := (cpu, c)). set (m0 := delete k m). assert (m0 !! k = None) as Hk by apply lookup_delete_eq.
  assert (<[k := v]> m = <[k := v]> m0) as -> by (symmetry; apply insert_delete_eq).
  rewrite (cached_insert m0 k v Hk). cbn [snd k].
  assert (opt_object c (cache_at m cpu c) ++ cached m0 ≡ₚ cached m) as <-.
  - unfold cache_at. destruct (m !! (cpu, c)) as [w|] eqn:E; simpl.
    + transitivity (cached (<[k := w]> m0)); [by rewrite (cached_insert m0 k w Hk)|].
      unfold m0. by rewrite insert_delete_id.
    + unfold m0. by rewrite delete_id.
  - rewrite !app_assoc. f_equiv. apply Permutation_app_comm.
Qed.

(** ** The invariant of the global allocator *)

(** [held] are the allocations the kernel has, and those on their way back. *)
Definition global_inv (g : Global) (held : list (Z * Layout)) : Prop :=
  ∃ pages large fl, hinv (heap g) pages large fl ∧
    outstanding pages ≡ₚ (a ← held; option_list (as_object a)) ++ cached (PER_CPU_CACHE g) ∧
    large ≡ₚ (a ← held; option_list (as_block a)) ∧
    Forall (λ a : Z * Layout, servable a.2 ∧ a.1 ≠ 0) held.

(** Addresses of the memory of an allocation. *)
Definition held_addr (held : list (Z * Layout)) (a : Z) : Prop :=
  ∃ ptr l, (ptr, l) ∈ held ∧ ptr ≤ a < ptr + lsize l.

Definition gkept (held : list (Z * Layout)) (g g' : Global) : Prop :=
  kept (held_addr held) (heap g) (heap g').

Lemma global_inv_perm g held held' : held ≡ₚ held' → global_inv g held → global_inv g held'.
Proof.
  intros Hp (pages & large & fl & ? & Ho & Hl & ?). exists pages, large, fl.
  by rewrite <-Hp.
Qed.

Lemma held_addr_live pages large held a :
  (∀ b, b ∈ (a ← held; option_list (as_object a)) → b ∈ outstanding pages) →
  (∀ b, b ∈ (a ← held; option_list (as_block a)) → b ∈ large) →
  Forall (λ a : Z * Layout, servable a.2 ∧ a.1 ≠ 0) held →
  held_addr held a → live_addr pages large a.
Proof.
  intros Ho Hb Hs (ptr & l & Hin & Ha). rewrite Forall_forall in Hs. destruct (Hs _ Hin) as [[Hl Hsv] _].
  cbn [fst snd] in *. destruct (class_index_for_layout l) as [c|] eqn:Ec.
  - left. destruct (class_index_spec l c Ec) as (_ & ? & _).
    assert ((c, ptr) ∈ outstanding pages) as Hout.
    { apply Ho, list_elem_of_bind. exists (ptr, l). split; [|done]. unfold as_object. simpl. rewrite Ec. by left. }
    unfold outstanding in Hout. apply list_elem_of_bind in Hout as (p & (x & [= -> ->] & Hx)%list_elem_of_fmap & Hp).
    exists p, x. split_and!; [done..|lia|lia].
  - right. destruct (Hsv eq_refl) as [_ Hne]. destruct (order_of l) as [o|] eqn:Eo; [|done].
    destruct (order_of_spec l Hl) as [_ Hsz]. destruct (Hsz o Eo) as [_ ?].
    exists o, (ptr - h). split; [|unfold in_block; lia].
    apply Hb, list_elem_of_bind. exists (ptr, l). split; [|done]. unfold as_block. simpl. rewrite Ec, Eo. by left.
Qed.

(** ** The steps of the global allocator *)

Lemma layout_class_servable l c : layout_ok l → class_index_for_layout l = Some c → servable l.
Proof. intros Hl Hc. split; [done|]. by rewrite Hc. Qed.

Lemma as_object_class ptr l c :
  class_index_for_layout l = Some c → as_object (ptr, l) = Some (c, ptr) ∧ as_block (ptr, l) = None.
Proof. unfold as_object, as_block. simpl. by intros ->. Qed.

Lemma swap_step g held held' c cpu v :
  global_inv g held →
  (a ← held'; option_list (as_object a)) ++ opt_object c v ≡ₚ
    opt_object c (cache_at (PER_CPU_CACHE g) cpu c) ++ (a ← held; option_list (as_object a)) →
  (a ← held'; option_list (as_block a)) = (a ← held; option_list (as_block a)) →
  Forall (λ a : Z * Layout, servable a.2 ∧ a.1 ≠ 0) held' →
  global_inv (mkGlobal (heap g) (<[(cpu, c) := v]> (PER_CPU_CACHE g))) held'.
Proof.
  intros (pages & large & fl & Hi & Ho & Hl & Hs) Hobj Hblk Hs'. exists pages, large, fl.
  split_and!; [done| |by rewrite Hblk|done]. cbn [PER_CPU_CACHE].
  pose proof (cached_swap (PER_CPU_CACHE g) cpu c v) as Hc. set (old := cache_at _ _ _) in *.
  rewrite Ho. apply (Permutation_app_inv_l (opt_object c old)).
  transitivity (opt_object c old ++ (a ← held; option_list (as_object a)) ++ cached (PER_CPU_CACHE g)); [done|].
  rewrite app_assoc, <-Hobj, <-app_assoc, <-Hc, !app_assoc. f_equiv. apply Permutation_app_comm.
Qed.

Lemma take_step g held cpu c l :
  global_inv g held → layout_ok l → class_index_for_layout l = Some c →
  let ptr := cache_at (PER_CPU_CACHE g) cpu c in
  global_inv (mkGlobal (heap g) (<[(cpu, c) := 0]> (PER_CPU_CACHE g)))
    (if ptr =? 0 then held else (ptr, l) :: held).
Proof.
  intros Hg Hl Hc ptr. destruct (as_object_class ptr l c Hc) as [Ea Eb].
  assert (Forall (λ a : Z * Layout, servable a.2 ∧ a.1 ≠ 0) held) as Hs by (by destruct Hg as (? & ? & ? & _ & _ & _ & ?)).
  apply (swap_step g held); [done|..]; fold ptr; unfold opt_object; destruct (Z.eqb_spec ptr 0); try done.
  - simpl. by rewrite app_nil_r.
  - cbn [mbind list_bind]. rewrite Ea. simpl. by rewrite app_nil_r.
  - cbn [mbind list_bind]. by rewrite Eb.
  - constructor; [|done]. split; [by eapply layout_class_servable|done].
Qed.

Lemma cache_put_step g held cpu c ptr l :
  global_inv g ((ptr, l) :: held) → class_index_for_layout l = Some c →
  let replaced := cache_at (PER_CPU_CACHE g) cpu c in
  global_inv (mkGlobal (heap g) (<[(cpu, c) := ptr]> (PER_CPU_CACHE g)))
    (if replaced =? 0 then held else (replaced, l) :: held).
Proof.
  intros Hg Hc replaced. destruct (as_object_class ptr l c Hc) as [Ea Eb].
  destruct (as_object_class replaced l c Hc) as [Ea' Eb'].
  assert (Forall (λ a : Z * Layout, servable a.2 ∧ a.1 ≠ 0) ((ptr, l) :: held)) as [[Hsv H0] Hs]%Forall_cons
    by (by destruct Hg as (? & ? & ? & _ & _ & _ & ?)).
  cbn [fst snd] in *. assert ((ptr =? 0) = false) as E by (by apply Z.eqb_neq).
  apply (swap_step g ((ptr, l) :: held)); [done|..]; fold replaced; unfold opt_object; try rewrite E;
    destruct (Z.eqb_spec replaced 0); try done; cbn [mbind list_bind]; rewrite ?Ea, ?Eb, ?Ea', ?Eb'; try done.
  - simpl. by rewrite Permutation_app_comm.
  - simpl. f_equiv. by rewrite Permutation_app_comm.
  - constructor; [|done]. done.
Qed.

Lemma gkept_held g g' pages large held :
  (∀ b, b ∈ (a ← held; option_list (as_object a)) → b ∈ outstanding pages) →
  (∀ b, b ∈ (a ← held; option_list (as_block a)) → b ∈ large) →
  Forall (λ a : Z * Layout, servable a.2 ∧ a.1 ≠ 0) held →
  kept (live_addr pages large) (heap g) (heap g') → gkept held g g'.
Proof. intros ??? Hk a Ha. apply Hk. by eapply held_addr_live. Qed.

Lemma allocate_step g held l :
  global_inv g held → layout_ok l →
  on_heap (allocate l) g = Ok (0, g) ∨
  (∃ ptr g', on_heap (allocate l) g = Ok (ptr, g') ∧ ptr ≠ 0 ∧ global_inv g' ((ptr, l) :: held) ∧ gkept held g g').
Proof.
  intros (pages & large & fl & Hi & Ho & Hlg & Hs) Hl. unfold on_heap.
  destruct (allocate_spec (heap g) pages large fl l Hi Hl)
    as [->|(ptr & s' & pages' & fl' & -> & H0 & Hsv & Hi' & Ho' & Hk)]; [left; by destruct g|right].
  exists ptr. eexists. split_and!; [done|done| |].
  - eexists pages', _, fl'. split_and!; [exact Hi'| | |by constructor].
    + rewrite Ho', Ho. cbn [mbind list_bind PER_CPU_CACHE]. by rewrite app_assoc.
    + cbn [mbind list_bind]. by rewrite Hlg.
  - eapply gkept_held; [..|exact Hk]; [| |done].
    + intros b Hb. rewrite Ho. apply elem_of_app. by left.
    + intros b Hb. by rewrite Hlg.
Qed.

Lemma free_step g held ptr l :
  global_inv g ((ptr, l) :: held) →
  ∃ g', on_heap (free ptr l) g = Ok (tt, g') ∧ global_inv g' held ∧ gkept held g g'.
Proof.
  intros (pages & large & fl & Hi & Ho & Hlg & [[Hsv H0] Hs]%Forall_cons). cbn [fst snd mbind list_bind] in *.
  apply (heap_inv_large _ _ _ _ _ Hlg) in Hi.
  destruct (free_spec (heap g) pages _ fl ptr l Hi Hsv) as (s' & pages' & fl' & Hrun & Hi' & Ho' & Hk); [|done|].
  { intros c Hc. rewrite Ho, Hc. by left. }
  exists (mkGlobal s' (PER_CPU_CACHE g)). unfold on_heap. rewrite Hrun.
  rewrite Ho', <-app_assoc in Ho. apply Permutation_app_inv_l in Ho.
  split_and!; [done| |].
  - eexists pages', _, fl'. by split_and!.
  - eapply gkept_held; [..|exact Hk]; [|done|done]. intros b Hb. rewrite Ho. apply elem_of_app. by left.
Qed.

(** ** What the holder of an allocation may rely on *)

Definition alloc_range (a : Z * Layout) : Z * Z := (a.1, lsize a.2).

(** Not null, aligned as asked, and inside the memory given to the heap. *)
Definition allocation_ok (a : Z * Layout) : Prop :=
  a.1 ≠ 0 ∧ (lalign a.2 | a.1) ∧ a.1 + lsize a.2 ≤ usize_max ∧
  ∀ b, a.1 ≤ b < a.1 + lsize a.2 → P (b - h).

Lemma pow2_divide a b : is_power_of_two a = true → is_power_of_two b = true → a ≤ b → (a | b).
Proof.
  intros (j & Hj & ->)%is_power_of_two_inv (k & Hk & ->)%is_power_of_two_inv Hle.
  assert (j ≤ k) by (apply (Z.pow_le_mono_r_iff 2); lia). exists (2 ^ (k - j)). rewrite <-Z.pow_add_r by lia. f_equal. lia.
Qed.

Lemma allocation_guarantee s pages large fl ptr l :
  hinv s pages large fl → servable l → ptr ≠ 0 →
  (∀ c, as_object (ptr, l) = Some c → c ∈ outstanding pages) →
  (∀ b, as_block (ptr, l) = Some b → b ∈ large) → allocation_ok (ptr, l).
Proof.
  intros Hi [Hl Hsv] H0 Ho Hb. pose proof (hi_world _ _ _ _ _ _ Hi) as Hw.
  unfold as_object, as_block in *. cbn [fst snd] in *. pose proof Hl as (Hsz & Hal & _).
  assert (∀ o b, (o, b) ∈ page_blocks pages ++ large → b ≤ ptr - h → ptr + lsize l - h ≤ b + block_size_bytes o →
    ptr + lsize l ≤ usize_max ∧ ∀ a, ptr ≤ a < ptr + lsize l → P (a - h)) as Hblk.
  { intros o b Hin ??. destruct (w_good _ _ _ _ _ _ Hw o b Hin) as [(_ & _ & _ & ? & _) _]. split; [lia|].
    intros a Ha. apply (w_sound _ _ _ _ _ _ Hw). right. exists o, b. split; [done|]. unfold in_block. lia. }
  destruct (class_index_for_layout l) as [c|] eqn:Ec.
  - destruct (class_index_spec l c Ec) as (Hc & ? & ?). destruct (class_facts c Hc) as (_ & Hpow & _).
    specialize (Ho _ eq_refl). apply list_elem_of_bind in Ho as (p & (x & [= -> ->] & Hx)%list_elem_of_fmap & Hp).
    destruct (slot_place (pvirt p) (pg_class p) x) as (_ & ? & ? & ? & Hd & _);
      [done|by apply (page_addr_ok Hi)|by apply (free_slot Hi); auto|].
    destruct (Hblk O (pg_phys p)) as [? ?]; [by apply page_live|unfold pvirt in *; lia|..].
    { change (block_size_bytes 0) with PAGE_SIZE. unfold pvirt in *. lia. }
    split_and!; try done. etrans; [|exact Hd]. apply pow2_divide; [done| |done].
    rewrite Hpow. apply is_power_of_two_pow. lia.
  - destruct (Hsv eq_refl) as [Ha Hne]. destruct (order_of l) as [o|] eqn:Eo; [|done].
    destruct (order_of_spec l Hl) as [_ Hs2].
    destruct (Hs2 o Eo) as [_ ?]. specialize (Hb _ eq_refl).
    assert ((o, ptr - h) ∈ page_blocks pages ++ large) as Hin by (apply elem_of_app; by right).
    destruct (Hblk o (ptr - h) Hin) as [? ?]; [lia..|]. split_and!; try done.
    destruct (w_good _ _ _ _ _ _ Hw _ _ Hin) as [(_ & _ & Hd & _) _].
    assert (PAGE_SIZE | ptr) as Hpp.
    { replace ptr with (ptr - h + h) by lia. apply Z.divide_add_r; [|done]. etrans; [|exact Hd].
      rewrite block_size_eq. apply Z.divide_factor_l. }
    etrans; [|exact Hpp]. by apply pow2_divide.
Qed.

(** The full ranges behind the allocations. *)
Lemma held_ranges_sub held :
  Forall (λ a : Z * Layout, servable a.2 ∧ a.1 ≠ 0) held →
  pairwise disj ((object_range <$> (a ← held; option_list (as_object a))) ++
                 (block_range <$> (a ← held; option_list (as_block a)))) →
  pairwise (λ a b, disj (alloc_range a) (alloc_range b)) held.
Proof.
  set (R := λ a, (object_range <$> option_list (as_object a)) ++ (block_range <$> option_list (as_block a))).
  intros Hs Hp.
  assert (∀ a : Z * Layout, servable a.2 → ∃ n, R a = [(a.1, n)] ∧ lsize a.2 ≤ n) as HR.
  { intros [ptr l] [Hl Hsv]. subst R. unfold as_object, as_block. cbn [fst snd] in *.
    destruct (class_index_for_layout l) as [c|] eqn:Ec.
    - destruct (class_index_spec l c Ec) as (_ & ? & _). by exists (object_size c).
    - destruct (Hsv eq_refl) as [_ Hne]. destruct (order_of l) as [o|] eqn:Eo; [|done].
      destruct (order_of_spec l Hl) as [_ H2]. destruct (H2 o Eo). exists (block_size_bytes o). split; [|done].
      unfold block_range. simpl. by replace (ptr - h + h) with ptr by lia. }
  assert (pairwise disj (a ← held; R a)) as Hp'.
  { eapply pairwise_perm; [apply disj_sym| |exact Hp]. clear Hp Hs HR. subst R.
    induction held as [|a held IH]; [done|]. cbn [mbind list_bind]. rewrite !fmap_app, <-IH.
    rewrite <-!app_assoc. f_equiv. rewrite !app_assoc. f_equiv. apply Permutation_app_comm. }
  clear Hp. induction held as [|a held IH]; [done|]. apply Forall_cons in Hs as [[Hsa _] Hs].
  cbn [mbind list_bind] in Hp'. destruct (HR a Hsa) as (n & En & Hn). rewrite En in Hp'. cbn [app pairwise] in Hp'. destruct Hp' as [Ha Hp'].
  split; [|by apply IH]. pose proof (proj1 (Forall_forall _ _) Ha) as Ha'. rewrite Forall_forall in Hs. apply Forall_forall. intros b Hb. destruct (Hs b Hb) as [Hsb _].
  destruct (HR b Hsb) as (m & Em & Hm). destruct (Ha' (b.1, m)) as [Hd|Hd].
  - apply list_elem_of_bind. exists b. rewrite Em. split; [by left|done].
  - left. simpl in *. lia.
  - right. simpl in *. lia.
Qed.

Lemma global_guarantee g held :
  global_inv g held →
  Forall allocation_ok held ∧ pairwise (λ a b, disj (alloc_range a) (alloc_range b)) held.
Proof.
  intros (pages & large & fl & Hi & Ho & Hl & Hs). split.
  - apply Forall_forall. intros [ptr l] Hin. rewrite Forall_forall in Hs. destruct (Hs _ Hin) as [Hsv H0].
    eapply allocation_guarantee; [done..| |].
    + intros c Hc. rewrite Ho. apply elem_of_app. left. apply list_elem_of_bind. exists (ptr, l).
      rewrite Hc. split; [by left|done].
    + intros b Hb. rewrite Hl. apply list_elem_of_bind. exists (ptr, l). rewrite Hb. split; [by left|done].
  - apply held_ranges_sub; [done|]. pose proof (ranges_disjoint _ _ _ _ Hi) as Hd.
    apply pairwise_app in Hd as (H1 & H2 & H3).
    assert (pairwise disj (object_range <$> (a ← held; option_list (as_object a)))) as H1'.
    { assert (pairwise disj (object_range <$> ((a ← held; option_list (as_object a)) ++ cached (PER_CPU_CACHE g)))) as H.
      { eapply pairwise_perm; [apply disj_sym| |exact H1]. by rewrite Ho. }
      rewrite fmap_app in H. by apply pairwise_app in H as [? _]. }
    apply pairwise_app. split_and!; [done| |].
    + eapply pairwise_perm; [apply disj_sym| |exact H2]. by rewrite Hl.
    + intros x y (a & -> & Ha)%list_elem_of_fmap (b & -> & Hb)%list_elem_of_fmap. apply H3; apply list_elem_of_fmap.
      * exists a. split; [done|]. rewrite Ho. apply elem_of_app. by left.
      * exists b. split; [done|]. by rewrite Hl.
Qed.

(** ** Clients *)

(** A write to live memory keeps the heap consistent, as long as the first
    words of a page of a large block do not look like a free block. *)
Lemma write_hinv s pages large fl a v s' :
  hinv s pages large fl → live_addr pages large a → store64 a v s = Ok (tt, s') →
  24 ≤ a mod PAGE_SIZE ∨ magic (node_at (mem (buddy s')) (a / PAGE_SIZE * PAGE_SIZE)) ≠ BUDDY_FREE_MAGIC →
  hinv s' pages large fl.
Proof.
  intros Hi Ha Hst Hm. set (page := a / PAGE_SIZE * PAGE_SIZE) in *.
  assert (∀ n, a mod PAGE_SIZE < 24 → magic n ≠ BUDDY_FREE_MAGIC →
    hinv (set_buddy (set_mem (<[page := n]>) (buddy s)) s) pages large fl) as Hnode.
  { intros n Hlow Hn. destruct (live_addr_block _ _ _ _ _ Hi Ha) as (o & b & Hb & _ & Hin). fold page in Hin.
    eapply heap_inv_buddy; [done|by eapply world_write; [apply Hi|..]|]. intros q Hq. simpl.
    rewrite node_at_insert, decide_False; [done|]. intros E.
    pose proof (live_addr_header _ _ _ _ _ _ _ _ Hi Hq Ha E). unfold Header.size in *. lia. }
  revert Hst Hm. unfold store64. fold page. unfold on_buddy, upd_node, mmodify.
  pose proof (Z.mod_pos_bound a PAGE_SIZE).
  repeat (zcase; [intros [= <-] [?|Hm]; [lia|]; apply Hnode; [lia|];
    simpl in Hm; by rewrite node_at_insert, decide_True in Hm|]).
  intros [= <-] _. destruct Hi as [? ? Hpg ? Hpt Hfu ?] eqn:E. clear E. 
  assert (∀ q, q ∈ pages → pvirt q + Header.next_offset ≠ a) as Hnx.
  { intros q Hq <-. by apply (next_not_live _ _ _ _ _ _ q Hi). }
  assert (∀ heads c (Q : SlabPage → Prop) (HQ : ∀ p, Decision (Q p)) l,
    listed heads (words s) c Q pages l → listed heads (<[a := v]> (words s)) c Q pages l) as Hls.
  { intros heads c Q HQ l Hl. eapply listed_frame; [done|done| |done]. intros x. rewrite (proj2 (proj2 Hl)).
    intros (q & -> & [_ Hq]%list_elem_of_filter)%list_elem_of_fmap. apply lookup_insert_ne. intros E. by apply (Hnx q). }
  split; try done.
  - intros p Hp. eapply page_ok_frame; [done| |by apply Hpg]. intros x Hx. unfold word_at. simpl.
    rewrite lookup_insert_ne; [done|]. intros <-. by apply (free_not_live _ _ _ _ _ _ p _ Hi Hp Hx).
  - intros c Hc. destruct (Hpt c Hc) as [l Hl]. exists l. by apply Hls.
  - intros c Hc. destruct (Hfu c Hc) as [l Hl]. exists l. by apply Hls.
Qed.

(** The kernel's use of the allocator, one atomic step at a time: [live] are
    the allocations in use, [back] those a [dealloc] has not given to the heap
    yet.  Any number of threads interleave these steps. *)
Inductive gstep : Global * list (Z * Layout) * list (Z * Layout) →
    Global * list (Z * Layout) * list (Z * Layout) → Prop :=
| g_take g live back cpu c l ptr g' :
    layout_ok l → class_index_for_layout l = Some c →
    try_take_from_cpu_cache (Some cpu) c g = Ok (ptr, g') →
    gstep (g, live, back) (g', if ptr =? 0 then live else (ptr, l) :: live, back)
| g_allocate g live back l ptr g' :
    layout_ok l → on_heap (allocate l) g = Ok (ptr, g') →
    gstep (g, live, back) (g', if ptr =? 0 then live else (ptr, l) :: live, back)
| g_put g l1 ptr l l2 back cpu c replaced g' :
    class_index_for_layout l = Some c →
    try_put_into_cpu_cache (Some cpu) c ptr g = Ok (Some replaced, g') →
    gstep (g, l1 ++ (ptr, l) :: l2, back)
      (g', l1 ++ l2, if replaced =? 0 then back else (replaced, l) :: back)
| g_give g l1 ptr l l2 back :
    gstep (g, l1 ++ (ptr, l) :: l2, back) (g, l1 ++ l2, (ptr, l) :: back)
| g_free g live l1 ptr l l2 g' :
    on_heap (free ptr l) g = Ok (tt, g') →
    gstep (g, live, l1 ++ (ptr, l) :: l2) (g', live, l1 ++ l2)
| g_resize g l1 ptr l l' l2 back c :
    layout_ok l' → class_index_for_layout l = Some c → class_index_for_layout l' = Some c →
    gstep (g, l1 ++ (ptr, l) :: l2, back) (g, l1 ++ (ptr, l') :: l2, back)
| g_write g live back a v g' :
    held_addr live a → on_heap (store64 a v) g = Ok (tt, g') →
    24 ≤ a mod PAGE_SIZE ∨
      magic (node_at (mem (buddy (heap g'))) (a / PAGE_SIZE * PAGE_SIZE)) ≠ BUDDY_FREE_MAGIC →
    gstep (g, live, back) (g', live, back).

Lemma on_heap_inv {A} (m : HOp A) g a g' :
  on_heap m g = Ok (a, g') → m (heap g) = Ok (a, heap g') ∧ PER_CPU_CACHE g' = PER_CPU_CACHE g.
Proof. unfold on_heap. destruct (m (heap g)) as [[? ?]|[? ?]|]; [intros [= -> <-]; done|done|done]. Qed.

Lemma write_step g held a v g' :
  global_inv g held → held_addr held a → on_heap (store64 a v) g = Ok (tt, g') →
  24 ≤ a mod PAGE_SIZE ∨
    magic (node_at (mem (buddy (heap g'))) (a / PAGE_SIZE * PAGE_SIZE)) ≠ BUDDY_FREE_MAGIC →
  global_inv g' held.
Proof.
  intros (pages & large & fl & Hi & Ho & Hl & Hs) Ha [Hst Hc]%on_heap_inv Hm. exists pages, large, fl.
  rewrite Hc. split_and!; try done. eapply write_hinv; [done| |done..].
  eapply (held_addr_live pages large held); [| |done..].
  - intros b Hb. rewrite Ho. apply elem_of_app. by left.
  - intros b Hb. by rewrite Hl.
Qed.

Lemma resize_step g held ptr l l' c :
  global_inv g ((ptr, l) :: held) → layout_ok l' →
  class_index_for_layout l = Some c → class_index_for_layout l' = Some c →
  global_inv g ((ptr, l') :: held).
Proof.
  intros (pages & large & fl & Hi & Ho & Hl & [[_ H0] Hs]%Forall_cons) Hok Hc Hc'. exists pages, large, fl.
  destruct (as_object_class ptr l c Hc) as [Ea Eb]. destruct (as_object_class ptr l' c Hc') as [Ea' Eb'].
  cbn [mbind list_bind] in *. rewrite Ea', Eb'. rewrite Ea in Ho. rewrite Eb in Hl. split_and!; try done.
  constructor; [|done]. split; [by eapply layout_class_servable|done].
Qed.

Lemma gstep_inv g live back g' live' back' :
  gstep (g, live, back) (g', live', back') → global_inv g (live ++ back) → global_inv g' (live' ++ back').
Proof.
  intros Hst Hg. inversion Hst as [? ? ? cpu c l ptr ? Hl Hc Hrun|? ? ? l ptr ? Hl Hrun|? l1 ptr l l2 ? cpu c rp ? Hc Hrun|
    ? l1 ptr l l2 ?|? ? l1 ptr l l2 ? Hrun|? l1 ptr l l' l2 ? c Hl Hc Hc'|? ? ? a v ? Ha Hrun Hm]; subst; clear Hst.
  - injection Hrun as <- <-. pose proof (take_step g _ cpu c l Hg Hl Hc) as Hi. simpl in Hi. by destruct (_ =? 0).
  - destruct (allocate_step g _ l Hg Hl) as [E|(p & g1 & E & H0 & Hi & _)]; rewrite Hrun in E; simplify_eq; [done|].
    by destruct (Z.eqb_spec p 0).
  - apply (global_inv_perm _ _ ((ptr, l) :: l1 ++ l2 ++ back)) in Hg; [|rewrite <-app_assoc; cbn [app]; by rewrite <-Permutation_middle].
    injection Hrun as <- <-. pose proof (cache_put_step g _ cpu c ptr l Hg Hc) as Hi. simpl in Hi. rewrite app_assoc in Hi.
    destruct (_ =? 0); [done|]. eapply global_inv_perm; [|exact Hi]. by rewrite <-Permutation_middle.
  - eapply global_inv_perm; [|exact Hg]. rewrite <-app_assoc. cbn [app]. by rewrite <-!Permutation_middle, app_assoc.
  - apply (global_inv_perm _ _ ((ptr, l) :: live' ++ l1 ++ l2)) in Hg; [|by rewrite app_assoc, <-Permutation_middle, <-app_assoc].
    destruct (free_step g _ ptr l Hg) as (g1 & E & Hi & _). rewrite Hrun in E. by injection E as <-.
  - apply (global_inv_perm _ _ ((ptr, l) :: l1 ++ l2 ++ back')) in Hg; [|rewrite <-app_assoc; cbn [app]; by rewrite <-Permutation_middle].
    eapply global_inv_perm; [|by eapply resize_step]. rewrite <-app_assoc. cbn [app]. by rewrite <-Permutation_middle.
  - eapply write_step; [done| |done|done]. destruct Ha as (p & l & Hin & ?). exists p, l. split; [|done].
    apply elem_of_app. by left.
Qed.

(** ** [alloc] and [dealloc] *)

Lemma normalize_layout_ok layout l :
  @normalize_layout Empty_set layout = Ok l → layout_ok l ∧ lsize l = Z.max (lsize layout) 1 ∧ lalign l = lalign layout.
Proof.
  unfold normalize_layout, from_size_align. destruct (_ && _) eqn:E; [|done]. intros [= <-].
  apply andb_true_iff in E as [? ?%Z.leb_le]. unfold layout_ok. simpl. split_and!; [lia|done..].
Qed.

Lemma alloc_spec g live cpu layout l :
  global_inv g live → @normalize_layout Empty_set layout = Ok l →
  (∃ g', alloc cpu layout g = Ok (0, g') ∧ global_inv g' live ∧ heap g' = heap g) ∨
  (∃ ptr g', alloc cpu layout g = Ok (ptr, g') ∧ ptr ≠ 0 ∧ global_inv g' ((ptr, l) :: live) ∧ gkept live g g').
Proof.
  intros Hg Hn. destruct (normalize_layout_ok _ _ Hn) as [Hl _]. unfold alloc.
  rewrite (mbind_ok _ _ _ _ _ (mlift_ok _ _ g Hn)).
  assert (∀ g1, global_inv g1 live → heap g1 = heap g →
    (∃ g', on_heap (allocate l) g1 = Ok (0, g') ∧ global_inv g' live ∧ heap g' = heap g) ∨
    (∃ ptr g', on_heap (allocate l) g1 = Ok (ptr, g') ∧ ptr ≠ 0 ∧ global_inv g' ((ptr, l) :: live) ∧ gkept live g g')) as Hheap.
  { intros g1 Hg1 E. destruct (allocate_step g1 live l Hg1 Hl) as [?|(ptr & g' & ? & ? & ? & Hk)]; [left; by exists g1|right].
    exists ptr, g'. split_and!; try done. intros a Ha. rewrite <-E. by apply Hk. }
  destruct (class_index_for_layout l) as [c|] eqn:Ec; [|rewrite (mbind_ok _ _ _ 0 g) by done; by apply Hheap].
  destruct cpu as [cpu|]; [|rewrite (mbind_ok _ _ _ 0 g) by done; by apply Hheap].
  cbn [try_take_from_cpu_cache]. rewrite (mbind_ok _ _ _ _ _ (eq_refl : cache_swap cpu c 0 g = Ok (_, _))).
  pose proof (take_step g live cpu c l Hg Hl Ec) as Ht. cbv zeta in Ht.
  destruct (Z.eqb_spec (cache_at (PER_CPU_CACHE g) cpu c) 0) as [E|Hne]; cbn [negb].
  - by apply Hheap.
  - right. eexists _, _. split_and!; [done|done|done|]. by intros a Ha.
Qed.

Lemma dealloc_spec g live cpu ptr layout l :
  global_inv g ((ptr, l) :: live) → @normalize_layout Empty_set layout = Ok l →
  ∃ g', dealloc cpu ptr layout g = Ok (tt, g') ∧ global_inv g' live ∧ gkept live g g'.
Proof.
  intros Hg Hn. unfold dealloc. rewrite (mbind_ok _ _ _ _ _ (mlift_ok _ _ g Hn)).
  destruct (class_index_for_layout l) as [c|] eqn:Ec; [|rewrite (mbind_ok _ _ _ None g) by done; by apply free_step].
  destruct cpu as [cpu|]; [|rewrite (mbind_ok _ _ _ None g) by done; by apply free_step].
  unfold try_put_into_cpu_cache. pose proof (cache_put_step g live cpu c ptr l Hg Ec) as Hp. cbv zeta in Hp.
  set (r := cache_at (PER_CPU_CACHE g) cpu c) in *. set (g1 := mkGlobal _ _) in Hp.
  rewrite (mbind_ok _ _ _ (Some r) g1) by done.
  destruct (Z.eqb_spec r 0); [by exists g1|].
  destruct (free_step g1 live r l Hp) as (g' & ? & ? & ?). by exists g'.
Qed.

End ops.
End heap.

(** ** Setting up *)

Lemma heap_new_inv P b fl :
  world_inv 0 (small_regions b) P b [] fl → (∀ a, P a → 0 < a) →
  heap_inv 0 (small_regions b) P (set_buddy b heap_new) [] [] fl.
Proof.
  intros Hw Hp. split; try done.
  - by intros p ?%not_elem_of_nil.
  - intros c Hc. exists []. split_and!; [|done|done]. by apply (lookup_replicate_2 NUM_CLASSES 0 c).
  - intros c Hc. exists []. split_and!; [|done|done]. by apply (lookup_replicate_2 NUM_CLASSES 0 c).
  - intros a Ha. rewrite Z.add_0_r. by apply Hp.
Qed.

Definition global_new : Global := mkGlobal heap_new ∅.

(** The whole pages inside [offset, offset + len). *)
Definition usable (offset len a : Z) : Prop :=
  (offset + 4095) / PAGE_SIZE * PAGE_SIZE ≤ a < (offset + len) / PAGE_SIZE * PAGE_SIZE.

Lemma init_from_block_buddy offset len :
  0 < offset → 0 ≤ len → offset + len + PAGE_SIZE ≤ usize_max →
  ∃ b fl, init_from_block offset len heap_new = Ok (tt, set_buddy b heap_new) ∧ buddy_inv 0 b fl ∧
    (∀ a, is_free fl a ↔ usable offset len a).
Proof.
  intros Ho Hl Hb. unfold PAGE_SIZE in Hb. unfold init_from_block.
  set (start := (offset + 4095) / PAGE_SIZE * PAGE_SIZE). set (endp := (offset + len) / PAGE_SIZE * PAGE_SIZE).
  assert (@align_up Empty_set offset PAGE_SIZE = Ok start) as Hs by (apply (align_up_pow offset 12); lia).
  rewrite (mbind_ok _ _ _ _ _ (mlift_ok _ _ _ Hs)).
  rewrite (mbind_ok _ _ _ _ _ (mlift_ok _ _ _ (uadd_ok offset len ltac:(lia)))).
  rewrite (mbind_ok _ _ _ _ _ (mlift_ok _ _ _ (align_down_page (offset + len)))). fold endp.
  assert (∀ a, is_free (replicate (S MAX_ORDER) []) a → False) as Hnone.
  { intros a (o & x & (l & [-> _]%lookup_replicate & ?%not_elem_of_nil) & _). done. }
  assert (0 ≤ start ∧ endp ≤ offset + len) as [? ?].
  { subst start endp. unfold PAGE_SIZE. split; [apply Z.mul_nonneg_nonneg; [apply Z.div_pos; lia|lia]|].
    rewrite Z.mul_comm. apply Z.mul_div_le. lia. }
  assert ((endp - start) / PAGE_SIZE * PAGE_SIZE = endp - start) as Hpc.
  { subst start endp. rewrite <-Z.mul_sub_distr_r, Z.div_mul by done. done. }
  destruct (Z.leb_spec endp start).
  { exists Buddy.new, (replicate (S MAX_ORDER) []). split_and!; [done|apply new_buddy_inv|].
    intros a. unfold usable. fold start endp. split; [by intros ?%Hnone|lia]. }
  cbv zeta. destruct (Z.eqb_spec ((endp - start) / PAGE_SIZE) 0) as [E|_]; [rewrite E in Hpc; lia|].
  destruct (add_range_spec 0 (reflexivity 0) Buddy.new (replicate (S MAX_ORDER) []) start ((endp - start) / PAGE_SIZE))
    as (b & fl & Hrun & Hi & _ & Hf & _).
  - apply new_buddy_inv.
  - by vm_compute.
  - done.
  - done.
  - apply aligned_mul.
  - apply Z.div_pos; [lia|done].
  - rewrite Hpc. lia.
  - by intros a _ ?%Hnone.
  - exists b, fl. split_and!; [unfold on_buddy; simpl; by rewrite Hrun|done|].
    intros a. rewrite (Hf a). unfold in_range, usable. fold start endp. rewrite Hpc. split; [intros [?%Hnone|?]; [done|lia]|].
    intros ?. right. lia.
Qed.

Lemma init_malloc_spec offset len :
  0 < offset → 0 ≤ len → offset + len + PAGE_SIZE ≤ usize_max →
  ∃ g, init_malloc offset len global_new = Ok (tt, g) ∧
    global_inv (exact := small_regions (buddy (heap g))) (P := usable offset len) 0 g [].
Proof.
  intros Ho Hl Hb. destruct (init_from_block_buddy offset len Ho Hl Hb) as (b & fl & Hrun & Hi & Hf).
  exists (mkGlobal (set_buddy b heap_new) ∅). split; [unfold init_malloc, on_heap; simpl; by rewrite Hrun|].
  exists [], [], fl. split_and!; [|done|done|done]. apply heap_new_inv.
  - destruct (world_init 0 b fl Hi) as [? ? ? ? Hsnd Hcmp]. split; try done.
    + intros a Ha. by apply Hf, Hsnd.
    + intros He a Ha. apply Hcmp; [done|]. by apply Hf.
  - intros a [Ha _]. assert (PAGE_SIZE ≤ (offset + 4095) / PAGE_SIZE * PAGE_SIZE); [|unfold PAGE_SIZE in *; lia].
    assert (1 ≤ (offset + 4095) / PAGE_SIZE) by (apply Z.div_le_lower_bound; unfold PAGE_SIZE; lia). unfold PAGE_SIZE in *. lia.
Qed.

Lemma gstep_rtc_inv {exact P} h w w' :
  0 ≤ h → (PAGE_SIZE | h) → rtc gstep w w' →
  global_inv (exact := exact) (P := P) h w.1.1 (w.1.2 ++ w.2) →
  global_inv (exact := exact) (P := P) h w'.1.1 (w'.1.2 ++ w'.2).
Proof.
  intros Hh Hp. induction 1 as [|[[g live] back] [[g1 live1] back1] ? Hs _ IH]; [done|].
  intros Hg. apply IH. by eapply gstep_inv.
Qed.

(** C2: Whatever the threads of the kernel do with the heap (allocate, release,
    take from and put into the per-core caches, in any interleaving of the
    atomic steps, and write to the memory they hold), allocations in use are
    never null, aligned as asked, inside the memory given to [init_malloc] and
    disjoint from each other, and the next call to the heap succeeds or returns
    null without a panic.  A write may not put the mark of a free block at the
    start of a page the thread holds: the allocator would take the page for a
    free one (see [forged_node_double_allocation] in Buddy.v). *)
Theorem heap_reachable offset len g0 g live back :
  0 < offset → 0 ≤ len → offset + len + PAGE_SIZE ≤ usize_max →
  init_malloc offset len global_new = Ok (tt, g0) → rtc gstep (g0, [], []) (g, live, back) →
  Forall (allocation_ok (P := usable offset len) 0) live ∧
  pairwise (λ a b, disj (alloc_range a) (alloc_range b)) (live ++ back) ∧
  (∀ l, layout_ok l → ∃ ptr g', on_heap (allocate l) g = Ok (ptr, g')) ∧
  (∀ ptr l, (ptr, l) ∈ back → ∃ g', on_heap (free ptr l) g = Ok (tt, g')).
Proof.
  intros Ho Hl Hb Hinit Hsteps. destruct (init_malloc_spec offset len Ho Hl Hb) as (g1 & Hinit' & Hg0).
  rewrite Hinit in Hinit'. injection Hinit' as <-.
  pose proof (gstep_rtc_inv 0 _ _ (reflexivity 0) (Z.divide_0_r _) Hsteps Hg0) as Hg. simpl in Hg.
  destruct (global_guarantee 0 (Z.divide_0_r _) g _ Hg) as [Hok Hd].
  apply Forall_app in Hok as [Hok _]. split_and!; [done..| |].
  - intros l Hlo. destruct (allocate_step 0 (reflexivity 0) (Z.divide_0_r _) g _ l Hg Hlo) as [?|(p & g' & ? & _)]; eauto.
  - intros ptr l Hin. apply elem_of_Permutation in Hin as [back' Hp].
    apply (global_inv_perm 0 _ _ ((ptr, l) :: live ++ back')) in Hg; [|by rewrite Hp, <-Permutation_middle].
    destruct (free_step 0 (reflexivity 0) (Z.divide_0_r _) g _ ptr l Hg) as (g' & ? & _). eauto.
Qed.

(** C13: [alloc] returns null and leaves the heap as it is, or hands out memory
    that is aligned, big enough and disjoint from every allocation in use; it
    does not change a byte of those. *)
Theorem alloc_correct h exact P g live cpu layout l :
  0 ≤ h → (PAGE_SIZE | h) → global_inv (exact := exact) (P := P) h g live →
  @normalize_layout Empty_set layout = Ok l →
  (∃ g', alloc cpu layout g = Ok (0, g') ∧ global_inv (exact := exact) (P := P) h g' live ∧ heap g' = heap g) ∨
  (∃ ptr g', alloc cpu layout g = Ok (ptr, g') ∧
    global_inv (exact := exact) (P := P) h g' ((ptr, l) :: live) ∧
    allocation_ok (P := P) h (ptr, l) ∧
    Forall (λ a, disj (alloc_range (ptr, l)) (alloc_range a)) live ∧
    ∀ a, held_addr live a → peek (heap g') a = peek (heap g) a).
Proof.
  intros Hh Hp Hg Hn. destruct (alloc_spec h Hh Hp g live cpu layout l Hg Hn) as [?|(ptr & g' & ? & _ & Hg' & Hk)]; [by left|right].
  destruct (global_guarantee h Hp g' _ Hg') as [[Hok _]%Forall_cons [Hd _]]. by exists ptr, g'; split_and!.
Qed.

(** [dealloc] of an allocation in use always succeeds, and leaves the other
    allocations and their contents alone. *)
Lemma dealloc_correct h exact P g live cpu ptr layout l :
  0 ≤ h → (PAGE_SIZE | h) → global_inv (exact := exact) (P := P) h g ((ptr, l) :: live) →
  @normalize_layout Empty_set layout = Ok l →
  ∃ g', dealloc cpu ptr layout g = Ok (tt, g') ∧ global_inv (exact := exact) (P := P) h g' live ∧
    ∀ a, held_addr live a → peek (heap g') a = peek (heap g) a.
Proof. intros Hh Hp. exact (dealloc_spec h Hh Hp g live cpu ptr layout l). Qed.

(** Four pages at 0x1000. *)
Definition gexec {A} (m : GOp A) (g : Global) : Global := match m g with Ok (_, g') => g' | _ => g end.
Definition demo_heap : Global := gexec (init_malloc 0x1000 0x4000) global_new.
Definition demo_layout : Layout := mkLayout 100 8.

Lemma demo_heap_inv :
  global_inv (exact := small_regions (buddy (heap demo_heap))) (P := usable 0x1000 0x4000) 0 demo_heap [].
Proof.
  destruct (init_malloc_spec 0x1000 0x4000) as (g & Hrun & Hg); [done..|].
  unfold demo_heap, gexec. by rewrite Hrun.
Qed.

(** An object is allocated, written, put into a cache and taken out again. *)
Lemma heap_reachable_witness :
  ∃ g, rtc gstep (demo_heap, [], []) (g, [(0x4080, demo_layout)], []) ∧
    Forall (allocation_ok (P := usable 0x1000 0x4000) 0) [(0x4080, demo_layout)].
Proof.
  set (g1 := gexec (on_heap (allocate demo_layout)) demo_heap).
  set (g2 := gexec (on_heap (store64 0x4088 7)) g1).
  set (g3 := gexec (try_put_into_cpu_cache (Some 2) 3 0x4080) g2).
  set (g4 := gexec (try_take_from_cpu_cache (Some 2) 3) g3).
  assert (layout_ok demo_layout) as Hl by (split_and!; vm_compute; done).
  assert (rtc gstep (demo_heap, [], []) (g4, [(0x4080, demo_layout)], [])) as Hs.
  { eapply rtc_l; [apply (g_allocate demo_heap [] [] demo_layout 0x4080 g1 Hl); vm_compute; reflexivity|].
    eapply rtc_l; [apply (g_write g1 [(0x4080, demo_layout)] [] 0x4088 7 g2)|].
    { exists 0x4080, demo_layout. split; [left|vm_compute; done]. }
    { vm_compute. reflexivity. }
    { left. vm_compute. discriminate. }
    eapply rtc_l; [apply (g_put g2 [] 0x4080 demo_layout [] [] 2 3 0 g3); vm_compute; reflexivity|].
    eapply rtc_l; [apply (g_take g3 [] [] 2 3 demo_layout 0x4080 g4 Hl); vm_compute; reflexivity|].
    apply rtc_refl. }
  exists g4. split; [exact Hs|].
  apply (heap_reachable 0x1000 0x4000 demo_heap g4 [(0x4080, demo_layout)] []);
    [done|done|vm_compute; discriminate|vm_compute; reflexivity|exact Hs].
Defined.

Lemma alloc_witness :
  ∃ g', alloc None demo_layout demo_heap = Ok (0x4080, g') ∧
    global_inv (exact := small_regions (buddy (heap demo_heap))) (P := usable 0x1000 0x4000) 0 g' [(0x4080, demo_layout)].
Proof.
  destruct (alloc_correct 0 _ _ demo_heap [] None demo_layout demo_layout (reflexivity 0) (Z.divide_0_r _) demo_heap_inv)
    as [(g' & E & _)|(ptr & g' & E & Hg & _)]; [vm_compute; reflexivity|vm_compute in E; discriminate|].
  assert (ptr = 0x4080) as -> by (vm_compute in E; congruence). exists g'. split; [exact E|exact Hg].
Defined.

(** The page goes back to the buddy allocator and the four pages are one block again. *)
Lemma dealloc_witness :
  ∃ g g', alloc None demo_layout demo_heap = Ok (0x4080, g) ∧ dealloc None 0x4080 demo_layout g = Ok (tt, g') ∧
    global_inv (exact := small_regions (buddy (heap demo_heap))) (P := usable 0x1000 0x4000) 0 g' [] ∧
    free_heads (buddy (heap g')) = free_heads (buddy (heap demo_heap)).
Proof.
  destruct (alloc_spec 0 (reflexivity 0) (Z.divide_0_r _) demo_heap [] None demo_layout demo_layout demo_heap_inv)
    as [(g & E & _)|(ptr & g & E & _ & Hg & _)]; [vm_compute; reflexivity|vm_compute in E; discriminate|].
  assert (ptr = 0x4080) as -> by (vm_compute in E; congruence).
  destruct (dealloc_correct 0 _ _ g [] None 0x4080 demo_layout demo_layout (reflexivity 0) (Z.divide_0_r _) Hg)
    as (g' & E' & Hg' & _); [vm_compute; reflexivity|].
  exists g, g'. split; [exact E|]. split; [exact E'|]. split; [exact Hg'|].
  assert (g = gexec (alloc None demo_layout) demo_heap) as -> by (unfold gexec; rewrite E; reflexivity).
  assert (g' = gexec (dealloc None 0x4080 demo_layout) (gexec (alloc None demo_layout) demo_heap)) as ->
    by (unfold gexec at 1; rewrite E'; reflexivity).
  vm_compute. reflexivity.
Defined.
