(* ===== verification/PhysMem.v ===== *)
(** * The physical frame allocator (src/memory/physical_memory.rs)

    Frames come from a bump pointer ([END]) that walks the usable entries of
    the boot loader's memory map, and from a free list ([HEAD]) threaded
    through the first word of each freed frame.  The memory map itself is
    produced by the boot loader: it is an argument, and [map_ok] states what
    the Limine protocol promises of its usable entries (page aligned bases,
    no overlap). *)

From S2P Require Import Prelude.

Inductive EntryType : Type :=
| USABLE | RESERVED | ACPI_RECLAIMABLE | ACPI_NVS | BAD_MEMORY
| BOOTLOADER_RECLAIMABLE | EXECUTABLE_AND_MODULES | FRAMEBUFFER.

#[export] Instance EntryType_dec : EqDecision EntryType.
Proof. solve_decision. Defined.

Record Entry : Type := mkEntry { ebase : Z; elength : Z; entry_type : EntryType }.
Record FrameLocation : Type := mkLoc { region : nat; offset : Z }.

(** The statics of the file and the words of memory they point into, by
    virtual address; [None] is a [Once] that was not set. *)
Record PhysMem : Type := mkPhys {
  HEAD : Z;
  END : FrameLocation;
  REGIONS : option (list Entry);
  HHDM_OFFSET : option Z;
  words : gmap Z Z;
}.

Abbreviation Op A := (M PhysMem Empty_set A).

Definition set_HEAD (x : Z) : Op unit :=
  mmodify (λ s, mkPhys x (END s) (REGIONS s) (HHDM_OFFSET s) (words s)).
Definition set_END (x : FrameLocation) : Op unit :=
  mmodify (λ s, mkPhys (HEAD s) x (REGIONS s) (HHDM_OFFSET s) (words s)).
Definition set_word (v x : Z) : Op unit :=
  mmodify (λ s, mkPhys (HEAD s) (END s) (REGIONS s) (HHDM_OFFSET s) (<[v := x]> (words s))).
Definition word_at (m : gmap Z Z) (v : Z) : Z := default 0 (m !! v).

(** [(from..regions.len()).find(|&r| regions[r].entry_type == USABLE)] *)
Definition find_usable (from : nat) (regions : list Entry) : option nat :=
  List.find (λ r, match regions !! r with
                  | Some e => bool_decide (entry_type e = USABLE)
                  | None => false
                  end) (seq from (length regions - from)).

(** The statics before [init_physical_memory_allocator]. *)
Definition initial (m : gmap Z Z) : PhysMem := mkPhys usize_max (mkLoc 0 0) None None m.

(** [call_once] keeps the first value. *)
Definition init_physical_memory_allocator (hhdm : Z) (entries : list Entry) : Op unit := λ s,
  let off := default hhdm (HHDM_OFFSET s) in
  let regions := default entries (REGIONS s) in
  match find_usable 0 regions with
  | Some first_usable =>
      Ok (tt, mkPhys (HEAD s) (mkLoc first_usable 0) (Some regions) (Some off) (words s))
  | None => Panic
  end.

Definition the_regions : Op (list Entry) := λ s,
  match REGIONS s with Some r => Ok (r, s) | None => Panic end.
Definition the_hhdm : Op Z := λ s,
  match HHDM_OFFSET s with Some r => Ok (r, s) | None => Panic end.

(** [while end.offset + need > regions[end.region].length]: the first location
    from [e] on with room for [need] bytes.  [(false, e')] is the exit without
    room, with the last location tried.  Every turn moves to a later region, so
    the number of regions bounds the turns. *)
Fixpoint advance (fuel : nat) (regions : list Entry) (need : Z) (e : FrameLocation) :
    res Empty_set (bool * FrameLocation) :=
  match fuel with
  | O => Ok (false, e)
  | S fuel =>
      let? room := uadd (offset e) need in
      let? r := unwrap (regions !! region e) in
      if elength r <? room then
        match find_usable (S (region e)) regions with
        | Some r => advance fuel regions need (mkLoc r 0)
        | None => Ok (false, e)
        end
      else Ok (true, e)
  end.

(** One turn of [frame_alloc], up to its recursive call: [None] is that call. *)
Definition frame_alloc (u : unit) : Op (option Z) :=
  let! s := mget in
  if HEAD s =? usize_max then
    let! regions := the_regions in
    let! p := mlift (advance (S (length regions)) regions PAGE_SIZE (END s)) in
    let '(found, e) := p in
    let! _ := set_END e in
    if negb found then mret None
    else
      let! entry := mlift (unwrap (regions !! region e)) in
      let! frame := mlift (uadd (ebase entry) (offset e)) in
      let! off := mlift (uadd (offset e) PAGE_SIZE) in
      let! _ := set_END (mkLoc (region e) off) in
      mret (Some frame)
  else
    let first := HEAD s in
    if negb (is_multiple_of first PAGE_SIZE) then mpanic
    else
      let! h := the_hhdm in
      let! v := mlift (uadd h first) in
      let! s := mget in
      let! _ := set_HEAD (word_at (words s) v) in
      mret (Some first).

Definition alloc_frames (frames : Z) : Op Z :=
  let! _ := mlift (rassert (0 <? frames)) in
  let! s := mget in
  let! regions := the_regions in
  let! need := mlift (umul PAGE_SIZE frames) in
  let! p := mlift (advance (S (length regions)) regions need (END s)) in
  let '(found, e) := p in
  if negb found then mpanic
  else
    let! entry := mlift (unwrap (regions !! region e)) in
    let! frame := mlift (uadd (ebase entry) (offset e)) in
    let! off := mlift (uadd (offset e) need) in
    let! _ := set_END (mkLoc (region e) off) in
    mret frame.

Definition frame_dealloc (frame : Z) : Op unit :=
  let! _ := mlift (rassert (is_multiple_of frame PAGE_SIZE)) in
  let! s := mget in
  let! h := the_hhdm in
  let! v := mlift (uadd h frame) in
  let! _ := set_word v (HEAD s) in
  set_HEAD frame.

(** ** Locations *)

(** What the boot protocol promises of the memory map, and that the kernel can
    address it through the direct map at [h]. *)
Record map_ok (h : Z) (regions : list Entry) : Prop := {
  map_high : PAGE_SIZE ≤ h;
  map_usable i e : regions !! i = Some e → entry_type e = USABLE →
    0 ≤ ebase e ∧ 0 ≤ elength e ∧ aligned (ebase e) PAGE_SIZE ∧
    h + ebase e + elength e ≤ usize_max;
  map_disjoint i e j f : regions !! i = Some e → regions !! j = Some f → i ≠ j →
    entry_type e = USABLE → entry_type f = USABLE →
    ebase e + elength e ≤ ebase f ∨ ebase f + elength f ≤ ebase e;
}.

(** Address [a] is usable memory the bump pointer has already passed. *)
Definition issued (regions : list Entry) (l : FrameLocation) (a : Z) : Prop :=
  ∃ i e, regions !! i = Some e ∧ entry_type e = USABLE ∧ ebase e ≤ a < ebase e + elength e ∧
    ((i < region l)%nat ∨ i = region l ∧ a < ebase e + offset l).

(** [l] points into a usable region. *)
Definition loc_ok (regions : list Entry) (l : FrameLocation) : Prop :=
  ∃ e, regions !! region l = Some e ∧ entry_type e = USABLE ∧
    0 ≤ offset l ≤ elength e ∧ aligned (offset l) PAGE_SIZE.

Lemma find_usable_Some from regions r :
  find_usable from regions = Some r →
  (from ≤ r)%nat ∧ ∃ e, regions !! r = Some e ∧ entry_type e = USABLE.
Proof.
  intros [Hin Hb]%List.find_some. apply list_elem_of_In, elem_of_seq in Hin.
  split; [lia|]. destruct (regions !! r) as [e|]; [|done]. exists e. by apply bool_decide_eq_true in Hb.
Qed.

Lemma find_usable_first from regions r :
  find_usable from regions = Some r →
  ∀ j e, (from ≤ j < r)%nat → regions !! j = Some e → entry_type e ≠ USABLE.
Proof.
  unfold find_usable. generalize (length regions - from)%nat. intros n. revert from.
  induction n as [|n IH]; intros from; [done|]. cbn [seq List.find].
  destruct (match regions !! from with Some _ => _ | None => _ end) eqn:E.
  - intros [= <-] j e ?. lia.
  - intros Hr j e Hj Hl Hu. destruct (decide (j = from)) as [->|]; [|eapply IH; eauto; lia].
    rewrite Hl, Hu in E. done.
Qed.

Lemma find_usable_None from regions :
  find_usable from regions = None →
  ∀ j e, (from ≤ j)%nat → regions !! j = Some e → entry_type e ≠ USABLE.
Proof.
  intros Hn j e Hj Hl Hu. assert (j < length regions)%nat by (by eapply lookup_lt_Some).
  eapply List.find_none in Hn; [|apply list_elem_of_In, elem_of_seq; split; [exact Hj|lia]].
  rewrite Hl, Hu in Hn. done.
Qed.

(** Some usable region from [l] on has [need] bytes left. *)
Definition has_room (regions : list Entry) (l : FrameLocation) (need : Z) : Prop :=
  ∃ i r, regions !! i = Some r ∧ entry_type r = USABLE ∧
    ((region l < i)%nat ∧ need ≤ elength r ∨ i = region l ∧ offset l + need ≤ elength r).

Definition later (l l' : FrameLocation) : Prop :=
  l' = l ∨ (region l < region l')%nat ∧ offset l' = 0.

Section frames.
Context (h : Z) (rs : list Entry) (Hmap : map_ok h rs).

Lemma issued_later l l' a : later l l' → issued rs l a → issued rs l' a.
Proof. intros [->|[? ?]]; [done|]. intros (i & e & ? & ? & ? & ?). exists i, e. naive_solver lia. Qed.

Lemma advance_spec fuel l need :
  loc_ok rs l → 0 ≤ need ≤ h → (length rs < region l + fuel)%nat →
  ∃ l', loc_ok rs l' ∧ later l l' ∧
    (has_room rs l need ∧ advance fuel rs need l = Ok (true, l') ∧
       (∃ r, rs !! region l' = Some r ∧ offset l' + need ≤ elength r) ∨
     ¬ has_room rs l need ∧ advance fuel rs need l = Ok (false, l')).
Proof.
  revert l. induction fuel as [|fuel IH]; intros l Hl Hn Hf;
    pose proof Hl as (e & He & Hu & Ho & Ha).
  { apply lookup_lt_Some in He. lia. }
  destruct (map_usable _ _ Hmap _ _ He Hu) as (? & ? & _ & ?).
  pose proof (map_high _ _ Hmap). unfold PAGE_SIZE in *.
  cbn [advance]. rewrite uadd_ok by lia. cbn [rbind]. rewrite He. cbn [unwrap rbind]. zcase.
  2: { exists l. split_and!; [done|by left|left]. split_and!; [|done|by eauto].
       exists (region l), e. split_and!; [done..|]. right. lia. }
  destruct (find_usable (S (region l)) rs) as [r|] eqn:Hr.
  - pose proof (find_usable_first _ _ _ Hr) as Hfirst.
    apply find_usable_Some in Hr as (Hlt & e' & He' & Hu').
    assert (loc_ok rs (mkLoc r 0)) as Hl'.
    { exists e'. split_and!; simpl; [done..| |exists 0; lia].
      destruct (map_usable _ _ Hmap _ _ He' Hu') as (? & ? & _). lia. }
    assert (has_room rs l need ↔ has_room rs (mkLoc r 0) need) as Hroom.
    { split; intros (i & f & Hi & Hfu & Hc); exists i, f; (split_and!; [done..|]); simpl in *.
      - destruct Hc as [[Hi' ?]|[-> ?]]; [|assert (f = e) as -> by congruence; lia].
        destruct (decide (i = r)); [lia|]. destruct (decide (i < r)%nat); [|lia].
        exfalso. eapply (Hfirst i f); [lia|done..].
      - left. destruct Hc as [[? ?]|[-> ?]]; lia. }
    destruct (IH (mkLoc r 0)) as (l' & Hok & Hlat & Hcase); [done|done|simpl; lia|].
    exists l'. split_and!; [done| |by rewrite Hroom].
    right. destruct Hlat as [->|[? ?]]; simpl in *; lia.
  - exists l. split_and!; [done|by left|right]. split; [|done].
    intros (i & f & Hi & Hfu & [[? ?]|[-> ?]]); [|assert (f = e) as -> by congruence; lia].
    by eapply find_usable_None in Hr.
Qed.

Lemma advance_true fuel l need l' :
  loc_ok rs l → 0 ≤ need → advance fuel rs need l = Ok (true, l') →
  loc_ok rs l' ∧ later l l' ∧ ∃ r, rs !! region l' = Some r ∧ offset l' + need ≤ elength r.
Proof.
  revert l. induction fuel as [|fuel IH]; intros l Hl Hn; [done|]. cbn [advance]. unfold uadd. destruct (Z.leb_spec (offset l + need) usize_max); [|done]. cbn [rbind].
  destruct (rs !! region l) as [r|] eqn:Hr; [|done]. cbn [unwrap rbind]. zcase.
  - destruct (find_usable (S (region l)) rs) as [i|] eqn:Hi; [|done]. apply find_usable_Some in Hi as (Hlt & e' & He' & Hu'). intros E.
    destruct (IH (mkLoc i 0)) as (Hok & Hlat & Hroom); [|done|done|split_and!; [done| |done]].
    + exists e'. split_and!; simpl; [done..| |exists 0; lia]. destruct (map_usable _ _ Hmap _ _ He' Hu') as (? & ? & _). lia.
    + right. destruct Hlat as [->|[? ?]]; simpl in *; lia.
  - intros [= <-]. split_and!; [done|by left|]. exists r. split; [done|lia].
Qed.

(** The [n] bytes at a location with room become issued, and were not before. *)
Definition bump (l : FrameLocation) (n : Z) : FrameLocation := mkLoc (region l) (offset l + n).

Lemma bump_issued l r n a :
  loc_ok rs l → rs !! region l = Some r → offset l + n ≤ elength r → 0 ≤ n →
  issued rs (bump l n) a ↔ issued rs l a ∨ ebase r + offset l ≤ a < ebase r + offset l + n.
Proof.
  intros (e & He & Hu & Ho & _) Hr Hroom Hn. assert (e = r) as -> by congruence.
  unfold issued, bump. simpl. split.
  - intros (i & e & Hi & Hui & Ha & [Hlt|[-> Hlt]]); [left; exists i, e; naive_solver lia|].
    assert (e = r) as -> by congruence. destruct (decide (a < ebase r + offset l)); [left|right; lia].
    exists (region l), r. naive_solver lia.
  - intros [(i & e & Hi & Hui & Ha & Hc)|Ha]; [exists i, e|exists (region l), r]; naive_solver lia.
Qed.

Lemma bump_fresh l r n a :
  loc_ok rs l → rs !! region l = Some r →
  ebase r + offset l ≤ a < ebase r + offset l + n → offset l + n ≤ elength r → ¬ issued rs l a.
Proof.
  intros (e & He & Hu & Ho & _) Hr Ha Hroom (i & f & Hi & Hfu & Hfa & Hc).
  assert (e = r) as -> by congruence.
  destruct Hc as [Hlt|[-> Hlt]]; [|assert (f = r) as -> by congruence; lia].
  destruct (map_disjoint _ _ Hmap _ _ _ _ Hi Hr) as [?|?]; [lia|done..|lia|lia].
Qed.

Lemma bump_ok l r n :
  loc_ok rs l → rs !! region l = Some r → offset l + n ≤ elength r → 0 ≤ n → aligned n PAGE_SIZE →
  loc_ok rs (bump l n).
Proof.
  intros (e & He & Hu & Ho & Ha) Hr Hroom Hn Hna. assert (e = r) as -> by congruence.
  exists r. unfold bump; simpl. split_and!; [done..|lia|lia|by apply aligned_add].
Qed.
(** ** The invariant *)

(** The free list threaded through the frames of [l]. *)
Fixpoint chain (m : gmap Z Z) (head : Z) (l : list Z) : Prop :=
  match l with
  | [] => head = usize_max
  | f :: l => head = f ∧ chain m (word_at m (h + f)) l
  end.

Lemma chain_frame m v x head l :
  (∀ f, f ∈ l → v ≠ h + f) → chain m head l → chain (<[v := x]> m) head l.
Proof.
  revert head. induction l as [|f l IH]; intros head Hv; [done|]. intros [-> Hc]. split; [done|].
  unfold word_at. rewrite lookup_insert_ne by (apply Hv; by left).
  apply IH; [|done]. intros g Hg. apply Hv. by right.
Qed.

(** A whole page of issued memory. *)
Definition frame_ok (l : FrameLocation) (f : Z) : Prop :=
  aligned f PAGE_SIZE ∧ ∀ a, f ≤ a < f + PAGE_SIZE → issued rs l a.

Record phys_inv (s : PhysMem) (free live : list Z) : Prop := {
  pi_regions : REGIONS s = Some rs;
  pi_hhdm : HHDM_OFFSET s = Some h;
  pi_end : loc_ok rs (END s);
  pi_chain : chain (words s) (HEAD s) free;
  pi_nodup : NoDup (free ++ live);
  pi_frames f : f ∈ free ++ live → frame_ok (END s) f;
}.

Lemma issued_bounds l a : issued rs l a → 0 ≤ a ∧ h + a < usize_max.
Proof.
  intros (i & e & Hi & Hu & Ha & _). destruct (map_usable _ _ Hmap _ _ Hi Hu) as (? & _ & _ & ?).
  unfold usize_max in *. lia.
Qed.

Lemma frame_ok_bounds l f : frame_ok l f → 0 ≤ f ∧ h + f < usize_max.
Proof. intros [_ Hf]. apply (issued_bounds l), Hf. unfold PAGE_SIZE. lia. Qed.

Lemma frame_ok_later l l' f : later l l' → frame_ok l f → frame_ok l' f.
Proof. intros Hl [? Hf]. split; [done|]. intros a Ha. by eapply issued_later, Hf. Qed.

(** Distinct aligned frames do not share an address. *)
Lemma frames_apart f g a :
  aligned f PAGE_SIZE → aligned g PAGE_SIZE →
  f ≤ a < f + PAGE_SIZE → g ≤ a < g + PAGE_SIZE → f = g.
Proof. intros [q ->] [r ->]. unfold PAGE_SIZE. intros. assert (q = r) by lia. by subst. Qed.

Lemma phys_inv_perm s free live live' :
  live ≡ₚ live' → phys_inv s free live → phys_inv s free live'.
Proof.
  intros Hp [? ? ? ? Hnd Hf]. split; try done; [by rewrite <-Hp|]. intros f. rewrite <-Hp. apply Hf.
Qed.

Lemma set_END_inv s free live l :
  phys_inv s free live → loc_ok rs l → later (END s) l →
  phys_inv (mkPhys (HEAD s) l (REGIONS s) (HHDM_OFFSET s) (words s)) free live.
Proof.
  intros [? ? ? ? ? Hf] Hl Hlat. split; try done. intros f Hin. by eapply frame_ok_later, Hf.
Qed.

Definition frames_from (f : Z) (n : nat) : list Z := (λ i, f + PAGE_SIZE * Z.of_nat i) <$> seq 0 n.

(** Taking [n] frames at a location with room. *)
Lemma bump_inv s free live r n :
  phys_inv s free live → rs !! region (END s) = Some r →
  offset (END s) + PAGE_SIZE * Z.of_nat n ≤ elength r →
  phys_inv (mkPhys (HEAD s) (bump (END s) (PAGE_SIZE * Z.of_nat n)) (REGIONS s) (HHDM_OFFSET s) (words s))
    free (frames_from (ebase r + offset (END s)) n ++ live).
Proof.
  intros Hi Hr Hroom. pose proof Hi as [? ? Hok ? Hnd Hf].
  pose proof Hok as (e & He & Hu & Ho & Hal). assert (e = r) as -> by congruence.
  destruct (map_usable _ _ Hmap _ _ Hr Hu) as (? & _ & Hba & _).
  set (b := ebase r + offset (END s)) in *.
  assert (∀ x, x ∈ frames_from b n ↔ ∃ i, (i < n)%nat ∧ x = b + PAGE_SIZE * Z.of_nat i) as Hff.
  { intros x. unfold frames_from. rewrite list_elem_of_fmap. setoid_rewrite elem_of_seq. naive_solver lia. }
  split; try done; simpl.
  - eapply bump_ok; [done..|unfold PAGE_SIZE in *; lia|]. rewrite Z.mul_comm. apply aligned_mul.
  - rewrite (Permutation_app_comm (frames_from b n)), (assoc (++)). apply NoDup_app. split_and!; [done| |].
    + intros x Hx (i & Hlt & ->)%Hff. destruct (Hf _ Hx) as [_ Hiss].
      apply (bump_fresh (END s) r (PAGE_SIZE * Z.of_nat n) (b + PAGE_SIZE * Z.of_nat i)); [done..| |done|].
      * fold b. unfold PAGE_SIZE in *. lia.
      * apply Hiss. unfold PAGE_SIZE. lia.
    + apply NoDup_fmap_2_strong; [|apply NoDup_seq]. unfold PAGE_SIZE. intros; lia.
  - intros x. rewrite (assoc (++)), (Permutation_app_comm free), <-(assoc (++)), elem_of_app, Hff.
    intros [(i & Hlt & ->)|Hx].
    + split.
      * apply aligned_add; [by apply aligned_add|]. rewrite Z.mul_comm. apply aligned_mul.
      * intros a Ha. eapply bump_issued; [done..|unfold PAGE_SIZE; lia|]. right. unfold PAGE_SIZE in *. nia.
    + destruct (Hf _ Hx) as [? Hiss]. split; [done|]. intros a Ha.
      eapply bump_issued; [done..|unfold PAGE_SIZE; lia|]. left. by apply Hiss.
Qed.

(** ** The operations *)

Lemma frame_alloc_pop s f free live :
  phys_inv s (f :: free) live →
  ∃ s', frame_alloc tt s = Ok (Some f, s') ∧ phys_inv s' free (f :: live).
Proof.
  intros [Hr Hh ? [HH Hc] Hnd Hf]. destruct (Hf f) as [Hal Hiss]; [by left|].
  destruct (frame_ok_bounds (END s) f) as [? ?]; [by split|].
  unfold frame_alloc, the_hhdm. mstep. rewrite HH. 
  zcase; [pose proof (map_high _ _ Hmap); unfold PAGE_SIZE in *; lia|].
  rewrite (proj2 (is_multiple_of_spec f PAGE_SIZE ltac:(done)) Hal). cbn [negb].
  rewrite Hh, uadd_ok by lia. eexists. split; [done|]. split; try done; simpl.
  - by rewrite <-Permutation_middle.
  - intros g. rewrite <-Permutation_middle. apply Hf.
Qed.

Lemma frame_alloc_bump s live :
  phys_inv s [] live →
  (has_room rs (END s) PAGE_SIZE ∧ ∃ f s', frame_alloc tt s = Ok (Some f, s') ∧
     phys_inv s' [] (f :: live)) ∨
  (¬ has_room rs (END s) PAGE_SIZE ∧ ∃ s', frame_alloc tt s = Ok (None, s') ∧ phys_inv s' [] live).
Proof.
  intros Hi. pose proof Hi as [Hr Hh Hok Hc _ _]. simpl in Hc.
  pose proof (map_high _ _ Hmap).
  unfold frame_alloc, the_regions, set_END. mstep. rewrite Hc, Z.eqb_refl.
  cbv beta iota. rewrite Hr.
  destruct (advance_spec (S (length rs)) (END s) PAGE_SIZE)
    as (l & Hl & Hlat & [(Hroom & -> & r & Hlr & Hle)|(Hroom & ->)]); [done|done|lia| |].
  - left. split; [done|]. cbn [negb]. rewrite Hlr. cbn [unwrap].
    pose proof Hl as (e & He & Hu & Ho & _). assert (e = r) as -> by congruence.
    destruct (map_usable _ _ Hmap _ _ Hlr Hu) as (? & _ & _ & ?). unfold PAGE_SIZE in *.
    rewrite !uadd_ok by lia. do 2 eexists. split; [done|].
    pose proof (set_END_inv s [] live l Hi Hl Hlat) as Hi'.
    pose proof (bump_inv _ _ _ r 1 Hi' Hlr ltac:(simpl; unfold PAGE_SIZE; lia)) as Hb.
    unfold frames_from in Hb. simpl in Hb. change (Z.of_nat 0) with 0 in Hb. by rewrite Z.mul_0_r, Z.add_0_r in Hb.
  - right. split; [done|]. cbn [negb]. eexists. split; [done|].
    pose proof (set_END_inv s [] live l Hi Hl Hlat) as Hi'. exact Hi'.
Qed.
Lemma alloc_frames_spec s free live n :
  phys_inv s free live → 0 < n → PAGE_SIZE * n ≤ h →
  (has_room rs (END s) (PAGE_SIZE * n) ∧ ∃ f s', alloc_frames n s = Ok (f, s') ∧
     phys_inv s' free (frames_from f (Z.to_nat n) ++ live)) ∨
  (¬ has_room rs (END s) (PAGE_SIZE * n) ∧ alloc_frames n s = Panic).
Proof.
  intros Hi Hn Hh'. pose proof Hi as [Hr Hh Hok Hc _ _].
  assert (h ≤ usize_max).
  { destruct Hok as (e & He & Hu & _). destruct (map_usable _ _ Hmap _ _ He Hu). lia. }
  unfold alloc_frames, the_regions, set_END, rassert. mstep. zcase; [|lia]. rewrite Hr, umul_ok by lia.
  destruct (advance_spec (S (length rs)) (END s) (PAGE_SIZE * n))
    as (l & Hl & Hlat & [(Hroom & -> & r & Hlr & Hle)|(Hroom & ->)]);
    [done|unfold PAGE_SIZE in *; lia|lia|left|by right].
  split; [done|]. cbn [negb]. rewrite Hlr. cbn [unwrap].
  pose proof Hl as (e & He & Hu & Ho & _). assert (e = r) as -> by congruence.
  destruct (map_usable _ _ Hmap _ _ Hlr Hu) as (? & _ & _ & ?). unfold PAGE_SIZE in *.
  rewrite !uadd_ok by lia. do 2 eexists. split; [done|].
  pose proof (set_END_inv s free live l Hi Hl Hlat) as Hi'.
  pose proof (bump_inv _ _ _ r (Z.to_nat n) Hi' Hlr ltac:(simpl; unfold PAGE_SIZE; lia)) as Hb.
  cbn [END] in Hb. unfold bump, PAGE_SIZE in Hb. rewrite Z2Nat.id in Hb by lia. exact Hb.
Qed.

(** Whatever [n] is, [alloc_frames] gives fresh frames or panics. *)
Lemma alloc_frames_ok s free live n f s' :
  phys_inv s free live → alloc_frames n s = Ok (f, s') → phys_inv s' free (frames_from f (Z.to_nat n) ++ live).
Proof.
  intros Hi. pose proof Hi as [Hr Hh Hok Hc _ _]. unfold alloc_frames, the_regions, set_END, rassert. mstep. zcase; [|done]. rewrite Hr.
  unfold umul. destruct (Z.leb_spec (PAGE_SIZE * n) usize_max); [|done]. destruct (advance _ rs _ _) as [[[] l]|[]|] eqn:Ea; [|done..].
  destruct (advance_true _ _ (PAGE_SIZE * n) _ Hok ltac:(unfold PAGE_SIZE; lia) Ea) as (Hl & Hlat & r & Hlr & Hle). cbn [negb]. rewrite Hlr. cbn [unwrap].
  pose proof Hl as (e & He & Hu & Ho & _). assert (e = r) as -> by congruence. destruct (map_usable _ _ Hmap _ _ Hlr Hu) as (? & _ & _ & ?).
  pose proof (map_high _ _ Hmap). unfold PAGE_SIZE in *. rewrite !uadd_ok by lia. intros [= <- <-].
  pose proof (bump_inv _ _ _ r (Z.to_nat n) (set_END_inv s free live l Hi Hl Hlat) Hlr ltac:(simpl; unfold PAGE_SIZE; lia)) as Hb.
  cbn [END] in Hb. unfold bump, PAGE_SIZE in Hb. rewrite Z2Nat.id in Hb by lia. exact Hb.
Qed.
Lemma alloc_frames_total s free live n :
  phys_inv s free live →
  (∃ f s', alloc_frames n s = Ok (f, s') ∧ NoDup (frames_from f (Z.to_nat n) ++ live)) ∨
  (alloc_frames n s = Panic ∧ (n ≤ 0 ∨ h < PAGE_SIZE * n ∨ ¬ has_room rs (END s) (PAGE_SIZE * n))).
Proof.
  intros Hi. destruct (alloc_frames n s) as [[f s']|[[] ?]|] eqn:E.
  - left. exists f, s'. split; [done|]. destruct (alloc_frames_ok _ _ _ _ _ _ Hi E) as [_ _ _ _ Hnd _]. by apply NoDup_app in Hnd as (_ & _ & ?).
  - right. split; [done|]. destruct (Z.le_gt_cases n 0); [by left|]. destruct (Z.le_gt_cases (PAGE_SIZE * n) h); [|by right; left].
    destruct (alloc_frames_spec s free live n Hi) as [(_ & f & s' & E' & _)|[? _]]; [lia|done|by rewrite E' in E|by right; right].
Qed.

Lemma frame_dealloc_spec s free live f :
  phys_inv s free (f :: live) →
  ∃ s', frame_dealloc f s = Ok (tt, s') ∧ phys_inv s' (f :: free) live.
Proof.
  intros [Hr Hh ? Hc Hnd Hf]. destruct (Hf f) as [Hal Hiss]; [set_solver|].
  destruct (frame_ok_bounds (END s) f) as [? ?]; [by split|].
  unfold frame_dealloc, the_hhdm, rassert, set_word, set_HEAD. mstep.
  rewrite (proj2 (is_multiple_of_spec f PAGE_SIZE ltac:(done)) Hal), Hh, uadd_ok by lia.
  eexists. split; [done|]. rewrite <-Permutation_middle in Hnd. apply NoDup_cons in Hnd as [Hnin Hnd].
  split; try done; simpl.
  - split; [done|]. unfold word_at at 1. rewrite lookup_insert_eq. apply chain_frame; [|done].
    intros g Hg ?. assert (f = g) as -> by lia. set_solver.
  - by apply NoDup_cons.
  - intros g. set_solver.
Qed.

Lemma phys_write_inv s free live f v x :
  phys_inv s free live → f ∈ live → f ≤ v - h < f + PAGE_SIZE →
  phys_inv (mkPhys (HEAD s) (END s) (REGIONS s) (HHDM_OFFSET s) (<[v := x]> (words s))) free live.
Proof.
  intros [Hr Hh ? Hc Hnd Hf] Hin Hv. split; try done; simpl. apply chain_frame; [|done].
  intros g Hg ->. apply NoDup_app in Hnd as (_ & Hd & _). apply (Hd g Hg).
  assert (f = g) as <-; [|done].
  apply (frames_apart f g g); [apply Hf; set_solver|apply Hf; set_solver| |unfold PAGE_SIZE; lia].
  by replace g with (h + g - h) by lia.
Qed.
End frames.

(** ** Clients

    The frames [live] are in use: they were handed out and not given back. *)
Inductive step (h : Z) : PhysMem * list Z → PhysMem * list Z → Prop :=
| step_alloc s live f s' : frame_alloc tt s = Ok (Some f, s') → step h (s, live) (s', f :: live)
| step_wait s live s' : frame_alloc tt s = Ok (None, s') → step h (s, live) (s', live)
| step_frames s live n f s' :
    alloc_frames n s = Ok (f, s') → step h (s, live) (s', frames_from f (Z.to_nat n) ++ live)
| step_dealloc s l1 f l2 s' :
    frame_dealloc f s = Ok (tt, s') → step h (s, l1 ++ f :: l2) (s', l1 ++ l2)
| step_write s live f v x s' :
    f ∈ live → f ≤ v - h < f + PAGE_SIZE → set_word v x s = Ok (tt, s') → step h (s, live) (s', live).

Lemma step_inv h rs s live s' live' :
  map_ok h rs → step h (s, live) (s', live') →
  (∃ free, phys_inv h rs s free live) → ∃ free, phys_inv h rs s' free live'.
Proof.
  intros Hmap Hs [free Hi].
  inversion Hs as [? ? f ? Hrun|? ? ? Hrun|? ? n f ? Hrun|? l1 f l2 ? Hrun|? ? f v x ? Hin Hv Hrun]; subst.
  - destruct free as [|g free].
    + destruct (frame_alloc_bump h rs Hmap s live Hi) as [(_ & g & s1 & E & ?)|(_ & s1 & E & ?)];
        rewrite E in Hrun; [|done]. injection Hrun as -> ->. eauto.
    + destruct (frame_alloc_pop h rs Hmap s g free live Hi) as (s1 & E & ?).
      rewrite E in Hrun. injection Hrun as -> ->. eauto.
  - destruct free as [|g free].
    + destruct (frame_alloc_bump h rs Hmap s live' Hi) as [(_ & g & s1 & E & ?)|(_ & s1 & E & ?)];
        rewrite E in Hrun; [done|]. injection Hrun as ->. eauto.
    + destruct (frame_alloc_pop h rs Hmap s g free live' Hi) as (s1 & E & ?). by rewrite E in Hrun.
  - exists free. by apply (alloc_frames_ok h rs Hmap s).
  - apply (phys_inv_perm _ _ _ _ _ (f :: l1 ++ l2)) in Hi; [|by rewrite Permutation_middle].
    destruct (frame_dealloc_spec h rs Hmap s free (l1 ++ l2) f Hi) as (s1 & E & ?).
    rewrite E in Hrun. injection Hrun as ->. eauto.
  - injection Hrun as <-. exists free. by eapply phys_write_inv.
Qed.

Lemma rtc_inv h rs w w' :
  map_ok h rs → rtc (step h) w w' → (∃ free, phys_inv h rs w.1 free w.2) →
  ∃ free, phys_inv h rs w'.1 free w'.2.
Proof.
  intros Hmap. induction 1 as [w|[s live] [s1 live1] w' Hs _ IH]; [done|].
  intros Hi. apply IH. by eapply step_inv.
Qed.

Lemma init_phys_inv h rs m s :
  map_ok h rs → init_physical_memory_allocator h rs (initial m) = Ok (tt, s) → phys_inv h rs s [] [].
Proof.
  intros Hmap. unfold init_physical_memory_allocator. simpl.
  destruct (find_usable 0 rs) as [r|] eqn:Hr; [|done]. intros [= <-].
  apply find_usable_Some in Hr as (_ & e & He & Hu).
  split; simpl; try done; [|constructor|by intros f ?%not_elem_of_nil].
  exists e. split_and!; simpl; [done..| |exists 0; lia].
  destruct (map_usable _ _ Hmap _ _ He Hu) as (? & ? & _). lia.
Qed.

(** A memory map with two usable regions of two pages around a reserved one. *)
Definition demo_map : list Entry :=
  [mkEntry 0 0x1000 RESERVED; mkEntry 0x1000 0x2800 USABLE; mkEntry 0x4000 0x1000 FRAMEBUFFER;
   mkEntry 0x8000 0x2000 USABLE].

Lemma demo_map_ok : map_ok 0x100000 demo_map.
Proof.
  assert (∀ i e, demo_map !! i = Some e → entry_type e = USABLE →
    (i = 1%nat ∧ e = mkEntry 0x1000 0x2800 USABLE) ∨ (i = 3%nat ∧ e = mkEntry 0x8000 0x2000 USABLE)) as Hd.
  { intros i e. do 4 (destruct i as [|i]; [intros [= <-]; naive_solver|]). done. }
  split; [done| |].
  - intros i e He Hu. destruct (Hd i e He Hu) as [[-> ->]|[-> ->]]; simpl.
    + split_and!; [lia|lia|by exists 1|by vm_compute].
    + split_and!; [lia|lia|by exists 8|by vm_compute].
  - intros i e j f He Hf Hne Hu Hu'.
    destruct (Hd i e He Hu) as [[-> ->]|[-> ->]], (Hd j f Hf Hu') as [[-> ->]|[-> ->]]; simpl; lia.
Qed.

Definition exec {A} (m : Op A) (s : PhysMem) : PhysMem :=
  match m s with Ok (_, s') => s' | _ => s end.
Definition demo0 : PhysMem := exec (init_physical_memory_allocator 0x100000 demo_map) (initial ∅).

(** C14: From start-up, whatever sequence of single and contiguous allocations,
    releases of frames in use and writes to frames in use happens, the frames
    in use are page aligned, made of usable memory only, pairwise disjoint and
    never on the free list.  Neither [frame_alloc] nor the release of a frame in
    use panics.  [alloc_frames] gives frames that are not in use, or it panics, and
    for a number of frames that is positive and not beyond the address of the
    direct map it panics only if no usable region from the one it has reached on has
    room for them. *)
Theorem frames_exclusive h rs m s0 s live :
  map_ok h rs → init_physical_memory_allocator h rs (initial m) = Ok (tt, s0) →
  rtc (step h) (s0, []) (s, live) →
  NoDup live ∧
  (∀ f, f ∈ live → aligned f PAGE_SIZE ∧ ∀ a, f ≤ a < f + PAGE_SIZE →
     ∃ e, e ∈ rs ∧ entry_type e = USABLE ∧ ebase e ≤ a < ebase e + elength e) ∧
  (∀ f g a, f ∈ live → g ∈ live → f ≤ a < f + PAGE_SIZE → g ≤ a < g + PAGE_SIZE → f = g) ∧
  (∃ r s', frame_alloc tt s = Ok (r, s') ∧ ∀ f, r = Some f → f ∉ live) ∧
  (∀ f, f ∈ live → ∃ s', frame_dealloc f s = Ok (tt, s')) ∧
  (∀ n, (∃ f s', alloc_frames n s = Ok (f, s') ∧ NoDup (frames_from f (Z.to_nat n) ++ live)) ∨
     (alloc_frames n s = Panic ∧ (n ≤ 0 ∨ h < PAGE_SIZE * n ∨ ¬ has_room rs (END s) (PAGE_SIZE * n)))).
Proof.
  intros Hmap Hinit Hrtc. destruct (rtc_inv _ _ _ _ Hmap Hrtc) as [free Hi].
  { exists []. by eapply init_phys_inv. }
  simpl in Hi. pose proof Hi as [_ _ _ _ Hnd Hf].
  assert (∀ f, f ∈ live → frame_ok rs (END s) f) as Hl by (intros f ?; apply Hf; set_solver).
  split_and!.
  - by apply NoDup_app in Hnd as (_ & _ & ?).
  - intros f Hin. destruct (Hl f Hin) as [? Hiss]. split; [done|]. intros a Ha.
    destruct (Hiss a Ha) as (i & e & He%list_elem_of_lookup_2 & ? & ? & _). by exists e.
  - intros f g a [? _]%Hl [? _]%Hl. by apply frames_apart.
  - destruct free as [|f free].
    + destruct (frame_alloc_bump h rs Hmap s live Hi) as [(_ & f & s' & E & Hi')|(_ & s' & E & _)];
        rewrite E; do 2 eexists; (split; [done|]); [|done]. intros ? [= <-].
      by apply pi_nodup, NoDup_cons in Hi' as [? _].
    + destruct (frame_alloc_pop h rs Hmap s f free live Hi) as (s' & E & _). rewrite E.
      do 2 eexists. split; [done|]. intros ? [= <-] ?. apply NoDup_cons in Hnd as [? _]. set_solver.
  - intros f (l1 & l2 & ->)%list_elem_of_split.
    apply (phys_inv_perm _ _ _ _ _ (f :: l1 ++ l2)) in Hi; [|by rewrite Permutation_middle].
    destruct (frame_dealloc_spec h rs Hmap s free (l1 ++ l2) f Hi) as (s' & E & _). eauto.
  - intros n. by apply (alloc_frames_total h rs Hmap s free).
Qed.

Lemma frames_exclusive_witness :
  ∃ s, rtc (step 0x100000) (demo0, []) (s, [0x1000; 0x2000]) ∧ NoDup [0x1000; 0x2000].
Proof.
  set (s1 := exec (frame_alloc tt) demo0).
  set (s2 := exec (frame_alloc tt) s1).
  set (s3 := exec (frame_dealloc 0x1000) s2).
  set (s4 := exec (frame_alloc tt) s3).
  assert (rtc (step 0x100000) (demo0, []) (s4, [0x1000; 0x2000])) as Hrtc.
  { eapply rtc_l; [apply (step_alloc _ demo0 [] 0x1000 s1); vm_compute; reflexivity|].
    eapply rtc_l; [apply (step_alloc _ s1 _ 0x2000 s2); vm_compute; reflexivity|].
    eapply rtc_l; [apply (step_dealloc _ s2 [0x2000] 0x1000 [] s3); vm_compute; reflexivity|].
    eapply rtc_l; [apply (step_alloc _ s3 _ 0x1000 s4); vm_compute; reflexivity|].
    apply rtc_refl. }
  exists s4. split; [exact Hrtc|].
  apply (frames_exclusive 0x100000 demo_map ∅ demo0 s4 _ demo_map_ok); [vm_compute; reflexivity|exact Hrtc].
Defined.

(** [frame_alloc] gives out the frame released last; with nothing released
    it gives out the next frame of the memory map, and goes back to waiting
    exactly when no usable region has a page left.  A waiting call gets the
    first frame that is released. *)
Lemma frame_alloc_correct h rs s free live :
  map_ok h rs → phys_inv h rs s free live →
  match free with
  | f :: free => ∃ s', frame_alloc tt s = Ok (Some f, s') ∧ phys_inv h rs s' free (f :: live)
  | [] =>
      (has_room rs (END s) PAGE_SIZE ∧ ∃ f s', frame_alloc tt s = Ok (Some f, s') ∧
         phys_inv h rs s' [] (f :: live)) ∨
      (¬ has_room rs (END s) PAGE_SIZE ∧ ∃ s', frame_alloc tt s = Ok (None, s') ∧
         phys_inv h rs s' [] live ∧
         ∀ f, f ∈ live → ∃ s2 s3, frame_dealloc f s' = Ok (tt, s2) ∧ frame_alloc tt s2 = Ok (Some f, s3))
  end.
Proof.
  intros Hmap Hi. destruct free as [|f free]; [|by apply frame_alloc_pop].
  destruct (frame_alloc_bump h rs Hmap s live Hi) as [?|(? & s' & E & Hi')]; [by left|right].
  split; [done|]. exists s'. split_and!; [done..|]. intros f (l1 & l2 & ->)%list_elem_of_split.
  apply (phys_inv_perm _ _ _ _ _ (f :: l1 ++ l2)) in Hi'; [|by rewrite Permutation_middle].
  destruct (frame_dealloc_spec h rs Hmap s' [] (l1 ++ l2) f Hi') as (s2 & E2 & Hi2).
  destruct (frame_alloc_pop h rs Hmap s2 f [] (l1 ++ l2) Hi2) as (s3 & E3 & _). eauto.
Qed.

Lemma demo0_inv : phys_inv 0x100000 demo_map demo0 [] [].
Proof. apply (init_phys_inv _ _ ∅); [apply demo_map_ok|vm_compute; reflexivity]. Qed.

Lemma frame_alloc_witness :
  ∃ s', frame_alloc tt demo0 = Ok (Some 0x1000, s') ∧ phys_inv 0x100000 demo_map s' [] [0x1000].
Proof.
  destruct (frame_alloc_correct _ _ _ _ _ demo_map_ok demo0_inv)
    as [(_ & f & s' & E & Hi)|(_ & s' & E & _)].
  - assert (f = 0x1000) as -> by (vm_compute in E; congruence).
    exists s'. split; [exact E|exact Hi].
  - vm_compute in E. discriminate.
Defined.

(** [alloc_frames] gives out [n] contiguous fresh frames of one region, and
    panics exactly when no usable region from the bump pointer on has room. *)
Lemma alloc_frames_correct h rs s free live n :
  map_ok h rs → phys_inv h rs s free live → 0 < n → PAGE_SIZE * n ≤ h →
  (has_room rs (END s) (PAGE_SIZE * n) ∧ ∃ f s', alloc_frames n s = Ok (f, s') ∧
     phys_inv h rs s' free (frames_from f (Z.to_nat n) ++ live)) ∨
  (¬ has_room rs (END s) (PAGE_SIZE * n) ∧ alloc_frames n s = Panic).
Proof. intros Hmap. by apply alloc_frames_spec. Qed.

(** Two pages do not fit in the rest of the first region, which is skipped. *)
Lemma alloc_frames_witness :
  ∃ f s', alloc_frames 2 (exec (frame_alloc tt) demo0) = Ok (f, s') ∧ f = 0x8000 ∧
    phys_inv 0x100000 demo_map s' [] ([0x8000; 0x9000] ++ [0x1000]).
Proof.
  assert (phys_inv 0x100000 demo_map (exec (frame_alloc tt) demo0) [] [0x1000]) as Hi.
  { destruct (frame_alloc_bump _ _ demo_map_ok _ _ demo0_inv) as [(_ & f & s' & E & Hi)|(_ & s' & E & _)].
    - assert (f = 0x1000) as -> by (vm_compute in E; congruence). unfold exec. rewrite E. exact Hi.
    - vm_compute in E. discriminate. }
  destruct (alloc_frames_correct _ _ _ _ _ 2 demo_map_ok Hi eq_refl ltac:(by vm_compute))
    as [(_ & f & s' & E & Hi')|(_ & E)]; [|vm_compute in E; discriminate].
  assert (f = 0x8000) as -> by (vm_compute in E; congruence).
  exists 0x8000, s'. split; [exact E|]. split; [reflexivity|exact Hi'].
Defined.
