(* ===== verification/PageTable.v ===== *)
(** * Page tables of aarch64 (src/arch/aarch64/vmm.rs)

    Four levels of tables of 512 entries each, in frames of the physical
    allocator, read and written through the direct map.  The memory is that of
    [PhysMem]: words by virtual address.  The walk of the hardware and the
    translation caches are not part of the model; [get_phys_addr] is the
    kernel's own walk. *)

From S2P Require Import Prelude PhysMem.

Definition PTE_ADDR_MASK : Z := 0x0000FFFFFFFFF000.
Definition PTE_PER_PAGE : nat := 512.

(** [PagingOptions] (src/memory/virtual_memory.rs). *)
Definition PRESENT : Z := 1.
Definition WRITABLE : Z := 2.
Definition EXECUTABLE : Z := 4.
Definition USER_ACCESSIBLE : Z := 8.
Definition WRITE_THROUGH : Z := 16.
Definition CACHEABLE : Z := 32.
Definition GLOBAL : Z := 64.
Definition FIXED : Z := 128.
Definition SHADOW : Z := 256.
Definition DEVICE_MEMORY : Z := 512.
Definition contains (options flag : Z) : bool := Z.land options flag =? flag.

(** [PageTableEntryFlags] *)
Definition VALID : Z := 1.
Definition TABLE : Z := 2.
Definition NORMAL_MEMORY_CACHEABLE : Z := 0.
Definition NORMAL_MEMORY_NON_CACHEABLE : Z := 4.
Definition ATTR_DEVICE_MEMORY : Z := 8.
Definition RW_EL1 : Z := 0.
Definition RW_EL0 : Z := 64.
Definition RO_EL1 : Z := 128.
Definition RO_EL0 : Z := 192.
Definition AF : Z := 2 ^ 10.
Definition UXN : Z := 2 ^ 54.
Definition PXN : Z := 2 ^ 53.

Definition create_aarch64_attributes (options : Z) : Z :=
  let attr := Z.lor 0 AF in
  let attr := if contains options PRESENT then Z.lor (Z.lor attr VALID) TABLE else attr in
  let attr :=
    if contains options WRITABLE && contains options USER_ACCESSIBLE then Z.lor attr RW_EL0
    else if contains options WRITABLE then Z.lor attr RW_EL1
    else if contains options USER_ACCESSIBLE then Z.lor attr RO_EL0
    else Z.lor attr RO_EL1 in
  let attr := if negb (contains options EXECUTABLE) then Z.lor attr (Z.lor UXN PXN) else attr in
  if contains options DEVICE_MEMORY then Z.lor attr ATTR_DEVICE_MEMORY
  else if contains options CACHEABLE then Z.lor attr NORMAL_MEMORY_CACHEABLE
  else Z.lor attr NORMAL_MEMORY_NON_CACHEABLE.

(** ** Memory *)

(** [frame_alloc] spins while there is no frame: that is the error here. *)
Inductive Waiting : Type := waiting.
Abbreviation VOp A := (M PhysMem Waiting A).

Definition of_phys {A} (m : Op A) : VOp A := λ s,
  match m s with Ok r => Ok r | Err (e, _) => match e with end | Panic => Panic end.

Definition new_frame : VOp Z := λ s,
  match frame_alloc tt s with
  | Ok (Some f, s') => Ok (f, s')
  | Ok (None, s') => Err (waiting, s')
  | Err (e, _) => match e with end
  | Panic => Panic
  end.

(** The entry [i] of the table at the virtual address [tbl]. *)
Definition load_pte (tbl i : Z) : VOp Z := λ s, Ok (word_at (words s) (tbl + 8 * i), s).
Definition store_pte (tbl i x : Z) : VOp unit := of_phys (set_word (tbl + 8 * i) x).

(** [write_bytes(base, 0, 4096)] *)
Definition clear_page (base : Z) (m : gmap Z Z) : gmap Z Z :=
  base.filter (λ p, ¬ (base ≤ p.1 < base + PAGE_SIZE)) m.
Definition write_zeroes (base : Z) : VOp unit :=
  mmodify (λ s, mkPhys (HEAD s) (END s) (REGIONS s) (HHDM_OFFSET s) (clear_page base (words s))).

(** ** The operations *)

Definition index (level vaddr : Z) : Z := Z.land (Z.shiftr vaddr (12 + 9 * level)) 0x1FF.
Definition root_of (space : Z) : Z := Z.land space 0xFFFFFFFFFFFFF000.

Definition ensure_next_table (tbl i hhdm_offset : Z) : VOp Z :=
  let! entry := load_pte tbl i in
  let! _ := (if Z.land entry 3 =? 0 then
               let! new_table_phys := new_frame in
               let! p := mlift (uadd new_table_phys hhdm_offset) in
               let! _ := write_zeroes p in
               store_pte tbl i (Z.lor (Z.land new_table_phys PTE_ADDR_MASK) 3)
             else mret tt) in
  let! entry := load_pte tbl i in
  mret (Z.land entry PTE_ADDR_MASK).

Definition vmap (space vaddr paddr options : Z) : VOp unit :=
  let! hhdm_offset := of_phys the_hhdm in
  let! l0 := mlift (uadd (root_of space) hhdm_offset) in
  let! l1_phys := ensure_next_table l0 (index 3 vaddr) hhdm_offset in
  let! l1 := mlift (uadd l1_phys hhdm_offset) in
  let! l2_phys := ensure_next_table l1 (index 2 vaddr) hhdm_offset in
  let! l2 := mlift (uadd l2_phys hhdm_offset) in
  let! l3_phys := ensure_next_table l2 (index 1 vaddr) hhdm_offset in
  let! l3 := mlift (uadd l3_phys hhdm_offset) in
  store_pte l3 (index 0 vaddr) (Z.lor (Z.land paddr PTE_ADDR_MASK) (create_aarch64_attributes options)).

(** One level of the walks: the next table, if the entry points to one. *)
Definition next_table (tbl i hhdm_offset : Z) : VOp (option Z) :=
  let! e := load_pte tbl i in
  if Z.land e 3 =? 3
  then let! p := mlift (uadd (Z.land e PTE_ADDR_MASK) hhdm_offset) in mret (Some p)
  else mret None.

Definition get_phys_addr (vaddr space : Z) : VOp (option Z) :=
  let! hhdm_offset := of_phys the_hhdm in
  let! l0 := mlift (uadd (root_of space) hhdm_offset) in
  let! r := next_table l0 (index 3 vaddr) hhdm_offset in
  match r with None => mret None | Some l1 =>
  let! r := next_table l1 (index 2 vaddr) hhdm_offset in
  match r with None => mret None | Some l2 =>
  let! r := next_table l2 (index 1 vaddr) hhdm_offset in
  match r with None => mret None | Some l3 =>
  let! e := load_pte l3 (index 0 vaddr) in
  if Z.land e 1 =? 0 then mret None
  else mret (Some (Z.lor (Z.land e PTE_ADDR_MASK) (Z.land vaddr 0xFFF)))
  end end end.

(** The loops over the 512 entries of a table. *)
Definition table_empty (tbl : Z) : VOp bool := λ s,
  Ok (forallb (λ i, Z.land (word_at (words s) (tbl + 8 * Z.of_nat i)) 3 =? 0) (seq 0 PTE_PER_PAGE), s).

Definition free_unused_tables (vaddr l0 l1 l2 l3 : Z) : VOp unit :=
  let! hhdm_offset := of_phys the_hhdm in
  let! e := table_empty l3 in
  if negb e then mret tt else
  let! _ := store_pte l2 (index 1 vaddr) 0 in
  let! f := mlift (usub l3 hhdm_offset) in
  let! _ := of_phys (frame_dealloc f) in
  let! e := table_empty l2 in
  if negb e then mret tt else
  let! _ := store_pte l1 (index 2 vaddr) 0 in
  let! f := mlift (usub l2 hhdm_offset) in
  let! _ := of_phys (frame_dealloc f) in
  let! e := table_empty l1 in
  if negb e then mret tt else
  let! _ := store_pte l0 (index 3 vaddr) 0 in
  let! f := mlift (usub l1 hhdm_offset) in
  of_phys (frame_dealloc f).

Definition vunmap_internal (space vaddr : Z) (free_frame : bool) : VOp (option Z) :=
  let! hhdm_offset := of_phys the_hhdm in
  let! l0 := mlift (uadd (root_of space) hhdm_offset) in
  let! r := next_table l0 (index 3 vaddr) hhdm_offset in
  match r with None => mret None | Some l1 =>
  let! r := next_table l1 (index 2 vaddr) hhdm_offset in
  match r with None => mret None | Some l2 =>
  let! r := next_table l2 (index 1 vaddr) hhdm_offset in
  match r with None => mret None | Some l3 =>
  let! e := load_pte l3 (index 0 vaddr) in
  if Z.land e 3 =? 0 then mret None else
  let paddr := Z.land e PTE_ADDR_MASK in
  let! _ := store_pte l3 (index 0 vaddr) 0 in
  let! _ := free_unused_tables vaddr l0 l1 l2 l3 in
  let! _ := (if free_frame then of_phys (frame_dealloc paddr) else mret tt) in
  mret (Some paddr)
  end end end.

Definition vunmap (space vaddr : Z) : VOp (option Z) := vunmap_internal space vaddr true.
Definition vunmap_no_dealloc (space vaddr : Z) : VOp (option Z) := vunmap_internal space vaddr false.

(** ** Addresses and indices *)

Lemma index_mod n v : index (Z.of_nat n) v = (v / PAGE_SIZE / 512 ^ Z.of_nat n) mod 512.
Proof.
  unfold index. change 0x1FF with (Z.ones 9). rewrite Z.land_ones by lia.
  rewrite Z.shiftr_div_pow2 by lia. f_equal. unfold PAGE_SIZE.
  rewrite Z.div_div by (try apply Z.pow_nonzero; lia || (apply Z.pow_pos_nonneg; lia)). f_equal.
  rewrite Z.pow_add_r by lia. change (2 ^ 12) with 4096. by rewrite Z.pow_mul_r by lia.
Qed.

Definition idx (n : nat) (v : Z) : nat := Z.to_nat (index (Z.of_nat n) v).
Lemma index_range n v : 0 ≤ index (Z.of_nat n) v < 512.
Proof. rewrite index_mod. apply Z.mod_pos_bound. lia. Qed.
Lemma idx_range n v : (idx n v < PTE_PER_PAGE)%nat.
Proof. unfold idx, PTE_PER_PAGE. pose proof (index_range n v). lia. Qed.
Lemma idx_index n v : Z.of_nat (idx n v) = index (Z.of_nat n) v.
Proof. unfold idx. pose proof (index_range n v). lia. Qed.

(** The page number of [v] as far as a tree with [n] levels below its root
    looks at it. *)
Definition page_number (n : nat) (v : Z) : Z := (v / PAGE_SIZE) mod 512 ^ Z.of_nat (S n).

Lemma page_number_S n v : page_number (S n) v = page_number n v + 512 ^ Z.of_nat (S n) * index (Z.of_nat (S n)) v.
Proof.
  unfold page_number. rewrite index_mod, (Nat2Z.inj_succ (S n)), Z.pow_succ_r by lia.
  rewrite (Z.mul_comm 512), Z.rem_mul_r; [done|apply Z.pow_nonzero; lia|lia].
Qed.
Lemma page_number_0 v : page_number 0 v = index 0 v.
Proof. pose proof (index_mod 0 v) as H. change (Z.of_nat 0) with 0 in H. rewrite H. unfold page_number. by rewrite Z.div_1_r. Qed.

(** ** Tables as trees *)

(** A table and the tables below it; [n] is the number of levels below. *)
Fixpoint tree (n : nat) : Type :=
  match n with O => Z | S n => Z * list (option (tree n)) end.

Definition root {n} : tree n → Z := match n with O => λ t, t | S _ => λ t, t.1 end.

Fixpoint frames {n} : tree n → list Z :=
  match n with
  | O => λ t, [t]
  | S n => λ t, t.1 :: concat ((λ o, match o with Some c => frames c | None => [] end) <$> t.2)
  end.

Section tables.
Context (h : Z) (rs : list Entry) (Hmap : map_ok h rs).
(** Physical addresses have 48 bits. *)
Context (H48 : ∀ i e, rs !! i = Some e → entry_type e = USABLE → ebase e + elength e ≤ 2 ^ 48).

Definition pte (m : gmap Z Z) (t : Z) (i : nat) : Z := word_at m (h + t + 8 * Z.of_nat i).

(** The tree [t] is in memory [m]. *)
Fixpoint rep {n} (m : gmap Z Z) : tree n → Prop :=
  match n with
  | O => λ t, ∀ i, (i < PTE_PER_PAGE)%nat → Z.land (pte m t i) 3 = 0 ∨ Z.land (pte m t i) 3 = 3
  | S n => λ t, length t.2 = PTE_PER_PAGE ∧ ∀ i o, t.2 !! i = Some o →
      match o with
      | None => Z.land (pte m t.1 i) 3 = 0
      | Some c => Z.land (pte m t.1 i) 3 = 3 ∧ Z.land (pte m t.1 i) PTE_ADDR_MASK = root c ∧ rep m c
      end
  end.

(** The mapping a tree stands for: the entry of a page that is mapped. *)
Fixpoint mapped {n} (m : gmap Z Z) : tree n → Z → option Z :=
  match n with
  | O => λ t v, let e := pte m t (idx 0 v) in if Z.land e 3 =? 3 then Some e else None
  | S n => λ t v, match t.2 !! idx (S n) v with Some (Some c) => mapped m c v | _ => None end
  end.

Lemma mapped_S {n} m r (cs : list (option (tree n))) v :
  @mapped (S n) m (r, cs) v = match cs !! idx (S n) v with Some (Some c) => mapped m c v | _ => None end.
Proof. done. Qed.

Definition in_frame (f a : Z) : Prop := f ≤ a - h < f + PAGE_SIZE.
Definition same_in (F : list Z) (m m' : gmap Z Z) : Prop :=
  ∀ f a, f ∈ F → in_frame f a → word_at m' a = word_at m a.
Definition same_out (F : list Z) (m m' : gmap Z Z) : Prop :=
  ∀ a, (∀ f, f ∈ F → ¬ in_frame f a) → word_at m' a = word_at m a.

Lemma root_in_frames {n} (t : tree n) : root t ∈ frames t.
Proof. destruct n; simpl; left. Qed.

Lemma child_frames {n} (r : Z) (cs : list (option (tree n))) i c :
  cs !! i = Some (Some c) → frames c ⊆ @frames (S n) (r, cs).
Proof.
  intros Hc f Hf. right. simpl. apply list_elem_of_In, in_concat. exists (frames c). split; [|by apply list_elem_of_In].
  apply list_elem_of_In, list_elem_of_fmap. exists (Some c). split; [done|]. by eapply list_elem_of_lookup_2.
Qed.

Lemma pte_in t i : (i < PTE_PER_PAGE)%nat → in_frame t (h + t + 8 * Z.of_nat i).
Proof. unfold in_frame, PAGE_SIZE, PTE_PER_PAGE. lia. Qed.

Lemma same_in_pte F m m' t i :
  same_in F m m' → t ∈ F → (i < PTE_PER_PAGE)%nat → pte m' t i = pte m t i.
Proof. intros Hs Ht Hi. by apply (Hs t), pte_in. Qed.

Lemma same_in_sub F F' m m' : F' ⊆ F → same_in F m m' → same_in F' m m'.
Proof. intros Hsub Hs f a Hf. apply Hs. by apply Hsub. Qed.

Lemma rep_same {n} (t : tree n) m m' : same_in (frames t) m m' → rep m t → rep m' t.
Proof.
  induction n as [|n IH]; intros Hs.
  - intros Hr i Hi. rewrite (same_in_pte _ _ _ _ _ Hs) by (done || left). by apply Hr.
  - intros [Hl Hr]. split; [done|]. intros i o Ho. assert (Hi : (i < PTE_PER_PAGE)%nat) by (rewrite <-Hl; by eapply lookup_lt_Some).
    rewrite (same_in_pte _ _ _ _ _ Hs) by (done || left). specialize (Hr i o Ho).
    destruct o as [c|]; [|done]. destruct Hr as (? & ? & Hc). split_and!; [done..|]. apply IH; [|done].
    eapply same_in_sub; [|exact Hs]. destruct t. by eapply child_frames.
Qed.

Lemma mapped_same {n} (t : tree n) m m' v : rep m t → same_in (frames t) m m' → mapped m' t v = mapped m t v.
Proof.
  induction n as [|n IH]; intros Hr Hs; simpl.
  - by rewrite (same_in_pte _ _ _ _ _ Hs) by (apply idx_range || left).
  - destruct (t.2 !! idx (S n) v) as [[c|]|] eqn:Hc; [|done..]. apply IH.
    + destruct Hr as [_ Hr]. by destruct (Hr _ _ Hc) as (_ & _ & ?).
    + eapply same_in_sub; [|exact Hs]. destruct t. by eapply child_frames.
Qed.

(** The frames of a tree when one child is replaced. *)
Lemma frames_replace {n} (r : Z) (cs : list (option (tree n))) i o o' :
  cs !! i = Some o →
  @frames (S n) (r, <[i := o']> cs) ++ match o with Some c => frames c | None => [] end ≡ₚ
  @frames (S n) (r, cs) ++ match o' with Some c => frames c | None => [] end.
Proof.
  intros Hi. simpl. constructor. rewrite list_fmap_insert.
  set (g := λ o : option (tree n), _). set (l := g <$> cs).
  assert (Hl : l !! i = Some (g o)) by (unfold l; by rewrite list_lookup_fmap, Hi).
  change (concat (<[i := g o']> l) ++ g o ≡ₚ concat l ++ g o').
  revert Hl. generalize (g o) (g o') l. clear. intros q q' l. revert i. induction l as [|x l IH]; intros [|i] Hi; simplify_eq/=.
  - rewrite <-!app_assoc. rewrite (Permutation_app_comm (concat l) q), (Permutation_app_comm (concat l) q'), !app_assoc.
    by rewrite (Permutation_app_comm q' q).
  - rewrite <-!app_assoc. apply Permutation_app_head. by apply IH.
Qed.

(** ** Frames *)

Lemma issued_48 l a : issued rs l a → a < 2 ^ 48.
Proof. intros (i & e & Hi & Hu & Ha & _). pose proof (H48 _ _ Hi Hu). lia. Qed.

Lemma live_frame s free live f :
  phys_inv h rs s free live → f ∈ live →
  aligned f PAGE_SIZE ∧ 0 ≤ f ∧ f + PAGE_SIZE ≤ 2 ^ 48 ∧ h + f + PAGE_SIZE ≤ usize_max + 1.
Proof.
  intros Hi Hf. destruct (pi_frames _ _ _ _ _ Hi f) as [Hal Hiss]; [set_solver|].
  pose proof (Hiss f ltac:(unfold PAGE_SIZE; lia)) as H1.
  pose proof (Hiss (f + PAGE_SIZE - 1) ltac:(unfold PAGE_SIZE; lia)) as H2.
  pose proof (issued_48 _ _ H2). destruct (issued_bounds h rs Hmap _ _ H1). destruct (issued_bounds h rs Hmap _ _ H2).
  split_and!; [done|lia..].
Qed.

Lemma mask_frame f : aligned f PAGE_SIZE → 0 ≤ f < 2 ^ 48 → Z.land f PTE_ADDR_MASK = f.
Proof.
  intros [k ->] Hf. unfold PAGE_SIZE in *. apply Z.bits_inj'. intros n Hn. rewrite Z.land_spec.
  destruct (Z.testbit (k * 4096) n) eqn:E; [|done]. simpl.
  assert (12 ≤ n < 48).
  { split.
    - destruct (Z.lt_ge_cases n 12); [|done]. change 4096 with (2 ^ 12) in E. by rewrite Z.mul_pow2_bits_low in E.
    - destruct (Z.lt_ge_cases n 48); [done|]. rewrite Z.bits_above_log2 in E; [done|lia|].
      destruct (decide (k * 4096 = 0)) as [->|]; [simpl; lia|]. apply Z.log2_lt_pow2; [lia|].
      eapply Z.lt_le_trans; [apply Hf|]. apply Z.pow_le_mono_r; lia. }
  assert (PTE_ADDR_MASK = Z.ones 36 * 2 ^ 12) as -> by done.
  rewrite Z.mul_pow2_bits by lia. rewrite Z.ones_spec_low by lia. done.
Qed.

Lemma frames_disjoint s free live f g a :
  phys_inv h rs s free live → f ∈ free ++ live → g ∈ free ++ live → in_frame f a → in_frame g a → f = g.
Proof.
  intros Hi Hf Hg H1 H2. apply (frames_apart f g (a - h)); [apply (pi_frames _ _ _ _ _ Hi); done..|done|done].
Qed.

Lemma chain_ext m m' head l :
  (∀ f, f ∈ l → word_at m' (h + f) = word_at m (h + f)) → chain h m head l → chain h m' head l.
Proof.
  revert head. induction l as [|f l IH]; intros head H; [done|]. intros [-> Hc]. split; [done|].
  rewrite H by left. apply IH; [|done]. intros g Hg. apply H. by right.
Qed.

Definition set_words (m : gmap Z Z) (s : PhysMem) : PhysMem := mkPhys (HEAD s) (END s) (REGIONS s) (HHDM_OFFSET s) m.

(** Writing to frames in use keeps the allocator's invariant. *)
Lemma phys_inv_out s free live F m :
  phys_inv h rs s free live → F ⊆ live → same_out F (words s) m → phys_inv h rs (set_words m s) free live.
Proof.
  intros Hi HF Hs. pose proof Hi as [Hr Hh Hok Hc Hnd Hf]. split; try done; simpl.
  apply (chain_ext (words s)); [|done]. intros f Hf'. apply Hs. intros g Hg Hin.
  assert (f = g) as ->.
  { apply (frames_disjoint s free live f g (h + f)); [done|set_solver..| |done]. unfold in_frame, PAGE_SIZE. lia. }
  apply NoDup_app in Hnd as (_ & Hd & _). apply (Hd g); [done|]. by apply HF.
Qed.

Lemma same_out_insert f a x m : in_frame f a → same_out [f] m (<[a := x]> m).
Proof.
  intros Ha b Hb. unfold word_at. rewrite lookup_insert_ne; [done|]. intros ->. apply (Hb f); [left|done].
Qed.

Lemma word_clear base m a :
  word_at (clear_page base m) a = if decide (base ≤ a < base + PAGE_SIZE) then 0 else word_at m a.
Proof.
  unfold word_at, clear_page. rewrite map_lookup_filter. destruct (m !! a) as [x|]; simpl; [|by case_decide].
  case_guard; simpl; by case_decide.
Qed.

Lemma same_out_clear f m : same_out [f] m (clear_page (h + f) m).
Proof.
  intros a Ha. rewrite word_clear. case_decide; [|done]. destruct (Ha f); [left|]. unfold in_frame. lia.
Qed.

Lemma frame_alloc_words s r s' : frame_alloc tt s = Ok (r, s') → words s' = words s.
Proof.
  unfold frame_alloc, the_regions, the_hhdm, set_END, set_HEAD. mstep.
  destruct (_ =? _).
  - destruct (REGIONS s); [|done]. destruct (advance _ _ _ _) as [[[] e]| |]; simpl; [|by intros [= <- <-]|done..].
    destruct (unwrap _) as [entry|[]|]; [|done]. repeat (destruct (uadd _ _) as [?|[]|]; [|done]). by intros [= <- <-].
  - destruct (negb _); [done|]. destruct (HHDM_OFFSET s); [|done]. destruct (uadd _ _) as [?|[]|]; [|done]. by intros [= <- <-].
Qed.

Lemma new_frame_spec s free live :
  phys_inv h rs s free live →
  (∃ f s' free', new_frame s = Ok (f, s') ∧ phys_inv h rs s' free' (f :: live) ∧ words s' = words s) ∨
  (∃ s' free', new_frame s = Err (waiting, s') ∧ phys_inv h rs s' free' live ∧ words s' = words s).
Proof.
  intros Hi. unfold new_frame. destruct free as [|f free].
  - destruct (frame_alloc_bump h rs Hmap s live Hi) as [(_ & f & s' & E & Hi')|(_ & s' & E & Hi')];
      rewrite E; [left|right]; apply frame_alloc_words in E; eauto 10.
  - destruct (frame_alloc_pop h rs Hmap s f free live Hi) as (s' & E & Hi').
    rewrite E. apply frame_alloc_words in E. left. eauto 10.
Qed.

(** ** Trees in memory *)

(** [t] is in the memory of [s], in frames of its own that are in use. *)
Record pt {n} (s : PhysMem) (free live : list Z) (t : tree n) : Prop := mk_pt {
  pt_phys : phys_inv h rs s free live;
  pt_rep : rep (words s) t;
  pt_live : frames t ⊆ live;
  pt_nodup : NoDup (frames t);
}.

(** [t] has become [t'], with the same root and the new tables [new], and memory
    outside the tables is as before. *)
Record grows {n} (s : PhysMem) (live : list Z) (t : tree n) (s' : PhysMem) (free' new : list Z) (t' : tree n) : Prop := mk_grows {
  gr_pt : pt s' free' (new ++ live) t';
  gr_root : root t' = root t;
  gr_frames : frames t' ≡ₚ new ++ frames t;
  gr_out : same_out (frames t') (words s) (words s');
}.

Lemma pt_root_live {n} s free live (t : tree n) : pt s free live t → root t ∈ live.
Proof. intros [_ _ Hl _]. apply Hl, root_in_frames. Qed.

Lemma child_pt {n} s free live r (cs : list (option (tree n))) i c :
  @pt (S n) s free live (r, cs) → cs !! i = Some (Some c) → pt s free live c.
Proof.
  intros [Hp [Hlen Hr] Hl Hn] Hc. split; [done|by destruct (Hr i _ Hc) as (_ & _ & ?)|..].
  - etrans; [|exact Hl]. by eapply child_frames.
  - pose proof (frames_replace r cs i (Some c) None Hc) as HP. rewrite app_nil_r in HP.
    rewrite <-HP in Hn. by apply NoDup_app in Hn as (_ & _ & ?).
Qed.

(** The rest of a tree without one child is apart from the child. *)
Lemma child_rest_apart {n} r (cs : list (option (tree n))) i c :
  NoDup (@frames (S n) (r, cs)) → cs !! i = Some (Some c) →
  ∀ f, f ∈ @frames (S n) (r, <[i := None]> cs) → f ∉ frames c.
Proof.
  intros Hn Hc. pose proof (frames_replace r cs i (Some c) None Hc) as HP. rewrite app_nil_r in HP.
  rewrite <-HP in Hn. apply NoDup_app in Hn as (_ & ? & _). done.
Qed.

Lemma sibling_rest {n} r (cs : list (option (tree n))) i j c :
  i ≠ j → cs !! j = Some (Some c) → frames c ⊆ @frames (S n) (r, <[i := None]> cs).
Proof. intros Hij Hj. apply (child_frames _ _ j). by rewrite list_lookup_insert_ne. Qed.

(** The frames of the tree without child [i]. *)
Definition rest {n} (r : Z) (cs : list (option (tree n))) (i : nat) : list Z := @frames (S n) (r, <[i := None]> cs).
Definition frames_of {n} (o : option (tree n)) : list Z := match o with Some c => frames c | None => [] end.

Lemma frames_rest {n} r (cs : list (option (tree n))) i o :
  cs !! i = Some o → @frames (S n) (r, cs) ≡ₚ rest r cs i ++ frames_of o.
Proof. intros Hi. pose proof (frames_replace r cs i o None Hi) as HP. rewrite app_nil_r in HP. symmetry. exact HP. Qed.

Lemma frames_set {n} r (cs : list (option (tree n))) i o' :
  (i < length cs)%nat → @frames (S n) (r, <[i := o']> cs) ≡ₚ rest r cs i ++ frames_of o'.
Proof.
  intros Hi. rewrite (frames_rest r _ i o') by (by apply list_lookup_insert_eq).
  unfold rest. by rewrite list_insert_insert_eq.
Qed.

(** Memory in the rest of the tree is as before, but for the entry [i]. *)
Definition same_rest {n} r (cs : list (option (tree n))) i (m m' : gmap Z Z) : Prop :=
  ∀ f a, f ∈ rest r cs i → in_frame f a → a ≠ h + r + 8 * Z.of_nat i → word_at m' a = word_at m a.

Lemma same_rest_sibling {n} s free live r (cs : list (option (tree n))) i j d m' :
  @pt (S n) s free live (r, cs) → (i < PTE_PER_PAGE)%nat → i ≠ j → cs !! j = Some (Some d) →
  same_rest r cs i (words s) m' → same_in (frames d) (words s) m'.
Proof.
  intros Hpt Hi Hij Hd Hs f a Hf Ha. apply (Hs f a); [by apply (sibling_rest r cs i j d)|done|].
  intros ->. destruct Hpt as [Hp _ Hl Hn].
  assert (f = r) as ->.
  { apply (frames_disjoint s free live f r (h + r + 8 * Z.of_nat i)); [done| | |done|by apply pte_in].
    - apply elem_of_app. right. apply Hl. by eapply child_frames.
    - apply elem_of_app. right. apply Hl. left. }
  apply (child_rest_apart r cs j d Hn Hd r); [|done]. left.
Qed.

Lemma same_rest_pte {n} r (cs : list (option (tree n))) i j m m' :
  same_rest r cs i m m' → i ≠ j → (j < PTE_PER_PAGE)%nat → pte m' r j = pte m r j.
Proof. intros Hs Hij Hj. apply (Hs r); [left|by apply pte_in|lia]. Qed.

(** Setting the entry [i] of the root, to point to [o'] or to nothing. *)
Lemma set_child {n} s free live r (cs : list (option (tree n))) i o o' s' free' live' :
  @pt (S n) s free live (r, cs) → cs !! i = Some o → phys_inv h rs s' free' live' →
  match o' with
  | None => Z.land (pte (words s') r i) 3 = 0
  | Some c => Z.land (pte (words s') r i) 3 = 3 ∧ Z.land (pte (words s') r i) PTE_ADDR_MASK = root c ∧ pt s' free' live' c
  end →
  (∀ f, f ∈ rest r cs i → f ∈ live' ∧ f ∉ frames_of o') → same_rest r cs i (words s) (words s') →
  @pt (S n) s' free' live' (r, <[i := o']> cs) ∧
  ∀ v, @mapped (S n) (words s') (r, <[i := o']> cs) v =
    if decide (idx (S n) v = i) then match o' with Some c => mapped (words s') c v | None => None end
    else @mapped (S n) (words s) (r, cs) v.
Proof.
  intros Hpt Ho Hp' Ho' Hrest Hs. pose proof Hpt as [Hp [Hlen Hr] Hl Hn]. cbn [fst snd] in *.
  assert (Hi : (i < length cs)%nat) by (by eapply lookup_lt_Some).
  assert (Hi' : (i < PTE_PER_PAGE)%nat) by (by rewrite <-Hlen).
  split; [split; [done|..]|].
  - split; [cbn [snd]; by rewrite length_insert|]. intros j p. cbn [fst snd]. destruct (decide (i = j)) as [<-|Hij].
    + rewrite list_lookup_insert_eq by done. intros [= <-]. destruct o'; [|done]. destruct Ho' as (? & ? & [_ ? _ _]). done.
    + rewrite list_lookup_insert_ne by done. intros Hj.
      rewrite (same_rest_pte _ _ _ _ _ _ Hs Hij) by (rewrite <-Hlen; by eapply lookup_lt_Some).
      specialize (Hr j p Hj). destruct p as [d|]; [|done]. destruct Hr as (? & ? & Hd). split_and!; [done..|].
      apply (rep_same _ (words s)); [|done]. by eapply same_rest_sibling.
  - rewrite frames_set by done. intros f [Hf|Hf]%elem_of_app; [by apply Hrest|].
    destruct o' as [c|]; [|by apply elem_of_nil in Hf]. destruct Ho' as (_ & _ & [_ _ Hc _]). by apply Hc.
  - rewrite frames_set by done. apply NoDup_app. split_and!.
    + rewrite (frames_rest r cs i o Ho) in Hn. by apply NoDup_app in Hn as (? & _ & _).
    + intros f Hf. by apply Hrest.
    + destruct o' as [c|]; [|constructor]. by destruct Ho' as (_ & _ & [_ _ _ ?]).
  - intros v. rewrite !mapped_S. destruct (decide (idx (S n) v = i)) as [->|Hv].
    + rewrite list_lookup_insert_eq by done. by destruct o'.
    + rewrite list_lookup_insert_ne by done. destruct (cs !! idx (S n) v) as [[d|]|] eqn:Hd; [|done..].
      apply mapped_same; [by destruct (Hr _ _ Hd) as (_ & _ & ?)|]. by eapply same_rest_sibling.
Qed.

(** Memory outside the old and the new child is memory of the rest. *)
Lemma out_same_rest {n} s free live r (cs : list (option (tree n))) i o s' free' live' F m' :
  @pt (S n) s free live (r, cs) → cs !! i = Some o → phys_inv h rs s' free' live' →
  F ⊆ live' → (∀ f, f ∈ rest r cs i → f ∈ live' ∧ f ∉ F) →
  (∀ a, a ≠ h + r + 8 * Z.of_nat i → (∀ f, f ∈ frames_of o ++ F → ¬ in_frame f a) → word_at m' a = word_at (words s) a) →
  same_rest r cs i (words s) m'.
Proof.
  intros [Hp _ Hl Hn] Ho Hp' HF Hrest Hout f a Hf Ha Hne. apply Hout; [done|].
  rewrite (frames_rest r cs i o Ho) in Hn, Hl. apply NoDup_app in Hn as (_ & Hn & _).
  intros g [Hg|Hg]%elem_of_app Hga.
  - assert (f = g) as ->; [|by apply (Hn g)].
    apply (frames_disjoint s free live f g a); [done|set_solver..|done|done].
  - destruct (Hrest f Hf) as [Hfl Hfn]. assert (f = g) as ->; [|done].
    apply (frames_disjoint s' free' live' f g a); [done|set_solver..|done|done].
Qed.

(** ** Mapping *)

Lemma load_pte_spec t i s : load_pte (h + t) (Z.of_nat i) s = Ok (pte (words s) t i, s).
Proof. done. Qed.
Lemma store_pte_spec t i x s :
  store_pte (h + t) (Z.of_nat i) x s = Ok (tt, set_words (<[h + t + 8 * Z.of_nat i := x]> (words s)) s).
Proof. done. Qed.

(** An empty table. *)
Definition fresh (n : nat) (f : Z) : tree n :=
  match n with O => f | S _ => (f, replicate PTE_PER_PAGE None) end.

Lemma fresh_frames n f : frames (fresh n f) = [f].
Proof.
  destruct n as [|n]; [done|]. unfold fresh. cbn [frames fst snd]. f_equal.
Qed.
Lemma fresh_root n f : root (fresh n f) = f.
Proof. by destruct n. Qed.
Lemma fresh_rep n f m : (∀ i, (i < PTE_PER_PAGE)%nat → pte m f i = 0) → rep m (fresh n f).
Proof.
  intros H. destruct n as [|n]; [intros i Hi; left; by rewrite H|].
  split; [apply length_replicate|]. intros i o. cbn [fst snd fresh]. intros [-> Hi]%lookup_replicate. by rewrite H.
Qed.
Lemma fresh_mapped n f m v : (∀ i, (i < PTE_PER_PAGE)%nat → pte m f i = 0) → mapped m (fresh n f) v = None.
Proof.
  intros H. destruct n as [|n]; cbn [mapped fresh].
  - rewrite H by apply idx_range. done.
  - cbn [snd]. by destruct (replicate _ _ !! _) as [[]|] eqn:E; [apply lookup_replicate in E as [? _]| |].
Qed.

Lemma table_entry_bits f : aligned f PAGE_SIZE → 0 ≤ f < 2 ^ 48 →
  Z.land (Z.lor (Z.land f PTE_ADDR_MASK) 3) 3 = 3 ∧ Z.land (Z.lor (Z.land f PTE_ADDR_MASK) 3) PTE_ADDR_MASK = f.
Proof.
  intros Hal Hf. rewrite Z.land_lor_distr_l, <-Z.land_assoc.
  rewrite (Z.land_lor_distr_l _ _ PTE_ADDR_MASK), <-Z.land_assoc.
  change (Z.land PTE_ADDR_MASK 3) with 0. change (Z.land PTE_ADDR_MASK PTE_ADDR_MASK) with PTE_ADDR_MASK.
  change (Z.land 3 PTE_ADDR_MASK) with 0. change (Z.land 3 3) with 3.
  rewrite Z.land_0_r, Z.lor_0_r. split; [done|]. by apply mask_frame.
Qed.

(** The memory after a new table [f] was linked at entry [i] of [r]. *)
Definition linked (r f : Z) (i : nat) (m : gmap Z Z) : gmap Z Z :=
  <[h + r + 8 * Z.of_nat i := Z.lor (Z.land f PTE_ADDR_MASK) 3]> (clear_page (h + f) m).

Lemma linked_out r f i m : (i < PTE_PER_PAGE)%nat → same_out [r; f] m (linked r f i m).
Proof.
  intros Hi a Ha. unfold linked. rewrite (same_out_insert r); [|by apply pte_in|].
  - apply same_out_clear. intros g ->%list_elem_of_singleton. apply Ha. set_solver.
  - intros g ->%list_elem_of_singleton. apply Ha. set_solver.
Qed.

Lemma linked_fresh s free live r f i j :
  phys_inv h rs s free live → r ∈ live → f ∈ live → r ≠ f → (i < PTE_PER_PAGE)%nat → (j < PTE_PER_PAGE)%nat →
  pte (linked r f i (words s)) f j = 0.
Proof.
  intros Hp Hr Hf Hne Hi Hj. unfold pte, linked. unfold word_at at 1. rewrite lookup_insert_ne.
  - fold (word_at (clear_page (h + f) (words s)) (h + f + 8 * Z.of_nat j)). rewrite word_clear.
    pose proof (pte_in f j Hj). unfold in_frame in *. case_decide; [done|lia].
  - intros E. apply Hne. apply (frames_disjoint s free live r f (h + r + 8 * Z.of_nat i)); [done|set_solver..|by apply pte_in|].
    rewrite E. by apply pte_in.
Qed.

Lemma ensure_run s free live r i :
  phys_inv h rs s free live → r ∈ live → Z.land (pte (words s) r i) 3 = 0 →
  (∃ f s' free', ensure_next_table (h + r) (Z.of_nat i) h s = Ok (f, set_words (linked r f i (words s)) s') ∧
     phys_inv h rs s' free' (f :: live) ∧ words s' = words s) ∨
  (∃ s' free', ensure_next_table (h + r) (Z.of_nat i) h s = Err (waiting, s') ∧
     phys_inv h rs s' free' live ∧ words s' = words s).
Proof.
  intros Hp Hr He. unfold ensure_next_table. rewrite (mbind_ok _ _ _ _ _ (load_pte_spec r i s)). rewrite He. simpl.
  destruct (new_frame_spec s free live Hp) as [(f & s' & free' & E & Hp' & Hw)|(s' & free' & E & Hp' & Hw)].
  - left. exists f, s', free'. split_and!; [|done|done].
    destruct (live_frame s' free' (f :: live) f Hp') as (Hal & Hf0 & Hf48 & Hfh); [left|].
    assert (Ebits := table_entry_bits f Hal ltac:(unfold PAGE_SIZE in *; lia)).
    pose proof (map_high _ _ Hmap) as Hh.
    rewrite (mbind_ok _ _ s tt (set_words (linked r f i (words s)) s')).
    + rewrite (mbind_ok _ _ _ _ _ (load_pte_spec r i _)). unfold mret. do 2 f_equal. unfold pte, linked, word_at. simpl.
      rewrite lookup_insert_eq. simpl. apply Ebits.
    + rewrite (mbind_ok _ _ _ _ _ E). rewrite (mbind_ok _ _ _ _ _ (mlift_ok _ _ _ (uadd_ok f h ltac:(unfold PAGE_SIZE in *; lia)))).
      unfold write_zeroes, mbind', mmodify. rewrite store_pte_spec. do 2 f_equal.
      unfold set_words, linked; simpl. by rewrite Hw, (Z.add_comm f h).
  - right. exists s', free'. split_and!; [|done|done]. apply mbind_err. by rewrite (mbind_err _ _ _ _ _ E).
Qed.

Lemma rest_live {n} s free live r (cs : list (option (tree n))) i o :
  @pt (S n) s free live (r, cs) → cs !! i = Some o → ∀ f, f ∈ rest r cs i → f ∈ live.
Proof. intros [_ _ Hl _] Ho f Hf. apply Hl. rewrite (frames_rest r cs i o Ho). set_solver. Qed.

Lemma pt_set_phys {n} s free live s' free' (t : tree n) :
  pt s free live t → phys_inv h rs s' free' live → words s' = words s → pt s' free' live t.
Proof. intros [_ Hr ? ?] Hp Hw. split; [done|by rewrite Hw|done..]. Qed.

(** Linking a fresh table where there was none. *)
Lemma link_fresh {n} s free live r (cs : list (option (tree n))) i s1 free1 f :
  @pt (S n) s free live (r, cs) → cs !! i = Some None → phys_inv h rs s1 free1 (f :: live) → words s1 = words s →
  let s' := set_words (linked r f i (words s)) s1 in
  @grows (S n) s live (r, cs) s' free1 [f] (r, <[i := Some (fresh n f)]> cs) ∧
  ∀ v, @mapped (S n) (words s') (r, <[i := Some (fresh n f)]> cs) v = @mapped (S n) (words s) (r, cs) v.
Proof.
  intros Hpt Ho Hp1 Hw s'. pose proof Hpt as [Hp [Hlen Hr] Hl Hn]. cbn [fst snd] in *.
  assert (Hi : (i < length cs)%nat) by (by eapply lookup_lt_Some).
  assert (Hi' : (i < PTE_PER_PAGE)%nat) by (by rewrite <-Hlen).
  assert (Hrl : r ∈ live) by (apply Hl; left).
  assert (Hnf : f ∉ live).
  { pose proof (pi_nodup _ _ _ _ _ Hp1) as Hnd. apply NoDup_app in Hnd as (_ & _ & Hnd). by apply NoDup_cons in Hnd as [? _]. }
  assert (Hrf : r ≠ f) by (by intros ->).
  destruct (live_frame s1 free1 (f :: live) f Hp1) as (Hal & Hf0 & Hf48 & _); [left|].
  assert (Hp' : phys_inv h rs s' free1 (f :: live)).
  { apply (phys_inv_out s1 _ _ [r; f]); [done|set_solver|]. rewrite Hw. by apply linked_out. }
  assert (Hz : ∀ j, (j < PTE_PER_PAGE)%nat → pte (words s') f j = 0).
  { intros j Hj. unfold s'; simpl. rewrite <-Hw. apply (linked_fresh s1 free1 (f :: live)); set_solver. }
  assert (He : pte (words s') r i = Z.lor (Z.land f PTE_ADDR_MASK) 3).
  { unfold pte, s', linked, word_at; simpl. by rewrite lookup_insert_eq. }
  assert (Hs : same_rest r cs i (words s) (words s')).
  { apply (out_same_rest s free live r cs i None s' free1 (f :: live) [f]); [done..|set_solver| |].
    - intros g Hg. pose proof (rest_live _ _ _ _ _ _ _ Hpt Ho g Hg). set_solver.
    - intros a Hne Ha. unfold s', linked, word_at at 1; simpl. rewrite lookup_insert_ne by done.
      apply same_out_clear. intros g Hg. apply Ha. by apply elem_of_app; right. }
  destruct (set_child s free live r cs i None (Some (fresh n f)) s' free1 (f :: live)) as [Hpt' Hm]; [done..| | |done|].
  - rewrite He, fresh_root. destruct (table_entry_bits f Hal ltac:(unfold PAGE_SIZE in *; lia)) as [-> ->].
    split_and!; [done..|]. split; [done|by apply fresh_rep|rewrite fresh_frames; set_solver|rewrite fresh_frames; apply NoDup_singleton].
  - intros g Hg. pose proof (rest_live _ _ _ _ _ _ _ Hpt Ho g Hg). simpl. rewrite fresh_frames. set_solver.
  - split; [split; [done..| |]|].
    + rewrite frames_set, (frames_rest r cs i None) by done. simpl. rewrite fresh_frames. rewrite app_nil_r.
      symmetry. apply Permutation_cons_append.
    + intros a Ha. apply linked_out; [done|]. intros g Hg. apply Ha. rewrite frames_set by done. simpl. rewrite fresh_frames.
      assert (r ∈ rest r cs i) by left. set_solver.
    + intros v. rewrite Hm. case_decide as Hv; [|done]. rewrite fresh_mapped by done. by rewrite mapped_S, Hv, Ho.
Qed.

(** [ensure_next_table] leads to a table below entry [i] and maps nothing. *)
Lemma ensure_spec {n} s free live r (cs : list (option (tree n))) i :
  @pt (S n) s free live (r, cs) → (i < PTE_PER_PAGE)%nat →
  (∃ s' free' new (cs' : list (option (tree n))) c, ensure_next_table (h + r) (Z.of_nat i) h s = Ok (root c, s') ∧
     @grows (S n) s live (r, cs) s' free' new (r, cs') ∧ cs' !! i = Some (Some c) ∧
     ∀ v, @mapped (S n) (words s') (r, cs') v = @mapped (S n) (words s) (r, cs) v) ∨
  (∃ s' free', ensure_next_table (h + r) (Z.of_nat i) h s = Err (waiting, s') ∧
     @pt (S n) s' free' live (r, cs) ∧ words s' = words s).
Proof.
  intros Hpt Hi. pose proof Hpt as [Hp [Hlen Hr] Hl Hn]. cbn [fst snd] in *.
  assert (is_Some (cs !! i)) as [o Ho] by (apply lookup_lt_is_Some_2; exact (eq_ind_r (λ k, (i < k)%nat) Hi Hlen)).
  specialize (Hr i o Ho). destruct o as [c|].
  - destruct Hr as (H3 & Hmask & Hc). left. exists s, free, [], cs, c. split_and!; [|by split|done|done].
    unfold ensure_next_table. rewrite (mbind_ok _ _ _ _ _ (load_pte_spec r i s)). rewrite H3. simpl.
    rewrite (mbind_ok _ _ s tt s) by done. rewrite (mbind_ok _ _ _ _ _ (load_pte_spec r i s)). by rewrite Hmask.
  - assert (Hrl : r ∈ live) by (apply Hl; left).
    destruct (ensure_run s free live r i Hp Hrl Hr) as [(f & s1 & free1 & E & Hp1 & Hw)|(s1 & free1 & E & Hp1 & Hw)].
    + left. destruct (link_fresh s free live r cs i s1 free1 f Hpt Ho Hp1 Hw) as [Hg Hm].
      exists (set_words (linked r f i (words s)) s1), free1, [f], (<[i := Some (fresh n f)]> cs), (fresh n f).
      rewrite fresh_root. split_and!; [done..| |done]. apply list_lookup_insert_eq. exact (eq_ind_r (λ k, (i < k)%nat) Hi Hlen).
    + right. exists s1, free1. split_and!; [done| |done]. by apply (pt_set_phys s free).
Qed.

(** [vmap] below a table at physical address [p] with [n] levels below it. *)
Fixpoint map_rec (n : nat) (p v ent : Z) : VOp unit :=
  let! l := mlift (uadd p h) in
  match n with
  | O => store_pte l (index 0 v) ent
  | S k => let! q := ensure_next_table l (index (Z.of_nat n) v) h in map_rec k q v ent
  end.

(** What the page [v] is mapped to by the entry [ent]. *)
Definition entry_mapping (ent : Z) : option Z := if Z.land ent 3 =? 3 then Some ent else None.

Lemma uadd_root {n} s free live (t : tree n) (s1 : PhysMem) :
  pt s free live t → mlift (uadd (root t) h) s1 = Ok (h + root t, s1) (E := Waiting * PhysMem).
Proof.
  intros Hpt. destruct (live_frame s free live (root t)) as (_ & ? & _ & ?); [apply Hpt|by eapply pt_root_live|].
  unfold mlift. rewrite uadd_ok by (unfold PAGE_SIZE in *; lia). by rewrite Z.add_comm.
Qed.

Lemma store_leaf s free live (t : tree 0) v ent :
  pt s free live t → Z.land ent 3 = 0 ∨ Z.land ent 3 = 3 →
  ∃ s', store_pte (h + t) (index 0 v) ent s = Ok (tt, s') ∧ grows s live t s' free [] t ∧
    (∀ v', page_number 0 v' ≠ page_number 0 v → mapped (words s') t v' = mapped (words s) t v') ∧
    mapped (words s') t v = entry_mapping ent.
Proof.
  intros [Hp Hr Hl Hn] Hent. pose proof (idx_index 0 v) as Hidx. change (Z.of_nat 0) with 0 in Hidx. rewrite <-Hidx.
  rewrite store_pte_spec. eexists. split; [done|]. cbn [rep frames] in *.
  assert (Hout : same_out [t] (words s) (<[h + t + 8 * Z.of_nat (idx 0 v) := ent]> (words s)))
    by (apply same_out_insert, pte_in, idx_range).
  assert (Hpte : ∀ i, pte (<[h + t + 8 * Z.of_nat (idx 0 v) := ent]> (words s)) t i =
    if decide (i = idx 0 v) then ent else pte (words s) t i).
  { intros i. unfold pte, word_at. case_decide as Hi; [by rewrite Hi, lookup_insert_eq|]. by rewrite lookup_insert_ne by lia. }
  split_and!.
  - split; [split|done..]; simpl; [|by intros i Hi; rewrite Hpte; case_decide; auto|done..].
    by apply (phys_inv_out s _ _ [t]).
  - intros v' Hv'. simpl. rewrite Hpte. case_decide as Hi; [|done]. destruct Hv'. rewrite !page_number_0.
    pose proof (idx_index 0 v') as Hidx'. change (Z.of_nat 0) with 0 in Hidx'. lia.
  - simpl. rewrite Hpte. by rewrite decide_True by done.
Qed.

(** Growing the child that [ensure_next_table] found. *)
Lemma grow_child {n} s free live r (cs : list (option (tree n))) i c s' free' new c' :
  @pt (S n) s free live (r, cs) → cs !! i = Some (Some c) → grows s live c s' free' new c' →
  @grows (S n) s live (r, cs) s' free' new (r, <[i := Some c']> cs) ∧
  ∀ v, @mapped (S n) (words s') (r, <[i := Some c']> cs) v =
    if decide (idx (S n) v = i) then mapped (words s') c' v else @mapped (S n) (words s) (r, cs) v.
Proof.
  intros Hpt Hc [Hpt' Hroot Hfr Hout]. pose proof Hpt as [Hp [Hlen Hr] Hl Hn]. cbn [fst snd] in *.
  pose proof Hpt' as [Hp' _ Hl' _].
  assert (Hi : (i < length cs)%nat) by (by eapply lookup_lt_Some).
  assert (Hrest : ∀ f, f ∈ rest r cs i → f ∈ new ++ live ∧ f ∉ frames c').
  { intros f Hf. pose proof (rest_live _ _ _ _ _ _ _ Hpt Hc f Hf) as Hfl. split; [set_solver|]. rewrite Hfr.
    intros [Hf'|Hf']%elem_of_app; [|by apply (child_rest_apart r cs i c Hn Hc f)].
    pose proof (pi_nodup _ _ _ _ _ Hp') as Hnd. apply NoDup_app in Hnd as (_ & _ & Hnd).
    apply NoDup_app in Hnd as (_ & Hnd & _). by apply (Hnd f). }
  assert (Hs : same_rest r cs i (words s) (words s')).
  { apply (out_same_rest s free live r cs i (Some c) s' free' (new ++ live) (frames c')); [done..|].
    intros a _ Ha. apply Hout. intros f Hf. apply Ha. set_solver. }
  assert (Hpte : pte (words s') r i = pte (words s) r i).
  { apply Hout. intros f Hf Hin. assert (f = r) as ->; [|apply (Hrest r); [left|done]].
    apply (frames_disjoint s' free' (new ++ live) f r (h + r + 8 * Z.of_nat i)); [done| |apply elem_of_app; right; apply (Hrest r); left|done|].
    - apply elem_of_app. right. by apply Hl'.
    - apply pte_in. exact (eq_ind _ (λ k, (i < k)%nat) Hi _ Hlen). }
  destruct (set_child s free live r cs i (Some c) (Some c') s' free' (new ++ live)) as [Hpt1 Hm]; [done..| |done|done|].
  - rewrite Hpte, Hroot. destruct (Hr i _ Hc) as (? & ? & _). done.
  - split; [split; [done..| |]|done].
    + rewrite frames_set, (frames_rest r cs i _ Hc) by done. cbn [frames_of]. rewrite Hfr, !app_assoc.
      by rewrite (Permutation_app_comm (rest r cs i) new).
    + intros a Ha. apply Hout. intros f Hf. apply Ha. rewrite frames_set by done. set_solver.
Qed.

Lemma grows_trans {n} s live (t : tree n) s1 free1 new1 t1 s2 free2 new2 t2 :
  grows s live t s1 free1 new1 t1 → grows s1 (new1 ++ live) t1 s2 free2 new2 t2 →
  grows s live t s2 free2 (new2 ++ new1) t2.
Proof.
  intros [_ Hr1 Hf1 Ho1] [Hp2 Hr2 Hf2 Ho2]. split.
  - by rewrite <-app_assoc.
  - congruence.
  - by rewrite Hf2, Hf1, app_assoc.
  - intros a Ha. rewrite Ho2 by done. apply Ho1. intros f Hf. apply Ha. rewrite Hf2. set_solver.
Qed.

(** [vmap] on a tree: it maps the page [v] and no other, or waits for a frame
    with nothing mapped. *)
Lemma map_rec_spec {n} s free live (t : tree n) v ent :
  pt s free live t → Z.land ent 3 = 0 ∨ Z.land ent 3 = 3 →
  ∃ r s' free' new t', map_rec n (root t) v ent s = r ∧ grows s live t s' free' new t' ∧
    (r = Ok (tt, s') ∧ mapped (words s') t' v = entry_mapping ent ∨
     r = Err (waiting, s') ∧ mapped (words s') t' v = mapped (words s) t v) ∧
    ∀ v', page_number n v' ≠ page_number n v → mapped (words s') t' v' = mapped (words s) t v'.
Proof.
  intros Hpt Hent. revert s free live t Hpt. induction n as [|n IH]; intros s free live t Hpt; cbn [map_rec].
  { rewrite (mbind_ok _ _ _ _ _ (uadd_root s free live t s Hpt)). cbn [root].
    destruct (store_leaf s free live t v ent Hpt Hent) as (s' & E & Hg & Hm & Hv). eauto 12. }
  rewrite (mbind_ok _ _ _ _ _ (uadd_root s free live t s Hpt)). destruct t as [r cs]. cbn [root fst].
  rewrite <-idx_index. destruct (ensure_spec s free live r cs (idx (S n) v) Hpt (idx_range _ _))
    as [(s1 & free1 & new1 & cs1 & c & E & Hg1 & Hc & Hm1)|(s1 & free1 & E & Hpt1 & Hw)].
  2: { rewrite (mbind_err _ _ _ _ _ E). exists (Err (waiting, s1)), s1, free1, [], (r, cs). rewrite Hw.
       split_and!; [done| |by right|done]. split; [done..|]. intros a _. by rewrite Hw. }
  rewrite (mbind_ok _ _ _ _ _ E).
  destruct (IH s1 free1 (new1 ++ live) c) as (res' & s2 & free2 & new2 & c2 & E2 & Hg2 & Hres & Hoth).
  { apply (child_pt s1 free1 (new1 ++ live) r cs1 (idx (S n) v)); [apply Hg1|done]. }
  destruct (grow_child s1 free1 (new1 ++ live) r cs1 (idx (S n) v) c s2 free2 new2 c2) as [Hg3 Hm3]; [apply Hg1|done..|].
  assert (Hmc : ∀ v', idx (S n) v' = idx (S n) v → mapped (words s1) c v' = @mapped (S n) (words s) (r, cs) v').
  { intros v' Hv'. rewrite <-Hm1. by rewrite mapped_S, Hv', Hc. }
  exists res', s2, free2, (new2 ++ new1), (r, <[idx (S n) v := Some c2]> cs1). split_and!; [done|by eapply grows_trans|..].
  - rewrite Hm3, decide_True by done. rewrite <-(Hmc v) by done. done.
  - intros v' Hv'. rewrite Hm3, <-Hm1. case_decide as Hi; [|done]. rewrite Hm1, <-(Hmc v' Hi). apply Hoth.
    intros Heq. apply Hv'. rewrite !page_number_S, Heq. do 2 f_equal. rewrite <-!idx_index. by rewrite Hi.
Qed.

(** ** Unmapping *)

(** The walk of [vunmap_internal] below the table at [l], and the part of
    [free_unused_tables] that concerns the tables below it.  The flag says that
    the table itself is to be looked at next. *)
Fixpoint unmap_rec (n : nat) (l v : Z) : VOp (option (Z * bool)) :=
  match n with
  | O =>
      let! e := load_pte l (index 0 v) in
      if Z.land e 3 =? 0 then mret None
      else let! _ := store_pte l (index 0 v) 0 in mret (Some (Z.land e PTE_ADDR_MASK, true))
  | S k =>
      let! r := next_table l (index (Z.of_nat n) v) h in
      match r with
      | None => mret None
      | Some l' =>
          let! r := unmap_rec k l' v in
          match r with
          | Some (p, true) =>
              let! e := table_empty l' in
              if negb e then mret (Some (p, false))
              else
                let! _ := store_pte l (index (Z.of_nat n) v) 0 in
                let! f := mlift (usub l' h) in
                let! _ := of_phys (frame_dealloc f) in
                mret (Some (p, true))
          | r => mret r
          end
      end
  end.

(** [t] has become [t'], and its tables [gone] were given back. *)
Record shrinks {n} (s : PhysMem) (live : list Z) (t : tree n) (s' : PhysMem) (free' live' gone : list Z) (t' : tree n) : Prop := mk_shrinks {
  sh_pt : pt s' free' live' t';
  sh_root : root t' = root t;
  sh_live : live ≡ₚ gone ++ live';
  sh_frames : frames t ≡ₚ gone ++ frames t';
  sh_out : same_out (frames t) (words s) (words s');
}.

Lemma clear_leaf s free live (t : tree 0) v e :
  pt s free live t → mapped (words s) t v = Some e →
  ∃ s', store_pte (h + t) (index 0 v) 0 s = Ok (tt, s') ∧ shrinks s live t s' free live [] t ∧ mapped (words s') t v = None ∧
    ∀ v', page_number 0 v' ≠ page_number 0 v → mapped (words s') t v' = mapped (words s) t v'.
Proof.
  intros Hpt He. destruct (store_leaf s free live t v 0 Hpt) as (s' & E & [Hp ? ? Ho] & Hm & Hv); [by left|].
  exists s'. split_and!; [done| |done|done]. by split.
Qed.

Lemma shrink_child {n} s free live r (cs : list (option (tree n))) i c s' free' live' gone c' :
  @pt (S n) s free live (r, cs) → cs !! i = Some (Some c) → shrinks s live c s' free' live' gone c' →
  @shrinks (S n) s live (r, cs) s' free' live' gone (r, <[i := Some c']> cs) ∧
  ∀ v, @mapped (S n) (words s') (r, <[i := Some c']> cs) v =
    if decide (idx (S n) v = i) then mapped (words s') c' v else @mapped (S n) (words s) (r, cs) v.
Proof.
  intros Hpt Hc [Hpt' Hroot Hlv Hfr Hout]. pose proof Hpt as [Hp [Hlen Hr] Hl Hn]. cbn [fst snd] in *.
  pose proof Hpt' as [Hp' _ Hl' _].
  assert (Hi : (i < length cs)%nat) by (by eapply lookup_lt_Some).
  assert (Hap : ∀ f, f ∈ rest r cs i → f ∉ frames c) by (by apply child_rest_apart).
  assert (Hrest : ∀ f, f ∈ rest r cs i → f ∈ live' ∧ f ∉ frames c').
  { intros f Hf. pose proof (rest_live _ _ _ _ _ _ _ Hpt Hc f Hf) as Hfl. specialize (Hap f Hf). rewrite Hfr in Hap.
    rewrite Hlv in Hfl. set_solver. }
  assert (Hs : same_rest r cs i (words s) (words s')).
  { apply (out_same_rest s free live r cs i (Some c) s' free' live' (frames c')); [done..|].
    intros a _ Ha. apply Hout. intros f Hf. apply Ha. set_solver. }
  assert (Hpte : pte (words s') r i = pte (words s) r i).
  { apply Hout. intros f Hf Hin. assert (f = r) as ->; [|apply (Hap r); [left|done]].
    apply (frames_disjoint s free live f r (h + r + 8 * Z.of_nat i)); [done| | |done|].
    - apply elem_of_app. right. apply Hl. by apply (child_frames r cs i c Hc).
    - apply elem_of_app. right. apply Hl. left.
    - apply pte_in. exact (eq_ind _ (λ k, (i < k)%nat) Hi _ Hlen). }
  destruct (set_child s free live r cs i (Some c) (Some c') s' free' live') as [Hpt1 Hm]; [done..| |done|done|].
  - rewrite Hpte, Hroot. destruct (Hr i _ Hc) as (? & ? & _). done.
  - split; [split; [done..| |]|done].
    + rewrite frames_set, (frames_rest r cs i _ Hc) by done. cbn [frames_of]. rewrite Hfr, !app_assoc.
      by rewrite (Permutation_app_comm (rest r cs i) gone).
    + intros a Ha. apply Hout. intros f Hf. apply Ha. rewrite (frames_rest r cs i _ Hc). set_solver.
Qed.

Lemma shrinks_trans {n} s live (t : tree n) s1 free1 live1 gone1 t1 s2 free2 live2 gone2 t2 :
  shrinks s live t s1 free1 live1 gone1 t1 → shrinks s1 live1 t1 s2 free2 live2 gone2 t2 →
  shrinks s live t s2 free2 live2 (gone1 ++ gone2) t2.
Proof.
  intros [_ Hr1 Hl1 Hf1 Ho1] [Hp2 Hr2 Hl2 Hf2 Ho2]. split; [done|congruence|..].
  - by rewrite Hl1, Hl2, app_assoc.
  - by rewrite Hf1, Hf2, app_assoc.
  - intros a Ha. rewrite Ho2; [by apply Ho1|]. intros f Hf. apply Ha. rewrite Hf1. set_solver.
Qed.

Definition no_entries (m : gmap Z Z) (f : Z) : Prop := ∀ i, (i < PTE_PER_PAGE)%nat → Z.land (pte m f i) 3 = 0.

Lemma table_empty_spec f s : ∃ b, table_empty (h + f) s = Ok (b, s) ∧ (b = true ↔ no_entries (words s) f).
Proof.
  unfold table_empty. eexists. split; [done|]. rewrite forallb_forall. split.
  - intros H i Hi. apply Z.eqb_eq, H, in_seq. unfold PTE_PER_PAGE in *. lia.
  - intros H i Hi%in_seq. apply Z.eqb_eq, H. unfold PTE_PER_PAGE in *. lia.
Qed.

Lemma empty_tree {n} (c : tree n) m :
  rep m c → no_entries m (root c) → frames c = [root c] ∧ ∀ v, mapped m c v = None.
Proof.
  destruct n as [|n]; cbn [rep root].
  - intros _ H. split; [done|]. intros v. cbn [mapped]. rewrite H by apply idx_range. done.
  - destruct c as [r cs]. cbn [fst snd]. intros [Hlen Hr] H.
    assert (Hnone : ∀ i o, cs !! i = Some o → o = None).
    { intros i [d|] Hi; [|done]. destruct (Hr i _ Hi) as [H3 _].
      rewrite H in H3; [done|]. rewrite <-Hlen. by eapply lookup_lt_Some. }
    split.
    + cbn [frames fst snd]. f_equal. clear -Hnone. induction cs as [|o cs IH]; [done|].
      rewrite (Hnone 0%nat o) by done. simpl. apply IH. intros i o' Hi. by apply (Hnone (S i)).
    + intros v. rewrite mapped_S. destruct (cs !! idx (S n) v) as [[d|]|] eqn:E; [|done..].
      by specialize (Hnone _ _ E).
Qed.

Lemma dealloc_run s free live f :
  phys_inv h rs s free (f :: live) →
  ∃ s', of_phys (frame_dealloc f) s = Ok (tt, s') ∧ phys_inv h rs s' (f :: free) live ∧
    words s' = <[h + f := HEAD s]> (words s).
Proof.
  intros Hp. destruct (frame_dealloc_spec h rs Hmap s free live f Hp) as (s' & E & Hp'). exists s'.
  unfold of_phys. rewrite E. split_and!; [done..|].
  destruct (live_frame s free (f :: live) f Hp) as (Hal & ? & _ & ?); [left|].
  revert E. unfold frame_dealloc, the_hhdm, rassert, set_word, set_HEAD. mstep.
  rewrite (proj2 (is_multiple_of_spec f PAGE_SIZE ltac:(done)) Hal), (pi_hhdm _ _ _ _ _ Hp), uadd_ok
    by (unfold PAGE_SIZE in *; lia). by intros [= <-].
Qed.

(** Giving back the table [f] below entry [i], which has no entries. *)
Lemma drop_child {n} s free live r (cs : list (option (tree n))) i c :
  @pt (S n) s free live (r, cs) → cs !! i = Some (Some c) → no_entries (words s) (root c) →
  ∃ s1 s' live', store_pte (h + r) (Z.of_nat i) 0 s = Ok (tt, s1) ∧ usub (h + root c) h = Ok (root c) (E := Waiting) ∧
    of_phys (frame_dealloc (root c)) s1 = Ok (tt, s') ∧
    @shrinks (S n) s live (r, cs) s' (root c :: free) live' [root c] (r, <[i := None]> cs) ∧
    ∀ v, @mapped (S n) (words s') (r, <[i := None]> cs) v = @mapped (S n) (words s) (r, cs) v.
Proof.
  intros Hpt Hc Hempty. pose proof Hpt as [Hp [Hlen Hr] Hl Hn]. cbn [fst snd] in *.
  destruct (empty_tree c (words s)) as [Hfr Hnone]; [by destruct (Hr i _ Hc) as (_ & _ & ?)|done|].
  assert (Hi : (i < length cs)%nat) by (by eapply lookup_lt_Some).
  assert (Hi' : (i < PTE_PER_PAGE)%nat) by (exact (eq_ind _ (λ k, (i < k)%nat) Hi _ Hlen)).
  set (f := root c) in *. assert (Hfl : f ∈ live) by (apply Hl; apply (child_frames r cs i c Hc); rewrite Hfr; left).
  apply elem_of_Permutation in Hfl as (live' & Hlv).
  set (s1 := set_words (<[h + r + 8 * Z.of_nat i := 0]> (words s)) s).
  assert (Hp1 : phys_inv h rs s1 free (f :: live')).
  { apply (phys_inv_perm h rs s1 free live); [done|]. apply (phys_inv_out s _ _ [r]); [done| |by apply same_out_insert, pte_in].
    intros g ->%list_elem_of_singleton. apply Hl. left. }
  destruct (dealloc_run s1 free live' f Hp1) as (s' & E & Hp' & Hw).
  destruct (live_frame s1 free (f :: live') f Hp1) as (_ & Hf0 & _); [left|].
  assert (Hap : ∀ g, g ∈ rest r cs i → g ∈ live ∧ g ≠ f).
  { intros g Hg. split; [by apply (rest_live _ _ _ _ _ _ _ Hpt Hc)|]. intros ->. apply (child_rest_apart r cs i c Hn Hc f Hg). rewrite Hfr. left. }
  assert (Hff : in_frame f (h + f)) by (unfold in_frame, PAGE_SIZE; lia).
  assert (Hout : ∀ a, a ≠ h + r + 8 * Z.of_nat i → ¬ in_frame f a → word_at (words s') a = word_at (words s) a).
  { intros a Hne Ha. rewrite Hw. unfold word_at, s1; simpl. rewrite !lookup_insert_ne; [done|done|by intros <-]. }
  assert (Hrf : h + f ≠ h + r + 8 * Z.of_nat i).
  { intros Heq. destruct (Hap r); [left|]. assert (r = f); [|done].
    apply (frames_disjoint s free live r f (h + f)); [done|set_solver| |rewrite Heq; by apply pte_in|done]. rewrite Hlv. set_solver. }
  destruct (set_child s free live r cs i (Some c) None s' (f :: free) live') as [Hpt' Hm]; [done..| | | |].
  - rewrite Hw. unfold pte, word_at, s1; simpl. rewrite lookup_insert_ne by done. by rewrite lookup_insert_eq.
  - intros g Hg. destruct (Hap g Hg) as [Hgl Hgf]. rewrite Hlv in Hgl. set_solver.
  - apply (out_same_rest s free live r cs i (Some c) s' (f :: free) live' []); [done..|set_solver| |].
    + intros g Hg. destruct (Hap g Hg) as [Hgl Hgf]. rewrite Hlv in Hgl. set_solver.
    + intros a Hne Ha. apply Hout; [done|]. apply Ha. simpl. rewrite Hfr. set_solver.
  - exists s1, s', live'. split_and!; [done|rewrite usub_ok by lia; f_equal; lia|done| |].
    + split; [done..| |].
      * rewrite frames_set, (frames_rest r cs i _ Hc) by done. cbn [frames_of]. rewrite Hfr, app_nil_r. apply Permutation_app_comm.
      * intros a Ha. apply Hout.
        -- intros ->. apply (Ha r); [left|by apply pte_in].
        -- apply Ha. rewrite (frames_rest r cs i _ Hc). cbn [frames_of]. rewrite Hfr. set_solver.
    + intros v. rewrite Hm. case_decide as Hv; [|done]. by rewrite mapped_S, Hv, Hc, Hnone.
Qed.

Lemma next_table_spec {n} s free live r (cs : list (option (tree n))) i :
  @pt (S n) s free live (r, cs) → (i < PTE_PER_PAGE)%nat →
  next_table (h + r) (Z.of_nat i) h s =
    Ok (match cs !! i with Some (Some c) => Some (h + root c) | _ => None end, s).
Proof.
  intros Hpt Hi. pose proof Hpt as [_ [Hlen Hr] _ _]. cbn [fst snd] in *.
  assert (is_Some (cs !! i)) as [o Ho] by (apply lookup_lt_is_Some_2; exact (eq_ind_r (λ k, (i < k)%nat) Hi Hlen)).
  specialize (Hr i o Ho). rewrite Ho. unfold next_table. rewrite (mbind_ok _ _ _ _ _ (load_pte_spec r i s)).
  destruct o as [c|]; [|by rewrite Hr]. destruct Hr as (-> & -> & _). simpl.
  by rewrite (mbind_ok _ _ _ _ _ (uadd_root s free live c s (child_pt _ _ _ _ _ _ _ Hpt Ho))).
Qed.

(** The tables below the table [r], which has [n] levels below it, on the way to
    the page of [v]. *)
Fixpoint walk (n : nat) (m : gmap Z Z) (r v : Z) : list Z :=
  match n with
  | O => []
  | S k =>
      let e := pte m r (idx n v) in
      if Z.land e 3 =? 3 then Z.land e PTE_ADDR_MASK :: walk k m (Z.land e PTE_ADDR_MASK) v else []
  end.
(** Some entry of the table [f] is in use. *)
Definition used (m : gmap Z Z) (f : Z) : Prop := ∃ i, (i < PTE_PER_PAGE)%nat ∧ Z.land (pte m f i) 3 ≠ 0.

Lemma walk_S {n} m r (cs : list (option (tree n))) v :
  rep (n := S n) m (r, cs) → walk (S n) m r v = match cs !! idx (S n) v with Some (Some c) => root c :: walk n m (root c) v | _ => [] end.
Proof.
  intros [Hlen Hr]. cbn [fst snd] in *. destruct (cs !! idx (S n) v) as [o|] eqn:E.
  - specialize (Hr _ _ E). cbn [walk]. destruct o as [c|]; [|by rewrite Hr]. by destruct Hr as (-> & -> & _).
  - apply lookup_ge_None in E. pose proof (eq_ind _ (λ k, (k ≤ idx (S n) v)%nat) E _ Hlen) as Hle. cbv beta in Hle. pose proof (idx_range (S n) v). lia.
Qed.
Lemma walk_frames {n} m (t : tree n) v : rep m t → walk n m (root t) v ⊆ frames t.
Proof.
  induction n as [|n IH]; intros Hr; [intros f Hf; by apply elem_of_nil in Hf|]. destruct t as [r cs]. cbn [root fst]. rewrite (walk_S _ _ _ _ Hr).
  destruct (cs !! idx (S n) v) as [[c|]|] eqn:E; [|intros f Hf; by apply elem_of_nil in Hf..]. destruct Hr as [_ Hr]. destruct (Hr _ _ E) as (_ & _ & Hc).
  intros f [->|Hf]%elem_of_cons; apply (child_frames r cs _ c E); [apply root_in_frames|by apply IH].
Qed.
Lemma walk_same {n} m m' (t : tree n) v : rep m t → same_in (frames t) m m' → walk n m' (root t) v = walk n m (root t) v.
Proof.
  induction n as [|n IH]; intros Hr Hs; [done|]. destruct t as [r cs]. cbn [root fst]. rewrite (walk_S m' r cs v (rep_same _ _ _ Hs Hr)), (walk_S m r cs v Hr).
  destruct (cs !! idx (S n) v) as [[c|]|] eqn:E; [|done..]. f_equal. destruct Hr as [_ Hr]. destruct (Hr _ _ E) as (_ & _ & Hc). apply IH; [done|].
  eapply same_in_sub; [|exact Hs]. by eapply child_frames.
Qed.
Lemma used_same F m m' f : same_in F m m' → f ∈ F → used m f → used m' f.
Proof. intros Hs Hf (i & Hi & Hu). exists i. split; [done|]. by rewrite (same_in_pte _ _ _ _ _ Hs). Qed.
Lemma not_empty_used m f : ¬ no_entries m f → used m f.
Proof.
  intros Hn. destruct (decide (Exists (λ i, Z.land (pte m f i) 3 ≠ 0) (seq 0 PTE_PER_PAGE))) as [(i & Hi%elem_of_seq & Hu)%Exists_exists|Hne].
  - exists i. split; [unfold PTE_PER_PAGE in *; lia|done].
  - destruct Hn. intros i Hi. destruct (decide (Z.land (pte m f i) 3 = 0)); [done|]. destruct Hne. apply Exists_exists. exists i. split; [apply elem_of_seq; unfold PTE_PER_PAGE in *; lia|done].
Qed.
Lemma empty_walk {n} m (c : tree n) v : rep m c → no_entries m (root c) → walk n m (root c) v = [].
Proof.
  destruct n as [|n]; [done|]. intros _ H. cbn [walk]. by rewrite H by apply idx_range.
Qed.
Lemma used_child {n} m r (cs : list (option (tree n))) i c : rep (n := S n) m (r, cs) → cs !! i = Some (Some c) → used m r.
Proof.
  intros [Hlen Hr] Hc. cbn [fst snd] in *. exists i. split; [rewrite <-Hlen; by eapply lookup_lt_Some|]. by destruct (Hr _ _ Hc) as (-> & _).
Qed.

(** What unmapping does to the tables on the way: those that were given back were
    its lower end, and every one that is left has an entry; so has the table
    itself unless it is to be looked at next. *)
Record trimmed (n : nat) (r v : Z) (b : bool) (m m' : gmap Z Z) (gone : list Z) : Prop := mk_trimmed {
  tr_walk : walk n m r v = walk n m' r v ++ reverse gone;
  tr_used : ∀ f, f ∈ walk n m' r v → used m' f;
  tr_root : b = false → used m' r;
}.
Lemma trimmed_keep {n} m s1 free1 live1 r (cs : list (option (tree n))) v c c1 b gone :
  rep (n := S n) m (r, cs) → cs !! idx (S n) v = Some (Some c) → root c1 = root c →
  @pt (S n) s1 free1 live1 (r, <[idx (S n) v := Some c1]> cs) →
  trimmed n (root c) v b m (words s1) gone → used (words s1) (root c) →
  trimmed (S n) r v false m (words s1) gone.
Proof.
  intros Hrep Hc Hroot [_ Hrep1 _ _] [Hw Hu _] Hc1. assert (Hi : (idx (S n) v < length cs)%nat) by (by eapply lookup_lt_Some).
  assert (Ew : walk (S n) (words s1) r v = root c :: walk n (words s1) (root c) v).
  { rewrite (walk_S _ _ _ _ Hrep1), list_lookup_insert_eq by done. by rewrite Hroot. }
  split; rewrite ?Ew, ?(walk_S _ _ _ _ Hrep), ?Hc.
  - by rewrite Hw.
  - intros f [->|Hf]%elem_of_cons; [done|by apply Hu].
  - intros _. eapply (used_child _ _ _ _ c1 Hrep1). by apply list_lookup_insert_eq.
Qed.

Lemma unmap_rec_spec {n} s free live (t : tree n) v :
  pt s free live t →
  match mapped (words s) t v with
  | None => unmap_rec n (h + root t) v s = Ok (None, s)
  | Some e => ∃ b s' free' live' gone t', unmap_rec n (h + root t) v s = Ok (Some (Z.land e PTE_ADDR_MASK, b), s') ∧
      shrinks s live t s' free' live' gone t' ∧ mapped (words s') t' v = None ∧
      (∀ v', page_number n v' ≠ page_number n v → mapped (words s') t' v' = mapped (words s) t v') ∧
      trimmed n (root t) v b (words s) (words s') gone
  end.
Proof.
  revert s free live t. induction n as [|n IH]; intros s free live t Hpt; cbn [unmap_rec].
  { pose proof (idx_index 0 v) as Hidx. change (Z.of_nat 0) with 0 in Hidx.
    assert (Hl : load_pte (h + root t) (index 0 v) s = Ok (pte (words s) t (idx 0 v), s)) by (by rewrite <-Hidx).
    destruct (mapped (words s) t v) as [e|] eqn:He; rewrite (mbind_ok _ _ _ _ _ Hl).
    - destruct (clear_leaf s free live t v e Hpt He) as (s' & E & Hsh & Hv & Hoth). cbn [mapped] in He.
      destruct (Z.eqb_spec (Z.land (pte (words s) t (idx 0 v)) 3) 3) as [H3|]; [|done]. injection He as He.
      rewrite H3, He. simpl. rewrite (mbind_ok _ _ _ _ _ E). exists true, s', free, live, [], t. split_and!; [done..|]. split; [done|by intros f Hf%elem_of_nil|done].
    - cbn [mapped] in He. destruct (Z.eqb_spec (Z.land (pte (words s) t (idx 0 v)) 3) 3) as [|H3]; [done|].
      destruct Hpt as [_ Hr _ _]. destruct (Hr (idx 0 v) (idx_range _ _)) as [->|?]; [done|contradiction]. }
  destruct t as [r cs]. cbn [root fst]. rewrite <-idx_index.
  rewrite (mbind_ok _ _ _ _ _ (next_table_spec s free live r cs _ Hpt (idx_range _ _))). rewrite mapped_S.
  destruct (cs !! idx (S n) v) as [[c|]|] eqn:Hc; [|done..].
  pose proof (child_pt _ _ _ _ _ _ _ Hpt Hc) as Hptc. specialize (IH s free live c Hptc).
  destruct (mapped (words s) c v) as [e|] eqn:He; [|by rewrite (mbind_ok _ _ _ _ _ IH)].
  destruct IH as (b & s1 & free1 & live1 & gone1 & c1 & E1 & Hsh1 & Hv1 & Hoth1 & Htr1).
  rewrite (mbind_ok _ _ _ _ _ E1). pose proof Hsh1 as [Hpt1 Hroot1 _ _ _].
  destruct (shrink_child s free live r cs _ c s1 free1 live1 gone1 c1 Hpt Hc Hsh1) as [Hsh2 Hm2].
  set (i := idx (S n) v) in *. assert (Hi : (i < length cs)%nat) by (by eapply lookup_lt_Some).
  assert (Hoth : ∀ v', page_number (S n) v' ≠ page_number (S n) v →
    @mapped (S n) (words s1) (r, <[i := Some c1]> cs) v' = @mapped (S n) (words s) (r, cs) v').
  { intros v' Hv'. rewrite Hm2. case_decide as Hi'; [|done]. rewrite mapped_S, Hi', Hc. apply Hoth1.
    intros Heq. apply Hv'. rewrite !page_number_S, Heq, <-!idx_index. by rewrite Hi'. }
  assert (Hv2 : @mapped (S n) (words s1) (r, <[i := Some c1]> cs) v = None) by (rewrite Hm2; by rewrite decide_True).
  assert (Hkeep : used (words s1) (root c) → trimmed (S n) r v false (words s) (words s1) gone1).
  { apply (trimmed_keep _ s1 free1 live1 r cs v c c1 b gone1); [apply Hpt|done|done|apply Hsh2|done]. }
  destruct b; [|exists false, s1, free1, live1, gone1, (r, <[i := Some c1]> cs); split_and!; [done..|]; by apply Hkeep, (tr_root _ _ _ _ _ _ _ Htr1)].
  rewrite <-Hroot1 in *. destruct (table_empty_spec (root c1) s1) as (b & Eb & Hb). rewrite (mbind_ok _ _ _ _ _ Eb).
  destruct b; simpl; [|exists false, s1, free1, live1, gone1, (r, <[i := Some c1]> cs); split_and!; [done..|]; apply Hkeep, not_empty_used; naive_solver].
  destruct (drop_child s1 free1 live1 r (<[i := Some c1]> cs) i c1) as (s2 & s3 & live3 & E2 & E3 & E4 & Hsh4 & Hm4);
    [apply Hsh2|by apply list_lookup_insert_eq|by apply Hb|].
  rewrite (mbind_ok _ _ _ _ _ E2), (mbind_ok _ _ _ _ _ (mlift_ok _ _ _ E3)), (mbind_ok _ _ _ _ _ E4).
  exists true, s3, (root c1 :: free1), live3, (gone1 ++ [root c1]), (r, <[i := None]> (<[i := Some c1]> cs)). split_and!; [done|by eapply shrinks_trans|..].
  - exact (eq_trans (Hm4 v) Hv2).
  - intros v' Hv'. exact (eq_trans (Hm4 v') (Hoth v' Hv')).
  - assert (Hnil : walk (S n) (words s3) r v = []).
    { rewrite (walk_S _ _ _ _ (pt_rep _ _ _ _ (sh_pt _ _ _ _ _ _ _ _ Hsh4))), list_lookup_insert_eq; [done|]. by rewrite length_insert. }
    split; rewrite ?Hnil; [|by intros f Hf%elem_of_nil|done]. rewrite (walk_S _ _ _ _ (pt_rep _ _ _ _ Hpt)). unfold i in Hc. rewrite Hc.
    rewrite reverse_app, <-Hroot1, (tr_walk _ _ _ _ _ _ _ Htr1), (empty_walk _ c1); [done|apply Hpt1|by apply Hb].
Qed.

(** Only the page number of an address matters. *)
Lemma mapped_page {n} m (t : tree n) v v' : page_number n v = page_number n v' → mapped m t v = mapped m t v'.
Proof.
  assert (Hidx : ∀ k, index (Z.of_nat k) v = index (Z.of_nat k) v' → idx k v = idx k v') by (intros k Hk; unfold idx; by rewrite Hk).
  induction n as [|n IH]; intros E.
  - rewrite !page_number_0 in E. cbn [mapped]. by rewrite (Hidx 0%nat E).
  - destruct t as [r cs]. rewrite !page_number_S in E. rewrite !mapped_S.
    assert (0 ≤ page_number n v < 512 ^ Z.of_nat (S n)) by (apply Z.mod_pos_bound; apply Z.pow_pos_nonneg; lia).
    assert (0 ≤ page_number n v' < 512 ^ Z.of_nat (S n)) by (apply Z.mod_pos_bound; apply Z.pow_pos_nonneg; lia).
    assert (E1 : index (Z.of_nat (S n)) v = index (Z.of_nat (S n)) v').
    { apply (Z.div_mod_unique (512 ^ Z.of_nat (S n)) _ _ (page_number n v) (page_number n v')); lia. }
    assert (E2 : page_number n v = page_number n v') by (rewrite E1 in E; lia).
    rewrite (Hidx _ E1). destruct (cs !! idx (S n) v') as [[c|]|]; [by apply IH|done..].
Qed.

(** ** Address spaces *)

(** [space] maps the page of [v] with the entry [A v]; its tables are [T]. *)
Definition address_space (s : PhysMem) (free live : list Z) (space : Z) (T : list Z) (A : Z → option Z) : Prop :=
  ∃ t : tree 3, root t = root_of space ∧ frames t ≡ₚ T ∧ pt s free live t ∧ ∀ v, A v = mapped (words s) t v.

Lemma hhdm_run s : HHDM_OFFSET s = Some h → of_phys the_hhdm s = Ok (h, s).
Proof. intros Hh. unfold of_phys, the_hhdm. by rewrite Hh. Qed.
Lemma of_phys_hhdm s free live : phys_inv h rs s free live → of_phys the_hhdm s = Ok (h, s).
Proof. intros Hp. apply hhdm_run, Hp. Qed.

Lemma vmap_eq space v p options s free live :
  phys_inv h rs s free live →
  vmap space v p options s =
  map_rec 3 (root_of space) v (Z.lor (Z.land p PTE_ADDR_MASK) (create_aarch64_attributes options)) s.
Proof. intros Hp. unfold vmap. by rewrite (mbind_ok _ _ _ _ _ (of_phys_hhdm s free live Hp)). Qed.

Lemma mbind_assoc {S E A B C} (m : M S E A) (k : A → M S E B) (k' : B → M S E C) s :
  mbind' (mbind' m k) k' s = mbind' m (λ a, mbind' (k a) k') s.
Proof. unfold mbind'. by destruct (m s) as [[a s']|[e s']|]. Qed.

Lemma mbind_ret {S E A B} (a : A) (k : A → M S E B) s : mbind' (mret a) k s = k a s.
Proof. done. Qed.

Lemma mbind_ext {S E A B} (m : M S E A) (k k' : A → M S E B) s :
  (∀ a s', m s = Ok (a, s') → k a s' = k' a s') → mbind' m k s = mbind' m k' s.
Proof. unfold mbind'. intros H. destruct (m s) as [[a s']|[e s']|] eqn:Em; [by apply H|done..]. Qed.

Lemma next_table_state l i s r s' : next_table l i h s = Ok (r, s') → s' = s.
Proof.
  unfold next_table, load_pte. mstep. destruct (_ =? _); [|by intros [= _ <-]].
  destruct (uadd _ _); [by intros [= _ <-]|done..].
Qed.

Lemma vunmap_eq space v b s free live :
  phys_inv h rs s free live →
  vunmap_internal space v b s =
  (let! l0 := mlift (uadd (root_of space) h) in
   let! r := unmap_rec 3 l0 v in
   match r with
   | None => mret None
   | Some (p, _) =>
       let! _ := (if b then of_phys (frame_dealloc p) else mret tt) in
       mret (Some p)
   end) s.
Proof.
  intros Hp. pose proof (pi_hhdm _ _ _ _ _ Hp) as Hh.
  unfold vunmap_internal. rewrite (mbind_ok _ _ _ _ _ (of_phys_hhdm s free live Hp)). clear Hp.
  apply mbind_ext. intros l0 s0 E0. assert (s0 = s) as -> by (revert E0; unfold mlift; destruct (uadd _ _); congruence).
  cbn [unmap_rec]. rewrite mbind_assoc. apply mbind_ext. intros [l1|] s1 ->%next_table_state; [|done].
  rewrite !mbind_assoc. apply mbind_ext. intros [l2|] s2 ->%next_table_state; [|done].
  rewrite !mbind_assoc. apply mbind_ext. intros [l3|] s3 ->%next_table_state; [|done].
  rewrite !mbind_assoc. apply mbind_ext. intros e s4 [= <- <-].
  destruct (Z.land _ 3 =? 0); [done|]. rewrite !mbind_assoc. apply mbind_ext. intros [] s5 [= <-].
  unfold free_unused_tables. rewrite !mbind_assoc, mbind_ret.
  erewrite mbind_ok by (by apply hhdm_run).
  do 2 (rewrite !mbind_assoc; apply mbind_ext; intros [] ? _; [simpl|done];
        do 3 (rewrite !mbind_assoc; apply mbind_ext; intros ? ? _); rewrite mbind_ret).
  rewrite !mbind_assoc; apply mbind_ext; intros [] ? _; [simpl|done].
  do 3 (rewrite !mbind_assoc; apply mbind_ext; intros ? ? _). done.
Qed.

Lemma attributes_bits options :
  Z.land (create_aarch64_attributes options) 3 = (if contains options PRESENT then 3 else 0) ∧
  Z.land (create_aarch64_attributes options) PTE_ADDR_MASK = 0.
Proof.
  unfold create_aarch64_attributes.
  destruct (contains options PRESENT), (contains options WRITABLE), (contains options USER_ACCESSIBLE),
    (contains options EXECUTABLE), (contains options DEVICE_MEMORY), (contains options CACHEABLE); by vm_compute.
Qed.

Definition leaf_entry (paddr options : Z) : Z := Z.lor (Z.land paddr PTE_ADDR_MASK) (create_aarch64_attributes options).

Lemma leaf_entry_bits p options :
  Z.land (leaf_entry p options) 3 = (if contains options PRESENT then 3 else 0) ∧
  Z.land (leaf_entry p options) PTE_ADDR_MASK = Z.land p PTE_ADDR_MASK.
Proof.
  unfold leaf_entry. destruct (attributes_bits options) as [H1 H2]. rewrite !Z.land_lor_distr_l, <-!Z.land_assoc, H1, H2.
  change (Z.land PTE_ADDR_MASK 3) with 0. change (Z.land PTE_ADDR_MASK PTE_ADDR_MASK) with PTE_ADDR_MASK.
  by rewrite Z.land_0_r, Z.lor_0_r.
Qed.

Lemma leaf_entry_mapping p options :
  entry_mapping (leaf_entry p options) = if contains options PRESENT then Some (leaf_entry p options) else None.
Proof. unfold entry_mapping. destruct (leaf_entry_bits p options) as [-> _]. by destruct (contains options PRESENT). Qed.

(** [vmap] on an address space. *)
Lemma vmap_spec s free live space T A v p options :
  address_space s free live space T A →
  ∃ r s' free' new A', vmap space v p options s = r ∧
    (r = Ok (tt, s') ∧ A' v = (if contains options PRESENT then Some (leaf_entry p options) else None) ∨
     r = Err (waiting, s') ∧ A' v = A v) ∧
    (∀ v', page_number 3 v' ≠ page_number 3 v → A' v' = A v') ∧
    address_space s' free' (new ++ live) space (new ++ T) A' ∧
    same_out (new ++ T) (words s) (words s').
Proof.
  intros (t & Hroot & HT & Hpt & HA). rewrite (vmap_eq _ _ _ _ s free live) by apply Hpt.
  destruct (map_rec_spec s free live t v (leaf_entry p options) Hpt) as (r & s' & free' & new & t' & E & [Hpt' Hr' Hf' Ho] & Hres & Hoth).
  { destruct (leaf_entry_bits p options) as [-> _]. destruct (contains options PRESENT); auto. }
  rewrite Hroot in E. exists r, s', free', new, (mapped (words s') t').
  split_and!; [done|by rewrite <-leaf_entry_mapping, HA|intros v' Hv'; rewrite HA; by apply Hoth| |].
  - exists t'. split_and!; [by rewrite Hr'|by rewrite Hf', HT|done|done].
  - intros a Ha. apply Ho. intros f Hf. apply Ha. by rewrite <-HT, <-Hf'.
Qed.

(** C6: on an address space whose tables are frames of the allocator, [vmap]
    maps the page of [v] to the frame with the permissions asked for, and
    changes no other page's mapping; or it is still waiting for a frame for a
    table, and has changed no mapping.  Either way the new tables come from the
    allocator, and no memory outside the tables is written. *)
Theorem vmap_correct s free live space T A v p options :
  address_space s free live space T A →
  ∃ r s' free' new A', vmap space v p options s = r ∧
    (r = Ok (tt, s') ∧ A' v = (if contains options PRESENT then Some (leaf_entry p options) else None) ∨
     r = Err (waiting, s') ∧ A' v = A v) ∧
    (∀ v', page_number 3 v' ≠ page_number 3 v → A' v' = A v') ∧
    address_space s' free' (new ++ live) space (new ++ T) A' ∧
    same_out (new ++ T) (words s) (words s').
Proof. apply vmap_spec. Qed.

Lemma get_phys_walk s free live (t : tree 3) v :
  pt s free live t →
  (let! r := next_table (h + root t) (index 3 v) h in
   match r with None => mret None | Some l1 =>
   let! r := next_table l1 (index 2 v) h in
   match r with None => mret None | Some l2 =>
   let! r := next_table l2 (index 1 v) h in
   match r with None => mret None | Some l3 =>
   let! e := load_pte l3 (index 0 v) in
   if Z.land e 1 =? 0 then mret None
   else mret (Some (Z.lor (Z.land e PTE_ADDR_MASK) (Z.land v 0xFFF)))
   end end end) s =
  Ok ((λ e, Z.lor (Z.land e PTE_ADDR_MASK) (Z.land v 0xFFF)) <$> mapped (words s) t v, s).
Proof.
  intros H3. destruct t as [r3 cs3]. cbn [root fst]. rewrite mapped_S.
  rewrite <-(idx_index 3 v : Z.of_nat (idx 3 v) = index 3 v), (mbind_ok _ _ _ _ _ (next_table_spec s free live r3 cs3 _ H3 (idx_range _ _))).
  destruct (cs3 !! idx 3 v) as [[[r2 cs2]|]|] eqn:E3; [|done..]. pose proof (child_pt s free live r3 cs3 _ _ H3 E3) as H2.
  rewrite mapped_S, <-(idx_index 2 v : Z.of_nat (idx 2 v) = index 2 v). cbn [root fst].
  rewrite (mbind_ok _ _ _ _ _ (next_table_spec s free live r2 cs2 _ H2 (idx_range _ _))).
  destruct (cs2 !! idx 2 v) as [[[r1 cs1]|]|] eqn:E2; [|done..]. pose proof (child_pt s free live r2 cs2 _ _ H2 E2) as H1.
  rewrite mapped_S, <-(idx_index 1 v : Z.of_nat (idx 1 v) = index 1 v). cbn [root fst].
  rewrite (mbind_ok _ _ _ _ _ (next_table_spec s free live r1 cs1 _ H1 (idx_range _ _))).
  destruct (cs1 !! idx 1 v) as [[r0|]|] eqn:E1; [|done..]. pose proof (pt_rep _ _ _ _ (child_pt s free live r1 cs1 _ _ H1 E1)) as Hr.
  rewrite <-(idx_index 0 v : Z.of_nat (idx 0 v) = index 0 v). cbn [root].
  rewrite (mbind_ok _ _ _ _ _ (load_pte_spec r0 (idx 0 v) s)). cbn [mapped].
  assert (Hone : ∀ e, Z.land e 1 = Z.land (Z.land e 3) 1) by (intros e; by rewrite <-Z.land_assoc).
  rewrite Hone. destruct (Hr (idx 0 v) (idx_range _ _)) as [->| ->]; done.
Qed.

(** [get_phys_addr] gives the physical address that the page of [v] is mapped to,
    with the offset of [v] in the page, or nothing. *)
Lemma get_phys_addr_spec s free live space T A v :
  address_space s free live space T A →
  get_phys_addr v space s = Ok ((λ e, Z.lor (Z.land e PTE_ADDR_MASK) (Z.land v 0xFFF)) <$> A v, s).
Proof.
  intros (t & Hroot & _ & Hpt & HA). unfold get_phys_addr. rewrite (mbind_ok _ _ _ _ _ (of_phys_hhdm s free live (pt_phys _ _ _ _ Hpt))).
  rewrite <-Hroot, (mbind_ok _ _ _ _ _ (uadd_root s free live t s Hpt)). rewrite HA. by apply (get_phys_walk s free live).
Qed.

(** Giving back a frame that is not a table of the tree. *)
Lemma dealloc_pt {n} s free live (t : tree n) f :
  pt s free live t → f ∈ live → f ∉ frames t →
  ∃ s' live', of_phys (frame_dealloc f) s = Ok (tt, s') ∧ live ≡ₚ f :: live' ∧ pt s' (f :: free) live' t ∧
    same_out [f] (words s) (words s') ∧ ∀ v, mapped (words s') t v = mapped (words s) t v.
Proof.
  intros [Hp Hr Hl Hn] Hf Hnf. pose proof Hf as (live' & Hlv)%elem_of_Permutation.
  pose proof (phys_inv_perm h rs s free live (f :: live') Hlv Hp) as Hp1.
  destruct (dealloc_run s free live' f Hp1) as (s' & E & Hp' & Hw).
  assert (Hff : in_frame f (h + f)) by (unfold in_frame, PAGE_SIZE; lia).
  assert (Hout : same_out [f] (words s) (words s')) by (rewrite Hw; by apply same_out_insert).
  assert (Hs : same_in (frames t) (words s) (words s')).
  { intros g a Hg Ha. apply Hout. intros g' ->%list_elem_of_singleton Hga. assert (g = f) as ->; [|done].
    apply (frames_disjoint s free live g f a); [done|apply elem_of_app; right; by auto..|done|done]. }
  exists s', live'. split_and!; [done..| |done|intros v; by apply mapped_same].
  split; [done|by apply (rep_same _ (words s))| |done]. intros g Hg. specialize (Hl g Hg). rewrite Hlv in Hl.
  apply elem_of_cons in Hl as [->|]; done.
Qed.

(** [vunmap_internal] on an address space. *)
Lemma vunmap_full s free live space T A v (free_frame : bool) :
  address_space s free live space T A →
  match A v with
  | None => vunmap_internal space v free_frame s = Ok (None, s)
  | Some e =>
      let f := Z.land e PTE_ADDR_MASK in
      let back := if free_frame then [f] else [] in
      (free_frame = true → f ∈ live ∧ f ∉ T) →
      ∃ s' free' live' gone T' A', vunmap_internal space v free_frame s = Ok (Some f, s') ∧
        A' v = None ∧ (∀ v', page_number 3 v' ≠ page_number 3 v → A' v' = A v') ∧
        live ≡ₚ gone ++ back ++ live' ∧ T ≡ₚ gone ++ T' ∧
        address_space s' free' live' space T' A' ∧ same_out (back ++ T) (words s) (words s') ∧
        walk 3 (words s) (root_of space) v = walk 3 (words s') (root_of space) v ++ reverse gone ∧
        ∀ f, f ∈ walk 3 (words s') (root_of space) v → used (words s') f
  end.
Proof.
  intros (t & Hroot & HT & Hpt & HA). rewrite (vunmap_eq _ _ _ s free live) by apply Hpt.
  rewrite <-Hroot, (mbind_ok _ _ _ _ _ (uadd_root s free live t s Hpt)).
  pose proof (unmap_rec_spec s free live t v Hpt) as Hu. rewrite HA.
  destruct (mapped (words s) t v) as [e|] eqn:He; [|by rewrite (mbind_ok _ _ _ _ _ Hu)].
  destruct Hu as (b & s1 & free1 & live1 & gone & t1 & E & [Hpt1 Hr1 Hl1 Hf1 Ho1] & Hv & Hoth & [Hw Hus _]).
  intros f back Hback. rewrite (mbind_ok _ _ _ _ _ E). subst f.
  destruct free_frame; subst back.
  - destruct (Hback eq_refl) as [Hfl HfT].
    rewrite <-HT, Hf1, not_elem_of_app in HfT. destruct HfT as [HfT1 HfT2].
    rewrite Hl1, elem_of_app in Hfl. destruct Hfl as [|Hfl]; [done|].
    destruct (dealloc_pt s1 free1 live1 t1 (Z.land e PTE_ADDR_MASK) Hpt1 Hfl HfT2) as (s2 & live2 & E2 & Hl2 & Hpt2 & Ho2 & Hm2).
    assert (Hin2 : same_in (frames t1) (words s1) (words s2)).
    { intros g a Hg Ha. apply Ho2. intros g' ->%list_elem_of_singleton Hga. apply HfT2. assert (g = Z.land e PTE_ADDR_MASK) as <-; [|done].
      apply (frames_disjoint s1 free1 live1 _ _ a (pt_phys _ _ _ _ Hpt1)); [apply elem_of_app; right..|done|done]; [by apply Hpt1|done]. }
    rewrite (mbind_ok _ _ _ _ _ E2). exists s2, (Z.land e PTE_ADDR_MASK :: free1), live2, gone, (frames t1), (mapped (words s2) t1).
    split_and!; [done|by rewrite Hm2|intros v' Hv'; rewrite Hm2, HA; by apply Hoth|by rewrite Hl1, Hl2|by rewrite <-HT, Hf1|..].
    + exists t1. by rewrite Hr1.
    + intros a Ha. rewrite Ho2 by (intros g Hg; apply Ha, elem_of_app; by left).
      apply Ho1. intros g Hg. apply Ha, elem_of_app. right. by rewrite <-HT.
    + rewrite <-Hr1, (walk_same _ _ t1 v (pt_rep _ _ _ _ Hpt1) Hin2), Hr1. exact Hw.
    + intros g. rewrite <-Hr1, (walk_same _ _ t1 v (pt_rep _ _ _ _ Hpt1) Hin2). intros Hg.
      apply (used_same _ _ _ _ Hin2 (walk_frames _ t1 v (pt_rep _ _ _ _ Hpt1) g Hg)). apply Hus. by rewrite <-Hr1.
  - rewrite mbind_ret. exists s1, free1, live1, gone, (frames t1), (mapped (words s1) t1).
    split_and!; [done|done|intros v' Hv'; rewrite HA; by apply Hoth|by rewrite Hl1|by rewrite <-HT, Hf1| | |done|done].
    + exists t1. by rewrite Hr1.
    + intros a Ha. apply Ho1. intros g Hg. apply Ha. by rewrite <-HT.
Qed.

Lemma vunmap_spec s free live space T A v (free_frame : bool) :
  address_space s free live space T A →
  match A v with
  | None => vunmap_internal space v free_frame s = Ok (None, s)
  | Some e =>
      let f := Z.land e PTE_ADDR_MASK in
      let back := if free_frame then [f] else [] in
      (free_frame = true → f ∈ live ∧ f ∉ T) →
      ∃ s' free' live' gone T' A', vunmap_internal space v free_frame s = Ok (Some f, s') ∧
        A' v = None ∧ (∀ v', page_number 3 v' ≠ page_number 3 v → A' v' = A v') ∧
        live ≡ₚ gone ++ back ++ live' ∧ T ≡ₚ gone ++ T' ∧
        address_space s' free' live' space T' A' ∧ same_out (back ++ T) (words s) (words s')
  end.
Proof.
  intros HS. pose proof (vunmap_full s free live space T A v free_frame HS) as Hu. destruct (A v) as [e|]; [|done].
  intros f back Hback. destruct (Hu Hback) as (s' & free' & live' & gone & T' & A' & ? & ? & ? & ? & ? & ? & ? & _). by exists s', free', live', gone, T', A'.
Qed.

(** C7: [vunmap] of a page that is not mapped changes nothing.  For a mapped
    page it returns the frame, unmaps the page and no other page, and writes to no
    memory but the tables (and the frame, if it is to be freed).  Of the tables on
    the way to the page it gives back exactly the lower end that has become empty:
    the tables on the way are those that are left followed by those given back, and
    each table that is left below the root has an entry in use. *)
Theorem vunmap_correct s free live space T A v (free_frame : bool) :
  address_space s free live space T A →
  match A v with
  | None => vunmap_internal space v free_frame s = Ok (None, s)
  | Some e =>
      let f := Z.land e PTE_ADDR_MASK in
      let back := if free_frame then [f] else [] in
      (free_frame = true → f ∈ live ∧ f ∉ T) →
      ∃ s' free' live' gone T' A', vunmap_internal space v free_frame s = Ok (Some f, s') ∧
        A' v = None ∧ (∀ v', page_number 3 v' ≠ page_number 3 v → A' v' = A v') ∧
        live ≡ₚ gone ++ back ++ live' ∧ T ≡ₚ gone ++ T' ∧
        address_space s' free' live' space T' A' ∧ same_out (back ++ T) (words s) (words s') ∧
        walk 3 (words s) (root_of space) v = walk 3 (words s') (root_of space) v ++ reverse gone ∧
        ∀ f, f ∈ walk 3 (words s') (root_of space) v → used (words s') f
  end.
Proof. apply vunmap_full. Qed.
End tables.

(** ** An address space *)

Definition pt_map : list Entry := [mkEntry 0x1000 0x20000 USABLE].

Lemma pt_map_ok : map_ok 0x100000 pt_map.
Proof.
  split; [done| |].
  - intros [|i] e; [intros [= <-] _; simpl|done]. split_and!; [lia|lia|by exists 1|by vm_compute].
  - intros [|i] e [|j] f; done.
Qed.

(** The state after start-up with one frame taken for the root table. *)
Definition demo_phys : PhysMem :=
  match init_physical_memory_allocator 0x100000 pt_map (initial ∅) with
  | Ok (_, s) => match frame_alloc tt s with Ok (_, s') => s' | _ => s end
  | _ => initial ∅
  end.

Lemma pt_map_48 i e : pt_map !! i = Some e → entry_type e = USABLE → ebase e + elength e ≤ 2 ^ 48.
Proof. destruct i as [|i]; [intros [= <-] _; vm_compute; done|done]. Qed.

Lemma demo_space : address_space 0x100000 pt_map demo_phys [] [0x1000] 0x1000 [0x1000] (λ _, None).
Proof.
  exists (fresh 3 0x1000). split_and!; [done|by rewrite fresh_frames| |by intros v; rewrite fresh_mapped].
  split; [|by apply fresh_rep|by rewrite fresh_frames|rewrite fresh_frames; apply NoDup_singleton].
  assert (∃ s, init_physical_memory_allocator 0x100000 pt_map (initial ∅) = Ok (tt, s)) as [s Es] by (by eexists).
  pose proof (init_phys_inv _ _ _ _ pt_map_ok Es) as Hi.
  destruct (frame_alloc_bump _ _ pt_map_ok s [] Hi) as [(_ & f & s' & E & Hi')|(_ & s' & E & _)];
    injection Es as <-; vm_compute in E; [|done]. injection E as <- <-. exact Hi'.
Qed.

Lemma vmap_correct_witness : ∃ s', vmap 0x1000 0x4000_3000 0x5000 (Z.lor PRESENT WRITABLE) demo_phys = Ok (tt, s').
Proof.
  destruct (vmap_correct 0x100000 pt_map pt_map_ok pt_map_48 demo_phys [] [0x1000] 0x1000 [0x1000] (λ _, None)
    0x4000_3000 0x5000 (Z.lor PRESENT WRITABLE) demo_space) as (r & s' & _ & _ & _ & E & [[-> _]|[-> _]] & _); [by exists s'|].
  exfalso. revert E. vm_compute. done.
Defined.

(** The address space with one page mapped. *)
Definition pt_mapped : PhysMem :=
  match vmap 0x1000 0x4000_3000 0x5000 (Z.lor PRESENT WRITABLE) demo_phys with Ok (_, s) => s | _ => demo_phys end.

Lemma pt_mapped_space : ∃ free live T A,
  address_space 0x100000 pt_map pt_mapped free live 0x1000 T A ∧
  A 0x4000_3000 = Some (leaf_entry 0x5000 (Z.lor PRESENT WRITABLE)).
Proof.
  destruct demo_space as (t & Hroot & HT & Hpt & _).
  destruct (map_rec_spec 0x100000 pt_map pt_map_ok pt_map_48 demo_phys [] [0x1000] t 0x4000_3000
    (leaf_entry 0x5000 (Z.lor PRESENT WRITABLE)) Hpt ltac:(by right)) as (r & s' & free' & new & t' & E & [Hpt' Hr' _ _] & Hres & _).
  rewrite Hroot in E.
  assert (pt_mapped = s' ∧ r = Ok (tt, s')) as [<- ->].
  { destruct Hres as [[-> _]|[-> _]]; revert E; unfold pt_mapped; [|by vm_compute].
    intros E. split; [|done]. unfold leaf_entry in E. by rewrite (vmap_eq _ _ _ _ _ _ _ _ _ (pt_phys _ _ _ _ _ _ Hpt)), E. }
  destruct Hres as [[_ Hm]|[? _]]; [|done].
  exists free', (new ++ [0x1000]), (frames t'), (mapped 0x100000 (words pt_mapped) t').
  split; [|rewrite Hm, leaf_entry_mapping; reflexivity].
  exists t'. split; [rewrite Hr'; exact Hroot|]. split; [reflexivity|]. split; [exact Hpt'|reflexivity].
Qed.

Lemma vunmap_correct_witness : ∃ s', vunmap_internal 0x1000 0x4000_3000 false pt_mapped = Ok (Some 0x5000, s').
Proof.
  destruct pt_mapped_space as (free & live & T & A & HS & HA).
  pose proof (vunmap_correct 0x100000 pt_map pt_map_ok pt_map_48 pt_mapped free live 0x1000 T A 0x4000_3000 false HS) as H.
  rewrite HA in H. destruct H as (s' & _ & _ & _ & _ & _ & E & _); [done|]. exists s'. exact E.
Defined.
