(* ===== verification/KernelVM.v ===== *)
(** * Kernel virtual memory (src/memory/virtual_memory.rs)

    The kernel's address ranges are kept in two trees: [active], the allocated
    ranges by base, and [free], the gaps between them by length and base.
    [reserve] is the part of [VirtualMemoryAllocation::new] that works on the
    trees, [release] that of its [Drop]; the pages themselves are mapped and
    unmapped by the page tables. *)

From stdpp Require Import sorting list_tactics.
From S2P Require Import Prelude RBTree PhysMem PageTable.

Record VirtualMemoryEntry : Type := mkVME { vbase : Z; vlength : Z; voptions : Z }.
#[global] Instance VME_eq_dec : EqDecision VirtualMemoryEntry.
Proof. solve_decision. Defined.

(** [KeyAdapter] of the two trees. *)
Definition free_key (e : VirtualMemoryEntry) : Z * Z := (vlength e, vbase e).

(** The order of tuples. *)
Definition kle (a b : Z * Z) : Prop := a.1 < b.1 ∨ a.1 = b.1 ∧ a.2 ≤ b.2.

Record VirtualMemoryEntryContainer (TA TF : Type) : Type := mkVMES {
  low : Z;
  high : Z;
  active : TA;
  free : TF;
}.
Arguments mkVMES {TA TF}.
Arguments low {TA TF}.
Arguments high {TA TF}.
Arguments active {TA TF}.
Arguments free {TA TF}.

Section kernel_vm.
Context {TA TF : Type} {OA : RBTree vbase TA} {OF : RBTree free_key TF}.
Abbreviation VMES := (VirtualMemoryEntryContainer TA TF).
Abbreviation KOp A := (M VMES Empty_set A).

Definition set_active (t : TA) : KOp unit := mmodify (λ v, mkVMES (low v) (high v) t (free v)).
Definition set_free (t : TF) : KOp unit := mmodify (λ v, mkVMES (low v) (high v) (active v) t).

Definition container_new (low high : Z) : res Empty_set VMES :=
  let? length := usub high low in
  Ok (mkVMES low high rb_empty (rb_insert (mkVME low length 0) rb_empty)).

(** [find_mut(key).remove().expect(..)] and [lower_bound_mut(..)] on the tree of
    free ranges. *)
Definition take_free (c : cursor) : KOp VirtualMemoryEntry :=
  let! v := mget in
  match c with
  | None => mpanic
  | Some i =>
      let! e := mlift (unwrap (rb_elems (free v) !! i)) in
      let! _ := set_free (rb_remove (free v) i) in
      mret e
  end.
Definition insert_free (e : VirtualMemoryEntry) : KOp unit :=
  let! v := mget in
  set_free (rb_insert e (free v)).

(** A SHADOW range that one active entry covers. *)
Definition covered (v : VMES) (base length : Z) : res Empty_set bool :=
  match rb_get (active v) (rb_upper_bound (active v) (Included base)) with
  | None => Ok false
  | Some entry =>
      let? e := uadd (vbase entry) (vlength entry) in
      let? r := uadd base length in
      Ok (r <=? e)
  end.

Definition choose_fixed (base : Z) : KOp VirtualMemoryEntry :=
  let! v := mget in
  let cursor := rb_upper_bound (active v) (Excluded base) in
  let! bottom := mlift (match rb_get (active v) cursor with
                        | Some entry => uadd (vbase entry) (vlength entry)
                        | None => Ok (low v)
                        end) in
  let cursor := rb_move_next (active v) cursor in
  let top := match rb_get (active v) cursor with Some entry => vbase entry | None => high v end in
  let! l := mlift (usub top bottom) in
  let! chosen := take_free (rb_find (free v) (l, bottom)) in
  if vbase chosen <? base then
    let! cut := mlift (usub base (vbase chosen)) in
    let! _ := insert_free (mkVME (vbase chosen) cut 0) in
    let! l := mlift (usub (vlength chosen) cut) in
    mret (mkVME base l (voptions chosen))
  else mret chosen.

Definition choose_best (length : Z) : KOp VirtualMemoryEntry :=
  let! v := mget in
  take_free (rb_lower_bound (free v) (Included (length, 0))).

(** The tail of [reserve]: [chosen], which is out of the free tree, starts with
    the range handed out. *)
Definition finish (chosen : VirtualMemoryEntry) (length options : Z) : KOp (option Z) :=
  let! _ := mlift (rassert (length <=? vlength chosen)) in
  let base := vbase chosen in
  let! _ := (if negb (vlength chosen =? length) then
               let! b := mlift (uadd (vbase chosen) length) in
               let! l := mlift (usub (vlength chosen) length) in
               insert_free (mkVME b l (voptions chosen))
             else mret tt) in
  let! v := mget in
  let! _ := set_active (rb_insert (mkVME base length options) (active v)) in
  mret (Some base).

(** The outcome [None] is the early return for a covered SHADOW range. *)
Definition reserve (start : option Z) (length options : Z) : KOp (option Z) :=
  let! _ := mlift (rassert (is_multiple_of length PAGE_SIZE)) in
  let! v := mget in
  let! done := mlift (match start with
                      | Some base => if contains options SHADOW then covered v base length else Ok false
                      | None => Ok false
                      end) in
  if done : bool then mret None else
  let! chosen := match start with Some base => choose_fixed base | None => choose_best length end in
  finish chosen length options.

(** [cursor.remove()], which moves the cursor to the next element. *)
Definition remove_active (base : Z) : KOp (VirtualMemoryEntry * cursor) :=
  let! v := mget in
  match rb_find (active v) base with
  | None => mpanic
  | Some i =>
      let! found := mlift (unwrap (rb_elems (active v) !! i)) in
      let t := rb_remove (active v) i in
      let! _ := set_active t in
      mret (found, if decide (i < length (rb_elems t))%nat then Some i else None)
  end.

Definition merge_above (found : VirtualMemoryEntry) (c : cursor) : KOp VirtualMemoryEntry :=
  let! v := mget in
  match rb_get (active v) c with
  | Some next =>
      let! e := mlift (uadd (vbase found) (vlength found)) in
      if negb (vbase next =? e) then
        let! d := mlift (usub (vbase next) (vbase found)) in
        let! d := mlift (usub d (vlength found)) in
        let! above := take_free (rb_find (free v) (d, e)) in
        let! l := mlift (uadd (vlength found) (vlength above)) in
        mret (mkVME (vbase found) l (voptions found))
      else mret found
  | None =>
      match rb_get (free v) (rb_back (free v)) with
      | Some back =>
          if vbase found <? vbase back then
            let! e := mlift (uadd (vbase found) (vlength found)) in
            let! _ := mlift (rassert (e =? vbase back)) in
            let! l := mlift (uadd (vlength found) (vlength back)) in
            mret (mkVME (vbase found) l (voptions found))
          else mret found
      | None => mret found
      end
  end.

Definition merge_below (found : VirtualMemoryEntry) (c : cursor) : KOp VirtualMemoryEntry :=
  let! v := mget in
  match rb_get (active v) c with
  | Some prev =>
      let! e := mlift (uadd (vbase prev) (vlength prev)) in
      let! _ := mlift (rassert (e <=? vbase found)) in
      if negb (e =? vbase found) then
        let! d := mlift (usub (vbase found) (vbase prev)) in
        let! d := mlift (usub d (vlength prev)) in
        let! below := take_free (rb_find (free v) (d, e)) in
        let! l := mlift (uadd (vlength found) (vlength below)) in
        mret (mkVME (vbase below) l (voptions found))
      else mret found
  | None =>
      match rb_get (free v) (rb_front (free v)) with
      | Some front =>
          if vbase front <? vbase found then
            let! e := mlift (uadd (vbase front) (vlength front)) in
            let! _ := mlift (rassert (e =? vbase found)) in
            let! l := mlift (uadd (vlength found) (vlength front)) in
            mret (mkVME (vbase front) l (voptions found))
          else mret found
      | None => mret found
      end
  end.

Definition release (base : Z) : KOp unit :=
  let! (found, c) := remove_active base in
  let! found := merge_above found c in
  let! v := mget in
  let! found := merge_below found (rb_move_prev (active v) c) in
  insert_free found.

(** ** The gaps between active ranges *)

Definition vend (e : VirtualMemoryEntry) : Z := vbase e + vlength e.
Definition range (e : VirtualMemoryEntry) : Z * Z := (vbase e, vlength e).
Definition gap (a b : Z) : list (Z * Z) := if a <? b then [(a, b - a)] else [].

Fixpoint gaps (lo : Z) (l : list VirtualMemoryEntry) (hi : Z) : list (Z * Z) :=
  match l with
  | [] => gap lo hi
  | e :: l => gap lo (vbase e) ++ gaps (vend e) l hi
  end.

(** The ranges of [l] are in order, apart from each other and in [lo, hi). *)
Fixpoint ordered (lo : Z) (l : list VirtualMemoryEntry) (hi : Z) : Prop :=
  match l with
  | [] => lo ≤ hi
  | e :: l => lo ≤ vbase e ∧ 0 < vlength e ∧ ordered (vend e) l hi
  end.

Lemma gap_empty a b : b ≤ a → gap a b = [].
Proof. unfold gap. zcase; [lia|done]. Qed.
Lemma gap_some a b : a < b → gap a b = [(a, b - a)].
Proof. unfold gap. zcase; [done|lia]. Qed.
Lemma gap_elem g a b : g ∈ gap a b ↔ g = (a, b - a) ∧ a < b.
Proof. unfold gap. zcase; rewrite ?list_elem_of_singleton, ?elem_of_nil; naive_solver lia. Qed.

Lemma gaps_app lo l1 e l2 hi : gaps lo (l1 ++ e :: l2) hi = gaps lo l1 (vbase e) ++ gaps (vend e) l2 hi.
Proof. revert lo. induction l1 as [|x l1 IH]; intros lo; simpl; [done|]. by rewrite IH, app_assoc. Qed.

Lemma ordered_app lo l1 e l2 hi :
  ordered lo (l1 ++ e :: l2) hi ↔ ordered lo l1 (vbase e) ∧ 0 < vlength e ∧ ordered (vend e) l2 hi.
Proof. revert lo. induction l1 as [|x l1 IH]; intros lo; simpl; [done|]. rewrite IH. tauto. Qed.

Lemma ordered_le lo l hi : ordered lo l hi → lo ≤ hi.
Proof. revert lo. induction l as [|e l IH]; intros lo; simpl; [done|]. intros (? & ? & H%IH). unfold vend in H. lia. Qed.

Lemma ordered_elem lo l hi e : ordered lo l hi → e ∈ l → lo ≤ vbase e ∧ 0 < vlength e ∧ vend e ≤ hi.
Proof.
  intros H (l1 & l2 & ->)%list_elem_of_split. apply ordered_app in H as (H1%ordered_le & ? & H2%ordered_le). done.
Qed.

(** Entries in order are sorted by their base, and the base names the entry. *)
Lemma ordered_sorted lo l hi : ordered lo l hi → StronglySorted (λ x y, vbase x ≤ vbase y) l.
Proof.
  revert lo. induction l as [|e l IH]; intros lo; simpl; [constructor|]. intros (_ & Hl & H). constructor; [by eapply IH|].
  apply Forall_forall. intros x Hx. destruct (ordered_elem _ _ _ _ H Hx) as (? & _). unfold vend in *. lia.
Qed.
Lemma ordered_inj lo l hi x y : ordered lo l hi → x ∈ l → y ∈ l → vbase x = vbase y → x = y.
Proof.
  revert lo. induction l as [|e l IH]; intros lo; simpl; [by intros _ ?%elem_of_nil|].
  intros (_ & Hl & H) [->|Hx]%elem_of_cons [->|Hy]%elem_of_cons E; [done|..|by eapply IH].
  - destruct (ordered_elem _ _ _ _ H Hy) as (? & _). unfold vend in *. lia.
  - destruct (ordered_elem _ _ _ _ H Hx) as (? & _). unfold vend in *. lia.
Qed.

(** The addresses where the entries of [l] end and start. *)
Definition end_of (lo : Z) (l : list VirtualMemoryEntry) : Z := match last l with Some e => vend e | None => lo end.
Definition start_of (l : list VirtualMemoryEntry) (hi : Z) : Z := match l with e :: _ => vbase e | [] => hi end.

Lemma end_of_cons lo e l : end_of lo (e :: l) = end_of (vend e) l.
Proof. unfold end_of. destruct l as [|x l]; [done|]. rewrite last_cons_cons. by destruct (last (x :: l)) eqn:E; [|rewrite last_None in E]. Qed.

(** A gap, and what putting an entry into it does. *)
Lemma split_gap lo l hi g :
  ordered lo l hi → g ∈ gaps lo l hi →
  ∃ l1 l2 G1 G2, l = l1 ++ l2 ∧ gaps lo l hi = G1 ++ g :: G2 ∧ 0 < g.2 ∧ lo ≤ g.1 ∧ g.1 + g.2 ≤ hi ∧
    end_of lo l1 = g.1 ∧ start_of l2 hi = g.1 + g.2 ∧
    (∀ e, gaps lo (l1 ++ e :: l2) hi = G1 ++ gap g.1 (vbase e) ++ gap (vend e) (g.1 + g.2) ++ G2) ∧
    (∀ e, g.1 ≤ vbase e → 0 < vlength e → vend e ≤ g.1 + g.2 → ordered lo (l1 ++ e :: l2) hi).
Proof.
  revert lo. induction l as [|x l IH]; intros lo; cbn [ordered gaps].
  - intros _ [-> Hlt]%gap_elem. exists [], [], [], []. simpl. rewrite gap_some by done.
    replace (lo + (hi - lo)) with hi by lia. split_and!; [done..|lia|lia|lia|done|done|intros e; by rewrite app_nil_r|tauto].
  - intros (Hlo & Hlen & Hl) [Hg|Hg]%elem_of_app.
    + apply gap_elem in Hg as [-> Hlt]. exists [], (x :: l), [], (gaps (vend x) l hi). simpl. rewrite gap_some by done.
      replace (lo + (vbase x - lo)) with (vbase x) by lia. apply ordered_le in Hl as Hle. unfold vend in Hle.
      split_and!; [done..|lia|lia|lia|done|done|done|]. intros e H1 H2 H3. done.
    + destruct (IH _ Hl Hg) as (l1 & l2 & G1 & G2 & -> & HG & Hpos & Hg1 & Hg2 & He & Hs & Hput & Hord).
      exists (x :: l1), l2, (gap lo (vbase x) ++ G1), G2. rewrite end_of_cons. simpl. unfold vend in Hg1.
      split_and!; [done|by rewrite HG, app_assoc|done|lia|done|done|done| |].
      * intros e. by rewrite Hput, app_assoc.
      * intros e ???. split_and!; [done..|]. by apply Hord.
Qed.

(** ** The invariant *)

Context {HOA : RBTreeSpec Z.le OA} {HOF : RBTreeSpec kle OF}.

(** The active ranges are in order and the free ranges are their gaps. *)
Record vm_inv (v : VMES) : Prop := mk_vm_inv {
  vi_low : 0 ≤ low v;
  vi_high : high v ≤ usize_max;
  vi_active : ordered (low v) (rb_elems (active v)) (high v);
  vi_free : range <$> rb_elems (free v) ≡ₚ gaps (low v) (rb_elems (active v)) (high v);
}.

#[local] Instance kle_refl : Reflexive kle.
Proof. intros [a b]. right. simpl. lia. Qed.

Lemma container_new_inv lo hi v :
  0 ≤ lo → lo < hi → hi ≤ usize_max → container_new lo hi = Ok v → vm_inv v ∧ rb_elems (active v) = [].
Proof.
  intros Hlo Hlt Hhi. unfold container_new. rewrite usub_ok by lia. simpl. intros [= <-].
  split; [|apply rb_elems_empty]. split; cbn [low high active free]; rewrite ?rb_elems_empty; [done..|simpl; lia|].
  rewrite (rb_insert_perm kle), rb_elems_empty. simpl. by rewrite gap_some by done.
Qed.

Lemma insert_active (t : TA) e l1 l2 lo hi :
  rb_elems t = l1 ++ l2 → ordered lo (l1 ++ e :: l2) hi → rb_elems (rb_insert e t) = l1 ++ e :: l2.
Proof.
  intros Ht Ho. apply (StronglySorted_unique_strong (λ x y, vbase x ≤ vbase y)).
  - intros x y Hx Hy H1 H2. eapply ordered_inj; [exact Ho| |done|lia].
    revert Hx. rewrite (rb_insert_perm Z.le), Ht. by rewrite Permutation_middle.
  - apply (rb_sorted (O := OA)).
  - by eapply ordered_sorted.
  - by rewrite (rb_insert_perm Z.le), Ht, Permutation_middle.
Qed.

Lemma take_free_spec v i e :
  rb_elems (free v) !! i = Some e →
  ∃ t, take_free (Some i) v = Ok (e, mkVMES (low v) (high v) (active v) t) ∧ rb_elems (free v) ≡ₚ e :: rb_elems t.
Proof.
  intros Hi. exists (rb_remove (free v) i). split; [|by apply (rb_remove_perm kle)].
  unfold take_free, set_free. mstep. by rewrite Hi.
Qed.

Lemma find_free v g :
  vm_inv v → g ∈ gaps (low v) (rb_elems (active v)) (high v) →
  ∃ i e, rb_find (free v) (g.2, g.1) = Some i ∧ rb_elems (free v) !! i = Some e ∧ range e = g.
Proof.
  intros [_ _ _ Hf] Hg. rewrite <-Hf in Hg. apply list_elem_of_fmap in Hg as (e & -> & He).
  destruct (rb_find_elem kle (free v) (vlength e, vbase e) e He eq_refl) as (i & e' & Hi & He' & Hk).
  exists i, e'. split_and!; [done..|]. injection Hk as H1 H2. unfold range. by rewrite H1, H2.
Qed.

(** The range at [b] is handed out of the gap [g]: the free ranges are the
    other gaps, the part below [b] and the part from [b] on ([chosen]). *)
Lemma finish_spec (v : VMES) chosen length options g (t0 : TF) :
  vm_inv v → g ∈ gaps (low v) (rb_elems (active v)) (high v) → 0 < length →
  g.1 ≤ vbase chosen → vbase chosen + vlength chosen = g.1 + g.2 → length ≤ vlength chosen →
  (∀ G1 G2, gaps (low v) (rb_elems (active v)) (high v) = G1 ++ g :: G2 →
     range <$> rb_elems t0 ≡ₚ gap g.1 (vbase chosen) ++ G1 ++ G2) →
  ∃ v', finish chosen length options (mkVMES (low v) (high v) (active v) t0) = Ok (Some (vbase chosen), v') ∧ vm_inv v' ∧
    low v' = low v ∧ high v' = high v ∧
    rb_elems (active v') ≡ₚ mkVME (vbase chosen) length options :: rb_elems (active v).
Proof.
  intros [Hlo Hhi Ha Hf] Hg Hl H1 H2 H3 Ht0.
  destruct (split_gap _ _ _ _ Ha Hg) as (l1 & l2 & G1 & G2 & Hl12 & HG & Hpos & Hg1 & Hg2 & _ & _ & Hput & Hord).
  specialize (Ht0 G1 G2 HG). set (e := mkVME (vbase chosen) length options).
  assert (Hins : rb_elems (rb_insert e (active v)) = l1 ++ e :: l2).
  { eapply insert_active; [done|]. apply Hord; unfold vend; simpl; lia. }
  subst e. unfold finish, insert_free, set_free, set_active, rassert. mstep. zcase; [|lia].
  destruct (Z.eqb_spec (vlength chosen) length) as [Heq|Hne]; simpl.
  - eexists. split_and!; [done|split; cbn [low high active free]; rewrite ?Hins; [done..|apply Hord; unfold vend; simpl; lia|]|done|done|].
    + rewrite Hput. unfold vend; simpl. rewrite (gap_empty (vbase chosen + length)) by lia. rewrite Ht0. simpl. solve_Permutation.
    + cbn [active]. rewrite Hins, Hl12. by rewrite Permutation_middle.
  - rewrite uadd_ok, usub_ok by lia.
    eexists. split_and!; [done|split; cbn [low high active free]; rewrite ?Hins; [done..|apply Hord; unfold vend; simpl; lia|]|done|done|].
    + rewrite Hput, (rb_insert_perm kle). unfold vend; simpl. rewrite (gap_some (vbase chosen + length)) by lia. rewrite Ht0.
      unfold range at 1; simpl. replace (g.1 + g.2 - (vbase chosen + length)) with (vlength chosen - length) by lia. solve_Permutation.
    + cbn [active]. rewrite Hins, Hl12. by rewrite Permutation_middle.
Qed.

(** ** Allocation *)

Lemma remove_gap (v : VMES) g e t :
  vm_inv v → rb_elems (free v) ≡ₚ e :: rb_elems t → range e = g →
  ∀ G1 G2, gaps (low v) (rb_elems (active v)) (high v) = G1 ++ g :: G2 → range <$> rb_elems t ≡ₚ G1 ++ G2.
Proof.
  intros [_ _ _ Hf] Ht He G1 G2 HG. rewrite HG, Ht in Hf. simpl in Hf. rewrite He, <-Permutation_middle in Hf.
  by apply (Permutation_cons_inv (a := g)) in Hf.
Qed.

Lemma reserve_best_spec v length options :
  vm_inv v → 0 < length → aligned length PAGE_SIZE →
  (∃ b L v', (b, L) ∈ gaps (low v) (rb_elems (active v)) (high v) ∧ length ≤ L ∧
     (∀ g, g ∈ gaps (low v) (rb_elems (active v)) (high v) → length ≤ g.2 → kle (L, b) (g.2, g.1)) ∧
     reserve None length options v = Ok (Some b, v') ∧ vm_inv v' ∧ low v' = low v ∧ high v' = high v ∧
     rb_elems (active v') ≡ₚ mkVME b length options :: rb_elems (active v)) ∨
  (∀ g, g ∈ gaps (low v) (rb_elems (active v)) (high v) → g.2 < length) ∧ reserve None length options v = Panic.
Proof.
  intros Hi Hl Hal. pose proof Hi as [Hlo Hhi Ha Hf].
  assert (Hrun : reserve None length options v = mbind' (choose_best length) (λ c, finish c length options) v).
  { unfold reserve. rewrite mbind_assert by (by apply is_multiple_of_spec). done. }
  rewrite Hrun. unfold choose_best, mbind', mget.
  assert (Hpos : ∀ e, e ∈ rb_elems (free v) → 0 ≤ vbase e ∧ range e ∈ gaps (low v) (rb_elems (active v)) (high v)).
  { intros e He. assert (Hg : range e ∈ gaps (low v) (rb_elems (active v)) (high v)) by (rewrite <-Hf; by apply list_elem_of_fmap_2).
    split; [|done]. destruct (split_gap _ _ _ _ Ha Hg) as (_ & _ & _ & _ & _ & _ & _ & H & _). simpl in H. lia. }
  destruct (rb_get (free v) (rb_lower_bound (free v) (Included (length, 0)))) as [e|] eqn:E.
  - left. destruct (rb_lower_get kle _ _ _ E) as (He & Hk & Hmin). destruct (Hpos e He) as [Hb Hg].
    destruct (rb_lower_bound (free v) (Included (length, 0))) as [i|]; [|done]. simpl in E.
    destruct (take_free_spec v i e E) as (t & Et & Ht). rewrite Et.
    assert (length ≤ vlength e) by (destruct Hk as [|[? _]]; simpl in *; lia).
    destruct (finish_spec v e length options (range e) t) as (v' & Ef & Hi' & ? & ? & Hact); [done|done|done|simpl; lia|done|done| |].
    { intros G1 G2 HG. simpl. rewrite (gap_empty (vbase e)) by lia. simpl. by apply (remove_gap v (range e) e t). }
    exists (vbase e), (vlength e), v'. split_and!; [done|done| |done..].
    intros g Hg' Hlg. rewrite <-Hf in Hg'. apply list_elem_of_fmap in Hg' as (f & -> & Hf'). simpl in *.
    apply (Hmin f Hf'). destruct (Hpos f Hf') as [? _]. unfold free_key, kle; simpl. lia.
  - right. pose proof (rb_lower_get_None kle _ _ E) as Hn. split.
    + intros g Hg. rewrite <-Hf in Hg. apply list_elem_of_fmap in Hg as (f & -> & Hf'). simpl.
      specialize (Hn f Hf'). destruct (Hpos f Hf') as [? _]. unfold free_key, kle in Hn; simpl in Hn. lia.
    + destruct (rb_lower_bound (free v) (Included (length, 0))) as [i|] eqn:Ei; [|done].
      apply (rb_lower_Some (kle := kle)) in Ei as (x & Hx & _). simpl in E. congruence.
Qed.

(** The cursors around [base], between the entries below it and the others. *)
Lemma around_base (t : TA) base l1 l2 :
  rb_elems t = l1 ++ l2 → (∀ x, x ∈ l1 → vbase x < base) → (∀ x, x ∈ l2 → base ≤ vbase x) →
  let c := rb_upper_bound t (Excluded base) in
  rb_get t c = last l1 ∧ rb_get t (rb_move_next t c) = head l2.
Proof.
  intros Ht H1 H2. simpl. rewrite (rb_move_next_spec (kle := Z.le)), (rb_front_spec (kle := Z.le)).
  destruct (rb_upper_bound t (Excluded base)) as [i|] eqn:E.
  - apply (rb_upper_Some (kle := Z.le)) in E as (x & Hx & Hb & Hmax). simpl in *. rewrite Ht in *.
    assert (Hi : (i < length l1)%nat).
    { destruct (decide (i < length l1)%nat); [done|]. rewrite lookup_app_r in Hx by lia.
      apply list_elem_of_lookup_2, H2 in Hx. lia. }
    assert (Hlast : i = pred (length l1)).
    { destruct (decide (S i < length l1)%nat) as [Hlt|]; [|lia]. apply lookup_lt_is_Some_2 in Hlt as [y Hy].
      destruct (Hmax (S i) y); [lia|by rewrite lookup_app_l by (by eapply lookup_lt_Some)|].
      apply list_elem_of_lookup_2, H1 in Hy. lia. }
    split.
    + rewrite Hx. rewrite lookup_app_l in Hx by done. rewrite last_lookup, <-Hlast. done.
    + rewrite length_app. case_decide; simpl.
      * rewrite Ht, lookup_app_r by lia. replace (S i - length l1)%nat with 0%nat by lia. by destruct l2.
      * destruct l2; [done|simpl in *; lia].
  - assert (l1 = []) as ->.
    { destruct l1 as [|x l1]; [done|]. destruct (rb_upper_None (kle := Z.le) _ _ E x); [rewrite Ht; left|].
      assert (vbase x < base) by (apply H1; left). simpl. lia. }
    simpl. split; [done|]. rewrite Ht. simpl in *. destruct l2; [done|]. simpl. by rewrite Ht.
Qed.

Lemma ordered_split lo l1 l2 hi :
  ordered lo (l1 ++ l2) hi →
  (∀ x, x ∈ l1 → vend x ≤ end_of lo l1 ∧ vbase x < end_of lo l1) ∧ (∀ x, x ∈ l2 → start_of l2 hi ≤ vbase x) ∧
  lo ≤ end_of lo l1 ∧ end_of lo l1 ≤ start_of l2 hi ∧ start_of l2 hi ≤ hi.
Proof.
  revert lo. induction l1 as [|x l1 IH]; intros lo.
  - simpl. unfold end_of; simpl. intros H. split; [by intros x ?%elem_of_nil|]. destruct l2 as [|y l2]; simpl in *.
    + split; [by intros x ?%elem_of_nil|lia].
    + destruct H as (? & ? & H). apply ordered_le in H as H'. unfold vend in H'. split; [|lia].
      intros z [->|Hz]%elem_of_cons; [done|]. destruct (ordered_elem _ _ _ _ H Hz) as [? _]. unfold vend in *. lia.
  - rewrite end_of_cons. simpl. intros (? & ? & H). destruct (IH _ H) as (I1 & I2 & I3 & I4 & I5). unfold vend in I3 at 1.
    split_and!; [|done|lia..]. intros z [->|Hz]%elem_of_cons; [|by apply I1]. unfold vend at 1. lia.
Qed.

Lemma reserve_fixed_spec v base length options g :
  vm_inv v → 0 < length → aligned length PAGE_SIZE → g ∈ gaps (low v) (rb_elems (active v)) (high v) →
  g.1 ≤ base → base + length ≤ g.1 + g.2 →
  ∃ v', reserve (Some base) length options v = Ok (Some base, v') ∧ vm_inv v' ∧ low v' = low v ∧ high v' = high v ∧
    rb_elems (active v') ≡ₚ mkVME base length options :: rb_elems (active v).
Proof.
  intros Hi Hl Hal Hg Hb1 Hb2. pose proof Hi as [Hlo Hhi Ha Hf].
  destruct (split_gap _ _ _ _ Ha Hg) as (l1 & l2 & G1 & G2 & Hl12 & HG & Hpos & Hg1 & Hg2 & He & Hs & _ & _).
  rewrite Hl12 in Ha. destruct (ordered_split _ _ _ _ Ha) as (O1 & O2 & O3 & O4 & O5). rewrite He, Hs in *.
  destruct (around_base (active v) base l1 l2 Hl12) as [Hc1 Hc2].
  { intros x Hx. destruct (O1 x Hx). lia. }
  { intros x Hx. specialize (O2 x Hx). lia. }
  assert (Hcov : covered v base length = Ok false).
  { unfold covered. destruct (rb_get (active v) (rb_upper_bound (active v) (Included base))) as [x|] eqn:E; [|done].
    destruct (rb_upper_get Z.le _ _ _ E) as (Hx & Hxb & _). rewrite Hl12 in Hx.
    destruct (ordered_elem _ _ _ _ Ha Hx) as (? & ? & ?). unfold vend in *. rewrite !uadd_ok by lia. simpl.
    f_equal. apply Z.leb_gt. apply elem_of_app in Hx as [Hx|Hx]; [destruct (O1 x Hx); unfold vend in *; lia|].
    specialize (O2 x Hx). simpl in *. lia. }
  destruct (find_free v g Hi Hg) as (i & e & Hfind & Hei & Hr).
  destruct (take_free_spec v i e Hei) as (t & Et & Ht).
  assert (Hbot : match last l1 with Some entry => uadd (vbase entry) (vlength entry) | None => Ok (low v) end = Ok g.1 (E := Empty_set)).
  { unfold end_of in He. destruct (last l1) as [x|]; [|by rewrite He]. unfold vend in He. rewrite uadd_ok by lia. by rewrite He. }
  assert (Htop : match head l2 with Some entry => vbase entry | None => high v end = g.1 + g.2) by (rewrite <-Hs; by destruct l2).
  assert (Hrange : vbase e = g.1 ∧ vlength e = g.2) by (by rewrite <-Hr). destruct Hrange as [Heb Hel].
  assert (Hrun : reserve (Some base) length options v = mbind' (choose_fixed base) (λ c, finish c length options) v).
  { unfold reserve. rewrite mbind_assert by (by apply is_multiple_of_spec). rewrite mbind_ok with (a := v) (s' := v) by done.
    rewrite (mbind_ok _ _ v false v); [done|]. destruct (contains options SHADOW); [|done]. by rewrite Hcov. }
  rewrite Hrun. unfold choose_fixed. rewrite !mbind_assoc, mbind_ok with (a := v) (s' := v) by done.
  rewrite mbind_assoc, Hc1, Hbot, (mbind_ok _ _ v g.1 v) by done. rewrite Hc2, Htop.
  rewrite mbind_assoc, (mbind_ok _ _ _ _ _ (mlift_ok _ _ _ (usub_ok (g.1 + g.2) g.1 ltac:(lia)))).
  replace (g.1 + g.2 - g.1) with g.2 by lia. rewrite Hfind, mbind_assoc, (mbind_ok _ _ _ _ _ Et), Heb, Hel.
  destruct (Z.ltb_spec g.1 base) as [Hlt|Hge].
  - rewrite mbind_assoc, (mbind_ok _ _ _ _ _ (mlift_ok _ _ _ (usub_ok base g.1 ltac:(lia)))).
    rewrite mbind_assoc, mbind_ok with (a := tt) (s' := mkVMES (low v) (high v) (active v) (rb_insert (mkVME g.1 (base - g.1) 0) t)) by done.
    rewrite mbind_assoc, (mbind_ok _ _ _ _ _ (mlift_ok _ _ _ (usub_ok g.2 (base - g.1) ltac:(lia)))), mbind_ret.
    apply (finish_spec v (mkVME base (g.2 - (base - g.1)) (voptions e)) length options g); [done|done|done|simpl; lia..|].
    intros G3 G4 HG'. rewrite (rb_insert_perm kle). simpl. rewrite gap_some by lia. simpl. constructor. by apply (remove_gap v g e t).
  - rewrite mbind_ret. assert (g.1 = base) as Hgb by lia. destruct (finish_spec v e length options g t) as (v' & E & H); [done|done|done|lia..| |].
    + intros G3 G4 HG'. rewrite gap_empty by lia. simpl. by apply (remove_gap v g e t).
    + exists v'. rewrite E, Heb, Hgb in *. done.
Qed.

(** ** Release *)

Lemma remove_active_spec v e l1 l2 :
  ordered (low v) (l1 ++ e :: l2) (high v) → rb_elems (active v) = l1 ++ e :: l2 →
  ∃ c t, remove_active (vbase e) v = Ok ((e, c), mkVMES (low v) (high v) t (free v)) ∧ rb_elems t = l1 ++ l2 ∧
    rb_get t c = head l2 ∧ rb_get t (rb_move_prev t c) = last l1.
Proof.
  intros Ho Ht. destruct (rb_find_elem Z.le (active v) (vbase e) e) as (i & x & Hf & Hx & Hk); [rewrite Ht; set_solver|done|].
  assert (i = length l1) as ->.
  { apply (ordered_split _ l1 (e :: l2)) in Ho as Hs. destruct Hs as (O1 & _ & _ & O4 & _). simpl in O4.
    apply ordered_app in Ho as (_ & Hpos & Ho2). rewrite Ht in Hx.
    destruct (lt_eq_lt_dec i (length l1)) as [[Hlt|]|Hlt]; [|done|].
    - rewrite lookup_app_l in Hx by done. apply list_elem_of_lookup_2 in Hx. destruct (O1 x Hx). lia.
    - rewrite lookup_app_r in Hx by lia. destruct (i - length l1)%nat as [|j] eqn:Ej; [lia|]. simpl in Hx.
      apply list_elem_of_lookup_2 in Hx. destruct (ordered_elem _ _ _ _ Ho2 Hx) as [? _]. unfold vend in *. lia. }
  assert (x = e) as -> by (rewrite Ht, list_lookup_middle in Hx by done; congruence).
  set (t := rb_remove (active v) (length l1)).
  assert (Hrem : rb_elems t = l1 ++ l2) by (unfold t; rewrite (rb_elems_remove (kle := Z.le)), Ht; by apply delete_middle).
  unfold remove_active, set_active. mstep. rewrite Hf. cbv beta iota. rewrite Hx. fold t. simpl.
  do 2 eexists. split_and!; [done|done|..]; rewrite ?(rb_move_prev_spec (kle := Z.le)), ?(rb_back_spec (kle := Z.le)), Hrem, length_app; case_decide as Hc; simpl.
  - rewrite Hrem, lookup_app_r, Nat.sub_diag by lia. by destruct l2.
  - by destruct l2; [|simpl in Hc; lia].
  - destruct l1 as [|y l1] using rev_ind; [done|]. rewrite length_app, Nat.add_comm. simpl.
    rewrite Hrem, last_snoc, <-app_assoc. cbn [app]. by rewrite list_lookup_middle by done.
  - assert (l2 = []) as -> by (destruct l2; [done|simpl in Hc; lia]). rewrite app_nil_r in *.
    destruct l1 as [|y l1] using rev_ind; [done|]. rewrite last_snoc. destruct (l1 ++ [y]) eqn:El; [by destruct l1|]. rewrite <-El in *.
    simpl. rewrite Hrem, length_app, Nat.add_comm. rewrite list_lookup_middle; [done|]. simpl. lia.
Qed.

(** Taking the free range [a, b) out of the tree. *)
Lemma take_gap (v : VMES) a b R :
  range <$> rb_elems (free v) ≡ₚ gap a b ++ R → a < b →
  ∃ t f, take_free (rb_find (free v) (b - a, a)) v = Ok (f, mkVMES (low v) (high v) (active v) t) ∧ range f = (a, b - a) ∧
    range <$> rb_elems t ≡ₚ R.
Proof.
  intros Hf Hab. rewrite gap_some in Hf by done. simpl in Hf.
  assert (Hin : (a, b - a) ∈ range <$> rb_elems (free v)) by (rewrite Hf; left).
  apply list_elem_of_fmap in Hin as (x & Hx & Hin). injection Hx as Hx1 Hx2.
  destruct (rb_find_elem kle (free v) (b - a, a) x Hin) as (i & y & Hi & Hy & Hk); [unfold free_key; congruence|].
  destruct (take_free_spec v i y Hy) as (t & Et & Ht). injection Hk as Hk1 Hk2. exists t, y.
  assert (Hry : range y = (a, b - a)) by (unfold range; congruence).
  split_and!; [by rewrite Hi|done|]. rewrite Ht in Hf. simpl in Hf. rewrite Hry in Hf. by apply Permutation_cons_inv in Hf.
Qed.

Lemma merge_above_spec (v : VMES) e c l2 R :
  rb_get (active v) c = head l2 → 0 ≤ vbase e → 0 < vlength e → vend e ≤ start_of l2 (high v) → start_of l2 (high v) ≤ usize_max →
  range <$> rb_elems (free v) ≡ₚ gap (vend e) (start_of l2 (high v)) ++ R →
  l2 ≠ [] ∨ vend e = high v ∧ (∀ f, f ∈ rb_elems (free v) → vbase f ≤ vbase e) →
  ∃ t, merge_above e c v = Ok (mkVME (vbase e) (start_of l2 (high v) - vbase e) (voptions e), mkVMES (low v) (high v) (active v) t) ∧
    range <$> rb_elems t ≡ₚ R.
Proof.
  intros Hc He1 He2 Hle Hmax Hf Hcase. unfold merge_above. rewrite (mbind_ok _ _ v v v) by done. rewrite Hc.
  destruct l2 as [|n l2]; simpl in *.
  - destruct Hcase as [|[Hend Hall]]; [done|]. rewrite gap_empty in Hf by lia. exists (free v). split; [|done].
    assert (Hres : mkVME (vbase e) (high v - vbase e) (voptions e) = e) by (destruct e; unfold vend in *; simpl in *; f_equal; lia).
    rewrite Hres. assert (mkVMES (low v) (high v) (active v) (free v) = v) as -> by (by destruct v).
    destruct (rb_get (free v) (rb_back (free v))) as [b|] eqn:Eb; [|done].
    zcase; [|done]. assert (Hb : b ∈ rb_elems (free v)) by (destruct (rb_back (free v)); [by eapply list_elem_of_lookup_2|done]).
    specialize (Hall b Hb). lia.
  - unfold vend in *. rewrite (mbind_ok _ _ _ _ _ (mlift_ok _ _ _ (uadd_ok (vbase e) (vlength e) ltac:(lia)))).
    destruct (Z.eqb_spec (vbase n) (vbase e + vlength e)) as [Heq|Hne]; simpl.
    + rewrite gap_empty in Hf by lia. exists (free v). split; [|done]. unfold mret. do 2 f_equal; [|by destruct v].
      destruct e; simpl in *; f_equal; lia.
    + rewrite (mbind_ok _ _ _ _ _ (mlift_ok _ _ _ (usub_ok (vbase n) (vbase e) ltac:(lia)))).
      rewrite (mbind_ok _ _ _ _ _ (mlift_ok _ _ _ (usub_ok (vbase n - vbase e) (vlength e) ltac:(lia)))).
      destruct (take_gap v _ _ R Hf ltac:(lia)) as (t & f & Et & Hr & Ht).
      replace (vbase n - vbase e - vlength e) with (vbase n - (vbase e + vlength e)) by lia.
      rewrite (mbind_ok _ _ _ _ _ Et). injection Hr as Hr1 Hr2.
      rewrite (mbind_ok _ _ _ _ _ (mlift_ok _ _ _ (uadd_ok (vlength e) (vlength f) ltac:(lia)))).
      exists t. split; [|done]. unfold mret. do 3 f_equal. lia.
Qed.

Lemma merge_below_spec (v : VMES) e c l1 R :
  rb_get (active v) c = last l1 → 0 ≤ low v → vend e ≤ usize_max → 0 < vlength e → 
  (∀ p, p ∈ l1 → 0 ≤ vbase p ∧ 0 < vlength p) → end_of (low v) l1 ≤ vbase e →
  range <$> rb_elems (free v) ≡ₚ gap (end_of (low v) l1) (vbase e) ++ R →
  l1 ≠ [] ∨ vbase e = low v ∧ (∀ f, f ∈ rb_elems (free v) → vbase e ≤ vbase f) →
  ∃ t, merge_below e c v = Ok (mkVME (end_of (low v) l1) (vend e - end_of (low v) l1) (voptions e), mkVMES (low v) (high v) (active v) t) ∧
    range <$> rb_elems t ≡ₚ R.
Proof.
  intros Hc Hlo Hmax Hpos Hp Hle Hf Hcase. unfold merge_below. rewrite (mbind_ok _ _ v v v) by done. rewrite Hc.
  unfold end_of in *. destruct (last l1) as [p|] eqn:El; simpl in *.
  - assert (p ∈ l1) as [Hp1 Hp2]%Hp by (by apply last_Some_elem_of).
    unfold vend in *. rewrite (mbind_ok _ _ _ _ _ (mlift_ok _ _ _ (uadd_ok (vbase p) (vlength p) ltac:(lia)))).
    rewrite mbind_assert by (apply Z.leb_le; lia).
    destruct (Z.eqb_spec (vbase p + vlength p) (vbase e)) as [Heq|Hne]; simpl.
    + rewrite gap_empty in Hf by lia. exists (free v). split; [|done]. unfold mret. do 2 f_equal; [|by destruct v].
      destruct e; simpl in *; f_equal; lia.
    + rewrite (mbind_ok _ _ _ _ _ (mlift_ok _ _ _ (usub_ok (vbase e) (vbase p) ltac:(lia)))).
      rewrite (mbind_ok _ _ _ _ _ (mlift_ok _ _ _ (usub_ok (vbase e - vbase p) (vlength p) ltac:(lia)))).
      destruct (take_gap v _ _ R Hf ltac:(lia)) as (t & f & Et & Hr & Ht).
      replace (vbase e - vbase p - vlength p) with (vbase e - (vbase p + vlength p)) by lia.
      rewrite (mbind_ok _ _ _ _ _ Et). injection Hr as Hr1 Hr2.
      rewrite (mbind_ok _ _ _ _ _ (mlift_ok _ _ _ (uadd_ok (vlength e) (vlength f) ltac:(lia)))).
      exists t. split; [|done]. unfold mret. rewrite Hr1. do 3 f_equal. lia.
  - assert (l1 = []) as -> by (by apply last_None). destruct Hcase as [|[Heq Hall]]; [done|].
    rewrite gap_empty in Hf by lia. exists (free v). split; [|done].
    assert (Hres : mkVME (low v) (vend e - low v) (voptions e) = e) by (destruct e; unfold vend in *; simpl in *; f_equal; lia).
    rewrite Hres. assert (mkVMES (low v) (high v) (active v) (free v) = v) as -> by (by destruct v).
    destruct (rb_get (free v) (rb_front (free v))) as [b|] eqn:Eb; [|done].
    zcase; [|done]. assert (Hb : b ∈ rb_elems (free v)) by (destruct (rb_front (free v)); [by eapply list_elem_of_lookup_2|done]).
    specialize (Hall b Hb). lia.
Qed.

Lemma end_of_app lo l e : end_of lo (l ++ [e]) = vend e.
Proof. unfold end_of. by rewrite last_snoc. Qed.

(** The gaps around an entry, and the one gap in their place. *)
Lemma gaps_around lo l1 e l2 hi :
  ∃ R, gaps lo (l1 ++ e :: l2) hi ≡ₚ gap (vend e) (start_of l2 hi) ++ gap (end_of lo l1) (vbase e) ++ R ∧
    gaps lo (l1 ++ l2) hi ≡ₚ gap (end_of lo l1) (start_of l2 hi) ++ R.
Proof.
  assert (∀ x l, ∃ R, ∀ h', gaps x l h' = R ++ gap (end_of x l) h') as Hfirst.
  { intros x l. revert x. induction l as [|y l IH]; intros x; [by exists []|]. destruct (IH (vend y)) as [R HR].
    exists (gap x (vbase y) ++ R). intros h'. simpl. by rewrite HR, end_of_cons, app_assoc. }
  destruct (Hfirst lo l1) as [R1 HR1].
  assert (∃ R2, ∀ x, gaps x l2 hi = gap x (start_of l2 hi) ++ R2) as [R2 HR2].
  { destruct l2 as [|n l2]; [exists []; intros x; simpl; by rewrite app_nil_r|]. by exists (gaps (vend n) l2 hi). }
  exists (R1 ++ R2). rewrite gaps_app, HR1, HR2. split; [solve_Permutation|].
  destruct l2 as [|n l2]; simpl.
  - rewrite app_nil_r, HR1. specialize (HR2 hi). simpl in HR2. rewrite gap_empty in HR2 by lia. simpl in HR2. rewrite <-HR2. solve_Permutation.
  - rewrite gaps_app, HR1. assert (gaps (vend n) l2 hi = R2) as ->; [|solve_Permutation].
    specialize (HR2 (vbase n)). simpl in HR2. rewrite gap_empty in HR2 by lia. done.
Qed.

Lemma ordered_remove lo l1 e l2 hi : ordered lo (l1 ++ e :: l2) hi → ordered lo (l1 ++ l2) hi.
Proof.
  revert lo. induction l1 as [|x l1 IH]; intros lo; simpl.
  - intros (Hlo & Hpos & Ho). destruct l2 as [|n l2]; simpl in *; unfold vend in *; [lia|]. destruct Ho as (? & ? & ?). split_and!; [lia|done..].
  - intros (? & ? & ?). auto.
Qed.

(** A gap and an entry do not meet. *)
Lemma gap_apart lo l hi g e :
  ordered lo l hi → g ∈ gaps lo l hi → e ∈ l →
  0 < g.2 ∧ lo ≤ g.1 ∧ g.1 + g.2 ≤ hi ∧ (g.1 + g.2 ≤ vbase e ∨ vend e ≤ g.1).
Proof.
  intros Ha Hg He. destruct (split_gap _ _ _ _ Ha Hg) as (m1 & m2 & _ & _ & -> & _ & ? & ? & ? & Hend & Hst & _).
  destruct (ordered_split _ m1 m2 _ Ha) as (O1 & O2 & _). split_and!; [done..|].
  apply elem_of_app in He as [He|He]; [right; destruct (O1 e He); lia|left]. specialize (O2 e He). lia.
Qed.

Lemma release_spec v e l1 l2 :
  vm_inv v → rb_elems (active v) = l1 ++ e :: l2 → l2 ≠ [] ∨ vend e = high v → l1 ≠ [] ∨ vbase e = low v →
  ∃ v', release (vbase e) v = Ok (tt, v') ∧ vm_inv v' ∧ low v' = low v ∧ high v' = high v ∧ rb_elems (active v') = l1 ++ l2.
Proof.
  intros [Hlo Hhi Ha Hf] Ht Hup Hdown. rewrite Ht in Ha, Hf.
  destruct (remove_active_spec v e l1 l2 Ha Ht) as (c & t & E1 & Ht1 & Hc1 & Hc2).
  destruct (gaps_around (low v) l1 e l2 (high v)) as (R & HR1 & HR2).
  assert (Hin : e ∈ l1 ++ e :: l2) by set_solver. destruct (ordered_elem _ _ _ e Ha Hin) as (He1 & He2 & He3).
  destruct (ordered_split _ l1 (e :: l2) _ Ha) as (_ & _ & O3 & O4 & _). simpl in O4.
  assert (Hs : vend e ≤ start_of l2 (high v) ∧ start_of l2 (high v) ≤ high v).
  { apply ordered_app in Ha as (_ & _ & H). destruct (ordered_split _ [] l2 _ H) as (_ & _ & ? & ? & ?).
    unfold end_of in *. simpl in *. lia. }
  assert (Hgap : ∀ g, g ∈ gap (end_of (low v) l1) (vbase e) ++ R ∨ g ∈ range <$> rb_elems (free v) →
    0 < g.2 ∧ low v ≤ g.1 ∧ g.1 + g.2 ≤ high v ∧ (g.1 + g.2 ≤ vbase e ∨ vend e ≤ g.1)).
  { intros g Hg. apply (gap_apart _ _ _ g e Ha); [|done]. rewrite <-Hf. destruct Hg as [Hg|Hg]; [|done].
    rewrite Hf, HR1. set_solver. }
  unfold release. rewrite (mbind_ok _ _ _ _ _ E1). rewrite HR1 in Hf. set (v1 := mkVMES (low v) (high v) t (free v)).
  destruct (merge_above_spec v1 e c l2 (gap (end_of (low v) l1) (vbase e) ++ R)) as (t2 & E2 & Ht2); [done|lia|done|apply Hs|simpl; lia|done| |].
  { destruct Hup as [|Hup]; [by left|right]. split; [done|]. intros f Hff.
    destruct (Hgap (range f)) as (? & ? & ? & ?); [right; by apply list_elem_of_fmap_2|]. simpl in *. lia. }
  rewrite (mbind_ok _ _ _ _ _ E2). set (e2 := mkVME _ _ _). set (v2 := mkVMES (low v1) (high v1) (active v1) t2).
  rewrite (mbind_ok mget _ v2 v2 v2) by done.
  destruct (merge_below_spec v2 e2 (rb_move_prev t c) l1 R) as (t3 & E3 & Ht3); [done|done|unfold vend; simpl; lia|simpl; unfold vend in *; lia| |done|done| |].
  { intros p Hp. destruct (ordered_elem _ _ _ p Ha); [set_solver|]. simpl. lia. }
  { destruct Hdown as [|Hdown]; [by left|right]. split; [done|]. intros f Hff.
    destruct (Hgap (range f)) as (? & ? & ? & ?); [left; rewrite <-Ht2; by apply list_elem_of_fmap_2|]. simpl in *. lia. }
  rewrite (mbind_ok _ _ _ _ _ E3). eexists. split_and!; [done| |done..]. split; simpl; [done..| |].
  - rewrite Ht1. by eapply ordered_remove.
  - rewrite (rb_insert_perm kle), Ht1, HR2. simpl. rewrite Ht3. unfold range at 1; simpl. unfold vend at 1; simpl.
    replace (vbase e + (start_of l2 (high v) - vbase e)) with (start_of l2 (high v)) by lia.
    rewrite gap_some by (unfold vend in *; lia). done.
Qed.

(** C12: [VirtualMemoryAllocation::new] without an address takes the start of
    the smallest free range that is large enough, the lowest of them, and
    panics exactly when there is none.  With an address in a free range that
    has room it takes that address.  Either way the ranges in use stay apart
    and the free ranges stay exactly the gaps between them. *)
Theorem reserve_correct v length options :
  vm_inv v → 0 < length → aligned length PAGE_SIZE →
  ((∃ b L v', (b, L) ∈ gaps (low v) (rb_elems (active v)) (high v) ∧ length ≤ L ∧
      (∀ g, g ∈ gaps (low v) (rb_elems (active v)) (high v) → length ≤ g.2 → kle (L, b) (g.2, g.1)) ∧
      reserve None length options v = Ok (Some b, v') ∧ vm_inv v' ∧
      rb_elems (active v') ≡ₚ mkVME b length options :: rb_elems (active v)) ∨
   (∀ g, g ∈ gaps (low v) (rb_elems (active v)) (high v) → g.2 < length) ∧ reserve None length options v = Panic) ∧
  (∀ base g, g ∈ gaps (low v) (rb_elems (active v)) (high v) → g.1 ≤ base → base + length ≤ g.1 + g.2 →
    ∃ v', reserve (Some base) length options v = Ok (Some base, v') ∧ vm_inv v' ∧
      rb_elems (active v') ≡ₚ mkVME base length options :: rb_elems (active v)).
Proof.
  intros Hi Hl Hal. split.
  - destruct (reserve_best_spec v length options Hi Hl Hal) as [(b & L & v' & ? & ? & ? & ? & ? & _ & _ & ?)|?]; [left|by right].
    by exists b, L, v'.
  - intros base g Hg H1 H2. destruct (reserve_fixed_spec v base length options g Hi Hl Hal Hg H1 H2) as (v' & ? & ? & _ & _ & ?). eauto.
Qed.

(** dropping an allocation that has ranges in use on both sides, or lies
    at the end of the address range there, takes its range out of use and
    merges it with the free ranges next to it; nothing else changes. *)
Lemma release_correct v e l1 l2 :
  vm_inv v → rb_elems (active v) = l1 ++ e :: l2 → l2 ≠ [] ∨ vend e = high v → l1 ≠ [] ∨ vbase e = low v →
  ∃ v', release (vbase e) v = Ok (tt, v') ∧ vm_inv v' ∧ rb_elems (active v') = l1 ++ l2.
Proof. intros Hi Ht Hup Hdown. destruct (release_spec v e l1 l2 Hi Ht Hup Hdown) as (v' & ? & ? & _ & _ & ?). eauto. Qed.
End kernel_vm.

(** ** An executable instance *)

#[global] Instance kle_dec a b : Decision (kle a b).
Proof. unfold kle. apply _. Defined.
#[global] Instance kle_po : PartialOrder kle.
Proof.
  split; [split|].
  - intros [a b]. right. simpl. lia.
  - intros [a b] [c d] [e f]. unfold kle; simpl. lia.
  - intros [a b] [c d]. unfold kle; simpl. intros ??. f_equal; lia.
Qed.
#[global] Instance kle_total : Total kle.
Proof. intros [a b] [c d]. unfold kle; simpl. lia. Qed.

#[global] Instance active_tree : RBTree vbase (list VirtualMemoryEntry) := list_tree Z.le vbase.
#[global] Instance free_tree : RBTree free_key (list VirtualMemoryEntry) := list_tree kle free_key.
#[global] Instance active_tree_spec : RBTreeSpec Z.le active_tree.
Proof. apply list_tree_spec; apply _. Qed.
#[global] Instance free_tree_spec : RBTreeSpec kle free_tree.
Proof. apply list_tree_spec; apply _. Qed.

Abbreviation VMES := (VirtualMemoryEntryContainer (list VirtualMemoryEntry) (list VirtualMemoryEntry)).

(** Sixteen pages, of which the ones at 4 and 8 are in use. *)
Definition pages (n : Z) : Z := n * PAGE_SIZE.
Definition demo_vmes : VMES :=
  mkVMES 0 (pages 16) [mkVME (pages 4) PAGE_SIZE 0; mkVME (pages 8) PAGE_SIZE 0]
    (isort kle free_key [mkVME 0 (pages 4) 0; mkVME (pages 5) (pages 3) 0; mkVME (pages 9) (pages 7) 0]).

Lemma demo_vmes_inv : vm_inv demo_vmes.
Proof. split; [done|done|by vm_compute|]. vm_compute. solve_Permutation. Qed.

Lemma reserve_correct_witness :
  ∃ v', reserve (Some (pages 6)) (pages 2) 0 demo_vmes = Ok (Some (pages 6), v') ∧ vm_inv v'.
Proof.
  destruct (reserve_correct demo_vmes (pages 2) 0 demo_vmes_inv ltac:(done) ltac:(by exists 2)) as [_ H].
  destruct (H (pages 6) (pages 5, pages 3)) as (v' & E & Hi & _).
  - vm_compute. set_solver.
  - done.
  - done.
  - exists v'. split; [exact E|exact Hi].
Defined.

Definition demo_vmes3 : VMES :=
  mkVMES 0 (pages 16) [mkVME (pages 4) PAGE_SIZE 0; mkVME (pages 6) PAGE_SIZE 0; mkVME (pages 8) PAGE_SIZE 0]
    [mkVME 0 (pages 4) 0; mkVME (pages 5) PAGE_SIZE 0; mkVME (pages 7) PAGE_SIZE 0; mkVME (pages 9) (pages 7) 0].

Lemma demo_vmes3_inv : vm_inv demo_vmes3.
Proof. split; [done|done|by vm_compute|]. vm_compute. solve_Permutation. Qed.

Lemma release_correct_witness : ∃ v', release (pages 6) demo_vmes3 = Ok (tt, v') ∧ vm_inv v'.
Proof.
  destruct (release_correct demo_vmes3 (mkVME (pages 6) PAGE_SIZE 0) [mkVME (pages 4) PAGE_SIZE 0] [mkVME (pages 8) PAGE_SIZE 0]
    demo_vmes3_inv ltac:(reflexivity) ltac:(by left) ltac:(by left)) as (v' & E & Hi & _).
  exists v'. split; [exact E|exact Hi].
Defined.

(** ** Defects *)

(** The state after an operation that succeeds. *)
Definition after {A} (r : res (Empty_set * VMES) (A * VMES)) : VMES :=
  match r with Ok (_, v) => v | _ => demo_vmes end.
Definition demo_small : VMES := mkVMES 0 (pages 4) [] [mkVME 0 (pages 4) 0].
Definition demo_small1 : VMES := after (reserve None (pages 1) 0 demo_small).
Definition demo_small2 : VMES := after (release 0 demo_small1).
Definition demo_small3 : VMES := after (reserve None (pages 3) 0 demo_small2).
Definition demo_small4 : VMES := after (reserve None (pages 1) 0 demo_small3).
Definition demo_small5 : VMES := after (reserve None (pages 3) 0 demo_small4).

(** dropping the topmost allocation merges it with the largest free range
    above it without taking that range out of the tree.  The range is then
    free twice, and two allocations that are both in use get the same
    addresses. *)
Lemma top_release_double_allocation :
  ∃ v0 v1 v2 v3 v4 v5 : VMES,
    container_new 0 (pages 4) = Ok v0 ∧
    reserve None (pages 1) 0 v0 = Ok (Some 0, v1) ∧ release 0 v1 = Ok (tt, v2) ∧
    reserve None (pages 3) 0 v2 = Ok (Some (pages 1), v3) ∧
    reserve None (pages 1) 0 v3 = Ok (Some 0, v4) ∧
    reserve None (pages 3) 0 v4 = Ok (Some (pages 1), v5).
Proof.
  exists demo_small, demo_small1, demo_small2, demo_small3, demo_small4, demo_small5.
  split_and!; vm_compute; reflexivity.
Qed.

Definition demo_top : VMES :=
  mkVMES 0 (pages 32) [mkVME (pages 20) PAGE_SIZE 0] [mkVME (pages 21) (pages 11) 0; mkVME 0 (pages 20) 0].
Definition demo_top1 : VMES := after (reserve None (pages 2) 0 demo_top).
Definition demo_top2 : VMES := after (release (pages 21) demo_top1).
Definition demo_top3 : VMES := after (reserve None (pages 1) 0 demo_top2).
Definition demo_top4 : VMES := after (release (pages 21) demo_top3).
Definition demo_top5 : VMES := after (reserve None (pages 3) 0 demo_top4).

(** When the largest free range lies below, the topmost free range is not
    merged at all, and a later drop does not find the gap it looks for. *)
Lemma top_release_panics :
  ∃ v1 v2 v3 v4 v5 : VMES,
    reserve None (pages 2) 0 demo_top = Ok (Some (pages 21), v1) ∧ release (pages 21) v1 = Ok (tt, v2) ∧
    reserve None (pages 1) 0 v2 = Ok (Some (pages 21), v3) ∧ release (pages 21) v3 = Ok (tt, v4) ∧
    reserve None (pages 3) 0 v4 = Ok (Some (pages 23), v5) ∧ release (pages 23) v5 = Panic.
Proof. exists demo_top1, demo_top2, demo_top3, demo_top4, demo_top5. split_and!; vm_compute; reflexivity. Qed.

Definition demo_fixed : VMES := mkVMES 0 (pages 16) [mkVME (pages 4) (pages 2) 0] [mkVME 0 (pages 4) 0; mkVME (pages 6) (pages 10) 0].

(** An address inside a range in use is not refused: the allocation is made
    behind that range. *)
Lemma fixed_address_moved :
  ∃ v' : VMES, reserve (Some (pages 5)) PAGE_SIZE 0 demo_fixed = Ok (Some (pages 6), v').
Proof. exists (after (reserve (Some (pages 5)) PAGE_SIZE 0 demo_fixed)). vm_compute. reflexivity. Qed.
