(* ===== verification/VmPages.v ===== *)
(** * Kernel allocations and their pages (src/memory/virtual_memory.rs)

    [VirtualMemoryAllocation::new] and its [Drop] as a whole: the ranges of
    KernelVM.v and the pages in the page tables of PageTable.v; and the page
    fault of the kernel.  Invalidating the TLBs of the other cores is not
    modelled. *)

From stdpp Require Import list_tactics.
From S2P Require Import Prelude RBTree PhysMem PageTable KernelVM.

Record VirtualMemoryAllocation : Type := mkVMA {
  aspace : Z;
  abase : Z;
  alength : Z;
  owns_backing : bool;
}.

(** The loop of [new] over the pages of a range with backing.  The length is a
    multiple of the page size, so its pages bound the turns. *)
Fixpoint map_loop (fuel : nat) (space base physical length options i : Z) : VOp unit :=
  match fuel with
  | O => mret tt
  | S fuel =>
      if i <? length then
        let! v := mlift (uadd base i) in
        let! p := mlift (uadd physical i) in
        let! _ := vmap space v p options in
        let! i := mlift (uadd i PAGE_SIZE) in
        map_loop fuel space base physical length options i
      else mret tt
  end.

(** The loop of [drop], from the last page to the first. *)
Fixpoint unmap_loop (fuel : nat) (space base : Z) (owns : bool) (length : Z) : VOp unit :=
  match fuel with
  | O => mret tt
  | S fuel =>
      if 0 <? length then
        let! length := mlift (usub length PAGE_SIZE) in
        let! v := mlift (uadd base length) in
        let! _ := (if owns then vunmap space v else vunmap_no_dealloc space v) in
        unmap_loop fuel space base owns length
      else mret tt
  end.

Definition page_count (length : Z) : nat := Z.to_nat (length / PAGE_SIZE).

Section allocation.
Context {TA TF : Type} {OA : RBTree vbase TA} {OF : RBTree free_key TF}.
Abbreviation Ranges := (VirtualMemoryEntryContainer TA TF).
Abbreviation AOp A := (M (Ranges * PhysMem) Waiting A).

Definition on_ranges {A} (m : M Ranges Empty_set A) : AOp A := λ '(v, s),
  match m v with
  | Ok (a, v') => Ok (a, (v', s))
  | Err (e, _) => match e with end
  | Panic => Panic
  end.
Definition on_pages {A} (m : VOp A) : AOp A := λ '(v, s),
  match m s with
  | Ok (a, s') => Ok (a, (v, s'))
  | Err (e, s') => Err (e, (v, s'))
  | Panic => Panic
  end.

Definition allocation_new (space : Z) (start : option Z) (length : Z) (backing : option Z) (options : Z) (owns : bool)
    : AOp (option VirtualMemoryAllocation) :=
  let! r := on_ranges (reserve start length options) in
  match r with
  | None => mret None
  | Some base =>
      let! _ := match backing with
                | Some physical => on_pages (map_loop (page_count length) space base physical length options 0)
                | None => mret tt
                end in
      if contains options SHADOW then mret None else mret (Some (mkVMA space base length owns))
  end.

Definition allocation_drop (a : VirtualMemoryAllocation) : AOp unit :=
  let! _ := on_pages (unmap_loop (page_count (alength a)) (aspace a) (abase a) (owns_backing a) (alength a)) in
  on_ranges (release (abase a)).

(** [handle_page_fault] at an address of the kernel: a page of a range in use
    is given a frame; elsewhere the kernel stops. *)
Definition kernel_fault (space : Z) (present : bool) (address : Z) : AOp unit :=
  if present then mret tt
  else
    let! vs := mget in
    match rb_get (active vs.1) (rb_upper_bound (active vs.1) (Included address)) with
    | None => mpanic
    | Some below =>
        let! e := mlift (uadd (vbase below) (vlength below)) in
        if address <? e then
          let! frame := on_pages new_frame in
          on_pages (vmap space (Z.land address 0xFFFFFFFFFFFFF000) frame (Z.lor PRESENT (Z.lor WRITABLE CACHEABLE)))
        else mpanic
    end.
End allocation.

(** ** Ranges of pages *)

Section pages.
Context (h : Z) (rs : list Entry) (Hmap : map_ok h rs).
Context (H48 : ∀ i e, rs !! i = Some e → entry_type e = USABLE → ebase e + elength e ≤ 2 ^ 48).

Abbreviation space_at := (address_space h rs).
Abbreviation vpn := (page_number 3).

Lemma space_page s free live space T A v v' : space_at s free live space T A → vpn v = vpn v' → A v = A v'.
Proof. intros (t & _ & _ & _ & HA) E. rewrite !HA. by apply mapped_page. Qed.

(** The page [j] of a range, and whether [v] is on one of its pages from [k] on. *)
Definition page (base j : Z) : Z := base + PAGE_SIZE * j.
Definition on_page (base k n v : Z) : Prop := ∃ j, k ≤ j < n ∧ vpn v = vpn (page base j).

Lemma vpn_page base j : vpn (page base j) = (base / PAGE_SIZE + j) mod 2 ^ 36.
Proof.
  unfold page_number, page. change (512 ^ Z.of_nat 4) with (2 ^ 36). f_equal. unfold PAGE_SIZE.
  rewrite (Z.mul_comm 4096 j). by rewrite Z.div_add by lia.
Qed.

(** The pages of a range of less than 2^48 bytes are different pages. *)
Lemma vpn_inj base i j : 0 ≤ i → i < 2 ^ 36 → 0 ≤ j → j < 2 ^ 36 → vpn (page base i) = vpn (page base j) → i = j.
Proof.
  intros Hi1 Hi2 Hj1 Hj2. rewrite !vpn_page. set (b := base / PAGE_SIZE). intros E.
  pose proof (Z.div_mod (b + i) (2 ^ 36) ltac:(lia)). pose proof (Z.div_mod (b + j) (2 ^ 36) ltac:(lia)). lia.
Qed.

(** What a range of pages from [k] on is mapped to. *)
Definition range_mapped (base physical options k n : Z) (A A' : Z → option Z) : Prop :=
  (∀ j v, k ≤ j < n → vpn v = vpn (page base j) →
     A' v = if contains options PRESENT then Some (leaf_entry (page physical j) options) else None) ∧
  ∀ v, ¬ on_page base k n v → A' v = A v.

Lemma map_loop_spec fuel s free live space T A base physical options k n :
  space_at s free live space T A → 0 ≤ k → Z.of_nat fuel = n - k → n < 2 ^ 36 → 0 ≤ base → 0 ≤ physical →
  page base n ≤ usize_max → page physical n ≤ usize_max →
  ∃ r s' free' new A', map_loop fuel space base physical (PAGE_SIZE * n) options (PAGE_SIZE * k) s = r ∧
    space_at s' free' (new ++ live) space (new ++ T) A' ∧ same_out h (new ++ T) (words s) (words s') ∧
    (r = Ok (tt, s') ∧ range_mapped base physical options k n A A' ∨
     r = Err (waiting, s') ∧ ∀ v, ¬ on_page base k n v → A' v = A v).
Proof.
  unfold page. revert s free live T A k. induction fuel as [|fuel IH]; intros s free live T A k HS Hk Hf Hn Hb Hp Hbn Hpn; cbn [map_loop].
  { exists (Ok (tt, s)), s, free, [], A. split_and!; [done..|left; split; [done|]]. split; [|done]. intros j v Hj. lia. }
  unfold PAGE_SIZE in *. assert (Z.of_nat fuel = n - (k + 1)) by lia. zcase; [|lia].
  rewrite (mbind_ok _ _ _ _ _ (mlift_ok _ _ _ (uadd_ok base (4096 * k) ltac:(lia)))).
  rewrite (mbind_ok _ _ _ _ _ (mlift_ok _ _ _ (uadd_ok physical (4096 * k) ltac:(lia)))).
  destruct (vmap_spec h rs Hmap H48 s free live space T A (base + 4096 * k) (physical + 4096 * k) options HS)
    as (r1 & s1 & free1 & new1 & A1 & E1 & Hr1 & Hoth1 & HS1 & Hout1).
  assert (Hpg : base + 4096 * k = page base k) by done.
  destruct Hr1 as [[-> Hv1]|[-> Hv1]].
  2: { rewrite (mbind_err _ _ _ _ _ E1). exists (Err (waiting, s1)), s1, free1, new1, A1. split_and!; [done..|]. right. split; [done|].
       intros v Hv. apply Hoth1. intros E. apply Hv. exists k. rewrite <-Hpg. lia. }
  rewrite (mbind_ok _ _ _ _ _ E1), (mbind_ok _ _ _ _ _ (mlift_ok _ _ _ (uadd_ok (4096 * k) 4096 ltac:(lia)))).
  replace (4096 * k + 4096) with (4096 * (k + 1)) by lia.
  destruct (IH s1 free1 (new1 ++ live) (new1 ++ T) A1 (k + 1) HS1) as (r2 & s2 & free2 & new2 & A2 & E2 & HS2 & Hout2 & Hr2); [lia..|].
  assert (Hoff : ∀ v, ¬ on_page base k n v → A1 v = A v ∧ ¬ on_page base (k + 1) n v).
  { intros v Hv. split; [|intros (j & Hj & E); apply Hv; exists j; split; [lia|done]].
    apply Hoth1. rewrite Hpg. intros E. apply Hv. exists k. split; [lia|done]. }
  exists r2, s2, free2, (new2 ++ new1), A2. rewrite <-!app_assoc. split_and!; [done..| |].
  { intros a Ha. rewrite Hout2 by done. apply Hout1. intros f Hf'. apply Ha. apply elem_of_app. by right. }
  destruct Hr2 as [[-> [Hin2 Hout3]]|[-> Hout3]]; [left|right]; (split; [done|]).
  - split.
    + intros j v Hj Hv. destruct (decide (j = k)) as [->|]; [|apply Hin2; [lia|done]].
      rewrite Hout3; [exact (eq_trans (space_page s1 _ _ _ _ A1 v _ HS1 Hv) Hv1)|].
      intros (j & Hj' & E). rewrite Hv in E. assert (k = j); [|lia]. apply (vpn_inj base); [lia..|done].
    + intros v Hv. destruct (Hoff v Hv) as [<- ?]. by apply Hout3.
  - intros v Hv. destruct (Hoff v Hv) as [<- ?]. by apply Hout3.
Qed.

(** The frames the pages of a range are mapped to. *)
Definition frame_at (A : Z → option Z) (v : Z) : option Z := (λ e, Z.land e PTE_ADDR_MASK) <$> A v.
Definition range_frames (A : Z → option Z) (base : Z) (n : nat) : list Z :=
  omap (λ j, frame_at A (page base (Z.of_nat j))) (seq 0 n).

Lemma range_frames_S A base n :
  range_frames A base (S n) = range_frames A base n ++ option_list (frame_at A (page base (Z.of_nat n))).
Proof. unfold range_frames. rewrite seq_S, omap_app. simpl. by destruct (frame_at A _). Qed.

Lemma range_frames_ext A A' base n :
  (∀ j, 0 ≤ j < Z.of_nat n → A' (page base j) = A (page base j)) → range_frames A' base n = range_frames A base n.
Proof.
  induction n as [|n IH]; intros H; [done|]. rewrite !range_frames_S. rewrite IH by (intros; apply H; lia).
  unfold frame_at. by rewrite H by lia.
Qed.

(** The frames that dropping the range gives back are in use and not tables. *)
Definition owned (A : Z → option Z) (base : Z) (n : nat) (live T : list Z) : Prop :=
  NoDup (range_frames A base n) ∧ ∀ f, f ∈ range_frames A base n → f ∈ live ∧ f ∉ T.

Definition unmaps (base n : Z) (A A' : Z → option Z) : Prop :=
  ∀ v, (on_page base 0 n v → A' v = None) ∧ (¬ on_page base 0 n v → A' v = A v).

(** Unmapping the last page of the range. *)
Lemma unmap_page s free live space T A base n (owns : bool) :
  space_at s free live space T A → Z.of_nat (S n) < 2 ^ 36 → (owns = true → owned A base (S n) live T) →
  ∃ r s' free' live' gone T' A', vunmap_internal space (page base (Z.of_nat n)) owns s = Ok (r, s') ∧
    space_at s' free' live' space T' A' ∧ T ≡ₚ gone ++ T' ∧
    live ≡ₚ gone ++ (if owns then option_list (frame_at A (page base (Z.of_nat n))) else []) ++ live' ∧
    A' (page base (Z.of_nat n)) = None ∧ (∀ v, vpn v ≠ vpn (page base (Z.of_nat n)) → A' v = A v) ∧
    (owns = true → owned A' base n live' T') ∧
    same_out h ((if owns then range_frames A base (S n) else []) ++ T) (words s) (words s').
Proof.
  intros HS Hn Hown. pose proof (vunmap_spec h rs Hmap H48 s free live space T A (page base (Z.of_nat n)) owns HS) as Hu.
  assert (Hne : ∀ j, 0 ≤ j < Z.of_nat n → vpn (page base j) ≠ vpn (page base (Z.of_nat n))).
  { intros j Hj E. apply vpn_inj in E; lia. }
  destruct (A (page base (Z.of_nat n))) as [e|] eqn:HA.
  - destruct Hu as (s' & free' & live' & gone & T' & A' & E & Hv & Hoth & Hl & HT & HS' & Hout).
    { intros ->. apply (Hown eq_refl). rewrite range_frames_S. unfold frame_at. rewrite HA. simpl. set_solver. }
    exists (Some (Z.land e PTE_ADDR_MASK)), s', free', live', gone, T', A'. split_and!; [done|done|done|..].
    + rewrite Hl. unfold frame_at. rewrite HA. by destruct owns.
    + done.
    + done.
    + intros ->. destruct (Hown eq_refl) as [Hnd Hf]. rewrite range_frames_S in Hnd, Hf. apply NoDup_app in Hnd as (Hnd & Hdis & _).
      unfold owned. rewrite (range_frames_ext A) by (intros j Hj; apply Hoth; by apply Hne). split; [done|].
      intros f Hfr. destruct (Hf f) as [Hfl HfT]; [set_solver|]. specialize (Hdis f Hfr). unfold frame_at in Hdis. rewrite HA in Hdis.
      rewrite HT in HfT. rewrite Hl in Hfl. simpl in *. set_solver.
    + intros a Ha. apply Hout. intros f Hf. apply Ha. destruct owns; [|done]. rewrite range_frames_S. unfold frame_at. rewrite HA. set_solver.
  - exists None, s, free, live, [], T, A. unfold frame_at. rewrite HA. split_and!; [done..| |done|done| |done].
    + simpl. by destruct owns.
    + intros ->. destruct (Hown eq_refl) as [Hnd Hf]. rewrite range_frames_S in Hnd, Hf. unfold frame_at in *. rewrite HA in *.
      simpl in *. rewrite app_nil_r in *. done.
Qed.

Lemma unmap_loop_spec n s free live space T A base (owns : bool) :
  space_at s free live space T A → Z.of_nat n < 2 ^ 36 → 0 ≤ base → page base (Z.of_nat n) ≤ usize_max →
  (owns = true → owned A base n live T) →
  ∃ s' free' live' gone T' A', unmap_loop n space base owns (PAGE_SIZE * Z.of_nat n) s = Ok (tt, s') ∧
    space_at s' free' live' space T' A' ∧ T ≡ₚ gone ++ T' ∧
    live ≡ₚ gone ++ (if owns then range_frames A base n else []) ++ live' ∧ unmaps base (Z.of_nat n) A A'.
Proof.
  revert s free live T A. induction n as [|n IH]; intros s free live T A HS Hn Hb Hmax Hown; cbn [unmap_loop].
  { exists s, free, live, [], T, A. split_and!; [done..| |].
    - by destruct owns.
    - intros v. split; [intros (j & Hj & _); lia|done]. }
  destruct (unmap_page s free live space T A base n owns HS Hn Hown)
    as (r & s1 & free1 & live1 & gone1 & T1 & A1 & E1 & HS1 & HT1 & Hl1 & Hv1 & Hoth1 & Hown1 & _).
  assert (Hb1 : page base (Z.of_nat n) ≤ usize_max) by (unfold page, PAGE_SIZE in *; lia).
  destruct (IH s1 free1 live1 T1 A1 HS1) as (s2 & free2 & live2 & gone2 & T2 & A2 & E2 & HS2 & HT2 & Hl2 & Hun); [lia|done|done|done|].
  assert (Hne : ∀ j, 0 ≤ j < Z.of_nat n → vpn (page base j) ≠ vpn (page base (Z.of_nat n))).
  { intros j Hj E. apply vpn_inj in E; lia. }
  exists s2, free2, live2, (gone1 ++ gone2), T2, A2. split_and!.
  - unfold page, PAGE_SIZE in *. zcase; [|lia].
    rewrite (mbind_ok _ _ _ _ _ (mlift_ok _ _ _ (usub_ok (4096 * Z.of_nat (S n)) 4096 ltac:(lia)))).
    replace (4096 * Z.of_nat (S n) - 4096) with (4096 * Z.of_nat n) by lia.
    rewrite (mbind_ok _ _ _ _ _ (mlift_ok _ _ _ (uadd_ok base (4096 * Z.of_nat n) ltac:(lia)))).
    rewrite (mbind_ok _ _ s r s1); [done|]. by destruct owns.
  - done.
  - by rewrite HT1, HT2, app_assoc.
  - rewrite Hl1, Hl2. destruct owns; simpl; [|by rewrite app_assoc].
    rewrite range_frames_S, (range_frames_ext A A1) by (intros j Hj; apply Hoth1; by apply Hne). solve_Permutation.
  - intros v. destruct (Hun v) as [U1 U2]. split.
    + intros (j & Hj & E). destruct (decide (j = Z.of_nat n)) as [->|]; [|apply U1; exists j; split; [lia|done]].
      rewrite U2; [exact (eq_trans (space_page s1 _ _ _ _ A1 v _ HS1 E) Hv1)|].
      intros (j & Hj' & E'). rewrite E in E'. apply (Hne j Hj'). done.
    + intros Hv. rewrite U2; [apply Hoth1|]; [intros E|intros (j & Hj & E)]; apply Hv; eexists; (split; [|done]); lia.
Qed.

(** ** The operations *)

Section ops.
Context {TA TF : Type} {OA : RBTree vbase TA} {OF : RBTree free_key TF}.
Context {HOA : RBTreeSpec Z.le OA} {HOF : RBTreeSpec kle OF}.
Abbreviation Ranges := (VirtualMemoryEntryContainer TA TF).

Lemma page_count_mul n : 0 ≤ n → Z.of_nat (page_count (PAGE_SIZE * n)) = n.
Proof. intros Hn. unfold page_count, PAGE_SIZE. rewrite Z.mul_comm, Z.div_mul by lia. lia. Qed.

(** an allocation of [n] pages with backing memory either panics, when no
    free range is large enough, or takes a free range, maps its pages to
    consecutive frames and maps no other page; or it waits for a frame for a
    page table. *)
Lemma allocation_new_correct (v : Ranges) s free live space T A n physical options owns :
  vm_inv v → space_at s free live space T A → 0 < n < 2 ^ 36 → 0 ≤ physical → page physical n ≤ usize_max →
  contains options SHADOW = false →
  allocation_new space None (PAGE_SIZE * n) (Some physical) options owns (v, s) = Panic ∨
  ∃ r base v' s' free' new A',
    allocation_new space None (PAGE_SIZE * n) (Some physical) options owns (v, s) = r ∧ vm_inv v' ∧
    rb_elems (active v') ≡ₚ mkVME base (PAGE_SIZE * n) options :: rb_elems (active v) ∧
    space_at s' free' (new ++ live) space (new ++ T) A' ∧
    (r = Ok (Some (mkVMA space base (PAGE_SIZE * n) owns), (v', s')) ∧ range_mapped base physical options 0 n A A' ∨
     r = Err (waiting, (v', s')) ∧ ∀ u, ¬ on_page base 0 n u → A' u = A u).
Proof.
  intros Hi HS Hn Hp Hpn Hsh. assert (0 < PAGE_SIZE * n) by (unfold PAGE_SIZE; lia).
  destruct (reserve_best_spec v (PAGE_SIZE * n) options Hi) as [(b & L & v' & Hg & HL & _ & E & Hi' & _ & _ & Hact)|[_ E]]; [done|exists n; lia|right|left].
  2: { unfold allocation_new. apply mbind_panic. unfold on_ranges. by rewrite E. }
  assert (Hb : low v ≤ b ∧ page b n ≤ high v).
  { destruct Hi as [_ _ Ha _]. destruct (split_gap _ _ _ _ Ha Hg) as (? & ? & ? & ? & _ & _ & _ & ? & ? & _). simpl in *. unfold page. lia. }
  destruct Hb as [Hb1 Hb2]. pose proof (vi_low _ Hi). pose proof (vi_high _ Hi).
  destruct (map_loop_spec (page_count (PAGE_SIZE * n)) s free live space T A b physical options 0 n)
    as (r & s' & free' & new & A' & Em & HS' & _ & Hr); [done|lia|rewrite page_count_mul; lia|lia|lia|done|lia|done|].
  rewrite Z.mul_0_r in Em.
  assert (Hrun : ∀ r', mbind' (on_pages (map_loop (page_count (PAGE_SIZE * n)) space b physical (PAGE_SIZE * n) options 0))
      (λ _, if contains options SHADOW then mret None else mret (Some (mkVMA space b (PAGE_SIZE * n) owns))) (v', s) = r' →
      allocation_new space None (PAGE_SIZE * n) (Some physical) options owns (v, s) = r').
  { intros r' <-. unfold allocation_new. rewrite (mbind_ok _ _ (v, s) (Some b) (v', s)); [done|]. unfold on_ranges. by rewrite E. }
  destruct Hr as [[-> Hm]|[-> Hm]].
  - exists (Ok (Some (mkVMA space b (PAGE_SIZE * n) owns), (v', s'))), b, v', s', free', new, A'. split_and!; [|done..|by left].
    apply Hrun. rewrite (mbind_ok _ _ (v', s) tt (v', s')); [by rewrite Hsh|]. unfold on_pages. by rewrite Em.
  - exists (Err (waiting, (v', s'))), b, v', s', free', new, A'. split_and!; [|done..|by right].
    apply Hrun. apply mbind_err. unfold on_pages. by rewrite Em.
Qed.

(** dropping an allocation with ranges in use on both sides unmaps all of
    its pages and no others, gives back the frames it owns and the tables that
    became empty, and takes the range out of use. *)
Lemma allocation_drop_correct (v : Ranges) s free live space T A base n options l1 l2 (owns : bool) :
  vm_inv v → rb_elems (active v) = l1 ++ mkVME base (PAGE_SIZE * Z.of_nat n) options :: l2 → l1 ≠ [] → l2 ≠ [] →
  space_at s free live space T A → Z.of_nat n < 2 ^ 36 → (owns = true → owned A base n live T) →
  ∃ v' s' free' live' gone T' A',
    allocation_drop (mkVMA space base (PAGE_SIZE * Z.of_nat n) owns) (v, s) = Ok (tt, (v', s')) ∧
    vm_inv v' ∧ rb_elems (active v') = l1 ++ l2 ∧
    space_at s' free' live' space T' A' ∧ T ≡ₚ gone ++ T' ∧
    live ≡ₚ gone ++ (if owns then range_frames A base n else []) ++ live' ∧ unmaps base (Z.of_nat n) A A'.
Proof.
  intros Hi Ht H1 H2 HS Hn Hown.
  destruct (release_spec v _ l1 l2 Hi Ht (or_introl H2) (or_introl H1)) as (v' & E & Hi' & _ & _ & Ht').
  assert (Hb : low v ≤ base ∧ page base (Z.of_nat n) ≤ high v).
  { destruct Hi as [_ _ Ha _]. rewrite Ht in Ha. apply ordered_app in Ha as (?%ordered_le & _ & ?%ordered_le).
    unfold vend in *. simpl in *. by unfold page. }
  pose proof (vi_low _ Hi). pose proof (vi_high _ Hi).
  destruct (unmap_loop_spec n s free live space T A base owns HS Hn) as (s' & free' & live' & gone & T' & A' & Eu & HS' & HT & Hl & Hun); [lia|lia|done|].
  exists v', s', free', live', gone, T', A'. split_and!; [|done..].
  assert (Hpc : page_count (PAGE_SIZE * Z.of_nat n) = n) by (pose proof (page_count_mul (Z.of_nat n)); lia).
  unfold allocation_drop; simpl. rewrite Hpc, (mbind_ok _ _ (v, s) tt (v, s')); [|unfold on_pages; by rewrite Eu].
  unfold on_ranges. simpl in E. by rewrite E.
Qed.

Lemma space_new_frame s free live space T A s' free' f :
  space_at s free live space T A → phys_inv h rs s' free' (f :: live) → words s' = words s →
  space_at s' free' (f :: live) space T A.
Proof.
  intros (t & Hroot & HT & [_ Hr Hl Hn] & HA) Hp Hw. exists t. split_and!; [done..| |by rewrite Hw].
  split; [done|by rewrite Hw| |done]. intros g Hg. right. by apply Hl.
Qed.

Lemma page_start a : 0 ≤ a ≤ usize_max → Z.land a 0xFFFFFFFFFFFFF000 = PAGE_SIZE * (a / PAGE_SIZE).
Proof.
  intros Ha. unfold PAGE_SIZE. rewrite Z.mul_comm. change 4096 with (2 ^ 12). rewrite <-Z.shiftl_mul_pow2, <-Z.shiftr_div_pow2 by lia.
  apply Z.bits_inj'. intros n Hn. rewrite Z.land_spec, Z.shiftl_spec by done.
  destruct (Z.lt_ge_cases n 12) as [Hlt|Hge].
  - rewrite (Z.testbit_neg_r _ (n - 12)) by lia. change 0xFFFFFFFFFFFFF000 with (Z.ones 52 * 2 ^ 12).
    by rewrite Z.mul_pow2_bits_low, andb_false_r by lia.
  - rewrite Z.shiftr_spec by lia. replace (n - 12 + 12) with n by lia.
    change 0xFFFFFFFFFFFFF000 with (Z.ones 52 * 2 ^ 12). rewrite Z.mul_pow2_bits by lia.
    destruct (Z.lt_ge_cases n 64) as [H64|H64]; [by rewrite Z.ones_spec_low, andb_true_r by lia|].
    assert (Z.testbit a n = false) as ->; [|done]. destruct (decide (a = 0)) as [->|]; [apply Z.bits_0|].
    apply Z.bits_above_log2; [lia|]. apply Z.log2_lt_pow2; [lia|]. unfold usize_max in Ha.
    eapply Z.lt_le_trans; [|apply (Z.pow_le_mono_r 2 64 n); lia]. lia.
Qed.

Lemma vpn_page_start a : 0 ≤ a ≤ usize_max → vpn (Z.land a 0xFFFFFFFFFFFFF000) = vpn a.
Proof.
  intros Ha. rewrite page_start by done. unfold page_number. f_equal. unfold PAGE_SIZE.
  rewrite Z.mul_comm. by rewrite Z.div_mul by lia.
Qed.

(** The entry an address belongs to is the one [upper_bound] finds. *)
Lemma upper_bound_entry (v : Ranges) e a :
  vm_inv v → e ∈ rb_elems (active v) → vbase e ≤ a < vend e →
  rb_get (active v) (rb_upper_bound (active v) (Included a)) = Some e.
Proof.
  intros [_ _ Ha _] He Hr. destruct (rb_get (active v) (rb_upper_bound (active v) (Included a))) as [x|] eqn:E.
  - destruct (rb_upper_get Z.le _ _ _ E) as (Hx & Hxa & Hmax). specialize (Hmax e He ltac:(lia)).
    f_equal. apply (ordered_inj _ _ _ _ _ Ha Hx He). apply list_elem_of_split in Hx as (m1 & m2 & Hm). rewrite Hm in Ha, He.
    destruct (ordered_split _ m1 (x :: m2) _ Ha) as (O1 & _ & _ & O4 & _). simpl in O4.
    apply elem_of_app in He as [He|[->|He]%elem_of_cons]; [|done|].
    + destruct (O1 e He). lia.
    + apply ordered_app in Ha as (_ & ? & Ha). destruct (ordered_elem _ _ _ _ Ha He) as [? _]. unfold vend in *. lia.
  - by destruct (rb_upper_get_None Z.le _ _ E e He ltac:(lia)).
Qed.

(** What a page fault of the kernel does. *)
Lemma kernel_fault_spec (v : Ranges) s free live space T A address :
  vm_inv v → space_at s free live space T A → 0 ≤ address ≤ usize_max →
  let options := Z.lor PRESENT (Z.lor WRITABLE CACHEABLE) in
  ((∀ e, e ∈ rb_elems (active v) → ¬ (vbase e ≤ address < vend e)) ∧ kernel_fault space false address (v, s) = Panic) ∨
  (∃ e, e ∈ rb_elems (active v) ∧ vbase e ≤ address < vend e) ∧
  ((∃ f s' free' new A', kernel_fault space false address (v, s) = Ok (tt, (v, s')) ∧ (f ∉ live) ∧
      space_at s' free' (new ++ f :: live) space (new ++ T) A' ∧
      (∀ u, A' u = if decide (vpn u = vpn address) then Some (leaf_entry f options) else A u) ∧
      same_out h (new ++ T) (words s) (words s')) ∨
   (∃ s', kernel_fault space false address (v, s) = Err (waiting, (v, s')))).
Proof.
  intros Hi HS Haddr options. subst options. set (c := rb_upper_bound (active v) (Included address)).
  assert (Hrun : ∀ e, rb_get (active v) c = Some e → e ∈ rb_elems (active v) ∧ vbase e ≤ address ∧ uadd (vbase e) (vlength e) = Ok (vend e) (E := Waiting)).
  { intros e E. destruct (rb_upper_get Z.le _ _ _ E) as (He & Hle & _). split_and!; [done..|]. destruct Hi as [? ? Ha _].
    destruct (ordered_elem _ _ _ _ Ha He) as (? & ? & ?). unfold vend in *. by rewrite uadd_ok by lia. }
  unfold kernel_fault. rewrite (mbind_ok _ _ (v, s) (v, s) (v, s)) by done. cbn [fst]. fold c.
  destruct (rb_get (active v) c) as [e|] eqn:E.
  2: { left. split; [|done]. intros e He Hr. pose proof (upper_bound_entry v e address Hi He Hr) as E'. fold c in E'. congruence. }
  destruct (Hrun e eq_refl) as (He & Hle & Hadd). rewrite (mbind_ok _ _ _ _ _ (mlift_ok _ _ _ Hadd)).
  destruct (Z.ltb_spec address (vend e)) as [Hlt|Hge].
  2: { left. split; [|done]. intros e' He' Hr. pose proof (upper_bound_entry v e' address Hi He' Hr) as E'. fold c in E'.
       assert (e' = e) as -> by congruence. lia. }
  right. split; [by exists e|]. pose proof HS as (t & _ & _ & Hpt & _).
  destruct (new_frame_spec h rs Hmap s free live (pt_phys _ _ _ _ _ _ Hpt)) as [(f & s1 & free1 & E1 & Hp1 & Hw)|(s1 & free1 & E1 & _ & _)].
  2: { right. exists s1. apply mbind_err. unfold on_pages. by rewrite E1. }
  rewrite (mbind_ok _ _ (v, s) f (v, s1)) by (unfold on_pages; by rewrite E1).
  pose proof (space_new_frame _ _ _ _ _ _ _ _ _ HS Hp1 Hw) as HS1.
  destruct (vmap_spec h rs Hmap H48 s1 free1 (f :: live) space T A (Z.land address 0xFFFFFFFFFFFFF000) f (Z.lor PRESENT (Z.lor WRITABLE CACHEABLE)) HS1)
    as (r & s2 & free2 & new & A' & E2 & [[-> Hv]|[-> Hv]] & Hoth & HS2 & Hout).
  - left. exists f, s2, free2, new, A'. split_and!; [unfold on_pages; by rewrite E2| |done| |by rewrite <-Hw].
    + pose proof (pi_nodup _ _ _ _ _ Hp1) as Hnd. apply NoDup_app in Hnd as (_ & _ & Hnd). by apply NoDup_cons in Hnd as [? _].
    + intros u. case_decide as Hu.
      * rewrite <-(vpn_page_start address) in Hu by done. exact (eq_trans (space_page _ _ _ _ _ _ _ _ HS2 Hu) Hv).
      * apply Hoth. by rewrite vpn_page_start.
  - right. exists s2. unfold on_pages. by rewrite E2.
Qed.

(** C25: a page fault at an address of a range in use maps the page, writable,
    to a frame that was not in use, and maps no other page; nothing but tables is
    written; or it waits for a frame.  A fault at an address outside all ranges stops the kernel. *)
Theorem kernel_fault_correct (v : Ranges) s free live space T A address :
  vm_inv v → space_at s free live space T A → 0 ≤ address ≤ usize_max →
  let options := Z.lor PRESENT (Z.lor WRITABLE CACHEABLE) in
  ((∀ e, e ∈ rb_elems (active v) → ¬ (vbase e ≤ address < vend e)) ∧ kernel_fault space false address (v, s) = Panic) ∨
  (∃ e, e ∈ rb_elems (active v) ∧ vbase e ≤ address < vend e) ∧
  ((∃ f s' free' new A', kernel_fault space false address (v, s) = Ok (tt, (v, s')) ∧ (f ∉ live) ∧
      space_at s' free' (new ++ f :: live) space (new ++ T) A' ∧
      (∀ u, A' u = if decide (vpn u = vpn address) then Some (leaf_entry f options) else A u) ∧
      same_out h (new ++ T) (words s) (words s')) ∨
   (∃ s', kernel_fault space false address (v, s) = Err (waiting, (v, s')))).
Proof. apply kernel_fault_spec. Qed.
End ops.
End pages.

(** ** Examples *)

Lemma allocation_new_correct_witness :
  ∃ v' s', allocation_new 0x1000 None (PAGE_SIZE * 1) (Some 0x7000) (Z.lor PRESENT WRITABLE) true (demo_vmes, demo_phys)
    = Ok (Some (mkVMA 0x1000 (pages 5) PAGE_SIZE true), (v', s')).
Proof.
  destruct (allocation_new_correct 0x100000 pt_map pt_map_ok pt_map_48 demo_vmes demo_phys [] [0x1000] 0x1000 [0x1000] (λ _, None)
    1 0x7000 (Z.lor PRESENT WRITABLE) true demo_vmes_inv demo_space ltac:(done) ltac:(done) ltac:(done) ltac:(done))
    as [E|(r & base & v' & s' & _ & _ & _ & E & _ & _ & _ & [[-> _]|[-> _]])].
  - exfalso. revert E. vm_compute. discriminate.
  - exists v', s'. rewrite E. repeat f_equal. revert E. vm_compute. by intros [= <- _ _].
  - exfalso. revert E. vm_compute. discriminate.
Defined.

Lemma allocation_drop_correct_witness :
  ∃ v' s', allocation_drop (mkVMA 0x1000 (pages 6) (PAGE_SIZE * Z.of_nat 1) true) (demo_vmes3, demo_phys) = Ok (tt, (v', s')) ∧ vm_inv v'.
Proof.
  destruct (allocation_drop_correct 0x100000 pt_map pt_map_ok pt_map_48 demo_vmes3 demo_phys [] [0x1000] 0x1000 [0x1000] (λ _, None)
    (pages 6) 1 0 [mkVME (pages 4) PAGE_SIZE 0] [mkVME (pages 8) PAGE_SIZE 0] true demo_vmes3_inv) as (v' & s' & _ & _ & _ & _ & _ & E & Hi & _).
  - reflexivity.
  - done.
  - done.
  - exact demo_space.
  - done.
  - intros _. split; [constructor|]. by intros f ?%elem_of_nil.
  - exists v', s'. split; [exact E|exact Hi].
Defined.

Lemma kernel_fault_correct_witness :
  ∃ s', kernel_fault 0x1000 false (pages 4 + 8) (demo_vmes, demo_phys) = Ok (tt, (demo_vmes, s')).
Proof.
  destruct (kernel_fault_correct 0x100000 pt_map pt_map_ok pt_map_48 demo_vmes demo_phys [] [0x1000] 0x1000 [0x1000] (λ _, None)
    (pages 4 + 8) demo_vmes_inv demo_space ltac:(done)) as [[_ E]|[_ [(f & s' & _ & _ & _ & E & _)|(s' & E)]]].
  - exfalso. revert E. vm_compute. discriminate.
  - exists s'. exact E.
  - exfalso. revert E. vm_compute. discriminate.
Defined.
