(* ===== verification/Bytes.v ===== *)
(** * Byte buffers

    A buffer [&[u8]] is the list of its bytes, each a [Z] below 256; positions
    and lengths are [usize], so they are [Z] here too.  Slicing a buffer out of
    range and [copy_from_slice] between different lengths panic, as in Rust.
    Little-endian fields read and written through the [zerocopy] crate are
    [get_le] and [put_le]. *)

From S2P Require Import Prelude.

Definition zlen {A} (l : list A) : Z := Z.of_nat (length l).

(** The [k]-th element; [None] out of range. *)
Definition zat {A} (l : list A) (k : Z) : option A :=
  if k <? 0 then None else l !! Z.to_nat k.

(** [n] elements from position [p] on. *)
Definition sub {A} (l : list A) (p n : Z) : list A := take (Z.to_nat n) (drop (Z.to_nat p) l).

(** [l] with [s] written over it from position [p] on. *)
Definition splice {A} (l : list A) (p : Z) (s : list A) : list A :=
  take (Z.to_nat p) l ++ s ++ drop (Z.to_nat p + length s) l.

(** [vec![x; n]]. *)
Definition zrep {A} (n : Z) (x : A) : list A := replicate (Z.to_nat n) x.

(** [&l[a..b]]. *)
Definition slice {E A} (l : list A) (a b : Z) : res E (list A) :=
  if (0 <=? a) && (a <=? b) && (b <=? zlen l) then Ok (sub l a (b - a)) else Panic.

(** [l[a..b].copy_from_slice(s)]. *)
Definition copy_at {E A} (l : list A) (a b : Z) (s : list A) : res E (list A) :=
  if (0 <=? a) && (a <=? b) && (b <=? zlen l) && (zlen s =? b - a) then Ok (splice l a s) else Panic.

(** [l.chunks_exact(n)]: the whole chunks of [n] elements. *)
Definition chunks_exact {A} (n : Z) (l : list A) : list (list A) :=
  (λ i, sub l (i * n) n) <$> seqZ 0 (zlen l / n).

Section lists.
Context {A : Type}.
Implicit Types l s : list A.

Lemma zlen_nonneg l : 0 ≤ zlen l.
Proof. unfold zlen. lia. Qed.

Lemma zlen_app l s : zlen (l ++ s) = zlen l + zlen s.
Proof. unfold zlen. rewrite length_app. lia. Qed.

Lemma zlen_cons x l : zlen (x :: l) = 1 + zlen l.
Proof. unfold zlen. simpl. lia. Qed.

Lemma zlen_rep n (x : A) : 0 ≤ n → zlen (zrep n x) = n.
Proof. unfold zlen, zrep. rewrite length_replicate. lia. Qed.

Lemma zlen_sub l p n : 0 ≤ p → 0 ≤ n → p + n ≤ zlen l → zlen (sub l p n) = n.
Proof. unfold zlen, sub. rewrite length_take, length_drop. lia. Qed.

Lemma zlen_splice l p s : 0 ≤ p → p + zlen s ≤ zlen l → zlen (splice l p s) = zlen l.
Proof.
  unfold zlen, splice. rewrite !length_app, length_take, length_drop. lia.
Qed.

Lemma zat_Some_range l k x : zat l k = Some x → 0 ≤ k < zlen l.
Proof.
  unfold zat, zlen. destruct (Z.ltb_spec k 0); [done|]. intros Hl%lookup_lt_Some. lia.
Qed.

Lemma zat_None l k : ¬ (0 ≤ k < zlen l) → zat l k = None.
Proof.
  intros Hk. destruct (zat l k) eqn:E; [|done]. by apply zat_Some_range in E.
Qed.

Lemma zat_is_Some l k : 0 ≤ k < zlen l → is_Some (zat l k).
Proof. unfold zat, zlen. intros. zcase; [lia|]. apply lookup_lt_is_Some. lia. Qed.

Lemma zat_sub l p n k :
  0 ≤ p → zat (sub l p n) k = if decide (0 ≤ k < n) then zat l (p + k) else None.
Proof.
  intros Hp. unfold zat, sub. destruct (Z.ltb_spec k 0).
  { rewrite decide_False by lia. done. }
  destruct (Z.ltb_spec (p + k) 0); [lia|]. case_decide.
  - rewrite lookup_take_lt, lookup_drop by lia. f_equal. lia.
  - rewrite lookup_take_ge by lia. done.
Qed.

Lemma zat_splice l p s k :
  0 ≤ p → p + zlen s ≤ zlen l →
  zat (splice l p s) k = if decide (p ≤ k < p + zlen s) then zat s (k - p) else zat l k.
Proof.
  intros Hp Hl. unfold zat, splice, zlen in *. destruct (Z.ltb_spec k 0).
  { rewrite decide_False by lia. done. }
  case_decide.
  - destruct (Z.ltb_spec (k - p) 0); [lia|].
    rewrite lookup_app_r, length_take by (rewrite length_take; lia).
    rewrite lookup_app_l by lia. f_equal. lia.
  - destruct (decide (k < p)).
    + rewrite lookup_app_l, lookup_take_lt by (rewrite ?length_take; lia). done.
    + rewrite lookup_app_r, lookup_app_r, length_take, lookup_drop by (rewrite ?length_take; lia).
      f_equal. lia.
Qed.

Lemma zat_ext l s :
  zlen l = zlen s → (∀ k, 0 ≤ k < zlen l → zat l k = zat s k) → l = s.
Proof.
  intros Hlen Hk. apply list_eq_same_length with (length s); [done|unfold zlen in *; lia|].
  intros i x y Hi Hx Hy.
  specialize (Hk (Z.of_nat i)). unfold zat, zlen in *.
  destruct (Z.ltb_spec (Z.of_nat i) 0); [lia|]. rewrite Nat2Z.id in Hk.
  rewrite Hx, Hy in Hk. assert (Some x = Some y) as [=] by (apply Hk; lia). done.
Qed.

Lemma zat_rep n (x : A) k : zat (zrep n x) k = if decide (0 ≤ k < n) then Some x else None.
Proof.
  unfold zat, zrep. destruct (Z.ltb_spec k 0); case_decide; try lia; [done| |].
  - apply lookup_replicate. split; [done|lia].
  - apply lookup_replicate_None. lia.
Qed.

Lemma slice_ok {E} l a b : 0 ≤ a → a ≤ b → b ≤ zlen l → @slice E A l a b = Ok (sub l a (b - a)).
Proof. unfold slice. intros. by repeat (zcase; [|lia]). Qed.

Lemma copy_at_ok {E} l a b s :
  0 ≤ a → b ≤ zlen l → zlen s = b - a → @copy_at E A l a b s = Ok (splice l a s).
Proof.
  unfold copy_at. intros. pose proof (zlen_nonneg s). do 3 (zcase; [|lia]). zcase; [done|lia].
Qed.

Lemma sub_sub l p n q m :
  0 ≤ p → 0 ≤ q → 0 ≤ m → q + m ≤ n → p + n ≤ zlen l → sub (sub l p n) q m = sub l (p + q) m.
Proof.
  intros. apply zat_ext.
  - rewrite !zlen_sub; try done; try lia. rewrite zlen_sub; lia.
  - intros k Hk. rewrite zlen_sub in Hk by (rewrite ?zlen_sub; lia).
    rewrite !zat_sub by lia. repeat case_decide; try lia. f_equal. lia.
Qed.

Lemma sub_all l n : n = zlen l → sub l 0 n = l.
Proof. intros ->. unfold sub, zlen. simpl. rewrite drop_0, Nat2Z.id. by apply take_ge. Qed.

Lemma sub_app l p n m :
  0 ≤ p → 0 ≤ n → 0 ≤ m → sub l p (n + m) = sub l p n ++ sub l (p + n) m.
Proof.
  intros. unfold sub. rewrite !Z2Nat.inj_add, <-take_take_drop, drop_drop by lia. done.
Qed.

(** Reading a block, changing part of it and writing it back. *)
Lemma splice_rmw l i n p s :
  0 ≤ i → 0 ≤ p → p + zlen s ≤ n → i + n ≤ zlen l →
  splice l i (splice (sub l i n) p s) = splice l (i + p) s.
Proof.
  intros. pose proof (zlen_nonneg s).
  assert (zlen (splice (sub l i n) p s) = n) as Hn by (rewrite zlen_splice; rewrite ?zlen_sub; lia).
  apply zat_ext.
  - rewrite !zlen_splice; rewrite ?Hn; lia.
  - intros k _. rewrite !zat_splice by (rewrite ?Hn, ?zlen_sub; lia). rewrite Hn, zat_sub by lia.
    repeat case_decide; try lia; try done; f_equal; lia.
Qed.

(** Writing back what was there before. *)
Lemma splice_restore l p s :
  0 ≤ p → p + zlen s ≤ zlen l → splice (splice l p s) p (sub l p (zlen s)) = l.
Proof.
  intros. pose proof (zlen_nonneg s). apply zat_ext.
  - rewrite !zlen_splice; rewrite ?zlen_splice, ?zlen_sub; lia.
  - intros k _. rewrite !zat_splice by (rewrite ?zlen_splice, ?zlen_sub; lia).
    rewrite zlen_sub, zat_sub by lia. repeat case_decide; try lia; try done. f_equal. lia.
Qed.

Lemma sub_splice l n p s :
  0 ≤ p → p + zlen s ≤ n → n ≤ zlen l → sub (splice l p s) 0 n = splice (sub l 0 n) p s.
Proof.
  intros. pose proof (zlen_nonneg s). apply zat_ext.
  - rewrite zlen_sub, zlen_splice; rewrite ?zlen_splice, ?zlen_sub; lia.
  - intros k _. rewrite zat_sub, !zat_splice, zat_sub by (rewrite ?zlen_sub; lia).
    repeat case_decide; try lia; try done.
Qed.

Lemma sub_0 l p : sub l p 0 = [].
Proof. done. Qed.

Lemma splice_nil l p : splice l p [] = l.
Proof. unfold splice. simpl. rewrite Nat.add_0_r. apply take_drop. Qed.

Lemma splice_app l p s1 s2 :
  0 ≤ p → p + zlen s1 + zlen s2 ≤ zlen l →
  splice (splice l p s1) (p + zlen s1) s2 = splice l p (s1 ++ s2).
Proof.
  intros Hp Hl. pose proof (zlen_nonneg s1). pose proof (zlen_nonneg s2).
  assert (∀ k, zat (s1 ++ s2) k = if decide (k < zlen s1) then zat s1 k else zat s2 (k - zlen s1)) as Happ.
  { intros k. unfold zat, zlen in *. destruct (Z.ltb_spec k 0); [by rewrite decide_True by lia|].
    case_decide; [by rewrite lookup_app_l by lia|]. destruct (Z.ltb_spec (k - Z.of_nat (length s1)) 0); [lia|].
    rewrite lookup_app_r by lia. f_equal. lia. }
  apply zat_ext.
  - rewrite !zlen_splice; rewrite ?zlen_app, ?zlen_splice; lia.
  - intros k _. rewrite !zat_splice by (rewrite ?zlen_app, ?zlen_splice; lia).
    rewrite zlen_app, Happ. repeat case_decide; try lia; try done. f_equal. lia.
Qed.

(** Reading back what was written, and writing up to the end. *)
Lemma sub_splice_same l p s : 0 ≤ p → p + zlen s ≤ zlen l → sub (splice l p s) p (zlen s) = s.
Proof.
  intros. pose proof (zlen_nonneg s). apply zat_ext.
  - rewrite zlen_sub; rewrite ?zlen_splice; lia.
  - intros k _. rewrite zat_sub, zat_splice by lia. repeat case_decide; try lia; [f_equal; lia|].
    symmetry. apply zat_None. lia.
Qed.

Lemma splice_end l p s : 0 ≤ p → p + zlen s = zlen l → splice l p s = sub l 0 p ++ s.
Proof.
  intros Hp Hl. unfold splice, sub, zlen in *. rewrite drop_0, (drop_ge l); [by rewrite app_nil_r|]. lia.
Qed.
End lists.

#[export] Hint Resolve zlen_nonneg : cab.

(** ** Little-endian fields and packed structs *)

Definition is_byte (b : Z) : Prop := 0 ≤ b < 256.

Fixpoint le_val (l : list Z) : Z :=
  match l with [] => 0 | b :: l => b + 256 * le_val l end.

Fixpoint le_bytes (n : nat) (z : Z) : list Z :=
  match n with O => [] | S n => z mod 256 :: le_bytes n (z / 256) end.

(** [uN::read_from_prefix(&l[p..]).unwrap()] and [x.write_to_prefix(&mut l[p..]).unwrap()]
    for an integer of [w] bytes. *)
Definition get_le {E} (w : nat) (l : list Z) (p : Z) : res E Z :=
  let? s := slice l p (p + Z.of_nat w) in Ok (le_val s).
Definition put_le {E} (w : nat) (l : list Z) (p z : Z) : res E (list Z) :=
  copy_at l p (p + Z.of_nat w) (le_bytes w z).

(** A packed struct of little-endian integers of widths [ws]. *)
Fixpoint decode (ws : list nat) (l : list Z) : list Z :=
  match ws with
  | [] => []
  | w :: ws => le_val (take w l) :: decode ws (drop w l)
  end.

Fixpoint encode (ws : list nat) (vs : list Z) : list Z :=
  match ws, vs with
  | w :: ws, v :: vs => le_bytes w v ++ encode ws vs
  | _, _ => []
  end.

Definition fits (w : nat) (v : Z) : Prop := 0 ≤ v < 256 ^ Z.of_nat w.

Lemma length_le_bytes n z : length (le_bytes n z) = n.
Proof. revert z. induction n as [|n IH]; intros z; simpl; [done|]. by rewrite IH. Qed.

Lemma le_val_bytes n z : le_val (le_bytes n z) = z mod 256 ^ Z.of_nat n.
Proof.
  revert z. induction n as [|n IH]; intros z.
  { simpl. by rewrite Z.mod_1_r. }
  cbn [le_bytes le_val]. rewrite IH, Nat2Z.inj_succ, Z.pow_succ_r by lia.
  rewrite Z.rem_mul_r by lia. done.
Qed.

Lemma le_val_fits l : Forall is_byte l → fits (length l) (le_val l).
Proof.
  unfold fits. induction 1 as [|b l Hb Hl IH]; [done|]. cbn [le_val length]. unfold is_byte in *.
  rewrite Nat2Z.inj_succ, Z.pow_succ_r by lia. lia.
Qed.

Lemma le_bytes_val l : Forall is_byte l → le_bytes (length l) (le_val l) = l.
Proof.
  induction 1 as [|b l Hb Hl IH]; [done|]. cbn [length le_val le_bytes]. unfold is_byte in *.
  rewrite (Z.mul_comm 256), Z.mod_add, Z.mod_small, Z.div_add, Z.div_small, Z.add_0_l, IH by lia. done.
Qed.

Lemma le_bytes_byte n z : Forall is_byte (le_bytes n z).
Proof.
  revert z. induction n as [|n IH]; intros z; constructor; [apply Z.mod_pos_bound; lia|apply IH].
Qed.

Lemma decode_encode ws vs rest :
  Forall2 fits ws vs → decode ws (encode ws vs ++ rest) = vs.
Proof.
  induction 1 as [|w v ws vs Hf _ IH]; [done|]. cbn [encode decode].
  rewrite <-app_assoc, take_app_length', drop_app_length' by (by rewrite length_le_bytes).
  rewrite IH, le_val_bytes, Z.mod_small by done. done.
Qed.

Lemma length_encode ws vs : length ws = length vs → length (encode ws vs) = sum_list ws.
Proof.
  revert vs. induction ws as [|w ws IH]; intros [|v vs] Hl; try done. simpl.
  rewrite length_app, length_le_bytes, IH by (by injection Hl). done.
Qed.

Lemma length_decode ws l : length (decode ws l) = length ws.
Proof. revert l. induction ws as [|w ws IH]; intros l; simpl; [done|]. by rewrite IH. Qed.

Lemma encode_decode ws l :
  Forall is_byte l → (sum_list ws ≤ length l)%nat → encode ws (decode ws l) = take (sum_list ws) l.
Proof.
  revert l. induction ws as [|w ws IH]; intros l Hl Hlen; [done|]. cbn [encode decode]. simpl in Hlen.
  rewrite IH by (try apply Forall_drop; rewrite ?length_drop; done || lia).
  change (sum_list (w :: ws)) with (w + sum_list ws)%nat. rewrite <-take_take_drop. f_equal.
  rewrite <-(le_bytes_val (take w l)) at 2 by (by apply Forall_take).
  by rewrite length_take, Nat.min_l by lia.
Qed.

Lemma decode_fits ws l :
  Forall is_byte l → (sum_list ws ≤ length l)%nat → Forall2 fits ws (decode ws l).
Proof.
  revert l. induction ws as [|w ws IH]; intros l Hl Hlen; constructor; simpl in Hlen.
  - pose proof (le_val_fits (take w l) (Forall_take _ _ _ Hl)) as Hf.
    by rewrite length_take, Nat.min_l in Hf by lia.
  - apply IH; [by apply Forall_drop|rewrite length_drop; lia].
Qed.


(** ** Text *)

(** The bytes of a well formed UTF-8 text: [str::from_utf8] is an error
    otherwise. *)
Definition cont (b : Z) : bool := (0x80 <=? b) && (b <=? 0xBF).
Fixpoint utf8_valid (l : list Z) : bool :=
  match l with
  | [] => true
  | b :: l =>
      if b <? 0x80 then utf8_valid l
      else match l with
           | [] => false
           | b1 :: l =>
               if (0xC2 <=? b) && (b <=? 0xDF) then cont b1 && utf8_valid l
               else match l with
                    | [] => false
                    | b2 :: l =>
                        if (0xE0 <=? b) && (b <=? 0xEF) then
                          ((if b =? 0xE0 then 0xA0 else 0x80) <=? b1) && (b1 <=? (if b =? 0xED then 0x9F else 0xBF)) && cont b2 && utf8_valid l
                        else match l with
                             | [] => false
                             | b3 :: l =>
                                 (0xF0 <=? b) && (b <=? 0xF4) && ((if b =? 0xF0 then 0x90 else 0x80) <=? b1) &&
                                 (b1 <=? (if b =? 0xF4 then 0x8F else 0xBF)) && cont b2 && cont b3 && utf8_valid l
                             end
                    end
           end
  end.

(** [iter().position(|b| b == 0)]. *)
Fixpoint position_nul (l : list Z) : option Z :=
  match l with
  | [] => None
  | b :: l => if b =? 0 then Some 0 else (λ i, i + 1) <$> position_nul l
  end.

(** Parts of two buffers put together. *)
Lemma sub_prefix {A} (a b : list A) n : n = zlen a → sub (a ++ b) 0 n = a.
Proof. intros ->. unfold sub, zlen. rewrite Nat2Z.id. simpl. apply take_app_length. Qed.
Lemma sub_suffix {A} (a b : list A) q n : 0 ≤ q → sub (a ++ b) (zlen a + q) n = sub b q n.
Proof.
  intros Hq. unfold sub, zlen. replace (Z.to_nat (Z.of_nat (length a) + q)) with (length a + Z.to_nat q)%nat by lia.
  by rewrite <-drop_drop, drop_app_length.
Qed.

(** Reading a field, also of a part of a buffer. *)
Lemma get_le_sub {E} w l p : 0 ≤ p → p + Z.of_nat w ≤ zlen l → @get_le E w l p = Ok (le_val (sub l p (Z.of_nat w))).
Proof.
  intros H0 H1. unfold get_le, slice. rewrite (proj2 (Z.leb_le 0 p) H0), (proj2 (Z.leb_le p _)), (proj2 (Z.leb_le _ _) H1) by lia.
  simpl. by replace (p + Z.of_nat w - p) with (Z.of_nat w) by lia.
Qed.

(** A field of a packed struct is at the sum of the widths before it. *)
Lemma get_field {E} ws k w l :
  (sum_list ws ≤ length l)%nat → ws !! k = Some w →
  @get_le E w l (Z.of_nat (sum_list (take k ws))) = Ok (nth k (decode ws l) 0).
Proof.
  intros Hl Hk. rewrite get_le_sub; [|lia|].
  - f_equal. revert k l Hl Hk. induction ws as [|w1 ws IH]; intros [|k] l Hl Hk; simplify_eq/=.
    + unfold sub. by rewrite Nat2Z.id.
    + rewrite <-(IH k (drop w1 l)) by (rewrite ?length_drop; done || lia). unfold sub. rewrite drop_drop, !Nat2Z.id. done.
  - pose proof (take_drop_middle _ _ _ Hk) as E1. rewrite <-E1, sum_list_with_app in Hl. simpl in Hl. unfold zlen, sum_list in *. simpl in *. lia.
Qed.

Lemma get_field_at {E} ws k w l p :
  (sum_list ws ≤ length l)%nat → ws !! k = Some w → p = Z.of_nat (sum_list (take k ws)) →
  @get_le E w l p = Ok (nth k (decode ws l) 0).
Proof. intros Hl Hk ->. by apply get_field. Qed.

Lemma get_le_window {E} w l p q n : 0 ≤ p → 0 ≤ q → q + Z.of_nat w ≤ n → p + n ≤ zlen l → @get_le E w l (p + q) = get_le w (sub l p n) q.
Proof. intros. rewrite !get_le_sub by (rewrite ?zlen_sub; lia). by rewrite sub_sub by lia. Qed.
