(* ===== verification/BlockDevice.v ===== *)
(** * Block devices (src/devices/block/mod.rs, src/devices/block/virtio_blk.rs)

    [BlockDevice] is the trait: its required operations are the class's
    methods, and the provided methods [read] and [write], which cut a byte range
    into a partial first block, whole middle blocks and a partial last block,
    are defined against the class.  [BlockDeviceSpec] states what an
    implementation promises; [VirtIOBlkDiskDriver] implements it over the
    virtio driver of the [virtio_drivers] crate, which is the class
    [VirtIOBlk]. *)

From S2P Require Import Prelude Bytes.

Inductive BlockDeviceError : Type :=
| ReadError
| WriteError
| InvalidBlockIndex
| InvalidBufferSize
| Other (msg : string).

(** [D] is the state of a device; buffers passed by mutable reference are
    passed in and returned. *)
Class BlockDevice (D : Type) : Type := {
  block_size : D → Z;
  block_count : D → Z;
  read_blocks : list Z → list (list Z) → M D BlockDeviceError (list (list Z));
  write_blocks : list Z → list (list Z) → M D BlockDeviceError unit;
}.

Section provided.
Context {D : Type} `{BlockDevice D}.
Abbreviation DOp A := (M D BlockDeviceError A).

Definition dev_block_size : DOp Z := λ d, Ok (block_size d, d).

(** [&mut [one]] and back: the single buffer of a one-block transfer. *)
Definition read_one (idx : Z) (buf : list Z) : DOp (list Z) :=
  let! bs := read_blocks [idx] [buf] in
  mret (default buf (head bs)).

(** The whole middle blocks of a read, straight into the caller's buffer. *)
Definition read_mid (bs byte_offset first last : Z) (buffer : list Z) : DOp (Z * list Z) :=
  let mid_idxs := seqZ first (last - first) in
  let! i0 := mlift (unwrap (zat mid_idxs 0)) in
  let! mid_start := mlift (umul i0 bs) in
  let! i1 := mlift (unwrap (zat mid_idxs (zlen mid_idxs - 1))) in
  let! mid_end := mlift (umul (i1 + 1) bs) in
  let! a := mlift (usub mid_start byte_offset) in
  let! b := mlift (usub mid_end byte_offset) in
  let! mid_buffer := mlift (slice buffer a b) in
  let mid_buffers := chunks_exact bs mid_buffer in
  let! mid_buffers := read_blocks mid_idxs mid_buffers in
  let! buffer := mlift (copy_at buffer a b (concat mid_buffers)) in
  mret (zlen mid_buffer, buffer).

(** The partial first block of a read. *)
Definition read_first (bs start_idx start_offset : Z) (buffer : list Z) : DOp (Z * list Z) :=
  let! temp := read_one start_idx (zrep bs 0) in
  let copy_len := Z.min (bs - start_offset) (zlen buffer) in
  let! src := mlift (slice temp start_offset (start_offset + copy_len)) in
  let! buffer := mlift (copy_at buffer 0 copy_len src) in
  mret (copy_len, buffer).

(** The partial last block of a read. *)
Definition read_last (bs last_idx end_offset : Z) (buffer : list Z) : DOp (Z * list Z) :=
  let! temp := read_one last_idx (zrep bs 0) in
  let copy_len := end_offset in
  let buffer_len := zlen buffer in
  let! from := mlift (usub buffer_len copy_len) in
  let! src := mlift (slice temp 0 copy_len) in
  let! buffer := mlift (copy_at buffer from buffer_len src) in
  mret (copy_len, buffer).

Definition first_full (start_idx start_offset : Z) : Z :=
  if start_offset =? 0 then start_idx else start_idx + 1.
Definition last_full (end_idx end_offset : Z) : Z :=
  if end_offset =? 0 then end_idx else end_idx - 1.

(** [BlockDevice::read]: the number of bytes read and the filled buffer. *)
Definition read (byte_offset : Z) (buffer : list Z) : DOp (Z * list Z) :=
  let! bs := dev_block_size in
  if bs =? 0 then mfail (Other "block size cannot be zero")
  else if zlen buffer =? 0 then mret (0, buffer)
  else
    let! end_byte := mlift (uadd byte_offset (zlen buffer)) in
    let start_idx := byte_offset / bs in
    let end_idx := (end_byte - 1) / bs + 1 in
    let start_offset := byte_offset mod bs in
    let end_offset := end_byte mod bs in
    let first_full_idx := first_full start_idx start_offset in
    let last_full_idx := last_full end_idx end_offset in
    let! p := (if first_full_idx <? last_full_idx
               then read_mid bs byte_offset first_full_idx last_full_idx buffer
               else mret (0, buffer)) in
    let '(total_read, buffer) := p in
    let! p := (if (start_idx <? first_full_idx) || (first_full_idx =? last_full_idx)
               then let! q := read_first bs start_idx start_offset buffer in
                    mret (total_read + q.1, q.2)
               else mret (total_read, buffer)) in
    let '(total_read, buffer) := p in
    if (last_full_idx <? end_idx) && negb (start_idx =? end_idx - 1)
    then let! q := read_last bs (end_idx - 1) end_offset buffer in
         mret (total_read + q.1, q.2)
    else mret (total_read, buffer).

Definition write_mid (bs byte_offset first last : Z) (buffer : list Z) : DOp Z :=
  let mid_idxs := seqZ first (last - first) in
  let! i0 := mlift (unwrap (zat mid_idxs 0)) in
  let! mid_start := mlift (umul i0 bs) in
  let! i1 := mlift (unwrap (zat mid_idxs (zlen mid_idxs - 1))) in
  let! mid_end := mlift (umul (i1 + 1) bs) in
  let! a := mlift (usub mid_start byte_offset) in
  let! b := mlift (usub mid_end byte_offset) in
  let! mid_buffer := mlift (slice buffer a b) in
  let! _ := write_blocks mid_idxs (chunks_exact bs mid_buffer) in
  mret (zlen mid_buffer).

Definition write_first (bs start_idx start_offset : Z) (buffer : list Z) : DOp Z :=
  let! temp := read_one start_idx (zrep bs 0) in
  let copy_len := Z.min (bs - start_offset) (zlen buffer) in
  let! src := mlift (slice buffer 0 copy_len) in
  let! temp := mlift (copy_at temp start_offset (start_offset + copy_len) src) in
  let! _ := write_blocks [start_idx] [temp] in
  mret copy_len.

Definition write_last (bs last_idx end_offset : Z) (buffer : list Z) : DOp Z :=
  let! temp := read_one last_idx (zrep bs 0) in
  let copy_len := end_offset in
  let buffer_len := zlen buffer in
  let! from := mlift (usub buffer_len copy_len) in
  let! src := mlift (slice buffer from buffer_len) in
  let! temp := mlift (copy_at temp 0 copy_len src) in
  let! _ := write_blocks [last_idx] [temp] in
  mret copy_len.

(** [BlockDevice::write]. *)
Definition write (byte_offset : Z) (buffer : list Z) : DOp Z :=
  let! bs := dev_block_size in
  if bs =? 0 then mfail (Other "block size cannot be zero")
  else if zlen buffer =? 0 then mret 0
  else if usize_max <? byte_offset + zlen buffer then mfail (Other "offset overflow")
  else
    let end_byte := byte_offset + zlen buffer in
    let start_idx := byte_offset / bs in
    let end_idx := (end_byte - 1) / bs + 1 in
    let start_offset := byte_offset mod bs in
    let end_offset := end_byte mod bs in
    let first_full_idx := first_full start_idx start_offset in
    let last_full_idx := last_full end_idx end_offset in
    let! total_written := (if first_full_idx <? last_full_idx
                           then write_mid bs byte_offset first_full_idx last_full_idx buffer
                           else mret 0) in
    let! total_written := (if (start_idx <? first_full_idx) || (first_full_idx =? last_full_idx)
                           then let! q := write_first bs start_idx start_offset buffer in
                                mret (total_written + q)
                           else mret total_written) in
    if (last_full_idx <? end_idx) && negb (start_idx =? end_idx - 1)
    then let! q := write_last bs (end_idx - 1) end_offset buffer in
         mret (total_written + q)
    else mret total_written.
End provided.

(** ** What an implementation promises

    [bd_bytes] is the content of the device as one array of bytes and [bd_ok]
    its being in working order; in working order transfers of blocks that exist
    succeed. *)

Definition write_all (bs : Z) (bytes : list Z) (blocks : list (Z * list Z)) : list Z :=
  foldl (λ b '(i, buf), splice b (i * bs) buf) bytes blocks.

Class BlockDeviceSpec (D : Type) `{BlockDevice D} : Type := {
  bd_bytes : D → list Z;
  bd_ok : D → Prop;
  bd_size_pos d : bd_ok d → 0 < block_size d;
  bd_count_pos d : bd_ok d → 0 ≤ block_count d;
  bd_bytes_len d : bd_ok d → zlen (bd_bytes d) = block_count d * block_size d;
  bd_read d idxs bufs :
    bd_ok d → Forall (λ i, 0 ≤ i < block_count d) idxs → length bufs = length idxs →
    Forall (λ b, zlen b = block_size d) bufs →
    ∃ d', read_blocks idxs bufs d =
        Ok ((λ i, sub (bd_bytes d) (i * block_size d) (block_size d)) <$> idxs, d') ∧
      bd_ok d' ∧ bd_bytes d' = bd_bytes d ∧ block_size d' = block_size d ∧ block_count d' = block_count d;
  bd_write d idxs bufs :
    bd_ok d → Forall (λ i, 0 ≤ i < block_count d) idxs → length bufs = length idxs →
    Forall (λ b, zlen b = block_size d) bufs →
    ∃ d', write_blocks idxs bufs d = Ok (tt, d') ∧ bd_ok d' ∧
      bd_bytes d' = write_all (block_size d) (bd_bytes d) (zip idxs bufs) ∧
      block_size d' = block_size d ∧ block_count d' = block_count d;
}.

Lemma concat_blocks (l : list Z) bs first n :
  0 < bs → 0 ≤ first → (first + Z.of_nat n) * bs ≤ zlen l →
  concat ((λ i, sub l (i * bs) bs) <$> seqZ first (Z.of_nat n)) = sub l (first * bs) (Z.of_nat n * bs).
Proof.
  intros Hbs Hf. induction n as [|n IH]; intros Hl.
  { simpl. unfold sub. by rewrite Z.mul_0_l. }
  replace (Z.of_nat (S n)) with (Z.of_nat n + 1) in * by lia.
  rewrite seqZ_app, fmap_app, concat_app, IH by lia. simpl. rewrite app_nil_r.
  assert (0 ≤ first * bs) by lia. assert (0 ≤ Z.of_nat n * bs) by lia.
  replace ((Z.of_nat n + 1) * bs) with (Z.of_nat n * bs + bs) by lia.
  rewrite sub_app by lia. do 2 f_equal. lia.
Qed.

Lemma write_all_chunks (l m : list Z) bs first n :
  0 < bs → 0 ≤ first → (first + Z.of_nat n) * bs ≤ zlen l → Z.of_nat n * bs ≤ zlen m →
  write_all bs l (zip (seqZ first (Z.of_nat n)) ((λ i, sub m (i * bs) bs) <$> seqZ 0 (Z.of_nat n))) =
  splice l (first * bs) (sub m 0 (Z.of_nat n * bs)).
Proof.
  intros Hbs Hf. induction n as [|n IH]; intros Hl Hm.
  { simpl. by rewrite Z.mul_0_l, sub_0, splice_nil. }
  replace (Z.of_nat (S n)) with (Z.of_nat n + 1) in * by lia.
  rewrite !seqZ_app, fmap_app by lia. simpl.
  rewrite zip_with_app by (rewrite length_fmap, !length_seqZ; done).
  unfold write_all in *. rewrite foldl_app, IH by lia. simpl.
  replace ((Z.of_nat n + 1) * bs) with (Z.of_nat n * bs + bs) by lia.
  assert (0 ≤ first * bs) by lia. assert (0 ≤ Z.of_nat n * bs) by lia.
  rewrite sub_app by lia. simpl. rewrite <-splice_app by (rewrite ?zlen_sub; lia).
  rewrite zlen_sub by lia. f_equal. lia.
Qed.

(** Where a byte range starts and ends in blocks. *)
Lemma geometry bs off n :
  0 < bs → 0 ≤ off → 0 < n →
  let si := off / bs in let ei := (off + n - 1) / bs + 1 in
  let so := off mod bs in let eo := (off + n) mod bs in
  let ff := first_full si so in let lf := last_full ei eo in
  off = si * bs + so ∧ 0 ≤ so < bs ∧ 0 ≤ si < ei ∧ 0 ≤ eo < bs ∧ off + n = lf * bs + eo ∧
  (so = 0 ∧ ff = si ∨ so ≠ 0 ∧ ff = si + 1) ∧ (eo = 0 ∧ lf = ei ∨ eo ≠ 0 ∧ lf = ei - 1) ∧
  (ff < lf ∧ ff * bs + bs ≤ lf * bs ∨ ff = lf ∨ ff = lf + 1 ∧ si = lf).
Proof.
  intros Hbs Hoff Hn. cbv zeta. unfold first_full, last_full.
  pose proof (Z.div_mod off bs). pose proof (Z.mod_pos_bound off bs).
  pose proof (Z.div_mod (off + n - 1) bs). pose proof (Z.mod_pos_bound (off + n - 1) bs).
  assert (0 ≤ off / bs) by (apply Z.div_pos; lia).
  assert (off / bs ≤ (off + n - 1) / bs) by (apply Z.div_le_mono; lia).
  set (si := off / bs) in *. set (q := (off + n - 1) / bs) in *. set (so := off mod bs) in *.
  set (r := (off + n - 1) mod bs) in *.
  assert (r = bs - 1 ∧ (off + n) mod bs = 0 ∨ r < bs - 1 ∧ (off + n) mod bs = r + 1) as Hr.
  { destruct (decide (r = bs - 1)); [left|right]; (split; [lia|]).
    - symmetry. apply (Z.mod_unique_pos _ _ (q + 1)); lia.
    - symmetry. apply (Z.mod_unique_pos _ _ q); lia. }
  set (eo := (off + n) mod bs) in *. destruct (Z.eqb_spec so 0), (Z.eqb_spec eo 0); nia.
Qed.

Section correct.
Context {D : Type} `{BlockDeviceSpec D}.
Implicit Type d : D.

(** [d'] is [d] after transfers that left its content alone. *)
Definition bd_same d d' : Prop :=
  bd_ok d' ∧ bd_bytes d' = bd_bytes d ∧ block_size d' = block_size d ∧ block_count d' = block_count d.

(** [d'] is [d] with bytes [lo, lo + n) taken from [buf]. *)
Definition bd_wrote d d' (buf : list Z) (off p n : Z) : Prop :=
  bd_ok d' ∧ block_size d' = block_size d ∧ block_count d' = block_count d ∧
  (∀ x, zat (bd_bytes d') x =
    if decide (off + p ≤ x < off + p + n) then zat buf (x - off) else zat (bd_bytes d) x).

Lemma read_one_spec d i buf :
  bd_ok d → 0 ≤ i < block_count d → zlen buf = block_size d →
  ∃ d', read_one i buf d = Ok (sub (bd_bytes d) (i * block_size d) (block_size d), d') ∧ bd_same d d'.
Proof.
  intros Hok Hi Hb. destruct (bd_read d [i] [buf]) as (d' & E & Hs);
    [done|by apply Forall_singleton|done|by apply Forall_singleton|].
  exists d'. unfold read_one. mstep. by rewrite E.
Qed.

Lemma block_in_bytes d i :
  bd_ok d → 0 ≤ i < block_count d →
  0 ≤ i * block_size d ∧ i * block_size d + block_size d ≤ zlen (bd_bytes d).
Proof. intros Hok Hi. pose proof (bd_size_pos d Hok). rewrite bd_bytes_len by done. nia. Qed.
(** The three pieces of a read: each fills its part of the buffer from the
    device and leaves the rest of the buffer alone. *)
Definition filled d (off p n : Z) (buf buf' : list Z) : Prop :=
  zlen buf' = zlen buf ∧
  (∀ k, zat buf' k = if decide (p ≤ k < p + n) then zat (bd_bytes d) (off + k) else zat buf k).

Lemma splice_filled d off p n buf :
  0 ≤ off → 0 ≤ p → 0 ≤ n → p + n ≤ zlen buf → off + p + n ≤ zlen (bd_bytes d) →
  filled d off p n buf (splice buf p (sub (bd_bytes d) (off + p) n)).
Proof.
  intros. split; [apply zlen_splice; rewrite ?zlen_sub; lia|].
  intros k. rewrite zat_splice by (rewrite ?zlen_sub; lia). rewrite zlen_sub by lia.
  case_decide; [|done]. rewrite zat_sub by lia. rewrite decide_True by lia. f_equal. lia.
Qed.

Lemma mid_bounds first last :
  first < last → zat (seqZ first (last - first)) 0 = Some first ∧
  zat (seqZ first (last - first)) (zlen (seqZ first (last - first)) - 1) = Some (last - 1).
Proof.
  intros Hlt. unfold zat, zlen. rewrite length_seqZ. simpl. zcase; [lia|].
  rewrite !lookup_seqZ. lia.
Qed.

Lemma read_mid_spec d off first last buf :
  let bs := block_size d in
  bd_ok d → 0 ≤ off → 0 ≤ first < last → last ≤ block_count d → off ≤ first * bs →
  last * bs ≤ off + zlen buf → off + zlen buf ≤ usize_max →
  ∃ d' buf', read_mid bs off first last buf d = Ok ((last * bs - first * bs, buf'), d') ∧ bd_same d d' ∧
    filled d off (first * bs - off) (last * bs - first * bs) buf buf'.
Proof.
  intros bs Hok Hoff Hfl Hcnt Ha Hb Hmax. assert (0 < bs) by (by apply bd_size_pos).
  destruct (mid_bounds first last) as [E0 E1]; [lia|].
  assert (first * bs < last * bs) by nia. pose proof (bd_bytes_len d Hok) as Hlen. fold bs in Hlen.
  assert (last * bs ≤ zlen (bd_bytes d)) by nia.
  unfold read_mid. mstep. rewrite E0. cbn [unwrap]. rewrite umul_ok by lia. rewrite E1. cbn [unwrap].
  replace (last - 1 + 1) with last by lia. rewrite umul_ok by lia. rewrite !usub_ok, slice_ok by lia.
  set (mb := sub buf _ _). assert (zlen mb = last * bs - first * bs) as Hmb by (unfold mb; rewrite zlen_sub; lia).
  destruct (bd_read d (seqZ first (last - first)) (chunks_exact bs mb)) as (d' & E & Hs).
  - done.
  - apply Forall_seqZ. lia.
  - unfold chunks_exact. rewrite length_fmap, !length_seqZ, Hmb.
    replace (last * bs - first * bs) with ((last - first) * bs) by lia. by rewrite Z.div_mul by lia.
  - unfold chunks_exact. apply Forall_fmap, Forall_seqZ. intros i Hi. simpl.
    assert (i + 1 ≤ zlen mb / bs) by lia. pose proof (Z.mul_div_le (zlen mb) bs). apply zlen_sub; nia.
  - rewrite E. fold bs.
    replace (last - first) with (Z.of_nat (Z.to_nat (last - first))) by lia.
    rewrite concat_blocks by nia. rewrite Z2Nat.id by lia.
    replace ((last - first) * bs) with (last * bs - first * bs) by lia.
    rewrite copy_at_ok by (rewrite ?zlen_sub; lia). rewrite Hmb. do 2 eexists. split; [done|]. split; [done|].
    replace (sub (bd_bytes d) (first * bs)) with (sub (bd_bytes d) (off + (first * bs - off))) by (f_equal; lia).
    apply splice_filled; lia.
Qed.

Lemma read_first_spec d off buf :
  let bs := block_size d in
  bd_ok d → 0 ≤ off → off + zlen buf ≤ zlen (bd_bytes d) → 0 < zlen buf →
  ∃ d' buf', read_first bs (off / bs) (off mod bs) buf d =
      Ok ((Z.min (bs - off mod bs) (zlen buf), buf'), d') ∧ bd_same d d' ∧
    filled d off 0 (Z.min (bs - off mod bs) (zlen buf)) buf buf'.
Proof.
  intros bs Hok Hoff Hin Hn. assert (0 < bs) by (by apply bd_size_pos).
  pose proof (Z.div_mod off bs). pose proof (Z.mod_pos_bound off bs). pose proof (bd_bytes_len d Hok) as Hlen.
  assert (0 ≤ off / bs < block_count d) by (split; [apply Z.div_pos; lia|apply Z.div_lt_upper_bound; nia]).
  destruct (block_in_bytes d (off / bs) Hok) as [Hb1 Hb2]; [done|]. fold bs in Hlen, Hb1, Hb2.
  unfold read_first. mstep.
  destruct (read_one_spec d (off / bs) (zrep bs 0)) as (d' & -> & Hs); [done|done|by rewrite zlen_rep by lia|].
  fold bs. set (n := Z.min _ _). rewrite slice_ok by (rewrite ?zlen_sub; lia).
  rewrite sub_sub by lia. rewrite copy_at_ok by (rewrite ?zlen_sub; lia).
  do 2 eexists. split; [done|]. split; [done|].
  replace (off / bs * bs + off mod bs) with (off + 0) by lia.
  replace (off mod bs + n - off mod bs) with n by lia. apply splice_filled; lia.
Qed.

Lemma read_last_spec d off last buf :
  let bs := block_size d in
  let eo := (off + zlen buf) mod bs in
  bd_ok d → 0 ≤ off → off + zlen buf ≤ zlen (bd_bytes d) → off + zlen buf = last * bs + eo →
  0 < eo → eo ≤ zlen buf →
  ∃ d' buf', read_last bs last eo buf d = Ok ((eo, buf'), d') ∧ bd_same d d' ∧
    filled d off (zlen buf - eo) eo buf buf'.
Proof.
  intros bs eo Hok Hoff Hin Heq Heo Hle. assert (0 < bs) by (by apply bd_size_pos).
  assert (0 ≤ eo < bs) by (by apply Z.mod_pos_bound). pose proof (bd_bytes_len d Hok) as Hlen. fold bs in Hlen.
  assert (0 ≤ last < block_count d) by nia.
  destruct (block_in_bytes d last Hok) as [Hb1 Hb2]; [done|]. fold bs in Hb1, Hb2.
  unfold read_last. mstep.
  destruct (read_one_spec d last (zrep bs 0)) as (d' & -> & Hs); [done|done|by rewrite zlen_rep by lia|].
  fold bs. rewrite usub_ok, slice_ok by (rewrite ?zlen_sub; lia).
  rewrite sub_sub by lia. rewrite copy_at_ok by (rewrite ?zlen_sub; lia).
  do 2 eexists. split; [done|]. split; [done|].
  replace (last * bs + 0) with (off + (zlen buf - eo)) by lia.
  replace (eo - 0) with eo by lia. apply splice_filled; lia.
Qed.
Lemma bd_same_trans d1 d2 d3 : bd_same d1 d2 → bd_same d2 d3 → bd_same d1 d3.
Proof. unfold bd_same. intuition congruence. Qed.

Lemma filled_same d d' off p n buf buf' : bd_same d d' → filled d' off p n buf buf' → filled d off p n buf buf'.
Proof. unfold bd_same, filled. intros (_ & -> & _) ?. done. Qed.

(** Optional pieces of a transfer. *)
Lemma read_mid_opt d off first last buf :
  let bs := block_size d in
  bd_ok d → 0 ≤ off → 0 ≤ first → off ≤ first * bs → last * bs ≤ off + zlen buf →
  off + zlen buf ≤ zlen (bd_bytes d) → off + zlen buf ≤ usize_max →
  ∃ d' buf', (if first <? last then read_mid bs off first last buf else mret (0, buf)) d =
      Ok ((Z.max 0 (last * bs - first * bs), buf'), d') ∧ bd_same d d' ∧
    filled d off (first * bs - off) (Z.max 0 (last * bs - first * bs)) buf buf'.
Proof.
  intros bs Hok ??????. assert (0 < bs) by (by apply bd_size_pos). zcase.
  - rewrite Z.max_r by nia. apply read_mid_spec; try done.
    pose proof (bd_bytes_len d Hok) as Hlen. fold bs in Hlen. nia.
  - rewrite Z.max_l by nia. do 2 eexists. split; [done|]. split; [by split|]. split; [done|].
    intros k. by rewrite decide_False by lia.
Qed.

(** The lengths of the partial first and last pieces, and that the three
    pieces cover the range. *)
Definition first_len (bs n si so ff lf : Z) : Z :=
  if (si <? ff) || (ff =? lf) then Z.min (bs - so) n else 0.
Definition last_len (si ei eo lf : Z) : Z :=
  if (lf <? ei) && negb (si =? ei - 1) then eo else 0.

Lemma pieces bs off n :
  0 < bs → 0 ≤ off → 0 < n →
  let si := off / bs in let ei := (off + n - 1) / bs + 1 in
  let so := off mod bs in let eo := (off + n) mod bs in
  let ff := first_full si so in let lf := last_full ei eo in
  let n1 := first_len bs n si so ff lf in let m := Z.max 0 (lf * bs - ff * bs) in
  let n2 := last_len si ei eo lf in
  0 ≤ ff ∧ off ≤ ff * bs ∧ lf * bs ≤ off + n ∧ m + n1 + n2 = n ∧ 0 ≤ n1 ∧ 0 ≤ n2 ∧
  (m = 0 ∨ n1 = ff * bs - off) ∧
  ((lf <? ei) && negb (si =? ei - 1) = true → 0 < eo ∧ ei - 1 = lf ∧ off + n = lf * bs + eo ∧ eo ≤ n).
Proof.
  intros Hbs Hoff Hn. cbv zeta.
  destruct (geometry bs off n) as (Hs & Hso & Hsi & Heo & He & Hff & Hlf & Hord); [lia..|].
  set (si := off / bs) in *. set (ei := (off + n - 1) / bs + 1) in *. set (so := off mod bs) in *.
  set (eo := (off + n) mod bs) in *. set (ff := first_full si so) in *. set (lf := last_full ei eo) in *.
  clearbody si ei so eo ff lf. unfold first_len, last_len.
  destruct Hff as [[? ->]|[? ->]], Hlf as [[? ->]|[? ->]];
    repeat (zcase; cbn [orb andb negb]); subst; try nia.
Qed.

Lemma read_first_opt d off buf (c : bool) :
  let bs := block_size d in
  bd_ok d → 0 ≤ off → off + zlen buf ≤ zlen (bd_bytes d) → 0 < zlen buf →
  ∃ d' buf', (if c then read_first bs (off / bs) (off mod bs) buf else mret (0, buf)) d =
      Ok ((if c then Z.min (bs - off mod bs) (zlen buf) else 0, buf'), d') ∧ bd_same d d' ∧
    filled d off 0 (if c then Z.min (bs - off mod bs) (zlen buf) else 0) buf buf'.
Proof.
  intros bs Hok ???. destruct c; [by apply read_first_spec|].
  do 2 eexists. split; [done|]. split; [by split|]. split; [done|].
  intros k. by rewrite decide_False by lia.
Qed.

Lemma filled_all d off n m0 m n1 n2 b0 b1 b2 b3 :
  zlen b0 = n → m + n1 + n2 = n → 0 ≤ n1 → 0 ≤ n2 → 0 ≤ m → 0 ≤ off → off + n ≤ zlen (bd_bytes d) →
  (m = 0 ∨ n1 = m0) →
  filled d off m0 m b0 b1 → filled d off 0 n1 b1 b2 → filled d off (n - n2) n2 b2 b3 →
  b3 = sub (bd_bytes d) off n.
Proof.
  intros Hn Hsum ?????? [Hl1 Hf1] [Hl2 Hf2] [Hl3 Hf3]. apply zat_ext.
  - rewrite zlen_sub; lia.
  - intros k Hk. rewrite Hf3, Hf2, Hf1, zat_sub by lia. repeat case_decide; try lia; done.
Qed.

Lemma read_spec d off buf :
  bd_ok d → 0 ≤ off → off + zlen buf ≤ zlen (bd_bytes d) → zlen (bd_bytes d) ≤ usize_max →
  ∃ d', read off buf d = Ok ((zlen buf, sub (bd_bytes d) off (zlen buf)), d') ∧ bd_same d d'.
Proof.
  intros Hok Hoff Hin Hmax. pose proof (bd_size_pos d Hok) as Hbs. pose proof (zlen_nonneg buf).
  unfold read. rewrite (mbind_ok dev_block_size _ d (block_size d) d eq_refl).
  destruct (Z.eqb_spec (block_size d) 0) as [|_]; [lia|].
  destruct (Z.eqb_spec (zlen buf) 0) as [e|Hn0].
  { rewrite e, sub_0. destruct buf; [|by rewrite zlen_cons in e; pose proof (zlen_nonneg buf); lia].
    exists d. by split. }
  rewrite (mbind_ok _ _ _ (off + zlen buf) d) by (rewrite uadd_ok by lia; done).
  destruct (pieces (block_size d) off (zlen buf)) as (Hff0 & Hff & Hlf & Hsum & Hn1 & Hn2 & Hcov & Hlast); [lia..|].
  unfold first_len, last_len in *.
  set (bs := block_size d) in *. set (n := zlen buf) in *.
  set (ei := (off + n - 1) / bs + 1) in *. set (ff := first_full _ _) in *. set (lf := last_full _ _) in *.
  destruct (read_mid_opt d off ff lf buf) as (d1 & b1 & E1 & Hd1 & Hf1); [done|lia|done|done|done|done|fold n; lia|].
  rewrite (mbind_ok _ _ _ _ _ E1). fold bs in Hf1 |- *. set (m := Z.max 0 _) in *.
  set (c := (off / bs <? ff) || (ff =? lf)) in *.
  destruct (read_first_opt d1 off b1 c) as (d2 & b2 & E2 & Hd2 & Hf2);
    [apply Hd1|done|destruct Hd1 as (_ & -> & _); rewrite (proj1 Hf1); done|rewrite (proj1 Hf1); fold n; lia|].
  apply (filled_same d) in Hf2; [|done]. rewrite (proj1 Hf1) in E2, Hf2.
  replace (block_size d1) with bs in E2, Hf2 by (symmetry; apply Hd1). fold n in E2, Hf2.
  set (n1 := if c then _ else _) in *.
  rewrite (mbind_ok _ _ _ (m + n1, b2) d2).
  2: { destruct c; [by rewrite (mbind_ok _ _ _ _ _ E2)|]. injection E2 as <- <-. by rewrite Z.add_0_r. }
  set (c' := (lf <? ei) && _) in *.
  assert (bd_same d d2) as Hd by (by eapply bd_same_trans).
  destruct c'.
  - destruct Hlast as (Heo & Hei & Heq & Hle); [done|].
    assert (zlen b2 = n) as Hb2 by (by rewrite (proj1 Hf2), (proj1 Hf1)).
    pose proof (read_last_spec d2 off lf b2) as Hl. cbv zeta in Hl. rewrite Hb2 in Hl.
    pose proof Hd as (Hok2 & Eb & Es & _). rewrite Es, Eb in Hl. fold bs in Hl.
    destruct Hl as (d3 & b3 & E3 & Hd3 & Hf3); [done..|].
    rewrite Hei, (mbind_ok _ _ _ _ _ E3). exists d3.
    apply (filled_same d) in Hf3; [|done].
    rewrite (filled_all d off n (ff * bs - off) m n1 ((off + n) mod bs) buf b1 b2 b3)
      by (done || lia). split; [|by eapply bd_same_trans]. unfold mret. simpl. by rewrite Hsum.
  - exists d2. split; [|done]. unfold mret.
    rewrite (filled_all d off n (ff * bs - off) m n1 0 buf b1 b2 b2); try done; try lia.
    + by replace (m + n1) with n by lia.
    + split; [done|]. intros k. by rewrite decide_False by lia.
Qed.
(** ** Writing *)

Lemma splice_wrote d d' buf off p n :
  bd_ok d' → block_size d' = block_size d → block_count d' = block_count d →
  0 ≤ off → 0 ≤ p → 0 ≤ n → p + n ≤ zlen buf → off + p + n ≤ zlen (bd_bytes d) →
  bd_bytes d' = splice (bd_bytes d) (off + p) (sub buf p n) → bd_wrote d d' buf off p n.
Proof.
  intros Hok Hs Hc ????? Hb. split_and!; [done..|]. intros x. rewrite Hb.
  rewrite zat_splice by (rewrite ?zlen_sub; lia). rewrite zlen_sub by lia.
  case_decide; [|done]. rewrite zat_sub by lia. rewrite decide_True by lia. f_equal. lia.
Qed.

Lemma write_mid_spec d off first last buf :
  let bs := block_size d in
  bd_ok d → 0 ≤ off → 0 ≤ first < last → last ≤ block_count d → off ≤ first * bs →
  last * bs ≤ off + zlen buf → off + zlen buf ≤ usize_max →
  ∃ d', write_mid bs off first last buf d = Ok (last * bs - first * bs, d') ∧
    bd_wrote d d' buf off (first * bs - off) (last * bs - first * bs).
Proof.
  intros bs Hok Hoff Hfl Hcnt Ha Hb Hmax. assert (0 < bs) by (by apply bd_size_pos).
  destruct (mid_bounds first last) as [E0 E1]; [lia|].
  assert (first * bs < last * bs) by nia. pose proof (bd_bytes_len d Hok) as Hlen. fold bs in Hlen.
  assert (last * bs ≤ zlen (bd_bytes d)) by nia.
  unfold write_mid. mstep. rewrite E0. cbn [unwrap]. rewrite umul_ok by lia. rewrite E1. cbn [unwrap].
  replace (last - 1 + 1) with last by lia. rewrite umul_ok by lia. rewrite !usub_ok, slice_ok by lia.
  set (mb := sub buf _ _). assert (zlen mb = last * bs - first * bs) as Hmb by (unfold mb; rewrite zlen_sub; lia).
  assert (zlen mb / bs = last - first) as Hdiv.
  { rewrite Hmb. replace (last * bs - first * bs) with ((last - first) * bs) by lia. by rewrite Z.div_mul by lia. }
  destruct (bd_write d (seqZ first (last - first)) (chunks_exact bs mb)) as (d' & E & Hok' & Hbytes & Hs & Hc).
  - done.
  - apply Forall_seqZ. lia.
  - unfold chunks_exact. by rewrite length_fmap, !length_seqZ, Hdiv.
  - unfold chunks_exact. apply Forall_fmap, Forall_seqZ. intros i Hi. simpl. apply zlen_sub; nia.
  - rewrite E, Hmb. exists d'. split; [done|]. apply splice_wrote; try done; try lia.
    rewrite Hbytes. unfold chunks_exact. rewrite Hdiv. fold bs.
    replace (last - first) with (Z.of_nat (Z.to_nat (last - first))) by lia.
    rewrite write_all_chunks by nia. rewrite Z2Nat.id by lia. rewrite sub_all by lia.
    f_equal; [lia|]. unfold mb. f_equal. lia.
Qed.

Lemma write_first_spec d off buf :
  let bs := block_size d in
  bd_ok d → 0 ≤ off → off + zlen buf ≤ zlen (bd_bytes d) → 0 < zlen buf →
  ∃ d', write_first bs (off / bs) (off mod bs) buf d = Ok (Z.min (bs - off mod bs) (zlen buf), d') ∧
    bd_wrote d d' buf off 0 (Z.min (bs - off mod bs) (zlen buf)).
Proof.
  intros bs Hok Hoff Hin Hn. assert (0 < bs) by (by apply bd_size_pos).
  pose proof (Z.div_mod off bs). pose proof (Z.mod_pos_bound off bs). pose proof (bd_bytes_len d Hok) as Hlen.
  assert (0 ≤ off / bs < block_count d) by (split; [apply Z.div_pos; lia|apply Z.div_lt_upper_bound; nia]).
  destruct (block_in_bytes d (off / bs) Hok) as [Hb1 Hb2]; [done|]. fold bs in Hlen, Hb1, Hb2.
  unfold write_first. mstep.
  destruct (read_one_spec d (off / bs) (zrep bs 0)) as (d1 & -> & Hok1 & Eb & Es & Ec);
    [done|done|by rewrite zlen_rep by lia|].
  fold bs in Es |- *. set (n := Z.min _ _).
  rewrite slice_ok, copy_at_ok by (rewrite ?zlen_sub; lia).
  set (temp := splice _ _ _). assert (zlen temp = bs) by (unfold temp; rewrite zlen_splice; rewrite ?zlen_sub; lia).
  destruct (bd_write d1 [off / bs] [temp]) as (d2 & -> & Hok2 & Eb2 & Es2 & Ec2);
    [done|apply Forall_singleton; lia|done|apply Forall_singleton; lia|].
  exists d2. split; [done|]. apply splice_wrote; try done; try lia.
  rewrite Eb2, Eb, Es. unfold write_all, temp. simpl. rewrite splice_rmw by (rewrite ?zlen_sub; lia).
  f_equal; [lia|]. f_equal. lia.
Qed.

Lemma write_last_spec d off last buf :
  let bs := block_size d in
  let eo := (off + zlen buf) mod bs in
  bd_ok d → 0 ≤ off → off + zlen buf ≤ zlen (bd_bytes d) → off + zlen buf = last * bs + eo →
  0 < eo → eo ≤ zlen buf →
  ∃ d', write_last bs last eo buf d = Ok (eo, d') ∧ bd_wrote d d' buf off (zlen buf - eo) eo.
Proof.
  intros bs eo Hok Hoff Hin Heq Heo Hle. assert (0 < bs) by (by apply bd_size_pos).
  assert (0 ≤ eo < bs) by (by apply Z.mod_pos_bound). pose proof (bd_bytes_len d Hok) as Hlen. fold bs in Hlen.
  assert (0 ≤ last < block_count d) by nia.
  destruct (block_in_bytes d last Hok) as [Hb1 Hb2]; [done|]. fold bs in Hb1, Hb2.
  unfold write_last. mstep.
  destruct (read_one_spec d last (zrep bs 0)) as (d1 & -> & Hok1 & Eb & Es & Ec);
    [done|done|by rewrite zlen_rep by lia|].
  fold bs in Es |- *. rewrite usub_ok, slice_ok, copy_at_ok by (rewrite ?zlen_sub; lia).
  set (temp := splice _ _ _). assert (zlen temp = bs) by (unfold temp; rewrite zlen_splice; rewrite ?zlen_sub; lia).
  destruct (bd_write d1 [last] [temp]) as (d2 & -> & Hok2 & Eb2 & Es2 & Ec2);
    [done|apply Forall_singleton; lia|done|apply Forall_singleton; lia|].
  exists d2. split; [done|]. apply splice_wrote; try done; try lia.
  rewrite Eb2, Eb, Es. unfold write_all, temp. simpl. rewrite splice_rmw by (rewrite ?zlen_sub; lia).
  f_equal; [lia|]. f_equal. lia.
Qed.
Lemma bd_wrote_nothing d buf off p : bd_ok d → bd_wrote d d buf off p 0.
Proof. intros Hok. split_and!; [done..|]. intros x. by rewrite decide_False by lia. Qed.

Lemma bd_wrote_len d d' buf off p n : bd_ok d → bd_wrote d d' buf off p n → zlen (bd_bytes d') = zlen (bd_bytes d).
Proof. intros Hok (Hok' & Es & Ec & _). by rewrite !bd_bytes_len, Es, Ec by done. Qed.

Lemma write_mid_opt d off first last buf :
  let bs := block_size d in
  bd_ok d → 0 ≤ off → 0 ≤ first → off ≤ first * bs → last * bs ≤ off + zlen buf →
  off + zlen buf ≤ zlen (bd_bytes d) → off + zlen buf ≤ usize_max →
  ∃ d', (if first <? last then write_mid bs off first last buf else mret 0) d =
      Ok (Z.max 0 (last * bs - first * bs), d') ∧
    bd_wrote d d' buf off (first * bs - off) (Z.max 0 (last * bs - first * bs)).
Proof.
  intros bs Hok ??????. assert (0 < bs) by (by apply bd_size_pos). zcase.
  - rewrite Z.max_r by nia. apply write_mid_spec; try done.
    pose proof (bd_bytes_len d Hok) as Hlen. fold bs in Hlen. nia.
  - rewrite Z.max_l by nia. exists d. split; [done|]. by apply bd_wrote_nothing.
Qed.

Lemma write_first_opt d off buf (c : bool) :
  let bs := block_size d in
  bd_ok d → 0 ≤ off → off + zlen buf ≤ zlen (bd_bytes d) → 0 < zlen buf →
  ∃ d', (if c then write_first bs (off / bs) (off mod bs) buf else mret 0) d =
      Ok (if c then Z.min (bs - off mod bs) (zlen buf) else 0, d') ∧
    bd_wrote d d' buf off 0 (if c then Z.min (bs - off mod bs) (zlen buf) else 0).
Proof.
  intros bs Hok ???. destruct c; [by apply write_first_spec|].
  exists d. split; [done|]. by apply bd_wrote_nothing.
Qed.

Lemma wrote_all d d1 d2 d3 buf off n m0 m n1 n2 :
  bd_ok d → zlen buf = n → m + n1 + n2 = n → 0 ≤ n1 → 0 ≤ n2 → 0 ≤ m → 0 ≤ off →
  off + n ≤ zlen (bd_bytes d) → (m = 0 ∨ n1 = m0) →
  bd_wrote d d1 buf off m0 m → bd_wrote d1 d2 buf off 0 n1 → bd_wrote d2 d3 buf off (n - n2) n2 →
  bd_ok d3 ∧ block_size d3 = block_size d ∧ block_count d3 = block_count d ∧
  bd_bytes d3 = splice (bd_bytes d) off buf.
Proof.
  intros Hok Hn ???????  H1 H2 H3. pose proof (zlen_nonneg buf).
  assert (zlen (bd_bytes d3) = zlen (bd_bytes d)).
  { etrans; [by eapply bd_wrote_len; [apply H2|]|]. etrans; [by eapply bd_wrote_len; [apply H1|]|].
    by eapply bd_wrote_len. }
  destruct H1 as (? & ? & ? & Hf1), H2 as (? & ? & ? & Hf2), H3 as (? & ? & ? & Hf3).
  split_and!; [done|congruence|congruence|]. apply zat_ext.
  - rewrite zlen_splice; lia.
  - intros k Hk. rewrite Hf3, Hf2, Hf1, zat_splice by lia. repeat case_decide; try lia; done.
Qed.

Lemma write_spec d off buf :
  bd_ok d → 0 ≤ off → off + zlen buf ≤ zlen (bd_bytes d) → zlen (bd_bytes d) ≤ usize_max →
  ∃ d', write off buf d = Ok (zlen buf, d') ∧ bd_ok d' ∧
    block_size d' = block_size d ∧ block_count d' = block_count d ∧
    bd_bytes d' = splice (bd_bytes d) off buf.
Proof.
  intros Hok Hoff Hin Hmax. pose proof (bd_size_pos d Hok) as Hbs. pose proof (zlen_nonneg buf).
  unfold write. rewrite (mbind_ok dev_block_size _ d (block_size d) d eq_refl).
  destruct (Z.eqb_spec (block_size d) 0) as [|_]; [lia|].
  destruct (Z.eqb_spec (zlen buf) 0) as [e|Hn0].
  { destruct buf; [|by rewrite zlen_cons in e; pose proof (zlen_nonneg buf); lia].
    exists d. rewrite splice_nil. by split. }
  destruct (Z.ltb_spec usize_max (off + zlen buf)) as [|_]; [lia|].
  destruct (pieces (block_size d) off (zlen buf)) as (Hff0 & Hff & Hlf & Hsum & Hn1 & Hn2 & Hcov & Hlast); [lia..|].
  unfold first_len, last_len in *.
  set (bs := block_size d) in *. set (n := zlen buf) in *.
  set (ei := (off + n - 1) / bs + 1) in *. set (ff := first_full _ _) in *. set (lf := last_full _ _) in *.
  destruct (write_mid_opt d off ff lf buf) as (d1 & E1 & Hw1); [done|lia|done|done|done|done|fold n; lia|].
  cbv zeta. rewrite (mbind_ok _ _ _ _ _ E1). fold bs in Hw1 |- *. set (m := Z.max 0 _) in *.
  set (c := (off / bs <? ff) || (ff =? lf)) in *.
  pose proof (bd_wrote_len _ _ _ _ _ _ Hok Hw1) as Hlen1. pose proof Hw1 as (Hok1 & Es1 & _).
  destruct (write_first_opt d1 off buf c) as (d2 & E2 & Hw2); [done|done|rewrite Hlen1; done|fold n; lia|].
  rewrite Es1 in E2, Hw2. fold bs n in E2, Hw2. set (n1 := if c then _ else _) in *.
  rewrite (mbind_ok _ _ _ (m + n1) d2).
  2: { destruct c; [by rewrite (mbind_ok _ _ _ _ _ E2)|]. injection E2 as <-. by rewrite Z.add_0_r. }
  pose proof (bd_wrote_len _ _ _ _ _ _ Hok1 Hw2) as Hlen2. pose proof Hw2 as (Hok2 & Es2 & _).
  set (c' := (lf <? ei) && _) in *. destruct c'.
  - destruct Hlast as (Heo & Hei & Heq & Hle); [done|].
    pose proof (write_last_spec d2 off lf buf) as Hl. cbv zeta in Hl. rewrite Es2, Es1 in Hl. fold bs n in Hl.
    destruct Hl as (d3 & E3 & Hw3); [done|done|lia|done..|].
    rewrite Hei, (mbind_ok _ _ _ _ _ E3). exists d3. split; [unfold mret; by rewrite Hsum|].
    by apply (wrote_all d d1 d2 d3 buf off n (ff * bs - off) m n1 ((off + n) mod bs)); try done; lia.
  - exists d2. split; [unfold mret; do 2 f_equal; lia|].
    apply (wrote_all d d1 d2 d2 buf off n (ff * bs - off) m n1 0); try done; try lia.
    by apply bd_wrote_nothing.
Qed.
End correct.

(** ** The virtio disk

    [VirtIOBlk] is the driver of the [virtio_drivers] crate: transfers of whole
    512-byte sectors, starting at a sector number. *)

Definition SECTOR_SIZE : Z := 512.

Class VirtIOBlk (V : Type) : Type := {
  vb_capacity : V → Z;
  vb_read_blocks : Z → list Z → M V unit (list Z);
  vb_write_blocks : Z → list Z → M V unit unit;
}.

Class VirtIOBlkSpec (V : Type) `{VirtIOBlk V} : Type := {
  vb_bytes : V → list Z;
  vb_ok : V → Prop;
  vb_bytes_len v : vb_ok v → zlen (vb_bytes v) = vb_capacity v * SECTOR_SIZE;
  vb_read v idx buf n :
    vb_ok v → 0 ≤ idx → 0 < n → idx + n ≤ vb_capacity v → zlen buf = n * SECTOR_SIZE →
    ∃ v', vb_read_blocks idx buf v = Ok (sub (vb_bytes v) (idx * SECTOR_SIZE) (zlen buf), v') ∧
      vb_ok v' ∧ vb_bytes v' = vb_bytes v ∧ vb_capacity v' = vb_capacity v;
  vb_write v idx buf n :
    vb_ok v → 0 ≤ idx → 0 < n → idx + n ≤ vb_capacity v → zlen buf = n * SECTOR_SIZE →
    ∃ v', vb_write_blocks idx buf v = Ok (tt, v') ∧ vb_ok v' ∧
      vb_bytes v' = splice (vb_bytes v) (idx * SECTOR_SIZE) buf ∧ vb_capacity v' = vb_capacity v;
}.

Section virtio.
Context {V : Type} `{VirtIOBlk V}.

Record VirtIOBlkDiskDriver : Type := mkDriver { blk : V; capacity : Z }.

(** [VirtIOBlkDiskDriver::new] *)
Definition virtio_new (v : V) : VirtIOBlkDiskDriver := mkDriver v (vb_capacity v).

Definition virtio_block_size (d : VirtIOBlkDiskDriver) : Z := PAGE_SIZE.
(** The product is one of [usize] in the code and overflows for a disk of
    2^55 sectors or more; [vd_ok] below excludes such a disk. *)
Definition virtio_block_count (d : VirtIOBlkDiskDriver) : Z :=
  capacity d * SECTOR_SIZE / virtio_block_size d.

Definition check_buffer_size (buffer : list Z) (bs : Z) : res BlockDeviceError unit :=
  if negb (zlen buffer =? bs) then Err InvalidBufferSize else Ok tt.

(** Run the inner driver, mapping every error to [e]. *)
Definition with_blk {A} (e : BlockDeviceError) (m : M V unit A) : M VirtIOBlkDiskDriver BlockDeviceError A :=
  λ d, match m (blk d) with
       | Ok (a, v) => Ok (a, mkDriver v (capacity d))
       | Err (_, v) => Err (e, mkDriver v (capacity d))
       | Panic => Panic
       end.

Definition virtio_read_block (block_idx : Z) (buffer : list Z) :
    M VirtIOBlkDiskDriver BlockDeviceError (list Z) := λ d,
  (let! _ := mlift (check_buffer_size buffer (virtio_block_size d)) in
   let sectors_per_block := virtio_block_size d / SECTOR_SIZE in
   let! sector_idx := mlift (umul block_idx sectors_per_block) in
   with_blk ReadError (vb_read_blocks sector_idx buffer)) d.

Definition virtio_write_block (block_idx : Z) (buffer : list Z) :
    M VirtIOBlkDiskDriver BlockDeviceError unit := λ d,
  (let! _ := mlift (check_buffer_size buffer (virtio_block_size d)) in
   let sectors_per_block := virtio_block_size d / SECTOR_SIZE in
   let! sector_idx := mlift (umul block_idx sectors_per_block) in
   with_blk WriteError (vb_write_blocks sector_idx buffer)) d.

(** [.map_err(|_| e)] *)
Definition map_err {S A} (e : BlockDeviceError) (m : M S BlockDeviceError A) : M S BlockDeviceError A :=
  λ s, match m s with Err (_, s') => Err (e, s') | r => r end.

Fixpoint virtio_read_loop (l : list (Z * list Z)) : M VirtIOBlkDiskDriver BlockDeviceError (list (list Z)) :=
  match l with
  | [] => mret []
  | (block_idx, buf) :: l =>
      let! buf := map_err ReadError (virtio_read_block block_idx buf) in
      let! bufs := virtio_read_loop l in
      mret (buf :: bufs)
  end.

Fixpoint virtio_write_loop (l : list (Z * list Z)) : M VirtIOBlkDiskDriver BlockDeviceError unit :=
  match l with
  | [] => mret tt
  | (block_idx, buf) :: l =>
      let! _ := map_err WriteError (virtio_write_block block_idx buf) in
      virtio_write_loop l
  end.

Definition virtio_read_blocks (block_idxs : list Z) (buffers : list (list Z)) :
    M VirtIOBlkDiskDriver BlockDeviceError (list (list Z)) :=
  if negb (zlen block_idxs =? zlen buffers) then mfail (Other "buffer count must match indexes")
  else virtio_read_loop (zip block_idxs buffers).

Definition virtio_write_blocks (block_idxs : list Z) (buffers : list (list Z)) :
    M VirtIOBlkDiskDriver BlockDeviceError unit :=
  if negb (zlen block_idxs =? zlen buffers) then mfail (Other "buffer count must match indexes")
  else virtio_write_loop (zip block_idxs buffers).

#[export] Instance virtio_BlockDevice : BlockDevice VirtIOBlkDiskDriver := {
  block_size := virtio_block_size;
  block_count := virtio_block_count;
  read_blocks := virtio_read_blocks;
  write_blocks := virtio_write_blocks;
}.
End virtio.
Arguments VirtIOBlkDiskDriver : clear implicits.

Section virtio_spec.
Context {V : Type} `{VirtIOBlkSpec V}.
Implicit Type d : VirtIOBlkDiskDriver V.

Definition vd_ok d : Prop :=
  vb_ok (blk d) ∧ capacity d = vb_capacity (blk d) ∧ 0 ≤ capacity d ∧ capacity d * SECTOR_SIZE ≤ usize_max.
Definition vd_bytes d : list Z := sub (vb_bytes (blk d)) 0 (virtio_block_count d * PAGE_SIZE).

Lemma vd_count d : vd_ok d →
  0 ≤ virtio_block_count d ∧ virtio_block_count d * 4096 ≤ zlen (vb_bytes (blk d)) ∧
  virtio_block_count d * 8 ≤ capacity d.
Proof.
  intros (Hok & Hc & ? & ?). rewrite vb_bytes_len, <-Hc by done.
  unfold virtio_block_count, virtio_block_size, PAGE_SIZE, SECTOR_SIZE.
  pose proof (Z.mul_div_le (capacity d * 512) 4096). split; [apply Z.div_pos; lia|lia].
Qed.

Lemma vd_bytes_len d : vd_ok d → zlen (vd_bytes d) = virtio_block_count d * PAGE_SIZE.
Proof. intros Hok. destruct (vd_count d Hok) as (? & ? & _). apply zlen_sub; unfold PAGE_SIZE; lia. Qed.

Lemma vd_block d i : vd_ok d → 0 ≤ i < virtio_block_count d →
  sub (vd_bytes d) (i * PAGE_SIZE) PAGE_SIZE = sub (vb_bytes (blk d)) (i * PAGE_SIZE) PAGE_SIZE.
Proof.
  intros Hok Hi. destruct (vd_count d Hok) as (? & ? & _). unfold vd_bytes, PAGE_SIZE.
  rewrite sub_sub by lia. done.
Qed.

Lemma vd_read_block d i buf :
  vd_ok d → 0 ≤ i < virtio_block_count d → zlen buf = PAGE_SIZE →
  ∃ d', virtio_read_block i buf d = Ok (sub (vd_bytes d) (i * PAGE_SIZE) PAGE_SIZE, d') ∧ vd_ok d' ∧
    vd_bytes d' = vd_bytes d ∧ virtio_block_count d' = virtio_block_count d.
Proof.
  intros Hok Hi Hb. pose proof (vd_count d Hok) as (? & ? & ?). rewrite vd_block by done.
  pose proof Hok as (Hv & Hc & ? & ?).
  unfold virtio_read_block, check_buffer_size, with_blk, virtio_block_size, PAGE_SIZE, SECTOR_SIZE in *.
  mstep. rewrite Hb. change (4096 / 512) with 8. simpl. rewrite umul_ok by (unfold usize_max in *; lia).
  destruct (vb_read (blk d) (i * 8) buf 8) as (v' & -> & Hv' & Eb & Ec);
    [done|lia|lia|lia|unfold SECTOR_SIZE; lia|].
  rewrite Hb. exists (mkDriver v' (capacity d)).
  replace (i * 8 * SECTOR_SIZE) with (i * 4096) by (unfold SECTOR_SIZE; lia). split; [done|].
  unfold vd_bytes, vd_ok, virtio_block_count. simpl. rewrite Eb, Ec. by split_and!.
Qed.

Lemma vd_write_block d i buf :
  vd_ok d → 0 ≤ i < virtio_block_count d → zlen buf = PAGE_SIZE →
  ∃ d', virtio_write_block i buf d = Ok (tt, d') ∧ vd_ok d' ∧
    vd_bytes d' = splice (vd_bytes d) (i * PAGE_SIZE) buf ∧ virtio_block_count d' = virtio_block_count d.
Proof.
  intros Hok Hi Hb. pose proof (vd_count d Hok) as (? & ? & ?).
  pose proof Hok as (Hv & Hc & ? & ?).
  unfold virtio_write_block, check_buffer_size, with_blk, virtio_block_size, PAGE_SIZE, SECTOR_SIZE in *.
  mstep. rewrite Hb. change (4096 / 512) with 8. simpl. rewrite umul_ok by (unfold usize_max in *; lia).
  destruct (vb_write (blk d) (i * 8) buf 8) as (v' & -> & Hv' & Eb & Ec);
    [done|lia|lia|lia|unfold SECTOR_SIZE; lia|].
  exists (mkDriver v' (capacity d)). split; [done|].
  replace (i * 8 * SECTOR_SIZE) with (i * 4096) in Eb by (unfold SECTOR_SIZE; lia).
  unfold vd_bytes, vd_ok. rewrite <-sub_splice by (unfold PAGE_SIZE in *; lia).
  change (virtio_block_count (mkDriver v' (capacity d))) with (virtio_block_count d).
  simpl. rewrite Eb, Ec. by split_and!.
Qed.

Lemma vd_read_loop d idxs bufs :
  vd_ok d → Forall (λ i, 0 ≤ i < virtio_block_count d) idxs → length bufs = length idxs →
  Forall (λ b, zlen b = PAGE_SIZE) bufs →
  ∃ d', virtio_read_loop (zip idxs bufs) d =
      Ok ((λ i, sub (vd_bytes d) (i * PAGE_SIZE) PAGE_SIZE) <$> idxs, d') ∧ vd_ok d' ∧
    vd_bytes d' = vd_bytes d ∧ virtio_block_count d' = virtio_block_count d.
Proof.
  revert d bufs. induction idxs as [|i idxs IH]; intros d [|b bufs] Hok Hi Hl Hb; try done; [by exists d|].
  apply Forall_cons in Hi as [Hi His], Hb as [Hb Hbs]. simpl.
  destruct (vd_read_block d i b Hok Hi Hb) as (d1 & E1 & Hok1 & Eb1 & Ec1).
  rewrite (mbind_ok _ _ _ (sub (vd_bytes d) (i * PAGE_SIZE) PAGE_SIZE) d1) by (unfold map_err; by rewrite E1).
  destruct (IH d1 bufs) as (d2 & E2 & Hok2 & Eb2 & Ec2); [done|by rewrite Ec1|by injection Hl|done|].
  rewrite (mbind_ok _ _ _ _ _ E2), Eb1. exists d2. split_and!; [done|done|congruence|congruence].
Qed.

Lemma vd_write_loop d idxs bufs :
  vd_ok d → Forall (λ i, 0 ≤ i < virtio_block_count d) idxs → length bufs = length idxs →
  Forall (λ b, zlen b = PAGE_SIZE) bufs →
  ∃ d', virtio_write_loop (zip idxs bufs) d = Ok (tt, d') ∧ vd_ok d' ∧
    vd_bytes d' = write_all PAGE_SIZE (vd_bytes d) (zip idxs bufs) ∧
    virtio_block_count d' = virtio_block_count d.
Proof.
  revert d bufs. induction idxs as [|i idxs IH]; intros d [|b bufs] Hok Hi Hl Hb; try done; [by exists d|].
  apply Forall_cons in Hi as [Hi His], Hb as [Hb Hbs]. simpl.
  destruct (vd_write_block d i b Hok Hi Hb) as (d1 & E1 & Hok1 & Eb1 & Ec1).
  rewrite (mbind_ok _ _ _ tt d1) by (unfold map_err; by rewrite E1).
  destruct (IH d1 bufs) as (d2 & E2 & Hok2 & Eb2 & Ec2); [done|by rewrite Ec1|by injection Hl|done|].
  exists d2. rewrite Eb2, Eb1. split_and!; [done|done|done|congruence].
Qed.

#[export] Program Instance virtio_BlockDeviceSpec : BlockDeviceSpec (VirtIOBlkDiskDriver V) := {
  bd_bytes := vd_bytes;
  bd_ok := vd_ok;
}.
Next Obligation. done. Qed.
Next Obligation. intros d Hok. by apply vd_count. Qed.
Next Obligation. intros d Hok. by apply vd_bytes_len. Qed.
Next Obligation.
  intros d idxs bufs Hok Hi Hl Hb. simpl in *. unfold virtio_read_blocks, zlen. rewrite Hl, Z.eqb_refl.
  destruct (vd_read_loop d idxs bufs) as (d' & ? & ? & ? & ?); [done..|]. by exists d'.
Qed.
Next Obligation.
  intros d idxs bufs Hok Hi Hl Hb. simpl in *. unfold virtio_write_blocks, zlen. rewrite Hl, Z.eqb_refl.
  destruct (vd_write_loop d idxs bufs) as (d' & ? & ? & ? & ?); [done..|]. by exists d'.
Qed.
End virtio_spec.

(** A virtio disk kept in memory. *)
Record MemDisk : Type := mkMem { mem_bytes : list Z }.

#[export] Instance mem_VirtIOBlk : VirtIOBlk MemDisk := {
  vb_capacity := λ v, zlen (mem_bytes v) / SECTOR_SIZE;
  vb_read_blocks := λ idx buf v,
    if idx * SECTOR_SIZE + zlen buf <=? zlen (mem_bytes v)
    then Ok (sub (mem_bytes v) (idx * SECTOR_SIZE) (zlen buf), v) else Err (tt, v);
  vb_write_blocks := λ idx buf v,
    if idx * SECTOR_SIZE + zlen buf <=? zlen (mem_bytes v)
    then Ok (tt, mkMem (splice (mem_bytes v) (idx * SECTOR_SIZE) buf)) else Err (tt, v);
}.

#[export] Program Instance mem_VirtIOBlkSpec : VirtIOBlkSpec MemDisk := {
  vb_bytes := mem_bytes;
  vb_ok := λ v, zlen (mem_bytes v) mod SECTOR_SIZE = 0;
}.
Next Obligation.
  intros v Hv. simpl. unfold SECTOR_SIZE in *. pose proof (Z.div_mod (zlen (mem_bytes v)) 512). lia.
Qed.
Next Obligation.
  intros v idx buf n Hv ??? Hb. simpl in *. unfold SECTOR_SIZE in *.
  pose proof (Z.div_mod (zlen (mem_bytes v)) 512). zcase; [|lia]. by exists v.
Qed.
Next Obligation.
  intros v idx buf n Hv ??? Hb. simpl in *. unfold SECTOR_SIZE in *.
  pose proof (Z.div_mod (zlen (mem_bytes v)) 512). zcase; [|lia]. eexists. split; [done|]. simpl.
  rewrite zlen_splice by lia. done.
Qed.

(** ** Correctness of byte transfers *)

(** [read] of a byte range that is on the device fills the whole buffer
    with exactly those bytes, reports its length and changes nothing on the
    device, however the range falls on the blocks; an empty buffer reads
    nothing. *)
Lemma read_correct D `{BlockDeviceSpec D} d off buf :
  bd_ok d → 0 ≤ off → off + zlen buf ≤ zlen (bd_bytes d) → zlen (bd_bytes d) ≤ usize_max →
  ∃ d', read off buf d = Ok ((zlen buf, sub (bd_bytes d) off (zlen buf)), d') ∧
    bd_ok d' ∧ bd_bytes d' = bd_bytes d ∧ block_size d' = block_size d ∧ block_count d' = block_count d.
Proof. intros ????. by apply read_spec. Qed.

(** Three blocks: the first filled with 1, the second with 2, the third with 3. *)
Definition demo_disk : VirtIOBlkDiskDriver MemDisk :=
  virtio_new (mkMem (zrep 4096 1 ++ zrep 4096 2 ++ zrep 4096 3)).

Lemma demo_disk_ok : vd_ok demo_disk ∧ zlen (vd_bytes demo_disk) = 12288.
Proof. vm_compute. by repeat split. Qed.

Lemma read_witness :
  ∃ d', read 4090 (zrep 4110 0) demo_disk = Ok ((4110, zrep 6 1 ++ zrep 4096 2 ++ zrep 8 3), d') ∧
    vd_bytes d' = vd_bytes demo_disk.
Proof.
  destruct (read_correct (VirtIOBlkDiskDriver MemDisk) demo_disk 4090 (zrep 4110 0))
    as (d' & E & _ & Eb & _).
  - apply demo_disk_ok.
  - lia.
  - apply Z.leb_le. vm_compute. reflexivity.
  - apply Z.leb_le. vm_compute. reflexivity.
  - exists d'. split; [|exact Eb]. rewrite E. vm_compute. reflexivity.
Defined.

(** C22: [write] of a byte range that is on the device replaces exactly those
    bytes, reports the length of the buffer, and leaves every other byte of the
    device alone, however the range falls on the blocks. *)
Theorem write_correct D `{BlockDeviceSpec D} d off buf :
  bd_ok d → 0 ≤ off → off + zlen buf ≤ zlen (bd_bytes d) → zlen (bd_bytes d) ≤ usize_max →
  ∃ d', write off buf d = Ok (zlen buf, d') ∧ bd_ok d' ∧
    block_size d' = block_size d ∧ block_count d' = block_count d ∧
    bd_bytes d' = splice (bd_bytes d) off buf.
Proof. intros ????. by apply write_spec. Qed.

Lemma write_witness :
  ∃ d', write 4000 (zrep 200 7) demo_disk = Ok (200, d') ∧
    vd_bytes d' = zrep 4000 1 ++ zrep 200 7 ++ zrep 3992 2 ++ zrep 4096 3.
Proof.
  destruct (write_correct (VirtIOBlkDiskDriver MemDisk) demo_disk 4000 (zrep 200 7))
    as (d' & E & _ & _ & _ & Eb).
  - apply demo_disk_ok.
  - lia.
  - apply Z.leb_le. vm_compute. reflexivity.
  - apply Z.leb_le. vm_compute. reflexivity.
  - exists d'. split; [rewrite E; vm_compute; reflexivity|]. etransitivity; [exact Eb|].
    vm_compute. reflexivity.
Defined.

(** The virtio disk driver presents the sectors of its device as one array
    of bytes: writing a range and reading any range back gives the old bytes
    with the written ones in place, through the partial-block and the
    whole-block paths alike. *)
Lemma virtio_write_read V `{VirtIOBlkSpec V} (v : V) off buf off' buf' :
  vb_ok v → 0 ≤ vb_capacity v → vb_capacity v * SECTOR_SIZE ≤ usize_max →
  (8 | vb_capacity v) → 0 ≤ off → off + zlen buf ≤ zlen (vb_bytes v) →
  0 ≤ off' → off' + zlen buf' ≤ zlen (vb_bytes v) →
  ∃ d1 d2, write off buf (virtio_new v) = Ok (zlen buf, d1) ∧
    read off' buf' d1 = Ok ((zlen buf', sub (splice (vb_bytes v) off buf) off' (zlen buf')), d2).
Proof.
  intros Hv Hc0 Hc [k Hk] ????.
  assert (vd_ok (virtio_new v)) as Hok by done.
  assert (vd_bytes (virtio_new v) = vb_bytes v) as Hb.
  { apply sub_all. rewrite vb_bytes_len by done. unfold virtio_block_count, virtio_block_size, SECTOR_SIZE, PAGE_SIZE.
    simpl. rewrite Hk. replace (k * 8 * 512) with (k * 4096) by lia. by rewrite Z.div_mul. }
  destruct (write_spec (virtio_new v) off buf) as (d1 & E1 & Hok1 & _ & _ & Eb1);
    [done|done|simpl; by rewrite Hb|simpl; by rewrite Hb, vb_bytes_len|].
  simpl in Eb1, Hok1. rewrite Hb in Eb1.
  destruct (read_spec d1 off' buf') as (d2 & E2 & _); simpl; rewrite ?Eb1, ?zlen_splice by done; try done.
  { by rewrite vb_bytes_len. }
  exists d1, d2. rewrite E1, E2. simpl. by rewrite Eb1.
Qed.

Lemma virtio_write_read_witness :
  ∃ d1 d2, write 4094 [8; 9; 10] demo_disk = Ok (3, d1) ∧
    read 4093 (zrep 5 0) d1 = Ok ((5, [1; 8; 9; 10; 2]), d2).
Proof.
  destruct (virtio_write_read MemDisk (blk demo_disk) 4094 [8; 9; 10] 4093 (zrep 5 0)) as (d1 & d2 & E1 & E2).
  - reflexivity.
  - apply Z.leb_le. reflexivity.
  - apply Z.leb_le. reflexivity.
  - exists 3. reflexivity.
  - lia.
  - apply Z.leb_le. vm_compute. reflexivity.
  - lia.
  - apply Z.leb_le. vm_compute. reflexivity.
  - exists d1, d2. split; [exact E1|]. rewrite E2. vm_compute. reflexivity.
Defined.
