(* ===== verification/CharDevice.v ===== *)
(** * Character devices (src/devices/mod.rs, src/devices/char/)

    The traits [Device] and [CharDevice], and the framebuffer and UART drivers.
    The state of a framebuffer is the memory the boot loader maps for it; the
    state of a UART is what has been written to its data register. *)

From S2P Require Import Prelude Bytes.

Module CharDeviceError.
Inductive t : Type :=
| ReadError
| WriteError
| Other (msg : string).
End CharDeviceError.
Abbreviation CharDeviceError := CharDeviceError.t.

(** [trait Device]. *)
Class Device (D : Type) : Type := {
  dv_ioctl : Z → Z → D → Z * D;
  dv_requested_devfs_name : D → option string;
}.

(** [trait CharDevice]. *)
Class CharDevice (C : Type) : Type := {
  cd_read : list Z → Z → M C CharDeviceError (Z * list Z);
  cd_write : list Z → Z → M C CharDeviceError Z;
  cd_seekable : C → bool;
}.

(** ** The framebuffer *)

Definition FBIO_GET_HEIGHT : Z := 1.
Definition FBIO_GET_PITCH : Z := 2.

(** What the boot loader says about a framebuffer, and its memory. *)
Record Framebuffer : Type := mkFb { fb_height : Z; fb_pitch : Z; fb_memory : list Z }.

Record LimineFramebuffer : Type := mkLimineFb { inner : Framebuffer; fb_length : Z }.

Definition LimineFramebuffer_new {E} (framebuffer : Framebuffer) : res E LimineFramebuffer :=
  let? length := umul (fb_height framebuffer) (fb_pitch framebuffer) in
  Ok (mkLimineFb framebuffer length).

(** The slice of [length] bytes at the address of the framebuffer. *)
Definition framebuffer_slice (d : LimineFramebuffer) : list Z := sub (fb_memory (inner d)) 0 (fb_length d).
Definition set_framebuffer_slice (l : list Z) (d : LimineFramebuffer) : LimineFramebuffer :=
  let fb := inner d in
  mkLimineFb (mkFb (fb_height fb) (fb_pitch fb) (splice (fb_memory fb) 0 l)) (fb_length d).

Definition fb_read (buffer : list Z) (offset : Z) : M LimineFramebuffer CharDeviceError (Z * list Z) := λ d,
  (let! over := mlift (uadd offset (zlen buffer)) in
   let endp := Z.min over (zlen (framebuffer_slice d)) in
   let! bytes_to_read := mlift (usub endp offset) in
   let! src := mlift (slice (framebuffer_slice d) offset endp) in
   let! buffer := mlift (copy_at buffer 0 bytes_to_read src) in
   mret (bytes_to_read, buffer)) d.

Definition fb_write (buffer : list Z) (offset : Z) : M LimineFramebuffer CharDeviceError Z := λ d,
  (let! over := mlift (uadd offset (zlen buffer)) in
   let endp := Z.min over (zlen (framebuffer_slice d)) in
   let! bytes_to_write := mlift (usub endp offset) in
   let! src := mlift (slice buffer 0 bytes_to_write) in
   let! l := mlift (copy_at (framebuffer_slice d) offset endp src) in
   let! _ := mmodify (set_framebuffer_slice l) in
   mret bytes_to_write) d.

Definition fb_ioctl (request arg : Z) (d : LimineFramebuffer) : Z * LimineFramebuffer :=
  (if request =? FBIO_GET_HEIGHT then fb_height (inner d)
   else if request =? FBIO_GET_PITCH then fb_pitch (inner d)
   else wrap 64 (-1), d).

#[export] Instance fb_Device : Device LimineFramebuffer := {
  dv_ioctl := fb_ioctl;
  dv_requested_devfs_name := λ _, Some "fb";
}.

#[export] Instance fb_CharDevice : CharDevice LimineFramebuffer := {
  cd_read := fb_read;
  cd_write := fb_write;
  cd_seekable := λ _, true;
}.

(** ** The UART *)

(** [virt_mapping] is the address of the mapped registers, [uart_output] the
    bytes stored at it so far. *)
Record UartPl011Driver : Type := mkUart {
  phys_address : Z;
  virt_mapping : option Z;
  uart_output : list Z;
}.

Definition uart_read (buffer : list Z) (offset : Z) : M UartPl011Driver CharDeviceError (Z * list Z) :=
  mfail (CharDeviceError.Other "Read not implemented for UART driver").

Fixpoint uart_put (buffer : list Z) (d : UartPl011Driver) : UartPl011Driver :=
  match buffer with
  | [] => d
  | b :: buffer =>
      uart_put buffer (match virt_mapping d with
                       | Some _ => mkUart (phys_address d) (virt_mapping d) (uart_output d ++ [b])
                       | None => d
                       end)
  end.

Definition uart_write (buffer : list Z) (offset : Z) : M UartPl011Driver CharDeviceError Z :=
  let! _ := mmodify (uart_put buffer) in
  mret (zlen buffer).

(** [CharSink::putc]. *)
Definition uart_putc (c : Z) (d : UartPl011Driver) : res CharDeviceError UartPl011Driver :=
  match uart_write [c] 0 d with Ok (_, d') => Ok d' | _ => Panic end.

#[export] Instance uart_Device : Device UartPl011Driver := {
  dv_ioctl := λ _ _ d, (0, d);
  dv_requested_devfs_name := λ _, None;
}.

#[export] Instance uart_CharDevice : CharDevice UartPl011Driver := {
  cd_read := uart_read;
  cd_write := uart_write;
  cd_seekable := λ _, false;
}.

(** ** Input events *)

(** The virtio input device (crate virtio-drivers): the events that are
    pending, each the bytes of an [InputEvent]. *)
Definition EVENT_SIZE : Z := 8.

Class VirtIOInput (V : Type) : Type := {
  vi_pop_pending_event : V → option (list Z) * V;
}.

Class VirtIOInputSpec (V : Type) `{VirtIOInput V} : Type := {
  vi_pending : V → list (list Z);
  vi_event_size v : Forall (λ e, zlen e = EVENT_SIZE) (vi_pending v);
  vi_pop_spec v :
    match vi_pending v with
    | [] => (vi_pop_pending_event v).1 = None ∧ vi_pending (vi_pop_pending_event v).2 = []
    | e :: l => (vi_pop_pending_event v).1 = Some e ∧ vi_pending (vi_pop_pending_event v).2 = l
    end;
}.

Section input.
Context {V : Type} `{VirtIOInput V}.

Record VirtIOInputDriver : Type := mkInput { input : V }.

Definition pop_event : M VirtIOInputDriver CharDeviceError (option (list Z)) := λ d,
  let '(e, v) := vi_pop_pending_event (input d) in Ok (e, mkInput v).

(** The loop of [read], with a bound on the number of its turns. *)
Fixpoint input_loop (fuel : nat) (bytes_read : Z) (buffer : list Z) : M VirtIOInputDriver CharDeviceError (Z * list Z) :=
  match fuel with
  | O => mpanic
  | S fuel =>
      let! over := mlift (uadd bytes_read EVENT_SIZE) in
      if over <=? zlen buffer then
        let! event := pop_event in
        match event with
        | Some event_bytes =>
            let! buffer := mlift (copy_at buffer bytes_read (bytes_read + EVENT_SIZE) event_bytes) in
            input_loop fuel (bytes_read + EVENT_SIZE) buffer
        | None => mret (bytes_read, buffer)
        end
      else mret (bytes_read, buffer)
  end.

Definition input_read (buffer : list Z) (offset : Z) : M VirtIOInputDriver CharDeviceError (Z * list Z) :=
  input_loop (S (Z.to_nat (zlen buffer / EVENT_SIZE))) 0 buffer.

Definition input_write (buffer : list Z) (offset : Z) : M VirtIOInputDriver CharDeviceError Z := mfail CharDeviceError.WriteError.

#[export] Instance input_Device : Device VirtIOInputDriver := {
  dv_ioctl := λ _ _ d, (0, d);
  dv_requested_devfs_name := λ _, Some "event";
}.

#[export] Instance input_CharDevice : CharDevice VirtIOInputDriver := {
  cd_read := input_read;
  cd_write := input_write;
  cd_seekable := λ _, false;
}.
End input.
Arguments VirtIOInputDriver : clear implicits.

(** ** Behaviour *)

(** A mapped framebuffer: its memory is all there. *)
Definition fb_ok (d : LimineFramebuffer) : Prop := 0 ≤ fb_length d ≤ zlen (fb_memory (inner d)).

Lemma framebuffer_slice_len d : fb_ok d → zlen (framebuffer_slice d) = fb_length d.
Proof. intros [??]. unfold framebuffer_slice. rewrite zlen_sub; lia. Qed.

Lemma fb_read_spec d buffer offset :
  fb_ok d → 0 ≤ offset ≤ fb_length d → offset + zlen buffer ≤ usize_max →
  let n := Z.min (zlen buffer) (fb_length d - offset) in
  fb_read buffer offset d = Ok (n, splice buffer 0 (sub (framebuffer_slice d) offset n), d).
Proof.
  intros Hd Ho Hb n. pose proof (framebuffer_slice_len d Hd) as Hl. pose proof (zlen_nonneg buffer).
  unfold fb_read. rewrite (mbind_ok _ _ _ _ _ (mlift_ok _ _ _ (uadd_ok _ _ Hb))). cbv zeta. rewrite Hl.
  replace (Z.min (offset + zlen buffer) (fb_length d)) with (offset + n) by lia.
  rewrite (mbind_ok _ _ _ n d) by (apply mlift_ok; rewrite usub_ok by lia; f_equal; lia).
  rewrite (mbind_ok _ _ _ (sub (framebuffer_slice d) offset n) d).
  2: { apply mlift_ok. rewrite slice_ok by lia. do 2 f_equal. lia. }
  rewrite (mbind_ok _ _ _ (splice buffer 0 (sub (framebuffer_slice d) offset n)) d); [done|].
  apply mlift_ok, copy_at_ok; [lia..|]. rewrite zlen_sub; lia.
Qed.

Lemma fb_write_spec d buffer offset :
  fb_ok d → 0 ≤ offset ≤ fb_length d → offset + zlen buffer ≤ usize_max →
  let n := Z.min (zlen buffer) (fb_length d - offset) in
  ∃ d', fb_write buffer offset d = Ok (n, d') ∧ fb_ok d' ∧
    framebuffer_slice d' = splice (framebuffer_slice d) offset (sub buffer 0 n).
Proof.
  intros Hd Ho Hb n. pose proof (framebuffer_slice_len d Hd) as Hl. pose proof (zlen_nonneg buffer).
  unfold fb_write. rewrite (mbind_ok _ _ _ _ _ (mlift_ok _ _ _ (uadd_ok _ _ Hb))). cbv zeta. rewrite Hl.
  replace (Z.min (offset + zlen buffer) (fb_length d)) with (offset + n) by lia.
  rewrite (mbind_ok _ _ _ n d) by (apply mlift_ok; rewrite usub_ok by lia; f_equal; lia).
  rewrite (mbind_ok _ _ _ (sub buffer 0 n) d).
  2: { apply mlift_ok. rewrite slice_ok by lia. do 2 f_equal. lia. }
  assert (zlen (sub buffer 0 n) = n) as Hs by (rewrite zlen_sub; lia).
  rewrite (mbind_ok _ _ _ (splice (framebuffer_slice d) offset (sub buffer 0 n)) d).
  2: { apply mlift_ok, copy_at_ok; lia. }
  eexists. split; [done|]. destruct Hd as [H1 H2].
  assert (zlen (splice (framebuffer_slice d) offset (sub buffer 0 n)) = fb_length d) as Hlen.
  { rewrite zlen_splice; lia. }
  split; [split; [done|]; simpl; rewrite zlen_splice; lia|].
  unfold framebuffer_slice at 1. simpl. apply zat_ext; [rewrite zlen_sub; rewrite ?zlen_splice; lia|].
  intros i Hi. rewrite zlen_sub in Hi by (rewrite ?zlen_splice; lia).
  rewrite zat_sub, decide_True by lia. rewrite zat_splice, decide_True by lia. f_equal. lia.
Qed.

(** An offset past the end of the framebuffer underflows [end - offset]. *)
Lemma fb_past_end d buffer offset :
  fb_ok d → fb_length d < offset → fb_read buffer offset d = Panic ∧ fb_write buffer offset d = Panic.
Proof.
  intros Hd Ho. pose proof (framebuffer_slice_len d Hd) as Hl. unfold fb_read, fb_write.
  destruct (@uadd CharDeviceError offset (zlen buffer)) as [v|e|] eqn:E;
    [|unfold uadd in E; by zcase|split; by apply mbind_panic].
  assert (@usub CharDeviceError (Z.min v (fb_length d)) offset = Panic) as Hu.
  { unfold usub. zcase; [lia|done]. }
  split; rewrite (mbind_ok _ _ _ v d) by done; cbv zeta; rewrite Hl, Hu; by apply mbind_panic.
Qed.

Lemma uart_write_spec d buffer offset a :
  virt_mapping d = Some a →
  uart_write buffer offset d = Ok (zlen buffer, mkUart (phys_address d) (Some a) (uart_output d ++ buffer)).
Proof.
  intros Ha. unfold uart_write. rewrite (mbind_ok _ _ _ tt (uart_put buffer d)) by done. unfold mret. do 2 f_equal.
  revert d Ha. induction buffer as [|b l IH]; intros d Ha; simpl.
  - rewrite app_nil_r. destruct d; simpl in *. by subst.
  - rewrite Ha. rewrite IH by done. simpl. by rewrite <-app_assoc.
Qed.

(** ** Reading events *)

Section input_correct.
Context {V : Type} `{VirtIOInputSpec V}.

Definition pending (d : VirtIOInputDriver V) : list (list Z) := vi_pending (input d).

Lemma concat_events_len (l : list (list Z)) :
  Forall (λ e, zlen e = EVENT_SIZE) l → zlen (concat l) = zlen l * EVENT_SIZE.
Proof.
  induction 1 as [|e l He Hl IH]; [done|]. simpl. rewrite zlen_app, zlen_cons, IH, He. unfold EVENT_SIZE. lia.
Qed.

Lemma input_loop_spec fuel : ∀ v r buffer,
  0 ≤ r ≤ zlen buffer → zlen buffer + EVENT_SIZE ≤ usize_max → (zlen buffer - r) / EVENT_SIZE < Z.of_nat fuel →
  let k := Z.min ((zlen buffer - r) / EVENT_SIZE) (zlen (pending v)) in
  let events := take (Z.to_nat k) (pending v) in
  ∃ v', input_loop fuel r buffer v = Ok ((r + k * EVENT_SIZE, splice buffer r (concat events)), v') ∧
    pending v' = drop (Z.to_nat k) (pending v).
Proof.
  induction fuel as [|fuel IH]; intros v r buffer Hr Hw Hf k events; unfold EVENT_SIZE in *.
  { assert (0 ≤ (zlen buffer - r) / 8) by (apply Z.div_pos; lia). lia. }
  cbn [input_loop]. unfold EVENT_SIZE. rewrite (mbind_ok _ _ _ _ _ (mlift_ok _ _ _ (uadd_ok r 8 ltac:(lia)))).
  pose proof (Z.div_mod (zlen buffer - r) 8 ltac:(lia)) as Hdm. pose proof (Z.mod_pos_bound (zlen buffer - r) 8 ltac:(lia)).
  pose proof (zlen_nonneg (pending v)).
  assert (∀ v' : VirtIOInputDriver V, k = 0 → Ok (r, buffer, v') = @Ok (CharDeviceError * VirtIOInputDriver V) _ ((r + k * 8, splice buffer r (concat events)), v')) as Hstop.
  { intros v' Hk0. unfold events. rewrite Hk0. simpl. rewrite splice_nil. do 3 f_equal. lia. }
  destruct (Z.leb_spec (r + 8) (zlen buffer)) as [Hle|Hgt].
  2: { assert (k = 0) as Hk0 by (unfold k; lia). exists v. rewrite <-Hstop by done. by rewrite Hk0. }
  pose proof (vi_pop_spec (input v)) as Hpop. pose proof (vi_event_size (input v)) as Hsz.
  fold (pending v) in *.
  unfold mbind' at 1, pop_event. destruct (vi_pop_pending_event (input v)) as [o v1]. simpl in Hpop.
  destruct (pending v) as [|e l] eqn:Ep; destruct Hpop as [-> Hv1].
  { assert (k = 0) as Hk0 by (unfold k; change (zlen []) with 0; apply Z.min_r, Z.div_pos; lia).
    exists (mkInput v1). rewrite <-Hstop by done. split; [done|]. by rewrite Hk0. }
  apply Forall_cons in Hsz as [He Hsz]. unfold EVENT_SIZE in He.
  rewrite (mbind_ok _ _ _ (splice buffer r e) (mkInput v1)) by (apply mlift_ok, copy_at_ok; lia).
  assert (zlen (splice buffer r e) = zlen buffer) as Hlen by (rewrite zlen_splice; lia).
  assert ((zlen buffer - r) / 8 = (zlen buffer - (r + 8)) / 8 + 1) as Hdiv.
  { replace (zlen buffer - r) with (zlen buffer - (r + 8) + 1 * 8) by lia. rewrite Z.div_add; lia. }
  destruct (IH (mkInput v1) (r + 8) (splice buffer r e)) as (v' & E & Hv'); rewrite ?Hlen; [lia..|].
  change (pending (mkInput v1)) with (vi_pending v1) in *.
  rewrite Hlen, Hv1 in E. rewrite Hlen, Hv1 in Hv'.
  set (k' := Z.min ((zlen buffer - (r + 8)) / 8) (zlen l)) in *.
  assert (0 ≤ k') by (unfold k'; pose proof (zlen_nonneg l); pose proof (Z.div_pos (zlen buffer - (r + 8)) 8); lia).
  assert (k = k' + 1) as Hk by (unfold k, k'; rewrite Hdiv; unfold zlen; simpl; lia).
  exists v'. rewrite E. replace (Z.to_nat k) with (S (Z.to_nat k')) by lia. split; [|done].
  unfold events. replace (Z.to_nat k) with (S (Z.to_nat k')) by lia. simpl.
  do 3 f_equal; [lia|]. rewrite <-He. apply splice_app; [lia|].
  pose proof (concat_events_len (take (Z.to_nat k') l) ltac:(by apply Forall_take)) as Hc.
  unfold zlen in Hc at 2. unfold EVENT_SIZE in Hc. rewrite length_take in Hc. lia.
Qed.

(** Whole events only, the oldest first, as many as are pending and fit. *)
Lemma input_read_spec v buffer offset :
  zlen buffer + EVENT_SIZE ≤ usize_max →
  let k := Z.min (zlen buffer / EVENT_SIZE) (zlen (pending v)) in
  ∃ v', input_read buffer offset v =
      Ok ((k * EVENT_SIZE, splice buffer 0 (concat (take (Z.to_nat k) (pending v)))), v') ∧
    pending v' = drop (Z.to_nat k) (pending v).
Proof.
  intros Hw. pose proof (zlen_nonneg buffer). unfold input_read.
  destruct (input_loop_spec (S (Z.to_nat (zlen buffer / EVENT_SIZE))) v 0 buffer) as (v' & E & Hv); rewrite ?Z.sub_0_r in *.
  - lia.
  - done.
  - pose proof (Z.div_pos (zlen buffer) EVENT_SIZE). unfold EVENT_SIZE in *. lia.
  - exists v'. by rewrite E.
Qed.
End input_correct.
