(* ===== verification/FsTypes.v ===== *)
(** * Types shared by the file systems (src/fs/vfs.rs) *)

From S2P Require Import Prelude.

(** [enum FsError], in a module of its own because other error types have
    constructors of the same name. *)
Module FsError.
Inductive t : Type :=
| PathMalformed
| NotFound
| AlreadyExists
| NoSpace
| WriteError
| ReadError
| InvalidInput
| InvalidOperation
| NotImplemented
| Corrupted (msg : string)
| Other (msg : string).
End FsError.
Abbreviation FsError := FsError.t.

Inductive INodeType : Type := File | Directory | Char | Block | OtherType.

#[export] Instance INodeType_dec : EqDecision INodeType.
Proof. solve_decision. Defined.

Record INodeKey : Type := mkKey { filesystem_id : Z; inumber : Z }.

#[export] Instance INodeKey_dec : EqDecision INodeKey.
Proof. solve_decision. Defined.

#[export] Instance INodeKey_countable : Countable INodeKey.
Proof.
  refine (inj_countable' (λ k, (filesystem_id k, inumber k)) (λ p, mkKey p.1 p.2) _). by intros [].
Defined.
