(* ===== verification/Ext2.v ===== *)
(** * The ext2 file system: disk layout and allocation (src/fs/ext2.rs, [impl Ext2])

    The file system is a superblock read at mount time and a block device; the
    operations run in the state of the device.  The optional scratch buffers of
    the code only save allocations: every use starts by overwriting them, so
    each operation has its own here.  The three locks of the file system make
    the operations atomic with respect to each other and are not modelled. *)

From S2P Require Import Prelude Bytes BlockDevice FsTypes.

(** ** On-disk structures *)

(** The fields of [Superblock] the code reads, and the widths of its fields up
    to the last of them. *)
Record Superblock : Type := mkSuper {
  inodes_count : Z;
  blocks_count : Z;
  first_data_block : Z;
  log_block_size : Z;
  blocks_per_group : Z;
  inodes_per_group : Z;
  s_magic : Z;
  rev_level : Z;
  inode_size : Z;
}.

Definition superblock_widths : list nat :=
  replicate 13 4%nat ++ replicate 6 2%nat ++ replicate 4 4%nat ++ [2; 2; 4; 2]%nat.

Definition field (f : list Z) (i : nat) : Z := nth i f 0.

Definition Superblock_of (f : list Z) : Superblock :=
  mkSuper (field f 0) (field f 1) (field f 5) (field f 6) (field f 8) (field f 10)
    (field f 15) (field f 22) (field f 26).

Record BlockGroupDescriptor : Type := mkBgd {
  block_bitmap : Z;
  inode_bitmap : Z;
  inode_table : Z;
  free_blocks_count : Z;
  free_inodes_count : Z;
  used_dirs_count : Z;
}.

Definition bgd_widths : list nat := [4; 4; 4; 2; 2; 2]%nat.
Definition Bgd_of (f : list Z) : BlockGroupDescriptor :=
  mkBgd (field f 0) (field f 1) (field f 2) (field f 3) (field f 4) (field f 5).
Definition bgd_fields (b : BlockGroupDescriptor) : list Z :=
  [block_bitmap b; inode_bitmap b; inode_table b; free_blocks_count b; free_inodes_count b; used_dirs_count b].

Record INodeData : Type := mkINodeData {
  mode : Z; uid : Z; size : Z; atime : Z; ctime : Z; mtime : Z; dtime : Z; gid : Z;
  links_count : Z; blocks : Z; flags : Z; osd1 : Z;
  block : list Z;  (** fifteen block numbers *)
  generation : Z; file_acl : Z; dir_acl : Z; faddr : Z;
  osd2 : list Z;   (** twelve bytes *)
}.

Definition inode_widths : list nat :=
  [2; 2; 4; 4; 4; 4; 4; 2; 2; 4; 4; 4]%nat ++ replicate 15 4%nat ++ [4; 4; 4; 4]%nat ++ replicate 12 1%nat.
Definition INodeData_of (f : list Z) : INodeData :=
  mkINodeData (field f 0) (field f 1) (field f 2) (field f 3) (field f 4) (field f 5) (field f 6)
    (field f 7) (field f 8) (field f 9) (field f 10) (field f 11) (take 15 (drop 12 f))
    (field f 27) (field f 28) (field f 29) (field f 30) (take 12 (drop 31 f)).
Definition inode_fields (d : INodeData) : list Z :=
  [mode d; uid d; size d; atime d; ctime d; mtime d; dtime d; gid d; links_count d; blocks d;
   flags d; osd1 d] ++ block d ++ [generation d; file_acl d; dir_acl d; faddr d] ++ osd2 d.

Record INode : Type := mkINode { number : Z; data : INodeData; dirty : bool }.

(** [T::read_from_prefix(&buf[p..]).unwrap()] and [x.write_to_prefix(&mut buf[p..]).unwrap()]
    for a packed struct. *)
Definition read_struct {E} (ws : list nat) (buf : list Z) (p : Z) : res E (list Z) :=
  let? s := slice buf p (p + Z.of_nat (sum_list ws)) in Ok (decode ws s).
Definition write_struct {E} (ws : list nat) (buf : list Z) (p : Z) (f : list Z) : res E (list Z) :=
  copy_at buf p (p + Z.of_nat (sum_list ws)) (encode ws f).

(** [Ext2], without its device, locks and self reference. *)
Record Ext2 : Type := mkExt2 { fs_block_size : Z; superblock : Superblock }.

(** ** The bitmap search *)

(** [for k in 0..8]: the first zero bit of [byte], from bit [k] on. *)
Fixpoint bit_loop (n : nat) (k byte : Z) : option Z :=
  match n with
  | O => None
  | S n => if Z.land byte 1 =? 0 then Some k else bit_loop n (k + 1) (Z.shiftr byte 1)
  end.

(** [for j in 0..8] over the bytes of chunk [i]. *)
Fixpoint byte_loop {E} (n : nat) (bitmap : list Z) (i j : Z) : res E (option Z) :=
  match n with
  | O => Ok None
  | S n =>
      let? byte := unwrap (zat bitmap (i * 8 + j)) in
      if byte =? 0xff then byte_loop n bitmap i (j + 1)
      else match bit_loop 8 0 byte with
           | Some k => Ok (Some (k + 8 * j + 64 * i))
           | None => byte_loop n bitmap i (j + 1)
           end
  end.

(** [for i in 0..self.block_size / 8] *)
Fixpoint chunk_loop {E} (n : nat) (bitmap : list Z) (i : Z) : res E (option Z) :=
  match n with
  | O => Ok None
  | S n =>
      let? chunk := get_le 8 bitmap (i * 8) in
      if chunk =? 2 ^ 64 - 1 then chunk_loop n bitmap (i + 1)
      else
        let? r := byte_loop 8 bitmap i 0 in
        match r with
        | Some x => Ok (Some x)
        | None => chunk_loop n bitmap (i + 1)
        end
  end.

Definition first_zero_in_bitmap {E} (fs : Ext2) (bitmap : list Z) : res E (option Z) :=
  chunk_loop (Z.to_nat (fs_block_size fs / 8)) bitmap 0.

(** [buf[i / 8] |= 1 << (i % 8)] *)
Definition set_bit {E} (buf : list Z) (i : Z) : res E (list Z) :=
  let? b := unwrap (zat buf (i / 8)) in
  Ok (splice buf (i / 8) [Z.lor b (Z.shiftl 1 (i mod 8))]).

(** [assert!(buf[i / 8] & (1 << (i % 8)) != 0); buf[i / 8] &= 0xff ^ (1 << (i % 8))] *)
Definition clear_bit {E} (buf : list Z) (i : Z) : res E (list Z) :=
  let? b := unwrap (zat buf (i / 8)) in
  let? _ := rassert (negb (Z.land b (Z.shiftl 1 (i mod 8)) =? 0)) in
  Ok (splice buf (i / 8) [Z.land b (Z.lxor 0xff (Z.shiftl 1 (i mod 8)))]).

(** ** Operations on the device *)

Section ext2.
Context {D : Type} `{BlockDevice D} (fs : Ext2).
Abbreviation FOp A := (M D FsError A).
Abbreviation bs := (fs_block_size fs).
Abbreviation sb := (superblock fs).

Definition scratch : list Z := zrep bs 0.

Definition check_block_inputs (block_number buffer_len : Z) : res FsError unit :=
  if blocks_count sb <=? block_number then Err FsError.NotFound
  else if buffer_len <? bs then Err FsError.InvalidInput
  else Ok tt.

(** [Ext2::read_block]: the buffer with its first block replaced. *)
Definition read_block (block_number : Z) (buffer : list Z) : FOp (list Z) :=
  let! _ := mlift (check_block_inputs block_number (zlen buffer)) in
  let! off := mlift (umul block_number bs) in
  let! dst := mlift (slice buffer 0 bs) in
  λ d, match BlockDevice.read off dst d with
       | Ok ((bytes_read, b), d') =>
           if bytes_read =? bs then Ok (splice buffer 0 b, d') else Err (FsError.ReadError, d')
       | Err (_, d') => Err (FsError.ReadError, d')
       | Panic => Panic
       end.

Definition write_block (block_number : Z) (buffer : list Z) : FOp unit :=
  let! _ := mlift (check_block_inputs block_number (zlen buffer)) in
  let! off := mlift (umul block_number bs) in
  let! src := mlift (slice buffer 0 bs) in
  λ d, match BlockDevice.write off src d with
       | Ok (bytes_written, d') =>
           if bytes_written =? bs then Ok (tt, d') else Err (FsError.WriteError, d')
       | Err (_, d') => Err (FsError.WriteError, d')
       | Panic => Panic
       end.

Definition BGD_SIZE : Z := 32.

(** The descriptor of a group, where it is, and the block it was read from. *)
Definition get_block_group_descriptor (block_group : Z) :
    FOp (BlockGroupDescriptor * (Z * Z) * list Z) :=
  let descriptors_per_block := bs / BGD_SIZE in
  let bgd_block := first_data_block sb + 1 + block_group / descriptors_per_block in
  let! buf := read_block bgd_block scratch in
  let bgd_index := block_group mod descriptors_per_block in
  let bgd_offset := bgd_index * BGD_SIZE in
  let! f := mlift (read_struct bgd_widths buf bgd_offset) in
  mret (Bgd_of f, (bgd_offset, bgd_block), buf).

Definition alloc_block_given_group (group : Z) : FOp (option Z) :=
  let! p := get_block_group_descriptor group in
  let '(bgd, (bgd_offset, bgd_block), buf) := p in
  if free_blocks_count bgd =? 0 then mret None
  else
    let bgd := mkBgd (block_bitmap bgd) (inode_bitmap bgd) (inode_table bgd)
                 (free_blocks_count bgd - 1) (free_inodes_count bgd) (used_dirs_count bgd) in
    let! buf := mlift (write_struct bgd_widths buf bgd_offset (bgd_fields bgd)) in
    let! _ := write_block bgd_block buf in
    let bitmap := block_bitmap bgd in
    let! buf := read_block bitmap scratch in
    let! z := mlift (first_zero_in_bitmap fs buf) in
    match z with
    | Some i =>
        let! buf := mlift (set_bit buf i) in
        let! _ := write_block bitmap buf in
        mret (Some (first_data_block sb + i + group * blocks_per_group sb))
    | None => mfail (FsError.Corrupted "block bitmap reports free entries but none were found")
    end.

(** [for group in 0..groups]: every group but the preferred one. *)
Fixpoint group_loop (n : nat) (group preferred_group : Z) (try : Z → FOp (option Z)) : FOp Z :=
  match n with
  | O => mfail FsError.NoSpace
  | S n =>
      if group =? preferred_group then group_loop n (group + 1) preferred_group try
      else
        let! r := try group in
        match r with
        | Some b => mret b
        | None => group_loop n (group + 1) preferred_group try
        end
  end.

Definition alloc_block (preferred_group : Z) : FOp Z :=
  let! r := alloc_block_given_group preferred_group in
  match r with
  | Some b => mret b
  | None =>
      let! groups := mlift (udiv (blocks_count sb) (blocks_per_group sb)) in
      group_loop (Z.to_nat groups) 0 preferred_group alloc_block_given_group
  end.

Definition alloc_inode_given_group (group : Z) : FOp (option Z) :=
  let! p := get_block_group_descriptor group in
  let '(bgd, (bgd_offset, bgd_block), buf) := p in
  if free_inodes_count bgd =? 0 then mret None
  else
    let bgd := mkBgd (block_bitmap bgd) (inode_bitmap bgd) (inode_table bgd)
                 (free_blocks_count bgd) (free_inodes_count bgd - 1) (used_dirs_count bgd) in
    let! buf := mlift (write_struct bgd_widths buf bgd_offset (bgd_fields bgd)) in
    let! _ := write_block bgd_block buf in
    let bitmap := inode_bitmap bgd in
    let! buf := read_block bitmap scratch in
    let! z := mlift (first_zero_in_bitmap fs buf) in
    match z with
    | Some i =>
        let! buf := mlift (set_bit buf i) in
        let! _ := write_block bitmap buf in
        mret (Some (1 + i + group * inodes_per_group sb))
    | None => mfail (FsError.Corrupted "inode bitmap reports free entries but none were found")
    end.

Definition alloc_inode (preferred_group : Z) : FOp Z :=
  let! r := alloc_inode_given_group preferred_group in
  match r with
  | Some b => mret b
  | None =>
      let! groups := mlift (udiv (inodes_count sb) (inodes_per_group sb)) in
      group_loop (Z.to_nat groups) 0 preferred_group alloc_inode_given_group
  end.

(** [x + 1] for a [u16] counter. *)
Definition u16_succ (x : Z) : res FsError Z := if u16_max <? x + 1 then Panic else Ok (x + 1).

Definition dealloc_block (block_number : Z) : FOp unit :=
  let! block_number := mlift (usub block_number (first_data_block sb)) in
  let! group := mlift (udiv block_number (blocks_per_group sb)) in
  let! p := get_block_group_descriptor group in
  let '(bgd, (bgd_offset, bgd_block), buf) := p in
  let! n := mlift (u16_succ (free_blocks_count bgd)) in
  let bgd := mkBgd (block_bitmap bgd) (inode_bitmap bgd) (inode_table bgd) n
               (free_inodes_count bgd) (used_dirs_count bgd) in
  let! buf := mlift (write_struct bgd_widths buf bgd_offset (bgd_fields bgd)) in
  let! _ := write_block bgd_block buf in
  let bitmap := block_bitmap bgd in
  let! buf := read_block bitmap scratch in
  let i := block_number mod blocks_per_group sb in
  let! buf := mlift (clear_bit buf i) in
  write_block bitmap buf.

Definition dealloc_inode (inumber : Z) : FOp unit :=
  let! inumber := mlift (usub inumber 1) in
  let! group := mlift (udiv inumber (inodes_per_group sb)) in
  let! p := get_block_group_descriptor group in
  let '(bgd, (bgd_offset, bgd_block), buf) := p in
  let! n := mlift (u16_succ (free_inodes_count bgd)) in
  let bgd := mkBgd (block_bitmap bgd) (inode_bitmap bgd) (inode_table bgd)
               (free_blocks_count bgd) n (used_dirs_count bgd) in
  let! buf := mlift (write_struct bgd_widths buf bgd_offset (bgd_fields bgd)) in
  let! _ := write_block bgd_block buf in
  let bitmap := inode_bitmap bgd in
  let! buf := read_block bitmap scratch in
  let i := inumber mod inodes_per_group sb in
  let! buf := mlift (clear_bit buf i) in
  write_block bitmap buf.

(** An inode, the block and offset it is at, and the block it was read from. *)
Definition get_ext2_inode (inumber : Z) : FOp (INode * (Z * Z) * list Z) :=
  if inumber =? 0 then mfail FsError.InvalidInput
  else
    let! block_group := mlift (udiv (inumber - 1) (inodes_per_group sb)) in
    let! p := get_block_group_descriptor block_group in
    let bgd := p.1.1 in
    let! inodes_per_block := mlift (udiv bs (inode_size sb)) in
    let inode_index := (inumber - 1) mod inodes_per_group sb in
    let! in_table := mlift (udiv inode_index inodes_per_block) in
    let inode_block := inode_table bgd + in_table in
    let! buf := read_block inode_block scratch in
    let inode_index := inode_index mod inodes_per_block in
    let inode_offset := inode_index * inode_size sb in
    let! f := mlift (read_struct inode_widths buf inode_offset) in
    mret (mkINode inumber (INodeData_of f) false, (inode_block, inode_offset), buf).

Definition write_inode_data (inode : INode) : FOp unit :=
  let! p := get_ext2_inode (wrap 32 (number inode)) in
  let '(_, (inode_block, inode_offset), buf) := p in
  let! buf := mlift (write_struct inode_widths buf inode_offset (inode_fields (data inode))) in
  write_block inode_block buf.

(** The probe of one device in [new_from_block_devices]: a read error or a
    superblock the code does not support skips the device. *)
Definition SUPERBLOCK_START : Z := 1024.
Definition SUPERBLOCK_SIZE : Z := 1024.
End ext2.

Definition supported (s : Superblock) : bool :=
  (s_magic s =? 0xEF53) && (log_block_size s <=? 2) && (rev_level s =? 1).

Definition probe {D} `{BlockDevice D} : M D FsError (option Ext2) := λ d,
  match BlockDevice.read SUPERBLOCK_START (zrep SUPERBLOCK_SIZE 0) d with
  | Ok ((_, buf), d') =>
      let s := Superblock_of (decode superblock_widths buf) in
      Ok (if supported s then Some (mkExt2 (Z.shiftl 1024 (log_block_size s)) s) else None, d')
  | Err (_, d') => Ok (None, d')
  | Panic => Panic
  end.

(** The index of the first device with a supported superblock. *)
Fixpoint new_from_block_devices {D} `{BlockDevice D} (ds : list D) : res FsError (Z * Ext2) :=
  match ds with
  | [] => Err FsError.NotFound
  | d :: ds =>
      match probe d with
      | Ok (Some fs, _) => Ok (0, fs)
      | Ok (None, _) => let? r := new_from_block_devices ds in Ok (1 + r.1, r.2)
      | Err (e, _) => Err e
      | Panic => Panic
      end
  end.

(** ** The bitmap search finds the least free entry *)

(** Bit [x] of a bitmap: bit [x mod 8] of byte [x / 8]. *)
Definition bit (bm : list Z) (x : Z) : bool := Z.testbit (default 0 (zat bm (x / 8))) (x mod 8).

(** [r] is the least number in [lo, hi) at which [f] is false. *)
Definition least_false (f : Z → bool) (lo hi : Z) (r : option Z) : Prop :=
  match r with
  | Some x => lo ≤ x < hi ∧ f x = false ∧ ∀ y, lo ≤ y < x → f y = true
  | None => ∀ y, lo ≤ y < hi → f y = true
  end.

Lemma least_false_app f lo mid hi r1 r2 :
  lo ≤ mid ≤ hi → least_false f lo mid r1 → least_false f mid hi r2 →
  least_false f lo hi (match r1 with Some x => Some x | None => r2 end).
Proof.
  intros Hm H1 H2. destruct r1 as [x|]; simpl in *; [naive_solver lia|].
  destruct r2 as [x|]; simpl in *.
  - destruct H2 as (? & ? & Hlt). split_and!; [lia|lia|done|]. intros y Hy.
    destruct (decide (y < mid)); [apply H1|apply Hlt]; lia.
  - intros y Hy. destruct (decide (y < mid)); [apply H1|apply H2]; lia.
Qed.

Lemma bit_loop_spec n k b :
  0 ≤ k → least_false (λ x, Z.testbit b (x - k)) k (k + Z.of_nat n) (bit_loop n k b).
Proof.
  revert k b. induction n as [|n IH]; intros k b Hk.
  { intros y Hy. lia. }
  cbn [bit_loop]. change (Z.land b 1) with (Z.land b (Z.ones 1)). rewrite Z.land_ones by lia.
  change (2 ^ 1) with 2. pose proof (Z.bit0_mod b) as Hb.
  destruct (Z.eqb_spec (b mod 2) 0) as [E|E].
  - simpl. split_and!; [lia|lia| |intros; lia]. rewrite Z.sub_diag. rewrite E in Hb.
    by destruct (Z.testbit b 0).
  - specialize (IH (k + 1) (Z.shiftr b 1)).
    apply (least_false_app _ k (k + 1) _ None); [lia| |].
    + intros y Hy. assert (y = k) as -> by lia. rewrite Z.sub_diag.
      destruct (Z.testbit b 0); [done|]. simpl in Hb. lia.
    + assert (∀ x, k + 1 ≤ x → Z.testbit (Z.shiftr b 1) (x - (k + 1)) = Z.testbit b (x - k)) as Hsh.
      { intros x Hx. rewrite Z.shiftr_spec by lia. f_equal. lia. }
      replace (k + Z.of_nat (S n)) with (k + 1 + Z.of_nat n) by lia.
      destruct (bit_loop n (k + 1) (Z.shiftr b 1)) as [x|]; simpl in *.
      * destruct IH as (? & Hx & Hlt); [lia|]. rewrite Hsh in Hx by lia. split_and!; [lia|lia|done|].
        intros y Hy. rewrite <-Hsh by lia. apply Hlt. lia.
      * intros y Hy. rewrite <-Hsh by lia. apply IH; lia.
Qed.

Lemma byte_ff x : 0 ≤ x < 8 → Z.testbit 0xff x = true.
Proof. intros Hx. change 0xff with (Z.ones 8). apply Z.ones_spec_low. lia. Qed.

(** The bits of one byte of the bitmap. *)
Lemma byte_bits bm p b x : zat bm p = Some b → 8 * p ≤ x < 8 * p + 8 → bit bm x = Z.testbit b (x - 8 * p).
Proof.
  intros Hb Hx. unfold bit. assert (x / 8 = p) as -> by (symmetry; apply (Z.div_unique_pos _ _ _ (x - 8 * p)); lia).
  assert (x mod 8 = x - 8 * p) as -> by (symmetry; apply (Z.mod_unique_pos _ _ p); lia). by rewrite Hb.
Qed.

Lemma byte_loop_spec {E} n bm i j :
  0 ≤ i → 0 ≤ j → i * 8 + j + Z.of_nat n ≤ zlen bm →
  ∃ r, @byte_loop E n bm i j = Ok r ∧
    least_false (bit bm) (64 * i + 8 * j) (64 * i + 8 * (j + Z.of_nat n)) r.
Proof.
  revert j. induction n as [|n IH]; intros j Hi Hj Hl.
  { exists None. split; [done|]. intros y ?. lia. }
  cbn [byte_loop]. destruct (zat_is_Some bm (i * 8 + j)) as [b Hb]; [lia|]. rewrite Hb. cbn [unwrap rbind].
  destruct (IH (j + 1)) as (r & Er & Hr); [lia..|].
  assert (∀ rb, least_false (bit bm) (64 * i + 8 * j) (64 * i + 8 * (j + 1)) rb →
    least_false (bit bm) (64 * i + 8 * j) (64 * i + 8 * (j + Z.of_nat (S n)))
      (match rb with Some x => Some x | None => r end)) as Happ.
  { intros rb Hrb. apply (least_false_app _ _ (64 * i + 8 * (j + 1))); [lia|done|].
    by replace (j + Z.of_nat (S n)) with (j + 1 + Z.of_nat n) by lia. }
  assert (∀ x, 64 * i + 8 * j ≤ x < 64 * i + 8 * (j + 1) → bit bm x = Z.testbit b (x - (64 * i + 8 * j))) as Hbits.
  { intros x Hx. rewrite (byte_bits bm (i * 8 + j) b) by (done || lia). f_equal. lia. }
  zcase.
  - exists r. split; [done|]. apply (Happ None). intros y Hy. rewrite Hbits by lia. subst b. apply byte_ff. lia.
  - pose proof (bit_loop_spec 8 0 b ltac:(lia)) as Hbit. destruct (bit_loop 8 0 b) as [k|].
    + exists (Some (k + 8 * j + 64 * i)). split; [done|]. apply (Happ (Some _)).
      destruct Hbit as (? & Hk & Hlt). split_and!; [lia|lia| |].
      * rewrite Hbits by lia. rewrite <-Hk. f_equal. lia.
      * intros y Hy. rewrite Hbits by lia. specialize (Hlt (y - (64 * i + 8 * j))).
        rewrite Z.sub_0_r in Hlt. apply Hlt. lia.
    + exists r. split; [done|]. apply (Happ None). intros y Hy. rewrite Hbits by lia.
      assert (Z.testbit b (y - (64 * i + 8 * j) - 0) = true) as Hx by (apply Hbit; lia).
      by rewrite Z.sub_0_r in Hx.
Qed.

Lemma le_val_max l :
  Forall is_byte l → le_val l = 256 ^ Z.of_nat (length l) - 1 → Forall (λ b, b = 0xff) l.
Proof.
  induction 1 as [|b l Hb Hl IH]; [constructor|]. pose proof (le_val_fits l Hl) as Hf.
  unfold fits, is_byte in *. cbn [le_val length]. rewrite Nat2Z.inj_succ, Z.pow_succ_r by lia.
  intros E. constructor; [lia|]. apply IH. lia.
Qed.

Lemma chunk_loop_spec {E} n bm i :
  Forall is_byte bm → 0 ≤ i → (i + Z.of_nat n) * 8 ≤ zlen bm →
  ∃ r, @chunk_loop E n bm i = Ok r ∧ least_false (bit bm) (64 * i) (64 * (i + Z.of_nat n)) r.
Proof.
  intros Hby. revert i. induction n as [|n IH]; intros i Hi Hl.
  { exists None. split; [done|]. intros y ?. lia. }
  cbn [chunk_loop]. unfold get_le. rewrite slice_ok by lia. cbn [rbind].
  replace (i * 8 + Z.of_nat 8 - i * 8) with 8 by lia.
  destruct (IH (i + 1)) as (r & Er & Hr); [lia..|].
  assert (∀ rb, least_false (bit bm) (64 * i) (64 * (i + 1)) rb →
    least_false (bit bm) (64 * i) (64 * (i + Z.of_nat (S n)))
      (match rb with Some x => Some x | None => r end)) as Happ.
  { intros rb Hrb. apply (least_false_app _ _ (64 * (i + 1))); [lia|done|].
    by replace (i + Z.of_nat (S n)) with (i + 1 + Z.of_nat n) by lia. }
  zcase.
  - exists r. split; [done|]. apply (Happ None). intros y Hy.
    assert (Forall (λ b, b = 0xff) (sub bm (i * 8) 8)) as Hff.
    { assert (length (sub bm (i * 8) 8) = 8%nat) as Hlen by (pose proof (zlen_sub bm (i * 8) 8); unfold zlen in *; lia).
      apply le_val_max; [unfold sub; by apply Forall_take, Forall_drop|]. by rewrite Hlen. }
    pose proof (Z.div_mod y 8). pose proof (Z.mod_pos_bound y 8).
    destruct (zat_is_Some (sub bm (i * 8) 8) (y / 8 - i * 8)) as [b Hb]; [rewrite zlen_sub; lia|].
    assert (b = 0xff) as ->.
    { unfold zat in Hb. destruct (_ <? _); [done|]. rewrite Forall_forall in Hff.
      apply list_elem_of_lookup_2 in Hb. by apply Hff. }
    rewrite zat_sub in Hb by lia. rewrite decide_True in Hb by lia.
    unfold bit. replace (y / 8) with (i * 8 + (y / 8 - i * 8)) by lia. rewrite Hb. apply byte_ff. lia.
  - destruct (@byte_loop_spec E 8 bm i 0) as (rb & Eb & Hrb); [lia..|]. rewrite Eb. cbn [rbind].
    exists (match rb with Some x => Some x | None => r end). split; [by destruct rb|].
    apply Happ. by replace (64 * (i + 1)) with (64 * i + 8 * (0 + Z.of_nat 8)) by lia;
      replace (64 * i) with (64 * i + 8 * 0) at 1 by lia.
Qed.

(** ** Single bits *)

Lemma zat_set (l : list Z) p v k : 0 ≤ p < zlen l →
  zat (splice l p [v]) k = if decide (k = p) then Some v else zat l k.
Proof.
  intros Hp. assert (zlen [v] = 1) as H1 by done. rewrite zat_splice, H1 by (rewrite ?H1; lia).
  repeat case_decide; try lia; [|done]. subst. by rewrite Z.sub_diag.
Qed.

Lemma zlen_set (l : list Z) p v : 0 ≤ p < zlen l → zlen (splice l p [v]) = zlen l.
Proof. intros. apply zlen_splice; [lia|]. change (zlen [v]) with 1. lia. Qed.

Lemma bit_index x : 0 ≤ x → x = 8 * (x / 8) + x mod 8 ∧ 0 ≤ x mod 8 < 8 ∧ 0 ≤ x / 8.
Proof.
  intros. pose proof (Z.div_mod x 8). pose proof (Z.mod_pos_bound x 8).
  lia.
Qed.

Lemma set_bit_spec {E} bm i :
  0 ≤ i → i < 8 * zlen bm → Forall is_byte bm →
  ∃ bm', @set_bit E bm i = Ok bm' ∧ zlen bm' = zlen bm ∧ Forall is_byte bm' ∧
    (∀ x, 0 ≤ x → bit bm' x = if decide (x = i) then true else bit bm x).
Proof.
  intros Hi Hl Hby. destruct (bit_index i Hi) as (Hdm & Hmod & Hdiv).
  destruct (zat_is_Some bm (i / 8)) as [b Hb]; [lia|]. unfold set_bit. rewrite Hb. cbn [unwrap rbind].
  eexists. split; [done|]. split_and!.
  - apply zlen_set. lia.
  - unfold splice. apply Forall_app_2; [by apply Forall_take|]. simpl. constructor; [|by apply Forall_drop].
    assert (is_byte b) as [? ?].
    { unfold zat in Hb. destruct (_ <? _); [done|]. eapply Forall_lookup_1; done. }
    rewrite Z.shiftl_1_l. split; [apply Z.lor_nonneg; split; [lia|apply Z.pow_nonneg; lia]|].
    change 256 with (2 ^ 8). apply Z.log2_lt_cancel. rewrite Z.log2_lor by (try apply Z.pow_nonneg; lia).
    rewrite !Z.log2_pow2 by lia. apply Z.max_lub_lt; [|lia].
    destruct (decide (b = 0)) as [->|]; [done|]. apply Z.log2_lt_pow2; lia.
  - intros x Hx. destruct (bit_index x Hx) as (Hdx & Hmx & _). unfold bit. rewrite zat_set by lia.
    destruct (decide (x / 8 = i / 8)) as [E8|E8].
    + rewrite E8, Hb. cbn [default]. unfold id. rewrite Z.lor_spec, Z.shiftl_1_l, Z.pow2_bits_eqb by lia.
      destruct (Z.eqb_spec (i mod 8) (x mod 8)) as [Em|Em].
      * rewrite (decide_True (P := x = i)) by lia. apply orb_true_r.
      * rewrite (decide_False (P := x = i)) by lia. apply orb_false_r.
    + rewrite decide_False by (intros ->; lia). done.
Qed.

Lemma clear_set_bit {E} bm i bm' :
  0 ≤ i → i < 8 * zlen bm → Forall is_byte bm → bit bm i = false →
  @set_bit E bm i = Ok bm' → @clear_bit E bm' i = Ok bm.
Proof.
  intros Hi Hl Hby Hz. destruct (bit_index i Hi) as (Hdm & Hmod & Hdiv).
  destruct (zat_is_Some bm (i / 8)) as [b Hb]; [lia|]. unfold set_bit, clear_bit, bit in *.
  rewrite Hb in *. cbn [unwrap rbind default] in *. unfold id in Hz. intros [= <-].
  assert (is_byte b) as [? ?].
  { unfold zat in Hb. destruct (_ <? _); [done|]. eapply Forall_lookup_1; done. }
  rewrite zat_set, decide_True by lia. cbn [unwrap rbind].
  rewrite !Z.shiftl_1_l.
  assert (Z.land (Z.lor b (2 ^ (i mod 8))) (2 ^ (i mod 8)) ≠ 0) as Hne.
  { intros E0. apply (f_equal (λ z, Z.testbit z (i mod 8))) in E0.
    rewrite Z.land_spec, Z.lor_spec, !Z.pow2_bits_true, Z.bits_0, orb_true_r in E0 by lia. done. }
  destruct (Z.eqb_spec (Z.land (Z.lor b (2 ^ (i mod 8))) (2 ^ (i mod 8))) 0); [done|]. cbn [negb rassert rbind].
  f_equal. apply zat_ext.
  { rewrite !zlen_set; rewrite ?zlen_set; lia. }
  intros k _. rewrite zat_set by (rewrite zlen_set; lia).
  case_decide as Hk; [|by rewrite zat_set, decide_False by lia]. rewrite Hk, Hb. f_equal.
  apply Z.bits_inj'. intros m Hm. rewrite Z.land_spec, Z.lor_spec, Z.lxor_spec, Z.pow2_bits_eqb by lia.
  destruct (Z.eqb_spec (i mod 8) m) as [<-|].
  - rewrite byte_ff, Hz by lia. done.
  - rewrite orb_false_r, xorb_false_r. destruct (decide (m < 8)); [by rewrite byte_ff, andb_true_r by lia|].
    change 0xff with (Z.ones 8). rewrite Z.ones_spec_high, andb_false_r by lia. symmetry.
    apply (Z.bits_above_log2); [lia|]. destruct (decide (b = 0)) as [->|]; [simpl; lia|].
    assert (Z.log2 b < 8) by (apply Z.log2_lt_pow2; lia). lia.
Qed.

(** ** The blocks of the file system *)

Section blocks.
Context {D : Type} `{BlockDeviceSpec D} (fs : Ext2).
Implicit Type d : D.
Abbreviation bs := (fs_block_size fs).
Abbreviation sb := (superblock fs).

(** Block [n] of the file system. *)
Definition fblk d (n : Z) : list Z := sub (bd_bytes d) (n * bs) bs.

Definition in_fs (n : Z) : Prop := 0 ≤ n < blocks_count sb.

(** The device is in working order, holds bytes and is as large as the
    superblock says. *)
Record disk_ok d : Prop := {
  dk_ok : bd_ok d;
  dk_bytes : Forall is_byte (bd_bytes d);
  dk_size : blocks_count sb * bs ≤ zlen (bd_bytes d);
  dk_max : zlen (bd_bytes d) ≤ usize_max;
  dk_bs : 1024 ≤ bs;
  dk_bs8 : (1024 | bs);
}.

Definition same_bytes d d' : Prop := bd_bytes d' = bd_bytes d.

(** [d'] is [d] with block [n] replaced by [b]. *)
Definition block_set d d' (n : Z) (b : list Z) : Prop := bd_bytes d' = splice (bd_bytes d) (n * bs) b.

Lemma in_fs_bytes d n : disk_ok d → in_fs n → 0 ≤ n * bs ∧ n * bs + bs ≤ zlen (bd_bytes d).
Proof. intros [_ _ Hs _ Hb _] Hn. unfold in_fs in Hn. nia. Qed.

Lemma zlen_fblk d n : disk_ok d → in_fs n → zlen (fblk d n) = bs.
Proof. intros Hd Hn. destruct (in_fs_bytes d n Hd Hn). pose proof (dk_bs d Hd). apply zlen_sub; lia. Qed.

Lemma fblk_bytes d n : disk_ok d → Forall is_byte (fblk d n).
Proof. intros Hd. apply Forall_take, Forall_drop, Hd. Qed.

Lemma fblk_same d d' n : same_bytes d d' → fblk d' n = fblk d n.
Proof. unfold fblk. by intros ->. Qed.

Lemma fblk_set d d' n b m :
  disk_ok d → block_set d d' n b → zlen b = bs → in_fs n → in_fs m →
  fblk d' m = if decide (m = n) then b else fblk d m.
Proof.
  intros Hd Hset Hb Hn Hm. destruct (in_fs_bytes d n Hd Hn), (in_fs_bytes d m Hd Hm).
  pose proof (dk_bs d Hd). unfold fblk. rewrite Hset. apply zat_ext.
  - rewrite zlen_sub by (rewrite ?zlen_splice; lia). case_decide; [done|]. rewrite zlen_sub; lia.
  - intros k Hk. rewrite zlen_sub in Hk by (rewrite ?zlen_splice; lia).
    rewrite zat_sub, decide_True, zat_splice by lia. rewrite Hb.
    destruct (decide (m = n)) as [->|Hne].
    + rewrite decide_True by lia. f_equal. lia.
    + rewrite zat_sub, (decide_True (P := 0 ≤ k < bs)), decide_False by nia. done.
Qed.

Lemma read_block_spec d n buf :
  disk_ok d → in_fs n → zlen buf = bs →
  ∃ d', read_block fs n buf d = Ok (fblk d n, d') ∧ disk_ok d' ∧ same_bytes d d'.
Proof.
  intros Hd Hn Hb. destruct (in_fs_bytes d n Hd Hn) as [Hn1 Hn2]. unfold in_fs in Hn.
  pose proof (dk_bs d Hd). pose proof (dk_max d Hd).
  unfold read_block, check_block_inputs. mstep. zcase; [lia|]. zcase; [lia|].
  rewrite umul_ok, slice_ok by lia. rewrite Z.sub_0_r, sub_all by done.
  destruct (read_spec d (n * bs) buf) as (d' & -> & Hok & Eb & Es & Ec); [apply Hd|lia|lia|lia|].
  rewrite Hb, Z.eqb_refl. exists d'.
  assert (splice buf 0 (sub (bd_bytes d) (n * bs) bs) = fblk d n) as ->.
  { unfold splice, fblk. simpl. rewrite drop_ge; [by rewrite app_nil_r|].
    pose proof (zlen_sub (bd_bytes d) (n * bs) bs). unfold zlen in *. lia. }
  split; [done|]. split; [|done]. destruct Hd. split; rewrite ?Eb; done.
Qed.

Lemma write_block_spec d n buf :
  disk_ok d → in_fs n → zlen buf = bs → Forall is_byte buf →
  ∃ d', write_block fs n buf d = Ok (tt, d') ∧ disk_ok d' ∧ block_set d d' n buf.
Proof.
  intros Hd Hn Hb Hby. destruct (in_fs_bytes d n Hd Hn) as [Hn1 Hn2]. unfold in_fs in Hn.
  pose proof (dk_bs d Hd). pose proof (dk_max d Hd).
  unfold write_block, check_block_inputs. mstep. zcase; [lia|]. zcase; [lia|].
  rewrite umul_ok, slice_ok by lia. rewrite Z.sub_0_r, sub_all by done.
  destruct (write_spec d (n * bs) buf) as (d' & -> & Hok & Es & Ec & Eb); [apply Hd|lia|lia|lia|].
  rewrite Hb, Z.eqb_refl. exists d'. split; [done|]. split; [|done].
  destruct Hd. split; rewrite ?Eb, ?zlen_splice by lia; try done.
  unfold splice. apply Forall_app_2; [by apply Forall_take|]. apply Forall_app_2; [done|by apply Forall_drop].
Qed.

Lemma scratch_len d : disk_ok d → zlen (scratch fs) = bs.
Proof. intros Hd. pose proof (dk_bs d Hd). apply zlen_rep. lia. Qed.

(** ** Group descriptors *)

Definition per_block : Z := bs / BGD_SIZE.
Definition bgd_block_of (g : Z) : Z := first_data_block sb + 1 + g / per_block.
Definition bgd_offset_of (g : Z) : Z := g mod per_block * BGD_SIZE.
Definition bgd_raw d (g : Z) : list Z := sub (fblk d (bgd_block_of g)) (bgd_offset_of g) 18.
Definition bgd_at d (g : Z) : BlockGroupDescriptor := Bgd_of (decode bgd_widths (bgd_raw d g)).

Lemma bgd_offset_ok d g : disk_ok d → 0 ≤ bgd_offset_of g ∧ bgd_offset_of g + 32 ≤ bs.
Proof.
  intros Hd. pose proof (dk_bs d Hd). unfold bgd_offset_of, per_block, BGD_SIZE.
  assert (32 ≤ bs / 32) by (apply Z.div_le_lower_bound; lia).
  pose proof (Z.mod_pos_bound g (bs / 32)). pose proof (Z.mul_div_le bs 32). lia.
Qed.

Lemma get_bgd_spec d g :
  disk_ok d → in_fs (bgd_block_of g) →
  ∃ d', get_block_group_descriptor fs g d =
      Ok ((bgd_at d g, (bgd_offset_of g, bgd_block_of g), fblk d (bgd_block_of g)), d') ∧
    disk_ok d' ∧ same_bytes d d'.
Proof.
  intros Hd Hin. destruct (bgd_offset_ok d g Hd). pose proof (zlen_fblk d _ Hd Hin) as Hl.
  destruct (read_block_spec d (bgd_block_of g) (scratch fs)) as (d' & E & ? & ?); [done..|by eapply scratch_len|].
  unfold get_block_group_descriptor. change (first_data_block sb + 1 + g / (bs / BGD_SIZE)) with (bgd_block_of g).
  rewrite (mbind_ok _ _ _ _ _ E). exists d'. split; [|done].
  unfold read_struct. change (Z.of_nat (sum_list bgd_widths)) with 18.
  change (g mod (bs / BGD_SIZE) * BGD_SIZE) with (bgd_offset_of g).
  rewrite (mbind_ok _ _ _ (decode bgd_widths (bgd_raw d g)) d'); [done|].
  apply mlift_ok. rewrite slice_ok by lia. cbn [rbind]. unfold bgd_raw. do 3 f_equal. lia.
Qed.
(** Descriptors as the code writes them back. *)
Definition bgd_fits (b : BlockGroupDescriptor) : Prop := Forall2 fits bgd_widths (bgd_fields b).

Lemma bgd_roundtrip b rest : bgd_fits b → Bgd_of (decode bgd_widths (encode bgd_widths (bgd_fields b) ++ rest)) = b.
Proof. intros Hb. rewrite decode_encode by done. by destruct b. Qed.

Lemma bgd_fields_of f : length f = 6%nat → bgd_fields (Bgd_of f) = f.
Proof. do 7 (destruct f as [|? f]; try done). Qed.

Lemma bgd_raw_len d g : disk_ok d → in_fs (bgd_block_of g) → zlen (bgd_raw d g) = 18.
Proof.
  intros Hd Hin. destruct (bgd_offset_ok d g Hd). pose proof (zlen_fblk d _ Hd Hin). apply zlen_sub; lia.
Qed.

Lemma bgd_at_fits d g : disk_ok d → in_fs (bgd_block_of g) → bgd_fits (bgd_at d g).
Proof.
  intros Hd Hin. unfold bgd_fits, bgd_at. rewrite bgd_fields_of by apply length_decode.
  apply decode_fits; [by apply Forall_take, Forall_drop, fblk_bytes|].
  pose proof (bgd_raw_len d g Hd Hin). unfold zlen in *. change (sum_list bgd_widths) with 18%nat. lia.
Qed.

(** Encoding the descriptor of a group gives back its bytes. *)
Lemma bgd_encode d g :
  disk_ok d → in_fs (bgd_block_of g) → encode bgd_widths (bgd_fields (bgd_at d g)) = bgd_raw d g.
Proof.
  intros Hd Hin. unfold bgd_at. rewrite bgd_fields_of by apply length_decode.
  pose proof (bgd_raw_len d g Hd Hin) as Hl. unfold zlen in Hl.
  rewrite encode_decode; [|by apply Forall_take, Forall_drop, fblk_bytes|change (sum_list bgd_widths) with 18%nat; lia].
  apply take_ge. change (sum_list bgd_widths) with 18%nat. lia.
Qed.

Definition bgd_blk_with d (g : Z) (b : BlockGroupDescriptor) : list Z :=
  splice (fblk d (bgd_block_of g)) (bgd_offset_of g) (encode bgd_widths (bgd_fields b)).

Lemma zlen_bgd_encode b : zlen (encode bgd_widths (bgd_fields b)) = 18.
Proof. unfold zlen. by rewrite length_encode. Qed.

Lemma encode_byte ws vs : Forall is_byte (encode ws vs).
Proof.
  revert vs. induction ws as [|w ws IH]; intros [|v vs]; [constructor..|]. simpl.
  apply Forall_app_2; [apply le_bytes_byte|done].
Qed.

Lemma bgd_blk_with_ok d g b :
  disk_ok d → in_fs (bgd_block_of g) →
  zlen (bgd_blk_with d g b) = bs ∧ Forall is_byte (bgd_blk_with d g b).
Proof.
  intros Hd Hin. destruct (bgd_offset_ok d g Hd). pose proof (zlen_fblk d _ Hd Hin). split.
  - unfold bgd_blk_with. rewrite zlen_splice; rewrite ?zlen_bgd_encode; lia.
  - unfold bgd_blk_with, splice. apply Forall_app_2; [by apply Forall_take, fblk_bytes|].
    apply Forall_app_2; [apply encode_byte|by apply Forall_drop, fblk_bytes].
Qed.

(** Two groups with the same descriptor block have disjoint descriptors in it. *)
Lemma bgd_offset_apart d g g' :
  disk_ok d → g ≠ g' → bgd_block_of g = bgd_block_of g' →
  bgd_offset_of g + 32 ≤ bgd_offset_of g' ∨ bgd_offset_of g' + 32 ≤ bgd_offset_of g.
Proof.
  intros Hd Hne E. pose proof (dk_bs d Hd). unfold bgd_block_of, bgd_offset_of, per_block, BGD_SIZE in *.
  assert (32 ≤ bs / 32) by (apply Z.div_le_lower_bound; lia).
  pose proof (Z.div_mod g (bs / 32)). pose proof (Z.div_mod g' (bs / 32)).
  assert (g / (bs / 32) = g' / (bs / 32)) as Eq by lia. rewrite Eq in *.
  assert (g mod (bs / 32) ≠ g' mod (bs / 32)) by lia. lia.
Qed.

Lemma bgd_raw_with d g b g' :
  disk_ok d → in_fs (bgd_block_of g) → bgd_block_of g = bgd_block_of g' →
  sub (bgd_blk_with d g b) (bgd_offset_of g') 18 =
    if decide (g' = g) then encode bgd_widths (bgd_fields b) else bgd_raw d g'.
Proof.
  intros Hd Hin E. destruct (bgd_offset_ok d g Hd), (bgd_offset_ok d g' Hd).
  pose proof (zlen_fblk d _ Hd Hin) as Hl. pose proof (zlen_bgd_encode b) as He.
  destruct (bgd_blk_with_ok d g b Hd Hin) as [Hw _].
  assert (∀ k, 0 ≤ k < 18 → zat (sub (bgd_blk_with d g b) (bgd_offset_of g') 18) k =
    zat (bgd_blk_with d g b) (bgd_offset_of g' + k)) as Hk0.
  { intros k Hk. rewrite zat_sub, decide_True by lia. done. }
  apply zat_ext; rewrite (zlen_sub (bgd_blk_with _ _ _)) by lia.
  - case_decide; [done|]. rewrite bgd_raw_len; [done..|by rewrite <-E].
  - intros k Hk. rewrite Hk0 by done. unfold bgd_blk_with. rewrite zat_splice by lia. rewrite He.
    destruct (decide (g' = g)) as [->|Hne].
    + rewrite decide_True by lia. f_equal. lia.
    + unfold bgd_raw. rewrite <-E, zat_sub, (decide_True (P := 0 ≤ k < 18)) by lia.
      destruct (bgd_offset_apart d g g' Hd); [done|done| |]; rewrite decide_False by lia; done.
Qed.

Lemma bgd_at_set d d' g b g' :
  disk_ok d → in_fs (bgd_block_of g) → in_fs (bgd_block_of g') → bgd_fits b →
  block_set d d' (bgd_block_of g) (bgd_blk_with d g b) →
  bgd_at d' g' = if decide (g' = g) then b else bgd_at d g'.
Proof.
  intros Hd Hin Hin' Hb Hset. unfold bgd_at at 1. unfold bgd_raw.
  destruct (bgd_blk_with_ok d g b Hd Hin) as [Hw _].
  rewrite (fblk_set d d' _ _ _ Hd Hset Hw Hin Hin').
  destruct (decide (bgd_block_of g' = bgd_block_of g)) as [E|E].
  - rewrite bgd_raw_with by done. case_decide; [|done].
    rewrite <-(app_nil_r (encode _ _)). by apply bgd_roundtrip.
  - rewrite decide_False by (by intros ->). done.
Qed.

Lemma put_bgd_spec d g b {A} (k : unit → M D FsError A) :
  disk_ok d → in_fs (bgd_block_of g) →
  ∃ d', (let! buf := mlift (write_struct bgd_widths (fblk d (bgd_block_of g)) (bgd_offset_of g) (bgd_fields b)) in
         let! _ := write_block fs (bgd_block_of g) buf in k tt) d = k tt d' ∧
    disk_ok d' ∧ block_set d d' (bgd_block_of g) (bgd_blk_with d g b).
Proof.
  intros Hd Hin. destruct (bgd_offset_ok d g Hd). pose proof (zlen_fblk d _ Hd Hin).
  destruct (bgd_blk_with_ok d g b Hd Hin) as [Hw1 Hw2].
  destruct (write_block_spec d (bgd_block_of g) (bgd_blk_with d g b)) as (d' & E & ? & ?); [done..|].
  exists d'. split; [|done]. rewrite (mbind_ok _ _ _ (bgd_blk_with d g b) d).
  - by rewrite (mbind_ok _ _ _ _ _ E).
  - apply mlift_ok. unfold write_struct. change (Z.of_nat (sum_list bgd_widths)) with 18.
    apply copy_at_ok; rewrite ?zlen_bgd_encode; lia.
Qed.
(** ** Allocation, for blocks and inodes alike

    The allocators of blocks and of inodes differ in which bitmap and counter of
    the descriptor they use and how they number the entries. *)
Record Kind : Type := mkKind {
  k_count : BlockGroupDescriptor → Z;
  k_set : BlockGroupDescriptor → Z → BlockGroupDescriptor;
  k_bitmap : BlockGroupDescriptor → Z;
  k_base : Z;
  k_per : Z;
  k_msg : string;
}.

Definition blockK : Kind :=
  mkKind free_blocks_count
    (λ b n, mkBgd (block_bitmap b) (inode_bitmap b) (inode_table b) n (free_inodes_count b) (used_dirs_count b))
    block_bitmap (first_data_block sb) (blocks_per_group sb)
    "block bitmap reports free entries but none were found".
Definition inodeK : Kind :=
  mkKind free_inodes_count
    (λ b n, mkBgd (block_bitmap b) (inode_bitmap b) (inode_table b) (free_blocks_count b) n (used_dirs_count b))
    inode_bitmap 1 (inodes_per_group sb)
    "inode bitmap reports free entries but none were found".

Definition alloc_in (K : Kind) (group : Z) : M D FsError (option Z) :=
  let! p := get_block_group_descriptor fs group in
  let '(bgd, (bgd_offset, bgd_block), buf) := p in
  if k_count K bgd =? 0 then mret None
  else
    let bgd := k_set K bgd (k_count K bgd - 1) in
    let! buf := mlift (write_struct bgd_widths buf bgd_offset (bgd_fields bgd)) in
    let! _ := write_block fs bgd_block buf in
    let! buf := read_block fs (k_bitmap K bgd) (scratch fs) in
    let! z := mlift (first_zero_in_bitmap fs buf) in
    match z with
    | Some i =>
        let! buf := mlift (set_bit buf i) in
        let! _ := write_block fs (k_bitmap K bgd) buf in
        mret (Some (k_base K + i + group * k_per K))
    | None => mfail (FsError.Corrupted (k_msg K))
    end.

Definition dealloc_in (K : Kind) (n : Z) : M D FsError unit :=
  let! n := mlift (usub n (k_base K)) in
  let! group := mlift (udiv n (k_per K)) in
  let! p := get_block_group_descriptor fs group in
  let '(bgd, (bgd_offset, bgd_block), buf) := p in
  let! c := mlift (u16_succ (k_count K bgd)) in
  let bgd := k_set K bgd c in
  let! buf := mlift (write_struct bgd_widths buf bgd_offset (bgd_fields bgd)) in
  let! _ := write_block fs bgd_block buf in
  let! buf := read_block fs (k_bitmap K bgd) (scratch fs) in
  let! buf := mlift (clear_bit buf (n mod k_per K)) in
  write_block fs (k_bitmap K bgd) buf.

Lemma alloc_block_in g : alloc_block_given_group fs g = alloc_in blockK g.
Proof. done. Qed.
Lemma alloc_inode_in g : alloc_inode_given_group fs g = alloc_in inodeK g.
Proof. done. Qed.
Lemma dealloc_block_in n : dealloc_block fs n = dealloc_in blockK n.
Proof. done. Qed.
Lemma dealloc_inode_in n : dealloc_inode fs n = dealloc_in inodeK n.
Proof. done. Qed.

Record kind_ok (K : Kind) : Prop := {
  ko_bitmap b n : k_bitmap K (k_set K b n) = k_bitmap K b;
  ko_count b n : k_count K (k_set K b n) = n;
  ko_set_set b n m : k_set K (k_set K b n) m = k_set K b m;
  ko_set_same b : k_set K b (k_count K b) = b;
  ko_fits b n : bgd_fits b → 0 ≤ n ≤ u16_max → bgd_fits (k_set K b n);
  ko_range b : bgd_fits b → 0 ≤ k_count K b ≤ u16_max;
}.

Lemma bgd_fits_iff b : bgd_fits b ↔
  fits 4 (block_bitmap b) ∧ fits 4 (inode_bitmap b) ∧ fits 4 (inode_table b) ∧
  fits 2 (free_blocks_count b) ∧ fits 2 (free_inodes_count b) ∧ fits 2 (used_dirs_count b).
Proof.
  unfold bgd_fits, bgd_widths, bgd_fields. rewrite !Forall2_cons. intuition auto.
Qed.

Lemma blockK_ok : kind_ok blockK.
Proof.
  split; try done; [by intros []|intros b n|intros b]; rewrite !bgd_fits_iff; unfold fits, u16_max; simpl;
    change (256 ^ Z.of_nat 2) with 65536; intuition lia.
Qed.
Lemma inodeK_ok : kind_ok inodeK.
Proof.
  split; try done; [by intros []|intros b n|intros b]; rewrite !bgd_fits_iff; unfold fits, u16_max; simpl;
    change (256 ^ Z.of_nat 2) with 65536; intuition lia.
Qed.
Section kind.
Context (K : Kind) (HK : kind_ok K).

Definition bitmap_of d (g : Z) : Z := k_bitmap K (bgd_at d g).

(** Entry [i] of group [g] is in use. *)
Definition used d (g i : Z) : bool := bit (fblk d (bitmap_of d g)) i.

(** The descriptors and bitmaps of the first [G] groups are in the file system
    and do not overlap. *)
Record layout (G : Z) d : Prop := {
  lay_bgd g : 0 ≤ g < G → in_fs (bgd_block_of g);
  lay_bitmap g : 0 ≤ g < G → in_fs (bitmap_of d g);
  lay_apart g g' : 0 ≤ g < G → 0 ≤ g' < G → bitmap_of d g ≠ bgd_block_of g';
  lay_inj g g' : 0 ≤ g < G → 0 ≤ g' < G → bitmap_of d g = bitmap_of d g' → g = g';
}.

(** [d'] is [d] with the counter of group [g] set to [c] and its bitmap to [bm]. *)
Definition group_set d d' (g c : Z) (bm : list Z) : Prop :=
  ∃ d1, disk_ok d1 ∧ disk_ok d' ∧
    block_set d d1 (bgd_block_of g) (bgd_blk_with d g (k_set K (bgd_at d g) c)) ∧
    block_set d1 d' (bitmap_of d g) bm.

Section group_set.
Context (G : Z) (d d' : D) (g c : Z) (bm : list Z).
Context (Hd : disk_ok d) (HL : layout G d) (Hg : 0 ≤ g < G) (Hc : 0 ≤ c ≤ u16_max).
Context (Hbm : zlen bm = bs) (Hset : group_set d d' g c bm).

Lemma group_set_ok : disk_ok d'.
Proof. by destruct Hset as (d1 & _ & ? & _). Qed.

Lemma group_set_fblk m : in_fs m →
  fblk d' m = if decide (m = bitmap_of d g) then bm
              else if decide (m = bgd_block_of g) then bgd_blk_with d g (k_set K (bgd_at d g) c)
              else fblk d m.
Proof.
  intros Hm. destruct Hset as (d1 & Hd1 & _ & H1 & H2).
  rewrite (fblk_set d1 d' _ _ m Hd1 H2 Hbm (lay_bitmap _ _ HL _ Hg) Hm).
  case_decide; [done|].
  pose proof (lay_bgd _ _ HL _ Hg) as Hin. apply (fblk_set d d1); [done..| |done|done].
  by apply bgd_blk_with_ok.
Qed.

Lemma group_set_bgd g' : 0 ≤ g' < G →
  bgd_at d' g' = if decide (g' = g) then k_set K (bgd_at d g) c else bgd_at d g'.
Proof.
  intros Hg'. destruct Hset as (d1 & Hd1 & _ & H1 & H2).
  pose proof (lay_bgd _ _ HL _ Hg) as Hin. pose proof (lay_bgd _ _ HL _ Hg') as Hin'.
  rewrite <-(bgd_at_set d d1 g (k_set K (bgd_at d g) c) g');
    [|done..|by apply (ko_fits _ HK), Hc; apply bgd_at_fits|done].
  unfold bgd_at, bgd_raw. rewrite (fblk_set d1 d' _ _ _ Hd1 H2 Hbm (lay_bitmap _ _ HL _ Hg) Hin').
  rewrite decide_False; [done|]. intros E. symmetry in E. by eapply lay_apart in E.
Qed.

Lemma group_set_bitmap g' : 0 ≤ g' < G → bitmap_of d' g' = bitmap_of d g'.
Proof.
  intros Hg'. unfold bitmap_of. rewrite group_set_bgd by done. case_decide as E; [|done].
  by rewrite (ko_bitmap _ HK), E.
Qed.

Lemma group_set_layout : layout G d'.
Proof.
  destruct HL as [L1 L2 L3 L4]. split; [done|..].
  - intros g' ?. rewrite group_set_bitmap; auto.
  - intros g1 g2 ??. rewrite group_set_bitmap; auto.
  - intros g1 g2 ??. rewrite !group_set_bitmap; auto.
Qed.

Lemma group_set_used g' i : 0 ≤ g' < G →
  used d' g' i = if decide (g' = g) then bit bm i else used d g' i.
Proof.
  intros Hg'. unfold used. rewrite group_set_bitmap by done.
  rewrite group_set_fblk by (by apply (lay_bitmap _ _ HL)). destruct (decide (g' = g)) as [->|Hne].
  - by rewrite decide_True.
  - rewrite decide_False, decide_False; [done| |]; intros E.
    + by apply (lay_apart _ _ HL) in E.
    + by apply (lay_inj _ _ HL) in E.
Qed.
End group_set.

Lemma alloc_in_none d g :
  disk_ok d → in_fs (bgd_block_of g) → k_count K (bgd_at d g) = 0 →
  ∃ d', alloc_in K g d = Ok (None, d') ∧ disk_ok d' ∧ same_bytes d d'.
Proof.
  intros Hd Hin Hc. destruct (get_bgd_spec d g Hd Hin) as (d' & E & ? & ?).
  exists d'. unfold alloc_in. rewrite (mbind_ok _ _ _ _ _ E), Hc. done.
Qed.

(** Reading after a descriptor update: the bitmap is untouched. *)
Lemma same_block_set d d1 d2 n b : same_bytes d d1 → block_set d1 d2 n b → block_set d d2 n b.
Proof. unfold same_bytes, block_set. by intros ->. Qed.

Lemma same_bgd d d' g : same_bytes d d' → bgd_at d' g = bgd_at d g.
Proof. unfold bgd_at, bgd_raw, fblk. by intros ->. Qed.

Lemma same_blk_with d d' g b : same_bytes d d' → bgd_blk_with d' g b = bgd_blk_with d g b.
Proof. unfold bgd_blk_with, fblk. by intros ->. Qed.

(** The common middle of allocation and release: write the new counter, then
    read the bitmap. *)
Lemma count_then_bitmap G d d0 g c {A} (k : list Z → M D FsError A) :
  disk_ok d → disk_ok d0 → same_bytes d d0 → layout G d → 0 ≤ g < G → 0 ≤ c ≤ u16_max →
  ∃ d1, (let! buf := mlift (write_struct bgd_widths (fblk d (bgd_block_of g)) (bgd_offset_of g)
                             (bgd_fields (k_set K (bgd_at d g) c))) in
         let! _ := write_block fs (bgd_block_of g) buf in
         let! buf := read_block fs (k_bitmap K (k_set K (bgd_at d g) c)) (scratch fs) in k buf) d0 =
      k (fblk d (bitmap_of d g)) d1 ∧ disk_ok d1 ∧
    block_set d d1 (bgd_block_of g) (bgd_blk_with d g (k_set K (bgd_at d g) c)).
Proof.
  intros Hd Hd0 Hs0 HL Hg Hc. pose proof (lay_bgd _ _ HL _ Hg) as Hin. pose proof (lay_bitmap _ _ HL _ Hg) as Hbm.
  rewrite <-(fblk_same d d0 (bgd_block_of g) Hs0).
  destruct (put_bgd_spec d0 g (k_set K (bgd_at d g) c) (λ _,
    let! buf := read_block fs (k_bitmap K (k_set K (bgd_at d g) c)) (scratch fs) in k buf) Hd0 Hin)
    as (d1 & E1 & Hd1 & Hset1).
  rewrite (same_blk_with _ _ _ _ Hs0) in Hset1. apply (same_block_set d) in Hset1; [|done].
  rewrite E1, (ko_bitmap _ HK).
  destruct (read_block_spec d1 (bitmap_of d g) (scratch fs)) as (d2 & E2 & Hd2 & Hs2);
    [done..|by eapply scratch_len|].
  unfold bitmap_of in E2 at 1. rewrite (mbind_ok _ _ _ _ _ E2). exists d2. split_and!; [|done|].
  - rewrite (fblk_set d d1 _ _ _ Hd Hset1); [|by apply bgd_blk_with_ok|done|done].
    rewrite decide_False; [done|]. intros E. by apply (lay_apart _ _ HL) in E.
  - unfold block_set in *. by rewrite Hs2.
Qed.

Lemma first_zero_spec {E} d bm :
  disk_ok d → zlen bm = bs → Forall is_byte bm →
  ∃ r, @first_zero_in_bitmap E fs bm = Ok r ∧ least_false (bit bm) 0 (8 * bs) r.
Proof.
  intros Hd Hl Hby. destruct (dk_bs8 d Hd) as [q Hq]. pose proof (dk_bs d Hd).
  assert (bs / 8 = q * 128) as Hdiv.
  { rewrite Hq. replace (q * 1024) with (q * 128 * 8) by lia. by apply Z.div_mul. }
  unfold first_zero_in_bitmap. rewrite Hdiv.
  destruct (@chunk_loop_spec E (Z.to_nat (q * 128)) bm 0) as (r & Er & Hr); [done|lia|lia|].
  exists r. split; [done|]. by replace (8 * bs) with (64 * (0 + Z.of_nat (Z.to_nat (q * 128)))) by lia.
Qed.

Lemma alloc_in_cases G d g :
  disk_ok d → layout G d → 0 ≤ g < G → k_count K (bgd_at d g) ≠ 0 →
  ∃ r, least_false (used d g) 0 (8 * bs) r ∧
  match r with
  | Some i => ∃ d' bm, alloc_in K g d = Ok (Some (k_base K + i + g * k_per K), d') ∧
      @set_bit FsError (fblk d (bitmap_of d g)) i = Ok bm ∧
      group_set d d' g (k_count K (bgd_at d g) - 1) bm
  | None => ∃ d', alloc_in K g d = Err (FsError.Corrupted (k_msg K), d') ∧ disk_ok d' ∧
      block_set d d' (bgd_block_of g) (bgd_blk_with d g (k_set K (bgd_at d g) (k_count K (bgd_at d g) - 1)))
  end.
Proof.
  intros Hd HL Hg Hc. pose proof (lay_bgd _ _ HL _ Hg) as Hin. pose proof (lay_bitmap _ _ HL _ Hg) as Hbm.
  pose proof (ko_range _ HK _ (bgd_at_fits d g Hd Hin)) as Hrange.
  destruct (get_bgd_spec d g Hd Hin) as (d0 & E0 & Hd0 & Hs0).
  unfold alloc_in. rewrite (mbind_ok _ _ _ _ _ E0).
  destruct (Z.eqb_spec (k_count K (bgd_at d g)) 0); [done|].
  pose proof (zlen_fblk d _ Hd Hbm) as Hlen. pose proof (fblk_bytes d (bitmap_of d g) Hd) as Hby.
  destruct (@first_zero_spec FsError d (fblk d (bitmap_of d g))) as (r & Er & Hr); [done..|].
  exists r. split; [exact Hr|]. cbv zeta.
  match goal with |- context [mbind' (read_block fs _ _) ?kk] =>
    destruct (count_then_bitmap G d d0 g (k_count K (bgd_at d g) - 1) kk) as (d1 & E1 & Hd1 & Hset1);
      [done..|lia|] end.
  rewrite E1, (mbind_ok _ _ _ r d1) by (by apply mlift_ok). destruct r as [i|]; [|by exists d1].
  destruct Hr as (Hi & Hz & _).
  destruct (@set_bit_spec FsError (fblk d (bitmap_of d g)) i) as (bm & Ebm & Hbl & Hbb & _); [lia|lia|done|].
  rewrite (mbind_ok _ _ _ bm d1) by (by apply mlift_ok). rewrite (ko_bitmap _ HK).
  destruct (write_block_spec d1 (bitmap_of d g) bm) as (d2 & E2 & Hd2 & Hset2); [done|done|lia|done|].
  unfold bitmap_of in E2 at 1. rewrite (mbind_ok _ _ _ _ _ E2).
  exists d2, bm. split_and!; [done|done|]. by exists d1.
Qed.

Lemma dealloc_in_spec G d g i bm :
  disk_ok d → layout G d → 0 ≤ g < G → 0 ≤ i < k_per K → 0 ≤ k_base K →
  k_count K (bgd_at d g) < u16_max →
  @clear_bit FsError (fblk d (bitmap_of d g)) i = Ok bm → zlen bm = bs → Forall is_byte bm →
  ∃ d', dealloc_in K (k_base K + i + g * k_per K) d = Ok (tt, d') ∧
    group_set d d' g (k_count K (bgd_at d g) + 1) bm.
Proof.
  intros Hd HL Hg Hi Hbase Hc Hclear Hbl Hbb.
  pose proof (lay_bgd _ _ HL _ Hg) as Hin. pose proof (lay_bitmap _ _ HL _ Hg) as Hbm.
  pose proof (ko_range _ HK _ (bgd_at_fits d g Hd Hin)) as Hrange.
  unfold dealloc_in. rewrite (mbind_ok _ _ _ (i + g * k_per K) d)
    by (apply mlift_ok; rewrite usub_ok by nia; f_equal; lia).
  assert ((i + g * k_per K) / k_per K = g) as Hdiv by (rewrite Z.div_add, Z.div_small by lia; lia).
  assert ((i + g * k_per K) mod k_per K = i) as Hmod by (rewrite Z.mod_add, Z.mod_small by lia; lia).
  rewrite (mbind_ok _ _ _ g d) by (apply mlift_ok; rewrite udiv_ok by lia; by rewrite Hdiv).
  destruct (get_bgd_spec d g Hd Hin) as (d0 & E0 & Hd0 & Hs0). rewrite (mbind_ok _ _ _ _ _ E0).
  rewrite (mbind_ok _ _ _ (k_count K (bgd_at d g) + 1) d0)
    by (apply mlift_ok; unfold u16_succ; zcase; [lia|done]).
  cbv zeta. rewrite Hmod.
  match goal with |- context [mbind' (read_block fs _ _) ?kk] =>
    destruct (count_then_bitmap G d d0 g (k_count K (bgd_at d g) + 1) kk) as (d1 & E1 & Hd1 & Hset1);
      [done..|lia|] end.
  rewrite E1, (mbind_ok _ _ _ bm d1) by (by apply mlift_ok). rewrite (ko_bitmap _ HK).
  destruct (write_block_spec d1 (bitmap_of d g) bm) as (d2 & E2 & Hd2 & Hset2); [done..|].
  unfold bitmap_of in E2 at 1. exists d2. split; [exact E2|]. by exists d1.
Qed.
(** Two updates of the same group: the second one wins. *)
Lemma group_set_restore G d d1 d2 g c bm :
  disk_ok d → layout G d → 0 ≤ g < G → 0 ≤ c ≤ u16_max → zlen bm = bs →
  group_set d d1 g c bm → group_set d1 d2 g (k_count K (bgd_at d g)) (fblk d (bitmap_of d g)) →
  bd_bytes d2 = bd_bytes d.
Proof.
  intros Hd HL Hg Hc Hbm H1 H2.
  pose proof (lay_bgd _ _ HL _ Hg) as Hin. pose proof (lay_bitmap _ _ HL _ Hg) as Hbi.
  pose proof (lay_apart _ _ HL g g Hg Hg) as Hne.
  pose proof (group_set_bitmap G d d1 g c bm Hd HL Hg Hc Hbm H1 g Hg) as Eb.
  assert (bgd_blk_with d1 g (k_set K (bgd_at d1 g) (k_count K (bgd_at d g))) = fblk d (bgd_block_of g)) as Eg.
  { rewrite (group_set_bgd G d d1 g c bm), decide_True by done. rewrite (ko_set_set _ HK), (ko_set_same _ HK).
    unfold bgd_blk_with at 1. rewrite (group_set_fblk G d d1 g c bm), decide_False, decide_True by done.
    rewrite bgd_encode by done. unfold bgd_blk_with, bgd_raw. destruct (bgd_offset_ok d g Hd).
    pose proof (zlen_fblk d _ Hd Hin). rewrite <-(zlen_bgd_encode (k_set K (bgd_at d g) c)) at 1.
    apply splice_restore; rewrite ?zlen_bgd_encode; lia. }
  destruct H1 as (e1 & He1 & Hd1 & S1 & S2), H2 as (e2 & He2 & Hd2 & S3 & S4).
  rewrite Eg in S3. rewrite Eb in S4. unfold block_set in *.
  destruct (in_fs_bytes d _ Hd Hin), (in_fs_bytes d _ Hd Hbi). pose proof (dk_bs d Hd).
  pose proof (zlen_fblk d _ Hd Hin) as L1. pose proof (zlen_fblk d _ Hd Hbi) as L2.
  destruct (bgd_blk_with_ok d g (k_set K (bgd_at d g) c) Hd Hin) as [L3 _].
  rewrite S4, S3, S2, S1. apply zat_ext.
  - rewrite !zlen_splice; rewrite ?zlen_splice, ?zlen_splice; rewrite ?zlen_splice; rewrite ?zlen_splice; lia.
  - intros k _. rewrite !zat_splice by (rewrite ?zlen_splice; rewrite ?zlen_splice; rewrite ?zlen_splice; lia).
    rewrite L1, L2, L3, Hbm. unfold fblk. rewrite !zat_sub by lia.
    repeat case_decide; try lia; try done; f_equal; lia.
Qed.
(** [d'] is [d] with the free entry [i] of group [g] taken: the least free one of
    its group; its bit and the group's counter change and nothing else does. *)
Record allocated (G : Z) d d' (g i : Z) : Prop := {
  al_ok : disk_ok d';
  al_layout : layout G d';
  al_index : 0 ≤ i < 8 * bs;
  al_free : used d g i = false;
  al_least j : 0 ≤ j < i → used d g j = true;
  al_used g' j : 0 ≤ g' < G → 0 ≤ j →
    used d' g' j = if decide (g' = g ∧ j = i) then true else used d g' j;
  al_bgd g' : 0 ≤ g' < G →
    bgd_at d' g' = if decide (g' = g) then k_set K (bgd_at d g) (k_count K (bgd_at d g) - 1) else bgd_at d g';
  al_others m : in_fs m → m ≠ bgd_block_of g → m ≠ bitmap_of d g → fblk d' m = fblk d m;
}.

(** The free counters do not promise entries that are not there. *)
Definition counters_ok (G : Z) d : Prop :=
  ∀ g, 0 ≤ g < G → k_count K (bgd_at d g) ≠ 0 → ∃ i, 0 ≤ i < 8 * bs ∧ used d g i = false.

Lemma same_views d d0 :
  same_bytes d d0 → (∀ n, fblk d0 n = fblk d n) ∧ (∀ g, bgd_at d0 g = bgd_at d g) ∧
  (∀ g, bitmap_of d0 g = bitmap_of d g) ∧ (∀ g i, used d0 g i = used d g i).
Proof. intros Hs. unfold used, bitmap_of, bgd_at, bgd_raw, fblk. by rewrite Hs. Qed.

Lemma layout_same G d d0 : same_bytes d d0 → layout G d → layout G d0.
Proof.
  intros (_ & _ & Hb & _)%same_views [L1 L2 L3 L4].
  split; [done|..]; intros *; rewrite ?Hb; auto.
Qed.

Lemma allocated_same G d d0 d' g i : same_bytes d d0 → allocated G d0 d' g i → allocated G d d' g i.
Proof.
  intros (Hf & Hbg & Hbm & Hu)%same_views [? ? ? Hfr Hle Hus Hb Ho].
  split; try done; [by rewrite <-Hu|intros *; rewrite <-Hu; auto|..].
  - intros *. rewrite <-Hu. auto.
  - intros *. rewrite <-!Hbg. auto.
  - intros m. rewrite <-Hbm, <-Hf. auto.
Qed.

Lemma alloc_in_allocated G d g :
  disk_ok d → layout G d → 0 ≤ g < G → counters_ok G d → k_count K (bgd_at d g) ≠ 0 →
  ∃ i d', alloc_in K g d = Ok (Some (k_base K + i + g * k_per K), d') ∧ allocated G d d' g i.
Proof.
  intros Hd HL Hg Hco Hc. pose proof (lay_bgd _ _ HL _ Hg) as Hin. pose proof (lay_bitmap _ _ HL _ Hg) as Hbi.
  pose proof (ko_range _ HK _ (bgd_at_fits d g Hd Hin)) as Hrange.
  destruct (alloc_in_cases G d g) as (r & Hr & Hcase); [done..|].
  destruct (Hco g Hg Hc) as (j & Hj & Hfree).
  destruct r as [i|]; [|by rewrite (Hr j Hj) in Hfree].
  destruct Hcase as (d' & bm & E & Ebm & Hset). destruct Hr as (Hi & Hif & Hil).
  pose proof (zlen_fblk d _ Hd Hbi) as Hlen. pose proof (fblk_bytes d (bitmap_of d g) Hd) as Hby.
  destruct (@set_bit_spec FsError (fblk d (bitmap_of d g)) i) as (bm' & Ebm' & Hbl & Hbb & Hbits); [lia|lia|done|].
  assert (bm' = bm) as -> by congruence. assert (zlen bm = bs) as Hbs by lia.
  exists i, d'. split; [done|].
  assert (0 ≤ k_count K (bgd_at d g) - 1 ≤ u16_max) as Hc' by lia.
  split; [by eapply group_set_ok| |done|done|done|..].
  - by eapply group_set_layout.
  - intros g' k Hg' Hk. rewrite (group_set_used G d d' g _ bm Hd HL Hg Hc' Hbs Hset) by done.
    destruct (decide (g' = g)) as [->|]; [|by rewrite decide_False by naive_solver].
    rewrite Hbits by done. destruct (decide (k = i)); [by rewrite decide_True|by rewrite decide_False by naive_solver].
  - by apply (group_set_bgd G d d' g _ bm).
  - intros m Hm Hm1 Hm2. rewrite (group_set_fblk G d d' g _ bm Hd HL Hg Hbs Hset) by done.
    by rewrite !decide_False.
Qed.

Lemma group_loop_spec G d d0 n g0 pref :
  disk_ok d → layout G d → counters_ok G d → same_bytes d d0 → disk_ok d0 →
  0 ≤ g0 → g0 + Z.of_nat n ≤ G →
  (∃ g i d', 0 ≤ g < G ∧ group_loop n g0 pref (alloc_in K) d0 = Ok (k_base K + i + g * k_per K, d') ∧
     allocated G d d' g i) ∨
  (∃ d', group_loop n g0 pref (alloc_in K) d0 = Err (FsError.NoSpace, d') ∧ disk_ok d' ∧ same_bytes d d' ∧
     ∀ g, g0 ≤ g < g0 + Z.of_nat n → g ≠ pref → k_count K (bgd_at d g) = 0).
Proof.
  intros Hd HL Hco. revert d0 g0. induction n as [|n IH]; intros d0 g0 Hs Hd0 Hg0 Hn; cbn [group_loop].
  { right. exists d0. split_and!; [done..|]. intros; lia. }
  assert (∀ d1, same_bytes d d1 → disk_ok d1 → (g0 = pref ∨ k_count K (bgd_at d g0) = 0) → 
    (∃ g i d', 0 ≤ g < G ∧ group_loop n (g0 + 1) pref (alloc_in K) d1 = Ok (k_base K + i + g * k_per K, d') ∧
       allocated G d d' g i) ∨
    (∃ d', group_loop n (g0 + 1) pref (alloc_in K) d1 = Err (FsError.NoSpace, d') ∧ disk_ok d' ∧ same_bytes d d' ∧
       ∀ g, g0 ≤ g < g0 + Z.of_nat (S n) → g ≠ pref → k_count K (bgd_at d g) = 0)) as Hnext.
  { intros d1 Hs1 Hd1 Hz. destruct (IH d1 (g0 + 1)) as [?|(d' & E & ? & ? & Hall)]; [done|done|lia|lia|by left|].
    right. exists d'. split_and!; [done..|]. intros g Hg Hp.
    destruct (decide (g = g0)) as [->|]; [naive_solver|apply Hall; [lia|done]]. }
  zcase; [by apply Hnext; [..|left]|].
  destruct (same_views d d0 Hs) as (_ & Hbg & _).
  destruct (decide (k_count K (bgd_at d g0) = 0)) as [Hz|Hz].
  - destruct (alloc_in_none d0 g0) as (d1 & E1 & Hd1 & Hs1); [done|apply (lay_bgd _ _ HL); lia|by rewrite Hbg|].
    rewrite (mbind_ok _ _ _ _ _ E1). apply Hnext; [|done|by right]. unfold same_bytes in *. congruence.
  - left. destruct (alloc_in_allocated G d0 g0) as (i & d' & E & Hal); [done|by eapply layout_same|lia|..].
    + intros g Hg. destruct (same_views d d0 Hs) as (_ & _ & _ & Hu). rewrite Hbg. setoid_rewrite Hu. by apply Hco.
    + by rewrite Hbg.
    + rewrite (mbind_ok _ _ _ _ _ E). exists g0, i, d'. split_and!; [lia|lia|done|by eapply allocated_same].
Qed.

Lemma alloc_any_spec G d pref total :
  disk_ok d → layout G d → counters_ok G d → 0 ≤ pref < G → 0 < k_per K → 0 ≤ total / k_per K ≤ G →
  let run := (let! r := alloc_in K pref in
              match r with
              | Some b => mret b
              | None => let! groups := mlift (udiv total (k_per K)) in
                        group_loop (Z.to_nat groups) 0 pref (alloc_in K)
              end) in
  (∃ g i d', 0 ≤ g < G ∧ run d = Ok (k_base K + i + g * k_per K, d') ∧ allocated G d d' g i) ∨
  (∃ d', run d = Err (FsError.NoSpace, d') ∧ disk_ok d' ∧ same_bytes d d' ∧
     ∀ g, g = pref ∨ 0 ≤ g < total / k_per K → k_count K (bgd_at d g) = 0).
Proof.
  intros Hd HL Hco Hp Hper Htot run. unfold run.
  destruct (decide (k_count K (bgd_at d pref) = 0)) as [Hz|Hz].
  - destruct (alloc_in_none d pref) as (d1 & E1 & Hd1 & Hs1); [done|by apply (lay_bgd _ _ HL)|done|].
    rewrite (mbind_ok _ _ _ _ _ E1), (mbind_ok _ _ _ (total / k_per K) d1)
      by (apply mlift_ok; by rewrite udiv_ok by lia).
    destruct (group_loop_spec G d d1 (Z.to_nat (total / k_per K)) 0 pref)
      as [?|(d' & E & ? & ? & Hall)]; [done..|lia|by left|].
    right. exists d'. split_and!; [done..|]. intros g [->|Hg]; [done|].
    destruct (decide (g = pref)) as [->|]; [done|]. apply Hall; [lia|done].
  - destruct (alloc_in_allocated G d pref) as (i & d' & E & Hal); [done..|].
    left. exists pref, i, d'. rewrite (mbind_ok _ _ _ _ _ E). split_and!; [lia|lia|done|done].
Qed.
End kind.
End blocks.

(** ** Correctness of the allocators *)

(** Block allocation.  With descriptors and bitmaps in place and honest free
    counters, [alloc_block] either returns the number of a block that was free,
    the least free one of its group, marks exactly it used, decrements exactly
    its group's counter and touches no other block of the disk; or reports
    [NoSpace] with the disk unchanged, and then the preferred group and every
    group below [blocks_count / blocks_per_group] has none left. *)
Lemma alloc_block_correct D `{BlockDeviceSpec D} fs G d pref :
  disk_ok fs d → layout fs (blockK fs) G d → counters_ok fs (blockK fs) G d → 0 ≤ pref < G →
  0 < blocks_per_group (superblock fs) →
  0 ≤ blocks_count (superblock fs) / blocks_per_group (superblock fs) ≤ G →
  (∃ g i d', 0 ≤ g < G ∧
     alloc_block fs pref d =
       Ok (first_data_block (superblock fs) + i + g * blocks_per_group (superblock fs), d') ∧
     allocated fs (blockK fs) G d d' g i) ∨
  (∃ d', alloc_block fs pref d = Err (FsError.NoSpace, d') ∧ bd_bytes d' = bd_bytes d ∧
     ∀ g, g = pref ∨ 0 ≤ g < blocks_count (superblock fs) / blocks_per_group (superblock fs) →
       free_blocks_count (bgd_at fs d g) = 0).
Proof.
  intros Hd HL Hco Hp Hper Htot.
  destruct (alloc_any_spec fs (blockK fs) (blockK_ok fs) G d pref (blocks_count (superblock fs)))
    as [?|(d' & ? & _ & ? & ?)]; [done..|by left|right]. by exists d'.
Qed.

(** Inode allocation, likewise. *)
Lemma alloc_inode_correct D `{BlockDeviceSpec D} fs G d pref :
  disk_ok fs d → layout fs (inodeK fs) G d → counters_ok fs (inodeK fs) G d → 0 ≤ pref < G →
  0 < inodes_per_group (superblock fs) →
  0 ≤ inodes_count (superblock fs) / inodes_per_group (superblock fs) ≤ G →
  (∃ g i d', 0 ≤ g < G ∧
     alloc_inode fs pref d = Ok (1 + i + g * inodes_per_group (superblock fs), d') ∧
     allocated fs (inodeK fs) G d d' g i) ∨
  (∃ d', alloc_inode fs pref d = Err (FsError.NoSpace, d') ∧ bd_bytes d' = bd_bytes d ∧
     ∀ g, g = pref ∨ 0 ≤ g < inodes_count (superblock fs) / inodes_per_group (superblock fs) →
       free_inodes_count (bgd_at fs d g) = 0).
Proof.
  intros Hd HL Hco Hp Hper Htot.
  destruct (alloc_any_spec fs (inodeK fs) (inodeK_ok fs) G d pref (inodes_count (superblock fs)))
    as [?|(d' & ? & _ & ? & ?)]; [done..|by left|right]. by exists d'.
Qed.

(** Entries past the end of a group are marked used. *)
Definition padding_ok {D} `{BlockDeviceSpec D} (fs : Ext2) (K : Kind) (G : Z) (d : D) : Prop :=
  ∀ g i, 0 ≤ g < G → k_per K ≤ i < 8 * fs_block_size fs → used fs K d g i = true.

Lemma alloc_dealloc D `{BlockDeviceSpec D} fs K G d g :
  kind_ok K → disk_ok fs d → layout fs K G d → counters_ok fs K G d → padding_ok fs K G d →
  0 ≤ g < G → 0 ≤ k_base K → k_count K (bgd_at fs d g) ≠ 0 →
  ∃ n d1 d2, alloc_in fs K g d = Ok (Some n, d1) ∧ dealloc_in fs K n d1 = Ok (tt, d2) ∧
    bd_bytes d2 = bd_bytes d.
Proof.
  intros HK Hd HL Hco Hpad Hg Hbase Hc.
  pose proof (lay_bgd _ _ _ _ HL _ Hg) as Hin. pose proof (lay_bitmap _ _ _ _ HL _ Hg) as Hbi.
  pose proof (ko_range _ HK _ (bgd_at_fits fs d g Hd Hin)) as Hrange.
  destruct (alloc_in_cases fs K HK G d g) as (r & Hr & Hcase); [done..|].
  destruct (Hco g Hg Hc) as (j & Hj & Hfree).
  destruct r as [i|]; [|by rewrite (Hr j Hj) in Hfree].
  destruct Hcase as (d1 & bm & E1 & Ebm & Hset). destruct Hr as (Hi & Hif & _).
  pose proof (zlen_fblk fs d _ Hd Hbi) as Hlen. pose proof (fblk_bytes fs d (bitmap_of fs K d g) Hd) as Hby.
  destruct (@set_bit_spec FsError (fblk fs d (bitmap_of fs K d g)) i) as (bm' & Ebm' & Hbl & Hbb & _); [lia|lia|done|].
  assert (bm' = bm) as -> by congruence. assert (zlen bm = fs_block_size fs) as Hbs by lia.
  assert (0 ≤ k_count K (bgd_at fs d g) - 1 ≤ u16_max) as Hc' by lia.
  assert (i < k_per K).
  { destruct (decide (i < k_per K)); [done|]. rewrite Hpad in Hif by lia. done. }
  assert (bgd_at fs d1 g = k_set K (bgd_at fs d g) (k_count K (bgd_at fs d g) - 1)) as Eb.
  { by rewrite (group_set_bgd fs K HK G d d1 g (k_count K (bgd_at fs d g) - 1) bm), decide_True. }
  destruct (dealloc_in_spec fs K HK G d1 g i (fblk fs d (bitmap_of fs K d g))) as (d2 & E2 & Hset2);
    [by eapply group_set_ok|by eapply group_set_layout|done|lia|done|rewrite Eb, (ko_count _ HK); lia| |done|done|].
  { rewrite (group_set_bitmap fs K HK G d d1 g (k_count K (bgd_at fs d g) - 1) bm) by done.
    rewrite (group_set_fblk fs K G d d1 g (k_count K (bgd_at fs d g) - 1) bm), decide_True by done. eapply clear_set_bit; try done; lia. }
  exists (k_base K + i + g * k_per K), d1, d2. split_and!; [done..|].
  rewrite Eb, (ko_count _ HK) in Hset2.
  replace (k_count K (bgd_at fs d g) - 1 + 1) with (k_count K (bgd_at fs d g)) in Hset2 by lia.
  by eapply group_set_restore.
Qed.

(** Releasing what was just allocated restores the disk byte for byte, for
    blocks and for inodes. *)
Lemma alloc_dealloc_roundtrip D `{BlockDeviceSpec D} fs G d pref :
  disk_ok fs d → 0 ≤ pref < G → 0 ≤ first_data_block (superblock fs) →
  (layout fs (blockK fs) G d → counters_ok fs (blockK fs) G d → padding_ok fs (blockK fs) G d →
   free_blocks_count (bgd_at fs d pref) ≠ 0 →
   ∃ n d1 d2, alloc_block fs pref d = Ok (n, d1) ∧ dealloc_block fs n d1 = Ok (tt, d2) ∧
     bd_bytes d2 = bd_bytes d) ∧
  (layout fs (inodeK fs) G d → counters_ok fs (inodeK fs) G d → padding_ok fs (inodeK fs) G d →
   free_inodes_count (bgd_at fs d pref) ≠ 0 →
   ∃ n d1 d2, alloc_inode fs pref d = Ok (n, d1) ∧ dealloc_inode fs n d1 = Ok (tt, d2) ∧
     bd_bytes d2 = bd_bytes d).
Proof.
  intros Hd Hp Hfd. split; intros HL Hco Hpad Hc.
  - destruct (alloc_dealloc D fs (blockK fs) G d pref) as (n & d1 & d2 & E1 & E2 & Eb); [apply blockK_ok|done..|].
    exists n, d1, d2. split_and!; [|done|done]. unfold alloc_block.
    by rewrite alloc_block_in, (mbind_ok _ _ _ _ _ E1).
  - destruct (alloc_dealloc D fs (inodeK fs) G d pref) as (n & d1 & d2 & E1 & E2 & Eb);
      [apply inodeK_ok|done..|simpl; lia|done|].
    exists n, d1, d2. split_and!; [|done|done]. unfold alloc_inode.
    by rewrite alloc_inode_in, (mbind_ok _ _ _ _ _ E1).
Qed.

(** [first_zero_in_bitmap] skips whole words and bytes but finds the least
    zero bit of the block, and [None] only when there is none. *)
Lemma first_zero_correct fs bm :
  1024 ≤ fs_block_size fs → (1024 | fs_block_size fs) → zlen bm = fs_block_size fs → Forall is_byte bm →
  ∃ r, @first_zero_in_bitmap FsError fs bm = Ok r ∧
    match r with
    | Some i => 0 ≤ i < 8 * zlen bm ∧ bit bm i = false ∧ ∀ j, 0 ≤ j < i → bit bm j = true
    | None => ∀ j, 0 ≤ j < 8 * zlen bm → bit bm j = true
    end.
Proof.
  intros Hb [q Hq] Hl Hby. unfold first_zero_in_bitmap.
  assert (fs_block_size fs / 8 = q * 128) as ->.
  { rewrite Hq. replace (q * 1024) with (q * 128 * 8) by lia. by apply Z.div_mul. }
  destruct (@chunk_loop_spec FsError (Z.to_nat (q * 128)) bm 0) as (r & Er & Hr); [done|lia|lia|].
  exists r. split; [done|]. by replace (8 * zlen bm) with (64 * (0 + Z.of_nat (Z.to_nat (q * 128)))) by lia.
Qed.

(** An inode written to the disk and read back is the same inode, and the
    bytes of an inode table entry survive being read and written. *)
Lemma inode_roundtrip :
  (∀ d rest, Forall2 fits inode_widths (inode_fields d) → length (block d) = 15%nat →
     length (osd2 d) = 12%nat →
     INodeData_of (decode inode_widths (encode inode_widths (inode_fields d) ++ rest)) = d) ∧
  (∀ raw, Forall is_byte raw → length raw = 128%nat →
     encode inode_widths (inode_fields (INodeData_of (decode inode_widths raw))) = raw).
Proof.
  split.
  - intros d rest Hf Hb Ho. rewrite decode_encode by done.
    destruct d as [? ? ? ? ? ? ? ? ? ? ? ? bl ? ? ? ? o2]. simpl in *.
    do 16 (destruct bl as [|? bl]; try done). do 13 (destruct o2 as [|? o2]; try done).
  - intros raw Hby Hl.
    assert (inode_fields (INodeData_of (decode inode_widths raw)) = decode inode_widths raw) as ->.
    { pose proof (length_decode inode_widths raw) as Hlen. revert Hlen. generalize (decode inode_widths raw) as f.
      change (length inode_widths) with 43%nat. intros f Hlen. do 44 (destruct f as [|? f]; try done). }
    rewrite encode_decode; [|done|by rewrite Hl]. apply take_ge. by rewrite Hl.
Qed.

(** ** A small file system

    Sixteen blocks of 1024 bytes in one group: superblock, descriptors, block
    bitmap, inode bitmap, two blocks of inode table, data. *)

Definition block_with (l : list Z) : list Z := l ++ zrep (1024 - zlen l) 0.

Definition demo_super : list Z :=
  [16; 16; 0; 0; 0; 1; 0; 0; 8192; 8192; 16; 0; 0] ++ [0; 0; 0xEF53; 0; 0; 0] ++ [0; 0; 0; 1] ++ [0; 0; 11; 128].

Definition demo_image : list Z :=
  zrep 1024 0 ++
  block_with (encode superblock_widths demo_super) ++
  block_with (encode bgd_widths [3; 4; 5; 5; 4; 0]) ++
  ([0xff; 0x83] ++ zrep 1022 0xff) ++
  ([0xff; 0x0f] ++ zrep 1022 0xff) ++
  zrep (11 * 1024) 0.

Abbreviation DemoDev := (VirtIOBlkDiskDriver MemDisk).
Definition demo_dev : DemoDev := virtio_new (mkMem demo_image).
Definition demo_fs : Ext2 := mkExt2 1024 (Superblock_of demo_super).

(** Mounting finds it behind a device without a file system. *)
Lemma demo_mount :
  new_from_block_devices [virtio_new (mkMem (zrep 4096 0)); demo_dev] = Ok (1, demo_fs).
Proof. vm_compute. reflexivity. Qed.

Definition byteb (b : Z) : bool := (0 <=? b) && (b <? 256).

Lemma bytes_check l : forallb byteb l = true → Forall is_byte l.
Proof.
  rewrite forallb_forall, Forall_forall. intros Hl x Hx%list_elem_of_In. apply Hl in Hx.
  unfold byteb, is_byte in *. lia.
Qed.

Lemma demo_disk_fs : disk_ok demo_fs demo_dev.
Proof.
  split.
  - vm_compute. by repeat split.
  - apply bytes_check. vm_compute. reflexivity.
  - apply Z.leb_le. vm_compute. reflexivity.
  - apply Z.leb_le. vm_compute. reflexivity.
  - done.
  - by exists 1.
Qed.

Lemma demo_layout K : k_bitmap K (bgd_at demo_fs demo_dev 0) ∈ [3; 4] → layout demo_fs K 1 demo_dev.
Proof.
  intros Hb.
  assert (bgd_block_of demo_fs 0 = 2) as Hbgd by done.
  assert (∀ b, b ∈ [3; 4] → in_fs demo_fs b ∧ b ≠ 2) as Hr.
  { intros b Hb'. unfold in_fs. simpl. set_solver by lia. }
  split; intros g; [|..|intros g' ?? _; lia]; unfold bitmap_of.
  - intros ?. assert (g = 0) as -> by lia. done.
  - intros ?. assert (g = 0) as -> by lia. by apply Hr.
  - intros g' ??. assert (g = 0) as -> by lia. assert (g' = 0) as -> by lia. rewrite Hbgd. by apply Hr.
Qed.

Lemma demo_blocks :
  layout demo_fs (blockK demo_fs) 1 demo_dev ∧ counters_ok demo_fs (blockK demo_fs) 1 demo_dev ∧
  padding_ok demo_fs (blockK demo_fs) 1 demo_dev.
Proof.
  assert (bgd_at demo_fs demo_dev 0 = mkBgd 3 4 5 5 4 0) as Hb by (vm_compute; reflexivity).
  split_and!.
  - apply demo_layout. rewrite Hb. apply list_elem_of_here.
  - intros g ? _. assert (g = 0) as -> by lia. exists 10.
    change (fs_block_size demo_fs) with 1024. split; [lia|]. vm_compute. reflexivity.
  - intros g i ? Hi. change (k_per (blockK demo_fs)) with 8192 in Hi.
    change (fs_block_size demo_fs) with 1024 in Hi. lia.
Qed.

Lemma demo_inodes :
  layout demo_fs (inodeK demo_fs) 1 demo_dev ∧ counters_ok demo_fs (inodeK demo_fs) 1 demo_dev ∧
  padding_ok demo_fs (inodeK demo_fs) 1 demo_dev.
Proof.
  assert (bgd_at demo_fs demo_dev 0 = mkBgd 3 4 5 5 4 0) as Hb by (vm_compute; reflexivity).
  split_and!.
  - apply demo_layout. rewrite Hb. apply list_elem_of_further, list_elem_of_here.
  - intros g ? _. assert (g = 0) as -> by lia. exists 12.
    change (fs_block_size demo_fs) with 1024. split; [lia|]. vm_compute. reflexivity.
  - intros g i ? Hi. assert (g = 0) as -> by lia. change (k_per (inodeK demo_fs)) with 16 in Hi.
    change (fs_block_size demo_fs) with 1024 in Hi. unfold used, bitmap_of. rewrite Hb.
    assert (fblk demo_fs demo_dev 4 = [0xff; 0x0f] ++ zrep 1022 0xff) as Hblk by (vm_compute; reflexivity).
    simpl k_bitmap. rewrite Hblk. unfold bit. destruct (bit_index i) as (? & ? & ?); [lia|].
    assert (zat ([0xff; 0x0f] ++ zrep 1022 0xff) (i / 8) = Some 0xff) as ->; [|exact (byte_ff _ (Z.mod_pos_bound i 8 eq_refl))].
    unfold zat. destruct (Z.ltb_spec (i / 8) 0); [lia|].
    rewrite lookup_app_r by (cbn [length]; lia). apply lookup_replicate.
    cbn [length]. split; [reflexivity|lia].
Qed.

Lemma alloc_block_witness :
  ∃ g i d', alloc_block demo_fs 0 demo_dev = Ok (11, d') ∧
    allocated demo_fs (blockK demo_fs) 1 demo_dev d' g i.
Proof.
  destruct demo_blocks as (HL & Hco & _).
  destruct (alloc_block_correct DemoDev demo_fs 1 demo_dev 0 demo_disk_fs HL Hco)
    as [(g & i & d' & _ & E & Hal)|(d' & E & _)].
  - lia.
  - done.
  - split; apply Z.leb_le; reflexivity.
  - exists g, i, d'. split; [|exact Hal]. rewrite E. f_equal. f_equal.
    assert (∃ d'', alloc_block demo_fs 0 demo_dev = Ok (11, d'')) as [d'' E'] by (eexists; vm_compute; reflexivity).
    congruence.
  - assert (∃ d'', alloc_block demo_fs 0 demo_dev = Ok (11, d'')) as [d'' E'] by (eexists; vm_compute; reflexivity).
    congruence.
Defined.

Lemma alloc_inode_witness :
  ∃ g i d', alloc_inode demo_fs 0 demo_dev = Ok (13, d') ∧
    allocated demo_fs (inodeK demo_fs) 1 demo_dev d' g i.
Proof.
  destruct demo_inodes as (HL & Hco & _).
  assert (∃ d'', alloc_inode demo_fs 0 demo_dev = Ok (13, d'')) as [d'' E'] by (eexists; vm_compute; reflexivity).
  destruct (alloc_inode_correct DemoDev demo_fs 1 demo_dev 0 demo_disk_fs HL Hco)
    as [(g & i & d' & _ & E & Hal)|(d' & E & _)].
  - lia.
  - done.
  - split; apply Z.leb_le; reflexivity.
  - exists g, i, d'. split; [congruence|exact Hal].
  - congruence.
Defined.

Lemma alloc_dealloc_witness :
  ∃ n d1 d2, alloc_block demo_fs 0 demo_dev = Ok (n, d1) ∧ dealloc_block demo_fs n d1 = Ok (tt, d2) ∧
    bd_bytes d2 = bd_bytes demo_dev.
Proof.
  destruct demo_blocks as (HL & Hco & Hpad).
  apply (alloc_dealloc_roundtrip DemoDev demo_fs 1 demo_dev 0 demo_disk_fs); try assumption; try lia.
  - done.
  - vm_compute. discriminate.
Defined.

Lemma first_zero_witness :
  ∃ r, @first_zero_in_bitmap FsError demo_fs ([0xff; 0x83] ++ zrep 1022 0xff) = Ok r ∧ r = Some 10.
Proof.
  destruct (first_zero_correct demo_fs ([0xff; 0x83] ++ zrep 1022 0xff)) as (r & E & _).
  - done.
  - by exists 1.
  - vm_compute. reflexivity.
  - apply bytes_check. vm_compute. reflexivity.
  - exists r. split; [exact E|]. vm_compute in E. congruence.
Defined.
