(* ===== verification/Ext2File.v ===== *)
(** * ext2 files and directories (src/fs/ext2.rs, [impl FNode])

    An [FNode] is an inode behind a lock, and the file system it is on.  Its
    operations run in the state of the device and of the inode, so that what
    an operation did to either before failing is kept.  Names are the bytes of
    Rust's [&str]. *)

From S2P Require Import Prelude Bytes BlockDevice FsTypes Ext2.

Definition from_utf8 {E} (l : list Z) : res E (list Z) :=
  if utf8_valid l then Ok l else Panic.

Definition next_multiple_of (a n : Z) : Z := (a + n - 1) / n * n.

(** ** The block tree *)

(** [FNode::block_tree_indices]: the path to block [block_number] of a file and
    its length; [usize] arithmetic that cannot overflow for a block size. *)
Definition block_tree_indices (bs block_number : Z) : list Z * nat :=
  if block_number <? 12 then ([block_number; 0; 0; 0], 1%nat)
  else
    let bpb := bs / 4 in
    let block_number := block_number - 12 in
    if block_number <? bpb then ([12; block_number; 0; 0], 2%nat)
    else
      let block_number := block_number - bpb in
      if block_number <? bpb * bpb
      then ([13; block_number / bpb; block_number mod bpb; 0], 3%nat)
      else
        let block_number := block_number - bpb * bpb in
        ([14; block_number / (bpb * bpb); block_number / bpb mod bpb; block_number mod (bpb * bpb)], 4%nat).

Definition set_data (d : INodeData) (new_size : Z) (new_block : list Z) : INodeData :=
  mkINodeData (mode d) (uid d) new_size (atime d) (ctime d) (mtime d) (dtime d) (gid d) (links_count d)
    (blocks d) (flags d) (osd1 d) new_block (generation d) (file_acl d) (dir_acl d) (faddr d) (osd2 d).

Section fnode.
Context {D : Type} `{BlockDevice D} (fs : Ext2).
Abbreviation bs := (fs_block_size fs).
Abbreviation FN := (D * INode)%type.
Abbreviation NOp A := (M FN FsError A).

(** An operation of the file system, from inside a file. *)
Definition on_fs {A} (m : M D FsError A) : NOp A :=
  λ '(d, ino), match m d with
               | Ok (a, d') => Ok (a, (d', ino))
               | Err (e, d') => Err (e, (d', ino))
               | Panic => Panic
               end.

Definition the_inode : NOp INode := λ s, Ok (s.2, s).
Definition set_inode (ino : INode) : NOp unit := λ s, Ok (tt, (s.1, ino)).

(** [for i in 1..depth] of [block_tree]: [tree] has the entries found so far. *)
Fixpoint tree_loop (n : nat) (i : nat) (indices tree : list Z) : NOp (list Z) :=
  match n with
  | O => mret tree
  | S n =>
      let! prev := mlift (unwrap (tree !! (i - 1)%nat)) in
      if prev =? 0 then mret tree
      else
        let! buf := on_fs (Ext2.read_block fs prev (scratch fs)) in
        let! index := mlift (unwrap (indices !! i)) in
        let start := index * 4 in
        let! next_bn := mlift (get_le 4 buf start) in
        tree_loop n (S i) indices (<[i := next_bn]> tree)
  end.

Definition block_tree (block_number : Z) : NOp (list Z * list Z * nat) :=
  let '(indices, depth) := block_tree_indices bs block_number in
  let! inode := the_inode in
  let! i0 := mlift (unwrap (indices !! 0%nat)) in
  let! b0 := mlift (unwrap (zat (block (data inode)) i0)) in
  let! tree := tree_loop (depth - 1) 1 indices [b0; 0; 0; 0] in
  mret (tree, indices, depth).

(** [FNode::read_block] *)
Definition read_block (block_number : Z) (buffer : list Z) : NOp (list Z) :=
  let! p := block_tree block_number in
  let '(tree, _, sz) := p in
  let! b := mlift (unwrap (tree !! (sz - 1)%nat)) in
  if b =? 0 then mlift (copy_at buffer 0 bs (zrep bs 0))
  else on_fs (Ext2.read_block fs b buffer).

Definition update_inode (new : INode) : NOp unit :=
  let! old := the_inode in
  let! p := on_fs (get_ext2_inode fs (wrap 32 (number old))) in
  let '(_, (inode_block, inode_offset), buf) := p in
  let! buf := mlift (write_struct inode_widths buf inode_offset (inode_fields (data new))) in
  let! _ := on_fs (Ext2.write_block fs inode_block buf) in
  set_inode new.

(** One turn of [for i in 0..size] of [write_block]. *)
Definition tree_fill (i : nat) (indices : list Z) (new_size : option Z) (preferred_group : Z)
    (tree : list Z) : NOp (list Z) :=
  let! t := mlift (unwrap (tree !! i)) in
  if negb ((t =? 0) || bool_decide (i = 0%nat) && bool_decide (new_size ≠ None)) then mret tree
  else
    let! t := on_fs (alloc_block fs preferred_group) in
    let tree := <[i := t]> tree in
    let! index := mlift (unwrap (indices !! i)) in
    if decide (i = 0%nat) then
      let! inode := the_inode in
      let new_size := match new_size with Some s => wrap 32 s | None => size (data inode) end in
      let! new_array := mlift (copy_at (block (data inode)) index (index + 1) [wrap 32 t]) in
      let! _ := update_inode (mkINode (number inode) (set_data (data inode) new_size new_array) true) in
      mret tree
    else
      let! buf := mlift (put_le 4 (zrep bs 0) (index * 4) (wrap 32 t)) in
      let! parent := mlift (unwrap (tree !! (i - 1)%nat)) in
      let! _ := on_fs (Ext2.write_block fs parent buf) in
      mret tree.

Fixpoint fill_loop (n i : nat) (indices : list Z) (new_size : option Z) (preferred_group : Z)
    (tree : list Z) : NOp (list Z) :=
  match n with
  | O => mret tree
  | S n =>
      let! tree := tree_fill i indices new_size preferred_group tree in
      fill_loop n (S i) indices new_size preferred_group tree
  end.

(** [FNode::write_block] *)
Definition write_block (block_number : Z) (buffer : list Z) (new_size : option Z) (preferred_group : Z) :
    NOp unit :=
  let! p := block_tree block_number in
  let '(tree, indices, sz) := p in
  let! tree := fill_loop sz 0 indices new_size preferred_group tree in
  let! b := mlift (unwrap (tree !! (sz - 1)%nat)) in
  on_fs (Ext2.write_block fs b buffer).

(** ** Directories *)

Definition is_directory (ino : INode) : bool := Z.land (mode (data ino)) 0xF000 =? 0x4000.

Definition entry_space (name : list Z) : Z := next_multiple_of (8 + zlen name) 4.

(** The entry at [pointer]: the buffer that holds its block (fetched unless it
    is block [last]), the block's number, the offset in it, the inode number and
    the record length. *)
Definition fetch_entry (pointer last : Z) (buffer : list Z) : NOp (list Z * Z * Z * Z * Z) :=
  let! _ := mlift (rassert (is_multiple_of pointer 4)) in
  let needed_block := pointer / bs in
  let! buffer := (if negb (needed_block =? last) then read_block needed_block buffer else mret buffer) in
  let offset := pointer mod bs in
  let! inum := mlift (get_le 4 buffer offset) in
  let! rec_len := mlift (get_le 2 buffer (offset + 4)) in
  mret (buffer, needed_block, offset, inum, rec_len).

(** The scan of [create_entry]: where the new entry fits, if anywhere. *)
Fixpoint place_loop (fuel : nat) (entry_name : list Z) (needed pointer last : Z) (buffer : list Z)
    (placement : option (Z * Z * Z)) : NOp (option (Z * Z * Z)) :=
  match fuel with
  | O => mret placement
  | S fuel =>
      let! inode := the_inode in
      if negb (pointer <? size (data inode)) then mret placement
      else
        let! p := fetch_entry pointer last buffer in
        let '(buffer, last, offset, inum, rec_len) := p in
        let! _ := mlift (rassert (0 <? rec_len)) in
        let! name_len := mlift (get_le 1 buffer (offset + 6)) in
        if negb (inum =? 0) then
          let! name := mlift (slice buffer (offset + 8) (offset + 8 + name_len)) in
          let! name := mlift (from_utf8 name) in
          if bool_decide (name = entry_name) then mfail FsError.AlreadyExists
          else
            let actually_needed := entry_space name in
            let placement := match placement with
                             | None => if needed + actually_needed <=? rec_len
                                       then Some (pointer, actually_needed, rec_len) else None
                             | Some p => Some p
                             end in
            place_loop fuel entry_name needed (pointer + rec_len) last buffer placement
        else place_loop fuel entry_name needed (pointer + rec_len) last buffer placement
  end.

(** Writing the record of a new entry into its block. *)
Definition put_entry (buffer : list Z) (offset inum rec_len : Z) (name : list Z) (file_type : Z) :
    res FsError (list Z) :=
  let? buffer := put_le 4 buffer offset inum in
  let? buffer := put_le 2 buffer (offset + 4) rec_len in
  let? buffer := put_le 1 buffer (offset + 6) (wrap 8 (zlen name)) in
  let? buffer := put_le 1 buffer (offset + 7) file_type in
  copy_at buffer (offset + 8) (offset + 8 + zlen name) name.

Definition create_entry (entry_name : list Z) (inum file_type : Z) : NOp unit :=
  if inum =? 0 then mfail FsError.InvalidInput
  else
    let! inode := the_inode in
    if negb (is_directory inode) then mfail FsError.InvalidInput
    else
      let needed := entry_space entry_name in
      let sz := size (data inode) in
      let! found := place_loop (S (Z.to_nat sz)) entry_name needed 0 1 (zrep bs 0) None in
      let '(placement, wanted_first_size, actual_first_size, new_block) :=
        match found with
        | Some (p, w, a) => (p, w, a, false)
        | None => (sz, 0, wrap 16 bs, true)
        end in
      let bn := (placement + wanted_first_size) / bs in
      let! buffer := (if negb new_block then read_block bn (zrep bs 0) else mret (zrep bs 0)) in
      let! _ := mlift (rassert (bn =? placement / bs)) in
      let offset := (placement + wanted_first_size) mod bs in
      let! rec_len := mlift (usub actual_first_size (wrap 16 wanted_first_size)) in
      let! buffer := mlift (put_entry buffer offset inum rec_len entry_name file_type) in
      let! buffer := (if negb new_block then
                        let offset := placement mod bs in
                        let! _ := mlift (rassert (0 <? wanted_first_size)) in
                        mlift (put_le 2 buffer (offset + 4) (wrap 16 wanted_first_size))
                      else mret buffer) in
      let! ideal_group := mlift (udiv (number inode - 1) (inodes_per_group (superblock fs))) in
      let new_size := if new_block then Some (sz + bs) else None in
      write_block bn buffer new_size ideal_group.

(** The scan of [search]: [None] when [fuel] turns were not enough, else the
    inode number found.  A record length of 0 keeps the loop where it is. *)
Fixpoint search_loop (fuel : nat) (file_name : list Z) (pointer last : Z) (buffer : list Z) :
    NOp (option (option Z)) :=
  match fuel with
  | O => mret None
  | S fuel =>
      let! inode := the_inode in
      if negb (pointer <? size (data inode)) then mret (Some None)
      else
        let! p := fetch_entry pointer last buffer in
        let '(buffer, last, offset, inum, rec_len) := p in
        let! name_len := mlift (get_le 1 buffer (offset + 6)) in
        if negb (inum =? 0) then
          let! name := mlift (slice buffer (offset + 8) (offset + 8 + name_len)) in
          let! name := mlift (from_utf8 name) in
          if bool_decide (name = file_name) then mret (Some (Some inum))
          else search_loop fuel file_name (pointer + rec_len) last buffer
        else search_loop fuel file_name (pointer + rec_len) last buffer
  end.

(** [FNode::search]: the inode of the entry; [None] when it does not end within
    [fuel] turns. *)
Definition search (fuel : nat) (file_name : list Z) : NOp (option INode) :=
  let! inode := the_inode in
  if negb (is_directory inode) then mfail FsError.InvalidInput
  else
    let! r := search_loop fuel file_name 0 1 (zrep bs 0) in
    match r with
    | None => mret None
    | Some None => mfail FsError.NotFound
    | Some (Some inum) =>
        let! p := on_fs (get_ext2_inode fs inum) in
        mret (Some p.1.1)
    end.

Definition get_type (ino : INode) : INodeType :=
  let t := Z.land (mode (data ino)) 0xF000 in
  if t =? 0x4000 then Directory else if t =? 0x8000 then File else OtherType.

Definition lookup (fuel : nat) (target : list Z) : NOp (option INode) :=
  let! inode := the_inode in
  if negb (bool_decide (get_type inode = Directory)) then mfail FsError.InvalidOperation
  else search fuel target.

Definition add_entry (target : list Z) (inum : Z) (inode_type : INodeType) : NOp unit :=
  let! inode := the_inode in
  if negb (bool_decide (get_type inode = Directory)) then mfail FsError.InvalidOperation
  else
    let! file_type := match inode_type with
                      | Directory => mret 2
                      | File => mret 1
                      | OtherType => mret 0
                      | _ => mfail FsError.InvalidInput
                      end in
    create_entry target (wrap 32 inum) file_type.

(** [create_child], with the new file's inode as the state its own entries are
    created in. *)
Definition new_inode (inum : Z) (inode_type : INodeType) : INode :=
  mkINode inum
    (mkINodeData (if decide (inode_type = Directory) then 0x4000 else 0x8000) 0 0 0 0 0 0 0
       (if decide (inode_type = Directory) then 2 else 1) 0 0 0 (replicate 15 0) 0 0 0 0 (replicate 12 0))
    false.

(** Run [m] on the file with inode [ino], on the same device. *)
Definition in_file {A} (ino : INode) (m : NOp A) : M FN FsError (A * INode) :=
  λ '(d, self), match m (d, ino) with
                | Ok (a, (d', ino')) => Ok ((a, ino'), (d', self))
                | Err (e, (d', _)) => Err (e, (d', self))
                | Panic => Panic
                end.

(** [if let Err(e) = m { let _ = self.fs.dealloc_inode(..); return Err(e) }] *)
Definition or_dealloc {A} (inum : Z) (m : NOp A) : NOp A :=
  λ s, match m s with
       | Err (e, s') =>
           match on_fs (dealloc_inode fs inum) s' with
           | Ok (_, s'') => Err (e, s'')
           | Err (_, s'') => Err (e, s'')
           | Panic => Panic
           end
       | r => r
       end.

Definition create_child (name : list Z) (inode_type : INodeType) : NOp INode :=
  let! inode := the_inode in
  if negb (bool_decide (get_type inode = Directory)) then mfail FsError.InvalidInput
  else
    let! file_type := match inode_type with
                      | Directory => mret 2
                      | File => mret 1
                      | _ => mfail FsError.InvalidInput
                      end in
    let! group := mlift (udiv (number inode - 1) (inodes_per_group (superblock fs))) in
    let! n := on_fs (alloc_inode fs group) in
    let inum := wrap 32 n in
    let child := new_inode inum inode_type in
    let! _ := or_dealloc inum (on_fs (write_inode_data fs child)) in
    let! _ := or_dealloc inum (create_entry name inum file_type) in
    if decide (get_type child = Directory) then
      let! p := or_dealloc inum (in_file child (create_entry [0x2e] inum file_type)) in
      let child := p.2 in
      let! self := the_inode in
      let! p := or_dealloc inum (in_file child (create_entry [0x2e; 0x2e] (wrap 32 (number self)) file_type)) in
      mret p.2
    else mret child.

(** ** File contents *)

(** The [while] of [read_unaligned]; every turn copies at least a byte. *)
Fixpoint read_loop (fuel : nat) (file_size offset total_read : Z) (buffer : list Z) : NOp (Z * list Z) :=
  match fuel with
  | O => mret (total_read, buffer)
  | S fuel =>
      if negb ((total_read <? zlen buffer) && (offset + total_read <? file_size))
      then mret (total_read, buffer)
      else
        let file_pos := offset + total_read in
        let block_number := file_pos / bs in
        let block_offset := file_pos mod bs in
        let! blk := read_block block_number (zrep bs 0) in
        let to_copy := Z.min (Z.min (zlen buffer - total_read) (bs - block_offset)) (file_size - file_pos) in
        let! src := mlift (slice blk block_offset (block_offset + to_copy)) in
        let! buffer := mlift (copy_at buffer total_read (total_read + to_copy) src) in
        read_loop fuel file_size offset (total_read + to_copy) buffer
  end.

(** [read_unaligned]: the number of bytes read and the buffer. *)
Definition read_unaligned (offset : Z) (buffer : list Z) : NOp (Z * list Z) :=
  let! inode := the_inode in
  let file_size := size (data inode) in
  if file_size <=? offset then mret (0, buffer)
  else read_loop (length buffer) file_size offset 0 buffer.

(** [read_page]: the page that was zero filled and read into. *)
Fixpoint page_loop (fuel : nat) (total_to_read offset read_so_far : Z) (page : list Z) : NOp (Z * list Z) :=
  match fuel with
  | O => mret (read_so_far, page)
  | S fuel =>
      if negb (read_so_far <? total_to_read) then mret (read_so_far, page)
      else
        let! file_pos := mlift (uadd offset read_so_far) in
        let block_number := file_pos / bs in
        let block_offset := file_pos mod bs in
        let chunk_len := Z.min (total_to_read - read_so_far) (bs - block_offset) in
        let! page :=
          (if (block_offset =? 0) && (chunk_len =? bs) then
             let! dst := mlift (slice page read_so_far (read_so_far + bs)) in
             let! blk := read_block block_number dst in
             mlift (copy_at page read_so_far (read_so_far + bs) blk)
           else
             let! blk := read_block block_number (zrep bs 0) in
             let! src := mlift (slice blk block_offset (block_offset + chunk_len)) in
             mlift (copy_at page read_so_far (read_so_far + chunk_len) src)) in
        page_loop fuel total_to_read offset (read_so_far + chunk_len) page
  end.

Definition read_page (offset : Z) : NOp (Z * list Z) :=
  let! inode := the_inode in
  let file_size := size (data inode) in
  let page := zrep PAGE_SIZE 0 in
  if file_size <=? offset then mret (0, page)
  else
    let total_to_read := Z.min PAGE_SIZE (file_size - offset) in
    page_loop (Z.to_nat PAGE_SIZE) total_to_read offset 0 page.

(** The end of a write: the inode's size grows to [end_pos] if it is smaller. *)
Definition grow_size (end_pos : Z) : NOp unit :=
  let! inode := the_inode in
  let new_size := Z.max (size (data inode)) end_pos in
  if negb (new_size =? size (data inode)) then
    update_inode (mkINode (number inode) (set_data (data inode) (wrap 32 new_size) (block (data inode))) true)
  else mret tt.

Fixpoint write_loop (fuel : nat) (offset total_written : Z) (buffer : list Z) : NOp Z :=
  match fuel with
  | O => mret total_written
  | S fuel =>
      if negb (total_written <? zlen buffer) then mret total_written
      else
        let! file_pos := mlift (uadd offset total_written) in
        let block_number := file_pos / bs in
        let block_offset := file_pos mod bs in
        let! blk := read_block block_number (zrep bs 0) in
        let to_copy := Z.min (zlen buffer - total_written) (bs - block_offset) in
        let! src := mlift (slice buffer total_written (total_written + to_copy)) in
        let! blk := mlift (copy_at blk block_offset (block_offset + to_copy) src) in
        let! _ := write_block block_number blk None 0 in
        write_loop fuel offset (total_written + to_copy) buffer
  end.

Definition write_unaligned (offset : Z) (buffer : list Z) : NOp Z :=
  let! total_written := write_loop (length buffer) offset 0 buffer in
  let! end_pos := mlift (uadd offset (zlen buffer)) in
  let! _ := grow_size end_pos in
  mret total_written.

Fixpoint write_page_loop (fuel : nat) (offset written preferred_group : Z) (page : list Z) : NOp Z :=
  match fuel with
  | O => mret written
  | S fuel =>
      if negb (written <? PAGE_SIZE) then mret written
      else
        let! file_pos := mlift (uadd offset written) in
        let block_number := file_pos / bs in
        let block_offset := file_pos mod bs in
        let chunk_len := Z.min (PAGE_SIZE - written) (bs - block_offset) in
        let! _ :=
          (if (block_offset =? 0) && (chunk_len =? bs) then
             let! src := mlift (slice page written (written + bs)) in
             write_block block_number src None preferred_group
           else
             let! blk := read_block block_number (zrep bs 0) in
             let! src := mlift (slice page written (written + chunk_len)) in
             let! blk := mlift (copy_at blk block_offset (block_offset + chunk_len) src) in
             write_block block_number blk None preferred_group) in
        write_page_loop fuel offset (written + chunk_len) preferred_group page
  end.

Definition write_page (offset : Z) (page : list Z) : NOp Z :=
  let! inode := the_inode in
  let! preferred_group := mlift (udiv (number inode - 1) (inodes_per_group (superblock fs))) in
  let! written := write_page_loop (Z.to_nat PAGE_SIZE) offset 0 preferred_group page in
  let! end_pos := mlift (uadd offset PAGE_SIZE) in
  let! _ := grow_size end_pos in
  mret written.
End fnode.

(** ** Where the blocks of a file are *)

(** Paths of up to two levels of indirection stay inside the blocks of
    pointers; [max_blocks] is the number of file blocks they reach. *)
Definition max_blocks (bs : Z) : Z := 12 + bs / 4 + bs / 4 * (bs / 4).

Lemma div4_pos bs : 1024 ≤ bs → (1024 | bs) → 256 ≤ bs / 4 ∧ bs / 4 * 4 = bs.
Proof.
  intros Hb [q ->]. replace (q * 1024) with (q * 256 * 4) by lia. rewrite Z.div_mul by lia. lia.
Qed.

(** The order of the blocks of a file in the ext2 format, [p] being the number
    of pointers in a block: the twelve direct blocks, then the blocks below
    entry 12 of the inode, then, pointer block by pointer block, those below
    entry 13.  Each is given by the entries to follow from the inode. *)
Definition file_layout (p : Z) : list (list Z) :=
  ((λ i, [i]) <$> seqZ 0 12) ++ ((λ i, [12; i]) <$> seqZ 0 p) ++
  (seqZ 0 p ≫= λ i, (λ j, [13; i; j]) <$> seqZ 0 p).

Lemma zat_fmap_seqZ {A} (f : Z → A) m i : 0 ≤ i < m → zat (f <$> seqZ 0 m) i = Some (f i).
Proof.
  intros Hi. unfold zat. zcase; [lia|]. rewrite list_lookup_fmap, lookup_seqZ_lt by lia. simpl.
  do 2 f_equal. lia.
Qed.

Lemma zat_app {A} (l k : list A) i : 0 ≤ i → zat (l ++ k) i = if decide (i < zlen l) then zat l i else zat k (i - zlen l).
Proof.
  intros Hi. unfold zat, zlen. destruct (Z.ltb_spec i 0); [lia|]. case_decide.
  - by rewrite lookup_app_l by lia.
  - rewrite lookup_app_r by lia. zcase; [lia|]. f_equal. lia.
Qed.

Lemma zlen_fmap_seqZ {A} (f : Z → A) m : 0 ≤ m → zlen (f <$> seqZ 0 m) = m.
Proof. intros. unfold zlen. rewrite length_fmap, length_seqZ. lia. Qed.

(** Element [j] of row [i] of a table read row by row. *)
Lemma zat_rows {A} (f : Z → Z → A) p m s i j :
  0 ≤ i < m → 0 ≤ j < p → zat (seqZ s m ≫= λ i, f i <$> seqZ 0 p) (i * p + j) = Some (f (s + i) j).
Proof.
  intros Hi Hj. assert (0 ≤ i) as Hi0 by lia. revert m s Hi. pattern i. apply natlike_ind; [| |done]; clear i Hi0.
  - intros m s Hi. rewrite (seqZ_cons s m), bind_cons by lia. rewrite zat_app by lia.
    rewrite zlen_fmap_seqZ, decide_True, zat_fmap_seqZ by lia. do 2 f_equal. lia.
  - intros i Hi IH m s Hm. rewrite (seqZ_cons s m), bind_cons by lia. rewrite zat_app by nia.
    rewrite zlen_fmap_seqZ, decide_False by nia. replace (Z.succ i * p + j - p) with (i * p + j) by lia.
    rewrite IH by lia. do 2 f_equal. lia.
Qed.

Section resolve.
Context {D : Type} `{BlockDeviceSpec D} (fs : Ext2).
Implicit Types (d : D) (ino : INode).
Abbreviation bs := (fs_block_size fs).

(** Entry [i] of the block of pointers [b]; block 0 is a hole. *)
Definition pointer_at d (b i : Z) : Z := if b =? 0 then 0 else le_val (sub (fblk fs d b) (i * 4) 4).

(** The blocks on the path from [b] through the entries [idx]. *)
Fixpoint follow d (b : Z) (idx : list Z) : list Z :=
  match idx with
  | [] => [b]
  | i :: idx => b :: follow d (pointer_at d b i) idx
  end.

(** The blocks on the path to block [n] of the file, the data block last. *)
Definition path d ino (n : Z) : list Z :=
  match zat (file_layout (bs / 4)) n with
  | Some (i :: idx) => follow d (default 0 (zat (block (data ino)) i)) idx
  | _ => []
  end.

Definition resolve d ino (n : Z) : Z := default 0 (last (path d ino n)).

(** Every block on the path is a hole or a block of the file system. *)
Definition path_ok d ino (n : Z) : Prop := Forall (λ b, b = 0 ∨ in_fs fs b) (path d ino n).

Definition inode_ok ino : Prop := length (block (data ino)) = 15%nat.

Lemma tree_step d ino (i : nat) n idx tree b x :
  disk_ok fs d → tree !! (i - 1)%nat = Some b → idx !! i = Some x → (0 < i < 4)%nat → length tree = 4%nat →
  0 ≤ x < bs / 4 → b = 0 ∨ in_fs fs b → 
  (b = 0 ∧ tree_loop fs (S n) i idx tree (d, ino) = Ok (tree, (d, ino))) ∨
  (b ≠ 0 ∧ ∃ d', same_bytes d d' ∧ disk_ok fs d' ∧
    tree_loop fs (S n) i idx tree (d, ino) =
    tree_loop fs n (S i) idx (<[i := pointer_at d b x]> tree) (d', ino)).
Proof.
  intros Hd Ht Hx Hi Hl Hrange Hb. cbn [tree_loop].
  rewrite (mbind_ok _ _ _ b (d, ino)) by (apply mlift_ok; by rewrite Ht).
  destruct (Z.eqb_spec b 0) as [|Hne]; [by left|right]. split; [done|]. destruct Hb as [|Hb]; [done|].
  destruct (read_block_spec fs d b (scratch fs)) as (d' & E & Hd' & Hs); [done|done|by eapply scratch_len|].
  exists d'. split_and!; [done..|].
  rewrite (mbind_ok _ _ _ (fblk fs d b) (d', ino)) by (unfold on_fs; by rewrite E).
  rewrite (mbind_ok _ _ _ x (d', ino)) by (apply mlift_ok; by rewrite Hx). cbv zeta.
  destruct (div4_pos bs) as [_ H4]; [by eapply dk_bs|by eapply dk_bs8|].
  rewrite (mbind_ok _ _ _ (pointer_at d b x) (d', ino)); [done|].
  apply mlift_ok. unfold get_le. rewrite slice_ok by (rewrite ?zlen_fblk; done || lia). cbn [rbind].
  unfold pointer_at. destruct (Z.eqb_spec b 0); [done|]. do 3 f_equal. lia.
Qed.

(** The indices of a path stay inside the inode and the blocks of pointers,
    and are those the format prescribes. *)
Lemma indices_range n :
  1024 ≤ bs → (1024 | bs) → 0 ≤ n < max_blocks bs →
  ∃ i0 i1 i2 depth, block_tree_indices bs n = ([i0; i1; i2; 0], depth) ∧ (1 ≤ depth ≤ 3)%nat ∧
    0 ≤ i0 < 15 ∧ 0 ≤ i1 < bs / 4 ∧ 0 ≤ i2 < bs / 4 ∧
    zat (file_layout (bs / 4)) n = Some (take depth [i0; i1; i2]).
Proof.
  intros Hb Hd Hn. destruct (div4_pos bs Hb Hd) as [H256 _]. unfold max_blocks in Hn.
  unfold block_tree_indices, file_layout. set (p := bs / 4) in *.
  rewrite zat_app, zlen_fmap_seqZ by lia. zcase; [|rewrite decide_False, zat_app, zlen_fmap_seqZ by lia; zcase; [|zcase]].
  - exists n, 0, 0, 1%nat. rewrite decide_True, zat_fmap_seqZ by lia. split_and!; (done || lia).
  - exists 12, (n - 12), 0, 2%nat. rewrite decide_True, zat_fmap_seqZ by lia. split_and!; (done || lia).
  - exists 13, ((n - 12 - p) / p), ((n - 12 - p) mod p), 3%nat. rewrite decide_False by lia.
    pose proof (Z.mod_pos_bound (n - 12 - p) p). pose proof (Z.div_mod (n - 12 - p) p).
    assert (0 ≤ (n - 12 - p) / p < p) by (split; [apply Z.div_pos; lia|apply Z.div_lt_upper_bound; lia]).
    pose proof (zat_rows (λ i j, [13; i; j]) p p 0 ((n - 12 - p) / p) ((n - 12 - p) mod p)) as Hz.
    replace ((n - 12 - p) / p * p + (n - 12 - p) mod p) with (n - 12 - p) in Hz by lia.
    rewrite Hz by lia. split_and!; (done || lia).
  - lia.
Qed.

Lemma path_indices n :
  1024 ≤ bs → (1024 | bs) → 0 ≤ n < max_blocks bs →
  ∃ i0 i1 i2 depth, block_tree_indices bs n = ([i0; i1; i2; 0], depth) ∧ (1 ≤ depth ≤ 3)%nat ∧
    0 ≤ i0 < 15 ∧ 0 ≤ i1 < bs / 4 ∧ 0 ≤ i2 < bs / 4 ∧
    ∀ d ino, path d ino n = let b0 := default 0 (zat (block (data ino)) i0) in
      let b1 := pointer_at d b0 i1 in take depth [b0; b1; pointer_at d b1 i2].
Proof.
  intros Hb Hd Hn. destruct (indices_range n Hb Hd Hn) as (i0 & i1 & i2 & depth & E & Hdep & ? & ? & ? & El).
  exists i0, i1, i2, depth. split_and!; try done; try lia. intros d ino. unfold path. rewrite El.
  by destruct depth as [|[|[|[|]]]]; try lia.
Qed.

Lemma block_tree_spec d ino n :
  disk_ok fs d → inode_ok ino → 0 ≤ n < max_blocks bs → path_ok d ino n →
  ∃ d' tree idx depth, block_tree fs n (d, ino) = Ok ((tree, idx, depth), (d', ino)) ∧
    same_bytes d d' ∧ disk_ok fs d' ∧ tree !! (depth - 1)%nat = Some (resolve d ino n) ∧
    take depth tree = path d ino n ∧ block_tree_indices bs n = (idx, depth) ∧ (1 ≤ depth ≤ 3)%nat.
Proof.
  intros Hd Hino Hn Hp.
  destruct (path_indices n) as (i0 & i1 & i2 & depth & Eidx & Hdep & Hi0 & Hi1 & Hi2 & Epath);
    [by eapply dk_bs|by eapply dk_bs8|done|].
  unfold path_ok, resolve in *. rewrite Epath in *. cbv zeta in *. clear Epath.
  unfold block_tree. rewrite Eidx. cbv beta iota.
  destruct (zat_is_Some (block (data ino)) i0) as [b0 Hb0]; [unfold zlen; rewrite Hino; lia|].
  rewrite Hb0 in *. change (default 0 (Some b0)) with b0 in *.
  rewrite (mbind_ok _ _ _ ino (d, ino)), (mbind_ok _ _ _ i0 (d, ino)) by done.
  rewrite (mbind_ok _ _ _ b0 (d, ino)) by (apply mlift_ok; by rewrite Hb0).
  assert (b0 = 0 ∨ in_fs fs b0) as P0.
  { destruct depth; [lia|]. simpl in Hp. by apply Forall_cons in Hp as [? _]. }
  set (b1 := pointer_at d b0 i1) in *. set (b2 := pointer_at d b1 i2) in *.
  destruct depth as [|[|[|[|]]]]; try lia; cbn [Nat.sub].
  - exists d, [b0; 0; 0; 0], [i0; i1; i2; 0], 1%nat. split_and!; (done || lia).
  - destruct (tree_step d ino 1 0 [i0; i1; i2; 0] [b0; 0; 0; 0] b0 i1) as [[-> E]|(Hne & d1 & Hs1 & Hd1 & E)];
      [done|done|done|lia|done|done|done|..]; rewrite (mbind_ok _ _ _ _ _ E).
    + exists d, [0; 0; 0; 0], [i0; i1; i2; 0], 2%nat. split_and!; (done || lia).
    + exists d1, [b0; b1; 0; 0], [i0; i1; i2; 0], 2%nat. split_and!; (done || lia).
  - assert (b1 = 0 ∨ in_fs fs b1) as P1 by (by apply Forall_cons in Hp as [_ [? _]%Forall_cons]).
    destruct (tree_step d ino 1 1 [i0; i1; i2; 0] [b0; 0; 0; 0] b0 i1) as [[-> E]|(Hne & d1 & Hs1 & Hd1 & E)];
      [done|done|done|lia|done|done|done|..].
    { rewrite (mbind_ok _ _ _ _ _ E). exists d, [0; 0; 0; 0], [i0; i1; i2; 0], 3%nat. split_and!; (done || lia). }
    fold b1 in E. cbn [insert list_insert] in E.
    destruct (tree_step d1 ino 2 0 [i0; i1; i2; 0] [b0; b1; 0; 0] b1 i2) as [[Hz E2]|(Hne2 & d2 & Hs2 & Hd2 & E2)];
      [done|done|done|lia|done|done|done|..].
    + rewrite (mbind_ok _ _ _ [b0; b1; 0; 0] (d1, ino)) by (by rewrite E).
      exists d1, [b0; b1; 0; 0], [i0; i1; i2; 0], 3%nat. subst b2. rewrite Hz. split_and!; (done || lia).
    + assert (pointer_at d1 b1 i2 = b2) as Eb2 by (unfold b2, pointer_at, fblk; by rewrite Hs1).
      rewrite Eb2 in E2.
      rewrite (mbind_ok _ _ _ [b0; b1; b2; 0] (d2, ino)) by (by rewrite E, E2).
      exists d2, [b0; b1; b2; 0], [i0; i1; i2; 0], 3%nat. split_and!; try done; [|lia..].
      unfold same_bytes in *. congruence.
Qed.
(** ** Reading *)

(** Block [n] of the file, and byte [k] of the file. *)
Definition content d ino (n : Z) : list Z :=
  if resolve d ino n =? 0 then zrep bs 0 else fblk fs d (resolve d ino n).
Definition file_byte d ino (k : Z) : Z := default 0 (zat (content d ino (k / bs)) (k mod bs)).

(** The first [n] blocks of the file can be followed. *)
Definition file_ok d ino (n : Z) : Prop :=
  inode_ok ino ∧ n ≤ max_blocks bs ∧ ∀ i, 0 ≤ i < n → path_ok d ino i.

Lemma same_follow d d' b idx : same_bytes d d' → follow d' b idx = follow d b idx.
Proof. intros Hs. revert b. induction idx; intros b; [done|]. simpl. unfold pointer_at, fblk. rewrite Hs. f_equal. auto. Qed.

Lemma same_path d d' ino n : same_bytes d d' → path d' ino n = path d ino n.
Proof. intros Hs. unfold path. destruct (zat _ n) as [[|i idx]|]; [done| |done]. by apply same_follow. Qed.

Lemma same_resolve d d' ino n : same_bytes d d' → resolve d' ino n = resolve d ino n.
Proof. intros Hs. unfold resolve. by rewrite (same_path d d'). Qed.

Lemma same_content d d' ino n : same_bytes d d' → content d' ino n = content d ino n.
Proof. intros Hs. unfold content. by rewrite (same_resolve d d'), (fblk_same fs d d'). Qed.

Lemma same_file_byte d d' ino k : same_bytes d d' → file_byte d' ino k = file_byte d ino k.
Proof. intros Hs. unfold file_byte. by rewrite (same_content d d'). Qed.

Lemma same_file_ok d d' ino n : same_bytes d d' → file_ok d ino n → file_ok d' ino n.
Proof. intros Hs (? & ? & Hp). split_and!; [done..|]. intros i Hi. unfold path_ok. rewrite (same_path d d') by done. by apply Hp. Qed.

Lemma resolve_in_fs d ino n : path_ok d ino n → resolve d ino n = 0 ∨ in_fs fs (resolve d ino n).
Proof.
  unfold path_ok, resolve. intros Hp. destruct (last (path d ino n)) as [b|] eqn:E; [|by left].
  rewrite Forall_forall in Hp. apply Hp. by apply last_Some_elem_of.
Qed.

Lemma zlen_content d ino n : disk_ok fs d → path_ok d ino n → zlen (content d ino n) = bs.
Proof.
  intros Hd Hp. unfold content. pose proof (dk_bs fs d Hd). zcase; [by rewrite zlen_rep by lia|].
  destruct (resolve_in_fs d ino n Hp); [done|]. by apply zlen_fblk.
Qed.

Lemma fnode_read_block_spec d ino n buf :
  disk_ok fs d → inode_ok ino → 0 ≤ n < max_blocks bs → path_ok d ino n → zlen buf = bs →
  ∃ d', read_block fs n buf (d, ino) = Ok (content d ino n, (d', ino)) ∧ disk_ok fs d' ∧ same_bytes d d'.
Proof.
  intros Hd Hino Hn Hp Hb. pose proof (dk_bs fs d Hd).
  destruct (block_tree_spec d ino n) as (d1 & tree & idx & depth & E & Hs & Hd1 & Ht & _); [done..|].
  unfold read_block. rewrite (mbind_ok _ _ _ _ _ E).
  rewrite (mbind_ok _ _ _ (resolve d ino n) (d1, ino)) by (apply mlift_ok; by rewrite Ht).
  unfold content. destruct (Z.eqb_spec (resolve d ino n) 0) as [|Hne].
  - exists d1. split_and!; [|done|done]. apply mlift_ok. rewrite copy_at_ok by (rewrite ?zlen_rep; lia). f_equal.
    unfold splice. simpl. rewrite drop_ge; [by rewrite app_nil_r|].
    pose proof (zlen_rep bs 0). unfold zlen in *. lia.
  - destruct (resolve_in_fs d ino n Hp) as [|Hin]; [done|].
    destruct (read_block_spec fs d1 (resolve d ino n) buf) as (d2 & E2 & Hd2 & Hs2); [done..|].
    exists d2. unfold on_fs. rewrite E2, (fblk_same fs d d1) by done. split_and!; [done..|].
    unfold same_bytes in *. congruence.
Qed.

Lemma file_byte_at d ino k n o :
  disk_ok fs d → path_ok d ino n → k = n * bs + o → 0 ≤ o < bs →
  zat (content d ino n) o = Some (file_byte d ino k).
Proof.
  intros Hd Hp -> Ho. unfold file_byte.
  assert ((n * bs + o) / bs = n) as -> by (rewrite Z.add_comm, Z.div_add, Z.div_small by lia; lia).
  assert ((n * bs + o) mod bs = o) as -> by (rewrite Z.add_comm, Z.mod_add, Z.mod_small by lia; lia).
  destruct (zat_is_Some (content d ino n) o) as [b ->]; [by rewrite zlen_content|done].
Qed.

(** [buf'] is [buf] with the file's bytes from [off] on in its first [t]. *)
Definition got d ino (off t : Z) (buf buf' : list Z) : Prop :=
  zlen buf' = zlen buf ∧
  ∀ k, zat buf' k = if decide (0 ≤ k < t) then Some (file_byte d ino (off + k)) else zat buf k.

Lemma same_got d d' ino off t buf buf' : same_bytes d d' → got d' ino off t buf buf' ↔ got d ino off t buf buf'.
Proof.
  intros Hs. assert (∀ k, file_byte d' ino k = file_byte d ino k) as Hb by (intros; by apply same_file_byte).
  unfold got. split; intros [? Hk]; (split; [done|]); intros k; by rewrite Hk, Hb.
Qed.

Lemma got_step d ino off t m buf buf1 blk :
  disk_ok fs d → 0 ≤ off → 0 ≤ t → 0 ≤ m → t + m ≤ zlen buf → (off + t) mod bs + m ≤ bs →
  path_ok d ino ((off + t) / bs) → blk = content d ino ((off + t) / bs) → got d ino off t buf buf1 →
  got d ino off (t + m) buf (splice buf1 t (sub blk ((off + t) mod bs) m)).
Proof.
  intros Hd Hoff Ht Hm Hle Hbo Hp -> [Hl Hk]. pose proof (dk_bs fs d Hd).
  pose proof (Z.mod_pos_bound (off + t) bs). pose proof (Z.div_mod (off + t) bs).
  pose proof (zlen_content d ino _ Hd Hp) as Hlc.
  assert (zlen (sub (content d ino ((off + t) / bs)) ((off + t) mod bs) m) = m) as Hls by (apply zlen_sub; lia).
  split; [rewrite zlen_splice; lia|]. intros k. rewrite zat_splice, Hls by lia.
  destruct (decide (t ≤ k < t + m)).
  - rewrite zat_sub, decide_True by lia. rewrite decide_True by lia.
    apply file_byte_at; [done|done|lia|lia].
  - rewrite Hk. repeat case_decide; try lia; done.
Qed.

Lemma read_loop_spec fuel d ino fsize off t buf buf1 :
  disk_ok fs d → inode_ok ino → 0 ≤ off → 0 ≤ t ≤ zlen buf → off + t ≤ fsize →
  (∀ i, 0 ≤ i * bs < fsize → 0 ≤ i < max_blocks bs ∧ path_ok d ino i) →
  zlen buf - t ≤ Z.of_nat fuel → got d ino off t buf buf1 →
  ∃ d' buf', read_loop fs fuel fsize off t buf1 (d, ino) =
      Ok ((Z.min (zlen buf) (fsize - off), buf'), (d', ino)) ∧ same_bytes d d' ∧ disk_ok fs d' ∧
    got d ino off (Z.min (zlen buf) (fsize - off)) buf buf'.
Proof.
  intros Hd Hino Hoff Ht Hfs Hfile. revert d t buf1 Hd Ht Hfs Hfile.
  induction fuel as [|fuel IH]; intros d t buf1 Hd Ht Hfs Hfile Hf Hgot; cbn [read_loop].
  { assert (Z.min (zlen buf) (fsize - off) = t) as -> by lia. by exists d, buf1. }
  rewrite (proj1 Hgot). zcase; cbn [andb negb].
  2: { assert (Z.min (zlen buf) (fsize - off) = t) as -> by lia. by exists d, buf1. }
  zcase; cbn [negb].
  2: { assert (Z.min (zlen buf) (fsize - off) = t) as -> by lia. by exists d, buf1. }
  pose proof (dk_bs fs d Hd). pose proof (Z.mod_pos_bound (off + t) bs). pose proof (Z.div_mod (off + t) bs).
  assert (0 ≤ (off + t) / bs) by (apply Z.div_pos; lia).
  destruct (Hfile ((off + t) / bs)) as [Hn Hp]; [nia|]. cbv zeta.
  destruct (fnode_read_block_spec d ino ((off + t) / bs) (zrep bs 0)) as (d1 & E & Hd1 & Hs);
    [done..|by rewrite zlen_rep by lia|].
  rewrite (mbind_ok _ _ _ _ _ E). set (m := Z.min _ _). assert (0 < m) by lia.
  pose proof (zlen_content d ino _ Hd Hp) as Hlc.
  rewrite (mbind_ok _ _ _ (sub (content d ino ((off + t) / bs)) ((off + t) mod bs) m) (d1, ino)).
  2: { apply mlift_ok. rewrite slice_ok by lia. do 2 f_equal. lia. }
  rewrite (mbind_ok _ _ _ (splice buf1 t (sub (content d ino ((off + t) / bs)) ((off + t) mod bs) m)) (d1, ino)).
  2: { apply mlift_ok, copy_at_ok; rewrite ?zlen_sub, ?(proj1 Hgot); lia. }
  assert (got d ino off (t + m) buf (splice buf1 t (sub (content d ino ((off + t) / bs)) ((off + t) mod bs) m)))
    as Hgot' by (apply got_step; try done; lia).
  destruct (IH d1 (t + m) (splice buf1 t (sub (content d ino ((off + t) / bs)) ((off + t) mod bs) m)))
    as (d2 & buf' & E2 & Hs2 & Hd2 & Hg2); [done|lia|lia| |lia|by apply (same_got d)|].
  { intros i Hi. unfold path_ok. rewrite (same_path d d1) by done. by apply Hfile. }
  exists d2, buf'. split_and!; [done| |done|by apply (same_got d) in Hg2].
  unfold same_bytes in *. congruence.
Qed.
(** One turn of [read_page]: the direct and the copying path do the same. *)
Lemma page_step d ino t m page n o :
  disk_ok fs d → inode_ok ino → 0 ≤ n < max_blocks bs → path_ok d ino n →
  0 ≤ t → 0 < m → t + m ≤ zlen page → 0 ≤ o → o + m ≤ bs →
  ∃ d', (if (o =? 0) && (m =? bs) then
           let! dst := mlift (slice page t (t + bs)) in
           let! blk := read_block fs n dst in
           mlift (copy_at page t (t + bs) blk)
         else
           let! blk := read_block fs n (zrep bs 0) in
           let! src := mlift (slice blk o (o + m)) in
           mlift (copy_at page t (t + m) src)) (d, ino) =
      Ok (splice page t (sub (content d ino n) o m), (d', ino)) ∧ same_bytes d d' ∧ disk_ok fs d'.
Proof.
  intros Hd Hino Hn Hp Ht Hm Hle Ho Hom. pose proof (dk_bs fs d Hd).
  pose proof (zlen_content d ino n Hd Hp) as Hlc.
  destruct (Z.eqb_spec o 0) as [->|], (Z.eqb_spec m bs) as [->|]; cbn [andb].
  { rewrite (mbind_ok _ _ _ (sub page t bs) (d, ino))
      by (apply mlift_ok; rewrite slice_ok by lia; do 2 f_equal; lia).
    destruct (fnode_read_block_spec d ino n (sub page t bs)) as (d1 & E & Hd1 & Hs); [done..|by rewrite zlen_sub by lia|].
    exists d1. rewrite (mbind_ok _ _ _ _ _ E). split_and!; [|done..]. apply mlift_ok.
    rewrite copy_at_ok, sub_all by lia. done. }
  all: destruct (fnode_read_block_spec d ino n (zrep bs 0)) as (d1 & E & Hd1 & Hs); [done..|by rewrite zlen_rep by lia|].
  all: exists d1; rewrite (mbind_ok _ _ _ _ _ E); split_and!; [|done..].
  1: rewrite (mbind_ok _ _ _ (sub (content d ino n) 0 m) (d1, ino))
      by (apply mlift_ok; rewrite slice_ok by lia; do 2 f_equal; lia).
  2: rewrite (mbind_ok _ _ _ (sub (content d ino n) o bs) (d1, ino))
      by (apply mlift_ok; rewrite slice_ok by lia; do 2 f_equal; lia).
  3: rewrite (mbind_ok _ _ _ (sub (content d ino n) o m) (d1, ino))
      by (apply mlift_ok; rewrite slice_ok by lia; do 2 f_equal; lia).
  all: apply mlift_ok, copy_at_ok; rewrite ?zlen_sub; lia.
Qed.

Lemma page_loop_spec fuel d ino total off t page page1 :
  disk_ok fs d → inode_ok ino → 0 ≤ off → 0 ≤ t ≤ total → total ≤ zlen page → off + total ≤ usize_max →
  (∀ i, 0 ≤ i * bs < off + total → 0 ≤ i < max_blocks bs ∧ path_ok d ino i) →
  total - t ≤ Z.of_nat fuel → got d ino off t page page1 →
  ∃ d' page', page_loop fs fuel total off t page1 (d, ino) = Ok ((total, page'), (d', ino)) ∧
    same_bytes d d' ∧ disk_ok fs d' ∧ got d ino off total page page'.
Proof.
  intros Hd Hino Hoff Ht Htot Hmax Hfile. revert d t page1 Hd Ht Hfile.
  induction fuel as [|fuel IH]; intros d t page1 Hd Ht Hfile Hf Hgot; cbn [page_loop].
  { assert (t = total) as -> by lia. by exists d, page1. }
  destruct (Z.ltb_spec t total); cbn [negb]; [|assert (t = total) as -> by lia; by exists d, page1].
  pose proof (dk_bs fs d Hd). pose proof (Z.mod_pos_bound (off + t) bs). pose proof (Z.div_mod (off + t) bs).
  assert (0 ≤ (off + t) / bs) by (apply Z.div_pos; lia).
  destruct (Hfile ((off + t) / bs)) as [Hn Hp]; [nia|].
  rewrite (mbind_ok _ _ _ (off + t) (d, ino)) by (apply mlift_ok; by rewrite uadd_ok by lia). cbv zeta.
  set (m := Z.min _ _). assert (0 < m) by lia. pose proof (proj1 Hgot) as Hlen.
  destruct (page_step d ino t m page1 ((off + t) / bs) ((off + t) mod bs)) as (d1 & E & Hs & Hd1);
    [done..|lia|lia|lia|lia|lia|]. rewrite (mbind_ok _ _ _ _ _ E).
  set (page2 := splice page1 t _) in *.
  assert (got d ino off (t + m) page page2) as Hgot' by (apply got_step; try done; lia).
  destruct (IH d1 (t + m) page2) as (d2 & page' & E2 & Hs2 & Hd2 & Hg2); [done|lia| |lia|by apply (same_got d)|].
  { intros i Hi. unfold path_ok. rewrite (same_path d d1) by done. by apply Hfile. }
  exists d2, page'. split_and!; [done| |done|by apply (same_got d) in Hg2].
  unfold same_bytes in *. congruence.
Qed.
(** ** Overwriting *)

(** The path to block [n] has no holes. *)
Definition mapped d ino (n : Z) : Prop := Forall (λ b, b ≠ 0 ∧ in_fs fs b) (path d ino n).

(** The first [N] blocks of the file are there, no two share a data block, and
    no data block is used as a block of pointers. *)
Record separate d ino (N : Z) : Prop := {
  sep_inode : inode_ok ino;
  sep_max : N ≤ max_blocks bs;
  sep_mapped i : 0 ≤ i < N → mapped d ino i;
  sep_inj i j : 0 ≤ i < N → 0 ≤ j < N → resolve d ino i = resolve d ino j → i = j;
  sep_tree i j : 0 ≤ i < N → 0 ≤ j < N → resolve d ino i ∉ removelast (path d ino j);
}.

Lemma mapped_ok d ino n : mapped d ino n → path_ok d ino n.
Proof. intros Hm. eapply Forall_impl; [exact Hm|]. naive_solver. Qed.

Lemma path_nonempty d ino n : disk_ok fs d → 0 ≤ n < max_blocks bs → path d ino n ≠ [].
Proof.
  intros Hd Hn. destruct (path_indices n) as (i0 & i1 & i2 & depth & E & Hdep & _ & _ & _ & ->);
    [by eapply dk_bs|by eapply dk_bs8|done|]. cbv zeta. destruct depth; [lia|done].
Qed.

Lemma mapped_resolve d ino n :
  disk_ok fs d → 0 ≤ n < max_blocks bs → mapped d ino n → resolve d ino n ≠ 0 ∧ in_fs fs (resolve d ino n).
Proof.
  intros Hd Hn Hm. pose proof (path_nonempty d ino n Hd Hn) as Hne. unfold mapped, resolve in *.
  destruct (last (path d ino n)) as [b|] eqn:E; [|by apply last_None in E].
  rewrite Forall_forall in Hm. apply Hm. by apply last_Some_elem_of.
Qed.

Lemma fill_loop_id n i idx g tree s :
  (∀ k, (i ≤ k < i + n)%nat → ∃ t, tree !! k = Some t ∧ t ≠ 0) →
  fill_loop fs n i idx None g tree s = Ok (tree, s).
Proof.
  revert i. induction n as [|n IH]; intros i Ht; [done|]. cbn [fill_loop].
  destruct (Ht i) as (t & Et & Hne); [lia|].
  rewrite (mbind_ok _ _ _ tree s); [apply IH; intros; apply Ht; lia|].
  unfold tree_fill. rewrite (mbind_ok _ _ _ t s) by (apply mlift_ok; by rewrite Et).
  destruct (Z.eqb_spec t 0); [done|]. by rewrite (bool_decide_false (None ≠ None)), andb_false_r by naive_solver.
Qed.

Lemma fnode_write_block_spec d ino n buf g :
  disk_ok fs d → inode_ok ino → 0 ≤ n < max_blocks bs → mapped d ino n → zlen buf = bs → Forall is_byte buf →
  ∃ d', write_block fs n buf None g (d, ino) = Ok (tt, (d', ino)) ∧ disk_ok fs d' ∧
    block_set fs d d' (resolve d ino n) buf.
Proof.
  intros Hd Hino Hn Hm Hb Hby.
  destruct (block_tree_spec d ino n) as (d1 & tree & idx & depth & E & Hs & Hd1 & Ht & Htk & _ & Hdep);
    [done..|by apply mapped_ok|].
  unfold write_block. rewrite (mbind_ok _ _ _ _ _ E).
  rewrite (mbind_ok _ _ _ tree (d1, ino)).
  2: { apply fill_loop_id. intros k Hk. unfold mapped in Hm. rewrite <-Htk in Hm.
       destruct (lookup_lt_is_Some_2 (take depth tree) k) as [t Et].
       { assert (is_Some (tree !! (depth - 1)%nat)) as Hlt%lookup_lt_is_Some by (by rewrite Ht).
         rewrite length_take. lia. }
       exists t. split; [by rewrite lookup_take_lt in Et by lia|].
       rewrite Forall_forall in Hm. apply Hm. by eapply list_elem_of_lookup_2. }
  rewrite (mbind_ok _ _ _ (resolve d ino n) (d1, ino)) by (apply mlift_ok; by rewrite Ht).
  destruct (mapped_resolve d ino n) as [_ Hin]; [done..|].
  destruct (Ext2.write_block_spec fs d1 (resolve d ino n) buf) as (d2 & E2 & Hd2 & Hset); [done..|].
  exists d2. unfold on_fs. rewrite E2. split_and!; [done..|]. by apply (same_block_set fs d d1).
Qed.

(** Writing a block that is not a block of pointers keeps the paths. *)
Lemma path_set d d' ino m buf n :
  disk_ok fs d → block_set fs d d' m buf → zlen buf = bs → in_fs fs m → 0 ≤ n < max_blocks bs →
  mapped d ino n → m ∉ removelast (path d ino n) → path d' ino n = path d ino n.
Proof.
  intros Hd Hset Hb Hm Hn Hmap.
  destruct (path_indices n) as (i0 & i1 & i2 & depth & E & Hdep & _ & _ & _ & Epath);
    [by eapply dk_bs|by eapply dk_bs8|done|].
  unfold mapped in *. rewrite !Epath in *. cbv zeta in *. clear Epath.
  set (b0 := default 0 (zat (block (data ino)) _)) in *.
  assert (∀ b x, in_fs fs b → m ≠ b → pointer_at d' b x = pointer_at d b x) as Hptr.
  { intros b x Hin Hne. unfold pointer_at. by rewrite (fblk_set fs d d' m buf b), decide_False by done. }
  destruct depth as [|[|[|[|]]]]; try lia; cbn [take] in *; intros Hnin.
  - done.
  - apply Forall_cons in Hmap as [[_ Hi0] _]. rewrite Hptr; [done|done|]. set_solver.
  - apply Forall_cons in Hmap as [[_ Hi0] [[_ Hi1] _]%Forall_cons].
    cbn [removelast] in Hnin. apply not_elem_of_cons in Hnin as [Hn0 [Hn1 _]%not_elem_of_cons].
    rewrite !(Hptr b0) by done. by rewrite Hptr.
Qed.
(** Overwriting block [n] of a file changes that block of the file only. *)
Lemma separate_set d d' ino N n buf :
  disk_ok fs d → separate d ino N → 0 ≤ n < N → block_set fs d d' (resolve d ino n) buf → zlen buf = bs →
  separate d' ino N ∧ ∀ j, 0 ≤ j < N → content d' ino j = if decide (j = n) then buf else content d ino j.
Proof.
  intros Hd [Hino Hmax Hmap Hinj Htree] Hn Hset Hb.
  destruct (mapped_resolve d ino n) as [Hr0 Hr]; [done|lia|by apply Hmap|].
  assert (∀ j, 0 ≤ j < N → path d' ino j = path d ino j) as Hpath.
  { intros j Hj. apply (path_set d d' ino (resolve d ino n) buf); try done; [lia|by apply Hmap|by apply Htree]. }
  assert (∀ j, 0 ≤ j < N → resolve d' ino j = resolve d ino j) as Hres.
  { intros j Hj. unfold resolve. by rewrite Hpath. }
  split.
  - split; [done|done|..].
    + intros i Hi. unfold mapped. rewrite Hpath by done. by apply Hmap.
    + intros i j Hi Hj. rewrite !Hres by done. by apply Hinj.
    + intros i j Hi Hj. rewrite Hres, Hpath by done. by apply Htree.
  - intros j Hj. destruct (mapped_resolve d ino j) as [Hj0 Hjr]; [done|lia|by apply Hmap|].
    unfold content. rewrite Hres by done. destruct (Z.eqb_spec (resolve d ino j) 0); [done|].
    rewrite (fblk_set fs d d' (resolve d ino n) buf (resolve d ino j)) by done.
    destruct (decide (j = n)) as [->|Hne]; [by rewrite decide_True|].
    rewrite decide_False; [done|]. intros E. by apply Hne, Hinj.
Qed.

(** [d'] is [d] with bytes [off, off + t) of the file taken from [buf]. *)
Definition put d d' ino (N off t : Z) (buf : list Z) : Prop :=
  ∀ k, 0 ≤ k < N * bs →
    file_byte d' ino k = if decide (off ≤ k < off + t) then default 0 (zat buf (k - off)) else file_byte d ino k.

Lemma put_step d d1 d2 ino N off t m buf :
  let n := (off + t) / bs in let o := (off + t) mod bs in
  disk_ok fs d1 → disk_ok fs d2 → separate d1 ino N → separate d2 ino N →
  0 ≤ off → 0 ≤ t → 0 < m → t + m ≤ zlen buf → o + m ≤ bs → 0 ≤ n < N →
  put d d1 ino N off t buf →
  (∀ j, 0 ≤ j < N → content d2 ino j =
     if decide (j = n) then splice (content d1 ino n) o (sub buf t m) else content d1 ino j) →
  put d d2 ino N off (t + m) buf.
Proof.
  intros n o Hd1 Hd2 Hsep1 Hsep2 Hoff Ht Hm Hle Hom Hn Hput Hc k Hk. pose proof (dk_bs fs d1 Hd1).
  pose proof (Z.mod_pos_bound (off + t) bs) as Hmo. pose proof (Z.div_mod (off + t) bs) as Hdm.
  fold o in Hmo, Hdm. fold n in Hdm.
  pose proof (Z.mod_pos_bound k bs). pose proof (Z.div_mod k bs).
  assert (0 ≤ k / bs < N) by (split; [apply Z.div_pos; lia|apply Z.div_lt_upper_bound; lia]).
  pose proof (Hput k Hk) as Hk1. unfold file_byte at 1. rewrite Hc by done.
  assert (zlen (sub buf t m) = m) as Hls by (apply zlen_sub; lia).
  assert (zlen (content d1 ino n) = bs) as Hlc.
  { apply zlen_content; [done|]. by apply mapped_ok, (sep_mapped _ _ _ Hsep1). }
  destruct (decide (k / bs = n)) as [E|Hne].
  - rewrite zat_splice, Hls by lia. destruct (decide (o ≤ k mod bs < o + m)).
    + rewrite zat_sub, decide_True by lia. rewrite decide_True by (rewrite E in *; lia). f_equal. f_equal.
      rewrite E in *. lia.
    + unfold file_byte in Hk1 at 1. rewrite E in *. rewrite Hk1. repeat case_decide; try done; lia.
  - unfold file_byte in Hk1 at 1. rewrite Hk1. repeat case_decide; try done; try lia; nia.
Qed.

Lemma write_loop_spec fuel d d1 ino N off t buf :
  disk_ok fs d1 → separate d1 ino N → 0 ≤ off → 0 ≤ t ≤ zlen buf → off + zlen buf ≤ N * bs →
  off + zlen buf ≤ usize_max → Forall is_byte buf → zlen buf - t ≤ Z.of_nat fuel →
  put d d1 ino N off t buf →
  ∃ d', write_loop fs fuel off t buf (d1, ino) = Ok (zlen buf, (d', ino)) ∧ disk_ok fs d' ∧
    separate d' ino N ∧ put d d' ino N off (zlen buf) buf.
Proof.
  intros Hd1 Hsep Hoff Ht HN Hmax Hby. revert d1 t Hd1 Hsep Ht.
  induction fuel as [|fuel IH]; intros d1 t Hd1 Hsep Ht Hf Hput; cbn [write_loop].
  { assert (t = zlen buf) as -> by lia. by exists d1. }
  destruct (Z.ltb_spec t (zlen buf)); cbn [negb]; [|assert (t = zlen buf) as -> by lia; by exists d1].
  rewrite (mbind_ok _ _ _ (off + t) (d1, ino)) by (apply mlift_ok; by rewrite uadd_ok by lia). cbv zeta.
  pose proof (dk_bs fs d1 Hd1). pose proof (Z.mod_pos_bound (off + t) bs). pose proof (Z.div_mod (off + t) bs).
  assert (0 ≤ (off + t) / bs < N) as Hn by (split; [apply Z.div_pos; lia|apply Z.div_lt_upper_bound; lia]).
  pose proof (sep_mapped _ _ _ Hsep _ Hn) as Hmap. pose proof (sep_max _ _ _ Hsep). pose proof (sep_inode _ _ _ Hsep).
  set (n := (off + t) / bs) in *. set (o := (off + t) mod bs) in *.
  destruct (fnode_read_block_spec d1 ino n (zrep bs 0)) as (d2 & E & Hd2 & Hs);
    [done|done|lia|by apply mapped_ok|by rewrite zlen_rep by lia|].
  rewrite (mbind_ok _ _ _ _ _ E). set (m := Z.min _ _). assert (0 < m) by lia.
  pose proof (zlen_content d1 ino n Hd1 (mapped_ok _ _ _ Hmap)) as Hlc.
  rewrite (mbind_ok _ _ _ (sub buf t m) (d2, ino)) by (apply mlift_ok; rewrite slice_ok by lia; do 2 f_equal; lia).
  assert (zlen (sub buf t m) = m) as Hls by (apply zlen_sub; lia).
  set (blk := splice (content d1 ino n) o (sub buf t m)).
  assert (zlen blk = bs) as Hlb by (unfold blk; rewrite zlen_splice; lia).
  rewrite (mbind_ok _ _ _ blk (d2, ino)) by (apply mlift_ok, copy_at_ok; lia).
  destruct (fnode_write_block_spec d2 ino n blk 0) as (d3 & E3 & Hd3 & Hset3); [done|done|lia| |done| |].
  { unfold mapped. by rewrite (same_path d1 d2). }
  { unfold blk, splice, content, sub. repeat (apply Forall_app_2 || apply Forall_take || apply Forall_drop);
      try done; destruct (_ =? _); try (by apply fblk_bytes); apply Forall_replicate; done. }
  rewrite (mbind_ok _ _ _ _ _ E3). rewrite (same_resolve d1 d2) in Hset3 by done.
  apply (same_block_set fs d1) in Hset3; [|done].
  destruct (separate_set d1 d3 ino N n blk) as [Hsep3 Hc3]; [done..|].
  apply (IH d3 (t + m)); [done|done|lia|lia|].
  by apply (put_step d d1 d3 ino N off t m buf); try done; lia.
Qed.
End resolve.

(** ** Directory scans *)

Section directory.
Context {D : Type} `{BlockDeviceSpec D} (fs : Ext2) (ino : INode).
Implicit Types d : D.
Abbreviation bs := (fs_block_size fs).

(** The record at position [p] of the directory: inode number, length, name. *)
Record record_at d (p inum len : Z) (name : list Z) : Prop := {
  rec_pos : 0 ≤ p < size (data ino);
  rec_aligned : aligned p 4;
  rec_fits : p mod bs + 8 + zlen name ≤ bs;
  rec_inum : inum = le_val (sub (content fs d ino (p / bs)) (p mod bs) 4);
  rec_len : len = le_val (sub (content fs d ino (p / bs)) (p mod bs + 4) 2);
  rec_name_len : zlen name = le_val (sub (content fs d ino (p / bs)) (p mod bs + 6) 1);
  rec_name : name = sub (content fs d ino (p / bs)) (p mod bs + 8) (zlen name);
  rec_utf8 : inum ≠ 0 → utf8_valid name = true;
}.

(** The records of a directory from position [p] on, as inode number and name,
    up to the end of the directory ([false]) or to a record of length 0
    ([true]). *)
Inductive entries d : Z → list (Z * list Z) → bool → Prop :=
| ent_end p : size (data ino) ≤ p → entries d p [] false
| ent_zero p inum name : record_at d p inum 0 name → entries d p [(inum, name)] true
| ent_cons p inum len name es z :
    record_at d p inum len name → 0 < len → entries d (p + len) es z → entries d p ((inum, name) :: es) z.

(** The records the scan looks for. *)
Definition is_entry (name : list Z) (e : Z * list Z) : bool := negb (e.1 =? 0) && bool_decide (e.2 = name).

(** The inode number of the first live record with the name. *)
Definition find_entry (name : list Z) (es : list (Z * list Z)) : option Z :=
  fst <$> List.find (is_entry name) es.

Lemma record_same d d' p inum len name : same_bytes d d' → record_at d p inum len name → record_at d' p inum len name.
Proof. intros Hs [? ? ? ? ? ? ? ?]. by split; rewrite ?(same_content fs d d'). Qed.

Lemma get_le_at {E} (b : list Z) w o : 0 ≤ o → o + Z.of_nat w ≤ zlen b → @get_le E w b o = Ok (le_val (sub b o (Z.of_nat w))).
Proof. intros. unfold get_le. rewrite slice_ok by lia. cbn [rbind]. do 3 f_equal. lia. Qed.

Lemma fetch_entry_spec d p last buf :
  disk_ok fs d → inode_ok ino → 0 ≤ p → aligned p 4 → p mod bs + 8 ≤ bs →
  0 ≤ p / bs < max_blocks bs → path_ok fs d ino (p / bs) → zlen buf = bs →
  (p / bs = last → buf = content fs d ino last) →
  ∃ d', fetch_entry fs p last buf (d, ino) =
      Ok ((content fs d ino (p / bs), p / bs, p mod bs, le_val (sub (content fs d ino (p / bs)) (p mod bs) 4),
           le_val (sub (content fs d ino (p / bs)) (p mod bs + 4) 2)), (d', ino)) ∧
    same_bytes d d' ∧ disk_ok fs d'.
Proof.
  intros Hd Hino Hp Ha Hin Hn Hpath Hl Hbuf. pose proof (dk_bs fs d Hd).
  pose proof (Z.mod_pos_bound p bs). pose proof (zlen_content fs d ino _ Hd Hpath) as Hlc.
  assert (∃ d', (if negb (p / bs =? last) then read_block fs (p / bs) buf else mret buf) (d, ino) =
    Ok (content fs d ino (p / bs), (d', ino)) ∧ same_bytes d d' ∧ disk_ok fs d') as (d' & E & Hs & Hd').
  { destruct (Z.eqb_spec (p / bs) last) as [El|]; cbn [negb].
    - exists d. split_and!; [|done|done]. rewrite El. by rewrite <-Hbuf.
    - destruct (fnode_read_block_spec fs d ino (p / bs) buf) as (d' & E & Hd' & Hs); [done..|]. by exists d'. }
  exists d'. split; [|done]. unfold fetch_entry.
  rewrite (mbind_ok _ _ _ tt (d, ino)).
  2: { apply mlift_ok. unfold rassert. by rewrite (proj2 (is_multiple_of_spec p 4 ltac:(done)) Ha). }
  cbv zeta. rewrite (mbind_ok _ _ _ _ _ E).
  rewrite (mbind_ok _ _ _ (le_val (sub (content fs d ino (p / bs)) (p mod bs) 4)) (d', ino))
    by (apply mlift_ok; rewrite get_le_at by lia; done).
  rewrite (mbind_ok _ _ _ (le_val (sub (content fs d ino (p / bs)) (p mod bs + 4) 2)) (d', ino))
    by (apply mlift_ok; rewrite get_le_at by lia; done).
  done.
Qed.

Abbreviation blocks_ok d :=
  (∀ i, 0 ≤ i * bs < size (data ino) → 0 ≤ i < max_blocks bs ∧ path_ok fs d ino i).

(** One turn of the scan, at a record. *)
Lemma search_turn d p inum len name' name last buf fuel :
  disk_ok fs d → inode_ok ino → blocks_ok d → record_at d p inum len name' → zlen buf = bs →
  (p / bs = last → buf = content fs d ino last) →
  ∃ d', same_bytes d d' ∧ disk_ok fs d' ∧ blocks_ok d' ∧ zlen (content fs d' ino (p / bs)) = bs ∧
    search_loop fs (S fuel) name p last buf (d, ino) =
      (if is_entry name (inum, name') then mret (Some (Some inum))
       else search_loop fs fuel name (p + len) (p / bs) (content fs d' ino (p / bs))) (d', ino).
Proof.
  intros Hd Hino Hfile [Hp Ha Hin Ei El En Enm Hu] Hlb Hbuf. pose proof (zlen_nonneg name').
  pose proof (dk_bs fs d Hd). pose proof (Z.mod_pos_bound p bs). pose proof (Z.div_mod p bs).
  assert (0 ≤ p / bs) by (apply Z.div_pos; lia).
  destruct (Hfile (p / bs)) as [Hnb Hpath]; [nia|].
  destruct (fetch_entry_spec d p last buf) as (d1 & E & Hs & Hd1); [done|done|lia|done|lia|done..|].
  pose proof (zlen_content fs d ino _ Hd Hpath) as Hlc.
  exists d1. rewrite (same_content fs d d1) by done. split_and!; [done|done| |done|].
  { intros i Hi. unfold path_ok. rewrite (same_path fs d d1) by done. by apply Hfile. }
  cbn [search_loop]. rewrite (mbind_ok _ _ _ ino (d, ino)) by done.
  destruct (Z.ltb_spec p (size (data ino))); [|lia]. cbn [negb].
  rewrite (mbind_ok _ _ _ _ _ E). rewrite <-Ei, <-El.
  rewrite (mbind_ok _ _ _ (zlen name') (d1, ino)) by (apply mlift_ok; rewrite get_le_at by lia; by rewrite En).
  unfold is_entry. cbn [fst snd]. destruct (Z.eqb_spec inum 0) as [|Hne]; cbn [negb andb]; [done|].
  rewrite (mbind_ok _ _ _ name' (d1, ino)).
  2: { apply mlift_ok. rewrite slice_ok by lia. f_equal. rewrite Enm at 2. f_equal. lia. }
  rewrite (mbind_ok _ _ _ name' (d1, ino)) by (apply mlift_ok; unfold from_utf8; by rewrite Hu).
  by destruct (bool_decide (name' = name)).
Qed.

(** The scan does not get past a record of length 0 that is not the one. *)
Lemma search_loop_stuck d p inum name' name last buf fuel :
  disk_ok fs d → inode_ok ino → blocks_ok d → record_at d p inum 0 name' → zlen buf = bs →
  (p / bs = last → buf = content fs d ino last) → is_entry name (inum, name') = false →
  ∃ d', search_loop fs fuel name p last buf (d, ino) = Ok (None, (d', ino)) ∧ same_bytes d d' ∧ disk_ok fs d'.
Proof.
  intros Hd Hino Hfile Hr Hlb Hbuf Hne. revert d last buf Hd Hfile Hr Hlb Hbuf.
  induction fuel as [|fuel IH]; intros d last buf Hd Hfile Hr Hlb Hbuf; [by exists d|].
  destruct (search_turn d p inum 0 name' name last buf fuel) as (d1 & Hs & Hd1 & Hf1 & Hl1 & ->); [done..|].
  rewrite Hne, Z.add_0_r. destruct (IH d1 (p / bs) (content fs d1 ino (p / bs))) as (d' & E & Hs' & Hd');
    [done|done|by apply (record_same d d1)|done..|].
  exists d'. split_and!; [done| |done]. unfold same_bytes in *. congruence.
Qed.

(** What the scan gives: the first record with the name, the end of the
    directory, or nothing in any number of turns. *)
Definition scanned (name : list Z) (es : list (Z * list Z)) (zero : bool) : option (option Z) :=
  match find_entry name es with
  | Some i => Some (Some i)
  | None => if zero then None else Some None
  end.

Lemma search_loop_spec d0 p es z d name last buf fuel :
  entries d0 p es z → same_bytes d0 d → disk_ok fs d → inode_ok ino → blocks_ok d →
  (length es < fuel)%nat → zlen buf = bs → (p / bs = last → buf = content fs d ino last) →
  ∃ d', search_loop fs fuel name p last buf (d, ino) = Ok (scanned name es z, (d', ino)) ∧
    same_bytes d d' ∧ disk_ok fs d'.
Proof.
  intros He Hs0 Hd Hino Hfile. revert d last buf fuel Hs0 Hd Hfile.
  induction He as [p Hend|p inum name' Hr|p inum len name' es z Hr Hl He IH];
    intros d last buf fuel Hs0 Hd Hfile Hf Hlb Hbuf; (destruct fuel as [|fuel]; [simpl in Hf; lia|]).
  - cbn [search_loop]. rewrite (mbind_ok _ _ _ ino (d, ino)) by done.
    destruct (Z.ltb_spec p (size (data ino))); [lia|]. cbn [negb]. by exists d.
  - apply (record_same d0 d) in Hr; [|done].
    unfold scanned, find_entry. cbn [List.find]. destruct (is_entry name (inum, name')) eqn:Ee.
    + destruct (search_turn d p inum 0 name' name last buf fuel) as (d1 & Hs & Hd1 & _ & _ & ->); [done..|].
      rewrite Ee. by exists d1.
    + by apply (search_loop_stuck d p inum name').
  - apply (record_same d0 d) in Hr; [|done].
    destruct (search_turn d p inum len name' name last buf fuel) as (d1 & Hs & Hd1 & Hf1 & Hl1 & ->); [done..|].
    unfold scanned, find_entry in *. cbn [List.find]. destruct (is_entry name (inum, name')); [by exists d1|].
    destruct (IH d1 (p / bs) (content fs d1 ino (p / bs)) fuel) as (d' & E & Hs' & Hd');
      [unfold same_bytes in *; congruence|done|done|simpl in Hf; lia|done|done|].
    exists d'. split_and!; [done| |done]. unfold same_bytes in *. congruence.
Qed.
End directory.

(** ** Correctness of file access *)

(** C24: [read_unaligned] copies exactly the file's bytes from the offset on into
    the buffer, up to the end of the buffer or of the file, holes reading as
    zeroes; the rest of the buffer, the inode and the disk stay as they were.
    The file's bytes are those of its blocks in the order of the format
    ([file_layout], [file_byte]).  The file is one without a third level of
    indirection ([max_blocks]): beyond it the code's path is wrong, see
    [triple_index_out_of_range]. *)
Theorem read_unaligned_correct D `{BlockDeviceSpec D} fs (d : D) ino off buf :
  disk_ok fs d → inode_ok ino → 0 ≤ off → 
  (∀ i, 0 ≤ i * fs_block_size fs < size (data ino) →
     0 ≤ i < max_blocks (fs_block_size fs) ∧ path_ok fs d ino i) →
  let n := Z.max 0 (Z.min (zlen buf) (size (data ino) - off)) in
  ∃ d' buf', read_unaligned fs off buf (d, ino) = Ok ((n, buf'), (d', ino)) ∧
    bd_bytes d' = bd_bytes d ∧ zlen buf' = zlen buf ∧
    ∀ k, zat buf' k = if decide (0 ≤ k < n) then Some (file_byte fs d ino (off + k)) else zat buf k.
Proof.
  intros Hd Hino Hoff Hfile n. unfold read_unaligned. rewrite (mbind_ok _ _ _ ino (d, ino)) by done.
  pose proof (zlen_nonneg buf). zcase.
  - exists d, buf. assert (n = 0) as -> by lia. split_and!; [done..|]. intros k. by rewrite decide_False by lia.
  - destruct (read_loop_spec fs (length buf) d ino (size (data ino)) off 0 buf buf)
      as (d' & buf' & E & Hs & _ & Hl & Hk); [done|done|done|lia|lia|done|unfold zlen; lia| |].
    { split; [done|]. intros k. by rewrite decide_False by lia. }
    exists d', buf'. assert (n = Z.min (zlen buf) (size (data ino) - off)) as -> by lia. by split_and!.
Qed.

(** [read_page] gives the page of the file at the offset: the file's bytes
    up to its end and zeroes after it, whether a block is read in place or
    copied. *)
Lemma read_page_correct D `{BlockDeviceSpec D} fs (d : D) ino off :
  disk_ok fs d → inode_ok ino → 0 ≤ off → size (data ino) ≤ usize_max →
  (∀ i, 0 ≤ i * fs_block_size fs < size (data ino) →
     0 ≤ i < max_blocks (fs_block_size fs) ∧ path_ok fs d ino i) →
  ∃ d' page, read_page fs off (d, ino) = Ok ((Z.max 0 (Z.min PAGE_SIZE (size (data ino) - off)), page), (d', ino)) ∧
    bd_bytes d' = bd_bytes d ∧ zlen page = PAGE_SIZE ∧
    ∀ k, 0 ≤ k < PAGE_SIZE →
      zat page k = Some (if off + k <? size (data ino) then file_byte fs d ino (off + k) else 0).
Proof.
  intros Hd Hino Hoff Hmax Hfile. unfold read_page. rewrite (mbind_ok _ _ _ ino (d, ino)) by done.
  assert (∀ k, 0 ≤ k < PAGE_SIZE → zat (zrep PAGE_SIZE 0) k = Some 0) as Hz.
  { intros k Hk. by rewrite zat_rep, decide_True. }
  destruct (Z.leb_spec (size (data ino)) off).
  - exists d, (zrep PAGE_SIZE 0). rewrite Z.max_l by lia. split_and!; [done..|].
    intros k Hk. rewrite Hz by done. zcase; [lia|done].
  - rewrite Z.max_r by (unfold PAGE_SIZE; lia). set (total := Z.min PAGE_SIZE _).
    destruct (page_loop_spec fs (Z.to_nat PAGE_SIZE) d ino total off 0 (zrep PAGE_SIZE 0) (zrep PAGE_SIZE 0))
      as (d' & page & E & Hs & _ & Hl & Hk);
      [done|done|done|unfold total, PAGE_SIZE; lia|rewrite zlen_rep; unfold total, PAGE_SIZE; lia|lia| |lia| |].
    { intros i Hi. apply Hfile. lia. }
    { split; [done|]. intros k. by rewrite decide_False by lia. }
    exists d', page. split_and!; [done|done|by rewrite Hl|]. intros k Hk'. rewrite Hk.
    destruct (Z.ltb_spec (off + k) (size (data ino))).
    + by rewrite decide_True by (unfold total; lia).
    + rewrite decide_False by (unfold total; lia). by apply Hz.
Qed.

(** C23: Overwriting a range of a file whose blocks are all there: the file has
    the new bytes in the range and its old bytes elsewhere, and its inode and
    block tree are unchanged.  The file's bytes are those of its blocks in the
    order of the format ([file_layout], [file_byte]).  The first [N] blocks of
    the file have no holes, share no block and need no third level of
    indirection ([separate]): a write into a hole below a block of pointers
    loses the pointers there, see [indirect_pointers_lost], and a path of three
    levels is wrong, see [triple_index_out_of_range]. *)
Theorem write_unaligned_overwrites D `{BlockDeviceSpec D} fs (d : D) ino N off buf :
  disk_ok fs d → separate fs d ino N → 0 ≤ off → off + zlen buf ≤ size (data ino) →
  off + zlen buf ≤ N * fs_block_size fs → off + zlen buf ≤ usize_max → Forall is_byte buf →
  ∃ d', write_unaligned fs off buf (d, ino) = Ok (zlen buf, (d', ino)) ∧
    disk_ok fs d' ∧ separate fs d' ino N ∧
    ∀ k, 0 ≤ k < N * fs_block_size fs →
      file_byte fs d' ino k =
        if decide (off ≤ k < off + zlen buf) then default 0 (zat buf (k - off)) else file_byte fs d ino k.
Proof.
  intros Hd Hsep Hoff Hsz HN Hmax Hby. pose proof (zlen_nonneg buf).
  destruct (write_loop_spec fs (length buf) d d ino N off 0 buf) as (d' & E & Hd' & Hsep' & Hput);
    [done|done|done|lia|done|done|done|unfold zlen; lia| |].
  { intros k Hk. by rewrite decide_False by lia. }
  exists d'. split_and!; [|done|done|done]. unfold write_unaligned. rewrite (mbind_ok _ _ _ _ _ E).
  rewrite (mbind_ok _ _ _ (off + zlen buf) (d', ino)) by (apply mlift_ok; by rewrite uadd_ok by lia).
  unfold grow_size. rewrite (mbind_ok _ _ _ tt (d', ino)); [done|].
  rewrite (mbind_ok _ _ _ ino (d', ino)) by done. rewrite Z.max_l by lia. by rewrite Z.eqb_refl.
Qed.

(** Up to two levels of indirection the path to a block is the one the format
    prescribes, inside the inode and the blocks of pointers, and different
    blocks of a file have different paths. *)
Lemma block_tree_indices_correct bs n m :
  1024 ≤ bs → (1024 | bs) → 0 ≤ n < max_blocks bs → 0 ≤ m < max_blocks bs →
  (∃ i0 i1 i2 depth, block_tree_indices bs n = ([i0; i1; i2; 0], depth) ∧ (1 ≤ depth ≤ 3)%nat ∧
     0 ≤ i0 < 15 ∧ 0 ≤ i1 < bs / 4 ∧ 0 ≤ i2 < bs / 4 ∧
     zat (file_layout (bs / 4)) n = Some (take depth [i0; i1; i2])) ∧
  (block_tree_indices bs n = block_tree_indices bs m → n = m).
Proof.
  intros Hb Hd Hn Hm. split; [by apply (indices_range (mkExt2 bs (Superblock_of [])))|].
  destruct (div4_pos bs Hb Hd) as [H256 _]. unfold block_tree_indices, max_blocks in *.
  set (p := bs / 4) in *.
  pose proof (Z.div_mod (n - 12 - p) p). pose proof (Z.div_mod (m - 12 - p) p).
  repeat zcase; try lia; intros E; injection E; intros; try lia.
Qed.

(** ** Examples on the small file system *)

Definition demo_file (blocks : list Z) (sz : Z) : INode :=
  mkINode 12 (set_data (data (new_inode 12 File)) sz (blocks ++ replicate (15 - length blocks) 0)) false.

(** The block bitmap and a hole, as a file. *)
Definition bitmap_file : INode := demo_file [3] 1500.

Lemma bitmap_file_ok i :
  0 ≤ i * 1024 < 1500 → 0 ≤ i < max_blocks 1024 ∧ path_ok demo_fs demo_dev bitmap_file i.
Proof.
  intros Hi. assert (i = 0 ∨ i = 1) as [-> | ->] by lia.
  - split; [done|]. apply Forall_cons. split; [right; split; vm_compute; congruence|constructor].
  - split; [done|]. apply Forall_cons. split; [by left|constructor].
Qed.

Lemma read_unaligned_witness :
  ∃ d' buf', read_unaligned demo_fs 1020 (zrep 600 7) (demo_dev, bitmap_file) = Ok ((480, buf'), (d', bitmap_file)) ∧
    zat buf' 3 = Some 0xff ∧ zat buf' 4 = Some 0 ∧ zat buf' 480 = Some 7.
Proof.
  destruct (read_unaligned_correct DemoDev demo_fs demo_dev bitmap_file 1020 (zrep 600 7))
    as (d' & buf' & E & _ & _ & Hk).
  - exact demo_disk_fs.
  - reflexivity.
  - lia.
  - exact bitmap_file_ok.
  - exists d', buf'. split; [exact E|]. change (Z.max 0 _) with 480 in Hk. rewrite !Hk.
    rewrite !decide_True, decide_False by lia. split; [|split]; lazy; reflexivity.
Defined.

Lemma read_page_witness :
  ∃ d' page, read_page demo_fs 0 (demo_dev, bitmap_file) = Ok ((1500, page), (d', bitmap_file)) ∧
    zat page 1 = Some 0x83 ∧ zat page 1024 = Some 0 ∧ zat page 4095 = Some 0.
Proof.
  destruct (read_page_correct DemoDev demo_fs demo_dev bitmap_file 0) as (d' & page & E & _ & _ & Hk).
  - exact demo_disk_fs.
  - reflexivity.
  - lia.
  - apply Z.leb_le. reflexivity.
  - exact bitmap_file_ok.
  - exists d', page. split; [exact E|].
    rewrite !Hk by (split; [lia|reflexivity]). split; [|split]; lazy; reflexivity.
Defined.

Lemma demo_separate : separate demo_fs demo_dev (demo_file [10; 11] 2048) 2.
Proof.
  assert (∀ i, 0 ≤ i < 2 → path demo_fs demo_dev (demo_file [10; 11] 2048) i = [10 + i]) as Hp.
  { intros i Hi. assert (i = 0 ∨ i = 1) as [-> | ->] by lia; vm_compute; reflexivity. }
  split.
  - reflexivity.
  - by apply Z.leb_le.
  - intros i Hi. unfold mapped. rewrite Hp by done. apply Forall_singleton. unfold in_fs.
    change (blocks_count (superblock demo_fs)) with 16. lia.
  - intros i j Hi Hj. unfold resolve. rewrite !Hp by done. simpl. lia.
  - intros i j Hi Hj. rewrite Hp by done. apply not_elem_of_nil.
Qed.

Lemma write_unaligned_witness :
  ∃ d', write_unaligned demo_fs 1022 [1; 2; 3] (demo_dev, demo_file [10; 11] 2048) =
      Ok (3, (d', demo_file [10; 11] 2048)) ∧
    file_byte demo_fs d' (demo_file [10; 11] 2048) 1024 = 3.
Proof.
  destruct (write_unaligned_overwrites DemoDev demo_fs demo_dev (demo_file [10; 11] 2048) 2 1022 [1; 2; 3])
    as (d' & E & _ & _ & Hk).
  - exact demo_disk_fs.
  - exact demo_separate.
  - lia.
  - by apply Z.leb_le.
  - by apply Z.leb_le.
  - by apply Z.leb_le.
  - apply bytes_check. reflexivity.
  - exists d'. split; [exact E|]. rewrite Hk by (split; [lia|reflexivity]).
    change (zlen [1; 2; 3]) with 3. rewrite decide_True by lia. reflexivity.
Defined.

Lemma block_tree_indices_witness :
  block_tree_indices 1024 300 = ([13; 0; 32; 0], 3%nat) ∧
  (block_tree_indices 1024 300 = block_tree_indices 1024 301 → 300 = 301).
Proof.
  split; [reflexivity|].
  apply (block_tree_indices_correct 1024 300 301); [lia|by exists 1|by split|by split].
Defined.

(** ** What goes wrong *)

(** A second write below the same block of pointers loses the first: the
    block of pointers is written back with one pointer and zeroes.  Block 12 of
    the file, written before block 13, reads as zeroes afterwards. *)
Lemma indirect_pointers_lost :
  ∃ s, (let! _ := write_unaligned demo_fs 12288 [1; 2; 3] in
        let! first := read_unaligned demo_fs 12288 (zrep 3 0) in
        let! _ := write_unaligned demo_fs 13312 [4; 5; 6] in
        let! second := read_unaligned demo_fs 12288 (zrep 3 0) in
        mret (first, second)) (demo_dev, demo_file [] 0) =
       Ok (((3, [1; 2; 3]), (3, [0; 0; 0])), s).
Proof. eexists. vm_compute. reflexivity. Qed.

(** Past two levels of indirection the last index of a path is reduced
    modulo the square of the number of pointers per block, so most of the
    blocks there have an index outside their block of pointers. *)
Lemma triple_index_out_of_range bs n :
  1024 ≤ bs → (1024 | bs) → 0 ≤ n < bs / 4 * (bs / 4) → bs / 4 ≤ n →
  ∃ i0 i1 i2 i3, block_tree_indices bs (max_blocks bs + n) = ([i0; i1; i2; i3], 4%nat) ∧
    i3 = n ∧ bs < i3 * 4 + 4.
Proof.
  intros Hb Hd Hn Hp. destruct (div4_pos bs Hb Hd) as [H256 H4].
  unfold block_tree_indices, max_blocks. set (p := bs / 4) in *.
  destruct (Z.ltb_spec (12 + p + p * p + n) 12); [nia|].
  destruct (Z.ltb_spec (12 + p + p * p + n - 12) p); [nia|].
  destruct (Z.ltb_spec (12 + p + p * p + n - 12 - p) (p * p)); [nia|].
  do 4 eexists. split; [reflexivity|]. replace (12 + p + p * p + n - 12 - p - p * p) with n by lia.
  rewrite Z.mod_small by lia. lia.
Qed.

Lemma triple_index_witness :
  ∃ i0 i1 i2 i3, block_tree_indices 1024 (max_blocks 1024 + 256) = ([i0; i1; i2; i3], 4%nat) ∧
    i3 = 256 ∧ 1024 < i3 * 4 + 4.
Proof. apply (triple_index_out_of_range 1024 256); [lia|by exists 1|by split|by vm_compute]. Defined.

(** [create_entry] stores the length of a name in one byte without checking
    it: an entry with a longer name is created without an error and is not
    found under its name. *)
Lemma long_name_lost :
  ∃ s, (let! _ := create_entry demo_fs (replicate 260 0x61) 5 1 in
        mret tt) (demo_dev, new_inode 12 Directory) = Ok (tt, s) ∧
       ∃ s', search demo_fs 100 (replicate 260 0x61) s = Err (FsError.NotFound, s').
Proof. eexists. split; [vm_compute; reflexivity|]. eexists. vm_compute. reflexivity. Qed.


(** A directory with entries [a] and [bc]. *)
Definition exec {S E A} (m : M S E A) (s : S) : S :=
  match m s with Ok (_, s') => s' | _ => s end.
Definition demo_dir : DemoDev * INode :=
  exec (let! _ := create_entry demo_fs [0x61] 5 1 in create_entry demo_fs [0x62; 0x63] 2 2)
    (demo_dev, new_inode 12 Directory).

Lemma two_entries D `{BlockDeviceSpec D} fs (d : D) ino rest :
  fs_block_size fs = 1024 → size (data ino) = 1024 →
  content fs d ino 0 = [5; 0; 0; 0; 12; 0; 1; 1; 0x61; 0; 0; 0] ++ [2; 0; 0; 0; 0xf4; 3; 2; 2; 0x62; 0x63] ++ rest →
  entries fs ino d 0 [(5, [0x61]); (2, [0x62; 0x63])] false.
Proof.
  intros Hb Hsz Hc.
  apply (ent_cons fs ino d 0 5 12); [|done|apply (ent_cons fs ino d 12 2 1012); [|done|]].
  - split; rewrite ?Hb, ?Hsz; change (0 / 1024) with 0; change (0 mod 1024) with 0; rewrite ?Hc; try done. by exists 0.
  - split; rewrite ?Hb, ?Hsz; change (12 / 1024) with 0; change (12 mod 1024) with 12;
      rewrite ?Hc; try done. by exists 3.
  - apply ent_end. rewrite Hsz. done.
Qed.

Lemma demo_dir_ok :
  disk_ok demo_fs demo_dir.1 ∧
  (∀ i, 0 ≤ i * 1024 < size (data demo_dir.2) → 0 ≤ i < max_blocks 1024 ∧ path_ok demo_fs demo_dir.1 demo_dir.2 i) ∧
  entries demo_fs demo_dir.2 demo_dir.1 0 [(5, [0x61]); (2, [0x62; 0x63])] false.
Proof.
  assert (size (data demo_dir.2) = 1024) as Hsz by (vm_compute; reflexivity).
  assert (∃ rest, content demo_fs demo_dir.1 demo_dir.2 0 =
    [5; 0; 0; 0; 12; 0; 1; 1; 0x61; 0; 0; 0] ++ [2; 0; 0; 0; 0xf4; 3; 2; 2; 0x62; 0x63] ++ rest) as [rest Hc].
  { eexists. vm_compute. reflexivity. }
  split_and!.
  - split; [vm_compute; by repeat split|apply bytes_check; vm_compute; reflexivity| | |done|by exists 1];
      apply Z.leb_le; vm_compute; reflexivity.
  - rewrite Hsz. intros i Hi. assert (i = 0) as -> by lia. split; [done|].
    assert (path demo_fs demo_dir.1 demo_dir.2 0 = [11]) as Hp by (vm_compute; reflexivity).
    unfold path_ok. rewrite Hp. apply Forall_singleton. right. unfold in_fs.
    change (blocks_count (superblock demo_fs)) with 16. lia.
  - by apply (two_entries _ _ _ _ rest).
Qed.

(** An empty directory whose block is a hole: a record of length 0. *)
Definition hole_dir : INode :=
  mkINode 12 (set_data (data (new_inode 12 Directory)) 1024 (replicate 15 0)) false.

Lemma hole_dir_ok :
  (∀ i, 0 ≤ i * 1024 < size (data hole_dir) → 0 ≤ i < max_blocks 1024 ∧ path_ok demo_fs demo_dev hole_dir i) ∧
  entries demo_fs hole_dir demo_dev 0 [(0, [])] true.
Proof.
  split.
  - change (size (data hole_dir)) with 1024. intros i Hi. assert (i = 0) as -> by lia. split; [done|].
    apply Forall_cons. split; [by left|constructor].
  - apply ent_zero. assert (content demo_fs demo_dev hole_dir 0 = zrep 1024 0) as Hc by (vm_compute; reflexivity).
    split; change (fs_block_size demo_fs) with 1024; change (0 / 1024) with 0; change (0 mod 1024) with 0;
      rewrite ?Hc; try done. by exists 0.
Qed.

