(* ===== verification/RamFs.v ===== *)
(** * The RAM file system (src/fs/ramfs.rs)

    Inodes are shared objects with mutable contents; the vector [inodes] of the
    file system holds all of them, so an [Arc<RamInode>] is its index in that
    vector.  File systems are never dropped while mounted, so upgrading the
    weak reference of an inode to its file system succeeds. *)

From S2P Require Import Prelude Bytes FsTypes.

Inductive RamInodeKind : Type :=
| RFile (data : list Z)
| RDir (entries : gmap string Z).

Record RamInode : Type := mkRamInode { number : Z; kind : RamInodeKind }.

Record RamFilesystem : Type := mkRam {
  inodes : list RamInode;
  fs_id : option Z;
}.

Abbreviation ROp A := (M RamFilesystem FsError A).

(** ** The file system *)

Definition set_inodes (l : list RamInode) (s : RamFilesystem) : RamFilesystem := mkRam l (fs_id s).

Definition new : RamFilesystem := mkRam [mkRamInode 0 (RDir ∅)] None.

Definition alloc_inode (k : RamInodeKind) : ROp Z := λ s,
  let n := zlen (inodes s) in
  Ok (n, set_inodes (inodes s ++ [mkRamInode n k]) s).

Definition get_inode (inumber : Z) (s : RamFilesystem) : res FsError Z :=
  match zat (inodes s) inumber with Some _ => Ok inumber | None => Err FsError.NotFound end.

Definition get_root (s : RamFilesystem) : res FsError Z := get_inode 0 s.

Definition set_filesystem_id (id : option Z) (s : RamFilesystem) : RamFilesystem := mkRam (inodes s) id.

Definition get_filesystem_id (s : RamFilesystem) : res FsError Z :=
  match fs_id s with Some id => Ok id | None => Err FsError.NotFound end.

(** ** Inodes *)

(** The object behind a reference, and replacing its contents. *)
Definition the_inode (i : Z) (s : RamFilesystem) : res FsError RamInode := unwrap (zat (inodes s) i).
Definition set_kind (i : Z) (k : RamInodeKind) : ROp unit := λ s,
  match zat (inodes s) i with
  | Some n => Ok (tt, set_inodes (splice (inodes s) i [mkRamInode (number n) k]) s)
  | None => Panic
  end.

Definition as_dir (i : Z) (s : RamFilesystem) : res FsError (gmap string Z) :=
  let? n := the_inode i s in
  match kind n with RDir entries => Ok entries | _ => Err FsError.InvalidOperation end.

Definition as_file (i : Z) (s : RamFilesystem) : res FsError (list Z) :=
  let? n := the_inode i s in
  match kind n with RFile data => Ok data | _ => Err FsError.InvalidOperation end.

(** A read of the state. *)
Definition reading {A} (f : RamFilesystem → res FsError A) : ROp A := λ s, mlift (f s) s.

Definition get_inumber (i : Z) (s : RamFilesystem) : res FsError Z :=
  let? n := the_inode i s in Ok (number n).

Definition get_type (i : Z) (s : RamFilesystem) : res FsError INodeType :=
  let? n := the_inode i s in
  Ok (match kind n with RFile _ => File | RDir _ => Directory end).

(** [Vec::resize(n, 0)]: a vector of more than [isize::MAX] bytes is a panic.  That
    the heap has the memory is taken as given. *)
Definition resized (l : list Z) (n : Z) : list Z := take (Z.to_nat n) l ++ zrep (n - zlen l) 0.
Definition resize {E} (l : list Z) (n : Z) : res E (list Z) := if n <=? isize_max then Ok (resized l n) else Panic.

(** [read_page] fills the page buffer [page]. *)
Definition read_page (i : Z) (page : list Z) (offset : Z) : ROp (Z * list Z) :=
  let! data := reading (as_file i) in
  let page := zrep PAGE_SIZE 0 in
  if zlen data <=? offset then mret (0, page)
  else
    let len := Z.min PAGE_SIZE (zlen data - offset) in
    let! src := mlift (slice data offset (offset + len)) in
    let! page := mlift (copy_at page 0 len src) in
    mret (len, page).

Definition write_page (i : Z) (page : list Z) (offset : Z) : ROp Z :=
  let! data := reading (as_file i) in
  let endp := saturating_add offset PAGE_SIZE in
  let! data := mlift (if zlen data <? endp then resize data endp else Ok data) in
  let! data := mlift (copy_at data offset endp page) in
  let! _ := set_kind i (RFile data) in
  mret PAGE_SIZE.

Definition lookup (i : Z) (target : string) (s : RamFilesystem) : res FsError Z :=
  let? entries := as_dir i s in
  match entries !! target with
  | Some inumber => get_inode inumber s
  | None => Err FsError.NotFound
  end.

Definition add_entry (i : Z) (target : string) (inumber : Z) (inode_type : INodeType) : ROp unit :=
  let! entries := reading (as_dir i) in
  match entries !! target with
  | Some _ => mfail FsError.AlreadyExists
  | None => set_kind i (RDir (<[target := inumber]> entries))
  end.

Definition create_child (i : Z) (name : string) (inode_type : INodeType) : ROp Z :=
  let create k :=
    let! inode := alloc_inode k in
    let! _ := add_entry i name inode inode_type in
    mret inode in
  match inode_type with
  | File => create (RFile [])
  | Directory => create (RDir ∅)
  | _ => mfail FsError.InvalidOperation
  end.

Definition node_size (i : Z) (s : RamFilesystem) : res FsError Z :=
  let? n := the_inode i s in
  Ok (match kind n with RFile data => zlen data | RDir entries => Z.of_nat (size entries) end).

Definition read_unaligned (i offset : Z) (buffer : list Z) : ROp (Z * list Z) :=
  let! data := reading (as_file i) in
  if zlen data <=? offset then mret (0, buffer)
  else
    let len := Z.min (zlen buffer) (zlen data - offset) in
    let! src := mlift (slice data offset (offset + len)) in
    let! buffer := mlift (copy_at buffer 0 len src) in
    mret (len, buffer).

Definition write_unaligned (i offset : Z) (buffer : list Z) : ROp Z :=
  let! data := reading (as_file i) in
  let! endp := mlift (uadd offset (zlen buffer)) in
  let! data := mlift (if zlen data <? endp then resize data endp else Ok data) in
  let! data := mlift (copy_at data offset endp buffer) in
  let! _ := set_kind i (RFile data) in
  mret (zlen buffer).

Definition get_inode_key (i : Z) (s : RamFilesystem) : res FsError INodeKey :=
  let? id := get_filesystem_id s in
  let? n := the_inode i s in
  Ok (mkKey id (number n)).

(** ** The invariant *)

(** Inodes know their place, the root is a directory, and every entry of a
    directory names an inode there is. *)
Record ram_inv (s : RamFilesystem) : Prop := {
  ri_number i n : zat (inodes s) i = Some n → number n = i;
  ri_root : ∃ n e, zat (inodes s) 0 = Some n ∧ kind n = RDir e;
  ri_entry i n e name j : zat (inodes s) i = Some n → kind n = RDir e → e !! name = Some j →
    0 ≤ j < zlen (inodes s);
}.

(** The contents of the object [i]. *)
Definition kind_at (s : RamFilesystem) (i : Z) : option RamInodeKind := kind <$> zat (inodes s) i.

Lemma kind_at_Some s i k : kind_at s i = Some k → ∃ n, zat (inodes s) i = Some n ∧ kind n = k.
Proof. unfold kind_at. intros (n & -> & ?)%fmap_Some. eauto. Qed.

Lemma as_file_ok s i data : kind_at s i = Some (RFile data) → as_file i s = Ok data.
Proof. intros (n & E & Hk)%kind_at_Some. unfold as_file, the_inode. rewrite E. simpl. by rewrite Hk. Qed.

Lemma as_dir_ok s i e : kind_at s i = Some (RDir e) → as_dir i s = Ok e.
Proof. intros (n & E & Hk)%kind_at_Some. unfold as_dir, the_inode. rewrite E. simpl. by rewrite Hk. Qed.

Lemma set_kind_ok s i n k :
  zat (inodes s) i = Some n →
  ∃ s', set_kind i k s = Ok (tt, s') ∧ fs_id s' = fs_id s ∧ zlen (inodes s') = zlen (inodes s) ∧
    ∀ j, zat (inodes s') j = if decide (j = i) then Some (mkRamInode (number n) k) else zat (inodes s) j.
Proof.
  intros E. unfold set_kind. rewrite E. eexists. split; [done|]. pose proof (zat_Some_range _ _ _ E).
  assert (zlen [mkRamInode (number n) k] = 1) as H1 by done. simpl. split_and!; [done|apply zlen_splice; lia|].
  intros j. rewrite zat_splice by lia. rewrite H1. case_decide; case_decide; try lia; [|done].
  replace (j - i) with 0 by lia. done.
Qed.

Lemma set_kind_kinds s i n k :
  zat (inodes s) i = Some n →
  ∃ s', set_kind i k s = Ok (tt, s') ∧ fs_id s' = fs_id s ∧ zlen (inodes s') = zlen (inodes s) ∧
    (∀ j, kind_at s' j = if decide (j = i) then Some k else kind_at s j) ∧
    (ram_inv s → (match k, kind n with RFile _, RFile _ => True | RDir e, RDir _ => ∀ name j, e !! name = Some j → 0 ≤ j < zlen (inodes s) | _, _ => False end) → ram_inv s').
Proof.
  intros E. destruct (set_kind_ok s i n k E) as (s' & Hrun & Hid & Hlen & Hat). exists s'. split_and!; try done.
  - intros j. unfold kind_at. rewrite Hat. by case_decide.
  - intros [Hnum (n0 & e0 & Hn0 & He0) Hent] Hk. split.
    + intros j m. rewrite Hat. case_decide; [|by eauto]. intros [= <-]. simpl. subst. eauto.
    + rewrite Hat. case_decide; [|by eauto]. subst. rewrite E in Hn0. injection Hn0 as ->. rewrite He0 in Hk.
      destruct k as [|e]; [done|]. eauto.
    + intros j m e name j'. rewrite Hat, Hlen. case_decide; [|by eauto]. intros [= <-]. simpl. intros ->.
      destruct (kind n); [done|]. apply Hk.
Qed.

(** ** File contents *)

Lemma zlen_resize l n : zlen l ≤ n → zlen (resized l n) = n.
Proof.
  intros Hn. pose proof (zlen_nonneg l). unfold resized. rewrite zlen_app, zlen_rep by lia.
  rewrite take_ge by (unfold zlen in *; lia). lia.
Qed.

Lemma zat_resize l n k :
  zlen l ≤ n → 0 ≤ k < n → zat (resized l n) k = Some (default 0 (zat l k)).
Proof.
  intros Hn Hk. unfold resized. rewrite take_ge by (unfold zlen in *; lia).
  unfold zat, zlen in *. destruct (Z.ltb_spec k 0); [lia|].
  destruct (decide (k < Z.of_nat (length l))).
  - rewrite lookup_app_l by lia. destruct (lookup_lt_is_Some_2 l (Z.to_nat k)) as [x Hx]; [lia|]. by rewrite Hx.
  - rewrite lookup_app_r by lia. rewrite (lookup_ge_None_2 l) by lia. simpl. unfold zrep.
    apply lookup_replicate_2. lia.
Qed.

(** What a write of [buf] at [off] makes of [data]: the range holds [buf], a gap
    behind the old end reads as zeroes, everything else stays. *)
Definition written (data : list Z) (off : Z) (buf data' : list Z) : Prop :=
  zlen data' = Z.max (zlen data) (off + zlen buf) ∧
  ∀ k, 0 ≤ k < zlen data' →
    zat data' k = if decide (off ≤ k < off + zlen buf) then zat buf (k - off)
                  else Some (default 0 (zat data k)).

Lemma isize_usize n : n ≤ isize_max → n ≤ usize_max.
Proof. unfold isize_max, usize_max. lia. Qed.
Lemma grow_ok {E} data endp : endp ≤ isize_max →
  (if zlen data <? endp then resize data endp else Ok data) = Ok (E := E) (if zlen data <? endp then resized data endp else data).
Proof. intros He. unfold resize. destruct (zlen data <? endp); [|done]. by rewrite (proj2 (Z.leb_le _ _) He). Qed.
Lemma grow_overflow {E} data endp : zlen data ≤ isize_max → isize_max < endp →
  (if zlen data <? endp then resize data endp else Ok data) = Panic (E := E).
Proof. intros Hd He. unfold resize. rewrite (proj2 (Z.ltb_lt _ _)) by lia. by rewrite (proj2 (Z.leb_gt _ _) He). Qed.
Lemma grow_splice data off buf :
  0 ≤ off →
  let endp := off + zlen buf in
  let grown := if zlen data <? endp then resized data endp else data in
  @copy_at FsError Z grown off endp buf = Ok (splice grown off buf) ∧ written data off buf (splice grown off buf).
Proof.
  intros Ho endp grown. pose proof (zlen_nonneg buf). pose proof (zlen_nonneg data).
  assert (zlen grown = Z.max (zlen data) endp) as Hlen.
  { subst grown. zcase; [rewrite zlen_resize; lia|lia]. }
  assert (∀ k, 0 ≤ k < zlen grown → zat grown k = Some (default 0 (zat data k))) as Hat.
  { intros k Hk. subst grown. destruct (Z.ltb_spec (zlen data) endp); [rewrite zat_resize by lia; done|].
    destruct (zat_is_Some data k) as [x Hx]; [lia|]. by rewrite Hx. }
  split; [apply copy_at_ok; unfold endp in *; lia|]. assert (zlen (splice grown off buf) = zlen grown) as Hs by (apply zlen_splice; unfold endp in *; lia).
  split; [lia|]. intros k Hk. rewrite zat_splice by (unfold endp in *; lia). case_decide; [done|]. apply Hat. lia.
Qed.

(** Only the object [i] differs between [s] and [s']. *)
Definition only (i : Z) (s s' : RamFilesystem) : Prop :=
  fs_id s' = fs_id s ∧ zlen (inodes s') = zlen (inodes s) ∧ ∀ j, j ≠ i → kind_at s' j = kind_at s j.

Lemma put_file s i data data' :
  ram_inv s → kind_at s i = Some (RFile data) →
  ∃ s', set_kind i (RFile data') s = Ok (tt, s') ∧ kind_at s' i = Some (RFile data') ∧ only i s s' ∧ ram_inv s'.
Proof.
  intros Hi (n & En & Hn)%kind_at_Some. destruct (set_kind_kinds s i n (RFile data') En) as (s' & Hrun & ? & ? & Hk & Hinv).
  exists s'. split_and!; [done|by rewrite Hk, decide_True|split_and!; [done..|]|].
  - intros j ?. by rewrite Hk, decide_False.
  - apply Hinv; [done|]. by rewrite Hn.
Qed.

(** Files hold what is written to them: a write changes exactly its range,
    grows the file when it ends behind it, with zeroes in the gap, and leaves
    every other inode alone. *)
Lemma ram_write_spec s i data offset buffer :
  ram_inv s → kind_at s i = Some (RFile data) → 0 ≤ offset → offset + zlen buffer ≤ isize_max →
  ∃ s' data', write_unaligned i offset buffer s = Ok (zlen buffer, s') ∧
    kind_at s' i = Some (RFile data') ∧ written data offset buffer data' ∧ only i s s' ∧ ram_inv s'.
Proof.
  intros Hi Hd Ho Hb. unfold write_unaligned, reading.
  rewrite (mbind_ok _ _ _ data s) by (apply mlift_ok; by apply as_file_ok).
  rewrite (mbind_ok _ _ _ _ _ (mlift_ok _ _ _ (uadd_ok offset (zlen buffer) (isize_usize _ Hb)))), (mbind_ok _ _ _ _ _ (mlift_ok _ _ _ (grow_ok data _ Hb))).
  destruct (grow_splice data offset buffer Ho) as [Hc Hw]. rewrite (mbind_ok _ _ _ _ _ (mlift_ok _ _ _ Hc)).
  destruct (put_file s i data (splice (if zlen data <? offset + zlen buffer then resized data (offset + zlen buffer) else data) offset buffer) Hi Hd)
    as (s' & Hrun & ? & ? & ?). rewrite (mbind_ok _ _ _ _ _ Hrun). eexists s', _. by split_and!.
Qed.

Lemma ram_read_spec s i data offset buffer :
  kind_at s i = Some (RFile data) → 0 ≤ offset →
  let n := Z.max 0 (Z.min (zlen buffer) (zlen data - offset)) in
  read_unaligned i offset buffer s = Ok (n, splice buffer 0 (sub data offset n), s).
Proof.
  intros Hd Ho n. pose proof (zlen_nonneg buffer). pose proof (zlen_nonneg data). unfold read_unaligned, reading.
  rewrite (mbind_ok _ _ _ data s) by (apply mlift_ok; by apply as_file_ok). cbv zeta.
  destruct (Z.leb_spec (zlen data) offset).
  { replace n with 0 by lia. by rewrite sub_0, splice_nil. }
  replace (Z.min (zlen buffer) (zlen data - offset)) with n by lia.
  rewrite (mbind_ok _ _ _ _ _ (mlift_ok _ _ _ (slice_ok data offset (offset + n) ltac:(lia) ltac:(lia) ltac:(lia)))).
  replace (offset + n - offset) with n by lia.
  rewrite (mbind_ok _ _ _ (splice buffer 0 (sub data offset n)) s); [done|].
  apply mlift_ok, copy_at_ok; [lia..|]. rewrite zlen_sub; lia.
Qed.

Lemma ram_read_page_spec s i data page offset :
  kind_at s i = Some (RFile data) → 0 ≤ offset →
  let n := Z.max 0 (Z.min PAGE_SIZE (zlen data - offset)) in
  read_page i page offset s = Ok (n, splice (zrep PAGE_SIZE 0) 0 (sub data offset n), s).
Proof.
  intros Hd Ho n. pose proof (zlen_nonneg data). unfold read_page, reading. unfold PAGE_SIZE in *.
  rewrite (mbind_ok _ _ _ data s) by (apply mlift_ok; by apply as_file_ok). cbv zeta.
  destruct (Z.leb_spec (zlen data) offset).
  { replace n with 0 by lia. by rewrite sub_0, splice_nil. }
  replace (Z.min 4096 (zlen data - offset)) with n by lia.
  rewrite (mbind_ok _ _ _ _ _ (mlift_ok _ _ _ (slice_ok data offset (offset + n) ltac:(lia) ltac:(lia) ltac:(lia)))).
  replace (offset + n - offset) with n by lia.
  rewrite (mbind_ok _ _ _ (splice (zrep 4096 0) 0 (sub data offset n)) s); [done|].
  apply mlift_ok, copy_at_ok; [lia|rewrite zlen_rep; lia|]. rewrite zlen_sub; lia.
Qed.

Lemma ram_write_page_spec s i data page offset :
  ram_inv s → kind_at s i = Some (RFile data) → 0 ≤ offset → offset + PAGE_SIZE ≤ isize_max → zlen page = PAGE_SIZE →
  ∃ s' data', write_page i page offset s = Ok (PAGE_SIZE, s') ∧
    kind_at s' i = Some (RFile data') ∧ written data offset page data' ∧ only i s s' ∧ ram_inv s'.
Proof.
  intros Hi Hd Ho Hb Hp. unfold write_page, reading.
  rewrite (mbind_ok _ _ _ data s) by (apply mlift_ok; by apply as_file_ok). cbv zeta.
  replace (saturating_add offset PAGE_SIZE) with (offset + zlen page) by (apply isize_usize in Hb; unfold saturating_add; lia).
  rewrite <-Hp in Hb. rewrite (mbind_ok _ _ _ _ _ (mlift_ok _ _ _ (grow_ok data _ Hb))).
  destruct (grow_splice data offset page Ho) as [Hc Hw]. rewrite (mbind_ok _ _ _ _ _ (mlift_ok _ _ _ Hc)).
  destruct (put_file s i data (splice (if zlen data <? offset + zlen page then resized data (offset + zlen page) else data) offset page) Hi Hd)
    as (s' & Hrun & ? & ? & ?). rewrite (mbind_ok _ _ _ _ _ Hrun). eexists s', _. by split_and!.
Qed.

(** ** Directories *)

Lemma lookup_listed s i e name j :
  ram_inv s → kind_at s i = Some (RDir e) → e !! name = Some j → lookup i name s = Ok j.
Proof.
  intros Hi Hd Hj. unfold lookup. rewrite (as_dir_ok _ _ _ Hd). cbn [rbind]. rewrite Hj.
  apply kind_at_Some in Hd as (n & En & Hn). pose proof (ri_entry _ Hi _ _ _ _ _ En Hn Hj) as Hr.
  unfold get_inode. by destruct (zat_is_Some (inodes s) j Hr) as [x ->].
Qed.

Lemma alloc_inode_spec s k :
  ram_inv s → (match k with RFile _ => True | RDir e => e = ∅ end) →
  let s' := set_inodes (inodes s ++ [mkRamInode (zlen (inodes s)) k]) s in
  alloc_inode k s = Ok (zlen (inodes s), s') ∧ ram_inv s' ∧ zlen (inodes s') = zlen (inodes s) + 1 ∧
  ∀ j, kind_at s' j = if decide (j = zlen (inodes s)) then Some k else kind_at s j.
Proof.
  intros [Hnum (n0 & e0 & Hn0 & He0) Hent] Hk s'. set (L := zlen (inodes s)) in *.
  assert (zlen (inodes s') = L + 1) as Hlen by (simpl; rewrite zlen_app; done).
  assert (∀ j, zat (inodes s') j = if decide (j = L) then Some (mkRamInode L k) else zat (inodes s) j) as Hat.
  { intros j. simpl. unfold zat, L, zlen in *. destruct (Z.ltb_spec j 0).
    { rewrite decide_False by lia. done. }
    case_decide as E.
    - subst j. rewrite Nat2Z.id. rewrite lookup_app_r, Nat.sub_diag by lia. done.
    - destruct (decide (j < Z.of_nat (length (inodes s)))); [by rewrite lookup_app_l by lia|].
      rewrite (lookup_ge_None_2 (inodes s)), lookup_ge_None_2 by (rewrite ?length_app; simpl; lia). done. }
  split_and!; [done| |done|].
  - split.
    + intros i n. rewrite Hat. case_decide; [|eauto]. intros [= <-]. done.
    + rewrite Hat. case_decide as E; [|eauto]. pose proof (zat_Some_range _ _ _ Hn0). lia.
    + intros i n e name j. rewrite Hat, Hlen. case_decide.
      * intros [= <-]. simpl. intros ->. rewrite Hk. by rewrite lookup_empty.
      * intros ??? . assert (0 ≤ j < L) by eauto. lia.
  - intros j. unfold kind_at. rewrite Hat. by case_decide.
Qed.

Definition empty_kind (ty : INodeType) : RamInodeKind :=
  match ty with Directory => RDir ∅ | _ => RFile [] end.

Lemma add_entry_new s i e name j ty :
  ram_inv s → kind_at s i = Some (RDir e) → e !! name = None → 0 ≤ j < zlen (inodes s) →
  ∃ s', add_entry i name j ty s = Ok (tt, s') ∧ ram_inv s' ∧ kind_at s' i = Some (RDir (<[name := j]> e)) ∧ only i s s'.
Proof.
  intros Hi Hd Hn Hj. unfold add_entry, reading. rewrite (mbind_ok _ _ _ e s) by (apply mlift_ok; by apply as_dir_ok).
  rewrite Hn. apply kind_at_Some in Hd as (n & En & Hk).
  destruct (set_kind_kinds s i n (RDir (<[name := j]> e)) En) as (s' & Hrun & ? & ? & Hks & Hinv).
  exists s'. split_and!; [done| |by rewrite Hks, decide_True|split_and!; [done..|]].
  - apply Hinv; [done|]. rewrite Hk. intros nm j'. rewrite lookup_insert_Some.
    intros [[_ <-]|[_ ?]]; [done|by eapply ri_entry].
  - intros j' ?. by rewrite Hks, decide_False.
Qed.

Lemma create_child_eq i name ty :
  ty = File ∨ ty = Directory →
  create_child i name ty =
    (let! inode := alloc_inode (empty_kind ty) in let! _ := add_entry i name inode ty in mret inode).
Proof. by intros [-> | ->]. Qed.

Lemma create_child_new s i e name ty :
  ram_inv s → kind_at s i = Some (RDir e) → ty = File ∨ ty = Directory → e !! name = None →
  let n := zlen (inodes s) in
  ∃ s', create_child i name ty s = Ok (n, s') ∧ ram_inv s' ∧ lookup i name s' = Ok n ∧
      kind_at s' n = Some (empty_kind ty) ∧ kind_at s' i = Some (RDir (<[name := n]> e)) ∧
      fs_id s' = fs_id s ∧ zlen (inodes s') = n + 1 ∧ ∀ j, j ≠ i → j ≠ n → kind_at s' j = kind_at s j.
Proof.
  intros Hi Hd Hty E n. rewrite create_child_eq by done.
  destruct (alloc_inode_spec s (empty_kind ty) Hi) as (Hrun & Hi1 & Hlen & Hk); [by destruct Hty as [-> | ->]|].
  set (s1 := set_inodes _ s) in *. fold n in Hrun, Hlen, Hk. rewrite (mbind_ok _ _ _ _ _ Hrun).
  assert (i ≠ n) as Hne. { apply kind_at_Some in Hd as (? & ?%zat_Some_range & _). lia. }
  assert (kind_at s1 i = Some (RDir e)) as Hd1 by (by rewrite Hk, decide_False).
  destruct (add_entry_new s1 i e name n ty Hi1 Hd1 E) as (s2 & Hrun2 & Hi2 & Hd2 & Hid & Hlen2 & Hoth).
  { pose proof (zlen_nonneg (inodes s)). lia. }
  exists s2. rewrite (mbind_ok _ _ _ _ _ Hrun2).
  split_and!; [done|done| |rewrite Hoth, Hk, decide_True by done; done|done|done|lia|].
  - eapply lookup_listed; [done..|]. apply lookup_insert_eq.
  - intros j ??. by rewrite Hoth, Hk, decide_False.
Qed.

Lemma create_child_taken s i e name ty m :
  ram_inv s → kind_at s i = Some (RDir e) → ty = File ∨ ty = Directory → e !! name = Some m →
  let n := zlen (inodes s) in
  ∃ s', create_child i name ty s = Err (FsError.AlreadyExists, s') ∧ ram_inv s' ∧
      zlen (inodes s') = n + 1 ∧ ∀ j, j ≠ n → kind_at s' j = kind_at s j.
Proof.
  intros Hi Hd Hty E n. rewrite create_child_eq by done.
  destruct (alloc_inode_spec s (empty_kind ty) Hi) as (Hrun & Hi1 & Hlen & Hk); [by destruct Hty as [-> | ->]|].
  set (s1 := set_inodes _ s) in *. fold n in Hrun, Hlen, Hk. rewrite (mbind_ok _ _ _ _ _ Hrun).
  exists s1. split_and!; [|done|done|intros j' ?; by rewrite Hk, decide_False].
  unfold add_entry, reading. apply mbind_err. rewrite (mbind_ok _ _ _ e s1); [by rewrite E|].
  apply mlift_ok, as_dir_ok. rewrite Hk, decide_False; [done|].
  intros ->. apply kind_at_Some in Hd as (? & ?%zat_Some_range & _). lia.
Qed.

(** C37: Creating a child of a directory adds one empty inode under the name and
    [lookup] finds it; when the name is taken the call fails with
    [AlreadyExists], the directory is as before, and the new inode stays behind
    without a name. *)
Theorem ram_create_correct s i e name ty :
  ram_inv s → kind_at s i = Some (RDir e) → ty = File ∨ ty = Directory →
  let n := zlen (inodes s) in
  match e !! name with
  | None => ∃ s', create_child i name ty s = Ok (n, s') ∧ ram_inv s' ∧ lookup i name s' = Ok n ∧
      kind_at s' n = Some (empty_kind ty) ∧ kind_at s' i = Some (RDir (<[name := n]> e)) ∧
      ∀ j, j ≠ i → j ≠ n → kind_at s' j = kind_at s j
  | Some _ => ∃ s', create_child i name ty s = Err (FsError.AlreadyExists, s') ∧ ram_inv s' ∧
      zlen (inodes s') = n + 1 ∧ ∀ j, j ≠ n → kind_at s' j = kind_at s j
  end.
Proof.
  intros Hi Hd Hty n. destruct (e !! name) as [m|] eqn:E; [by eapply create_child_taken|].
  destruct (create_child_new s i e name ty Hi Hd Hty E) as (s' & ? & ? & ? & ? & ? & _ & _ & ?). by exists s'.
Qed.

(** ** What every call on an inode keeps *)

Definition kind_type (k : RamInodeKind) : INodeType := match k with RFile _ => File | RDir _ => Directory end.

(** Inodes are never dropped and keep their type. *)
Definition ram_le (s s' : RamFilesystem) : Prop :=
  (ram_inv s → ram_inv s') ∧ fs_id s' = fs_id s ∧
  ∀ i k, kind_at s i = Some k → ∃ k', kind_at s' i = Some k' ∧ kind_type k' = kind_type k.

#[export] Instance ram_le_preorder : PreOrder ram_le.
Proof.
  split.
  - intros s. split_and!; [done|done|eauto].
  - intros s1 s2 s3 (? & Hid & H1) (? & Hid' & H2). split_and!; [naive_solver|by rewrite Hid'|].
    intros i k (k1 & E1 & ?)%H1. destruct (H2 _ _ E1) as (k2 & ? & ?). exists k2. split; [done|congruence].
Qed.

Lemma alloc_inode_le s k n s' :
  ram_inv s → (match k with RFile _ => True | RDir e => e = ∅ end) → alloc_inode k s = Ok (n, s') →
  ram_le s s' ∧ kind_at s' n = Some k ∧ n = zlen (inodes s).
Proof.
  intros Hs Hk E. destruct (alloc_inode_spec s k Hs Hk) as (E' & Hi & _ & Hks). rewrite E in E'. simplify_eq.
  split_and!; [|by rewrite Hks, decide_True|done]. split_and!; [done|done|]. intros i k' Hi'. exists k'.
  rewrite Hks, decide_False; [done|]. intros ->. apply kind_at_Some in Hi' as (? & ?%zat_Some_range & _). lia.
Qed.

Lemma create_child_le s i name ty :
  ram_inv s → is_Some (kind_at s i) →
  match create_child i name ty s with
  | Ok (n, s') => ram_le s s' ∧ is_Some (kind_at s' n)
  | Err (_, s') => ram_le s s'
  | Panic => False
  end.
Proof.
  intros Hs [k Hk]. assert ((ty = File ∨ ty = Directory) ∨ create_child i name ty s = Err (FsError.InvalidOperation, s)) as Hty.
  { destruct ty; auto. }
  destruct Hty as [Hty| ->]; [|done]. rewrite create_child_eq by done.
  destruct (alloc_inode (empty_kind ty) s) as [[n s1]| |] eqn:E; [|done..]. rewrite (mbind_ok _ _ _ _ _ E).
  destruct (alloc_inode_le s (empty_kind ty) n s1 Hs ltac:(by destruct Hty as [-> | ->]) E) as (Hle & Hn & Hlen).
  pose proof Hle as (Hinv & _ & Hkeep). specialize (Hinv Hs). destruct (Hkeep _ _ Hk) as (k1 & Hk1 & _).
  destruct k1 as [data|e].
  { unfold add_entry, reading. rewrite mbind_err with (e := FsError.InvalidOperation) (s' := s1); [done|].
    apply mbind_err. apply kind_at_Some in Hk1 as (m & Em & Hm). unfold as_dir, the_inode. rewrite Em. cbn. by rewrite Hm. }
  destruct (e !! name) as [j|] eqn:Ej.
  { rewrite mbind_err with (e := FsError.AlreadyExists) (s' := s1); [done|].
    unfold add_entry, reading. rewrite (mbind_ok _ _ _ e s1) by (apply mlift_ok; by apply as_dir_ok). by rewrite Ej. }
  destruct (add_entry_new s1 i e name n ty Hinv Hk1 Ej) as (s2 & E2 & Hi2 & Hd2 & Hid2 & _ & Hoth).
  { apply kind_at_Some in Hn as (? & ?%zat_Some_range & _). done. }
  rewrite (mbind_ok _ _ _ _ _ E2). simpl.
  assert (ram_le s1 s2) as Hle2.
  { split_and!; [done|done|]. intros j k' Hj. destruct (decide (j = i)) as [->|]; [|exists k'; by rewrite Hoth].
    exists (RDir (<[name := n]> e)). split; [done|]. rewrite Hk1 in Hj. by injection Hj as <-. }
  split; [by etrans|]. destruct Hle2 as (_ & _ & Hk2). destruct (Hk2 _ _ Hn) as (? & -> & _). done.
Qed.

(** ** Examples *)

Lemma ram_new_inv : ram_inv new.
Proof.
  assert (∀ i n, zat (inodes new) i = Some n → i = 0 ∧ n = mkRamInode 0 (RDir ∅)) as H.
  { intros i n E. pose proof (zat_Some_range _ _ _ E) as Hr. change (zlen (inodes new)) with 1 in Hr.
    assert (i = 0) as -> by lia. by injection E as <-. }
  split; [by intros i n [-> ->]%H|by eexists _, ∅|]. intros i n e name j [-> ->]%H [= <-]. by rewrite lookup_empty.
Qed.

Lemma ram_create_witness :
  ∃ s', create_child 0 "etc" Directory new = Ok (1, s') ∧ lookup 0 "etc" s' = Ok 1.
Proof.
  destruct (ram_create_correct new 0 ∅ "etc" Directory ram_new_inv eq_refl (or_intror eq_refl)) as (s' & E & _ & Hl & _).
  exists s'. split; [exact E|exact Hl].
Defined.
