(* ===== verification/FakeFs.v ===== *)
(** * The file system of anonymous files (src/fs/fake.rs)

    A [FakeINode] holds nothing but its number, so a reference to one is the
    number.  Files of this file system are read as zeroes and have no names:
    they are found by their [INodeKey] only. *)

From S2P Require Import Prelude Bytes FsTypes.

Record Fake : Type := mkFake {
  counter : Z;
  active : gset Z;
  fs_id : option Z;
}.

Abbreviation FOp A := (M Fake FsError A).

Definition new : Fake := mkFake 1 ∅ None.

(** [self_ref] is set by [new], so taking it succeeds. *)
Definition alloc_inode (inumber : Z) : res FsError Z := Ok inumber.

Definition get_inode (inumber : Z) (s : Fake) : res FsError Z :=
  if bool_decide (inumber = 0 ∨ inumber ∈ active s) then alloc_inode inumber else Err FsError.NotFound.

Definition get_root (s : Fake) : res FsError Z := get_inode 0 s.

Definition set_filesystem_id (id : option Z) (s : Fake) : Fake := mkFake (counter s) (active s) id.

Definition get_filesystem_id (s : Fake) : res FsError Z :=
  match fs_id s with Some id => Ok id | None => Err FsError.NotFound end.

Definition get_type (i : Z) : INodeType := if i =? 0 then Directory else File.

Definition create_child (i : Z) (name : string) (inode_type : INodeType) : FOp Z :=
  if bool_decide (i ≠ 0 ∨ inode_type ≠ File) then mfail FsError.InvalidOperation
  else
    let! s := mget in
    let inumber := counter s in
    let! _ := mput (mkFake (wrap 64 (inumber + 1)) (active s) (fs_id s)) in
    let! _ := mmodify (λ s, mkFake (counter s) ({[inumber]} ∪ active s) (fs_id s)) in
    mlift (alloc_inode inumber).

(** [read_page] fills the page buffer. *)
Definition read_page (i : Z) (page : list Z) (offset : Z) : FOp (Z * list Z) :=
  mret (PAGE_SIZE, zrep PAGE_SIZE 0).

Definition write_page (i : Z) (page : list Z) (offset : Z) : FOp Z := mfail FsError.NotImplemented.

Definition get_inode_key (i : Z) (s : Fake) : res FsError INodeKey :=
  match fs_id s with Some id => Ok (mkKey id i) | None => Err FsError.ReadError end.

(** The global [FAKE] is set during boot; the error is the message of the
    source. *)
Definition create_fake_file (fake : option Fake) : res string (INodeKey * Fake) :=
  match fake with
  | None => Err "could not get fake filesystem"
  | Some s =>
      match get_root s with
      | Ok root =>
          match create_child root EmptyString File s with
          | Ok (i, s') =>
              match get_inode_key i s' with
              | Ok key => Ok (key, s')
              | Err _ => Err "could not get inode key of fake filesystem"
              | Panic => Panic
              end
          | Err _ => Err "could not create child of fake filesystem"
          | Panic => Panic
          end
      | Err _ => Err "could not get root of fake filesystem"
      | Panic => Panic
      end
  end.

(** ** Invariant *)

Record fake_inv (s : Fake) : Prop := {
  fi_counter : 0 < counter s;
  fi_active i : i ∈ active s → 0 < i < counter s;
}.

Lemma fake_new_inv : fake_inv new.
Proof. split; simpl; [lia|]. intros i. set_solver. Qed.

Lemma create_child_spec s name :
  fake_inv s → counter s < usize_max →
  let s' := mkFake (counter s + 1) ({[counter s]} ∪ active s) (fs_id s) in
  create_child 0 name File s = Ok (counter s, s') ∧ fake_inv s' ∧ (counter s ∉ active s).
Proof.
  intros [Hc Ha] Hw s'. unfold create_child. rewrite bool_decide_eq_false_2 by (intros [?|?]; done). split_and!.
  - unfold mbind', mget, mput, mmodify, mlift, alloc_inode. cbn -[wrap]. unfold wrap. rewrite Z.mod_small; [done|].
    unfold usize_max in *. lia.
  - split; simpl; [lia|]. intros i [->%elem_of_singleton|?%Ha]%elem_of_union; lia.
  - intros ?%Ha. lia.
Qed.

(** Every call gives a file of its own. *)
Lemma create_fake_file_spec s id :
  fake_inv s → counter s < usize_max → fs_id s = Some id →
  ∃ s', create_fake_file (Some s) = Ok (mkKey id (counter s), s') ∧ fake_inv s' ∧ counter s' = counter s + 1 ∧
    get_inode (counter s) s' = Ok (counter s) ∧ get_inode (counter s) s = Err FsError.NotFound.
Proof.
  intros Hs Hw Hid. destruct (create_child_spec s EmptyString Hs Hw) as (E & Hs' & Hn). cbv zeta in *.
  eexists. unfold create_fake_file, get_root, get_inode at 1. rewrite bool_decide_eq_true_2 by (by left).
  unfold alloc_inode. rewrite E. unfold get_inode_key. simpl. rewrite Hid. split_and!; [done|by rewrite Hid in Hs'|done| |].
  - unfold get_inode. simpl. rewrite bool_decide_eq_true_2; [done|]. right. set_solver.
  - unfold get_inode. rewrite bool_decide_eq_false_2; [done|]. destruct Hs. intros [?|?]; [lia|done].
Qed.
