(* ===== verification/DevFs.v ===== *)
(** * The file system of devices (src/fs/dev.rs)

    The nodes of the file system are shared objects: the root and those in
    [devices], so a reference to a node is its number.  The devices themselves
    are shared objects too; [blocks] and [chars] hold the state of all of them
    and a [DeviceBackend] is a reference. *)

From S2P Require Import Prelude Bytes FsTypes BlockDevice CharDevice.

(** [enum DeviceBackend]. *)
Inductive DeviceBackend : Type :=
| BackendBlock (d : Z)
| BackendChar (d : Z).

Record DevINode : Type := mkDevINode {
  inumber : Z;
  device : option DeviceBackend;
  children : gmap string Z;
}.

Record Dev : Type := mkDev {
  counter : Z;
  devices : gmap Z DevINode;
  root : DevINode;
  fs_id : option Z;
}.

Definition new : Dev := mkDev 1 ∅ (mkDevINode 0 None ∅) None.

Definition add_device_node (name : string) (d : DeviceBackend) (s : Dev) : Dev :=
  let n := counter s in
  let inode := mkDevINode n (Some d) ∅ in
  let r := root s in
  mkDev (wrap 64 (n + 1)) (<[n := inode]> (devices s))
    (mkDevINode (inumber r) (device r) (<[name := n]> (children r))) (fs_id s).

Definition get_inode (i : Z) (s : Dev) : res FsError Z :=
  if i =? 0 then Ok 0
  else match devices s !! i with Some _ => Ok i | None => Err FsError.NotFound end.

Definition get_root (s : Dev) : res FsError Z := get_inode 0 s.

Definition set_filesystem_id (id : option Z) (s : Dev) : Dev := mkDev (counter s) (devices s) (root s) id.

Definition get_filesystem_id (s : Dev) : res FsError Z :=
  match fs_id s with Some id => Ok id | None => Err FsError.NotFound end.

(** The object behind a reference. *)
Definition the_node (i : Z) (s : Dev) : res FsError DevINode :=
  if i =? 0 then Ok (root s) else unwrap (devices s !! i).

Definition get_inumber (i : Z) (s : Dev) : res FsError Z :=
  let? n := the_node i s in Ok (inumber n).

Definition get_type (i : Z) (s : Dev) : res FsError INodeType :=
  let? n := the_node i s in
  Ok (match device n with
      | Some (BackendBlock _) => Block
      | Some (BackendChar _) => Char
      | None => Directory
      end).

Definition lookup (i : Z) (name : string) (s : Dev) : res FsError Z :=
  let? n := the_node i s in
  match children n !! name with Some child => Ok child | None => Err FsError.NotFound end.

Definition get_inode_key (i : Z) (s : Dev) : res FsError INodeKey :=
  let? n := the_node i s in
  match fs_id s with Some id => Ok (mkKey id (inumber n)) | None => Err FsError.ReadError end.

Section routing.
Context {D C : Type} `{BlockDevice D} `{!Device D} `{CharDevice C} `{!Device C}.

(** The file system with the devices it routes calls to. *)
Record DevWorld : Type := mkDevWorld { dev : Dev; blocks : Z → D; chars : Z → C }.

Abbreviation VOp A := (M DevWorld FsError A).

Definition upd {A} (f : Z → A) (i : Z) (a : A) : Z → A := λ j, if j =? i then a else f j.

(** A call on one device, its error replaced by [e] ([map_err]). *)
Definition on_block {A} (e : FsError) (d : Z) (m : M D BlockDeviceError A) : VOp A := λ s,
  match m (blocks s d) with
  | Ok (a, b) => Ok (a, mkDevWorld (dev s) (upd (blocks s) d b) (chars s))
  | Err (_, b) => Err (e, mkDevWorld (dev s) (upd (blocks s) d b) (chars s))
  | Panic => Panic
  end.

Definition on_char {A} (e : FsError) (d : Z) (m : M C CharDeviceError A) : VOp A := λ s,
  match m (chars s d) with
  | Ok (a, c) => Ok (a, mkDevWorld (dev s) (blocks s) (upd (chars s) d c))
  | Err (_, c) => Err (e, mkDevWorld (dev s) (blocks s) (upd (chars s) d c))
  | Panic => Panic
  end.

(** The device of a node. *)
Definition node_device (i : Z) : VOp (option DeviceBackend) := λ s,
  match the_node i (dev s) with Ok n => Ok (device n, s) | Err e => Err (e, s) | Panic => Panic end.

Definition read_unaligned (i offset : Z) (buffer : list Z) : VOp (Z * list Z) :=
  let! d := node_device i in
  match d with
  | Some (BackendBlock b) => on_block FsError.ReadError b (read offset buffer)
  | Some (BackendChar c) => on_char FsError.ReadError c (cd_read buffer offset)
  | None => mfail FsError.InvalidOperation
  end.

Definition write_unaligned (i offset : Z) (buffer : list Z) : VOp Z :=
  let! d := node_device i in
  match d with
  | Some (BackendBlock b) => on_block FsError.WriteError b (write offset buffer)
  | Some (BackendChar c) => on_char FsError.WriteError c (cd_write buffer offset)
  | None => mfail FsError.InvalidOperation
  end.

Definition seekable (i : Z) (s : DevWorld) : res FsError bool :=
  let? n := the_node i (dev s) in
  Ok (match device n with
      | Some (BackendBlock _) => true
      | Some (BackendChar c) => cd_seekable (chars s c)
      | None => false
      end).

Definition ioctl (i request arg : Z) : VOp Z :=
  let! d := node_device i in
  match d with
  | Some (BackendBlock b) => on_block FsError.ReadError b (λ x, Ok (dv_ioctl request arg x))
  | Some (BackendChar c) => on_char FsError.ReadError c (λ x, Ok (dv_ioctl request arg x))
  | None => mfail FsError.InvalidOperation
  end.

(** [register_devices], over the global lists of devices. *)
Fixpoint register_blocks (l : list Z) (s : DevWorld) : DevWorld :=
  match l with
  | [] => s
  | b :: l =>
      register_blocks l
        (match dv_requested_devfs_name (blocks s b) with
         | Some name => mkDevWorld (add_device_node name (BackendBlock b) (dev s)) (blocks s) (chars s)
         | None => s
         end)
  end.

Fixpoint register_chars (l : list Z) (s : DevWorld) : DevWorld :=
  match l with
  | [] => s
  | c :: l =>
      register_chars l
        (match dv_requested_devfs_name (chars s c) with
         | Some name => mkDevWorld (add_device_node name (BackendChar c) (dev s)) (blocks s) (chars s)
         | None => s
         end)
  end.

Definition register_devices (block_devices char_devices : list Z) (s : DevWorld) : DevWorld :=
  register_chars char_devices (register_blocks block_devices s).
End routing.
Arguments DevWorld : clear implicits.

(** ** Invariant *)

Record dev_inv (s : Dev) : Prop := {
  di_counter : 0 < counter s ≤ usize_max;
  di_root : inumber (root s) = 0 ∧ device (root s) = None;
  di_device i n : devices s !! i = Some n → 0 < i < counter s ∧ inumber n = i ∧ is_Some (device n) ∧ children n = ∅;
  di_children name j : children (root s) !! name = Some j → is_Some (devices s !! j);
}.

Lemma dev_new_inv : dev_inv new.
Proof. by split; simpl; [split| | |]. Qed.

Definition valid (i : Z) (s : Dev) : Prop := i = 0 ∨ is_Some (devices s !! i).

Lemma the_node_valid i s : dev_inv s → valid i s → ∃ n, the_node i s = Ok n ∧ inumber n = i ∧ (device n = None ↔ i = 0).
Proof.
  intros Hs Hi. unfold the_node. destruct (Z.eqb_spec i 0) as [->|Hne].
  { exists (root s). destruct (di_root s Hs). done. }
  destruct Hi as [?|[n Hn]]; [done|]. exists n. rewrite Hn. destruct (di_device s Hs _ _ Hn) as (_ & ? & [b Hb] & _).
  split_and!; [done|done|]. rewrite Hb. done.
Qed.

Lemma lookup_valid i name s j : dev_inv s → valid i s → lookup i name s = Ok j → valid j s.
Proof.
  intros Hs Hi. unfold lookup, the_node. destruct (Z.eqb_spec i 0).
  - cbn. destruct (children (root s) !! name) eqn:E; [|done]. intros [= <-]. right. by eapply di_children.
  - destruct Hi as [?|[n' Hn]]; [done|]. rewrite Hn. cbn. destruct (di_device s Hs _ _ Hn) as (_ & _ & _ & ->).
    by rewrite lookup_empty.
Qed.

Lemma add_device_node_spec s name b :
  dev_inv s → counter s < usize_max →
  let s' := add_device_node name b s in
  dev_inv s' ∧ counter s' = counter s + 1 ∧ (∀ i, valid i s → the_node i s' = the_node i s ∨ i = 0) ∧
  (∃ n, lookup 0 name s' = Ok (counter s) ∧ the_node (counter s) s' = Ok n ∧ device n = Some b) ∧
  ∀ name', name' ≠ name → lookup 0 name' s' = lookup 0 name' s.
Proof.
  intros [Hc Hr Hd Hch] Hw s'. subst s'. unfold add_device_node.
  assert (wrap 64 (counter s + 1) = counter s + 1) as -> by (unfold wrap; rewrite Z.mod_small; unfold usize_max in *; lia).
  assert (devices s !! counter s = None) as Hn.
  { destruct (devices s !! counter s) eqn:E; [|done]. apply Hd in E. lia. }
  split_and!; [split; simpl; [lia|done| |]|done| | |].
  - intros i n [[<- <-]|[? Hi]]%lookup_insert_Some; simpl.
    + split_and!; [lia|lia|done|by eexists|done].
    + destruct (Hd _ _ Hi) as ([??] & ? & ? & ?). split_and!; [lia|lia|done..].
  - intros nm j [[<- <-]|[? Hj]]%lookup_insert_Some; [rewrite lookup_insert_eq; by eexists|].
    apply lookup_insert_is_Some'. right. by eapply Hch.
  - intros i [->|[n Hi]]; [by right|]. left. unfold the_node. simpl. destruct (Z.eqb_spec i 0) as [->|]; [apply Hd in Hi; lia|].
    rewrite lookup_insert_ne by congruence. done.
  - unfold lookup, the_node. simpl. eexists. rewrite lookup_insert_eq. split_and!; [done| |].
    + destruct (Z.eqb_spec (counter s) 0); [lia|]. by rewrite lookup_insert_eq.
    + done.
  - intros name' Hne. unfold lookup, the_node. simpl. by rewrite lookup_insert_ne.
Qed.

(** ** Registration *)

(** The disk driver as a [Device]. *)
#[export] Instance virtio_Device {V} : Device (VirtIOBlkDiskDriver V) := {
  dv_ioctl := λ _ _ d, (0, d);
  dv_requested_devfs_name := λ _, Some "disk";
}.

Section register.
Context {D C : Type} `{!Device D} `{!Device C}.

(** The names asked for, in the order of registration. *)
Definition requests (bl cl : list Z) (s : DevWorld D C) : list (string * DeviceBackend) :=
  omap (λ b, (λ name, (name, BackendBlock b)) <$> dv_requested_devfs_name (blocks s b)) bl ++
  omap (λ c, (λ name, (name, BackendChar c)) <$> dv_requested_devfs_name (chars s c)) cl.

Definition add_all (l : list (string * DeviceBackend)) (d : Dev) : Dev :=
  foldl (λ d p, add_device_node p.1 p.2 d) d l.

Lemma register_devices_eq bl cl s :
  register_devices bl cl s = mkDevWorld (add_all (requests bl cl s) (dev s)) (blocks s) (chars s).
Proof.
  assert (∀ l (s : DevWorld D C), register_blocks l s = mkDevWorld (add_all (omap (λ b, (λ name, (name, BackendBlock b)) <$>
    dv_requested_devfs_name (blocks s b)) l) (dev s)) (blocks s) (chars s)) as Hb.
  { induction l as [|b l IH]; intros t; simpl; [by destruct t|]. destruct (dv_requested_devfs_name (blocks t b)); simpl; by rewrite IH. }
  assert (∀ l (s : DevWorld D C), register_chars l s = mkDevWorld (add_all (omap (λ c, (λ name, (name, BackendChar c)) <$>
    dv_requested_devfs_name (chars s c)) l) (dev s)) (blocks s) (chars s)) as Hc.
  { induction l as [|c l IH]; intros t; simpl; [by destruct t|]. destruct (dv_requested_devfs_name (chars t c)); simpl; by rewrite IH. }
  unfold register_devices, requests, add_all. rewrite Hc, Hb. simpl. by rewrite foldl_app.
Qed.

(** The last device of a list that asks for a name. *)
Fixpoint last_for (name : string) (l : list (string * DeviceBackend)) : option DeviceBackend :=
  match l with
  | [] => None
  | (nm, b) :: l =>
      match last_for name l with
      | Some b' => Some b'
      | None => if decide (nm = name) then Some b else None
      end
  end.

Lemma add_all_spec l : ∀ d,
  dev_inv d → counter d + zlen l ≤ usize_max →
  dev_inv (add_all l d) ∧ (∀ i, valid i d → the_node i (add_all l d) = the_node i d ∨ i = 0) ∧
  ∀ name, match last_for name l with
          | Some b => ∃ j n, lookup 0 name (add_all l d) = Ok j ∧ the_node j (add_all l d) = Ok n ∧ device n = Some b
          | None => lookup 0 name (add_all l d) = lookup 0 name d
          end.
Proof.
  induction l as [|[nm b] l IH]; intros d Hd Hc; [split_and!; [done|by left|done]|].
  unfold zlen in Hc. simpl in Hc. simpl.
  destruct (add_device_node_spec d nm b Hd) as (Hd1 & Hc1 & Hv1 & (n & Hl & Hn & Hb) & Ho); [lia|].
  destruct (IH _ Hd1) as (Hd2 & Hv2 & Hs); [unfold zlen; lia|]. change (foldl _ _ l) with (add_all l (add_device_node nm b d)).
  assert (∀ i, valid i d → valid i (add_device_node nm b d)) as Hval.
  { intros i [->|Hi]; [by left|right]. simpl. apply lookup_insert_is_Some'. by right. }
  split_and!; [done| |].
  - intros i Hi. destruct (Hv2 i (Hval i Hi)) as [->|]; [by apply Hv1|by right].
  - intros name. specialize (Hs name). destruct (last_for name l) as [b'|]; [done|]. case_decide as E.
    + subst nm. exists (counter d), n. rewrite Hs. split_and!; [done| |done].
      destruct (Hv2 (counter d)) as [->|E]; [|done|destruct (di_counter _ Hd); lia]. right. simpl. rewrite lookup_insert_eq. by eexists.
    + rewrite Hs. by apply Ho.
Qed.
End register.

(** After [register_devices] a name requested by some device leads to the
    last device that requests it, any other name leads where it led before,
    and the table of devices is well formed. *)
Lemma register_devices_correct D C `{!Device D} `{!Device C} (s : DevWorld D C) bl cl :
  dev_inv (dev s) → counter (dev s) + zlen (requests bl cl s) ≤ usize_max →
  let s' := register_devices bl cl s in
  dev_inv (dev s') ∧ blocks s' = blocks s ∧ chars s' = chars s ∧
  ∀ name, match last_for name (requests bl cl s) with
          | Some b => ∃ j n, lookup 0 name (dev s') = Ok j ∧ the_node j (dev s') = Ok n ∧ device n = Some b
          | None => lookup 0 name (dev s') = lookup 0 name (dev s)
          end.
Proof. intros Hs Hc. cbv zeta. rewrite register_devices_eq. destruct (add_all_spec (requests bl cl s) (dev s)) as (?&?&?); done. Qed.

(** A kernel with two disks and a framebuffer. *)
Definition demo_devices : DevWorld (VirtIOBlkDiskDriver MemDisk) LimineFramebuffer :=
  mkDevWorld new (λ _, virtio_new (mkMem [])) (λ _, mkLimineFb (mkFb 2 4 (zrep 8 0)) 8).

Lemma register_devices_witness :
  let s' := register_devices [0; 1] [0] demo_devices in
  (∃ j n, lookup 0 "disk" (dev s') = Ok j ∧ the_node j (dev s') = Ok n ∧ device n = Some (BackendBlock 1)) ∧
  (∃ j n, lookup 0 "fb" (dev s') = Ok j ∧ the_node j (dev s') = Ok n ∧ device n = Some (BackendChar 0)).
Proof.
  intros s'. assert (requests [0; 1] [0] demo_devices = [("disk", BackendBlock 0); ("disk", BackendBlock 1); ("fb", BackendChar 0)]) as E.
  { reflexivity. }
  destruct (register_devices_correct _ _ demo_devices [0; 1] [0] dev_new_inv) as (_ & _ & _ & H).
  { rewrite E. change (1 + 3 ≤ usize_max). unfold usize_max. lia. }
  rewrite E in H. fold s' in H. split; [exact (H "disk")|exact (H "fb")].
Defined.
