(* ===== verification/Vfs.v ===== *)
(** * The virtual file system (src/fs/vfs.rs)

    File systems and their nodes are shared objects behind the traits
    [Filesystem] and [VNode].  The classes below are those traits: a world [W]
    holds the mutable state of all objects, [F] and [N] are references to file
    systems and to nodes.  [FilesystemSpec] states what the [VFS] relies on;
    the file systems of the kernel discharge it in KernelFs.v. *)

From Stdlib Require Import Ascii.
From S2P Require Import Prelude Bytes FsTypes.

Abbreviation WOp W A := (M W FsError A).

(** [trait Filesystem]. *)
Class Filesystem (W F N : Type) : Type := {
  fs_get_root : F → W → res FsError N;
  fs_get_inode : F → Z → W → res FsError N;
  fs_set_filesystem_id : F → option Z → W → W;
  fs_get_filesystem_id : F → W → res FsError Z;
}.

(** [trait VNode]; page buffers are byte lists of one page. *)
Class VNode (W N : Type) : Type := {
  vn_get_inumber : N → W → res FsError Z;
  vn_get_type : N → W → res FsError INodeType;
  vn_read_page : N → list Z → Z → WOp W (Z * list Z);
  vn_write_page : N → list Z → Z → WOp W Z;
  vn_lookup : N → string → W → res FsError N;
  vn_add_entry : N → string → Z → INodeType → WOp W unit;
  vn_create_child : N → string → INodeType → WOp W N;
  vn_size : N → W → res FsError Z;
  vn_read_unaligned : N → Z → list Z → WOp W (Z * list Z);
  vn_write_unaligned : N → Z → list Z → WOp W Z;
  vn_get_inode_key : N → W → res FsError INodeKey;
  vn_ioctl : N → Z → Z → WOp W Z;
  vn_seekable : N → W → res FsError bool;
}.

(** The default methods of [trait VNode]. *)
Definition not_implemented {W A} : WOp W A := mfail FsError.NotImplemented.
Definition default_size {W} (w : W) : res FsError Z := Ok 0.
Definition default_seekable (t : INodeType) : bool :=
  match t with File | Block => true | _ => false end.

(** ** Paths *)

(** [str::split]. *)
Fixpoint split (c : ascii) (s : string) : list string :=
  match s with
  | EmptyString => [EmptyString]
  | String a s' =>
      if decide (a = c) then EmptyString :: split c s'
      else match split c s' with
           | [] => [String a EmptyString]
           | x :: l => String a x :: l
           end
  end.

Definition slash : ascii := "/"%char.

Definition components (path : string) : list string :=
  filter (λ s, s ≠ EmptyString) (split slash path).

(** A name that can be one component. *)
Fixpoint slash_free (s : string) : Prop :=
  match s with EmptyString => True | String a s' => a ≠ slash ∧ slash_free s' end.

Lemma split_nonempty c s : split c s ≠ [].
Proof. destruct s as [|a s]; simpl; [done|]. case_decide; [done|]. by destruct (split c s). Qed.

Lemma split_app c s t :
  split c (s +:+ String c t) = split c s ++ split c t.
Proof.
  induction s as [|a s IH]; simpl; [by rewrite decide_True|]. rewrite IH. case_decide; [done|].
  pose proof (split_nonempty c s). by destruct (split c s).
Qed.

Lemma components_app p q : components (p +:+ "/" +:+ q) = components p ++ components q.
Proof. unfold components. change ("/" +:+ q)%string with (String slash q). by rewrite split_app, filter_app. Qed.

Lemma split_free s : slash_free s → split slash s = [s].
Proof.
  induction s as [|a s IH]; simpl; [done|]. intros [Ha Hs]. rewrite decide_False by done. by rewrite IH.
Qed.

(** Joining names with slashes, and the components of the path. *)
Lemma components_concat l :
  Forall (λ s, s ≠ EmptyString ∧ slash_free s) l → components (String.concat "/" l) = l.
Proof.
  assert (∀ x, x ≠ EmptyString ∧ slash_free x → components x = [x]) as H1.
  { intros x [Hx Hf]. unfold components. rewrite split_free by done. by rewrite filter_cons_True. }
  induction 1 as [|x l Hx Hl IH]; [done|]. destruct l as [|y l]; [by apply H1|].
  change (String.concat "/" (x :: y :: l)) with (x +:+ "/" +:+ String.concat "/" (y :: l))%string.
  by rewrite components_app, IH, H1.
Qed.

Section vfs.
Context {W F N : Type} `{!Filesystem W F N} `{!VNode W N}.

Record VFS : Type := mkVFS {
  filesystems : gmap Z F;
  filesystem_id_counter : Z;
  mount_points : gmap INodeKey N;
  reverse_mount_points : gmap INodeKey N;
  root : option N;
}.

(** The static [VFS] at boot. *)
Definition VFS_new : VFS := mkVFS ∅ 0 ∅ ∅ None.

(** What the kernel's calls change: the [VFS] and the objects. *)
Record Kernel : Type := mkKernel { vfs : VFS; world : W }.
Abbreviation KOp A := (M Kernel FsError A).

Definition on_world {A} (f : W → res FsError A) : KOp A := λ k, mlift (f (world k)) k.
Definition set_vfs (v : VFS) : KOp unit := mmodify (λ k, mkKernel v (world k)).
Definition get_vfs : KOp VFS := λ k, Ok (vfs k, k).

Definition set_filesystems (m : gmap Z F) (v : VFS) : VFS :=
  mkVFS m (filesystem_id_counter v) (mount_points v) (reverse_mount_points v) (root v).
Definition set_counter (n : Z) (v : VFS) : VFS :=
  mkVFS (filesystems v) n (mount_points v) (reverse_mount_points v) (root v).
Definition set_mount_points (m : gmap INodeKey N) (v : VFS) : VFS :=
  mkVFS (filesystems v) (filesystem_id_counter v) m (reverse_mount_points v) (root v).
Definition set_reverse (m : gmap INodeKey N) (v : VFS) : VFS :=
  mkVFS (filesystems v) (filesystem_id_counter v) (mount_points v) m (root v).
Definition set_root_node (r : option N) (v : VFS) : VFS :=
  mkVFS (filesystems v) (filesystem_id_counter v) (mount_points v) (reverse_mount_points v) r.

(** [AtomicUsize::fetch_add], which wraps around. *)
Definition fetch_add (n : Z) : KOp Z :=
  let! v := get_vfs in
  let! _ := set_vfs (set_counter (wrap 64 (filesystem_id_counter v + n)) v) in
  mret (filesystem_id_counter v).

Definition register_filesystem (fs : F) : KOp Z :=
  let! id := λ k,
    match fs_get_filesystem_id fs (world k) with
    | Ok id => Ok (id, k)
    | Err _ =>
        (let! id := fetch_add 1 in
         let! _ := mmodify (λ k, mkKernel (vfs k) (fs_set_filesystem_id fs (Some id) (world k))) in
         mret id) k
    | Panic => Panic
    end in
  let! v := get_vfs in
  let! _ := set_vfs (match filesystems v !! id with
                     | Some _ => v
                     | None => set_filesystems (<[id := fs]> (filesystems v)) v
                     end) in
  mret id.

Definition get_inode (key : INodeKey) (k : Kernel) : res FsError N :=
  match filesystems (vfs k) !! filesystem_id key with
  | None => Err FsError.NotFound
  | Some fs => fs_get_inode fs (inumber key) (world k)
  end.

Definition set_root (fs : F) : KOp unit :=
  let! _ := register_filesystem fs in
  let! root_fs := on_world (fs_get_root fs) in
  let! v := get_vfs in
  match root v with
  | Some _ => mret tt
  | None => set_vfs (set_root_node (Some root_fs) v)
  end.

Definition get_root (k : Kernel) : option N := root (vfs k).

Definition mount (mountpoint : N) (fs : F) : KOp unit :=
  let! t := on_world (vn_get_type mountpoint) in
  if decide (t = Directory) then
    let! _ := register_filesystem fs in
    let! mountpoint_key := on_world (vn_get_inode_key mountpoint) in
    let! mount_root := on_world (fs_get_root fs) in
    let! v := get_vfs in
    let! _ := set_vfs (set_mount_points (<[mountpoint_key := mount_root]> (mount_points v)) v) in
    let! mount_root_key := on_world (vn_get_inode_key mount_root) in
    let! v := get_vfs in
    set_vfs (set_reverse (<[mount_root_key := mountpoint]> (reverse_mount_points v)) v)
  else mfail FsError.InvalidOperation.

Definition unmount (mountpoint : N) : KOp unit :=
  let! mountpoint_key := on_world (vn_get_inode_key mountpoint) in
  let! v := get_vfs in
  match mount_points v !! mountpoint_key with
  | None => mfail FsError.NotFound
  | Some mount_root =>
      let! mount_root_key := on_world (vn_get_inode_key mount_root) in
      match reverse_mount_points v !! mount_root_key with
      | None => mfail (FsError.Corrupted "mount point is missing its reverse mapping")
      | Some _ =>
          set_vfs (set_reverse (delete mount_root_key (reverse_mount_points v))
                     (set_mount_points (delete mountpoint_key (mount_points v)) v))
      end
  end.

(** One turn of the loop of [traverse_path]. *)
Definition traverse_step (k : Kernel) (node : N) (component : string) : res FsError N :=
  if decide (component = ".") then Ok node
  else if decide (component = "..") then
    let? key := vn_get_inode_key node (world k) in
    match reverse_mount_points (vfs k) !! key with
    | Some mount => vn_lookup mount component (world k)
    | None => vn_lookup node component (world k)
    end
  else
    let? child := vn_lookup node component (world k) in
    let? key := vn_get_inode_key child (world k) in
    Ok (default child (mount_points (vfs k) !! key)).

Fixpoint traverse_loop (k : Kernel) (node : N) (l : list string) : res FsError N :=
  match l with
  | [] => Ok node
  | component :: l => let? node := traverse_step k node component in traverse_loop k node l
  end.

Definition traverse_path (start_node : N) (path : string) (k : Kernel) : res FsError N :=
  if decide (path = EmptyString) then Err FsError.PathMalformed
  else
    let? key := vn_get_inode_key start_node (world k) in
    traverse_loop k (default start_node (mount_points (vfs k) !! key)) (components path).
End vfs.
Arguments VFS : clear implicits.
Arguments Kernel : clear implicits.
Arguments VFS_new {F N}.

(** ** What a file system promises *)

(** [vn_owner] is the file system a node belongs to and [vn_valid] says that
    the reference is one the file system gave out; [w_le] is the change of the
    world that calls on nodes may make: names and contents may change, the
    identity and the type of nodes do not.  [w_room] says that no 64-bit counter
    of the objects is about to wrap around. *)
Class FilesystemSpec (W F N : Type) `{!Filesystem W F N} `{!VNode W N} : Type := {
  w_ok : W → Prop;
  w_le : W → W → Prop;
  w_room : W → Prop;
  vn_owner : N → F;
  vn_valid : N → W → Prop;
  sp_le_ok w w' : w_ok w → w_le w w' → w_ok w';
  sp_le_valid n w w' : w_le w w' → vn_valid n w → vn_valid n w';
  sp_le_id f w w' : w_le w w' → fs_get_filesystem_id f w' = fs_get_filesystem_id f w;
  sp_le_type n w w' : w_le w w' → vn_valid n w → vn_get_type n w' = vn_get_type n w;
  sp_le_inumber n w w' : w_le w w' → vn_valid n w → vn_get_inumber n w' = vn_get_inumber n w;
  sp_le_root f w w' : w_le w w' → w_ok w → fs_get_root f w' = fs_get_root f w;
  sp_id_set f i w : fs_get_filesystem_id f (fs_set_filesystem_id f (Some i) w) = Ok i;
  sp_id_other f g o w : f ≠ g → fs_get_filesystem_id f (fs_set_filesystem_id g o w) = fs_get_filesystem_id f w;
  sp_id_total f w : fs_get_filesystem_id f w ≠ Panic;
  sp_set_ok f o w : w_ok w → w_ok (fs_set_filesystem_id f o w);
  sp_set_valid n f o w : vn_valid n w → vn_valid n (fs_set_filesystem_id f o w);
  sp_set_type n f o w : vn_get_type n (fs_set_filesystem_id f o w) = vn_get_type n w;
  sp_set_inumber n f o w : vn_get_inumber n (fs_set_filesystem_id f o w) = vn_get_inumber n w;
  sp_set_lookup n t f o w : vn_lookup n t (fs_set_filesystem_id f o w) = vn_lookup n t w;
  sp_set_root g f o w : fs_get_root g (fs_set_filesystem_id f o w) = fs_get_root g w;
  sp_root f w r : w_ok w → fs_get_root f w = Ok r →
    vn_owner r = f ∧ vn_valid r w ∧ vn_get_type r w = Ok Directory;
  sp_key n w i : w_ok w → vn_valid n w → fs_get_filesystem_id (vn_owner n) w = Ok i →
    ∃ j, vn_get_inumber n w = Ok j ∧ vn_get_inode_key n w = Ok (mkKey i j) ∧ fs_get_inode (vn_owner n) j w = Ok n;
  sp_key_id n w key : vn_get_inode_key n w = Ok key →
    fs_get_filesystem_id (vn_owner n) w = Ok (filesystem_id key);
  sp_lookup_total n t w : w_ok w → vn_valid n w → vn_lookup n t w ≠ Panic;
  sp_lookup n t w m : w_ok w → vn_valid n w → vn_lookup n t w = Ok m →
    vn_owner m = vn_owner n ∧ vn_valid m w;
  sp_create n t ty w r : w_ok w → w_room w → vn_valid n w → vn_create_child n t ty w = r →
    match r with
    | Ok (m, w') => w_le w w' ∧ vn_owner m = vn_owner n ∧ vn_valid m w'
    | Err (_, w') => w_le w w'
    | Panic => False
    end;
}.

Section correct.
Context {W F N : Type} `{FilesystemSpec W F N}.
Context `{EqDecision F}.
Implicit Types (k : Kernel W F N) (n m r : N) (f g : F) (w : W).

(** ** Identity of nodes *)

Lemma key_inj w n m key :
  w_ok w → vn_valid n w → vn_valid m w → (vn_owner n = vn_owner m) →
  vn_get_inode_key n w = Ok key → vn_get_inode_key m w = Ok key → n = m.
Proof.
  intros Hw Hn Hm Ho Kn Km. pose proof (sp_key_id _ _ _ Kn) as Hi. pose proof (sp_key_id _ _ _ Km) as Hj.
  destruct (sp_key n w _ Hw Hn Hi) as (a & _ & Ka & Ga). destruct (sp_key m w _ Hw Hm Hj) as (b & _ & Kb & Gb).
  rewrite Kn in Ka. rewrite Km in Kb. injection Ka as Ka. injection Kb as Kb.
  assert (a = b) as -> by (rewrite Ka in Kb; by injection Kb). congruence.
Qed.

(** ** The invariant *)

(** The reference [n] is valid and its file system is registered. *)
Definition known k n : Prop :=
  vn_valid n (world k) ∧ ∃ i, fs_get_filesystem_id (vn_owner n) (world k) = Ok i.

Definition key_of k n : res FsError INodeKey := vn_get_inode_key n (world k).

Record vfs_inv k : Prop := {
  vi_world : w_ok (world k);
  vi_ids f i : filesystems (vfs k) !! i = Some f ↔ fs_get_filesystem_id f (world k) = Ok i;
  vi_count f i : fs_get_filesystem_id f (world k) = Ok i → 0 ≤ i < filesystem_id_counter (vfs k);
  vi_width : 0 ≤ filesystem_id_counter (vfs k) ≤ usize_max;
  vi_mount key r : mount_points (vfs k) !! key = Some r →
    known k r ∧ fs_get_root (vn_owner r) (world k) = Ok r ∧
    ∃ kr m, key_of k r = Ok kr ∧ reverse_mount_points (vfs k) !! kr = Some m ∧ key_of k m = Ok key;
  vi_reverse kr m : reverse_mount_points (vfs k) !! kr = Some m →
    known k m ∧ vn_get_type m (world k) = Ok Directory ∧
    ∃ key r, key_of k m = Ok key ∧ mount_points (vfs k) !! key = Some r ∧ key_of k r = Ok kr;
  vi_root r : root (vfs k) = Some r → known k r ∧ vn_get_type r (world k) = Ok Directory;
}.

Lemma known_key k n : vfs_inv k → known k n → ∃ key, key_of k n = Ok key.
Proof. intros Hk [Hv [i Hi]]. destruct (sp_key n _ i (vi_world k Hk) Hv Hi) as (j & _ & ? & _). by eexists. Qed.

(** The key of a node determines it, across all file systems. *)
Lemma known_inj k n m key :
  vfs_inv k → known k n → known k m → key_of k n = Ok key → key_of k m = Ok key → n = m.
Proof.
  intros Hk [Hn _] [Hm _] Kn Km. eapply key_inj; [apply Hk|done|done| |done|done].
  pose proof (sp_key_id _ _ _ Kn) as H1. pose proof (sp_key_id _ _ _ Km) as H2.
  apply (vi_ids k Hk) in H1, H2. congruence.
Qed.

Lemma known_get_inode k n key : vfs_inv k → known k n → key_of k n = Ok key → get_inode key k = Ok n.
Proof.
  intros Hk [Hn _] Kn. pose proof (sp_key_id _ _ _ Kn) as Hi. unfold get_inode.
  rewrite (proj2 (vi_ids k Hk _ _) Hi). destruct (sp_key n _ _ (vi_world k Hk) Hn Hi) as (j & _ & Kj & Hg).
  unfold key_of in Kn. rewrite Kn in Kj. injection Kj as ->. done.
Qed.

(** ** Changes of the world *)

(** The new world [w'] keeps what the [VFS] of [k] has recorded. *)
Record stable k w' : Prop := {
  st_ok : w_ok w';
  st_valid n : vn_valid n (world k) → vn_valid n w';
  st_type n : vn_valid n (world k) → vn_get_type n w' = vn_get_type n (world k);
  st_inumber n : vn_valid n (world k) → vn_get_inumber n w' = vn_get_inumber n (world k);
  st_root f : fs_get_root f w' = fs_get_root f (world k);
  st_id f i : fs_get_filesystem_id f (world k) = Ok i → fs_get_filesystem_id f w' = Ok i;
}.

Lemma stable_le k w' : vfs_inv k → w_le (world k) w' → stable k w'.
Proof.
  intros Hk Hle. pose proof (vi_world k Hk). split.
  - by eapply sp_le_ok.
  - intros n. by apply sp_le_valid.
  - intros n. by apply sp_le_type.
  - intros n. by apply sp_le_inumber.
  - intros f. by apply sp_le_root.
  - intros f i. by rewrite (sp_le_id f _ _ Hle).
Qed.

Lemma stable_trans k k' w'' : stable k (world k') → stable k' w'' → stable k w''.
Proof.
  intros H1 H2. split.
  - apply (st_ok _ _ H2).
  - intros n ?. by apply (st_valid _ _ H2), (st_valid _ _ H1).
  - intros n ?. rewrite (st_type _ _ H2) by (by apply (st_valid _ _ H1)). by apply (st_type _ _ H1).
  - intros n ?. rewrite (st_inumber _ _ H2) by (by apply (st_valid _ _ H1)). by apply (st_inumber _ _ H1).
  - intros f. by rewrite (st_root _ _ H2), (st_root _ _ H1).
  - intros f i ?. by apply (st_id _ _ H2), (st_id _ _ H1).
Qed.

Lemma stable_set k f i :
  vfs_inv k → (∀ j, fs_get_filesystem_id f (world k) ≠ Ok j) →
  stable k (fs_set_filesystem_id f (Some i) (world k)).
Proof.
  intros Hk Hf. pose proof (vi_world k Hk). split.
  - by apply sp_set_ok.
  - intros n. apply sp_set_valid.
  - intros n _. apply sp_set_type.
  - intros n _. apply sp_set_inumber.
  - intros g. apply sp_set_root.
  - intros g j Hg. rewrite sp_id_other; [done|]. intros ->. by eapply Hf.
Qed.

Lemma stable_key k w' n key :
  vfs_inv k → stable k w' → vn_valid n (world k) → key_of k n = Ok key → vn_get_inode_key n w' = Ok key.
Proof.
  intros Hk Hs Hn Kn. pose proof (sp_key_id _ _ _ Kn) as Hi.
  destruct (sp_key n _ _ (vi_world k Hk) Hn Hi) as (j & Nj & Kj & _).
  destruct (sp_key n w' _ (st_ok _ _ Hs) (st_valid _ _ Hs _ Hn) (st_id _ _ Hs _ _ Hi)) as (j' & Nj' & Kj' & _).
  unfold key_of in Kn. rewrite (st_inumber _ _ Hs _ Hn), Nj in Nj'. injection Nj' as ->. congruence.
Qed.

Lemma stable_known k k' n : stable k (world k') → known k n → known k' n.
Proof. intros Hs [Hn [i Hi]]. split; [by eapply st_valid|exists i; by eapply st_id]. Qed.

(** A change of the world, or of the table of file systems, that keeps the
    rest of the [VFS]. *)
Lemma inv_change k k' :
  vfs_inv k → stable k (world k') →
  mount_points (vfs k') = mount_points (vfs k) → reverse_mount_points (vfs k') = reverse_mount_points (vfs k) →
  root (vfs k') = root (vfs k) → 0 ≤ filesystem_id_counter (vfs k') ≤ usize_max →
  (∀ f i, filesystems (vfs k') !! i = Some f ↔ fs_get_filesystem_id f (world k') = Ok i) →
  (∀ f i, fs_get_filesystem_id f (world k') = Ok i → 0 ≤ i < filesystem_id_counter (vfs k')) →
  vfs_inv k'.
Proof.
  intros Hk Hs Em Er Eroot Hw Hids Hcnt. split; [apply Hs|done..| | |].
  - intros key r. rewrite Em, Er. intros (Hr & Hroot & kr & m & Kr & Hm & Km)%(vi_mount k Hk).
    pose proof (vi_reverse k Hk _ _ Hm) as ([Hmv _] & _). rewrite (st_root _ _ Hs). split_and!; [by eapply stable_known|done|].
    exists kr, m. destruct Hr as [Hrv _]. split_and!; [by eapply stable_key|done|by eapply stable_key].
  - intros kr m. rewrite Em, Er. intros (Hm & Ht & key & r & Km & Hr & Kr)%(vi_reverse k Hk).
    pose proof (vi_mount k Hk _ _ Hr) as ([Hrv _] & _). pose proof Hm as [Hmv _].
    rewrite (st_type _ _ Hs _ Hmv). split_and!; [by eapply stable_known|done|].
    exists key, r. split_and!; [by eapply stable_key|done|by eapply stable_key].
  - intros r. rewrite Eroot. intros [Hr Ht]%(vi_root k Hk). pose proof Hr as [Hrv _].
    rewrite (st_type _ _ Hs _ Hrv). split; [by eapply stable_known|done].
Qed.

(** ** Registering *)

(** What [register_filesystem] and calls on nodes leave alone. *)
Definition kept k k' : Prop :=
  vfs_inv k' ∧ stable k (world k') ∧ mount_points (vfs k') = mount_points (vfs k) ∧
  reverse_mount_points (vfs k') = reverse_mount_points (vfs k) ∧ root (vfs k') = root (vfs k).

Lemma register_spec k f :
  vfs_inv k → filesystem_id_counter (vfs k) < usize_max →
  ∃ i k', register_filesystem f k = Ok (i, k') ∧ kept k k' ∧ fs_get_filesystem_id f (world k') = Ok i ∧
    (∀ n t, vn_lookup n t (world k') = vn_lookup n t (world k)) ∧
    filesystem_id_counter (vfs k') ≤ filesystem_id_counter (vfs k) + 1.
Proof.
  intros Hk Hc. pose proof (vi_width k Hk). pose proof (sp_id_total f (world k)).
  unfold register_filesystem, kept, mbind', get_vfs, set_vfs, mmodify, mret, fetch_add.
  destruct (fs_get_filesystem_id f (world k)) as [i|e|] eqn:E; [| |done].
  - exists i. eexists. split; [done|]. rewrite (proj2 (vi_ids k Hk f i) E).
    assert (stable k (world k)) as Hs by (split; intros; first [done|apply (vi_world k Hk)]).
    split; [by destruct k|]. split; [by destruct k|]. split; [done|]. simpl. lia.
  - set (c := filesystem_id_counter (vfs k)) in *. exists c. eexists. cbn [vfs world].
    assert (∀ j, fs_get_filesystem_id f (world k) ≠ Ok j) as Hno by (intros j; congruence).
    assert (filesystems (vfs k) !! c = None) as Hfr.
    { destruct (filesystems (vfs k) !! c) as [g|] eqn:Eg; [|done].
      apply (vi_ids k Hk), (vi_count k Hk) in Eg. unfold c in Eg. lia. }
    split; [done|]. cbn -[wrap usize_max].
    fold c. rewrite Hfr. cbn -[wrap usize_max].
    assert (stable k (fs_set_filesystem_id f (Some c) (world k))) as Hs by (by apply stable_set).
    split; [|split_and!; [apply sp_id_set|intros; apply sp_set_lookup|unfold wrap; rewrite Z.mod_small; unfold usize_max in *; lia]].
    split; [|done].
    eapply inv_change; [exact Hk|exact Hs|done..| | |]; cbn -[wrap usize_max].
    + unfold wrap. rewrite Z.mod_small; unfold usize_max in *; lia.
    + intros g j. rewrite lookup_insert_Some. destruct (decide (g = f)) as [->|Hg].
      * rewrite sp_id_set. split; [intros [[-> _]|[? Hj]]; [done|]|intros [= ->]; by left].
        apply (vi_ids k Hk) in Hj. by exfalso; eapply Hno.
      * rewrite sp_id_other by done. rewrite <-(vi_ids k Hk). split; [intros [[_ ?]|[_ ?]]; [congruence|done]|].
        intros Hj. right. split; [|done]. intros ->. congruence.
    + unfold wrap. rewrite Z.mod_small by (unfold usize_max in *; lia). intros g j.
      destruct (decide (g = f)) as [->|Hg]; [rewrite sp_id_set; intros [= <-]; unfold c; lia|].
      rewrite sp_id_other by done. intros ?%(vi_count k Hk). unfold c. lia.
Qed.

(** ** Mounting *)

Definition mounted k n : Prop := ∃ key r, key_of k n = Ok key ∧ mount_points (vfs k) !! key = Some r.
Definition in_use k f : Prop := ∃ key r, mount_points (vfs k) !! key = Some r ∧ vn_owner r = f.

(** [k'] is [k] with [r] mounted on [m]; the names in the world are the same. *)
Record mounts k k' m r : Prop := {
  mt_inv : vfs_inv k';
  mt_stable : stable k (world k');
  mt_lookup n t : vn_lookup n t (world k') = vn_lookup n t (world k);
  mt_known : known k' r;
  mt_counter : filesystem_id_counter (vfs k') ≤ filesystem_id_counter (vfs k) + 1;
  mt_maps : ∃ km kr, key_of k' m = Ok km ∧ key_of k' r = Ok kr ∧
    mount_points (vfs k) !! km = None ∧ reverse_mount_points (vfs k) !! kr = None ∧
    mount_points (vfs k') = <[km := r]> (mount_points (vfs k)) ∧
    reverse_mount_points (vfs k') = <[kr := m]> (reverse_mount_points (vfs k));
}.

Lemma stable_trans_key k k' n key :
  vfs_inv k → stable k (world k') → known k n → key_of k n = Ok key → key_of k' n = Ok key.
Proof. intros ?? [??] ?. by eapply stable_key. Qed.

(** Recording a mount in both maps keeps the invariant. *)
Lemma inv_mount k m r km kr :
  vfs_inv k → known k m → vn_get_type m (world k) = Ok Directory → known k r →
  fs_get_root (vn_owner r) (world k) = Ok r → key_of k m = Ok km → key_of k r = Ok kr →
  mount_points (vfs k) !! km = None → reverse_mount_points (vfs k) !! kr = None →
  vfs_inv (mkKernel (set_reverse (<[kr := m]> (reverse_mount_points (vfs k)))
                       (set_mount_points (<[km := r]> (mount_points (vfs k))) (vfs k))) (world k)).
Proof.
  intros Hk Hm Ht Hr Hroot Km Kr Em Er. destruct Hk as [Hw Hids Hcnt Hwd Hmt Hrv Hrt]. split; cbn; try done.
  - intros key r' [[<- <-]|[Hne Hr']]%lookup_insert_Some.
    + split_and!; [done|done|]. exists kr, m. by rewrite lookup_insert_eq.
    + destruct (Hmt _ _ Hr') as (? & ? & kr' & m' & ? & Hm' & ?). split_and!; [done|done|]. exists kr', m'.
      rewrite lookup_insert_ne; [done|]. intros ->. congruence.
  - intros kr' m' [[<- <-]|[Hne Hm']]%lookup_insert_Some.
    + split_and!; [done|done|]. exists km, r. by rewrite lookup_insert_eq.
    + destruct (Hrv _ _ Hm') as (? & ? & key & r' & ? & Hr' & ?). split_and!; [done|done|]. exists key, r'.
      rewrite lookup_insert_ne; [done|]. intros ->. congruence.
Qed.

Lemma not_in_use k f r kr :
  vfs_inv k → ¬ in_use k f → vn_owner r = f → known k r → key_of k r = Ok kr → reverse_mount_points (vfs k) !! kr = None.
Proof.
  intros Hk Hf Ho Hr Kr. destruct (reverse_mount_points (vfs k) !! kr) as [m|] eqn:E; [|done]. exfalso.
  destruct (vi_reverse k Hk _ _ E) as (_ & _ & key & r' & _ & Hr' & Kr').
  pose proof (vi_mount k Hk _ _ Hr') as (Hrk & _). apply Hf. exists key, r'. split; [done|].
  by rewrite (known_inj k r' r kr Hk Hrk Hr Kr' Kr).
Qed.

Lemma on_world_ok {A} (g : W → res FsError A) (a : A) k : g (world k) = Ok a → on_world g k = Ok (a, k).
Proof. unfold on_world, mlift. by intros ->. Qed.

Lemma mount_spec k m f r :
  vfs_inv k → filesystem_id_counter (vfs k) < usize_max →
  known k m → vn_get_type m (world k) = Ok Directory → ¬ mounted k m →
  fs_get_root f (world k) = Ok r → ¬ in_use k f →
  ∃ k', mount m f k = Ok (tt, k') ∧ mounts k k' m r.
Proof.
  intros Hk Hc Hm Ht Hnm Hr Hnf. unfold mount. rewrite (mbind_ok _ _ _ _ _ (on_world_ok _ _ k Ht)), decide_True by done.
  destruct (register_spec k f Hk Hc) as (i & k1 & Hreg & (Hk1 & Hs & Em & Er & Eroot) & Hi & Hl & Hcnt).
  rewrite (mbind_ok _ _ _ _ _ Hreg). destruct (known_key k m Hk Hm) as [km Km].
  pose proof (stable_known k k1 m Hs Hm) as Hm1. pose proof (stable_trans_key k k1 m km Hk Hs Hm Km) as Km1.
  pose proof Hr as Hr1. rewrite <-(st_root _ _ Hs) in Hr1. destruct (sp_root f _ r (vi_world _ Hk1) Hr1) as (Ho & Hrv & Hrt).
  assert (known k1 r) as Hrk by (split; [done|exists i; by rewrite Ho]).
  destruct (known_key k1 r Hk1 Hrk) as [kr Kr].
  rewrite (mbind_ok _ _ _ _ _ (on_world_ok _ _ k1 Km1)), (mbind_ok _ _ _ _ _ (on_world_ok _ _ k1 Hr1)).
  unfold mbind', get_vfs, set_vfs, mmodify. unfold on_world at 1. cbn [world]. unfold key_of in Kr. rewrite Kr. cbn.
  assert (mount_points (vfs k) !! km = None) as Fm.
  { destruct (mount_points (vfs k) !! km) eqn:E; [|done]. exfalso. apply Hnm. by eexists _, _. }
  assert (reverse_mount_points (vfs k1) !! kr = None) as Fr.
  { eapply not_in_use; [done| |exact Ho|done|done]. unfold in_use. rewrite Em. exact Hnf. }
  eexists. split; [done|]. split; cbn.
  - eapply inv_mount; try done; [|by rewrite Ho|by rewrite Em]. by rewrite (st_type _ _ Hs) by apply Hm.
  - done.
  - done.
  - done.
  - done.
  - exists km, kr. rewrite <-Er, <-Em. split_and!; try done. by rewrite Em.
Qed.

(** ** Unmounting *)

Definition without k km kr : Kernel W F N :=
  mkKernel (set_reverse (delete kr (reverse_mount_points (vfs k)))
              (set_mount_points (delete km (mount_points (vfs k))) (vfs k))) (world k).

Lemma unmount_ok k m km r kr :
  key_of k m = Ok km → mount_points (vfs k) !! km = Some r → key_of k r = Ok kr →
  is_Some (reverse_mount_points (vfs k) !! kr) → unmount m k = Ok (tt, without k km kr).
Proof.
  intros Km Hr Kr [m' Hm']. unfold unmount. rewrite (mbind_ok _ _ _ _ _ (on_world_ok _ _ k Km)).
  rewrite (mbind_ok _ _ _ (vfs k) k) by done. rewrite Hr, (mbind_ok _ _ _ _ _ (on_world_ok _ _ k Kr)). by rewrite Hm'.
Qed.

Lemma unmount_missing k m km :
  key_of k m = Ok km → mount_points (vfs k) !! km = None → unmount m k = Err (FsError.NotFound, k).
Proof.
  intros Km Hr. unfold unmount. rewrite (mbind_ok _ _ _ _ _ (on_world_ok _ _ k Km)).
  rewrite (mbind_ok _ _ _ (vfs k) k) by done. by rewrite Hr.
Qed.

Lemma unmount_unpaired k m km r kr :
  key_of k m = Ok km → mount_points (vfs k) !! km = Some r → key_of k r = Ok kr →
  reverse_mount_points (vfs k) !! kr = None →
  unmount m k = Err (FsError.Corrupted "mount point is missing its reverse mapping", k).
Proof.
  intros Km Hr Kr Hm. unfold unmount. rewrite (mbind_ok _ _ _ _ _ (on_world_ok _ _ k Km)).
  rewrite (mbind_ok _ _ _ (vfs k) k) by done. rewrite Hr, (mbind_ok _ _ _ _ _ (on_world_ok _ _ k Kr)). by rewrite Hm.
Qed.

Lemma inv_without k m km r kr :
  vfs_inv k → key_of k m = Ok km → mount_points (vfs k) !! km = Some r → key_of k r = Ok kr →
  vfs_inv (without k km kr).
Proof.
  intros Hk Km Hr Kr. pose proof (vi_mount k Hk _ _ Hr) as (Hrk & _ & kr0 & m0 & Kr0 & Hm0 & Km0).
  assert (kr0 = kr) as -> by congruence.
  destruct Hk as [Hw Hids Hcnt Hwd Hmt Hrv Hrt]. split; cbn; try done.
  - intros key r' [Hne Hr']%lookup_delete_Some. destruct (Hmt _ _ Hr') as (? & ? & kr' & m' & ? & Hm' & Km').
    split_and!; [done|done|]. exists kr', m'. rewrite lookup_delete_ne; [done|]. intros ->. congruence.
  - intros kr' m' [Hne Hm']%lookup_delete_Some. destruct (Hrv _ _ Hm') as (? & ? & key & r' & ? & Hr' & Kr').
    split_and!; [done|done|]. exists key, r'. rewrite lookup_delete_ne; [done|]. intros ->. congruence.
Qed.

(** A node is a mount point, and then it can be unmounted, or it is not. *)
Lemma unmount_spec k m km :
  vfs_inv k → key_of k m = Ok km →
  (mount_points (vfs k) !! km = None ∧ unmount m k = Err (FsError.NotFound, k)) ∨
  (∃ r kr, mount_points (vfs k) !! km = Some r ∧ key_of k r = Ok kr ∧
     unmount m k = Ok (tt, without k km kr) ∧ vfs_inv (without k km kr)).
Proof.
  intros Hk Km. destruct (mount_points (vfs k) !! km) as [r|] eqn:E; [right|left; split; [done|by eapply unmount_missing]].
  destruct (vi_mount k Hk _ _ E) as (_ & _ & kr & m' & Kr & Hm' & _).
  exists r, kr. split_and!; [done|done|by eapply unmount_ok|by eapply inv_without].
Qed.

(** ** Path traversal *)

Lemma traverse_step_known k n c n' : vfs_inv k → known k n → traverse_step k n c = Ok n' → known k n'.
Proof.
  intros Hk Hn. pose proof (vi_world k Hk) as Hw. unfold traverse_step.
  assert (∀ a b, known k a → vn_lookup a c (world k) = Ok b → known k b) as Hl.
  { intros a b [Ha [i Hi]] E. destruct (sp_lookup _ _ _ _ Hw Ha E) as [Ho ?]. split; [done|]. exists i. by rewrite Ho. }
  case_decide; [by intros [= <-]|]. case_decide.
  - destruct (known_key k n Hk Hn) as [key Kn]. unfold key_of in Kn. rewrite Kn. cbn.
    destruct (reverse_mount_points (vfs k) !! key) as [m|] eqn:E; [|by apply Hl].
    apply Hl. by destruct (vi_reverse k Hk _ _ E).
  - destruct (vn_lookup n c (world k)) as [b| |] eqn:E; [|done|done]. cbn. pose proof (Hl _ _ Hn E) as Hb.
    destruct (known_key k b Hk Hb) as [key Kb]. unfold key_of in Kb. rewrite Kb. cbn. intros [= <-].
    destruct (mount_points (vfs k) !! key) as [r|] eqn:Er; [|done]. by destruct (vi_mount k Hk _ _ Er).
Qed.

Lemma traverse_step_total k n c : vfs_inv k → known k n → traverse_step k n c ≠ Panic.
Proof.
  intros Hk Hn. pose proof (vi_world k Hk) as Hw. unfold traverse_step.
  case_decide; [done|]. case_decide.
  - destruct (known_key k n Hk Hn) as [key Kn]. unfold key_of in Kn. rewrite Kn. cbn.
    destruct (reverse_mount_points (vfs k) !! key) as [m|] eqn:E; apply sp_lookup_total; try done; [|apply Hn].
    destruct (vi_reverse k Hk _ _ E) as [[? _] _]. done.
  - pose proof (sp_lookup_total n c (world k) Hw (proj1 Hn)). destruct (vn_lookup n c (world k)) as [b| |] eqn:E; [|done|done].
    cbn. destruct Hn as [Hv [i Hi]]. destruct (sp_lookup _ _ _ _ Hw Hv E) as [Ho Hb].
    destruct (known_key k b Hk) as [key Kb]; [split; [done|exists i; by rewrite Ho]|]. unfold key_of in Kb. by rewrite Kb.
Qed.

Lemma traverse_loop_known k l : ∀ n, vfs_inv k → known k n →
  match traverse_loop k n l with Ok n' => known k n' | Err _ => True | Panic => False end.
Proof.
  induction l as [|c l IH]; intros n Hk Hn; [done|]. cbn. pose proof (traverse_step_total k n c Hk Hn).
  destruct (traverse_step k n c) as [n'| |] eqn:E; [|done|done]. cbn. apply IH; [done|]. by eapply traverse_step_known.
Qed.

Lemma traverse_loop_app k l1 l2 : ∀ n,
  traverse_loop k n (l1 ++ l2) = let? m := traverse_loop k n l1 in traverse_loop k m l2.
Proof. induction l1 as [|c l1 IH]; intros n; [done|]. cbn. by destruct (traverse_step k n c); cbn. Qed.

(** Equal mount maps over worlds with equal names: traversal is the same. *)
Lemma traverse_step_same k k' n c :
  vfs_inv k → stable k (world k') → (∀ n t, vn_lookup n t (world k') = vn_lookup n t (world k)) →
  mount_points (vfs k') = mount_points (vfs k) → reverse_mount_points (vfs k') = reverse_mount_points (vfs k) →
  known k n → traverse_step k' n c = traverse_step k n c.
Proof.
  intros Hk Hs Hl Em Er Hn. unfold traverse_step. rewrite Em, Er.
  assert (∀ a, known k a → vn_get_inode_key a (world k') = vn_get_inode_key a (world k)) as Hkey.
  { intros a Ha. destruct (known_key k a Hk Ha) as [key Ka]. pose proof (stable_trans_key k k' a key Hk Hs Ha Ka). unfold key_of in *. congruence. }
  case_decide; [done|]. case_decide.
  - rewrite Hkey by done. destruct (vn_get_inode_key n (world k)); cbn; [|done..]. by destruct (reverse_mount_points (vfs k) !! a).
  - rewrite Hl. destruct (vn_lookup n c (world k)) as [b| |] eqn:E; cbn; [|done..]. rewrite Hkey; [done|].
    destruct Hn as [Hv [i Hi]]. destruct (sp_lookup _ _ _ _ (vi_world k Hk) Hv E) as [Ho Hb].
    split; [done|]. exists i. by rewrite Ho.
Qed.

Lemma traverse_path_same k k' n p :
  vfs_inv k → stable k (world k') → (∀ n t, vn_lookup n t (world k') = vn_lookup n t (world k)) →
  mount_points (vfs k') = mount_points (vfs k) → reverse_mount_points (vfs k') = reverse_mount_points (vfs k) →
  known k n → traverse_path n p k' = traverse_path n p k.
Proof.
  intros Hk Hs Hl Em Er Hn. unfold traverse_path. case_decide; [done|]. rewrite Em.
  destruct (known_key k n Hk Hn) as [key Kn]. pose proof (stable_trans_key k k' n key Hk Hs Hn Kn) as Kn'.
  unfold key_of in Kn, Kn'. rewrite Kn, Kn'. cbn.
  assert (∀ l a, known k a → traverse_loop k' a l = traverse_loop k a l) as Hloop.
  { induction l as [|c l IH]; intros a Ha; [done|]. cbn. rewrite (traverse_step_same k k') by done.
    destruct (traverse_step k a c) eqn:E; cbn; [|done..]. apply IH. by eapply traverse_step_known. }
  apply Hloop. destruct (mount_points (vfs k) !! key) eqn:E; [|done]. by destruct (vi_mount k Hk _ _ E).
Qed.

(** ** Reachable states *)

(** The state a call leaves behind, when it returns. *)
Definition leaves {A} (o : res (FsError * Kernel W F N) (A * Kernel W F N)) k' : Prop :=
  (∃ a, o = Ok (a, k')) ∨ (∃ e, o = Err (e, k')).

(** The calls of the kernel.  The 64-bit counter of file systems has not wrapped
    around, and nodes are references that a file system gave out. *)
Inductive call : Type := CSetRoot (f : F) | CMount (m : N) (f : F) | CUnmount (m : N) | CNode.
Inductive vstep k : call → Kernel W F N → Prop :=
| VSetRoot f k' : filesystem_id_counter (vfs k) < usize_max → leaves (set_root f k) k' → vstep k (CSetRoot f) k'
| VMount m f k' : filesystem_id_counter (vfs k) < usize_max → known k m → leaves (mount m f k) k' → vstep k (CMount m f) k'
| VUnmount m k' : known k m → leaves (unmount m k) k' → vstep k (CUnmount m) k'
| VNode_call w' : w_le (world k) w' → vstep k CNode (mkKernel (vfs k) w').

(** The states from the start on, with the calls so far. *)
Inductive reachable : list (Kernel W F N * call) → Kernel W F N → Prop :=
| reach_boot w : w_ok w → (∀ f i, fs_get_filesystem_id f w ≠ Ok i) → reachable [] (mkKernel VFS_new w)
| reach_step l k c k' : reachable l k → vstep k c k' → reachable ((k, c) :: l) k'.

(** What the comment in [mount] asks of the kernel, that nothing is mounted on a
    node that is a mount point already; and that no file system is mounted twice. *)
Definition once (x : Kernel W F N * call) : Prop :=
  match x with (k, CMount m f) => ¬ mounted k m ∧ ¬ in_use k f | _ => True end.

Lemma boot_inv w : w_ok w → (∀ f i, fs_get_filesystem_id f w ≠ Ok i) → vfs_inv (mkKernel VFS_new w).
Proof.
  intros Hw Hf. split; cbn; try done.
  - intros f i. rewrite lookup_empty. split; [done|]. by intros ?%Hf.
  - by intros f i ?%Hf.
Qed.

Lemma set_root_inv k f k' :
  vfs_inv k → filesystem_id_counter (vfs k) < usize_max → leaves (set_root f k) k' → vfs_inv k'.
Proof.
  intros Hk Hc. destruct (register_spec k f Hk Hc) as (i & k1 & Hreg & (Hk1 & _) & Hi & _).
  unfold set_root. rewrite (mbind_ok _ _ _ _ _ Hreg). unfold mbind', on_world, get_vfs, leaves.
  destruct (fs_get_root f (world k1)) as [r|e|] eqn:E; cbn.
  - destruct (root (vfs k1)) eqn:Er; cbn; intros [[? [= _ <-]]|[? [=]]]; [done|].
    destruct (sp_root _ _ _ (vi_world _ Hk1) E) as (Ho & Hv & Ht).
    destruct Hk1 as [Hw Hids Hcnt Hwd Hmt Hrv Hrt]. split; cbn; try done.
    intros ? [= <-]. split; [|done]. split; [done|]. exists i. by rewrite Ho.
  - by intros [[? [=]]|[? [= _ <-]]].
  - by intros [[? [=]]|[? [=]]].
Qed.

Lemma mount_inv k m f k' :
  vfs_inv k → filesystem_id_counter (vfs k) < usize_max → known k m → ¬ mounted k m → ¬ in_use k f →
  leaves (mount m f k) k' → vfs_inv k'.
Proof.
  intros Hk Hc Hm Hnm Hnf. destruct (vn_get_type m (world k)) as [t|e|] eqn:Et.
  2: { unfold mount, mbind', on_world, leaves. rewrite Et. cbn. by intros [[? [=]]|[? [= _ <-]]]. }
  2: { unfold mount, mbind', on_world, leaves. rewrite Et. cbn. by intros [[? [=]]|[? [=]]]. }
  destruct (decide (t = Directory)) as [->|Hd].
  2: { unfold mount. rewrite (mbind_ok _ _ _ _ _ (on_world_ok _ _ k Et)), decide_False by done.
       by intros [[? [=]]|[? [= _ <-]]]. }
  destruct (fs_get_root f (world k)) as [r|e|] eqn:Er.
  1: { destruct (mount_spec k m f r) as (k1 & -> & Hmt); try done. intros [[? [= _ <-]]|[? [=]]]. apply Hmt. }
  all: destruct (register_spec k f Hk Hc) as (i & k1 & Hreg & (Hk1 & Hs & _) & _); unfold mount;
    rewrite (mbind_ok _ _ _ _ _ (on_world_ok _ _ k Et)), decide_True, (mbind_ok _ _ _ _ _ Hreg) by done;
    destruct (known_key k m Hk Hm) as [km Km];
    rewrite (mbind_ok _ _ _ _ _ (on_world_ok _ _ k1 (stable_trans_key k k1 m km Hk Hs Hm Km)));
    unfold mbind', on_world; rewrite (st_root _ _ Hs), Er; cbn.
  - by intros [[? [=]]|[? [= _ <-]]].
  - by intros [[? [=]]|[? [=]]].
Qed.

Lemma vstep_inv k c k' : vfs_inv k → once (k, c) → vstep k c k' → vfs_inv k'.
Proof.
  intros Hk Ho Hs. destruct Hs as [f k1|m f k1|m k1 Hm Hl|w' Hle]; [by eapply set_root_inv|destruct Ho; by eapply mount_inv| |].
  - destruct (known_key k m Hk Hm) as [km Km].
    destruct (unmount_spec k m km Hk Km) as [[_ E]|(r & kr & _ & _ & E & Hi)]; rewrite E in Hl.
    + by destruct Hl as [[? [=]]|[? [= _ <-]]].
    + by destruct Hl as [[? [= _ <-]]|[? [=]]].
  - pose proof (vi_width k Hk). eapply inv_change; [done|by apply stable_le|done..| |]; cbn; intros f i.
    + rewrite (sp_le_id _ _ _ Hle). apply (vi_ids k Hk).
    + rewrite (sp_le_id _ _ _ Hle). apply (vi_count k Hk).
Qed.

Lemma reachable_inv l k : reachable l k → Forall once l → vfs_inv k.
Proof. induction 1; [by intros _; apply boot_inv|]. intros [Ho Hl]%Forall_cons. by eapply vstep_inv; [apply IHreachable|..]. Qed.

(** Mounting a file system a second time breaks the tables. *)
Lemma mount_again k m f k' :
  vfs_inv k → filesystem_id_counter (vfs k) < usize_max → known k m → ¬ mounted k m → in_use k f →
  mount m f k = Ok (tt, k') → ¬ vfs_inv k'.
Proof.
  intros Hk Hc Hm Hnm (key0 & r & Hr & Ho). destruct (vi_mount k Hk _ _ Hr) as (Hrk & Hroot & _). rewrite Ho in Hroot.
  destruct (register_spec k f Hk Hc) as (i & k1 & Hreg & (Hk1 & Hs & Em & Er & _) & _). destruct (known_key k m Hk Hm) as [km Km].
  pose proof (stable_trans_key k k1 m km Hk Hs Hm Km) as Km1. pose proof (stable_known k k1 r Hs Hrk) as Hrk1. destruct (known_key k1 r Hk1 Hrk1) as [kr Kr].
  unfold mount. unfold mbind' at 1. destruct (on_world (vn_get_type m) k) as [[t k0]|[]|] eqn:Et; [|done..].
  assert (k0 = k) as -> by (unfold on_world, mlift in Et; destruct (vn_get_type m (world k)); congruence). case_decide; [|done].
  rewrite (mbind_ok _ _ _ _ _ Hreg), (mbind_ok _ _ _ _ _ (on_world_ok _ _ k1 Km1)).
  rewrite (mbind_ok _ _ _ r k1) by (apply on_world_ok; by rewrite (st_root _ _ Hs)).
  unfold mbind', get_vfs, set_vfs, mmodify. unfold on_world at 1. cbn [world]. unfold key_of in Kr. rewrite Kr. cbn. intros [= <-] Hk'.
  assert (km ≠ key0) as Hne by (intros ->; apply Hnm; by exists key0, r).
  destruct (vi_mount _ Hk' key0 r) as (_ & _ & kr' & m' & Kr' & Hm' & Km'); [cbn; by rewrite lookup_insert_ne, Em|].
  unfold key_of in Kr', Km'. cbn in Kr', Hm', Km'. rewrite Kr in Kr'. injection Kr' as <-. rewrite lookup_insert_eq in Hm'. injection Hm' as <-.
  unfold key_of in Km1. congruence.
Qed.

Lemma traverse_step_mounts k k' m r n c :
  vfs_inv k → known k m → mounts k k' m r → known k n → c ≠ "." → c ≠ ".." →
  vn_lookup n c (world k) = Ok m → traverse_step k' n c = Ok r.
Proof.
  intros Hk Hm [Hk' Hs Hl Hr _ (km & kr & Km & Kr & _ & _ & Em & _)] Hn H1 H2 E. unfold traverse_step.
  rewrite !decide_False by done. rewrite Hl, E. cbn. unfold key_of in Km. rewrite Km. cbn. by rewrite Em, lookup_insert_eq.
Qed.

Lemma traverse_step_up k k' m r :
  mounts k k' m r → traverse_step k' r ".." = vn_lookup m ".." (world k).
Proof.
  intros [Hk' Hs Hl Hr _ (km & kr & Km & Kr & _ & _ & _ & Er)]. unfold traverse_step.
  rewrite decide_False by done. rewrite decide_True by done. unfold key_of in Kr. rewrite Kr. cbn.
  by rewrite Er, lookup_insert_eq, Hl.
Qed.

Lemma traverse_step_elsewhere k k' m r n c :
  vfs_inv k → known k m → mounts k k' m r → known k n → n ≠ r → traverse_step k n c ≠ Ok m →
  traverse_step k' n c = traverse_step k n c.
Proof.
  intros Hk Hm [Hk' Hs Hl Hr _ (km & kr & Km & Kr & Fm & Fr & Em & Er)] Hn Hnr. unfold traverse_step.
  assert (∀ a key, known k a → key_of k a = Ok key → vn_get_inode_key a (world k') = Ok key) as Hkey.
  { intros a key. by apply stable_trans_key. }
  case_decide; [done|]. case_decide.
  - intros _. destruct (known_key k n Hk Hn) as [key Kn]. rewrite (Hkey n key) by done. unfold key_of in Kn. rewrite Kn. cbn.
    rewrite Er, lookup_insert_ne; [by rewrite !Hl; destruct (reverse_mount_points (vfs k) !! key)|].
    intros ->. apply Hnr. eapply known_inj; [exact Hk'|by eapply stable_known|done|by apply Hkey|done].
  - rewrite Hl. destruct (vn_lookup n c (world k)) as [b| |] eqn:E; cbn; [|done..].
    assert (known k b) as Hb.
    { destruct Hn as [Hv [i Hi]]. destruct (sp_lookup _ _ _ _ (vi_world k Hk) Hv E) as [Ho ?]. split; [done|].
      exists i. by rewrite Ho. }
    destruct (known_key k b Hk Hb) as [key Kb]. rewrite (Hkey b key) by done. unfold key_of in Kb. rewrite Kb. cbn.
    rewrite Em. destruct (decide (key = km)) as [->|]; [|by rewrite lookup_insert_ne].
    rewrite Fm. cbn. intros Hne. exfalso. apply Hne. f_equal. symmetry.
    eapply known_inj; [exact Hk'|by eapply stable_known|by eapply stable_known|done|by apply Hkey].
Qed.

(** Other nodes are mount points as before. *)
Lemma mounts_lookup k k' m r n key :
  known k m → mounts k k' m r → known k' n → key_of k' n = Ok key → n ≠ m →
  mount_points (vfs k') !! key = mount_points (vfs k) !! key.
Proof.
  intros Hm [Hk' Hs _ _ _ (km & kr & Km & _ & _ & _ & Em & _)] Hn Kn Hne. rewrite Em, lookup_insert_ne; [done|].
  intros <-. apply Hne. eapply known_inj; [exact Hk'|done|by eapply stable_known|done|done].
Qed.

(** Undoing a mount. *)
Lemma unmount_mounts k k' m r :
  vfs_inv k → mounts k k' m r → ∃ k'', unmount m k' = Ok (tt, k'') ∧ vfs_inv k'' ∧ world k'' = world k' ∧
    mount_points (vfs k'') = mount_points (vfs k) ∧ reverse_mount_points (vfs k'') = reverse_mount_points (vfs k).
Proof.
  intros Hk [Hk' Hs Hl Hr _ (km & kr & Km & Kr & Fm & Fr & Em & Er)].
  assert (mount_points (vfs k') !! km = Some r) as Hmr by (by rewrite Em, lookup_insert_eq).
  exists (without k' km kr). split_and!; [|by eapply inv_without|done| |]; cbn.
  - eapply unmount_ok; [done..|]. rewrite Er, lookup_insert_eq. by eexists.
  - rewrite Em. by apply delete_insert_id.
  - rewrite Er. by apply delete_insert_id.
Qed.

(** C15: In every state the kernel reaches by setting the root, mounting,
    unmounting and calls on nodes, file systems have distinct identities, both maps
    of mounts are inverse to each other, and a node is found again from its key, as
    long as nothing was mounted on a mount point and no file system twice.
    [unmount] of a node that is no mount point is the error [NotFound] and changes
    nothing; of a mount point it takes just its entries from both maps; after a
    [mount] it gives back the maps from before.  The condition on file systems is
    necessary, and the code does not check it: a second mount breaks the tables. *)
Theorem vfs_reachable l k :
  reachable l k → Forall once l →
  vfs_inv k ∧
  (∀ n key, known k n → key_of k n = Ok key → get_inode key k = Ok n) ∧
  (∀ m km, known k m → key_of k m = Ok km →
     match mount_points (vfs k) !! km with
     | None => unmount m k = Err (FsError.NotFound, k)
     | Some r => ∃ kr, key_of k r = Ok kr ∧ unmount m k = Ok (tt, without k km kr) ∧ vfs_inv (without k km kr)
     end) ∧
  (∀ m f r, filesystem_id_counter (vfs k) < usize_max → known k m → vn_get_type m (world k) = Ok Directory →
     ¬ mounted k m → fs_get_root f (world k) = Ok r →
     (¬ in_use k f → ∃ k' k'', mount m f k = Ok (tt, k') ∧ vfs_inv k' ∧ unmount m k' = Ok (tt, k'') ∧
        mount_points (vfs k'') = mount_points (vfs k) ∧ reverse_mount_points (vfs k'') = reverse_mount_points (vfs k)) ∧
     (in_use k f → ∀ k', mount m f k = Ok (tt, k') → ¬ vfs_inv k')).
Proof.
  intros Hl Ho. pose proof (reachable_inv l k Hl Ho) as Hk. split_and!; [done| | |].
  - intros n key. by apply known_get_inode.
  - intros m km Hm Km. destruct (unmount_spec k m km Hk Km) as [[-> ?]|(r & kr & -> & ? & ? & ?)]; [done|by exists kr].
  - intros m f r Hc Hm Ht Hnm Hr. split.
    + intros Hnf. destruct (mount_spec k m f r Hk Hc Hm Ht Hnm Hr Hnf) as (k' & E & Hmt). destruct (unmount_mounts k k' m r Hk Hmt) as (k'' & E2 & _ & _ & Em & Er).
      exists k', k''. split_and!; [done|apply Hmt|done..].
    + intros Hf k' E. by eapply mount_again.
Qed.

(** After [mount], a name that led to the mount point leads to the root of
    the mounted file system, [..] from that root leads to the parent of the
    mount point, all other steps of a traversal are as before, and [unmount]
    gives back the traversal of every path. *)
Lemma mount_correct k m f r :
  vfs_inv k → filesystem_id_counter (vfs k) < usize_max →
  known k m → vn_get_type m (world k) = Ok Directory → ¬ mounted k m →
  fs_get_root f (world k) = Ok r → ¬ in_use k f →
  ∃ k', mount m f k = Ok (tt, k') ∧ vfs_inv k' ∧
    (∀ n c, known k n → c ≠ "." → c ≠ ".." → vn_lookup n c (world k) = Ok m → traverse_step k' n c = Ok r) ∧
    traverse_step k' r ".." = vn_lookup m ".." (world k) ∧
    (∀ n c, known k n → n ≠ r → traverse_step k n c ≠ Ok m → traverse_step k' n c = traverse_step k n c) ∧
    ∃ k'', unmount m k' = Ok (tt, k'') ∧ vfs_inv k'' ∧
      ∀ n p, known k n → traverse_path n p k'' = traverse_path n p k.
Proof.
  intros Hk Hc Hm Ht Hnm Hr Hnf. destruct (mount_spec k m f r) as (k' & E & Hmt); try done.
  destruct (unmount_mounts k k' m r Hk Hmt) as (k'' & E2 & Hk2 & Ew & Em & Er).
  exists k'. split_and!; [done|apply Hmt| | | |exists k''; split_and!; [done|done|]].
  - intros n c. by eapply traverse_step_mounts.
  - by apply traverse_step_up.
  - intros n c. by eapply traverse_step_elsewhere.
  - intros n p Hn. apply traverse_path_same; try done; rewrite Ew; apply Hmt.
Qed.

(** *** What a path means, by the mounts alone *)

(** The root [r] of a file system is mounted on the node [m]. *)
Definition mounted_on k m r : Prop := known k m ∧ ∃ key, key_of k m = Ok key ∧ mount_points (vfs k) !! key = Some r.

(** One component of a path: a mount point stands for what is mounted on it, and
    the parent of a mounted root is the parent of its mount point. *)
Inductive hop k : N → string → N → Prop :=
| hop_stay n : hop k n "." n
| hop_up n p : (∀ m, ¬ mounted_on k m n) → vn_lookup n ".." (world k) = Ok p → hop k n ".." p
| hop_leave n m p : mounted_on k m n → vn_lookup m ".." (world k) = Ok p → hop k n ".." p
| hop_down n c m : c ≠ "." → c ≠ ".." → vn_lookup n c (world k) = Ok m → (∀ r, ¬ mounted_on k m r) → hop k n c m
| hop_enter n c m r : c ≠ "." → c ≠ ".." → vn_lookup n c (world k) = Ok m → mounted_on k m r → hop k n c r.
Inductive resolves k : N → list string → N → Prop :=
| resolves_nil n : resolves k n [] n
| resolves_cons n c m l p : hop k n c m → resolves k m l p → resolves k n (c :: l) p.
(** The node a path starts from. *)
Definition enters k n n0 : Prop := mounted_on k n n0 ∨ n0 = n ∧ ∀ r, ¬ mounted_on k n r.

Lemma mounted_on_fun k m r r' : mounted_on k m r → mounted_on k m r' → r = r'.
Proof. intros (_ & key & K & Hr) (_ & key' & K' & Hr'). assert (key = key') as -> by congruence. congruence. Qed.
Lemma mounted_on_key k m key : vfs_inv k → known k m → key_of k m = Ok key → ∀ r, mount_points (vfs k) !! key = Some r ↔ mounted_on k m r.
Proof. intros Hk Hm K r. split; [intros Hr; split; [done|by exists key]|]. intros (_ & key' & K' & Hr). congruence. Qed.
(** The second map says on which node a root is mounted. *)
Lemma mounted_on_reverse k n kn : vfs_inv k → known k n → key_of k n = Ok kn → ∀ m, reverse_mount_points (vfs k) !! kn = Some m ↔ mounted_on k m n.
Proof.
  intros Hk Hn Kn m. split.
  - intros Hm. destruct (vi_reverse k Hk _ _ Hm) as (Hmk & _ & key & r & Km & Hr & Kr). split; [done|]. exists key. split; [done|].
    destruct (vi_mount k Hk _ _ Hr) as (Hrk & _). by rewrite <-(known_inj k r n kn Hk Hrk Hn Kr Kn).
  - intros (Hm & key & Km & Hr). destruct (vi_mount k Hk _ _ Hr) as (_ & _ & kr & m' & Kr & Hm' & Km'). assert (kr = kn) as -> by congruence.
    destruct (vi_reverse k Hk _ _ Hm') as (Hmk' & _). by rewrite (known_inj k m m' key Hk Hm Hmk' Km Km').
Qed.
Lemma enters_spec k n key : vfs_inv k → known k n → key_of k n = Ok key → ∀ n0, n0 = default n (mount_points (vfs k) !! key) ↔ enters k n n0.
Proof.
  intros Hk Hn K n0. pose proof (mounted_on_key k n key Hk Hn K) as Hm. unfold enters. setoid_rewrite <-Hm. destruct (mount_points (vfs k) !! key) as [r|]; cbn; [|naive_solver].
  split; [intros ->; by left|]. intros [[= ->]|[_ Hno]]; [done|]. by destruct (Hno r).
Qed.

Lemma traverse_step_hop k n c m : vfs_inv k → known k n → traverse_step k n c = Ok m ↔ hop k n c m.
Proof.
  intros Hk Hn. unfold traverse_step. case_decide as H1; [subst c|case_decide as H2; [subst c|]].
  - split; [intros [= ->]; constructor|]. by inversion 1.
  - destruct (known_key k n Hk Hn) as [kn Kn]. pose proof (mounted_on_reverse k n kn Hk Hn Kn) as Hm. unfold key_of in Kn. rewrite Kn. cbn [rbind].
    destruct (reverse_mount_points (vfs k) !! kn) as [m0|] eqn:E.
    + split; [intros El; eapply hop_leave; [by apply Hm|done]|]. inversion 1 as [|? ? Hno El|? m1 ? Hm1 El| |]; subst; try done; [by destruct (Hno m0); apply Hm|].
      apply Hm in Hm1. injection Hm1 as ->. done.
    + split; [intros El; apply hop_up; [|done]; by intros m0 Hm0%Hm|]. inversion 1 as [|? ? Hno El|? m1 ? Hm1 El| |]; subst; try done. by apply Hm in Hm1.
  - destruct (vn_lookup n c (world k)) as [b| |] eqn:El; cbn [rbind].
    2,3: split; [done|]; inversion 1; subst; congruence.
    assert (Hb : known k b).
    { destruct Hn as [Hv [i Hi]]. destruct (sp_lookup _ _ _ _ (vi_world k Hk) Hv El) as [Ho ?]. split; [done|]. exists i. by rewrite Ho. }
    destruct (known_key k b Hk Hb) as [kb Kb]. pose proof (enters_spec k b kb Hk Hb Kb m) as He. unfold key_of in Kb. rewrite Kb. cbn [rbind].
    split.
    + intros [= Hd]. apply symmetry, He in Hd as [Hd|[-> Hd]]; [by eapply hop_enter|by apply hop_down].
    + intros Hh. f_equal. symmetry. apply He. inversion Hh as [| | |? ? m' _ _ Em Hno|? ? m' r _ _ Em Hr]; subst; try done; (assert (m' = b) as -> by congruence) || (assert (m = b) as -> by congruence); [by right|by left].
Qed.
Lemma traverse_loop_resolves k l : ∀ n m, vfs_inv k → known k n → traverse_loop k n l = Ok m ↔ resolves k n l m.
Proof.
  induction l as [|c l IH]; intros n m Hk Hn; cbn [traverse_loop].
  - split; [intros [= ->]; constructor|by inversion 1].
  - pose proof (traverse_step_hop k n c) as Hs. split.
    + destruct (traverse_step k n c) as [n1| |] eqn:E; cbn [rbind]; [|done..]. intros Hl. eapply resolves_cons; [by apply Hs|]. apply IH; [done| |done]. by eapply traverse_step_known.
    + inversion 1 as [|? ? n1 ? ? Hh Hr]; subst. apply Hs in Hh; [|done..]. pose proof (traverse_step_known k n c n1 Hk Hn Hh). rewrite Hh. cbn [rbind]. by apply IH.
Qed.


(** A file system mounted on two nodes can be unmounted only once: the
    second [unmount] fails with [Corrupted] and the mount stays. *)
Lemma double_mount_stuck k m1 m2 f r key1 key2 :
  vfs_inv k → filesystem_id_counter (vfs k) < usize_max → known k m1 → known k m2 →
  vn_get_type m1 (world k) = Ok Directory → vn_get_type m2 (world k) = Ok Directory →
  key_of k m1 = Ok key1 → key_of k m2 = Ok key2 → key1 ≠ key2 → ¬ mounted k m1 → ¬ mounted k m2 →
  fs_get_root f (world k) = Ok r → ¬ in_use k f →
  ∃ k1 k2 k3, mount m1 f k = Ok (tt, k1) ∧ mount m2 f k1 = Ok (tt, k2) ∧ unmount m1 k2 = Ok (tt, k3) ∧
    unmount m2 k3 = Err (FsError.Corrupted "mount point is missing its reverse mapping", k3) ∧
    mount_points (vfs k3) !! key2 = Some r.
Proof.
  intros Hk Hc Hm1 Hm2 Ht1 Ht2 K1 K2 Hne Hn1 Hn2 Hr Hnf.
  destruct (mount_spec k m1 f r) as (k1 & E1 & Hmt); try done. exists k1.
  destruct Hmt as [Hk1 Hs Hl Hrk _ (km & kr & Km & Kr & Fm & Fr & Em & Er)].
  assert (km = key1) as ->. { pose proof (stable_trans_key k k1 m1 key1 Hk Hs Hm1 K1). congruence. }
  pose proof (stable_trans_key k k1 m2 key2 Hk Hs Hm2 K2) as K2'.
  assert (fs_get_root f (world k1) = Ok r) as Hr1 by (by rewrite (st_root _ _ Hs)).
  destruct (sp_root f _ r (vi_world _ Hk1) Hr1) as (Ho & _). destruct Hrk as [Hrv [i Hi]]. rewrite Ho in Hi.
  assert (mount m2 f k1 = Ok (tt, mkKernel (set_reverse (<[kr := m2]> (reverse_mount_points (vfs k1)))
             (set_mount_points (<[key2 := r]> (mount_points (vfs k1))) (vfs k1))) (world k1))) as E2.
  { unfold mount. rewrite <-(st_type _ _ Hs) in Ht2 by apply Hm2.
    rewrite (mbind_ok _ _ _ _ _ (on_world_ok _ _ k1 Ht2)), decide_True by done.
    rewrite (mbind_ok _ _ _ i k1).
    2: { unfold register_filesystem, mbind', get_vfs, set_vfs, mmodify, mret. rewrite Hi.
         rewrite (proj2 (vi_ids k1 Hk1 f i) Hi). by destruct k1. }
    rewrite (mbind_ok _ _ _ _ _ (on_world_ok _ _ k1 K2')), (mbind_ok _ _ _ _ _ (on_world_ok _ _ k1 Hr1)).
    unfold mbind', get_vfs, set_vfs, mmodify. unfold on_world at 1. cbn [world]. unfold key_of in Kr. by rewrite Kr. }
  set (k2 := mkKernel _ _) in E2. exists k2, (without k2 key1 kr). split_and!; [done|done| | |].
  - eapply unmount_ok; [exact Km| |exact Kr|]; cbn; [|rewrite lookup_insert_eq; by eexists].
    rewrite lookup_insert_ne by done. by rewrite Em, lookup_insert_eq.
  - eapply (unmount_unpaired _ m2 key2 r kr); [exact K2'| |exact Kr|]; cbn.
    + by rewrite lookup_delete_ne, lookup_insert_eq.
    + by rewrite lookup_delete_eq.
  - cbn. by rewrite lookup_delete_ne, lookup_insert_eq.
Qed.
End correct.
