(* ===== verification/UserVM.v ===== *)
(** * Virtual memory of a process (src/memory/user_virtual_memory.rs)

    The ranges a process has mapped and the ones that are free, page faults at
    its addresses, and the page cache (src/memory/page_cache.rs) that shared
    mappings of a file go through.  Pages are mapped in the tables of
    PageTable.v, files are read through the trait VNode of Vfs.v.  Invalidating
    TLBs is not modelled. *)

From stdpp Require Import list_tactics.
From S2P Require Import Prelude RBTree FreeSet Bytes PhysMem PageTable VmPages FsTypes Vfs.

Definition USERSPACE_START : Z := 0x10000.
Definition USERSPACE_END : Z := 0x8000_0000_0000_0000.

Record FileMapping (N : Type) : Type := mkFM {
  fm_vnode : N;
  file_offset : Z;
  file_length : option Z;
}.
Arguments mkFM {N}.
Arguments fm_vnode {N}.
Arguments file_offset {N}.
Arguments file_length {N}.

Module MapBacking.
Inductive t (N : Type) : Type :=
| File (fm : FileMapping N)
| Device (paddr memory_info : Z)
| Anonymous.
Arguments File {N}.
Arguments Device {N}.
Arguments Anonymous {N}.
End MapBacking.
Abbreviation MapBacking := MapBacking.t.

Record Mapping (N : Type) : Type := mkMapping {
  backing : MapBacking N;
  mlength : Z;
  prot : Z;
  shared : bool;
  mbase : Z;
}.
Arguments mkMapping {N}.
Arguments backing {N}.
Arguments mlength {N}.
Arguments prot {N}.
Arguments shared {N}.
Arguments mbase {N}.

Definition mend {N} (m : Mapping N) : Z := mbase m + mlength m.

Record VirtualMemory (TB TL TA : Type) : Type := mkVM {
  free_set : FreeSet TB TL;
  active_set : TA;
  page_table : Z;
}.
Arguments mkVM {TB TL TA}.
Arguments free_set {TB TL TA}.
Arguments active_set {TB TL TA}.
Arguments page_table {TB TL TA}.

(** [VNode::prepare_mmap]. *)
Class Mmap (W N : Type) : Type := {
  vn_prepare_mmap : N → Z → W → res FsError (MapBacking N);
}.

(** ** Mapping ranges *)

Section ranges.
Context {W N TB TL TA : Type} {HM : Mmap W N}.
Context {OB : RBTree fbase TB} {OL : RBTree flength TL} {OA : RBTree (@mbase N) TA}.
Abbreviation VM := (VirtualMemory TB TL TA).
Abbreviation UOp A := (M VM string A).

(** The call of [f] on the free set. *)
Definition on_free {A} (f : M (FreeSet TB TL) string A) : UOp A := λ v,
  match f (free_set v) with
  | Ok (a, s) => Ok (a, mkVM s (active_set v) (page_table v))
  | Err (e, s) => Err (e, mkVM s (active_set v) (page_table v))
  | Panic => Panic
  end.

(** The condition on a backing that is part of a file. *)
Definition check_part (length : Z) (shared : bool) (backing : MapBacking N) : res string (MapBacking N) :=
  match backing with
  | MapBacking.File fm =>
      if bool_decide (is_Some (file_length fm)) && shared then
        Err "we do not allow partial file maps if shared (this feature only affects the ELF loader)"
      else match file_length fm with
           | Some file_length => if length <? file_length then Err "file length is bigger than length of map" else Ok backing
           | None => Ok backing
           end
  | _ => Ok backing
  end.

(** What backs the mapping, and the conditions on it. *)
Definition backing_for (w : W) (file : option (FileMapping N)) (length : Z) (shared : bool) : res string (MapBacking N) :=
  if negb (is_multiple_of length PAGE_SIZE) then Err "map length must be aligned to page boundary" else
  let? backing :=
    match file with
    | Some fm =>
        if negb (is_multiple_of (file_offset fm) PAGE_SIZE) then Err "file offset must be aligned to page boundary" else
        match vn_prepare_mmap (fm_vnode fm) (file_offset fm) w with
        | Ok map_backing => Ok map_backing
        | Err FsError.NotImplemented => Ok (MapBacking.File fm)
        | Err _ => Err "failed to prepare mmap"
        | Panic => Panic
        end
    | None => Ok MapBacking.Anonymous
    end in
  check_part length shared backing.

Definition mmap (w : W) (file : option (FileMapping N)) (length prot : Z) (shared : bool) (preferred_base : option Z) : UOp Z :=
  let! backing := mlift (backing_for w file length shared) in
  let! base := match preferred_base with
               | Some preferred_base =>
                   let! _ := on_free (remove_range_by_base preferred_base length) in
                   mret preferred_base
               | None => on_free (remove_range_by_length length)
               end in
  let! _ := mmodify (λ v, mkVM (free_set v) (rb_insert (mkMapping backing length prot shared base) (active_set v)) (page_table v)) in
  mret base.

(** [new], with the page table [new_page_table] has made. *)
Definition vm_new (page_table : Z) : res string VM :=
  let? set := match add_range USERSPACE_START (USERSPACE_END - USERSPACE_START) FreeSet.new with
              | Ok (_, s) => Ok s
              | _ => Panic
              end in
  Ok (mkVM set rb_empty page_table).
End ranges.

(** ** Frames as pages of bytes *)

Definition frame_bytes (m : gmap Z Z) (p : Z) : list Z :=
  concat ((λ i : nat, le_bytes 8 (word_at m (p + 8 * Z.of_nat i))) <$> seq 0 512).
Definition store_bytes (p : Z) (l : list Z) (m : gmap Z Z) : gmap Z Z :=
  foldr (λ (i : nat) m, <[p + 8 * Z.of_nat i := le_val (sub l (8 * Z.of_nat i) 8)]> m) m (seq 0 512).

(** A change of the bytes of the frame that is seen at the address [a]. *)
Definition set_frame (a : Z) (f : list Z → list Z) : VOp unit :=
  mmodify (λ s, set_words (store_bytes a (f (frame_bytes (words s) a)) (words s)) s).

(** [physical_memory::copy] between frames. *)
Definition copy_frame (src dst length : Z) : VOp unit :=
  let! hhdm := of_phys the_hhdm in
  let! a := mlift (uadd src hhdm) in
  let! b := mlift (uadd dst hhdm) in
  let! s := mget in
  set_frame b (λ l, splice l 0 (sub (frame_bytes (words s) a) 0 length)).

(** [new_page_table]: a copy of the boot loader's root table. *)
Definition new_page_table (limine_page_table : Z) : VOp Z :=
  let! page_table := new_frame in
  let! _ := copy_frame limine_page_table page_table PAGE_SIZE in
  mret page_table.

(** ** The page cache *)

Record PageKey : Type := mkPageKey { inode_key : INodeKey; offset : Z }.

#[export] Instance PageKey_dec : EqDecision PageKey.
Proof. solve_decision. Defined.
#[export] Instance PageKey_countable : Countable PageKey.
Proof.
  refine (inj_countable' (λ k, (inode_key k, offset k)) (λ p, mkPageKey p.1 p.2) _). by intros [].
Defined.

(** What a page fault can end with besides success: it waits for a frame, or it
    returns an error. *)
Inductive FaultError : Type :=
| FWaiting
| FError (msg : string).

Section faults.
Context {W F N TB TL TA : Type} {HF : Filesystem W F N} {HV : VNode W N}.
Context {OA : RBTree (@mbase N) TA}.
Abbreviation VM := (VirtualMemory TB TL TA).

(** Memory, the page cache and the file systems. *)
Record System : Type := mkSystem {
  phys : PhysMem;
  page_cache : gmap PageKey Z;
  kernel : @Kernel W F N;
}.
Abbreviation POp A := (M System FaultError A).

Definition on_phys {A} (m : VOp A) : POp A := λ s,
  match m (phys s) with
  | Ok (a, p) => Ok (a, mkSystem p (page_cache s) (kernel s))
  | Err (_, p) => Err (FWaiting, mkSystem p (page_cache s) (kernel s))
  | Panic => Panic
  end.

(** A call that reads the file systems, its error replaced by [msg]. *)
Definition on_kernel {A} (msg : string) (f : @Kernel W F N → res FsError A) : POp A := λ s,
  match f (kernel s) with
  | Ok a => Ok (a, s)
  | Err _ => Err (FError msg, s)
  | Panic => Panic
  end.

(** [read_page] into the frame [paddr].  What an attempt that fails leaves in the
    frame is not modelled. *)
Definition read_page_into (n : N) (paddr off : Z) : POp unit :=
  let! hhdm := on_phys (of_phys the_hhdm) in
  let! a := mlift (uadd paddr hhdm) in
  λ s, match vn_read_page n (frame_bytes (words (phys s)) a) off (world (kernel s)) with
       | Ok ((_, page), w) =>
           Ok (tt, mkSystem (set_words (store_bytes a page (words (phys s))) (phys s)) (page_cache s) (mkKernel (vfs (kernel s)) w))
       | Err (_, w) => Err (FError "could not read from file", mkSystem (phys s) (page_cache s) (mkKernel (vfs (kernel s)) w))
       | Panic => Panic
       end.

Definition get_file_page (key : PageKey) : POp Z :=
  let! paddr := on_phys new_frame in
  let! n := on_kernel "could not get inode" (get_inode (inode_key key)) in
  let! _ := read_page_into n paddr (offset key) in
  let! _ := mmodify (λ s, mkSystem (phys s) (<[key := paddr]> (page_cache s)) (kernel s)) in
  mret paddr.

Definition find_page (key : PageKey) (s : System) : option Z := page_cache s !! key.

Definition get_page (key : PageKey) : POp Z :=
  let! s := mget in
  match find_page key s with
  | Some paddr => mret paddr
  | None => get_file_page key
  end.

(** ** Page faults *)

Definition user_permissions : Z := Z.lor (Z.lor PRESENT CACHEABLE) USER_ACCESSIBLE.

Definition handle_mapping_shared (table vaddr : Z) (mapping : Mapping N) : POp unit :=
  let! _ := mlift (rassert (is_multiple_of vaddr PAGE_SIZE)) in
  match backing mapping with
  | MapBacking.File fm =>
      let! k := on_kernel "could not get inode key" (λ k, vn_get_inode_key (fm_vnode fm) (world k)) in
      let! o := mlift (usub vaddr (mbase mapping)) in
      let! off := mlift (uadd o (file_offset fm)) in
      let! paddr := get_page (mkPageKey k off) in
      on_phys (vmap table vaddr paddr (Z.lor user_permissions (prot mapping)))
  | MapBacking.Device paddr memory_info =>
      let! page_offset := mlift (usub vaddr (mbase mapping)) in
      let! p := mlift (uadd paddr page_offset) in
      on_phys (vmap table vaddr p (Z.lor (Z.lor (Z.lor PRESENT USER_ACCESSIBLE) (prot mapping)) memory_info))
  | MapBacking.Anonymous => mfail (FError "shared anonymous mappings not implemented")
  end.

Definition handle_mapping_private_partial (table vaddr : Z) (mapping : Mapping N) (file_length : Z) : POp bool :=
  let! page_offset := mlift (usub vaddr (mbase mapping)) in
  let! e := mlift (uadd page_offset PAGE_SIZE) in
  if e <=? file_length then mret false else
  match backing mapping with
  | MapBacking.File fm =>
      let! private_paddr := on_phys new_frame in
      let file_bytes := saturating_sub file_length page_offset in
      let! _ :=
        (if 0 <? file_bytes then
           let! k := on_kernel "could not get inode key" (λ k, vn_get_inode_key (fm_vnode fm) (world k)) in
           let! off := mlift (uadd page_offset (file_offset fm)) in
           let! s := mget in
           match find_page (mkPageKey k off) s with
           | Some file_paddr => on_phys (copy_frame file_paddr private_paddr file_bytes)
           | None => read_page_into (fm_vnode fm) private_paddr off
           end
         else mret tt) in
      let! s := mget in
      let! hhdm := mlift (match HHDM_OFFSET (phys s) with Some h => Ok h | None => Err (FError "could not get HHDM offset") end) in
      let! a := mlift (uadd private_paddr hhdm) in
      let! _ := on_phys (set_frame a (λ l, splice l file_bytes (zrep (PAGE_SIZE - file_bytes) 0))) in
      let! _ := on_phys (vmap table vaddr private_paddr (Z.lor user_permissions (prot mapping))) in
      mret true
  | _ => mfail (FError "partial file mapping has non-file backing")
  end.

Definition handle_mapping_private (table vaddr : Z) (mapping : Mapping N) : POp unit :=
  let! _ := mlift (rassert (is_multiple_of vaddr PAGE_SIZE)) in
  match backing mapping with
  | MapBacking.File fm =>
      let! partial := match file_length fm with
                      | Some file_length => handle_mapping_private_partial table vaddr mapping file_length
                      | None => mret false
                      end in
      if (partial : bool) then mret tt else
      let! paddr := on_phys new_frame in
      let! _ := on_phys (vmap table vaddr paddr (Z.lor user_permissions (prot mapping))) in
      let! o := mlift (usub vaddr (mbase mapping)) in
      let! off := mlift (uadd o (file_offset fm)) in
      read_page_into (fm_vnode fm) paddr off
  | MapBacking.Device _ _ => mfail (FError "Private device mappings are not supported")
  | MapBacking.Anonymous =>
      let! paddr := on_phys new_frame in
      let! _ := on_phys (vmap table vaddr paddr (Z.lor user_permissions (prot mapping))) in
      let! hhdm := on_phys (of_phys the_hhdm) in
      let! a := mlift (uadd paddr hhdm) in
      on_phys (write_zeroes a)
  end.

Definition invlpg (table vaddr : Z) : POp unit :=
  let! _ := on_phys (vunmap_no_dealloc table vaddr) in
  mret tt.

(** The mapping of an address. *)
Definition find_mapping (vm : VM) (vaddr : Z) : res FaultError (Mapping N) :=
  match rb_get (active_set vm) (rb_upper_bound (active_set vm) (Included vaddr)) with
  | None => Err (FError "nothing is mapped")
  | Some mapping =>
      let? e := uadd (mbase mapping) (mlength mapping) in
      if e <=? vaddr then Err (FError "out of mapped range") else Ok mapping
  end.

Definition handle_page_fault (vm : VM) (present : bool) (address : Z) : POp unit :=
  let vaddr := Z.land address 0xFFFFFFFFFFFFF000 in
  let! mapping := mlift (find_mapping vm vaddr) in
  let! _ := (if present then invlpg (page_table vm) vaddr else mret tt) in
  if shared mapping then handle_mapping_shared (page_table vm) vaddr mapping
  else handle_mapping_private (page_table vm) vaddr mapping.
End faults.

(** ** The ranges of a process *)

Section ranges_proofs.
Context {W N TB TL TA : Type} {HM : Mmap W N}.
Context {OB : RBTree fbase TB} {OL : RBTree flength TL} {OA : RBTree (@mbase N) TA}.
Context {HB : RBTreeSpec Z.le OB} {HL : RBTreeSpec Z.le OL} {HA : RBTreeSpec Z.le OA}.
Abbreviation VM := (VirtualMemory TB TL TA).

Definition inside (m : Mapping N) (a : Z) : Prop := mbase m ≤ a < mend m.
Definition apart (m m' : Mapping N) : Prop := mend m ≤ mbase m' ∨ mend m' ≤ mbase m.
Definition user_address (a : Z) : Prop := USERSPACE_START ≤ a < USERSPACE_END.

(** The mappings do not overlap, and the free addresses are those of user space
    that no mapping has. *)
Record vm_ok (v : VM) : Prop := mk_vm_ok {
  vo_free : fs_inv (free_set v);
  vo_range m : m ∈ rb_elems (active_set v) → USERSPACE_START ≤ mbase m ∧ 0 < mlength m ∧ mend m ≤ USERSPACE_END;
  vo_apart : pairwise apart (rb_elems (active_set v));
  vo_cover a : covers (free_set v) a ↔ user_address a ∧ ∀ m, m ∈ rb_elems (active_set v) → ¬ inside m a;
}.

#[local] Instance apart_sym : Symmetric apart.
Proof. unfold apart. intros ??. lia. Qed.

(** Taking a free range for a mapping. *)
Lemma take_ok (v : VM) m s' :
  vm_ok v → 0 < mlength m → fs_inv s' → (∀ a, inside m a → covers (free_set v) a) →
  (∀ a, covers s' a ↔ covers (free_set v) a ∧ ¬ inside m a) →
  vm_ok (mkVM s' (rb_insert m (active_set v)) (page_table v)).
Proof.
  intros [Hf Hr Ha Hc] Hlen Hs' Hfree Hc'. unfold inside, mend in *.
  pose proof (proj1 (Hc _) (Hfree (mbase m) ltac:(lia))) as [U1 N1].
  pose proof (proj1 (Hc _) (Hfree (mbase m + mlength m - 1) ltac:(lia))) as [U2 N2]. unfold user_address in *.
  split; simpl; [done|..].
  - intros x [->|Hx]%(rb_elem_of_insert Z.le); [unfold mend; lia|by apply Hr].
  - apply (pairwise_perm apart (m :: rb_elems (active_set v)) _ _ (symmetry (rb_insert_perm Z.le _ _))). split; [|done].
    apply Forall_forall. intros x Hx. pose proof (Hr x Hx). specialize (N1 x Hx). unfold apart, mend in *.
    destruct (decide (mbase x < mbase m + mlength m ∧ mbase m < mbase x)) as [[H1 H2]|]; [|lia].
    destruct (proj1 (Hc _) (Hfree (mbase x) ltac:(lia))) as [_ N3]. specialize (N3 x Hx). lia.
  - intros a. rewrite Hc', Hc. setoid_rewrite (rb_elem_of_insert Z.le). unfold inside, mend, user_address.
    split; [intros [[? H1] H2]|intros [? H1]]; (split; [|intros x]); [done|by intros [->|]; auto|split; auto|by apply (H1 m (or_introl eq_refl))].
Qed.

Lemma on_free_ok {A} (f : M (FreeSet TB TL) string A) (v : VM) a s' :
  f (free_set v) = Ok (a, s') → on_free f v = Ok (a, mkVM s' (active_set v) (page_table v)).
Proof. intros E. unfold on_free. by rewrite E. Qed.
Lemma on_free_err {A} (f : M (FreeSet TB TL) string A) (v : VM) e :
  f (free_set v) = Err (e, free_set v) → on_free f v = Err (e, v).
Proof. intros E. unfold on_free. rewrite E. by destruct v. Qed.

(** [length] addresses from [base] on are free. *)
Definition range_free (v : VM) (base length : Z) : Prop := ∀ a, base ≤ a < base + length → covers (free_set v) a.

(** The mapping that is added, at the base asked for or at one that is free. *)
Definition mapped_at (v v' : VM) (m : Mapping N) : Prop :=
  vm_ok v' ∧ page_table v' = page_table v ∧ range_free v (mbase m) (mlength m) ∧
  rb_elems (active_set v') ≡ₚ m :: rb_elems (active_set v).

Lemma free_range_space (v : VM) y length :
  vm_ok v → y ∈ rb_elems (base_set (free_set v)) → length ≤ flength y → range_free v (fbase y) length.
Proof. intros Hv Hy Hl a Ha. exists y. unfold fend. split; [done|lia]. Qed.

Lemma range_dec (v : VM) base length :
  vm_ok v → 0 < length → range_free v base length ∨ ∃ a, base ≤ a < base + length ∧ ¬ covers (free_set v) a.
Proof.
  intros Hv Hl. set (l := seqZ base length).
  destruct (decide (Forall (λ a, Exists (λ y, fbase y ≤ a < fend y) (rb_elems (base_set (free_set v)))) l)) as [Hd|Hd].
  - left. intros a Ha. rewrite Forall_forall in Hd. apply Exists_exists, Hd. apply elem_of_seqZ. lia.
  - right. apply not_Forall_Exists in Hd; [|apply _]. apply Exists_exists in Hd as (a & Ha%elem_of_seqZ & Hn).
    exists a. split; [lia|]. intros Hc. by apply Hn, Exists_exists.
Qed.

(** What [mmap] does on every branch. *)
Lemma mmap_spec w file length p sh preferred (v : VM) :
  vm_ok v → 0 < length →
  (∀ b, preferred = Some b → 0 ≤ b ∧ b + length ≤ usize_max) →
  match backing_for w file length sh with
  | Panic => mmap w file length p sh preferred v = Panic
  | Err e => mmap w file length p sh preferred v = Err (e, v)
  | Ok b =>
      match preferred with
      | Some base =>
          (range_free v base length → ∃ v', mmap w file length p sh preferred v = Ok (base, v') ∧
             mapped_at v v' (mkMapping b length p sh base)) ∧
          (¬ range_free v base length → ∃ e, mmap w file length p sh preferred v = Err (e, v))
      | None =>
          ((∃ base, range_free v base length) → ∃ base v', mmap w file length p sh preferred v = Ok (base, v') ∧
             mapped_at v v' (mkMapping b length p sh base)) ∧
          ((¬ ∃ base, range_free v base length) → ∃ e, mmap w file length p sh preferred v = Err (e, v))
      end
  end.
Proof.
  intros Hv Hlen Hpre. unfold mmap. destruct (backing_for w file length sh) as [b|e|]; [|done..]. rewrite (mbind_ok _ _ v b v) by done.
  destruct preferred as [base|].
  - destruct (Hpre base eq_refl) as [Hb1 Hb2]. split; [intros Hfree|intros Hn].
    + destruct (remove_by_base_hit (free_set v) base length) as (s' & E & Hs' & Hc); [apply Hv|done..|].
      eexists. rewrite mbind_assoc, (mbind_ok _ _ _ _ _ (on_free_ok _ _ _ _ E)). split; [done|].
      split; [apply (take_ok v); [done..|exact Hfree|exact Hc]|]. split_and!; [done|done|by apply (rb_insert_perm Z.le)].
    + destruct (range_dec v base length Hv Hlen) as [|Hx]; [done|].
      destruct (remove_by_base_miss (free_set v) base length) as (e & E); [apply Hv|done..|]. exists e.
      rewrite mbind_assoc. by rewrite (mbind_err _ _ _ _ _ (on_free_err _ _ _ E)).
  - assert (Hd : (∃ y, y ∈ rb_elems (base_set (free_set v)) ∧ length ≤ flength y) ∨ ∀ y, y ∈ rb_elems (base_set (free_set v)) → flength y < length).
    { destruct (decide (Exists (λ y, length ≤ flength y) (rb_elems (base_set (free_set v))))) as [Hx|Hx]; [left; by apply Exists_exists in Hx|right].
      intros y Hy. destruct (Z.lt_ge_cases (flength y) length); [done|]. destruct Hx. apply Exists_exists. eauto. }
    split; [intros [base Hfree]|intros Hn].
    + assert (∃ y, y ∈ rb_elems (base_set (free_set v)) ∧ length ≤ flength y) as (y & Hy & Hyl).
      { destruct (vo_free _ Hv) as (l & Hr & Hco). destruct (covered_single l base length Hco Hlen) as (y & Hy & ? & ?).
        - intros a Ha. by rewrite <-(covers_repr (free_set v)) by done; apply Hfree.
        - exists y. destruct Hr as [Hr _]. rewrite Hr. split; [done|]. unfold fend in *. lia. }
      destruct (remove_by_length_hit (free_set v) length y (vo_free _ Hv) Hlen Hy Hyl) as (x & s' & E & Hs' & Hx & Hxl & _ & Hc).
      exists (fbase x). eexists. rewrite (mbind_ok _ _ _ _ _ (on_free_ok _ _ _ _ E)). split; [done|].
      split; [apply (take_ok v); [done..|by apply free_range_space|exact Hc]|]. split_and!; [done|by apply free_range_space|by apply (rb_insert_perm Z.le)].
    + destruct Hd as [(y & Hy & Hyl)|Hd]; [destruct Hn; exists (fbase y); by apply free_range_space|].
      destruct (remove_by_length_miss (free_set v) length (vo_free _ Hv) Hd) as (e & E). exists e.
      by rewrite (mbind_err _ _ _ _ _ (on_free_err _ _ _ E)).
Qed.

(** Part of a file only backs a private mapping that is long enough. *)
Definition part_fits (length : Z) (sh : bool) (b : MapBacking N) : Prop :=
  ∀ fm n, b = MapBacking.File fm → file_length fm = Some n → sh = false ∧ n ≤ length.

(** What backs a mapping: zeroes if there is no file, what the file's node
    prepared, or the file itself if its node prepares nothing. *)
Inductive backed_by (w : W) (length : Z) (sh : bool) : option (FileMapping N) → MapBacking N → Prop :=
| backed_anonymous : backed_by w length sh None MapBacking.Anonymous
| backed_prepared fm b :
    aligned (file_offset fm) PAGE_SIZE → vn_prepare_mmap (fm_vnode fm) (file_offset fm) w = Ok b →
    part_fits length sh b → backed_by w length sh (Some fm) b
| backed_file fm :
    aligned (file_offset fm) PAGE_SIZE → vn_prepare_mmap (fm_vnode fm) (file_offset fm) w = Err FsError.NotImplemented →
    part_fits length sh (MapBacking.File fm) → backed_by w length sh (Some fm) (MapBacking.File fm).

Lemma check_part_spec length sh (b : MapBacking N) :
  check_part length sh b = Ok b ∧ part_fits length sh b ∨
  (∃ e, check_part length sh b = Err e) ∧ ¬ part_fits length sh b.
Proof.
  unfold part_fits, check_part. destruct b as [fm| |]; [|left; split; [done|by intros]..].
  destruct (file_length fm) as [n|] eqn:En.
  - rewrite (bool_decide_true (is_Some (Some n))) by eauto. destruct sh; cbn [andb].
    + right. split; [by eexists|]. intros Hp. by destruct (Hp fm n eq_refl En).
    + zcase; [right; split; [by eexists|]|left; split; [done|]].
      * intros Hp. destruct (Hp fm n eq_refl En). lia.
      * intros ? ? [= <-] E. rewrite En in E. by injection E as <-.
  - left. split; [done|]. intros ? ? [= <-] E. congruence.
Qed.

Lemma page_nz : PAGE_SIZE ≠ 0.
Proof. discriminate. Qed.

(** [backing_for] finds what backs the mapping, if anything does. *)
Lemma backing_for_spec w file length sh :
  (∀ fm, file = Some fm → vn_prepare_mmap (fm_vnode fm) (file_offset fm) w ≠ Panic) →
  (∃ b, backing_for w file length sh = Ok b ∧ aligned length PAGE_SIZE ∧ backed_by w length sh file b) ∨
  (∃ e, backing_for w file length sh = Err e) ∧ ¬ (aligned length PAGE_SIZE ∧ ∃ b, backed_by w length sh file b).
Proof.
  intros Hpan. unfold backing_for.
  destruct (is_multiple_of length PAGE_SIZE) eqn:El; cbn [negb].
  2: { right. split; [by eexists|]. intros [Ha%(is_multiple_of_spec length PAGE_SIZE page_nz) _]. congruence. }
  apply (is_multiple_of_spec length PAGE_SIZE page_nz) in El.
  destruct file as [fm|]; [|left; eexists; split; [done|]; split; [done|constructor]].
  destruct (is_multiple_of (file_offset fm) PAGE_SIZE) eqn:Eo; cbn [negb].
  2: { right. split; [by eexists|]. intros (_ & b & Hb).
       assert (aligned (file_offset fm) PAGE_SIZE) as Ha%(is_multiple_of_spec _ _ page_nz) by (by inversion Hb). congruence. }
  apply (is_multiple_of_spec (file_offset fm) PAGE_SIZE page_nz) in Eo.
  specialize (Hpan fm eq_refl). destruct (vn_prepare_mmap (fm_vnode fm) (file_offset fm) w) as [b|e|] eqn:Ep; [| |done].
  - cbn [rbind]. destruct (check_part_spec length sh b) as [[-> Hf]|[[e ->] Hf]].
    + left. exists b. split_and!; [done|done|by apply backed_prepared].
    + right. split; [by eexists|]. intros (_ & b' & Hb). inversion Hb; simplify_eq; congruence.
  - destruct e; try (right; split; [by eexists|]; intros (_ & b' & Hb); inversion Hb; simplify_eq; congruence).
    cbn [rbind]. destruct (check_part_spec length sh (MapBacking.File fm)) as [[-> Hf]|[[e ->] Hf]].
    + left. eexists. split_and!; [done|done|by apply backed_file].
    + right. split; [by eexists|]. intros (_ & b' & Hb). inversion Hb; simplify_eq; congruence.
Qed.

Lemma backed_by_inj w length sh file b b' : backed_by w length sh file b → backed_by w length sh file b' → b = b'.
Proof. intros H1 H2. inversion H1; inversion H2; simplify_eq; congruence. Qed.

(** A range that passes the end of the address space, above a free address. *)
Lemma remove_by_base_overflow (s : FreeSet TB TL) base length :
  fs_inv s → usize_max < base + length → (∃ a, a ≤ base ∧ covers s a) → remove_range_by_base base length s = Panic.
Proof.
  intros (l & Hr & Hco) Hov (a & Ha & y & Hy & Hya). unfold remove_range_by_base. mstep.
  destruct (rb_get _ _) as [x|] eqn:E.
  2: { by destruct (rb_upper_get_None Z.le _ _ E y Hy ltac:(unfold fend in *; lia)). }
  destruct (upper_spec _ _ _ _ Hr E) as (Hx & _). pose proof (coalesced_elem _ _ Hco Hx). unfold range_ok, fend in *.
  rewrite uadd_ok by lia. mstep. unfold uadd. by zcase; [lia|].
Qed.

(** C26: [mmap] of a process whose mappings are apart.  If the length is not
    whole pages or nothing backs the mapping, it returns an error and changes
    nothing.  Otherwise, for a positive length and a range inside the address
    space: if the addresses asked for are all free, or, with no address asked
    for, if some range of that length is free, a mapping of that length with
    that backing is added on free addresses and the mappings stay apart; if
    not, it returns an error and changes nothing.  Two calls have no such
    guarantee: asking for a range that passes the end of the address space
    panics when any address below it is free, and a mapping of length 0, if it
    is accepted, breaks the invariant.  The call of the file's node is assumed
    not to panic. *)
Theorem mmap_correct w file length p sh preferred (v : VM) :
  vm_ok v → (∀ base, preferred = Some base → 0 ≤ base) →
  (∀ fm, file = Some fm → vn_prepare_mmap (fm_vnode fm) (file_offset fm) w ≠ Panic) →
  let at_base base := ∀ b, preferred = Some b → base = b in
  let run := mmap w file length p sh preferred v in
  (¬ (aligned length PAGE_SIZE ∧ ∃ b, backed_by w length sh file b) → ∃ e, run = Err (e, v)) ∧
  ∀ b, aligned length PAGE_SIZE → backed_by w length sh file b →
    (0 < length → (∀ base, preferred = Some base → base + length ≤ usize_max) →
       ((∃ base, at_base base ∧ range_free v base length) → ∃ base v', run = Ok (base, v') ∧
          at_base base ∧ mapped_at v v' (mkMapping b length p sh base)) ∧
       ((¬ ∃ base, at_base base ∧ range_free v base length) → ∃ e, run = Err (e, v))) ∧
    (∀ base, preferred = Some base → usize_max < base + length →
       (∃ a, a ≤ base ∧ covers (free_set v) a) → run = Panic) ∧
    (length = 0 → ∀ base v', run = Ok (base, v') → ¬ vm_ok v').
Proof.
  intros Hv Hpre Hpan at_base run. pose proof (mmap_spec w file length p sh preferred v Hv) as Hspec.
  destruct (backing_for_spec w file length sh Hpan) as [(b & Eb & Hal & Hb)|[[e Ee] Hn]].
  2: { split; [|by intros b Hal Hb; destruct Hn; eauto]. intros _. exists e. unfold run, mmap.
       by rewrite (mbind_err _ _ v e v) by (by rewrite Ee). }
  split; [intros Hn; by destruct Hn; eauto|]. intros b' _ Hb'. rewrite (backed_by_inj _ _ _ _ _ _ Hb' Hb) in *. clear b' Hb'.
  rewrite Eb in Hspec. split_and!.
  - intros Hlen Hmax. specialize (Hspec Hlen).
    destruct preferred as [base|]; (destruct Hspec as [Hok Hno]; [intros x [= <-]; auto|]) || (destruct Hspec as [Hok Hno]; [by intros|]).
    + split; [intros (x & Hx & Hfree)|intros Hn].
      * rewrite (Hx base eq_refl) in Hfree. destruct (Hok Hfree) as (v' & E & Hm). exists base, v'. split_and!; [done|by intros x' [= <-]|done].
      * apply Hno. intros Hf. apply Hn. exists base. split; [by intros x' [= <-]|done].
    + split; [intros (x & _ & Hfree)|intros Hn].
      * destruct (Hok (ex_intro _ x Hfree)) as (base & v' & E & Hm). exists base, v'. by split_and!.
      * apply Hno. intros [x Hf]. apply Hn. by exists x.
  - intros base -> Hov Hfree. unfold run, mmap. rewrite (mbind_ok _ _ v b v) by (by rewrite Eb).
    rewrite mbind_assoc. unfold mbind' at 1, on_free. by rewrite remove_by_base_overflow by (apply Hv || done).
  - intros -> base v' E Hv'. unfold run, mmap in E. rewrite (mbind_ok _ _ v b v) in E by (by rewrite Eb).
    unfold mbind' at 1 in E. destruct (_ v) as [[base1 v1]|[]|] in E; [|done..].
    injection E as <- <-. pose proof (vo_range _ Hv' (mkMapping b 0 p sh base1)) as Hr. simpl in Hr.
    rewrite (rb_elem_of_insert Z.le) in Hr. destruct Hr as (_ & ? & _); [by left|lia].
Qed.

(** The mapping of an address is the one [find_mapping] finds. *)
Lemma find_mapping_hit (v : VM) m a : vm_ok v → m ∈ rb_elems (active_set v) → inside m a → find_mapping v a = Ok m.
Proof.
  intros [_ Hr Ha _] Hm Hin. unfold find_mapping. unfold inside in Hin. destruct (rb_get (active_set v) _) as [x|] eqn:E.
  2: { by destruct (rb_upper_get_None Z.le _ _ E m Hm ltac:(lia)). }
  destruct (rb_upper_get Z.le _ _ _ E) as (Hx & Hxa & Hmax). specialize (Hmax m Hm ltac:(lia)).
  pose proof (Hr x Hx). pose proof (Hr m Hm). apply list_elem_of_split in Hm as (l1 & l2 & Hl).
  assert (x = m) as ->.
  { rewrite Hl in Hx, Ha. assert (Hp : pairwise apart (m :: l1 ++ l2)) by (apply (pairwise_perm _ (l1 ++ m :: l2)); [apply _|by rewrite Permutation_middle|done]).
    rewrite <-Permutation_middle in Hx. apply elem_of_cons in Hx as [->|Hx]; [done|]. pose proof (pairwise_elem _ _ _ _ Hp Hx) as Hap.
    unfold apart, mend in *. lia. }
  unfold mend, USERSPACE_END, USERSPACE_START in *. rewrite uadd_ok by (unfold usize_max; lia). cbn [rbind]. by zcase; [lia|].
Qed.

Lemma find_mapping_miss (v : VM) a : vm_ok v → (∀ m, m ∈ rb_elems (active_set v) → ¬ inside m a) → ∃ e, find_mapping v a = Err e.
Proof.
  intros [_ Hr _ _] Hn. unfold find_mapping. destruct (rb_get (active_set v) _) as [x|] eqn:E; [|by eexists].
  destruct (rb_upper_get Z.le _ _ _ E) as (Hx & Hxa & _). specialize (Hn x Hx). specialize (Hr x Hx). unfold inside, mend, USERSPACE_END in *.
  rewrite uadd_ok by (unfold usize_max; lia). cbn [rbind]. zcase; [by eexists|lia].
Qed.

(** A new process: all of user space is free. *)
Lemma vm_new_ok table : ∃ v : VM, vm_new table = Ok v ∧ vm_ok v ∧ page_table v = table ∧ rb_elems (active_set v) = [].
Proof.
  destruct (add_range_free (new : FreeSet TB TL) USERSPACE_START (USERSPACE_END - USERSPACE_START)) as (s & E & Hs & Hc); [apply new_inv|done..|intros a _|].
  - intros (y & Hy & _). simpl in Hy. by rewrite rb_elems_empty in Hy; apply not_elem_of_nil in Hy.
  - unfold vm_new. rewrite E. eexists. split; [done|]. split_and!; [|done|apply rb_elems_empty]. split; simpl; rewrite ?rb_elems_empty; [done|..].
    + intros m []%not_elem_of_nil.
    + done.
    + intros a. rewrite Hc. unfold covers, covers_list; simpl. rewrite rb_elems_empty. unfold user_address, USERSPACE_START, USERSPACE_END.
      split; [intros [(y & []%not_elem_of_nil & _)|?]; split; [lia|intros m []%not_elem_of_nil]|intros [? _]; right; lia].
Qed.
End ranges_proofs.
