(* ===== verification/UserFault.v ===== *)
(** * Page faults of a process (src/memory/user_virtual_memory.rs)

    What the handlers of UserVM.v do to the page tables, to the frames and to
    the page cache: frames as pages of bytes, private mappings, shared mappings
    and the fault as a whole. *)

From stdpp Require Import list_tactics.
From S2P Require Import Prelude RBTree FreeSet Bytes PhysMem PageTable VmPages FsTypes Vfs UserVM.

(** ** Frames as bytes *)

Lemma store_bytes_out p l m a : (∀ i, (i < 512)%nat → a ≠ p + 8 * Z.of_nat i) → word_at (store_bytes p l m) a = word_at m a.
Proof.
  unfold store_bytes. intros H. assert (Hs : ∀ i, i ∈ seq 0 512 → a ≠ p + 8 * Z.of_nat i).
  { intros i Hi%elem_of_seq. apply H. lia. }
  clear H. induction (seq 0 512) as [|i js IH]; [done|]. simpl. unfold word_at. rewrite lookup_insert_ne.
  - apply IH. intros j Hj. apply Hs. by right.
  - intros E. by destruct (Hs i ltac:(left)).
Qed.

Lemma store_bytes_word p l m i : (i < 512)%nat → word_at (store_bytes p l m) (p + 8 * Z.of_nat i) = le_val (sub l (8 * Z.of_nat i) 8).
Proof.
  unfold store_bytes. intros Hi. assert (Hs : i ∈ seq 0 512) by (apply elem_of_seq; lia). clear Hi.
  induction (seq 0 512) as [|j js IH]; [by apply not_elem_of_nil in Hs|]. simpl. unfold word_at.
  destruct (decide (i = j)) as [->|Hne]; [by rewrite lookup_insert_eq|]. rewrite lookup_insert_ne by lia.
  apply IH. by apply elem_of_cons in Hs as [|].
Qed.

(** Pages made of pieces of eight bytes. *)
Lemma concat_pieces {A} (n : nat) (l : list A) (k : nat) : length l = (n * k)%nat →
  concat ((λ i : nat, take k (drop (i * k) l)) <$> seq 0 n) = l.
Proof.
  revert l. induction n as [|n IH]; intros l Hl; [by destruct l|]. rewrite <-cons_seq, <-fmap_S_seq. cbn [fmap list_fmap concat].
  rewrite drop_0. rewrite <-(take_drop k l) at 2. f_equal. rewrite <-list_fmap_compose.
  etrans; [|apply (IH (drop k l)); rewrite length_drop; lia]. f_equal. apply list_fmap_ext. intros i j _. simpl. by rewrite drop_drop.
Qed.

Definition page_ok (l : list Z) : Prop := zlen l = PAGE_SIZE ∧ Forall is_byte l.

Lemma frame_bytes_ext m m' p : (∀ i, (i < 512)%nat → word_at m' (p + 8 * Z.of_nat i) = word_at m (p + 8 * Z.of_nat i)) →
  frame_bytes m' p = frame_bytes m p.
Proof.
  intros H. unfold frame_bytes. f_equal. apply list_fmap_ext. intros i j Hj. apply lookup_seq in Hj as [-> ?]. by rewrite H by lia.
Qed.

Lemma frame_bytes_store m p l : page_ok l → frame_bytes (store_bytes p l m) p = l.
Proof.
  intros [Hl Hb]. unfold frame_bytes. etrans; [|apply (concat_pieces 512 l 8)].
  - f_equal. apply list_fmap_ext. intros i j Hj. apply lookup_seq in Hj as [-> Hi]. rewrite store_bytes_word by lia.
    unfold sub. replace (Z.to_nat (8 * Z.of_nat (0 + i))) with (i * 8)%nat by lia. change (Z.to_nat 8) with 8%nat.
    assert (Hlen : length (take 8 (drop (i * 8) l)) = 8%nat).
    { rewrite length_take, length_drop. unfold zlen, PAGE_SIZE in Hl. lia. }
    rewrite <-Hlen at 1. apply le_bytes_val. by apply Forall_take, Forall_drop.
  - unfold zlen, PAGE_SIZE in Hl. lia.
Qed.

Lemma frame_bytes_ok m p : page_ok (frame_bytes m p).
Proof.
  unfold frame_bytes. split.
  - unfold zlen. rewrite length_concat. rewrite <-list_fmap_compose.
    rewrite (list_fmap_ext _ (λ _, 8%nat)); [|intros i x _; apply length_le_bytes]. by vm_compute.
  - apply Forall_concat, Forall_fmap, Forall_true. intros i. apply le_bytes_byte.
Qed.

Lemma frame_bytes_zero m p : (∀ i, (i < 512)%nat → word_at m (p + 8 * Z.of_nat i) = 0) → frame_bytes m p = zrep PAGE_SIZE 0.
Proof.
  intros H. unfold frame_bytes. transitivity (concat ((λ _ : nat, le_bytes 8 0) <$> seq 0 512)); [|by vm_compute].
  f_equal. apply list_fmap_ext. intros i j Hj. apply lookup_seq in Hj as [-> ?]. by rewrite H by lia.
Qed.

Lemma splice_page l k s : page_ok l → 0 ≤ k → k + zlen s ≤ PAGE_SIZE → Forall is_byte s → page_ok (splice l k s).
Proof.
  intros [Hl Hb] Hk Hs Hbs. split; [rewrite zlen_splice; lia|]. unfold splice.
  repeat apply Forall_app_2; [by apply Forall_take|done|by apply Forall_drop].
Qed.

(** ** Page faults *)

Section fault_proofs.
Context (h : Z) (rs : list Entry) (Hmap : map_ok h rs).
Context (H48 : ∀ i e, rs !! i = Some e → entry_type e = USABLE → ebase e + elength e ≤ 2 ^ 48).
Context {W F N TB TL TA : Type} {HF : Filesystem W F N} {HV : VNode W N}.
Context {OA : RBTree (@mbase N) TA} {HA : RBTreeSpec Z.le OA}.
Abbreviation VM := (VirtualMemory TB TL TA).
Abbreviation Sys := (@System W F N).
Abbreviation space_at := (address_space h rs).
Abbreviation vpn := (page_number 3).
Implicit Types (s : Sys) (live T : list Z) (A : Z → option Z).

Lemma space_phys p free live space T A : space_at p free live space T A → phys_inv h rs p free live.
Proof. intros (t & _ & _ & Hpt & _). apply Hpt. Qed.

Lemma space_tables p free live space T A g : space_at p free live space T A → g ∈ T → g ∈ live.
Proof. intros (t & _ & HT & Hpt & _) Hg. apply Hpt. by rewrite HT. Qed.

Lemma space_nodup p free live space T A : space_at p free live space T A → NoDup live.
Proof. intros Hs%space_phys%pi_nodup. by apply NoDup_app in Hs as (_ & _ & ?). Qed.

(** Writing to a frame that is no table. *)
Lemma space_write p free live space T A f m :
  space_at p free live space T A → f ∈ live → f ∉ T → same_out h [f] (words p) m → space_at (set_words m p) free live space T A.
Proof.
  intros (t & Hr & HT & [Hp Hrep Hl Hn] & Hm) Hf HfT Ho. exists t.
  assert (Hs : same_in h (frames t) (words p) m).
  { intros g a Hg Ha. apply Ho. intros g' ->%list_elem_of_singleton Hga. destruct HfT. rewrite <-HT.
    rewrite (frames_disjoint h rs p free live f g a Hp); [done|apply elem_of_app; right; by auto..|done|done]. }
  split_and!; [done|done| |intros v; rewrite Hm; symmetry; by apply mapped_same].
  split; [apply (phys_inv_out h rs Hmap H48 p free live [f]); [done| |done]|by apply (rep_same h t (words p))|done|done].
  intros g ->%list_elem_of_singleton. done.
Qed.

(** The tables of an address space while frames of others are written. *)
Lemma space_other p p' free free' live live' space T A G :
  space_at p free live space T A → phys_inv h rs p' free' live' → (∀ g, g ∈ live → g ∈ live') →
  (∀ g, g ∈ G → g ∈ live' ∧ g ∉ T) → same_out h G (words p) (words p') → space_at p' free' live' space T A.
Proof.
  intros (t & Hr & HT & [Hp Hrep Hl Hn] & Hm) Hp' Hll HG Ho. exists t.
  assert (Hs : same_in h (frames t) (words p) (words p')).
  { intros g a Hg Ha. apply Ho. intros g' Hg' Hga. destruct (HG g' Hg') as [Hgl HgT]. apply HgT. rewrite <-HT.
    rewrite (frames_disjoint h rs p' free' live' g' g a Hp'); [done|apply elem_of_app; right; by auto..|done|done]. }
  split; [exact Hr|]. split; [exact HT|]. split; [|intros v; rewrite Hm; symmetry; by apply mapped_same].
  split; [exact Hp'|by apply (rep_same h t (words p))| |exact Hn]. intros g Hg. by apply Hll, Hl.
Qed.

(** Writing to other frames keeps the bytes of a frame. *)
Lemma frame_bytes_out p free live G f m m' :
  phys_inv h rs p free live → f ∈ live → (∀ g, g ∈ G → g ∈ live ∧ g ≠ f) → same_out h G m m' → frame_bytes m' (h + f) = frame_bytes m (h + f).
Proof.
  intros Hp Hf HG Ho. apply frame_bytes_ext. intros i Hi. apply Ho. intros g Hg Hin. destruct (HG g Hg) as [Hgl []].
  apply (frames_disjoint h rs p free live g f (h + f + 8 * Z.of_nat i) Hp); [apply elem_of_app; by right..|done|].
  by apply pte_in.
Qed.

Lemma same_out_store f l m : same_out h [f] m (store_bytes (h + f) l m).
Proof.
  intros a Ha. apply store_bytes_out. intros i Hi ->. apply (Ha f); [left|]. by apply pte_in.
Qed.

Lemma same_out_trans G G' m1 m2 m3 : same_out h G m1 m2 → same_out h G' m2 m3 → same_out h (G ++ G') m1 m3.
Proof. intros H1 H2 a Ha. rewrite H2, H1; [done|intros f Hf; apply Ha, elem_of_app; auto..]. Qed.

Lemma same_out_mono G G' m m' : (∀ f, f ∈ G → f ∈ G') → same_out h G m m' → same_out h G' m m'.
Proof. intros H1 H2 a Ha. apply H2. auto. Qed.

(** The page tables are well formed, and the cached pages are frames in use. *)
Definition cache_ok (c : gmap PageKey Z) live T : Prop := ∀ k f, c !! k = Some f → f ∈ live ∧ f ∉ T.
Definition sys_ok s free live space T A : Prop := space_at (phys s) free live space T A ∧ cache_ok (page_cache s) live T.

(** The page of [v], and no other, has become [ent]. *)
Definition user_page A A' (v ent : Z) : Prop := ∀ u, A' u = if decide (vpn u = vpn v) then Some ent else A u.

(** The system is well formed and only the page of [v] may have changed. *)
Definition consistent s space A v : Prop :=
  ∃ free live T A', sys_ok s free live space T A' ∧ ∀ u, vpn u ≠ vpn v → A' u = A u.

Lemma sys_hhdm s free live space T A : sys_ok s free live space T A → on_phys (of_phys the_hhdm) s = Ok (h, s).
Proof. intros [Hs _]. unfold on_phys. rewrite (hhdm_run h); [by destruct s|]. by apply pi_hhdm with rs free live, (space_phys _ _ _ _ _ _ Hs). Qed.

Lemma sys_add {E} s free live space T A f : sys_ok s free live space T A → f ∈ live → uadd f h = Ok (h + f) (E := E).
Proof.
  intros [Hs _] Hf. destruct (live_frame h rs Hmap H48 _ _ _ _ (space_phys _ _ _ _ _ _ Hs) Hf) as (_ & ? & _ & ?).
  pose proof (map_high _ _ Hmap). rewrite uadd_ok by (unfold PAGE_SIZE in *; lia). by rewrite Z.add_comm.
Qed.

Lemma sys_write s free live space T A f m k :
  sys_ok s free live space T A → f ∈ live → f ∉ T → same_out h [f] (words (phys s)) m →
  sys_ok (mkSystem (set_words m (phys s)) (page_cache s) k) free live space T A.
Proof. intros [Hs Hc] Hf HfT Ho. split; [by apply (space_write _ _ _ _ _ _ f)|done]. Qed.

Lemma space_same_words p p' free free' live space T A :
  space_at p free live space T A → phys_inv h rs p' free' live → words p' = words p → space_at p' free' live space T A.
Proof.
  intros (t & Hroot & HT & [_ Hr Hl Hn] & HAm) Hp Hw. exists t. split; [exact Hroot|]. split; [exact HT|]. split.
  - split; [exact Hp|rewrite Hw; exact Hr|exact Hl|exact Hn].
  - intros v. rewrite Hw. apply HAm.
Qed.

Lemma sys_new_frame s free live space T A :
  sys_ok s free live space T A →
  (∃ f p free', on_phys new_frame s = Ok (f, mkSystem p (page_cache s) (kernel s)) ∧ (f ∉ live) ∧ words p = words (phys s) ∧
     sys_ok (mkSystem p (page_cache s) (kernel s)) free' (f :: live) space T A) ∨
  (∃ s' free', on_phys new_frame s = Err (FWaiting, s') ∧ sys_ok s' free' live space T A).
Proof.
  intros [Hs Hc]. pose proof (space_phys _ _ _ _ _ _ Hs) as Hp0.
  destruct (new_frame_spec h rs Hmap _ _ _ Hp0) as [(f & p & free' & E & Hp & Hw)|(p & free' & E & Hp & Hw)];
    unfold on_phys; rewrite E; [left|right].
  - pose proof (space_new_frame h rs _ _ _ _ _ _ _ _ _ Hs Hp Hw) as Hs'. exists f, p, free'.
    split; [done|]. split; [|split; [exact Hw|split; [exact Hs'|]]].
    + pose proof (space_nodup _ _ _ _ _ _ Hs') as Hnd. by apply NoDup_cons in Hnd as [? _].
    + intros k g Hk. destruct (Hc k g Hk). split; [by right|done].
  - eexists _, free'. split; [done|]. split; [by apply (space_same_words (phys s) p free)|done].
Qed.

#[local] Opaque address_space.

Lemma cache_grow c live T new : cache_ok c live T → NoDup (new ++ live) → cache_ok c (new ++ live) (new ++ T).
Proof.
  intros Hc Hnd k f Hk. destruct (Hc k f Hk) as [Hf HfT]. apply NoDup_app in Hnd as (_ & Hd & _).
  split; [apply elem_of_app; by right|]. intros [Hn|]%elem_of_app; [by apply (Hd f)|done].
Qed.

(** Mapping a page. *)
Lemma sys_vmap s free live space T A v p options :
  sys_ok s free live space T A → contains options PRESENT = true →
  ∃ q free' new A', sys_ok (mkSystem q (page_cache s) (kernel s)) free' (new ++ live) space (new ++ T) A' ∧
    same_out h (new ++ T) (words (phys s)) (words q) ∧
    (on_phys (vmap space v p options) s = Ok (tt, mkSystem q (page_cache s) (kernel s)) ∧ user_page A A' v (leaf_entry p options) ∨
     on_phys (vmap space v p options) s = Err (FWaiting, mkSystem q (page_cache s) (kernel s)) ∧ ∀ u, vpn u ≠ vpn v → A' u = A u).
Proof.
  intros [Hs Hc] Hpr. destruct (vmap_spec h rs Hmap H48 _ _ _ _ _ _ v p options Hs) as (r & q & free' & new & A' & E & Hr & Hoth & Hs' & Ho).
  exists q, free', new, A'. split; [split; [exact Hs'|]|split; [exact Ho|]].
  { simpl. apply cache_grow; [exact Hc|]. by apply (space_nodup _ _ _ _ _ _ Hs'). }
  unfold on_phys. rewrite E. destruct Hr as [[-> Hv]|[-> Hv]]; [left|right]; (split; [done|]); [|exact Hoth].
  rewrite Hpr in Hv. intros u. case_decide as Hu; [|by apply Hoth].
  rewrite <-Hv. by apply (space_page h rs _ _ _ _ _ _ _ _ Hs').
Qed.

(** Reading a page of a file into a frame. *)
Lemma sys_read_page s free live space T A n f off :
  sys_ok s free live space T A → f ∈ live → f ∉ T →
  match vn_read_page n (frame_bytes (words (phys s)) (h + f)) off (world (kernel s)) with
  | Ok (_, page, w) =>
      ∃ q, read_page_into n f off s = Ok (tt, mkSystem q (page_cache s) (mkKernel (vfs (kernel s)) w)) ∧
        sys_ok (mkSystem q (page_cache s) (mkKernel (vfs (kernel s)) w)) free live space T A ∧
        same_out h [f] (words (phys s)) (words q) ∧ (page_ok page → frame_bytes (words q) (h + f) = page)
  | Err (_, w) => ∃ e, read_page_into n f off s = Err (e, mkSystem (phys s) (page_cache s) (mkKernel (vfs (kernel s)) w)) ∧
      sys_ok (mkSystem (phys s) (page_cache s) (mkKernel (vfs (kernel s)) w)) free live space T A
  | Panic => read_page_into n f off s = Panic
  end.
Proof.
  intros Hs Hf HfT. unfold read_page_into. rewrite (mbind_ok _ _ _ _ _ (sys_hhdm _ _ _ _ _ _ Hs)).
  rewrite (mbind_ok _ _ _ _ _ (mlift_ok _ _ _ (sys_add _ _ _ _ _ _ _ Hs Hf))).
  destruct (vn_read_page n _ off _) as [[[c page] w]|[e w]|]; [|eexists; split; [done|exact Hs]|done].
  eexists. split; [done|]. split; [|split].
  - apply (sys_write s _ _ _ _ _ f); [exact Hs|done|done|apply same_out_store].
  - apply same_out_store.
  - intros Hp. by apply frame_bytes_store.
Qed.

(** Setting the bytes of a frame. *)
Lemma sys_set_frame s free live space T A f g :
  sys_ok s free live space T A → f ∈ live → f ∉ T →
  ∃ q, on_phys (set_frame (h + f) g) s = Ok (tt, mkSystem q (page_cache s) (kernel s)) ∧
    sys_ok (mkSystem q (page_cache s) (kernel s)) free live space T A ∧ same_out h [f] (words (phys s)) (words q) ∧
    (page_ok (g (frame_bytes (words (phys s)) (h + f))) → frame_bytes (words q) (h + f) = g (frame_bytes (words (phys s)) (h + f))).
Proof.
  intros Hs Hf HfT. eexists. split; [done|]. split; [|split].
  - apply (sys_write s _ _ _ _ _ f); [exact Hs|done|done|apply same_out_store].
  - apply same_out_store.
  - intros Hp. by apply frame_bytes_store.
Qed.

Lemma sys_zeroes s free live space T A f :
  sys_ok s free live space T A → f ∈ live → f ∉ T →
  ∃ q, on_phys (write_zeroes (h + f)) s = Ok (tt, mkSystem q (page_cache s) (kernel s)) ∧
    sys_ok (mkSystem q (page_cache s) (kernel s)) free live space T A ∧ same_out h [f] (words (phys s)) (words q) ∧
    frame_bytes (words q) (h + f) = zrep PAGE_SIZE 0.
Proof.
  intros Hs Hf HfT. eexists. split; [done|]. split; [|split].
  - apply (sys_write s _ _ _ _ _ f); [exact Hs|done|done|apply same_out_clear].
  - apply same_out_clear.
  - apply frame_bytes_zero. intros i Hi. simpl. rewrite word_clear. rewrite decide_True; [done|]. unfold PAGE_SIZE. lia.
Qed.

(** Unmapping the page before it is mapped again. *)
Lemma sys_invlpg s free live space T A v :
  sys_ok s free live space T A →
  ∃ q free' live' gone T' A', invlpg space v s = Ok (tt, mkSystem q (page_cache s) (kernel s)) ∧
    sys_ok (mkSystem q (page_cache s) (kernel s)) free' live' space T' A' ∧ live ≡ₚ gone ++ live' ∧ T ≡ₚ gone ++ T' ∧
    (∀ u, vpn u ≠ vpn v → A' u = A u) ∧ same_out h T (words (phys s)) (words q).
Proof.
  intros [Hs Hc]. unfold invlpg, on_phys, vunmap_no_dealloc.
  pose proof (vunmap_spec h rs Hmap H48 _ _ _ _ _ _ v false Hs) as Hu. destruct (A v) as [e|] eqn:Ev.
  - destruct Hu as (q & free' & live' & gone & T' & A' & E & _ & Hoth & Hl & HT & Hs' & Ho); [done|].
    exists q, free', live', gone, T', A'. rewrite (mbind_ok _ _ s (Some (Z.land e PTE_ADDR_MASK)) (mkSystem q (page_cache s) (kernel s))) by (by rewrite E).
    split; [done|]. split; [split; [exact Hs'|]|done]. intros k f Hk. destruct (Hc k f Hk) as [Hf HfT].
    simpl in Hl. rewrite Hl in Hf. rewrite HT in HfT. apply elem_of_app in Hf as [Hf|]; [destruct HfT; apply elem_of_app; by left|].
    split; [done|]. intros Hn. apply HfT, elem_of_app. by right.
  - exists (phys s), free, live, [], T, A. rewrite (mbind_ok _ _ s None s) by (rewrite Hu; by destruct s).
    destruct s as [ph pc ke]. split; [done|]. split; [by split|done].
Qed.

(** ** Private mappings *)

(** The page of [v] is the frame [f], which was not in use, with this content;
    nothing else but page tables has been written. *)
Definition page_at f s live space T A (v options : Z) (content : list Z → Prop) s' : Prop :=
  ∃ free' new A', (f ∉ live) ∧ sys_ok s' free' (new ++ f :: live) space (new ++ T) A' ∧
    user_page A A' v (leaf_entry f options) ∧ content (frame_bytes (words (phys s')) (h + f)) ∧
    same_out h (f :: new ++ T) (words (phys s)) (words (phys s')) ∧ page_cache s' = page_cache s.
Definition fresh_page s live space T A (v options : Z) (content : list Z → Prop) s' : Prop :=
  ∃ f, page_at f s live space T A v options content s'.

(** Success, an error that leaves the system well formed, or a panic. *)
Definition outcome {B} (r : res (FaultError * Sys) (B * Sys)) space A (v : Z) (good : B → Sys → Prop) (panics : Prop) : Prop :=
  match r with
  | Ok (b, s') => good b s'
  | Err (_, s') => consistent s' space A v
  | Panic => panics
  end.

Lemma permissions_present x : contains (Z.lor user_permissions x) PRESENT = true.
Proof.
  unfold contains, user_permissions, PRESENT, CACHEABLE, USER_ACCESSIBLE. rewrite Z.land_lor_distr_l.
  change (Z.land (Z.lor (Z.lor 1 32) 8) 1) with 1. apply Z.eqb_eq. change 1 with (Z.ones 1) at 2.
  rewrite Z.land_ones by lia. pose proof (Z.mod_pos_bound x (2 ^ 1) ltac:(lia)).
  assert (x mod 2 ^ 1 = 0 ∨ x mod 2 ^ 1 = 1) as [->| ->] by lia; done.
Qed.

Lemma fresh_not_table s free live space T A f new :
  sys_ok s free (new ++ f :: live) space (new ++ T) A → (f ∉ live) → (∀ g, g ∈ T → g ∈ live) → f ∉ new ++ T.
Proof.
  intros [Hs _] Hf HT [Hn|Hn]%elem_of_app; [|by apply Hf, HT].
  apply space_nodup in Hs. apply NoDup_app in Hs as (_ & Hd & _). apply (Hd f Hn). left.
Qed.

(** A new frame that is mapped. *)
Lemma sys_fresh s free live space T A v options :
  sys_ok s free live space T A → contains options PRESENT = true →
  (∃ f q free' new A', (f ∉ live) ∧ (f ∉ new ++ T) ∧
     sys_ok (mkSystem q (page_cache s) (kernel s)) free' (new ++ f :: live) space (new ++ T) A' ∧
     user_page A A' v (leaf_entry f options) ∧ same_out h (new ++ T) (words (phys s)) (words q) ∧
     ∀ B (k : Z → M Sys FaultError B),
       mbind' (on_phys new_frame) (λ f, mbind' (on_phys (vmap space v f options)) (λ _, k f)) s = k f (mkSystem q (page_cache s) (kernel s))) ∨
  (∃ s', consistent s' space A v ∧ ∀ B (k : Z → M Sys FaultError B),
       mbind' (on_phys new_frame) (λ f, mbind' (on_phys (vmap space v f options)) (λ _, k f)) s = Err (FWaiting, s')).
Proof.
  intros Hs Hpr. assert (HT : ∀ g, g ∈ T → g ∈ live) by (intros g; apply (space_tables _ _ _ _ _ _ _ (proj1 Hs))).
  destruct (sys_new_frame _ _ _ _ _ _ Hs) as [(f & p & free1 & E & Hf & Hw & Hs1)|(s' & free1 & E & Hs1)].
  2: { right. exists s'. split; [by exists free1, live, T, A|]. intros B k. by rewrite (mbind_err _ _ _ _ _ E). }
  destruct (sys_vmap _ _ _ _ _ _ v f options Hs1 Hpr) as (q & free' & new & A' & Hs2 & Ho & [[E2 Hu]|[E2 Hu]]); simpl in *.
  - left. exists f, q, free', new, A'. split; [done|]. split; [by eapply fresh_not_table|]. rewrite <-Hw.
    split_and!; [done..|]. intros B k. rewrite (mbind_ok _ _ _ _ _ E). by rewrite (mbind_ok _ _ _ _ _ E2).
  - right. eexists. split; [by exists free', (new ++ f :: live), (new ++ T), A'|]. intros B k. rewrite (mbind_ok _ _ _ _ _ E).
    by rewrite (mbind_err _ _ _ _ _ E2).
Qed.

Lemma same_out_cons f G m1 m2 m3 : same_out h G m1 m2 → same_out h [f] m2 m3 → same_out h (f :: G) m1 m3.
Proof.
  intros H1 H2. apply (same_out_mono (G ++ [f])); [|by apply (same_out_trans _ _ _ m2)].
  clear. set_solver.
Qed.

Lemma anonymous_fault s free live space T A v m :
  sys_ok s free live space T A → is_multiple_of v PAGE_SIZE = true → backing m = MapBacking.Anonymous →
  outcome (handle_mapping_private space v m s) space A v
    (λ _, fresh_page s live space T A v (Z.lor user_permissions (prot m)) (eq (zrep PAGE_SIZE 0))) False.
Proof.
  intros Hs Hv Hb. unfold handle_mapping_private. rewrite Hv, Hb. rewrite (mbind_ok _ _ s tt s) by done.
  destruct (sys_fresh s free live space T A v (Z.lor user_permissions (prot m)) Hs (permissions_present _))
    as [(f & q & free' & new & A' & Hf & HfT & Hs1 & Hu & Ho & ->)|(s' & Hc & ->)]; [|exact Hc].
  assert (Hfl : f ∈ new ++ f :: live) by (apply elem_of_app; right; left).
  rewrite (mbind_ok _ _ _ _ _ (sys_hhdm _ _ _ _ _ _ Hs1)).
  rewrite (mbind_ok _ _ _ _ _ (mlift_ok _ _ _ (sys_add _ _ _ _ _ _ _ Hs1 Hfl))).
  destruct (sys_zeroes _ _ _ _ _ _ f Hs1 Hfl HfT) as (q' & E & Hs2 & Ho2 & Hz). rewrite E. simpl in *.
  exists f, free', new, A'. split; [done|]. split; [exact Hs2|]. split; [exact Hu|]. split; [by rewrite <-Hz|].
  split; [|done]. by apply (same_out_cons _ _ _ (words q)).
Qed.

(** The page that a file system reads at [off]. *)
Definition page_read (w : W) (n : N) (off : Z) (l : list Z) : Prop :=
  ∃ buf c page w', vn_read_page n buf off w = Ok (c, page, w') ∧ (page_ok page → l = page).
Definition read_panics (w : W) (n : N) (off : Z) : Prop := ∃ buf, vn_read_page n buf off w = Panic.

(** The part of [handle_mapping_private] for a page that is in the file as a whole. *)
Lemma file_fault s free live space T A v options n o foff :
  sys_ok s free live space T A → contains options PRESENT = true → o ≤ v → v - o + foff ≤ usize_max →
  outcome ((let! paddr := on_phys new_frame in
            let! _ := on_phys (vmap space v paddr options) in
            let! o := mlift (usub v o) in
            let! off := mlift (uadd o foff) in
            read_page_into n paddr off) s) space A v
    (λ _, fresh_page s live space T A v options (page_read (world (kernel s)) n (v - o + foff))) (read_panics (world (kernel s)) n (v - o + foff)).
Proof.
  intros Hs Hpr Hov Hoff.
  destruct (sys_fresh s free live space T A v options Hs Hpr)
    as [(f & q & free' & new & A' & Hf & HfT & Hs1 & Hu & Ho & ->)|(s' & Hc & ->)]; [|exact Hc].
  assert (Hfl : f ∈ new ++ f :: live) by (apply elem_of_app; right; left).
  rewrite (mbind_ok _ _ _ _ _ (mlift_ok _ _ _ (usub_ok v o ltac:(lia)))).
  rewrite (mbind_ok _ _ _ _ _ (mlift_ok _ _ _ (uadd_ok (v - o) foff ltac:(lia)))).
  pose proof (sys_read_page _ _ _ _ _ _ n f (v - o + foff) Hs1 Hfl HfT) as Hr. simpl in Hr.
  destruct (vn_read_page n _ (v - o + foff) _) as [[[c page] w]|[e w]|] eqn:Er.
  - destruct Hr as (q' & -> & Hs2 & Ho2 & Hp). exists f, free', new, A'.
    split; [done|]. split; [exact Hs2|]. split; [exact Hu|]. split; [by eexists _, c, page, w|].
    split; [|done]. by apply (same_out_cons _ _ _ (words q)).
  - destruct Hr as (e' & -> & Hs2). eexists free', _, _, A'. split; [exact Hs2|]. intros u Hne. rewrite Hu. by rewrite decide_False.
  - rewrite Hr. by eexists.
Qed.

(** The page of a file at [off], from the page cache or from the file system. *)
Definition file_page s (n : N) (off : Z) (src : list Z) : Prop :=
  ∃ key, vn_get_inode_key n (world (kernel s)) = Ok key ∧
    match page_cache s !! mkPageKey key off with
    | Some g => src = frame_bytes (words (phys s)) (h + g)
    | None => page_read (world (kernel s)) n off src
    end.
Definition file_panics s (n : N) (off : Z) : Prop :=
  vn_get_inode_key n (world (kernel s)) = Panic ∨ read_panics (world (kernel s)) n off.

(** Its first [k] bytes, and zeroes. *)
Definition partial_page s (n : N) (off k : Z) (l : list Z) : Prop :=
  ∃ src, (0 < k → file_page s n off src) ∧ l = sub src 0 k ++ zrep (PAGE_SIZE - k) 0.

Lemma sys_copy s free live space T A g f k :
  sys_ok s free live space T A → g ∈ live → f ∈ live → f ∉ T → 0 ≤ k ≤ PAGE_SIZE →
  ∃ q, on_phys (copy_frame g f k) s = Ok (tt, mkSystem q (page_cache s) (kernel s)) ∧
    sys_ok (mkSystem q (page_cache s) (kernel s)) free live space T A ∧ same_out h [f] (words (phys s)) (words q) ∧
    sub (frame_bytes (words q) (h + f)) 0 k = sub (frame_bytes (words (phys s)) (h + g)) 0 k.
Proof.
  intros Hs Hg Hf HfT Hk. set (src := frame_bytes (words (phys s)) (h + g)).
  destruct (sys_set_frame _ _ _ _ _ _ f (λ l, splice l 0 (sub src 0 k)) Hs Hf HfT) as (q & E & Hs' & Ho & Hb).
  exists q. split; [|split; [exact Hs'|split; [exact Ho|]]].
  - rewrite <-E. unfold on_phys, copy_frame. rewrite (mbind_ok _ _ (phys s) h (phys s)) by (apply (of_phys_hhdm h rs _ free live), (space_phys _ _ _ _ _ _ (proj1 Hs))).
    rewrite (mbind_ok _ _ _ _ _ (mlift_ok _ _ _ (sys_add _ _ _ _ _ _ _ Hs Hg))).
    by rewrite (mbind_ok _ _ _ _ _ (mlift_ok _ _ _ (sys_add _ _ _ _ _ _ _ Hs Hf))).
  - destruct (frame_bytes_ok (words (phys s)) (h + g)) as [Hl1 Hb1]. destruct (frame_bytes_ok (words (phys s)) (h + f)) as [Hl2 Hb2].
    assert (Hk' : zlen (sub src 0 k) = k) by (apply zlen_sub; unfold src; lia).
    rewrite Hb by (apply splice_page; [by split|lia|lia|unfold sub; by apply Forall_take, Forall_drop]).
    pose proof (sub_splice_same (frame_bytes (words (phys s)) (h + f)) 0 (sub src 0 k)) as Hx. rewrite Hk' in Hx. apply Hx; lia.
Qed.

(** Filling the first [k] bytes of a frame from the file. *)
Lemma fill_partial s free live space T A v n o foff k f :
  sys_ok s free live space T A → f ∈ live → f ∉ T → (∀ key g, page_cache s !! key = Some g → g ≠ f) →
  o + foff ≤ usize_max → 0 ≤ k ≤ PAGE_SIZE →
  let r := (if 0 <? k then
              let! key := on_kernel "could not get inode key" (λ w, vn_get_inode_key n (world w)) in
              let! off := mlift (uadd o foff) in
              let! s := mget in
              match find_page (mkPageKey key off) s with
              | Some file_paddr => on_phys (copy_frame file_paddr f k)
              | None => read_page_into n f off
              end
            else mret tt) s in
  outcome r space A v (λ _ s', ∃ src, sys_ok s' free live space T A ∧ same_out h [f] (words (phys s)) (words (phys s')) ∧
    page_cache s' = page_cache s ∧ (0 < k → file_page s n (o + foff) src) ∧ sub (frame_bytes (words (phys s')) (h + f)) 0 k = sub src 0 k)
    (file_panics s n (o + foff)).
Proof.
  intros Hs Hf HfT Hne Hoff Hk r. subst r. destruct (Z.ltb_spec 0 k) as [Hpos|Hz].
  2: { exists []. assert (k = 0) as -> by lia. split; [exact Hs|]. split; [intros a _; done|]. split; [done|]. split; [lia|]. by rewrite !sub_0. }
  unfold on_kernel, mbind' at 1. destruct (vn_get_inode_key n (world (kernel s))) as [key|e|] eqn:Ek.
  2: { exists free, live, T, A. split; [exact Hs|done]. }
  2: { by left. }
  rewrite (mbind_ok _ _ _ _ _ (mlift_ok _ _ _ (uadd_ok o foff ltac:(lia)))). rewrite (mbind_ok _ _ s s s) by done.
  unfold find_page. destruct (page_cache s !! mkPageKey key (o + foff)) as [g|] eqn:Eg.
  - destruct (proj2 Hs _ _ Eg) as [Hg _]. destruct (sys_copy _ _ _ _ _ _ g f k Hs Hg Hf HfT Hk) as (q & -> & Hs' & Ho & Hb).
    exists (frame_bytes (words (phys s)) (h + g)). split; [exact Hs'|]. split; [exact Ho|]. split; [done|]. split; [|exact Hb].
    intros _. exists key. split; [done|]. by rewrite Eg.
  - pose proof (sys_read_page _ _ _ _ _ _ n f (o + foff) Hs Hf HfT) as Hr.
    destruct (vn_read_page n _ (o + foff) _) as [[[c page] w]|[e w]|] eqn:Er.
    + destruct Hr as (q & -> & Hs' & Ho & Hp). exists (frame_bytes (words q) (h + f)). split; [exact Hs'|]. split; [exact Ho|]. split; [done|].
      split; [|done]. intros _. exists key. split; [done|]. rewrite Eg. by eexists _, c, page, w.
    + destruct Hr as (e' & -> & Hs'). by exists free, live, T, A.
    + rewrite Hr. right. by eexists.
Qed.

Lemma outcome_bind {B C} (c : M Sys FaultError B) (k : B → M Sys FaultError C) s space A v mid good panics :
  outcome (c s) space A v mid panics → (∀ b s', mid b s' → outcome (k b s') space A v good panics) →
  outcome (mbind' c k s) space A v good panics.
Proof. intros H1 H2. unfold mbind'. destruct (c s) as [[b s']|[e s']|]; [by apply H2|done..]. Qed.

(** Clearing the rest of a frame whose first [k] bytes are set, and mapping it. *)
Lemma partial_tail s free live space T A v options f k (panics : Prop) :
  sys_ok s free (f :: live) space T A → (f ∉ live) → (∀ g, g ∈ T → g ∈ live) → contains options PRESENT = true → 0 ≤ k ≤ PAGE_SIZE →
  outcome ((let! s := mget in
            let! hhdm := mlift (match HHDM_OFFSET (phys s) with Some h => Ok h | None => Err (FError "could not get HHDM offset") end) in
            let! a := mlift (uadd f hhdm) in
            let! _ := on_phys (set_frame a (λ l, splice l k (zrep (PAGE_SIZE - k) 0))) in
            let! _ := on_phys (vmap space v f options) in
            mret true) s) space A v
    (λ b s', b = true ∧ page_at f s live space T A v options
       (eq (sub (frame_bytes (words (phys s)) (h + f)) 0 k ++ zrep (PAGE_SIZE - k) 0)) s') panics.
Proof.
  intros Hs Hf HT Hpr Hk. assert (HfT : f ∉ T) by (intros Hn; by apply Hf, HT). assert (Hfl : f ∈ f :: live) by left.
  rewrite (mbind_ok _ _ s s s) by done.
  rewrite (mbind_ok _ _ s h s) by (by rewrite (pi_hhdm _ _ _ _ _ (space_phys _ _ _ _ _ _ (proj1 Hs)))).
  rewrite (mbind_ok _ _ _ _ _ (mlift_ok _ _ _ (sys_add _ _ _ _ _ _ _ Hs Hfl))).
  destruct (sys_set_frame _ _ _ _ _ _ f (λ l, splice l k (zrep (PAGE_SIZE - k) 0)) Hs Hfl HfT) as (q & E3 & Hs3 & Ho3 & Hb3).
  rewrite (mbind_ok _ _ _ _ _ E3). clear E3.
  destruct (frame_bytes_ok (words (phys s)) (h + f)) as [Hl2 Hy2].
  assert (Hzl : zlen (zrep (PAGE_SIZE - k) 0) = PAGE_SIZE - k) by (apply zlen_rep; lia).
  assert (Hcont : frame_bytes (words q) (h + f) = sub (frame_bytes (words (phys s)) (h + f)) 0 k ++ zrep (PAGE_SIZE - k) 0).
  { rewrite Hb3, splice_end; [done|lia|lia|]. apply splice_page; [by split|lia|lia|]. by apply Forall_replicate. }
  destruct (sys_vmap _ _ _ _ _ _ v f options Hs3 Hpr) as (q4 & free4 & new & A4 & Hs4 & Ho4 & [[E4 Hu4]|[E4 Hu4]]).
  2: { rewrite (mbind_err _ _ _ _ _ E4). by exists free4, (new ++ f :: live), (new ++ T), A4. }
  rewrite (mbind_ok _ _ _ _ _ E4). split; [done|]. exists free4, new, A4. split; [done|]. split; [exact Hs4|]. split; [exact Hu4|].
  pose proof (fresh_not_table _ _ _ _ _ _ _ _ Hs4 Hf HT) as HfnT. simpl. split; [|split; [|done]].
  - rewrite <-Hcont. symmetry.
    apply (frame_bytes_out q4 free4 (new ++ f :: live) (new ++ T)); [apply (space_phys _ _ _ _ _ _ (proj1 Hs4))|apply elem_of_app; right; left| |exact Ho4].
    intros g Hg. split; [|intros ->; done]. apply elem_of_app in Hg as [Hg|Hg]; apply elem_of_app; [by left|right; right; by apply HT].
  - apply (same_out_mono ([f] ++ new ++ T)); [clear; set_solver|]. by apply (same_out_trans _ _ _ (words q)).
Qed.

Lemma partial_fault s free live space T A v m fm fl :
  sys_ok s free live space T A → backing m = MapBacking.File fm → 0 ≤ mbase m ≤ v → v + PAGE_SIZE ≤ usize_max →
  v - mbase m + file_offset fm ≤ usize_max → fl < v - mbase m + PAGE_SIZE →
  outcome (handle_mapping_private_partial space v m fl s) space A v
    (λ b s', b = true ∧ fresh_page s live space T A v (Z.lor user_permissions (prot m))
       (partial_page s (fm_vnode fm) (v - mbase m + file_offset fm) (Z.max 0 (fl - (v - mbase m)))) s')
    (file_panics s (fm_vnode fm) (v - mbase m + file_offset fm)).
Proof.
  intros Hs Hb Hbase Hv Hoff Hfl. set (k := Z.max 0 (fl - (v - mbase m))).
  assert (Hk : 0 ≤ k ≤ PAGE_SIZE) by (unfold k, PAGE_SIZE in *; lia). unfold handle_mapping_private_partial.
  rewrite (mbind_ok _ _ _ _ _ (mlift_ok _ _ _ (usub_ok v (mbase m) ltac:(lia)))).
  rewrite (mbind_ok _ _ _ _ _ (mlift_ok _ _ _ (uadd_ok (v - mbase m) PAGE_SIZE ltac:(unfold PAGE_SIZE in *; lia)))).
  zcase; [lia|]. rewrite Hb. change (saturating_sub fl (v - mbase m)) with k.
  destruct (sys_new_frame _ _ _ _ _ _ Hs) as [(f & p & free1 & E & Hf & Hw & Hs1)|(s' & free1 & E & Hs1)].
  2: { rewrite (mbind_err _ _ _ _ _ E). by exists free1, live, T, A. }
  rewrite (mbind_ok _ _ _ _ _ E). clear E. cbv zeta.
  assert (HT : ∀ g, g ∈ T → g ∈ live) by (intros g; apply (space_tables _ _ _ _ _ _ _ (proj1 Hs))).
  change (file_panics s (fm_vnode fm)) with (file_panics (mkSystem p (page_cache s) (kernel s)) (fm_vnode fm)).
  eapply outcome_bind.
  { apply (fill_partial _ free1 (f :: live) space T A v); [exact Hs1|left|intros Hn; by apply Hf, HT| |done|done].
    intros key g Hg ->. destruct (proj2 Hs _ _ Hg) as [Hg' _]. done. }
  intros _ s2 (src & Hs2 & Ho2 & Hc2 & Hsrc & Hsub). simpl in Ho2, Hc2. rewrite Hw in Ho2.
  pose proof (partial_tail s2 free1 live space T A v (Z.lor user_permissions (prot m)) f k
    (file_panics (mkSystem p (page_cache s) (kernel s)) (fm_vnode fm) (v - mbase m + file_offset fm)) Hs2 Hf HT (permissions_present _) Hk) as Ht.
  unfold outcome in *. destruct (mbind' _ _ s2) as [[b s3]|[e s3]|]; [|exact Ht|exact Ht].
  destruct Ht as (-> & free' & new & A' & _ & Hs3 & Hu & Hc & Ho3 & Hc3). split; [done|]. exists f, free', new, A'.
  split; [done|]. split; [exact Hs3|]. split; [exact Hu|]. split; [|split; [|by rewrite Hc3]].
  - exists src. split; [|by rewrite <-Hc, Hsub]. intros Hk0. specialize (Hsrc Hk0). unfold file_page in *. simpl in Hsrc. by rewrite Hw in Hsrc.
  - apply (same_out_mono ([f] ++ f :: new ++ T)); [clear; set_solver|]. by apply (same_out_trans _ _ _ (words (phys s2))).
Qed.

(** What the page of a private mapping at [v] contains. *)
Definition private_content s (m : Mapping N) (v : Z) (l : list Z) : Prop :=
  match backing m with
  | MapBacking.Anonymous => zrep PAGE_SIZE 0 = l
  | MapBacking.File fm =>
      let off := v - mbase m + file_offset fm in
      match file_length fm with
      | Some fl =>
          if v - mbase m + PAGE_SIZE <=? fl then page_read (world (kernel s)) (fm_vnode fm) off l
          else partial_page s (fm_vnode fm) off (Z.max 0 (fl - (v - mbase m))) l
      | None => page_read (world (kernel s)) (fm_vnode fm) off l
      end
  | MapBacking.Device _ _ => False
  end.
Definition private_panics s (m : Mapping N) (v : Z) : Prop :=
  match backing m with
  | MapBacking.File fm => file_panics s (fm_vnode fm) (v - mbase m + file_offset fm)
  | _ => False
  end.
Definition offset_fits (m : Mapping N) (v : Z) : Prop :=
  match backing m with MapBacking.File fm => v - mbase m + file_offset fm ≤ usize_max | _ => True end.

Lemma outcome_mono {B} (r : res (FaultError * Sys) (B * Sys)) space A v good good' (p p' : Prop) :
  outcome r space A v good p → (∀ b s', good b s' → good' b s') → (p → p') → outcome r space A v good' p'.
Proof. unfold outcome. destruct r as [[b s']|[e s']|]; auto. Qed.

Lemma private_fault s free live space T A v m :
  sys_ok s free live space T A → is_multiple_of v PAGE_SIZE = true → 0 ≤ mbase m ≤ v → v + PAGE_SIZE ≤ usize_max → offset_fits m v →
  outcome (handle_mapping_private space v m s) space A v
    (λ _, fresh_page s live space T A v (Z.lor user_permissions (prot m)) (private_content s m v)) (private_panics s m v).
Proof.
  intros Hs Hv Hb Hmax Hoff. unfold private_content, private_panics, offset_fits in *. destruct (backing m) as [fm|pa mi|] eqn:Eb.
  - unfold handle_mapping_private. rewrite Hv, Eb. rewrite (mbind_ok _ _ s tt s) by done. cbv zeta.
    assert (Hfull := file_fault s free live space T A v (Z.lor user_permissions (prot m)) (fm_vnode fm) (mbase m) (file_offset fm) Hs (permissions_present _) (proj2 Hb) Hoff).
    destruct (file_length fm) as [fl|]; [|rewrite (mbind_ok _ _ s false s) by done; eapply outcome_mono; [exact Hfull|done|by right]].
    destruct (Z.leb_spec (v - mbase m + PAGE_SIZE) fl) as [Hle|Hgt].
    + rewrite (mbind_ok _ _ s false s); [eapply outcome_mono; [exact Hfull|done|by right]|]. unfold handle_mapping_private_partial.
      rewrite (mbind_ok _ _ _ _ _ (mlift_ok _ _ _ (usub_ok v (mbase m) ltac:(lia)))).
      rewrite (mbind_ok _ _ _ _ _ (mlift_ok _ _ _ (uadd_ok (v - mbase m) PAGE_SIZE ltac:(unfold PAGE_SIZE in *; lia)))). by zcase; [|lia].
    + eapply outcome_bind; [by apply (partial_fault s free live space T A v m fm fl)|]. intros b s' [-> Hf]. exact Hf.
  - unfold handle_mapping_private. rewrite Hv, Eb. by exists free, live, T, A.
  - by apply (anonymous_fault s free live).
Qed.

(** ** Shared mappings *)

(** The page cache has the page [key] in the frame [f]: it had it before, or the
    file system has filled a frame that was not in use. *)
Definition cached_page s live (key : PageKey) f s' : Prop :=
  page_cache s !! key = Some f ∧ page_cache s' = page_cache s ∨
  page_cache s !! key = None ∧ page_cache s' = <[key := f]> (page_cache s) ∧ (f ∉ live) ∧
  ∃ n, get_inode (inode_key key) (kernel s) = Ok n ∧
    page_read (world (kernel s)) n (offset key) (frame_bytes (words (phys s')) (h + f)).
Definition cache_panics s (key : PageKey) : Prop :=
  get_inode (inode_key key) (kernel s) = Panic ∨
  ∃ n, get_inode (inode_key key) (kernel s) = Ok n ∧ read_panics (world (kernel s)) n (offset key).

Lemma get_page_spec s free live space T A v key :
  sys_ok s free live space T A →
  outcome (get_page key s) space A v
    (λ f s', ∃ free' live', sys_ok s' free' live' space T A ∧ f ∈ live' ∧ (f ∉ T) ∧ cached_page s live key f s') (cache_panics s key).
Proof.
  intros Hs. unfold get_page. rewrite (mbind_ok _ _ s s s) by done. unfold find_page. destruct (page_cache s !! key) as [f|] eqn:Ek.
  { destruct (proj2 Hs _ _ Ek). exists free, live. split; [exact Hs|]. split; [done|]. split; [done|]. by left. }
  unfold get_file_page. assert (HT : ∀ g, g ∈ T → g ∈ live) by (intros g; apply (space_tables _ _ _ _ _ _ _ (proj1 Hs))).
  destruct (sys_new_frame _ _ _ _ _ _ Hs) as [(f & p & free1 & E & Hf & Hw & Hs1)|(s' & free1 & E & Hs1)].
  2: { rewrite (mbind_err _ _ _ _ _ E). by exists free1, live, T, A. }
  assert (HfT : f ∉ T) by (intros Hn; by apply Hf, HT). assert (Hfl : f ∈ f :: live) by left.
  rewrite (mbind_ok _ _ _ _ _ E). clear E. unfold on_kernel, mbind' at 1. cbn [kernel]. unfold cache_panics.
  destruct (get_inode (inode_key key) (kernel s)) as [n|e|] eqn:Ei; [|by exists free1, (f :: live), T, A|by left].
  pose proof (sys_read_page _ _ _ _ _ _ n f (offset key) Hs1 Hfl HfT) as Hr. cbn [kernel] in Hr.
  destruct (vn_read_page n _ (offset key) _) as [[[c page] w]|[e w]|] eqn:Er.
  - destruct Hr as (q & E & Hs2 & Ho & Hp). rewrite (mbind_ok _ _ _ _ _ E). rewrite (mbind_ok _ _ _ tt _ eq_refl).
    exists free1, (f :: live). split; [|split; [done|split; [done|]]].
    + destruct Hs2 as [Hsp Hc]. split; [exact Hsp|]. intros k g. cbn [page_cache]. rewrite lookup_insert_Some. intros [[_ <-]|[_ Hk]]; [done|by apply (Hc k)].
    + right. split; [done|]. split; [done|]. split; [done|]. exists n. split; [done|]. by eexists _, c, page, w.
  - destruct Hr as (e' & E & Hs2). rewrite (mbind_err _ _ _ _ _ E). by exists free1, (f :: live), T, A.
  - rewrite (mbind_panic _ _ _ Hr). right. exists n. split; [done|]. by eexists.
Qed.

(** What a page of a shared mapping is mapped to. *)
Definition shared_page s (m : Mapping N) live space A (v : Z) s' : Prop :=
  ∃ free' live' T' A', sys_ok s' free' live' space T' A' ∧
    match backing m with
    | MapBacking.File fm =>
        ∃ key f s1, vn_get_inode_key (fm_vnode fm) (world (kernel s)) = Ok key ∧
          cached_page s live (mkPageKey key (v - mbase m + file_offset fm)) f s1 ∧
          page_cache s' = page_cache s1 ∧ frame_bytes (words (phys s')) (h + f) = frame_bytes (words (phys s1)) (h + f) ∧
          user_page A A' v (leaf_entry f (Z.lor user_permissions (prot m)))
    | MapBacking.Device paddr memory_info =>
        page_cache s' = page_cache s ∧
        user_page A A' v (leaf_entry (paddr + (v - mbase m)) (Z.lor (Z.lor (Z.lor PRESENT USER_ACCESSIBLE) (prot m)) memory_info))
    | MapBacking.Anonymous => False
    end.
Definition shared_panics s (m : Mapping N) (v : Z) : Prop :=
  match backing m with
  | MapBacking.File fm =>
      vn_get_inode_key (fm_vnode fm) (world (kernel s)) = Panic ∨
      ∃ key, vn_get_inode_key (fm_vnode fm) (world (kernel s)) = Ok key ∧ cache_panics s (mkPageKey key (v - mbase m + file_offset fm))
  | _ => False
  end.
Definition target_fits (m : Mapping N) (v : Z) : Prop :=
  match backing m with
  | MapBacking.File fm => v - mbase m + file_offset fm ≤ usize_max
  | MapBacking.Device paddr _ => paddr + (v - mbase m) ≤ usize_max
  | MapBacking.Anonymous => True
  end.

Lemma device_present x y : contains (Z.lor (Z.lor (Z.lor PRESENT USER_ACCESSIBLE) x) y) PRESENT = true.
Proof.
  unfold contains, PRESENT, USER_ACCESSIBLE. rewrite <-Z.lor_assoc, Z.land_lor_distr_l.
  change (Z.land (Z.lor 1 8) 1) with 1. apply Z.eqb_eq. change 1 with (Z.ones 1) at 2.
  rewrite Z.land_ones by lia. pose proof (Z.mod_pos_bound (Z.lor x y) (2 ^ 1) ltac:(lia)).
  assert (Z.lor x y mod 2 ^ 1 = 0 ∨ Z.lor x y mod 2 ^ 1 = 1) as [->| ->] by lia; done.
Qed.

Lemma shared_fault s free live space T A v m :
  sys_ok s free live space T A → is_multiple_of v PAGE_SIZE = true → 0 ≤ mbase m ≤ v → target_fits m v →
  outcome (handle_mapping_shared space v m s) space A v (λ _, shared_page s m live space A v) (shared_panics s m v).
Proof.
  intros Hs Hv Hb Hfit. unfold handle_mapping_shared. rewrite Hv. rewrite (mbind_ok _ _ s tt s) by done.
  unfold shared_page, shared_panics, target_fits in *. destruct (backing m) as [fm|pa mi|] eqn:Eb.
  - unfold on_kernel, mbind' at 1. destruct (vn_get_inode_key (fm_vnode fm) _) as [key|e|]; [|by exists free, live, T, A|by left].
    rewrite (mbind_ok _ _ _ _ _ (mlift_ok _ _ _ (usub_ok v (mbase m) ltac:(lia)))).
    rewrite (mbind_ok _ _ _ _ _ (mlift_ok _ _ _ (uadd_ok (v - mbase m) (file_offset fm) ltac:(lia)))).
    eapply outcome_bind; [eapply outcome_mono; [by apply (get_page_spec s free live space T A v)|intros f s1 Hx; exact Hx|by right; exists key]|].
    intros f s1 (free1 & live1 & Hs1 & Hf & HfT & Hcp).
    destruct (sys_vmap _ _ _ _ _ _ v f (Z.lor user_permissions (prot m)) Hs1 (permissions_present _)) as (q & free2 & new & A2 & Hs2 & Ho & [[E Hu]|[E Hu]]);
      rewrite E; [|by exists free2, (new ++ live1), (new ++ T), A2].
    exists free2, (new ++ live1), (new ++ T), A2. split; [exact Hs2|]. exists key, f, s1. split; [done|]. split; [done|]. split; [done|]. split; [|done].
    pose proof (space_nodup _ _ _ _ _ _ (proj1 Hs2)) as Hnd. apply NoDup_app in Hnd as (_ & Hd & _).
    apply (frame_bytes_out q free2 (new ++ live1) (new ++ T)); [apply (space_phys _ _ _ _ _ _ (proj1 Hs2))|apply elem_of_app; by right| |exact Ho].
    intros g [Hg|Hg]%elem_of_app; (split; [apply elem_of_app|]); [by left|intros ->; by apply (Hd f)|right; by apply (space_tables _ _ _ _ _ _ _ (proj1 Hs1))|by intros ->].
  - rewrite (mbind_ok _ _ _ _ _ (mlift_ok _ _ _ (usub_ok v (mbase m) ltac:(lia)))).
    rewrite (mbind_ok _ _ _ _ _ (mlift_ok _ _ _ (uadd_ok pa (v - mbase m) ltac:(lia)))).
    destruct (sys_vmap _ _ _ _ _ _ v (pa + (v - mbase m)) (Z.lor (Z.lor (Z.lor PRESENT USER_ACCESSIBLE) (prot m)) mi) Hs (device_present _ _))
      as (q & free2 & new & A2 & Hs2 & Ho & [[E Hu]|[E Hu]]); rewrite E; [|by exists free2, (new ++ live), (new ++ T), A2].
    by exists free2, (new ++ live), (new ++ T), A2.
  - by exists free, live, T, A.
Qed.

(** ** Page faults of a process *)

Context {OB : RBTree fbase TB} {OL : RBTree flength TL}.
Abbreviation page_of a := (Z.land a 0xFFFFFFFFFFFFF000).

Lemma page_of_aligned a : 0 ≤ a ≤ usize_max → is_multiple_of (page_of a) PAGE_SIZE = true ∧ 0 ≤ page_of a ≤ a.
Proof.
  intros Ha. rewrite page_start by done. unfold is_multiple_of, PAGE_SIZE. rewrite Z.mul_comm, Z.mod_mul by lia.
  split; [done|]. pose proof (Z.mul_div_le a 4096). pose proof (Z.div_pos a 4096). lia.
Qed.

Lemma fault_run (vm : VM) m s address :
  vm_ok vm → m ∈ rb_elems (active_set vm) → inside m (page_of address) →
  ∀ present, handle_page_fault vm present address s =
    mbind' (if present then invlpg (page_table vm) (page_of address) else mret tt)
      (λ _, if shared m then handle_mapping_shared (page_table vm) (page_of address) m
            else handle_mapping_private (page_table vm) (page_of address) m) s.
Proof.
  intros Hvm Hm Hin present. unfold handle_page_fault. cbv zeta.
  by rewrite (mbind_ok _ _ s m s) by (by rewrite (find_mapping_hit _ _ _ Hvm Hm Hin)).
Qed.

(** C27: a page fault of a process on a page that is not present.  At an address
    that no mapping has it is an error
    and changes nothing.  In a mapping, the page (and no other) is mapped with
    the permissions of the mapping: for a private mapping to a frame that was
    not in use, which holds zeroes, the page of the file, or the part of the
    page that is in the file followed by zeroes; for a shared mapping to the
    device's memory or to the frame the page cache has for that page of the
    file.  Otherwise an error is returned (or it waits for a frame), other
    pages are as they were and the page tables are well formed. *)
Theorem user_fault_correct (vm : VM) s free live T A address :
  sys_ok s free live (page_table vm) T A → vm_ok vm → 0 ≤ address < USERSPACE_END →
  ((∀ m, m ∈ rb_elems (active_set vm) → ¬ inside m (page_of address)) →
   ∃ e, handle_page_fault vm false address s = Err (e, s)) ∧
  (∀ m, m ∈ rb_elems (active_set vm) → inside m (page_of address) → target_fits m (page_of address) →
   outcome (handle_page_fault vm false address s) (page_table vm) A (page_of address)
     (λ _ s', if shared m then shared_page s m live (page_table vm) A (page_of address) s'
              else fresh_page s live (page_table vm) T A (page_of address) (Z.lor user_permissions (prot m))
                     (private_content s m (page_of address)) s')
     (if shared m then shared_panics s m (page_of address) else private_panics s m (page_of address))).
Proof.
  intros Hs Hvm Ha. assert (Hu : 0 ≤ address ≤ usize_max) by (unfold USERSPACE_END, usize_max in *; lia).
  destruct (page_of_aligned address Hu) as [Hal Hle]. split.
  - intros Hn. destruct (find_mapping_miss vm _ Hvm Hn) as [e E]. exists e. unfold handle_page_fault. cbv zeta.
    rewrite (mbind_err _ _ s e s); [done|]. by rewrite E.
  - intros m Hm Hin Hfit. rewrite (fault_run vm m s address Hvm Hm Hin false), (mbind_ok _ _ s tt s) by done.
    destruct (vo_range vm Hvm m Hm) as (Hb & _ & _). unfold inside, USERSPACE_START, USERSPACE_END in *.
    destruct (shared m); [apply (shared_fault s free live _ T); try done; lia|].
    apply (private_fault s free live _ T); [exact Hs|done|lia|unfold usize_max, PAGE_SIZE; lia|].
    unfold offset_fits, target_fits in *. by destruct (backing m).
Qed.

(** A fault at a page that is present, in a private mapping without a file: the
    page is mapped to a new frame of zeroes.  The frame it was mapped to, with
    what the process had written there, stays in use and is lost. *)
Lemma present_fault_loses_page (vm : VM) s free live T A address m :
  sys_ok s free live (page_table vm) T A → vm_ok vm → 0 ≤ address < USERSPACE_END →
  m ∈ rb_elems (active_set vm) → inside m (page_of address) → shared m = false → backing m = MapBacking.Anonymous →
  outcome (handle_page_fault vm true address s) (page_table vm) A (page_of address)
    (λ _ s', ∃ f free' live' T' A', sys_ok s' free' live' (page_table vm) T' A' ∧
       user_page A A' (page_of address) (leaf_entry f (Z.lor user_permissions (prot m))) ∧
       frame_bytes (words (phys s')) (h + f) = zrep PAGE_SIZE 0 ∧ ∀ g, g ∈ live → g ∉ T → g ∈ live' ∧ g ≠ f) False.
Proof.
  intros Hs Hvm Ha Hm Hin Hsh Hb. assert (Hu : 0 ≤ address ≤ usize_max) by (unfold USERSPACE_END, usize_max in *; lia).
  destruct (page_of_aligned address Hu) as [Hal Hle]. rewrite (fault_run vm m s address Hvm Hm Hin true), Hsh.
  destruct (sys_invlpg s _ _ _ _ _ (page_of address) Hs) as (q & free1 & live1 & gone & T1 & A1 & E & Hs1 & Hl & HT & Hoth & _).
  rewrite (mbind_ok _ _ _ _ _ E). clear E.
  pose proof (anonymous_fault _ _ _ _ _ _ (page_of address) m Hs1 Hal Hb) as Hf. unfold outcome in *.
  destruct (handle_mapping_private _ _ _ _) as [[[] s']|[e s']|]; [|destruct Hf as (fr & li & T' & A' & Hs' & Ho')|done].
  - destruct Hf as (f & free' & new & A' & Hf & Hs' & Hup & Hc & _ & _). exists f, free', (new ++ f :: live1), (new ++ T1), A'.
    split; [exact Hs'|]. split; [intros u; rewrite Hup; case_decide; [done|by apply Hoth]|]. split; [done|].
    intros g Hg HgT. rewrite Hl in Hg. rewrite HT in HgT. apply elem_of_app in Hg as [Hg|Hg]; [destruct HgT; apply elem_of_app; by left|].
    split; [apply elem_of_app; right; by right|by intros ->].
  - exists fr, li, T', A'. split; [exact Hs'|]. intros u Hne. rewrite Ho' by done. by apply Hoth.
Qed.
End fault_proofs.
