(* ===== verification/KernelFs.v ===== *)
(** * The file systems of the kernel under one VFS

    A world holds the RAM file systems, the device file system with its
    devices and the file system of anonymous files.  The file systems implement
    the traits and keep the promises of Vfs.v, so its theorems hold of a kernel
    that mounts them.  [mount_system_filesystems] is src/lib.rs. *)

From S2P Require Import Prelude Bytes FsTypes BlockDevice CharDevice RamFs FakeFs DevFs Vfs.

(** [Arc<dyn Filesystem>] and [Arc<dyn VNode>]. *)
Inductive FsRef : Type :=
| FRam (f : Z)
| FDev
| FFake.

Inductive NodeRef : Type :=
| NRam (f i : Z)
| NDev (i : Z)
| NFake (i : Z).

#[export] Instance FsRef_dec : EqDecision FsRef.
Proof. solve_decision. Defined.

Section world.
Context {D C : Type} `{BlockDevice D} `{!Device D} `{CharDevice C} `{!Device C}.

Record World : Type := mkWorld {
  rams : Z → RamFilesystem;
  devs : DevWorld D C;
  fake : Fake;
}.

Definition set_rams f r w := mkWorld (upd (rams w) f r) (devs w) (fake w).
Definition set_devs d w := mkWorld (rams w) d (fake w).
Definition set_fake f w := mkWorld (rams w) (devs w) f.

(** A call on one object. *)
Definition on {S A} (get : World → S) (put : S → World → World) (m : M S FsError A) : WOp World A := λ w,
  match m (get w) with
  | Ok (a, s) => Ok (a, put s w)
  | Err (e, s) => Err (e, put s w)
  | Panic => Panic
  end.
Definition on_ram {A} (f : Z) (m : M RamFilesystem FsError A) : WOp World A := on (λ w, rams w f) (set_rams f) m.
Definition on_devs {A} (m : M (DevWorld D C) FsError A) : WOp World A := on devs set_devs m.
Definition on_fake {A} (m : M Fake FsError A) : WOp World A := on fake set_fake m.

(** Results that are nodes. *)
Definition as_node {A B} (g : A → B) (r : res FsError A) : res FsError B := let? a := r in Ok (g a).
Definition as_node_m {A B} (g : A → B) (m : WOp World A) : WOp World B := let! a := m in mret (g a).

#[export] Instance kernel_Filesystem : Filesystem World FsRef NodeRef := {
  fs_get_root f w :=
    match f with
    | FRam f => as_node (NRam f) (RamFs.get_root (rams w f))
    | FDev => as_node NDev (DevFs.get_root (dev (devs w)))
    | FFake => as_node NFake (FakeFs.get_root (fake w))
    end;
  fs_get_inode f i w :=
    match f with
    | FRam f => as_node (NRam f) (RamFs.get_inode i (rams w f))
    | FDev => as_node NDev (DevFs.get_inode i (dev (devs w)))
    | FFake => as_node NFake (FakeFs.get_inode i (fake w))
    end;
  fs_set_filesystem_id f id w :=
    match f with
    | FRam f => set_rams f (RamFs.set_filesystem_id id (rams w f)) w
    | FDev => set_devs (mkDevWorld (DevFs.set_filesystem_id id (dev (devs w))) (blocks (devs w)) (chars (devs w))) w
    | FFake => set_fake (FakeFs.set_filesystem_id id (fake w)) w
    end;
  fs_get_filesystem_id f w :=
    match f with
    | FRam f => RamFs.get_filesystem_id (rams w f)
    | FDev => DevFs.get_filesystem_id (dev (devs w))
    | FFake => FakeFs.get_filesystem_id (fake w)
    end;
}.

#[export] Instance kernel_VNode : VNode World NodeRef := {
  vn_get_inumber n w :=
    match n with
    | NRam f i => RamFs.get_inumber i (rams w f)
    | NDev i => DevFs.get_inumber i (dev (devs w))
    | NFake i => Ok i
    end;
  vn_get_type n w :=
    match n with
    | NRam f i => RamFs.get_type i (rams w f)
    | NDev i => DevFs.get_type i (dev (devs w))
    | NFake i => Ok (FakeFs.get_type i)
    end;
  vn_read_page n page offset :=
    match n with
    | NRam f i => on_ram f (RamFs.read_page i page offset)
    | NDev i => not_implemented
    | NFake i => on_fake (FakeFs.read_page i page offset)
    end;
  vn_write_page n page offset :=
    match n with
    | NRam f i => on_ram f (RamFs.write_page i page offset)
    | NDev i => not_implemented
    | NFake i => on_fake (FakeFs.write_page i page offset)
    end;
  vn_lookup n target w :=
    match n with
    | NRam f i => as_node (NRam f) (RamFs.lookup i target (rams w f))
    | NDev i => as_node NDev (DevFs.lookup i target (dev (devs w)))
    | NFake i => Err FsError.NotImplemented
    end;
  vn_add_entry n target inumber ty :=
    match n with
    | NRam f i => on_ram f (RamFs.add_entry i target inumber ty)
    | _ => not_implemented
    end;
  vn_create_child n name ty :=
    match n with
    | NRam f i => as_node_m (NRam f) (on_ram f (RamFs.create_child i name ty))
    | NDev i => not_implemented
    | NFake i => as_node_m NFake (on_fake (FakeFs.create_child i name ty))
    end;
  vn_size n w :=
    match n with
    | NRam f i => RamFs.node_size i (rams w f)
    | _ => default_size w
    end;
  vn_read_unaligned n offset buffer :=
    match n with
    | NRam f i => on_ram f (RamFs.read_unaligned i offset buffer)
    | NDev i => on_devs (DevFs.read_unaligned i offset buffer)
    | NFake i => not_implemented
    end;
  vn_write_unaligned n offset buffer :=
    match n with
    | NRam f i => on_ram f (RamFs.write_unaligned i offset buffer)
    | NDev i => on_devs (DevFs.write_unaligned i offset buffer)
    | NFake i => not_implemented
    end;
  vn_get_inode_key n w :=
    match n with
    | NRam f i => RamFs.get_inode_key i (rams w f)
    | NDev i => DevFs.get_inode_key i (dev (devs w))
    | NFake i => FakeFs.get_inode_key i (fake w)
    end;
  vn_ioctl n request arg :=
    match n with
    | NDev i => on_devs (DevFs.ioctl i request arg)
    | _ => not_implemented
    end;
  vn_seekable n w :=
    match n with
    | NRam f i => let? t := RamFs.get_type i (rams w f) in Ok (default_seekable t)
    | NDev i => DevFs.seekable i (devs w)
    | NFake i => Ok (default_seekable (FakeFs.get_type i))
    end;
}.

(** ** The promises *)

Definition world_ok (w : World) : Prop :=
  (∀ f, ram_inv (rams w f)) ∧ dev_inv (dev (devs w)) ∧ fake_inv (fake w).

(** Calls on nodes do not touch the table of devices. *)
Definition world_le (w w' : World) : Prop :=
  (∀ f, ram_le (rams w f) (rams w' f)) ∧ dev (devs w') = dev (devs w) ∧
  (fake_inv (fake w) → fake_inv (fake w')) ∧ FakeFs.fs_id (fake w') = FakeFs.fs_id (fake w) ∧
  active (fake w) ⊆ active (fake w').

Definition owner (n : NodeRef) : FsRef :=
  match n with NRam f _ => FRam f | NDev _ => FDev | NFake _ => FFake end.

Definition node_valid (n : NodeRef) (w : World) : Prop :=
  match n with
  | NRam f i => is_Some (kind_at (rams w f) i)
  | NDev i => DevFs.valid i (dev (devs w))
  | NFake i => i = 0 ∨ i ∈ active (fake w)
  end.

Lemma upd_eq {A} (g : Z → A) i a : upd g i a i = a.
Proof. unfold upd. by rewrite Z.eqb_refl. Qed.
Lemma upd_ne {A} (g : Z → A) i a j : j ≠ i → upd g i a j = g j.
Proof. unfold upd. intros ?%Z.eqb_neq. by rewrite H1. Qed.

(** Changing the identity of a file system changes nothing else. *)
Lemma set_id_rams (f : FsRef) id w g :
  RamFs.inodes (rams (fs_set_filesystem_id f id w) g) = RamFs.inodes (rams w g).
Proof. destruct f as [f| |]; [|done..]. simpl. destruct (decide (g = f)) as [->|]; [by rewrite upd_eq|by rewrite upd_ne]. Qed.

Lemma set_id_devs (f : FsRef) id w :
  devices (dev (devs (fs_set_filesystem_id f id w))) = devices (dev (devs w)) ∧
  DevFs.root (dev (devs (fs_set_filesystem_id f id w))) = DevFs.root (dev (devs w)) ∧
  DevFs.counter (dev (devs (fs_set_filesystem_id f id w))) = DevFs.counter (dev (devs w)).
Proof. by destruct f. Qed.

Lemma set_id_fake (f : FsRef) id w :
  active (fake (fs_set_filesystem_id f id w)) = active (fake w) ∧
  FakeFs.counter (fake (fs_set_filesystem_id f id w)) = FakeFs.counter (fake w).
Proof. by destruct f. Qed.

Lemma set_id_kind (f : FsRef) id w g i :
  kind_at (rams (fs_set_filesystem_id f id w) g) i = kind_at (rams w g) i.
Proof. unfold kind_at. by rewrite set_id_rams. Qed.

Lemma set_id_ok (f : FsRef) id w : world_ok w → world_ok (fs_set_filesystem_id f id w).
Proof.
  intros (Hr & [] & []). split_and!.
  - intros g. destruct (Hr g) as [H1' H2' H3']. split; rewrite set_id_rams; done.
  - destruct (set_id_devs f id w) as (E1 & E2 & E3). split; rewrite ?E1, ?E2, ?E3; done.
  - destruct (set_id_fake f id w) as (E1 & E2). split; rewrite ?E1, ?E2; done.
Qed.

Lemma set_id_the_inode (f : FsRef) id w g i :
  the_inode i (rams (fs_set_filesystem_id f id w) g) = the_inode i (rams w g).
Proof. unfold the_inode. by rewrite set_id_rams. Qed.

Lemma set_id_the_node (f : FsRef) id w i :
  the_node i (dev (devs (fs_set_filesystem_id f id w))) = the_node i (dev (devs w)).
Proof. unfold the_node. destruct (set_id_devs f id w) as (-> & -> & _). done. Qed.

(** ** Identity of nodes *)

Lemma node_key n w i :
  world_ok w → node_valid n w → fs_get_filesystem_id (owner n) w = Ok i →
  ∃ j, vn_get_inumber n w = Ok j ∧ vn_get_inode_key n w = Ok (mkKey i j) ∧ fs_get_inode (owner n) j w = Ok n.
Proof.
  intros (Hr & Hd & Hf) Hn Hid. destruct n as [f j|j|j]; simpl in *; exists j.
  - destruct Hn as [k (m & Em & _)%kind_at_Some].
    unfold RamFs.get_inumber, RamFs.get_inode_key, RamFs.get_inode, the_inode. rewrite Hid, Em. cbn.
    by rewrite (ri_number _ (Hr f) _ _ Em).
  - destruct (the_node_valid j _ Hd Hn) as (m & Em & Hm & _).
    unfold DevFs.get_inumber, DevFs.get_inode_key. rewrite Em. cbn. rewrite Hm.
    unfold DevFs.get_filesystem_id in Hid. destruct (DevFs.fs_id _); [|done]. injection Hid as ->. split_and!; [done|done|].
    unfold DevFs.get_inode. destruct (Z.eqb_spec j 0) as [->|]; [done|]. destruct Hn as [?|[? ->]]; done.
  - unfold FakeFs.get_inode_key, FakeFs.get_filesystem_id, FakeFs.get_inode in *. destruct (FakeFs.fs_id _); [|done].
    injection Hid as ->. split_and!; [done|done|]. by rewrite bool_decide_eq_true_2.
Qed.

Lemma node_key_id n w key :
  vn_get_inode_key n w = Ok key → fs_get_filesystem_id (owner n) w = Ok (filesystem_id key).
Proof.
  destruct n as [f j|j|j]; simpl.
  - unfold RamFs.get_inode_key. destruct (RamFs.get_filesystem_id _); cbn; [|done..].
    destruct (the_inode _ _); cbn; [|done..]. by intros [= <-].
  - unfold DevFs.get_inode_key, DevFs.get_filesystem_id. destruct (the_node _ _); cbn; [|done..].
    destruct (DevFs.fs_id _); [|done]. by intros [= <-].
  - unfold FakeFs.get_inode_key, FakeFs.get_filesystem_id. destruct (FakeFs.fs_id _); [|done]. by intros [= <-].
Qed.

Lemma node_root f w r :
  world_ok w → fs_get_root f w = Ok r → owner r = f ∧ node_valid r w ∧ vn_get_type r w = Ok Directory.
Proof.
  intros (Hr & Hd & Hf). destruct f as [f| |]; simpl.
  - destruct (ri_root _ (Hr f)) as (n & e & Hn & He). unfold RamFs.get_root, RamFs.get_inode. rewrite Hn. cbn.
    intros [= <-]. simpl. unfold kind_at, RamFs.get_type, the_inode. rewrite Hn. simpl. rewrite He. split_and!; [done| |done].
    by eexists.
  - intros [= <-]. simpl. split_and!; [done|by left|]. unfold DevFs.get_type. simpl. by destruct (di_root _ Hd) as [_ ->].
  - intros [= <-]. simpl.
    split_and!; [done|by left|done].
Qed.

Lemma node_lookup n t w m :
  world_ok w → node_valid n w → vn_lookup n t w = Ok m → owner m = owner n ∧ node_valid m w.
Proof.
  intros (Hr & Hd & Hf) Hn. destruct n as [f j|j|j]; simpl in *; [| |done].
  - destruct (RamFs.lookup j t (rams w f)) as [i| |] eqn:E; cbn; [|done..]. intros [= <-]. split; [done|]. simpl.
    unfold RamFs.lookup in E. destruct (as_dir j _); cbn in E; [|done..]. destruct (_ !! t); [|done].
    unfold RamFs.get_inode in E. unfold kind_at. destruct (zat _ z) eqn:Ez; [|done]. injection E as <-. rewrite Ez. by eexists.
  - destruct (DevFs.lookup j t _) as [i| |] eqn:E; cbn; [|done..]. intros [= <-]. split; [done|]. simpl. by eapply lookup_valid.
Qed.

Lemma node_lookup_total n t w : world_ok w → node_valid n w → vn_lookup n t w ≠ Panic.
Proof.
  intros (Hr & Hd & Hf) Hn. destruct n as [f j|j|j]; simpl in *; [| |done].
  - destruct Hn as [k (m & Em & _)%kind_at_Some]. unfold RamFs.lookup, as_dir, the_inode. rewrite Em. cbn.
    destruct (kind m); cbn; [done|]. destruct (_ !! t); [|done]. unfold RamFs.get_inode. unfold as_node. by destruct (zat _ z).
  - destruct (the_node_valid j _ Hd Hn) as (m & Em & _). unfold DevFs.lookup. rewrite Em. cbn. by destruct (children m !! t).
Qed.

(** ** Calls on nodes *)

Lemma le_valid n w w' : world_le w w' → node_valid n w → node_valid n w'.
Proof.
  intros (Hr & Hd & _ & _ & Ha). destruct n as [f j|j|j]; simpl.
  - intros [k Hk]. destruct (Hr f) as (_ & _ & Hks). destruct (Hks _ _ Hk) as (k' & -> & _). by eexists.
  - by rewrite Hd.
  - intros [?|?]; [by left|right; set_solver].
Qed.

Lemma le_type n w w' : world_le w w' → node_valid n w → vn_get_type n w' = vn_get_type n w.
Proof.
  intros (Hr & Hd & _). destruct n as [f j|j|j]; simpl; [|by rewrite Hd|done].
  intros [k Hk]. destruct (Hr f) as (_ & _ & Hks). destruct (Hks _ _ Hk) as (k' & Hk' & Ht).
  apply kind_at_Some in Hk as (m & Em & <-). apply kind_at_Some in Hk' as (m' & Em' & <-).
  unfold RamFs.get_type, the_inode. rewrite Em, Em'. cbn. f_equal. apply Ht.
Qed.

Lemma le_inumber n w w' :
  world_ok w → world_le w w' → node_valid n w → vn_get_inumber n w' = vn_get_inumber n w.
Proof.
  intros (Hok & _) (Hr & Hd & _). destruct n as [f j|j|j]; simpl; [|by rewrite Hd|done].
  intros [k Hk]. destruct (Hr f) as (Hinv & _ & Hks). destruct (Hks _ _ Hk) as (k' & Hk' & _).
  apply kind_at_Some in Hk as (m & Em & _). apply kind_at_Some in Hk' as (m' & Em' & _).
  unfold RamFs.get_inumber, the_inode. rewrite Em, Em'. cbn. f_equal.
  by rewrite (ri_number _ (Hok f) _ _ Em), (ri_number _ (Hinv (Hok f)) _ _ Em').
Qed.

Lemma le_root f w w' : world_le w w' → world_ok w → fs_get_root f w' = fs_get_root f w.
Proof.
  intros (Hr & Hd & _) (Hok & _). destruct f as [f| |]; simpl; [|done|done].
  destruct (Hr f) as (Hinv & _). destruct (ri_root _ (Hok f)) as (n & e & Hn & _).
  destruct (ri_root _ (Hinv (Hok f))) as (n' & e' & Hn' & _). unfold RamFs.get_root, RamFs.get_inode. by rewrite Hn, Hn'.
Qed.

Lemma le_id f w w' : world_le w w' → fs_get_filesystem_id f w' = fs_get_filesystem_id f w.
Proof.
  intros (Hr & Hd & _ & Hid & _). destruct f as [f| |]; simpl.
  - destruct (Hr f) as (_ & E & _). unfold RamFs.get_filesystem_id. by rewrite E.
  - by rewrite Hd.
  - unfold FakeFs.get_filesystem_id. by rewrite Hid.
Qed.

Lemma le_ok w w' : world_ok w → world_le w w' → world_ok w'.
Proof.
  intros (Hok & Hd & Hf) (Hr & E & Hfk & _). split_and!; [|by rewrite E|by apply Hfk].
  intros f. destruct (Hr f) as (Hinv & _). by apply Hinv.
Qed.

#[export] Instance world_le_refl : Reflexive world_le.
Proof. intros w. split_and!; done. Qed.

Lemma set_rams_le f s w : ram_le (rams w f) s → world_le w (set_rams f s w).
Proof.
  intros Hs. split_and!; try done. intros g. simpl.
  destruct (decide (g = f)) as [->|]; [by rewrite upd_eq|by rewrite upd_ne].
Qed.

(** The next anonymous file does not wrap the counter around. *)
Definition world_room (w : World) : Prop := FakeFs.counter (fake w) < usize_max.

Lemma node_create n t ty w r :
  world_ok w → world_room w → node_valid n w → vn_create_child n t ty w = r →
  match r with
  | Ok (m, w') => world_le w w' ∧ owner m = owner n ∧ node_valid m w'
  | Err (_, w') => world_le w w'
  | Panic => False
  end.
Proof.
  intros (Hr & Hd & Hf) Hroom Hn <-. destruct n as [f j|j|j]; simpl in *; [|done|].
  - pose proof (create_child_le (rams w f) j t ty (Hr f) Hn) as Hc. unfold as_node_m, mbind', on_ram, on.
    destruct (RamFs.create_child j t ty (rams w f)) as [[m s]|[e s]|]; [|by apply set_rams_le|done].
    destruct Hc as [Hle Hm]. simpl. rewrite upd_eq. split_and!; [by apply set_rams_le|done|done].
  - unfold as_node_m, mbind', on_fake, on. destruct (decide (j = 0 ∧ ty = File)) as [[-> ->]|Hne].
    + destruct (create_child_spec (fake w) t Hf Hroom) as (-> & Hi & _). simpl. split_and!; [|done|right; set_solver].
      split_and!; try done. simpl. set_solver.
    + unfold FakeFs.create_child. rewrite bool_decide_eq_true_2; [by simpl; destruct w|].
      destruct (decide (j = 0)); [|by left]. right. naive_solver.
Qed.

#[export] Instance kernel_FilesystemSpec : FilesystemSpec World FsRef NodeRef.
Proof.
  refine {| w_ok := world_ok; w_le := λ w w', world_ok w ∧ world_le w w'; w_room := world_room;
            vn_owner := owner; vn_valid := node_valid |}.
  - intros w w' ? [_ ?]. by eapply le_ok.
  - intros n w w' [_ ?]. by apply le_valid.
  - intros f w w' [_ ?]. by apply le_id.
  - intros n w w' [_ ?]. by apply le_type.
  - intros n w w' [??]. by apply le_inumber.
  - intros f w w' [_ ?] ?. by apply le_root.
  - intros [f| |] i w; [simpl; by rewrite upd_eq|done..].
  - intros [f| |] [g| |] o w Hne; try done. simpl. rewrite upd_ne; [done|]. by intros ->.
  - intros [f| |] w; simpl; [unfold RamFs.get_filesystem_id|unfold DevFs.get_filesystem_id|unfold FakeFs.get_filesystem_id];
      [by destruct (RamFs.fs_id _)|by destruct (DevFs.fs_id _)|by destruct (FakeFs.fs_id _)].
  - intros f o w. apply set_id_ok.
  - intros [g j|j|j] f o w; cbn -[fs_set_filesystem_id]; [by rewrite set_id_kind|by destruct f|by destruct f].
  - intros [g j|j|j] f o w; cbn -[fs_set_filesystem_id]; [unfold RamFs.get_type; by rewrite set_id_the_inode|unfold DevFs.get_type; by rewrite set_id_the_node|done].
  - intros [g j|j|j] f o w; cbn -[fs_set_filesystem_id]; [unfold RamFs.get_inumber; by rewrite set_id_the_inode|unfold DevFs.get_inumber; by rewrite set_id_the_node|done].
  - intros [g j|j|j] t f o w; [|cbn -[fs_set_filesystem_id]; unfold DevFs.lookup; by rewrite set_id_the_node|done].
    cbn -[fs_set_filesystem_id]. unfold RamFs.lookup, as_dir, RamFs.get_inode. rewrite set_id_the_inode, set_id_rams. done.
  - intros [g| |] f o w; [|done|]; cbn -[fs_set_filesystem_id]; unfold RamFs.get_root, RamFs.get_inode; [by rewrite set_id_rams|done].
  - intros f w r. apply node_root.
  - intros n w i. apply node_key.
  - intros n w key. apply node_key_id.
  - intros n t w. apply node_lookup_total.
  - intros n t w m. apply node_lookup.
  - intros n t ty w r Hw Hroom Hn Hr. pose proof (node_create n t ty w r Hw Hroom Hn Hr) as Hc.
    destruct r as [[m w']|[e w']|]; [|done|done]. by destruct Hc as (? & ? & ?).
Defined.
End world.
Arguments World : clear implicits.

(** ** Mounting at boot *)

(** [expect] of a call, and [let _ =]. *)
Definition expect_m {S E A} (m : M S E A) : M S E A := λ s,
  match m s with Ok x => Ok x | _ => Panic end.
Definition ignore {S E A} (m : M S E A) : M S E unit := λ s,
  match m s with Ok (_, s') => Ok (tt, s') | Err (_, s') => Ok (tt, s') | Panic => Panic end.

Section boot.
Context {D C : Type} `{BlockDevice D} `{!Device D} `{CharDevice C} `{!Device C}.
Abbreviation K := (Kernel (World D C) FsRef NodeRef).
Implicit Types k : K.

Definition on_nodes {A} (m : WOp (World D C) A) : M K FsError A := λ k,
  match m (world k) with
  | Ok (a, w) => Ok (a, mkKernel (vfs k) w)
  | Err (e, w) => Err (e, mkKernel (vfs k) w)
  | Panic => Panic
  end.

Definition mount_system_filesystems : M K FsError unit :=
  let! root := λ k, mlift (unwrap (Vfs.get_root k)) k in
  let! _ := ignore (on_nodes (vn_create_child root "fake" Directory)) in
  let! _ := ignore (on_nodes (vn_create_child root "dev" Directory)) in
  let! fake_node := expect_m (on_world (vn_lookup root "fake")) in
  let! dev_node := expect_m (on_world (vn_lookup root "dev")) in
  let! _ := expect_m (mount fake_node FFake) in
  expect_m (mount dev_node FDev).

(** Nothing is mounted on a node that did not exist before. *)
Lemma fresh_not_mounted k k' n :
  vfs_inv k → vfs_inv k' → vfs k' = vfs k → stable k (world k') → ¬ node_valid n (world k) → known k' n → ¬ mounted k' n.
Proof.
  intros Hk Hk' Ev Hs Hn Hn' (key & r & Kn & Hr). rewrite Ev in Hr.
  destruct (vi_mount k Hk _ _ Hr) as (_ & _ & kr & m & _ & Hm & Km).
  destruct (vi_reverse k Hk _ _ Hm) as (Hmk & _). apply Hn.
  pose proof (stable_trans_key k k' m key Hk Hs Hmk Km) as Km'.
  rewrite (known_inj k' n m key Hk' Hn' (stable_known _ _ _ Hs Hmk) Kn Km'). apply Hmk.
Qed.

(** Creating a directory below a directory of a RAM file system. *)
Lemma create_dir k f i e name :
  vfs_inv k → known k (NRam f i) → kind_at (rams (world k) f) i = Some (RDir e) → e !! name = None →
  let n := zlen (RamFs.inodes (rams (world k) f)) in
  ∃ w', on_nodes (vn_create_child (NRam f i) name Directory) k = Ok (NRam f n, mkKernel (vfs k) w') ∧
    vfs_inv (mkKernel (vfs k) w') ∧ stable k w' ∧ vn_lookup (NRam f i) name w' = Ok (NRam f n) ∧
    kind_at (rams w' f) n = Some (RDir ∅) ∧ kind_at (rams w' f) i = Some (RDir (<[name := n]> e)) ∧
    zlen (RamFs.inodes (rams w' f)) = n + 1 ∧ devs w' = devs (world k) ∧
    (¬ node_valid (NRam f n) (world k)) ∧
    ∀ j, j ≠ i → j ≠ n → kind_at (rams w' f) j = kind_at (rams (world k) f) j.
Proof.
  intros Hk Hkn Hi He n. pose proof (vi_world k Hk) as (Hr & Hd & Hf).
  destruct (create_child_new (rams (world k) f) i e name Directory (Hr f) Hi ltac:(by right) He)
    as (s' & E & Hinv & Hl & Hkn' & Hki & Hid & Hlen & Hoth). fold n in E, Hl, Hkn', Hki, Hlen, Hoth.
  assert (¬ node_valid (NRam f n) (world k)) as Hfresh.
  { intros [kd (? & ?%zat_Some_range & _)%kind_at_Some]. unfold n in *. lia. }
  assert (world_ok (world k) ∧ world_le (world k) (set_rams f s' (world k))) as Hle.
  { split; [done|]. apply set_rams_le. split_and!; [done|done|]. intros j kd Hj. destruct (decide (j = i)) as [->|].
    - exists (RDir (<[name := n]> e)). split; [done|]. rewrite Hi in Hj. by injection Hj as <-.
    - exists kd. rewrite Hoth; [done|done|]. intros ->. apply Hfresh. by eexists. }
  exists (set_rams f s' (world k)). split_and!.
  - unfold on_nodes, vn_create_child, kernel_VNode, as_node_m, mbind', on_ram, on. by rewrite E.
  - by eapply (vstep_inv _ CNode), VNode_call.
  - by apply stable_le.
  - simpl. rewrite upd_eq, Hl. done.
  - simpl. by rewrite upd_eq.
  - simpl. by rewrite upd_eq.
  - simpl. by rewrite upd_eq.
  - done.
  - done.
  - intros j. simpl. rewrite upd_eq. apply Hoth.
Qed.

(** The kernel after [VFS::set_root] with a RAM file system whose root
    directory has no entries [fake] and [dev]. *)
Record boot_state k (f : Z) (e : gmap string Z) : Prop := {
  bs_inv : vfs_inv k;
  bs_root : root (vfs k) = Some (NRam f 0);
  bs_mounts : mount_points (vfs k) = ∅ ∧ reverse_mount_points (vfs k) = ∅;
  bs_dir : kind_at (rams (world k) f) 0 = Some (RDir e);
  bs_free : e !! "fake" = None ∧ e !! "dev" = None;
  bs_count : filesystem_id_counter (vfs k) + 2 ≤ usize_max;
}.

Lemma node_is_dir w f i e : kind_at (rams w f) i = Some (RDir e) →
  node_valid (NRam f i) w ∧ vn_get_type (NRam f i) w = Ok Directory.
Proof.
  intros Hi. split; [simpl; by eexists|]. simpl. apply kind_at_Some in Hi as (n & En & Hn).
  unfold RamFs.get_type, the_inode. rewrite En. cbn. by rewrite Hn.
Qed.

(** The two directories that are created as mount points. *)
Lemma boot_dirs k f e :
  boot_state k f e →
  ∃ w' i1 i2, i1 ≠ i2 ∧ i1 ≠ 0 ∧ i2 ≠ 0 ∧
    (∃ k1, ignore (on_nodes (vn_create_child (NRam f 0) "fake" Directory)) k = Ok (tt, k1) ∧
     ignore (on_nodes (vn_create_child (NRam f 0) "dev" Directory)) k1 = Ok (tt, mkKernel (vfs k) w')) ∧
    vfs_inv (mkKernel (vfs k) w') ∧ stable k w' ∧ devs w' = devs (world k) ∧
    vn_lookup (NRam f 0) "fake" w' = Ok (NRam f i1) ∧ vn_lookup (NRam f 0) "dev" w' = Ok (NRam f i2) ∧
    kind_at (rams w' f) i1 = Some (RDir ∅) ∧ kind_at (rams w' f) i2 = Some (RDir ∅).
Proof.
  intros [Hk Hroot _ Hd [Hf1 Hf2] _]. destruct (vi_root k Hk _ Hroot) as [Hkn _].
  destruct (create_dir k f 0 e "fake" Hk Hkn Hd Hf1) as (w1 & E1 & Hk1 & Hs1 & _ & Hn1 & Hd1 & Hlen1 & Hv1 & Hfr1 & _).
  set (k1 := mkKernel (vfs k) w1) in *. set (i1 := zlen _) in *.
  destruct (create_dir k1 f 0 (<["fake" := i1]> e) "dev" Hk1 (stable_known k k1 _ Hs1 Hkn) Hd1)
    as (w2 & E2 & Hk2 & Hs2 & Hl2 & Hn2 & Hd2 & _ & Hv2 & Hfr2 & Hoth); [by rewrite lookup_insert_ne|].
  set (i2 := zlen (RamFs.inodes (rams (world k1) f))) in *. assert (i2 = i1 + 1) as Hi by exact Hlen1.
  pose proof (zlen_nonneg (RamFs.inodes (rams (world k) f))) as Hpos. fold i1 in Hpos.
  assert (i1 ≠ 0) as H10. { intros Ei. apply Hfr1. rewrite Ei. apply Hkn. }
  exists w2, i1, i2. split_and!; [lia|lia|lia| |done|exact (stable_trans k k1 w2 Hs1 Hs2)|by rewrite Hv2| |done| |done].
  - exists k1. unfold ignore. by rewrite E1, E2.
  - unfold vn_lookup, kernel_VNode. erewrite lookup_listed; [done| |exact Hd2|].
    + apply (vi_world _ Hk2).
    + rewrite lookup_insert_ne by done. apply lookup_insert_eq.
  - by rewrite Hoth by lia.
Qed.

(** Mounting both file systems on two directories, nothing being mounted. *)
Lemma mount_both k m1 m2 :
  vfs_inv k → mount_points (vfs k) = ∅ → filesystem_id_counter (vfs k) + 2 ≤ usize_max →
  known k m1 → known k m2 → m1 ≠ m2 →
  vn_get_type m1 (world k) = Ok Directory → vn_get_type m2 (world k) = Ok Directory →
  ∃ k1 k2, mount m1 FFake k = Ok (tt, k1) ∧ mount m2 FDev k1 = Ok (tt, k2) ∧
    mounts k k1 m1 (NFake 0) ∧ mounts k1 k2 m2 (NDev 0).
Proof.
  intros Hk Em Hc H1 H2 Hne T1 T2.
  assert (∀ n, ¬ mounted k n) as Hno by (intros n (key & r & _ & E); by rewrite Em, lookup_empty in E).
  assert (∀ f, ¬ in_use k f) as Hnf by (intros f (key & r & E & _); by rewrite Em, lookup_empty in E).
  destruct (mount_spec k m1 FFake (NFake 0)) as (k1 & E1 & M1); try done; [lia|].
  pose proof M1 as [Hk1 Hs1 _ _ Hc1 (km & kr & Km & Kr & _ & _ & Em1 & _)].
  destruct (mount_spec k1 m2 FDev (NDev 0)) as (k2 & E2 & M2); try done.
  - lia.
  - by eapply stable_known.
  - by rewrite (st_type _ _ Hs1) by apply H2.
  - intros (key & r & K2 & E). rewrite (mounts_lookup k k1 m1 (NFake 0) m2 key) in E; try done; [|by eapply stable_known].
    by rewrite Em, lookup_empty in E.
  - intros (key & r & E & Ho). rewrite Em1, Em in E. apply lookup_insert_Some in E as [[_ <-]|[_ E]]; [done|].
    by rewrite lookup_empty in E.
  - exists k1, k2. done.
Qed.

Lemma boot_run k f e :
  boot_state k f e →
  ∃ k1 k2 k3 i1 i2, i1 ≠ i2 ∧ i1 ≠ 0 ∧ i2 ≠ 0 ∧ mount_system_filesystems k = Ok (tt, k3) ∧
    vfs_inv k1 ∧ stable k (world k1) ∧ vfs k1 = vfs k ∧ devs (world k1) = devs (world k) ∧
    known k1 (NRam f 0) ∧ known k1 (NRam f i1) ∧ known k1 (NRam f i2) ∧
    vn_lookup (NRam f 0) "fake" (world k1) = Ok (NRam f i1) ∧ vn_lookup (NRam f 0) "dev" (world k1) = Ok (NRam f i2) ∧
    mounts k1 k2 (NRam f i1) (NFake 0) ∧ mounts k2 k3 (NRam f i2) (NDev 0).
Proof.
  intros Hb. destruct (boot_dirs k f e Hb) as (w & i1 & i2 & H12 & H1 & H2 & (k0 & E0 & E1) & Hk1 & Hs & Hv & L1 & L2 & D1 & D2).
  destruct Hb as [Hk Hroot [Hmp _] _ _ Hc]. set (k1 := mkKernel (vfs k) w) in *.
  destruct (vi_root k Hk _ Hroot) as [Hkn _]. pose proof (stable_known k k1 _ Hs Hkn) as Hkn1.
  destruct (node_is_dir w f i1 ∅ D1) as [V1 T1]. destruct (node_is_dir w f i2 ∅ D2) as [V2 T2].
  assert (∀ i, node_valid (NRam f i) w → known k1 (NRam f i)) as Hknown.
  { intros i Hi. split; [done|]. apply Hkn1. }
  destruct (mount_both k1 (NRam f i1) (NRam f i2)) as (k2 & k3 & E2 & E3 & M1 & M2); try done; [by apply Hknown..|congruence|].
  exists k1, k2, k3, i1, i2. split_and!; try done; [|by apply Hknown..].
  unfold mount_system_filesystems. rewrite (mbind_ok _ _ _ (NRam f 0) k) by (unfold Vfs.get_root; by rewrite Hroot).
  rewrite (mbind_ok _ _ _ _ _ E0), (mbind_ok _ _ _ _ _ E1).
  rewrite (mbind_ok _ _ _ (NRam f i1) k1) by (unfold expect_m; by rewrite (on_world_ok _ _ k1 L1)).
  rewrite (mbind_ok _ _ _ (NRam f i2) k1) by (unfold expect_m; by rewrite (on_world_ok _ _ k1 L2)).
  rewrite (mbind_ok _ _ _ tt k2) by (unfold expect_m; by rewrite E2). unfold expect_m. by rewrite E3.
Qed.

(** What the mounts made at boot mean for the traversal. *)
Record booted k k' (f : Z) : Prop := {
  bt_inv : vfs_inv k';
  bt_root : known k' (NRam f 0);
  bt_dev : known k' (NDev 0);
  bt_free n key : known k' n → (∀ i, n = NRam f i → i = 0) → key_of k' n = Ok key → mount_points (vfs k') !! key = None;
  bt_lookup name : vn_lookup (NDev 0) name (world k') = vn_lookup (NDev 0) name (world k);
  bt_to_dev : traverse_step k' (NRam f 0) "dev" = Ok (NDev 0);
  bt_to_fake : traverse_step k' (NRam f 0) "fake" = Ok (NFake 0);
}.

Lemma boot_result k f e :
  boot_state k f e → ∃ k', mount_system_filesystems k = Ok (tt, k') ∧ booted k k' f.
Proof.
  intros Hb. pose proof Hb as [_ _ [Hmp _] _ _ _].
  destruct (boot_run k f e Hb) as (k1 & k2 & k3 & i1 & i2 & H12 & H1 & H2 & E & Hk1 & Hs & Ev & Hv & Hr & N1 & N2 & L1 & L2 & M1 & M2).
  pose proof M1 as [Hk2 Hs2 Hl2 _ _ _]. pose proof M2 as [Hk3 Hs3 Hl3 Hkd _ _].
  assert (∀ n, known k1 n → known k2 n) as U2 by (intros n; by apply stable_known).
  assert (∀ n, known k2 n → known k3 n) as U3 by (intros n; by apply stable_known).
  exists k3. split; [done|]. split; [done|by apply U3, U2|done| | | |].
  - intros n key Hn Hni Kn. rewrite (mounts_lookup k2 k3 _ _ n key (U2 _ N2) M2 Hn Kn) by (intros Hx; by apply H2, Hni).
    destruct (mount_points (vfs k2) !! key) as [r|] eqn:Er; [|done]. exfalso.
    pose proof M1 as [_ _ _ _ _ (km & kr & Km & _ & _ & _ & Em & _)]. rewrite Em, Ev, Hmp in Er.
    apply lookup_insert_Some in Er as [[-> _]|[_ Er]]; [|by rewrite lookup_empty in Er].
    apply H1, Hni. eapply known_inj; [exact Hk3|done|by apply U3, U2|done|]. eapply stable_trans_key; [exact Hk2|done|by apply U2|done].
  - intros name. rewrite Hl3, Hl2. unfold vn_lookup, kernel_VNode. by rewrite Hv.
  - eapply (traverse_step_mounts k2 k3 (NRam f i2)); [done|by apply U2|done|by apply U2|done|done|]. by rewrite Hl2.
  - assert (traverse_step k2 (NRam f 0) "fake" = Ok (NFake 0)) as S2.
    { by eapply (traverse_step_mounts k1 k2 (NRam f i1)). }
    rewrite <-S2. eapply (traverse_step_elsewhere k2 k3 (NRam f i2)); [done|by apply U2|done|by apply U2|done|]. by rewrite S2.
Qed.

Lemma booted_path k k' f l :
  booted k k' f → Forall (λ s, s ≠ EmptyString ∧ slash_free s) l →
  traverse_path (NRam f 0) (String slash (String.concat "/" l)) k' = traverse_loop k' (NRam f 0) l.
Proof.
  intros Hb Hl. destruct (known_key k' (NRam f 0) (bt_inv _ _ _ Hb) (bt_root _ _ _ Hb)) as [key K0].
  pose proof (bt_free _ _ _ Hb _ _ (bt_root _ _ _ Hb) ltac:(by intros ? [= <-]) K0) as Hn.
  unfold traverse_path. rewrite decide_False by done. unfold key_of in K0. rewrite K0. cbn [rbind]. rewrite Hn.
  cbn [default]. change (components (String slash (String.concat "/" l))) with (components (String.concat "/" l)).
  by rewrite components_concat.
Qed.

(** Mounting the system file systems on a RAM root succeeds; afterwards
    [/fake] is the root of the file system of anonymous files and [/dev/name]
    is what the device file system has under [name]. *)
Lemma boot_mounts_correct k f e :
  boot_state k f e →
  ∃ k', mount_system_filesystems k = Ok (tt, k') ∧ vfs_inv k' ∧
    traverse_path (NRam f 0) "/fake" k' = Ok (NFake 0) ∧
    traverse_path (NRam f 0) "/dev" k' = Ok (NDev 0) ∧
    ∀ name, name ≠ EmptyString → slash_free name → name ≠ "." → name ≠ ".." →
      traverse_path (NRam f 0) ("/dev/" +:+ name) k' = vn_lookup (NDev 0) name (world k).
Proof.
  intros Hb. destruct (boot_result k f e Hb) as (k' & E & Hbt). pose proof Hbt as [Hk' _ Hkd Hfree Hl Sdev Sfake].
  exists k'. split_and!; [done|done| | |].
  - etrans; [apply (booted_path k k' f ["fake"] Hbt); by repeat constructor|]. cbn -[traverse_step]. by rewrite Sfake.
  - etrans; [apply (booted_path k k' f ["dev"] Hbt); by repeat constructor|]. cbn -[traverse_step]. by rewrite Sdev.
  - intros name Hn0 Hsf Hn1 Hn2. etrans; [apply (booted_path k k' f ["dev"; name] Hbt); by repeat constructor|].
    cbn -[traverse_step vn_lookup]. rewrite Sdev. cbn -[traverse_step vn_lookup].
    unfold traverse_step. rewrite !decide_False by done. rewrite Hl.
    destruct (vn_lookup (NDev 0) name (world k)) as [b| |] eqn:Eb; [|done..]. cbn [rbind]. rewrite <-Hl in Eb.
    destruct (sp_lookup _ _ _ _ (vi_world k' Hk') (proj1 Hkd) Eb) as [Ho Hbv].
    assert (known k' b) as Hbk by (split; [done|rewrite Ho; apply Hkd]).
    destruct (known_key k' b Hk' Hbk) as [kb Kb]. pose proof Kb as Kb'. unfold key_of in Kb'. rewrite Kb'. cbn [rbind].
    rewrite (Hfree b kb); [done|done| |done]. by intros i ->.
Qed.
End boot.

(** ** Examples *)

(** A kernel with RAM file systems and registered devices, the first RAM file
    system as the root and the second one registered too. *)
Abbreviation DemoK := (Kernel (World (VirtIOBlkDiskDriver MemDisk) LimineFramebuffer) FsRef NodeRef).

Definition demo_world : World (VirtIOBlkDiskDriver MemDisk) LimineFramebuffer :=
  mkWorld (λ _, RamFs.new) (register_devices [0; 1] [0] demo_devices) FakeFs.new.

Definition after {S E A} (r : res (E * S) (A * S)) (s : S) : S :=
  match r with Ok (_, s') | Err (_, s') => s' | Panic => s end.

Definition demo_kernel0 : DemoK := mkKernel VFS_new demo_world.
Definition demo_kernel1 : DemoK := after (set_root (FRam 0) demo_kernel0) demo_kernel0.
Definition demo_kernel : DemoK := after (set_root (FRam 1) demo_kernel1) demo_kernel1.

Lemma demo_world_ok : world_ok demo_world.
Proof.
  split_and!; [intros; apply ram_new_inv| |apply fake_new_inv].
  unfold demo_world. cbn [devs]. rewrite register_devices_eq. cbn [dev].
  refine (proj1 (add_all_spec _ _ dev_new_inv _)). change (1 + 3 ≤ usize_max). unfold usize_max. lia.
Qed.

Definition demo_calls : list (DemoK * call (F := FsRef) (N := NodeRef)) := [(demo_kernel1, CSetRoot (FRam 1)); (demo_kernel0, CSetRoot (FRam 0))].
Lemma demo_reachable : reachable demo_calls demo_kernel.
Proof.
  apply (reach_step _ demo_kernel1).
  - apply (reach_step _ demo_kernel0).
    + apply reach_boot; [apply demo_world_ok|]. by intros [?| |] i.
    + apply (VSetRoot demo_kernel0 (FRam 0)); [done|]. left. by exists tt.
  - apply (VSetRoot demo_kernel1 (FRam 1)); [done|]. left. by exists tt.
Qed.
Lemma demo_once : Forall once demo_calls.
Proof. by repeat constructor. Qed.

Lemma demo_kernel_inv : vfs_inv demo_kernel.
Proof. apply (reachable_inv demo_calls); [apply demo_reachable|apply demo_once]. Qed.

Lemma demo_known f : f = 0 ∨ f = 1 → known demo_kernel (NRam f 0).
Proof. intros [-> | ->]; (split; [by eexists|by eexists]). Qed.

(** The device file system on the root of the second RAM file system. *)
Definition demo_mounted : DemoK := after (mount (NRam 1 0) FDev demo_kernel) demo_kernel.
Lemma demo_mounted_reachable : reachable ((demo_kernel, CMount (NRam 1 0) FDev) :: demo_calls) demo_mounted.
Proof.
  eapply reach_step; [apply demo_reachable|]. apply VMount; [done|apply demo_known; by right|]. left. by exists tt.
Qed.
Lemma demo_not_mounted f : ¬ mounted demo_kernel (NRam f 0).
Proof. intros (? & ? & _ & ?). done. Qed.

Lemma vfs_reachable_witness :
  get_inode (mkKey 1 0) demo_mounted = Ok (NRam 1 0) ∧ unmount (NRam 0 0) demo_mounted = Err (FsError.NotFound, demo_mounted) ∧
  ∃ k', unmount (NRam 1 0) demo_mounted = Ok (tt, k') ∧ vfs_inv k' ∧ mount_points (vfs k') !! mkKey 1 0 = None.
Proof.
  destruct (vfs_reachable _ demo_mounted demo_mounted_reachable) as (_ & Hg & Hu & _).
  { constructor; [|apply demo_once]. split; [apply demo_not_mounted|]. intros (? & ? & ? & _). done. }
  assert (Hkn : ∀ f, f = 0 ∨ f = 1 → known demo_mounted (NRam f 0)) by (intros f [-> | ->]; (split; [by eexists|by eexists])).
  split; [|split].
  - apply Hg; [apply Hkn; by right|reflexivity].
  - exact (Hu (NRam 0 0) (mkKey 0 0) (Hkn 0 (or_introl eq_refl)) eq_refl).
  - destruct (Hu (NRam 1 0) (mkKey 1 0) (Hkn 1 (or_intror eq_refl)) eq_refl) as (kr & _ & E & Hi). eexists. split; [exact E|]. split; [exact Hi|reflexivity].
Defined.

Lemma mount_witness :
  ∃ k' k'', mount (NRam 1 0) FDev demo_kernel = Ok (tt, k') ∧ unmount (NRam 1 0) k' = Ok (tt, k'') ∧
    traverse_step k' (NDev 0) ".." = Err FsError.NotFound ∧
    traverse_path (NRam 0 0) "/" k'' = traverse_path (NRam 0 0) "/" demo_kernel.
Proof.
  destruct (mount_correct demo_kernel (NRam 1 0) FDev (NDev 0)) as (k' & E & _ & _ & Hup & _ & k'' & E2 & _ & Hp).
  - apply demo_kernel_inv.
  - done.
  - apply demo_known. by right.
  - reflexivity.
  - intros (? & ? & _ & ?). done.
  - reflexivity.
  - intros (? & ? & ? & _). done.
  - exists k', k''. split; [exact E|]. split; [exact E2|]. split; [exact Hup|]. apply Hp, demo_known. by left.
Defined.

Lemma double_mount_witness :
  ∃ k1 k2 k3, mount (NRam 0 0) FFake demo_kernel = Ok (tt, k1) ∧ mount (NRam 1 0) FFake k1 = Ok (tt, k2) ∧
    unmount (NRam 0 0) k2 = Ok (tt, k3) ∧
    unmount (NRam 1 0) k3 = Err (FsError.Corrupted "mount point is missing its reverse mapping", k3).
Proof.
  destruct (double_mount_stuck demo_kernel (NRam 0 0) (NRam 1 0) FFake (NFake 0) (mkKey 0 0) (mkKey 1 0))
    as (k1 & k2 & k3 & E1 & E2 & E3 & E4 & _).
  - apply demo_kernel_inv.
  - done.
  - apply demo_known. by left.
  - apply demo_known. by right.
  - reflexivity.
  - reflexivity.
  - reflexivity.
  - reflexivity.
  - discriminate.
  - intros (? & ? & _ & ?). done.
  - intros (? & ? & _ & ?). done.
  - reflexivity.
  - intros (? & ? & ? & _). done.
  - exists k1, k2, k3. split; [exact E1|]. split; [exact E2|]. split; [exact E3|exact E4].
Defined.

Lemma boot_mounts_witness :
  ∃ k', mount_system_filesystems demo_kernel = Ok (tt, k') ∧
    traverse_path (NRam 0 0) ("/dev/" +:+ "fb") k' = Ok (NDev 3).
Proof.
  destruct (boot_mounts_correct demo_kernel 0 ∅) as (k' & E & _ & _ & _ & Hp).
  - split; try done. apply demo_kernel_inv.
  - exists k'. split; [exact E|]. rewrite (Hp "fb") by done. reflexivity.
Defined.

