(* ===== verification/File.v ===== *)
(** * Open files (src/fs/file.rs)

    A [File] is a node and a position behind a lock.  The theorems show that
    reading, writing and seeking refine an abstract byte array with a cursor,
    for every node that behaves like a byte array. *)

From S2P Require Import Prelude Bytes FsTypes BlockDevice CharDevice RamFs FakeFs DevFs Vfs KernelFs.

Definition SEEK_SET : Z := 0.
Definition SEEK_CUR : Z := 1.
Definition SEEK_END : Z := 2.

(** [i128::checked_add]. *)
Definition checked_add_i128 (a b : Z) : option Z :=
  if bool_decide (- 2 ^ 127 ≤ a + b < 2 ^ 127) then Some (a + b) else None.

Section file.
Context {W N : Type} `{!VNode W N}.

Record FileObj : Type := mkFile { vnode : N; offset : Z }.

Definition File_new (vnode : N) : FileObj := mkFile vnode 0.

(** Calls see the file and the world. *)
Abbreviation FileOp A := (M (FileObj * W) FsError A).

Definition on_vnode {A} (m : N → WOp W A) : FileOp A := λ '(f, w),
  match m (vnode f) w with
  | Ok (a, w') => Ok (a, (f, w'))
  | Err (e, w') => Err (e, (f, w'))
  | Panic => Panic
  end.
Definition ask_vnode {A} (g : N → W → res FsError A) : FileOp A := λ '(f, w), mlift (g (vnode f) w) (f, w).
Definition get_offset : FileOp Z := λ '(f, w), Ok (offset f, (f, w)).
Definition set_offset (o : Z) : FileOp unit := mmodify (λ '(f, w), (mkFile (vnode f) o, w)).

Definition read (buf : list Z) : FileOp (Z * list Z) :=
  let! o := get_offset in
  let! (bytes_read, buf) := on_vnode (λ n, vn_read_unaligned n o buf) in
  let! o := mlift (uadd o bytes_read) in
  let! _ := set_offset o in
  mret (bytes_read, buf).

Definition write (buf : list Z) : FileOp Z :=
  let! o := get_offset in
  let! bytes_written := on_vnode (λ n, vn_write_unaligned n o buf) in
  let! o := mlift (uadd o bytes_written) in
  let! _ := set_offset o in
  mret bytes_written.

Definition seek (off whence : Z) : FileOp Z :=
  let! seekable := ask_vnode vn_seekable in
  if negb seekable then mfail FsError.InvalidOperation
  else
    let! current := get_offset in
    let! base :=
      (if whence =? SEEK_SET then mret 0
       else if whence =? SEEK_CUR then mret current
       else if whence =? SEEK_END then ask_vnode vn_size
       else mfail FsError.InvalidInput) in
    match checked_add_i128 base off with
    | None => mfail FsError.InvalidInput
    | Some new_offset =>
        if (new_offset <? 0) || (usize_max <? new_offset) then mfail FsError.InvalidInput
        else
          let! _ := set_offset new_offset in
          mret new_offset
    end.

Definition ioctl (request arg : Z) : FileOp Z := on_vnode (λ n, vn_ioctl n request arg).
End file.
Arguments FileObj : clear implicits.

(** ** Byte arrays with a cursor *)

(** A node that is a byte array: [bn_contents] are its bytes. *)
Class ByteNode (W N : Type) `{!VNode W N} : Type := {
  bn_contents : N → W → option (list Z);
  bn_ok : W → Prop;
  bn_seekable n w data : bn_contents n w = Some data → vn_seekable n w = Ok true;
  bn_size n w data : bn_contents n w = Some data → vn_size n w = Ok (zlen data);
  bn_read n w data off buf : bn_contents n w = Some data → 0 ≤ off →
    let k := Z.max 0 (Z.min (zlen buf) (zlen data - off)) in
    ∃ w', vn_read_unaligned n off buf w = Ok ((k, splice buf 0 (sub data off k)), w') ∧
      bn_contents n w' = Some data ∧ (bn_ok w → bn_ok w');
  bn_write n w data off buf : bn_ok w → bn_contents n w = Some data → 0 ≤ off → off + zlen buf ≤ isize_max →
    ∃ w' data', vn_write_unaligned n off buf w = Ok (zlen buf, w') ∧ bn_contents n w' = Some data' ∧
      written data off buf data' ∧ bn_ok w';
  bn_overflow n w data off buf : bn_contents n w = Some data → zlen data ≤ isize_max → isize_max < off + zlen buf →
    vn_write_unaligned n off buf w = Panic;
}.

(** The calls a process makes on a file and what it sees of them. *)
Inductive FOp : Type :=
| ORead (buf : list Z)
| OWrite (buf : list Z)
| OSeek (off whence : Z).

Inductive FRes : Type :=
| RRead (n : Z) (buf : list Z)
| RWrite (n : Z)
| RSeek (pos : Z)
| RErr (e : FsError)
| RPanic.

(** The arguments have the types [i64] and [i32]; a buffer fits the address
    space. *)
Definition op_ok (o : FOp) : Prop :=
  match o with
  | OSeek off _ => - 2 ^ 63 ≤ off < 2 ^ 63
  | _ => True
  end.

(** The abstract file: its bytes and the cursor. *)
Definition Abs : Type := list Z * Z.

Definition seek_base (a : Abs) (whence : Z) : option Z :=
  if whence =? SEEK_SET then Some 0
  else if whence =? SEEK_CUR then Some a.2
  else if whence =? SEEK_END then Some (zlen a.1)
  else None.

Inductive astep : Abs → FOp → FRes → Abs → Prop :=
| a_read data off buf k :
    k = Z.max 0 (Z.min (zlen buf) (zlen data - off)) →
    astep (data, off) (ORead buf) (RRead k (splice buf 0 (sub data off k))) (data, off + k)
| a_write data off buf data' :
    off + zlen buf ≤ isize_max → written data off buf data' →
    astep (data, off) (OWrite buf) (RWrite (zlen buf)) (data', off + zlen buf)
| a_seek data off o whence base :
    seek_base (data, off) whence = Some base → 0 ≤ base + o ≤ usize_max →
    astep (data, off) (OSeek o whence) (RSeek (base + o)) (data, base + o)
| a_seek_range data off o whence base :
    seek_base (data, off) whence = Some base → ¬ (0 ≤ base + o ≤ usize_max) →
    astep (data, off) (OSeek o whence) (RErr FsError.InvalidInput) (data, off)
| a_seek_whence data off o whence :
    seek_base (data, off) whence = None →
    astep (data, off) (OSeek o whence) (RErr FsError.InvalidInput) (data, off).

(** Traces; a write that would make the file longer than [isize::MAX] panics. *)
Inductive atrace : Abs → list FOp → list FRes → Prop :=
| t_nil a : atrace a [] []
| t_step a o r a' os rs : astep a o r a' → atrace a' os rs → atrace a (o :: os) (r :: rs)
| t_panic data off buf os : isize_max < off + zlen buf → atrace (data, off) (OWrite buf :: os) [RPanic].

Section refine.
Context {W N : Type} `{ByteNode W N}.

(** A run of the code. *)
Definition run_op (o : FOp) (s : FileObj N * W) : FRes * option (FileObj N * W) :=
  match o with
  | ORead buf =>
      match read buf s with
      | Ok ((n, buf), s') => (RRead n buf, Some s')
      | Err (e, s') => (RErr e, Some s')
      | Panic => (RPanic, None)
      end
  | OWrite buf =>
      match write buf s with
      | Ok (n, s') => (RWrite n, Some s')
      | Err (e, s') => (RErr e, Some s')
      | Panic => (RPanic, None)
      end
  | OSeek off whence =>
      match seek off whence s with
      | Ok (n, s') => (RSeek n, Some s')
      | Err (e, s') => (RErr e, Some s')
      | Panic => (RPanic, None)
      end
  end.

Fixpoint run (os : list FOp) (s : FileObj N * W) : list FRes :=
  match os with
  | [] => []
  | o :: os =>
      let '(r, s') := run_op o s in
      r :: match s' with Some s' => run os s' | None => [] end
  end.

(** The file at [off] on a node with the bytes [data]. *)
Definition refines (s : FileObj N * W) (a : Abs) : Prop :=
  bn_contents (vnode s.1) s.2 = Some a.1 ∧ bn_ok s.2 ∧ offset s.1 = a.2 ∧ 0 ≤ a.2 ≤ usize_max ∧ zlen a.1 ≤ isize_max.

Lemma read_sim s a buf :
  refines s a → ∃ r s' a', run_op (ORead buf) s = (r, Some s') ∧ astep a (ORead buf) r a' ∧ refines s' a'.
Proof.
  destruct s as [[n o] w], a as [data off]. intros (Hc & Hw & Ho & Hr & Hd). simpl in *. subst o.
  destruct (bn_read n w data off buf Hc) as (w' & E & Hc' & Hw'); [lia|]. set (k := Z.max 0 _) in E.
  pose proof (zlen_nonneg buf). pose proof (zlen_nonneg data).
  pose proof (isize_usize _ Hd). assert (off + k ≤ usize_max) by (unfold k; lia).
  exists (RRead k (splice buf 0 (sub data off k))), (mkFile n (off + k), w'), (data, off + k). split_and!.
  - unfold read, mbind', get_offset, on_vnode. cbn -[uadd]. rewrite E. cbn -[uadd]. by rewrite uadd_ok.
  - by constructor.
  - split_and!; simpl; try done; try (by apply Hw'); unfold k; lia.
Qed.

Lemma write_sim s a buf :
  refines s a →
  (∃ r s' a', run_op (OWrite buf) s = (r, Some s') ∧ astep a (OWrite buf) r a' ∧ refines s' a') ∨
  (run_op (OWrite buf) s = (RPanic, None) ∧ isize_max < a.2 + zlen buf).
Proof.
  destruct s as [[n o] w], a as [data off]. intros (Hc & Hw & Ho & Hr & Hd). simpl in *. subst o.
  pose proof (zlen_nonneg buf). destruct (decide (off + zlen buf ≤ isize_max)) as [Hfit|Hov].
  - left. destruct (bn_write n w data off buf Hw Hc) as (w' & data' & E & Hc' & Hwr & Hw'); [lia|done|]. pose proof (isize_usize _ Hfit).
    exists (RWrite (zlen buf)), (mkFile n (off + zlen buf), w'), (data', off + zlen buf). split_and!.
    + unfold write, mbind', get_offset, on_vnode. cbn -[uadd]. rewrite E. cbn -[uadd]. by rewrite uadd_ok.
    + by constructor.
    + destruct Hwr as [Hl _]. split_and!; simpl; try done; lia.
  - right. split; [|lia]. unfold write, mbind', get_offset, on_vnode. cbn.
    by rewrite (bn_overflow n w data off buf Hc Hd) by lia.
Qed.

Lemma seek_sim s a off whence :
  refines s a → op_ok (OSeek off whence) →
  ∃ r s' a', run_op (OSeek off whence) s = (r, Some s') ∧ astep a (OSeek off whence) r a' ∧ refines s' a'.
Proof.
  destruct s as [[n o] w], a as [data cur]. intros (Hc & Hw & Ho & Hr & Hd) Hok. simpl in Hc, Hw, Ho, Hr, Hd, Hok. subst o.
  pose proof (zlen_nonneg data). pose proof (bn_seekable n w data Hc) as Hs. pose proof (bn_size n w data Hc) as Hz.
  assert (refines (mkFile n cur, w) (data, cur)) as Hsame by done.
  unfold run_op, seek. rewrite (mbind_ok _ _ _ true (mkFile n cur, w)) by (unfold ask_vnode; simpl; by rewrite Hs).
  cbn [negb]. rewrite (mbind_ok _ _ _ cur (mkFile n cur, w)) by done.
  destruct (seek_base (data, cur) whence) as [base|] eqn:Eb.
  - assert (0 ≤ base ≤ usize_max) as Hb.
    { unfold seek_base in Eb. simpl in Eb. pose proof (isize_usize _ Hd). repeat zcase; simplify_eq; unfold usize_max in *; lia. }
    rewrite (mbind_ok _ _ _ base (mkFile n cur, w)).
    2: { unfold seek_base in Eb. simpl in Eb. repeat zcase; simplify_eq; try done. unfold ask_vnode. simpl. by rewrite Hz. }
    unfold checked_add_i128. rewrite bool_decide_eq_true_2 by (unfold usize_max in *; lia).
    destruct (decide (0 ≤ base + off ≤ usize_max)) as [Hin|Hout].
    + assert ((base + off <? 0) || (usize_max <? base + off) = false) as -> by (repeat zcase; try lia; done).
      exists (RSeek (base + off)), (mkFile n (base + off), w), (data, base + off). split_and!; [done|by econstructor|done].
    + assert ((base + off <? 0) || (usize_max <? base + off) = true) as -> by (repeat zcase; try lia; done).
      exists (RErr FsError.InvalidInput), (mkFile n cur, w), (data, cur). split_and!; [done|by eapply a_seek_range|done].
  - exists (RErr FsError.InvalidInput), (mkFile n cur, w), (data, cur). split_and!; [|by apply a_seek_whence|done].
    unfold seek_base in Eb. simpl in Eb. by repeat zcase.
Qed.
End refine.

(** ** RAM files are byte arrays *)

Section kernel.
Context {D C : Type} `{BlockDevice D} `{!Device D} `{CharDevice C} `{!Device C}.

Definition ram_contents (n : NodeRef) (w : World D C) : option (list Z) :=
  match n with
  | NRam f i => match kind_at (rams w f) i with Some (RFile data) => Some data | _ => None end
  | _ => None
  end.

Lemma ram_contents_file n w data :
  ram_contents n w = Some data → ∃ f i, n = NRam f i ∧ kind_at (rams w f) i = Some (RFile data).
Proof.
  destruct n as [f i| |]; simpl; [|done|done]. destruct (kind_at (rams w f) i) as [[l|]|] eqn:E; [|done..].
  intros [= ->]. eauto.
Qed.

#[export] Instance ram_ByteNode : ByteNode (World D C) NodeRef.
Proof.
  refine {| bn_contents := ram_contents; bn_ok w := ∀ f, ram_inv (rams w f) |}.
  - intros n w data (f & i & -> & (m & Em & Hm)%kind_at_Some)%ram_contents_file. simpl.
    unfold RamFs.get_type, the_inode. rewrite Em. cbn. by rewrite Hm.
  - intros n w data (f & i & -> & (m & Em & Hm)%kind_at_Some)%ram_contents_file. simpl.
    unfold node_size, the_inode. rewrite Em. cbn. by rewrite Hm.
  - intros n w data off buf (f & i & -> & Hk)%ram_contents_file Ho k.
    exists (set_rams f (rams w f) w). pose proof (ram_read_spec (rams w f) i data off buf Hk Ho) as E.
    unfold vn_read_unaligned, kernel_VNode, on_ram, on. rewrite E. split_and!; [done| |].
    + simpl. by rewrite upd_eq, Hk.
    + intros Hw g. simpl. destruct (decide (g = f)) as [->|]; [by rewrite upd_eq|by rewrite upd_ne].
  - intros n w data off buf Hw (f & i & -> & Hk)%ram_contents_file Ho Hb.
    destruct (ram_write_spec (rams w f) i data off buf (Hw f) Hk Ho Hb) as (s' & data' & E & Hk' & Hwr & _ & Hi).
    exists (set_rams f s' w), data'. unfold vn_write_unaligned, kernel_VNode, on_ram, on. rewrite E. split_and!; [done| |done|].
    + simpl. by rewrite upd_eq, Hk'.
    + intros g. simpl. destruct (decide (g = f)) as [->|]; [by rewrite upd_eq|by rewrite upd_ne].
  - intros n w data off buf (f & i & -> & Hk)%ram_contents_file Hl Ho.
    unfold vn_write_unaligned, kernel_VNode, on_ram, on. cbn. unfold RamFs.write_unaligned, reading.
    rewrite (mbind_ok _ _ _ data (rams w f)) by (apply mlift_ok; by apply as_file_ok).
    unfold mlift at 1, mbind' at 1. unfold uadd. destruct (Z.leb_spec (off + zlen buf) usize_max); [|done]. cbn [rbind].
    rewrite mbind_panic; [done|]. unfold mlift. by rewrite grow_overflow.
Defined.
End kernel.

(** C16: Reading, writing and seeking an open file whose node is a byte array, as
    the files of the RAM file system are, refine a byte array with a cursor: whatever
    the calls, their results are those of the abstract file, and the only panic is a
    write that would make the file longer than [isize::MAX].  Device files are not
    byte arrays (see [framebuffer_seek_panics]), and the memory for a file that grows
    is taken as given. *)
Theorem file_refines W N `{ByteNode W N} (s : FileObj N * W) (a : Abs) (os : list FOp) :
  refines s a → Forall op_ok os → atrace a os (run os s).
Proof.
  intros Hs Hos. revert s a Hs. induction Hos as [|o os Ho Hos IH]; intros s a Hs; [constructor|]. cbn [run].
  destruct o as [buf|buf|off whence].
  - destruct (read_sim s a buf Hs) as (r & s' & a' & -> & Ha & Hs'). econstructor; [done|by apply IH].
  - destruct (write_sim s a buf Hs) as [(r & s' & a' & -> & Ha & Hs')|[-> Hp]]; [econstructor; [done|by apply IH]|].
    destruct a. by constructor.
  - destruct (seek_sim s a off whence Hs Ho) as (r & s' & a' & -> & Ha & Hs'). econstructor; [done|by apply IH].
Qed.

(** A process that opens the framebuffer, seeks past its end and reads makes
    the kernel panic: the length of the transfer underflows. *)
Lemma framebuffer_seek_panics D `{BlockDevice D} `{!Device D} (w : World D LimineFramebuffer) j n c buf :
  the_node j (dev (devs w)) = Ok n → device n = Some (BackendChar c) →
  fb_ok (chars (devs w) c) → fb_length (chars (devs w) c) + 1 < 2 ^ 63 →
  let past := fb_length (chars (devs w) c) + 1 in
  ∃ s', seek past SEEK_SET (File_new (NDev j), w) = Ok (past, s') ∧ read buf s' = Panic ∧ write buf s' = Panic.
Proof.
  intros Hn Hd Hfb Hl past. exists (mkFile (NDev j) past, w). pose proof Hfb as [Hpos _].
  destruct (fb_past_end (chars (devs w) c) buf past Hfb) as [Hr Hw]; [unfold past; lia|]. split_and!.
  - unfold seek, File_new. rewrite (mbind_ok _ _ _ true (mkFile (NDev j) 0, w)).
    2: { unfold ask_vnode. simpl. unfold DevFs.seekable. rewrite Hn. cbn. by rewrite Hd. }
    cbn [negb]. rewrite (mbind_ok _ _ _ 0 (mkFile (NDev j) 0, w)) by done.
    rewrite (mbind_ok _ _ _ 0 (mkFile (NDev j) 0, w)) by done.
    unfold checked_add_i128. rewrite bool_decide_eq_true_2 by (unfold past; lia).
    assert ((0 + past <? 0) || (usize_max <? 0 + past) = false) as ->; [|done].
    repeat zcase; unfold past, usize_max in *; try lia; done.
  - unfold read, mbind', get_offset, on_vnode. cbn. unfold on_devs, on, DevFs.read_unaligned, mbind', node_device.
    rewrite Hn, Hd. unfold on_char. cbn. by rewrite Hr.
  - unfold write, mbind', get_offset, on_vnode. cbn. unfold on_devs, on, DevFs.write_unaligned, mbind', node_device.
    rewrite Hn, Hd. unfold on_char. cbn. by rewrite Hw.
Qed.

(** ** Examples *)

Definition demo_file_world : World (VirtIOBlkDiskDriver MemDisk) LimineFramebuffer :=
  after (vn_create_child (NRam 0 0) "motd" File demo_world) demo_world.

Lemma demo_file_refines : refines (File_new (NRam 0 1), demo_file_world) ([], 0).
Proof.
  assert (∀ g, ram_inv (rams demo_file_world g)) as Hw.
  { assert (world_ok demo_file_world) as [Hok _]; [|exact Hok].
    eapply le_ok; [apply demo_world_ok|].
    assert (vn_create_child (NRam 0 0) "motd" File demo_world = Ok (NRam 0 1, demo_file_world)) as E by done.
    refine (proj1 (node_create (NRam 0 0) "motd" File demo_world _ demo_world_ok _ _ E)); [done|by eexists]. }
  by split_and!.
Qed.

Lemma file_refines_witness :
  atrace ([], 0) [OWrite [104; 105]; OSeek 0 SEEK_SET; ORead [0; 0; 0; 0]]
    (run [OWrite [104; 105]; OSeek 0 SEEK_SET; ORead [0; 0; 0; 0]] (File_new (NRam 0 1), demo_file_world)).
Proof.
  apply (file_refines _ _ (File_new (NRam 0 1), demo_file_world) ([], 0)); [apply demo_file_refines|].
  repeat constructor; simpl; lia.
Defined.

Lemma framebuffer_seek_witness :
  ∃ s', seek 9 SEEK_SET (File_new (NDev 3), demo_world) = Ok (9, s') ∧ read [0] s' = Panic.
Proof.
  destruct (framebuffer_seek_panics _ demo_world 3 (mkDevINode 3 (Some (BackendChar 0)) ∅) 0 [0]) as (s' & E & Er & _).
  - reflexivity.
  - reflexivity.
  - split; vm_compute; discriminate.
  - reflexivity.
  - exists s'. split; [exact E|exact Er].
Defined.
