(* ===== verification/Process.v ===== *)
(** * Processes (src/process.rs, src/memory/virtual_memory.rs)

    A process with its open files, its [mmap] system call, page faults of the
    user and of the kernel, and copying between the kernel and the memory of a
    process.  [prepare_mmap] of the kernel's file systems (src/fs/dev.rs,
    src/devices/char/) is here too, because it makes mappings of UserVM.v. *)

From stdpp Require Import list_tactics.
From S2P Require Import Prelude RBTree FreeSet Bytes PhysMem PageTable KernelVM VmPages FsTypes BlockDevice CharDevice RamFs FakeFs DevFs Vfs KernelFs File UserVM.

(** ** [prepare_mmap] *)

(** [CharDevice::prepare_mmap]. *)
Class CharMmap (C : Type) : Type := {
  cd_prepare_mmap : ∀ {N}, Z → C → res CharDeviceError (MapBacking N);
}.

Definition default_char_mmap {N} : res CharDeviceError (MapBacking N) := Err (CharDeviceError.Other "Nothing to prepare").
Definition default_mmap {N} : res FsError (MapBacking N) := Err FsError.NotImplemented.

(** The framebuffer; [paddr] is the physical address of its memory, which
    [get_phys_addr] finds in the page tables of the kernel. *)
Definition fb_prepare_mmap {N} (paddr : option Z) (offset : Z) (d : LimineFramebuffer) : res CharDeviceError (MapBacking N) :=
  match paddr with
  | None => Err (CharDeviceError.Other "Could not get physical address")
  | Some paddr =>
      if fb_length d <=? offset then Err (CharDeviceError.Other "Offset out of bounds")
      else let? p := uadd paddr offset in Ok (MapBacking.Device p 0)
  end.

#[export] Instance uart_CharMmap : CharMmap UartPl011Driver := {
  cd_prepare_mmap _ _ _ := default_char_mmap;
}.

Section devices.
Context {D C : Type} `{BlockDevice D} `{!Device D} `{CharDevice C} `{!Device C} `{!CharMmap C}.

Definition dev_prepare_mmap {N} (i offset : Z) (s : DevWorld D C) : res FsError (MapBacking N) :=
  let? n := the_node i (dev s) in
  match device n with
  | Some (BackendChar c) =>
      match cd_prepare_mmap offset (chars s c) with
      | Ok b => Ok b
      | Err _ => Err FsError.InvalidOperation
      | Panic => Panic
      end
  | _ => Err FsError.NotImplemented
  end.

#[export] Instance kernel_Mmap : Mmap (World D C) NodeRef := {
  vn_prepare_mmap n offset w :=
    match n with
    | NDev i => dev_prepare_mmap i offset (devs w)
    | _ => default_mmap
    end;
}.
End devices.

(** ** Flags *)

(** [from_bits] of bitflags: the bits that are not flags must be clear. *)
Definition from_bits (all bits : Z) : option Z := if Z.land bits all =? bits then Some bits else None.

Definition PROT_READ : Z := 1.
Definition PROT_WRITE : Z := 2.
Definition PROT_EXECUTE : Z := 4.
Definition PROT_ALL : Z := 7.
Definition MAP_SHARED : Z := 1.
Definition MAP_PRIVATE : Z := 2.
Definition MAP_FIXED : Z := 16.
Definition MAP_ANONYMOUS : Z := 32.
Definition MAP_ALL : Z := 51.

Definition prot_to_page_flags (prot : Z) : Z :=
  let page_flags := 0 in
  let page_flags := if contains prot PROT_WRITE then Z.lor page_flags WRITABLE else page_flags in
  if contains prot PROT_EXECUTE then Z.lor page_flags EXECUTABLE else page_flags.

(** ** Processes *)

Definition minus_one : Z := wrap 64 (-1).

Section process.
Context {W F N TB TL TA TK TF : Type} {HF : Filesystem W F N} {HV : VNode W N} {HM : Mmap W N}.
Context {OB : RBTree fbase TB} {OL : RBTree flength TL} {OA : RBTree (@mbase N) TA}.
Context {OK : RBTree vbase TK} {OFr : RBTree free_key TF}.
(** [Arch::get_kernel_address_space()]. *)
Context (kernel_space : Z).

(** [fd_table] has references to open files; the exit code is a promise. *)
Record Process : Type := mkProcess {
  virtual_memory : VirtualMemory TB TL TA;
  exit_code : option Z;
  pid : Z;
  fd_table : gmap Z Z;
  cwd : option N;
}.

(** Memory, the page cache and the file systems; the kernel's address ranges;
    the open files; the process that runs; what has been printed. *)
Record Machine : Type := mkMachine {
  sys : @System W F N;
  vmes : VirtualMemoryEntryContainer TK TF;
  files : gmap Z (FileObj N);
  next_file : Z;
  proc : Process;
  console : list Z;
}.
Abbreviation KOp A := (M Machine FaultError A).

Definition set_sys (s : @System W F N) (m : Machine) : Machine := mkMachine s (vmes m) (files m) (next_file m) (proc m) (console m).
Definition set_proc (p : Process) (m : Machine) : Machine := mkMachine (sys m) (vmes m) (files m) (next_file m) p (console m).

Definition on_sys {A} (c : M (@System W F N) FaultError A) : KOp A := λ m,
  match c (sys m) with
  | Ok (a, s) => Ok (a, set_sys s m)
  | Err (e, s) => Err (e, set_sys s m)
  | Panic => Panic
  end.

Definition get_file (fd : Z) (p : Process) : option Z := fd_table p !! fd.

Definition sys_mmap (addr length prot flags fd offset : Z) : KOp Z := λ m,
  match from_bits PROT_ALL prot, from_bits MAP_ALL flags with
  | Some prot_flags, Some map_flags =>
      let file :=
        if contains map_flags MAP_ANONYMOUS then Some None
        else match get_file fd (proc m) ≫= (λ i, files m !! i) with
             | Some file => Some (Some (mkFM (vnode file) offset None))
             | None => None
             end in
      match file with
      | None => Ok (minus_one, m)
      | Some mmap_file =>
          let addr := if contains map_flags MAP_FIXED && negb (addr =? 0) then Some addr else None in
          if contains map_flags MAP_SHARED || contains map_flags MAP_PRIVATE then
            let shared := contains map_flags MAP_SHARED in
            match mmap (world (kernel (sys m))) mmap_file length (prot_to_page_flags prot_flags) shared addr (virtual_memory (proc m)) with
            | Ok (return_addr, v) =>
                Ok (return_addr, set_proc (mkProcess v (exit_code (proc m)) (pid (proc m)) (fd_table (proc m)) (cwd (proc m))) m)
            | Err (_, v) =>
                Ok (minus_one, set_proc (mkProcess v (exit_code (proc m)) (pid (proc m)) (fd_table (proc m)) (cwd (proc m))) m)
            | Panic => Panic
            end
          else Ok (0, m)
      end
  | _, _ => Ok (minus_one, m)
  end.

(** ** Page faults *)

(** A page fault of the kernel, at an address of its ranges. *)
Definition on_kernel_pages {A} (c : M (VirtualMemoryEntryContainer TK TF * PhysMem) Waiting A) : KOp A := λ m,
  match c (vmes m, phys (sys m)) with
  | Ok (a, (v, p)) => Ok (a, mkMachine (mkSystem p (page_cache (sys m)) (kernel (sys m))) v (files m) (next_file m) (proc m) (console m))
  | Err (_, (v, p)) => Err (FWaiting, mkMachine (mkSystem p (page_cache (sys m)) (kernel (sys m))) v (files m) (next_file m) (proc m) (console m))
  | Panic => Panic
  end.

(** [handle_page_fault] with the process that runs: an error of the user's page
    fault is unwrapped. *)
Definition page_fault (present : bool) (address : Z) : KOp unit :=
  if address <? USERSPACE_END then λ m,
    match on_sys (handle_page_fault (virtual_memory (proc m)) present address) m with
    | Err (FError _, _) => Panic
    | r => r
    end
  else on_kernel_pages (kernel_fault kernel_space present address).

(** ** Copying *)

Definition get_address_space (m : Machine) : Z := page_table (virtual_memory (proc m)).

Definition user_phys_addr (v : Z) : KOp (option Z) := λ m,
  on_sys (on_phys (get_phys_addr v (get_address_space m))) m.

(** The address of a byte of a process, with its page mapped in: the frame as
    the kernel sees it, and the offset in the page. *)
Definition user_byte_addr (v : Z) : KOp (Z * Z) :=
  let! p := user_phys_addr v in
  let! _ := match p with None => page_fault false v | Some _ => mret tt end in
  let! p := user_phys_addr v in
  match p with
  | None => mfail (FError "Failed to get physical address")
  | Some phys_addr =>
      let! hhdm := on_sys (on_phys (of_phys the_hhdm)) in
      let! kva := mlift (uadd phys_addr hhdm) in
      mret (kva - phys_addr mod PAGE_SIZE, phys_addr mod PAGE_SIZE)
  end.

(** The loops copy at least one byte a turn: the length bounds the turns. *)
Fixpoint copy_to_loop (fuel : nat) (dst : Z) (bytes : list Z) : KOp unit :=
  match fuel with
  | O => mret tt
  | S fuel =>
      match bytes with
      | [] => mret tt
      | _ =>
          let! (a, o) := user_byte_addr dst in
          let page_left := PAGE_SIZE - dst mod PAGE_SIZE in
          let to_copy := Z.min page_left (zlen bytes) in
          let! _ := on_sys (on_phys (set_frame a (λ l, splice l o (sub bytes 0 to_copy)))) in
          let! dst := mlift (uadd dst to_copy) in
          copy_to_loop fuel dst (drop (Z.to_nat to_copy) bytes)
      end
  end.
Definition copy_to_user (dst : Z) (bytes : list Z) : KOp unit := copy_to_loop (length bytes) dst bytes.

Fixpoint copy_from_loop (fuel : nat) (src : Z) (n : Z) : KOp (list Z) :=
  match fuel with
  | O => mret []
  | S fuel =>
      if n =? 0 then mret []
      else
        let! (a, o) := user_byte_addr src in
        let page_left := PAGE_SIZE - src mod PAGE_SIZE in
        let to_copy := Z.min page_left n in
        let! m := mget in
        let head := sub (frame_bytes (words (phys (sys m))) a) o to_copy in
        let! src := mlift (uadd src to_copy) in
        let! rest := copy_from_loop fuel src (n - to_copy) in
        mret (head ++ rest)
  end.
(** The bytes that [copy_from_user] puts into a buffer of [n] bytes. *)
Definition copy_from_user (src : Z) (n : Z) : KOp (list Z) := copy_from_loop (Z.to_nat n) src n.
End process.
