(* ===== verification/UserCopy.v ===== *)
(** * Copying to and from a process (src/memory/virtual_memory.rs)

    [copy_to_user] and [copy_from_user] of Process.v against the memory a
    process sees through its page tables. *)

From stdpp Require Import list_tactics.
From S2P Require Import Prelude RBTree FreeSet Bytes PhysMem PageTable KernelVM VmPages FsTypes BlockDevice CharDevice RamFs FakeFs DevFs Vfs KernelFs File UserVM UserFault Process.

Section copy.
Context (h : Z) (rs : list Entry) (Hmap : map_ok h rs).
Context (H48 : ∀ i e, rs !! i = Some e → entry_type e = USABLE → ebase e + elength e ≤ 2 ^ 48).
Context {W F N TB TL TA TK TF : Type} {HF : Filesystem W F N} {HV : VNode W N}.
Context {OB : RBTree fbase TB} {OL : RBTree flength TL} {OA : RBTree (@mbase N) TA}.
Context {OK : RBTree vbase TK} {OFr : RBTree free_key TF}.
Context (ks : Z).
Abbreviation Mach := (@Machine W F N TB TL TA TK TF).
Implicit Types (m : Mach) (live T : list Z) (A : Z → option Z).

(** The byte at [u] that a process with the mapping [A] sees. *)
Definition user_byte (mem : gmap Z Z) A (u : Z) : option Z :=
  match frame_at A u with
  | Some f => zat (frame_bytes mem (h + f)) (u mod PAGE_SIZE)
  | None => None
  end.
Definition holds (mem : gmap Z Z) A (v : Z) (bytes : list Z) : Prop :=
  ∀ i, 0 ≤ i < zlen bytes → user_byte mem A (v + i) = zat bytes i.

(** [n] bytes from [v] on are mapped, each page to a frame of its own. *)
Record user_range A live T (v n : Z) : Prop := mk_user_range {
  ur_base : 0 ≤ v;
  ur_end : v + n ≤ usize_max;
  ur_mapped i : 0 ≤ i < n → ∃ f, frame_at A (v + i) = Some f ∧ f ∈ live ∧ f ∉ T;
  ur_apart i j : 0 ≤ i < n → 0 ≤ j < n → frame_at A (v + i) = frame_at A (v + j) → (v + i) / PAGE_SIZE = (v + j) / PAGE_SIZE;
}.

Lemma user_range_sub A live T v n k n' : user_range A live T v n → 0 ≤ k → 0 ≤ n' → k + n' ≤ n → user_range A live T (v + k) n'.
Proof.
  intros [Hb He Hm Ha] Hk Hn Hkn. split; [lia|lia|..].
  - intros i Hi. rewrite <-Z.add_assoc. apply Hm. lia.
  - intros i j Hi Hj. rewrite <-!Z.add_assoc. apply Ha; lia.
Qed.

Lemma user_range_drop A live T v n k : user_range A live T v n → 0 ≤ k ≤ n → user_range A live T (v + k) (n - k).
Proof. intros Hr Hk. apply (user_range_sub A live T v n); [done|lia..]. Qed.

Lemma land_page v : Z.land v 0xFFF = v mod PAGE_SIZE.
Proof. change 0xFFF with (Z.ones 12). by rewrite Z.land_ones by lia. Qed.

Lemma lor_page f o : aligned f PAGE_SIZE → 0 ≤ o < PAGE_SIZE → Z.lor f o = f + o.
Proof.
  intros [k ->] Ho. unfold PAGE_SIZE in *. change 4096 with (2 ^ 12) in *. rewrite <-Z.shiftl_mul_pow2 by lia.
  symmetry. apply Z.add_nocarry_lor.
  apply Z.bits_inj'. intros n Hn. rewrite Z.land_spec, Z.bits_0. destruct (Z.lt_ge_cases n 12) as [Hl|Hl].
  - by rewrite Z.shiftl_spec_low.
  - rewrite (Z.bits_above_log2 o n), andb_false_r; [done|lia|]. destruct (decide (o = 0)) as [->|]; [simpl; lia|].
    apply Z.log2_lt_pow2; [lia|]. eapply Z.lt_le_trans; [apply Ho|]. apply Z.pow_le_mono_r; lia.
Qed.

Lemma page_mod_add f o : aligned f PAGE_SIZE → 0 ≤ o < PAGE_SIZE → (f + o) mod PAGE_SIZE = o.
Proof. intros [k ->] Ho. rewrite Z.add_comm, Z.mod_add by done. by apply Z.mod_small. Qed.

Lemma mod_page_bound v : 0 ≤ v mod PAGE_SIZE < PAGE_SIZE.
Proof. by apply Z.mod_pos_bound. Qed.

(** A mapped byte is found without a page fault. *)
Lemma user_byte_addr_run m free live T A v f :
  sys_ok h rs (sys m) free live (get_address_space m) T A → frame_at A v = Some f → f ∈ live →
  user_byte_addr ks v m = Ok ((h + f, v mod PAGE_SIZE), m).
Proof.
  intros Hs Hf Hl. destruct (live_frame h rs Hmap H48 _ _ _ _ (space_phys h rs _ _ _ _ _ _ (proj1 Hs)) Hl) as (Hal & H0 & _ & Hmax).
  pose proof (mod_page_bound v) as Ho. unfold PAGE_SIZE in Hmax, Ho. pose proof (map_high _ _ Hmap).
  assert (Hp : user_phys_addr v m = Ok (Some (f + v mod PAGE_SIZE), m)).
  { unfold user_phys_addr, on_sys, on_phys. rewrite (get_phys_addr_spec h rs Hmap H48 _ _ _ _ _ _ v (proj1 Hs)). unfold frame_at in Hf.
    destruct (A v) as [e|]; [|done]. simpl in *. injection Hf as ->. rewrite land_page, lor_page by done. by destruct m as [[]]. }
  unfold user_byte_addr. rewrite (mbind_ok _ _ _ _ _ Hp). rewrite (mbind_ok _ _ m tt m) by done. rewrite (mbind_ok _ _ _ _ _ Hp).
  rewrite (mbind_ok _ _ m h m).
  2: { unfold on_sys. rewrite (sys_hhdm h rs _ _ _ _ _ _ Hs). by destruct m. }
  rewrite (mbind_ok _ _ _ _ _ (mlift_ok _ _ _ (uadd_ok (f + v mod PAGE_SIZE) h ltac:(unfold PAGE_SIZE in *; lia)))).
  rewrite page_mod_add by done. unfold mret. do 2 f_equal. f_equal. lia.
Qed.

(** Bytes of frames in use that are not in the range are as they were. *)
Definition same_elsewhere (mem mem' : gmap Z Z) A live (v n : Z) : Prop :=
  ∀ g k, g ∈ live → (∀ i, 0 ≤ i < n → frame_at A (v + i) = Some g → (v + i) mod PAGE_SIZE ≠ k) →
    zat (frame_bytes mem' (h + g)) k = zat (frame_bytes mem (h + g)) k.

(** The bytes of a frame after a part of one frame has been written. *)
Lemma write_chunk (s : @System W F N) free live space T A f o chunk :
  sys_ok h rs s free live space T A → f ∈ live → f ∉ T → 0 ≤ o → o + zlen chunk ≤ PAGE_SIZE → Forall is_byte chunk →
  ∃ q, on_phys (set_frame (h + f) (λ l, splice l o chunk)) s = Ok (tt, mkSystem q (page_cache s) (kernel s)) ∧
    sys_ok h rs (mkSystem q (page_cache s) (kernel s)) free live space T A ∧
    ∀ g k, g ∈ live → zat (frame_bytes (words q) (h + g)) k =
      if decide (g = f ∧ o ≤ k < o + zlen chunk) then zat chunk (k - o) else zat (frame_bytes (words (phys s)) (h + g)) k.
Proof.
  intros Hs Hf HfT Ho Hlen Hb. destruct (sys_set_frame h rs Hmap H48 s _ _ _ _ _ f (λ l, splice l o chunk) Hs Hf HfT) as (q & E & Hs' & Hout & Hby).
  exists q. split; [exact E|]. split; [exact Hs'|]. intros g k Hg. destruct (frame_bytes_ok (words (phys s)) (h + f)) as [Hl Hbf].
  destruct (decide (g = f)) as [->|Hne].
  - rewrite Hby by (apply splice_page; [by split|done..]). rewrite zat_splice by lia. repeat case_decide; naive_solver.
  - rewrite decide_False by naive_solver. f_equal.
    apply (frame_bytes_out h rs (phys s) free live [f]); [apply (space_phys h rs _ _ _ _ _ _ (proj1 Hs))|done| |done].
    intros x ->%list_elem_of_singleton. done.
Qed.

(** The first [c] bytes of a range that are on one page. *)
Lemma chunk_frame A live T v n c i :
  user_range A live T v n → 0 ≤ i < n → frame_at A (v + i) = frame_at A v → c = Z.min (PAGE_SIZE - v mod PAGE_SIZE) n → i < c.
Proof.
  intros [Hb He Hm Ha] Hi Hf ->. assert (Hp : (v + i) / PAGE_SIZE = (v + 0) / PAGE_SIZE) by (apply Ha; [lia|lia|by rewrite Z.add_0_r]).
  rewrite Z.add_0_r in Hp. pose proof (Z.div_mod (v + i) PAGE_SIZE ltac:(done)). pose proof (Z.div_mod v PAGE_SIZE ltac:(done)).
  pose proof (mod_page_bound (v + i)). unfold PAGE_SIZE in *. lia.
Qed.

Lemma same_page_frame p free live space T A v i :
  address_space h rs p free live space T A → 0 ≤ i → v mod PAGE_SIZE + i < PAGE_SIZE →
  frame_at A (v + i) = frame_at A v ∧ (v + i) mod PAGE_SIZE = v mod PAGE_SIZE + i.
Proof.
  intros Hs Hi Hlt. pose proof (mod_page_bound v). pose proof (Z.div_mod v PAGE_SIZE ltac:(done)) as Hd.
  assert (Hq : (v + i) / PAGE_SIZE = v / PAGE_SIZE) by (symmetry; apply (Z.div_unique _ _ _ (v mod PAGE_SIZE + i)); lia).
  split; [|symmetry; apply (Z.mod_unique _ _ (v / PAGE_SIZE)); lia].
  unfold frame_at. f_equal. apply (space_page h rs p free live space T A); [exact Hs|]. unfold page_number. by rewrite Hq.
Qed.

Abbreviation with_phys m q := (set_sys (mkSystem q (page_cache (sys m)) (kernel (sys m))) m).

Lemma copy_to_spec fuel m free live T A v bytes :
  sys_ok h rs (sys m) free live (get_address_space m) T A → user_range A live T v (zlen bytes) → Forall is_byte bytes → (length bytes ≤ fuel)%nat →
  ∃ q, copy_to_loop ks fuel v bytes m = Ok (tt, with_phys m q) ∧ sys_ok h rs (sys (with_phys m q)) free live (get_address_space m) T A ∧
    holds (words q) A v bytes ∧ same_elsewhere (words (phys (sys m))) (words q) A live v (zlen bytes).
Proof.
  revert m v bytes. induction fuel as [|fuel IH]; intros m v bytes Hs Hr Hb Hfuel.
  { destruct bytes; [|simpl in *; lia]. exists (phys (sys m)). destruct m as [[p c k] ? ? ? ? ?]. simpl. split; [done|].
    split; [exact Hs|]. split; [intros i Hi; unfold zlen in Hi; simpl in Hi; lia|by intros g k' _ _]. }
  cbn [copy_to_loop]. destruct bytes as [|b0 bs] eqn:Ebs.
  { exists (phys (sys m)). destruct m as [[p c k] ? ? ? ? ?]. simpl. split; [done|].
    split; [exact Hs|]. split; [intros i Hi; unfold zlen in Hi; simpl in Hi; lia|by intros g k' _ _]. }
  assert (Hpos : 0 < zlen (b0 :: bs)) by (rewrite zlen_cons; pose proof (zlen_nonneg bs); lia). rewrite <-Ebs in *. clear b0 bs Ebs.
  pose proof (ur_mapped _ _ _ _ _ Hr 0 ltac:(lia)) as (f & Hf & Hfl & HfT). rewrite Z.add_0_r in Hf.
  rewrite (mbind_ok _ _ _ _ _ (user_byte_addr_run m free live T A v f Hs Hf Hfl)). cbv zeta.
  set (c := Z.min (PAGE_SIZE - v mod PAGE_SIZE) (zlen bytes)). pose proof (mod_page_bound v) as Hvm.
  assert (Hc : 0 < c ≤ zlen bytes ∧ v mod PAGE_SIZE + c ≤ PAGE_SIZE) by (unfold c; lia).
  assert (Hcl : zlen (sub bytes 0 c) = c) by (apply zlen_sub; lia).
  destruct (write_chunk (sys m) free live _ T A f (v mod PAGE_SIZE) (sub bytes 0 c) Hs Hfl HfT) as (q & E & Hs1 & Hw);
    [lia|lia|unfold sub; by apply Forall_take, Forall_drop|]. rewrite Hcl in Hw.
  rewrite (mbind_ok _ _ m tt (with_phys m q)) by (unfold on_sys; by rewrite E).
  pose proof (ur_end _ _ _ _ _ Hr). pose proof (ur_base _ _ _ _ _ Hr).
  rewrite (mbind_ok _ _ _ _ _ (mlift_ok _ _ _ (uadd_ok v c ltac:(lia)))).
  assert (Hlen : zlen (drop (Z.to_nat c) bytes) = zlen bytes - c) by (unfold zlen in *; rewrite length_drop; lia).
  destruct (IH (with_phys m q) (v + c) (drop (Z.to_nat c) bytes)) as (q2 & E2 & Hs2 & Hh & He);
    [exact Hs1|rewrite Hlen; by apply user_range_drop; [|lia]|by apply Forall_drop|rewrite length_drop; unfold zlen in *; lia|].
  exists q2. split; [exact E2|]. split; [exact Hs2|]. rewrite Hlen in He. split.
  - intros i Hi. destruct (Z.lt_ge_cases i c) as [Hic|Hic].
    + destruct (same_page_frame _ _ _ _ _ _ v i (proj1 Hs)) as [Hfi Hoi]; [lia|lia|]. unfold user_byte. rewrite Hfi, Hf, Hoi.
      rewrite He; [|done|].
      * simpl. rewrite Hw by done. rewrite decide_True by (split; [done|lia]). rewrite zat_sub by lia. rewrite decide_True by lia. f_equal. lia.
      * intros j Hj Hfj. exfalso. replace (v + c + j) with (v + (c + j)) in Hfj by lia.
        assert (c + j < c); [|lia]. apply (chunk_frame A live T v (zlen bytes) c); [done|lia|congruence|done].
    + replace (v + i) with (v + c + (i - c)) by lia. rewrite Hh by lia. unfold zat. repeat (zcase; try lia).
      rewrite lookup_drop. f_equal. lia.
  - intros g k Hg Hout. rewrite He.
    + simpl. rewrite Hw by done. rewrite decide_False; [done|]. intros [-> Hk]. apply (Hout (k - v mod PAGE_SIZE)); [lia| |].
      * destruct (same_page_frame _ _ _ _ _ _ v (k - v mod PAGE_SIZE) (proj1 Hs)) as [-> _]; [lia|lia|done].
      * destruct (same_page_frame _ _ _ _ _ _ v (k - v mod PAGE_SIZE) (proj1 Hs)) as [_ ->]; [lia|lia|lia].
    + done.
    + intros i Hi Hfi. replace (v + c + i) with (v + (c + i)) in * by lia. apply Hout; [lia|done].
Qed.

Lemma copy_from_spec fuel m free live T A v n :
  sys_ok h rs (sys m) free live (get_address_space m) T A → user_range A live T v n → 0 ≤ n ≤ Z.of_nat fuel →
  ∃ l, copy_from_loop ks fuel v n m = Ok (l, m) ∧ zlen l = n ∧ holds (words (phys (sys m))) A v l.
Proof.
  revert v n. induction fuel as [|fuel IH]; intros v n Hs Hr Hn; cbn [copy_from_loop].
  { exists []. split; [done|]. split; [unfold zlen; simpl; lia|]. intros i Hi. unfold zlen in Hi. simpl in Hi. lia. }
  zcase. { subst n. exists []. split; [done|]. split; [done|]. intros i Hi. unfold zlen in Hi. simpl in Hi. lia. }
  pose proof (ur_mapped _ _ _ _ _ Hr 0 ltac:(lia)) as (f & Hf & Hfl & HfT). rewrite Z.add_0_r in Hf.
  rewrite (mbind_ok _ _ _ _ _ (user_byte_addr_run m free live T A v f Hs Hf Hfl)). cbv zeta.
  set (c := Z.min (PAGE_SIZE - v mod PAGE_SIZE) n). pose proof (mod_page_bound v) as Hvm.
  assert (Hc : 0 < c ≤ n ∧ v mod PAGE_SIZE + c ≤ PAGE_SIZE) by (unfold c; lia).
  rewrite (mbind_ok _ _ m m m) by done. pose proof (ur_end _ _ _ _ _ Hr). pose proof (ur_base _ _ _ _ _ Hr).
  rewrite (mbind_ok _ _ _ _ _ (mlift_ok _ _ _ (uadd_ok v c ltac:(lia)))).
  destruct (IH (v + c) (n - c)) as (l & E & Hl & Hh); [exact Hs|by apply user_range_drop; [|lia]|lia|].
  rewrite (mbind_ok _ _ _ _ _ E). set (hd := sub (frame_bytes (words (phys (sys m))) (h + f)) (v mod PAGE_SIZE) c).
  destruct (frame_bytes_ok (words (phys (sys m))) (h + f)) as [Hfb _].
  assert (Hhl : zlen hd = c) by (apply zlen_sub; lia). exists (hd ++ l). split; [done|]. split; [rewrite zlen_app; lia|].
  intros i Hi. rewrite zlen_app in Hi. destruct (Z.lt_ge_cases i c) as [Hic|Hic].
  - destruct (same_page_frame _ _ _ _ _ _ v i (proj1 Hs)) as [Hfi Hoi]; [lia|lia|]. unfold user_byte. rewrite Hfi, Hf, Hoi.
    transitivity (zat hd i).
    + unfold hd. rewrite zat_sub by lia. by rewrite decide_True by lia.
    + unfold zat, zlen in *. zcase; [done|]. by rewrite lookup_app_l by lia.
  - replace (v + i) with (v + c + (i - c)) by lia. rewrite Hh by lia. unfold zat, zlen in *. repeat (zcase; try lia).
    rewrite lookup_app_r by lia. f_equal. lia.
Qed.

Lemma holds_unique mem A v l l' : holds mem A v l → holds mem A v l' → zlen l = zlen l' → l = l'.
Proof. intros H1 H2 Hl. apply zat_ext; [done|]. intros k Hk. rewrite <-H1, <-H2 by lia. done. Qed.

(** C28: copying bytes to pages of a process that are mapped succeeds without a
    page fault, changes no other byte of memory in use and no mapping, and
    copying the range back gives the same bytes. *)
Theorem user_copy_roundtrip m free live T A v bytes :
  sys_ok h rs (sys m) free live (get_address_space m) T A → user_range A live T v (zlen bytes) → Forall is_byte bytes →
  ∃ q, copy_to_user ks v bytes m = Ok (tt, with_phys m q) ∧
    sys_ok h rs (sys (with_phys m q)) free live (get_address_space m) T A ∧
    copy_from_user ks v (zlen bytes) (with_phys m q) = Ok (bytes, with_phys m q) ∧
    same_elsewhere (words (phys (sys m))) (words q) A live v (zlen bytes).
Proof.
  intros Hs Hr Hb. destruct (copy_to_spec (length bytes) m free live T A v bytes Hs Hr Hb) as (q & E & Hs' & Hh & He); [done|].
  exists q. split; [exact E|]. split; [exact Hs'|]. split; [|exact He].
  destruct (copy_from_spec (Z.to_nat (zlen bytes)) (with_phys m q) free live T A v (zlen bytes)) as (l & E2 & Hl & Hh2);
    [exact Hs'|done|pose proof (zlen_nonneg bytes); lia|].
  unfold copy_from_user. rewrite E2. by rewrite (holds_unique _ _ _ l bytes Hh2 Hh Hl).
Qed.
End copy.
