(* ===== verification/Syscall.v ===== *)
(** * System calls (src/syscall/)

    The handlers of fs.rs and process.rs on the machine of Process.v, and
    [syscall_handler] with the numbers and registers of aarch64
    (src/arch/aarch64/context.rs).  Buffers of the kernel are assumed to fit
    its heap; [console] has what processes print, not the kernel's own log. *)

From Stdlib Require Import Ascii.
From S2P Require Import Prelude RBTree FreeSet Bytes PhysMem PageTable KernelVM VmPages FsTypes BlockDevice CharDevice RamFs FakeFs DevFs Vfs KernelFs File UserVM UserFault Process UserCopy.

Definition O_CREAT : Z := 64.
Definition EBADF : Z := 9.
Definition ENODEV : Z := 19.
Definition EINVAL : Z := 22.
Definition EIO : Z := 5.
Definition ENOENT : Z := 2.
Definition ENOSPC : Z := 28.
Definition ENOTTY : Z := 25.
Definition EEXIST : Z := 17.
Definition ESPIPE : Z := 29.
Definition EFAULT : Z := 14.
Definition CLOCK_MONOTONIC : Z := 1.
Definition TICKS_HZ : Z := 1000.
Definition AT_FDCWD : Z := -100.
Definition MAX_USER_STRING_LEN : Z := 4096.

Definition errno (code : Z) : Z := wrap 64 (- code).

(** [x as i32] and [x as i64] of an unsigned number. *)
Definition as_signed (w x : Z) : Z := let y := wrap w x in if y <? 2 ^ (w - 1) then y else y - 2 ^ w.

(** ** Registers *)

Definition arg (n : nat) (regs : list Z) : Z := default 0 (regs !! n).
Definition syscall_number (regs : list Z) : Z := arg 8 regs.
Definition set_return_value (ret : Z) (regs : list Z) : list Z := <[0%nat := ret]> regs.
Definition is_user_address (ptr : Z) : bool := Z.land (Z.shiftr ptr 63) 1 =? 0.

(** ** Text *)

Definition to_string (l : list Z) : string := foldr (λ b s, String (ascii_of_nat (Z.to_nat b)) s) EmptyString l.

(** [str::rsplit_once]. *)
Fixpoint rsplit_once (c : ascii) (s : string) : option (string * string) :=
  match s with
  | EmptyString => None
  | String a s =>
      match rsplit_once c s with
      | Some (p, q) => Some (String a p, q)
      | None => if decide (a = c) then Some (EmptyString, s) else None
      end
  end.

Definition starts_with_slash (s : string) : bool := match s with String a _ => bool_decide (a = slash) | EmptyString => false end.

Section syscalls.
Context {W F N TB TL TA TK TF : Type} {HF : Filesystem W F N} {HV : VNode W N} {HM : Mmap W N}.
Context {OB : RBTree fbase TB} {OL : RBTree flength TL} {OA : RBTree (@mbase N) TA}.
Context {OK : RBTree vbase TK} {OFr : RBTree free_key TF}.
Context (ks : Z).
Abbreviation Mach := (@Machine W F N TB TL TA TK TF).
Abbreviation KOp A := (M Mach FaultError A).

(** [.is_ok()] of a copy: only waiting for a frame is not an answer. *)
Definition try_copy {A} (c : KOp A) : KOp (option A) := λ m,
  match c m with
  | Ok (a, m') => Ok (Some a, m')
  | Err (FWaiting, m') => Err (FWaiting, m')
  | Err (FError _, m') => Ok (None, m')
  | Panic => Panic
  end.

(** [vec![0u8; count]]: more than [isize::MAX] bytes are a panic. *)
Definition vec_new (count : Z) : KOp (list Z) :=
  if 2 ^ 63 <=? count then mpanic else mret (zrep count 0).

(** A call on the open file [i]. *)
Definition on_file {A} (i : Z) (c : M (FileObj N * W) FsError A) : KOp (FsError + A) := λ m,
  match files m !! i with
  | None => Panic
  | Some f =>
      let k := kernel (sys m) in
      let put f w := mkMachine (mkSystem (phys (sys m)) (page_cache (sys m)) (mkKernel (vfs k) w)) (vmes m) (<[i := f]> (files m))
                       (next_file m) (proc m) (console m) in
      match c (f, world k) with
      | Ok (a, (f, w)) => Ok (inr a, put f w)
      | Err (e, (f, w)) => Ok (inl e, put f w)
      | Panic => Panic
      end
  end.

Definition fd_lookup (fd : Z) : KOp (option Z) := λ m, Ok (fd_table (proc m) !! fd, m).
Definition set_fd_table (t : gmap Z Z) : KOp unit :=
  mmodify (λ m, set_proc (mkProcess (virtual_memory (proc m)) (exit_code (proc m)) (pid (proc m)) t (cwd (proc m))) m).

(** ** src/syscall/fs.rs *)

(** A turn reads at least one byte: the limit bounds the turns. *)
Fixpoint read_user_string_loop (fuel : nat) (ptr : Z) (result : list Z) : KOp (option (list Z)) :=
  match fuel with
  | O => mret None
  | S fuel =>
      if zlen result <? MAX_USER_STRING_LEN then
        if usize_max <? ptr + zlen result then mret None
        else
          let addr := ptr + zlen result in
          if negb (is_user_address addr) then mret None
          else
            let page_left := PAGE_SIZE - addr mod PAGE_SIZE in
            let count := Z.min page_left (MAX_USER_STRING_LEN - zlen result) in
            let! chunk := try_copy (copy_from_user ks addr count) in
            match chunk with
            | None => mret None
            | Some chunk =>
                match position_nul chunk with
                | Some nul =>
                    let result := result ++ sub chunk 0 nul in
                    mret (if utf8_valid result then Some result else None)
                | None => read_user_string_loop fuel ptr (result ++ chunk)
                end
            end
      else mret None
  end.
Definition read_user_string (ptr : Z) : KOp (option (list Z)) :=
  read_user_string_loop (S (Z.to_nat MAX_USER_STRING_LEN)) ptr [].

(** The check of a buffer's two ends. *)
Definition user_buffer (buf_ptr count : Z) : KOp bool :=
  if negb (is_user_address buf_ptr) then mret false
  else if 0 <? count then
    let! e := mlift (uadd buf_ptr count) in
    mret (is_user_address (e - 1))
  else mret true.

Definition do_sys_read (fd buf_ptr count : Z) : KOp Z :=
  let! buf := vec_new count in
  let! user := user_buffer buf_ptr count in
  if negb user then mret minus_one
  else
    let! file := fd_lookup (as_signed 32 fd) in
    match file with
    | Some file =>
        let! r := on_file file (read buf) in
        match r with
        | inr (n, buf) =>
            let! bytes := mlift (slice buf 0 n) in
            let! c := try_copy (copy_to_user ks buf_ptr bytes) in
            mret (match c with Some _ => n | None => minus_one end)
        | inl _ => mret minus_one
        end
    | None => mret minus_one
    end.

Definition write_file (fd buf_ptr count : Z) (buf : list Z) : KOp Z :=
  let! file := fd_lookup (as_signed 32 fd) in
  match file with
  | Some file =>
      let! user := user_buffer buf_ptr count in
      if negb user then mret minus_one
      else
        let! r := on_file file (write buf) in
        mret (match r with inr n => n | inl _ => minus_one end)
  | None => mret minus_one
  end.

Definition do_sys_write (fd buf_ptr count : Z) : KOp Z :=
  let! _ := vec_new count in
  let! buf := try_copy (copy_from_user ks buf_ptr count) in
  match buf with
  | None => mret minus_one
  | Some buf =>
      if (fd =? 1) || (fd =? 2) then
        let! user := user_buffer buf_ptr count in
        if negb user then mret minus_one
        else if utf8_valid buf then
          let! _ := mmodify (λ m, mkMachine (sys m) (vmes m) (files m) (next_file m) (proc m) (console m ++ buf)) in
          mret count
        else write_file fd buf_ptr count buf
      else write_file fd buf_ptr count buf
  end.

(** Reading the file systems. *)
Definition ask_kernel {A} (f : Kernel W F N → res FsError A) : KOp (FsError + A) := λ m,
  match f (kernel (sys m)) with
  | Ok a => Ok (inr a, m)
  | Err e => Ok (inl e, m)
  | Panic => Panic
  end.

Definition the_root : KOp N := λ m, mlift (unwrap (root (vfs (kernel (sys m))))) m.

Definition create_child (parent : N) (name : string) : KOp (FsError + N) := λ m,
  let k := kernel (sys m) in
  let put w := set_sys (mkSystem (phys (sys m)) (page_cache (sys m)) (mkKernel (vfs k) w)) m in
  match vn_create_child parent name FsTypes.File (world k) with
  | Ok (n, w) => Ok (inr n, put w)
  | Err (e, w) => Ok (inl e, put w)
  | Panic => Panic
  end.

(** The node the path starts from, [None] for a bad descriptor. *)
Definition start_node (dirfd : Z) (pathname : string) : KOp (option N) :=
  if starts_with_slash pathname then let! r := the_root in mret (Some r)
  else if dirfd =? AT_FDCWD then
    let! m := mget in
    match cwd (proc m) with
    | Some n => mret (Some n)
    | None => let! r := the_root in mret (Some r)
    end
  else
    let! file := fd_lookup dirfd in
    match file with
    | None => mret None
    | Some file => let! m := mget in let! f := mlift (unwrap (files m !! file)) in mret (Some (vnode f))
    end.

Definition create_file (start : N) (pathname : string) : KOp (option N) :=
  let split :=
    match rsplit_once slash pathname with
    | Some (parent_path, name) => if decide (name = EmptyString) then None else Some (parent_path, name)
    | None => Some (EmptyString, pathname)
    end in
  match split with
  | None => mret None
  | Some (parent_path, name) =>
      let! parent :=
        (if decide (parent_path = EmptyString) then mret (inr start)
         else ask_kernel (traverse_path start parent_path)) in
      match parent with
      | inr parent =>
          let! r := create_child parent name in
          mret (match r with inr n => Some n | inl _ => None end)
      | inl _ => mret None
      end
  end.

(** [fd = 3; while fd_table.contains_key(&fd) { fd += 1 }]; the table bounds the
    turns. *)
Fixpoint free_fd (fuel : nat) (t : gmap Z Z) (fd : Z) : Z :=
  match fuel with
  | O => fd
  | S fuel => match t !! fd with Some _ => free_fd fuel t (fd + 1) | None => fd end
  end.
Definition lowest_fd (t : gmap Z Z) : Z := free_fd (size t) t 3.

Definition install_file (n : N) : KOp Z := λ m,
  let fd := lowest_fd (fd_table (proc m)) in
  let p := proc m in
  Ok (wrap 64 fd, mkMachine (sys m) (vmes m) (<[next_file m := File_new n]> (files m)) (next_file m + 1)
        (mkProcess (virtual_memory p) (exit_code p) (pid p) (<[fd := next_file m]> (fd_table p)) (cwd p)) (console m)).

Definition do_sys_openat (dirfd pathname_ptr flags mode : Z) : KOp Z :=
  let! pathname := read_user_string pathname_ptr in
  match pathname with
  | None => mret minus_one
  | Some bytes =>
      let pathname := to_string bytes in
      let! start := start_node dirfd pathname in
      match start with
      | None => mret minus_one
      | Some start =>
          let! found := ask_kernel (traverse_path start pathname) in
          let! n :=
            match found with
            | inr n => mret (Some n)
            | inl FsError.NotFound => if negb (Z.land flags O_CREAT =? 0) then create_file start pathname else mret None
            | inl _ => mret None
            end in
          match n with
          | None => mret minus_one
          | Some n => install_file n
          end
      end
  end.

Definition do_sys_close (fd : Z) : KOp Z :=
  let! m := mget in
  match fd_table (proc m) !! fd with
  | Some _ => let! _ := set_fd_table (delete fd (fd_table (proc m))) in mret 0
  | None => mret minus_one
  end.

Definition ioctl_errno_from_fs_error (err : FsError) : Z :=
  match err with
  | FsError.InvalidInput | FsError.PathMalformed => errno EINVAL
  | FsError.InvalidOperation | FsError.NotImplemented => errno ENOTTY
  | FsError.NotFound => errno ENOENT
  | FsError.NoSpace => errno ENOSPC
  | FsError.WriteError | FsError.ReadError | FsError.Corrupted _ | FsError.Other _ => errno EIO
  | FsError.AlreadyExists => errno EEXIST
  end.

Definition do_sys_ioctl (fd request arg : Z) : KOp Z :=
  let! file := fd_lookup fd in
  match file with
  | None => mret (errno EBADF)
  | Some file =>
      let! r := on_file file (ioctl request arg) in
      mret (match r with
            | inr ret => ret
            | inl FsError.NotFound => errno ENODEV
            | inl err => ioctl_errno_from_fs_error err
            end)
  end.

Definition do_sys_lseek (fd offset whence : Z) : KOp Z :=
  if (fd =? 1) || (fd =? 2) then mret (errno ESPIPE)
  else
    let! file := fd_lookup fd in
    match file with
    | None => mret (errno EBADF)
    | Some file =>
        let! r := on_file file (seek offset whence) in
        mret (match r with inr new_offset => new_offset | inl _ => errno EINVAL end)
    end.

(** ** src/syscall/process.rs *)

(** [Promise::set]. *)
Definition sys_exit (regs : list Z) : KOp Z :=
  let exit := as_signed 32 (arg 0 regs) in
  let! m := mget in
  let p := proc m in
  match exit_code p with
  | Some _ => mpanic
  | None =>
      let! _ := mmodify (set_proc (mkProcess (virtual_memory p) (Some exit) (pid p) (fd_table p) (cwd p))) in
      mret 0
  end.

Definition sys_getpid : KOp Z := λ m, Ok (pid (proc m), m).
Definition sys_clone : KOp Z := mret 0.
Definition sys_unimplemented : KOp Z := mret minus_one.

(** The milliseconds to sleep, or what the call returns. *)
Definition sys_nanosleep (regs : list Z) : KOp (Z + Z) :=
  let req := arg 0 regs in
  if usize_max <? req + 15 then mret (inl (errno EFAULT))
  else if negb (is_user_address req) || negb (is_user_address (req + 15)) then mret (inl (errno EFAULT))
  else
    let! bytes := try_copy (copy_from_user ks req 16) in
    match bytes with
    | None => mret (inl (errno EFAULT))
    | Some bytes =>
        let tv_sec := as_signed 64 (le_val (sub bytes 0 8)) in
        let tv_nsec := as_signed 64 (le_val (sub bytes 8 8)) in
        if (tv_sec <? 0) || negb ((0 <=? tv_nsec) && (tv_nsec <? 1000000000)) then mret (inl (errno EINVAL))
        else mret (inr (saturating_add (saturating_mul tv_sec 1000) (div_ceil tv_nsec 1000000)))
    end.

(** [global_ticks] are the ticks of the first core. *)
Definition sys_clock_gettime (global_ticks : Z) (regs : list Z) : KOp Z :=
  if negb (arg 0 regs =? CLOCK_MONOTONIC) then mret (errno EINVAL)
  else
    let timespec_ptr := arg 1 regs in
    let seconds := global_ticks / TICKS_HZ in
    let nanos := global_ticks mod TICKS_HZ * 1000000000 / TICKS_HZ in
    if is_user_address timespec_ptr then
      let! e := mlift (uadd timespec_ptr 15) in
      if is_user_address e then
        let! r := try_copy (copy_to_user ks timespec_ptr (le_bytes 8 seconds ++ le_bytes 8 nanos)) in
        mret (match r with Some _ => 0 | None => errno EFAULT end)
      else mret (errno EFAULT)
    else mret (errno EFAULT).

(** ** src/syscall/mod.rs *)

(** What becomes of the thread: it goes on, it sleeps, or it has exited. *)
Inductive Next : Type :=
| Resume
| Asleep (ms : Z)
| Exited.

Definition return_to (regs : list Z) (c : KOp Z) : KOp (list Z * Next) :=
  let! ret := c in
  mret (set_return_value ret regs, Resume).

Definition syscall_handler (global_ticks : Z) (regs : list Z) : KOp (list Z * Next) :=
  let num := syscall_number regs in
  let a0 := arg 0 regs in
  let a1 := arg 1 regs in
  let a2 := arg 2 regs in
  let a3 := arg 3 regs in
  let a4 := arg 4 regs in
  let a5 := arg 5 regs in
  if num =? 63 then return_to regs (do_sys_read a0 a1 a2)
  else if num =? 64 then return_to regs (do_sys_write a0 a1 a2)
  else if num =? 29 then return_to regs (do_sys_ioctl (as_signed 32 a0) a1 a2)
  else if num =? 56 then return_to regs (do_sys_openat (as_signed 32 a0) a1 a2 a3)
  else if num =? 57 then return_to regs (do_sys_close (as_signed 32 a0))
  else if num =? 62 then return_to regs (do_sys_lseek (as_signed 32 a0) (as_signed 64 a1) (as_signed 32 a2))
  else if num =? 220 then return_to regs sys_clone
  else if (num =? 59) || (num =? 79) || (num =? 73) || (num =? 48) || (num =? 72) || (num =? 34) || (num =? 35) then
    return_to regs sys_unimplemented
  else if num =? 101 then
    let! r := sys_nanosleep regs in
    match r with
    | inr ms => mret (set_return_value 0 regs, Asleep ms)
    | inl err => mret (set_return_value err regs, Resume)
    end
  else if num =? 113 then return_to regs (sys_clock_gettime global_ticks regs)
  else if num =? 93 then
    let! ret := sys_exit regs in
    mret (set_return_value ret regs, Exited)
  else if num =? 172 then return_to regs sys_getpid
  else if num =? 222 then return_to regs (sys_mmap a0 a1 (wrap 32 a2) (wrap 32 a3) (as_signed 32 a4) a5)
  else mpanic.
End syscalls.

(** ** Descriptors *)

Lemma free_fd_run fuel t fd :
  let r := free_fd fuel t fd in
  fd ≤ r ≤ fd + Z.of_nat fuel ∧ (∀ x, fd ≤ x < r → is_Some (t !! x)) ∧ (t !! r = None ∨ r = fd + Z.of_nat fuel).
Proof.
  revert fd. induction fuel as [|fuel IH]; intros fd; cbn [free_fd]; [cbv zeta; split; [lia|]; split; [lia|]; right; lia|].
  destruct (t !! fd) as [i|] eqn:E; [|cbv zeta; split; [lia|]; split; [lia|by left]].
  destruct (IH (fd + 1)) as (H1 & H2 & H3). cbv zeta. split; [lia|]. split.
  - intros x Hx. destruct (decide (x = fd)) as [->|]; [by rewrite E|]. apply H2. lia.
  - destruct H3 as [|]; [by left|right; lia].
Qed.

(** The descriptor of a new file is the lowest from 3 on that is not in use. *)
Lemma lowest_fd_spec t :
  t !! lowest_fd t = None ∧ 3 ≤ lowest_fd t ≤ 3 + Z.of_nat (size t) ∧ ∀ x, 3 ≤ x < lowest_fd t → is_Some (t !! x).
Proof.
  destruct (free_fd_run (size t) t 3) as (H1 & H2 & H3). fold (lowest_fd t) in *. split_and!; [|lia|lia|done].
  destruct H3 as [|Hr]; [done|]. destruct (t !! lowest_fd t) as [i|] eqn:E; [exfalso|done].
  assert (Hsub : list_to_set (seqZ 3 (Z.of_nat (size t) + 1)) ⊆ dom t).
  { intros x Hx%elem_of_list_to_set%elem_of_seqZ. apply elem_of_dom. destruct (decide (x = lowest_fd t)) as [->|]; [by rewrite E|]. apply H2. lia. }
  apply subseteq_size in Hsub. rewrite size_list_to_set, length_seqZ, size_dom in Hsub by apply NoDup_seqZ. lia.
Qed.

Section proofs.
Context {W F N TB TL TA TK TF : Type} {HF : Filesystem W F N} {HV : VNode W N} {HM : Mmap W N}.
Context {OB : RBTree fbase TB} {OL : RBTree flength TL} {OA : RBTree (@mbase N) TA}.
Context {OK : RBTree vbase TK} {OFr : RBTree free_key TF}.
Context (ks : Z).
Abbreviation Mach := (@Machine W F N TB TL TA TK TF).
Implicit Types (m : Mach).

Definition fds m : gmap Z Z := fd_table (proc m).

Lemma is_user_spec p : 0 ≤ p ≤ usize_max → is_user_address p = (p <? 2 ^ 63).
Proof.
  intros Hp. unfold is_user_address. rewrite Z.shiftr_div_pow2 by lia. change 1 with (Z.ones 1). rewrite Z.land_ones by lia.
  unfold usize_max in Hp. zcase.
  - rewrite Z.div_small by lia. done.
  - assert (p / 2 ^ 63 = 1) as ->; [|done]. symmetry. apply (Z.div_unique p (2 ^ 63) 1 (p - 2 ^ 63)); lia.
Qed.

(** A buffer is accepted if it is in the lower half of the address space. *)
Lemma user_buffer_run m buf count :
  0 ≤ buf ≤ usize_max → 0 ≤ count < 2 ^ 63 → user_buffer buf count m = Ok (bool_decide (buf < 2 ^ 63 ∧ buf + count ≤ 2 ^ 63), m).
Proof.
  intros Hb Hc. unfold user_buffer. rewrite is_user_spec by done. destruct (Z.ltb_spec buf (2 ^ 63)) as [Hlt|Hge]; cbn [negb].
  2: { by rewrite bool_decide_eq_false_2 by lia. }
  zcase; [|by rewrite bool_decide_eq_true_2 by lia].
  rewrite (mbind_ok _ _ _ _ _ (mlift_ok _ _ _ (uadd_ok buf count ltac:(unfold usize_max; lia)))).
  rewrite is_user_spec by (unfold usize_max; lia). unfold mret. f_equal. f_equal. zcase; [by rewrite bool_decide_eq_true_2 by lia|by rewrite bool_decide_eq_false_2 by lia].
Qed.

(** A number that is not one of the calls of aarch64, a second [exit] and a read of
    2^63 bytes stop the kernel. *)
Definition numbers : list Z := [63; 64; 29; 56; 57; 62; 220; 59; 79; 73; 48; 72; 34; 35; 101; 113; 93; 172; 222].

Lemma unknown_number_panics ticks regs m : syscall_number regs ∉ numbers → syscall_handler ks ticks regs m = Panic.
Proof.
  intros Hn. unfold syscall_handler. repeat (zcase; [destruct Hn as []; subst; unfold numbers; set_solver|]). done.
Qed.

Lemma second_exit_panics regs c m : exit_code (proc m) = Some c → sys_exit regs m = Panic.
Proof. intros Hc. unfold sys_exit. rewrite (mbind_ok _ _ m m m) by done. cbv zeta. by rewrite Hc. Qed.

Lemma large_read_panics fd buf count m : 2 ^ 63 ≤ count → do_sys_read ks fd buf count m = Panic.
Proof. intros Hc. unfold do_sys_read, vec_new. by zcase; [|lia]. Qed.

(** A descriptor that is not open is an error of every call, and the machine is
    as it was. *)
Lemma bad_fd m fd buf count :
  fds m !! as_signed 32 fd = None → 0 ≤ buf ≤ usize_max → 0 ≤ count < 2 ^ 63 →
  do_sys_read ks fd buf count m = Ok (minus_one, m) ∧
  do_sys_close (as_signed 32 fd) m = Ok (minus_one, m) ∧
  (∀ request a, do_sys_ioctl (as_signed 32 fd) request a m = Ok (errno EBADF, m)) ∧
  (∀ off whence, as_signed 32 fd ≠ 1 → as_signed 32 fd ≠ 2 → do_sys_lseek (as_signed 32 fd) off whence m = Ok (errno EBADF, m)).
Proof.
  intros Hfd Hb Hc. unfold fds in Hfd.
  assert (Hl : fd_lookup (as_signed 32 fd) m = Ok (None, m) (E := FaultError * Mach)) by (unfold fd_lookup; by rewrite Hfd). split_and!.
  - unfold do_sys_read, vec_new. zcase; [lia|]. rewrite (mbind_ok _ _ m (zrep count 0) m) by done.
    rewrite (mbind_ok _ _ _ _ _ (user_buffer_run m buf count Hb Hc)). case_bool_decide; [|done]. cbn [negb]. by rewrite (mbind_ok _ _ _ _ _ Hl).
  - unfold do_sys_close. rewrite (mbind_ok _ _ m m m) by done. by rewrite Hfd.
  - intros request a. unfold do_sys_ioctl. by rewrite (mbind_ok _ _ _ _ _ Hl).
  - intros off whence H1 H2. unfold do_sys_lseek. repeat (zcase; [done|]). cbn [orb]. by rewrite (mbind_ok _ _ _ _ _ Hl).
Qed.
End proofs.

(** ** Reading and writing files *)

Section files.
Context (h : Z) (rs : list Entry) (Hmap : map_ok h rs).
Context (H48 : ∀ i e, rs !! i = Some e → entry_type e = USABLE → ebase e + elength e ≤ 2 ^ 48).
Context {W F N TB TL TA TK TF : Type} {HF : Filesystem W F N} {HV : VNode W N} {HM : Mmap W N} {HB : ByteNode W N}.
Context {OB : RBTree fbase TB} {OL : RBTree flength TL} {OA : RBTree (@mbase N) TA}.
Context {OK : RBTree vbase TK} {OFr : RBTree free_key TF}.
Context (ks : Z).
Abbreviation Mach := (@Machine W F N TB TL TA TK TF).
Implicit Types (m : Mach) (live T : list Z) (A : Z → option Z).

(** The machine with new memory, a new world and a new state of one open file. *)
Definition io_state m (q : PhysMem) (w : W) (i : Z) (f : FileObj N) : Mach :=
  mkMachine (mkSystem q (page_cache (sys m)) (mkKernel (vfs (kernel (sys m))) w)) (vmes m) (<[i := f]> (files m)) (next_file m) (proc m) (console m).

(** [fd] is open on the node [n], whose bytes are [data], at the position [off]. *)
Record open_at m (fd i : Z) (n : N) (data : list Z) (off : Z) : Prop := mk_open_at {
  oa_fd : fds m !! as_signed 32 fd = Some i;
  oa_file : files m !! i = Some (mkFile n off);
  oa_data : bn_contents n (world (kernel (sys m))) = Some data;
  oa_off : 0 ≤ off;
}.

Lemma lookup_fd m fd i n data off :
  open_at m fd i n data off → fd_lookup (as_signed 32 fd) m = Ok (Some i, m) (E := FaultError * Mach).
Proof. intros [Hfd _ _ _]. unfold fd_lookup. unfold fds in Hfd. by rewrite Hfd. Qed.

Lemma read_run m i n data off buf :
  files m !! i = Some (mkFile n off) → bn_contents n (world (kernel (sys m))) = Some data → 0 ≤ off →
  let k := Z.max 0 (Z.min (zlen buf) (zlen data - off)) in
  off + k ≤ usize_max →
  ∃ w, on_file i (read buf) m = Ok (inr (k, splice buf 0 (sub data off k)), io_state m (phys (sys m)) w i (mkFile n (off + k))) ∧
    bn_contents n w = Some data.
Proof.
  intros Hf Hd Ho k Hk. destruct (bn_read n _ data off buf Hd Ho) as (w & E & Hd' & _). fold k in E. exists w. split; [|done].
  unfold on_file, io_state. rewrite Hf. unfold read. rewrite (mbind_ok _ _ _ off (mkFile n off, world (kernel (sys m)))) by done.
  rewrite (mbind_ok _ _ _ (k, splice buf 0 (sub data off k)) (mkFile n off, w)) by (unfold on_vnode; cbn [vnode]; by rewrite E).
  by rewrite (mbind_ok _ _ _ _ _ (mlift_ok _ _ _ (uadd_ok off k ltac:(lia)))).
Qed.

Lemma write_run m i n data off buf :
  files m !! i = Some (mkFile n off) → bn_contents n (world (kernel (sys m))) = Some data → 0 ≤ off → bn_ok (world (kernel (sys m))) →
  off + zlen buf ≤ isize_max →
  ∃ w data', on_file i (write buf) m = Ok (inr (zlen buf), io_state m (phys (sys m)) w i (mkFile n (off + zlen buf))) ∧
    bn_contents n w = Some data' ∧ written data off buf data' ∧ bn_ok w.
Proof.
  intros Hf Hd Ho Hok Hk. destruct (bn_write n _ data off buf Hok Hd Ho Hk) as (w & data' & E & Hd' & Hw & Hok'). exists w, data'. split; [|done].
  unfold on_file, io_state. rewrite Hf. unfold write. rewrite (mbind_ok _ _ _ off (mkFile n off, world (kernel (sys m)))) by done.
  rewrite (mbind_ok _ _ _ (zlen buf) (mkFile n off, w)) by (unfold on_vnode; cbn [vnode]; by rewrite E). pose proof (zlen_nonneg buf).
  by rewrite (mbind_ok _ _ _ _ _ (mlift_ok _ _ _ (uadd_ok off (zlen buf) ltac:(unfold isize_max, usize_max in *; lia)))).
Qed.

Lemma try_copy_ok {B} (c : M Mach FaultError B) m a m' : c m = Ok (a, m') → try_copy c m = Ok (Some a, m').
Proof. intros E. unfold try_copy. by rewrite E. Qed.

(** [read]: the bytes of the file from the position on are in the buffer. *)
Lemma sys_read_spec m free live T A fd buf count i n data off :
  sys_ok h rs (sys m) free live (get_address_space m) T A → open_at m fd i n data off →
  0 ≤ count < 2 ^ 63 → 0 ≤ buf < 2 ^ 63 → buf + count ≤ 2 ^ 63 →
  let k := Z.max 0 (Z.min count (zlen data - off)) in
  off + k ≤ usize_max → user_range A live T buf k → Forall is_byte (sub data off k) →
  ∃ q w, do_sys_read ks fd buf count m = Ok (k, io_state m q w i (mkFile n (off + k))) ∧
    sys_ok h rs (sys (io_state m q w i (mkFile n (off + k)))) free live (get_address_space m) T A ∧
    bn_contents n w = Some data ∧ holds h (words q) A buf (sub data off k).
Proof.
  intros Hs Hop Hc Hb He k Hk Hr Hby. unfold do_sys_read, vec_new. zcase; [lia|]. rewrite (mbind_ok _ _ m (zrep count 0) m) by done.
  rewrite (mbind_ok _ _ _ _ _ (user_buffer_run m buf count ltac:(unfold usize_max; lia) Hc)). rewrite bool_decide_eq_true_2 by lia. cbn [negb].
  rewrite (mbind_ok _ _ _ _ _ (lookup_fd _ _ _ _ _ _ Hop)). destruct Hop as [_ Hf Hd Ho].
  assert (Hz : zlen (zrep count 0) = count) by (apply zlen_rep; lia).
  destruct (read_run m i n data off (zrep count 0) Hf Hd Ho) as (w & E & Hd'); [by rewrite Hz|]. rewrite Hz in E. fold k in E.
  rewrite (mbind_ok _ _ _ _ _ E). set (m1 := io_state m (phys (sys m)) w i (mkFile n (off + k))).
  assert (Hkl : 0 ≤ k ≤ count) by (unfold k; pose proof (zlen_nonneg data); lia).
  assert (Hsl : zlen (sub data off k) = k).
  { destruct (decide (k = 0)) as [->|]; [done|]. apply zlen_sub; [lia|lia|]. unfold k in *. lia. }
  rewrite (mbind_ok _ _ m1 (sub data off k) m1).
  2: { apply mlift_ok. rewrite slice_ok; [|lia|lia|rewrite zlen_splice; lia]. f_equal. rewrite Z.sub_0_r.
       pose proof (sub_splice_same (zrep count 0) 0 (sub data off k)) as Hx. rewrite Hsl in Hx. apply Hx; lia. }
  destruct (copy_to_spec h rs Hmap H48 ks (length (sub data off k)) m1 free live T A buf (sub data off k)) as (q & E2 & Hs2 & Hh & _);
    [exact Hs|by rewrite Hsl|done|done|].
  rewrite (mbind_ok _ _ _ _ _ (try_copy_ok _ _ _ _ E2)). exists q, w. split; [done|]. split; [exact Hs2|]. done.
Qed.

(** [write]: the bytes in the buffer are written to the file at the position. *)
Lemma sys_write_spec m free live T A fd buf count i n data off :
  sys_ok h rs (sys m) free live (get_address_space m) T A → open_at m fd i n data off → bn_ok (world (kernel (sys m))) →
  fd ≠ 1 → fd ≠ 2 → 0 ≤ count < 2 ^ 63 → 0 ≤ buf < 2 ^ 63 → buf + count ≤ 2 ^ 63 → off + count ≤ isize_max → user_range A live T buf count →
  ∃ l w data', do_sys_write ks fd buf count m = Ok (count, io_state m (phys (sys m)) w i (mkFile n (off + count))) ∧
    zlen l = count ∧ holds h (words (phys (sys m))) A buf l ∧ bn_contents n w = Some data' ∧ written data off l data' ∧ bn_ok w.
Proof.
  intros Hs Hop Hok H1 H2 Hc Hb He Hk Hr. unfold do_sys_write, vec_new. zcase; [lia|]. rewrite (mbind_ok _ _ m (zrep count 0) m) by done.
  destruct (copy_from_spec h rs Hmap H48 ks (Z.to_nat count) m free live T A buf count Hs Hr ltac:(lia)) as (l & E & Hl & Hh).
  rewrite (mbind_ok _ _ _ _ _ (try_copy_ok _ _ _ _ E)). repeat (zcase; [done|]). cbn [orb]. unfold write_file.
  rewrite (mbind_ok _ _ _ _ _ (lookup_fd _ _ _ _ _ _ Hop)).
  rewrite (mbind_ok _ _ _ _ _ (user_buffer_run m buf count ltac:(unfold usize_max; lia) Hc)). rewrite bool_decide_eq_true_2 by lia. cbn [negb].
  destruct Hop as [_ Hf Hd Ho]. destruct (write_run m i n data off l Hf Hd Ho Hok) as (w & data' & E2 & Hd' & Hw & Hok'); [lia|].
  rewrite (mbind_ok _ _ _ _ _ E2). rewrite Hl. by exists l, w, data'.
Qed.

Lemma sys_seek_spec m fd i n data off pos :
  open_at m fd i n data off → as_signed 32 fd ≠ 1 → as_signed 32 fd ≠ 2 → 0 ≤ pos ≤ usize_max →
  do_sys_lseek (as_signed 32 fd) pos SEEK_SET m = Ok (pos, io_state m (phys (sys m)) (world (kernel (sys m))) i (mkFile n pos)).
Proof.
  intros Hop H1 H2 Hp. unfold do_sys_lseek. repeat (zcase; [done|]). cbn [orb]. rewrite (mbind_ok _ _ _ _ _ (lookup_fd _ _ _ _ _ _ Hop)).
  destruct Hop as [_ Hf Hd Ho]. set (w := world (kernel (sys m))).
  assert (E : seek pos SEEK_SET (mkFile n off, w) = Ok (pos, (mkFile n pos, w))).
  { unfold seek. rewrite (mbind_ok _ _ _ true (mkFile n off, w)) by (unfold ask_vnode; cbn [vnode]; by rewrite (bn_seekable n w data Hd)). cbn [negb].
    rewrite (mbind_ok _ _ _ off (mkFile n off, w)) by done. rewrite (mbind_ok _ _ _ 0 (mkFile n off, w)) by done.
    unfold checked_add_i128, usize_max in *. rewrite bool_decide_eq_true_2 by lia. repeat (zcase; [lia|]). done. }
  unfold on_file. unfold mbind' at 1. rewrite Hf. cbn zeta. fold w. by rewrite E.
Qed.

Lemma open_after m q w fd i n data data' off off' :
  open_at m fd i n data off → bn_contents n w = Some data' → 0 ≤ off' → open_at (io_state m q w i (mkFile n off')) fd i n data' off'.
Proof. intros [H1 H2 H3 H4] Hd Ho. split; [done|by simpl; rewrite lookup_insert_eq|done|done]. Qed.

Lemma holds_bytes mem A v l : holds h mem A v l → Forall is_byte l.
Proof.
  intros Hh. apply Forall_lookup. intros k x Hx. specialize (Hh (Z.of_nat k)). pose proof (lookup_lt_Some _ _ _ Hx).
  assert (Hz : zat l (Z.of_nat k) = Some x) by (unfold zat; zcase; [lia|]; by rewrite Nat2Z.id).
  rewrite Hz in Hh. specialize (Hh ltac:(unfold zlen; lia)). unfold user_byte in Hh. destruct (frame_at A _) as [f|]; [|done].
  destruct (frame_bytes_ok mem (h + f)) as [_ Hb]. unfold zat in Hh. destruct (_ <? 0); [done|]. by eapply (Forall_lookup_1 _ _ _ _ Hb).
Qed.

Lemma written_back data off l data' : 0 ≤ off → written data off l data' → sub data' off (zlen l) = l.
Proof.
  intros Ho [Hlen Hw]. pose proof (zlen_nonneg l). apply zat_ext; [apply zlen_sub; lia|]. intros k Hk. rewrite zlen_sub in Hk by lia.
  rewrite zat_sub by lia. rewrite decide_True by lia. rewrite Hw by lia. rewrite decide_True by lia. f_equal. lia.
Qed.

(** C31: a process that writes [count] bytes from a buffer to an open file whose
    node is a byte array, both buffers being mapped, seeks
    back and reads [count] bytes into another buffer finds there the bytes it
    wrote; each call returns what it should. *)
Theorem file_io_roundtrip m free live T A fd buf buf2 count i n data off :
  sys_ok h rs (sys m) free live (get_address_space m) T A → open_at m fd i n data off → bn_ok (world (kernel (sys m))) →
  fd ≠ 1 → fd ≠ 2 → as_signed 32 fd ≠ 1 → as_signed 32 fd ≠ 2 → 0 ≤ count < 2 ^ 63 → off + count < 2 ^ 63 →
  0 ≤ buf < 2 ^ 63 → buf + count ≤ 2 ^ 63 → user_range A live T buf count →
  0 ≤ buf2 < 2 ^ 63 → buf2 + count ≤ 2 ^ 63 → user_range A live T buf2 count →
  ∃ l m1 m2 m3, zlen l = count ∧ holds h (words (phys (sys m))) A buf l ∧
    do_sys_write ks fd buf count m = Ok (count, m1) ∧
    do_sys_lseek (as_signed 32 fd) off SEEK_SET m1 = Ok (off, m2) ∧
    do_sys_read ks fd buf2 count m2 = Ok (count, m3) ∧
    sys_ok h rs (sys m3) free live (get_address_space m) T A ∧ holds h (words (phys (sys m3))) A buf2 l.
Proof.
  intros Hs Hop Hok H1 H2 H3 H4 Hc Hoff Hb He Hr Hb2 He2 Hr2. pose proof (oa_off _ _ _ _ _ _ Hop) as Ho. assert (H63 : 2 ^ 63 < usize_max) by done.
  destruct (sys_write_spec m free live T A fd buf count i n data off) as (l & w & data' & E1 & Hl & Hh & Hd & Hw & _); [done..|unfold isize_max; lia|done|].
  set (m1 := io_state m (phys (sys m)) w i (mkFile n (off + count))) in E1.
  assert (Hop1 : open_at m1 fd i n data' (off + count)) by (eapply open_after; [done|done|lia]).
  pose proof (sys_seek_spec m1 fd i n data' (off + count) off Hop1 H3 H4 ltac:(lia)) as E2.
  set (m2 := io_state m1 _ _ _ _) in E2. assert (Hop2 : open_at m2 fd i n data' off) by (eapply open_after; [done|done|lia]).
  assert (Hlen : off + count ≤ zlen data') by (destruct Hw as [-> _]; lia). pose proof (written_back data off l data' Ho Hw) as Hback. rewrite Hl in Hback.
  assert (Hk : Z.max 0 (Z.min count (zlen data' - off)) = count) by lia.
  destruct (sys_read_spec m2 free live T A fd buf2 count i n data' off) as (q & w3 & E3 & Hs3 & _ & Hh3); rewrite ?Hk, ?Hback; [exact Hs|done|done|done|done|lia|done|by apply (holds_bytes (words (phys (sys m))) A buf)|].
  rewrite Hk in *. rewrite Hback in *. exists l, m1, m2, (io_state m2 q w3 i (mkFile n (off + count))). by split_and!.
Qed.
End files.

(** ** Pointers of a process *)

Section pointers.
Context (h : Z) (rs : list Entry) (Hmap : map_ok h rs).
Context (H48 : ∀ i e, rs !! i = Some e → entry_type e = USABLE → ebase e + elength e ≤ 2 ^ 48).
Context {W F N TB TL TA TK TF : Type} {HF : Filesystem W F N} {HV : VNode W N} {HM : Mmap W N}.
Context {OB : RBTree fbase TB} {OL : RBTree flength TL} {OA : RBTree (@mbase N) TA} {HA : RBTreeSpec Z.le OA}.
Context {OK : RBTree vbase TK} {OFr : RBTree free_key TF} {HOK : RBTreeSpec Z.le OK} {HOF : RBTreeSpec kle OFr}.
Context (ks : Z).
Abbreviation Mach := (@Machine W F N TB TL TA TK TF).
Implicit Types (m : Mach) (live T : list Z) (A : Z → option Z).

(** A page that is not mapped. *)
Lemma user_phys_none m free live T A v :
  address_space h rs (phys (sys m)) free live (get_address_space m) T A → A v = None → user_phys_addr v m = Ok (None, m).
Proof.
  intros Hs Hv. unfold user_phys_addr, on_sys, on_phys. rewrite (get_phys_addr_spec h rs Hmap H48 _ _ _ _ _ _ v Hs), Hv. by destruct m as [[]].
Qed.

(** A pointer of a process to an address it has not mapped stops the kernel. *)
Lemma bad_pointer_panics m free live T A v :
  sys_ok h rs (sys m) free live (get_address_space m) T A → vm_ok (virtual_memory (proc m)) → 0 ≤ v < USERSPACE_END → A v = None →
  (∀ e, e ∈ rb_elems (active_set (virtual_memory (proc m))) → ¬ inside e (Z.land v 0xFFFFFFFFFFFFF000)) →
  user_byte_addr ks v m = Panic.
Proof.
  intros Hs Hvm Hv HAv Hn. unfold user_byte_addr. rewrite (mbind_ok _ _ _ _ _ (user_phys_none _ _ _ _ _ _ (proj1 Hs) HAv)).
  apply mbind_panic. unfold page_fault. zcase; [|lia]. destruct (find_mapping_miss _ _ Hvm Hn) as [e E].
  unfold on_sys, handle_page_fault. cbv zeta. rewrite (mbind_err _ _ _ e (sys m)) by (by rewrite E).
  unfold find_mapping in E. destruct (rb_get _ _) as [mp|]; [|by injection E as <-].
  destruct (uadd (mbase mp) (mlength mp)) as [x|x|] eqn:Eu; [|unfold uadd in Eu; by destruct (_ <=? _)|done].
  cbn [rbind] in E. destruct (x <=? _); [by injection E as <-|done].
Qed.

(** a process can replace a page of the kernel.  [write] copies from the
    pointer before it checks it: for a pointer into a range the kernel uses,
    the copy finds the page not mapped in the tables of the process, the page
    fault maps the page in the tables of the kernel to a new frame, whatever it
    was mapped to before, and then the call returns -1. *)
Lemma write_replaces_kernel_page m free live T A TK' AK fd kptr count e :
  sys_ok h rs (sys m) free live (get_address_space m) T A → address_space h rs (phys (sys m)) free live ks TK' AK →
  (∀ g, g ∈ T → g ∉ TK') → vm_inv (vmes m) → e ∈ rb_elems (KernelVM.active (vmes m)) → vbase e ≤ kptr < vend e →
  USERSPACE_END ≤ kptr ≤ usize_max → A kptr = None → 0 < count < 2 ^ 63 →
  (∃ m' f free' live' TK'' AK', do_sys_write ks fd kptr count m = Ok (minus_one, m') ∧ (f ∉ live) ∧
     address_space h rs (phys (sys m')) free' live' ks TK'' AK' ∧
     ∀ u, AK' u = if decide (page_number 3 u = page_number 3 kptr) then Some (leaf_entry f (Z.lor PRESENT (Z.lor WRITABLE CACHEABLE))) else AK u) ∨
  (∃ m', do_sys_write ks fd kptr count m = Err (FWaiting, m')).
Proof.
  intros Hs Hk Hdis Hvi He Hin Hkp HAk Hc. unfold do_sys_write, vec_new. zcase; [lia|]. rewrite (mbind_ok _ _ m (zrep count 0) m) by done.
  assert (Hcf : copy_from_user ks kptr count = (let! (a, o) := user_byte_addr ks kptr in
      let page_left := PAGE_SIZE - kptr mod PAGE_SIZE in
      let to_copy := Z.min page_left count in
      let! m := mget in
      let head := sub (frame_bytes (words (phys (sys m))) a) o to_copy in
      let! src := mlift (uadd kptr to_copy) in
      let! rest := copy_from_loop ks (Z.to_nat count - 1) src (count - to_copy) in
      mret (head ++ rest))).
  { unfold copy_from_user. destruct (Z.to_nat count) as [|k] eqn:Ek; [lia|]. cbn [copy_from_loop]. zcase; [lia|]. by assert ((S k - 1)%nat = k) as -> by lia. }
  rewrite Hcf. clear Hcf. unfold user_byte_addr. pose proof (user_phys_none _ _ _ _ _ _ (proj1 Hs) HAk) as E0.
  assert (Hpf : page_fault ks false kptr m = on_kernel_pages (kernel_fault ks false kptr) m) by (unfold page_fault; zcase; [lia|done]).
  destruct (kernel_fault_spec h rs Hmap H48 (vmes m) (phys (sys m)) free live ks TK' AK kptr Hvi Hk ltac:(unfold USERSPACE_END in *; lia))
    as [[Hno _]|[_ [(f & p & free' & new & AK' & E & Hf & Hk' & Hu & Hout)|(p & E)]]]; [by destruct (Hno e He)| |].
  2: { right. set (m1 := mkMachine (mkSystem p (page_cache (sys m)) (kernel (sys m))) (vmes m) (files m) (next_file m) (proc m) (console m)).
       exists m1. apply mbind_err. unfold try_copy. rewrite (mbind_err _ _ m FWaiting m1); [done|].
       rewrite (mbind_ok _ _ _ _ _ E0). apply mbind_err. rewrite Hpf. unfold on_kernel_pages. by rewrite E. }
  left. set (m1 := mkMachine (mkSystem p (page_cache (sys m)) (kernel (sys m))) (vmes m) (files m) (next_file m) (proc m) (console m)).
  assert (E1 : page_fault ks false kptr m = Ok (tt, m1)) by (rewrite Hpf; unfold on_kernel_pages; by rewrite E).
  assert (Hu1 : user_phys_addr kptr m1 = Ok (None, m1)).
  { apply (user_phys_none m1 free' (new ++ f :: live) T A kptr); [|done].
    apply (space_other h rs (phys (sys m)) p free free' live (new ++ f :: live) (get_address_space m) T A (new ++ TK'));
      [apply Hs|by apply (space_phys h rs p free' (new ++ f :: live) ks (new ++ TK') AK')|set_solver| |exact Hout].
    pose proof (space_nodup h rs _ _ _ _ _ _ Hk') as Hnd. apply NoDup_app in Hnd as (_ & Hd & _).
    intros g [Hg|Hg]%elem_of_app; split.
    - apply elem_of_app; by left.
    - intros HgT. apply (Hd g Hg). right. by apply (space_tables h rs _ _ _ _ _ _ g (proj1 Hs)).
    - apply elem_of_app; right; right. by apply (space_tables h rs _ _ _ _ _ _ g Hk).
    - intros HgT. by apply (Hdis g). }
  exists m1, f, free', (new ++ f :: live), (new ++ TK'), AK'. split; [|split; [done|split; [exact Hk'|exact Hu]]].
  rewrite (mbind_ok _ _ _ None m1); [done|]. unfold try_copy.
  rewrite (mbind_err _ _ m (FError "Failed to get physical address") m1); [done|].
  rewrite (mbind_ok _ _ _ _ _ E0), (mbind_ok _ _ _ _ _ E1). by rewrite (mbind_ok _ _ _ _ _ Hu1).
Qed.
End pointers.
