(* ===== verification/Elf.v ===== *)
(** * The ELF loader (src/elf.rs)

    Parsing and checking the headers of an executable (aarch64), and mapping
    its segments into a process. *)

From stdpp Require Import list_tactics.
From S2P Require Import Prelude RBTree FreeSet Bytes PhysMem PageTable KernelVM VmPages FsTypes BlockDevice CharDevice RamFs FakeFs DevFs Vfs KernelFs File UserVM UserFault Process.

Definition EI_MAG : list Z := [0x7f; 69; 76; 70].
Definition EI_CLASS_64 : Z := 2.
Definition EI_DATA : Z := 1.
Definition EI_VERSION : Z := 1.
Definition EI_OSABI_SYSTEM_V : Z := 0.
Definition E_TYPE_EXECUTABLE : Z := 2.
Definition E_MACHINE : Z := 0xB7.
Definition E_FLAGS : Z := 0.
Definition E_VERSION : Z := 1.
Definition E_EHSIZE : Z := 64.
Definition E_PHENTSIZE : Z := 56.

Definition PT_LOAD : Z := 1.
Definition PT_NOTE : Z := 4.
Definition PT_TLS : Z := 7.
Definition PT_GNU_EH_FRAME : Z := 0x6474e550.
Definition PT_GNU_STACK : Z := 0x6474e551.
Definition PT_GNU_RELRO : Z := 0x6474e552.
Definition PT_GNU_PROPERTY : Z := 0x6474e553.

Definition PF_R : Z := 4.
Definition PF_W : Z := 2.
Definition PF_X : Z := 1.
Definition PF_ALL : Z := 7.

Record ElfHeader : Type := mkElfHeader {
  ei_mag : list Z;
  ei_class : Z;
  ei_data : Z;
  ei_version : Z;
  ei_osabi : Z;
  ei_abiversion : Z;
  ei_pad : list Z;
  e_type : Z;
  e_machine : Z;
  e_version : Z;
  e_entry : Z;
  e_phoff : Z;
  e_shoff : Z;
  e_flags : Z;
  e_ehsize : Z;
  e_phentsize : Z;
  e_phnum : Z;
  e_shentsize : Z;
  e_shnum : Z;
  e_shstrndx : Z;
}.

Record ProgramHeader : Type := mkProgramHeader {
  p_type : Z;
  p_flags : Z;
  p_offset : Z;
  p_vaddr : Z;
  p_paddr : Z;
  p_filesz : Z;
  p_memsz : Z;
  p_align : Z;
}.

Inductive ElfError : Type :=
| EHFileReadError
| EHInvalidMagic
| EHUnsupportedClass
| EHUnsupportedDataEncoding
| EHUnsupportedVersion
| EHUnsupportedOsAbi
| EHUnsupportedType
| EHUnsupportedMachine
| EHInvalidElfHeaderSize
| EHInvalidProgramHeaderSize
| EHInvalidProgramHeader
| EHInvalidFlags
| PHFileReadError
| PHInvalidMemSize
| PHUnsupportedType
| MmapError
| InodeKeyError.

(** [size_of::<ElfHeader>()] and [size_of::<ProgramHeader>()]: the structs are
    packed. *)
Definition size_of_ElfHeader : Z := 64.
Definition size_of_ProgramHeader : Z := 56.

(** [buffer[i]]. *)
Definition at_byte {E} (buffer : list Z) (i : Z) : res E Z := unwrap (zat buffer i).

Definition parse_u16 {E} (buffer : list Z) (offset : Z) : res E Z := get_le 2 buffer offset.
Definition parse_u32 {E} (buffer : list Z) (offset : Z) : res E Z := get_le 4 buffer offset.
Definition parse_u64 {E} (buffer : list Z) (offset : Z) : res E Z := get_le 8 buffer offset.

Definition ElfHeader_parse {E} (buffer : list Z) : res E ElfHeader :=
  let? m0 := at_byte buffer 0 in
  let? m1 := at_byte buffer 1 in
  let? m2 := at_byte buffer 2 in
  let? m3 := at_byte buffer 3 in
  let? class := at_byte buffer 4 in
  let? data := at_byte buffer 5 in
  let? version := at_byte buffer 6 in
  let? osabi := at_byte buffer 7 in
  let? abiversion := at_byte buffer 8 in
  let? type := parse_u16 buffer 16 in
  let? machine := parse_u16 buffer 18 in
  let? eversion := parse_u32 buffer 20 in
  let? entry := parse_u64 buffer 24 in
  let? phoff := parse_u64 buffer 32 in
  let? shoff := parse_u64 buffer 40 in
  let? flags := parse_u32 buffer 48 in
  let? ehsize := parse_u16 buffer 52 in
  let? phentsize := parse_u16 buffer 54 in
  let? phnum := parse_u16 buffer 56 in
  let? shentsize := parse_u16 buffer 58 in
  let? shnum := parse_u16 buffer 60 in
  let? shstrndx := parse_u16 buffer 62 in
  Ok (mkElfHeader [m0; m1; m2; m3] class data version osabi abiversion (zrep 7 0) type machine eversion entry phoff shoff flags
        ehsize phentsize phnum shentsize shnum shstrndx).

Definition ProgramHeader_parse {E} (buffer : list Z) (offset : Z) : res E ProgramHeader :=
  let? type := parse_u32 buffer offset in
  let? flags := parse_u32 buffer (offset + 4) in
  let? off := parse_u64 buffer (offset + 8) in
  let? vaddr := parse_u64 buffer (offset + 16) in
  let? paddr := parse_u64 buffer (offset + 24) in
  let? filesz := parse_u64 buffer (offset + 32) in
  let? memsz := parse_u64 buffer (offset + 40) in
  let? align := parse_u64 buffer (offset + 48) in
  Ok (mkProgramHeader type flags off vaddr paddr filesz memsz align).

Definition validate_elf_header (header : ElfHeader) : res ElfError unit :=
  if decide (ei_mag header ≠ EI_MAG) then Err EHInvalidMagic
  else if negb (ei_class header =? EI_CLASS_64) then Err EHUnsupportedClass
  else if negb (ei_data header =? EI_DATA) then Err EHUnsupportedDataEncoding
  else if negb (ei_version header =? EI_VERSION) then Err EHUnsupportedVersion
  else if negb (ei_osabi header =? EI_OSABI_SYSTEM_V) then Err EHUnsupportedOsAbi
  else if negb (e_type header =? E_TYPE_EXECUTABLE) then Err EHUnsupportedType
  else if negb (e_machine header =? E_MACHINE) then Err EHUnsupportedMachine
  else if negb (e_version header =? E_VERSION) then Err EHUnsupportedVersion
  else if negb (e_ehsize header =? size_of_ElfHeader) then Err EHInvalidElfHeaderSize
  else if negb (e_phentsize header =? size_of_ProgramHeader) then Err EHInvalidProgramHeaderSize
  else if negb (e_flags header =? E_FLAGS) then Err EHInvalidFlags
  else Ok tt.

Section load.
Context {W N TB TL TA : Type} {HV : VNode W N} {HM : Mmap W N}.
Context {OB : RBTree fbase TB} {OL : RBTree flength TL} {OA : RBTree (@mbase N) TA}.
Abbreviation VM := (VirtualMemory TB TL TA).
Abbreviation LOp A := (M (W * VM) ElfError A).

(** [read_unaligned] of a whole buffer of [n] bytes. *)
Definition read_exact (file : N) (off n : Z) (e : ElfError) : LOp (list Z) := λ '(w, v),
  match vn_read_unaligned file off (zrep n 0) w with
  | Ok ((read_size, buffer), w) => if read_size <? n then Err (e, (w, v)) else Ok (buffer, (w, v))
  | Err (_, w) => Err (e, (w, v))
  | Panic => Panic
  end.

Definition try_mmap (file : option (FileMapping N)) (length prot : Z) (shared : bool) (base : option Z) : LOp unit := λ '(w, v),
  match mmap w file length prot shared base v with
  | Ok (_, v) => Ok (tt, (w, v))
  | Err (_, v) => Err (MmapError, (w, v))
  | Panic => Panic
  end.

Definition load_segment (file : N) (ph : ProgramHeader) : LOp unit :=
  if p_type ph =? PT_LOAD then
    let memsz := p_memsz ph in
    let filesz := p_filesz ph in
    let vaddr := p_vaddr ph in
    let offset := p_offset ph in
    match from_bits PF_ALL (p_flags ph) with
    | None => mfail EHInvalidProgramHeader
    | Some page_permissions =>
        let prot := 0 in
        let prot := if contains page_permissions PF_W then Z.lor prot WRITABLE else prot in
        let prot := if contains page_permissions PF_X then Z.lor prot EXECUTABLE else prot in
        if negb (vaddr mod PAGE_SIZE =? offset mod PAGE_SIZE) then mfail EHInvalidProgramHeader
        else if memsz <? filesz then mfail PHInvalidMemSize
        else
          let vaddr_rounded := Z.land vaddr 0xFFFFFFFFFFFFF000 in
          let offset_rounded := Z.land offset 0xFFFFFFFFFFFFF000 in
          let! padding := mlift (usub offset offset_rounded) in
          let! map_size := mlift (uadd memsz padding) in
          let! file_length := mlift (uadd filesz padding) in
          let! length := mlift (umul (div_ceil map_size PAGE_SIZE) PAGE_SIZE) in
          try_mmap (Some (mkFM file offset_rounded (Some file_length))) length prot false (Some vaddr_rounded)
    end
  else if (p_type ph =? PT_NOTE) || (p_type ph =? PT_GNU_EH_FRAME) || (p_type ph =? PT_GNU_STACK) ||
          (p_type ph =? PT_GNU_RELRO) || (p_type ph =? PT_GNU_PROPERTY) || (p_type ph =? PT_TLS) then mret tt
  else mfail PHUnsupportedType.

(** [for i in 0..phnum], from [i] on. *)
Fixpoint load_loop (file : N) (phoff : Z) (count : nat) (i : Z) : LOp unit :=
  match count with
  | O => mret tt
  | S count =>
      let! o := mlift (umul i E_PHENTSIZE) in
      let! off := mlift (uadd phoff o) in
      let! ph_buffer := read_exact file off E_PHENTSIZE PHFileReadError in
      let! ph := mlift (ProgramHeader_parse ph_buffer 0) in
      let! _ := load_segment file ph in
      load_loop file phoff count (i + 1)
  end.

Definition load (file : N) : LOp Z :=
  let! header_buffer := read_exact file 0 E_EHSIZE EHFileReadError in
  let! header := mlift (ElfHeader_parse header_buffer) in
  let! _ := mlift (validate_elf_header header) in
  let! _ := load_loop file (e_phoff header) (Z.to_nat (e_phnum header)) 0 in
  mret (e_entry header).
End load.

(** ** The layout of the headers *)

(** The widths of the fields, in the order of the packed structs. *)
Definition elf_widths : list nat := replicate 16 1%nat ++ [2; 2; 4; 8; 8; 8; 4; 2; 2; 2; 2; 2; 2]%nat.
Definition ph_widths : list nat := [4; 4; 8; 8; 8; 8; 8; 8]%nat.

Definition elf_fields (h : ElfHeader) : list Z :=
  ei_mag h ++ [ei_class h; ei_data h; ei_version h; ei_osabi h; ei_abiversion h] ++ ei_pad h ++
  [e_type h; e_machine h; e_version h; e_entry h; e_phoff h; e_shoff h; e_flags h; e_ehsize h; e_phentsize h;
   e_phnum h; e_shentsize h; e_shnum h; e_shstrndx h].
Definition ph_fields (ph : ProgramHeader) : list Z :=
  [p_type ph; p_flags ph; p_offset ph; p_vaddr ph; p_paddr ph; p_filesz ph; p_memsz ph; p_align ph].

Definition elf_bytes (h : ElfHeader) : list Z := encode elf_widths (elf_fields h).
Definition ph_bytes (ph : ProgramHeader) : list Z := encode ph_widths (ph_fields ph).

(** Each field fits its width; the padding is zero. *)
Definition elf_fits (h : ElfHeader) : Prop :=
  length (ei_mag h) = 4%nat ∧ ei_pad h = zrep 7 0 ∧ Forall2 fits elf_widths (elf_fields h).
Definition ph_fits (ph : ProgramHeader) : Prop := Forall2 fits ph_widths (ph_fields ph).

Lemma at_byte_get {E} l i : 0 ≤ i < zlen l → @at_byte E l i = get_le 1 l i.
Proof.
  intros Hi. rewrite get_le_sub by lia. unfold at_byte, zat, sub. destruct (Z.ltb_spec i 0); [lia|]. unfold zlen in Hi.
  destruct (lookup_lt_is_Some_2 l (Z.to_nat i)) as [x Hx]; [lia|]. rewrite Hx. simpl. rewrite <-(take_drop_middle _ _ _ Hx) at 1.
  rewrite drop_app_length' by (rewrite length_take; lia). simpl. f_equal. lia.
Qed.

(** The header whose fields, in order, are [l]. *)
Definition header_of (l : list Z) : ElfHeader :=
  let f k := nth k l 0 in
  mkElfHeader [f 0%nat; f 1%nat; f 2%nat; f 3%nat] (f 4%nat) (f 5%nat) (f 6%nat) (f 7%nat) (f 8%nat) (zrep 7 0)
    (f 16%nat) (f 17%nat) (f 18%nat) (f 19%nat) (f 20%nat) (f 21%nat) (f 22%nat) (f 23%nat) (f 24%nat) (f 25%nat)
    (f 26%nat) (f 27%nat) (f 28%nat).
Definition ph_of (l : list Z) : ProgramHeader :=
  let f k := nth k l 0 in
  mkProgramHeader (f 0%nat) (f 1%nat) (f 2%nat) (f 3%nat) (f 4%nat) (f 5%nat) (f 6%nat) (f 7%nat).

Ltac field ws k w := rewrite (get_field_at ws k w) by (done || reflexivity); cbn [rbind].

Lemma elf_parse_spec {E} l : (64 ≤ length l)%nat → @ElfHeader_parse E l = Ok (header_of (decode elf_widths l)).
Proof.
  intros Hl. unfold ElfHeader_parse, parse_u16, parse_u32, parse_u64. rewrite !at_byte_get by (unfold zlen; lia).
  do 9 (let k := match goal with |- context [rbind (get_le _ _ ?k) _] => k end in
        let n := eval vm_compute in (Z.to_nat k) in field elf_widths n 1%nat).
  field elf_widths 16%nat 2%nat. field elf_widths 17%nat 2%nat. field elf_widths 18%nat 4%nat.
  field elf_widths 19%nat 8%nat. field elf_widths 20%nat 8%nat. field elf_widths 21%nat 8%nat.
  field elf_widths 22%nat 4%nat. field elf_widths 23%nat 2%nat. field elf_widths 24%nat 2%nat.
  field elf_widths 25%nat 2%nat. field elf_widths 26%nat 2%nat. field elf_widths 27%nat 2%nat.
  field elf_widths 28%nat 2%nat. done.
Qed.

Lemma ph_parse_spec {E} l : (56 ≤ length l)%nat → @ProgramHeader_parse E l 0 = Ok (ph_of (decode ph_widths l)).
Proof.
  intros Hl. unfold ProgramHeader_parse, parse_u32, parse_u64.
  field ph_widths 0%nat 4%nat. field ph_widths 1%nat 4%nat. field ph_widths 2%nat 8%nat. field ph_widths 3%nat 8%nat.
  field ph_widths 4%nat 8%nat. field ph_widths 5%nat 8%nat. field ph_widths 6%nat 8%nat. field ph_widths 7%nat 8%nat. done.
Qed.

(** the bytes of a header in the packed layout of the format parse back to
    the header, whatever follows them; and the program header read from any
    56 bytes has fields within their widths and is laid out as those bytes. *)
Lemma elf_header_roundtrip (h : ElfHeader) (ph : ProgramHeader) (rest buffer : list Z) :
  elf_fits h → ph_fits ph → Forall is_byte buffer → zlen buffer = 56 →
  @ElfHeader_parse ElfError (elf_bytes h ++ rest) = Ok h ∧
  @ProgramHeader_parse ElfError (ph_bytes ph ++ rest) 0 = Ok ph ∧
  ∃ ph', @ProgramHeader_parse ElfError buffer 0 = Ok ph' ∧ ph_fits ph' ∧ ph_bytes ph' = buffer.
Proof.
  intros (Hm & Hp & Hf) Hph Hb Hl. split_and!.
  - rewrite elf_parse_spec.
    2: { rewrite length_app. unfold elf_bytes. rewrite length_encode by (by apply Forall2_length in Hf). vm_compute (sum_list _). lia. }
    unfold elf_bytes. rewrite decode_encode by done. destruct h; simpl in *. subst.
    destruct ei_mag0 as [|? [|? [|? [|? [|]]]]]; done.
  - rewrite ph_parse_spec.
    2: { rewrite length_app. unfold ph_bytes. rewrite length_encode by (by apply Forall2_length in Hph). vm_compute (sum_list _). lia. }
    unfold ph_bytes. rewrite decode_encode by done. by destruct ph.
  - unfold zlen in Hl. rewrite ph_parse_spec by lia. eexists. split; [done|].
    assert (E : ph_fields (ph_of (decode ph_widths buffer)) = decode ph_widths buffer) by done.
    unfold ph_fits, ph_bytes. rewrite E. split; [apply decode_fits; [done|]; simpl; lia|].
    rewrite encode_decode by (done || (simpl; lia)). apply take_ge. simpl. lia.
Qed.

(** ** What loading does *)

Section load_proofs.
Context {W N TB TL TA : Type} {HV : VNode W N} {HBN : ByteNode W N} {HM : Mmap W N}.
Context {OB : RBTree fbase TB} {OL : RBTree flength TL} {OA : RBTree (@mbase N) TA}.
Context {HB : RBTreeSpec Z.le OB} {HL : RBTreeSpec Z.le OL} {HA : RBTreeSpec Z.le OA}.
Abbreviation VM := (VirtualMemory TB TL TA).
Implicit Types (ph : ProgramHeader) (v : VM) (data : list Z).

Definition is_load ph : Prop := p_type ph = PT_LOAD.
#[export] Instance is_load_dec ph : Decision (is_load ph) := decide_rel (=) _ _.

Definition padding ph : Z := p_offset ph mod PAGE_SIZE.

(** The pages of a segment, backed by the file from the page of its offset on
    and by zeros after the bytes the file has for it. *)
Definition segment (n : N) ph : Mapping N :=
  mkMapping (MapBacking.File (mkFM n (p_offset ph - padding ph) (Some (p_filesz ph + padding ph))))
    (div_ceil (p_memsz ph + padding ph) PAGE_SIZE * PAGE_SIZE)
    (Z.lor (if contains (p_flags ph) PF_W then WRITABLE else 0) (if contains (p_flags ph) PF_X then EXECUTABLE else 0))
    false (p_vaddr ph - p_vaddr ph mod PAGE_SIZE).
Definition segments (n : N) (phs : list ProgramHeader) : list (Mapping N) := segment n <$> filter is_load phs.

(** The headers the loader takes. *)
Definition ph_valid ph : Prop :=
  p_type ph ∈ [PT_LOAD; PT_NOTE; PT_GNU_EH_FRAME; PT_GNU_STACK; PT_GNU_RELRO; PT_GNU_PROPERTY; PT_TLS] ∧
  (is_load ph → Z.land (p_flags ph) PF_ALL = p_flags ph ∧ p_vaddr ph mod PAGE_SIZE = p_offset ph mod PAGE_SIZE ∧
     p_filesz ph ≤ p_memsz ph).

(** A segment that is not empty and whose pages end below the last two of the
    address space. *)
Definition ph_small ph : Prop := is_load ph → 0 < p_memsz ph ∧ p_vaddr ph + p_memsz ph + 2 * PAGE_SIZE ≤ usize_max.

(** The entry of the table at offset [off], if the file has it. *)
Definition header_at data (off : Z) : option ProgramHeader :=
  if off + 56 <=? zlen data then Some (ph_of (decode ph_widths (sub data off 56))) else None.
Definition table data (off : Z) (count : nat) : list (option ProgramHeader) :=
  (λ i : nat, header_at data (off + 56 * Z.of_nat i)) <$> seq 0 count.

(** All the headers are there and valid, and their segments are in user space,
    apart from each other and from what is mapped. *)
Definition placed (n : N) v (hs : list (option ProgramHeader)) : Prop :=
  ∃ phs, hs = Some <$> phs ∧ Forall ph_valid phs ∧
    (∀ m, m ∈ segments n phs → USERSPACE_START ≤ mbase m ∧ mend m ≤ USERSPACE_END) ∧
    pairwise apart (segments n phs ++ rb_elems (active_set v)).

Definition executable (h : ElfHeader) : Prop :=
  ei_mag h = EI_MAG ∧ ei_class h = EI_CLASS_64 ∧ ei_data h = EI_DATA ∧ ei_version h = EI_VERSION ∧
  ei_osabi h = EI_OSABI_SYSTEM_V ∧ e_type h = E_TYPE_EXECUTABLE ∧ e_machine h = E_MACHINE ∧ e_version h = E_VERSION ∧
  e_ehsize h = 64 ∧ e_phentsize h = 56 ∧ e_flags h = E_FLAGS.

Lemma validate_spec h : validate_elf_header h = Ok tt ∧ executable h ∨ (∃ e, validate_elf_header h = Err e) ∧ ¬ executable h.
Proof.
  unfold validate_elf_header, executable, size_of_ElfHeader, size_of_ProgramHeader.
  destruct (decide (ei_mag h ≠ EI_MAG)) as [Hm|Hm%dec_stable]; [right; split; [eauto|tauto]|].
  repeat (zcase; cbn [negb]; [|right; split; [eauto|tauto]]). left. tauto.
Qed.

#[local] Instance apart_sym' : Symmetric (@apart N).
Proof. unfold apart. intros ??. lia. Qed.

(** A range is free if it is in user space and apart from the mappings. *)
Lemma range_free_apart v (m : Mapping N) : vm_ok v → 0 < mlength m →
  range_free v (mbase m) (mlength m) ↔
  USERSPACE_START ≤ mbase m ∧ mend m ≤ USERSPACE_END ∧ Forall (apart m) (rb_elems (active_set v)).
Proof.
  intros [_ Hr _ Hc] Hl. unfold range_free. setoid_rewrite Hc. unfold user_address, inside, apart, mend. rewrite Forall_forall. split.
  - intros Hf. split_and!; [destruct (Hf (mbase m)); lia|destruct (Hf (mbase m + mlength m - 1)); lia|].
    intros x Hx. pose proof (Hr x Hx) as Hrx. unfold mend in Hrx. destruct (Z.le_gt_cases (mbase m) (mbase x)).
    + destruct (Z.le_gt_cases (mbase m + mlength m) (mbase x)); [by left|].
      destruct (Hf (mbase x)) as [_ Hn]; [lia|]. destruct (Hn x Hx). lia.
    + destruct (Hf (mbase m)) as [_ Hn]; [lia|]. specialize (Hn x Hx). lia.
  - intros (H1 & H2 & H3) a Ha. split; [lia|]. intros x Hx ?. specialize (H3 x Hx). lia.
Qed.

Lemma ph_bounds ph : ph_fits ph →
  (0 ≤ p_offset ph ≤ usize_max ∧ 0 ≤ p_vaddr ph ≤ usize_max ∧ 0 ≤ p_filesz ph ≤ usize_max ∧ 0 ≤ p_memsz ph ≤ usize_max).
Proof.
  unfold ph_fits, ph_widths, ph_fields. intros H. repeat (apply Forall2_cons_1 in H as [? H]). unfold fits, usize_max in *.
  change (256 ^ Z.of_nat 8) with (2 ^ 64) in *. lia.
Qed.


Lemma page_floor a : 0 ≤ a ≤ usize_max → Z.land a 0xFFFFFFFFFFFFF000 = a - a mod PAGE_SIZE.
Proof. intros Ha. rewrite page_start by done. pose proof (Z.div_mod a PAGE_SIZE page_nz). lia. Qed.

(** The sizes the loader computes for a segment. *)
Lemma segment_sizes n ph : ph_fits ph → ph_small ph → is_load ph → p_filesz ph ≤ p_memsz ph →
  let m := segment n ph in
  0 ≤ padding ph < PAGE_SIZE ∧ padding ph ≤ p_offset ph ∧ p_memsz ph + padding ph ≤ usize_max ∧
  p_memsz ph + padding ph ≤ mlength m < p_memsz ph + padding ph + PAGE_SIZE ∧ aligned (mlength m) PAGE_SIZE ∧
  0 ≤ mbase m ∧ mend m ≤ usize_max.
Proof.
  intros Hf Hs Hl Hle. pose proof (ph_bounds _ Hf) as (Ho & Hv & Hfs & Hms). destruct (Hs Hl) as [Hm0 Hm]. simpl.
  assert (Hp : 0 ≤ padding ph < PAGE_SIZE ∧ padding ph ≤ p_offset ph).
  { unfold padding. split; [by apply Z.mod_pos_bound|apply Z.mod_le; [lia|done]]. }
  assert (Hd : p_memsz ph + padding ph ≤ div_ceil (p_memsz ph + padding ph) PAGE_SIZE * PAGE_SIZE < p_memsz ph + padding ph + PAGE_SIZE).
  { unfold div_ceil, PAGE_SIZE in *. pose proof (Z.div_mod (p_memsz ph + padding ph + 4096 - 1) 4096 ltac:(done)).
    pose proof (Z.mod_pos_bound (p_memsz ph + padding ph + 4096 - 1) 4096 ltac:(done)). lia. }
  pose proof (Z.mod_pos_bound (p_vaddr ph) PAGE_SIZE ltac:(done)). pose proof (Z.mod_le (p_vaddr ph) PAGE_SIZE ltac:(lia) ltac:(done)).
  unfold mend. simpl. split_and!; try lia. apply aligned_mul.
Qed.

Definition fits_in (n : N) v ph : Prop :=
  ∀ m, m ∈ segments n [ph] → USERSPACE_START ≤ mbase m ∧ mend m ≤ USERSPACE_END ∧ Forall (apart m) (rb_elems (active_set v)).

Lemma segments_load n ph : is_load ph → segments n [ph] = [segment n ph].
Proof. intros H. unfold segments. by rewrite filter_cons_True by done. Qed.
Lemma segments_other n ph : ¬ is_load ph → segments n [ph] = [].
Proof. intros H. unfold segments. by rewrite filter_cons_False by done. Qed.

Definition added (n : N) v v' (phs : list ProgramHeader) : Prop :=
  vm_ok v' ∧ page_table v' = page_table v ∧ rb_elems (active_set v') ≡ₚ segments n phs ++ rb_elems (active_set v).

Definition segment_file (n : N) ph : FileMapping N := mkFM n (p_offset ph - padding ph) (Some (p_filesz ph + padding ph)).

Lemma segment_backing n w ph :
  ph_fits ph → ph_small ph → is_load ph → p_filesz ph ≤ p_memsz ph →
  vn_prepare_mmap n (p_offset ph - padding ph) w = Err FsError.NotImplemented →
  backing_for w (Some (segment_file n ph)) (mlength (segment n ph)) false = Ok (backing (segment n ph)).
Proof.
  intros Hf Hs Hl Hle Hpre. pose proof (segment_sizes n ph Hf Hs Hl Hle) as Hsz. cbv zeta in Hsz. destruct Hsz as (_ & _ & _ & Hlen & Hal & _).
  unfold backing_for, check_part. rewrite (proj2 (is_multiple_of_spec (mlength (segment n ph)) PAGE_SIZE page_nz) Hal). cbn [negb segment_file file_offset fm_vnode].
  rewrite (proj2 (is_multiple_of_spec (p_offset ph - padding ph) PAGE_SIZE page_nz)).
  2: { exists (p_offset ph / PAGE_SIZE). unfold padding. pose proof (Z.div_mod (p_offset ph) PAGE_SIZE page_nz). lia. }
  cbn [negb]. rewrite Hpre. cbn [rbind file_length]. rewrite andb_false_r.
  cbn [segment_file file_length]. simpl in Hlen |- *. zcase; [lia|done].
Qed.

(** The call of [mmap] for a segment with a valid header. *)
Lemma load_segment_mmap n ph s :
  ph_fits ph → ph_small ph → is_load ph → ph_valid ph →
  load_segment n ph s =
    try_mmap (Some (segment_file n ph)) (mlength (segment n ph)) (prot (segment n ph)) false (Some (mbase (segment n ph))) s.
Proof.
  intros Hf Hs Hl [_ Hval]. destruct (Hval Hl) as (Hfl & Hmod & Hle). pose proof (ph_bounds _ Hf) as (Ho & Hva & Hfs & Hms).
  pose proof (segment_sizes n ph Hf Hs Hl Hle) as Hsz. cbv zeta in Hsz. destruct Hsz as (Hp & Hpo & Hsum & Hlen & _ & Hb & He).
  unfold load_segment. rewrite (proj2 (Z.eqb_eq _ _) Hl). unfold from_bits. rewrite (proj2 (Z.eqb_eq _ _) Hfl).
  rewrite (proj2 (Z.eqb_eq _ _) Hmod). cbn [negb]. destruct (Z.ltb_spec (p_memsz ph) (p_filesz ph)); [lia|]. rewrite !page_floor by done.
  fold (padding ph). rewrite (mbind_ok _ _ s (padding ph) s) by (apply mlift_ok; rewrite usub_ok by lia; f_equal; lia).
  rewrite (mbind_ok _ _ s (p_memsz ph + padding ph) s) by (apply mlift_ok, uadd_ok; lia).
  rewrite (mbind_ok _ _ s (p_filesz ph + padding ph) s) by (apply mlift_ok, uadd_ok; lia).
  rewrite (mbind_ok _ _ s (mlength (segment n ph)) s) by (apply mlift_ok, umul_ok; unfold mend in He; simpl in *; lia).
  unfold segment, segment_file. simpl. f_equal. by destruct (contains _ PF_W), (contains _ PF_X).
Qed.

(** A segment whose header is valid is mapped if its pages are free. *)
Lemma map_segment n w v ph :
  vm_ok v → ph_fits ph → ph_small ph → is_load ph → ph_valid ph →
  (∀ off, vn_prepare_mmap n off w = Err FsError.NotImplemented) →
  (fits_in n v ph ∧ ∃ v', load_segment n ph (w, v) = Ok (tt, (w, v')) ∧ added n v v' [ph]) ∨
  (¬ fits_in n v ph ∧ ∃ e, load_segment n ph (w, v) = Err (e, (w, v))).
Proof.
  intros Hv Hf Hs Hl Hval Hpre. rewrite (load_segment_mmap n ph _ Hf Hs Hl Hval). destruct (proj2 Hval Hl) as (_ & _ & Hle).
  pose proof (segment_sizes n ph Hf Hs Hl Hle) as Hsz. cbv zeta in Hsz. destruct Hsz as (Hp & _ & _ & Hlen & _ & Hb & He).
  pose proof (segment_backing n w ph Hf Hs Hl Hle (Hpre _)) as Hbf. destruct (Hs Hl) as [Hm0 _]. unfold mend in He. set (m := segment n ph) in *.
  pose proof (mmap_spec w (Some (segment_file n ph)) (mlength m) (prot m) false (Some (mbase m)) v Hv
    ltac:(lia) ltac:(intros b [= <-]; exact (conj Hb He))) as Hm. rewrite Hbf in Hm. destruct Hm as [Hm1 Hm2].
  assert (Hd : fits_in n v ph ↔ range_free v (mbase m) (mlength m)).
  { rewrite (range_free_apart v m Hv) by lia. unfold fits_in. rewrite (segments_load n ph Hl). setoid_rewrite list_elem_of_singleton. naive_solver. }
  rewrite Hd. unfold try_mmap. destruct (range_dec v (mbase m) (mlength m) Hv ltac:(lia)) as [Hfree|(a & Ha & Hn)].
  - left. split; [done|]. destruct (Hm1 Hfree) as (v' & -> & ? & ? & _ & Hperm). exists v'. split; [done|].
    unfold added. rewrite (segments_load n ph Hl). split_and!; [done..|exact Hperm].
  - right. assert (¬ range_free v (mbase m) (mlength m)) as Hnf by (intros Hx; by apply Hn, Hx). split; [done|].
    destruct (Hm2 Hnf) as (e & ->). eauto.
Qed.

Lemma load_invalid n ph s : is_load ph → ¬ ph_valid ph → ∃ e, load_segment n ph s = Err (e, s).
Proof.
  intros Hl Hn. unfold load_segment. rewrite (proj2 (Z.eqb_eq _ _) Hl). unfold from_bits.
  destruct (Z.eqb_spec (Z.land (p_flags ph) PF_ALL) (p_flags ph)); [|by eexists].
  destruct (Z.eqb_spec (p_vaddr ph mod PAGE_SIZE) (p_offset ph mod PAGE_SIZE)); cbn [negb]; [|by eexists].
  destruct (Z.ltb_spec (p_memsz ph) (p_filesz ph)); [by eexists|]. destruct Hn. split; [|done]. rewrite Hl. by left.
Qed.

Lemma skip_segment n ph s : ¬ is_load ph →
  (ph_valid ph ∧ load_segment n ph s = Ok (tt, s)) ∨ (¬ ph_valid ph ∧ load_segment n ph s = Err (PHUnsupportedType, s)).
Proof.
  intros Hl. unfold load_segment. destruct (Z.eqb_spec (p_type ph) PT_LOAD) as [|Hne]; [done|]. unfold ph_valid. rewrite !elem_of_cons.
  destruct (_ || _) eqn:E; [left|right]; (split; [|done]).
  - rewrite !orb_true_iff, !Z.eqb_eq in E. split; [tauto|done].
  - rewrite !orb_false_iff, !Z.eqb_neq in E. intros [H _]. rewrite elem_of_nil in H. tauto.
Qed.

(** One header of the table: mapped or skipped, or an error that changes nothing. *)
Lemma segment_step n w v ph :
  vm_ok v → ph_fits ph → ph_small ph → (∀ off, vn_prepare_mmap n off w = Err FsError.NotImplemented) →
  (ph_valid ph ∧ fits_in n v ph ∧ ∃ v', load_segment n ph (w, v) = Ok (tt, (w, v')) ∧ added n v v' [ph]) ∨
  (¬ (ph_valid ph ∧ fits_in n v ph) ∧ ∃ e, load_segment n ph (w, v) = Err (e, (w, v))).
Proof.
  intros Hv Hf Hs Hpre. destruct (decide (is_load ph)) as [Hl|Hl].
  - assert (ph_valid ph ∨ ¬ ph_valid ph) as [Hval|Hval].
    { unfold ph_valid. destruct (decide (p_type ph ∈ [PT_LOAD; PT_NOTE; PT_GNU_EH_FRAME; PT_GNU_STACK; PT_GNU_RELRO; PT_GNU_PROPERTY; PT_TLS]));
        destruct (decide (Z.land (p_flags ph) PF_ALL = p_flags ph ∧ p_vaddr ph mod PAGE_SIZE = p_offset ph mod PAGE_SIZE ∧ p_filesz ph ≤ p_memsz ph)); tauto. }
    + destruct (map_segment n w v ph Hv Hf Hs Hl Hval Hpre) as [[? ?]|[? ?]]; [by left|right]. tauto.
    + right. split; [tauto|]. by apply load_invalid.
  - destruct (skip_segment n ph (w, v) Hl) as [[Hval E]|[Hval E]]; [left|right; split; [tauto|eauto]].
    split_and!; [done| |exists v; split; [done|]]; unfold fits_in, added; rewrite (segments_other n ph Hl); [by intros m ?%not_elem_of_nil|done].
Qed.

Lemma segments_app n l1 l2 : segments n (l1 ++ l2) = segments n l1 ++ segments n l2.
Proof. unfold segments. by rewrite filter_app, fmap_app. Qed.

Lemma segments_cons n ph phs : segments n (ph :: phs) = segments n [ph] ++ segments n phs.
Proof. apply (segments_app n [ph] phs). Qed.

Lemma added_trans n v v1 v2 phs1 phs2 : added n v v1 phs1 → added n v1 v2 phs2 → added n v v2 (phs1 ++ phs2).
Proof.
  intros (_ & Hp1 & H1) (Hok & Hp2 & H2). split_and!; [done|by rewrite Hp2|]. rewrite H2, H1, segments_app. solve_Permutation.
Qed.

Lemma apart_cons n v v1 ph phs : added n v v1 [ph] →
  pairwise apart (segments n (ph :: phs) ++ rb_elems (active_set v)) ↔
  (∀ m, m ∈ segments n [ph] → Forall (apart m) (rb_elems (active_set v))) ∧ pairwise apart (segments n phs ++ rb_elems (active_set v1)).
Proof.
  intros (_ & _ & Hp). rewrite (segments_cons n ph phs). destruct (decide (is_load ph)) as [Hl|Hl].
  - rewrite (segments_load n ph Hl) in Hp |- *. setoid_rewrite list_elem_of_singleton.
    assert (Hq : segments n phs ++ rb_elems (active_set v1) ≡ₚ ([segment n ph] ++ segments n phs) ++ rb_elems (active_set v)) by (rewrite Hp; solve_Permutation).
    split.
    + intros H. split; [|eapply pairwise_perm; [apply _|symmetry; exact Hq|exact H]]. intros m ->. destruct H as [H _]. by apply Forall_app in H as [_ ?].
    + intros [_ H]. eapply pairwise_perm; [apply _|exact Hq|exact H].
  - rewrite (segments_other n ph Hl) in Hp |- *. simpl in Hp |- *.
    assert (Hq : segments n phs ++ rb_elems (active_set v1) ≡ₚ segments n phs ++ rb_elems (active_set v)) by (by rewrite Hp).
    split; [intros H; split; [by intros m ?%not_elem_of_nil|]|intros [_ H]]; (eapply pairwise_perm; [apply _| |exact H]); [by symmetry|done].
Qed.

(** The rest of the table is placed after the first header of it. *)
Lemma placed_cons n v v1 ph hs : added n v v1 [ph] →
  placed n v (Some ph :: hs) ↔ ph_valid ph ∧ fits_in n v ph ∧ placed n v1 hs.
Proof.
  intros Ha. pose proof (λ phs, apart_cons n v v1 ph phs Ha) as Hpw. unfold placed.
  split.
  - intros ([|ph' phs] & E & Hval & Hin & Hpa); [done|]. simpl in E. injection E as <- ->. apply Forall_cons in Hval as [Hval Hvals].
    apply Hpw in Hpa as [Hpa Hpas]. rewrite (segments_cons n ph phs) in Hin. setoid_rewrite elem_of_app in Hin.
    split_and!; [done|intros m Hm; split_and!; [apply Hin; by left..|by apply Hpa]|exists phs; split_and!; [done..|intros m Hm; apply Hin; by right|done]].
  - intros (Hval & Hfit & phs & -> & Hvals & Hin & Hpas). exists (ph :: phs). split_and!; [done|by constructor| |].
    + rewrite (segments_cons n ph phs). intros m [Hm|Hm]%elem_of_app; [destruct (Hfit m Hm) as (? & ? & _); done|by apply Hin].
    + apply Hpw. split; [|done]. intros m Hm. by destruct (Hfit m Hm) as (_ & _ & ?).
Qed.

Section file.
Context (n : N) (data : list Z).
Context (Hbytes : Forall is_byte data).
Context (Hpre : ∀ w off, bn_contents n w = Some data → vn_prepare_mmap n off w = Err FsError.NotImplemented).

(** Reading a header from the file. *)
Lemma read_exact_spec off k e w v : bn_contents n w = Some data → 0 ≤ off → 0 < k →
  ∃ w', bn_contents n w' = Some data ∧
    read_exact n off k e (w, v) = if off + k <=? zlen data then Ok (sub data off k, (w', v)) else Err (e, (w', v)).
Proof.
  intros Hc Ho Hk. destruct (bn_read n w data off (zrep k 0) Hc Ho) as (w' & E & Hc' & _). rewrite zlen_rep in E by lia.
  exists w'. split; [done|]. unfold read_exact. rewrite E. destruct (Z.leb_spec (off + k) (zlen data)).
  - replace (Z.max 0 (Z.min k (zlen data - off))) with k by lia. rewrite Z.ltb_irrefl.
    rewrite splice_end by (rewrite ?zlen_rep, ?zlen_sub; lia). by rewrite sub_0.
  - destruct (Z.ltb_spec (Z.max 0 (Z.min k (zlen data - off))) k); [done|lia].
Qed.

(** The file is as it was, and the first of its segments are mapped. *)
Definition loaded v s' (phs : list ProgramHeader) : Prop := bn_contents n s'.1 = Some data ∧ added n v s'.2 phs.

Definition loop_outcome v (hs : list (option ProgramHeader)) (r : res (ElfError * (W * VM)) (unit * (W * VM))) : Prop :=
  (placed n v hs ∧ ∃ s' phs, r = Ok (tt, s') ∧ hs = Some <$> phs ∧ loaded v s' phs) ∨
  (¬ placed n v hs ∧ ∃ e s' k phs, r = Err (e, s') ∧ take k hs = Some <$> phs ∧ loaded v s' phs).

Lemma loop_outcome_cons v v1 ph hs r :
  added n v v1 [ph] → ph_valid ph → fits_in n v ph → loop_outcome v1 hs r → loop_outcome v (Some ph :: hs) r.
Proof.
  intros Ha Hval Hfit [(Hp & s' & phs & -> & -> & Hc & Hl)|(Hp & e & s' & k & phs & -> & Ht & Hc & Hl)].
  - left. split; [by apply (placed_cons n v v1)|]. exists s', (ph :: phs). split_and!; [done..|]. split; [done|].
    by apply (added_trans n v v1 s'.2 [ph]).
  - right. rewrite (placed_cons n v v1) by done. split; [tauto|]. exists e, s', (S k), (ph :: phs). simpl. rewrite Ht.
    split_and!; [done..|]. split; [done|]. by apply (added_trans n v v1 s'.2 [ph]).
Qed.

Lemma added_nil v : vm_ok v → added n v v [].
Proof. intros Hv. by split_and!. Qed.

Lemma table_S off count : table data off (S count) = header_at data off :: table data (off + 56) count.
Proof.
  unfold table. cbn [seq fmap list_fmap]. f_equal; [f_equal; lia|]. rewrite <-seq_shift. rewrite <-list_fmap_compose.
  apply list_fmap_ext. intros ? i _. simpl. f_equal. lia.
Qed.

Lemma header_at_fits off ph : 0 ≤ off → header_at data off = Some ph → ph_fits ph.
Proof.
  unfold header_at. intros Ho. destruct (Z.leb_spec (off + 56) (zlen data)); [|done]. intros E%(inj Some). subst ph. unfold ph_fits.
  change (ph_fields (ph_of (decode ph_widths (sub data off 56)))) with (decode ph_widths (sub data off 56)).
  apply decode_fits; [by apply Forall_take, Forall_drop|]. pose proof (zlen_sub data off 56 Ho ltac:(lia) ltac:(lia)) as E.
  unfold zlen in E. simpl. lia.
Qed.

Lemma load_loop_spec phoff count i w v :
  0 ≤ phoff → 0 ≤ i → phoff + 56 * (i + Z.of_nat count) ≤ usize_max →
  (∀ ph, Some ph ∈ table data (phoff + 56 * i) count → ph_small ph) →
  bn_contents n w = Some data → vm_ok v →
  loop_outcome v (table data (phoff + 56 * i) count) (load_loop n phoff count i (w, v)).
Proof.
  intros Hph. revert i w v. induction count as [|count IH]; intros i w v Hi Hmax Hsm Hc Hv.
  { left. split; [exists []; split_and!; [done..|by intros m ?%not_elem_of_nil|apply Hv]|]. exists (w, v), []. split_and!; [done..|]. split; [done|by apply added_nil]. }
  rewrite table_S in Hsm |- *. cbn [load_loop].
  rewrite (mbind_ok _ _ _ (i * E_PHENTSIZE) (w, v)) by (apply mlift_ok, umul_ok; unfold E_PHENTSIZE; lia).
  rewrite (mbind_ok _ _ _ (phoff + 56 * i) (w, v)) by (apply mlift_ok; unfold E_PHENTSIZE; rewrite uadd_ok by lia; f_equal; lia).
  destruct (read_exact_spec (phoff + 56 * i) E_PHENTSIZE PHFileReadError w v Hc ltac:(lia) ltac:(done)) as (w1 & Hc1 & E).
  unfold E_PHENTSIZE in E. destruct (header_at data (phoff + 56 * i)) as [ph|] eqn:Eh.
  2: { unfold header_at in Eh. destruct (Z.leb_spec (phoff + 56 * i + 56) (zlen data)); [done|]. rewrite (mbind_err _ _ _ _ _ E).
       right. split; [by intros ([] & ? & _)|]. exists PHFileReadError, (w1, v), 0%nat, []. split_and!; [done..|]. split; [done|by apply added_nil]. }
  pose proof (header_at_fits (phoff + 56 * i) ph ltac:(lia) Eh) as Hf. unfold header_at in Eh. destruct (Z.leb_spec (phoff + 56 * i + 56) (zlen data)); [|done].
  apply (inj Some) in Eh. rewrite (mbind_ok _ _ _ _ _ E), (mbind_ok _ _ _ ph (w1, v)).
  2: { apply mlift_ok. rewrite ph_parse_spec; [by rewrite Eh|]. pose proof (zlen_sub data (phoff + 56 * i) 56) as El. unfold zlen in *. lia. }
  destruct (segment_step n w1 v ph Hv Hf (Hsm ph ltac:(left)) (λ off, Hpre w1 off Hc1)) as [(Hval & Hfit & v1 & Es & Ha)|(Hn & e & Es)].
  - rewrite (mbind_ok _ _ _ _ _ Es). apply (loop_outcome_cons v v1); [done..|].
    replace (phoff + 56 * i + 56) with (phoff + 56 * (i + 1)) in Hsm |- * by lia. apply IH; [lia..| |done|apply Ha].
    intros ph' Hin. apply Hsm. by right.
  - rewrite (mbind_err _ _ _ _ _ Es). right. split; [|exists e, (w1, v), 0%nat, []; split_and!; [done..|]; split; [done|by apply added_nil]].
    intros (phs & E1 & Hvals & Hin & Hpa). destruct phs as [|ph' phs]; [done|]. injection E1 as <- _. apply Hn.
    apply Forall_cons in Hvals as [? _]. split; [done|]. rewrite segments_cons in Hin, Hpa. intros m Hm.
    destruct (Hin m) as [? ?]; [apply elem_of_app; by left|]. split_and!; [done..|]. apply Forall_forall. intros x Hx.
    rewrite <-app_assoc in Hpa. apply (pairwise_app_elem _ _ _ _ _ Hpa Hm). apply elem_of_app. by right.
Qed.
End file.

Definition file_header data : ElfHeader := header_of (decode elf_widths (sub data 0 64)).

Lemma file_header_bounds data : Forall is_byte data → 64 ≤ zlen data → 0 ≤ e_phoff (file_header data) ∧ 0 ≤ e_phnum (file_header data).
Proof.
  intros Hb Hl. assert (Forall2 fits elf_widths (decode elf_widths (sub data 0 64))) as Hf.
  { apply decode_fits; [by apply Forall_take, Forall_drop|]. pose proof (zlen_sub data 0 64 ltac:(lia) ltac:(lia) ltac:(lia)) as E. unfold zlen in E. simpl. lia. }
  assert (H : ∀ k w, elf_widths !! k = Some w → 0 ≤ nth k (decode elf_widths (sub data 0 64)) 0).
  { intros k w Hk. destruct (Forall2_lookup_l _ _ _ _ _ Hf Hk) as (x & Hx & Hfx). rewrite (nth_lookup_Some _ _ _ _ Hx). apply Hfx. }
  split; [apply (H 20%nat 8%nat)|apply (H 25%nat 2%nat)]; done.
Qed.

(** C29: for a file of bytes whose segments are not empty and do not reach the end
    of the address space, [load] returns the entry point exactly if the file
    has an executable header of this machine, all the program headers are in
    the file and valid, and the loadable segments lie in user space, apart from
    each other and from what is mapped. Then it has added one private mapping
    of the file per loadable segment, with the pages, offset, file length and
    permissions the header gives, and nothing else; the mappings stay apart
    and the file is as it was. Otherwise it returns an error, with the segments
    of the headers before the bad one still mapped. *)
Theorem elf_load_correct (n : N) data w v :
  Forall is_byte data →
  (∀ w off, bn_contents n w = Some data → vn_prepare_mmap n off w = Err FsError.NotImplemented) →
  bn_contents n w = Some data → vm_ok v →
  let h := file_header data in
  let hs := table data (e_phoff h) (Z.to_nat (e_phnum h)) in
  e_phoff h + 56 * e_phnum h ≤ usize_max → (∀ ph, Some ph ∈ hs → ph_small ph) →
  (64 ≤ zlen data ∧ executable h ∧ placed n v hs ∧
     ∃ s' phs, load n (w, v) = Ok (e_entry h, s') ∧ hs = Some <$> phs ∧ loaded n data v s' phs) ∨
  (¬ (64 ≤ zlen data ∧ executable h ∧ placed n v hs) ∧
     ∃ e s' k phs, load n (w, v) = Err (e, s') ∧ take k hs = Some <$> phs ∧ loaded n data v s' phs).
Proof.
  intros Hb Hpre Hc Hv h hs Hmax Hsm. unfold load.
  destruct (read_exact_spec n data 0 E_EHSIZE EHFileReadError w v Hc ltac:(lia) ltac:(done)) as (w1 & Hc1 & E). unfold E_EHSIZE in E.
  assert (Hnil : loaded n data v (w1, v) []) by (split; [done|by apply added_nil]).
  destruct (Z.leb_spec (0 + 64) (zlen data)) as [Hl|Hl].
  2: { rewrite (mbind_err _ _ _ _ _ E). right. split; [lia|]. by exists EHFileReadError, (w1, v), 0%nat, []. }
  rewrite (mbind_ok _ _ _ _ _ E), (mbind_ok _ _ _ h (w1, v)).
  2: { apply mlift_ok, elf_parse_spec. pose proof (zlen_sub data 0 64) as El. unfold zlen in *. lia. }
  destruct (file_header_bounds data Hb ltac:(lia)) as [Ho Hn]. fold h in Ho, Hn.
  destruct (validate_spec h) as [[Ev He]|[[e Ev] He]].
  2: { rewrite (mbind_err _ _ _ e (w1, v)) by (unfold mlift; by rewrite Ev). right. split; [tauto|]. by exists e, (w1, v), 0%nat, []. }
  rewrite (mbind_ok _ _ _ tt (w1, v)) by (by apply mlift_ok).
  pose proof (load_loop_spec n data Hb Hpre (e_phoff h) (Z.to_nat (e_phnum h)) 0 w1 v Ho ltac:(lia) ltac:(lia)) as Hloop.
  rewrite Z.mul_0_r, Z.add_0_r in Hloop. fold hs in Hloop.
  destruct (Hloop Hsm Hc1 Hv) as [(Hp & s' & phs & Er & Hhs & Hld)|(Hp & e & s' & k & phs & Er & Ht & Hld)].
  - left. split_and!; [lia|done..|]. exists s', phs. rewrite (mbind_ok _ _ _ _ _ Er). done.
  - right. split; [tauto|]. exists e, s', k, phs. rewrite (mbind_err _ _ _ _ _ Er). done.
Qed.
End load_proofs.
