(* ===== verification/Stack.v ===== *)
(** * The first stack of a process (src/arch/aarch64/mod.rs)

    [setup_stack] puts the strings of the arguments and of the environment, and
    below them the table that the C runtime of the program reads. *)

From stdpp Require Import list_tactics.
From S2P Require Import Prelude RBTree FreeSet Bytes PhysMem PageTable KernelVM VmPages FsTypes BlockDevice CharDevice RamFs FakeFs DevFs Vfs KernelFs File UserVM UserFault Process UserCopy Syscall.

Definition AARCH64_STACK_ALIGNMENT : Z := 64.

Section stack.
Context {W F N TB TL TA TK TF : Type} {HF : Filesystem W F N} {HV : VNode W N}.
Context {OB : RBTree fbase TB} {OL : RBTree flength TL} {OA : RBTree (@mbase N) TA}.
Context {OK : RBTree vbase TK} {OFr : RBTree free_key TF}.
Context (ks : Z).
Abbreviation Mach := (@Machine W F N TB TL TA TK TF).
Abbreviation KOp A := (M Mach FaultError A).

(** [?] on an [Option]; on a copy, [.ok()?] is [try_copy] and this. *)
Definition obind {A B} (c : KOp (option A)) (k : A → KOp (option B)) : KOp (option B) :=
  let! r := c in
  match r with Some a => k a | None => mret None end.
Notation "'let*' x := c 'in' k" := (obind c (fun x => k)) (at level 10, x pattern, c at level 150, k at level 200) : cab_scope.
Abbreviation put dst bytes := (try_copy (copy_to_user ks dst bytes)).

(** The loop over the arguments or the environment: the strings below [sp], and
    the pointers to them. *)
Fixpoint push_strings (sp : Z) (strings : list (list Z)) (ptrs : list Z) : KOp (option (Z * list Z)) :=
  match strings with
  | [] => mret (Some (sp, ptrs))
  | bytes :: strings =>
      let! sp := mlift (usub sp (zlen bytes + 1)) in
      let* _ := put sp bytes in
      let! end_ := mlift (uadd sp (zlen bytes)) in
      let* _ := put end_ [0] in
      push_strings sp strings (ptrs ++ [sp])
  end.

(** The loop over the pointers. *)
Fixpoint push_words (temp_sp : Z) (ptrs : list Z) : KOp (option Z) :=
  match ptrs with
  | [] => mret (Some temp_sp)
  | ptr :: ptrs =>
      let* _ := put temp_sp (le_bytes 8 ptr) in
      let! temp_sp := mlift (uadd temp_sp 8) in
      push_words temp_sp ptrs
  end.

Definition setup_stack (sp argc : Z) (argv envp : list (list Z)) : KOp (option Z) :=
  let! _ := mlift (rassert (zlen argv =? argc)) in
  let! _ := mlift (rassert (is_multiple_of sp 16)) in
  let* (sp, arg_ptrs) := push_strings sp argv [] in
  let* (sp, env_ptrs) := push_strings sp envp [] in
  let num_words := zlen arg_ptrs + zlen env_ptrs + 5 in
  let! sp := mlift (usub sp (num_words * 8)) in
  let sp := Z.land sp (Z.lnot (AARCH64_STACK_ALIGNMENT - 1)) in
  let temp_sp := sp in
  let* _ := put temp_sp (le_bytes 8 argc) in
  let! temp_sp := mlift (uadd temp_sp 8) in
  let* temp_sp := push_words temp_sp arg_ptrs in
  let* _ := put temp_sp (zrep 8 0) in
  let! temp_sp := mlift (uadd temp_sp 8) in
  let* temp_sp := push_words temp_sp env_ptrs in
  let* _ := put temp_sp (zrep 8 0) in
  let! temp_sp := mlift (uadd temp_sp 8) in
  let* _ := put temp_sp (zrep 16 0) in
  mret (Some sp).
End stack.

(** ** What the program finds *)

Section stack_proofs.
Context (h : Z) (rs : list Entry) (Hmap : map_ok h rs).
Context (H48 : ∀ i e, rs !! i = Some e → entry_type e = USABLE → ebase e + elength e ≤ 2 ^ 48).
Context {W F N TB TL TA TK TF : Type} {HF : Filesystem W F N} {HV : VNode W N}.
Context {OB : RBTree fbase TB} {OL : RBTree flength TL} {OA : RBTree (@mbase N) TA}.
Context {OK : RBTree vbase TK} {OFr : RBTree free_key TF}.
Context (ks : Z).
Abbreviation Mach := (@Machine W F N TB TL TA TK TF).
Implicit Types (m : Mach) (A : Z → option Z).

Lemma holds_app mem A v l1 l2 : holds h mem A v (l1 ++ l2) ↔ holds h mem A v l1 ∧ holds h mem A (v + zlen l1) l2.
Proof.
  unfold holds. rewrite zlen_app. pose proof (zlen_nonneg l1). pose proof (zlen_nonneg l2). split.
  - intros H1. split; intros i Hi.
    + rewrite H1 by lia. unfold zat. destruct (Z.ltb_spec i 0); [lia|]. apply lookup_app_l. unfold zlen in *. lia.
    + rewrite <-Z.add_assoc, H1 by lia. unfold zat. repeat (zcase; try lia). rewrite lookup_app_r by (unfold zlen in *; lia).
      f_equal. unfold zlen in *. lia.
  - intros [H1 H2] i Hi. unfold zat. destruct (Z.ltb_spec i 0); [lia|]. destruct (Z.lt_ge_cases i (zlen l1)) as [Hl|Hl].
    + rewrite lookup_app_l by (unfold zlen in *; lia). rewrite H1 by lia. unfold zat. destruct (Z.ltb_spec i 0); [lia|done].
    + rewrite lookup_app_r by (unfold zlen in *; lia). replace (v + i) with (v + zlen l1 + (i - zlen l1)) by lia.
      rewrite H2 by lia. unfold zat. destruct (Z.ltb_spec (i - zlen l1) 0); [lia|]. f_equal. unfold zlen in *. lia.
Qed.

(** What a range holds stays when a range apart from it is written. *)
Lemma holds_elsewhere mem mem' A live T lo n v k u l :
  user_range A live T lo n → same_elsewhere h mem mem' A live v k →
  lo ≤ v → v + k ≤ lo + n → lo ≤ u → u + zlen l ≤ lo + n → u + zlen l ≤ v ∨ v + k ≤ u →
  holds h mem A u l → holds h mem' A u l.
Proof.
  intros [Hb _ Hm Ha] Hs Hv1 Hv2 Hu1 Hu2 Hd Hl i Hi. rewrite <-Hl by done. unfold user_byte.
  destruct (Hm (u + i - lo)) as (f & Hf & Hfl & _); [lia|]. replace (lo + (u + i - lo)) with (u + i) in Hf by lia. rewrite Hf.
  apply Hs; [done|]. intros j Hj Hjf Heq.
  pose proof (Ha (u + i - lo) (v + j - lo) ltac:(lia) ltac:(lia)) as Hp.
  replace (lo + (u + i - lo)) with (u + i) in Hp by lia. replace (lo + (v + j - lo)) with (v + j) in Hp by lia.
  rewrite Hf, Hjf in Hp. specialize (Hp eq_refl). pose proof (Z.div_mod (u + i) PAGE_SIZE ltac:(done)). pose proof (Z.div_mod (v + j) PAGE_SIZE ltac:(done)). lia.
Qed.

(** The strings as they lie in memory, from the last to the first, each with its
    terminator, and the pointers to them in order. *)
Fixpoint string_area (strings : list (list Z)) : list Z :=
  match strings with [] => [] | b :: strings => string_area strings ++ b ++ [0] end.
Fixpoint string_ptrs (sp : Z) (strings : list (list Z)) : list Z :=
  match strings with [] => [] | b :: strings => (sp - (zlen b + 1)) :: string_ptrs (sp - (zlen b + 1)) strings end.
Definition words_bytes (ws : list Z) : list Z := concat (le_bytes 8 <$> ws).

Definition arg_ptrs (sp : Z) (argv : list (list Z)) : list Z := string_ptrs sp argv.
Definition env_ptrs (sp : Z) (argv envp : list (list Z)) : list Z := string_ptrs (sp - zlen (string_area argv)) envp.
Definition strings_start (sp : Z) (argv envp : list (list Z)) : Z := sp - zlen (string_area argv) - zlen (string_area envp).
(** The stack pointer that [setup_stack] gives, and the table at it. *)
Definition stack_pointer (sp : Z) (argv envp : list (list Z)) : Z :=
  (strings_start sp argv envp - 8 * (zlen argv + zlen envp + 5)) / 64 * 64.
Definition stack_table (sp : Z) (argv envp : list (list Z)) : list Z :=
  words_bytes (zlen argv :: arg_ptrs sp argv ++ [0] ++ env_ptrs sp argv envp ++ [0; 0; 0]).

Lemma length_string_ptrs sp strings : length (string_ptrs sp strings) = length strings.
Proof. revert sp. induction strings as [|b strings IH]; intros sp; simpl; [done|]. by rewrite IH. Qed.

Lemma words_cons w ws : words_bytes (w :: ws) = le_bytes 8 w ++ words_bytes ws.
Proof. done. Qed.

Lemma zlen_words ws : zlen (words_bytes ws) = 8 * zlen ws.
Proof.
  induction ws as [|w ws IH]; [done|]. rewrite words_cons, zlen_app, IH, zlen_cons. unfold zlen at 1. rewrite length_le_bytes. lia.
Qed.

Lemma words_app ws1 ws2 : words_bytes (ws1 ++ ws2) = words_bytes ws1 ++ words_bytes ws2.
Proof. unfold words_bytes. by rewrite fmap_app, concat_app. Qed.

(** Each pointer is that of its string. *)
Lemma string_ptrs_hold mem A sp strings i b :
  holds h mem A (sp - zlen (string_area strings)) (string_area strings) → strings !! i = Some b →
  ∃ p, string_ptrs sp strings !! i = Some p ∧ holds h mem A p (b ++ [0]).
Proof.
  revert sp i. induction strings as [|b0 strings IH]; intros sp i Hh Hi; [done|]. cbn [string_area string_ptrs] in Hh |- *.
  rewrite !zlen_app in Hh. change (zlen [0]) with 1 in Hh. apply holds_app in Hh as [H1 H2].
  replace (sp - (zlen (string_area strings) + (zlen b0 + 1))) with (sp - (zlen b0 + 1) - zlen (string_area strings)) in H1, H2 by lia.
  destruct i as [|i]; simpl in Hi |- *.
  - injection Hi as ->. eexists. split; [done|]. by replace (sp - (zlen b + 1) - zlen (string_area strings) + zlen (string_area strings)) with (sp - (zlen b + 1)) in H2 by lia.
  - by apply IH.
Qed.

Abbreviation with_phys m q := (set_sys (mkSystem q (page_cache (sys m)) (kernel (sys m))) m).

(** The stack of a process: the range [lo .. lo + n) is mapped. *)
Section writes.
Context (m : Mach) (free live T : list Z) (A : Z → option Z) (lo n : Z).
Context (Hr : user_range A live T lo n).

Definition good (mem0 : gmap Z Z) (q : PhysMem) : Prop :=
  sys_ok h rs (sys (with_phys m q)) free live (get_address_space m) T A ∧ same_elsewhere h mem0 (words q) A live lo n.
Definition kept (q q' : PhysMem) (v k : Z) : Prop :=
  ∀ u l, lo ≤ u → u + zlen l ≤ lo + n → u + zlen l ≤ v ∨ v + k ≤ u → holds h (words q) A u l → holds h (words q') A u l.

Lemma put_spec mem0 q v bytes :
  good mem0 q → lo ≤ v → v + zlen bytes ≤ lo + n → Forall is_byte bytes →
  ∃ q', try_copy (copy_to_user ks v bytes) (with_phys m q) = Ok (Some tt, with_phys m q') ∧ good mem0 q' ∧
    holds h (words q') A v bytes ∧ kept q q' v (zlen bytes).
Proof.
  intros [Hs He] Hv1 Hv2 Hb. pose proof (zlen_nonneg bytes) as H0.
  assert (Hr' : user_range A live T v (zlen bytes)) by (replace v with (lo + (v - lo)) by lia; apply (user_range_sub A live T lo n); [done|lia..]).
  destruct (copy_to_spec h rs Hmap H48 ks (length bytes) (with_phys m q) free live T A v bytes Hs Hr' Hb (le_n _)) as (q' & E & Hs' & Hh & He').
  exists q'. split; [exact (try_copy_ok _ _ _ _ E)|]. split; [split; [exact Hs'|]|split; [exact Hh|]].
  - intros g k Hg Hk. rewrite He', He; [done..| |done|]; [exact Hk|]. intros i Hi Hf. replace (v + i) with (lo + (v - lo + i)) in Hf |- * by lia. apply Hk; [lia|done].
  - intros u l Hu1 Hu2 Hd Hl. eapply (holds_elsewhere (words q) (words q') A live T lo n v (zlen bytes)); done.
Qed.

Lemma obind_some {B C} (c : M Mach FaultError (option B)) (k : B → M Mach FaultError (option C)) s b s' :
  c s = Ok (Some b, s') → obind c k s = k b s'.
Proof. intros E. unfold obind. by rewrite (mbind_ok _ _ _ _ _ E). Qed.

(** The strings go below what is there, one after the other. *)
Lemma push_strings_spec mem0 strings sp ptrs q above :
  good mem0 q → Forall (Forall is_byte) strings → lo ≤ sp - zlen (string_area strings) → sp + zlen above ≤ lo + n →
  holds h (words q) A sp above →
  ∃ q', push_strings ks sp strings ptrs (with_phys m q) =
      Ok (Some (sp - zlen (string_area strings), ptrs ++ string_ptrs sp strings), with_phys m q') ∧ good mem0 q' ∧
    holds h (words q') A (sp - zlen (string_area strings)) (string_area strings ++ above).
Proof.
  intros Hq Hbs. revert sp ptrs q above Hq. induction Hbs as [|b strings Hb Hbs IH]; intros sp ptrs q above Hq Hlo Hhi Hh.
  { exists q. simpl. rewrite Z.sub_0_r, app_nil_r. done. }
  cbn [string_area string_ptrs push_strings] in *. rewrite !zlen_app in Hlo |- *. change (zlen [0]) with 1 in *.
  pose proof (zlen_nonneg b). pose proof (zlen_nonneg (string_area strings)). pose proof (zlen_nonneg above).
  pose proof (ur_base _ _ _ _ _ Hr). pose proof (ur_end _ _ _ _ _ Hr).
  set (sp' := sp - (zlen b + 1)). rewrite (mbind_ok _ _ _ sp' (with_phys m q)) by (apply mlift_ok, usub_ok; lia).
  destruct (put_spec mem0 q sp' b Hq ltac:(lia) ltac:(lia) Hb) as (q1 & E1 & Hq1 & Hh1 & Hk1). rewrite (obind_some _ _ _ _ _ E1).
  rewrite (mbind_ok _ _ _ (sp' + zlen b) (with_phys m q1)) by (apply mlift_ok, uadd_ok; lia).
  destruct (put_spec mem0 q1 (sp' + zlen b) [0] Hq1 ltac:(lia) ltac:(change (zlen [0]) with 1; lia) ltac:(repeat constructor; lia)) as (q2 & E2 & Hq2 & Hh2 & Hk2).
  rewrite (obind_some _ _ _ _ _ E2). change (zlen [0]) with 1 in Hk2.
  destruct (IH sp' (ptrs ++ [sp']) q2 ((b ++ [0]) ++ above) Hq2) as (q' & E & Hq' & Hh').
  - lia.
  - rewrite !zlen_app. change (zlen [0]) with 1. lia.
  - rewrite !holds_app, zlen_app. change (zlen [0]) with 1. split; [split|].
    + apply Hk2; [lia..|done].
    + done.
    + replace (sp' + (zlen b + 1)) with sp by lia. apply Hk2; [lia..|]. apply Hk1; [lia..|done].
  - exists q'. replace (sp - (zlen (string_area strings) + (zlen b + 1))) with (sp' - zlen (string_area strings)) by lia.
    rewrite <-!app_assoc in E, Hh'. rewrite <-(app_assoc (string_area strings)), <-(app_assoc b). split; [exact E|]. split; [exact Hq'|exact Hh'].
Qed.

(** A word of the table is put after those before it, below the strings. *)
Lemma put_next mem0 q base l bytes s0 area :
  good mem0 q → lo ≤ base → base + zlen l + zlen bytes ≤ s0 → s0 + zlen area ≤ lo + n → Forall is_byte bytes →
  holds h (words q) A base l → holds h (words q) A s0 area →
  ∃ q', try_copy (copy_to_user ks (base + zlen l) bytes) (with_phys m q) = Ok (Some tt, with_phys m q') ∧ good mem0 q' ∧
    holds h (words q') A base (l ++ bytes) ∧ holds h (words q') A s0 area.
Proof.
  intros Hq Hb Hs Ha Hby Hl Har. pose proof (zlen_nonneg l). pose proof (zlen_nonneg bytes). pose proof (zlen_nonneg area).
  destruct (put_spec mem0 q (base + zlen l) bytes Hq ltac:(lia) ltac:(lia) Hby) as (q' & E & Hq' & Hh & Hk).
  exists q'. split; [exact E|]. split; [done|]. split; [apply holds_app; split; [|done]|]; apply Hk; try lia; done.
Qed.

Lemma push_words_spec mem0 ws q base l s0 area :
  good mem0 q → lo ≤ base → base + zlen l + 8 * zlen ws ≤ s0 → s0 + zlen area ≤ lo + n →
  holds h (words q) A base l → holds h (words q) A s0 area →
  ∃ q', push_words ks (base + zlen l) ws (with_phys m q) = Ok (Some (base + zlen l + 8 * zlen ws), with_phys m q') ∧ good mem0 q' ∧
    holds h (words q') A base (l ++ words_bytes ws) ∧ holds h (words q') A s0 area.
Proof.
  revert q l. induction ws as [|w ws IH]; intros q l Hq Hb Hs Ha Hl Har.
  { exists q. simpl. rewrite Z.add_0_r, app_nil_r. done. }
  cbn [push_words]. rewrite zlen_cons in Hs |- *. pose proof (zlen_nonneg l). pose proof (zlen_nonneg ws). pose proof (zlen_nonneg area).
  assert (H8 : zlen (le_bytes 8 w) = 8) by (unfold zlen; by rewrite length_le_bytes).
  destruct (put_next mem0 q base l (le_bytes 8 w) s0 area) as (q1 & E1 & Hq1 & Hl1 & Ha1); [done|done|lia|done|apply le_bytes_byte|done|done|].
  rewrite (obind_some _ _ _ _ _ E1). pose proof (ur_end _ _ _ _ _ Hr). pose proof (ur_base _ _ _ _ _ Hr).
  rewrite (mbind_ok _ _ _ (base + zlen l + 8) (with_phys m q1)) by (apply mlift_ok, uadd_ok; lia).
  destruct (IH q1 (l ++ le_bytes 8 w)) as (q' & E & Hq' & Hl' & Ha'); [done..|rewrite zlen_app; lia|done|done|done|].
  rewrite zlen_app, H8, !Z.add_assoc in E. rewrite E. exists q'. split; [do 3 f_equal; lia|]. rewrite words_cons, app_assoc. done.
Qed.
End writes.

Lemma stack_land v : Z.land v (Z.lnot (AARCH64_STACK_ALIGNMENT - 1)) = v / 64 * 64.
Proof.
  change (AARCH64_STACK_ALIGNMENT - 1) with (Z.ones 6). by rewrite <-Z.ldiff_land, Z.ldiff_ones_r, Z.shiftl_mul_pow2, Z.shiftr_div_pow2 by lia.
Qed.

(** The stack pointer leaves room for the table below the strings. *)
Lemma stack_room sp argv envp :
  stack_pointer sp argv envp + 8 * (zlen argv + zlen envp + 5) ≤ strings_start sp argv envp.
Proof. unfold stack_pointer. pose proof (Z.mul_div_le (strings_start sp argv envp - 8 * (zlen argv + zlen envp + 5)) 64 ltac:(lia)). lia. Qed.

(** The table, once the strings are there. *)
Definition put_table (sp argc : Z) (arg_ptrs env_ptrs : list Z) : M Mach FaultError (option Z) :=
  obind (try_copy (copy_to_user ks sp (le_bytes 8 argc))) (λ _,
  let! t := mlift (uadd sp 8) in
  obind (push_words ks t arg_ptrs) (λ t,
  obind (try_copy (copy_to_user ks t (zrep 8 0))) (λ _,
  let! t := mlift (uadd t 8) in
  obind (push_words ks t env_ptrs) (λ t,
  obind (try_copy (copy_to_user ks t (zrep 8 0))) (λ _,
  let! t := mlift (uadd t 8) in
  obind (try_copy (copy_to_user ks t (zrep 16 0))) (λ _, mret (Some sp))))))).

Lemma put_table_spec m free live T A lo n mem0 q argc ws1 ws2 s0 area :
  user_range A live T lo n → good m free live T A lo n mem0 q →
  lo + 8 * (zlen ws1 + zlen ws2 + 5) ≤ s0 → s0 + zlen area ≤ lo + n → holds h (words q) A s0 area →
  ∃ q', put_table lo argc ws1 ws2 (with_phys m q) = Ok (Some lo, with_phys m q') ∧ good m free live T A lo n mem0 q' ∧
    holds h (words q') A lo (words_bytes (argc :: ws1 ++ [0] ++ ws2 ++ [0; 0; 0])) ∧ holds h (words q') A s0 area.
Proof.
  intros Hr Hq Hroom Har Hh. pose proof (ur_end _ _ _ _ _ Hr). pose proof (ur_base _ _ _ _ _ Hr).
  pose proof (zlen_nonneg ws1). pose proof (zlen_nonneg ws2). pose proof (zlen_nonneg area).
  set (l1 := le_bytes 8 argc). assert (L1 : zlen l1 = 8) by (unfold l1, zlen; by rewrite length_le_bytes).
  set (z8 := zrep 8 0). assert (Hz8 : zlen z8 = 8) by done. assert (Bz8 : Forall is_byte z8) by (repeat constructor; lia).
  set (z16 := zrep 16 0). assert (Hz16 : zlen z16 = 16) by done. assert (Bz16 : Forall is_byte z16) by (repeat constructor; lia).
  assert (L0 : holds h (words q) A lo []) by (intros i Hi; unfold zlen in Hi; simpl in Hi; lia).
  unfold put_table. fold l1 z8 z16.
  destruct (put_next m free live T A lo n Hr mem0 q lo [] l1 s0 area) as (q1 & E1 & Hq1 & Hl1 & Ha1); [done|lia|rewrite L1; change (zlen []) with 0; lia|done|apply le_bytes_byte|done..|].
  change (zlen []) with 0 in E1. rewrite Z.add_0_r in E1. rewrite (obind_some _ _ _ _ _ E1). simpl in Hl1.
  rewrite (mbind_ok _ _ _ (lo + zlen l1) (with_phys m q1)) by (apply mlift_ok; rewrite L1; apply uadd_ok; lia).
  destruct (push_words_spec m free live T A lo n Hr mem0 ws1 q1 lo l1 s0 area) as (q2 & E2 & Hq2 & Hl2 & Ha2); [done|lia|lia|done..|].
  rewrite (obind_some _ _ _ _ _ E2). set (l2 := l1 ++ words_bytes ws1) in *.
  assert (L2 : zlen l2 = 8 + 8 * zlen ws1) by (unfold l2; rewrite zlen_app, zlen_words; lia).
  replace (lo + zlen l1 + 8 * zlen ws1) with (lo + zlen l2) by lia.
  destruct (put_next m free live T A lo n Hr mem0 q2 lo l2 z8 s0 area) as (q3 & E3 & Hq3 & Hl3 & Ha3); [done|lia|lia|done..|].
  rewrite (obind_some _ _ _ _ _ E3). set (l3 := l2 ++ z8) in *. assert (L3 : zlen l3 = zlen l2 + 8) by (unfold l3; rewrite zlen_app; lia).
  rewrite (mbind_ok _ _ _ (lo + zlen l3) (with_phys m q3)) by (apply mlift_ok; rewrite uadd_ok by lia; f_equal; lia).
  destruct (push_words_spec m free live T A lo n Hr mem0 ws2 q3 lo l3 s0 area) as (q4 & E4 & Hq4 & Hl4 & Ha4); [done|lia|lia|done..|].
  rewrite (obind_some _ _ _ _ _ E4). set (l4 := l3 ++ words_bytes ws2) in *.
  assert (L4 : zlen l4 = zlen l3 + 8 * zlen ws2) by (unfold l4; rewrite zlen_app, zlen_words; lia).
  replace (lo + zlen l3 + 8 * zlen ws2) with (lo + zlen l4) by lia.
  destruct (put_next m free live T A lo n Hr mem0 q4 lo l4 z8 s0 area) as (q5 & E5 & Hq5 & Hl5 & Ha5); [done|lia|lia|done..|].
  rewrite (obind_some _ _ _ _ _ E5). set (l5 := l4 ++ z8) in *. assert (L5 : zlen l5 = zlen l4 + 8) by (unfold l5; rewrite zlen_app; lia).
  rewrite (mbind_ok _ _ _ (lo + zlen l5) (with_phys m q5)) by (apply mlift_ok; rewrite uadd_ok by lia; f_equal; lia).
  destruct (put_next m free live T A lo n Hr mem0 q5 lo l5 z16 s0 area) as (q6 & E6 & Hq6 & Hl6 & Ha6); [done|lia|lia|done..|].
  rewrite (obind_some _ _ _ _ _ E6). exists q6. split; [done|]. split; [done|]. split; [|done].
  rewrite words_cons, !words_app. fold l1. change (words_bytes [0]) with z8. change (words_bytes [0; 0; 0]) with (z8 ++ z16).
  unfold l5, l4, l3, l2 in Hl6. rewrite <-!app_assoc in Hl6. exact Hl6.
Qed.

(** C30: on a stack whose memory is mapped, [setup_stack] returns a stack pointer
    aligned to 64 bytes with the table there: the number of arguments, the
    pointers to the arguments and a null, those to the environment and a null,
    and an empty auxiliary vector. Each pointer is that of its string with its
    terminator, and no byte of memory in use outside the range from the stack
    pointer to the old one is changed. *)
Theorem setup_stack_correct m free live T A sp argv envp :
  let s := stack_pointer sp argv envp in
  sys_ok h rs (sys m) free live (get_address_space m) T A → user_range A live T s (sp - s) → aligned sp 16 →
  Forall (Forall is_byte) argv → Forall (Forall is_byte) envp →
  ∃ q, setup_stack ks sp (zlen argv) argv envp m = Ok (Some s, with_phys m q) ∧
    sys_ok h rs (sys (with_phys m q)) free live (get_address_space m) T A ∧ aligned s 64 ∧
    holds h (words q) A s (stack_table sp argv envp) ∧
    (∀ i b, argv !! i = Some b → ∃ p, arg_ptrs sp argv !! i = Some p ∧ holds h (words q) A p (b ++ [0])) ∧
    (∀ i b, envp !! i = Some b → ∃ p, env_ptrs sp argv envp !! i = Some p ∧ holds h (words q) A p (b ++ [0])) ∧
    same_elsewhere h (words (phys (sys m))) (words q) A live s (sp - s).
Proof.
  intros s Hs Hr Hal Hargs Henvs. pose proof (ur_end _ _ _ _ _ Hr). pose proof (ur_base _ _ _ _ _ Hr).
  pose proof (zlen_nonneg (string_area argv)). pose proof (zlen_nonneg (string_area envp)). pose proof (zlen_nonneg argv). pose proof (zlen_nonneg envp).
  pose proof (stack_room sp argv envp) as Hroom. fold s in Hroom. unfold strings_start in Hroom. pose (q0 := phys (sys m)).
  assert (Em : m = with_phys m q0) by (destruct m as [[] ? ? ? ? ?]; done).
  assert (Hq0 : good m free live T A s (sp - s) (words q0) q0) by (split; [by rewrite <-Em|by intros ???]).
  assert (Hnil : holds h (words q0) A sp []) by (intros i Hi; unfold zlen in Hi; simpl in Hi; lia).
  replace (setup_stack ks sp (zlen argv) argv envp m) with (setup_stack ks sp (zlen argv) argv envp (with_phys m q0)) by (by rewrite <-Em).
  unfold setup_stack. rewrite mbind_assert by (by apply Z.eqb_eq). rewrite mbind_assert by (by apply is_multiple_of_spec).
  destruct (push_strings_spec m free live T A s (sp - s) Hr (words q0) argv sp [] q0 [] Hq0 Hargs ltac:(lia) ltac:(change (zlen []) with 0; lia) Hnil) as (q1 & E1 & Hq1 & Hh1).
  rewrite (obind_some _ _ _ _ _ E1). rewrite app_nil_r in Hh1. cbn [app].
  destruct (push_strings_spec m free live T A s (sp - s) Hr (words q0) envp (sp - zlen (string_area argv)) [] q1 (string_area argv) Hq1 Henvs ltac:(lia) ltac:(lia) Hh1) as (q2 & E2 & Hq2 & Hh2).
  rewrite (obind_some _ _ _ _ _ E2). cbn [app]. clear E1 E2. set (s0 := sp - zlen (string_area argv) - zlen (string_area envp)) in *.
  assert (El1 : zlen (string_ptrs sp argv) = zlen argv) by (unfold zlen; by rewrite length_string_ptrs).
  assert (El2 : zlen (string_ptrs (sp - zlen (string_area argv)) envp) = zlen envp) by (unfold zlen; by rewrite length_string_ptrs).
  rewrite El1, El2, (Z.mul_comm _ 8). rewrite (mbind_ok _ _ _ (s0 - 8 * (zlen argv + zlen envp + 5)) (with_phys m q2)) by (apply mlift_ok, usub_ok; lia).
  rewrite stack_land. change ((s0 - 8 * (zlen argv + zlen envp + 5)) / 64 * 64) with s.
  destruct (put_table_spec m free live T A s (sp - s) (words q0) q2 (zlen argv) (string_ptrs sp argv) (string_ptrs (sp - zlen (string_area argv)) envp) s0
    (string_area envp ++ string_area argv) Hr Hq2 ltac:(lia) ltac:(rewrite zlen_app; lia) Hh2) as (q & E & [Hsq Hel] & Ht & Hst).
  exists q. split; [exact E|]. split; [exact Hsq|]. apply holds_app in Hst as [Hse Hsa].
  replace (s0 + zlen (string_area envp)) with (sp - zlen (string_area argv)) in Hsa by (unfold s0; lia).
  split; [apply aligned_mul|]. split; [exact Ht|]. split; [intros i b; by apply string_ptrs_hold|]. split; [intros i b; by apply string_ptrs_hold|exact Hel].
Qed.
End stack_proofs.
