(* ===== verification/UserDemo.v ===== *)
(** * A process that runs

    A machine with a process that has mapped memory and an open file, on which
    the theorems about virtual memory, copying and system calls are applied,
    and what happens with arguments that the kernel does not check. *)

From stdpp Require Import list_tactics.
From S2P Require Import Prelude RBTree FreeSet Bytes PhysMem PageTable KernelVM VmPages FsTypes BlockDevice CharDevice RamFs FakeFs DevFs Vfs KernelFs File UserVM UserFault Process UserCopy Syscall Elf Stack.

#[global] Instance NodeRef_dec : EqDecision NodeRef.
Proof. solve_decision. Defined.
#[global] Instance FileMapping_dec : EqDecision (FileMapping NodeRef).
Proof. solve_decision. Defined.
#[global] Instance MapBacking_dec : EqDecision (MapBacking NodeRef).
Proof. solve_decision. Defined.
#[global] Instance Mapping_dec : EqDecision (Mapping NodeRef).
Proof. solve_decision. Defined.
#[global] Instance mapping_tree : RBTree (@mbase NodeRef) (list (Mapping NodeRef)) := list_tree Z.le mbase.
#[global] Instance mapping_tree_spec : RBTreeSpec Z.le mapping_tree.
Proof. apply list_tree_spec; apply _. Qed.

#[export] Instance fb_CharMmap : CharMmap LimineFramebuffer := {
  cd_prepare_mmap N := fb_prepare_mmap (Some 0xE0000000);
}.

Abbreviation DemoW := (World (VirtIOBlkDiskDriver MemDisk) LimineFramebuffer).
Abbreviation DemoVM := (VirtualMemory (list Free) (list Free) (list (Mapping NodeRef))).
Abbreviation DemoSys := (@System DemoW FsRef NodeRef).

(** ** Memory *)

(** A process without mappings, and one with two pages mapped at 0x10000. *)
Definition demo_vm0 : DemoVM :=
  match vm_new 0x1000 with Ok v => v | _ => mkVM FreeSet.new rb_empty 0 end.
Definition demo_vm : DemoVM :=
  match mmap demo_file_world None 0x2000 WRITABLE false (Some 0x10000) demo_vm0 with Ok (_, v) => v | _ => demo_vm0 end.
Definition demo_mapping : Mapping NodeRef := mkMapping MapBacking.Anonymous 0x2000 WRITABLE false 0x10000.

Lemma demo_vm0_ok : vm_ok demo_vm0.
Proof.
  destruct (vm_new_ok (TB := list Free) (TL := list Free) (TA := list (Mapping NodeRef)) 0x1000) as (v & E & Hv & _ & _).
  unfold demo_vm0. rewrite E. exact Hv.
Qed.

Lemma demo_vm_ok : vm_ok demo_vm ∧ demo_mapping ∈ rb_elems (active_set demo_vm).
Proof.
  pose proof (mmap_spec demo_file_world None 0x2000 WRITABLE false (Some 0x10000) demo_vm0 demo_vm0_ok) as Hm.
  destruct Hm as [Hm _]; [done|by intros b [= <-]|]. destruct Hm as (v & E & Hv & _ & _ & Hp).
  { intros a Ha. apply (vo_cover _ demo_vm0_ok). split; [unfold user_address, USERSPACE_START, USERSPACE_END; lia|].
    intros m Hmm. vm_compute in Hmm. by apply not_elem_of_nil in Hmm. }
  unfold demo_vm. rewrite E. split; [exact Hv|]. rewrite Hp. left.
Qed.

Lemma mmap_correct_witness :
  (∃ v', mmap demo_file_world None 0x1000 WRITABLE false None demo_vm = Ok (0x12000, v') ∧ vm_ok v') ∧
  mmap demo_file_world None 0x2000 WRITABLE false (Some (2 ^ 64 - 0x1000)) demo_vm = Panic.
Proof.
  assert (Hfree : ∀ a, 0x20000 ≤ a < 0x21000 → covers (free_set demo_vm) a).
  { intros a Ha. apply (vo_cover _ (proj1 demo_vm_ok)). split; [unfold user_address, USERSPACE_START, USERSPACE_END; lia|].
    intros m Hm. vm_compute in Hm. apply list_elem_of_singleton in Hm as ->. unfold inside, mend. simpl. lia. }
  split.
  - destruct (mmap_correct demo_file_world None 0x1000 WRITABLE false None demo_vm (proj1 demo_vm_ok) ltac:(by intros)
      ltac:(by intros)) as [_ H].
    destruct (H MapBacking.Anonymous) as [[Hok _] _]; [by exists 1|constructor|done|by intros|].
    destruct Hok as (base & v' & E & _ & Hv & _); [exists 0x20000; split; [by intros|exact Hfree]|].
    exists v'. split; [|exact Hv]. rewrite E. revert E. vm_compute. by intros [= <- _].
  - destruct (mmap_correct demo_file_world None 0x2000 WRITABLE false (Some (2 ^ 64 - 0x1000)) demo_vm (proj1 demo_vm_ok)
      ltac:(by intros base [= <-]) ltac:(by intros)) as [_ H].
    destruct (H MapBacking.Anonymous) as (_ & Hov & _); [by exists 2|constructor|].
    apply (Hov (2 ^ 64 - 0x1000)); [done|done|]. exists 0x20000. split; [done|]. apply Hfree. lia.
Defined.

(** ** Page faults *)

Definition demo_file_kernel : Kernel DemoW FsRef NodeRef := mkKernel VFS_new demo_file_world.

Definition demo_sys0 : DemoSys := mkSystem demo_phys ∅ demo_file_kernel.

Lemma demo_table : page_table demo_vm = 0x1000.
Proof. vm_compute. reflexivity. Qed.

Lemma demo_sys0_ok : sys_ok 0x100000 pt_map demo_sys0 [] [0x1000] (page_table demo_vm) [0x1000] (λ _, None).
Proof. rewrite demo_table. split; [exact demo_space|]. intros k f Hk. done. Qed.

Definition demo_sys : DemoSys :=
  match handle_page_fault demo_vm false 0x10008 demo_sys0 with Ok (_, s) => s | _ => demo_sys0 end.

Lemma demo_fault_runs : match handle_page_fault demo_vm false 0x10008 demo_sys0 with Ok _ => true | _ => false end = true.
Proof. vm_compute. reflexivity. Qed.

Lemma demo_inside : inside demo_mapping (Z.land 0x10008 0xFFFFFFFFFFFFF000).
Proof. split; vm_compute; [discriminate|reflexivity]. Qed.

Lemma user_fault_correct_witness :
  ∃ s', handle_page_fault demo_vm false 0x10008 demo_sys0 = Ok (tt, s') ∧
    fresh_page 0x100000 pt_map demo_sys0 [0x1000] (page_table demo_vm) [0x1000] (λ _, None) 0x10000
      (Z.lor user_permissions WRITABLE) (eq (zrep PAGE_SIZE 0)) s'.
Proof.
  destruct (user_fault_correct 0x100000 pt_map pt_map_ok pt_map_48 demo_vm demo_sys0 [] [0x1000] [0x1000] (λ _, None) 0x10008
    demo_sys0_ok (proj1 demo_vm_ok) ltac:(done)) as [_ H].
  specialize (H demo_mapping (proj2 demo_vm_ok) demo_inside I). pose proof demo_fault_runs as Hr. unfold outcome in H.
  destruct (handle_page_fault demo_vm false 0x10008 demo_sys0) as [[[] s']|[e s']|]; [|discriminate|discriminate].
  exists s'. split; [reflexivity|exact H].
Defined.

(** The page at 0x10000 is mapped now, to a frame of its own. *)
Lemma demo_sys_ok : ∃ free live T A, sys_ok 0x100000 pt_map demo_sys free live 0x1000 T A ∧ user_range A live T 0x10000 0x1000.
Proof.
  assert (Hf : outcome 0x100000 pt_map (handle_page_fault demo_vm false 0x10008 demo_sys0) (page_table demo_vm) (λ _, None) 0x10000
    (λ _, fresh_page 0x100000 pt_map demo_sys0 [0x1000] (page_table demo_vm) [0x1000] (λ _, None) 0x10000
      (Z.lor user_permissions WRITABLE) (private_content 0x100000 demo_sys0 demo_mapping 0x10000)) (private_panics demo_sys0 demo_mapping 0x10000)).
  { rewrite (fault_run demo_vm demo_mapping demo_sys0 0x10008 (proj1 demo_vm_ok) (proj2 demo_vm_ok) demo_inside false). rewrite (mbind_ok _ _ demo_sys0 tt demo_sys0) by done.
    apply (private_fault 0x100000 pt_map pt_map_ok pt_map_48 demo_sys0 [] [0x1000] (page_table demo_vm) [0x1000] (λ _, None) 0x10000 demo_mapping demo_sys0_ok); done. }
  pose proof demo_fault_runs as Hr. unfold demo_sys, outcome in *.
  destruct (handle_page_fault demo_vm false 0x10008 demo_sys0) as [[[] s']|[e s']|]; [|done|done].
  destruct Hf as (f & free & new & A & Hfl & Hs & Hu & _). rewrite demo_table in Hs. exists free, (new ++ [f; 0x1000]), (new ++ [0x1000]), A. split; [exact Hs|].
  assert (Hin : f ∈ new ++ [f; 0x1000]) by (apply elem_of_app; right; left).
  destruct (live_frame 0x100000 pt_map pt_map_ok pt_map_48 _ _ _ f (space_phys _ _ _ _ _ _ _ _ (proj1 Hs)) Hin) as (Hal & H0 & H1 & _).
  assert (HA : ∀ i, 0 ≤ i < 0x1000 → frame_at A (0x10000 + i) = Some f).
  { intros i Hi. unfold frame_at. rewrite Hu. rewrite decide_True.
    - simpl. f_equal. destruct (leaf_entry_bits f (Z.lor user_permissions WRITABLE)) as [_ ->]. apply mask_frame; [done|unfold PAGE_SIZE in *; lia].
    - unfold page_number. f_equal. change (0x10000 / PAGE_SIZE) with 0x10. symmetry. apply (Z.div_unique _ _ _ i); unfold PAGE_SIZE; lia. }
  split; [done|by vm_compute| |].
  - intros i Hi. exists f. split; [by apply HA|]. split; [done|]. eapply fresh_not_table; [exact Hs|done|].
    intros g ->%list_elem_of_singleton. left.
  - intros i j Hi Hj _. unfold PAGE_SIZE. transitivity 0x10; [symmetry|]; [apply (Z.div_unique _ _ _ i)|apply (Z.div_unique _ _ _ j)]; lia.
Qed.

(** ** Copying *)

Abbreviation DemoM := (@Machine DemoW FsRef NodeRef (list Free) (list Free) (list (Mapping NodeRef)) (list VirtualMemoryEntry) (list VirtualMemoryEntry)).

(** The ranges of the kernel: sixteen pages, two in use. *)
Definition kbase : Z := 2 ^ 63.
Definition demo_kvmes : VirtualMemoryEntryContainer (list VirtualMemoryEntry) (list VirtualMemoryEntry) :=
  mkVMES kbase (kbase + pages 16) [mkVME (kbase + pages 4) PAGE_SIZE 0; mkVME (kbase + pages 8) PAGE_SIZE 0]
    (isort kle free_key [mkVME kbase (pages 4) 0; mkVME (kbase + pages 5) (pages 3) 0; mkVME (kbase + pages 9) (pages 7) 0]).

Definition demo_process : @Process NodeRef (list Free) (list Free) (list (Mapping NodeRef)) := mkProcess demo_vm None 1 {[3 := 0]} None.
Definition demo_machine : DemoM := mkMachine demo_sys demo_kvmes {[0 := File_new (NRam 0 1)]} 1 demo_process [].

Lemma demo_space_of : get_address_space demo_machine = 0x1000.
Proof. exact demo_table. Qed.

Lemma user_copy_roundtrip_witness :
  ∃ m', copy_to_user 0x2000 0x10010 [104; 105] demo_machine = Ok (tt, m') ∧ copy_from_user 0x2000 0x10010 2 m' = Ok ([104; 105], m').
Proof.
  destruct demo_sys_ok as (free & live & T & A & Hs & Hr).
  destruct (user_copy_roundtrip 0x100000 pt_map pt_map_ok pt_map_48 0x2000 demo_machine free live T A 0x10010 [104; 105]) as (q & E1 & _ & E2 & _).
  - rewrite demo_space_of. exact Hs.
  - apply (user_range_sub A live T 0x10000 0x1000 0x10 2 Hr); lia.
  - repeat constructor; lia.
  - eexists. split; [exact E1|exact E2].
Defined.

(** ** Files *)

Lemma demo_open : open_at demo_machine 3 0 (NRam 0 1) [] 0.
Proof. split; reflexivity. Qed.

Lemma demo_kernel_same : kernel demo_sys = demo_file_kernel.
Proof. vm_compute. reflexivity. Qed.

Lemma file_io_roundtrip_witness :
  ∃ m1 m2 m3, do_sys_write 0x2000 3 0x10000 8 demo_machine = Ok (8, m1) ∧
    do_sys_lseek 3 0 SEEK_SET m1 = Ok (0, m2) ∧ do_sys_read 0x2000 3 0x10800 8 m2 = Ok (8, m3).
Proof.
  destruct demo_sys_ok as (free & live & T & A & Hs & Hr).
  destruct (file_io_roundtrip 0x100000 pt_map pt_map_ok pt_map_48 0x2000 demo_machine free live T A 3 0x10000 0x10800 8 0 (NRam 0 1) [] 0)
    as (l & m1 & m2 & m3 & _ & _ & E1 & E2 & E3 & _).
  - rewrite demo_space_of. exact Hs.
  - exact demo_open.
  - unfold demo_machine. cbn [sys]. rewrite demo_kernel_same. apply demo_file_refines.
  - discriminate.
  - discriminate.
  - vm_compute. discriminate.
  - vm_compute. discriminate.
  - lia.
  - lia.
  - lia.
  - lia.
  - apply (user_range_sub A live T 0x10000 0x1000 0 8 Hr); lia.
  - lia.
  - lia.
  - apply (user_range_sub A live T 0x10000 0x1000 0x800 8 Hr); lia.
  - exists m1, m2, m3. split; [exact E1|]. split; [exact E2|exact E3].
Defined.

(** ** A pointer into the kernel *)

Lemma space_fresh h rs s free live f :
  phys_inv h rs s free live → f ∈ live → root_of f = f → (∀ i, (i < PTE_PER_PAGE)%nat → pte h (words s) f i = 0) →
  address_space h rs s free live f [f] (λ _, None).
Proof.
  intros Hp Hf Hr Hz. exists (fresh 3 f). split; [by rewrite fresh_root|]. split; [by rewrite fresh_frames|].
  split; [|intros v; by rewrite fresh_mapped]. split; [exact Hp|by apply fresh_rep| |].
  - rewrite fresh_frames. intros g ->%list_elem_of_singleton. exact Hf.
  - rewrite fresh_frames. apply NoDup_singleton.
Qed.

(** Two address spaces: 0x1000 of the process and 0x2000 of the kernel. *)
Definition demo_phys2 : PhysMem := match frame_alloc tt demo_phys with Ok (_, s) => s | _ => demo_phys end.

Lemma demo_phys2_inv : phys_inv 0x100000 pt_map demo_phys2 [] [0x2000; 0x1000].
Proof.
  destruct demo_space as (t & _ & _ & Hpt & _). pose proof (pt_phys _ _ _ _ _ _ Hpt) as Hi. clear t Hpt.
  destruct (frame_alloc_bump _ _ pt_map_ok demo_phys [0x1000] Hi) as [(_ & f & s' & E & Hi')|(_ & s' & E & _)]; vm_compute in E; [|done].
  injection E as <- <-. exact Hi'.
Qed.

Definition demo_machine2 : DemoM := mkMachine (mkSystem demo_phys2 ∅ demo_file_kernel) demo_kvmes ∅ 0 demo_process [].

Lemma demo_kvmes_inv : vm_inv demo_kvmes.
Proof. split; [vm_compute; discriminate|vm_compute; discriminate|by vm_compute|]. vm_compute. solve_Permutation. Qed.

Lemma demo_zero f i : f = 0x1000 ∨ f = 0x2000 → (i < PTE_PER_PAGE)%nat → pte 0x100000 (words demo_phys2) f i = 0.
Proof. intros _ _. unfold pte, word_at. assert (words demo_phys2 = ∅) as -> by (vm_compute; reflexivity). by rewrite lookup_empty. Qed.

Lemma write_replaces_kernel_page_witness :
  ∃ m', do_sys_write 0x2000 1 (kbase + pages 4) 8 demo_machine2 = Ok (minus_one, m').
Proof.
  destruct (write_replaces_kernel_page 0x100000 pt_map pt_map_ok pt_map_48 0x2000 demo_machine2 [] [0x2000; 0x1000] [0x1000] (λ _, None) [0x2000] (λ _, None)
    1 (kbase + pages 4) 8 (mkVME (kbase + pages 4) PAGE_SIZE 0)) as [(m' & _ & _ & _ & _ & _ & E & _)|(m' & E)].
  - split; [|done]. change (get_address_space demo_machine2) with (page_table demo_vm). rewrite demo_table.
    apply space_fresh; [exact demo_phys2_inv|right; left|reflexivity|intros i; apply demo_zero; by left].
  - apply space_fresh; [exact demo_phys2_inv|left|reflexivity|intros i; apply demo_zero; by right].
  - intros g ->%list_elem_of_singleton. intros [=]%list_elem_of_singleton.
  - exact demo_kvmes_inv.
  - vm_compute. left.
  - split; vm_compute; [discriminate|reflexivity].
  - split; vm_compute; discriminate.
  - reflexivity.
  - split; vm_compute; reflexivity.
  - exists m'. exact E.
  - exfalso. revert E. vm_compute. discriminate.
Defined.

(** ** Arguments that are not checked *)

(** [mmap] takes a fixed address that is not on a page boundary; a page fault in
    the mapping then stops the kernel. *)
Definition demo_unaligned : DemoM :=
  match sys_mmap 0x10800 0x1000 PROT_WRITE (Z.lor MAP_PRIVATE (Z.lor MAP_FIXED MAP_ANONYMOUS)) (-1) 0
          (set_proc (mkProcess demo_vm0 None 1 ∅ None) demo_machine) with
  | Ok (_, m) => m
  | _ => demo_machine
  end.
Lemma unaligned_mapping_panics :
  sys_mmap 0x10800 0x1000 PROT_WRITE (Z.lor MAP_PRIVATE (Z.lor MAP_FIXED MAP_ANONYMOUS)) (-1) 0
    (set_proc (mkProcess demo_vm0 None 1 ∅ None) demo_machine) = Ok (0x10800, demo_unaligned) ∧
  page_fault 0x2000 false 0x10900 demo_unaligned = Panic.
Proof. split; vm_compute; reflexivity. Qed.

(** A fixed address near the end of the address space stops the kernel. *)
Lemma mmap_overflow_panics :
  sys_mmap (2 ^ 64 - 0x1000) 0x2000 PROT_WRITE (Z.lor MAP_PRIVATE (Z.lor MAP_FIXED MAP_ANONYMOUS)) (-1) 0 demo_machine = Panic.
Proof. vm_compute. reflexivity. Qed.

(** User space goes up to 2^63, the page tables translate 48 bits: a page that is
    mapped at 2^48 + 0x40000 is mapped at 0x40000. *)
Definition demo_high : DemoVM :=
  match mmap demo_file_world None 0x1000 WRITABLE false (Some (2 ^ 48 + 0x40000)) demo_vm with Ok (_, v) => v | _ => demo_vm end.
Definition demo_high_sys : DemoSys :=
  match handle_page_fault demo_high false (2 ^ 48 + 0x40000) demo_sys0 with Ok (_, s) => s | _ => demo_sys0 end.
Lemma high_mapping_aliases :
  find_mapping demo_high 0x40000 = Err (FError "out of mapped range") ∧
  match get_phys_addr 0x40000 0x1000 (phys demo_sys0), get_phys_addr 0x40000 0x1000 (phys demo_high_sys) with
  | Ok (None, _), Ok (Some _, _) => true
  | _, _ => false
  end = true.
Proof. split; vm_compute; reflexivity. Qed.

(** A mapping of length 0 is accepted where a mapping begins, so that two
    mappings have the same base. *)
Lemma empty_mapping_duplicates :
  match mmap demo_file_world None 0x1000 0 false (Some 0x20000) demo_vm0 with
  | Ok (_, v) =>
      match mmap demo_file_world None 0 0 false (Some 0x20000) v with
      | Ok (_, v) => mbase <$> rb_elems (active_set v)
      | _ => []
      end
  | _ => []
  end = [0x20000; 0x20000].
Proof. vm_compute. reflexivity. Qed.

(** Copying to a process does not look at the permissions of the page: a page that
    is mapped read-only is written. *)
Definition demo_readonly : DemoM :=
  match mmap demo_file_world None 0x1000 0 false (Some 0x20000) demo_vm0 with
  | Ok (_, v) => mkMachine demo_sys0 demo_kvmes ∅ 0 (mkProcess v None 1 ∅ None) []
  | _ => demo_machine
  end.
Lemma readonly_page_written :
  match copy_to_user 0x2000 0x20000 [1; 2; 3] demo_readonly with
  | Ok (_, m) => match copy_from_user 0x2000 0x20000 4 m with Ok (l, _) => l | _ => [] end
  | _ => []
  end = [1; 2; 3; 0].
Proof. vm_compute. reflexivity. Qed.

(** ** Programs *)

(** A program of two segments: its code with the headers, and its data. *)
Definition demo_elf : list Z :=
  elf_bytes (mkElfHeader EI_MAG 2 1 1 0 0 (zrep 7 0) 2 0xB7 1 0x400100 64 0 0 64 56 3 64 0 0) ++
  ph_bytes (mkProgramHeader PT_LOAD 5 0 0x400000 0x400000 0x110 0x110 0x1000) ++
  ph_bytes (mkProgramHeader PT_LOAD 6 0x108 0x402108 0x402108 8 0x2000 0x1000) ++
  ph_bytes (mkProgramHeader PT_GNU_STACK 6 0 0 0 0 0 16) ++ zrep 40 0.
Definition demo_elf_world : DemoW :=
  match vn_write_unaligned (NRam 0 1) 0 demo_elf demo_file_world with Ok (_, w) => w | _ => demo_file_world end.

Lemma demo_elf_bytes : Forall is_byte demo_elf.
Proof. apply (bool_decide_unpack _). vm_compute. exact I. Qed.

Lemma elf_header_roundtrip_witness :
  @ElfHeader_parse ElfError demo_elf = Ok (mkElfHeader EI_MAG 2 1 1 0 0 (zrep 7 0) 2 0xB7 1 0x400100 64 0 0 64 56 3 64 0 0).
Proof.
  destruct (elf_header_roundtrip (mkElfHeader EI_MAG 2 1 1 0 0 (zrep 7 0) 2 0xB7 1 0x400100 64 0 0 64 56 3 64 0 0)
    (mkProgramHeader PT_LOAD 5 0 0x400000 0x400000 0x110 0x110 0x1000) (drop 64 demo_elf) (zrep 56 0)) as [E _].
  - split; [reflexivity|]. split; [reflexivity|]. repeat constructor; vm_compute; discriminate || reflexivity.
  - repeat constructor; vm_compute; discriminate || reflexivity.
  - repeat constructor; vm_compute; discriminate || reflexivity.
  - reflexivity.
  - exact E.
Defined.

Lemma elf_load_correct_witness :
  ∃ s', load (NRam 0 1) (demo_elf_world, demo_vm) = Ok (0x400100, s') ∧
    mbase <$> rb_elems (active_set s'.2) ≡ₚ [0x400000; 0x402000; 0x10000].
Proof.
  destruct (elf_load_correct (NRam 0 1) demo_elf demo_elf_world demo_vm) as [(_ & _ & _ & s' & phs & E & _)|(_ & e & s' & k & phs & E & _)].
  - exact demo_elf_bytes.
  - reflexivity.
  - vm_compute. reflexivity.
  - exact (proj1 demo_vm_ok).
  - vm_compute. discriminate.
  - intros ph Hin. vm_compute in Hin.
    repeat (apply elem_of_cons in Hin as [[= ->]|Hin]; [intros Hl; vm_compute in Hl |- *; first [discriminate|split; [reflexivity|discriminate]]|]).
    by apply not_elem_of_nil in Hin.
  - exists s'. split; [exact E|]. revert E. vm_compute. intros [= <-]. solve_Permutation.
  - exfalso. revert E. vm_compute. discriminate.
Defined.

(** A segment whose size and padding overflow stops the kernel. *)
Definition demo_bad_elf : list Z :=
  elf_bytes (mkElfHeader EI_MAG 2 1 1 0 0 (zrep 7 0) 2 0xB7 1 0x400100 64 0 0 64 56 1 64 0 0) ++
  ph_bytes (mkProgramHeader PT_LOAD 5 8 0x400008 0x400008 0 (2 ^ 64 - 1) 0x1000).
Definition demo_bad_world : DemoW :=
  match vn_write_unaligned (NRam 0 1) 0 demo_bad_elf demo_file_world with Ok (_, w) => w | _ => demo_file_world end.
Lemma elf_size_panics : load (NRam 0 1) (demo_bad_world, demo_vm) = Panic.
Proof. vm_compute. reflexivity. Qed.

Lemma setup_stack_correct_witness :
  ∃ m', setup_stack 0x2000 0x11000 2 [[108; 115]; [45; 108]] [] demo_machine = Ok (Some 0x10FC0, m') ∧
    ∃ A, holds 0x100000 (words (phys (sys m'))) A 0x10FC0 (words_bytes [2; 0x10FFD; 0x10FFA; 0; 0; 0; 0]).
Proof.
  destruct demo_sys_ok as (free & live & T & A & Hs & Hr).
  destruct (setup_stack_correct 0x100000 pt_map pt_map_ok pt_map_48 0x2000 demo_machine free live T A 0x11000 [[108; 115]; [45; 108]] []) as (q & E & _ & _ & Ht & _).
  - rewrite demo_space_of. exact Hs.
  - apply (user_range_sub A live T 0x10000 0x1000 0xFC0 0x40 Hr); lia.
  - by exists 0x1100.
  - repeat constructor; lia.
  - constructor.
  - eexists. split; [exact E|]. exists A. exact Ht.
Defined.
