(* ===== verification/Symbols.v ===== *)
(** * Debug symbols (src/symbols.rs, buildtool/src/debug/io.rs, buildtool/src/debug/util.rs)

    The build tool collects the functions and source lines of the kernel and
    writes them to a file; the kernel reads the file to name the addresses of a
    backtrace.  The extraction from DWARF sections calls third-party parsers;
    its results are the arguments of the writer here. *)

From stdpp Require Import list_tactics.
From S2P Require Import Prelude Bytes.

(** [usize::MAX] stands for a missing index. *)
Definition MISSING : Z := usize_max.

(** ** Interval maps (util.rs) *)

(** A [BTreeMap] from the start of a range to its end and value: the bindings in
    the order of their keys. *)
Abbreviation IntervalMap V := (list (Z * (Z * V))).

Section interval_map.
Context {V : Type}.

Definition im_new : IntervalMap V := [].

(** [BTreeMap::insert]. *)
Fixpoint bt_insert (k : Z) (x : Z * V) (m : IntervalMap V) : IntervalMap V :=
  match m with
  | [] => [(k, x)]
  | (k', x') :: m' =>
      if k <? k' then (k, x) :: m
      else if k =? k' then (k, x) :: m'
      else (k', x') :: bt_insert k x m'
  end.

(** [map.range(..=k).next_back()]. *)
Definition range_back (k : Z) (m : IntervalMap V) : option (Z * (Z * V)) := last (filter (λ p, p.1 ≤ k) m).

Definition im_get (k : Z) (m : IntervalMap V) : option (Z * Z * V) :=
  match range_back k m with
  | Some (start, (end_, value)) => if (start <=? k) && (k <? end_) then Some (start, end_, value) else None
  | None => None
  end.

(** [BTreeMap::range] panics if the range is reversed. *)
Definition im_insert {E} (start end_ : Z) (value : V) (m : IntervalMap V) : res E (bool * IntervalMap V) :=
  if end_ <? start then Panic
  else if existsb (λ '(s, (e, _)), (start <=? s) && (s <=? end_) && ((s <? end_) && (start <? e))) m then Ok (false, m)
  else Ok (true, bt_insert start (end_, value) m).

Definition im_remove (key : Z) (m : IntervalMap V) : option V * IntervalMap V :=
  match range_back key m with
  | Some (start, (end_, value)) =>
      if (start <=? key) && (key <? end_) then (Some value, filter (λ p, p.1 ≠ start) m) else (None, m)
  | None => (None, m)
  end.
End interval_map.

(** ** Interned strings (util.rs) *)

Record InternStringTable : Type := mkStrings {
  entries : list (list Z);
  interned : gmap (list Z) Z;
}.
Definition strings_new : InternStringTable := mkStrings [] ∅.

Definition intern (str : list Z) (s : InternStringTable) : Z * InternStringTable :=
  match interned s !! str with
  | Some i => (i, s)
  | None => let index := zlen (entries s) in (index, mkStrings (entries s ++ [str]) (<[str := index]> (interned s)))
  end.

(** [write]: the strings with their terminators, and the offset of each. *)
Fixpoint string_offsets (base : Z) (l : list (list Z)) : list Z :=
  match l with [] => [] | s :: l => base :: string_offsets (base + zlen s + 1) l end.
Definition string_buf (l : list (list Z)) : list Z := concat ((λ s, s ++ [0]) <$> l).
Definition strings_write (s : InternStringTable) (out : list Z) : list Z :=
  out ++ le_bytes 8 (zlen (string_buf (entries s))) ++ string_buf (entries s).
Definition str_resolve {E} (s : InternStringTable) (index : Z) : res E Z :=
  if index =? MISSING then Ok MISSING else unwrap (zat (string_offsets 0 (entries s)) index).

(** The closure of [lazy_intern_table]: its cache and the table. *)
Record Lazy : Type := mkLazy { cache : list Z; lazy_table : list (list Z) }.
Definition lazy_intern_table (table : list (list Z)) : Lazy := mkLazy (zrep (zlen table) MISSING) table.
Definition lazy_intern {E} (f : Z) (l : Lazy) (s : InternStringTable) : res E (Z * (Lazy * InternStringTable)) :=
  if f =? MISSING then Ok (MISSING, (l, s))
  else
    let? c := unwrap (zat (cache l) f) in
    if c =? MISSING then
      let? str := unwrap (zat (lazy_table l) f) in
      let '(i, s) := intern str s in
      Ok (i, (mkLazy (<[Z.to_nat f := i]> (cache l)) (lazy_table l), s))
    else Ok (c, (l, s)).

(** ** What is read from the DWARF sections (dwarf.rs) *)

Record SourceLocation : Type := mkSrcLoc { sl_file : Z; sl_row : Z; sl_col : Z }.
Record LineEntry : Type := mkLineEntry { le_address : Z; le_location : SourceLocation }.
Record LineSequence : Type := mkLineSequence { ls_range : Z * Z; ls_rows : list LineEntry }.
Record LineInfo : Type := mkLineInfo { li_files : list (list Z); li_sequences : list LineSequence }.

Inductive InlinedFunctionInfo : Type :=
| mkInlined (in_ranges : list (Z * Z)) (in_name : option (list Z)) (in_inlined : list InlinedFunctionInfo) (in_location : SourceLocation).
Record FunctionInfo : Type := mkFunctionInfo {
  fi_ranges : list (Z * Z);
  fi_inlined : list InlinedFunctionInfo;
  fi_name : option (list Z);
  fi_location : SourceLocation;
}.

(** ** The writer (io.rs) *)

Record LocationEntry : Type := mkLoc { l_file : Z; l_row : Z; l_col : Z }.
#[export] Instance LocationEntry_dec : EqDecision LocationEntry.
Proof. solve_decision. Defined.
Definition LOC_NULL : LocationEntry := mkLoc MISSING 0 0.

Record FunctionEntry : Type := mkFun { f_inline_parent : Z; f_name : Z; f_location : LocationEntry }.

Record DebugModuleFileWriter : Type := mkWriter {
  strings : InternStringTable;
  functions : list FunctionEntry;
  location_search : IntervalMap (list (Z * LocationEntry));
  function_search : IntervalMap Z;
}.
Definition writer_new : DebugModuleFileWriter := mkWriter strings_new [] im_new im_new.

(** [SearchTableWritable]: entries of a search table, with the entry that ends a
    range and the bytes of an entry. *)
Class SearchTableWritable (T : Type) : Type := {
  st_dec :: EqDecision T;
  NULL : T;
  st_write : InternStringTable → T → res unit (list Z);
}.

(** [TryInto::<u32>::try_into(x).unwrap()]. *)
Definition as_u32 {E} (x : Z) : res E Z := if (0 <=? x) && (x <? 2 ^ 32) then Ok x else Panic.

Definition location_write {E} (s : InternStringTable) (l : LocationEntry) : res E (list Z) :=
  let? file := str_resolve s (l_file l) in
  let? row := as_u32 (l_row l) in
  let? col := as_u32 (l_col l) in
  Ok (le_bytes 8 file ++ le_bytes 4 row ++ le_bytes 4 col).
Definition function_write {E} (s : InternStringTable) (f : FunctionEntry) : res E (list Z) :=
  let? name := str_resolve s (f_name f) in
  let? loc := location_write s (f_location f) in
  Ok (le_bytes 8 (f_inline_parent f) ++ le_bytes 8 name ++ loc).

#[export] Instance location_writable : SearchTableWritable LocationEntry := {
  NULL := LOC_NULL;
  st_write := location_write;
}.
#[export] Instance index_writable : SearchTableWritable Z := {
  NULL := MISSING;
  st_write _ i := Ok (le_bytes 8 i);
}.

(** The bytes of all functions, with their length. *)
Fixpoint functions_buf {E} (s : InternStringTable) (l : list FunctionEntry) : res E (list Z) :=
  match l with
  | [] => Ok []
  | f :: l => let? b := function_write s f in let? rest := functions_buf s l in Ok (b ++ rest)
  end.
Definition write_all {E} (s : InternStringTable) (l : list FunctionEntry) (out : list Z) : res E (list Z) :=
  let? buf := functions_buf s l in
  Ok (out ++ le_bytes 8 (zlen buf) ++ buf).

Section ranges.
Context {T : Type} `{SearchTableWritable T}.

Definition can_merge {E} (current next : Z * T) : res E (option (Z * T)) :=
  let? _ := rassert (current.1 <=? next.1) in
  if decide (current.2 = next.2) then Ok (Some current)
  else if current.1 =? next.1 then
    if decide (current.2 = NULL) then Ok (Some next) else Panic
  else Ok None.

Fixpoint filter_loop {E} (prev : Z * T) (l : list (Z * T)) : res E (list (Z * T)) :=
  match l with
  | [] => Ok [prev]
  | ele :: l =>
      let? m := can_merge prev ele in
      match m with
      | Some new => filter_loop new l
      | None => let? rest := filter_loop ele l in Ok (prev :: rest)
      end
  end.
Definition filter_ranges {E} (l : list (Z * T)) : res E (list (Z * T)) :=
  match l with [] => Ok [] | prev :: l => filter_loop prev l end.

Fixpoint ranges_buf (s : InternStringTable) (prev_addr : Z) (l : list (Z * T)) : res unit (list Z) :=
  match l with
  | [] => Ok []
  | (addr, inst) :: l =>
      let? _ := rassert (prev_addr <? addr) in
      let? d := usub addr 0xffffffff80000000 in
      let? a := as_u32 d in
      let? b := st_write s inst in
      let? rest := ranges_buf s addr l in
      Ok (le_bytes 4 a ++ b ++ rest)
  end.
Definition write_ranges (s : InternStringTable) (iter : list (Z * T)) (out : list Z) : res unit (list Z) :=
  let? l := filter_ranges iter in
  let? buf := ranges_buf s 0 l in
  Ok (out ++ le_bytes 8 (zlen buf) ++ buf).
End ranges.

Definition location_markers (m : IntervalMap (list (Z * LocationEntry))) : list (Z * LocationEntry) :=
  concat ((λ '(_, (end_, value)), value ++ [(end_, LOC_NULL)]) <$> m).
Definition function_markers (m : IntervalMap Z) : list (Z * Z) :=
  concat ((λ '(start, (end_, value)), [(start, value); (end_, MISSING)]) <$> m).

Definition write (w : DebugModuleFileWriter) : res unit (list Z) :=
  let out := le_bytes 8 0 in
  let out := strings_write (strings w) out in
  let? out := write_all (strings w) (functions w) out in
  let? out := write_ranges (strings w) (location_markers (location_search w)) out in
  write_ranges (strings w) (function_markers (function_search w)) out.

(** The closures that [translate_loc] is called with: a lazy table, or the one
    that gives no file. *)
Definition intern_file {E} (f : Z) (c : option Lazy) (s : InternStringTable) : res E (Z * (option Lazy * InternStringTable)) :=
  match c with
  | Some l => let? r := lazy_intern f l s in let '(i, (l, s)) := r in Ok (i, (Some l, s))
  | None => Ok (MISSING, (None, s))
  end.
Definition translate_loc {E} (loc : SourceLocation) (c : option Lazy) (s : InternStringTable) : res E (LocationEntry * (option Lazy * InternStringTable)) :=
  let? r := intern_file (sl_file loc) c s in
  let '(file, cs) := r in
  Ok (mkLoc file (sl_row loc) (sl_col loc), cs).

(** The rows of a sequence that are in its range. *)
Fixpoint translate_rows {E} (range : Z * Z) (rows : list LineEntry) (c : option Lazy) (s : InternStringTable)
    : res E (list (Z * LocationEntry) * (option Lazy * InternStringTable)) :=
  match rows with
  | [] => Ok ([], (c, s))
  | row :: rows =>
      if (range.1 <=? le_address row) && (le_address row <? range.2) then
        let? r := translate_loc (le_location row) c s in
        let '(loc, (c, s)) := r in
        let? r := translate_rows range rows c s in
        let '(rest, cs) := r in
        Ok ((le_address row, loc) :: rest, cs)
      else translate_rows range rows c s
  end.

Fixpoint write_sequences {E} (l : list LineSequence) (c : option Lazy) (w : DebugModuleFileWriter) : res E DebugModuleFileWriter :=
  match l with
  | [] => Ok w
  | entry :: l =>
      let? r := translate_rows (ls_range entry) (ls_rows entry) c (strings w) in
      let '(result, (c, s)) := r in
      let? r := im_insert (ls_range entry).1 (ls_range entry).2 result (location_search w) in
      let? _ := rassert r.1 in
      write_sequences l c (mkWriter s (functions w) r.2 (function_search w))
  end.
Definition write_line {E} (line_info : LineInfo) (w : DebugModuleFileWriter) : res E DebugModuleFileWriter :=
  write_sequences (li_sequences line_info) (Some (lazy_intern_table (li_files line_info))) w.

Definition intern_name (name : option (list Z)) (s : InternStringTable) : Z * InternStringTable :=
  match name with Some n => intern n s | None => (MISSING, s) end.

Definition im_insert_new {E} (start end_ id : Z) (m : IntervalMap Z) : res E (IntervalMap Z) :=
  let? r := im_insert start end_ id m in
  let? _ := rassert r.1 in
  Ok r.2.

(** The body of the loop over the ranges of an inlined function: its range is
    cut out of that of its parent. *)
Definition place_inlined {E} (expected_parent fn_id : Z) (range : Z * Z) (m : IntervalMap Z) : res E (IntervalMap Z) :=
  match im_get range.1 m with
  | None => Panic
  | Some (pstart, pend, parent_id) =>
      let? _ := rassert (parent_id =? expected_parent) in
      let? _ := rassert ((pstart <=? range.1) && (range.2 <=? pend)) in
      let m := (im_remove range.1 m).2 in
      let? m := (if pstart <? range.1 then im_insert_new pstart range.1 parent_id m else Ok m) in
      let? m := (if range.2 <? pend then im_insert_new range.2 pend parent_id m else Ok m) in
      im_insert_new range.1 range.2 fn_id m
  end.
Fixpoint place_all {E} (expected_parent fn_id : Z) (ranges : list (Z * Z)) (m : IntervalMap Z) : res E (IntervalMap Z) :=
  match ranges with
  | [] => Ok m
  | r :: ranges => let? m := place_inlined expected_parent fn_id r m in place_all expected_parent fn_id ranges m
  end.

Fixpoint write_inlined {E} (f : InlinedFunctionInfo) (expected_parent : Z) (c : option Lazy) (w : DebugModuleFileWriter)
    : res E (option Lazy * DebugModuleFileWriter) :=
  match f with
  | mkInlined ranges name inlined location =>
      let fn_id := zlen (functions w) in
      let '(name, s) := intern_name name (strings w) in
      let? r := translate_loc location c s in
      let '(loc, (c, s)) := r in
      let? m := place_all expected_parent fn_id ranges (function_search w) in
      (fix go (l : list InlinedFunctionInfo) (c : option Lazy) (w : DebugModuleFileWriter) :=
         match l with
         | [] => Ok (c, w)
         | g :: l => let? r := write_inlined g fn_id c w in go l r.1 r.2
         end) inlined c (mkWriter s (functions w ++ [mkFun MISSING name loc]) (location_search w) m)
  end.
Fixpoint write_inlined_all {E} (l : list InlinedFunctionInfo) (fn_id : Z) (c : option Lazy) (w : DebugModuleFileWriter)
    : res E (option Lazy * DebugModuleFileWriter) :=
  match l with
  | [] => Ok (c, w)
  | g :: l => let? r := write_inlined g fn_id c w in write_inlined_all l fn_id r.1 r.2
  end.

Fixpoint insert_ranges {E} (ranges : list (Z * Z)) (fn_id : Z) (m : IntervalMap Z) : res E (IntervalMap Z) :=
  match ranges with
  | [] => Ok m
  | (start, end_) :: ranges => let? m := im_insert_new start end_ fn_id m in insert_ranges ranges fn_id m
  end.

Definition write_function {E} (func : FunctionInfo) (info : option LineInfo) (w : DebugModuleFileWriter) : res E DebugModuleFileWriter :=
  let fn_id := zlen (functions w) in
  let '(name, s) := intern_name (fi_name func) (strings w) in
  let? r := match info with
            | Some info =>
                let? r := translate_loc (fi_location func) (Some (lazy_intern_table (li_files info))) s in
                let '(loc, (_, s)) := r in Ok (loc, s)
            | None => Ok (LOC_NULL, s)
            end in
  let '(loc, s) := r in
  let? m := insert_ranges (fi_ranges func) fn_id (function_search w) in
  let w := mkWriter s (functions w ++ [mkFun MISSING name loc]) (location_search w) m in
  let? r := write_inlined_all (fi_inlined func) fn_id (lazy_intern_table ∘ li_files <$> info) w in
  Ok r.2.

(** ** The reader in the kernel (symbols.rs) *)

Record Location : Type := mkLocation { file : list Z; row : Z; col : Z }.
Record FunctionSymbol : Type := mkSymbol { name : list Z; inline_parent : option Z; location : option Location }.

Record SymbolTable : Type := mkTable {
  data : list Z;
  strings_offset : Z;
  strings_len : Z;
  functions_offset : Z;
  functions_count : Z;
  location_search_offset : Z;
  location_search_len : Z;
  function_search_offset : Z;
  function_search_len : Z;
}.

Definition FUNCTION_ENTRY_SIZE : Z := 32.
Definition KERNEL_BASE : Z := 0xffffffff80000000.

(** [None] is an error: the functions of the reader leave on it. *)
Abbreviation opt A := (res unit A).

Definition read_usize (data : list Z) (pos : Z) : opt (Z * Z) :=
  let? e := uadd pos 8 in
  if e <=? zlen data then Ok (le_val (sub data pos 8), e) else Err tt.

Definition parse (data : list Z) : opt SymbolTable :=
  if zlen data <? 8 then Err tt else
  let pos := 8 in
  let? (strings_len, pos) := read_usize data pos in
  let strings_offset := pos in
  let? pos := uadd pos strings_len in
  let? (functions_len, pos) := read_usize data pos in
  if negb (functions_len mod FUNCTION_ENTRY_SIZE =? 0) then Err tt else
  let functions_offset := pos in
  let functions_count := functions_len / FUNCTION_ENTRY_SIZE in
  let? pos := uadd pos functions_len in
  let? (location_search_len, pos) := read_usize data pos in
  let location_search_offset := pos in
  let? pos := uadd pos location_search_len in
  let? (function_search_len, pos) := read_usize data pos in
  let function_search_offset := pos in
  Ok (mkTable data strings_offset strings_len functions_offset functions_count location_search_offset location_search_len
        function_search_offset function_search_len).

Definition get_string (t : SymbolTable) (offset : Z) : opt (list Z) :=
  if offset =? MISSING then Err tt else
  let? start := uadd (strings_offset t) offset in
  let? end_ := uadd (strings_offset t) (strings_len t) in
  if end_ <=? start then Err tt else
  let? bytes := slice (data t) start end_ in
  match position_nul bytes with
  | None => Err tt
  | Some len =>
      let? s := slice (data t) start (start + len) in
      if utf8_valid s then Ok s else Err tt
  end.

(** The argument of [then_some] is evaluated first: a file that is missing ends
    the call with [None]. *)
Definition read_location (t : SymbolTable) (pos : Z) : opt (option Location) :=
  let? f := get_le 8 (data t) pos in
  let? s := get_string t f in
  let? r := get_le 4 (data t) (pos + 8) in
  let? c := get_le 4 (data t) (pos + 12) in
  Ok (if f =? MISSING then None else Some (mkLocation s r c)).

Definition get_function (t : SymbolTable) (idx : Z) : opt FunctionSymbol :=
  if functions_count t <=? idx then Err tt else
  let? o := umul idx FUNCTION_ENTRY_SIZE in
  let? base := uadd (functions_offset t) o in
  let? e := uadd base FUNCTION_ENTRY_SIZE in
  if zlen (data t) <? e then Err tt else
  let? parent := get_le 8 (data t) base in
  let? name_offset := get_le 8 (data t) (base + 8) in
  let? n := get_string t name_offset in
  let? loc := read_location t (base + 16) in
  Ok (mkSymbol n (if parent =? MISSING then None else Some parent) loc).

(** The loop of [lookup]; the interval halves every turn, so 64 turns are enough. *)
Fixpoint function_search_loop (fuel : nat) (t : SymbolTable) (offset_addr lo hi : Z) (best : option Z) : opt (option Z) :=
  match fuel with
  | O => Ok best
  | S fuel =>
      if lo <? hi then
        let mid := lo + (hi - lo) / 2 in
        let? o := umul mid 12 in
        let? pos := uadd (function_search_offset t) o in
        let? e := uadd pos 12 in
        if zlen (data t) <? e then Err tt else
        let? entry_addr := get_le 4 (data t) pos in
        if entry_addr <=? offset_addr then
          let? idx := get_le 8 (data t) (pos + 4) in
          function_search_loop fuel t offset_addr (mid + 1) hi (if idx =? MISSING then best else Some idx)
        else function_search_loop fuel t offset_addr lo mid best
      else Ok best
  end.
Definition search_function (t : SymbolTable) (offset_addr : Z) : opt (option Z) :=
  function_search_loop 64 t offset_addr 0 (function_search_len t / 12) None.

Definition lookup (t : SymbolTable) (addr : Z) : opt FunctionSymbol :=
  if addr <? KERNEL_BASE then Err tt else
  let offset := addr - KERNEL_BASE in
  if 2 ^ 32 - 1 <? offset then Err tt else
  let? best := search_function t offset in
  match best with Some idx => get_function t idx | None => Err tt end.

Fixpoint location_search_loop (fuel : nat) (t : SymbolTable) (offset_addr lo hi : Z) (best : option Location) : opt (option Location) :=
  match fuel with
  | O => Ok best
  | S fuel =>
      if lo <? hi then
        let mid := lo + (hi - lo) / 2 in
        let? o := umul mid 20 in
        let? pos := uadd (location_search_offset t) o in
        let? entry_addr := get_le 4 (data t) pos in
        if entry_addr <=? offset_addr then
          let? best := read_location t (pos + 4) in
          location_search_loop fuel t offset_addr (mid + 1) hi best
        else location_search_loop fuel t offset_addr lo mid best
      else Ok best
  end.
Definition lookup_location (t : SymbolTable) (addr : Z) : opt Location :=
  if (addr <? KERNEL_BASE) || (2 ^ 32 - 1 <? addr - KERNEL_BASE) then Err tt else
  let? best := location_search_loop 64 t (addr - KERNEL_BASE) 0 (location_search_len t / 20) None in
  match best with Some l => Ok l | None => Err tt end.

(** [SYMBOL_TABLE], which is set once. *)
Definition try_init_table (table : SymbolTable) (s : option SymbolTable) : bool * option SymbolTable :=
  match s with Some _ => (false, s) | None => (true, Some table) end.
Definition lookup_symbol (s : option SymbolTable) (addr : Z) : opt FunctionSymbol :=
  match s with Some t => lookup t addr | None => Err tt end.
(** The function [lookup_location]. *)
Definition symbol_location (s : option SymbolTable) (addr : Z) : opt Location :=
  match s with Some t => lookup_location t addr | None => Err tt end.


(** ** Search tables *)

Lemma filter_all {A} (P : A → Prop) `{∀ x, Decision (P x)} l : Forall P l → filter P l = l.
Proof. induction 1 as [|x l Hx _ IH]; [done|]. by rewrite filter_cons_True, IH. Qed.
Lemma filter_none {A} (P : A → Prop) `{∀ x, Decision (P x)} l : Forall (λ x, ¬ P x) l → filter P l = [].
Proof. induction 1 as [|x l Hx _ IH]; [done|]. by rewrite filter_cons_False. Qed.

(** The value of the last entry at or below an address. *)
Definition value_at {T} (l : list (Z * T)) (a : Z) : option T := snd <$> last (filter (λ e, e.1 ≤ a) l).

(** Ascending addresses; two entries at an address only if the first ends a
    range or they are the same. *)
Fixpoint chain {T} `{SearchTableWritable T} (prev : Z * T) (l : list (Z * T)) : Prop :=
  match l with
  | [] => True
  | e :: l => prev.1 ≤ e.1 ∧ (prev.1 = e.1 → prev.2 = e.2 ∨ prev.2 = NULL) ∧ chain e l
  end.

(** Strictly ascending from [lo] on. *)
Fixpoint ascending {T} (lo : Z) (l : list (Z * T)) : Prop :=
  match l with [] => True | e :: l => lo < e.1 ∧ ascending e.1 l end.

Section filter.
Context {T : Type} `{SearchTableWritable T}.
Implicit Types (l : list (Z * T)) (e : Z * T).

Lemma value_cons e l a : value_at (e :: l) a =
  match value_at l a with Some v => Some v | None => if decide (e.1 ≤ a) then Some e.2 else None end.
Proof.
  unfold value_at. rewrite filter_cons. destruct (decide (e.1 ≤ a)); simpl; [|by destruct (last _)].
  rewrite last_cons. by destruct (last (filter _ l)).
Qed.

Lemma can_merge_spec {E} prev e : prev.1 ≤ e.1 → (prev.1 = e.1 → prev.2 = e.2 ∨ prev.2 = NULL) →
  ∃ o, @can_merge _ _ E prev e = Ok o ∧
    match o with
    | Some new => new.1 = prev.1 ∧ new.2 = e.2 ∧ ∀ l a, value_at (new :: l) a = value_at (prev :: e :: l) a
    | None => prev.1 < e.1
    end.
Proof.
  intros Hle Heq. unfold can_merge. rewrite (proj2 (Z.leb_le _ _) Hle). cbn [rassert rbind].
  destruct (decide (prev.2 = e.2)) as [Hv|Hv]; [|destruct (Z.eqb_spec prev.1 e.1) as [Ha|Ha]].
  - eexists. split; [done|]. split_and!; [done..|]. intros l a. rewrite !value_cons.
    destruct (value_at l a); [done|]. destruct (decide (e.1 ≤ a)); [rewrite decide_True by lia; by f_equal|done].
  - destruct (Heq Ha) as [?|Hn]; [done|]. rewrite decide_True by done. eexists. split; [done|]. split_and!; [done..|].
    intros l a. rewrite !value_cons. destruct (value_at l a); [done|]. destruct (decide (e.1 ≤ a)); [done|rewrite decide_False by lia; done].
  - exists None. simpl. split; [done|lia].
Qed.

(** Merging keeps the value at every address and leaves one entry per address. *)
Lemma filter_loop_spec {E} l prev lo : chain prev l → lo < prev.1 →
  ∃ out, @filter_loop _ _ E prev l = Ok out ∧ ascending lo out ∧ (∀ a, value_at out a = value_at (prev :: l) a) ∧
    (∀ e, e ∈ out → e.1 ∈ (prev :: l).*1 ∧ e.2 ∈ (prev :: l).*2).
Proof.
  revert prev lo. induction l as [|e l IH]; intros prev lo Hc Hlo.
  { exists [prev]. simpl. split_and!; [done..|]. intros e ->%list_elem_of_singleton. split; left. }
  destruct Hc as (Hle & Heq & Hc). destruct (can_merge_spec (E := E) prev e Hle Heq) as (o & Em & Ho). cbn [filter_loop]. rewrite Em. cbn [rbind].
  destruct o as [new|].
  - destruct Ho as (Hn1 & Hn2 & Hval). destruct (IH new lo) as (out & Eo & Ha & Hv & Hin).
    + destruct l as [|e' l]; [done|]. destruct Hc as (? & Heq' & ?). simpl. rewrite Hn1, Hn2. split_and!; [lia| |done]. intros. apply Heq'. lia.
    + lia.
    + exists out. split_and!; [done..|intros a; by rewrite Hv, Hval|]. intros x Hx. destruct (Hin x Hx) as [H1 H2].
      simpl in H1, H2 |- *. rewrite Hn1 in H1. rewrite Hn2 in H2. clear -H1 H2. set_solver.
  - destruct (IH e prev.1 Hc Ho) as (out & Eo & Ha & Hv & Hin). rewrite Eo. cbn [rbind]. exists (prev :: out).
    split_and!; [done|split; done| |].
    + intros a. rewrite !(value_cons prev), Hv. done.
    + intros x Hx. apply elem_of_cons in Hx as [->|Hx]; [split; left|]. destruct (Hin x Hx). split; right; done.
Qed.
End filter.

(** ** The search *)

(** The position of the first entry above an address. *)
Definition splits (es : list (Z * Z)) (t : Z) (p : nat) : Prop :=
  (p ≤ length es)%nat ∧ (∀ i e, es !! i = Some e → (i < p)%nat → e.1 ≤ t) ∧ (∀ i e, es !! i = Some e → (p ≤ i)%nat → t < e.1).

Lemma splits_value es t p : splits es t p → value_at es t = snd <$> match p with O => None | S q => es !! q end.
Proof.
  intros (Hp & Hlo & Hhi). unfold value_at. f_equal. rewrite <-(take_drop p es) at 1. rewrite filter_app.
  assert (filter (λ e, e.1 ≤ t) (drop p es) = []) as ->.
  { apply filter_none. apply Forall_lookup. intros i e Hi. rewrite lookup_drop in Hi. specialize (Hhi _ _ Hi). lia. }
  rewrite app_nil_r. rewrite filter_all.
  - destruct p as [|q]; [done|]. rewrite last_lookup, length_take, Nat.min_l by done. simpl. by rewrite lookup_take_lt by lia.
  - apply Forall_lookup. intros i e Hi. apply lookup_take_Some in Hi as [Hi ?]. by apply (Hlo i).
Qed.

(** The bytes of a table of functions. *)
Definition entry_bytes (e : Z * Z) : list Z := le_bytes 4 e.1 ++ le_bytes 8 e.2.
Definition entry_fits (e : Z * Z) : Prop := 0 ≤ e.1 < 2 ^ 32 ∧ 0 ≤ e.2 ≤ usize_max.

(** The table that the file has. *)
Record has_search (t : SymbolTable) (es : list (Z * Z)) : Prop := mk_has_search {
  hs_off : 0 ≤ function_search_offset t;
  hs_len : function_search_len t = 12 * zlen es;
  hs_data : sub (data t) (function_search_offset t) (12 * zlen es) = concat (entry_bytes <$> es);
  hs_end : function_search_offset t + 12 * zlen es ≤ zlen (data t);
  hs_max : zlen (data t) ≤ usize_max;
  hs_fits : Forall entry_fits es;
}.

Lemma le_val_fit n z : 0 ≤ z < 256 ^ Z.of_nat n → le_val (le_bytes n z) = z.
Proof. intros Hz. by rewrite le_val_bytes, Z.mod_small. Qed.

(** Parts of a part of a list. *)
Lemma concat_sub {A} (f : A → list Z) (k : Z) l i x : (∀ y, y ∈ l → zlen (f y) = k) → l !! i = Some x →
  sub (concat (f <$> l)) (k * Z.of_nat i) k = f x.
Proof.
  intros Hf Hi. assert (Hk : 0 ≤ k) by (rewrite <-(Hf x) by (by eapply list_elem_of_lookup_2); apply zlen_nonneg).
  revert i Hi Hf. induction l as [|y l IH]; intros [|i] Hi Hf; simplify_eq/=.
  - rewrite Z.mul_0_r. apply sub_prefix. symmetry. apply Hf. left.
  - rewrite <-(IH i) by (done || (intros; apply Hf; by right)). unfold sub. f_equal. pose proof (Hf y ltac:(left)) as Hy. unfold zlen in Hy.
    replace (Z.to_nat (k * Z.of_nat (S i))) with (length (f y) + Z.to_nat (k * Z.of_nat i))%nat by lia. by rewrite <-drop_drop, drop_app_length.
Qed.

(** A field of a packed record that is part of a buffer. *)
Lemma record_field {E} ws vs l p k w v : 0 ≤ p → p + Z.of_nat (sum_list ws) ≤ zlen l → Forall2 fits ws vs →
  sub l p (Z.of_nat (sum_list ws)) = encode ws vs → ws !! k = Some w → vs !! k = Some v →
  @get_le E w l (p + Z.of_nat (sum_list (take k ws))) = Ok v.
Proof.
  intros Hp Hl Hf Hs Hk Hv. pose proof (take_drop_middle _ _ _ Hk) as Ek.
  assert (Hsum : (sum_list (take k ws) + w ≤ sum_list ws)%nat) by (rewrite <-Ek at 2; rewrite sum_list_with_app; simpl; unfold sum_list; lia).
  rewrite (get_le_window w l p _ (Z.of_nat (sum_list ws))) by lia. rewrite Hs.
  rewrite (get_field ws k w) by (rewrite ?length_encode by (by apply Forall2_length in Hf); done). f_equal.
  pose proof (decode_encode ws vs [] Hf) as E0. rewrite app_nil_r in E0. rewrite E0. by apply nth_lookup_Some.
Qed.

Section search.
Context (t : SymbolTable) (es : list (Z * Z)) (Hes : has_search t es).

Lemma search_entry (i : nat) e : es !! i = Some e → let pos := function_search_offset t + Z.of_nat i * 12 in
  pos + 12 ≤ zlen (data t) ∧ @get_le unit 4 (data t) pos = Ok e.1 ∧ @get_le unit 8 (data t) (pos + 4) = Ok e.2.
Proof.
  intros He pos. destruct Hes as [Hoff Hlen Hdata Hend Hmax Hfit]. pose proof (lookup_lt_Some _ _ _ He) as Hi.
  assert (Hz : Z.of_nat i < zlen es) by (unfold zlen; lia).
  assert (Hb : sub (data t) pos 12 = entry_bytes e).
  { rewrite <-(concat_sub entry_bytes 12 es i e); [|done|done]. rewrite <-Hdata, sub_sub by lia. f_equal. unfold pos. lia. }
  rewrite Forall_forall in Hfit. destruct (Hfit e) as [H1 H2]; [by eapply list_elem_of_lookup_2|].
  assert (Hf : Forall2 fits [4; 8]%nat [e.1; e.2]).
  { repeat constructor; unfold fits, usize_max in *; change (256 ^ Z.of_nat 8) with (2 ^ 64); change (256 ^ Z.of_nat 4) with (2 ^ 32); lia. }
  assert (Hr : sub (data t) pos (Z.of_nat (sum_list [4; 8]%nat)) = encode [4; 8]%nat [e.1; e.2]) by exact Hb.
  split; [unfold pos; lia|]. split.
  - pose proof (record_field (E := unit) [4; 8]%nat [e.1; e.2] (data t) pos 0 4 e.1 ltac:(unfold pos; lia) ltac:(unfold pos; simpl; lia) Hf Hr eq_refl eq_refl) as E1. by rewrite Z.add_0_r in E1.
  - exact (record_field (E := unit) [4; 8]%nat [e.1; e.2] (data t) pos 1 8 e.2 ltac:(unfold pos; lia) ltac:(unfold pos; simpl; lia) Hf Hr eq_refl eq_refl).
Qed.

(** The best match once the entries below [lo] are known to be at or below the
    address. *)
Definition best_ok (lo : Z) (best : option Z) : Prop :=
  (lo = 0 → best = None) ∧ (∀ e, 0 < lo → es !! Z.to_nat (lo - 1) = Some e → e.2 ≠ MISSING → best = Some e.2).

Lemma function_search_spec a p fuel lo hi best :
  splits es a p → 0 ≤ lo ≤ Z.of_nat p → Z.of_nat p ≤ hi ≤ zlen es → hi - lo < 2 ^ Z.of_nat fuel → best_ok lo best →
  ∃ b, function_search_loop fuel t a lo hi best = Ok b ∧ best_ok (Z.of_nat p) b.
Proof.
  intros (Hp & Hbelow & Habove). revert lo hi best. induction fuel as [|fuel IH]; intros lo hi best Hlo Hhi Hf Hb.
  { exists best. split; [done|]. simpl in Hf. by replace (Z.of_nat p) with lo by lia. }
  cbn [function_search_loop]. destruct (Z.ltb_spec lo hi) as [Hlt|Hge].
  2: { exists best. split; [done|]. by replace (Z.of_nat p) with lo by lia. }
  set (mid := lo + (hi - lo) / 2). rewrite Nat2Z.inj_succ, Z.pow_succ_r in Hf by lia.
  assert (Hmid : lo ≤ mid < hi ∧ hi - (mid + 1) < 2 ^ Z.of_nat fuel ∧ mid - lo < 2 ^ Z.of_nat fuel).
  { unfold mid. pose proof (Z.div_mod (hi - lo) 2). pose proof (Z.mod_pos_bound (hi - lo) 2). lia. }
  destruct (lookup_lt_is_Some_2 es (Z.to_nat mid)) as [e He]; [unfold zlen in *; lia|].
  pose proof (search_entry (Z.to_nat mid) e He) as Hse. cbv zeta in Hse. rewrite Z2Nat.id in Hse by lia. destruct Hse as (Hend & E1 & E2).
  pose proof (hs_max _ _ Hes). pose proof (hs_off _ _ Hes). rewrite umul_ok by lia. cbn [rbind]. rewrite uadd_ok by lia. cbn [rbind].
  rewrite uadd_ok by lia. cbn [rbind]. rewrite (proj2 (Z.ltb_ge _ _) Hend), E1. cbn [rbind].
  destruct (Z.leb_spec e.1 a) as [Hle|Hgt].
  - rewrite E2. cbn [rbind]. assert (mid < Z.of_nat p). { destruct (Z.lt_ge_cases mid (Z.of_nat p)); [done|]. specialize (Habove _ _ He). lia. }
    apply IH; [lia..|]. split; [lia|]. intros e' _ He' Hm. replace (mid + 1 - 1) with mid in He' by lia. rewrite He in He'. injection He' as <-.
    destruct (Z.eqb_spec e.2 MISSING); done.
  - assert (Z.of_nat p ≤ mid). { destruct (Z.lt_ge_cases mid (Z.of_nat p)); [|done]. specialize (Hbelow _ _ He). lia. }
    apply IH; [lia..|done].
Qed.

Lemma ascending_lookup (l : list (Z * Z)) lo i j e e' : ascending lo l → l !! i = Some e → l !! j = Some e' → (i < j)%nat → e.1 < e'.1.
Proof.
  revert lo i j. induction l as [|x l IH]; intros lo i j Ha Hi Hj Hij; [done|]. destruct Ha as [_ Ha].
  destruct i as [|i], j as [|j]; simplify_eq/=; [lia| |lia|by eapply (IH _ i j); [..|lia]].
  clear IH. revert e j Hj Hij Ha. induction l as [|y l IH]; intros e j Hj Hij Ha; [done|]. destruct Ha as [? Ha].
  destruct j as [|j]; simplify_eq/=; [done|]. etransitivity; [done|]. apply (IH y j); [done|lia|done].
Qed.

Lemma ascending_splits lo a : ascending lo es → ∃ p, splits es a p.
Proof.
  intros Ha. exists (length (filter (λ e, e.1 ≤ a) es)). clear Hes. revert lo Ha. induction es as [|e l IH]; intros lo Ha; [by split_and!; intros|].
  destruct Ha as [_ Ha]. destruct (IH _ Ha) as (H1 & H2 & H3). rewrite filter_cons. destruct (decide (e.1 ≤ a)) as [Hd|Hd]; simpl.
  - unfold splits. split_and!; [simpl; lia|..]; intros [|i] x Hi ?; simplify_eq/=; try lia; [by apply (H2 i); [|lia]|by apply (H3 i); [|lia]].
  - assert (filter (λ e, e.1 ≤ a) l = []) as ->.
    { apply filter_none, Forall_lookup. intros i x Hi. pose proof (ascending_lookup (e :: l) (e.1 - 1) 0 (S i) e x). simpl in *. naive_solver lia. }
    unfold splits. split_and!; [simpl; lia|intros; simpl in *; lia|]. intros [|i] x Hi ?; simplify_eq/=; [lia|].
    pose proof (ascending_lookup (e :: l) (e.1 - 1) 0 (S i) e x). simpl in *. naive_solver lia.
Qed.
End search.

Lemma search_function_spec t es a :
  has_search t es → ascending (-1) es →
  ∃ b, search_function t a = Ok b ∧ (value_at es a = None → b = None) ∧
    (∀ idx, value_at es a = Some idx → idx ≠ MISSING → b = Some idx).
Proof.
  intros Hes Ha. destruct (ascending_splits es (-1) a Ha) as [p Hp]. pose proof (splits_value es a p Hp) as Hv.
  pose proof (zlen_nonneg es). pose proof (hs_max _ _ Hes). pose proof (hs_end _ _ Hes). pose proof (hs_off _ _ Hes).
  destruct (function_search_spec t es Hes a p 64 0 (zlen es) None Hp) as (b & E & Hb0 & Hb1).
  - lia.
  - destruct Hp as [Hp _]. unfold zlen. lia.
  - unfold usize_max in *. change (2 ^ Z.of_nat 64) with (2 ^ 64). lia.
  - split; [done|]. intros e Hlt. lia.
  - exists b. unfold search_function. rewrite (hs_len _ _ Hes). replace (12 * zlen es / 12) with (zlen es) by (rewrite Z.mul_comm, Z.div_mul; lia).
    split; [exact E|]. rewrite Hv. destruct p as [|p]; simpl.
    + split; [intros _; by apply Hb0|done].
    + destruct Hp as [Hp _]. destruct (lookup_lt_is_Some_2 es p) as [e He]; [lia|]. rewrite He. simpl. split; [done|]. intros idx [= <-] Hm.
      apply Hb1; [lia| |done]. by replace (Z.to_nat (Z.of_nat (S p) - 1)) with p by lia.
Qed.

(** the binary search of [lookup] over a table with ascending addresses ends
    within its turns and agrees with a scan of the table: it finds the index of
    the last entry at or below the address if that entry has one, and nothing
    if there is no such entry. *)
Lemma symbol_search_correct t es a :
  has_search t es → ascending (-1) es →
  ∃ b, search_function t a = Ok b ∧ (value_at es a = None → b = None) ∧
    (∀ idx, value_at es a = Some idx → idx ≠ MISSING → b = Some idx).
Proof. apply search_function_spec. Qed.

(** ** The sections of the file *)

Definition section (X : list Z) : list Z := le_bytes 8 (zlen X) ++ X.

Lemma zlen_section X : zlen (section X) = 8 + zlen X.
Proof. unfold section. rewrite zlen_app. unfold zlen at 1. rewrite length_le_bytes. lia. Qed.

Lemma section_read pre X rest : zlen (pre ++ section X ++ rest) ≤ usize_max →
  read_usize (pre ++ section X ++ rest) (zlen pre) = Ok (zlen X, zlen pre + 8).
Proof.
  rewrite !zlen_app, zlen_section. intros Hm. pose proof (zlen_nonneg X). pose proof (zlen_nonneg pre). pose proof (zlen_nonneg rest).
  unfold read_usize. rewrite uadd_ok by lia. cbn [rbind]. rewrite !zlen_app, zlen_section.
  rewrite (proj2 (Z.leb_le _ _)) by lia. do 2 f_equal. rewrite <-(Z.add_0_r (zlen pre)), sub_suffix by lia. unfold section. rewrite <-app_assoc.
  rewrite sub_prefix by (unfold zlen; by rewrite length_le_bytes). apply le_val_fit. unfold usize_max in Hm. change (256 ^ Z.of_nat 8) with (2 ^ 64). lia.
Qed.

Lemma section_sub pre X rest q n : 0 ≤ q → 0 ≤ n → q + n ≤ zlen X → sub (pre ++ section X ++ rest) (zlen pre + 8 + q) n = sub X q n.
Proof.
  intros Hq Hn Hl. rewrite <-Z.add_assoc, sub_suffix by lia. unfold section. rewrite <-app_assoc.
  replace (8 + q) with (zlen (le_bytes 8 (zlen X)) + q) by (unfold zlen at 1; rewrite length_le_bytes; lia).
  rewrite sub_suffix by lia. unfold sub, zlen in *. rewrite drop_app_le by lia. apply take_app_le. rewrite length_drop. lia.
Qed.

Definition file_bytes (S F L G : list Z) : list Z := le_bytes 8 0 ++ section S ++ section F ++ section L ++ section G.
Definition table_of (S F L G : list Z) : SymbolTable :=
  let f := 16 + zlen S in
  let l := f + 8 + zlen F in
  let g := l + 8 + zlen L in
  mkTable (file_bytes S F L G) 16 (zlen S) (f + 8) (zlen F / 32) (l + 8) (zlen L) (g + 8) (zlen G).

Lemma zlen_file S F L G : zlen (file_bytes S F L G) = 40 + zlen S + zlen F + zlen L + zlen G.
Proof. unfold file_bytes. rewrite !zlen_app, !zlen_section. unfold zlen at 1. rewrite length_le_bytes. lia. Qed.

(** The file up to a section, the section, and the rest. *)
Lemma file_at_S S F L G : file_bytes S F L G = le_bytes 8 0 ++ section S ++ (section F ++ section L ++ section G).
Proof. done. Qed.
Lemma file_at_F S F L G : file_bytes S F L G = (le_bytes 8 0 ++ section S) ++ section F ++ (section L ++ section G).
Proof. unfold file_bytes. by rewrite <-!app_assoc. Qed.
Lemma file_at_L S F L G : file_bytes S F L G = (le_bytes 8 0 ++ section S ++ section F) ++ section L ++ section G.
Proof. unfold file_bytes. by rewrite <-!app_assoc. Qed.
Lemma file_at_G S F L G : file_bytes S F L G = (le_bytes 8 0 ++ section S ++ section F ++ section L) ++ section G ++ [].
Proof. unfold file_bytes. by rewrite <-!app_assoc, app_nil_r. Qed.

Lemma zlen_head : zlen (le_bytes 8 0) = 8.
Proof. done. Qed.

Lemma parse_file S F L G : zlen (file_bytes S F L G) ≤ usize_max → zlen F mod 32 = 0 → parse (file_bytes S F L G) = Ok (table_of S F L G).
Proof.
  intros Hm HF. pose proof (zlen_file S F L G) as Hlen. pose proof (zlen_nonneg S). pose proof (zlen_nonneg F).
  pose proof (zlen_nonneg L). pose proof (zlen_nonneg G). unfold parse. destruct (Z.ltb_spec (zlen (file_bytes S F L G)) 8); [lia|].
  assert (ES : read_usize (file_bytes S F L G) 8 = Ok (zlen S, 16)).
  { rewrite file_at_S in Hm |- *. exact (section_read (le_bytes 8 0) S _ Hm). }
  assert (EF : read_usize (file_bytes S F L G) (16 + zlen S) = Ok (zlen F, 16 + zlen S + 8)).
  { rewrite file_at_F in Hm |- *. replace (16 + zlen S) with (zlen (le_bytes 8 0 ++ section S)) by (rewrite zlen_app, zlen_section, zlen_head; lia).
    by rewrite section_read. }
  assert (EL : read_usize (file_bytes S F L G) (16 + zlen S + 8 + zlen F) = Ok (zlen L, 16 + zlen S + 8 + zlen F + 8)).
  { rewrite file_at_L in Hm |- *. replace (16 + zlen S + 8 + zlen F) with (zlen (le_bytes 8 0 ++ section S ++ section F)) by (rewrite !zlen_app, !zlen_section, zlen_head; lia).
    by rewrite section_read. }
  assert (EG : read_usize (file_bytes S F L G) (16 + zlen S + 8 + zlen F + 8 + zlen L) = Ok (zlen G, 16 + zlen S + 8 + zlen F + 8 + zlen L + 8)).
  { rewrite file_at_G in Hm |- *. replace (16 + zlen S + 8 + zlen F + 8 + zlen L) with (zlen (le_bytes 8 0 ++ section S ++ section F ++ section L)) by (rewrite !zlen_app, !zlen_section, zlen_head; lia).
    by rewrite section_read. }
  rewrite ES. cbn [rbind]. rewrite uadd_ok by lia. cbn [rbind]. rewrite EF. cbn [rbind]. unfold FUNCTION_ENTRY_SIZE. rewrite HF. cbn [Z.eqb negb].
  rewrite uadd_ok by lia. cbn [rbind]. rewrite EL. cbn [rbind]. rewrite uadd_ok by lia. cbn [rbind]. rewrite EG. done.
Qed.

(** ** Strings and functions of the file *)

Definition string_ok (s : list Z) : Prop := (0 ∉ s) ∧ utf8_valid s = true.

Lemma string_at base l i s off : string_offsets base l !! i = Some off → l !! i = Some s →
  ∃ pre post, string_buf l = pre ++ s ++ [0] ++ post ∧ off = base + zlen pre.
Proof.
  revert base i. induction l as [|x l IH]; intros base [|i] Ho Hs; simplify_eq/=.
  - exists [], (string_buf l). split; [unfold string_buf; simpl; by rewrite <-app_assoc|unfold zlen; simpl; lia].
  - destruct (IH _ _ Ho Hs) as (pre & post & E & ->). exists (x ++ [0] ++ pre), post. split; [|rewrite !zlen_app; change (zlen [0]) with 1; lia].
    change (string_buf (x :: l)) with ((x ++ [0]) ++ string_buf l). rewrite E. by rewrite <-!app_assoc.
Qed.

Lemma position_nul_app s post : 0 ∉ s → position_nul (s ++ 0 :: post) = Some (zlen s).
Proof.
  induction s as [|b s IH]; intros Hs; [done|]. rewrite not_elem_of_cons in Hs. destruct Hs as [Hb Hs]. simpl.
  destruct (Z.eqb_spec b 0); [done|]. rewrite IH by done. simpl. f_equal. rewrite zlen_cons. lia.
Qed.

(** A function in the file: its parent, the offsets of its name and file, row and
    column. *)
Definition fun_widths : list nat := [8; 8; 8; 4; 4]%nat.
Definition fun_bytes (vs : list Z) : list Z := encode fun_widths vs.

Lemma zlen_concat {A} (f : A → list Z) k l : (∀ x, x ∈ l → zlen (f x) = k) → zlen (concat (f <$> l)) = k * zlen l.
Proof.
  intros Hf. induction l as [|x l IH]; [unfold zlen; simpl; lia|]. cbn [fmap list_fmap concat]. rewrite zlen_app, zlen_cons, Hf by left.
  rewrite IH by (intros; apply Hf; by right). lia.
Qed.

Lemma zlen_fun x : Forall2 fits fun_widths x → zlen (fun_bytes x) = 32.
Proof. intros Hx. unfold zlen, fun_bytes. rewrite length_encode by (by apply Forall2_length in Hx). done. Qed.

Section file.
Context (S F L G : list Z).
Context (Hmax : zlen (file_bytes S F L G) ≤ usize_max).
Abbreviation t := (table_of S F L G).

Lemma get_string_spec pre s post : S = pre ++ s ++ [0] ++ post → string_ok s → zlen pre ≠ MISSING ∧ get_string t (zlen pre) = Ok s.
Proof.
  intros ES [Hnul Hutf]. change ([0] ++ post) with (0 :: post) in ES. pose proof (zlen_file S F L G) as Hlen. pose proof (zlen_nonneg F). pose proof (zlen_nonneg L). pose proof (zlen_nonneg G).
  assert (HS : zlen S = zlen pre + zlen s + 1 + zlen post) by (rewrite ES, !zlen_app, zlen_cons; lia).
  pose proof (zlen_nonneg pre). pose proof (zlen_nonneg s). pose proof (zlen_nonneg post).
  assert (Hsub : ∀ q n, 0 ≤ q → 0 ≤ n → q + n ≤ zlen S → sub (data t) (16 + q) n = sub S q n).
  { intros q n Hq Hn Hl. cbn [table_of data]. rewrite file_at_S. by rewrite <-(section_sub (le_bytes 8 0) S (section F ++ section L ++ section G) q n). }
  split; [unfold MISSING; lia|]. unfold get_string. destruct (Z.eqb_spec (zlen pre) MISSING); [unfold MISSING in *; lia|].
  cbn [table_of strings_offset strings_len]. rewrite !uadd_ok by lia. cbn [rbind]. destruct (Z.leb_spec (16 + zlen S) (16 + zlen pre)); [lia|].
  change (data _) with (data t). rewrite slice_ok by (cbn [table_of data]; lia). cbn [rbind]. replace (16 + zlen S - (16 + zlen pre)) with (zlen (s ++ 0 :: post)) by (rewrite zlen_app, zlen_cons; lia).
  rewrite Hsub by (rewrite ?zlen_app, ?zlen_cons; lia). rewrite ES at 1. rewrite <-(Z.add_0_r (zlen pre)) at 1. rewrite sub_suffix by lia. rewrite sub_all by done.
  rewrite position_nul_app by done. rewrite slice_ok by (cbn [table_of data]; lia). cbn [rbind]. replace (16 + zlen pre + zlen s - (16 + zlen pre)) with (zlen s) by lia.
  rewrite Hsub by lia. assert (sub S (zlen pre) (zlen s) = s) as ->; [|by rewrite Hutf].
  rewrite ES, <-(Z.add_0_r (zlen pre)), sub_suffix by lia. by apply sub_prefix.
Qed.

Lemma get_function_spec (recs : list (list Z)) (i : nat) parent no fo r c nm fl :
  F = concat (fun_bytes <$> recs) → Forall (Forall2 fits fun_widths) recs → recs !! i = Some [parent; no; fo; r; c] →
  get_string t no = Ok nm → get_string t fo = Ok fl → fo ≠ MISSING →
  get_function t (Z.of_nat i) = Ok (mkSymbol nm (if parent =? MISSING then None else Some parent) (Some (mkLocation fl r c))).
Proof.
  intros EF Hfits Hi Hn Hfl Hfo. pose proof (zlen_file S F L G) as Hlen. pose proof (zlen_nonneg S). pose proof (zlen_nonneg L). pose proof (zlen_nonneg G).
  assert (Hrl : ∀ x, x ∈ recs → zlen (fun_bytes x) = 32) by (intros x Hx; rewrite Forall_forall in Hfits; by apply zlen_fun, Hfits).
  assert (Hcat : zlen F = 32 * zlen recs) by (rewrite EF; by apply zlen_concat).
  pose proof (lookup_lt_Some _ _ _ Hi) as Hlt. assert (Hz : Z.of_nat i < zlen recs) by (unfold zlen; lia). set (base := 16 + zlen S + 8 + Z.of_nat i * 32).
  assert (Hb : sub (data t) base 32 = fun_bytes [parent; no; fo; r; c]).
  { rewrite <-(concat_sub fun_bytes 32 recs i _ Hrl Hi), <-EF. cbn [table_of data]. rewrite file_at_F.
    rewrite <-(section_sub (le_bytes 8 0 ++ section S) F (section L ++ section G)) by lia. f_equal. rewrite zlen_app, zlen_section, zlen_head. unfold base. lia. }
  assert (Hf : Forall2 fits fun_widths [parent; no; fo; r; c]) by (rewrite Forall_forall in Hfits; apply Hfits; by eapply list_elem_of_lookup_2).
  assert (Hend : base + 32 ≤ zlen (data t)) by (cbn [table_of data]; unfold base; lia).
  pose proof (λ k w v, record_field (E := unit) fun_widths _ (data t) base k w v ltac:(unfold base; lia) Hend Hf Hb) as Hr.
  unfold get_function. cbn [table_of functions_count functions_offset]. rewrite Hcat, (Z.mul_comm 32), Z.div_mul by lia.
  destruct (Z.leb_spec (zlen recs) (Z.of_nat i)); [lia|]. unfold FUNCTION_ENTRY_SIZE. rewrite umul_ok by lia. cbn [rbind].
  rewrite uadd_ok by lia. cbn [rbind]. fold base. change (data _) with (data t). pose proof (Hend : base + 32 ≤ zlen (file_bytes S F L G)). rewrite uadd_ok by lia. cbn [rbind].
  rewrite (proj2 (Z.ltb_ge _ _) Hend). pose proof (Hr 0%nat 8%nat parent eq_refl eq_refl) as R0. rewrite Z.add_0_r in R0. rewrite R0. cbn [rbind].
  rewrite (Hr 1%nat 8%nat no eq_refl eq_refl : get_le 8 (data t) (base + 8) = Ok no). cbn [rbind]. rewrite Hn. cbn [rbind]. unfold read_location.
  rewrite (Hr 2%nat 8%nat fo eq_refl eq_refl : get_le 8 (data t) (base + 16) = Ok fo). cbn [rbind]. rewrite Hfl. cbn [rbind].
  rewrite <-(Z.add_assoc base 16 8), <-(Z.add_assoc base 16 12).
  rewrite (Hr 3%nat 4%nat r eq_refl eq_refl : get_le 4 (data t) (base + (16 + 8)) = Ok r). cbn [rbind].
  rewrite (Hr 4%nat 4%nat c eq_refl eq_refl : get_le 4 (data t) (base + (16 + 12)) = Ok c). cbn [rbind].
  destruct (Z.eqb_spec fo MISSING); done.
Qed.
End file.

(** ** What the writer puts into the file *)

Definition index_ok (s : InternStringTable) (i : Z) : Prop := i = MISSING ∨ 0 ≤ i < zlen (entries s).
Definition loc_ok (s : InternStringTable) (l : LocationEntry) : Prop :=
  index_ok s (l_file l) ∧ 0 ≤ l_row l < 2 ^ 32 ∧ 0 ≤ l_col l < 2 ^ 32.
Definition fun_ok (s : InternStringTable) (f : FunctionEntry) : Prop :=
  0 ≤ f_inline_parent f ≤ usize_max ∧ index_ok s (f_name f) ∧ loc_ok s (f_location f).

Definition offset_of (s : InternStringTable) (i : Z) : Z :=
  if i =? MISSING then MISSING else default 0 (zat (string_offsets 0 (entries s)) i).
Definition fun_record (s : InternStringTable) (f : FunctionEntry) : list Z :=
  [f_inline_parent f; offset_of s (f_name f); offset_of s (l_file (f_location f)); l_row (f_location f); l_col (f_location f)].

Lemma length_string_offsets base l : length (string_offsets base l) = length l.
Proof. revert base. induction l as [|x l IH]; intros base; simpl; [done|]. by rewrite IH. Qed.

Lemma offset_spec s i : index_ok s i →
  @str_resolve unit s i = Ok (offset_of s i) ∧ (zlen (string_buf (entries s)) ≤ usize_max → 0 ≤ offset_of s i ≤ usize_max).
Proof.
  intros Hi. unfold str_resolve, offset_of. destruct (Z.eqb_spec i MISSING) as [|Hne]; [split; [done|unfold MISSING, usize_max; lia]|].
  destruct Hi as [|Hi]; [done|]. unfold zat. destruct (Z.ltb_spec i 0); [lia|].
  destruct (lookup_lt_is_Some_2 (string_offsets 0 (entries s)) (Z.to_nat i)) as [o Ho]; [rewrite length_string_offsets; unfold zlen in Hi; lia|].
  rewrite Ho. simpl. split; [done|]. intros Hm. destruct (lookup_lt_is_Some_2 (entries s) (Z.to_nat i)) as [x Hx]; [unfold zlen in Hi; lia|].
  destruct (string_at 0 _ _ _ _ Ho Hx) as (pre & post & E & ->). rewrite E, !zlen_app in Hm. change (zlen [0]) with 1 in Hm.
  pose proof (zlen_nonneg pre). pose proof (zlen_nonneg x). pose proof (zlen_nonneg post). lia.
Qed.

Lemma as_u32_ok {E} x : 0 ≤ x < 2 ^ 32 → @as_u32 E x = Ok x.
Proof. intros Hx. unfold as_u32. by rewrite (proj2 (Z.leb_le _ _)), (proj2 (Z.ltb_lt _ _)) by lia. Qed.

Lemma location_write_ok s l : loc_ok s l →
  @location_write unit s l = Ok (le_bytes 8 (offset_of s (l_file l)) ++ le_bytes 4 (l_row l) ++ le_bytes 4 (l_col l)).
Proof. intros (Hi & Hr & Hc). unfold location_write. rewrite (proj1 (offset_spec s _ Hi)). cbn [rbind]. by rewrite !as_u32_ok. Qed.

Lemma functions_buf_ok s l : Forall (fun_ok s) l → @functions_buf unit s l = Ok (concat (fun_bytes <$> (fun_record s <$> l))).
Proof.
  induction 1 as [|f l (Hp & Hn & Hl) _ IH]; [done|]. cbn [functions_buf]. unfold function_write.
  rewrite (proj1 (offset_spec s _ Hn)). cbn [rbind]. rewrite location_write_ok by done. cbn [rbind]. rewrite IH. cbn [rbind]. f_equal.
Qed.

(** The table of functions, relative to the base of the kernel. *)
Definition relative (e : Z * Z) : Z * Z := (e.1 - KERNEL_BASE, e.2).
Definition in_kernel (a : Z) : Prop := KERNEL_BASE ≤ a < KERNEL_BASE + 2 ^ 32.

Lemma ranges_buf_ok {T} `{SearchTableWritable T} s (l : list (Z * T)) (bytes : T → list Z) prev :
  ascending prev l → (∀ e, e ∈ l → in_kernel e.1 ∧ st_write s e.2 = Ok (bytes e.2)) →
  ranges_buf s prev l = Ok (concat ((λ e, le_bytes 4 (e.1 - KERNEL_BASE) ++ bytes e.2) <$> l)).
Proof.
  revert prev. induction l as [|[a x] l IH]; intros prev Ha Hl; [done|]. destruct Ha as [Hlt Ha]. cbn [ranges_buf]. simpl in Hlt.
  destruct (Hl (a, x)) as [Hk Hw]; [left|]. simpl in Hk, Hw. unfold in_kernel, KERNEL_BASE in Hk.
  rewrite (proj2 (Z.ltb_lt _ _) Hlt). cbn [rassert rbind]. rewrite usub_ok by lia. cbn [rbind]. rewrite as_u32_ok by lia. cbn [rbind].
  rewrite Hw. cbn [rbind]. rewrite (IH a Ha) by (intros; apply Hl; by right). cbn [rbind fmap list_fmap concat]. by rewrite <-app_assoc.
Qed.

(** Ranges in order that do not overlap, from [lo] on. *)
Fixpoint im_ok {V} (lo : Z) (m : IntervalMap V) : Prop :=
  match m with
  | [] => True
  | (s, (e, _)) :: m => lo ≤ s ∧ s < e ∧ im_ok e m
  end.
Definition im_bound {V} (m : IntervalMap V) : Prop := ∀ s e v, (s, (e, v)) ∈ m → e < KERNEL_BASE + 2 ^ 32.

Lemma im_ok_in {V} lo (m : IntervalMap V) s e v : im_ok lo m → (s, (e, v)) ∈ m → lo ≤ s ∧ s < e.
Proof.
  revert lo. induction m as [|[s' [e' v']] m IH]; intros lo Hm Hin; [by apply not_elem_of_nil in Hin|].
  destruct Hm as (? & ? & Hm). apply elem_of_cons in Hin as [[= -> -> ->]|Hin]; [done|]. destruct (IH _ Hm Hin). lia.
Qed.

Lemma function_markers_cons s e v m : function_markers ((s, (e, v)) :: m) = (s, v) :: (e, MISSING) :: function_markers m.
Proof. done. Qed.

Lemma function_markers_chain lo m prev : im_ok lo m → prev.1 ≤ lo → prev.2 = MISSING ∨ prev.1 < lo → chain prev (function_markers m).
Proof.
  revert lo prev. induction m as [|[s [e v]] m IH]; intros lo prev Hm Hp Hv; [done|]. destruct Hm as (Hs & Hse & Hm). rewrite function_markers_cons.
  cbn [chain fst snd]. split; [lia|]. split; [intros ?; right; destruct Hv; [done|lia]|]. split; [lia|]. split; [lia|].
  apply (IH e); [done..|by left].
Qed.

Lemma value_none {T} (l : list (Z * T)) a : (∀ x, x ∈ l → a < x.1) → value_at l a = None.
Proof. intros H. unfold value_at. rewrite filter_none; [done|]. apply Forall_forall. intros x Hx. specialize (H x Hx). lia. Qed.

Lemma function_markers_in m x : x ∈ function_markers m → ∃ s e v, (s, (e, v)) ∈ m ∧ (x = (s, v) ∨ x = (e, MISSING)).
Proof.
  induction m as [|[s [e v]] m IH]; [by intros ?%not_elem_of_nil|]. rewrite function_markers_cons, !elem_of_cons.
  intros [->|[->|Hx]]; [exists s, e, v; split; [left|by left]|exists s, e, v; split; [left|by right]|].
  destruct (IH Hx) as (s' & e' & v' & ? & ?). exists s', e', v'. split; [by right|done].
Qed.

(** An address of a range has the value of the range. *)
Lemma function_markers_value lo m s e v a : im_ok lo m → (s, (e, v)) ∈ m → s ≤ a < e → value_at (function_markers m) a = Some v.
Proof.
  revert lo. induction m as [|[s' [e' v']] m IH]; intros lo Hm Hin Ha; [by apply not_elem_of_nil in Hin|].
  destruct Hm as (? & ? & Hm). rewrite function_markers_cons, !value_cons. cbn [fst snd].
  apply elem_of_cons in Hin as [[= -> -> ->]|Hin]; [|by rewrite (IH _ Hm Hin Ha)].
  rewrite value_none; [rewrite decide_False, decide_True by lia; done|]. intros x (s1 & e1 & v1 & Hin & Hx)%function_markers_in.
  destruct (im_ok_in _ _ _ _ _ Hm Hin). destruct Hx as [-> | ->]; simpl; lia.
Qed.

(** The rows of a range of lines, and the entry that ends it. *)
Definition rows_ok (st : InternStringTable) (s e : Z) (rows : list (Z * LocationEntry)) : Prop :=
  ascending (s - 1) rows ∧ ∀ x, x ∈ rows → x.1 < e ∧ loc_ok st x.2.

Lemma rows_chain b rows (prev : Z * LocationEntry) e rest :
  ascending b rows → (∀ x, x ∈ rows → x.1 < e) → prev.1 ≤ b ∨ prev.2 = LOC_NULL ∧ prev.1 ≤ b + 1 → prev.1 < e ∨ prev.2 = LOC_NULL ∧ prev.1 ≤ e →
  chain (e, LOC_NULL) rest → chain prev (rows ++ (e, LOC_NULL) :: rest).
Proof.
  revert b prev. induction rows as [|x rows IH]; intros b prev Ha He Hb Hp Hr; cbn [app chain].
  - split; [simpl; lia|]. split; [|done]. simpl. intros ?. right. destruct Hp as [|[? _]]; [lia|done].
  - destruct Ha as [Hx Ha]. split; [lia|]. split; [intros ?; right; destruct Hb as [|[? _]]; [lia|done]|].
    apply (IH x.1); [done|intros; apply He; by right|left; lia|left; apply He; left|done].
Qed.

Lemma location_markers_cons s e v m : location_markers ((s, (e, v)) :: m) = v ++ (e, LOC_NULL) :: location_markers m.
Proof. unfold location_markers. simpl. by rewrite <-app_assoc. Qed.

Lemma location_markers_chain st lo m prev :
  im_ok lo m → (∀ s e rows, (s, (e, rows)) ∈ m → rows_ok st s e rows) → prev.1 < lo ∨ prev.2 = LOC_NULL ∧ prev.1 ≤ lo → chain prev (location_markers m).
Proof.
  revert lo prev. induction m as [|[s [e v]] m IH]; intros lo prev Hm Hr Hp; [done|]. destruct Hm as (Hs & Hse & Hm). rewrite location_markers_cons.
  destruct (Hr s e v) as [Ha He]; [left|]. apply (rows_chain (s - 1)); [done|intros x Hx; by apply He|destruct Hp as [?|[? ?]]; [left|right; split; [done|]]; lia|left; lia|].
  apply (IH e); [done|intros; apply Hr; by right|right; simpl; split; [done|lia]].
Qed.

Lemma location_markers_in st lo m x : im_ok lo m → (∀ s e rows, (s, (e, rows)) ∈ m → rows_ok st s e rows) → x ∈ location_markers m →
  ∃ s e v, (s, (e, v)) ∈ m ∧ s ≤ x.1 ≤ e ∧ loc_ok st x.2.
Proof.
  revert lo. induction m as [|[s [e v]] m IH]; intros lo Hm Hr Hx; [by apply not_elem_of_nil in Hx|]. rewrite location_markers_cons in Hx.
  destruct Hm as (? & ? & Hm). apply elem_of_app in Hx as [Hx|[->|Hx]%elem_of_cons].
  - destruct (Hr s e v) as [Ha He]; [left|]. exists s, e, v. split; [left|]. destruct (He x Hx) as [Hxe Hl]. split; [|done]. split; [|lia].
    cut (s - 1 < x.1); [lia|]. clear -Ha Hx. revert Ha. generalize (s - 1). induction v as [|y v IH]; intros b Ha; [by apply not_elem_of_nil in Hx|].
    destruct Ha as [? Ha]. apply elem_of_cons in Hx as [->|Hx]; [done|]. specialize (IH Hx _ Ha). lia.
  - exists s, e, v. split; [left|]. split; [simpl; lia|]. split; [by left|]. simpl. lia.
  - destruct (IH e Hm) as (s' & e' & v' & ? & ?); [intros; apply Hr; by right|done|]. exists s', e', v'. split; [by right|done].
Qed.

(** What the build tool has collected, when it can be written. *)
Record writer_ok (w : DebugModuleFileWriter) : Prop := mk_writer_ok {
  wo_functions : Forall (fun_ok (strings w)) (functions w);
  wo_function_search : im_ok KERNEL_BASE (function_search w);
  wo_function_bound : im_bound (function_search w);
  wo_ids s e id : (s, (e, id)) ∈ function_search w → 0 ≤ id < zlen (functions w);
  wo_location_search : im_ok KERNEL_BASE (location_search w);
  wo_location_bound : im_bound (location_search w);
  wo_rows s e rows : (s, (e, rows)) ∈ location_search w → rows_ok (strings w) s e rows;
}.

(** A search table is written if its entries are in order and in the kernel. *)
Lemma filter_ranges_spec {T} `{SearchTableWritable T} (l : list (Z * T)) :
  (∀ prev, prev.1 < 1 → prev.2 = NULL → chain prev l) → (∀ x, x ∈ l → in_kernel x.1) →
  ∃ out, @filter_ranges _ _ unit l = Ok out ∧ ascending 0 out ∧ (∀ a, value_at out a = value_at l a) ∧
    (∀ x, x ∈ out → x.1 ∈ l.*1 ∧ x.2 ∈ l.*2).
Proof.
  intros Hc Hk. destruct l as [|x l]; [exists []; split_and!; [done..|by intros x ?%not_elem_of_nil]|].
  destruct (Hc (0, NULL)) as (_ & _ & Hc'); [simpl; lia|done|]. apply (filter_loop_spec l x 0 Hc').
  destruct (Hk x) as [? _]; [left|]. unfold KERNEL_BASE in *. lia.
Qed.

Lemma write_locations w out : writer_ok w → ∃ L, write_ranges (strings w) (location_markers (location_search w)) out = Ok (out ++ section L).
Proof.
  intros Hw. pose proof (wo_location_search _ Hw) as Hm.
  assert (Hin : ∀ x, x ∈ location_markers (location_search w) → in_kernel x.1 ∧ loc_ok (strings w) x.2).
  { intros x Hx. destruct (location_markers_in _ _ _ _ Hm (wo_rows _ Hw) Hx) as (s & e & v & Hi & Hxr & Hl). split; [|done].
    destruct (im_ok_in _ _ _ _ _ Hm Hi). pose proof (wo_location_bound _ Hw _ _ _ Hi). unfold in_kernel. lia. }
  destruct (filter_ranges_spec (location_markers (location_search w))) as (l & E & Ha & _ & Hl).
  - intros prev Hp Hn. apply (location_markers_chain (strings w) KERNEL_BASE); [done|apply Hw|left; unfold KERNEL_BASE; lia].
  - intros x Hx. by apply Hin.
  - unfold write_ranges. rewrite E. cbn [rbind]. rewrite (ranges_buf_ok _ l (λ l, le_bytes 8 (offset_of (strings w) (l_file l)) ++ le_bytes 4 (l_row l) ++ le_bytes 4 (l_col l)));
      [cbn [rbind]; by eexists|done|].
    intros x Hx. destruct (Hl x Hx) as [(y & Ey & Hy)%list_elem_of_fmap (z & Ez & Hz)%list_elem_of_fmap].
    rewrite Ey, Ez. split; [by apply Hin|]. apply location_write_ok. by apply Hin.
Qed.

Lemma ascending_relative lo l : ascending lo l → ascending (lo - KERNEL_BASE) (relative <$> l).
Proof. revert lo. induction l as [|x l IH]; intros lo; [done|]. intros [? Ha]. split; [simpl; lia|]. by apply IH. Qed.
Lemma ascending_from {T} lo lo' (l : list (Z * T)) : ascending lo l → (∀ x, x ∈ l → lo' < x.1) → ascending lo' l.
Proof. destruct l as [|x l]; [done|]. intros [_ Ha] H. split; [apply H; left|done]. Qed.
Lemma value_relative l a : value_at (relative <$> l) (a - KERNEL_BASE) = value_at l a.
Proof.
  induction l as [|x l IH]; [done|]. cbn [fmap list_fmap]. rewrite !value_cons. rewrite IH. cbn [relative fst snd].
  destruct (value_at l a); [done|]. by repeat case_decide; try lia.
Qed.

Lemma write_functions w out : writer_ok w → zlen (functions w) ≤ usize_max →
  ∃ es, ascending (-1) es ∧ Forall entry_fits es ∧
    (∀ a, value_at es (a - KERNEL_BASE) = value_at (function_markers (function_search w)) a) ∧
    write_ranges (strings w) (function_markers (function_search w)) out = Ok (out ++ section (concat (entry_bytes <$> es))).
Proof.
  intros Hw Hmax. pose proof (wo_function_search _ Hw) as Hm.
  assert (Hin : ∀ x, x ∈ function_markers (function_search w) → in_kernel x.1 ∧ 0 ≤ x.2 ≤ usize_max).
  { intros x (s & e & v & Hi & Hx)%function_markers_in. destruct (im_ok_in _ _ _ _ _ Hm Hi). pose proof (wo_function_bound _ Hw _ _ _ Hi).
    pose proof (wo_ids _ Hw _ _ _ Hi). unfold in_kernel. destruct Hx as [-> | ->]; simpl; [lia|unfold MISSING, usize_max; lia]. }
  destruct (filter_ranges_spec (function_markers (function_search w))) as (l & E & Ha & Hv & Hl).
  - intros prev Hp Hn. apply (function_markers_chain KERNEL_BASE); [done|unfold KERNEL_BASE; lia|by left].
  - intros x Hx. by apply Hin.
  - assert (Hlin : ∀ x, x ∈ l → in_kernel x.1 ∧ 0 ≤ x.2 ≤ usize_max).
    { intros x Hx. destruct (Hl x Hx) as [(y & Ey & Hy)%list_elem_of_fmap (z & Ez & Hz)%list_elem_of_fmap].
      rewrite Ey, Ez. split; [by apply Hin|by apply Hin]. }
    exists (relative <$> l). split_and!.
    + apply (ascending_from (0 - KERNEL_BASE)); [by apply ascending_relative|]. intros x (y & -> & Hy)%list_elem_of_fmap.
      destruct (Hlin y Hy) as [[? _] _]. simpl. lia.
    + apply Forall_fmap, Forall_forall. intros x Hx. destruct (Hlin x Hx) as [Hk Hi]. unfold in_kernel in Hk. split; simpl; lia.
    + intros a. by rewrite value_relative, Hv.
    + unfold write_ranges. rewrite E. cbn [rbind]. rewrite (ranges_buf_ok _ l (le_bytes 8)); [|done|intros x Hx; split; [by apply Hlin|done]].
      cbn [rbind]. by rewrite <-list_fmap_compose.
Qed.

Lemma write_file_spec w : writer_ok w → zlen (functions w) ≤ usize_max →
  let F := concat (fun_bytes <$> (fun_record (strings w) <$> functions w)) in
  ∃ L es, write w = Ok (file_bytes (string_buf (entries (strings w))) F L (concat (entry_bytes <$> es))) ∧ ascending (-1) es ∧ Forall entry_fits es ∧
    (∀ a, value_at es (a - KERNEL_BASE) = value_at (function_markers (function_search w)) a).
Proof.
  intros Hw Hmax F. unfold write, strings_write, write_all. rewrite (functions_buf_ok _ _ (wo_functions _ Hw)). cbn [rbind]. fold F.
  destruct (write_locations w ((le_bytes 8 0 ++ section (string_buf (entries (strings w)))) ++ section F) Hw) as [L EL].
  destruct (write_functions w (((le_bytes 8 0 ++ section (string_buf (entries (strings w)))) ++ section F) ++ section L) Hw Hmax) as (es & Ha & Hf & Hv & EG).
  exists L, es. split_and!; [|done..]. unfold section at 1 2 in EL. rewrite EL. cbn [rbind]. unfold section at 1 2 3 in EG. unfold section at 1 2 in EG.
  unfold section at 1 2 3. rewrite EG. f_equal. unfold file_bytes. by rewrite <-!app_assoc.
Qed.

(** Recover the position of an interned string. *)
Lemma offset_string s i x : 0 ≤ i → entries s !! Z.to_nat i = Some x → i ≠ MISSING →
  ∃ pre post, string_buf (entries s) = pre ++ x ++ [0] ++ post ∧ offset_of s i = zlen pre.
Proof.
  intros Hi Hx Hne. unfold offset_of, zat. destruct (Z.eqb_spec i MISSING); [done|]. destruct (Z.ltb_spec i 0); [lia|].
  destruct (lookup_lt_is_Some_2 (string_offsets 0 (entries s)) (Z.to_nat i)) as [o Ho]; [rewrite length_string_offsets; by eapply lookup_lt_Some|].
  rewrite Ho. destruct (string_at 0 _ _ _ _ Ho Hx) as (pre & post & E & ->). exists pre, post. by split.
Qed.

Lemma fun_record_fits s f : fun_ok s f → zlen (string_buf (entries s)) ≤ usize_max → Forall2 fits fun_widths (fun_record s f).
Proof.
  intros (Hp & Hn & Hl & Hr & Hc) Hm. pose proof (proj2 (offset_spec s _ Hn) Hm). pose proof (proj2 (offset_spec s _ Hl) Hm).
  repeat constructor; unfold fits, usize_max in *; try change (256 ^ Z.of_nat 8) with (2 ^ 64); try change (256 ^ Z.of_nat 4) with (2 ^ 32); lia.
Qed.

(** A function with a name and a location, as a backtrace shows it. *)
Definition symbol_of (s : InternStringTable) (f : FunctionEntry) (nm fl : list Z) : Prop :=
  (0 ≤ f_name f < MISSING ∧ entries s !! Z.to_nat (f_name f) = Some nm ∧ string_ok nm) ∧
  (0 ≤ l_file (f_location f) < MISSING ∧ entries s !! Z.to_nat (l_file (f_location f)) = Some fl ∧ string_ok fl).

(** C38: the kernel finds in the file of the build tool what was put into it: if
    the ranges are in order and apart, lie in the kernel, and lines and columns
    fit 32 bits, then the file is written, the kernel parses it, and looking up
    any address of a range of a function with a name and a source location
    gives that name, file, line and column. *)
Theorem symbols_roundtrip w : writer_ok w → zlen (functions w) ≤ usize_max →
  ∃ bytes, write w = Ok bytes ∧ (zlen bytes ≤ usize_max → ∃ t, parse bytes = Ok t ∧
    ∀ addr s e id f nm fl, (s, (e, id)) ∈ function_search w → s ≤ addr < e → functions w !! Z.to_nat id = Some f →
      symbol_of (strings w) f nm fl →
      lookup t addr = Ok (mkSymbol nm (if f_inline_parent f =? MISSING then None else Some (f_inline_parent f))
        (Some (mkLocation fl (l_row (f_location f)) (l_col (f_location f)))))).
Proof.
  intros Hw Hcount. destruct (write_file_spec w Hw Hcount) as (L & es & E & Ha & Hfits & Hv). set (F := concat _) in E. set (S := string_buf _) in E.
  set (G := concat (entry_bytes <$> es)) in E. exists (file_bytes S F L G). split; [done|]. intros Hmax.
  assert (HG : zlen G = 12 * zlen es) by (apply zlen_concat; intros; done).
  pose proof (zlen_file S F L G) as Hlen. pose proof (zlen_nonneg S). pose proof (zlen_nonneg L). pose proof (zlen_nonneg F). pose proof (zlen_nonneg es).
  assert (Hrec : Forall (Forall2 fits fun_widths) (fun_record (strings w) <$> functions w)).
  { apply Forall_fmap. eapply Forall_impl; [apply Hw|]. intros f Hf. apply fun_record_fits; [done|]. fold S. lia. }
  assert (HF : zlen F = 32 * zlen (functions w)).
  { unfold F. rewrite (zlen_concat fun_bytes 32); [unfold zlen; by rewrite length_fmap|]. intros x Hx. rewrite Forall_forall in Hrec. by apply zlen_fun, Hrec. }
  exists (table_of S F L G). split; [apply parse_file; [done|rewrite HF, Z.mul_comm; by apply Z.mod_mul]|].
  intros addr s e id f nm fl Hin Haddr Hf [(Hn & Hnm & Hnok) (Hl & Hfl & Hlok)].
  destruct (im_ok_in _ _ _ _ _ (wo_function_search _ Hw) Hin). pose proof (wo_function_bound _ Hw _ _ _ Hin). pose proof (wo_ids _ Hw _ _ _ Hin) as Hid.
  assert (Hval : value_at es (addr - KERNEL_BASE) = Some id) by (rewrite Hv; by eapply function_markers_value; [apply Hw|..]).
  assert (Hs : has_search (table_of S F L G) es).
  { split; cbn [table_of function_search_offset function_search_len data]; [lia|done| |lia|done|done].
    pose proof (section_sub (le_bytes 8 0 ++ section S ++ section F ++ section L) G [] 0 (zlen G) ltac:(lia) ltac:(lia) ltac:(lia)) as Es.
    rewrite (sub_all G) in Es by done. etransitivity; [|exact Es]. rewrite <-HG, file_at_G. f_equal. rewrite !zlen_app, !zlen_section, zlen_head. lia. }
  destruct (search_function_spec _ _ (addr - KERNEL_BASE) Hs Ha) as (b & Eb & _ & Hb). rewrite (Hb id Hval) in Eb by (unfold MISSING; lia).
  unfold lookup. destruct (Z.ltb_spec addr KERNEL_BASE); [lia|]. destruct (Z.ltb_spec (2 ^ 32 - 1) (addr - KERNEL_BASE)); [lia|]. rewrite Eb. cbn [rbind].
  destruct (offset_string (strings w) (f_name f) nm ltac:(lia) Hnm ltac:(lia)) as (pn & qn & Epn & On).
  destruct (offset_string (strings w) (l_file (f_location f)) fl ltac:(lia) Hfl ltac:(lia)) as (pf & qf & Epf & Of).
  destruct (get_string_spec S F L G Hmax pn nm qn Epn Hnok) as [_ Gn]. destruct (get_string_spec S F L G Hmax pf fl qf Epf Hlok) as [Mf Gf].
  rewrite <-(Z2Nat.id id) by lia. apply (get_function_spec S F L G Hmax (fun_record (strings w) <$> functions w) (Z.to_nat id) _ (zlen pn) (zlen pf)); try done.
  rewrite list_lookup_fmap, Hf. simpl. unfold fun_record. by rewrite On, Of.
Qed.

(** ** Collecting the ranges *)

Section intervals.
Context {V : Type}.
Implicit Types m : IntervalMap V.

(** The value of the range that an address is in. *)
Definition owner m (k : Z) : option V := snd <$> im_get k m.
Definition range_of (s e : Z) (k : Z) : Prop := s ≤ k < e.
#[export] Instance range_of_dec s e k : Decision (range_of s e k) := and_dec _ _.

Lemma range_back_none lo m k : im_ok lo m → k < lo → range_back k m = None.
Proof.
  intros Hm Hk. unfold range_back. rewrite filter_none; [done|]. apply Forall_forall. intros [s [e v]] Hin.
  destruct (im_ok_in _ _ _ _ _ Hm Hin). simpl. lia.
Qed.

Lemma im_get_cons lo s e v m k : im_ok lo ((s, (e, v)) :: m) →
  im_get k ((s, (e, v)) :: m) = if decide (range_of s e k) then Some (s, e, v) else im_get k m.
Proof.
  intros (_ & Hse & Hm). unfold im_get, range_of. assert (Hb : range_back k ((s, (e, v)) :: m) =
    match range_back k m with Some r => Some r | None => if decide (s ≤ k) then Some (s, (e, v)) else None end).
  { unfold range_back. rewrite filter_cons. simpl. destruct (decide (s ≤ k)); [rewrite last_cons|]; by destruct (last _). }
  rewrite Hb. destruct (Z.lt_ge_cases k e) as [Hlt|Hge].
  - rewrite (range_back_none e m k Hm Hlt). destruct (decide (s ≤ k)); [|by rewrite decide_False by lia].
    rewrite decide_True by lia. by rewrite (proj2 (Z.leb_le _ _)), (proj2 (Z.ltb_lt _ _)) by lia.
  - rewrite (decide_False (P := s ≤ k < e)) by lia. destruct (range_back k m); [done|]. destruct (decide (s ≤ k)); [|done].
    rewrite (proj2 (Z.ltb_ge k e)) by lia. by rewrite andb_false_r.
Qed.

Lemma owner_cons lo s e v m k : im_ok lo ((s, (e, v)) :: m) → owner ((s, (e, v)) :: m) k = if decide (range_of s e k) then Some v else owner m k.
Proof. intros Hm. unfold owner. rewrite (im_get_cons lo) by done. by destruct (decide _). Qed.

Lemma owner_below lo m k : im_ok lo m → k < lo → owner m k = None.
Proof. intros Hm Hk. unfold owner, im_get. by rewrite (range_back_none lo). Qed.

Lemma im_get_in lo m k s e v : im_ok lo m → im_get k m = Some (s, e, v) → (s, (e, v)) ∈ m ∧ s ≤ k < e ∧ ∀ k', range_of s e k' → owner m k' = Some v.
Proof.
  revert lo. induction m as [|[s' [e' v']] m IH]; intros lo Hm; [done|]. pose proof Hm as (_ & _ & Hm'). rewrite (im_get_cons lo) by done.
  destruct (decide (range_of s' e' k)) as [Hr|Hr].
  - intros [= -> -> ->]. split; [left|]. split; [done|]. intros k' Hk'. rewrite (owner_cons lo) by done. by rewrite decide_True.
  - intros Hg. destruct (IH e' Hm' Hg) as (Hin & Hk & Ho). split; [by right|]. split; [done|]. intros k' Hk'. rewrite (owner_cons lo) by done.
    destruct (im_ok_in _ _ _ _ _ Hm' Hin). unfold range_of in *. rewrite decide_False by lia. by apply Ho.
Qed.

Lemma im_ok_weaken lo lo' m : im_ok lo m → lo' ≤ lo → im_ok lo' m.
Proof. destruct m as [|[s [e v]] m]; [done|]. intros (? & ? & ?) ?. split_and!; [lia|done..]. Qed.

(** Inserting a range that is free. *)
Lemma bt_insert_ok lo m s e v : im_ok lo m → lo ≤ s → s < e → (∀ k, range_of s e k → owner m k = None) →
  im_ok lo (bt_insert s (e, v) m) ∧ ∀ k, owner (bt_insert s (e, v) m) k = if decide (range_of s e k) then Some v else owner m k.
Proof.
  revert lo. induction m as [|[s' [e' v']] m IH]; intros lo Hm Hlo Hse Hfree.
  { simpl. split; [done|]. intros k. by rewrite (owner_cons lo). }
  pose proof Hm as (Hs' & Hse' & Hm'). cbn [bt_insert].
  assert (Hout : ¬ (range_of s e s')).
  { intros Hr. specialize (Hfree s' Hr). rewrite (owner_cons lo), decide_True in Hfree by (done || unfold range_of; lia). done. }
  assert (Hout2 : ¬ (range_of s' e' s)).
  { intros Hr. specialize (Hfree s ltac:(unfold range_of; lia)). rewrite (owner_cons lo), decide_True in Hfree by done. done. }
  unfold range_of in Hout, Hout2. destruct (Z.ltb_spec s s'); [|destruct (Z.eqb_spec s s'); [lia|]].
  - assert (Hok : im_ok lo ((s, (e, v)) :: (s', (e', v')) :: m)) by (split_and!; [lia|lia|split_and!; [lia|done..]]).
    split; [done|]. intros k. by rewrite (owner_cons lo).
  - destruct (IH e' Hm' ltac:(lia) Hse) as [Hok Ho].
    { intros k Hk. pose proof (Hfree k Hk) as Hf. rewrite (owner_cons lo) in Hf by done. by destruct (decide (range_of s' e' k)). }
    assert (Hok' : im_ok lo ((s', (e', v')) :: bt_insert s (e, v) m)) by done. split; [done|]. intros k. rewrite !(owner_cons lo) by done. rewrite Ho.
    unfold range_of. repeat case_decide; (done || lia).
Qed.

Lemma im_insert_ok {E} lo m s e v : im_ok lo m → lo ≤ s → s < e → (∀ k, range_of s e k → owner m k = None) →
  ∃ m', @im_insert V E s e v m = Ok (true, m') ∧ im_ok lo m' ∧ ∀ k, owner m' k = if decide (range_of s e k) then Some v else owner m k.
Proof.
  intros Hm Hlo Hse Hfree. exists (bt_insert s (e, v) m). split; [|by apply bt_insert_ok]. unfold im_insert.
  destruct (Z.ltb_spec e s); [lia|]. destruct (existsb _ m) eqn:Ex; [|done]. apply existsb_exists in Ex as ([s' [e' v']] & Hin & Hb).
  apply list_elem_of_In in Hin. destruct (im_ok_in _ _ _ _ _ Hm Hin). rewrite !andb_true_iff, !Z.leb_le, !Z.ltb_lt in Hb.
  assert (owner m s' = Some v') as Ho; [|rewrite Hfree in Ho by (unfold range_of; lia); done].
  clear -Hm Hin. revert lo Hm. induction m as [|[s1 [e1 v1]] m IH]; intros lo Hm; [by apply not_elem_of_nil in Hin|].
  rewrite (owner_cons lo) by done. destruct Hm as (? & ? & Hm). apply elem_of_cons in Hin as [[= -> -> ->]|Hin]; [by rewrite decide_True by (unfold range_of; lia)|].
  destruct (im_ok_in _ _ _ _ _ Hm Hin). rewrite decide_False by (unfold range_of; lia). by apply (IH Hin e1).
Qed.

Lemma im_remove_ok lo m key s e v : im_ok lo m → im_get key m = Some (s, e, v) →
  im_ok lo (im_remove key m).2 ∧ ∀ k, owner (im_remove key m).2 k = if decide (range_of s e k) then None else owner m k.
Proof.
  intros Hm Hg. assert (E : (im_remove key m).2 = filter (λ p, p.1 ≠ s) m).
  { unfold im_remove. unfold im_get in Hg. destruct (range_back key m) as [[s1 [e1 v1]]|]; [|done]. by destruct ((s1 <=? key) && (key <? e1)); [injection Hg as -> -> ->|]. }
  rewrite E. destruct (im_get_in lo m key s e v Hm Hg) as (Hin & _ & _). clear E Hg. revert lo Hm. induction m as [|[s1 [e1 v1]] m IH]; intros lo Hm; [by apply not_elem_of_nil in Hin|].
  pose proof Hm as (? & ? & Hm'). rewrite filter_cons. apply elem_of_cons in Hin as [[= -> -> ->]|Hin].
  - rewrite decide_False by (simpl; tauto). rewrite filter_all.
    2: { apply Forall_forall. intros [s2 [e2 v2]] Hin2. destruct (im_ok_in _ _ _ _ _ Hm' Hin2). simpl. lia. }
    split; [apply (im_ok_weaken e1); [done|lia]|]. intros k. rewrite (owner_cons lo) by done. destruct (decide (range_of s1 e1 k)) as [Hr|]; [|done].
    apply (owner_below e1); [done|]. unfold range_of in Hr. lia.
  - destruct (im_ok_in _ _ _ _ _ Hm' Hin). rewrite decide_True by (simpl; lia). destruct (IH Hin e1 Hm') as [Hok Ho].
    assert (Hok' : im_ok lo ((s1, (e1, v1)) :: filter (λ p, p.1 ≠ s) m)) by done. split; [done|]. intros k. rewrite !(owner_cons lo) by done. rewrite Ho.
    unfold range_of. repeat case_decide; (done || lia).
Qed.
End intervals.

Lemma im_insert_new_ok {E} lo m s e id : im_ok lo m → lo ≤ s → s < e → (∀ k, range_of s e k → owner m k = None) →
  ∃ m', @im_insert_new E s e id m = Ok m' ∧ im_ok lo m' ∧ ∀ k, owner m' k = if decide (range_of s e k) then Some id else owner m k.
Proof.
  intros Hm Hlo Hse Hfree. destruct (im_insert_ok (E := E) lo m s e id Hm Hlo Hse Hfree) as (m' & Em & Hok & Ho). exists m'.
  unfold im_insert_new. rewrite Em. done.
Qed.

(** A range put in if it is not empty. *)
Lemma im_insert_part {E} lo m s e id : im_ok lo m → lo ≤ s → (∀ k, range_of s e k → owner m k = None) →
  ∃ m', (if s <? e then @im_insert_new E s e id m else Ok m) = Ok m' ∧ im_ok lo m' ∧
    ∀ k, owner m' k = if decide (range_of s e k) then Some id else owner m k.
Proof.
  intros Hm Hlo Hfree. destruct (Z.ltb_spec s e) as [Hse|Hse]; [by apply im_insert_new_ok|]. exists m. split; [done|]. split; [done|].
  intros k. rewrite decide_False by (unfold range_of; lia). done.
Qed.

(** An inlined function takes its range out of the range of its parent: if the
    range lies within one range of the expected parent, every address in it
    belongs to the inlined function afterwards and every other address to the
    function it belonged to, with the ranges still in order and apart; a range
    that is not within the parent stops the build tool. *)
Lemma place_inlined_spec {E} lo m parent fn_id s e : im_ok lo m → s < e →
  match im_get s m with
  | Some (ps, pe, id) =>
      if decide (id = parent ∧ e ≤ pe) then
        ∃ m', @place_inlined E parent fn_id (s, e) m = Ok m' ∧ im_ok lo m' ∧
          ∀ k, owner m' k = if decide (range_of s e k) then Some fn_id else owner m k
      else @place_inlined E parent fn_id (s, e) m = Panic
  | None => @place_inlined E parent fn_id (s, e) m = Panic
  end.
Proof.
  intros Hm Hse. unfold place_inlined. cbn [fst snd]. destruct (im_get s m) as [[[ps pe] id]|] eqn:Eg; [|done].
  destruct (im_get_in lo m s ps pe id Hm Eg) as (Hin & Hs & Hown). destruct (im_ok_in _ _ _ _ _ Hm Hin) as [Hlo _].
  destruct (decide (id = parent ∧ e ≤ pe)) as [[-> He]|Hd].
  2: { destruct (Z.eqb_spec id parent); [|done]. cbn [rassert rbind]. rewrite (proj2 (Z.leb_gt e pe)) by (destruct (Z.le_gt_cases e pe); [tauto|done]). by rewrite andb_false_r. }
  rewrite Z.eqb_refl. cbn [rassert rbind]. rewrite (proj2 (Z.leb_le ps s)), (proj2 (Z.leb_le e pe)) by lia. cbn [andb rassert rbind].
  destruct (im_remove_ok lo m s ps pe parent Hm Eg) as [Hok1 Ho1]. set (m1 := (im_remove s m).2) in *.
  destruct (im_insert_part (E := E) lo m1 ps s parent Hok1 Hlo) as (m2 & E2 & Hok2 & Ho2).
  { intros k Hk. rewrite Ho1. unfold range_of in *. rewrite decide_True by lia. done. }
  rewrite E2. cbn [rbind]. destruct (im_insert_part (E := E) lo m2 e pe parent Hok2 ltac:(lia)) as (m3 & E3 & Hok3 & Ho3).
  { intros k Hk. rewrite Ho2, Ho1. unfold range_of in *. rewrite decide_False, decide_True by lia. done. }
  rewrite E3. cbn [rbind]. destruct (im_insert_new_ok (E := E) lo m3 s e fn_id Hok3 ltac:(lia) Hse) as (m' & E' & Hok' & Ho').
  { intros k Hk. rewrite Ho3, Ho2, Ho1. unfold range_of in *. rewrite !decide_False, decide_True by lia. done. }
  exists m'. split; [done|]. split; [done|]. intros k. rewrite Ho', Ho3, Ho2, Ho1.
  pose proof (Hown k) as Hk. unfold range_of in *. repeat case_decide; try done; try lia; symmetry; apply Hk; lia.
Qed.
