(* ===== verification/SymbolsWriter.v ===== *)
(** * What the build tool collects can be written (buildtool/src/debug/io.rs)

    The invariant of the writer of debug symbols: kept by every function and line
    program that is added, it gives the conditions under which the file of
    [Symbols] is written and read back. *)

From S2P Require Import Prelude Bytes Symbols.


(** ** The functions and lines that are collected can be written *)

Definition strings_inv (s : InternStringTable) : Prop := ∀ x i, interned s !! x = Some i → 0 ≤ i ∧ entries s !! Z.to_nat i = Some x.
Definition extends (s s' : InternStringTable) : Prop := ∃ k, entries s' = entries s ++ k.

#[export] Instance extends_po : PreOrder extends.
Proof.
  split; [intros s; exists []; by rewrite app_nil_r|]. intros s1 s2 s3 [k1 E1] [k2 E2]. exists (k1 ++ k2). by rewrite E2, E1, app_assoc.
Qed.

Lemma index_mono s s' i : extends s s' → index_ok s i → index_ok s' i.
Proof. intros [k E] [->|Hi]; [by left|right]. rewrite E, zlen_app. pose proof (zlen_nonneg k). lia. Qed.
Lemma loc_mono s s' l : extends s s' → loc_ok s l → loc_ok s' l.
Proof. intros He [Hi ?]. split; [by eapply index_mono|done]. Qed.
Lemma fun_mono s s' f : extends s s' → fun_ok s f → fun_ok s' f.
Proof. intros He (? & Hi & Hl). split_and!; [lia|lia|by eapply index_mono|by eapply loc_mono]. Qed.
Lemma rows_mono s s' a e rows : extends s s' → rows_ok s a e rows → rows_ok s' a e rows.
Proof. intros He [Ha Hr]. split; [done|]. intros x Hx. destruct (Hr x Hx). split; [done|by eapply loc_mono]. Qed.

(** Interning gives the index of the string and keeps those of the others. *)
Lemma intern_spec x s i s' : strings_inv s → intern x s = (i, s') →
  strings_inv s' ∧ extends s s' ∧ 0 ≤ i ∧ entries s' !! Z.to_nat i = Some x.
Proof.
  unfold intern. intros Hs. destruct (interned s !! x) as [j|] eqn:Ex; intros [= <- <-].
  { destruct (Hs _ _ Ex). split_and!; [done|reflexivity|done..]. }
  assert (Hl : (entries s ++ [x]) !! Z.to_nat (zlen (entries s)) = Some x).
  { unfold zlen. rewrite Nat2Z.id, lookup_app_r by lia. by rewrite Nat.sub_diag. }
  split_and!; [|by exists [x]|apply zlen_nonneg|done]. intros y j. simpl. intros [[<- <-]|[_ Hy]]%lookup_insert_Some.
  - split; [apply zlen_nonneg|done].
  - destruct (Hs y j Hy) as [? Hj]. split; [done|]. by apply lookup_app_l_Some.
Qed.

Lemma entry_index s i x : 0 ≤ i → entries s !! Z.to_nat i = Some x → index_ok s i.
Proof. intros Hi Hx%lookup_lt_Some. right. unfold zlen. lia. Qed.

Definition cache_ok (c : option Lazy) (s : InternStringTable) : Prop := ∀ l, c = Some l → Forall (index_ok s) (cache l).

Lemma cache_new files s : cache_ok (Some (lazy_intern_table files)) s.
Proof. intros l [= <-]. apply Forall_replicate. by left. Qed.
Lemma cache_mono c s s' : extends s s' → cache_ok c s → cache_ok c s'.
Proof. intros He Hc l Hl. eapply Forall_impl; [by apply Hc|]. intros i. by apply index_mono. Qed.

Definition src_ok (l : SourceLocation) : Prop := 0 ≤ sl_row l < 2 ^ 32 ∧ 0 ≤ sl_col l < 2 ^ 32.

Lemma translate_loc_spec {E} loc c s l c' s' : strings_inv s → cache_ok c s → src_ok loc → @translate_loc E loc c s = Ok (l, (c', s')) →
  strings_inv s' ∧ extends s s' ∧ cache_ok c' s' ∧ loc_ok s' l.
Proof.
  intros Hs Hc Hsrc. unfold translate_loc, intern_file. destruct c as [lz|]; [|intros [= <- <- <-]; split_and!; [done|reflexivity|done|split; [by left|exact Hsrc]]].
  specialize (Hc lz eq_refl) as Hlz. unfold lazy_intern. destruct (Z.eqb_spec (sl_file loc) MISSING).
  { intros [= <- <- <-]. split_and!; [done|reflexivity|done|split; [by left|exact Hsrc]]. }
  destruct (zat (cache lz) (sl_file loc)) as [i|] eqn:Ei; [|done]. cbn [unwrap rbind].
  assert (Hi : index_ok s i). { unfold zat in Ei. destruct (sl_file loc <? 0); [done|]. rewrite Forall_lookup in Hlz. by eapply Hlz. }
  destruct (Z.eqb_spec i MISSING). 2: { intros [= <- <- <-]. split_and!; [done|reflexivity|done|split; [exact Hi|exact Hsrc]]. }
  destruct (zat (lazy_table lz) (sl_file loc)) as [x|]; [|done]. cbn [unwrap rbind]. destruct (intern x s) as [j s1] eqn:Ej. intros [= <- <- <-].
  destruct (intern_spec _ _ _ _ Hs Ej) as (Hs1 & He & Hj0 & Hj). split_and!; [done..| |split; [by eapply entry_index|exact Hsrc]].
  intros l [= <-]. simpl. apply Forall_insert; [|by eapply entry_index]. eapply Forall_impl; [done|]. intros y. by apply index_mono.
Qed.

(** The ranges of functions: in the kernel, each with an index below [n]. *)
Definition search_ok (n : Z) (m : IntervalMap Z) : Prop :=
  im_ok KERNEL_BASE m ∧ ∀ k v, owner m k = Some v → k + 1 < KERNEL_BASE + 2 ^ 32 ∧ 0 ≤ v < n.

Lemma owner_range {V} lo (m : IntervalMap V) s e v k : im_ok lo m → (s, (e, v)) ∈ m → range_of s e k → owner m k = Some v.
Proof.
  revert lo. induction m as [|[s1 [e1 v1]] m IH]; intros lo Hm Hin Hk; [by apply not_elem_of_nil in Hin|].
  rewrite (owner_cons lo) by done. destruct Hm as (? & ? & Hm). apply elem_of_cons in Hin as [[= -> -> ->]|Hin]; [by rewrite decide_True|].
  destruct (im_ok_in _ _ _ _ _ Hm Hin). unfold range_of in *. rewrite decide_False by lia. by apply (IH e1).
Qed.

Lemma search_bound n m : search_ok n m → im_bound m ∧ ∀ s e id, (s, (e, id)) ∈ m → 0 ≤ id < n.
Proof.
  intros [Hm Ho]. assert (H : ∀ s e id, (s, (e, id)) ∈ m → e < KERNEL_BASE + 2 ^ 32 ∧ 0 ≤ id < n).
  { intros s e id Hin. destruct (im_ok_in _ _ _ _ _ Hm Hin). destruct (Ho (e - 1) id); [apply (owner_range KERNEL_BASE m s e); [done..|unfold range_of; lia]|]. lia. }
  split; intros s e id Hin; by destruct (H s e id Hin).
Qed.

Lemma search_put n m m' s e id : search_ok n m → im_ok KERNEL_BASE m' → (∀ k, owner m' k = if decide (range_of s e k) then Some id else owner m k) →
  e < KERNEL_BASE + 2 ^ 32 → 0 ≤ id < n → search_ok n m'.
Proof.
  intros [_ Ho] Hm' Ho' He Hid. split; [done|]. intros k v. rewrite Ho'. destruct (decide (range_of s e k)) as [Hr|]; [|by apply Ho].
  intros [= <-]. unfold range_of in Hr. lia.
Qed.

Lemma search_more n n' m : search_ok n m → n ≤ n' → search_ok n' m.
Proof. intros [Hm Ho] Hn. split; [done|]. intros k v Hk. destruct (Ho k v Hk). lia. Qed.

Lemma place_all_ok {E} n parent fn_id ranges m m' : search_ok n m → 0 ≤ fn_id < n → Forall (λ r, r.1 < r.2) ranges →
  @place_all E parent fn_id ranges m = Ok m' → search_ok n m'.
Proof.
  intros Hm Hid Hr. revert m Hm. induction Hr as [|[s e] ranges Hse Hr IH]; intros m Hm; cbn [place_all]; [by intros [= <-]|].
  pose proof (place_inlined_spec (E := E) KERNEL_BASE m parent fn_id s e (proj1 Hm) Hse) as Hp.
  destruct (im_get s m) as [[[ps pe] id]|] eqn:Eg; [|by rewrite Hp]. destruct (decide (id = parent ∧ e ≤ pe)) as [[-> He]|]; [|by rewrite Hp].
  destruct Hp as (m1 & -> & Hok & Ho). cbn [rbind]. apply IH. apply (search_put n m m1 s e fn_id); [done..| |done].
  destruct (im_get_in _ _ _ _ _ _ (proj1 Hm) Eg) as (Hin & _). pose proof (proj1 (search_bound _ _ Hm) _ _ _ Hin). lia.
Qed.

(** The state of the writer between calls. *)
Record good (w : DebugModuleFileWriter) : Prop := mk_good {
  gw_strings : strings_inv (strings w);
  gw_functions : Forall (fun_ok (strings w)) (functions w);
  gw_search : search_ok (zlen (functions w)) (function_search w);
  gw_locations : im_ok KERNEL_BASE (location_search w);
  gw_bound : im_bound (location_search w);
  gw_rows s e rows : (s, (e, rows)) ∈ location_search w → rows_ok (strings w) s e rows;
}.

Lemma good_writable w : good w → writer_ok w.
Proof. intros [H1 H2 H3 H4 H5 H6]. destruct (search_bound _ _ H3). split; try done. apply H3. Qed.

Lemma good_new : good writer_new.
Proof.
  split; simpl; unfold im_new; [by intros x i|constructor|split; [done|by intros k v]|done|by intros s e v ?%not_elem_of_nil|by intros s e v ?%not_elem_of_nil].
Qed.

(** A function is added, with more strings and other ranges. *)
Lemma good_push w s f m : good w → strings_inv s → extends (strings w) s → fun_ok s f → search_ok (zlen (functions w) + 1) m →
  good (mkWriter s (functions w ++ [f]) (location_search w) m).
Proof.
  intros [H1 H2 H3 H4 H5 H6] Hs He Hf Hm. split; simpl; try done.
  - apply Forall_app. split; [|by constructor]. eapply Forall_impl; [done|]. intros g. by apply fun_mono.
  - rewrite zlen_app. done.
  - intros a e rows Hin. eapply rows_mono; [done|]. by apply H6.
Qed.

Lemma intern_name_spec name s i s' : strings_inv s → intern_name name s = (i, s') → strings_inv s' ∧ extends s s' ∧ index_ok s' i.
Proof.
  destruct name as [x|]; simpl; intros Hs; [|intros [= <- <-]; split_and!; [done|reflexivity|by left]].
  intros E. destruct (intern_spec _ _ _ _ Hs E) as (? & ? & ? & ?). split_and!; [done..|by eapply entry_index].
Qed.

(** An inlined function whose ranges are not empty and whose line and column fit,
    with those inlined in it. *)
Inductive inlined_ok : InlinedFunctionInfo → Prop :=
| inlined_ok_intro ranges name inl loc :
    Forall (λ r : Z * Z, r.1 < r.2) ranges → src_ok loc → Forall inlined_ok inl → inlined_ok (mkInlined ranges name inl loc).

Lemma inlined_ind (P : InlinedFunctionInfo → Prop) :
  (∀ ranges name inl loc, Forall P inl → P (mkInlined ranges name inl loc)) → ∀ f, P f.
Proof.
  intros H. fix IH 1. intros [ranges name inl loc]. apply H. induction inl as [|f inl IHl]; constructor; [apply IH|apply IHl].
Qed.

Lemma write_inlined_eq {E} ranges name inl loc parent c w :
  @write_inlined E (mkInlined ranges name inl loc) parent c w =
    let fn_id := zlen (functions w) in
    let '(i, s) := intern_name name (strings w) in
    let? r := translate_loc loc c s in
    let '(l, (c, s)) := r in
    let? m := place_all parent fn_id ranges (function_search w) in
    write_inlined_all inl fn_id c (mkWriter s (functions w ++ [mkFun MISSING i l]) (location_search w) m).
Proof.
  cbn [write_inlined]. cbv zeta. destruct (intern_name name (strings w)) as [i s]. destruct (translate_loc loc c s) as [[l [c1 s1]]|?|]; [|done..]. cbn [rbind].
  destruct (place_all _ _ _ _) as [m|?|]; [|done..]. cbn [rbind]. generalize (mkWriter s1 (functions w ++ [mkFun MISSING i l]) (location_search w) m) as w1.
  revert c1. generalize (zlen (functions w)) as id. intros id. induction inl as [|g inl IH]; intros c1 w1; [done|]. cbn [write_inlined_all].
  destruct (write_inlined g id c1 w1) as [[c2 w2]|?|]; [|done..]. cbn [rbind fst snd]. apply IH.
Qed.

Definition keeps_good {E} (f : InlinedFunctionInfo) : Prop := ∀ parent c w c' w',
  good w → cache_ok c (strings w) → inlined_ok f → @write_inlined E f parent c w = Ok (c', w') → good w' ∧ cache_ok c' (strings w').

Lemma inlined_all_good {E} l id c w c' w' : Forall (@keeps_good E) l → Forall inlined_ok l → good w → cache_ok c (strings w) →
  @write_inlined_all E l id c w = Ok (c', w') → good w' ∧ cache_ok c' (strings w').
Proof.
  intros Hk. revert c w. induction Hk as [|g l Hg _ IH]; intros c w Hl Hw Hc; cbn [write_inlined_all]; [by intros [= <- <-]|].
  apply Forall_cons in Hl as [Hog Hl]. destruct (write_inlined g id c w) as [[c1 w1]|?|] eqn:E1; [|done..]. cbn [rbind fst snd].
  destruct (Hg _ _ _ _ _ Hw Hc Hog E1). by apply IH.
Qed.

Lemma write_inlined_good {E} f : @keeps_good E f.
Proof.
  induction f as [ranges name inl loc IH] using inlined_ind. intros parent c w c' w' Hw Hc Hok. rewrite write_inlined_eq. cbv zeta.
  inversion Hok as [? ? ? ? Hr Hsrc Hinl]; subst. destruct (intern_name name (strings w)) as [i s] eqn:Ei.
  destruct (intern_name_spec _ _ _ _ (gw_strings _ Hw) Ei) as (Hs & He & Hi). destruct (translate_loc loc c s) as [[l [c1 s1]]|?|] eqn:Et; [|done..]. cbn [rbind].
  destruct (translate_loc_spec _ _ _ _ _ _ Hs (cache_mono _ _ _ He Hc) Hsrc Et) as (Hs1 & He1 & Hc1 & Hl).
  destruct (place_all _ _ _ _) as [m|?|] eqn:Ep; [|done..]. cbn [rbind]. apply inlined_all_good; [done..| |done].
  apply good_push; [done|done|by etransitivity| |].
  - split_and!; [unfold MISSING, usize_max; simpl; lia|simpl; unfold MISSING; lia|by eapply index_mono|done].
  - pose proof (zlen_nonneg (functions w)). apply (place_all_ok (E := E) (zlen (functions w) + 1) parent (zlen (functions w)) ranges (function_search w) m); [apply (search_more (zlen (functions w))); [apply Hw|lia]|lia|exact Hr|exact Ep].
Qed.

(** Ranges of the kernel that nothing has, apart from each other. *)
Definition free_ranges {V} (ranges : list (Z * Z)) (m : IntervalMap V) : Prop :=
  Forall (λ r : Z * Z, KERNEL_BASE ≤ r.1 ∧ r.1 < r.2 ∧ r.2 < KERNEL_BASE + 2 ^ 32) ranges ∧
  pairwise (λ r r' : Z * Z, r.2 ≤ r'.1 ∨ r'.2 ≤ r.1) ranges ∧
  ∀ r k, r ∈ ranges → range_of r.1 r.2 k → owner m k = None.

Lemma free_ranges_put {V} (s e : Z) ranges (m m' : IntervalMap V) v :
  free_ranges ((s, e) :: ranges) m → (∀ k, owner m' k = if decide (range_of s e k) then Some v else owner m k) → free_ranges ranges m'.
Proof.
  intros (Hk & [Hap Hpw] & Hf) Ho. apply Forall_cons in Hk as [_ Hk]. split_and!; [done..|]. intros r k Hr Hkr. rewrite Ho.
  rewrite Forall_forall in Hap. specialize (Hap r Hr). simpl in Hap. rewrite decide_False by (unfold range_of in *; lia). apply (Hf r); [by right|done].
Qed.

Lemma insert_ranges_ok {E} n id ranges m : search_ok n m → 0 ≤ id < n → free_ranges ranges m →
  ∃ m', @insert_ranges E ranges id m = Ok m' ∧ search_ok n m'.
Proof.
  intros Hm Hid. revert m Hm. induction ranges as [|[s e] ranges IH]; intros m Hm Hf; [by exists m|]. cbn [insert_ranges].
  pose proof Hf as (Hk & _ & Hfree). apply Forall_cons in Hk as [(Hs & Hse & He) _]. simpl in Hs, Hse, He.
  destruct (im_insert_new_ok (E := E) KERNEL_BASE m s e id (proj1 Hm) Hs Hse) as (m1 & -> & Hok & Ho).
  { intros k Hkr. apply (Hfree (s, e)); [left|done]. }
  cbn [rbind]. apply IH; [by apply (search_put n m m1 s e id)|by eapply free_ranges_put].
Qed.

Definition function_ok (f : FunctionInfo) : Prop := src_ok (fi_location f) ∧ Forall inlined_ok (fi_inlined f).

Lemma write_function_good {E} f info w w' : good w → function_ok f → free_ranges (fi_ranges f) (function_search w) →
  @write_function E f info w = Ok w' → good w'.
Proof.
  intros Hw [Hsrc Hinl] Hfree. unfold write_function. destruct (intern_name (fi_name f) (strings w)) as [i s] eqn:Ei.
  destruct (intern_name_spec _ _ _ _ (gw_strings _ Hw) Ei) as (Hs & He & Hi).
  assert (Hloc : ∀ r, match info with
      | Some info => let? r := @translate_loc E (fi_location f) (Some (lazy_intern_table (li_files info))) s in let '(loc, (_, s)) := r in Ok (loc, s)
      | None => Ok (LOC_NULL, s)
      end = Ok r → strings_inv r.2 ∧ extends s r.2 ∧ loc_ok r.2 r.1).
  { intros r. destruct info as [info|]; [|intros [= <-]; split_and!; [done|reflexivity|split; [by left|simpl; lia]]].
    destruct (translate_loc _ _ _) as [[l [c1 s1]]|?|] eqn:Et; [|done..]. cbn [rbind]. intros [= <-].
    by destruct (translate_loc_spec _ _ _ _ _ _ Hs (cache_new _ _) Hsrc Et) as (? & ? & _ & ?). }
  destruct (match info with Some _ => _ | None => _ end) as [[loc s1]|?|]; [|done..]. cbn [rbind]. destruct (Hloc _ eq_refl) as (Hs1 & He1 & Hl). simpl in Hs1, He1, Hl.
  pose proof (zlen_nonneg (functions w)). destruct (insert_ranges_ok (E := E) (zlen (functions w) + 1) (zlen (functions w)) (fi_ranges f) (function_search w)) as (m & -> & Hm);
    [apply (search_more (zlen (functions w))); [apply Hw|lia]|lia|done|]. cbn [rbind].
  destruct (write_inlined_all _ _ _ _) as [[c2 w2]|?|] eqn:Ea; [|done..]. cbn [rbind]. intros [= <-].
  refine (proj1 (inlined_all_good _ _ _ _ _ _ _ Hinl _ _ Ea)).
  - apply Forall_forall. intros g _. apply write_inlined_good.
  - apply good_push; [done|done|by etransitivity| |done]. split_and!; [unfold MISSING, usize_max; simpl; lia|simpl; unfold MISSING; lia|by eapply index_mono|done].
  - destruct info; [apply cache_new|done].
Qed.

(** The rows of a sequence, in the order of their addresses. *)
Definition rows_in_order (lo : Z) (rows : list LineEntry) : Prop := ascending lo ((λ r, (le_address r, le_location r)) <$> rows) ∧ Forall (λ r, src_ok (le_location r)) rows.

Lemma translate_rows_spec {E} s0 e0 rows lo c s out c' s' : strings_inv s → cache_ok c s → rows_in_order lo rows →
  @translate_rows E (s0, e0) rows c s = Ok (out, (c', s')) →
  strings_inv s' ∧ extends s s' ∧ cache_ok c' s' ∧ ascending lo out ∧ ∀ x, x ∈ out → s0 ≤ x.1 < e0 ∧ loc_ok s' x.2.
Proof.
  revert lo c s out. induction rows as [|r rows IH]; intros lo c s out Hs Hc [Ha Hsrc]; cbn [translate_rows].
  { intros [= <- <- <-]. split_and!; [done|reflexivity|done..|by intros x ?%not_elem_of_nil]. }
  destruct Ha as [Hlo Ha]. simpl in Hlo, Ha. apply Forall_cons in Hsrc as [Hr Hsrc].
  destruct ((_ <=? _) && _) eqn:Eb.
  - apply andb_true_iff in Eb as [Hb1%Z.leb_le Hb2%Z.ltb_lt]. simpl in Hb1, Hb2. destruct (translate_loc _ _ _) as [[l [c1 s1]]|?|] eqn:Et; [|done..]. cbn [rbind].
    destruct (translate_loc_spec _ _ _ _ _ _ Hs Hc Hr Et) as (Hs1 & He1 & Hc1 & Hl). destruct (translate_rows (s0, e0) rows c1 s1) as [[rest [c2 s2]]|?|] eqn:Er; [|done..]. cbn [rbind].
    intros [= <- <- <-]. destruct (IH _ _ _ _ Hs1 Hc1 (conj Ha Hsrc) Er) as (Hs2 & He2 & Hc2 & Ha2 & Hin).
    split_and!; [done|by etransitivity|done|by split|]. intros x [->|Hx]%elem_of_cons; [|by apply Hin]. split; [simpl; lia|by eapply loc_mono].
  - intros Er. destruct (IH lo c s out Hs Hc) as (? & ? & ? & ? & ?); [split; [|done]|done|done].
    destruct rows as [|r' rows]; [done|]. destruct Ha as [? Ha]. split; [simpl in *; lia|done].
Qed.

Lemma bt_insert_in {V} k y (m : IntervalMap V) x : x ∈ bt_insert k y m → x = (k, y) ∨ x ∈ m.
Proof.
  induction m as [|[k' y'] m IH]; simpl; [intros ->%list_elem_of_singleton; by left|].
  destruct (k <? k'); [intros [->|?]%elem_of_cons; auto|]. destruct (k =? k'); intros [->|Hx]%elem_of_cons; auto; [right; by right|right; left|].
  destruct (IH Hx); [by left|right; by right].
Qed.

Lemma im_insert_in {V E} s e v (m m' : IntervalMap V) x : @im_insert V E s e v m = Ok (true, m') → x ∈ m' → x = (s, (e, v)) ∨ x ∈ m.
Proof. unfold im_insert. destruct (e <? s); [done|]. destruct (existsb _ m); [done|]. intros [= <-]. apply bt_insert_in. Qed.

(** Line programs whose rows are in order. *)
Definition sequences_ok (l : list LineSequence) : Prop := Forall (λ q, rows_in_order ((ls_range q).1 - 1) (ls_rows q)) l.

Lemma write_sequences_good {E} l c w w' : good w → cache_ok c (strings w) → sequences_ok l → free_ranges (ls_range <$> l) (location_search w) →
  @write_sequences E l c w = Ok w' → good w'.
Proof.
  revert c w. induction l as [|[[s e] rows] l IH]; intros c w Hw Hc Hl Hf; cbn [write_sequences]; [by intros [= <-]|].
  apply Forall_cons in Hl as [Hrows Hl]. cbn [ls_range ls_rows fst snd fmap list_fmap] in *.
  destruct (translate_rows (s, e) rows c (strings w)) as [[out [c1 s1]]|?|] eqn:Et; [|done..]. cbn [rbind].
  destruct (translate_rows_spec _ _ _ _ _ _ _ _ _ (gw_strings _ Hw) Hc Hrows Et) as (Hs1 & He1 & Hc1 & Ha & Hin).
  pose proof Hf as (Hk & _ & Hfree). apply Forall_cons in Hk as [(Hs & Hse & He) _]. simpl in Hs, Hse, He.
  destruct (im_insert_ok (E := E) KERNEL_BASE (location_search w) s e out (gw_locations _ Hw) Hs Hse) as (m & Em & Hm & Ho).
  { intros k Hkr. apply (Hfree (s, e)); [left|done]. }
  rewrite Em. cbn [rbind fst snd rassert]. apply IH; [|done|done|by eapply free_ranges_put].
  split; simpl; [done|eapply Forall_impl; [apply Hw|intros g; by apply fun_mono]|apply Hw|done|..].
  - intros a b v [[= -> -> ->]|Hv]%(im_insert_in _ _ _ _ _ _ Em); [lia|by eapply gw_bound].
  - intros a b v [[= -> -> ->]|Hv]%(im_insert_in _ _ _ _ _ _ Em); [|eapply rows_mono; [done|by eapply gw_rows]].
    split; [done|]. intros x Hx. destruct (Hin x Hx). split; [lia|done].
Qed.

Lemma write_line_good {E} info w w' : good w → sequences_ok (li_sequences info) →
  free_ranges (ls_range <$> li_sequences info) (location_search w) → @write_line E info w = Ok w' → good w'.
Proof. intros. eapply write_sequences_good; [done|apply cache_new|done..]. Qed.

(** A line program whose file numbers are those of its files can be added. *)
Definition file_ok (files : list (list Z)) (l : SourceLocation) : Prop := sl_file l = MISSING ∨ 0 ≤ sl_file l < zlen files.
Definition files_ok (info : LineInfo) : Prop :=
  Forall (λ q, Forall (λ r, file_ok (li_files info) (le_location r)) (ls_rows q)) (li_sequences info).
Definition cache_of (files : list (list Z)) (c : option Lazy) : Prop :=
  ∃ l, c = Some l ∧ lazy_table l = files ∧ length (cache l) = length files.

Lemma translate_loc_total {E} files loc c s : cache_of files c → file_ok files loc →
  ∃ l c' s', @translate_loc E loc c s = Ok (l, (c', s')) ∧ cache_of files c'.
Proof.
  intros (lz & -> & Hf & Hl) Hloc. unfold translate_loc, intern_file, lazy_intern.
  destruct (Z.eqb_spec (sl_file loc) MISSING); [eexists _, _, _; split; [done|by exists lz]|]. destruct Hloc as [|Hloc]; [done|].
  destruct (zat_is_Some (cache lz) (sl_file loc)) as [i ->]; [unfold zlen in *; lia|]. cbn [unwrap rbind].
  destruct (Z.eqb_spec i MISSING); [|eexists _, _, _; split; [done|by exists lz]].
  destruct (zat_is_Some (lazy_table lz) (sl_file loc)) as [x ->]; [by rewrite Hf|]. cbn [unwrap rbind].
  destruct (intern x s) as [j s1]. eexists _, _, _. split; [done|]. eexists. split; [done|]. simpl. by rewrite length_insert.
Qed.

Lemma translate_rows_total {E} files range rows c s : cache_of files c → Forall (λ r, file_ok files (le_location r)) rows →
  ∃ out c' s', @translate_rows E range rows c s = Ok (out, (c', s')) ∧ cache_of files c'.
Proof.
  intros Hc Hr. revert c s Hc. induction Hr as [|r rows Hr _ IH]; intros c s Hc; cbn [translate_rows]; [by eexists _, _, _|].
  destruct (_ && _); [|by apply IH]. destruct (@translate_loc_total E files (le_location r) c s Hc Hr) as (l & c1 & s1 & -> & Hc1). cbn [rbind].
  destruct (IH c1 s1 Hc1) as (out & c2 & s2 & -> & Hc2). by eexists _, _, _.
Qed.

Lemma write_sequences_total {E} files l c w : good w → cache_of files c → cache_ok c (strings w) → sequences_ok l →
  Forall (λ q, Forall (λ r, file_ok files (le_location r)) (ls_rows q)) l → free_ranges (ls_range <$> l) (location_search w) →
  ∃ w', @write_sequences E l c w = Ok w'.
Proof.
  revert c w. induction l as [|[[s e] rows] l IH]; intros c w Hw Hc Hk Hl Hfl Hf; cbn [write_sequences]; [by eexists|].
  apply Forall_cons in Hl as [Hrows Hl], Hfl as [Hfr Hfl]. cbn [ls_range ls_rows fst snd fmap list_fmap] in *.
  destruct (@translate_rows_total E files (s, e) rows c (strings w) Hc Hfr) as (out & c1 & s1 & Et & Hc1). rewrite Et. cbn [rbind].
  assert (Hone : @write_sequences E [mkLineSequence (s, e) rows] c w = let? r := im_insert s e out (location_search w) in
    let? _ := rassert r.1 in Ok (mkWriter s1 (functions w) r.2 (function_search w))) by (cbn [write_sequences ls_range ls_rows]; by rewrite Et).
  destruct (translate_rows_spec _ _ _ _ _ _ _ _ _ (gw_strings _ Hw) Hk Hrows Et) as (_ & _ & Hk1 & _ & _).
  pose proof Hf as (Hr & Hp & Hfree). apply Forall_cons in Hr as [(Hs & Hse & He) _]. simpl in Hs, Hse, He.
  destruct (im_insert_ok (E := E) KERNEL_BASE (location_search w) s e out (gw_locations _ Hw) Hs Hse) as (m & Em & Hm & Ho).
  { intros k Hkr. apply (Hfree (s, e)); [left|done]. }
  rewrite Em in Hone |- *. cbn [rbind fst snd rassert] in Hone |- *. apply IH; [|done|done|done|done|by eapply free_ranges_put].
  eapply (write_sequences_good [mkLineSequence (s, e) rows] c w); [done|done|by constructor| |exact Hone].
  split_and!; [by repeat constructor|by repeat constructor|]. intros r k ->%list_elem_of_singleton Hkr. apply (Hfree (s, e)); [left|done].
Qed.

Lemma write_line_total {E} info w : good w → sequences_ok (li_sequences info) → files_ok info →
  free_ranges (ls_range <$> li_sequences info) (location_search w) → ∃ w', @write_line E info w = Ok w'.
Proof.
  intros Hw Hl Hfl Hf. apply (write_sequences_total (li_files info)); [done| |apply cache_new|done..].
  eexists. split; [done|]. split; [done|]. simpl. unfold zrep. rewrite length_replicate. unfold zlen. lia.
Qed.

(** The states of the writer: line programs and functions of the kernel are added
    whose ranges are free, in any order. *)
Inductive collected : DebugModuleFileWriter → Prop :=
| collected_new : collected writer_new
| collected_line w info w' : collected w → sequences_ok (li_sequences info) → free_ranges (ls_range <$> li_sequences info) (location_search w) →
    @write_line unit info w = Ok w' → collected w'
| collected_function w f info w' : collected w → function_ok f → free_ranges (fi_ranges f) (function_search w) →
    @write_function unit f info w = Ok w' → collected w'.

Lemma collected_good w : collected w → good w.
Proof.
  induction 1; [apply good_new|by eapply write_line_good|by eapply write_function_good].
Qed.


(** ** Examples *)

Definition K : Z := KERNEL_BASE.
Definition demo_lines : LineInfo :=
  mkLineInfo [[97; 46; 114; 115]]
    [mkLineSequence (K + 0x100, K + 0x200) [mkLineEntry (K + 0x100) (mkSrcLoc 0 1 1); mkLineEntry (K + 0x120) (mkSrcLoc 0 2 1)];
     mkLineSequence (K + 0x400, K + 0x500) [mkLineEntry (K + 0x400) (mkSrcLoc 0 9 1)]].
Definition demo_f : FunctionInfo :=
  mkFunctionInfo [(K + 0x100, K + 0x200)] [mkInlined [(K + 0x110, K + 0x120)] (Some [103]) [] (mkSrcLoc 0 5 5)] (Some [102]) (mkSrcLoc 0 1 1).
Definition demo_h : FunctionInfo := mkFunctionInfo [(K + 0x400, K + 0x500)] [] (Some [104]) (mkSrcLoc 0 8 1).

(** The result of a step that succeeds. *)
Definition get_ok {A} (d : A) (r : res unit A) : A := match r with Ok a => a | _ => d end.
Definition demo1 : DebugModuleFileWriter := get_ok writer_new (write_line demo_lines writer_new).
Definition demo2 : DebugModuleFileWriter := get_ok writer_new (write_function demo_f (Some demo_lines) demo1).
Definition demo_writer : DebugModuleFileWriter := get_ok writer_new (write_function demo_h (Some demo_lines) demo2).

Lemma symbol_search_correct_witness :
  ∃ t, has_search t [(0x100, 0); (0x200, MISSING)] ∧ search_function t 0x150 = Ok (Some 0).
Proof.
  set (G := concat (entry_bytes <$> [(0x100, 0); (0x200, MISSING)])). exists (table_of [] [] [] G).
  assert (Hs : has_search (table_of [] [] [] G) [(0x100, 0); (0x200, MISSING)]).
  { apply mk_has_search; [vm_compute; discriminate|vm_compute; reflexivity|vm_compute; reflexivity|vm_compute; discriminate|vm_compute; discriminate|].
    repeat apply Forall_cons_2; [..|apply Forall_nil_2]; unfold entry_fits, MISSING, usize_max; simpl; lia. }
  split; [exact Hs|]. destruct (symbol_search_correct _ _ 0x150 Hs ltac:(repeat split; lia)) as (b & E & _ & Hb).
  rewrite (Hb 0) in E; [exact E|reflexivity|discriminate].
Defined.

(** Nothing of an empty map is taken. *)
Lemma free_ranges_new {V} ranges :
  Forall (λ r : Z * Z, KERNEL_BASE ≤ r.1 ∧ r.1 < r.2 ∧ r.2 < KERNEL_BASE + 2 ^ 32) ranges →
  pairwise (λ r r' : Z * Z, r.2 ≤ r'.1 ∨ r'.2 ≤ r.1) ranges → @free_ranges V ranges [].
Proof. done. Qed.

Ltac concrete := repeat first [split | constructor]; vm_compute; first [reflexivity | discriminate].

Lemma demo1_collected : collected demo1.
Proof.
  apply (collected_line writer_new demo_lines demo1); [constructor| |apply free_ranges_new|vm_compute; reflexivity].
  - concrete.
  - concrete.
  - simpl. repeat constructor; unfold K; simpl; lia.
Qed.

Lemma owner_none {V} (m : IntervalMap V) k : Forall (λ p : Z * (Z * V), ¬ range_of p.1 p.2.1 k) m → owner m k = None.
Proof.
  intros Hm. unfold owner, im_get, range_back. destruct (last _) as [[s [e v]]|] eqn:El; [|done].
  apply last_Some_elem_of, list_elem_of_filter in El as [_ El]. rewrite Forall_forall in Hm. specialize (Hm _ El). unfold range_of in Hm. simpl in Hm.
  destruct ((s <=? k) && (k <? e)) eqn:Eb; [|done]. apply andb_true_iff in Eb as [?%Z.leb_le ?%Z.ltb_lt]. lia.
Qed.

Lemma demo2_collected : collected demo2.
Proof.
  apply (collected_function demo1 demo_f (Some demo_lines) demo2); [apply demo1_collected| |apply free_ranges_new|vm_compute; reflexivity].
  - concrete.
  - concrete.
  - concrete.
Qed.

Lemma demo_writer_collected : collected demo_writer.
Proof.
  apply (collected_function demo2 demo_h (Some demo_lines) demo_writer); [apply demo2_collected|concrete| |vm_compute; reflexivity].
  split_and!; [concrete|concrete|]. intros r k ->%list_elem_of_singleton Hk. apply owner_none.
  replace (function_search demo2) with [(K + 0x100, (K + 0x110, 0)); (K + 0x110, (K + 0x120, 1)); (K + 0x120, (K + 0x200, 0))] by (vm_compute; reflexivity).
  unfold range_of, K in *. simpl in *. repeat constructor; simpl; lia.
Qed.


(** The address of the inlined function, through the whole file. *)
Lemma symbols_roundtrip_witness : ∃ bytes t, write demo_writer = Ok bytes ∧ parse bytes = Ok t ∧
  lookup t (K + 0x118) = Ok (mkSymbol [103] None (Some (mkLocation [97; 46; 114; 115] 5 5))).
Proof.
  destruct (symbols_roundtrip demo_writer (good_writable _ (collected_good _ demo_writer_collected)) ltac:(vm_compute; discriminate)) as (bytes & Eb & H).
  exists bytes. assert (Hb : zlen bytes ≤ usize_max).
  { transitivity (zlen (get_ok [] (write demo_writer))); [rewrite Eb; reflexivity|vm_compute; discriminate]. }
  destruct (H Hb) as (t & Et & Hl). exists t. split; [exact Eb|]. split; [exact Et|].
  apply (Hl (K + 0x118) (K + 0x110) (K + 0x120) 1 (mkFun MISSING 2 (mkLoc 0 5 5)) [103] [97; 46; 114; 115]).
  - replace (function_search demo_writer) with [(K + 0x100, (K + 0x110, 0)); (K + 0x110, (K + 0x120, 1)); (K + 0x120, (K + 0x200, 0)); (K + 0x400, (K + 0x500, 2))] by (vm_compute; reflexivity).
    right. left.
  - unfold K, KERNEL_BASE. lia.
  - vm_compute. reflexivity.
  - split; (split; [vm_compute; split; [discriminate|reflexivity]|split; [vm_compute; reflexivity|]]).
    + split; [apply (bool_decide_eq_false_1 _); vm_compute; reflexivity|vm_compute; reflexivity].
    + split; [apply (bool_decide_eq_false_1 _); vm_compute; reflexivity|vm_compute; reflexivity].
Defined.

(** ** What goes wrong *)

(** A range inside one that starts below it is not seen to overlap. *)
Lemma insert_misses_overlap : @im_insert Z unit 5 7 1 [(0, (10, 2))] = Ok (true, [(0, (10, 2)); (5, (7, 1))]).
Proof. reflexivity. Qed.

Definition gap_table : SymbolTable :=
  table_of [] [] [] (concat (entry_bytes <$> [(0x100, 1); (0x200, MISSING); (0x400, 2); (0x500, MISSING)])).
(** An address behind the last function is given to it. *)
Lemma lookup_keeps_function : value_at [(0x100, 1); (0x200, MISSING); (0x400, 2); (0x500, MISSING)] 0x600 = Some MISSING ∧
  search_function gap_table 0x600 = Ok (Some 2).
Proof. split; vm_compute; reflexivity. Qed.

Definition demo_table : SymbolTable := get_ok gap_table (let? b := write demo_writer in parse b).
(** An address with a row of its own is not found once the search visits the end of
    a range. *)
Lemma location_behind_marker : lookup_location demo_table (K + 0x108) = Ok (mkLocation [97; 46; 114; 115] 1 1) ∧
  lookup_location demo_table (K + 0x408) = Err tt.
Proof. split; vm_compute; reflexivity. Qed.

(** A function without a source location has no symbol. *)
Lemma function_without_location :
  (let? w := write_function demo_f None writer_new in let? b := write w in let? t := parse b in lookup t (K + 0x100)) = Err tt.
Proof. vm_compute. reflexivity. Qed.

(** Looking up a location in a file that is cut off panics. *)
Lemma lookup_location_panics : lookup_location (mkTable [] 0 0 0 0 0 20 0 0) K = Panic ∧ lookup (mkTable [] 0 0 0 0 0 0 0 12) K = Err tt.
Proof. split; vm_compute; reflexivity. Qed.
