(* ===== verification/Cmdline.v ===== *)
(** * The kernel command line (src/cmdline/, proc-macros/src/lib.rs)

    Tokens, the parsers of numbers, flags and options, the parser that the derive
    macro generates for a structure with named fields, and the options of the
    kernel.  The lexer itself is generated by the third-party crate logos from the
    patterns in lexer.rs: it is a class here, with a concrete instance. *)

From Stdlib Require Import Ascii String.
From S2P Require Import Prelude.
From S2P Require Import Bytes.

(** ** Numbers *)

Definition i64_max : Z := 2 ^ 63 - 1.
Definition i64_min : Z := - 2 ^ 63.

(** [char::to_digit]. *)
Definition to_digit (c : ascii) : option Z :=
  let n := Z.of_nat (nat_of_ascii c) in
  if (48 <=? n) && (n <=? 57) then Some (n - 48)
  else if (97 <=? n) && (n <=? 122) then Some (n - 87)
  else if (65 <=? n) && (n <=? 90) then Some (n - 55)
  else None.

(** The number that digits stand for, if all of them are digits of the radix. *)
Fixpoint digits_value (radix acc : Z) (l : list ascii) : option Z :=
  match l with
  | [] => Some acc
  | c :: l =>
      match to_digit c with
      | Some d => if d <? radix then digits_value radix (acc * radix + d) l else None
      | None => None
      end
  end.

(** [i64::from_str_radix] of the standard library, and [parse]. *)
Definition from_str_radix (l : list ascii) (radix : Z) : option Z :=
  let '(neg, l) := match l with
    | "-"%char :: l => (true, l)
    | "+"%char :: l => (false, l)
    | _ => (false, l)
    end in
  match l with
  | [] => None
  | _ =>
      match digits_value radix 0 l with
      | Some v => let v := if (neg : bool) then - v else v in if (i64_min <=? v) && (v <=? i64_max) then Some v else None
      | None => None
      end
  end.

(** [str::strip_prefix]. *)
Fixpoint strip_prefix (p l : list ascii) : option (list ascii) :=
  match p, l with
  | [], _ => Some l
  | a :: p, c :: l => if decide (a = c) then strip_prefix p l else None
  | _ :: _, [] => None
  end.

Definition parse_int (str : list ascii) : res unit Z :=
  let '(neg, str) := match strip_prefix ["-"%char] str with Some s => (true, s) | None => (false, str) end in
  let? v := (match strip_prefix ["0"; "x"]%char str with
    | Some s => unwrap (from_str_radix s 16)
    | None =>
        match strip_prefix ["0"; "o"]%char str with
        | Some s => unwrap (from_str_radix s 8)
        | None =>
            match strip_prefix ["0"]%char str with
            | Some [] => Ok 0
            | Some s => unwrap (from_str_radix s 8)
            | None => unwrap (from_str_radix str 10)
            end
        end
    end) in
  Ok (if (neg : bool) then - v else v).

(** ** Tokens *)

Inductive CmdlineTokenData : Type :=
| Comma
| Colon
| OpenBrace
| ClosedBrace
| Not
| Or
| OpenParen
| ClosedParen
| Identifier (s : string)
| Number (n : Z)
| Eof.
#[export] Instance CmdlineTokenData_dec : EqDecision CmdlineTokenData.
Proof. solve_decision. Defined.

Inductive CmdlineErrorCode : Type :=
| ExpectedToken (actual expected : CmdlineTokenData)
| UnknownField (l : list string)
| UnknownFlagField (l : list string)
| UnknownEnumerator (l : list string)
| UnknownFlag (l : list string)
| BadToken
| BadBoolean (t : CmdlineTokenData)
| BadInt (t : CmdlineTokenData).

(** A token or an error with its place. *)
Abbreviation Range := (Z * Z)%type.
Definition CmdlineToken : Type := CmdlineTokenData * Range.
Definition CmdlineParseError : Type := CmdlineErrorCode * Range.

(** What the iterator of logos returns for the parts of a text: a token, an error
    where no pattern fits, or the panic of the function that computes a number;
    and the place of its end. *)
Definition item : Type := res unit CmdlineTokenData * Range.
Class Logos : Type := { logos_items : string → list item; logos_end : string → Range }.

(** ** The lexer *)

Record CmdlineLexer : Type := mkLexer { lexer : list item; end_span : Range; current : CmdlineToken }.

(** Code that reads tokens and fills a value of type [T]. *)
Abbreviation P T A := (M (CmdlineLexer * T) CmdlineParseError A).

Definition unwrap_ident (tok : CmdlineToken) : res CmdlineParseError string :=
  match tok.1 with
  | Identifier s => Ok s
  | t => Err (ExpectedToken t (Identifier "*"), tok.2)
  end.
Definition make_error (tok : CmdlineToken) (c : CmdlineErrorCode) : CmdlineParseError := (c, tok.2).

(** [lexer.next()] and [lexer.span()]. *)
Definition lex (items : list item) (end_ : Range) : res CmdlineParseError (CmdlineToken * list item) :=
  match items with
  | (Ok t, r) :: items => Ok ((t, r), items)
  | (Err _, r) :: _ => Err (BadToken, r)
  | (Panic, _) :: _ => Panic
  | [] => Ok ((Eof, end_), [])
  end.
Definition CmdlineLexer_new `{Logos} (s : string) : res CmdlineParseError CmdlineLexer :=
  let? (tok, items) := lex (logos_items s) (logos_end s) in
  Ok (mkLexer items (logos_end s) tok).

Definition next_tok {T} : P T CmdlineToken := λ '(l, v),
  match lex (lexer l) (end_span l) with
  | Ok (tok, items) => Ok (current l, (mkLexer items (end_span l) tok, v))
  | Err e => Err (e, (mkLexer (tail (lexer l)) (end_span l) (current l), v))
  | Panic => Panic
  end.
Definition peek {T} : P T CmdlineToken := λ s, Ok (current s.1, s).

Definition expect {T} (tok : CmdlineTokenData) : P T unit :=
  let! t := next_tok in
  if decide (t.1 = tok) then mret tt else mfail (ExpectedToken t.1 tok, t.2).

(** The loop of [parse_block]: a turn takes a delimiter, so the number of the parts
    of the text that are left bounds the turns. *)
Fixpoint block_loop {T} (fuel : nat) (delimiter : CmdlineTokenData) (handler : P T unit) : P T unit :=
  match fuel with
  | O => mpanic
  | S fuel =>
      let! _ := handler in
      let! t := peek in
      if decide (t.1 = delimiter) then
        let! _ := next_tok in
        block_loop fuel delimiter handler
      else mret tt
  end.
Definition parse_block {T} (end_tok delimiter : CmdlineTokenData) (handler : P T unit) : P T unit :=
  let! t := peek in
  let! _ := (if decide (t.1 = end_tok) then mret tt
    else λ s, block_loop (S (S (length (lexer s.1)))) delimiter handler s) in
  expect end_tok.

(** ** Values *)

Definition set_value {T} (v : T) : P T unit := λ s, Ok (tt, (s.1, v)).
Definition get_value {T} : P T T := λ s, Ok (s.2, s).

Definition parse_bool : P bool unit :=
  let! tok := next_tok in
  match tok.1 with
  | Identifier s =>
      if decide (s = "true"%string) then set_value true
      else if decide (s = "false"%string) then set_value false
      else mfail (make_error tok (BadBoolean tok.1))
  | Number n => set_value (negb (n =? 0))
  | t => mfail (make_error tok (BadBoolean t))
  end.

(** [impl_int_parsable] for a type with the values from [lo] to [hi]. *)
Definition parse_integer (lo hi : Z) : P Z unit :=
  let! tok := next_tok in
  match tok.1 with
  | Number x => if (lo <=? x) && (x <=? hi) then set_value x else mfail (make_error tok (BadInt tok.1))
  | t => mfail (make_error tok (BadInt t))
  end.

(** [str::eq_ignore_ascii_case]. *)
Definition to_ascii_lowercase (c : ascii) : ascii :=
  let n := nat_of_ascii c in if ((65 <=? n) && (n <=? 90))%nat then ascii_of_nat (n + 32) else c.
Fixpoint eq_ignore_ascii_case (a b : string) : bool :=
  match a, b with
  | EmptyString, EmptyString => true
  | String x a, String y b => bool_decide (to_ascii_lowercase x = to_ascii_lowercase y) && eq_ignore_ascii_case a b
  | _, _ => false
  end.

(** The parser of a set of bit flags; its loop has no end but an error. *)
Fixpoint flags_loop (fuel : nat) (flags : list (string * Z)) : P Z unit :=
  match fuel with
  | O => mpanic
  | S fuel =>
      let! t := peek in
      let neg := bool_decide (t.1 = Not) in
      let! _ := (if neg then let! _ := next_tok in mret tt else mret tt) in
      let! id_tok := next_tok in
      let! id := mlift (unwrap_ident id_tok) in
      match list_find (λ f, eq_ignore_ascii_case f.1 id = true) flags with
      | None => mfail (make_error id_tok (UnknownFlag []))
      | Some (_, (_, v)) =>
          let! old := get_value in
          let! _ := set_value (if neg then Z.ldiff old v else Z.lor old v) in
          flags_loop fuel flags
      end
  end.
Definition parse_flags (flags : list (string * Z)) : P Z unit := λ s, flags_loop (S (S (length (lexer s.1)))) flags s.

(** ** Structures *)

(** A field of the value: the parser of its type runs on it. *)
Definition on_field {T F A} (get : T → F) (set : F → T → T) (m : P F A) : P T A := λ '(l, v),
  match m (l, get v) with
  | Ok (a, (l', f)) => Ok (a, (l', set f v))
  | Err (e, (l', f)) => Err (e, (l', set f v))
  | Panic => Panic
  end.

(** A named field as the derive macro sees it: [Some] function that sets it for a
    field of type [bool], and its parser. *)
Record field (T : Type) : Type := mkField { field_name : string; set_bool : option (bool → T → T); parse_field : P T unit }.
Arguments mkField {T}.
Arguments field_name {T}.
Arguments set_bool {T}.
Arguments parse_field {T}.

Definition find_field {T} (id : string) (l : list (field T)) : option (field T) :=
  snd <$> list_find (λ f, field_name f = id) l.
Definition bool_fields {T} (l : list (field T)) : list (field T) := List.filter (λ f, match set_bool f with Some _ => true | None => false end) l.

(** The code that the derive macro generates for a structure with named fields. *)
Definition bool_handler {T} (fields : list (field T)) (field_tok : CmdlineToken) : P T unit :=
  match bool_fields fields with
  | [] => mret tt
  | bools =>
      if decide (field_tok.1 = Not) then
        let! t := next_tok in
        let! id := mlift (unwrap_ident t) in
        match find_field id bools with
        | Some f => let! v := get_value in match set_bool f with Some set => set_value (set false v) | None => mret tt end
        | None => mfail (make_error field_tok (UnknownFlagField (field_name <$> bools)))
        end
      else mret tt
  end.
Definition named_field {T} (f : field T) : P T unit :=
  match set_bool f with
  | Some set =>
      let! t := peek in
      if decide (t.1 = Colon) then
        let! _ := next_tok in
        parse_field f
      else let! v := get_value in set_value (set true v)
  | None =>
      let! _ := expect Colon in
      parse_field f
  end.
Definition struct_handler {T} (fields : list (field T)) : P T unit :=
  let! field_tok := next_tok in
  let! _ := bool_handler fields field_tok in
  let! id := mlift (unwrap_ident field_tok) in
  match find_field id fields with
  | Some f => named_field f
  | None => mfail (make_error field_tok (UnknownField (field_name <$> fields)))
  end.
Definition handle_named_struct {T} (fields : list (field T)) : P T unit :=
  let! _ := expect OpenBrace in
  parse_block ClosedBrace Comma (struct_handler fields).

(** The code for a structure whose fields have no names: their parsers in order, an
    underscore leaves a field as it is. *)
Fixpoint unnamed_entries {T} (fields : list (P T unit)) : P T unit :=
  match fields with
  | [] => mret tt
  | parse :: fields =>
      let! t := peek in
      let! _ := (if decide (t.1 = Identifier "_") then let! _ := next_tok in mret tt else parse) in
      let! tok := peek in
      if decide (tok.1 = Comma) then
        let! _ := next_tok in
        unnamed_entries fields
      else expect ClosedParen
  end.
Definition handle_unnamed_struct {T} (fields : list (P T unit)) : P T unit :=
  let! _ := expect OpenParen in
  let! t := peek in
  if decide (t.1 = ClosedParen) then
    let! _ := next_tok in
    mret tt
  else unnamed_entries fields.

(** The code for an enumeration whose variants have no fields, by the names of the
    variants in lower case. *)
Definition handle_enum {T} (variants : list (string * T)) : P T unit :=
  let! id_tok := next_tok in
  let! id := mlift (unwrap_ident id_tok) in
  match list_find (λ v, v.1 = id) variants with
  | Some (_, (_, v)) => set_value v
  | None => mfail (make_error id_tok (UnknownEnumerator variants.*1))
  end.

(** ** The options of the kernel *)

Record SerialOptions : Type := mkSerial { serial_enable : bool }.
Record FramebufferOptions : Type := mkFbOptions { fb_enable : bool }.
Record LogOptions : Type := mkLog { serial : SerialOptions; fb : FramebufferOptions }.
Record KernelCmdline : Type := mkCmdline { logging : LogOptions }.

Definition DEFAULT_OPTIONS : KernelCmdline := mkCmdline (mkLog (mkSerial true) (mkFbOptions true)).

Definition parse_SerialOptions : P SerialOptions unit :=
  handle_named_struct [mkField "enable" (Some (λ b _, mkSerial b)) (on_field serial_enable (λ b _, mkSerial b) parse_bool)].
Definition parse_FramebufferOptions : P FramebufferOptions unit :=
  handle_named_struct [mkField "enable" (Some (λ b _, mkFbOptions b)) (on_field fb_enable (λ b _, mkFbOptions b) parse_bool)].
Definition parse_LogOptions : P LogOptions unit :=
  handle_named_struct [
    mkField "serial" None (on_field serial (λ s o, mkLog s (fb o)) parse_SerialOptions);
    mkField "fb" None (on_field fb (λ f o, mkLog (serial o) f) parse_FramebufferOptions)].

Definition kernel_handler : P KernelCmdline unit :=
  let! tok := next_tok in
  let! id := mlift (unwrap_ident tok) in
  if decide (id = "logging"%string) then
    let! _ := expect Colon in
    on_field logging (λ o _, mkCmdline o) parse_LogOptions
  else mfail (make_error tok (UnknownFlag ["logging"%string])).
Definition parse_KernelCmdline : P KernelCmdline unit := parse_block Eof Comma kernel_handler.

(** [CmdlineLexer::parse]: the result, and the value it leaves. *)
Definition CmdlineLexer_parse `{Logos} {T} (parse : P T unit) (data : string) (out : T) : res Empty_set ((unit + CmdlineParseError) * T) :=
  match CmdlineLexer_new data with
  | Ok l =>
      match parse (l, out) with
      | Ok (_, (_, v)) => Ok (inl tt, v)
      | Err (e, (_, v)) => Ok (inr e, v)
      | Panic => Panic
      end
  | Err e => Ok (inr e, out)
  | Panic => Panic
  end.

(** [CStr::to_str]. *)
Definition to_str (bytes : list Z) : option string :=
  if utf8_valid bytes then Some (string_of_list_ascii ((λ b, ascii_of_nat (Z.to_nat b)) <$> bytes)) else None.

Inductive CmdlineError : Type := NoResponse | Utf8Error | ParseError (e : CmdlineParseError).

(** The three cells; they are set once. *)
Record state : Type := mkState { CMDLINE_TEXT : option string; CMDLINE_STATE : KernelCmdline; CMDLINE_ERROR : option CmdlineError }.
Definition state_new : state := mkState None DEFAULT_OPTIONS None.
Definition once {A} (o : option A) (a : A) : option A := match o with Some b => Some b | None => Some a end.

(** The answer of the boot loader: none, or the bytes of the command line. *)
Definition parse_kernel_cmdline `{Logos} (response : option (list Z)) (s : state) : res Empty_set state :=
  match response with
  | Some bytes =>
      match to_str bytes with
      | None => Ok (mkState (CMDLINE_TEXT s) (CMDLINE_STATE s) (once (CMDLINE_ERROR s) Utf8Error))
      | Some data =>
          let text := once (CMDLINE_TEXT s) data in
          let? (r, v) := CmdlineLexer_parse parse_KernelCmdline data (CMDLINE_STATE s) in
          match r with
          | inl _ => Ok (mkState text v (CMDLINE_ERROR s))
          | inr e => Ok (mkState text DEFAULT_OPTIONS (once (CMDLINE_ERROR s) (ParseError e)))
          end
      end
  | None => Ok (mkState (CMDLINE_TEXT s) (CMDLINE_STATE s) (once (CMDLINE_ERROR s) NoResponse))
  end.
Definition get_cmdline (s : state) : KernelCmdline := CMDLINE_STATE s.
Definition get_cmdline_text (s : state) : option string := CMDLINE_TEXT s.
Definition get_cmdline_error (s : state) : option CmdlineError := CMDLINE_ERROR s.

(** ** What a parser reads *)

Abbreviation tokens := (list CmdlineTokenData).

(** The parts of the text from the current token on; at the end there are none. *)
Definition pending (l : CmdlineLexer) : list (res unit CmdlineTokenData) :=
  if decide ((current l).1 = Eof) then [] else Ok (current l).1 :: (fst <$> lexer l).
Definition first (p : list (res unit CmdlineTokenData)) : CmdlineTokenData := match p with Ok t :: _ => t | _ => Eof end.
(** The next part, if there is one, is a token. *)
Definition ready (p : list (res unit CmdlineTokenData)) : Prop := match p with [] | Ok _ :: _ => True | _ => False end.
(** The end is not a token of the text. *)
Definition lex_ok (l : CmdlineLexer) : Prop := (Ok Eof ∉ (lexer l).*1) ∧ ((current l).1 = Eof → lexer l = []).

Lemma peek_first {T} l (v : T) : peek (l, v) = Ok (current l, (l, v)) ∧ (current l).1 = first (pending l).
Proof. split; [done|]. unfold pending. by destruct (decide _) as [->|]. Qed.

Lemma lex_ok_next l items t r e : lex_ok l → lexer l = (Ok t, r) :: items → lex_ok (mkLexer items e (t, r)) ∧ fst <$> lexer l = pending (mkLexer items e (t, r)).
Proof.
  intros [Hn _] E. rewrite E in *. cbn in Hn. apply not_elem_of_cons in Hn as [Ht Hn]. assert (t ≠ Eof) by congruence. split; [by split|].
  unfold pending. cbn. by rewrite decide_False.
Qed.

Lemma next_tok_sound {T} l (v : T) t l' v' : lex_ok l → next_tok (l, v) = Ok (t, (l', v')) →
  v' = v ∧ lex_ok l' ∧ (t.1 = Eof ∧ pending l = [] ∧ pending l' = [] ∨ t.1 ≠ Eof ∧ pending l = Ok t.1 :: pending l').
Proof.
  intros Hl. unfold next_tok, lex. destruct (lexer l) as [|[[t'|[]|] r] items] eqn:E; [| |done..].
  - intros [= <- <- <-]. split; [done|]. split; [by split; [apply not_elem_of_nil|]|]. unfold pending. rewrite E. cbn. destruct (decide _); [by left|by right].
  - intros [= <- <- <-]. destruct (lex_ok_next l items t' r (end_span l) Hl E) as [Hl' Ep]. split; [done|]. split; [done|]. right.
    destruct (decide ((current l).1 = Eof)) as [Hc|Hc]; [by rewrite (proj2 Hl Hc) in E|]. split; [done|]. rewrite <-Ep. unfold pending. by rewrite decide_False.
Qed.

Lemma next_tok_complete {T} l (v : T) t p : lex_ok l → pending l = Ok t :: p → ready p →
  ∃ r l', next_tok (l, v) = Ok ((t, r), (l', v)) ∧ lex_ok l' ∧ pending l' = p.
Proof.
  intros Hl. unfold pending at 1. destruct (decide _) as [|Hc]; [done|]. intros [= Et Ep] Hp. destruct (current l) as [t0 r0] eqn:Ec. cbn in Et, Hc. subst t0. exists r0.
  unfold next_tok, lex. rewrite Ec. destruct (lexer l) as [|[[t'|[]|] r] items] eqn:E; cbn in Ep; subst p; [|..|done|done].
  - eexists. split; [done|]. split; [by split; [apply not_elem_of_nil|]|done].
  - destruct (lex_ok_next l items t' r (end_span l) Hl E) as [Hl' Ep]. eexists. split; [done|]. split; [done|]. rewrite <-Ep, E. done.
Qed.

Lemma next_tok_end {T} l (v : T) : lex_ok l → pending l = [] → ∃ r l', next_tok (l, v) = Ok ((Eof, r), (l', v)) ∧ lex_ok l' ∧ pending l' = [].
Proof.
  intros Hl. unfold pending at 1. destruct (decide _) as [Hc|]; [|done]. intros _. destruct (current l) as [t0 r0] eqn:Ec. cbn in Hc. subst t0. exists r0.
  unfold next_tok, lex. rewrite (proj2 Hl), Ec by (by rewrite Ec). eexists. split; [done|]. split; [by split; [apply not_elem_of_nil|]|done].
Qed.

(** ** Languages of parsers *)

Section languages.
Context {T : Type}.
Implicit Types (L : tokens → T → T → Prop) (v : T).

(** A parser that succeeds has read tokens of the language ... *)
Definition sound (m : P T unit) L : Prop := ∀ l v l' v', lex_ok l → m (l, v) = Ok (tt, (l', v')) →
  lex_ok l' ∧ ∃ ts, pending l = (Ok <$> ts) ++ pending l' ∧ L ts v v'.
(** ... and it succeeds on them, if what follows is allowed by [F]. *)
Definition complete (m : P T unit) L (F : CmdlineTokenData → Prop) : Prop := ∀ l v ts v' p, lex_ok l → pending l = (Ok <$> ts) ++ p → L ts v v' → ready p → F (first p) →
  ∃ l', m (l, v) = Ok (tt, (l', v')) ∧ lex_ok l' ∧ pending l' = p.

Lemma expect_complete t F : complete (expect t) (λ ts v v', ts = [t] ∧ v' = v) F.
Proof.
  intros l v ts v' p Hl Hp [-> ->] Hr _. destruct (next_tok_complete l v t p Hl Hp Hr) as (r & l' & E & Hl' & Hp').
  exists l'. split; [|done]. unfold expect. rewrite (mbind_ok _ _ _ _ _ E). by rewrite decide_True.
Qed.

Lemma ready_app (ts : tokens) p : ready p → ready ((Ok <$> ts) ++ p).
Proof. by destruct ts. Qed.
Lemma first_app (ts : tokens) p : first ((Ok <$> ts) ++ p) = match ts with t :: _ => t | [] => first p end.
Proof. by destruct ts. Qed.

(** Values that are separated by commas. *)
Inductive separated L : tokens → T → T → Prop :=
| separated_one ts v v' : L ts v v' → separated L ts v v'
| separated_more ts ts' v v1 v' : L ts v v1 → separated L ts' v1 v' → separated L (ts ++ Comma :: ts') v v'.
Definition block L (ts : tokens) v v' : Prop := (ts = [] ∧ v' = v) ∨ separated L ts v v'.

Lemma block_loop_sound fuel h L : sound h L → sound (block_loop fuel Comma h) (separated L).
Proof.
  intros Hh. induction fuel as [|fuel IH]; intros l v l' v' Hl; [done|]. cbn [block_loop]. unfold mbind' at 1. destruct (h (l, v)) as [[[] [l1 v1]]|[]|] eqn:E; [|done..].
  destruct (Hh l v l1 v1 Hl E) as (Hl1 & ts & Hp & HL). destruct (peek_first l1 v1) as [Ep Ef]. rewrite (mbind_ok _ _ _ _ _ Ep). destruct (decide _) as [Hc|Hc].
  - unfold mbind'. destruct (next_tok (l1, v1)) as [[t [l2 v2]]|[]|] eqn:En; [|done..]. destruct (next_tok_sound _ _ _ _ _ Hl1 En) as (-> & Hl2 & Hn).
    intros Eb. destruct (IH l2 v1 l' v' Hl2 Eb) as (Hl' & ts' & Hp' & Hsep). split; [done|]. exists (ts ++ Comma :: ts'). split; [|by eapply separated_more].
    rewrite Ef in Hc. destruct Hn as [(_ & Hn & _)|(_ & Hn)]; rewrite Hn in Hc; [done|]. cbn in Hc. by rewrite Hp, Hn, Hc, Hp', fmap_app, <-app_assoc.
  - intros [= -> ->]. split; [done|]. exists ts. split; [done|]. by apply separated_one.
Qed.

Lemma block_loop_complete h L F : complete h L F → F Comma → ∀ ts v v', separated L ts v v' → ∀ fuel l p, (length ts < fuel)%nat → lex_ok l → pending l = (Ok <$> ts) ++ p →
  ready p → F (first p) → first p ≠ Comma → ∃ l', block_loop fuel Comma h (l, v) = Ok (tt, (l', v')) ∧ lex_ok l' ∧ pending l' = p.
Proof.
  intros Hh HC ts v v' Hs. induction Hs as [ts v v' HL|ts ts' v v1 v' HL Hs IH]; intros fuel l p Hfuel Hl Hp Hr HF Hne; (destruct fuel as [|fuel]; [lia|]); cbn [block_loop].
  - destruct (Hh l v ts v' p Hl Hp HL Hr HF) as (l1 & E & Hl1 & Hp1). rewrite (mbind_ok _ _ _ _ _ E). destruct (peek_first l1 v') as [Ep Ef]. rewrite (mbind_ok _ _ _ _ _ Ep).
    rewrite decide_False by (by rewrite Ef, Hp1). by exists l1.
  - rewrite fmap_app, <-app_assoc in Hp. cbn in Hp. destruct (Hh l v ts v1 (Ok Comma :: (Ok <$> ts') ++ p) Hl Hp HL I HC) as (l1 & E & Hl1 & Hp1). rewrite (mbind_ok _ _ _ _ _ E).
    destruct (peek_first l1 v1) as [Ep Ef]. rewrite (mbind_ok _ _ _ _ _ Ep), decide_True by (by rewrite Ef, Hp1).
    destruct (next_tok_complete l1 v1 Comma _ Hl1 Hp1 (ready_app ts' p Hr)) as (r & l2 & En & Hl2 & Hp2). rewrite (mbind_ok _ _ _ _ _ En).
    apply IH; [|done..]. rewrite length_app in Hfuel. cbn in Hfuel. lia.
Qed.

(** The values of a block start with an identifier. *)
Definition starts L : Prop := ∀ ts v v', L ts v v' → ∃ s ts', ts = Identifier s :: ts'.
Lemma separated_starts L : starts L → starts (separated L).
Proof. intros HL ts v v' [? ? ? H|? ? ? ? ? H _]; destruct (HL _ _ _ H) as (s & ts1 & ->); [by eexists _, _|]. by exists s, (ts1 ++ Comma :: ts'). Qed.

Lemma parse_block_loop_complete end_tok h L F l v ts v' p : complete h L F → starts L → F Comma → separated L ts v v' → lex_ok l → pending l = (Ok <$> ts) ++ p → ready p → F (first p) → first p ≠ Comma →
  (∀ s, end_tok ≠ Identifier s) → ∃ l', parse_block end_tok Comma h (l, v) = expect end_tok (l', v') ∧ lex_ok l' ∧ pending l' = p.
Proof.
  intros Hh Hst HC Hs Hl Hp Hr HF Hne He. unfold parse_block. destruct (peek_first l v) as [Ep Ef]. rewrite (mbind_ok _ _ _ _ _ Ep).
  destruct (separated_starts L Hst ts v v' Hs) as (s & ts1 & Ets). rewrite decide_False by (rewrite Ef, Hp, Ets; cbn; congruence).
  assert (Hlen : (length ts < S (S (length (lexer l))))%nat).
  { apply (f_equal length) in Hp. rewrite length_app, length_fmap in Hp. unfold pending in Hp. destruct (decide _); cbn [length] in Hp; rewrite ?length_fmap in Hp; unfold item in *; lia. }
  destruct (block_loop_complete h L F Hh HC ts v v' Hs _ l p Hlen Hl Hp Hr HF Hne) as (l' & E & Hl' & Hp'). exists l'. split; [|done].
  by rewrite (mbind_ok _ _ _ _ _ (E : (λ s, block_loop (S (S (length (lexer s.1)))) Comma h s) (l, v) = _)).
Qed.

Lemma expect_value t l v l' v' : lex_ok l → expect t (l, v) = Ok (tt, (l', v')) → v' = v ∧ lex_ok l' ∧ (t = Eof ∧ pending l = [] ∧ pending l' = [] ∨ t ≠ Eof ∧ pending l = Ok t :: pending l').
Proof.
  intros Hl. unfold expect, mbind'. destruct (next_tok (l, v)) as [[t' [l1 v1]]|[]|] eqn:E; [|done..]. destruct (next_tok_sound _ _ _ _ _ Hl E) as (-> & Hl1 & Hp).
  destruct (decide _) as [<-|]; [|done]. by intros [= -> ->].
Qed.

Lemma parse_block_sound_aux end_tok h L l v l' v' : sound h L → lex_ok l → parse_block end_tok Comma h (l, v) = Ok (tt, (l', v')) →
  ∃ l1 ts, lex_ok l1 ∧ pending l = (Ok <$> ts) ++ pending l1 ∧ block L ts v v' ∧ expect end_tok (l1, v') = Ok (tt, (l', v')).
Proof.
  intros Hh Hl. unfold parse_block. destruct (peek_first l v) as [Ep Ef]. rewrite (mbind_ok _ _ _ _ _ Ep). destruct (decide _) as [He|He].
  - intros E. destruct (expect_value _ _ _ _ _ Hl E) as (-> & _). exists l, []. split; [done|]. split; [done|]. split; [by left|exact E].
  - unfold mbind'. destruct (block_loop _ Comma h (l, v)) as [[[] [l1 v1]]|[]|] eqn:E; [|done..]. destruct (block_loop_sound _ h L Hh l v l1 v1 Hl E) as (Hl1 & ts & Hp & Hs). intros Ee.
    destruct (expect_value _ _ _ _ _ Hl1 Ee) as (-> & _). exists l1, ts. split; [done|]. split; [done|]. split; [by right|exact Ee].
Qed.

Lemma bind_sound m1 m2 L1 L2 : sound m1 L1 → sound m2 L2 → sound (let! _ := m1 in m2) (λ ts v v', ∃ ts1 ts2 v1, ts = ts1 ++ ts2 ∧ L1 ts1 v v1 ∧ L2 ts2 v1 v').
Proof.
  intros H1 H2 l v l' v' Hl. unfold mbind'. destruct (m1 (l, v)) as [[[] [l1 v1]]|[]|] eqn:E; [|done..]. destruct (H1 l v l1 v1 Hl E) as (Hl1 & ts1 & Hp1 & HL1). intros E2.
  destruct (H2 l1 v1 l' v' Hl1 E2) as (Hl' & ts2 & Hp2 & HL2). split; [done|]. exists (ts1 ++ ts2). split; [by rewrite Hp1, Hp2, fmap_app, app_assoc|]. by exists ts1, ts2, v1.
Qed.
Lemma bind_complete m1 m2 L1 L2 F : complete m1 L1 (λ _, True) → complete m2 L2 F →
  complete (let! _ := m1 in m2) (λ ts v v', ∃ ts1 ts2 v1, ts = ts1 ++ ts2 ∧ L1 ts1 v v1 ∧ L2 ts2 v1 v') F.
Proof.
  intros H1 H2 l v ts v' p Hl Hp (ts1 & ts2 & v1 & -> & HL1 & HL2) Hr HF. rewrite fmap_app, <-app_assoc in Hp.
  destruct (H1 l v ts1 v1 _ Hl Hp HL1 (ready_app ts2 p Hr) I) as (l1 & E & Hl1 & Hp1). rewrite (mbind_ok _ _ _ _ _ E). by apply (H2 l1 v1 ts2 v' p).
Qed.

Definition one (t : CmdlineTokenData) (ts : tokens) v v' : Prop := ts = [t] ∧ v' = v.
Lemma expect_sound t : t ≠ Eof → sound (expect t) (one t).
Proof.
  intros Ht l v l' v' Hl E. destruct (expect_value _ _ _ _ _ Hl E) as (-> & Hl' & [[? _]|[_ Hp]]); [done|]. split; [done|]. by exists [t].
Qed.

(** A block in braces. *)
Definition braces L (ts : tokens) v v' : Prop := ∃ ts', ts = OpenBrace :: ts' ++ [ClosedBrace] ∧ block L ts' v v'.
Definition in_braces (h : P T unit) : P T unit := let! _ := expect OpenBrace in parse_block ClosedBrace Comma h.

Lemma in_braces_sound h L : sound h L → sound (in_braces h) (braces L).
Proof.
  intros Hh l v l' v' Hl E. assert (Hs : sound (parse_block ClosedBrace Comma h) (λ ts v v', ∃ ts', ts = ts' ++ [ClosedBrace] ∧ block L ts' v v')).
  { intros l1 v1 l2 v2 Hl1 E1. destruct (parse_block_sound_aux _ h L l1 v1 l2 v2 Hh Hl1 E1) as (l3 & ts & Hl3 & Hp & Hb & Ee).
    destruct (expect_value _ _ _ _ _ Hl3 Ee) as (_ & Hl2 & [[? _]|[_ Hp3]]); [done|]. split; [done|]. exists (ts ++ [ClosedBrace]). split; [by rewrite Hp, Hp3, fmap_app, <-app_assoc|]. by exists ts. }
  destruct (bind_sound _ _ _ _ (expect_sound OpenBrace ltac:(done)) Hs l v l' v' Hl E) as (Hl' & ts & Hp & ts1 & ts2 & v1 & -> & [-> ->] & ts' & -> & Hb).
  split; [done|]. eexists. split; [exact Hp|]. by exists ts'.
Qed.

Lemma in_braces_complete h L : complete h L (λ t, t ≠ Colon) → starts L → complete (in_braces h) (braces L) (λ _, True).
Proof.
  intros Hh Hst l v ts v' p Hl Hp (ts' & -> & Hb) Hr _. cbn in Hp. destruct (expect_complete OpenBrace (λ _, True) l v [OpenBrace] v ((Ok <$> ts' ++ [ClosedBrace]) ++ p) Hl Hp) as (l1 & E & Hl1 & Hp1);
    [done|by apply ready_app|done|]. unfold in_braces. rewrite (mbind_ok _ _ _ _ _ E). rewrite fmap_app, <-app_assoc in Hp1. cbn in Hp1.
  assert (He : ∃ l2, parse_block ClosedBrace Comma h (l1, v) = expect ClosedBrace (l2, v') ∧ lex_ok l2 ∧ pending l2 = Ok ClosedBrace :: p).
  { destruct Hb as [[-> ->]|Hs]; [|by eapply parse_block_loop_complete].
    exists l1. split; [|done]. unfold parse_block. destruct (peek_first l1 v) as [Ep Ef]. rewrite (mbind_ok _ _ _ _ _ Ep), decide_True by (by rewrite Ef, Hp1). done. }
  destruct He as (l2 & -> & Hl2 & Hp2). by apply (expect_complete ClosedBrace (λ _, True) l2 v' [ClosedBrace] v' p).
Qed.

(** The whole text. *)
Lemma parse_all_sound h L l v l' v' : sound h L → lex_ok l → parse_block Eof Comma h (l, v) = Ok (tt, (l', v')) → ∃ ts, pending l = Ok <$> ts ∧ block L ts v v'.
Proof.
  intros Hh Hl E. destruct (parse_block_sound_aux _ h L l v l' v' Hh Hl E) as (l3 & ts & Hl3 & Hp & Hb & Ee).
  destruct (expect_value _ _ _ _ _ Hl3 Ee) as (_ & _ & [(_ & Hp3 & _)|[? _]]); [|done]. exists ts. by rewrite Hp, Hp3, app_nil_r.
Qed.
Lemma parse_all_complete h L l v ts v' : complete h L (λ t, t ≠ Colon) → starts L → lex_ok l → pending l = Ok <$> ts → block L ts v v' →
  ∃ l', parse_block Eof Comma h (l, v) = Ok (tt, (l', v')).
Proof.
  intros Hh Hst Hl Hp Hb. rewrite <-(app_nil_r (Ok <$> ts)) in Hp.
  assert (He : ∃ l2, parse_block Eof Comma h (l, v) = expect Eof (l2, v') ∧ lex_ok l2 ∧ pending l2 = []).
  { destruct Hb as [[-> ->]|Hs]; [|by eapply parse_block_loop_complete].
    exists l. split; [|done]. unfold parse_block. destruct (peek_first l v) as [Ep Ef]. rewrite (mbind_ok _ _ _ _ _ Ep), decide_True by (by rewrite Ef, Hp). done. }
  destruct He as (l2 & -> & Hl2 & Hp2). destruct (next_tok_end l2 v' Hl2 Hp2) as (r & l3 & E & _). exists l3. unfold expect. by rewrite (mbind_ok _ _ _ _ _ E).
Qed.

(** The fields of a structure. *)
Definition field_language (fields : list (field T)) (Lf : field T → tokens → T → T → Prop) (ts : tokens) v v' : Prop :=
  ∃ id f ts', find_field id fields = Some f ∧ ts = Identifier id :: ts' ∧ Lf f ts' v v'.

Lemma find_field_in id (fields : list (field T)) f : find_field id fields = Some f → f ∈ fields.
Proof.
  unfold find_field. destruct (list_find _ fields) as [[i f']|] eqn:El; [|done]. intros [= ->]. apply list_find_Some in El as (El & _). by eapply list_elem_of_lookup_2.
Qed.

Lemma bool_handler_other (fields : list (field T)) (tok : CmdlineToken) s : tok.1 ≠ Not → bool_handler fields tok s = Ok (tt, s).
Proof. intros Hn. unfold bool_handler. destruct (bool_fields fields); [done|]. by rewrite decide_False. Qed.

Lemma struct_handler_sound (fields : list (field T)) Lf : (∀ f, f ∈ fields → sound (named_field f) (Lf f)) → sound (struct_handler fields) (field_language fields Lf).
Proof.
  intros Hf l v l' v' Hl. unfold struct_handler. unfold mbind' at 1. destruct (next_tok (l, v)) as [[t [l1 v1]]|[]|] eqn:E; [|done..].
  destruct (next_tok_sound _ _ _ _ _ Hl E) as (-> & Hl1 & Hp). destruct (unwrap_ident t) as [id|e|] eqn:Eid.
  - unfold unwrap_ident in Eid. destruct t as [[] r]; try done. cbn in Eid, Hp. injection Eid as ->. rewrite (mbind_ok _ _ _ _ _ (bool_handler_other fields (Identifier id, r) (l1, v) ltac:(done))).
    cbn. destruct (find_field id fields) as [f|] eqn:Ef; [|done]. intros Em. destruct Hp as [(? & _)|[_ Hp]]; [done|].
    pose proof (find_field_in _ _ _ Ef) as Hin.
    destruct (Hf f Hin l1 v l' v' Hl1 Em) as (Hl' & ts & Hp' & HL). split; [done|]. exists (Identifier id :: ts). split; [by rewrite Hp, Hp'|]. by exists id, f, ts.
  - unfold mbind'. destruct (bool_handler fields t (l1, v)) as [[[] s]|[]|]; by rewrite ?Eid.
  - by destruct t as [[] r].
Qed.

Lemma struct_handler_complete (fields : list (field T)) Lf F : (∀ f, f ∈ fields → complete (named_field f) (Lf f) F) → complete (struct_handler fields) (field_language fields Lf) F.
Proof.
  intros Hf l v ts v' p Hl Hp (id & f & ts' & Ef & -> & HL) Hr HF. cbn in Hp. destruct (next_tok_complete l v (Identifier id) _ Hl Hp (ready_app ts' p Hr)) as (r & l1 & E & Hl1 & Hp1).
  unfold struct_handler. rewrite (mbind_ok _ _ _ _ _ E), (mbind_ok _ _ _ _ _ (bool_handler_other fields (Identifier id, r) (l1, v) ltac:(done))). cbn. rewrite Ef.
  pose proof (find_field_in _ _ _ Ef) as Hin.
  by apply (Hf f Hin l1 v ts' v' p).
Qed.
Lemma field_language_starts (fields : list (field T)) Lf : starts (field_language fields Lf).
Proof. intros ts v v' (id & f & ts' & _ & -> & _). by exists id, ts'. Qed.

(** A field of type [bool]: alone, or with a value. *)
Definition bool_language (set : bool → T → T) (Lv : tokens → T → T → Prop) (ts : tokens) v v' : Prop :=
  (ts = [] ∧ v' = set true v) ∨ ∃ ts', ts = Colon :: ts' ∧ Lv ts' v v'.
Lemma named_bool_sound (f : field T) set Lv : set_bool f = Some set → sound (parse_field f) Lv → sound (named_field f) (bool_language set Lv).
Proof.
  intros Hs Hf l v l' v' Hl. unfold named_field. rewrite Hs. destruct (peek_first l v) as [Ep Ef]. rewrite (mbind_ok _ _ _ _ _ Ep). destruct (decide _) as [Hc|Hc].
  - unfold mbind'. destruct (next_tok (l, v)) as [[t [l1 v1]]|[]|] eqn:E; [|done..]. destruct (next_tok_sound _ _ _ _ _ Hl E) as (-> & Hl1 & Hp). intros Em.
    destruct (Hf l1 v l' v' Hl1 Em) as (Hl' & ts & Hp' & HL). split; [done|]. exists (Colon :: ts). rewrite Ef in Hc.
    destruct Hp as [(_ & Hp & _)|[_ Hp]]; rewrite Hp in Hc; [done|]. cbn in Hc. split; [by rewrite Hp, Hc, Hp'|]. right. by exists ts.
  - intros [= <- <-]. split; [done|]. exists []. split; [done|]. by left.
Qed.
Lemma named_bool_complete (f : field T) set Lv F : set_bool f = Some set → complete (parse_field f) Lv F → complete (named_field f) (bool_language set Lv) (λ t, t ≠ Colon ∧ F t).
Proof.
  intros Hs Hf l v ts v' p Hl Hp HL Hr [HC HF]. unfold named_field. rewrite Hs. destruct (peek_first l v) as [Ep Ef]. rewrite (mbind_ok _ _ _ _ _ Ep). destruct HL as [[-> ->]|(ts' & -> & HL)].
  - rewrite decide_False by (by rewrite Ef, Hp). by exists l.
  - cbn in Hp. rewrite decide_True by (by rewrite Ef, Hp). destruct (next_tok_complete l v Colon _ Hl Hp (ready_app ts' p Hr)) as (r & l1 & E & Hl1 & Hp1).
    rewrite (mbind_ok _ _ _ _ _ E). by apply (Hf l1 v ts' v' p).
Qed.

(** Any other field: with a value. *)
Definition colon_language (Lv : tokens → T → T → Prop) (ts : tokens) v v' : Prop := ∃ ts', ts = Colon :: ts' ∧ Lv ts' v v'.
Lemma colon_sound m Lv : sound m Lv → sound (let! _ := expect Colon in m) (colon_language Lv).
Proof.
  intros Hf l v l' v' Hl E. destruct (bind_sound _ _ _ _ (expect_sound Colon ltac:(done)) Hf l v l' v' Hl E) as (Hl' & ts & Hp & ts1 & ts2 & v1 & -> & [-> ->] & HL).
  split; [done|]. eexists. split; [exact Hp|]. by exists ts2.
Qed.
Lemma colon_complete m Lv F : complete m Lv F → complete (let! _ := expect Colon in m) (colon_language Lv) F.
Proof.
  intros Hf l v ts v' p Hl Hp (ts' & -> & HL) Hr HF. eapply (bind_complete _ _ (one Colon) Lv F (expect_complete Colon _) Hf); [done|exact Hp| |done..]. by exists [Colon], ts', v.
Qed.
End languages.

(** A parser of a field of a value. *)
Definition field_of {T F} (get : T → F) (set : F → T → T) (L : tokens → F → F → Prop) (ts : tokens) (v v' : T) : Prop := ∃ f, L ts (get v) f ∧ v' = set f v.
Lemma on_field_sound {T F} get set (m : P F unit) L : sound m L → sound (on_field get set m) (field_of (T := T) get set L).
Proof.
  intros Hm l v l' v' Hl. unfold on_field. destruct (m (l, get v)) as [[[] [l1 f]]|[? []]|] eqn:E; [|done..]. intros [= -> <-].
  destruct (Hm l (get v) l' f Hl E) as (Hl' & ts & Hp & HL). split; [done|]. exists ts. split; [done|]. by exists f.
Qed.
Lemma on_field_complete {T F} get set (m : P F unit) L G : complete m L G → complete (on_field get set m) (field_of (T := T) get set L) G.
Proof.
  intros Hm l v ts v' p Hl Hp (f & HL & ->) Hr HG. destruct (Hm l (get v) ts f p Hl Hp HL Hr HG) as (l' & E & Hl' & Hp'). exists l'. unfold on_field. by rewrite E.
Qed.

(** ** The language of the command line *)

Definition bool_value (ts : tokens) (v v' : bool) : Prop :=
  (ts = [Identifier "true"] ∧ v' = true) ∨ (ts = [Identifier "false"] ∧ v' = false) ∨ ∃ n, ts = [Number n] ∧ v' = negb (n =? 0).

Lemma parse_bool_sound : sound parse_bool bool_value.
Proof.
  intros l v l' v' Hl. unfold parse_bool, mbind'. destruct (next_tok (l, v)) as [[t [l1 v1]]|[]|] eqn:E; [|done..]. destruct (next_tok_sound _ _ _ _ _ Hl E) as (-> & Hl1 & Hp).
  intros Em. assert (Hts : l' = l1 ∧ bool_value [t.1] v v' ∧ t.1 ≠ Eof).
  { destruct t as [[] r]; cbn in Em |- *; try done.
    - destruct (decide (s = "true"%string)) as [->|]; [|destruct (decide (s = "false"%string)) as [->|]; [|done]]; injection Em as <- <-; (split; [done|]); (split; [|done]).
      + by left.
      + by right; left.
    - injection Em as <- <-. split; [done|]. split; [|done]. right. right. by eexists. }
  destruct Hts as (-> & HL & Hne). split; [done|]. exists [t.1]. split; [|done]. by destruct Hp as [(? & _)|[_ ->]].
Qed.
Lemma parse_bool_complete : complete parse_bool bool_value (λ _, True).
Proof.
  intros l v ts v' p Hl Hp HL Hr _. assert (Hone : ∃ t, ts = [t]) by (destruct HL as [[-> _]|[[-> _]|(n & -> & _)]]; by eexists). destruct Hone as [t ->].
  destruct (next_tok_complete l v t p Hl Hp Hr) as (r & l' & E & Hl' & Hp'). exists l'. split; [|done]. unfold parse_bool. rewrite (mbind_ok _ _ _ _ _ E).
  by destruct HL as [[[= ->] ->]|[[[= ->] ->]|(n & [= ->] & ->)]].
Qed.

(** The forms of the setting [enable]. *)
Inductive setting : Type := Alone | Word (b : bool) | Num (n : Z).
Definition setting_tokens (s : setting) : tokens :=
  Identifier "enable" :: match s with Alone => [] | Word b => [Colon; Identifier (if b then "true" else "false")] | Num n => [Colon; Number n] end.
Definition setting_value (s : setting) : bool := match s with Alone => true | Word b => b | Num n => negb (n =? 0) end.

(** Lists in braces, and their elements with commas between them. *)
Fixpoint join (l : list tokens) : tokens :=
  match l with
  | [] => []
  | [x] => x
  | x :: l => x ++ Comma :: join l
  end.
Definition struct_tokens (l : list tokens) : tokens := OpenBrace :: join l ++ [ClosedBrace].

Inductive entry : Type := SerialEntry (l : list setting) | FbEntry (l : list setting).
Definition entry_tokens (e : entry) : tokens :=
  match e with
  | SerialEntry l => Identifier "serial" :: Colon :: struct_tokens (setting_tokens <$> l)
  | FbEntry l => Identifier "fb" :: Colon :: struct_tokens (setting_tokens <$> l)
  end.
Definition logging_tokens (es : list entry) : tokens := Identifier "logging" :: Colon :: struct_tokens (entry_tokens <$> es).
Definition command_tokens (c : list (list entry)) : tokens :=
  join (logging_tokens <$> c).

(** The last setting counts. *)
Definition apply_settings (l : list setting) (b : bool) : bool := foldl (λ _ s, setting_value s) b l.
Definition apply_entry (o : LogOptions) (e : entry) : LogOptions :=
  match e with
  | SerialEntry l => mkLog (mkSerial (apply_settings l (serial_enable (serial o)))) (fb o)
  | FbEntry l => mkLog (serial o) (mkFbOptions (apply_settings l (fb_enable (fb o))))
  end.
Definition logging_effect (o : KernelCmdline) (es : list entry) : KernelCmdline := mkCmdline (foldl apply_entry (logging o) es).
Definition apply_command (c : list (list entry)) (o : KernelCmdline) : KernelCmdline :=
  foldl logging_effect o c.

(** A block of values that a list describes. *)
Definition describes {T X} (L : tokens → T → T → Prop) (tok : X → tokens) (eff : T → X → T) : Prop := ∀ ts v v', L ts v v' ↔ ∃ x, ts = tok x ∧ v' = eff v x.
Lemma join_cons x l : l ≠ [] → join (x :: l) = x ++ Comma :: join l.
Proof. by destruct l. Qed.
Lemma separated_describes {T X} L (tok : X → tokens) (eff : T → X → T) ts v v' : describes L tok eff →
  separated L ts v v' ↔ ∃ l, l ≠ [] ∧ ts = join (tok <$> l) ∧ v' = foldl eff v l.
Proof.
  intros HL. split.
  - intros Hs. induction Hs as [ts v v' H|ts ts' v v1 v' H Hs (l & Hl & -> & ->)]; apply HL in H as (x & -> & ->); [by exists [x]|].
    exists (x :: l). split; [done|]. split; [|done]. rewrite fmap_cons, join_cons; [done|]. by destruct l.
  - intros (l & Hl & -> & ->). revert v. induction l as [|x l IH]; intros v; [done|]. assert (Hx : L (tok x) v (eff v x)) by (apply HL; by exists x).
    destruct (decide (l = [])) as [->|Hne]; [by apply separated_one|]. rewrite fmap_cons, join_cons by (by destruct l). eapply separated_more; [exact Hx|]. by apply IH.
Qed.
Lemma block_describes {T X} L (tok : X → tokens) (eff : T → X → T) : describes L tok eff → describes (block L) (λ l, join (tok <$> l)) (foldl eff).
Proof.
  intros HL ts v v'. unfold block. rewrite (separated_describes L tok eff) by done. split.
  - intros [[-> ->]|(l & _ & -> & ->)]; [by exists []|by exists l].
  - intros (l & -> & ->). destruct l as [|x l]; [by left|]. right. by exists (x :: l).
Qed.
Lemma braces_describes {T X} L (tok : X → tokens) (eff : T → X → T) : describes L tok eff → describes (braces L) (λ l, struct_tokens (tok <$> l)) (foldl eff).
Proof.
  intros HL%block_describes ts v v'. unfold braces. split.
  - intros (ts' & -> & Hb). apply HL in Hb as (l & -> & ->). by exists l.
  - intros (l & -> & ->). eexists. split; [done|]. apply HL. by exists l.
Qed.

(** ** Parsers that do not panic *)

Section safety.
Context {T : Type}.
Implicit Types (m : P T unit) (v : T).

(** No part of the text that is left is a number that does not fit. *)
Definition calm (l : CmdlineLexer) : Prop := Panic ∉ pending l.
Definition safe {A} (m : P T A) : Prop := ∀ l v, lex_ok l → calm l → m (l, v) ≠ Panic.

Lemma calm_next (l l' : CmdlineLexer) ts : pending l = ts ++ pending l' → calm l → calm l'.
Proof. unfold calm. intros ->. rewrite elem_of_app. tauto. Qed.
Lemma next_tok_panics l v : lex_ok l → calm l → next_tok (l, v) ≠ Panic.
Proof.
  unfold calm, pending, next_tok, lex. intros [_ He] Hc. destruct (lexer l) as [|[[]] items] eqn:E; [done..|]. destruct (decide _) as [Hd|Hd]; [by specialize (He Hd)|].
  exfalso. apply Hc. cbn. right. left.
Qed.
Lemma next_tok_safe {A} (k : CmdlineToken → P T A) : (∀ t, safe (k t)) → safe (let! t := next_tok in k t).
Proof.
  intros Hk l v Hl Hc. unfold mbind'. destruct (next_tok (l, v)) as [[t [l1 v1]]|[]|] eqn:E; [|done|by destruct (next_tok_panics l v Hl Hc)].
  destruct (next_tok_sound _ _ _ _ _ Hl E) as (-> & Hl1 & Hp). apply (Hk t l1 v Hl1). unfold calm in *. destruct Hp as [(_ & _ & ->)|(_ & Hp)]; [by apply not_elem_of_nil|].
  by apply (calm_next l l1 [Ok t.1] Hp).
Qed.
Lemma peek_safe {A} (k : CmdlineToken → P T A) : (∀ t, safe (k t)) → safe (let! t := peek in k t).
Proof. intros Hk l v Hl Hc. exact (Hk (current l) l v Hl Hc). Qed.
Lemma bind_safe {A} m (k : P T A) L : sound m L → safe m → safe k → safe (let! _ := m in k).
Proof.
  intros Hs Hm Hk l v Hl Hc. unfold mbind'. destruct (m (l, v)) as [[[] [l1 v1]]|[]|] eqn:E; [|done|by destruct (Hm l v Hl Hc)].
  destruct (Hs l v l1 v1 Hl E) as (Hl1 & ts & Hp & _). apply Hk; [done|]. by eapply calm_next.
Qed.
Lemma expect_safe t : safe (expect t).
Proof. apply next_tok_safe. intros t' l v _ _. by destruct (decide _). Qed.

Lemma block_loop_safe fuel h L l v : sound h L → safe h → lex_ok l → calm l → (length (pending l) < fuel)%nat → block_loop fuel Comma h (l, v) ≠ Panic.
Proof.
  intros Hs Hh. revert l v. induction fuel as [|fuel IH]; intros l v Hl Hc Hf; [lia|]. cbn [block_loop]. unfold mbind' at 1.
  destruct (h (l, v)) as [[[] [l1 v1]]|[]|] eqn:E; [|done|by destruct (Hh l v Hl Hc)]. destruct (Hs l v l1 v1 Hl E) as (Hl1 & ts & Hp & _).
  pose proof (calm_next _ _ _ Hp Hc) as Hc1. destruct (peek_first l1 v1) as [Ep Ef]. rewrite (mbind_ok _ _ _ _ _ Ep). destruct (decide _) as [Hcom|]; [|done].
  unfold mbind'. destruct (next_tok (l1, v1)) as [[t [l2 v2]]|[]|] eqn:En; [|done|by destruct (next_tok_panics l1 v1 Hl1 Hc1)].
  destruct (next_tok_sound _ _ _ _ _ Hl1 En) as (-> & Hl2 & [(_ & Hn & _)|(_ & Hn)]); [by rewrite Ef, Hn in Hcom|].
  apply IH; [done|by apply (calm_next l1 l2 [Ok t.1] Hn)|]. rewrite Hp, length_app, Hn in Hf. cbn in Hf. lia.
Qed.
Lemma pending_length l : (length (pending l) < S (S (length (lexer l))))%nat.
Proof. unfold pending. destruct (decide _); cbn [length]; rewrite ?length_fmap; unfold item in *; lia. Qed.

Lemma parse_block_safe end_tok h L : sound h L → safe h → safe (parse_block end_tok Comma h).
Proof.
  intros Hs Hh. apply peek_safe. intros t. destruct (decide _) as [He|He]; [apply expect_safe|]. apply bind_safe with (separated L); [..|apply expect_safe].
  - intros l v l' v'. apply (block_loop_sound _ h L Hs).
  - intros l v Hl Hc. by apply (block_loop_safe _ h L); [..|apply pending_length].
Qed.
Lemma colon_safe m : safe m → safe (let! _ := expect Colon in m).
Proof. intros Hm. by apply (bind_safe _ _ (one Colon)); [apply expect_sound|apply expect_safe|]. Qed.

Lemma struct_handler_safe (fields : list (field T)) : (∀ f, f ∈ fields → safe (parse_field f)) → safe (struct_handler fields).
Proof.
  intros Hf. apply next_tok_safe. intros t. destruct (unwrap_ident t) as [id|e|] eqn:E.
  - assert (Hn : t.1 ≠ Not) by (destruct t as [[] r]; done). intros l v Hl Hc. rewrite (mbind_ok _ _ _ _ _ (bool_handler_other fields t (l, v) Hn)). cbn.
    destruct (find_field id fields) as [f|] eqn:Ef; [|done]. pose proof (Hf f (find_field_in _ _ _ Ef)) as Hp. revert l v Hl Hc. change (safe (named_field f)).
    unfold named_field. destruct (set_bool f); [|by apply colon_safe]. apply peek_safe. intros t'. destruct (decide _); [|by intros ????]. by apply next_tok_safe.
  - intros l v Hl Hc. assert (Hb : bool_handler fields t (l, v) ≠ Panic).
    { revert l v Hl Hc. change (safe (bool_handler fields t)). unfold bool_handler. destruct (bool_fields fields) as [|f fs]; [done|]. destruct (decide _); [|done].
      apply next_tok_safe. intros t' l v _ _. unfold unwrap_ident. destruct t' as [[] r]; try done. cbn -[find_field]. destruct (find_field _ _) as [f'|]; [|done]. by destruct (set_bool f'). }
    unfold mbind'. destruct (bool_handler fields t (l, v)) as [[[] s]|[]|]; cbn; by rewrite ?E.
  - by destruct t as [[] r].
Qed.
Lemma in_braces_safe h L : sound h L → safe h → safe (in_braces h).
Proof. intros Hs Hh. apply (bind_safe _ _ (one OpenBrace)); [by apply expect_sound|apply expect_safe|]. by eapply parse_block_safe. Qed.
End safety.

Lemma on_field_safe {T F} get set (m : P F unit) : safe m → safe (on_field (T := T) get set m).
Proof. intros Hm l v Hl Hc. unfold on_field. specialize (Hm l (get v) Hl Hc). by destruct (m _) as [[? []]|[? []]|]. Qed.
Lemma parse_bool_safe : safe parse_bool.
Proof. apply next_tok_safe. intros [[] r] l v _ _; try done. cbn. by destruct (decide _); [|destruct (decide _)]. Qed.

(** ** The structures of the kernel *)

(** What a parser does with the texts that [X] describes, and with all others. *)
Record reads {T X} (m : P T unit) (tok : X → tokens) (eff : T → X → T) (F : CmdlineTokenData → Prop) : Prop := {
  reads_sound : sound m (λ ts v v', ∃ x, ts = tok x ∧ v' = eff v x);
  reads_complete : complete m (λ ts v v', ∃ x, ts = tok x ∧ v' = eff v x) F;
  reads_safe : safe m }.

Lemma sound_mono {T} (m : P T unit) L L' : (∀ ts v v', L ts v v' → L' ts v v') → sound m L → sound m L'.
Proof. intros HL Hm l v l' v' Hl E. destruct (Hm l v l' v' Hl E) as (Hl' & ts & Hp & H). split; [done|]. exists ts. auto. Qed.
Lemma complete_mono {T} (m : P T unit) L L' (F F' : CmdlineTokenData → Prop) : (∀ ts v v', L' ts v v' → L ts v v') → (∀ t, F' t → F t) → complete m L F → complete m L' F'.
Proof. intros HL HF Hm l v ts v' p Hl Hp H Hr Hf. apply (Hm l v ts v' p); auto. Qed.

Lemma reads_of {T X} (m : P T unit) L (tok : X → tokens) eff (F : CmdlineTokenData → Prop) : sound m L → complete m L F → safe m → describes L tok eff → reads m tok eff F.
Proof.
  intros Hs Hc Hf HL. split; [|..|done].
  - apply (sound_mono m L); [|done]. intros ts v v'. apply HL.
  - apply (complete_mono m L _ F F); [|done..]. intros ts v v'. apply HL.
Qed.

(** The language of a structure from those of its fields. *)
Lemma struct_reads {T X} (fields : list (field T)) Lf (tok : X → tokens) eff :
  (∀ f, f ∈ fields → sound (named_field f) (Lf f) ∧ complete (named_field f) (Lf f) (λ t, t ≠ Colon) ∧ safe (parse_field f)) →
  describes (field_language fields Lf) tok eff →
  reads (handle_named_struct fields) (λ l, struct_tokens (tok <$> l)) (foldl eff) (λ _, True).
Proof.
  intros Hf HL. assert (Hs : sound (struct_handler fields) (field_language fields Lf)) by (apply struct_handler_sound; intros f Hin; apply Hf, Hin).
  apply (reads_of _ (braces (field_language fields Lf))).
  - by apply in_braces_sound.
  - apply in_braces_complete; [|apply field_language_starts]. apply struct_handler_complete. intros f Hin. apply Hf, Hin.
  - eapply in_braces_safe; [exact Hs|]. apply struct_handler_safe. intros f Hin. apply Hf, Hin.
  - by apply braces_describes.
Qed.

(** A structure with the one field [enable]. *)
Lemma enable_reads {T} (get : T → bool) (set : bool → T → T) :
  (reads (handle_named_struct [mkField "enable" (Some set) (on_field get set parse_bool)]) (λ l, struct_tokens (setting_tokens <$> l)) (foldl (λ v s, set (setting_value s) v)) (λ _, True)).
Proof.
  apply (struct_reads _ (λ _, bool_language set (field_of get set bool_value))).
  - intros f [->|Hf]%elem_of_cons; [|by apply not_elem_of_nil in Hf]. split; [|split].
    + apply named_bool_sound; [done|]. apply on_field_sound, parse_bool_sound.
    + eapply complete_mono; [intros ts v v' H; exact H| |apply (named_bool_complete _ set _ (λ _, True)); [done|apply on_field_complete, parse_bool_complete]]. done.
    + apply on_field_safe, parse_bool_safe.
  - intros ts v v'. unfold field_language, find_field. split.
    + intros (id & f & ts' & Ef & -> & HL). cbn in Ef. destruct (decide _) as [<-|]; [|done].
      destruct HL as [[-> ->]|(ts1 & -> & b & Hb & ->)]; [by exists Alone|]. destruct Hb as [[-> ->]|[[-> ->]|(n & -> & ->)]]; [by exists (Word true)|by exists (Word false)|by exists (Num n)].
    + intros (s & -> & ->). eexists "enable"%string, _, _. split; [done|]. split; [done|]. destruct s as [|b|n]; [by left|right..].
      * eexists. split; [done|]. exists b. split; [|done]. destruct b; [by left|by right; left].
      * eexists. split; [done|]. eexists. split; [|done]. right. right. by exists n.
Qed.

(** A field whose value is a structure. *)
Definition struct_field_language {T F X} (get : T → F) (set : F → T → T) (tok : X → tokens) (eff : F → X → F) : tokens → T → T → Prop :=
  colon_language (field_of get set (λ ts v v', ∃ x, ts = tok x ∧ v' = eff v x)).
Lemma struct_field_reads {T F X} (get : T → F) (set : F → T → T) m (tok : X → tokens) (eff : F → X → F) (G : CmdlineTokenData → Prop) : reads m tok eff (λ _, True) →
  sound (let! _ := expect Colon in on_field get set m) (struct_field_language get set tok eff) ∧
  complete (let! _ := expect Colon in on_field get set m) (struct_field_language get set tok eff) G ∧ safe (on_field get set m).
Proof.
  intros [Hs Hc Hf]. split; [|split].
  - apply colon_sound, on_field_sound, Hs.
  - apply colon_complete, on_field_complete. by eapply complete_mono; [intros ts v v' H; exact H|intros t _; exact I|].
  - apply on_field_safe, Hf.
Qed.
Lemma struct_field_describes {T F X} (get : T → F) (set : F → T → T) (tok : X → tokens) (eff : F → X → F) ts v v' :
  struct_field_language get set tok eff ts v v' ↔ ∃ x, ts = Colon :: tok x ∧ v' = set (eff (get v) x) v.
Proof.
  split.
  - intros (ts' & -> & f & (x & -> & ->) & ->). by exists x.
  - intros (x & -> & ->). eexists. split; [done|]. eexists. split; [|done]. by exists x.
Qed.

Lemma foldl_serial l o : foldl (λ _ s, mkSerial (setting_value s)) o l = mkSerial (apply_settings l (serial_enable o)).
Proof. unfold apply_settings. revert o. induction l as [|s l IH]; intros []; [done|]. cbn. by rewrite IH. Qed.
Lemma foldl_fb l o : foldl (λ _ s, mkFbOptions (setting_value s)) o l = mkFbOptions (apply_settings l (fb_enable o)).
Proof. unfold apply_settings. revert o. induction l as [|s l IH]; intros []; [done|]. cbn. by rewrite IH. Qed.

Definition log_language (f : field LogOptions) : tokens → LogOptions → LogOptions → Prop :=
  if decide (field_name f = "serial"%string)
  then struct_field_language serial (λ s o, mkLog s (fb o)) (λ l, struct_tokens (setting_tokens <$> l)) (foldl (λ _ s, mkSerial (setting_value s)))
  else struct_field_language fb (λ f o, mkLog (serial o) f) (λ l, struct_tokens (setting_tokens <$> l)) (foldl (λ _ s, mkFbOptions (setting_value s))).

Lemma LogOptions_reads : reads parse_LogOptions (λ l, struct_tokens (entry_tokens <$> l)) (foldl apply_entry) (λ _, True).
Proof.
  apply (struct_reads _ log_language).
  - intros f [->|[->|Hf]%elem_of_cons]%elem_of_cons; [..|by apply not_elem_of_nil in Hf].
    + apply struct_field_reads, (enable_reads serial_enable (λ b _, mkSerial b)).
    + apply struct_field_reads, (enable_reads fb_enable (λ b _, mkFbOptions b)).
  - intros ts v v'. unfold field_language, find_field. split.
    + intros (id & f & ts' & Ef & -> & HL). cbn in Ef. destruct (decide _) as [<-|]; [|destruct (decide _) as [<-|]; [|done]]; cbn in Ef; injection Ef as <-;
        unfold log_language in HL; cbn in HL; apply struct_field_describes in HL as (l & -> & ->).
      * exists (SerialEntry l). split; [done|]. cbn. by rewrite foldl_serial.
      * exists (FbEntry l). split; [done|]. cbn. by rewrite foldl_fb.
    + intros ([l|l] & -> & ->); (eexists _, _, _; split; [|split; [done|]]; [done|]); unfold log_language; cbn; apply struct_field_describes; exists l; cbn; by rewrite ?foldl_serial, ?foldl_fb.
Qed.

Lemma kernel_reads : reads kernel_handler logging_tokens logging_effect (λ t, t ≠ Colon).
Proof.
  destruct (struct_field_reads logging (λ o _, mkCmdline o) _ _ _ (λ t, t ≠ Colon) LogOptions_reads) as (Hs & Hc & Hf).
  split; unfold kernel_handler.
  - intros l v l' v' Hl. unfold mbind' at 1. destruct (next_tok (l, v)) as [[t [l1 v1]]|[]|] eqn:E; [|done..]. destruct (next_tok_sound _ _ _ _ _ Hl E) as (-> & Hl1 & Hp).
    destruct t as [[] r]; try done. cbn [unwrap_ident fst]. change (mlift (Ok s)) with (mret (S := CmdlineLexer * KernelCmdline) (E := CmdlineParseError) s). cbn [mbind' mret].
    intros Em. destruct (decide (s = "logging"%string)) as [->|]; [|done]. destruct Hp as [[? _]|[_ Hp]]; [done|].
    destruct (Hs l1 v l' v' Hl1 Em) as (Hl' & ts & Hp' & HL). apply struct_field_describes in HL as (es & -> & ->).
    split; [done|]. eexists (_ :: _). split; [by rewrite Hp, Hp'|]. by exists es.
  - intros l v ts v' p Hl Hp (es & -> & ->) Hr HF. destruct (next_tok_complete l v _ _ Hl Hp I) as (r & l1 & E & Hl1 & Hp1). rewrite (mbind_ok _ _ _ _ _ E). cbn.
    apply (Hc l1 v (Colon :: struct_tokens (entry_tokens <$> es)) _ p Hl1 Hp1); [|done..]. apply struct_field_describes. by exists es.
  - apply next_tok_safe. intros [[] r] l v Hl Hk; try done. cbn. destruct (decide _); [|done]. by apply (colon_safe _ Hf l v).
Qed.

(** ** The documented commands *)

(** A flag as docs/CMDLINE.md has it: one of the settings above, or cleared. *)
Inductive flag : Type := Plain (s : setting) | Cleared.
#[export] Instance setting_dec : EqDecision setting.
Proof. solve_decision. Defined.
#[export] Instance flag_dec : EqDecision flag.
Proof. solve_decision. Defined.
Definition flag_tokens (f : flag) : tokens :=
  match f with Plain s => setting_tokens s | Cleared => [Not; Identifier "enable"] end.
Definition flag_value (f : flag) : bool := match f with Plain s => setting_value s | Cleared => false end.

Inductive doc_entry : Type := DocSerial (l : list flag) | DocFb (l : list flag).
Definition entry_flags (e : doc_entry) : list flag := match e with DocSerial l => l | DocFb l => l end.
Definition doc_entry_tokens (e : doc_entry) : tokens :=
  Identifier (match e with DocSerial _ => "serial" | DocFb _ => "fb" end) :: Colon :: struct_tokens (flag_tokens <$> entry_flags e).
Definition doc_logging_tokens (es : list doc_entry) : tokens := Identifier "logging" :: Colon :: struct_tokens (doc_entry_tokens <$> es).
Definition doc_tokens (c : list (list doc_entry)) : tokens := join (doc_logging_tokens <$> c).
Definition doc_flags (c : list (list doc_entry)) : list flag := concat c ≫= entry_flags.

(** The effect of an entry: the last flag counts, without flags nothing changes. *)
Definition last_value (l : list flag) (b : bool) : bool := default b (flag_value <$> last l).
Definition doc_entry_effect (o : LogOptions) (e : doc_entry) : LogOptions :=
  match e with
  | DocSerial l => mkLog (mkSerial (last_value l (serial_enable (serial o)))) (fb o)
  | DocFb l => mkLog (serial o) (mkFbOptions (last_value l (fb_enable (fb o))))
  end.
Definition doc_effect (c : list (list doc_entry)) (o : KernelCmdline) : KernelCmdline :=
  mkCmdline (foldl doc_entry_effect (logging o) (concat c)).

(** The commands of the parser as documented ones. *)
Definition doc_of (e : entry) : doc_entry :=
  match e with SerialEntry l => DocSerial (Plain <$> l) | FbEntry l => DocFb (Plain <$> l) end.
Definition doc_command (c : list (list entry)) : list (list doc_entry) := fmap (M := list) (λ es : list entry, doc_of <$> es) c.

Lemma elem_of_join_intro t x l : t ∈ x → x ∈ l → t ∈ join l.
Proof.
  intros Ht. induction l as [|y l IH]; [by intros []%not_elem_of_nil|]. destruct l as [|z l]; [by intros ->%list_elem_of_singleton|].
  rewrite join_cons by done. intros [->|Hx]%elem_of_cons; apply elem_of_app; [by left|]. right. right. by apply IH.
Qed.
Lemma elem_of_join_inv t l : t ∈ join l → t = Comma ∨ ∃ x, t ∈ x ∧ x ∈ l.
Proof.
  induction l as [|y l IH]; [by intros []%not_elem_of_nil|]. destruct l as [|z l]; [intros ?; right; exists y; split; [done|left]|].
  rewrite join_cons by done. intros [?|[->|Ht]%elem_of_cons]%elem_of_app; [right; exists y; split; [done|left]|by left|].
  destruct (IH Ht) as [->|(x & ? & ?)]; [by left|]. right. exists x. split; [done|by right].
Qed.
Lemma elem_of_struct_inv t l : t ∈ struct_tokens l → t ∈ [OpenBrace; ClosedBrace; Comma] ∨ ∃ x, t ∈ x ∧ x ∈ l.
Proof.
  unfold struct_tokens. rewrite elem_of_cons, elem_of_app, list_elem_of_singleton. intros [->|[[->|?]%elem_of_join_inv| ->]]; [left|left|by right|left]; set_solver.
Qed.

Lemma doc_of_tokens c : doc_tokens (doc_command c) = command_tokens c.
Proof.
  unfold doc_tokens, command_tokens, doc_command. rewrite <-list_fmap_compose. f_equal. apply list_fmap_ext. intros _ es _. cbn. unfold doc_logging_tokens, logging_tokens.
  do 3 f_equal. rewrite <-list_fmap_compose. apply list_fmap_ext. intros _ [l|l] _; unfold doc_entry_tokens; cbn; by rewrite <-list_fmap_compose.
Qed.
Lemma last_value_plain l b : last_value (Plain <$> l) b = apply_settings l b.
Proof.
  unfold last_value, apply_settings. destruct l as [|s l _] using rev_ind; [done|]. rewrite foldl_app, fmap_app. cbn. by rewrite last_snoc.
Qed.
Lemma doc_of_effect c o : doc_effect (doc_command c) o = apply_command c o.
Proof.
  unfold doc_effect, apply_command. revert o. induction c as [|es c IH]; intros [o]; [done|]. cbn. rewrite foldl_app, <-IH. f_equal. f_equal. cbn.
  clear. revert o. induction es as [|e es IH]; intros o; [done|]. cbn. rewrite IH. f_equal. destruct e as [l|l]; cbn; by rewrite last_value_plain.
Qed.

(** A documented command is one of the parser, or it clears a flag. *)
Lemma flags_plain (l : list flag) : Cleared ∉ l → ∃ l' : list setting, l = Plain <$> l'.
Proof.
  induction l as [|[s|] l IH]; [by exists []| |intros Hn; destruct Hn; left]. intros [_ Hn]%not_elem_of_cons.
  destruct (IH Hn) as [l' ->]. by exists (s :: l').
Qed.
Lemma entries_plain (es : list doc_entry) : Cleared ∉ es ≫= entry_flags → ∃ es' : list entry, es = doc_of <$> es'.
Proof.
  induction es as [|e es IH]; [by exists []|]. rewrite bind_cons, not_elem_of_app. intros [He Hn]. destruct (IH Hn) as [es' ->].
  destruct e as [l|l]; cbn in He; apply flags_plain in He as [l' ->]; [by exists (SerialEntry l' :: es')|by exists (FbEntry l' :: es')].
Qed.
Lemma command_plain c : Cleared ∉ doc_flags c → ∃ c', c = doc_command c'.
Proof.
  unfold doc_flags. induction c as [|es c IH]; [by exists []|]. cbn [concat]. rewrite bind_app, not_elem_of_app. intros [He Hn].
  destruct (IH Hn) as [c' ->], (entries_plain es He) as [es' ->]. by exists (es' :: c').
Qed.
Lemma cleared_not c : Cleared ∈ doc_flags c → Not ∈ doc_tokens c.
Proof.
  unfold doc_flags. rewrite list_elem_of_bind. intros (e & Hf & (es & Hes%list_elem_of_In & He%list_elem_of_In)%list_elem_of_In%in_concat).
  apply (elem_of_join_intro _ (doc_logging_tokens es)); [|by apply list_elem_of_fmap_2]. right. right. right. apply elem_of_app. left.
  apply (elem_of_join_intro _ (doc_entry_tokens e)); [|by apply list_elem_of_fmap_2]. right. right. right. apply elem_of_app. left.
  apply (elem_of_join_intro _ (flag_tokens Cleared)); [left|]. by apply list_elem_of_fmap_2.
Qed.
Lemma command_no_not c : Not ∉ command_tokens c.
Proof.
  intros [?|(x & Hx & (es & -> & _)%list_elem_of_fmap)]%elem_of_join_inv; [done|]. unfold logging_tokens in Hx.
  rewrite !elem_of_cons in Hx. destruct Hx as [?|[?|[?|(y & Hy & (e & -> & _)%list_elem_of_fmap)]%elem_of_struct_inv]]; [done|done|set_solver|].
  destruct e as [l|l]; cbn in Hy; rewrite !elem_of_cons in Hy; (destruct Hy as [?|[?|[?|(z & Hz & (f & -> & _)%list_elem_of_fmap)]%elem_of_struct_inv]]; [done|done|set_solver|]);
    destruct f; cbn in Hz; set_solver.
Qed.

(** ** The command line *)

(** The lexer has no pattern for the end, which it therefore never returns. *)
Class LogosSpec `{Logos} : Prop := logos_no_end : ∀ s, Ok Eof ∉ (logos_items s).*1.

Section correctness.
Context `{LogosSpec}.

(** The lexer at the start of a text: its first part is a token, or the parser is not called. *)
Lemma lexer_start data : match CmdlineLexer_new data with
  | Ok l => lex_ok l ∧ pending l = (logos_items data).*1
  | Err _ => ∃ r p, (logos_items data).*1 = Err r :: p
  | Panic => Panic ∈ (logos_items data).*1
  end.
Proof.
  pose proof (logos_no_end data) as He. unfold CmdlineLexer_new, lex. destruct (logos_items data) as [|[[t|r|] s] items] eqn:E; cbn.
  - split; [|done]. split; [apply not_elem_of_nil|done].
  - cbn in He. apply not_elem_of_cons in He as [Ht He]. assert (t ≠ Eof) by congruence. split; [by split|]. unfold pending. cbn. by rewrite decide_False.
  - by eexists _, _.
  - left.
Qed.

Lemma command_describes : describes (block (λ ts v v', ∃ x, ts = logging_tokens x ∧ v' = logging_effect v x)) command_tokens (λ o c, apply_command c o).
Proof. by apply block_describes. Qed.

(** The parser of the whole command line, on every text without a number that does
    not fit: the command it is, or an error. *)
Lemma parse_correct data v : Panic ∉ (logos_items data).*1 →
  (∃ c, (logos_items data).*1 = Ok <$> command_tokens c ∧ CmdlineLexer_parse parse_KernelCmdline data v = Ok (inl tt, apply_command c v)) ∨
  ((∀ c, (logos_items data).*1 ≠ Ok <$> command_tokens c) ∧ ∃ e v', CmdlineLexer_parse parse_KernelCmdline data v = Ok (inr e, v')).
Proof.
  intros Hp. pose proof (lexer_start data) as Hs. unfold CmdlineLexer_parse. destruct (CmdlineLexer_new data) as [l|e|] eqn:E.
  - destruct Hs as [Hl Ep]. destruct kernel_reads as [Hks Hkc Hkf]. pose proof (parse_block_safe Eof _ _ Hks Hkf l v Hl) as Hsafe. unfold calm in Hsafe. rewrite Ep in Hsafe. specialize (Hsafe Hp).
    unfold parse_KernelCmdline. destruct (parse_block Eof Comma kernel_handler (l, v)) as [[[] [l' v']]|[e [l' v']]|] eqn:Eb; [| |done].
    + left. destruct (parse_all_sound _ _ _ _ _ _ Hks Hl Eb) as (ts & Ets & Hb). apply command_describes in Hb as (c & -> & ->). exists c. by rewrite <-Ep.
    + right. split; [|by eexists _, _]. intros c Hc. rewrite <-Ep in Hc.
      destruct (parse_all_complete kernel_handler _ l v (command_tokens c) (apply_command c v) Hkc) as [l2 E2]; [..|congruence].
      * intros ts w w' (es & -> & _). by eexists _, _.
      * done.
      * exact Hc.
      * apply command_describes. by exists c.
  - destruct Hs as (r & p & Ep). right. split; [|by eexists _, _]. intros c Hc. rewrite Ep in Hc. by destruct (command_tokens c).
  - done.
Qed.

(** What is known after the start for a text. *)
Definition outcome (data : string) (s : state) : Prop :=
  get_cmdline_text s = Some data ∧
  ((∃ c, (logos_items data).*1 = (Ok <$> doc_tokens c) ∧ Cleared ∉ doc_flags c ∧
      get_cmdline s = doc_effect c DEFAULT_OPTIONS ∧ get_cmdline_error s = None) ∨
   ((∀ c, (logos_items data).*1 = (Ok <$> doc_tokens c) → Cleared ∈ doc_flags c) ∧
      get_cmdline s = DEFAULT_OPTIONS ∧ ∃ e, get_cmdline_error s = Some (ParseError e))).

(** C20: at the start of the kernel the command line has the effect that
    docs/CMDLINE.md gives it, with one exception.  If the text has no number beyond
    [i64] (such a number can stop the kernel, see [large_number_panics]), parsing ends
    and keeps the text.  Either the text is a documented command (logging settings, in
    order, the later ones over the earlier) in which no flag is cleared with [!]; then
    the options are the default ones with just these settings and there is no error.
    Or it is no documented command, or one that clears a flag with [!], which the
    documentation allows and the code rejects; then all options are the default ones,
    whatever was set before the mistake, and the error is kept.  With no answer or
    bytes that are not UTF-8 the options are the default ones and the error says so. *)
Theorem cmdline_correct response : (∀ bytes data, response = Some bytes → to_str bytes = Some data → Panic ∉ (logos_items data).*1) →
  ∃ s, parse_kernel_cmdline response state_new = Ok s ∧
  match response ≫= to_str with
  | Some data => outcome data s
  | None => s = mkState None DEFAULT_OPTIONS (Some (match response with Some _ => Utf8Error | None => NoResponse end))
  end.
Proof.
  intros Hp. unfold parse_kernel_cmdline. destruct response as [bytes|]; [|by eexists]. cbn [mbind option_bind]. destruct (to_str bytes) as [data|] eqn:Et; [|by eexists].
  destruct (parse_correct data (CMDLINE_STATE state_new) (Hp bytes data eq_refl Et)) as [(c & Hc & ->)|(Hn & e & v' & ->)]; cbn.
  - eexists. split; [done|]. split; [done|]. left. exists (doc_command c). rewrite doc_of_tokens, doc_of_effect. split_and!; [done| |done|done].
    intros Hcl%cleared_not. rewrite doc_of_tokens in Hcl. by apply command_no_not in Hcl.
  - eexists. split; [done|]. split; [done|]. right. split; [|split; [done|by exists e]]. intros c Hc.
    destruct (decide (Cleared ∈ doc_flags c)) as [|Hcl]; [done|]. destruct (command_plain c Hcl) as [c' ->]. destruct (Hn c'). by rewrite <-doc_of_tokens.
Qed.
End correctness.

(** ** Numbers *)

Lemma to_digit_nonneg c d : to_digit c = Some d → 0 ≤ d.
Proof. unfold to_digit. repeat case_match; intros [= <-]; lia. Qed.
Lemma digits_value_nonneg radix acc l v : 0 ≤ radix → 0 ≤ acc → digits_value radix acc l = Some v → 0 ≤ v.
Proof.
  intros Hr. revert acc. induction l as [|c l IH]; cbn; intros acc Ha; [by intros [= <-]|]. destruct (to_digit c) as [d|] eqn:E; [|done]. apply to_digit_nonneg in E.
  destruct (d <? radix); [|done]. apply IH. nia.
Qed.
Lemma from_str_radix_digits l radix v : l ≠ [] → 0 ≤ radix → digits_value radix 0 l = Some v → from_str_radix l radix = if v <=? i64_max then Some v else None.
Proof.
  intros Hl Hr Hv. pose proof (digits_value_nonneg _ 0 _ _ Hr ltac:(lia) Hv) as Hn. unfold from_str_radix. destruct l as [|c l]; [done|].
  assert (Hc : c ≠ "-"%char ∧ c ≠ "+"%char) by (split; intros ->; done). assert (Hm : match c :: l with "-"%char :: l => (true, l) | "+"%char :: l => (false, l) | _ => (false, c :: l) end = (false, c :: l)).
  { destruct Hc as [H1 H2]. by destruct c as [[][][][][][][][]]. }
  rewrite Hm, Hv. unfold i64_min. replace (- 2 ^ 63 <=? v) with true by lia. done.
Qed.

Lemma strip_prefix_hit a p l : strip_prefix (a :: p) (a :: l) = strip_prefix p l.
Proof. cbn. by rewrite decide_True. Qed.
Lemma strip_prefix_miss a p c l : a ≠ c → strip_prefix (a :: p) (c :: l) = None.
Proof. intros Hn. cbn. by rewrite decide_False. Qed.
Lemma strip_prefix_nil l : strip_prefix [] l = Some l.
Proof. by destruct l. Qed.
#[local] Ltac strip := repeat first [rewrite strip_prefix_hit|rewrite strip_prefix_nil|rewrite strip_prefix_miss by (congruence || done)].

(** The forms of a number: the sign, the radix and the digits. *)
Definition sign (neg : bool) : list ascii := if neg then ["-"%char] else [].
Definition signed (neg : bool) (v : Z) : res unit Z := if v <=? i64_max then Ok (if neg then - v else v) else Panic.
Lemma parse_int_radix neg p radix l v : (p, radix) ∈ [(["0"; "x"]%char, 16); (["0"; "o"]%char, 8); (["0"]%char, 8)] → l ≠ [] → digits_value radix 0 l = Some v →
  parse_int (sign neg ++ p ++ l) = signed neg v.
Proof.
  intros Hp Hl Hv. assert (Hr : 0 ≤ radix) by (rewrite !elem_of_cons, elem_of_nil in Hp; destruct Hp as [[= _ ->]|[[= _ ->]|[[= _ ->]|[]]]]; lia). pose proof (from_str_radix_digits l radix v Hl Hr Hv) as Hf.
  assert (Hc : ∃ c l', l = c :: l' ∧ (radix = 8 → c ≠ "x"%char ∧ c ≠ "o"%char)).
  { destruct l as [|c l']; [done|]. exists c, l'. split; [done|]. intros ->. by split; intros ->. }
  destruct Hc as (c & l' & -> & Hc). unfold signed. rewrite !elem_of_cons in Hp. destruct Hp as [[= -> ->]|[[= -> ->]|[[= -> ->]|Hp]]]; [..|by apply not_elem_of_nil in Hp]; unfold parse_int.
  - destruct neg; cbn [sign app]; strip; rewrite Hf; by destruct (v <=? i64_max).
  - destruct neg; cbn [sign app]; strip; rewrite Hf; by destruct (v <=? i64_max).
  - destruct (Hc eq_refl) as [Hx Ho]. destruct neg; cbn [sign app]; strip; rewrite Hf; by destruct (v <=? i64_max).
Qed.
Lemma parse_int_decimal neg c l v : to_digit c ≠ Some 0 → digits_value 10 0 (c :: l) = Some v → parse_int (sign neg ++ c :: l) = signed neg v.
Proof.
  intros Hd Hv. pose proof (from_str_radix_digits (c :: l) 10 v ltac:(done) ltac:(lia) Hv) as Hf. assert (Hc : "-"%char ≠ c ∧ "0"%char ≠ c) by (by split; intros <-).
  destruct Hc as [H1 H2]. unfold parse_int, signed. destruct neg; cbn [sign app]; strip; rewrite Hf; by destruct (v <=? i64_max).
Qed.

(** The least number cannot be written, and a large one makes the kernel panic. *)
Example parse_int_boundary : parse_int (list_ascii_of_string "9223372036854775807") = Ok i64_max ∧ parse_int (list_ascii_of_string "-9223372036854775807") = Ok (i64_min + 1) ∧
  parse_int (list_ascii_of_string "-9223372036854775808") = Panic ∧ parse_int (list_ascii_of_string "0xffffffffffffffff") = Panic.
Proof. by vm_compute. Qed.

(** ** A lexer for ASCII texts *)

(** The patterns of [CmdlineTokenData], each with the longest match. *)
Definition in_range (lo hi : Z) (c : ascii) : bool := let n := Z.of_nat (nat_of_ascii c) in (lo <=? n) && (n <=? hi).
Definition is_space (c : ascii) : bool := in_range 32 32 c || in_range 9 10 c || in_range 12 12 c.
Definition is_ident_start (c : ascii) : bool := in_range 97 122 c || in_range 65 90 c || in_range 95 95 c.
Definition is_digit (radix : Z) (c : ascii) : bool := match to_digit c with Some d => d <? radix | None => false end.
Definition is_ident (c : ascii) : bool := is_ident_start c || is_digit 10 c.

Fixpoint take_while (f : ascii → bool) (l : list ascii) : list ascii :=
  match l with c :: l => if f c then c :: take_while f l else [] | [] => [] end.
Definition punctuation (c : ascii) : option CmdlineTokenData :=
  match c with
  | ","%char => Some Comma
  | ":"%char => Some Colon
  | "{"%char => Some OpenBrace
  | "}"%char => Some ClosedBrace
  | "!"%char => Some Not
  | "|"%char => Some Or
  | "("%char => Some OpenParen
  | ")"%char => Some ClosedParen
  | _ => None
  end.
Definition unsigned_slice (l : list ascii) : list ascii :=
  match l with
  | "0"%char :: "x"%char :: t =>
      match take_while (is_digit 16) t with [] => ["0"%char] | ds => "0"%char :: "x"%char :: ds end
  | "0"%char :: "o"%char :: t =>
      match take_while (is_digit 8) t with [] => ["0"%char] | ds => "0"%char :: "o"%char :: ds end
  | "0"%char :: t => "0"%char :: take_while (is_digit 8) t
  | _ => take_while (is_digit 10) l
  end.
Definition number_slice (l : list ascii) : list ascii :=
  match l with
  | "-"%char :: t => match unsigned_slice t with [] => [] | s => "-"%char :: s end
  | _ => unsigned_slice l
  end.
Definition scan (c : ascii) (l : list ascii) : res unit CmdlineTokenData * nat :=
  match punctuation c with
  | Some t => (Ok t, 1%nat)
  | None =>
      if is_ident_start c then let s := take_while is_ident (c :: l) in (Ok (Identifier (string_of_list_ascii s)), length s)
      else match number_slice (c :: l) with
        | [] => (Err tt, 1%nat)
        | s => (let? n := parse_int s in Ok (Number n), length s)
        end
  end.
Fixpoint scan_all (fuel : nat) (pos : Z) (l : list ascii) : list item :=
  match fuel, l with
  | S fuel, c :: l' =>
      if is_space c then scan_all fuel (pos + 1) l'
      else let '(r, n) := scan c l' in (r, (pos, pos + Z.of_nat n)) :: scan_all fuel (pos + Z.of_nat n) (drop n l)
  | _, _ => []
  end.
#[local] Instance ascii_lexer : Logos :=
  {| logos_items s := scan_all (String.length s) 0 (list_ascii_of_string s); logos_end s := (Z.of_nat (String.length s), Z.of_nat (String.length s)) |}.
#[local] Instance ascii_lexer_spec : LogosSpec.
Proof.
  intros s. cbn. generalize (String.length s) as fuel, 0 as pos, (list_ascii_of_string s) as l. intros fuel. induction fuel as [|fuel IH]; intros pos l; [apply not_elem_of_nil|].
  destruct l as [|c l]; [apply not_elem_of_nil|]. cbn. destruct (is_space c); [apply IH|]. destruct (scan c l) as [r n] eqn:E. cbn. apply not_elem_of_cons. split; [|apply IH].
  unfold scan in E. destruct (punctuation c) as [t|] eqn:Ep; [|destruct (is_ident_start c); [by injection E as <- _|]].
  - injection E as <- _. assert (Ht : t ≠ Eof) by (destruct c as [[][][][][][][][]]; cbn in Ep; congruence). congruence.
  - destruct (number_slice (c :: l)) as [|d ds]; injection E as <- _; [done|]. by destruct (parse_int (d :: ds)).
Qed.

Definition sample : string := "logging: {serial: {enable: 0}, fb: {enable}}, logging: {serial: {}}".
Definition sample_command : list (list doc_entry) := [[DocSerial [Plain (Num 0)]; DocFb [Plain Alone]]; [DocSerial []]].
Definition cleared : string := "logging: {serial: {!enable}}".
Definition cleared_command : list (list doc_entry) := [[DocSerial [Cleared]]].

Lemma tokens_calm (ts : tokens) : (Panic : res unit CmdlineTokenData) ∉ (Ok <$> ts).
Proof. intros (t & ? & _)%list_elem_of_fmap. done. Qed.
Lemma sample_tokens : (logos_items sample).*1 = Ok <$> doc_tokens sample_command.
Proof. by vm_compute. Qed.
Lemma cleared_tokens : (logos_items cleared).*1 = Ok <$> doc_tokens cleared_command.
Proof. by vm_compute. Qed.
Definition text_bytes (s : string) : list Z := (λ c, Z.of_nat (nat_of_ascii c)) <$> list_ascii_of_string s.
Lemma cmdline_correct_witness :
  (∃ s, parse_kernel_cmdline (Some (text_bytes sample)) state_new = Ok s ∧ outcome sample s ∧
     get_cmdline s = doc_effect sample_command DEFAULT_OPTIONS ∧ get_cmdline s = mkCmdline (mkLog (mkSerial false) (mkFbOptions true))) ∧
  (∃ s, parse_kernel_cmdline (Some (text_bytes cleared)) state_new = Ok s ∧ outcome cleared s ∧ get_cmdline s = DEFAULT_OPTIONS).
Proof.
  assert (Es : to_str (text_bytes sample) = Some sample) by (by vm_compute). assert (Ec : to_str (text_bytes cleared) = Some cleared) by (by vm_compute).
  split.
  - destruct (cmdline_correct (Some (text_bytes sample))) as (s & E & Ho).
    + intros bytes data [= <-]. rewrite Es. intros [= <-]. rewrite (sample_tokens : (logos_items sample).*1 = _). apply tokens_calm.
    + cbn [mbind option_bind] in Ho. rewrite Es in Ho. exists s. split; [exact E|]. split; [exact Ho|]. clear Ho. vm_compute in E. by injection E as <-.
  - destruct (cmdline_correct (Some (text_bytes cleared))) as (s & E & Ho).
    + intros bytes data [= <-]. rewrite Ec. intros [= <-]. rewrite (cleared_tokens : (logos_items cleared).*1 = _). apply tokens_calm.
    + cbn [mbind option_bind] in Ho. rewrite Ec in Ho. exists s. split; [exact E|]. split; [exact Ho|]. clear Ho. vm_compute in E. by injection E as <-.
Defined.

(** Negating a flag is an error, though the code for it is there. *)
Example negated_flag_rejected : let text := "logging: {serial: {!enable}}"%string in
  parse_kernel_cmdline (Some (text_bytes text)) state_new = Ok (mkState (Some text) DEFAULT_OPTIONS (Some (ParseError (ExpectedToken Not (Identifier "*"), (19, 20))))).
Proof. by vm_compute. Qed.
(** A number that is too large stops the kernel. *)
Example large_number_panics : parse_kernel_cmdline (Some (text_bytes "logging: {serial: {enable: 9223372036854775808}}")) state_new = Panic.
Proof. by vm_compute. Qed.

(** The parser of bit flags never succeeds. *)
Lemma bind_never {S E A B} (m : M S E A) (k : A → M S E B) s r : (∀ a s, k a s ≠ Ok r) → mbind' m k s ≠ Ok r.
Proof. intros Hk. unfold mbind'. destruct (m s) as [[a s']|[]|]; [apply Hk|done..]. Qed.
Lemma parse_flags_never_ok flags s r : parse_flags flags s ≠ Ok r.
Proof.
  unfold parse_flags. generalize (S (S (length (lexer s.1)))) as fuel. intros fuel. revert s. induction fuel as [|fuel IH]; intros s; [done|]. cbn [flags_loop].
  do 4 (apply bind_never; intros ? ?). destruct (list_find _ flags) as [[i [n v]]|]; [|done]. do 2 (apply bind_never; intros ? ?). apply IH.
Qed.

(** Its turns take tokens, so it ends, with an error. *)
Lemma flags_loop_safe fuel flags l v : lex_ok l → calm l → (length (pending l) < fuel)%nat → flags_loop fuel flags (l, v) ≠ Panic.
Proof.
  revert l v. induction fuel as [|fuel IH]; intros l v Hl Hc Hf; [lia|]. cbn [flags_loop]. destruct (peek_first l v) as [Ep _]. rewrite (mbind_ok _ _ _ _ _ Ep).
  assert (Hk : ∀ (neg : bool) l1 v1, lex_ok l1 → calm l1 → (length (pending l1) ≤ length (pending l))%nat →
    (let! id_tok := next_tok in let! id := mlift (unwrap_ident id_tok) in
     match list_find (λ f, eq_ignore_ascii_case f.1 id = true) flags with
     | None => mfail (make_error id_tok (UnknownFlag []))
     | Some (_, (_, w)) => let! old := get_value in let! _ := set_value (if neg then Z.ldiff old w else Z.lor old w) in flags_loop fuel flags
     end) (l1, v1) ≠ Panic).
  { intros neg l1 v1 Hl1 Hc1 Hlen. unfold mbind' at 1. destruct (next_tok (l1, v1)) as [[t [l2 v2]]|[]|] eqn:E; [|done|by destruct (next_tok_panics l1 v1 Hl1 Hc1)].
    destruct (next_tok_sound _ _ _ _ _ Hl1 E) as (-> & Hl2 & Hp). destruct t as [[] r]; try done. destruct Hp as [[? _]|[_ Hp]]; [done|].
    cbn -[list_find]. destruct (list_find _ flags) as [[i [n w]]|]; [|done]. cbn. apply IH; [done|by apply (calm_next l1 l2 [Ok (Identifier s)] Hp)|]. rewrite Hp in Hlen. cbn in Hlen. lia. }
  destruct (bool_decide _); [|by apply (Hk false)]. unfold mbind' at 1 2. destruct (next_tok (l, v)) as [[t [l1 v1]]|[]|] eqn:E; [|done|by destruct (next_tok_panics l v Hl Hc)].
  destruct (next_tok_sound _ _ _ _ _ Hl E) as (-> & Hl1 & Hp). apply (Hk true); [done|..]; destruct Hp as [(_ & Hp & Hp1)|[_ Hp]].
  - unfold calm. rewrite Hp1. apply not_elem_of_nil.
  - by apply (calm_next l l1 [Ok t.1] Hp).
  - rewrite Hp1. cbn. lia.
  - rewrite Hp. cbn. lia.
Qed.
Lemma parse_flags_fails flags l v : lex_ok l → calm l → ∃ e, parse_flags flags (l, v) = Err e.
Proof.
  intros Hl Hc. pose proof (flags_loop_safe _ flags l v Hl Hc (pending_length l)) as Hs. pose proof (parse_flags_never_ok flags (l, v)) as Hn. unfold parse_flags in *.
  cbn [fst] in *. destruct (flags_loop _ flags (l, v)) as [r|e|]; [by destruct (Hn r)|by exists e|done].
Qed.

(** The negated flag of any structure whose fields are known: never accepted. *)
Lemma negation_never_accepted {T} (fields : list (field T)) l v l1 v1 t s : next_tok (l, v) = Ok (t, (l1, v1)) → t.1 = Not → struct_handler fields (l, v) ≠ Ok s.
Proof.
  intros E Ht. unfold struct_handler. rewrite (mbind_ok _ _ _ _ _ E). unfold mbind' at 1. destruct (bool_handler fields t (l1, v1)) as [[[] s1]|[]|]; [|done..].
  destruct t as [t r]. cbn in Ht. subst t. by cbn.
Qed.

(** ** Structures without names and enumerations *)

(** The values of the fields in order, up to the closing parenthesis or the last
    field; behind the last one a comma stands for the parenthesis. *)
Inductive unnamed_language {T} : list (tokens → T → T → Prop) → tokens → T → T → Prop :=
| unnamed_end v : unnamed_language [] [] v v
| unnamed_close L Ls ts v v' : L ts v v' ∨ ts = [Identifier "_"] ∧ v' = v → unnamed_language (L :: Ls) (ts ++ [ClosedParen]) v v'
| unnamed_next L Ls ts ts' v v1 v' : L ts v v1 ∨ ts = [Identifier "_"] ∧ v1 = v → unnamed_language Ls ts' v1 v' → unnamed_language (L :: Ls) (ts ++ Comma :: ts') v v'.

Lemma skip_or_parse_sound {T} (m : P T unit) L : sound m L →
  sound (let! t := peek in if decide (t.1 = Identifier "_") then let! _ := next_tok in mret tt else m) (λ ts v v', L ts v v' ∨ ts = [Identifier "_"] ∧ v' = v).
Proof.
  intros Hm l v l1 v1 Hl. destruct (peek_first l v) as [Ep Ef]. rewrite (mbind_ok _ _ _ _ _ Ep). destruct (decide _) as [Hd|_].
  - unfold mbind'. destruct (next_tok (l, v)) as [[t [l2 v2]]|[]|] eqn:E; [|done..]. intros [= <- <-]. destruct (next_tok_sound _ _ _ _ _ Hl E) as (-> & Hl2 & Hp).
    split; [done|]. exists [Identifier "_"]. split; [|by right]. rewrite Ef in Hd. destruct Hp as [(_ & Hp & _)|[_ Hp]]; rewrite Hp in Hd; [done|]. cbn in Hd. by rewrite Hp, Hd.
  - intros E. destruct (Hm l v l1 v1 Hl E) as (Hl1 & ts & Hp & HL). split; [done|]. exists ts. split; [done|]. by left.
Qed.
Lemma bind_assoc {S E A B C} (m : M S E A) (f : A → M S E B) (k : B → M S E C) s : mbind' m (λ a, mbind' (f a) k) s = mbind' (mbind' m f) k s.
Proof. unfold mbind'. by destruct (m s) as [[a s']|[]|]. Qed.

Lemma unnamed_entries_sound {T} (fields : list (P T unit)) Ls : Forall2 sound fields Ls → sound (unnamed_entries fields) (unnamed_language Ls).
Proof.
  intros HF. induction HF as [|m L fields Ls Hm HF IH]; intros l v l' v' Hl.
  - intros [= <- <-]. split; [done|]. exists []. split; [done|]. apply unnamed_end.
  - cbn [unnamed_entries]. rewrite bind_assoc. unfold mbind' at 1. destruct (mbind' peek _ (l, v)) as [[[] [l1 v1]]|[]|] eqn:E; [|done..].
    destruct (skip_or_parse_sound m L Hm l v l1 v1 Hl E) as (Hl1 & ts & Hp & HL). destruct (peek_first l1 v1) as [Ep Ef]. rewrite (mbind_ok _ _ _ _ _ Ep). destruct (decide _) as [Hc|_].
    + unfold mbind'. destruct (next_tok (l1, v1)) as [[t [l2 v2]]|[]|] eqn:En; [|done..]. destruct (next_tok_sound _ _ _ _ _ Hl1 En) as (-> & Hl2 & Hn). intros Er.
      destruct (IH l2 v1 l' v' Hl2 Er) as (Hl' & ts' & Hp' & HU). split; [done|]. exists (ts ++ Comma :: ts'). split; [|by eapply unnamed_next].
      rewrite Ef in Hc. destruct Hn as [(_ & Hn & _)|(_ & Hn)]; rewrite Hn in Hc; [done|]. cbn in Hc. by rewrite Hp, Hn, Hc, Hp', fmap_app, <-app_assoc.
    + intros Ee. destruct (expect_value _ _ _ _ _ Hl1 Ee) as (-> & Hl' & [[? _]|[_ Hp']]); [done|]. split; [done|].
      exists (ts ++ [ClosedParen]). split; [by rewrite Hp, Hp', fmap_app, <-app_assoc|]. by apply unnamed_close.
Qed.
Lemma handle_unnamed_struct_sound {T} (fields : list (P T unit)) Ls : Forall2 sound fields Ls →
  sound (handle_unnamed_struct fields) (λ ts v v', ts = [OpenParen; ClosedParen] ∧ v' = v ∨ ∃ ts', ts = OpenParen :: ts' ∧ unnamed_language Ls ts' v v').
Proof.
  intros HF l v l' v' Hl E. unfold handle_unnamed_struct in E. unfold mbind' at 1 in E. destruct (expect OpenParen (l, v)) as [[[] [l1 v1]]|[]|] eqn:Ee; [|done..].
  destruct (expect_value _ _ _ _ _ Hl Ee) as (-> & Hl1 & [[? _]|[_ Hp]]); [done|]. destruct (peek_first l1 v) as [Ep Ef]. rewrite (mbind_ok _ _ _ _ _ Ep) in E. destruct (decide _) as [Hc|_].
  - unfold mbind' in E. destruct (next_tok (l1, v)) as [[t [l2 v2]]|[]|] eqn:En; [|done..]. injection E as <- <-. destruct (next_tok_sound _ _ _ _ _ Hl1 En) as (-> & Hl2 & Hn).
    split; [done|]. exists [OpenParen; ClosedParen]. split; [|by left]. rewrite Ef in Hc. destruct Hn as [(_ & Hn & _)|(_ & Hn)]; rewrite Hn in Hc; [done|]. cbn in Hc. by rewrite Hp, Hn, Hc.
  - destruct (unnamed_entries_sound fields Ls HF l1 v l' v' Hl1 E) as (Hl' & ts & Hp' & HU). split; [done|]. exists (OpenParen :: ts). split; [by rewrite Hp, Hp'|]. right. by exists ts.
Qed.

(** The closing parenthesis may be missing. *)
Example unclosed_accepted : CmdlineLexer_parse (handle_unnamed_struct [parse_bool]) "(1," false = Ok (inl tt, true).
Proof. by vm_compute. Qed.

(** Names that no variant has are an error, the others give the variant. *)
Lemma handle_enum_spec {T} (variants : list (string * T)) l v t l1 : next_tok (l, v) = Ok (t, (l1, v)) →
  handle_enum variants (l, v) =
  match t.1 with
  | Identifier id =>
      match list_find (λ v, v.1 = id) variants with
      | Some (_, (_, w)) => Ok (tt, (l1, w))
      | None => Err ((UnknownEnumerator variants.*1, t.2), (l1, v))
      end
  | d => Err ((ExpectedToken d (Identifier "*"), t.2), (l1, v))
  end.
Proof.
  intros E. unfold handle_enum. rewrite (mbind_ok _ _ _ _ _ E). destruct t as [[] r]; try done. cbn -[list_find]. by destruct (list_find _ variants) as [[i [n w]]|].
Qed.
