(* ===== verification/Modules.v ===== *)
(** * Boot modules (src/modules/)

    The files that the boot loader loads beside the kernel: finding one by its
    command line, and the start of those that the kernel itself knows, which are
    the debug symbols. *)

From Stdlib Require Import Ascii String.
From S2P Require Import Prelude.
From S2P Require Import Bytes.
From S2P Require Import Symbols.
From S2P Require Import Cmdline.

(** ** The files *)

(** A file of the boot loader: where it is, its bytes and its command line. *)
Record File : Type := mkFile { file_addr : Z; file_bytes : list Z; file_string : list Z }.

Inductive ModuleCmdline : Type := InternalNull | SymbolsFile.
Definition parse_ModuleCmdline : P ModuleCmdline unit := handle_enum [("internalnull", InternalNull); ("symbols", SymbolsFile)]%string.

Definition loaded_modules (response : option (list File)) : list File := default [] response.
Definition find_by_cmdline (response : option (list File)) (cmdline : list Z) : option File :=
  snd <$> list_find (λ m, file_string m = cmdline) (loaded_modules response).
Definition loaded_module_cmdlines (response : option (list File)) : list (list Z) := file_string <$> loaded_modules response.
Definition module_data (m : File) : list Z := file_bytes m.
Definition module_range (m : File) : Z * Z := (file_addr m, zlen (file_bytes m)).

(** A turn of the loop; the state is the symbol table of the kernel. *)
Definition load_module `{Logos} (m : File) (table : option SymbolTable) : res Empty_set (option SymbolTable) :=
  match to_str (file_string m) with
  | None => Ok table
  | Some cmdline_str =>
      let? (r, cmdline) := CmdlineLexer_parse parse_ModuleCmdline cmdline_str InternalNull in
      match r, cmdline with
      | inr _, _ => Ok table
      | inl _, InternalNull => Ok table
      | inl _, SymbolsFile =>
          match parse (module_data m) with
          | Ok syms => Ok (try_init_table syms table).2
          | Err _ => Ok table
          | Panic => Panic
          end
      end
  end.
Fixpoint load_all `{Logos} (l : list File) (table : option SymbolTable) : res Empty_set (option SymbolTable) :=
  match l with
  | [] => Ok table
  | m :: l =>
      let? table := load_module m table in
      load_all l table
  end.
Definition load_modules_early `{Logos} (response : option (list File)) (table : option SymbolTable) : res Empty_set (option SymbolTable) :=
  load_all (loaded_modules response) table.

(** ** Correctness *)

Lemma find_by_cmdline_some response cmdline m : find_by_cmdline response cmdline = Some m → m ∈ loaded_modules response ∧ file_string m = cmdline.
Proof.
  unfold find_by_cmdline. destruct (list_find _ _) as [[i f]|] eqn:E; [|done]. intros [= ->]. apply list_find_Some in E as (E & Hs & _). split; [|done]. by eapply list_elem_of_lookup_2.
Qed.
Lemma find_by_cmdline_none response cmdline : find_by_cmdline response cmdline = None ↔ cmdline ∉ loaded_module_cmdlines response.
Proof.
  unfold find_by_cmdline, loaded_module_cmdlines. rewrite fmap_None, list_find_None, Forall_forall, list_elem_of_fmap. naive_solver.
Qed.

Section early.
Context `{LogosSpec}.

(** The text asks for symbols: its first token says so, and the part that follows, which
    the lexer has already read, is a token too. *)
Definition asks_symbols (text : string) : bool :=
  match (logos_items text).*1 with
  | Ok t :: rest => bool_decide (t = Identifier "symbols") && match rest with [] | Ok _ :: _ => true | _ => false end
  | _ => false
  end.
(** The symbols that a file gives. *)
Definition symbols_of (m : File) : option SymbolTable :=
  match to_str (file_string m) with
  | Some text => if asks_symbols text then match parse (module_data m) with Ok t => Some t | _ => None end else None
  | None => None
  end.
(** Neither a number in the command line nor a length in the file is too large. *)
Definition no_overflow (m : File) : Prop := (∀ text, to_str (file_string m) = Some text → Panic ∉ (logos_items text).*1) ∧ parse (module_data m) ≠ Panic.

(** The same as a test. *)
Definition panics {E A} (r : res E A) : bool := match r with Panic => true | _ => false end.
Definition fits (m : File) : bool :=
  match to_str (file_string m) with Some text => negb (existsb panics (logos_items text).*1) | None => true end && negb (panics (parse (module_data m))).
Lemma fits_no_overflow m : fits m = true → no_overflow m.
Proof.
  unfold fits, no_overflow. rewrite andb_true_iff, negb_true_iff. intros [Ht Hs]. split; [|by destruct (parse _)]. intros text Et Hin. rewrite Et, negb_true_iff in Ht.
  apply not_true_iff_false in Ht. apply Ht, existsb_exists. exists Panic. by rewrite <-list_elem_of_In.
Qed.

Lemma module_variant id : list_find (λ v, v.1 = id) [("internalnull", InternalNull); ("symbols", SymbolsFile)]%string =
  if decide (id = "internalnull"%string) then Some (0%nat, ("internalnull"%string, InternalNull))
  else if decide (id = "symbols"%string) then Some (1%nat, ("symbols"%string, SymbolsFile)) else None.
Proof. unfold list_find. repeat case_decide; cbn in *; congruence. Qed.
Lemma parse_module_correct text : Panic ∉ (logos_items text).*1 →
  ∃ r c, CmdlineLexer_parse parse_ModuleCmdline text InternalNull = Ok (r, c) ∧ (asks_symbols text = true ↔ r = inl tt ∧ c = SymbolsFile).
Proof.
  intros Hp. unfold asks_symbols, CmdlineLexer_parse, CmdlineLexer_new, lex.
  destruct (logos_items text) as [|[[t|[]|] r] items]; cbn in *; [eexists _, _; split; [done|]; naive_solver|..|eexists _, _; split; [done|]; naive_solver|by destruct Hp; left].
  unfold parse_ModuleCmdline. destruct items as [|[[t'|[]|] r'] items]; cbn [fmap list_fmap fst] in *; [..|by destruct Hp; right; left].
  1,2: erewrite handle_enum_spec by (cbn; reflexivity); cbn [fst snd]; rewrite ?andb_true_r, ?bool_decide_eq_true; destruct t as [| | | | | | | |id| |]; try (eexists _, _; split; [done|]; naive_solver);
    rewrite module_variant; destruct (decide (id = "internalnull"%string)) as [->|]; [|destruct (decide (id = "symbols"%string)) as [->|]]; eexists _, _; (split; [done|]); rewrite bool_decide_eq_true; naive_solver.
  eexists _, _. split; [done|]. rewrite andb_false_r. naive_solver.
Qed.

Lemma load_module_correct m table : no_overflow m → load_module m table = Ok (match table with Some t => Some t | None => symbols_of m end).
Proof.
  intros [Ht Hs]. unfold load_module, symbols_of. destruct (to_str (file_string m)) as [text|]; [|by destruct table].
  destruct (parse_module_correct text (Ht text eq_refl)) as (r & c & -> & Ha). cbn [rbind]. destruct (asks_symbols text).
  - destruct (proj1 Ha eq_refl) as [-> ->]. destruct (parse (module_data m)); [|by destruct table|done]. by destruct table.
  - assert (Hn : ¬ (r = inl tt ∧ c = SymbolsFile)) by (intros Hn; by apply Ha in Hn). destruct r as [[]|]; [|by destruct table]. destruct c; [by destruct table|]. by destruct Hn.
Qed.

(** The kernel takes its debug symbols from the first boot module whose command line
    asks for them and whose file is a symbol table, and from no other; modules with other
    command lines, with errors in them or with bytes that are no text are passed over, and
    a table that is already there stays. *)
Theorem modules_give_symbols response table : Forall no_overflow (loaded_modules response) →
  load_modules_early response table = Ok (match table with Some t => Some t | None => head (omap symbols_of (loaded_modules response)) end).
Proof.
  unfold load_modules_early. intros Hall. revert table. induction Hall as [|m l Hm _ IH]; intros table; [by destruct table|].
  cbn [load_all]. rewrite load_module_correct by done. cbn [rbind]. rewrite IH. cbn [omap list_omap]. destruct table; [done|]. by destruct (symbols_of m).
Qed.
End early.

#[local] Existing Instances ascii_lexer ascii_lexer_spec.

(** A module without symbols, one with a wrong command line, and the one with the symbols. *)
Definition empty_table_file : list Z := replicate 40 0.
Definition sample_modules : list File := [mkFile 0x1000 [1; 2] (text_bytes "ramdisk"); mkFile 0x2000 empty_table_file (text_bytes "symbols @"); mkFile 0x3000 empty_table_file (text_bytes "symbols")].

Example modules_give_symbols_sample : ∃ t, parse empty_table_file = Ok t ∧ load_modules_early (Some sample_modules) None = Ok (Some t).
Proof.
  eexists. split; [by vm_compute|]. etrans; [apply modules_give_symbols|by vm_compute].
  apply Forall_cons_2; [|apply Forall_cons_2; [|apply Forall_cons_2; [|apply Forall_nil_2]]]; apply fits_no_overflow; by vm_compute.
Qed.
