(* ===== verification/FlanTerm.v ===== *)
(** * The terminal (flanterm/flanterm-c/src/flanterm.c)

    The emulator behind the console of the kernel: the state machine that reads
    characters, UTF-8, escape and control sequences and calls a back end through
    the function pointers of its context.  The back end is the class [Backend]
    here; the frame buffer of fb.c is an instance in [FbTerm].

    Unsigned integers wrap as in C.  An access outside of an array is [Panic],
    so that a proof of [Ok] is a proof of memory safety. *)

From Stdlib Require Import Ascii.
From S2P Require Import Prelude Bytes.

Definition chr (a : ascii) : Z := Z.of_N (N_of_ascii a).
Arguments chr a%_char_scope.

(** [size_t], [uint64_t] and [uint32_t]. *)
Abbreviation sz := (wrap 64).
Abbreviation u32 := (wrap 32).
Definition SIZE_MAX : Z := 2 ^ 64 - 1.

(** The result of code that has no error but undefined behaviour. *)
Abbreviation ub A := (res Empty_set A).

Definition FLANTERM_MAX_ESC_VALUES : Z := 16.
Definition CHARSET_DEFAULT : Z := 0.
Definition CHARSET_DEC_SPECIAL : Z := 1.
Definition FLANTERM_OOB_OUTPUT_ONLCR : Z := 16.

(** The calls of the client's callback, with what they pass. *)
Inductive cb_event : Type :=
| FLANTERM_CB_DEC (n : Z) (values : list Z) (c : Z)
| FLANTERM_CB_BELL
| FLANTERM_CB_PRIVATE_ID
| FLANTERM_CB_STATUS_REPORT
| FLANTERM_CB_POS_REPORT (x y : Z)
| FLANTERM_CB_KBD_LEDS (v : Z)
| FLANTERM_CB_MODE (n : Z) (values : list Z) (c : Z)
| FLANTERM_CB_LINUX (n : Z) (values : list Z).

(** [struct flanterm_context] without the pointers to the back end; [events] is
    the trace of the calls of [callback]. *)
Record term : Type := mkTerm {
  tab_size : Z;
  autoflush : bool;
  cursor_enabled : bool;
  scroll_enabled : bool;
  control_sequence : bool;
  escape : bool;
  osc : bool;
  osc_escape : bool;
  rrr : bool;
  discard_next : bool;
  bold : bool;
  bg_bold : bool;
  reverse_video : bool;
  dec_private : bool;
  insert_mode : bool;
  csi_unhandled : bool;
  code_point : Z;
  unicode_remaining : Z;
  g_select : Z;
  charsets : list Z;
  current_charset : Z;
  escape_offset : Z;
  esc_values_i : Z;
  saved_cursor_x : Z;
  saved_cursor_y : Z;
  current_primary : Z;
  current_bg : Z;
  scroll_top_margin : Z;
  scroll_bottom_margin : Z;
  esc_values : list Z;
  oob_output : Z;
  saved_state_bold : bool;
  saved_state_bg_bold : bool;
  saved_state_reverse_video : bool;
  saved_state_current_charset : Z;
  saved_state_current_primary : Z;
  saved_state_current_bg : Z;
  rows : Z;
  cols : Z;
  callback : bool;
  events : list cb_event;
}.

(** Assignments to a field: the context with the field replaced. *)
Definition eta_term (t : term) : term :=
  mkTerm (tab_size t) (autoflush t) (cursor_enabled t) (scroll_enabled t) (control_sequence t) (escape t) (osc t)
    (osc_escape t) (rrr t) (discard_next t) (bold t) (bg_bold t) (reverse_video t) (dec_private t) (insert_mode t)
    (csi_unhandled t) (code_point t) (unicode_remaining t) (g_select t) (charsets t) (current_charset t)
    (escape_offset t) (esc_values_i t) (saved_cursor_x t) (saved_cursor_y t) (current_primary t) (current_bg t)
    (scroll_top_margin t) (scroll_bottom_margin t) (esc_values t) (oob_output t) (saved_state_bold t)
    (saved_state_bg_bold t) (saved_state_reverse_video t) (saved_state_current_charset t)
    (saved_state_current_primary t) (saved_state_current_bg t) (rows t) (cols t) (callback t) (events t).
Ltac replace_field eta proj v t :=
  let e := eval cbv beta delta [eta] in (eta t) in
  let e := eval pattern (proj t) in e in
  match e with ?f _ => let r := eval cbv beta in (f v) in exact r end.
Definition with_tab_size (v : Z) (t : term) : term := ltac:(replace_field eta_term tab_size v t).
Definition with_autoflush (v : bool) (t : term) : term := ltac:(replace_field eta_term autoflush v t).
Definition with_cursor_enabled (v : bool) (t : term) : term := ltac:(replace_field eta_term cursor_enabled v t).
Definition with_scroll_enabled (v : bool) (t : term) : term := ltac:(replace_field eta_term scroll_enabled v t).
Definition with_control_sequence (v : bool) (t : term) : term := ltac:(replace_field eta_term control_sequence v t).
Definition with_escape (v : bool) (t : term) : term := ltac:(replace_field eta_term escape v t).
Definition with_osc (v : bool) (t : term) : term := ltac:(replace_field eta_term osc v t).
Definition with_osc_escape (v : bool) (t : term) : term := ltac:(replace_field eta_term osc_escape v t).
Definition with_rrr (v : bool) (t : term) : term := ltac:(replace_field eta_term rrr v t).
Definition with_discard_next (v : bool) (t : term) : term := ltac:(replace_field eta_term discard_next v t).
Definition with_bold (v : bool) (t : term) : term := ltac:(replace_field eta_term bold v t).
Definition with_bg_bold (v : bool) (t : term) : term := ltac:(replace_field eta_term bg_bold v t).
Definition with_reverse_video (v : bool) (t : term) : term := ltac:(replace_field eta_term reverse_video v t).
Definition with_dec_private (v : bool) (t : term) : term := ltac:(replace_field eta_term dec_private v t).
Definition with_insert_mode (v : bool) (t : term) : term := ltac:(replace_field eta_term insert_mode v t).
Definition with_csi_unhandled (v : bool) (t : term) : term := ltac:(replace_field eta_term csi_unhandled v t).
Definition with_code_point (v : Z) (t : term) : term := ltac:(replace_field eta_term code_point v t).
Definition with_unicode_remaining (v : Z) (t : term) : term := ltac:(replace_field eta_term unicode_remaining v t).
Definition with_g_select (v : Z) (t : term) : term := ltac:(replace_field eta_term g_select v t).
Definition with_charsets (v : list Z) (t : term) : term := ltac:(replace_field eta_term charsets v t).
Definition with_current_charset (v : Z) (t : term) : term := ltac:(replace_field eta_term current_charset v t).
Definition with_escape_offset (v : Z) (t : term) : term := ltac:(replace_field eta_term escape_offset v t).
Definition with_esc_values_i (v : Z) (t : term) : term := ltac:(replace_field eta_term esc_values_i v t).
Definition with_saved_cursor_x (v : Z) (t : term) : term := ltac:(replace_field eta_term saved_cursor_x v t).
Definition with_saved_cursor_y (v : Z) (t : term) : term := ltac:(replace_field eta_term saved_cursor_y v t).
Definition with_current_primary (v : Z) (t : term) : term := ltac:(replace_field eta_term current_primary v t).
Definition with_current_bg (v : Z) (t : term) : term := ltac:(replace_field eta_term current_bg v t).
Definition with_scroll_top_margin (v : Z) (t : term) : term := ltac:(replace_field eta_term scroll_top_margin v t).
Definition with_scroll_bottom_margin (v : Z) (t : term) : term := ltac:(replace_field eta_term scroll_bottom_margin v t).
Definition with_esc_values (v : list Z) (t : term) : term := ltac:(replace_field eta_term esc_values v t).
Definition with_oob_output (v : Z) (t : term) : term := ltac:(replace_field eta_term oob_output v t).
Definition with_saved_state_bold (v : bool) (t : term) : term := ltac:(replace_field eta_term saved_state_bold v t).
Definition with_saved_state_bg_bold (v : bool) (t : term) : term := ltac:(replace_field eta_term saved_state_bg_bold v t).
Definition with_saved_state_reverse_video (v : bool) (t : term) : term := ltac:(replace_field eta_term saved_state_reverse_video v t).
Definition with_saved_state_current_charset (v : Z) (t : term) : term := ltac:(replace_field eta_term saved_state_current_charset v t).
Definition with_saved_state_current_primary (v : Z) (t : term) : term := ltac:(replace_field eta_term saved_state_current_primary v t).
Definition with_saved_state_current_bg (v : Z) (t : term) : term := ltac:(replace_field eta_term saved_state_current_bg v t).
Definition with_callback (v : bool) (t : term) : term := ltac:(replace_field eta_term callback v t).
Definition with_events (v : list cb_event) (t : term) : term := ltac:(replace_field eta_term events v t).

Definition col256 : list Z :=
  [0x000000; 0x00005f; 0x000087; 0x0000af; 0x0000d7; 0x0000ff; 0x005f00; 0x005f5f;
    0x005f87; 0x005faf; 0x005fd7; 0x005fff; 0x008700; 0x00875f; 0x008787; 0x0087af;
    0x0087d7; 0x0087ff; 0x00af00; 0x00af5f; 0x00af87; 0x00afaf; 0x00afd7; 0x00afff;
    0x00d700; 0x00d75f; 0x00d787; 0x00d7af; 0x00d7d7; 0x00d7ff; 0x00ff00; 0x00ff5f;
    0x00ff87; 0x00ffaf; 0x00ffd7; 0x00ffff; 0x5f0000; 0x5f005f; 0x5f0087; 0x5f00af;
    0x5f00d7; 0x5f00ff; 0x5f5f00; 0x5f5f5f; 0x5f5f87; 0x5f5faf; 0x5f5fd7; 0x5f5fff;
    0x5f8700; 0x5f875f; 0x5f8787; 0x5f87af; 0x5f87d7; 0x5f87ff; 0x5faf00; 0x5faf5f;
    0x5faf87; 0x5fafaf; 0x5fafd7; 0x5fafff; 0x5fd700; 0x5fd75f; 0x5fd787; 0x5fd7af;
    0x5fd7d7; 0x5fd7ff; 0x5fff00; 0x5fff5f; 0x5fff87; 0x5fffaf; 0x5fffd7; 0x5fffff;
    0x870000; 0x87005f; 0x870087; 0x8700af; 0x8700d7; 0x8700ff; 0x875f00; 0x875f5f;
    0x875f87; 0x875faf; 0x875fd7; 0x875fff; 0x878700; 0x87875f; 0x878787; 0x8787af;
    0x8787d7; 0x8787ff; 0x87af00; 0x87af5f; 0x87af87; 0x87afaf; 0x87afd7; 0x87afff;
    0x87d700; 0x87d75f; 0x87d787; 0x87d7af; 0x87d7d7; 0x87d7ff; 0x87ff00; 0x87ff5f;
    0x87ff87; 0x87ffaf; 0x87ffd7; 0x87ffff; 0xaf0000; 0xaf005f; 0xaf0087; 0xaf00af;
    0xaf00d7; 0xaf00ff; 0xaf5f00; 0xaf5f5f; 0xaf5f87; 0xaf5faf; 0xaf5fd7; 0xaf5fff;
    0xaf8700; 0xaf875f; 0xaf8787; 0xaf87af; 0xaf87d7; 0xaf87ff; 0xafaf00; 0xafaf5f;
    0xafaf87; 0xafafaf; 0xafafd7; 0xafafff; 0xafd700; 0xafd75f; 0xafd787; 0xafd7af;
    0xafd7d7; 0xafd7ff; 0xafff00; 0xafff5f; 0xafff87; 0xafffaf; 0xafffd7; 0xafffff;
    0xd70000; 0xd7005f; 0xd70087; 0xd700af; 0xd700d7; 0xd700ff; 0xd75f00; 0xd75f5f;
    0xd75f87; 0xd75faf; 0xd75fd7; 0xd75fff; 0xd78700; 0xd7875f; 0xd78787; 0xd787af;
    0xd787d7; 0xd787ff; 0xd7af00; 0xd7af5f; 0xd7af87; 0xd7afaf; 0xd7afd7; 0xd7afff;
    0xd7d700; 0xd7d75f; 0xd7d787; 0xd7d7af; 0xd7d7d7; 0xd7d7ff; 0xd7ff00; 0xd7ff5f;
    0xd7ff87; 0xd7ffaf; 0xd7ffd7; 0xd7ffff; 0xff0000; 0xff005f; 0xff0087; 0xff00af;
    0xff00d7; 0xff00ff; 0xff5f00; 0xff5f5f; 0xff5f87; 0xff5faf; 0xff5fd7; 0xff5fff;
    0xff8700; 0xff875f; 0xff8787; 0xff87af; 0xff87d7; 0xff87ff; 0xffaf00; 0xffaf5f;
    0xffaf87; 0xffafaf; 0xffafd7; 0xffafff; 0xffd700; 0xffd75f; 0xffd787; 0xffd7af;
    0xffd7d7; 0xffd7ff; 0xffff00; 0xffff5f; 0xffff87; 0xffffaf; 0xffffd7; 0xffffff;
    0x080808; 0x121212; 0x1c1c1c; 0x262626; 0x303030; 0x3a3a3a; 0x444444; 0x4e4e4e;
    0x585858; 0x626262; 0x6c6c6c; 0x767676; 0x808080; 0x8a8a8a; 0x949494; 0x9e9e9e;
    0xa8a8a8; 0xb2b2b2; 0xbcbcbc; 0xc6c6c6; 0xd0d0d0; 0xdadada; 0xe4e4e4; 0xeeeeee].
(** ** Characters and their width *)

Definition combining : list (Z * Z) :=
  [(0x0300, 0x036F); (0x0483, 0x0486); (0x0488, 0x0489); (0x0591, 0x05BD); (0x05BF, 0x05BF); (0x05C1, 0x05C2);
    (0x05C4, 0x05C5); (0x05C7, 0x05C7); (0x0600, 0x0603); (0x0610, 0x0615); (0x064B, 0x065E); (0x0670, 0x0670);
    (0x06D6, 0x06E4); (0x06E7, 0x06E8); (0x06EA, 0x06ED); (0x070F, 0x070F); (0x0711, 0x0711); (0x0730, 0x074A);
    (0x07A6, 0x07B0); (0x07EB, 0x07F3); (0x0901, 0x0902); (0x093C, 0x093C); (0x0941, 0x0948); (0x094D, 0x094D);
    (0x0951, 0x0954); (0x0962, 0x0963); (0x0981, 0x0981); (0x09BC, 0x09BC); (0x09C1, 0x09C4); (0x09CD, 0x09CD);
    (0x09E2, 0x09E3); (0x0A01, 0x0A02); (0x0A3C, 0x0A3C); (0x0A41, 0x0A42); (0x0A47, 0x0A48); (0x0A4B, 0x0A4D);
    (0x0A70, 0x0A71); (0x0A81, 0x0A82); (0x0ABC, 0x0ABC); (0x0AC1, 0x0AC5); (0x0AC7, 0x0AC8); (0x0ACD, 0x0ACD);
    (0x0AE2, 0x0AE3); (0x0B01, 0x0B01); (0x0B3C, 0x0B3C); (0x0B3F, 0x0B3F); (0x0B41, 0x0B43); (0x0B4D, 0x0B4D);
    (0x0B56, 0x0B56); (0x0B82, 0x0B82); (0x0BC0, 0x0BC0); (0x0BCD, 0x0BCD); (0x0C3E, 0x0C40); (0x0C46, 0x0C48);
    (0x0C4A, 0x0C4D); (0x0C55, 0x0C56); (0x0CBC, 0x0CBC); (0x0CBF, 0x0CBF); (0x0CC6, 0x0CC6); (0x0CCC, 0x0CCD);
    (0x0CE2, 0x0CE3); (0x0D41, 0x0D43); (0x0D4D, 0x0D4D); (0x0DCA, 0x0DCA); (0x0DD2, 0x0DD4); (0x0DD6, 0x0DD6);
    (0x0E31, 0x0E31); (0x0E34, 0x0E3A); (0x0E47, 0x0E4E); (0x0EB1, 0x0EB1); (0x0EB4, 0x0EB9); (0x0EBB, 0x0EBC);
    (0x0EC8, 0x0ECD); (0x0F18, 0x0F19); (0x0F35, 0x0F35); (0x0F37, 0x0F37); (0x0F39, 0x0F39); (0x0F71, 0x0F7E);
    (0x0F80, 0x0F84); (0x0F86, 0x0F87); (0x0F90, 0x0F97); (0x0F99, 0x0FBC); (0x0FC6, 0x0FC6); (0x102D, 0x1030);
    (0x1032, 0x1032); (0x1036, 0x1037); (0x1039, 0x1039); (0x1058, 0x1059); (0x1160, 0x11FF); (0x135F, 0x135F);
    (0x1712, 0x1714); (0x1732, 0x1734); (0x1752, 0x1753); (0x1772, 0x1773); (0x17B4, 0x17B5); (0x17B7, 0x17BD);
    (0x17C6, 0x17C6); (0x17C9, 0x17D3); (0x17DD, 0x17DD); (0x180B, 0x180D); (0x18A9, 0x18A9); (0x1920, 0x1922);
    (0x1927, 0x1928); (0x1932, 0x1932); (0x1939, 0x193B); (0x1A17, 0x1A18); (0x1B00, 0x1B03); (0x1B34, 0x1B34);
    (0x1B36, 0x1B3A); (0x1B3C, 0x1B3C); (0x1B42, 0x1B42); (0x1B6B, 0x1B73); (0x1DC0, 0x1DCA); (0x1DFE, 0x1DFF);
    (0x200B, 0x200F); (0x202A, 0x202E); (0x2060, 0x2063); (0x206A, 0x206F); (0x20D0, 0x20EF); (0x302A, 0x302F);
    (0x3099, 0x309A); (0xA806, 0xA806); (0xA80B, 0xA80B); (0xA825, 0xA826); (0xFB1E, 0xFB1E); (0xFE00, 0xFE0F);
    (0xFE20, 0xFE23); (0xFEFF, 0xFEFF); (0xFFF9, 0xFFFB); (0x10A01, 0x10A03); (0x10A05, 0x10A06); (0x10A0C, 0x10A0F);
    (0x10A38, 0x10A3A); (0x10A3F, 0x10A3F); (0x1D167, 0x1D169); (0x1D173, 0x1D182); (0x1D185, 0x1D18B); (0x1D1AA, 0x1D1AD);
    (0x1D242, 0x1D244); (0xE0001, 0xE0001); (0xE0020, 0xE007F); (0xE0100, 0xE01EF)].

(** [bisearch]: the table is searched between [min] and [max]; the interval
    shrinks every turn, so one turn more than it has entries is enough.  A
    search that has not ended then gives no result ([Panic]). *)
Fixpoint bisearch_loop (fuel : nat) (ucs : Z) (table : list (Z * Z)) (min max : Z) : ub bool :=
  match fuel with
  | O => Panic
  | S fuel =>
      if min <=? max then
        let mid := (min + max) / 2 in
        let? e := unwrap (zat table mid) in
        if e.2 <? ucs then bisearch_loop fuel ucs table (mid + 1) max
        else if ucs <? e.1 then bisearch_loop fuel ucs table min (mid - 1)
        else Ok true
      else Ok false
  end.
Definition bisearch (ucs : Z) (table : list (Z * Z)) (max : Z) : ub bool :=
  let? first := unwrap (zat table 0) in
  let? last := unwrap (zat table max) in
  if (ucs <? first.1) || (last.2 <? ucs) then Ok false
  else bisearch_loop (S (S (Z.to_nat max))) ucs table 0 max.

Definition wide (ucs : Z) : bool :=
  (0x1100 <=? ucs) &&
  ((ucs <=? 0x115f) || (ucs =? 0x2329) || (ucs =? 0x232a) ||
   ((0x2e80 <=? ucs) && (ucs <=? 0xa4cf) && negb (ucs =? 0x303f)) ||
   ((0xac00 <=? ucs) && (ucs <=? 0xd7a3)) ||
   ((0xf900 <=? ucs) && (ucs <=? 0xfaff)) ||
   ((0xfe10 <=? ucs) && (ucs <=? 0xfe19)) ||
   ((0xfe30 <=? ucs) && (ucs <=? 0xfe6f)) ||
   ((0xff00 <=? ucs) && (ucs <=? 0xff60)) ||
   ((0xffe0 <=? ucs) && (ucs <=? 0xffe6)) ||
   ((0x20000 <=? ucs) && (ucs <=? 0x2fffd)) ||
   ((0x30000 <=? ucs) && (ucs <=? 0x3fffd))).

Definition mk_wcwidth (ucs : Z) : ub Z :=
  if ucs =? 0 then Ok 0
  else if (ucs <? 32) || ((0x7f <=? ucs) && (ucs <? 0xa0)) then Ok 1
  else
    let? b := bisearch ucs combining (zlen combining - 1) in
    if b then Ok 0 else Ok (1 + if wide ucs then 1 else 0).

Definition cp437 : list (Z * Z) :=
  [(0x263a, 1); (0x263b, 2); (0x2665, 3); (0x2666, 4); (0x2663, 5); (0x2660, 6); (0x2022, 7); (0x25d8, 8);
    (0x25cb, 9); (0x25d9, 10); (0x2642, 11); (0x2640, 12); (0x266a, 13); (0x266b, 14); (0x263c, 15); (0x25ba, 16);
    (0x25c4, 17); (0x2195, 18); (0x203c, 19); (0x00b6, 20); (0x00a7, 21); (0x25ac, 22); (0x21a8, 23); (0x2191, 24);
    (0x2193, 25); (0x2192, 26); (0x2190, 27); (0x221f, 28); (0x2194, 29); (0x25b2, 30); (0x25bc, 31); (0x2302, 127);
    (0x00c7, 128); (0x00fc, 129); (0x00e9, 130); (0x00e2, 131); (0x00e4, 132); (0x00e0, 133); (0x00e5, 134); (0x00e7, 135);
    (0x00ea, 136); (0x00eb, 137); (0x00e8, 138); (0x00ef, 139); (0x00ee, 140); (0x00ec, 141); (0x00c4, 142); (0x00c5, 143);
    (0x00c9, 144); (0x00e6, 145); (0x00c6, 146); (0x00f4, 147); (0x00f6, 148); (0x00f2, 149); (0x00fb, 150); (0x00f9, 151);
    (0x00ff, 152); (0x00d6, 153); (0x00dc, 154); (0x00a2, 155); (0x00a3, 156); (0x00a5, 157); (0x20a7, 158); (0x0192, 159);
    (0x00e1, 160); (0x00ed, 161); (0x00f3, 162); (0x00fa, 163); (0x00f1, 164); (0x00d1, 165); (0x00aa, 166); (0x00ba, 167);
    (0x00bf, 168); (0x2310, 169); (0x00ac, 170); (0x00bd, 171); (0x00bc, 172); (0x00a1, 173); (0x00ab, 174); (0x00bb, 175);
    (0x2591, 176); (0x2592, 177); (0x2593, 178); (0x2502, 179); (0x2524, 180); (0x2561, 181); (0x2562, 182); (0x2556, 183);
    (0x2555, 184); (0x2563, 185); (0x2551, 186); (0x2557, 187); (0x255d, 188); (0x255c, 189); (0x255b, 190); (0x2510, 191);
    (0x2514, 192); (0x2534, 193); (0x252c, 194); (0x251c, 195); (0x2500, 196); (0x253c, 197); (0x255e, 198); (0x255f, 199);
    (0x255a, 200); (0x2554, 201); (0x2569, 202); (0x2566, 203); (0x2560, 204); (0x2550, 205); (0x256c, 206); (0x2567, 207);
    (0x2568, 208); (0x2564, 209); (0x2565, 210); (0x2559, 211); (0x2558, 212); (0x2552, 213); (0x2553, 214); (0x256b, 215);
    (0x256a, 216); (0x2518, 217); (0x250c, 218); (0x2588, 219); (0x2584, 220); (0x258c, 221); (0x2590, 222); (0x2580, 223);
    (0x03b1, 224); (0x00df, 225); (0x0393, 226); (0x03c0, 227); (0x03a3, 228); (0x03c3, 229); (0x00b5, 230); (0x03c4, 231);
    (0x03a6, 232); (0x0398, 233); (0x03a9, 234); (0x03b4, 235); (0x221e, 236); (0x03c6, 237); (0x03b5, 238); (0x2229, 239);
    (0x2261, 240); (0x00b1, 241); (0x2265, 242); (0x2264, 243); (0x2320, 244); (0x2321, 245); (0x00f7, 246); (0x2248, 247);
    (0x00b0, 248); (0x2219, 249); (0x00b7, 250); (0x221a, 251); (0x207f, 252); (0x00b2, 253); (0x25a0, 254)].

Definition unicode_to_cp437 (code_point : Z) : Z :=
  match list_find (λ p, p.1 = code_point) cp437 with Some (_, (_, c)) => c | None => -1 end.

Definition dec_special : list (Z * Z) :=
  [(chr "`", 0x04); (chr "0", 0xdb); (chr "-", 0x18); (chr ",", 0x1b); (chr ".", 0x19); (chr "a", 0xb1);
    (chr "f", 0xf8); (chr "g", 0xf1); (chr "h", 0xb0); (chr "j", 0xd9); (chr "k", 0xbf); (chr "l", 0xda);
    (chr "m", 0xc0); (chr "n", 0xc5); (chr "q", 0xc4); (chr "s", 0x5f); (chr "t", 0xc3); (chr "u", 0xb4);
    (chr "v", 0xc1); (chr "w", 0xc2); (chr "x", 0xb3); (chr "y", 0xf3); (chr "z", 0xf2); (chr "~", 0xfa);
    (chr "_", 0xff); (chr "+", 0x1a); (chr "{", 0xe3); (chr "}", 0x9c)].
(** ** The interface of back ends *)

(** The function pointers of the context.  The back end reads the context and
    changes its own state only. *)
Class Backend (B : Type) : Type := {
  b_raw_putchar : term → Z → B → ub B;
  b_clear : term → bool → B → ub B;
  b_set_cursor_pos : term → Z → Z → B → ub B;
  b_get_cursor_pos : term → B → Z * Z;
  b_set_text_fg : term → Z → B → ub B;
  b_set_text_bg : term → Z → B → ub B;
  b_set_text_fg_bright : term → Z → B → ub B;
  b_set_text_bg_bright : term → Z → B → ub B;
  b_set_text_fg_rgb : term → Z → B → ub B;
  b_set_text_bg_rgb : term → Z → B → ub B;
  b_set_text_fg_default : term → B → ub B;
  b_set_text_bg_default : term → B → ub B;
  b_set_text_fg_default_bright : term → B → ub B;
  b_set_text_bg_default_bright : term → B → ub B;
  b_move_character : term → Z → Z → Z → Z → B → ub B;
  b_scroll : term → B → ub B;
  b_revscroll : term → B → ub B;
  b_swap_palette : term → B → ub B;
  b_save_state : term → B → ub B;
  b_restore_state : term → B → ub B;
  b_double_buffer_flush : term → B → ub B;
  b_full_refresh : term → B → ub B;
}.

Section flanterm.
Context {B : Type} `{Backend B}.

(** Code of the terminal: it works on the context and the state of the back end. *)
Abbreviation TM A := (M (term * B) Empty_set A).

Definition get {A} (f : term → A) : TM A := λ s, Ok (f s.1, s).
Definition upd (f : term → term) : TM unit := λ s, Ok (tt, (f s.1, s.2)).
Definition call (f : term → B → ub B) : TM unit := λ s,
  match f s.1 s.2 with
  | Ok b => Ok (tt, (s.1, b))
  | Err e => match e with end
  | Panic => Panic
  end.

(** [if (ctx->callback != NULL) ctx->callback(ctx, ...)]. *)
Definition notify (e : cb_event) : TM unit :=
  let! c := get callback in
  if c then upd (λ t, with_events (events t ++ [e]) t) else mret tt.

(** [ctx->esc_values[i]]. *)
Definition ev (i : Z) : TM Z :=
  let! l := get esc_values in
  mlift (unwrap (zat l i)).
Definition set_ev (i v : Z) : TM unit :=
  let! l := get esc_values in
  if (0 <=? i) && (i <? zlen l) then upd (λ t, with_esc_values (<[Z.to_nat i := v]> (esc_values t)) t) else mpanic.

(** [for (i = lo; i < hi; i++)], without and with [break]. *)
Fixpoint for_loop (n : nat) (i : Z) (body : Z → TM unit) : TM unit :=
  match n with
  | O => mret tt
  | S n => let! _ := body i in for_loop n (i + 1) body
  end.
Definition for_range (lo hi : Z) (body : Z → TM unit) : TM unit := for_loop (Z.to_nat (hi - lo)) lo body.
Fixpoint for_break (n : nat) (i : Z) (body : Z → TM bool) : TM bool :=
  match n with
  | O => mret false
  | S n => let! b := body i in if b then mret true else for_break n (i + 1) body
  end.
(** [for (i = from; ; i--)] with [if (i == x) break] at its end; running out of
    fuel is [Panic]. *)
Fixpoint for_down (n : nat) (i x : Z) (body : Z → TM unit) : TM unit :=
  match n with
  | O => mpanic
  | S n => let! _ := body i in if i =? x then mret tt else for_down n (sz (i - 1)) x body
  end.

Definition raw_putchar (c : Z) : TM unit := call (λ t, b_raw_putchar t c).
Definition clear (move : bool) : TM unit := call (λ t, b_clear t move).
Definition set_cursor_pos (x y : Z) : TM unit := call (λ t, b_set_cursor_pos t x y).
Definition get_cursor_pos : TM (Z * Z) := λ s, Ok (b_get_cursor_pos s.1 s.2, s).
Definition set_text_fg (fg : Z) : TM unit := call (λ t, b_set_text_fg t fg).
Definition set_text_bg (bg : Z) : TM unit := call (λ t, b_set_text_bg t bg).
Definition set_text_fg_bright (fg : Z) : TM unit := call (λ t, b_set_text_fg_bright t fg).
Definition set_text_bg_bright (bg : Z) : TM unit := call (λ t, b_set_text_bg_bright t bg).
Definition set_text_fg_rgb (fg : Z) : TM unit := call (λ t, b_set_text_fg_rgb t fg).
Definition set_text_bg_rgb (bg : Z) : TM unit := call (λ t, b_set_text_bg_rgb t bg).
Definition set_text_fg_default : TM unit := call b_set_text_fg_default.
Definition set_text_bg_default : TM unit := call b_set_text_bg_default.
Definition set_text_fg_default_bright : TM unit := call b_set_text_fg_default_bright.
Definition set_text_bg_default_bright : TM unit := call b_set_text_bg_default_bright.
Definition move_character (new_x new_y old_x old_y : Z) : TM unit := call (λ t, b_move_character t new_x new_y old_x old_y).
Definition scroll : TM unit := call b_scroll.
Definition revscroll : TM unit := call b_revscroll.
Definition swap_palette : TM unit := call b_swap_palette.
Definition double_buffer_flush : TM unit := call b_double_buffer_flush.

(** ** Initial state *)

Definition reinit (t : term) : term :=
  mkTerm 8 true true true false false false false false false false false false false false false
    (code_point t) 0 0 [CHARSET_DEFAULT; CHARSET_DEC_SPECIAL] 0 0 0 0 0 SIZE_MAX SIZE_MAX 0 (rows t)
    (esc_values t) FLANTERM_OOB_OUTPUT_ONLCR
    (saved_state_bold t) (saved_state_bg_bold t) (saved_state_reverse_video t)
    (saved_state_current_charset t) (saved_state_current_primary t) (saved_state_current_bg t)
    (rows t) (cols t) (callback t) (events t).
Definition flanterm_context_reinit : TM unit := upd reinit.

(** ** Colours *)

Definition sgr_reset : TM unit :=
  let! r := get reverse_video in
  let! _ := (if r then let! _ := upd (with_reverse_video false) in swap_palette else mret tt) in
  let! _ := upd (with_bold false) in
  let! _ := upd (with_bg_bold false) in
  let! _ := upd (with_current_primary SIZE_MAX) in
  let! _ := upd (with_current_bg SIZE_MAX) in
  let! _ := set_text_bg_default in
  set_text_fg_default.

Definition sgr_bold : TM unit :=
  let! _ := upd (with_bold true) in
  let! p := get current_primary in
  let! r := get reverse_video in
  if negb (p =? SIZE_MAX) then if negb r then set_text_fg_bright p else set_text_bg_bright p
  else if negb r then set_text_fg_default_bright else set_text_bg_default_bright.

Definition sgr_bg_bold : TM unit :=
  let! _ := upd (with_bg_bold true) in
  let! p := get current_bg in
  let! r := get reverse_video in
  if negb (p =? SIZE_MAX) then if negb r then set_text_bg_bright p else set_text_fg_bright p
  else if negb r then set_text_bg_default_bright else set_text_fg_default_bright.

Definition sgr_not_bold : TM unit :=
  let! _ := upd (with_bold false) in
  let! p := get current_primary in
  let! r := get reverse_video in
  if negb (p =? SIZE_MAX) then if negb r then set_text_fg p else set_text_bg p
  else if negb r then set_text_fg_default else set_text_bg_default.

Definition sgr_not_bg_bold : TM unit :=
  let! _ := upd (with_bg_bold false) in
  let! p := get current_bg in
  let! r := get reverse_video in
  if negb (p =? SIZE_MAX) then if negb r then set_text_bg p else set_text_fg p
  else if negb r then set_text_bg_default else set_text_fg_default.

(** The labels [set_fg] and [set_bg]. *)
Definition sgr_set_fg (v : Z) : TM unit :=
  let! b := get bold in
  let! g := get bg_bold in
  let! r := get reverse_video in
  if (b && negb r) || (g && r) then set_text_fg_bright v else set_text_fg v.
Definition sgr_set_bg (v : Z) : TM unit :=
  let! b := get bold in
  let! g := get bg_bold in
  let! r := get reverse_video in
  if (b && r) || (g && negb r) then set_text_bg_bright v else set_text_bg v.

Definition sgr_primary (v : Z) : TM unit :=
  let! _ := upd (with_current_primary v) in
  let! r := get reverse_video in
  if r then sgr_set_bg v else sgr_set_fg v.
Definition sgr_background (v : Z) : TM unit :=
  let! _ := upd (with_current_bg v) in
  let! r := get reverse_video in
  if r then sgr_set_fg v else sgr_set_bg v.
Definition sgr_primary_bright (v : Z) : TM unit :=
  let! _ := upd (with_current_primary v) in
  let! r := get reverse_video in
  if r then set_text_bg_bright v else set_text_fg_bright v.
Definition sgr_background_bright (v : Z) : TM unit :=
  let! _ := upd (with_current_bg v) in
  let! r := get reverse_video in
  if r then set_text_fg_bright v else set_text_bg_bright v.

Definition sgr_default_fg : TM unit :=
  let! _ := upd (with_current_primary SIZE_MAX) in
  let! r := get reverse_video in
  let! _ := (if r then swap_palette else mret tt) in
  let! b := get bold in
  let! _ := (if negb b then set_text_fg_default else set_text_fg_default_bright) in
  if r then swap_palette else mret tt.
Definition sgr_default_bg : TM unit :=
  let! _ := upd (with_current_bg SIZE_MAX) in
  let! r := get reverse_video in
  let! _ := (if r then swap_palette else mret tt) in
  let! b := get bg_bold in
  let! _ := (if negb b then set_text_bg_default else set_text_bg_default_bright) in
  if r then swap_palette else mret tt.

Definition sgr_reverse (on : bool) : TM unit :=
  let! r := get reverse_video in
  if eqb r on then mret tt else
  let! _ := upd (with_reverse_video on) in
  swap_palette.

(** The branches for one value, in the order of the code. *)
Definition sgr_one (v : Z) : TM unit :=
  if v =? 0 then sgr_reset
  else if v =? 1 then sgr_bold
  else if v =? 5 then sgr_bg_bold
  else if v =? 22 then sgr_not_bold
  else if v =? 25 then sgr_not_bg_bold
  else if (30 <=? v) && (v <=? 37) then sgr_primary (v - 30)
  else if (40 <=? v) && (v <=? 47) then sgr_background (v - 40)
  else if (90 <=? v) && (v <=? 97) then sgr_primary_bright (v - 90)
  else if (100 <=? v) && (v <=? 107) then sgr_background_bright (v - 100)
  else if v =? 39 then sgr_default_fg
  else if v =? 49 then sgr_default_bg
  else if v =? 7 then sgr_reverse true
  else if v =? 27 then sgr_reverse false
  else mret tt.

Definition sgr_256 (fg : bool) (col : Z) : TM unit :=
  if col <? 8 then if fg then set_text_fg col else set_text_bg col
  else if col <? 16 then if fg then set_text_fg_bright (col - 8) else set_text_bg_bright (col - 8)
  else if col <? 256 then
    let! rgb := mlift (unwrap (zat col256 (col - 16))) in
    if fg then set_text_fg_rgb rgb else set_text_bg_rgb rgb
  else mret tt.
Definition sgr_rgb (fg : bool) (r g b : Z) : TM unit :=
  let rgb := Z.lor (Z.lor (u32 (Z.shiftl r 16)) (u32 (Z.shiftl g 8))) b in
  if fg then set_text_fg_rgb rgb else set_text_bg_rgb rgb.

(** The loop; [i] grows every turn, so one turn per value is enough. *)
Fixpoint sgr_loop (fuel : nat) (i : Z) : TM unit :=
  match fuel with
  | O => mret tt
  | S fuel =>
      let! n := get esc_values_i in
      if i <? n then
        let! v := ev i in
        if (v =? 38) || (v =? 48) then
          let fg := v =? 38 in
          let i := i + 1 in
          if n <=? i then mret tt else
          let! mode := ev i in
          if mode =? 2 then
            if n <=? i + 3 then mret tt else
            let! r := ev (i + 1) in
            let! g := ev (i + 2) in
            let! b := ev (i + 3) in
            let! _ := sgr_rgb fg r g b in
            sgr_loop fuel (i + 3 + 1)
          else if mode =? 5 then
            if n <=? i + 1 then mret tt else
            let! col := ev (i + 1) in
            let! _ := sgr_256 fg col in
            sgr_loop fuel (i + 1 + 1)
          else sgr_loop fuel (i + 1)
        else
          let! _ := sgr_one v in
          sgr_loop fuel (i + 1)
      else mret tt
  end.
Definition sgr : TM unit :=
  let! n := get esc_values_i in
  if n =? 0 then sgr_reset else sgr_loop (Z.to_nat n) 0.

(** ** Control sequences *)

Definition set_or_reset (c : Z) : option bool :=
  if c =? chr "h" then Some true else if c =? chr "l" then Some false else None.

Definition dec_private_parse (c : Z) : TM unit :=
  let! _ := upd (with_dec_private false) in
  let! n := get esc_values_i in
  if n =? 0 then mret tt else
  match set_or_reset c with
  | None => mret tt
  | Some set =>
      let! v := ev 0 in
      if v =? 25 then upd (with_cursor_enabled set) else
      let! l := get esc_values in
      notify (FLANTERM_CB_DEC n l c)
  end.

Definition linux_private_parse : TM unit :=
  let! n := get esc_values_i in
  if n =? 0 then mret tt else
  let! l := get esc_values in
  notify (FLANTERM_CB_LINUX n l).

Definition mode_toggle (c : Z) : TM unit :=
  let! n := get esc_values_i in
  if n =? 0 then mret tt else
  match set_or_reset c with
  | None => mret tt
  | Some set =>
      let! v := ev 0 in
      if v =? 4 then upd (with_insert_mode set) else
      let! l := get esc_values in
      notify (FLANTERM_CB_MODE n l c)
  end.

Definition osc_parse (c : Z) : TM bool :=
  let! e := get osc_escape in
  if e then
    if c =? chr "\" then
      let! _ := upd (with_osc false) in
      let! _ := upd (with_osc_escape false) in
      let! _ := upd (with_escape false) in
      mret true
    else
      let! _ := upd (with_osc_escape false) in
      let! _ := upd (with_osc false) in
      mret false
  else if c =? 0x1b then
    let! _ := upd (with_osc_escape true) in
    mret true
  else if c =? 7 then
    let! _ := upd (with_osc_escape false) in
    let! _ := upd (with_osc false) in
    let! _ := upd (with_escape false) in
    mret true
  else mret true.

(** The cases of [control_sequence_parse], with the position of the cursor. *)

Definition csi_up (x y : Z) : TM unit :=
  let! v := ev 0 in
  let! _ := (if y <? v then set_ev 0 (u32 y) else mret tt) in
  let! v := ev 0 in
  let! top := get scroll_top_margin in
  let! bottom := get scroll_bottom_margin in
  let dest_y := sz (y - v) in
  let in_region := ((dest_y <=? top) && (top <=? y)) || ((dest_y <=? bottom) && (bottom <=? y)) in
  let dest_y := if in_region && (dest_y <? top) then top else dest_y in
  set_cursor_pos x dest_y.

Definition csi_down (x y : Z) : TM unit :=
  let! rows := get rows in
  let! v := ev 0 in
  let! _ := (if sz (rows - 1) <? sz (y + v) then set_ev 0 (u32 (sz (sz (rows - 1) - y))) else mret tt) in
  let! v := ev 0 in
  let! top := get scroll_top_margin in
  let! bottom := get scroll_bottom_margin in
  let dest_y := sz (y + v) in
  let in_region := ((y <=? top) && (top <=? dest_y)) || ((y <=? bottom) && (bottom <=? dest_y)) in
  let dest_y := if in_region && (bottom <=? dest_y) then sz (bottom - 1) else dest_y in
  set_cursor_pos x dest_y.

Definition csi_right (x y : Z) : TM unit :=
  let! cols := get cols in
  let! v := ev 0 in
  let! _ := (if sz (cols - 1) <? sz (x + v) then set_ev 0 (u32 (sz (sz (cols - 1) - x))) else mret tt) in
  let! v := ev 0 in
  set_cursor_pos (sz (x + v)) y.

Definition csi_left (x y : Z) : TM unit :=
  let! v := ev 0 in
  let! _ := (if x <? v then set_ev 0 (u32 x) else mret tt) in
  let! v := ev 0 in
  set_cursor_pos (sz (x - v)) y.

(** [esc_values[0] -= 1], and the last row or column if that is too large. *)
Definition csi_absolute (limit : Z) : TM Z :=
  let! v := ev 0 in
  let! _ := set_ev 0 (u32 (v - 1)) in
  let! v := ev 0 in
  let! _ := (if limit <=? v then set_ev 0 (u32 (sz (limit - 1))) else mret tt) in
  ev 0.
Definition csi_row (x : Z) : TM unit :=
  let! rows := get rows in
  let! v := csi_absolute rows in
  set_cursor_pos x v.
Definition csi_column (y : Z) : TM unit :=
  let! cols := get cols in
  let! v := csi_absolute cols in
  set_cursor_pos v y.

Definition csi_position : TM unit :=
  let! v := ev 0 in
  let! _ := (if negb (v =? 0) then set_ev 0 (u32 (v - 1)) else mret tt) in
  let! v := ev 1 in
  let! _ := (if negb (v =? 0) then set_ev 1 (u32 (v - 1)) else mret tt) in
  let! cols := get cols in
  let! rows := get rows in
  let! v := ev 1 in
  let! _ := (if cols <=? v then set_ev 1 (u32 (sz (cols - 1))) else mret tt) in
  let! v := ev 0 in
  let! _ := (if rows <=? v then set_ev 0 (u32 (sz (rows - 1))) else mret tt) in
  let! x := ev 1 in
  let! y := ev 0 in
  set_cursor_pos x y.

(** [esc_values[0] > limit ? limit : esc_values[0]]. *)
Definition csi_count (limit : Z) : TM Z :=
  let! v := ev 0 in
  mret (if limit <? v then limit else v).

Definition csi_delete_lines : TM unit :=
  let! rows := get rows in
  let! count := csi_count rows in
  for_range 0 count (λ _, scroll).

Definition csi_insert_lines (y : Z) : TM unit :=
  let! old := get scroll_top_margin in
  let! _ := upd (with_scroll_top_margin y) in
  let! rows := get rows in
  let! count := csi_count rows in
  let! _ := for_range 0 count (λ _, revscroll) in
  upd (with_scroll_top_margin old).

Definition csi_report (x y : Z) : TM unit :=
  let! v := ev 0 in
  if v =? 5 then notify FLANTERM_CB_STATUS_REPORT
  else if v =? 6 then notify (FLANTERM_CB_POS_REPORT (sz (x + 1)) (sz (y + 1)))
  else mret tt.

Definition csi_leds : TM unit :=
  let! v := ev 0 in
  notify (FLANTERM_CB_KBD_LEDS v).

Definition erase_below (x y : Z) : TM unit :=
  let! rows := get rows in
  let! cols := get cols in
  let rows_remaining := sz (rows - sz (y + 1)) in
  let cols_diff := sz (cols - sz (x + 1)) in
  let to_clear := sz (sz (sz (rows_remaining * cols) + cols_diff) + 1) in
  let! _ := for_range 0 to_clear (λ _, raw_putchar (chr " ")) in
  set_cursor_pos x y.

Definition erase_above (x y : Z) : TM unit :=
  let! _ := set_cursor_pos 0 0 in
  let! rows := get rows in
  let! cols := get cols in
  let! _ := for_break (Z.to_nat rows) 0 (λ yc,
    for_break (Z.to_nat cols) 0 (λ xc,
      let! _ := raw_putchar (chr " ") in
      if (xc =? x) && (yc =? y) then let! _ := set_cursor_pos x y in mret true else mret false)) in
  mret tt.

Definition csi_erase_display (x y : Z) : TM unit :=
  let! v := ev 0 in
  if v =? 0 then erase_below x y
  else if v =? 1 then erase_above x y
  else if (v =? 2) || (v =? 3) then clear false
  else mret tt.

Definition csi_insert_chars (x y : Z) : TM unit :=
  let! cols := get cols in
  let! _ := for_down (Z.to_nat cols) (sz (cols - 1)) x (λ i,
    let! v := ev 0 in
    let! _ := move_character (sz (i + v)) y i y in
    let! _ := set_cursor_pos i y in
    raw_putchar (chr " ")) in
  set_cursor_pos x y.

Definition csi_erase_chars (x y : Z) : TM unit :=
  let! cols := get cols in
  let! count := csi_count cols in
  let! _ := for_range 0 count (λ _, raw_putchar (chr " ")) in
  set_cursor_pos x y.

Definition csi_delete_chars (x y : Z) : TM unit :=
  let! cols := get cols in
  let! v := ev 0 in
  let! _ := for_range (sz (x + v)) cols (λ i,
    let! v := ev 0 in
    move_character (sz (i - v)) y i y) in
  let! v := ev 0 in
  let! _ := set_cursor_pos (sz (cols - v)) y in
  csi_erase_chars x y.

Definition csi_save_cursor : TM unit :=
  let! p := get_cursor_pos in
  let! _ := upd (with_saved_cursor_x p.1) in
  upd (with_saved_cursor_y p.2).
Definition csi_restore_cursor : TM unit :=
  let! x := get saved_cursor_x in
  let! y := get saved_cursor_y in
  set_cursor_pos x y.

Definition csi_erase_line (x y : Z) : TM unit :=
  let! v := ev 0 in
  let! cols := get cols in
  if v =? 0 then
    let! _ := for_range x cols (λ _, raw_putchar (chr " ")) in
    set_cursor_pos x y
  else if v =? 1 then
    let! _ := set_cursor_pos 0 y in
    for_range 0 x (λ _, raw_putchar (chr " "))
  else if v =? 2 then
    let! _ := set_cursor_pos 0 y in
    let! _ := for_range 0 cols (λ _, raw_putchar (chr " ")) in
    set_cursor_pos x y
  else mret tt.

(** Margins that are not on the screen or too close are reset. *)
Definition check_margins : TM unit :=
  let! rows := get rows in
  let! top := get scroll_top_margin in
  let! bottom := get scroll_bottom_margin in
  if (rows <=? top) || (rows <? bottom) || (sz (bottom - 1) <=? top) then
    let! _ := upd (with_scroll_top_margin 0) in
    upd (with_scroll_bottom_margin rows)
  else mret tt.
Definition csi_margins : TM unit :=
  let! v := ev 0 in
  let! _ := (if v =? 0 then set_ev 0 1 else mret tt) in
  let! v := ev 1 in
  let! _ := (if v =? 0 then set_ev 1 1 else mret tt) in
  let! rows := get rows in
  let! _ := upd (with_scroll_top_margin 0) in
  let! _ := upd (with_scroll_bottom_margin rows) in
  let! n := get esc_values_i in
  let! v := ev 0 in
  let! _ := (if 0 <? n then upd (with_scroll_top_margin (u32 (v - 1))) else mret tt) in
  let! v := ev 1 in
  let! _ := (if 1 <? n then upd (with_scroll_bottom_margin v) else mret tt) in
  let! _ := check_margins in
  set_cursor_pos 0 0.

(** The [switch]: [true] where the code leaves it with [break], [false] where it
    returns. *)
Definition csi_command (c x y : Z) : TM bool :=
  let done (m : TM unit) : TM bool := let! _ := m in mret true in
  if c =? 0x1b then mret false
  else if c =? chr "F" then done (csi_up 0 y)
  else if c =? chr "A" then done (csi_up x y)
  else if c =? chr "E" then done (csi_down 0 y)
  else if (c =? chr "e") || (c =? chr "B") then done (csi_down x y)
  else if (c =? chr "a") || (c =? chr "C") then done (csi_right x y)
  else if c =? chr "D" then done (csi_left x y)
  else if c =? chr "c" then done (notify FLANTERM_CB_PRIVATE_ID)
  else if c =? chr "d" then done (csi_row x)
  else if (c =? chr "G") || (c =? chr "`") then done (csi_column y)
  else if (c =? chr "H") || (c =? chr "f") then done csi_position
  else if c =? chr "M" then done csi_delete_lines
  else if c =? chr "L" then done (csi_insert_lines y)
  else if c =? chr "n" then done (csi_report x y)
  else if c =? chr "q" then done csi_leds
  else if c =? chr "J" then done (csi_erase_display x y)
  else if c =? chr "@" then done (csi_insert_chars x y)
  else if c =? chr "P" then done (csi_delete_chars x y)
  else if c =? chr "X" then done (csi_erase_chars x y)
  else if c =? chr "m" then done sgr
  else if c =? chr "s" then done csi_save_cursor
  else if c =? chr "u" then done csi_restore_cursor
  else if c =? chr "K" then done (csi_erase_line x y)
  else if c =? chr "r" then done csi_margins
  else if (c =? chr "l") || (c =? chr "h") then done (mode_toggle c)
  else if c =? chr "]" then done linux_private_parse
  else let! _ := upd (with_csi_unhandled true) in mret false.

(** The label [cleanup]. *)
Definition cleanup : TM unit :=
  let! _ := upd (with_control_sequence false) in
  upd (with_escape false).

(** A digit of a value. *)
Definition csi_digit (c : Z) : TM unit :=
  let! i := get esc_values_i in
  if i =? FLANTERM_MAX_ESC_VALUES then mret tt else
  let! _ := upd (with_rrr true) in
  let! v := ev i in
  let! _ := set_ev i (u32 (v * 10)) in
  let! v := ev i in
  set_ev i (u32 (v + (c - chr "0"))).

(** The end of a value; [true] where the code returns. *)
Definition csi_separator (c : Z) : TM bool :=
  let! r := get rrr in
  if r then
    let! _ := upd (λ t, with_esc_values_i (sz (esc_values_i t + 1)) t) in
    let! _ := upd (with_rrr false) in
    mret (c =? chr ";")
  else if c =? chr ";" then
    let! i := get esc_values_i in
    if i =? FLANTERM_MAX_ESC_VALUES then mret true else
    let! _ := set_ev i 0 in
    let! _ := upd (λ t, with_esc_values_i (sz (esc_values_i t + 1)) t) in
    mret true
  else mret false.

Definition fill_defaults (c : Z) : TM unit :=
  let esc_default := if (c =? chr "J") || (c =? chr "K") || (c =? chr "q") then 0 else 1 in
  let! i := get esc_values_i in
  for_range i FLANTERM_MAX_ESC_VALUES (λ i, set_ev i esc_default).

(** What follows the values: the command. *)
Definition csi_final (c : Z) : TM unit :=
  let! r := get scroll_enabled in
  let! _ := upd (with_scroll_enabled false) in
  let! (x, y) := get_cursor_pos in
  let! u := get csi_unhandled in
  if u then
    if (0x40 <=? c) && (c <=? 0x7e) then
      let! _ := upd (with_csi_unhandled false) in
      cleanup
    else mret tt
  else
    let! handled := csi_command c x y in
    if handled then
      let! _ := upd (with_scroll_enabled r) in
      cleanup
    else mret tt.

Definition control_sequence_parse (c : Z) : TM unit :=
  let! offset := get escape_offset in
  if (offset =? 2) && (c =? chr "[") then
    let! _ := upd (with_discard_next true) in
    cleanup
  else if (offset =? 2) && (c =? chr "?") then upd (with_dec_private true)
  else if (chr "0" <=? c) && (c <=? chr "9") then csi_digit c
  else
    let! returns := csi_separator c in
    if returns then mret tt else
    let! _ := fill_defaults c in
    let! d := get dec_private in
    if d then
      let! _ := dec_private_parse c in
      cleanup
    else csi_final c.

(** ** Escape sequences *)

Definition restore_state : TM unit :=
  let! _ := upd (λ t, with_bold (saved_state_bold t) t) in
  let! _ := upd (λ t, with_bg_bold (saved_state_bg_bold t) t) in
  let! _ := upd (λ t, with_reverse_video (saved_state_reverse_video t) t) in
  let! _ := upd (λ t, with_current_charset (saved_state_current_charset t) t) in
  let! _ := upd (λ t, with_current_primary (saved_state_current_primary t) t) in
  let! _ := upd (λ t, with_current_bg (saved_state_current_bg t) t) in
  call b_restore_state.

Definition save_state : TM unit :=
  let! _ := call b_save_state in
  let! _ := upd (λ t, with_saved_state_bold (bold t) t) in
  let! _ := upd (λ t, with_saved_state_bg_bold (bg_bold t) t) in
  let! _ := upd (λ t, with_saved_state_reverse_video (reverse_video t) t) in
  let! _ := upd (λ t, with_saved_state_current_charset (current_charset t) t) in
  let! _ := upd (λ t, with_saved_state_current_primary (current_primary t) t) in
  upd (λ t, with_saved_state_current_bg (current_bg t) t).

(** The next line, scrolling at the end of the region. *)
Definition line_feed (x y : Z) : TM unit :=
  let! bottom := get scroll_bottom_margin in
  if y =? sz (bottom - 1) then
    let! _ := scroll in
    set_cursor_pos x y
  else set_cursor_pos x (sz (y + 1)).

Definition reverse_line_feed (y : Z) : TM unit :=
  let! top := get scroll_top_margin in
  if y =? top then
    let! _ := revscroll in
    set_cursor_pos 0 y
  else set_cursor_pos 0 (sz (y - 1)).

Definition start_control_sequence : TM unit :=
  let! _ := for_range 0 FLANTERM_MAX_ESC_VALUES (λ i, set_ev i 0) in
  let! _ := upd (with_esc_values_i 0) in
  let! _ := upd (with_rrr false) in
  let! _ := upd (with_csi_unhandled false) in
  upd (with_control_sequence true).

Definition full_reset : TM unit :=
  let! _ := flanterm_context_reinit in
  clear true.

(** The [switch] of [escape_parse]; [false] where the code returns. *)
Definition escape_command (c x y : Z) : TM bool :=
  let done (m : TM unit) : TM bool := let! _ := m in mret true in
  if c =? chr "]" then
    let! _ := upd (with_osc_escape false) in
    let! _ := upd (with_osc true) in
    mret false
  else if c =? chr "[" then
    let! _ := start_control_sequence in
    mret false
  else if c =? chr "7" then done save_state
  else if c =? chr "8" then done restore_state
  else if c =? chr "c" then done full_reset
  else if c =? chr "D" then done (line_feed x y)
  else if c =? chr "E" then done (line_feed 0 y)
  else if c =? chr "M" then done (reverse_line_feed y)
  else if c =? chr "Z" then done (notify FLANTERM_CB_PRIVATE_ID)
  else if (c =? chr "(") || (c =? chr ")") then done (upd (with_g_select (c - 39)))
  else mret true.

Definition escape_parse (c : Z) : TM unit :=
  let! _ := upd (λ t, with_escape_offset (sz (escape_offset t + 1)) t) in
  let! o := get osc in
  let! consumed := (if o then osc_parse c else mret false) in
  if consumed then mret tt else
  let! cs := get control_sequence in
  if cs then control_sequence_parse c else
  let! (x, y) := get_cursor_pos in
  let! ends := escape_command c x y in
  if ends then upd (with_escape false) else mret tt.

(** ** Characters *)

(** [dec_special_print]; [true] if it has printed the character. *)
Definition dec_special_print (c : Z) : TM bool :=
  match list_find (λ p, p.1 = c) dec_special with
  | Some (_, (_, g)) => let! _ := raw_putchar g in mret true
  | None => mret false
  end.

(** A character outside of ASCII is complete. *)
Definition print_code_point (cp : Z) : TM unit :=
  let cc := unicode_to_cp437 cp in
  if cc =? -1 then
    let! width := mlift (mk_wcwidth (u32 cp)) in
    let! _ := (if 0 <? width then raw_putchar 0xfe else mret tt) in
    for_range 1 width (λ _, raw_putchar (chr " "))
  else raw_putchar cc.

Definition continue_unicode (c : Z) : TM unit :=
  let! _ := upd (λ t, with_unicode_remaining (sz (unicode_remaining t - 1)) t) in
  let! _ := upd (λ t, with_code_point (Z.lor (code_point t) (wrap 64 (Z.shiftl (Z.land c 0x3f) (6 * unicode_remaining t)))) t) in
  let! r := get unicode_remaining in
  if negb (r =? 0) then mret tt else
  let! cp := get code_point in
  print_code_point cp.

Definition start_unicode (c : Z) : TM unit :=
  if (0xc0 <=? c) && (c <=? 0xdf) then
    let! _ := upd (with_unicode_remaining 1) in
    upd (with_code_point (Z.shiftl (Z.land c 0x1f) 6))
  else if (0xe0 <=? c) && (c <=? 0xef) then
    let! _ := upd (with_unicode_remaining 2) in
    upd (with_code_point (Z.shiftl (Z.land c 0x0f) 12))
  else if (0xf0 <=? c) && (c <=? 0xf7) then
    let! _ := upd (with_unicode_remaining 3) in
    upd (with_code_point (Z.shiftl (Z.land c 0x07) 18))
  else mret tt.

Definition select_charset (c : Z) : TM unit :=
  let! g := get g_select in
  let! _ := upd (with_g_select (wrap 8 (g - 1))) in
  let! g := get g_select in
  let! l := get charsets in
  let! _ := (if (c =? chr "B") || (c =? chr "0") then
               if (0 <=? g) && (g <? zlen l) then
                 upd (with_charsets (<[Z.to_nat g := if c =? chr "B" then CHARSET_DEFAULT else CHARSET_DEC_SPECIAL]> l))
               else mpanic
             else mret tt) in
  upd (with_g_select 0).

Definition tab (x y : Z) : TM unit :=
  let! size := get tab_size in
  let! cols := get cols in
  let! q := mlift (udiv x size) in
  if cols <=? sz (q + 1) then set_cursor_pos (sz (cols - 1)) y
  else set_cursor_pos (sz (sz (q + 1) * size)) y.

(** A character that is printed where the cursor is. *)
Definition print_char (c x y : Z) : TM unit :=
  let! i := get insert_mode in
  let! cols := get cols in
  let! _ := (if i then for_down (Z.to_nat cols) (sz (cols - 1)) x (λ i, move_character (sz (i + 1)) y i y) else mret tt) in
  let! l := get charsets in
  let! n := get current_charset in
  let! set := mlift (unwrap (zat l n)) in
  let! printed := (if set =? CHARSET_DEC_SPECIAL then dec_special_print c else mret false) in
  if printed then mret tt
  else if (0x20 <=? c) && (c <=? 0x7e) then raw_putchar c
  else raw_putchar 0xfe.

(** The [switch] over the control characters. *)
Definition ground_char (c : Z) : TM unit :=
  let! (x, y) := get_cursor_pos in
  if (c =? 0) || (c =? 0x7f) then mret tt
  else if c =? 0x1b then
    let! _ := upd (with_escape_offset 0) in
    upd (with_escape true)
  else if c =? 9 then tab x y
  else if (c =? 0x0b) || (c =? 0x0c) || (c =? 10) then
    let! o := get oob_output in
    line_feed (if Z.land o FLANTERM_OOB_OUTPUT_ONLCR =? 0 then x else 0) y
  else if c =? 8 then set_cursor_pos (sz (x - 1)) y
  else if c =? 13 then set_cursor_pos 0 y
  else if c =? 7 then notify FLANTERM_CB_BELL
  else if c =? 14 then upd (with_current_charset 1)
  else if c =? 15 then upd (with_current_charset 0)
  else print_char c x y.

(** From the label [unicode_error] on. *)
Definition putchar_plain (c : Z) : TM unit :=
  if (0xc0 <=? c) && (c <=? 0xf7) then start_unicode c else
  let! e := get escape in
  if e then escape_parse c else
  let! g := get g_select in
  if negb (g =? 0) then select_charset c
  else ground_char c.

Definition cancel (t : term) : term :=
  with_g_select 0 (with_osc_escape false (with_osc false (with_unicode_remaining 0
    (with_control_sequence false (with_escape false (with_discard_next false t)))))).

Definition flanterm_putchar (c : Z) : TM unit :=
  let! d := get discard_next in
  if d || (c =? 0x18) || (c =? 0x1a) then upd cancel else
  let! r := get unicode_remaining in
  if negb (r =? 0) then
    if negb (Z.land c 0xc0 =? 0x80) then
      let! _ := upd (with_unicode_remaining 0) in
      putchar_plain c
    else continue_unicode c
  else putchar_plain c.

Fixpoint putchars (buf : list Z) : TM unit :=
  match buf with
  | [] => mret tt
  | c :: buf => let! _ := flanterm_putchar c in putchars buf
  end.
Definition flanterm_write (buf : list Z) : TM unit :=
  let! _ := putchars buf in
  let! a := get autoflush in
  if a then double_buffer_flush else mret tt.

Definition flanterm_flush : TM unit := double_buffer_flush.
Definition flanterm_full_refresh : TM unit := call b_full_refresh.
Definition flanterm_get_dimensions : TM (Z * Z) := get (λ t, (cols t, rows t)).
Definition flanterm_set_autoflush (state : bool) : TM unit := upd (with_autoflush state).
Definition flanterm_set_callback (set : bool) : TM unit := upd (with_callback set).
Definition flanterm_get_oob_output : TM Z := get oob_output.
Definition flanterm_set_oob_output (o : Z) : TM unit := upd (with_oob_output o).
End flanterm.

(** ** The search in the table of combining characters *)

(** Intervals in order, apart from each other. *)
Fixpoint in_order (lo : Z) (table : list (Z * Z)) : Prop :=
  match table with [] => True | e :: table => lo < e.1 ∧ e.1 ≤ e.2 ∧ in_order e.2 table end.
Definition contains (ucs : Z) (e : Z * Z) : bool := (e.1 <=? ucs) && (ucs <=? e.2).

Lemma in_order_lookup lo table i e : in_order lo table → table !! i = Some e → lo < e.1 ∧ e.1 ≤ e.2.
Proof.
  revert lo i. induction table as [|a table IH]; intros lo i; [done|]. intros (? & ? & Ht). destruct i as [|i]; simpl; [by intros [= <-]|].
  intros He. destruct (IH _ _ Ht He). lia.
Qed.

Lemma in_order_pair lo table i j e f : in_order lo table → table !! i = Some e → table !! j = Some f → (i < j)%nat → e.2 < f.1.
Proof.
  revert lo i j. induction table as [|a table IH]; intros lo i j; [done|]. intros (? & ? & Ht) Hi Hj Hij. destruct j as [|j]; [lia|].
  destruct i as [|i]; simpl in *; [injection Hi as <-; by apply (in_order_lookup a.2 table j)|]. apply (IH a.2 i j); [done..|lia].
Qed.

Lemma bisearch_loop_spec fuel ucs table lo min max : in_order lo table → 0 ≤ min → min ≤ max + 1 → max < zlen table → max - min + 1 < Z.of_nat fuel →
  ∃ b, bisearch_loop fuel ucs table min max = Ok b ∧
    (b = true ↔ ∃ k e, min ≤ Z.of_nat k ≤ max ∧ table !! k = Some e ∧ contains ucs e = true).
Proof.
  intros Ht. revert min max. induction fuel as [|fuel IH]; intros min max Hmin Hle Hmax Hf; cbn [bisearch_loop]; [lia|].
  destruct (Z.leb_spec min max) as [Hm|Hm]; [|exists false; split; [done|]; split; [done|]; intros (k & e & ? & _); lia].
  set (mid := (min + max) / 2). assert (Hmid : min ≤ mid ≤ max) by (unfold mid; split; [apply Z.div_le_lower_bound|apply Z.div_le_upper_bound]; lia).
  destruct (zat_is_Some table mid) as [e He]; [lia|]. rewrite He. cbn [unwrap rbind]. unfold zat in He. destruct (Z.ltb_spec mid 0); [lia|].
  destruct (in_order_lookup lo table _ _ Ht He) as [_ Hee].
  destruct (Z.ltb_spec e.2 ucs) as [Hlt|Hge]; [|destruct (Z.ltb_spec ucs e.1) as [Hlt|Hge']].
  - destruct (IH (mid + 1) max) as (b & -> & Hb); [lia..|]. exists b. split; [done|]. rewrite Hb. split; [intros (k & f & ? & ?); exists k, f; split; [lia|done]|].
    intros (k & f & Hk & Hf' & Hc). exists k, f. split; [|done]. cut (¬ Z.of_nat k ≤ mid); [lia|]. intros Hle'. apply andb_true_iff in Hc as [? ?%Z.leb_le].
    destruct (decide (k = Z.to_nat mid)) as [->|]; [congruence || (rewrite He in Hf'; injection Hf' as <-; lia)|].
    pose proof (in_order_pair lo table k (Z.to_nat mid) f e Ht Hf' He ltac:(lia)). lia.
  - destruct (IH min (mid - 1)) as (b & -> & Hb); [lia..|]. exists b. split; [done|]. rewrite Hb. split; [intros (k & f & ? & ?); exists k, f; split; [lia|done]|].
    intros (k & f & Hk & Hf' & Hc). exists k, f. split; [|done]. cut (¬ mid ≤ Z.of_nat k); [lia|]. intros Hle'. apply andb_true_iff in Hc as [?%Z.leb_le ?].
    destruct (decide (k = Z.to_nat mid)) as [->|]; [rewrite He in Hf'; injection Hf' as <-; lia|].
    pose proof (in_order_pair lo table (Z.to_nat mid) k e f Ht He Hf' ltac:(lia)). lia.
  - exists true. split; [done|]. split; [intros _|done]. exists (Z.to_nat mid), e. split; [lia|]. split; [done|].
    unfold contains. apply andb_true_iff. split; apply Z.leb_le; lia.
Qed.

Lemma bisearch_spec ucs table lo : in_order lo table → table ≠ [] → bisearch ucs table (zlen table - 1) = Ok (existsb (contains ucs) table).
Proof.
  intros Ht Hne. assert (0 < zlen table) by (destruct table; [done|unfold zlen; simpl; lia]). unfold bisearch.
  destruct (zat_is_Some table 0) as [a Ha]; [lia|]. destruct (zat_is_Some table (zlen table - 1)) as [z Hz]; [lia|]. rewrite Ha, Hz. cbn [unwrap rbind].
  destruct (bisearch_loop_spec (S (S (Z.to_nat (zlen table - 1)))) ucs table lo 0 (zlen table - 1) Ht) as (b & -> & Hb); [lia..|].
  assert (Hex : existsb (contains ucs) table = true ↔ ∃ k e, table !! k = Some e ∧ contains ucs e = true).
  { rewrite existsb_exists. setoid_rewrite <-list_elem_of_In. split; [intros (e & [k Hk]%list_elem_of_lookup & ?); eauto|intros (k & e & Hk & ?); eauto using list_elem_of_lookup_2]. }
  assert (Hbe : b = existsb (contains ucs) table).
  { apply eq_true_iff_eq. rewrite Hb, Hex. split; [intros (k & e & _ & ?); eauto|]. intros (k & e & Hk & ?). exists k, e. split; [|done].
    apply lookup_lt_Some in Hk as ?. unfold zlen. lia. }
  rewrite <-Hbe. destruct ((_ <? _) || _) eqn:Eo; [|done]. f_equal. destruct b; [|done]. exfalso. apply eq_sym, Hex in Hbe as (k & e & Hk & Hc).
  unfold zat in Ha, Hz. destruct (Z.ltb_spec 0 0); [lia|]. destruct (Z.ltb_spec (zlen table - 1) 0); [lia|]. apply lookup_lt_Some in Hk as Hkl.
  unfold contains in Hc. apply andb_true_iff in Hc as [?%Z.leb_le ?%Z.leb_le]. apply orb_true_iff in Eo as [?%Z.ltb_lt|?%Z.ltb_lt].
  - destruct k as [|k]; [change (Z.to_nat 0) with O in Ha; rewrite Ha in Hk; injection Hk as <-; lia|].
    pose proof (in_order_lookup lo table _ _ Ht Ha). pose proof (in_order_pair lo table 0 (S k) a e Ht Ha Hk ltac:(lia)). lia.
  - destruct (decide (k = Z.to_nat (zlen table - 1))) as [->|]; [rewrite Hz in Hk; injection Hk as <-; lia|].
    pose proof (in_order_lookup lo table _ _ Ht Hz). pose proof (in_order_pair lo table k _ e z Ht Hk Hz ltac:(unfold zlen in *; lia)). lia.
Qed.

Lemma combining_in_order : in_order 0 combining.
Proof. vm_compute. repeat split; discriminate. Qed.

(** C34: the width of a character: zero for the combining characters of the table,
    found by a binary search as by looking at every entry, two for the wide
    characters and one for the others; the search stays within the table and
    ends (a search that reads outside it or does not end has no result). *)
Theorem mk_wcwidth_correct ucs :
  mk_wcwidth ucs = Ok (
    if ucs =? 0 then 0
    else if (ucs <? 32) || ((0x7f <=? ucs) && (ucs <? 0xa0)) then 1
    else if existsb (contains ucs) combining then 0
    else if wide ucs then 2 else 1).
Proof.
  unfold mk_wcwidth. rewrite (bisearch_spec _ _ 0 combining_in_order) by done. cbn [rbind].
  destruct (ucs =? 0); [done|]. destruct (_ || _); [done|]. destruct (existsb _ _); [done|]. by destruct (wide ucs).
Qed.

Lemma mk_wcwidth_total ucs : ∃ w, mk_wcwidth ucs = Ok w ∧ 0 ≤ w ≤ 2.
Proof.
  unfold mk_wcwidth. rewrite (bisearch_spec _ _ 0 combining_in_order) by done. cbn [rbind].
  destruct (ucs =? 0); [eauto with lia|]. destruct (_ || _); [eauto with lia|]. destruct (existsb _ _); [eauto with lia|]. destruct (wide ucs); eauto with lia.
Qed.

(** Tables of glyphs hold bytes. *)
Definition bytes_of (l : list (Z * Z)) : bool := forallb (λ p, (0 <=? p.2) && (p.2 <? 256)) l.
Lemma bytes_of_lookup l (P : Z * Z → Prop) `{∀ p, Decision (P p)} i p : bytes_of l = true → list_find P l = Some (i, p) → 0 ≤ p.2 < 256.
Proof.
  intros Hl (Hp & _ & _)%list_find_Some. apply list_elem_of_lookup_2, list_elem_of_In in Hp. unfold bytes_of in Hl. rewrite forallb_forall in Hl.
  apply Hl in Hp. apply andb_true_iff in Hp as [?%Z.leb_le ?%Z.ltb_lt]. lia.
Qed.

Lemma cp437_byte cp : unicode_to_cp437 cp = -1 ∨ 0 ≤ unicode_to_cp437 cp < 256.
Proof.
  unfold unicode_to_cp437. destruct (list_find _ cp437) as [[i [u g]]|] eqn:E; [right|by left].
  by apply (bytes_of_lookup _ _ _ _ (eq_refl : bytes_of cp437 = true) E).
Qed.
