(* ===== verification/FlanTermSafe.v ===== *)
(** * Safety and refinement of the terminal (flanterm/flanterm-c/src/flanterm.c)

    What a back end promises ([BackendHom]), and that with any such back end the
    terminal stays within its arrays whatever is written to it and behaves as
    with the abstract back end. *)

From Stdlib Require Import Ascii.
From S2P Require Import Prelude Bytes FlanTerm.

Section sim.
Context {B1 B2 : Type} `{Backend B1, Backend B2}.
(** The size of the screen, the invariant of the back end and what it stands for. *)
Context (R C : Z) (inv : B1 → Prop) (abs : B1 → B2).

(** What back ends rely on: the size of the screen, and margins on it. *)
Definition geo (t : term) : Prop :=
  rows t = R ∧ cols t = C ∧ 0 ≤ scroll_top_margin t < R ∧ 1 ≤ scroll_bottom_margin t ≤ R.

Definition sim_op (f1 : B1 → ub B1) (f2 : B2 → ub B2) : Prop :=
  ∀ b, inv b → ∃ b', f1 b = Ok b' ∧ f2 (abs b) = Ok (abs b') ∧ inv b'.

Abbreviation is_size x := (0 ≤ x < 2 ^ 64).

(** The promises of a back end: no operation leaves its arrays, and each has the
    effect of the abstract one. *)
Class BackendHom : Prop := {
  hom_raw_putchar t c : geo t → 0 ≤ c < 256 → sim_op (b_raw_putchar t c) (b_raw_putchar t c);
  hom_clear t move : geo t → sim_op (b_clear t move) (b_clear t move);
  hom_set_cursor_pos t x y : geo t → is_size x → is_size y → sim_op (b_set_cursor_pos t x y) (b_set_cursor_pos t x y);
  hom_get_cursor_pos t b : geo t → inv b →
    b_get_cursor_pos t (abs b) = b_get_cursor_pos t b ∧
    0 ≤ (b_get_cursor_pos t b).1 < C ∧ 0 ≤ (b_get_cursor_pos t b).2 < R;
  hom_set_text_fg t v : geo t → 0 ≤ v < 8 → sim_op (b_set_text_fg t v) (b_set_text_fg t v);
  hom_set_text_bg t v : geo t → 0 ≤ v < 8 → sim_op (b_set_text_bg t v) (b_set_text_bg t v);
  hom_set_text_fg_bright t v : geo t → 0 ≤ v < 8 → sim_op (b_set_text_fg_bright t v) (b_set_text_fg_bright t v);
  hom_set_text_bg_bright t v : geo t → 0 ≤ v < 8 → sim_op (b_set_text_bg_bright t v) (b_set_text_bg_bright t v);
  hom_set_text_fg_rgb t v : geo t → sim_op (b_set_text_fg_rgb t v) (b_set_text_fg_rgb t v);
  hom_set_text_bg_rgb t v : geo t → sim_op (b_set_text_bg_rgb t v) (b_set_text_bg_rgb t v);
  hom_set_text_fg_default t : geo t → sim_op (b_set_text_fg_default t) (b_set_text_fg_default t);
  hom_set_text_bg_default t : geo t → sim_op (b_set_text_bg_default t) (b_set_text_bg_default t);
  hom_set_text_fg_default_bright t : geo t → sim_op (b_set_text_fg_default_bright t) (b_set_text_fg_default_bright t);
  hom_set_text_bg_default_bright t : geo t → sim_op (b_set_text_bg_default_bright t) (b_set_text_bg_default_bright t);
  hom_move_character t a b c d : geo t → is_size a → is_size b → is_size c → is_size d →
    sim_op (b_move_character t a b c d) (b_move_character t a b c d);
  hom_scroll t : geo t → sim_op (b_scroll t) (b_scroll t);
  hom_revscroll t : geo t → sim_op (b_revscroll t) (b_revscroll t);
  hom_swap_palette t : geo t → sim_op (b_swap_palette t) (b_swap_palette t);
  hom_save_state t : geo t → sim_op (b_save_state t) (b_save_state t);
  hom_restore_state t : geo t → sim_op (b_restore_state t) (b_restore_state t);
  hom_double_buffer_flush t : geo t → sim_op (b_double_buffer_flush t) (b_double_buffer_flush t);
}.
Context `{BackendHom}.
Context (HR : 0 < R < 2 ^ 31) (HC : 0 < C < 2 ^ 31).

(** An index of a colour, or none. *)
Definition colour_ok (p : Z) : Prop := 0 ≤ p < 8 ∨ p = SIZE_MAX.

(** The invariant of the context. *)
Record wf (t : term) : Prop := mk_wf {
  wf_rows : rows t = R;
  wf_cols : cols t = C;
  wf_tab : tab_size t = 8;
  wf_top : 0 ≤ scroll_top_margin t;
  wf_margins : scroll_top_margin t < scroll_bottom_margin t;
  wf_bottom : scroll_bottom_margin t ≤ R;
  wf_values_len : zlen (esc_values t) = FLANTERM_MAX_ESC_VALUES;
  wf_values : Forall (λ v, 0 ≤ v < 2 ^ 32) (esc_values t);
  wf_values_i : 0 ≤ esc_values_i t ≤ FLANTERM_MAX_ESC_VALUES;
  wf_rrr : rrr t = true → esc_values_i t < FLANTERM_MAX_ESC_VALUES;
  wf_unicode : 0 ≤ unicode_remaining t ≤ 3;
  wf_g_select : 0 ≤ g_select t ≤ 2;
  wf_charsets : zlen (charsets t) = 2;
  wf_current_charset : 0 ≤ current_charset t < 2;
  wf_saved_charset : 0 ≤ saved_state_current_charset t < 2;
  wf_saved_x : 0 ≤ saved_cursor_x t < C;
  wf_saved_y : 0 ≤ saved_cursor_y t < R;
  wf_primary : colour_ok (current_primary t);
  wf_bg : colour_ok (current_bg t);
  wf_saved_primary : colour_ok (saved_state_current_primary t);
  wf_saved_bg : colour_ok (saved_state_current_bg t);
}.

Lemma wf_geo t : wf t → geo t.
Proof. intros [? ? ? ? ? ?]. unfold geo. lia. Qed.

(** ** A logic for two runs of the same code *)

(** From a context with [P], the code has the same result with both back ends,
    ending in a context with [Q]. *)
Definition sim {A} (P : term → Prop) (m1 : M (term * B1) Empty_set A) (m2 : M (term * B2) Empty_set A) (Q : A → term → Prop) : Prop :=
  ∀ t b, P t → inv b → ∃ a t' b', m1 (t, b) = Ok (a, (t', b')) ∧ m2 (t, abs b) = Ok (a, (t', abs b')) ∧ Q a t' ∧ inv b'.

Lemma sim_bind {A A'} P (m1 : M (term * B1) Empty_set A) (m2 : M (term * B2) Empty_set A)
    (k1 : A → M (term * B1) Empty_set A') (k2 : A → M (term * B2) Empty_set A') Q S :
  sim P m1 m2 Q → (∀ a, sim (Q a) (k1 a) (k2 a) S) → sim P (mbind' m1 k1) (mbind' m2 k2) S.
Proof.
  intros Hm Hk t b Ht Hb. destruct (Hm t b Ht Hb) as (a & t1 & b1 & E1 & E2 & Hq & Hb1).
  destruct (Hk a t1 b1 Hq Hb1) as (a' & t2 & b2 & ? & ? & ? & ?). exists a', t2, b2.
  by rewrite (mbind_ok _ _ _ _ _ E1), (mbind_ok _ _ _ _ _ E2).
Qed.

Lemma sim_weaken {A} (P P' : term → Prop) m1 m2 (Q Q' : A → term → Prop) :
  sim P' m1 m2 Q' → (∀ t, P t → P' t) → (∀ a t, Q' a t → Q a t) → sim P m1 m2 Q.
Proof. intros Hm HP HQ t b Ht Hb. destruct (Hm t b (HP t Ht) Hb) as (a & t1 & b1 & ? & ? & ? & ?). exists a, t1, b1. auto. Qed.

Lemma sim_ret {A} (P : term → Prop) (a : A) (Q : A → term → Prop) : (∀ t, P t → Q a t) → sim P (mret a) (mret a) Q.
Proof. intros HQ t b Ht Hb. exists a, t, b. auto. Qed.

Lemma sim_get {A} (P : term → Prop) (f : term → A) : sim P (get f) (get f) (λ a t, P t ∧ a = f t).
Proof. intros t b Ht Hb. by exists (f t), t, b. Qed.

Lemma sim_upd (P : term → Prop) f (Q : unit → term → Prop) : (∀ t, P t → Q tt (f t)) → sim P (upd f) (upd f) Q.
Proof. intros HQ t b Ht Hb. exists tt, (f t), b. auto. Qed.

Lemma sim_call (P : term → Prop) (f1 : term → B1 → ub B1) (f2 : term → B2 → ub B2) :
  (∀ t, P t → sim_op (f1 t) (f2 t)) → sim P (call f1) (call f2) (λ _, P).
Proof.
  intros Hf t b Ht Hb. destruct (Hf t Ht b Hb) as (b' & E1 & E2 & Hb'). exists tt, t, b'. unfold call. simpl. by rewrite E1, E2.
Qed.

Lemma sim_lift {A} (P : term → Prop) (r : ub A) (a : A) : r = Ok a → sim P (mlift r) (mlift r) (λ x t, P t ∧ x = a).
Proof. intros -> t b Ht Hb. by exists a, t, b. Qed.

Lemma sim_exists {A} P (m1 : M (term * B1) Empty_set A) m2 Q : (∀ t0, P t0 → sim (eq t0) m1 m2 Q) → sim P m1 m2 Q.
Proof. intros Hm t b Ht Hb. by apply (Hm t Ht t b). Qed.

Lemma sim_pure {A} (P : term → Prop) (φ : Prop) (m1 : M (term * B1) Empty_set A) m2 Q :
  (φ → sim P m1 m2 Q) → sim (λ t, P t ∧ φ) m1 m2 Q.
Proof. intros Hm t b [Ht Hφ] Hb. by apply (Hm Hφ). Qed.

Lemma sim_for P n i b1 b2 : (∀ j, i ≤ j < i + Z.of_nat n → sim P (b1 j) (b2 j) (λ _, P)) →
  sim P (for_loop n i b1) (for_loop n i b2) (λ _, P).
Proof.
  revert i. induction n as [|n IH]; intros i Hb; [by apply sim_ret|]. cbn [for_loop].
  eapply sim_bind; [apply Hb; lia|]. intros []. apply IH. intros j Hj. apply Hb. lia.
Qed.

Lemma sim_for_break P n i b1 b2 : (∀ j, i ≤ j < i + Z.of_nat n → sim P (b1 j) (b2 j) (λ _, P)) →
  sim P (for_break n i b1) (for_break n i b2) (λ _, P).
Proof.
  revert i. induction n as [|n IH]; intros i Hb; [by apply sim_ret|]. cbn [for_break].
  eapply sim_bind; [apply Hb; lia|]. intros [|]; [by apply sim_ret|]. apply IH. intros j Hj. apply Hb. lia.
Qed.

Lemma sim_down P n i x b1 b2 : 0 ≤ x ≤ i → i < 2 ^ 63 → i - x < Z.of_nat n → (∀ j, x ≤ j ≤ i → sim P (b1 j) (b2 j) (λ _, P)) →
  sim P (for_down n i x b1) (for_down n i x b2) (λ _, P).
Proof.
  revert i. induction n as [|n IH]; intros i Hx Hi Hn Hb; [lia|]. cbn [for_down].
  eapply sim_bind; [apply Hb; lia|]. intros []. destruct (Z.eqb_spec i x); [by apply sim_ret|].
  unfold wrap. rewrite Z.mod_small by lia. apply IH; [lia..|]. intros j Hj. apply Hb. lia.
Qed.

Lemma sim_range P lo hi b1 b2 : (∀ j, lo ≤ j < hi → sim P (b1 j) (b2 j) (λ _, P)) → sim P (for_range lo hi b1) (for_range lo hi b2) (λ _, P).
Proof. intros Hb. apply sim_for. intros j Hj. apply Hb. lia. Qed.

(** ** Running the code from a known context *)

Section steps.
Context {A A' : Type}.
Context (k1 : A → M (term * B1) Empty_set A') (k2 : A → M (term * B2) Empty_set A') (Q : A' → term → Prop).

Lemma s_get t (f : term → A) : sim (eq t) (k1 (f t)) (k2 (f t)) Q → sim (eq t) (mbind' (get f) k1) (mbind' (get f) k2) Q.
Proof. intros Hk. eapply sim_bind; [apply sim_get|]. intros a t' b [<- ->] Hb. by apply Hk. Qed.

Lemma s_ret t (a : A) : sim (eq t) (k1 a) (k2 a) Q → sim (eq t) (mbind' (mret a) k1) (mbind' (mret a) k2) Q.
Proof. done. Qed.

Lemma s_lift t (r : ub A) a : r = Ok a → sim (eq t) (k1 a) (k2 a) Q → sim (eq t) (mbind' (mlift r) k1) (mbind' (mlift r) k2) Q.
Proof. by intros ->. Qed.

(** A call of code that is known to keep the invariant. *)
Lemma s_sub t (m1 : M (term * B1) Empty_set A) m2 (ψ : A → term → Prop) :
  wf t → sim wf m1 m2 ψ → (∀ a t', ψ a t' → sim (eq t') (k1 a) (k2 a) Q) → sim (eq t) (mbind' m1 k1) (mbind' m2 k2) Q.
Proof.
  intros Ht Hm Hk. eapply sim_bind; [eapply sim_weaken; [exact Hm|by intros t' <-|done]|].
  intros a t' b Hψ Hb. by apply (Hk a t' Hψ t' b).
Qed.
End steps.

Section unit_steps.
Context {A' : Type}.
Context (k1 : unit → M (term * B1) Empty_set A') (k2 : unit → M (term * B2) Empty_set A') (Q : A' → term → Prop).

Lemma s_upd t f : sim (eq (f t)) (k1 tt) (k2 tt) Q → sim (eq t) (mbind' (upd f) k1) (mbind' (upd f) k2) Q.
Proof. intros Hk. eapply sim_bind; [apply (sim_upd _ _ (λ _, eq (f t))); by intros t' <-|]. by intros []. Qed.

Lemma s_call t (f1 : term → B1 → ub B1) (f2 : term → B2 → ub B2) :
  sim_op (f1 t) (f2 t) → sim (eq t) (k1 tt) (k2 tt) Q → sim (eq t) (mbind' (call f1) k1) (mbind' (call f2) k2) Q.
Proof. intros Hf Hk. eapply sim_bind; [apply sim_call; by intros t' <-|]. by intros []. Qed.

Lemma s_range t lo hi b1 b2 : (∀ j, lo ≤ j < hi → sim (eq t) (b1 j) (b2 j) (λ _, eq t)) → sim (eq t) (k1 tt) (k2 tt) Q →
  sim (eq t) (mbind' (for_range lo hi b1) k1) (mbind' (for_range lo hi b2) k2) Q.
Proof. intros Hb Hk. eapply sim_bind; [by apply sim_range|]. by intros []. Qed.
End unit_steps.

Lemma s_assoc {A A' A''} t (m1 : M (term * B1) Empty_set A) (f1 : A → M (term * B1) Empty_set A') (k1 : A' → M (term * B1) Empty_set A'')
    (m2 : M (term * B2) Empty_set A) (f2 : A → M (term * B2) Empty_set A') (k2 : A' → M (term * B2) Empty_set A'') Q :
  sim (eq t) (mbind' m1 (λ a, mbind' (f1 a) k1)) (mbind' m2 (λ a, mbind' (f2 a) k2)) Q →
  sim (eq t) (mbind' (mbind' m1 f1) k1) (mbind' (mbind' m2 f2) k2) Q.
Proof.
  intros Hm t' b Ht Hb. destruct (Hm t' b Ht Hb) as (a & t1 & b1 & E1 & E2 & Hq). exists a, t1, b1. revert E1 E2. unfold mbind'.
  by destruct (m1 (t', b)) as [[? ?]|[? ?]|], (m2 (t', abs b)) as [[? ?]|[? ?]|].
Qed.

Lemma sim_tail {A} P (m1 : M (term * B1) Empty_set A) m2 Q : sim P (mbind' m1 mret) (mbind' m2 mret) Q → sim P m1 m2 Q.
Proof.
  intros Hm t b Ht Hb. destruct (Hm t b Ht Hb) as (a & t' & b' & E1 & E2 & Hq). exists a, t', b'. revert E1 E2. unfold mbind', mret.
  destruct (m1 (t, b)) as [[? ?]|[? ?]|]; [|done..]. destruct (m2 (t, abs b)) as [[? ?]|[? ?]|]; [|done..]. by intros [= -> ->] [= -> ->].
Qed.

Lemma sim_end {A} t (a : A) (Q : A → term → Prop) : Q a t → sim (eq t) (mret a) (mret a) Q.
Proof. intros HQ. apply sim_ret. by intros t' <-. Qed.

Lemma sim_wf {A} (m1 : M (term * B1) Empty_set A) m2 Q : (∀ t, wf t → sim (eq t) m1 m2 Q) → sim wf m1 m2 Q.
Proof. apply sim_exists. Qed.

(** The values of a control sequence. *)
Lemma zat_in (l : list Z) i v : zat l i = Some v → v ∈ l.
Proof. unfold zat. destruct (i <? 0); [done|]. apply list_elem_of_lookup_2. Qed.

Lemma wf_value t i : wf t → 0 ≤ i < FLANTERM_MAX_ESC_VALUES → ∃ v, zat (esc_values t) i = Some v ∧ 0 ≤ v < 2 ^ 32.
Proof.
  intros Ht Hi. destruct (zat_is_Some (esc_values t) i) as [v Hv]; [by rewrite (wf_values_len t Ht)|]. exists v. split; [done|].
  pose proof (wf_values t Ht) as Hf. rewrite Forall_forall in Hf. by eapply Hf, zat_in.
Qed.

Lemma sim_ev i : 0 ≤ i < FLANTERM_MAX_ESC_VALUES → sim wf (ev i) (ev i) (λ v t, wf t ∧ 0 ≤ v < 2 ^ 32 ∧ zat (esc_values t) i = Some v).
Proof.
  intros Hi. apply sim_wf. intros t Ht. destruct (wf_value t i Ht Hi) as (v & Hv & Hr). unfold ev. apply s_get. apply sim_tail.
  eapply s_lift; [by rewrite Hv|]. by apply sim_end.
Qed.

Lemma wf_set_value t i v : wf t → 0 ≤ v < 2 ^ 32 → wf (with_esc_values (<[i := v]> (esc_values t)) t).
Proof.
  intros [] Hv. constructor; cbn; try done; [unfold zlen in *; by rewrite length_insert|by apply Forall_insert].
Qed.

Lemma zat_insert (l : list Z) i v : 0 ≤ i < zlen l → zat (<[Z.to_nat i := v]> l) i = Some v.
Proof. intros Hi. unfold zat, zlen in *. destruct (Z.ltb_spec i 0); [lia|]. apply list_lookup_insert_eq. lia. Qed.

Lemma sim_set_ev i v : 0 ≤ i < FLANTERM_MAX_ESC_VALUES → 0 ≤ v < 2 ^ 32 →
  sim wf (set_ev i v) (set_ev i v) (λ _ t, wf t ∧ zat (esc_values t) i = Some v).
Proof.
  intros Hi Hv. apply sim_wf. intros t Ht. unfold set_ev. apply s_get. rewrite (wf_values_len t Ht).
  rewrite (proj2 (Z.leb_le 0 i)), (proj2 (Z.ltb_lt i _)) by lia. cbn [andb]. apply sim_upd. intros t' <-. split; [by apply wf_set_value|].
  apply zat_insert. by rewrite (wf_values_len t Ht).
Qed.

Lemma s_set_ev_at {A'} t i v (k1 : unit → M (term * B1) Empty_set A') (k2 : unit → M (term * B2) Empty_set A') Q :
  wf t → 0 ≤ i < FLANTERM_MAX_ESC_VALUES → sim (eq (with_esc_values (<[Z.to_nat i := v]> (esc_values t)) t)) (k1 tt) (k2 tt) Q →
  sim (eq t) (mbind' (set_ev i v) k1) (mbind' (set_ev i v) k2) Q.
Proof.
  intros Ht Hi Hk. apply s_assoc, s_get. rewrite (wf_values_len t Ht). rewrite (proj2 (Z.leb_le 0 i)), (proj2 (Z.ltb_lt i _)) by lia.
  cbn [andb]. by apply s_upd.
Qed.

(** A value that is known. *)
Lemma s_ev_at {A'} t i v (k1 : Z → M (term * B1) Empty_set A') (k2 : Z → M (term * B2) Empty_set A') Q :
  zat (esc_values t) i = Some v → sim (eq t) (k1 v) (k2 v) Q → sim (eq t) (mbind' (ev i) k1) (mbind' (ev i) k2) Q.
Proof. intros Hv Hk t' b <- Hb. unfold ev, mbind', get. simpl. rewrite Hv. by apply Hk. Qed.

(** ** Automation *)

(** The context of a goal satisfies the invariant: the fields it had are as
    before, up to assignments. *)
Ltac wf_done :=
  match goal with
  | Ht : wf ?t |- wf ?t' => first [exact Ht | destruct Ht; constructor; cbn; first [assumption | lia | (left; lia) | (right; reflexivity) | idtac]]
  | Ht : wf ?t |- geo _ => exact (wf_geo t Ht)
  end.

Ltac ranges := unfold wrap, chr in *; cbn in *; try (apply Z.mod_pos_bound; done); try lia.

Ltac unfold_ops :=
  cbv beta delta [raw_putchar clear set_cursor_pos set_text_fg set_text_bg set_text_fg_bright set_text_bg_bright
    set_text_fg_rgb set_text_bg_rgb set_text_fg_default set_text_bg_default set_text_fg_default_bright
    set_text_bg_default_bright move_character scroll revscroll swap_palette double_buffer_flush].

(** A call of the back end. *)
Ltac backend :=
  apply s_call;
  [ first [ apply hom_raw_putchar | apply hom_clear | apply hom_set_cursor_pos | apply hom_set_text_fg_bright | apply hom_set_text_bg_bright
          | apply hom_set_text_fg_rgb | apply hom_set_text_bg_rgb | apply hom_set_text_fg_default_bright | apply hom_set_text_bg_default_bright
          | apply hom_set_text_fg_default | apply hom_set_text_bg_default | apply hom_set_text_fg | apply hom_set_text_bg
          | apply hom_move_character | apply hom_scroll | apply hom_revscroll | apply hom_swap_palette | apply hom_save_state
          | apply hom_restore_state | apply hom_double_buffer_flush ]; try wf_done; try ranges
  | ].

Ltac split_result Hs := lazymatch type of Hs with _ ∧ _ => destruct Hs as [? Hs]; split_result Hs | _ => idtac end.

Create HintDb simdb.

(** One step of the code. *)
Ltac ss :=
  lazymatch goal with
  | |- sim (eq _) (mret _) _ _ => apply sim_end
  | |- sim (eq _) (mbind' (get _) _) _ _ => apply s_get; cbv beta
  | |- sim (eq _) (mbind' (mret _) _) _ _ => apply s_ret; cbv beta
  | |- sim (eq _) (mbind' (upd _) _) _ _ => apply s_upd; cbv beta
  | |- sim (eq _) (mbind' (call _) _) _ _ => backend
  | |- sim (eq _) (mbind' (mbind' _ _) _) _ _ => apply s_assoc
  | |- sim (eq _) (mbind' (if ?b then _ else _) _) _ _ => destruct b eqn:?
  | |- sim (eq _) (if ?b then _ else _) _ _ => destruct b eqn:?
  | |- sim (eq _) (mbind' _ _) _ _ => eapply s_sub; [wf_done|solve [eauto with simdb]|let Hs := fresh "Hs" in intros ? ? Hs; cbv beta in Hs; split_result Hs]
  | |- sim (eq _) _ _ _ => apply sim_tail
  end.

(** ** Colours *)

(** An index of a colour that is not missing. *)
Lemma colour_index p : colour_ok p → negb (p =? SIZE_MAX) = true → 0 ≤ p < 8.
Proof. intros [?| ->]; [done|]. by rewrite Z.eqb_refl. Qed.

Ltac code := unfold_ops; repeat ss; try wf_done.
Ltac colours :=
  match goal with
  | Hc : negb (current_primary ?t =? SIZE_MAX) = true, Ht : wf ?t |- _ => pose proof (colour_index _ (wf_primary t Ht) Hc)
  | Hc : negb (current_bg ?t =? SIZE_MAX) = true, Ht : wf ?t |- _ => pose proof (colour_index _ (wf_bg t Ht) Hc)
  end.

Lemma sim_sgr_reset : sim wf sgr_reset sgr_reset (λ _, wf).
Proof. apply sim_wf. intros t Ht. unfold sgr_reset. code. Qed.

Lemma sim_sgr_bold : sim wf sgr_bold sgr_bold (λ _, wf).
Proof. apply sim_wf. intros t Ht. pose proof (colour_index _ (wf_primary t Ht)). unfold sgr_bold. code; cbn in *; auto. Qed.
Lemma sim_sgr_bg_bold : sim wf sgr_bg_bold sgr_bg_bold (λ _, wf).
Proof. apply sim_wf. intros t Ht. pose proof (colour_index _ (wf_bg t Ht)). unfold sgr_bg_bold. code; cbn in *; auto. Qed.
Lemma sim_sgr_not_bold : sim wf sgr_not_bold sgr_not_bold (λ _, wf).
Proof. apply sim_wf. intros t Ht. pose proof (colour_index _ (wf_primary t Ht)). unfold sgr_not_bold. code; cbn in *; auto. Qed.
Lemma sim_sgr_not_bg_bold : sim wf sgr_not_bg_bold sgr_not_bg_bold (λ _, wf).
Proof. apply sim_wf. intros t Ht. pose proof (colour_index _ (wf_bg t Ht)). unfold sgr_not_bg_bold. code; cbn in *; auto. Qed.

Lemma sim_sgr_set v : 0 ≤ v < 8 → sim wf (sgr_set_fg v) (sgr_set_fg v) (λ _, wf) ∧ sim wf (sgr_set_bg v) (sgr_set_bg v) (λ _, wf).
Proof. intros Hv. split; apply sim_wf; intros t Ht; unfold sgr_set_fg, sgr_set_bg; code. Qed.
Lemma sim_sgr_set_fg v : 0 ≤ v < 8 → sim wf (sgr_set_fg v) (sgr_set_fg v) (λ _, wf).
Proof. apply sim_sgr_set. Qed.
Lemma sim_sgr_set_bg v : 0 ≤ v < 8 → sim wf (sgr_set_bg v) (sgr_set_bg v) (λ _, wf).
Proof. apply sim_sgr_set. Qed.
Hint Resolve sim_sgr_reset sim_sgr_bold sim_sgr_bg_bold sim_sgr_not_bold sim_sgr_not_bg_bold sim_sgr_set_fg sim_sgr_set_bg : simdb.
Hint Resolve sim_ev sim_set_ev : simdb.
Hint Extern 3 (_ ≤ _ < _) => (unfold FLANTERM_MAX_ESC_VALUES in *; lia) : simdb.
Hint Extern 3 (_ ≤ _) => lia : simdb.

Lemma sim_sgr_primary v : 0 ≤ v < 8 → sim wf (sgr_primary v) (sgr_primary v) (λ _, wf).
Proof. intros Hv. apply sim_wf. intros t Ht. unfold sgr_primary. code. Qed.
Lemma sim_sgr_background v : 0 ≤ v < 8 → sim wf (sgr_background v) (sgr_background v) (λ _, wf).
Proof. intros Hv. apply sim_wf. intros t Ht. unfold sgr_background. code. Qed.
Lemma sim_sgr_primary_bright v : 0 ≤ v < 8 → sim wf (sgr_primary_bright v) (sgr_primary_bright v) (λ _, wf).
Proof. intros Hv. apply sim_wf. intros t Ht. unfold sgr_primary_bright. code. Qed.
Lemma sim_sgr_background_bright v : 0 ≤ v < 8 → sim wf (sgr_background_bright v) (sgr_background_bright v) (λ _, wf).
Proof. intros Hv. apply sim_wf. intros t Ht. unfold sgr_background_bright. code. Qed.
Lemma sim_sgr_default_fg : sim wf sgr_default_fg sgr_default_fg (λ _, wf).
Proof. apply sim_wf. intros t Ht. unfold sgr_default_fg. code. Qed.
Lemma sim_sgr_default_bg : sim wf sgr_default_bg sgr_default_bg (λ _, wf).
Proof. apply sim_wf. intros t Ht. unfold sgr_default_bg. code. Qed.
Lemma sim_sgr_reverse on : sim wf (sgr_reverse on) (sgr_reverse on) (λ _, wf).
Proof. apply sim_wf. intros t Ht. unfold sgr_reverse. code. Qed.
Hint Resolve sim_sgr_primary sim_sgr_background sim_sgr_primary_bright sim_sgr_background_bright sim_sgr_default_fg sim_sgr_default_bg sim_sgr_reverse : simdb.

Lemma sim_sgr_one v : 0 ≤ v → sim wf (sgr_one v) (sgr_one v) (λ _, wf).
Proof.
  intros Hv. apply sim_wf. intros t Ht. unfold sgr_one.
  repeat match goal with
  | |- sim _ (if ?b && ?c then _ else _) _ _ => destruct (b && c) eqn:Eb; [apply andb_true_iff in Eb as [?%Z.leb_le ?%Z.leb_le]; code|]
  | |- sim _ (if ?b then _ else _) _ _ => destruct b; [by code|]
  end. code.
Qed.

Lemma sim_sgr_rgb fg r g b : sim wf (sgr_rgb fg r g b) (sgr_rgb fg r g b) (λ _, wf).
Proof. apply sim_wf. intros t Ht. unfold sgr_rgb. code. Qed.

Lemma sim_sgr_256 fg col : 0 ≤ col → sim wf (sgr_256 fg col) (sgr_256 fg col) (λ _, wf).
Proof.
  intros Hc. apply sim_wf. intros t Ht. unfold sgr_256. destruct (Z.ltb_spec col 8); [by code|]. destruct (Z.ltb_spec col 16); [by code|].
  destruct (Z.ltb_spec col 256); [|by code]. destruct (zat_is_Some col256 (col - 16)) as [v Hv]; [change (zlen col256) with 240; lia|].
  eapply s_lift; [by rewrite Hv|]. code.
Qed.
Hint Resolve sim_sgr_one sim_sgr_rgb sim_sgr_256 : simdb.

Lemma sim_sgr_loop fuel i : 0 ≤ i → sim wf (sgr_loop fuel i) (sgr_loop fuel i) (λ _, wf).
Proof.
  revert i. induction fuel as [|fuel IH]; intros i Hi; cbn [sgr_loop]; apply sim_wf; intros t Ht; [by code|].
  pose proof (wf_values_i t Ht) as Hn. apply s_get. destruct (Z.ltb_spec i (esc_values_i t)); [|by code]. ss. destruct (_ || _).
  - destruct (Z.leb_spec (esc_values_i t) (i + 1)); [by code|]. ss. destruct (_ =? 2); [|destruct (_ =? 5)].
    + destruct (Z.leb_spec (esc_values_i t) (i + 1 + 3)); [by code|]. do 4 ss. eapply sim_weaken; [apply (IH (i + 1 + 3 + 1)); lia|by intros ? <-|done].
    + destruct (Z.leb_spec (esc_values_i t) (i + 1 + 1)); [by code|]. do 2 ss. eapply sim_weaken; [apply (IH (i + 1 + 1 + 1)); lia|by intros ? <-|done].
    + eapply sim_weaken; [apply (IH (i + 1 + 1)); lia|by intros ? <-|done].
  - ss. eapply sim_weaken; [apply (IH (i + 1)); lia|by intros ? <-|done].
Qed.
Hint Resolve sim_sgr_loop : simdb.

Lemma sim_sgr : sim wf sgr sgr (λ _, wf).
Proof. apply sim_wf. intros t Ht. unfold sgr. code. Qed.
Hint Resolve sim_sgr : simdb.

(** ** Control sequences *)

Lemma sim_notify e : sim wf (notify e) (notify e) (λ _, wf).
Proof. apply sim_wf. intros t Ht. unfold notify. code. Qed.
Hint Resolve sim_notify : simdb.

Lemma sim_dec_private_parse c : sim wf (dec_private_parse c) (dec_private_parse c) (λ _, wf).
Proof. apply sim_wf. intros t Ht. unfold dec_private_parse. do 3 ss; [by code|]. destruct (set_or_reset c); code. Qed.
Lemma sim_linux_private_parse : sim wf linux_private_parse linux_private_parse (λ _, wf).
Proof. apply sim_wf. intros t Ht. unfold linux_private_parse. code. Qed.
Lemma sim_mode_toggle c : sim wf (mode_toggle c) (mode_toggle c) (λ _, wf).
Proof. apply sim_wf. intros t Ht. unfold mode_toggle. do 2 ss; [by code|]. destruct (set_or_reset c); code. Qed.
Lemma sim_osc_parse c : sim wf (osc_parse c) (osc_parse c) (λ _, wf).
Proof. apply sim_wf. intros t Ht. unfold osc_parse. code. Qed.
Hint Resolve sim_dec_private_parse sim_linux_private_parse sim_mode_toggle sim_osc_parse : simdb.

(** Positions on the screen. *)
Lemma sim_cursor : sim wf get_cursor_pos get_cursor_pos (λ p t, wf t ∧ 0 ≤ p.1 < C ∧ 0 ≤ p.2 < R).
Proof.
  intros t b Ht Hb. destruct (hom_get_cursor_pos t b (wf_geo t Ht) Hb) as (E & Hx & Hy). exists (b_get_cursor_pos t b), t, b.
  unfold get_cursor_pos. simpl. by rewrite E.
Qed.
Hint Resolve sim_cursor : simdb.

Lemma u32_range z : 0 ≤ u32 z < 2 ^ 32.
Proof. by apply Z.mod_pos_bound. Qed.
Hint Resolve u32_range : simdb.

(** Arguments of the back end are sizes. *)
Ltac sizes :=
  lazymatch goal with
  | |- context [if ?b then _ else _] => destruct b; sizes
  | |- 0 ≤ _ mod _ < _ => by apply Z.mod_pos_bound
  | |- 0 ≤ wrap _ _ < _ => by apply Z.mod_pos_bound
  | |- 0 ≤ _ < _ =>
      repeat match goal with Ht : wf ?t |- _ => pose proof (wf_top t Ht); pose proof (wf_margins t Ht); pose proof (wf_bottom t Ht);
        pose proof (wf_saved_x t Ht); pose proof (wf_saved_y t Ht); clear Ht end; lia
  | _ => idtac
  end.
Ltac csi := code; sizes.

Lemma sim_csi_up x y : 0 ≤ x < C → sim wf (csi_up x y) (csi_up x y) (λ _, wf).
Proof. intros Hx. apply sim_wf. intros t Ht. unfold csi_up. csi. Qed.
Lemma sim_csi_down x y : 0 ≤ x < C → sim wf (csi_down x y) (csi_down x y) (λ _, wf).
Proof. intros Hx. apply sim_wf. intros t Ht. unfold csi_down. csi. Qed.
Lemma sim_csi_right x y : 0 ≤ y < R → sim wf (csi_right x y) (csi_right x y) (λ _, wf).
Proof. intros Hx. apply sim_wf. intros t Ht. unfold csi_right. csi. Qed.
Lemma sim_csi_left x y : 0 ≤ y < R → sim wf (csi_left x y) (csi_left x y) (λ _, wf).
Proof. intros Hx. apply sim_wf. intros t Ht. unfold csi_left. csi. Qed.
Lemma sim_csi_absolute limit : sim wf (csi_absolute limit) (csi_absolute limit) (λ v t, wf t ∧ 0 ≤ v < 2 ^ 32).
Proof. apply sim_wf. intros t Ht. unfold csi_absolute. csi; done. Qed.
Hint Resolve sim_csi_up sim_csi_down sim_csi_right sim_csi_left sim_csi_absolute : simdb.
Lemma sim_csi_row x : 0 ≤ x < C → sim wf (csi_row x) (csi_row x) (λ _, wf).
Proof. intros Hx. apply sim_wf. intros t Ht. unfold csi_row. csi. Qed.
Lemma sim_csi_column y : 0 ≤ y < R → sim wf (csi_column y) (csi_column y) (λ _, wf).
Proof. intros Hx. apply sim_wf. intros t Ht. unfold csi_column. csi. Qed.
Lemma sim_csi_position : sim wf csi_position csi_position (λ _, wf).
Proof. apply sim_wf. intros t Ht. unfold csi_position. csi. Qed.
Lemma sim_csi_count limit : sim wf (csi_count limit) (csi_count limit) (λ _, wf).
Proof. apply sim_wf. intros t Ht. unfold csi_count. csi. Qed.
Lemma sim_csi_report x y : sim wf (csi_report x y) (csi_report x y) (λ _, wf).
Proof. apply sim_wf. intros t Ht. unfold csi_report. csi. Qed.
Lemma sim_csi_leds : sim wf csi_leds csi_leds (λ _, wf).
Proof. apply sim_wf. intros t Ht. unfold csi_leds. csi. Qed.
Hint Resolve sim_csi_row sim_csi_column sim_csi_position sim_csi_count sim_csi_report sim_csi_leds : simdb.

(** Repeated calls of the back end. *)
Lemma sim_repeat lo hi m1 m2 : sim wf m1 m2 (λ _, wf) → sim wf (for_range lo hi (λ _, m1)) (for_range lo hi (λ _, m2)) (λ _, wf).
Proof. intros Hm. apply sim_range. auto. Qed.
Lemma sim_scroll : sim wf scroll scroll (λ _, wf).
Proof. apply sim_wf. intros t Ht. csi. Qed.
Lemma sim_put c : 0 ≤ c < 256 → sim wf (raw_putchar c) (raw_putchar c) (λ _, wf).
Proof. intros Hc. apply sim_wf. intros t Ht. csi. Qed.
Lemma sim_blank : sim wf (raw_putchar (chr " ")) (raw_putchar (chr " ")) (λ _, wf).
Proof. by apply sim_put. Qed.
Lemma sim_pos x y : is_size x → is_size y → sim wf (set_cursor_pos x y) (set_cursor_pos x y) (λ _, wf).
Proof. intros Hx Hy. apply sim_wf. intros t Ht. csi. Qed.
Hint Resolve sim_repeat sim_scroll sim_put sim_blank sim_pos : simdb.

Lemma sim_csi_delete_lines : sim wf csi_delete_lines csi_delete_lines (λ _, wf).
Proof. apply sim_wf. intros t Ht. unfold csi_delete_lines. do 5 ss. done. Qed.

Ltac next := let Hs := fresh "Hs" in intros ? ? Hs; cbv beta in Hs; split_result Hs; csi.

Lemma sim_csi_insert_lines y : 0 ≤ y < R → sim wf (csi_insert_lines y) (csi_insert_lines y) (λ _, wf).
Proof.
  intros Hy. apply sim_wf. intros t Ht. unfold csi_insert_lines. do 3 ss.
  destruct (wf_value t 0 Ht) as (v & Hv & Hr); [done|]. unfold csi_count, ev. apply s_assoc, s_assoc. ss.
  change (esc_values (with_scroll_top_margin y t)) with (esc_values t). rewrite Hv. eapply s_lift; [done|]. ss.
  apply s_range.
  - intros j Hj. apply sim_call. intros t' <-. apply hom_revscroll. destruct Ht. unfold geo. cbn. lia.
  - ss. ss. ss. wf_done.
Qed.

Lemma sim_erase_below x y : 0 ≤ x < C → 0 ≤ y < R → sim wf (erase_below x y) (erase_below x y) (λ _, wf).
Proof. intros Hx Hy. apply sim_wf. intros t Ht. unfold erase_below. do 3 ss. csi. Qed.

Lemma sim_erase_above x y : 0 ≤ x < C → 0 ≤ y < R → sim wf (erase_above x y) (erase_above x y) (λ _, wf).
Proof.
  intros Hx Hy. apply sim_wf. intros t Ht. unfold erase_above. do 3 ss. eapply s_sub; [wf_done|apply sim_for_break|next].
  intros yc _. apply sim_for_break. intros xc _. apply sim_wf. intros t1 Ht1. csi.
Qed.
Hint Resolve sim_csi_delete_lines sim_csi_insert_lines sim_erase_below sim_erase_above : simdb.

Lemma sim_csi_erase_display x y : 0 ≤ x < C → 0 ≤ y < R → sim wf (csi_erase_display x y) (csi_erase_display x y) (λ _, wf).
Proof. intros Hx Hy. apply sim_wf. intros t Ht. unfold csi_erase_display. csi. Qed.

Lemma sim_move a b c d : is_size a → is_size b → is_size c → is_size d → sim wf (move_character a b c d) (move_character a b c d) (λ _, wf).
Proof. intros. apply sim_wf. intros t Ht. csi. Qed.
Lemma sz_range z : is_size (sz z).
Proof. by apply Z.mod_pos_bound. Qed.
Hint Resolve sim_move sz_range : simdb.

(** The loops from the last column to the cursor. *)
Lemma sim_from_end x b1 b2 : 0 ≤ x < C → (∀ i, 0 ≤ i < C → sim wf (b1 i) (b2 i) (λ _, wf)) →
  sim wf (for_down (Z.to_nat C) (sz (C - 1)) x b1) (for_down (Z.to_nat C) (sz (C - 1)) x b2) (λ _, wf).
Proof. intros Hx Hb. unfold wrap. rewrite Z.mod_small by lia. apply sim_down; [lia..|]. intros j Hj. apply Hb. lia. Qed.

Lemma sim_csi_insert_chars x y : 0 ≤ x < C → 0 ≤ y < R → sim wf (csi_insert_chars x y) (csi_insert_chars x y) (λ _, wf).
Proof.
  intros Hx Hy. apply sim_wf. intros t Ht. unfold csi_insert_chars. ss. rewrite (wf_cols t Ht).
  eapply s_sub; [done|apply sim_from_end; [done|]|next]. intros i Hi. apply sim_wf. intros t1 Ht1. csi.
Qed.
Lemma sim_csi_erase_chars x y : 0 ≤ x < C → 0 ≤ y < R → sim wf (csi_erase_chars x y) (csi_erase_chars x y) (λ _, wf).
Proof. intros Hx Hy. apply sim_wf. intros t Ht. unfold csi_erase_chars. csi. Qed.
Hint Resolve sim_csi_erase_chars : simdb.
Lemma sim_csi_delete_chars x y : 0 ≤ x < C → 0 ≤ y < R → sim wf (csi_delete_chars x y) (csi_delete_chars x y) (λ _, wf).
Proof.
  intros Hx Hy. apply sim_wf. intros t Ht. unfold csi_delete_chars. ss. ss. rewrite (wf_cols t Ht).
  eapply s_sub; [done|apply sim_range|next]. intros i Hi. apply sim_wf. intros t1 Ht1. unfold wrap in Hi.
  pose proof (Z.mod_pos_bound (x + a) (2 ^ 64) ltac:(done)). csi.
Qed.
Lemma sim_csi_save_cursor : sim wf csi_save_cursor csi_save_cursor (λ _, wf).
Proof. apply sim_wf. intros t Ht. unfold csi_save_cursor. csi. Qed.
Lemma sim_csi_restore_cursor : sim wf csi_restore_cursor csi_restore_cursor (λ _, wf).
Proof. apply sim_wf. intros t Ht. unfold csi_restore_cursor. csi. Qed.
Lemma sim_csi_erase_line x y : 0 ≤ x < C → 0 ≤ y < R → sim wf (csi_erase_line x y) (csi_erase_line x y) (λ _, wf).
Proof. intros Hx Hy. apply sim_wf. intros t Ht. unfold csi_erase_line. csi. Qed.

(** The margins are on the screen, whatever the values are. *)
Definition wf_but_margins (t : term) : Prop :=
  wf (with_scroll_bottom_margin R (with_scroll_top_margin 0 t)) ∧ 0 ≤ scroll_top_margin t ∧ 1 ≤ scroll_bottom_margin t.

Lemma sim_check_margins : sim wf_but_margins check_margins check_margins (λ _, wf).
Proof.
  apply sim_exists. intros t (Ht & Htop & Hbot). pose proof (wf_rows _ Ht) as Hr. cbn in Hr. unfold check_margins. do 3 ss.
  assert (Hreset : wf (with_scroll_bottom_margin (rows t) (with_scroll_top_margin 0 t))) by (rewrite Hr; exact Ht).
  destruct ((rows t <=? scroll_top_margin t) || _ || _) eqn:E; [do 4 ss; exact Hreset|]. ss.
  apply orb_false_iff in E as [[?%Z.leb_gt ?%Z.ltb_ge]%orb_false_iff Hw%Z.leb_gt]. unfold wrap in Hw. rewrite Z.mod_small in Hw by lia.
  destruct Ht. constructor; try done. all: lia.
Qed.

(** A value of at least one. *)
Lemma sim_at_least_one i v : 0 ≤ i < FLANTERM_MAX_ESC_VALUES → 0 ≤ v →
  sim (λ t, wf t ∧ zat (esc_values t) i = Some v) (if v =? 0 then set_ev i 1 else mret tt) (if v =? 0 then set_ev i 1 else mret tt)
    (λ _ t, wf t ∧ ∃ v, zat (esc_values t) i = Some v ∧ 1 ≤ v).
Proof.
  intros Hi Hv. destruct (Z.eqb_spec v 0).
  - eapply sim_weaken; [by apply sim_set_ev|by intros ? []|]. intros _ t [? ?]. eauto with lia.
  - apply sim_ret. intros t [? ?]. eauto with lia.
Qed.

Lemma sim_csi_margins : sim wf csi_margins csi_margins (λ _, wf).
Proof.
  unfold csi_margins. eapply sim_bind; [by apply sim_ev|]. intros v. apply sim_exists. intros t (Ht & Hv & Ev).
  eapply sim_bind; [eapply sim_weaken; [apply (sim_at_least_one 0 v); [done|lia]|by intros ? <-|done]|]. intros [].
  apply sim_exists. intros t1 (Ht1 & _). ss.
  eapply sim_bind; [eapply sim_weaken; [apply (sim_at_least_one 1 a); [done|lia]|by intros ? <-|done]|]. intros [].
  apply sim_exists. intros t2 (Ht2 & w & Hw & Hw1). destruct (wf_value t2 0 Ht2) as (u & Hu & _); [done|]. pose proof (wf_rows t2 Ht2) as Er.
  pose proof (u32_range (u - 1)). do 4 ss. apply (s_ev_at _ _ u); [exact Hu|]. rewrite Er.
  ss; ss; (apply (s_ev_at _ _ w); [exact Hw|]); ss; ss; (eapply sim_bind; [eapply sim_weaken; [apply sim_check_margins|intros ? <-|done]|intros []; apply sim_exists; intros t3 Ht3; by csi]).
  all: (split; [destruct Ht2; constructor; try done; cbn; lia|cbn; lia]).
Qed.

Lemma sim_csi_digit c : sim wf (csi_digit c) (csi_digit c) (λ _, wf).
Proof.
  apply sim_wf. intros t Ht. pose proof (wf_values_i t Ht). unfold csi_digit. ss. destruct (Z.eqb_spec (esc_values_i t) FLANTERM_MAX_ESC_VALUES); [by csi|].
  ss. assert (Ht' : wf (with_rrr true t)) by (wf_done; intros; lia). csi.
Qed.
(** One more value is complete. *)
Lemma wf_next_value t : wf t → esc_values_i t < FLANTERM_MAX_ESC_VALUES → wf (with_esc_values_i (sz (esc_values_i t + 1)) (with_rrr false t)).
Proof.
  intros Ht Hi. pose proof (wf_values_i t Ht). destruct Ht. constructor; try done. cbn. unfold wrap, FLANTERM_MAX_ESC_VALUES in *.
  rewrite Z.mod_small; lia.
Qed.

Lemma sim_csi_separator c : sim wf (csi_separator c) (csi_separator c) (λ _, wf).
Proof.
  apply sim_wf. intros t Ht. pose proof (wf_values_i t Ht). unfold csi_separator. ss. ss; [|ss; [|by csi]].
  - do 3 ss. apply wf_next_value; [done|]. by apply wf_rrr.
  - ss. destruct (Z.eqb_spec (esc_values_i t) FLANTERM_MAX_ESC_VALUES); [by csi|]. apply s_set_ev_at; [done|lia|]. do 2 ss.
    pose proof (wf_next_value _ (wf_set_value t (Z.to_nat (esc_values_i t)) 0 Ht ltac:(lia)) ltac:(cbn; lia)) as Hn.
    destruct t; cbn in *. subst. exact Hn.
Qed.
Lemma sim_fill_defaults c : sim wf (fill_defaults c) (fill_defaults c) (λ _, wf).
Proof.
  apply sim_wf. intros t Ht. pose proof (wf_values_i t Ht). unfold fill_defaults. ss. eapply sim_weaken; [apply (sim_range wf)|by intros ? <-|done].
  intros j Hj. eapply sim_weaken; [apply sim_set_ev; [lia|]|done|by intros ? ? []]. destruct (_ || _); lia.
Qed.
Lemma sim_cleanup : sim wf cleanup cleanup (λ _, wf).
Proof. apply sim_wf. intros t Ht. unfold cleanup. csi. Qed.
Hint Resolve sim_csi_erase_display sim_csi_insert_chars sim_csi_delete_chars sim_csi_save_cursor sim_csi_restore_cursor : simdb.
Hint Resolve sim_csi_erase_line sim_csi_margins sim_csi_digit sim_csi_separator sim_fill_defaults sim_cleanup : simdb.

Lemma sim_csi_command c x y : 0 ≤ x < C → 0 ≤ y < R → sim wf (csi_command c x y) (csi_command c x y) (λ _, wf).
Proof.
  intros Hx Hy. apply sim_wf. intros t Ht. unfold csi_command. cbv zeta.
  repeat match goal with |- sim _ (if ?b then _ else _) _ _ => destruct b; [by csi|] end. csi.
Qed.
Hint Resolve sim_csi_command : simdb.

Lemma sim_csi_final c : sim wf (csi_final c) (csi_final c) (λ _, wf).
Proof.
  apply sim_wf. intros t Ht. unfold csi_final. do 3 ss. destruct a as [x y]. simpl in *. ss. csi.
Qed.
Hint Resolve sim_csi_final : simdb.

Lemma sim_control_sequence_parse c : sim wf (control_sequence_parse c) (control_sequence_parse c) (λ _, wf).
Proof. apply sim_wf. intros t Ht. unfold control_sequence_parse. csi. Qed.

(** ** Escape sequences and characters *)

Lemma sim_restore_state : sim wf restore_state restore_state (λ _, wf).
Proof. apply sim_wf. intros t Ht. unfold restore_state. csi. Qed.
Lemma sim_save_state : sim wf save_state save_state (λ _, wf).
Proof. apply sim_wf. intros t Ht. unfold save_state. csi. Qed.
Lemma sim_line_feed x y : 0 ≤ x < C → 0 ≤ y < R → sim wf (line_feed x y) (line_feed x y) (λ _, wf).
Proof. intros Hx Hy. apply sim_wf. intros t Ht. unfold line_feed. csi. Qed.
Lemma sim_reverse_line_feed y : 0 ≤ y < R → sim wf (reverse_line_feed y) (reverse_line_feed y) (λ _, wf).
Proof. intros Hy. apply sim_wf. intros t Ht. unfold reverse_line_feed. csi. Qed.
Lemma sim_start_control_sequence : sim wf start_control_sequence start_control_sequence (λ _, wf).
Proof.
  apply sim_wf. intros t Ht. unfold start_control_sequence. eapply s_sub; [done|apply (sim_range wf)|next].
  intros j Hj. eapply sim_weaken; [apply sim_set_ev; [lia|done]|done|by intros ? ? []].
Qed.
Lemma sim_full_reset : sim wf full_reset full_reset (λ _, wf).
Proof.
  apply sim_wf. intros t Ht. unfold full_reset, flanterm_context_reinit. ss.
  assert (Ht' : wf (reinit t)).
  { destruct Ht. constructor; try done; cbn; try lia; right; done. }
  csi.
Qed.
Hint Resolve sim_restore_state sim_save_state sim_line_feed sim_reverse_line_feed sim_start_control_sequence sim_full_reset sim_control_sequence_parse : simdb.

Lemma sim_escape_command c x y : 0 ≤ x < C → 0 ≤ y < R → sim wf (escape_command c x y) (escape_command c x y) (λ _, wf).
Proof.
  intros Hx Hy. apply sim_wf. intros t Ht. unfold escape_command. cbv zeta.
  repeat match goal with |- sim _ (if (?a || ?b) then _ else _) _ _ => fail 1 | |- sim _ (if ?b then _ else _) _ _ => destruct b; [by csi|] end.
  destruct (Z.eqb_spec c (chr "(")) as [->|]; [code; vm_compute; split; discriminate|]. destruct (Z.eqb_spec c (chr ")")) as [->|]; [code; vm_compute; split; discriminate|]. csi.
Qed.
Hint Resolve sim_escape_command : simdb.

Lemma sim_escape_parse c : sim wf (escape_parse c) (escape_parse c) (λ _, wf).
Proof.
  apply sim_wf. intros t Ht. unfold escape_parse.
  assert (Hosc : ∀ b : bool, sim wf (if b then osc_parse c else mret false) (if b then osc_parse c else mret false) (λ _, wf)).
  { intros b. apply sim_wf. intros t0 Ht0. csi. }
  do 2 ss. eapply s_sub; [wf_done|apply Hosc|]. intros b t1 Ht1. cbv beta in Ht1. ss; [by csi|]. ss. ss; [by csi|]. ss. destruct a as [x y]. simpl in *. csi.
Qed.

Lemma sim_dec_special_print c : sim wf (dec_special_print c) (dec_special_print c) (λ _, wf).
Proof.
  apply sim_wf. intros t Ht. unfold dec_special_print. destruct (list_find _ dec_special) as [[i [u g]]|] eqn:E; [|by csi].
  pose proof (bytes_of_lookup _ _ _ _ (eq_refl : bytes_of dec_special = true) E). csi.
Qed.

Lemma sim_print_code_point cp : sim wf (print_code_point cp) (print_code_point cp) (λ _, wf).
Proof.
  apply sim_wf. intros t Ht. unfold print_code_point. destruct (Z.eqb_spec (unicode_to_cp437 cp) (-1)).
  - destruct (mk_wcwidth_total (u32 cp)) as (w & Ew & Hw). eapply s_lift; [exact Ew|]. csi.
  - destruct (cp437_byte cp); [done|]. csi.
Qed.
Hint Resolve sim_escape_parse sim_dec_special_print sim_print_code_point : simdb.

Lemma sim_continue_unicode c : sim (λ t, wf t ∧ unicode_remaining t ≠ 0) (continue_unicode c) (continue_unicode c) (λ _, wf).
Proof.
  apply sim_exists. intros t [Ht Hn]. pose proof (wf_unicode t Ht). unfold continue_unicode. do 3 ss.
  match goal with |- sim (eq ?t') _ _ _ => assert (Ht' : wf t') end.
  { destruct Ht. constructor; try done. cbn. unfold wrap. rewrite Z.mod_small; lia. }
  csi.
Qed.
Lemma sim_start_unicode c : sim wf (start_unicode c) (start_unicode c) (λ _, wf).
Proof. apply sim_wf. intros t Ht. unfold start_unicode. csi. Qed.

Lemma sim_select_charset c : sim (λ t, wf t ∧ g_select t ≠ 0) (select_charset c) (select_charset c) (λ _, wf).
Proof.
  apply sim_exists. intros t [Ht Hg]. pose proof (wf_g_select t Ht). pose proof (wf_charsets t Ht) as Hl. unfold select_charset. do 4 ss.
  change (charsets (with_g_select (wrap 8 (g_select t - 1)) t)) with (charsets t). rewrite Hl. change (g_select (with_g_select (wrap 8 (g_select t - 1)) t)) with (wrap 8 (g_select t - 1)).
  unfold wrap. rewrite Z.mod_small by lia. rewrite (proj2 (Z.leb_le 0 _)), (proj2 (Z.ltb_lt _ 2)) by lia. cbn [andb]. repeat ss.
  all: destruct Ht; constructor; try done; cbn; try lia. unfold zlen in *. by rewrite length_insert.
Qed.

Lemma sim_tab x y : 0 ≤ x < C → 0 ≤ y < R → sim wf (tab x y) (tab x y) (λ _, wf).
Proof.
  intros Hx Hy. apply sim_wf. intros t Ht. unfold tab. ss. rewrite (wf_tab t Ht). ss. eapply s_lift; [by apply udiv_ok|]. csi.
Qed.
Hint Resolve sim_start_unicode sim_tab : simdb.

Lemma sim_print_char c x y : 0 ≤ c < 256 → 0 ≤ x < C → 0 ≤ y < R → sim wf (print_char c x y) (print_char c x y) (λ _, wf).
Proof.
  intros Hc Hx Hy. apply sim_wf. intros t Ht. unfold print_char.
  assert (Hins : ∀ b : bool, sim wf (if b then for_down (Z.to_nat C) (sz (C - 1)) x (λ i, move_character (sz (i + 1)) y i y) else mret tt)
    (if b then for_down (Z.to_nat C) (sz (C - 1)) x (λ i, move_character (sz (i + 1)) y i y) else mret tt) (λ _, wf)).
  { intros [|]; [|by apply sim_ret]. apply sim_from_end; [done|]. intros i Hi. apply sim_move; sizes. }
  do 2 ss. rewrite (wf_cols t Ht). eapply s_sub; [done|apply Hins|]. intros [] t1 Ht1. cbv beta in Ht1. do 2 ss.
  destruct (zat_is_Some (charsets t1) (current_charset t1)) as [set Es]; [rewrite (wf_charsets t1 Ht1); by apply wf_current_charset|].
  rewrite Es. eapply s_lift; [done|]. csi.
Qed.
Hint Resolve sim_print_char : simdb.

Lemma sim_ground_char c : 0 ≤ c < 256 → sim wf (ground_char c) (ground_char c) (λ _, wf).
Proof.
  intros Hc. apply sim_wf. intros t Ht. unfold ground_char. ss. destruct a as [x y]. simpl in *.
  repeat match goal with |- sim _ (if ?b then _ else _) _ _ => destruct b; [try by csi|] end; [|by csi].
  ss. destruct (_ =? 0); csi.
Qed.
Hint Resolve sim_ground_char : simdb.

Lemma sim_putchar_plain c : 0 ≤ c < 256 → sim wf (putchar_plain c) (putchar_plain c) (λ _, wf).
Proof.
  intros Hc. apply sim_wf. intros t Ht. unfold putchar_plain. ss; [by csi|]. ss. ss; [by csi|]. ss. ss; [|by csi].
  eapply sim_weaken; [apply sim_select_charset|intros ? <-|done]. split; [done|]. intros E. by rewrite E in *.
Qed.
Hint Resolve sim_putchar_plain : simdb.

Lemma sim_putchar c : 0 ≤ c < 256 → sim wf (flanterm_putchar c) (flanterm_putchar c) (λ _, wf).
Proof.
  intros Hc. apply sim_wf. intros t Ht. unfold flanterm_putchar. ss. ss; [by csi|]. ss. ss; [|by csi]. ss; [by csi|].
  eapply sim_weaken; [apply sim_continue_unicode|intros ? <-|done]. split; [done|]. intros E. by rewrite E in *.
Qed.

Lemma sim_putchars buf : Forall (λ c, 0 ≤ c < 256) buf → sim wf (putchars buf) (putchars buf) (λ _, wf).
Proof.
  induction 1 as [|c buf Hc _ IH]; cbn [putchars]; [by apply sim_ret|]. eapply sim_bind; [by apply sim_putchar|]. by intros [].
Qed.
Hint Resolve sim_putchars : simdb.

Lemma sim_write buf : Forall (λ c, 0 ≤ c < 256) buf → sim wf (flanterm_write buf) (flanterm_write buf) (λ _, wf).
Proof. intros Hb. apply sim_wf. intros t Ht. unfold flanterm_write. csi. Qed.
End sim.
