(* ===== verification/FbFont.v ===== *)
(** * The built-in font (flanterm/flanterm-c/src/flanterm_backends/fb.c)

    256 glyphs of 16 rows, one byte for each row. *)

From S2P Require Import Prelude.

(** The rows of a glyph, written as one number. *)
Definition glyph (n : Z) : list Z := (λ i : nat, Z.shiftr n (120 - 8 * Z.of_nat i) mod 256) <$> seq 0 16.

Definition builtin_font : list Z := Eval vm_compute in
  glyph 0x00000000000000000000000000000000 ++
  glyph 0x003c428181a5a58181a59981423c0000 ++
  glyph 0x003c7effffdbdbffffdbe7ff7e3c0000 ++
  glyph 0x0000006cfefefe7c7c38381010000000 ++
  glyph 0x00101038387c7cfe7c7c383810100000 ++
  glyph 0x000000183c3cdbffffdb18183c000000 ++
  glyph 0x000000183c7effffff6618183c000000 ++
  glyph 0x00000000000030787830000000000000 ++
  glyph 0xffffffffffffe7c3c3e7ffffffffffff ++
  glyph 0x000000000078cc8484cc780000000000 ++
  glyph 0xffffffffffc399bdbd99c3ffffffffff ++
  glyph 0x0000001e0e1e3278cccccc7800000000 ++
  glyph 0x00000078cccccc7830fc303000000000 ++
  glyph 0x000010181c1e1612101070f0e0000000 ++
  glyph 0x0030382c26323a2e262262e2c60e0c00 ++
  glyph 0x0000001818db3ce73cdb181800000000 ++
  glyph 0x00000080c0e0f8fef8e0c08000000000 ++
  glyph 0x00000002060e3efe3e0e060200000000 ++
  glyph 0x00003078fc3030303030fc7830000000 ++
  glyph 0x0000cccccccccccccccc00cccc000000 ++
  glyph 0x00007fdbdbdbdb7b1b1b1b1b1b000000 ++
  glyph 0x00007cc660386cc6c66c380cc67c0000 ++
  glyph 0x00000000000000000000fefefe000000 ++
  glyph 0x00003078fc3030303030fc7830fc0000 ++
  glyph 0x00003078fc3030303030303030000000 ++
  glyph 0x00003030303030303030fc7830000000 ++
  glyph 0x0000000000180cfefe0c180000000000 ++
  glyph 0x00000000003060fefe60300000000000 ++
  glyph 0x00000000000000c0c0c0fe0000000000 ++
  glyph 0x00000000002466ffff66240000000000 ++
  glyph 0x00000000101038387c7cfefe00000000 ++
  glyph 0x00000000fefe7c7c3838101000000000 ++
  glyph 0x00000000000000000000000000000000 ++
  glyph 0x00003078787878303030003030000000 ++
  glyph 0x0000cccccccccc000000000000000000 ++
  glyph 0x00006c6c6cfe6c6c6cfe6c6c6c000000 ++
  glyph 0x0018187cc6c0c07c0606c67c18180000 ++
  glyph 0x0000c6c60c0c1838306060c6c6000000 ++
  glyph 0x0000386c6c383076deccccde76000000 ++
  glyph 0x00001818183000000000000000000000 ++
  glyph 0x00001830606060606060603018000000 ++
  glyph 0x00006030181818181818183060000000 ++
  glyph 0x00000000006c38fe386c000000000000 ++
  glyph 0x000000000018187e1818000000000000 ++
  glyph 0x00000000000000000000001818300000 ++
  glyph 0x00000000000000fe0000000000000000 ++
  glyph 0x00000000000000000000001818000000 ++
  glyph 0x000006060c0c1838306060c0c0000000 ++
  glyph 0x00007cc6c6c6d6d6d6c6c6c67c000000 ++
  glyph 0x0000183878181818181818187e000000 ++
  glyph 0x00007cc606060c183060c0c0fe000000 ++
  glyph 0x00007cc606063c06060606c67c000000 ++
  glyph 0x0000040c1c3c6cccfe0c0c0c0c000000 ++
  glyph 0x0000fec0c0c0fc06060606c67c000000 ++
  glyph 0x00003c60c0c0fcc6c6c6c6c67c000000 ++
  glyph 0x0000fec606060c183030303030000000 ++
  glyph 0x00007cc6c6c67cc6c6c6c6c67c000000 ++
  glyph 0x00007cc6c6c6c67e0606060c78000000 ++
  glyph 0x00000000000000181800001818000000 ++
  glyph 0x00000000000000181800001818300000 ++
  glyph 0x0000060c183060c06030180c06000000 ++
  glyph 0x000000000000fe00fe00000000000000 ++
  glyph 0x0000c06030180c060c183060c0000000 ++
  glyph 0x00007cc6c6060c183030003030000000 ++
  glyph 0x00007cc6c6c6dedededec0c07e000000 ++
  glyph 0x0000386cc6c6c6c6fec6c6c6c6000000 ++
  glyph 0x0000fcc6c6c6fcc6c6c6c6c6fc000000 ++
  glyph 0x00007cc6c0c0c0c0c0c0c0c67c000000 ++
  glyph 0x0000f8ccc6c6c6c6c6c6c6ccf8000000 ++
  glyph 0x0000fec0c0c0fcc0c0c0c0c0fe000000 ++
  glyph 0x0000fec0c0c0fcc0c0c0c0c0c0000000 ++
  glyph 0x00007cc6c0c0c0dec6c6c6c67e000000 ++
  glyph 0x0000c6c6c6c6c6fec6c6c6c6c6000000 ++
  glyph 0x0000fc303030303030303030fc000000 ++
  glyph 0x00001e0c0c0c0c0c0c0ccccc78000000 ++
  glyph 0x0000c6c6ccd8f0e0f0d8ccc6c6000000 ++
  glyph 0x0000c0c0c0c0c0c0c0c0c0c0fe000000 ++
  glyph 0x0000c6c6eefed6d6d6c6c6c6c6000000 ++
  glyph 0x0000c6c6e6e6f6dececec6c6c6000000 ++
  glyph 0x00007cc6c6c6c6c6c6c6c6c67c000000 ++
  glyph 0x0000fcc6c6c6c6fcc0c0c0c0c0000000 ++
  glyph 0x00007cc6c6c6c6c6c6c6f6da6c060000 ++
  glyph 0x0000fcc6c6c6c6fcd8ccccc6c6000000 ++
  glyph 0x00007cc6c06030180c0606c67c000000 ++
  glyph 0x0000ff18181818181818181818000000 ++
  glyph 0x0000c6c6c6c6c6c6c6c6c6c67c000000 ++
  glyph 0x0000c6c6c6c6c6c6c6c66c3810000000 ++
  glyph 0x0000c6c6c6c6d6d6d6d6fe6c6c000000 ++
  glyph 0x0000c6c6c66c3838386cc6c6c6000000 ++
  glyph 0x0000cccccccccc783030303030000000 ++
  glyph 0x0000fe06060c183060c0c0c0fe000000 ++
  glyph 0x00007860606060606060606078000000 ++
  glyph 0x0000c0c060603038180c0c0606000000 ++
  glyph 0x00007818181818181818181878000000 ++
  glyph 0x000010386cc600000000000000000000 ++
  glyph 0x0000000000000000000000000000ff00 ++
  glyph 0x00001818180c00000000000000000000 ++
  glyph 0x00000000007c06067ec6c6c67e000000 ++
  glyph 0x0000c0c0c0dce6c6c6c6c6e6dc000000 ++
  glyph 0x00000000007cc6c0c0c0c0c67c000000 ++
  glyph 0x000006060676cec6c6c6c6ce76000000 ++
  glyph 0x00000000007cc6c6fec0c0c07e000000 ++
  glyph 0x00001c363030fc303030303030000000 ++
  glyph 0x000000000076cec6c6c6ce7606c67c00 ++
  glyph 0x0000c0c0c0dce6c6c6c6c6c6c6000000 ++
  glyph 0x0000180000381818181818183c000000 ++
  glyph 0x00000600001e060606060606c6c67c00 ++
  glyph 0x0000c0c0c0c6ccd8f0f0d8ccc6000000 ++
  glyph 0x0000381818181818181818183c000000 ++
  glyph 0x0000000000ecfed6d6d6d6c6c6000000 ++
  glyph 0x0000000000dce6c6c6c6c6c6c6000000 ++
  glyph 0x00000000007cc6c6c6c6c6c67c000000 ++
  glyph 0x0000000000dce6c6c6c6e6dcc0c0c000 ++
  glyph 0x000000000076cec6c6c6ce7606060600 ++
  glyph 0x0000000000dce6c0c0c0c0c0c0000000 ++
  glyph 0x00000000007cc6c0701c06c67c000000 ++
  glyph 0x0000303030fe3030303030361c000000 ++
  glyph 0x0000000000c6c6c6c6c6c6c67c000000 ++
  glyph 0x0000000000c6c6c6c6c66c3810000000 ++
  glyph 0x0000000000c6c6d6d6d6d6fe6c000000 ++
  glyph 0x0000000000c6c66c38386cc6c6000000 ++
  glyph 0x0000000000c6c6c6c6c6ce7606c67c00 ++
  glyph 0x0000000000fe060c183060c0fe000000 ++
  glyph 0x00001c30303030e0303030301c000000 ++
  glyph 0x00003030303030003030303030000000 ++
  glyph 0x0000e0303030301c30303030e0000000 ++
  glyph 0x00000076dc0000000000000000000000 ++
  glyph 0x000000101038386c6cc6c6fe00000000 ++
  glyph 0x00003c66c0c0c0c0c0c0663c18cc7800 ++
  glyph 0x00006c6c00c6c6c6c6c6c6c67c000000 ++
  glyph 0x000c1830007cc6c6fec0c0c07e000000 ++
  glyph 0x0010386c007c06067ec6c6c67e000000 ++
  glyph 0x00006c6c007c06067ec6c6c67e000000 ++
  glyph 0x00603018007c06067ec6c6c67e000000 ++
  glyph 0x00386c38007c06067ec6c6c67e000000 ++
  glyph 0x00000000007cc6c0c0c0c0c67c180c38 ++
  glyph 0x0010386c007cc6c6fec0c0c07e000000 ++
  glyph 0x00006c6c007cc6c6fec0c0c07e000000 ++
  glyph 0x00603018007cc6c6fec0c0c07e000000 ++
  glyph 0x00006c6c00381818181818183c000000 ++
  glyph 0x0010386c00381818181818183c000000 ++
  glyph 0x0060301800381818181818183c000000 ++
  glyph 0xc6c610386cc6c6c6fec6c6c6c6000000 ++
  glyph 0x386c3800386cc6c6c6fec6c6c6000000 ++
  glyph 0x18306000fec0c0fcc0c0c0c0fe000000 ++
  glyph 0x0000000000ec363676ded8d86e000000 ++
  glyph 0x00001e3c6cccccfeccccccccce000000 ++
  glyph 0x0010386c007cc6c6c6c6c6c67c000000 ++
  glyph 0x00006c6c007cc6c6c6c6c6c67c000000 ++
  glyph 0x00603018007cc6c6c6c6c6c67c000000 ++
  glyph 0x0010386c00c6c6c6c6c6c6c67c000000 ++
  glyph 0x0060301800c6c6c6c6c6c6c67c000000 ++
  glyph 0x00006c6c00c6c6c6c6c6ce7606c67c00 ++
  glyph 0x6c6c007cc6c6c6c6c6c6c6c67c000000 ++
  glyph 0x6c6c00c6c6c6c6c6c6c6c6c67c000000 ++
  glyph 0x000000303078ccc0c0cc783030000000 ++
  glyph 0x0000386c606060f8606060e6fc000000 ++
  glyph 0x0000cccccc7830fc30fc303030000000 ++
  glyph 0x0000f8ccccf8c4ccdeccccccc6000000 ++
  glyph 0x00000e1b1818187e1818181818d87000 ++
  glyph 0x000c1830007c06067ec6c6c67e000000 ++
  glyph 0x000c183000381818181818183c000000 ++
  glyph 0x000c1830007cc6c6c6c6c6c67c000000 ++
  glyph 0x000c183000c6c6c6c6c6c6c67c000000 ++
  glyph 0x0076dc0000dce6c6c6c6c6c6c6000000 ++
  glyph 0x76dc00c6c6e6f6fedecec6c6c6000000 ++
  glyph 0x0078d8d86c00fc000000000000000000 ++
  glyph 0x00386c6c38007c000000000000000000 ++
  glyph 0x000018180018183060c0c6c67c000000 ++
  glyph 0x0000000000000000fec0c0c000000000 ++
  glyph 0x0000000000000000fe06060600000000 ++
  glyph 0x0000c0c2c6ccd83060dc860c183e0000 ++
  glyph 0x0000c0c2c6ccd83066ce9e3e06060000 ++
  glyph 0x00003030003030307878787830000000 ++
  glyph 0x0000000000366cd86c36000000000000 ++
  glyph 0x0000000000d86c366cd8000000000000 ++
  glyph 0x22882288228822882288228822882288 ++
  glyph 0x55aa55aa55aa55aa55aa55aa55aa55aa ++
  glyph 0xdd77dd77dd77dd77dd77dd77dd77dd77 ++
  glyph 0x18181818181818181818181818181818 ++
  glyph 0x18181818181818f8f818181818181818 ++
  glyph 0x1818181818f8f81818f8f81818181818 ++
  glyph 0x36363636363636f6f636363636363636 ++
  glyph 0x00000000000000fefe36363636363636 ++
  glyph 0x0000000000f8f81818f8f81818181818 ++
  glyph 0x3636363636f6f60606f6f63636363636 ++
  glyph 0x36363636363636363636363636363636 ++
  glyph 0x0000000000fefe0606f6f63636363636 ++
  glyph 0x3636363636f6f60606fefe0000000000 ++
  glyph 0x36363636363636fefe00000000000000 ++
  glyph 0x1818181818f8f81818f8f80000000000 ++
  glyph 0x00000000000000f8f818181818181818 ++
  glyph 0x181818181818181f1f00000000000000 ++
  glyph 0x18181818181818ffff00000000000000 ++
  glyph 0x00000000000000ffff18181818181818 ++
  glyph 0x181818181818181f1f18181818181818 ++
  glyph 0x00000000000000ffff00000000000000 ++
  glyph 0x18181818181818ffff18181818181818 ++
  glyph 0x18181818181f1f18181f1f1818181818 ++
  glyph 0x36363636363636373736363636363636 ++
  glyph 0x3636363636373730303f3f0000000000 ++
  glyph 0x00000000003f3f303037373636363636 ++
  glyph 0x3636363636f7f70000ffff0000000000 ++
  glyph 0x0000000000ffff0000f7f73636363636 ++
  glyph 0x36363636363737303037373636363636 ++
  glyph 0x0000000000ffff0000ffff0000000000 ++
  glyph 0x3636363636f7f70000f7f73636363636 ++
  glyph 0x1818181818ffff0000ffff0000000000 ++
  glyph 0x36363636363636ffff00000000000000 ++
  glyph 0x0000000000ffff0000ffff1818181818 ++
  glyph 0x00000000000000ffff36363636363636 ++
  glyph 0x363636363636363f3f00000000000000 ++
  glyph 0x18181818181f1f18181f1f0000000000 ++
  glyph 0x00000000001f1f18181f1f1818181818 ++
  glyph 0x000000000000003f3f36363636363636 ++
  glyph 0x36363636363636ffff36363636363636 ++
  glyph 0x1818181818ffff1818ffff1818181818 ++
  glyph 0x18181818181818f8f800000000000000 ++
  glyph 0x000000000000001f1f18181818181818 ++
  glyph 0xffffffffffffffffffffffffffffffff ++
  glyph 0x0000000000000000ffffffffffffffff ++
  glyph 0xf0f0f0f0f0f0f0f0f0f0f0f0f0f0f0f0 ++
  glyph 0x0f0f0f0f0f0f0f0f0f0f0f0f0f0f0f0f ++
  glyph 0xffffffffffffffff0000000000000000 ++
  glyph 0x000000000076d6dcc8c8dcd676000000 ++
  glyph 0x000078ccccccd8ccccccccccd8c0c000 ++
  glyph 0x0000fec6c6c0c0c0c0c0c0c0c0000000 ++
  glyph 0x00000000007efe2424242466c6000000 ++
  glyph 0x0000fefec26030183060c2fefe000000 ++
  glyph 0x00000000007ec8cccccccccc78000000 ++
  glyph 0x0000000000666666666666766c60c000 ++
  glyph 0x000000000066fc981818181818000000 ++
  glyph 0x0000fc303078cccccc783030fc000000 ++
  glyph 0x0000386cc6c6c6fec6c6c66c38000000 ++
  glyph 0x0000386cc6c6c6c6c66c6c6cee000000 ++
  glyph 0x000078cc603078cccccccccc78000000 ++
  glyph 0x000000000076bb9999dd6e0000000000 ++
  glyph 0x000002063c6cced6d6e66c78c0800000 ++
  glyph 0x00001e3060c0c0fec0c060301e000000 ++
  glyph 0x0000386cc6c6c6c6c6c6c6c6c6000000 ++
  glyph 0x00000000fe0000fe0000fe0000000000 ++
  glyph 0x00000000003030fc30300000fc000000 ++
  glyph 0x000000006030180c18306000fc000000 ++
  glyph 0x00000000183060c060301800fc000000 ++
  glyph 0x00001c36363030303030303030303030 ++
  glyph 0x18181818181818181818d8d870000000 ++
  glyph 0x00000000303000fc0030300000000000 ++
  glyph 0x000000000076dc0076dc000000000000 ++
  glyph 0x0078cccccc7800000000000000000000 ++
  glyph 0x00000000000000303000000000000000 ++
  glyph 0x00000000000000300000000000000000 ++
  glyph 0x000f0c0c0c0c0c0c0ccc6c3c1c0c0000 ++
  glyph 0x00d8eccccccccccc0000000000000000 ++
  glyph 0x00386c0c1830607c0000000000000000 ++
  glyph 0x00000000787878787878780000000000 ++
  glyph 0x00000000000000000000000000000000.
