(* ===== verification/FbTerm.v ===== *)
(** * The frame buffer terminal (flanterm/flanterm-c/src/flanterm_backends/fb.c)

    The back end that keeps the characters of the screen in a grid, the changes
    since the last flush in a queue with a map from cells to it, and draws
    characters as pixels.  Arrays are lists, pointers into them indices; an
    access outside of an array is [Panic]. *)

From Stdlib Require Import Ascii.
From S2P Require Import Prelude Bytes FlanTerm FbFont.

Definition FLANTERM_FB_FONT_GLYPHS : Z := 256.

(** [FLANTERM_FB_ROTATE_*]; every other value is as no rotation. *)
Definition FLANTERM_FB_ROTATE_0 : Z := 0.
Definition FLANTERM_FB_ROTATE_90 : Z := 1.
Definition FLANTERM_FB_ROTATE_180 : Z := 2.
Definition FLANTERM_FB_ROTATE_270 : Z := 3.

(** [struct flanterm_fb_char] and [struct flanterm_fb_queue_item]. *)
Record fb_char : Type := mkChar { ch : Z; fg : Z; bg : Z }.
#[export] Instance fb_char_dec : EqDecision fb_char.
Proof. solve_decision. Defined.
Record queue_item : Type := mkItem { q_x : Z; q_y : Z; q_c : fb_char }.

(** The function that draws characters. *)
Inductive plotter : Type := Unscaled_uncanvas | Unscaled_canvas | Scaled_uncanvas | Scaled_canvas.

(** The fields of [struct flanterm_fb_context] that are set once ... *)
Record fb_config : Type := mkConfig {
  plot_char_fn : plotter;
  flush_callback : bool;
  font_width : Z;
  font_height : Z;
  glyph_width : Z;
  glyph_height : Z;
  font_scale_x : Z;
  font_scale_y : Z;
  offset_x : Z;
  offset_y : Z;
  pitch : Z;
  width : Z;
  height : Z;
  red_mask_shift : Z;
  green_mask_shift : Z;
  blue_mask_shift : Z;
  rotation : Z;
  font_bool : list bool;
  ansi_colours : list Z;
  ansi_bright_colours : list Z;
  default_fg : Z;
  default_bg : Z;
  default_fg_bright : Z;
  default_bg_bright : Z;
  canvas : option (list Z);
}.

(** ... and those that change; [framebuffer] is the memory it points to. *)
Record fb : Type := mkFb {
  config : fb_config;
  framebuffer : list Z;
  grid : list fb_char;
  queue : list queue_item;
  queue_i : Z;
  map : list (option Z);
  text_fg : Z;
  text_bg : Z;
  cursor_x : Z;
  cursor_y : Z;
  saved_state_text_fg : Z;
  saved_state_text_bg : Z;
  saved_state_cursor_x : Z;
  saved_state_cursor_y : Z;
  old_cursor_x : Z;
  old_cursor_y : Z;
  flushes : Z;
}.

Definition eta_fb (b : fb) : fb :=
  mkFb (config b) (framebuffer b) (grid b) (queue b) (queue_i b) (map b) (text_fg b) (text_bg b) (cursor_x b) (cursor_y b)
    (saved_state_text_fg b) (saved_state_text_bg b) (saved_state_cursor_x b) (saved_state_cursor_y b)
    (old_cursor_x b) (old_cursor_y b) (flushes b).
Definition with_framebuffer (v : list Z) (b : fb) : fb := ltac:(replace_field eta_fb framebuffer v b).
Definition with_grid (v : list fb_char) (b : fb) : fb := ltac:(replace_field eta_fb grid v b).
Definition with_queue (v : list queue_item) (b : fb) : fb := ltac:(replace_field eta_fb queue v b).
Definition with_queue_i (v : Z) (b : fb) : fb := ltac:(replace_field eta_fb queue_i v b).
Definition with_map (v : list (option Z)) (b : fb) : fb := ltac:(replace_field eta_fb map v b).
Definition with_text_fg (v : Z) (b : fb) : fb := ltac:(replace_field eta_fb text_fg v b).
Definition with_text_bg (v : Z) (b : fb) : fb := ltac:(replace_field eta_fb text_bg v b).
Definition with_cursor (x y : Z) (b : fb) : fb :=
  ltac:(let e := eval cbv beta delta [eta_fb] in (eta_fb b) in
        let e := eval pattern (cursor_x b), (cursor_y b) in e in
        match e with ?f _ _ => let r := eval cbv beta in (f x y) in exact r end).
Definition with_old_cursor (x y : Z) (b : fb) : fb :=
  ltac:(let e := eval cbv beta delta [eta_fb] in (eta_fb b) in
        let e := eval pattern (old_cursor_x b), (old_cursor_y b) in e in
        match e with ?f _ _ => let r := eval cbv beta in (f x y) in exact r end).
Definition with_flushes (v : Z) (b : fb) : fb := ltac:(replace_field eta_fb flushes v b).

(** [a[i] = v], outside of which the behaviour is undefined. *)
Definition store {A} (l : list A) (i : Z) (v : A) : ub (list A) :=
  if (0 <=? i) && (i <? zlen l) then Ok (<[Z.to_nat i := v]> l) else Panic.
Definition load {A} (l : list A) (i : Z) : ub A := unwrap (zat l i).

(** [for (i = lo; i < hi; i++)]. *)
Fixpoint rfor {A} (n : nat) (i : Z) (body : Z → A → ub A) (a : A) : ub A :=
  match n with
  | O => Ok a
  | S n => let? a := body i a in rfor n (i + 1) body a
  end.

(** ** Colours and saved state *)

(** A shift by the width of the type or more is undefined. *)
Definition shift_left (x n : Z) : ub Z := if n <? 32 then Ok (u32 (Z.shiftl x n)) else Panic.
Definition convert_colour (cfg : fb_config) (colour : Z) : ub Z :=
  let r := Z.land (Z.shiftr colour 16) 0xff in
  let g := Z.land (Z.shiftr colour 8) 0xff in
  let b := Z.land colour 0xff in
  let? r := shift_left r (red_mask_shift cfg) in
  let? g := shift_left g (green_mask_shift cfg) in
  let? b := shift_left b (blue_mask_shift cfg) in
  Ok (Z.lor (Z.lor r g) b).

Definition flanterm_fb_save_state (b : fb) : fb :=
  mkFb (config b) (framebuffer b) (grid b) (queue b) (queue_i b) (map b) (text_fg b) (text_bg b) (cursor_x b) (cursor_y b)
    (text_fg b) (text_bg b) (cursor_x b) (cursor_y b) (old_cursor_x b) (old_cursor_y b) (flushes b).
Definition flanterm_fb_restore_state (b : fb) : fb :=
  with_cursor (saved_state_cursor_x b) (saved_state_cursor_y b)
    (with_text_bg (saved_state_text_bg b) (with_text_fg (saved_state_text_fg b) b)).
Definition flanterm_fb_swap_palette (b : fb) : fb := with_text_fg (text_bg b) (with_text_bg (text_fg b) b).

Definition flanterm_fb_set_text_fg (v : Z) (b : fb) : ub fb :=
  let? c := load (ansi_colours (config b)) v in Ok (with_text_fg c b).
Definition flanterm_fb_set_text_bg (v : Z) (b : fb) : ub fb :=
  let? c := load (ansi_colours (config b)) v in Ok (with_text_bg c b).
Definition flanterm_fb_set_text_fg_bright (v : Z) (b : fb) : ub fb :=
  let? c := load (ansi_bright_colours (config b)) v in Ok (with_text_fg c b).
Definition flanterm_fb_set_text_bg_bright (v : Z) (b : fb) : ub fb :=
  let? c := load (ansi_bright_colours (config b)) v in Ok (with_text_bg c b).
Definition flanterm_fb_set_text_fg_rgb (v : Z) (b : fb) : ub fb :=
  let? c := convert_colour (config b) v in Ok (with_text_fg c b).
Definition flanterm_fb_set_text_bg_rgb (v : Z) (b : fb) : ub fb :=
  let? c := convert_colour (config b) v in Ok (with_text_bg c b).
Definition flanterm_fb_set_text_fg_default (b : fb) : fb := with_text_fg (default_fg (config b)) b.
Definition flanterm_fb_set_text_bg_default (b : fb) : fb := with_text_bg 0xffffffff b.
Definition flanterm_fb_set_text_fg_default_bright (b : fb) : fb := with_text_fg (default_fg_bright (config b)) b.
Definition flanterm_fb_set_text_bg_default_bright (b : fb) : fb := with_text_bg (default_bg_bright (config b)) b.

(** ** Cells, queue and map *)

Definition compare_char (a b : fb_char) : bool :=
  negb (negb (ch a =? ch b) || negb (bg a =? bg b) || negb (fg a =? fg b)).

Definition push_to_queue (t : term) (c : fb_char) (x y : Z) (b : fb) : ub fb :=
  if (cols t <=? x) || (rows t <=? y) then Ok b else
  let i := sz (sz (y * cols t) + x) in
  let? q := load (map b) i in
  match q with
  | None =>
      let? g := load (grid b) i in
      if compare_char g c then Ok b else
      let q := queue_i b in
      let? queue := store (queue b) q (mkItem x y c) in
      let? map := store (map b) i (Some q) in
      Ok (with_queue_i (sz (q + 1)) (with_map map (with_queue queue b)))
  | Some q =>
      let? item := load (queue b) q in
      let? queue := store (queue b) q (mkItem (q_x item) (q_y item) c) in
      Ok (with_queue queue b)
  end.

(** [map[i] != NULL ? map[i]->c : grid[i]]. *)
Definition cell_at (i : Z) (b : fb) : ub fb_char :=
  let? q := load (map b) i in
  match q with
  | Some q => let? item := load (queue b) q in Ok (q_c item)
  | None => load (grid b) i
  end.

Definition empty (b : fb) : fb_char := mkChar (chr " ") (text_fg b) (text_bg b).

(** A row of blanks in the colours of the text. *)
Definition clear_row (t : term) (row : Z) (b : fb) : ub fb :=
  rfor (Z.to_nat (cols t)) 0 (λ i b', push_to_queue t (empty b) i row b') b.

(** The loop of [flanterm_fb_revscroll] from [i] down; every turn lowers [i], so
    as many turns as there are cells and one to leave are enough; running out of
    them is [Panic]. *)
Fixpoint revscroll_loop (fuel : nat) (t : term) (i : Z) (b : fb) : ub fb :=
  match fuel with
  | O => Panic
  | S fuel =>
      if sz (scroll_top_margin t * cols t) <=? i then
        if i =? SIZE_MAX then Ok b else
        let? c := cell_at i b in
        let? x := umod (sz (i + cols t)) (cols t) in
        let? y := udiv (sz (i + cols t)) (cols t) in
        let? b := push_to_queue t c x y b in
        revscroll_loop fuel t (sz (i - 1)) b
      else Ok b
  end.
Definition flanterm_fb_revscroll (t : term) (b : fb) : ub fb :=
  let? b := revscroll_loop (S (Z.to_nat (rows t * cols t))) t (sz (sz (sz (scroll_bottom_margin t - 1) * cols t) - 1)) b in
  clear_row t (scroll_top_margin t) b.

Definition flanterm_fb_scroll (t : term) (b : fb) : ub fb :=
  let from := sz (sz (scroll_top_margin t + 1) * cols t) in
  let to := sz (scroll_bottom_margin t * cols t) in
  let? b := rfor (Z.to_nat (to - from)) from (λ i b,
    let? c := cell_at i b in
    let? x := umod (sz (i - cols t)) (cols t) in
    let? y := udiv (sz (i - cols t)) (cols t) in
    push_to_queue t c x y b) b in
  clear_row t (sz (scroll_bottom_margin t - 1)) b.

Definition flanterm_fb_clear (t : term) (move : bool) (b : fb) : ub fb :=
  let? b := rfor (Z.to_nat (sz (rows t * cols t))) 0 (λ i b',
    let? x := umod i (cols t) in
    let? y := udiv i (cols t) in
    push_to_queue t (empty b) x y b') b in
  Ok (if move then with_cursor 0 0 b else b).

(** [(int)x < 0]. *)
Definition int_negative (x : Z) : bool := 2 ^ 31 <=? x mod 2 ^ 32.
Definition flanterm_fb_set_cursor_pos (t : term) (x y : Z) (b : fb) : fb :=
  let x := if cols t <=? x then if int_negative x then 0 else sz (cols t - 1) else x in
  let y := if rows t <=? y then if int_negative y then 0 else sz (rows t - 1) else y in
  with_cursor x y b.
Definition flanterm_fb_get_cursor_pos (t : term) (b : fb) : Z * Z :=
  (if cols t <=? cursor_x b then sz (cols t - 1) else cursor_x b,
   if rows t <=? cursor_y b then sz (rows t - 1) else cursor_y b).

Definition flanterm_fb_move_character (t : term) (new_x new_y old_x old_y : Z) (b : fb) : ub fb :=
  if (cols t <=? old_x) || (rows t <=? old_y) || (cols t <=? new_x) || (rows t <=? new_y) then Ok b else
  let? c := cell_at (sz (old_x + sz (old_y * cols t))) b in
  push_to_queue t c new_x new_y b.

(** The cursor behind the end of a line goes to the next one, which may scroll. *)
Definition wrap_cursor (t : term) (b : fb) : ub fb :=
  if (cols t <=? cursor_x b) && ((cursor_y b <? sz (scroll_bottom_margin t - 1)) || scroll_enabled t) then
    let b := with_cursor 0 (sz (cursor_y b + 1)) b in
    let? b := (if cursor_y b =? scroll_bottom_margin t then
        flanterm_fb_scroll t (with_cursor (cursor_x b) (sz (cursor_y b - 1)) b) else Ok b) in
    Ok (if cols t <=? cursor_y b then with_cursor (cursor_x b) (sz (cols t - 1)) b else b)
  else Ok b.
Definition flanterm_fb_raw_putchar (t : term) (c : Z) (b : fb) : ub fb :=
  let? b := wrap_cursor t b in
  push_to_queue t (mkChar c (text_fg b) (text_bg b)) (cursor_x b) (cursor_y b) (with_cursor (sz (cursor_x b + 1)) (cursor_y b) b).

(** ** Drawing *)

(** The conversion to [int]. *)
Definition to_int (z : Z) : Z := let u := z mod 2 ^ 32 in if u <? 2 ^ 31 then u else u - 2 ^ 32.

(** The pixel that a character starts at and the distances of its rows and
    columns of pixels, for the rotation. *)
Definition plot_target (cfg : fb_config) (x y : Z) : Z * Z * Z :=
  let line := pitch cfg / 4 in
  if rotation cfg =? FLANTERM_FB_ROTATE_90 then (sz (height cfg - 1 - y) + sz (x * line), -1, to_int line)
  else if rotation cfg =? FLANTERM_FB_ROTATE_180 then
    (sz (width cfg - 1 - x) + sz (sz (height cfg - 1 - y) * line), to_int (sz (- line)), -1)
  else if rotation cfg =? FLANTERM_FB_ROTATE_270 then (y + sz (sz (width cfg - 1 - x) * line), 1, to_int (sz (- line)))
  else (x + sz (y * line), to_int line, 1).

(** The place of a character on the screen, in pixels. *)
Definition plot_x (cfg : fb_config) (x : Z) : Z := sz (offset_x cfg + sz (x * glyph_width cfg)).
Definition plot_y (cfg : fb_config) (y : Z) : Z := sz (offset_y cfg + sz (y * glyph_height cfg)).
Definition glyph_start (cfg : fb_config) (c : fb_char) : Z := sz (sz (ch c * font_height cfg) * font_width cfg).

(** The colours of a pixel: with a canvas, its pixel [p] shows through. *)
Definition through (colour behind : Z) : Z := if colour =? 0xffffffff then behind else colour.
Definition canvas_pixel (cfg : fb_config) (p : Z) : ub Z :=
  match canvas cfg with Some l => load l p | None => Panic end.
Definition pixel_canvas (cfg : fb_config) (c : fb_char) (p : Z) (bit : bool) : ub Z :=
  let? behind := canvas_pixel cfg p in
  Ok (if bit then through (fg c) behind else through (bg c) behind).
Definition pixel_uncanvas (cfg : fb_config) (c : fb_char) (bit : bool) : ub Z :=
  Ok (if bit then through (fg c) (default_bg cfg) else through (bg c) (default_bg cfg)).

Section plot.
Context (cfg : fb_config).
(** The colour of the pixel at column [gx] of the glyph. *)
Implicit Types pixel : Z → bool → ub Z.

(** A line of a glyph of a scaled font: [font_scale_x] pixels for each bit. *)
Fixpoint scaled_bit (n : nat) (inner line gx : Z) (bit : bool) pixel (f : list Z) : ub (Z * list Z) :=
  match n with
  | O => Ok (line, f)
  | S n =>
      let? v := pixel gx bit in
      let? f := store f line v in
      scaled_bit n inner (line + inner) (gx + 1) bit pixel f
  end.
Fixpoint scaled_line (n : nat) (inner line glyph fx : Z) pixel (f : list Z) : ub (list Z) :=
  match n with
  | O => Ok f
  | S n =>
      let? bit := load (font_bool cfg) glyph in
      let? r := scaled_bit (Z.to_nat (font_scale_x cfg)) inner line (font_scale_x cfg * fx) bit pixel f in
      scaled_line n inner r.1 (glyph + 1) (fx + 1) pixel r.2
  end.
(** The lines from [gy] on; [fy] is a byte. *)
Fixpoint scaled_lines (n : nat) (outer inner dest glyph gy : Z) (pixel : Z → Z → bool → ub Z) (f : list Z) : ub (list Z) :=
  match n with
  | O => Ok f
  | S n =>
      let? q := udiv gy (font_scale_y cfg) in
      let fy := wrap 8 q in
      let? f := scaled_line (Z.to_nat (font_width cfg)) inner dest (glyph + fy * font_width cfg) 0 (pixel gy) f in
      scaled_lines n outer inner (dest + outer) glyph (gy + 1) pixel f
  end.

(** The same for a font that is not scaled. *)
Fixpoint unscaled_line (n : nat) (inner line glyph fx : Z) pixel (f : list Z) : ub (list Z) :=
  match n with
  | O => Ok f
  | S n =>
      let? bit := load (font_bool cfg) glyph in
      let? v := pixel fx bit in
      let? f := store f line v in
      unscaled_line n inner (line + inner) (glyph + 1) (fx + 1) pixel f
  end.
Fixpoint unscaled_lines (n : nat) (outer inner dest glyph gy : Z) (pixel : Z → Z → bool → ub Z) (f : list Z) : ub (list Z) :=
  match n with
  | O => Ok f
  | S n =>
      let? f := unscaled_line (Z.to_nat (font_width cfg)) inner dest (glyph + gy * font_width cfg) 0 (pixel gy) f in
      unscaled_lines n outer inner (dest + outer) glyph (gy + 1) pixel f
  end.

(** The pixel of the canvas behind column [gx] and line [gy] of a character at [x]
    and [y]. *)
Definition canvas_index (x y gy gx : Z) : Z := x + (y + gy) * width cfg + gx.

Definition plot_char_scaled_canvas (c : fb_char) (x y : Z) (f : list Z) : ub (list Z) :=
  let '(x, y) := (plot_x cfg x, plot_y cfg y) in
  let '(dest, outer, inner) := plot_target cfg x y in
  scaled_lines (Z.to_nat (glyph_height cfg)) outer inner dest (glyph_start cfg c) 0
    (λ gy gx bit, pixel_canvas cfg c (canvas_index x y gy gx) bit) f.
Definition plot_char_scaled_uncanvas (c : fb_char) (x y : Z) (f : list Z) : ub (list Z) :=
  let '(x, y) := (plot_x cfg x, plot_y cfg y) in
  let '(dest, outer, inner) := plot_target cfg x y in
  scaled_lines (Z.to_nat (glyph_height cfg)) outer inner dest (glyph_start cfg c) 0
    (λ _ _ bit, pixel_uncanvas cfg c bit) f.
Definition plot_char_unscaled_canvas (c : fb_char) (x y : Z) (f : list Z) : ub (list Z) :=
  let '(x, y) := (plot_x cfg x, plot_y cfg y) in
  let '(dest, outer, inner) := plot_target cfg x y in
  unscaled_lines (Z.to_nat (glyph_height cfg)) outer inner dest (glyph_start cfg c) 0
    (λ gy gx bit, pixel_canvas cfg c (canvas_index x y gy gx) bit) f.
Definition plot_char_unscaled_uncanvas (c : fb_char) (x y : Z) (f : list Z) : ub (list Z) :=
  let '(x, y) := (plot_x cfg x, plot_y cfg y) in
  let '(dest, outer, inner) := plot_target cfg x y in
  unscaled_lines (Z.to_nat (glyph_height cfg)) outer inner dest (glyph_start cfg c) 0
    (λ _ _ bit, pixel_uncanvas cfg c bit) f.
End plot.

(** [ctx->plot_char], with the check that all four functions start with. *)
Definition plot_char (t : term) (c : fb_char) (x y : Z) (b : fb) : ub fb :=
  if (cols t <=? x) || (rows t <=? y) then Ok b else
  let cfg := config b in
  let? f := match plot_char_fn cfg with
            | Scaled_canvas => plot_char_scaled_canvas cfg c x y (framebuffer b)
            | Scaled_uncanvas => plot_char_scaled_uncanvas cfg c x y (framebuffer b)
            | Unscaled_canvas => plot_char_unscaled_canvas cfg c x y (framebuffer b)
            | Unscaled_uncanvas => plot_char_unscaled_uncanvas cfg c x y (framebuffer b)
            end in
  Ok (with_framebuffer f b).

Definition draw_cursor (t : term) (b : fb) : ub fb :=
  if (cols t <=? cursor_x b) || (rows t <=? cursor_y b) then Ok b else
  let i := sz (cursor_x b + sz (cursor_y b * cols t)) in
  let? q := load (map b) i in
  let? c := cell_at i b in
  let? b := plot_char t (mkChar (ch c) (bg c) (fg c)) (cursor_x b) (cursor_y b) b in
  match q with
  | Some _ =>
      let? grid := store (grid b) i c in
      let? map := store (map b) i None in
      Ok (with_map map (with_grid grid b))
  | None => Ok b
  end.

(** An item of the queue is drawn and moved to the grid. *)
Definition flush_item (t : term) (i : Z) (b : fb) : ub fb :=
  let? q := load (queue b) i in
  let offset := sz (sz (q_y q * cols t) + q_x q) in
  let? m := load (map b) offset in
  match m with
  | None => Ok b
  | Some _ =>
      let? b := plot_char t (q_c q) (q_x q) (q_y q) b in
      let? grid := store (grid b) offset (q_c q) in
      let? map := store (map b) offset None in
      Ok (with_map map (with_grid grid b))
  end.

(** The cell that the cursor was on is drawn without it. *)
Definition erase_cursor (t : term) (b : fb) : ub fb :=
  if (negb (old_cursor_x b =? cursor_x b) || negb (old_cursor_y b =? cursor_y b)) || negb (cursor_enabled t) then
    if (old_cursor_x b <? cols t) && (old_cursor_y b <? rows t) then
      let? c := load (grid b) (sz (old_cursor_x b + sz (old_cursor_y b * cols t))) in
      plot_char t c (old_cursor_x b) (old_cursor_y b) b
    else Ok b
  else Ok b.

Definition notify_flush (b : fb) : fb := if flush_callback (config b) then with_flushes (flushes b + 1) b else b.

Definition flanterm_fb_double_buffer_flush (t : term) (b : fb) : ub fb :=
  let? b := (if cursor_enabled t then draw_cursor t b else Ok b) in
  let? b := rfor (Z.to_nat (queue_i b)) 0 (flush_item t) b in
  let? b := erase_cursor t b in
  Ok (notify_flush (with_queue_i 0 (with_old_cursor (cursor_x b) (cursor_y b) b))).

(** A pixel of the background, and the whole of it. *)
Definition refresh_target (cfg : fb_config) (x y : Z) : Z :=
  let line := pitch cfg / 4 in
  if rotation cfg =? FLANTERM_FB_ROTATE_90 then sz (x * line) + sz (height cfg - 1 - y)
  else if rotation cfg =? FLANTERM_FB_ROTATE_180 then sz (sz (height cfg - 1 - y) * line) + sz (width cfg - 1 - x)
  else if rotation cfg =? FLANTERM_FB_ROTATE_270 then sz (sz (width cfg - 1 - x) * line) + y
  else sz (y * line) + x.
Definition refresh_pixel (cfg : fb_config) (x y : Z) (f : list Z) : ub (list Z) :=
  let? v := match canvas cfg with Some l => load l (sz (sz (y * width cfg) + x)) | None => Ok (default_bg cfg) end in
  store f (refresh_target cfg x y) v.
Definition refresh_background (cfg : fb_config) (f : list Z) : ub (list Z) :=
  rfor (Z.to_nat (height cfg)) 0 (λ y f, rfor (Z.to_nat (width cfg)) 0 (λ x f, refresh_pixel cfg x y f) f) f.

Definition flanterm_fb_full_refresh (t : term) (b : fb) : ub fb :=
  let? f := refresh_background (config b) (framebuffer b) in
  let b := with_framebuffer f b in
  let? b := rfor (Z.to_nat (sz (rows t * cols t))) 0 (λ i b,
    let? x := umod i (cols t) in
    let? y := udiv i (cols t) in
    let? c := load (grid b) i in
    plot_char t c x y b) b in
  let? b := (if cursor_enabled t then draw_cursor t b else Ok b) in
  Ok (notify_flush b).

(** The function pointers that [flanterm_fb_init] sets. *)
#[export] Instance fb_backend : Backend fb := {
  b_raw_putchar t c b := flanterm_fb_raw_putchar t c b;
  b_clear t move b := flanterm_fb_clear t move b;
  b_set_cursor_pos t x y b := Ok (flanterm_fb_set_cursor_pos t x y b);
  b_get_cursor_pos t b := flanterm_fb_get_cursor_pos t b;
  b_set_text_fg _ v b := flanterm_fb_set_text_fg v b;
  b_set_text_bg _ v b := flanterm_fb_set_text_bg v b;
  b_set_text_fg_bright _ v b := flanterm_fb_set_text_fg_bright v b;
  b_set_text_bg_bright _ v b := flanterm_fb_set_text_bg_bright v b;
  b_set_text_fg_rgb _ v b := flanterm_fb_set_text_fg_rgb v b;
  b_set_text_bg_rgb _ v b := flanterm_fb_set_text_bg_rgb v b;
  b_set_text_fg_default _ b := Ok (flanterm_fb_set_text_fg_default b);
  b_set_text_bg_default _ b := Ok (flanterm_fb_set_text_bg_default b);
  b_set_text_fg_default_bright _ b := Ok (flanterm_fb_set_text_fg_default_bright b);
  b_set_text_bg_default_bright _ b := Ok (flanterm_fb_set_text_bg_default_bright b);
  b_move_character t nx ny ox oy b := flanterm_fb_move_character t nx ny ox oy b;
  b_scroll t b := flanterm_fb_scroll t b;
  b_revscroll t b := flanterm_fb_revscroll t b;
  b_swap_palette _ b := Ok (flanterm_fb_swap_palette b);
  b_save_state _ b := Ok (flanterm_fb_save_state b);
  b_restore_state _ b := Ok (flanterm_fb_restore_state b);
  b_double_buffer_flush t b := flanterm_fb_double_buffer_flush t b;
  b_full_refresh t b := flanterm_fb_full_refresh t b;
}.

(** ** Start *)

(** The allocator that is used without a [malloc] of the client: the static
    variables of [bump_alloc] and the address of its pool. *)
Record bump : Type := mkBump { bump_alloc_ptr : Z; base_offset_added : bool; bump_allocated_instance : bool }.
Definition FLANTERM_FB_BUMP_ALLOC_POOL_SIZE : Z := 873000.
Definition FLANTERM_FB_WIDTH_LIMIT : Z := 1920.
Definition FLANTERM_FB_HEIGHT_LIMIT : Z := 1200.
Definition bump_new : bump := mkBump 0 false false.

Definition add_base_offset (pool : Z) (m : bump) : bump :=
  if base_offset_added m then m else
  let misaligned := Z.land pool 0xf in
  mkBump (if negb (misaligned =? 0) then sz (bump_alloc_ptr m + (0x10 - misaligned)) else bump_alloc_ptr m) true (bump_allocated_instance m).
Definition bump_round (s : Z) : Z := if negb (Z.land s 0xf =? 0) then Z.ldiff (sz (s + 0x10)) 0xf else s.
Definition bump_alloc (pool s : Z) (m : bump) : bool * bump :=
  let m := add_base_offset pool m in
  let next_ptr := sz (bump_alloc_ptr m + bump_round s) in
  if FLANTERM_FB_BUMP_ALLOC_POOL_SIZE <? next_ptr then (false, m)
  else (true, mkBump next_ptr (base_offset_added m) (bump_allocated_instance m)).

(** [sizeof] of the structures on both targets. *)
Definition sizeof_fb_context : Z := 816.
Definition sizeof_fb_char : Z := 12.
Definition sizeof_queue_item : Z := 32.
Definition sizeof_pointer : Z := 8.

(** The arguments of [flanterm_fb_init] without [_malloc], [_free] and [font], which
    are [NULL] in the call of the kernel, the canvas, which is not used then, and
    what describes a [font]; the memory of the frame buffer is a list of pixels. *)
Record init_args : Type := mkArgs {
  a_framebuffer : list Z;
  a_width : Z;
  a_height : Z;
  a_pitch : Z;
  a_red_mask_size : Z;
  a_red_mask_shift : Z;
  a_green_mask_size : Z;
  a_green_mask_shift : Z;
  a_blue_mask_size : Z;
  a_blue_mask_shift : Z;
  a_ansi_colours : option (list Z);
  a_ansi_bright_colours : option (list Z);
  a_default_bg : option Z;
  a_default_fg : option Z;
  a_default_bg_bright : option Z;
  a_default_fg_bright : option Z;
  a_font_scale_x : Z;
  a_font_scale_y : Z;
  a_margin : Z;
  a_rotation : Z;
}.

(** Width and height for the rotation. *)
Definition init_size (a : init_args) : Z * Z :=
  if (a_rotation a =? FLANTERM_FB_ROTATE_90) || (a_rotation a =? FLANTERM_FB_ROTATE_270) then (a_height a, a_width a)
  else (a_width a, a_height a).
Definition init_scale (a : init_args) (width height : Z) : Z * Z :=
  if (a_font_scale_x a =? 0) || (a_font_scale_y a =? 0) then
    let s := if (1920 + 1920 / 3 <=? width) && (1080 + 1080 / 3 <=? height) then 2 else 1 in
    let s := if (3840 + 3840 / 3 <=? width) && (2160 + 2160 / 3 <=? height) then 4 else s in
    (s, s)
  else (a_font_scale_x a, a_font_scale_y a).

(** The part of a large frame buffer that is used: its centre. *)
Definition init_limit (a : init_args) (width height : Z) : list Z * Z * Z :=
  if (FLANTERM_FB_WIDTH_LIMIT <? width) || (FLANTERM_FB_HEIGHT_LIMIT <? height) then
    let width_limit := if FLANTERM_FB_WIDTH_LIMIT <? width then FLANTERM_FB_WIDTH_LIMIT else width in
    let height_limit := if FLANTERM_FB_HEIGHT_LIMIT <? height then FLANTERM_FB_HEIGHT_LIMIT else height in
    let offset := (height / 2 - height_limit / 2) * a_pitch a + (width / 2 - width_limit / 2) * 4 in
    (drop (Z.to_nat (offset / 4)) (a_framebuffer a), width_limit, height_limit)
  else (a_framebuffer a, width, height).

(** A colour that is given, or the default. *)
Definition colour_or (cfg : fb_config) (c : option Z) (d : ub Z) : ub Z :=
  match c with Some c => convert_colour cfg c | None => d end.
Fixpoint convert_colours (cfg : fb_config) (l : list Z) : ub (list Z) :=
  match l with
  | [] => Ok []
  | c :: l => let? c := convert_colour cfg c in let? l := convert_colours cfg l in Ok (c :: l)
  end.
Definition default_ansi : list Z := [0x000000; 0xaa0000; 0x00aa00; 0xaa5500; 0x0000aa; 0xaa00aa; 0x00aaaa; 0xaaaaaa].
Definition default_ansi_bright : list Z := [0x555555; 0xff5555; 0x55ff55; 0xffff55; 0x5555ff; 0xff55ff; 0x55ffff; 0xffffff].

(** A row of a glyph as [bool]s: the bits of its byte, and the columns above 8. *)
Definition font_row (i byte font_width : Z) : list bool :=
  ((λ x, Z.testbit byte (7 - x)) <$> seqZ 0 8) ++
  zrep (font_width - 8) (if (0xc0 <=? i) && (i <=? 0xdf) then Z.testbit byte 0 else false).
Definition font_glyph (i : Z) (rows : list Z) (font_width : Z) : list bool := concat ((λ byte, font_row i byte font_width) <$> rows).
Definition font_bools (bits : list Z) (font_height font_width : Z) : list bool :=
  concat ((λ i, font_glyph i (sub bits (i * font_height) font_height) font_width) <$> seqZ 0 FLANTERM_FB_FONT_GLYPHS).

(** The configuration; [font_spacing] is 1 for the built-in font. *)
Definition init_config (a : init_args) (width height sx sy : Z) : ub fb_config :=
  let shift size shift := wrap 8 (shift + (size - 8)) in
  let cfg := mkConfig (if (sx =? 1) && (sy =? 1) then Unscaled_uncanvas else Scaled_uncanvas) false
    9 16 (sz (9 * sx)) (sz (16 * sy)) sx sy 0 0 (a_pitch a) width height
    (shift (a_red_mask_size a) (a_red_mask_shift a)) (shift (a_green_mask_size a) (a_green_mask_shift a))
    (shift (a_blue_mask_size a) (a_blue_mask_shift a)) (a_rotation a) (font_bools builtin_font 16 9) [] [] 0 0 0 0 None in
  let? ansi := convert_colours cfg (default default_ansi (a_ansi_colours a)) in
  let? bright := convert_colours cfg (default default_ansi_bright (a_ansi_bright_colours a)) in
  let? dbg := colour_or cfg (a_default_bg a) (Ok 0) in
  let? dfg := colour_or cfg (a_default_fg a) (convert_colour cfg 0xaaaaaa) in
  let? dbgb := colour_or cfg (a_default_bg_bright a) (convert_colour cfg 0x555555) in
  let? dfgb := colour_or cfg (a_default_fg_bright a) (convert_colour cfg 0xffffff) in
  let inner_width := sz (width - sz (a_margin a * 2)) in
  let inner_height := sz (height - sz (a_margin a * 2)) in
  let? rx := umod inner_width (glyph_width cfg) in
  let? ry := umod inner_height (glyph_height cfg) in
  Ok (mkConfig (plot_char_fn cfg) false 9 16 (glyph_width cfg) (glyph_height cfg) sx sy
        (sz (a_margin a + rx / 2)) (sz (a_margin a + ry / 2)) (a_pitch a) width height
        (red_mask_shift cfg) (green_mask_shift cfg) (blue_mask_shift cfg) (a_rotation a) (font_bool cfg) ansi bright
        dfg dbg dfgb dbgb None).

(** The context after [memset] and [flanterm_context_reinit]. *)
Definition init_term (rows cols : Z) : term :=
  reinit (mkTerm 0 false false false false false false false false false false false false false false false
    0 0 0 [0; 0] 0 0 0 0 0 0 0 0 0 (zrep FLANTERM_MAX_ESC_VALUES 0) 0 false false false 0 0 0 rows cols false []).

(** Allocations in the order of the code; the first one that fails ends them. *)
Fixpoint alloc_all (pool : Z) (sizes : list Z) (m : bump) : bool * bump :=
  match sizes with
  | [] => (true, m)
  | s :: sizes => let '(ok, m) := bump_alloc pool s m in if ok then alloc_all pool sizes m else (false, m)
  end.

Definition flanterm_fb_init (pool : Z) (a : init_args) (m : bump) : ub (option (term * fb) * bump) :=
  let '(width, height) := init_size a in
  let '(sx, sy) := init_scale a width height in
  if (a_red_mask_size a <? 8) || negb (a_red_mask_size a =? a_green_mask_size a) || negb (a_red_mask_size a =? a_blue_mask_size a) then Ok (None, m)
  else if bump_allocated_instance m then Ok (None, m) else
  let '(f, width, height) := init_limit a width height in
  let '(ok, m) := bump_alloc pool sizeof_fb_context m in
  if negb ok then Ok (None, m) else
  let? cfg := init_config a width height sx sy in
  let? cols := udiv (sz (width - sz (a_margin a * 2))) (glyph_width cfg) in
  let? rows := udiv (sz (height - sz (a_margin a * 2))) (glyph_height cfg) in
  let cells := sz (rows * cols) in
  let '(ok, m) := alloc_all pool
    [4096; sz (FLANTERM_FB_FONT_GLYPHS * 16 * 9); sz (cells * sizeof_fb_char); sz (cells * sizeof_queue_item); sz (cells * sizeof_pointer)] m in
  if negb ok then Ok (None, mkBump 0 (base_offset_added m) (bump_allocated_instance m)) else
  let t := init_term rows cols in
  let b := mkFb cfg f (zrep cells (mkChar (chr " ") (default_fg cfg) 0xffffffff)) (zrep cells (mkItem 0 0 (mkChar 0 0 0))) 0 (zrep cells None)
    (default_fg cfg) 0xffffffff 0 0 0 0 0 0 0 0 0 in
  let? b := flanterm_fb_full_refresh t b in
  Ok (Some (t, b), mkBump (bump_alloc_ptr m) (base_offset_added m) true).
