(* ===== verification/FbTermDraw.v ===== *)
(** * Drawing characters (fb.c)

    What [plot_char] does to the frame buffer: it writes the pixels of its cell,
    in any rotation, and no others, and stays within the memory.  The functions
    for a font that is not scaled do what the others do. *)

From Stdlib Require Import Ascii.
From S2P Require Import Prelude Bytes FlanTerm FbFont FbTerm.

(** ** Equivalence of the plot functions *)

Section unscaled.
Context (cfg : fb_config) (Hsx : font_scale_x cfg = 1) (Hsy : font_scale_y cfg = 1).

Lemma scaled_line_one n inner line glyph fx pixel f :
  scaled_line cfg n inner line glyph fx pixel f = unscaled_line cfg n inner line glyph fx pixel f.
Proof.
  revert line glyph fx f. induction n as [|n IH]; intros line glyph fx f; [done|]. cbn [scaled_line unscaled_line]. destruct (load _ glyph) as [bit|?|]; [|done..]. cbn [rbind].
  rewrite Hsx, Z.mul_1_l. change (Z.to_nat 1) with 1%nat. cbn [scaled_bit]. destruct (pixel fx bit) as [v|?|]; [|done..]. cbn [rbind].
  destruct (store f line v) as [f1|?|]; [|done..]. cbn [rbind fst snd]. apply IH.
Qed.

Lemma scaled_lines_one n outer inner dest glyph gy pixel f : 0 ≤ gy → gy + Z.of_nat n ≤ 256 →
  scaled_lines cfg n outer inner dest glyph gy pixel f = unscaled_lines cfg n outer inner dest glyph gy pixel f.
Proof.
  revert dest gy f. induction n as [|n IH]; intros dest gy f Hgy Hn; [done|]. cbn [scaled_lines unscaled_lines]. rewrite Hsy, udiv_ok, Z.div_1_r by done. cbn [rbind].
  unfold wrap. rewrite Z.mod_small by lia. rewrite scaled_line_one. destruct (unscaled_line _ _ _ _ _ _ _ _) as [f1|?|]; [|done..]. cbn [rbind]. apply IH; lia.
Qed.
End unscaled.

(** C33: the functions that draw unscaled characters are the general ones: with a
    scale of one and a font of at most 256 rows they give the same frame buffer,
    with and without a canvas. *)
Theorem plot_unscaled_equivalent cfg c x y f : font_scale_x cfg = 1 → font_scale_y cfg = 1 → 0 ≤ glyph_height cfg ≤ 256 →
  plot_char_unscaled_canvas cfg c x y f = plot_char_scaled_canvas cfg c x y f ∧
  plot_char_unscaled_uncanvas cfg c x y f = plot_char_scaled_uncanvas cfg c x y f.
Proof.
  intros Hsx Hsy Hh. unfold plot_char_unscaled_canvas, plot_char_scaled_canvas, plot_char_unscaled_uncanvas, plot_char_scaled_uncanvas.
  destruct (plot_target cfg (plot_x cfg x) (plot_y cfg y)) as [[dest outer] inner]. split; symmetry; apply scaled_lines_one; done || lia.
Qed.

(** ** Sequences of stores *)

Definition stores (f : list Z) (l : list (Z * Z)) : list Z := foldl (λ f p, <[Z.to_nat p.1 := p.2]> f) f l.
Definition in_memory (n : Z) (l : list (Z * Z)) : Prop := Forall (λ p, 0 ≤ p.1 < n) l.

Lemma zlen_stores f l : zlen (stores f l) = zlen f.
Proof. revert f. induction l as [|p l IH]; intros f; [done|]. simpl. rewrite IH. unfold zlen. by rewrite length_insert. Qed.
Lemma stores_app f l l' : stores f (l ++ l') = stores (stores f l) l'.
Proof. apply foldl_app. Qed.

Lemma zat_store (f : list Z) i v k : 0 ≤ i < zlen f → zat (<[Z.to_nat i := v]> f) k = if decide (k = i) then Some v else zat f k.
Proof.
  intros Hi. unfold zat, zlen in *. destruct (Z.ltb_spec k 0); [by rewrite decide_False by lia|].
  destruct (decide (k = i)) as [->|]; [apply list_lookup_insert_eq; lia|]. apply list_lookup_insert_ne. lia.
Qed.

Lemma stores_other f l k : in_memory (zlen f) l → k ∉ l.*1 → zat (stores f l) k = zat f k.
Proof.
  revert f. induction l as [|p l IH]; intros f Hl Hk; [done|]. apply Forall_cons in Hl as [Hp Hl]. apply not_elem_of_cons in Hk as [Hne Hk]. simpl.
  rewrite IH; [by rewrite zat_store, decide_False| |done]. unfold in_memory, zlen in *. by rewrite length_insert.
Qed.
(** All stores to an address that agree. *)
Lemma stores_at f l k v : in_memory (zlen f) l → (k, v) ∈ l → (∀ v', (k, v') ∈ l → v' = v) → zat (stores f l) k = Some v.
Proof.
  revert f. induction l as [|p l IH]; intros f Hl Hin Hv; [by apply not_elem_of_nil in Hin|]. apply Forall_cons in Hl as [Hp Hl]. simpl.
  assert (Hl' : in_memory (zlen (<[Z.to_nat p.1 := p.2]> f)) l) by (unfold in_memory, zlen in *; by rewrite length_insert).
  destruct (decide (k ∈ l.*1)) as [([? v'] & -> & Hin')%list_elem_of_fmap|Hn].
  - apply IH; [done| |intros w Hw; apply Hv; by right]. rewrite <-(Hv v'); [done|by right].
  - apply elem_of_cons in Hin as [<-|Hin]; [|by destruct Hn; apply (list_elem_of_fmap_2 fst) in Hin]. rewrite stores_other by done. by rewrite zat_store, decide_True.
Qed.

Lemma store_ok (f : list Z) i v : 0 ≤ i < zlen f → store f i v = Ok (<[Z.to_nat i := v]> f).
Proof. intros Hi. unfold store. by rewrite (proj2 (Z.leb_le 0 i)), (proj2 (Z.ltb_lt i _)) by lia. Qed.

(** ** The pixels that are written *)

(** Pixels [gx], [gx + 1], ... of a line with the values [v]. *)
Definition row (line inner gx : Z) (v : Z → Z) (n : Z) : list (Z * Z) := (λ k, (line + (k - gx) * inner, v k)) <$> seqZ gx n.

Lemma row_cons line inner gx v n : 0 < n → row line inner gx v n = (line, v gx) :: row (line + inner) inner (gx + 1) v (n - 1).
Proof.
  intros Hn. unfold row. rewrite seqZ_cons by done. simpl. rewrite <-Z.add_1_r, <-Z.sub_1_r. f_equal; [f_equal; lia|].
  apply list_fmap_ext. intros i k _. f_equal. lia.
Qed.
Lemma row_app line inner gx v n m : 0 ≤ n → 0 ≤ m → row line inner gx v (n + m) = row line inner gx v n ++ row (line + n * inner) inner (gx + n) v m.
Proof.
  intros Hn Hm. unfold row. rewrite seqZ_app, fmap_app by done. f_equal. apply list_fmap_ext. intros i k _. f_equal. lia.
Qed.
Lemma row_memory line inner gx v n m : (∀ k, 0 ≤ k < n → 0 ≤ line + k * inner < m) → in_memory m (row line inner gx v n).
Proof.
  intros Hk. apply Forall_fmap, Forall_forall. intros k [? ?]%elem_of_seqZ. simpl. apply Hk. lia.
Qed.

Lemma scaled_bit_spec n inner line gx bit pixel v f :
  (∀ k, gx ≤ k < gx + Z.of_nat n → pixel k bit = Ok (v k)) → (∀ k, 0 ≤ k < Z.of_nat n → 0 ≤ line + k * inner < zlen f) →
  scaled_bit n inner line gx bit pixel f = Ok (line + Z.of_nat n * inner, stores f (row line inner gx v (Z.of_nat n))).
Proof.
  revert line gx f. induction n as [|n IH]; intros line gx f Hp Hm; cbn [scaled_bit].
  { unfold row. simpl. do 2 f_equal. lia. }
  rewrite Hp by lia. cbn [rbind]. specialize (Hm 0 ltac:(lia)) as H0. rewrite Z.mul_0_l, Z.add_0_r in H0. rewrite store_ok by done. cbn [rbind]. rewrite IH.
  - rewrite (row_cons _ _ _ _ (Z.of_nat (S n))) by lia. simpl. replace (Z.of_nat (S n) - 1) with (Z.of_nat n) by lia. do 2 f_equal. lia.
  - intros k Hk. apply Hp. lia.
  - intros k Hk. specialize (Hm (k + 1) ltac:(lia)). unfold zlen in *. rewrite length_insert. lia.
Qed.

Section lines.
Context (cfg : fb_config) (Hsx : 0 < font_scale_x cfg) (Hsy : 0 < font_scale_y cfg).
Abbreviation sx := (font_scale_x cfg).

Lemma scaled_line_spec n inner line glyph fx pixel bit v f : 0 ≤ fx →
  (∀ j, fx ≤ j < fx + Z.of_nat n → load (font_bool cfg) (glyph + (j - fx)) = Ok (bit j)) →
  (∀ j k, fx ≤ j < fx + Z.of_nat n → sx * j ≤ k < sx * j + sx → pixel k (bit j) = Ok (v k)) →
  (∀ k, 0 ≤ k < sx * Z.of_nat n → 0 ≤ line + k * inner < zlen f) →
  scaled_line cfg n inner line glyph fx pixel f = Ok (stores f (row line inner (sx * fx) v (sx * Z.of_nat n))).
Proof.
  intros Hfx. revert line glyph fx Hfx f. induction n as [|n IH]; intros line glyph fx Hfx f Hb Hp Hm; cbn [scaled_line].
  { rewrite Z.mul_0_r. done. }
  pose proof (Hb fx ltac:(lia)) as Hbit. rewrite Z.sub_diag, Z.add_0_r in Hbit. rewrite Hbit. cbn [rbind].
  rewrite (scaled_bit_spec _ _ _ _ _ _ v); [|intros k Hk; apply Hp; lia|intros k Hk; apply Hm; nia]. rewrite Z2Nat.id by lia. cbn [rbind fst snd]. rewrite IH.
  - replace (sx * Z.of_nat (S n)) with (sx + sx * Z.of_nat n) by lia. rewrite row_app, stores_app by lia. by replace (sx * (fx + 1)) with (sx * fx + sx) by lia.
  - lia.
  - intros j Hj. replace (glyph + 1 + (j - (fx + 1))) with (glyph + (j - fx)) by lia. apply Hb. lia.
  - intros j k Hj. apply Hp. lia.
  - intros k Hk. rewrite zlen_stores. specialize (Hm (sx + k) ltac:(nia)). nia.
Qed.

(** The lines [gy], ... of a glyph. *)
Definition glyph_rows (outer inner dest gy : Z) (v : Z → Z → Z) (w n : Z) : list (Z * Z) :=
  concat ((λ g, row (dest + (g - gy) * outer) inner 0 (v g) w) <$> seqZ gy n).

Lemma glyph_rows_cons outer inner dest gy v w n : 0 < n →
  glyph_rows outer inner dest gy v w n = row dest inner 0 (v gy) w ++ glyph_rows outer inner (dest + outer) (gy + 1) v w (n - 1).
Proof.
  intros Hn. unfold glyph_rows. rewrite seqZ_cons by done. simpl. rewrite <-Z.add_1_r, <-Z.sub_1_r. f_equal; [f_equal; lia|]. f_equal.
  apply list_fmap_ext. intros i k _. f_equal. lia.
Qed.

Lemma scaled_lines_spec n outer inner dest glyph gy pixel bit v f w : 0 ≤ gy → 0 ≤ font_width cfg → w = sx * font_width cfg →
  gy + Z.of_nat n ≤ 256 * font_scale_y cfg →
  (∀ g j, gy ≤ g < gy + Z.of_nat n → 0 ≤ j < font_width cfg → load (font_bool cfg) (glyph + g / font_scale_y cfg * font_width cfg + j) = Ok (bit g j)) →
  (∀ g j k, gy ≤ g < gy + Z.of_nat n → 0 ≤ j < font_width cfg → sx * j ≤ k < sx * j + sx → pixel g k (bit g j) = Ok (v g k)) →
  (∀ g k, gy ≤ g < gy + Z.of_nat n → 0 ≤ k < w → 0 ≤ dest + (g - gy) * outer + k * inner < zlen f) →
  scaled_lines cfg n outer inner dest glyph gy pixel f = Ok (stores f (glyph_rows outer inner dest gy v w (Z.of_nat n))).
Proof.
  intros Hgy Hfw ->. revert dest gy Hgy f. induction n as [|n IH]; intros dest gy Hgy f Hn Hb Hp Hm; [done|]. cbn [scaled_lines]. rewrite udiv_ok by lia. cbn [rbind].
  assert (Hq : 0 ≤ gy / font_scale_y cfg < 256) by (split; [apply Z.div_pos; lia|apply Z.div_lt_upper_bound; lia]). unfold wrap. rewrite Z.mod_small by exact Hq.
  rewrite (scaled_line_spec _ _ _ _ _ _ (bit gy) (v gy)).
  - cbn [rbind]. rewrite Z2Nat.id, Z.mul_0_r by lia. rewrite IH.
    + rewrite (glyph_rows_cons _ _ _ _ _ _ (Z.of_nat (S n))), stores_app by lia. by replace (Z.of_nat (S n) - 1) with (Z.of_nat n) by lia.
    + lia.
    + lia.
    + intros g j Hg. apply Hb. lia.
    + intros g j k Hg. apply Hp. lia.
    + intros g k Hg Hk. rewrite zlen_stores. specialize (Hm g k ltac:(lia) Hk). lia.
  - lia.
  - intros j Hj. rewrite Z.sub_0_r. apply Hb; lia.
  - intros j k Hj. apply Hp; lia.
  - intros k Hk. specialize (Hm gy k ltac:(lia) ltac:(lia)). lia.
Qed.
End lines.

(** ** Geometry *)

(** The address of a pixel of the rotated screen. *)
Definition pixel_of (cfg : fb_config) (x y : Z) : Z :=
  let line := pitch cfg / 4 in
  if rotation cfg =? FLANTERM_FB_ROTATE_90 then height cfg - 1 - y + x * line
  else if rotation cfg =? FLANTERM_FB_ROTATE_180 then width cfg - 1 - x + (height cfg - 1 - y) * line
  else if rotation cfg =? FLANTERM_FB_ROTATE_270 then y + (width cfg - 1 - x) * line
  else x + y * line.

(** Width and height of the memory: the screen is turned for a quarter. *)
Definition sideways (cfg : fb_config) : bool := (rotation cfg =? FLANTERM_FB_ROTATE_90) || (rotation cfg =? FLANTERM_FB_ROTATE_270).
Definition memory_width (cfg : fb_config) : Z := if sideways cfg then height cfg else width cfg.
Definition memory_height (cfg : fb_config) : Z := if sideways cfg then width cfg else height cfg.

(** The canvas is there for the functions that use it, and the scale fits. *)
Definition plotter_ok (cfg : fb_config) : Prop :=
  match plot_char_fn cfg with
  | Scaled_uncanvas => True
  | Scaled_canvas => ∃ l, canvas cfg = Some l ∧ zlen l = width cfg * height cfg
  | Unscaled_uncanvas => font_scale_x cfg = 1 ∧ font_scale_y cfg = 1
  | Unscaled_canvas => font_scale_x cfg = 1 ∧ font_scale_y cfg = 1 ∧ ∃ l, canvas cfg = Some l ∧ zlen l = width cfg * height cfg
  end.

(** A configuration for [R] rows and [C] columns and [n] pixels of memory. *)
Record config_ok (R C : Z) (cfg : fb_config) (n : Z) : Prop := mk_config_ok {
  co_ansi : zlen (ansi_colours cfg) = 8;
  co_bright : zlen (ansi_bright_colours cfg) = 8;
  co_shifts : red_mask_shift cfg < 32 ∧ green_mask_shift cfg < 32 ∧ blue_mask_shift cfg < 32;
  co_font_width : 0 < font_width cfg < 2 ^ 24;
  co_font_height : 0 < font_height cfg ≤ 256;
  co_font : zlen (font_bool cfg) = 256 * font_height cfg * font_width cfg;
  co_scale_x : 0 < font_scale_x cfg;
  co_scale_y : 0 < font_scale_y cfg;
  co_glyph_width : glyph_width cfg = font_width cfg * font_scale_x cfg;
  co_glyph_height : glyph_height cfg = font_height cfg * font_scale_y cfg;
  co_plotter : plotter_ok cfg;
  co_x : 0 ≤ offset_x cfg ∧ offset_x cfg + C * glyph_width cfg ≤ width cfg;
  co_y : 0 ≤ offset_y cfg ∧ offset_y cfg + R * glyph_height cfg ≤ height cfg;
  co_size : 0 < width cfg < 2 ^ 31 ∧ 0 < height cfg < 2 ^ 31;
  co_line : memory_width cfg ≤ pitch cfg / 4 < 2 ^ 31;
  co_memory : (memory_height cfg - 1) * (pitch cfg / 4) + memory_width cfg ≤ n;
}.

Section geometry.
Context (R C n : Z) (cfg : fb_config) (Hcfg : config_ok R C cfg n).
Abbreviation line := (pitch cfg / 4).

(** Column and row of a pixel in memory. *)
Definition memory_x (x y : Z) : Z :=
  if rotation cfg =? FLANTERM_FB_ROTATE_90 then height cfg - 1 - y
  else if rotation cfg =? FLANTERM_FB_ROTATE_180 then width cfg - 1 - x
  else if rotation cfg =? FLANTERM_FB_ROTATE_270 then y else x.
Definition memory_y (x y : Z) : Z :=
  if rotation cfg =? FLANTERM_FB_ROTATE_90 then x
  else if rotation cfg =? FLANTERM_FB_ROTATE_180 then height cfg - 1 - y
  else if rotation cfg =? FLANTERM_FB_ROTATE_270 then width cfg - 1 - x else y.

(** The cases of the rotation. *)
Ltac rotations :=
  destruct (Z.eqb_spec (rotation cfg) FLANTERM_FB_ROTATE_90) as [Er|];
  [|destruct (Z.eqb_spec (rotation cfg) FLANTERM_FB_ROTATE_180) as [Er|];
    [|destruct (Z.eqb_spec (rotation cfg) FLANTERM_FB_ROTATE_270) as [Er|]]];
  try rewrite Er in *; cbn [Z.eqb orb] in *.

Lemma pixel_memory x y : pixel_of cfg x y = memory_x x y + memory_y x y * line.
Proof. unfold pixel_of, memory_x, memory_y. rotations; lia. Qed.
Lemma memory_range x y : 0 ≤ x < width cfg → 0 ≤ y < height cfg → 0 ≤ memory_x x y < memory_width cfg ∧ 0 ≤ memory_y x y < memory_height cfg.
Proof. intros Hx Hy. unfold memory_x, memory_y, memory_width, memory_height, sideways. rotations; simpl; lia. Qed.
Lemma memory_inj x y x' y' : memory_x x y = memory_x x' y' → memory_y x y = memory_y x' y' → x = x' ∧ y = y'.
Proof. unfold memory_x, memory_y. rotations; lia. Qed.

Lemma pixel_range x y : 0 ≤ x < width cfg → 0 ≤ y < height cfg → 0 ≤ pixel_of cfg x y < n.
Proof.
  intros Hx Hy. destruct (memory_range x y Hx Hy). pose proof (co_line _ _ _ _ Hcfg). pose proof (co_memory _ _ _ _ Hcfg). rewrite pixel_memory. nia.
Qed.
Lemma pixel_inj x y x' y' : 0 ≤ x < width cfg → 0 ≤ y < height cfg → 0 ≤ x' < width cfg → 0 ≤ y' < height cfg →
  pixel_of cfg x y = pixel_of cfg x' y' → x = x' ∧ y = y'.
Proof.
  intros Hx Hy Hx' Hy'. destruct (memory_range x y Hx Hy). destruct (memory_range x' y' Hx' Hy'). pose proof (co_line _ _ _ _ Hcfg). rewrite !pixel_memory.
  intros E. assert (memory_y x y = memory_y x' y') by nia. apply memory_inj; [lia|done].
Qed.

Lemma to_int_line : to_int line = line ∧ to_int (sz (- line)) = - line.
Proof.
  assert (0 < line < 2 ^ 31).
  { pose proof (co_line _ _ _ _ Hcfg). destruct (co_size _ _ _ _ Hcfg). unfold memory_width in *. destruct (sideways cfg); lia. }
  unfold to_int, wrap. rewrite (Z.mod_small line) by lia. rewrite (proj2 (Z.ltb_lt _ _)) by lia. split; [done|].
  assert (E : (- line) mod 2 ^ 64 = 2 ^ 64 - line) by (symmetry; apply (Z.mod_unique _ _ (-1)); lia). rewrite E.
  assert (E2 : (2 ^ 64 - line) mod 2 ^ 32 = 2 ^ 32 - line) by (symmetry; apply (Z.mod_unique _ _ (2 ^ 32 - 1)); lia). rewrite E2.
  rewrite (proj2 (Z.ltb_ge _ _)) by lia. lia.
Qed.

Lemma sz_mul_line a : 0 ≤ a < 2 ^ 31 → sz (a * line) = a * line.
Proof.
  intros Ha. pose proof (co_line _ _ _ _ Hcfg). destruct (co_size _ _ _ _ Hcfg). apply Z.mod_small. unfold memory_width in *. destruct (sideways cfg); nia.
Qed.

(** Every line and column of a character is at its pixel. *)
Lemma target_pixel x y dest outer inner : 0 ≤ x < width cfg → 0 ≤ y < height cfg → plot_target cfg x y = (dest, outer, inner) →
  ∀ gx gy, dest + gy * outer + gx * inner = pixel_of cfg (x + gx) (y + gy).
Proof.
  intros Hx Hy. destruct (co_size _ _ _ _ Hcfg). destruct to_int_line as [E1 E2]. unfold plot_target, pixel_of. rewrite E1, E2.
  assert (Ey : sz (height cfg - 1 - y) = height cfg - 1 - y) by (apply Z.mod_small; lia).
  assert (Ex : sz (width cfg - 1 - x) = width cfg - 1 - x) by (apply Z.mod_small; lia). rewrite Ex, Ey, !sz_mul_line by lia.
  rotations; intros [= <- <- <-] gx gy; lia.
Qed.

(** The place of a cell on the screen. *)
Lemma plot_place x y : 0 ≤ x < C → 0 ≤ y < R →
  plot_x cfg x = offset_x cfg + x * glyph_width cfg ∧ plot_y cfg y = offset_y cfg + y * glyph_height cfg ∧
  0 ≤ plot_x cfg x ∧ plot_x cfg x + glyph_width cfg ≤ width cfg ∧ 0 ≤ plot_y cfg y ∧ plot_y cfg y + glyph_height cfg ≤ height cfg ∧
  0 < glyph_width cfg ∧ 0 < glyph_height cfg.
Proof.
  intros Hx Hy. destruct (co_size _ _ _ _ Hcfg), (co_x _ _ _ _ Hcfg), (co_y _ _ _ _ Hcfg). pose proof (co_font_width _ _ _ _ Hcfg). pose proof (co_font_height _ _ _ _ Hcfg).
  pose proof (co_scale_x _ _ _ _ Hcfg). pose proof (co_scale_y _ _ _ _ Hcfg). pose proof (co_glyph_width _ _ _ _ Hcfg). pose proof (co_glyph_height _ _ _ _ Hcfg).
  assert (0 < glyph_width cfg) by nia. assert (0 < glyph_height cfg) by nia.
  assert (0 ≤ x * glyph_width cfg) by nia. assert (x * glyph_width cfg + glyph_width cfg ≤ C * glyph_width cfg) by nia.
  assert (0 ≤ y * glyph_height cfg) by nia. assert (y * glyph_height cfg + glyph_height cfg ≤ R * glyph_height cfg) by nia.
  unfold plot_x, plot_y, wrap. rewrite (Z.mod_small (x * glyph_width cfg)), (Z.mod_small (y * glyph_height cfg)) by lia. rewrite !Z.mod_small by lia. lia.
Qed.

(** The cells do not overlap. *)
Definition in_cell (x y p : Z) : Prop :=
  ∃ gx gy, 0 ≤ gx < glyph_width cfg ∧ 0 ≤ gy < glyph_height cfg ∧ p = pixel_of cfg (plot_x cfg x + gx) (plot_y cfg y + gy).
Lemma cells_apart x y x' y' p : 0 ≤ x < C → 0 ≤ y < R → 0 ≤ x' < C → 0 ≤ y' < R → in_cell x y p → in_cell x' y' p → x = x' ∧ y = y'.
Proof.
  intros Hx Hy Hx' Hy' (gx & gy & Hgx & Hgy & ->) (gx' & gy' & Hgx' & Hgy' & E).
  destruct (plot_place x y Hx Hy) as (Ex & Ey & ?). destruct (plot_place x' y' Hx' Hy') as (Ex' & Ey' & ?).
  apply pixel_inj in E as [E1 E2]; [|lia..]. rewrite Ex, Ex' in E1. rewrite Ey, Ey' in E2. split; nia.
Qed.

(** ** What is drawn *)

(** The bit of a glyph at a pixel of it, and the colour of the pixel. *)
Definition glyph_bit (c : fb_char) (gx gy : Z) : bool :=
  default false (zat (font_bool cfg) (ch c * font_height cfg * font_width cfg + gy / font_scale_y cfg * font_width cfg + gx / font_scale_x cfg)).
Definition behind (x y gx gy : Z) : Z :=
  match plot_char_fn cfg, canvas cfg with
  | (Scaled_canvas | Unscaled_canvas), Some l => default 0 (zat l (canvas_index cfg x y gy gx))
  | _, _ => default_bg cfg
  end.
Definition glyph_pixel (c : fb_char) (x y gx gy : Z) : Z := through (if glyph_bit c gx gy then fg c else bg c) (behind x y gx gy).

(** The frame buffer shows a character at a cell. *)
Definition shows (f : list Z) (c : fb_char) (x y : Z) : Prop := ∀ gx gy, 0 ≤ gx < glyph_width cfg → 0 ≤ gy < glyph_height cfg →
  zat f (pixel_of cfg (plot_x cfg x + gx) (plot_y cfg y + gy)) = Some (glyph_pixel c (plot_x cfg x) (plot_y cfg y) gx gy).
End geometry.

Lemma elem_of_concat {A} (x : A) (ls : list (list A)) : x ∈ concat ls ↔ ∃ l, x ∈ l ∧ l ∈ ls.
Proof. rewrite list_elem_of_In, in_concat. setoid_rewrite list_elem_of_In. naive_solver. Qed.

Lemma glyph_rows_in outer inner dest v w n p q : (p, q) ∈ glyph_rows outer inner dest 0 v w n ↔
  ∃ g k, 0 ≤ g < n ∧ 0 ≤ k < w ∧ p = dest + g * outer + k * inner ∧ q = v g k.
Proof.
  unfold glyph_rows, row. rewrite elem_of_concat. split.
  - intros (l & Hin & Hl). apply list_elem_of_fmap in Hl as (g & -> & Hg%elem_of_seqZ). apply list_elem_of_fmap in Hin as (k & [= -> ->] & Hk%elem_of_seqZ).
    exists g, k. split_and!; done || lia.
  - intros (g & k & Hg & Hk & -> & ->). eexists. split; [|apply list_elem_of_fmap; exists g; split; [done|apply elem_of_seqZ; lia]].
    apply list_elem_of_fmap. exists k. split; [f_equal; lia|apply elem_of_seqZ; lia].
Qed.

Section draw.
Context (R C : Z) (cfg : fb_config) (f : list Z) (Hcfg : config_ok R C cfg (zlen f)).
Context (c : fb_char) (Hc : 0 ≤ ch c < 256) (x y : Z) (Hx : 0 ≤ x < C) (Hy : 0 ≤ y < R).
Abbreviation px := (plot_x cfg x).
Abbreviation py := (plot_y cfg y).

Definition drawn_at (f' : list Z) : Prop := zlen f' = zlen f ∧ shows cfg f' c x y ∧ ∀ p, ¬ in_cell cfg x y p → zat f' p = zat f p.

(** The pixels of a character, in the order in which they are written. *)
Lemma rows_drawn dest outer inner : plot_target cfg px py = (dest, outer, inner) →
  drawn_at (stores f (glyph_rows outer inner dest 0 (λ g k, glyph_pixel cfg c px py k g) (glyph_width cfg) (glyph_height cfg))).
Proof.
  intros Et. destruct (plot_place R C _ cfg Hcfg x y Hx Hy) as (_ & _ & ?). pose proof (target_pixel R C _ cfg Hcfg px py _ _ _ ltac:(lia) ltac:(lia) Et) as Hp.
  set (l := glyph_rows _ _ _ _ _ _ _).
  assert (Hin : ∀ p q, (p, q) ∈ l ↔ ∃ g k, 0 ≤ g < glyph_height cfg ∧ 0 ≤ k < glyph_width cfg ∧ p = pixel_of cfg (px + k) (py + g) ∧ q = glyph_pixel cfg c px py k g).
  { intros p q. unfold l. rewrite glyph_rows_in. split; intros (g & k & ? & ? & -> & ->); exists g, k; by rewrite Hp. }
  assert (Hm : in_memory (zlen f) l).
  { apply Forall_forall. intros [p q] (g & k & ? & ? & -> & _)%Hin. simpl. apply (pixel_range R C _ cfg Hcfg); lia. }
  split; [apply zlen_stores|]. split.
  - intros gx gy Hgx Hgy. apply stores_at; [done|apply Hin; by exists gy, gx|]. intros v (g & k & ? & ? & E & ->)%Hin.
    apply (pixel_inj R C _ cfg Hcfg) in E as [E1 E2]; [|lia..]. by replace k with gx by lia; replace g with gy by lia.
  - intros p Hn. apply stores_other; [done|]. intros ([p' q] & -> & (g & k & ? & ? & E & _)%Hin)%list_elem_of_fmap. apply Hn. exists k, g. split_and!; done || lia.
Qed.

Lemma bit_load g j : 0 ≤ g < glyph_height cfg → 0 ≤ j < font_width cfg →
  load (font_bool cfg) (glyph_start cfg c + g / font_scale_y cfg * font_width cfg + j) = Ok (glyph_bit cfg c (font_scale_x cfg * j) g).
Proof.
  intros Hg Hj. pose proof (co_font_width _ _ _ _ Hcfg). pose proof (co_font_height _ _ _ _ Hcfg). pose proof (co_font _ _ _ _ Hcfg) as Hl.
  pose proof (co_scale_x _ _ _ _ Hcfg). pose proof (co_scale_y _ _ _ _ Hcfg). pose proof (co_glyph_height _ _ _ _ Hcfg).
  assert (Hq : 0 ≤ g / font_scale_y cfg < font_height cfg) by (split; [apply Z.div_pos; lia|apply Z.div_lt_upper_bound; lia]).
  assert (Hs1 : 0 ≤ ch c * font_height cfg < 2 ^ 16) by nia. assert (Hs2 : 0 ≤ ch c * font_height cfg * font_width cfg < 2 ^ 40) by nia.
  unfold glyph_bit, glyph_start, wrap. rewrite (Z.mod_small (ch c * font_height cfg)) by lia. rewrite Z.mod_small by lia. rewrite (Z.mul_comm (font_scale_x cfg) j), Z.div_mul by lia.
  assert (Hi : 0 ≤ ch c * font_height cfg * font_width cfg + g / font_scale_y cfg * font_width cfg + j < zlen (font_bool cfg)) by (rewrite Hl; nia).
  destruct (zat_is_Some _ _ Hi) as [b Hb]. unfold load. by rewrite Hb.
Qed.

(** The bit of a column is that of all its pixels. *)
Lemma bit_column j k g : 0 ≤ j → font_scale_x cfg * j ≤ k < font_scale_x cfg * j + font_scale_x cfg →
  glyph_bit cfg c (font_scale_x cfg * j) g = glyph_bit cfg c k g.
Proof.
  intros Hj Hk. unfold glyph_bit. pose proof (co_scale_x _ _ _ _ Hcfg). rewrite (Z.mul_comm (font_scale_x cfg) j), Z.div_mul by lia.
  by rewrite <-(Z.div_unique k (font_scale_x cfg) j (k - font_scale_x cfg * j)) by lia.
Qed.

Lemma lines_drawn pixel dest outer inner : plot_target cfg px py = (dest, outer, inner) →
  (∀ gy gx, 0 ≤ gx < glyph_width cfg → 0 ≤ gy < glyph_height cfg → pixel gy gx (glyph_bit cfg c gx gy) = Ok (glyph_pixel cfg c px py gx gy)) →
  ∃ f', scaled_lines cfg (Z.to_nat (glyph_height cfg)) outer inner dest (glyph_start cfg c) 0 pixel f = Ok f' ∧ drawn_at f'.
Proof.
  intros Et Hpix. destruct (plot_place R C _ cfg Hcfg x y Hx Hy) as (_ & _ & Hpl). pose proof (co_font_width _ _ _ _ Hcfg). pose proof (co_font_height _ _ _ _ Hcfg).
  pose proof (co_scale_x _ _ _ _ Hcfg). pose proof (co_scale_y _ _ _ _ Hcfg). pose proof (co_glyph_height _ _ _ _ Hcfg) as Hgh. pose proof (co_glyph_width _ _ _ _ Hcfg) as Hgw.
  eexists. split; [|by apply (rows_drawn dest outer inner)].
  rewrite (scaled_lines_spec cfg ltac:(lia) ltac:(lia) _ _ _ _ _ _ _ (λ g j, glyph_bit cfg c (font_scale_x cfg * j) g) (λ g k, glyph_pixel cfg c px py k g) _ (glyph_width cfg));
    rewrite ?Z2Nat.id by lia; [done|lia|lia|lia|nia|..].
  - intros g j Hg Hj. apply bit_load; lia.
  - intros g j k Hg Hj Hk. rewrite (bit_column j k g) by lia. apply Hpix; nia.
  - intros g k Hg Hk. rewrite Z.sub_0_r, (target_pixel R C _ cfg Hcfg px py _ _ _ ltac:(lia) ltac:(lia) Et). apply (pixel_range R C _ cfg Hcfg); lia.
Qed.

Lemma pixel_uncanvas_ok gx gy : plot_char_fn cfg = Scaled_uncanvas ∨ plot_char_fn cfg = Unscaled_uncanvas →
  pixel_uncanvas cfg c (glyph_bit cfg c gx gy) = Ok (glyph_pixel cfg c px py gx gy).
Proof. intros Hp. unfold pixel_uncanvas, glyph_pixel, behind. destruct Hp as [-> | ->]; by destruct (glyph_bit cfg c gx gy). Qed.

Lemma pixel_canvas_ok l gx gy : plot_char_fn cfg = Scaled_canvas ∨ plot_char_fn cfg = Unscaled_canvas → canvas cfg = Some l → zlen l = width cfg * height cfg →
  0 ≤ gx < glyph_width cfg → 0 ≤ gy < glyph_height cfg →
  pixel_canvas cfg c (canvas_index cfg px py gy gx) (glyph_bit cfg c gx gy) = Ok (glyph_pixel cfg c px py gx gy).
Proof.
  intros Hp Hl Hn Hgx Hgy. destruct (plot_place R C _ cfg Hcfg x y Hx Hy) as (_ & _ & Hpl). unfold pixel_canvas, canvas_pixel, glyph_pixel, behind. rewrite Hl.
  destruct (zat_is_Some l (canvas_index cfg px py gy gx)) as [v Hv]; [rewrite Hn; unfold canvas_index; nia|]. unfold load. rewrite Hv. simpl.
  destruct Hp as [-> | ->]; by destruct (glyph_bit cfg c gx gy).
Qed.

(** Drawing a character shows it at its cell and changes no other pixel. *)
Lemma plot_drawn : ∃ f', match plot_char_fn cfg with
    | Scaled_canvas => plot_char_scaled_canvas cfg c x y f
    | Scaled_uncanvas => plot_char_scaled_uncanvas cfg c x y f
    | Unscaled_canvas => plot_char_unscaled_canvas cfg c x y f
    | Unscaled_uncanvas => plot_char_unscaled_uncanvas cfg c x y f
    end = Ok f' ∧ drawn_at f'.
Proof.
  pose proof (co_plotter _ _ _ _ Hcfg) as Hplot. unfold plotter_ok in Hplot. pose proof (co_font_height _ _ _ _ Hcfg). pose proof (co_glyph_height _ _ _ _ Hcfg) as Hgh.
  pose proof pixel_uncanvas_ok as Hun. pose proof pixel_canvas_ok as Hcan.
  unfold plot_char_scaled_canvas, plot_char_scaled_uncanvas, plot_char_unscaled_canvas, plot_char_unscaled_uncanvas.
  destruct (plot_target cfg px py) as [[dest outer] inner] eqn:Et. destruct (plot_char_fn cfg).
  - destruct Hplot as [Hsx Hsy]. rewrite Hsy in Hgh. setoid_rewrite <-(scaled_lines_one cfg Hsx Hsy); [|lia..]. apply lines_drawn; [done|]. intros gy gx _ _. apply Hun. auto.
  - destruct Hplot as (Hsx & Hsy & l & Hl & Hn). rewrite Hsy in Hgh. setoid_rewrite <-(scaled_lines_one cfg Hsx Hsy); [|lia..]. apply lines_drawn; [done|]. intros gy gx Hgx Hgy. eapply Hcan; eauto.
  - apply lines_drawn; [done|]. intros gy gx _ _. apply Hun. auto.
  - destruct Hplot as (l & Hl & Hn). apply lines_drawn; [done|]. intros gy gx Hgx Hgy. eapply Hcan; eauto.
Qed.
End draw.

(** ** An instance *)

(** A font of one pixel, drawn on a frame buffer of one pixel. *)
Definition pixel_config : fb_config :=
  mkConfig Unscaled_uncanvas false 1 1 1 1 1 1 0 0 4 1 1 16 8 0 0 (zrep 256 true) (zrep 8 0) (zrep 8 0) 0xff 0 0xff 0 (Some [7]).
Lemma plot_unscaled_equivalent_witness :
  plot_char_unscaled_canvas pixel_config (mkChar 65 0xff 0) 0 0 [0] = plot_char_scaled_canvas pixel_config (mkChar 65 0xff 0) 0 0 [0] ∧
  plot_char_unscaled_uncanvas pixel_config (mkChar 65 0xff 0) 0 0 [0] = plot_char_scaled_uncanvas pixel_config (mkChar 65 0xff 0) 0 0 [0].
Proof. apply plot_unscaled_equivalent; [reflexivity|reflexivity|cbn; lia]. Defined.
