(* ===== verification/FbTermSafe.v ===== *)
(** * The frame buffer terminal refines a plain screen (fb.c)

    The abstract back end [screen] has one character per cell and no queue.  The
    frame buffer keeps an invariant that bounds its arrays, and each of its
    operations has the effect of the abstract one on what the cells hold. *)

From Stdlib Require Import Ascii.
From S2P Require Import Prelude Bytes FlanTerm FlanTermSafe FbFont FbTerm FbTermDraw.

(** ** The abstract screen *)

Record screen : Type := mkScreen {
  s_config : fb_config;
  s_cells : list fb_char;
  s_fg : Z;
  s_bg : Z;
  s_x : Z;
  s_y : Z;
  s_saved : Z * Z * Z * Z;
}.

Definition s_with_cells (l : list fb_char) (s : screen) : screen := mkScreen (s_config s) l (s_fg s) (s_bg s) (s_x s) (s_y s) (s_saved s).
Definition s_with_fg (v : Z) (s : screen) : screen := mkScreen (s_config s) (s_cells s) v (s_bg s) (s_x s) (s_y s) (s_saved s).
Definition s_with_bg (v : Z) (s : screen) : screen := mkScreen (s_config s) (s_cells s) (s_fg s) v (s_x s) (s_y s) (s_saved s).
Definition s_with_cursor (x y : Z) (s : screen) : screen := mkScreen (s_config s) (s_cells s) (s_fg s) (s_bg s) x y (s_saved s).
Definition s_empty (s : screen) : fb_char := mkChar (chr " ") (s_fg s) (s_bg s).

(** The cells computed from their indices. *)
Definition tabulate (n : Z) (f : Z → fb_char) : list fb_char := f <$> seqZ 0 n.
Definition cell_or (d : fb_char) (l : list fb_char) (i : Z) : fb_char := default d (zat l i).

Definition put_cell (t : term) (c : fb_char) (x y : Z) (s : screen) : screen :=
  if (x <? cols t) && (y <? rows t) then s_with_cells (<[Z.to_nat (y * cols t + x) := c]> (s_cells s)) s else s.

(** The rows of the region move up, and its last row is cleared ... *)
Definition s_scroll (t : term) (s : screen) : screen :=
  s_with_cells (tabulate (zlen (s_cells s)) (λ i,
    if (scroll_top_margin t * cols t <=? i) && (i <? (scroll_bottom_margin t - 1) * cols t) then cell_or (s_empty s) (s_cells s) (i + cols t)
    else if ((scroll_bottom_margin t - 1) * cols t <=? i) && (i <? scroll_bottom_margin t * cols t) then s_empty s
    else cell_or (s_empty s) (s_cells s) i)) s.
(** ... or down, and its first row is cleared. *)
Definition s_revscroll (t : term) (s : screen) : screen :=
  s_with_cells (tabulate (zlen (s_cells s)) (λ i,
    if (scroll_top_margin t * cols t <=? i) && (i <? (scroll_top_margin t + 1) * cols t) then s_empty s
    else if ((scroll_top_margin t + 1) * cols t <=? i) && (i <? scroll_bottom_margin t * cols t) then cell_or (s_empty s) (s_cells s) (i - cols t)
    else cell_or (s_empty s) (s_cells s) i)) s.
Definition s_clear (move : bool) (s : screen) : screen :=
  let s' := s_with_cells (tabulate (zlen (s_cells s)) (λ _, s_empty s)) s in
  if move then s_with_cursor 0 0 s' else s'.

Definition s_move_character (t : term) (new_x new_y old_x old_y : Z) (s : screen) : screen :=
  if (old_x <? cols t) && (old_y <? rows t) then put_cell t (cell_or (s_empty s) (s_cells s) (old_y * cols t + old_x)) new_x new_y s else s.

(** A character at the cursor, which wraps before it if it is behind the line. *)
Definition s_wrap (t : term) (s : screen) : screen :=
  if (cols t <=? s_x s) && ((s_y s <? scroll_bottom_margin t - 1) || scroll_enabled t) then
    let s := if sz (s_y s + 1) =? scroll_bottom_margin t then s_scroll t (s_with_cursor 0 (s_y s) s) else s_with_cursor 0 (sz (s_y s + 1)) s in
    if cols t <=? s_y s then s_with_cursor 0 (cols t - 1) s else s
  else s.
Definition s_raw_putchar (t : term) (c : Z) (s : screen) : screen :=
  let s := s_wrap t s in
  put_cell t (mkChar c (s_fg s) (s_bg s)) (s_x s) (s_y s) (s_with_cursor (sz (s_x s + 1)) (s_y s) s).

(** A position of the cursor is moved onto the screen. *)
Definition clip (limit x : Z) : Z := if limit <=? x then if int_negative x then 0 else limit - 1 else x.
Definition clip_high (limit x : Z) : Z := if limit <=? x then limit - 1 else x.

#[export] Instance screen_backend : Backend screen := {
  b_raw_putchar t c s := Ok (s_raw_putchar t c s);
  b_clear t move s := Ok (s_clear move s);
  b_set_cursor_pos t x y s := Ok (s_with_cursor (clip (cols t) x) (clip (rows t) y) s);
  b_get_cursor_pos t s := (clip_high (cols t) (s_x s), clip_high (rows t) (s_y s));
  b_set_text_fg _ v s := let? c := load (ansi_colours (s_config s)) v in Ok (s_with_fg c s);
  b_set_text_bg _ v s := let? c := load (ansi_colours (s_config s)) v in Ok (s_with_bg c s);
  b_set_text_fg_bright _ v s := let? c := load (ansi_bright_colours (s_config s)) v in Ok (s_with_fg c s);
  b_set_text_bg_bright _ v s := let? c := load (ansi_bright_colours (s_config s)) v in Ok (s_with_bg c s);
  b_set_text_fg_rgb _ v s := let? c := convert_colour (s_config s) v in Ok (s_with_fg c s);
  b_set_text_bg_rgb _ v s := let? c := convert_colour (s_config s) v in Ok (s_with_bg c s);
  b_set_text_fg_default _ s := Ok (s_with_fg (default_fg (s_config s)) s);
  b_set_text_bg_default _ s := Ok (s_with_bg 0xffffffff s);
  b_set_text_fg_default_bright _ s := Ok (s_with_fg (default_fg_bright (s_config s)) s);
  b_set_text_bg_default_bright _ s := Ok (s_with_bg (default_bg_bright (s_config s)) s);
  b_move_character t nx ny ox oy s := Ok (s_move_character t nx ny ox oy s);
  b_scroll t s := Ok (s_scroll t s);
  b_revscroll t s := Ok (s_revscroll t s);
  b_swap_palette _ s := Ok (s_with_fg (s_bg s) (s_with_bg (s_fg s) s));
  b_save_state _ s := Ok (mkScreen (s_config s) (s_cells s) (s_fg s) (s_bg s) (s_x s) (s_y s) (s_fg s, s_bg s, s_x s, s_y s));
  b_restore_state _ s := let '(f, g, x, y) := s_saved s in Ok (s_with_cursor x y (s_with_bg g (s_with_fg f s)));
  b_double_buffer_flush _ s := Ok s;
  b_full_refresh _ s := Ok s;
}.

(** ** Lists *)

Lemma store_spec {A} (l : list A) i v : 0 ≤ i < zlen l →
  ∃ l', store l i v = Ok l' ∧ l' = <[Z.to_nat i := v]> l ∧ zlen l' = zlen l ∧ ∀ k, zat l' k = if decide (k = i) then Some v else zat l k.
Proof.
  intros Hi. exists (<[Z.to_nat i := v]> l). unfold store. rewrite (proj2 (Z.leb_le 0 i)), (proj2 (Z.ltb_lt i _)) by lia. split; [done|]. split; [done|].
  unfold zat, zlen in *. rewrite length_insert. split; [done|]. intros k. destruct (Z.ltb_spec k 0); [by rewrite decide_False by lia|].
  destruct (decide (k = i)) as [->|]; [apply list_lookup_insert_eq; lia|]. apply list_lookup_insert_ne. lia.
Qed.

Lemma load_spec {A} (l : list A) i : 0 ≤ i < zlen l → ∃ v, load l i = Ok v ∧ zat l i = Some v.
Proof. intros Hi. destruct (zat_is_Some l i Hi) as [v Hv]. exists v. unfold load. by rewrite Hv. Qed.

Lemma zat_tabulate n f i : zat (tabulate n f) i = if decide (0 ≤ i < n) then Some (f i) else None.
Proof.
  unfold zat, tabulate. destruct (Z.ltb_spec i 0); [by rewrite decide_False by lia|]. rewrite list_lookup_fmap.
  destruct (decide (0 ≤ i < n)); [rewrite lookup_seqZ_lt by lia; simpl; f_equal; f_equal; lia|by rewrite lookup_seqZ_ge by lia].
Qed.
Lemma zlen_tabulate n f : 0 ≤ n → zlen (tabulate n f) = n.
Proof. intros. unfold zlen, tabulate. rewrite length_fmap, length_seqZ. lia. Qed.

(** A run of a loop keeps what each turn keeps. *)
Lemma rfor_inv {A} (P : Z → A → Prop) n i body a : P i a →
  (∀ j a, i ≤ j < i + Z.of_nat n → P j a → ∃ a', body j a = Ok a' ∧ P (j + 1) a') →
  ∃ a', rfor n i body a = Ok a' ∧ P (i + Z.of_nat n) a'.
Proof.
  revert i a. induction n as [|n IH]; intros i a Ha Hb; cbn [rfor]; [exists a; split; [done|]; by replace (i + Z.of_nat 0) with i by lia|].
  destruct (Hb i a) as (a1 & -> & Ha1); [lia|done|]. cbn [rbind]. destruct (IH (i + 1) a1 Ha1) as (a2 & -> & Ha2); [intros j b Hj; apply Hb; lia|].
  exists a2. split; [done|]. by replace (i + Z.of_nat (S n)) with (i + 1 + Z.of_nat n) by lia.
Qed.

(** ** The invariant *)

(** The character that a cell holds: the one in the queue, or the one drawn last. *)
Definition cell_of (b : fb) (i : Z) (g : fb_char) : fb_char :=
  match zat (map b) i with
  | Some (Some q) => match zat (queue b) q with Some item => q_c item | None => g end
  | _ => g
  end.
Definition cells (b : fb) : list fb_char := imap (λ i g, cell_of b (Z.of_nat i) g) (grid b).

Definition view (b : fb) : screen :=
  mkScreen (config b) (cells b) (text_fg b) (text_bg b) (cursor_x b) (cursor_y b)
    (saved_state_text_fg b, saved_state_text_bg b, saved_state_cursor_x b, saved_state_cursor_y b).

Abbreviation is_size x := (0 ≤ x < 2 ^ 64).
Definition char_ok (c : fb_char) : Prop := 0 ≤ ch c < 256.

Section refine.
Context (R C : Z) (HR : 0 < R < 2 ^ 31) (HC : 0 < C < 2 ^ 31).

Definition item_ok (item : queue_item) : Prop := 0 ≤ q_x item < C ∧ 0 ≤ q_y item < R ∧ char_ok (q_c item).
Definition item_cell (item : queue_item) : Z := q_y item * C + q_x item.

(** The arrays: items of the queue and entries of the map belong together. *)
Record arrays_ok (b : fb) : Prop := mk_arrays_ok {
  ao_grid : zlen (grid b) = R * C;
  ao_map : zlen (map b) = R * C;
  ao_queue : zlen (queue b) = R * C;
  ao_queue_i : 0 ≤ queue_i b ≤ R * C;
  ao_chars i c : zat (grid b) i = Some c → char_ok c;
  ao_mapped i q : zat (map b) i = Some (Some q) → 0 ≤ q < queue_i b ∧ ∃ item, zat (queue b) q = Some item ∧ item_cell item = i;
  ao_queued q item : 0 ≤ q < queue_i b → zat (queue b) q = Some item → item_ok item ∧ zat (map b) (item_cell item) = Some (Some q);
}.

Lemma cell_bound x y : 0 ≤ x < C → 0 ≤ y < R → 0 ≤ y * C + x < R * C.
Proof. nia. Qed.
Lemma cells_bound : 0 < R * C < 2 ^ 62.
Proof. nia. Qed.

Lemma sz_small z : 0 ≤ z < 2 ^ 64 → sz z = z.
Proof. apply Z.mod_small. Qed.
Lemma sz_cell x y : 0 ≤ x < C → 0 ≤ y < R → sz (sz (y * C) + x) = y * C + x.
Proof.
  intros Hx Hy. pose proof (cell_bound x y Hx Hy). pose proof cells_bound. assert (0 ≤ y * C) by nia. rewrite (sz_small (y * C)) by lia. apply sz_small. lia.
Qed.

Lemma zlen_cells b : zlen (cells b) = zlen (grid b).
Proof. unfold zlen, cells. by rewrite length_imap. Qed.
Lemma zat_cells b i : zat (cells b) i = cell_of b i <$> zat (grid b) i.
Proof.
  unfold zat, cells. destruct (Z.ltb_spec i 0); [done|]. rewrite list_lookup_imap. destruct (grid b !! Z.to_nat i); [|done]. simpl. do 2 f_equal. lia.
Qed.

(** The queue has room for a cell that is not in it. *)
Lemma queue_room b i : arrays_ok b → 0 ≤ i < R * C → zat (map b) i = Some None → queue_i b < R * C.
Proof.
  intros Hb Hi Hn. pose proof (ao_queue_i b Hb). destruct (decide (queue_i b = R * C)) as [E|]; [|lia]. exfalso.
  set (pos := λ q : nat, match zat (queue b) (Z.of_nat q) with Some item => Z.to_nat (item_cell item) | None => O end).
  assert (Hq : ∀ q, (q < Z.to_nat (R * C))%nat → ∃ item, zat (queue b) (Z.of_nat q) = Some item ∧ item_ok item ∧ zat (map b) (item_cell item) = Some (Some (Z.of_nat q))).
  { intros q Hq. destruct (zat_is_Some (queue b) (Z.of_nat q)) as [item Hit]; [rewrite (ao_queue b Hb); lia|]. exists item. split; [done|].
    apply (ao_queued b Hb); [lia|done]. }
  assert (Hnd : NoDup (Z.to_nat i :: (pos <$> seq 0 (Z.to_nat (R * C))))).
  { constructor.
    - intros (q & Eq & Hin)%list_elem_of_fmap. apply elem_of_seq in Hin. destruct (Hq q) as (item & Hit & (Hx & Hy & _) & Hm); [lia|].
      unfold pos in Eq. rewrite Hit in Eq. pose proof (cell_bound _ _ Hx Hy). unfold item_cell in *. replace (q_y item * C + q_x item) with i in Hm by lia. congruence.
    - apply NoDup_fmap_2_strong; [|apply NoDup_seq]. intros q q' Hin Hin' Eq. apply elem_of_seq in Hin, Hin'.
      destruct (Hq q) as (item & Hit & (Hx & Hy & _) & Hm); [lia|]. destruct (Hq q') as (item' & Hit' & (Hx' & Hy' & _) & Hm'); [lia|].
      unfold pos in Eq. rewrite Hit, Hit' in Eq. pose proof (cell_bound _ _ Hx Hy). pose proof (cell_bound _ _ Hx' Hy'). unfold item_cell in *.
      replace (q_y item' * C + q_x item') with (q_y item * C + q_x item) in Hm' by lia. rewrite Hm in Hm'. injection Hm'. lia. }
  assert (Hle : (length (Z.to_nat i :: (pos <$> seq 0 (Z.to_nat (R * C)))) ≤ length (seq 0 (Z.to_nat (R * C))))%nat).
  { apply submseteq_length, NoDup_submseteq; [done|]. intros k [->|(q & -> & Hin)%list_elem_of_fmap]%elem_of_cons; apply elem_of_seq; [lia|].
    apply elem_of_seq in Hin. destruct (Hq q) as (item & Hit & (Hx & Hy & _) & _); [lia|]. unfold pos. rewrite Hit. pose proof (cell_bound _ _ Hx Hy). unfold item_cell. lia. }
  simpl in Hle. rewrite length_fmap in Hle. lia.
Qed.

Lemma compare_char_spec a b : compare_char a b = bool_decide (a = b).
Proof.
  destruct a as [c1 f1 b1], b as [c2 f2 b2]. unfold compare_char. simpl.
  destruct (Z.eqb_spec c1 c2), (Z.eqb_spec b1 b2), (Z.eqb_spec f1 f2); simpl; symmetry; (apply bool_decide_eq_true_2 || apply bool_decide_eq_false_2); congruence.
Qed.

(** What is on the screen, which changes only when it is drawn. *)
Definition drawn (b : fb) : list Z * list fb_char * Z * Z * Z := (framebuffer b, grid b, old_cursor_x b, old_cursor_y b, flushes b).

(** The cells after one of them has changed. *)
Lemma cells_update b b' i c : 0 ≤ i < zlen (grid b) → grid b' = grid b →
  (∀ g, zat (grid b) i = Some g → cell_of b' i g = c) → (∀ j g, j ≠ i → zat (grid b) j = Some g → cell_of b' j g = cell_of b j g) →
  cells b' = <[Z.to_nat i := c]> (cells b).
Proof.
  intros Hi Hg Hc Hj. destruct (store_spec (cells b) i c) as (l & _ & <- & Hl & Hz); [by rewrite zlen_cells|].
  apply zat_ext; [rewrite Hl, !zlen_cells; by f_equal|]. intros k Hk. rewrite Hz, !zat_cells, Hg. destruct (decide (k = i)) as [->|].
  - destruct (zat_is_Some (grid b) i Hi) as [g Eg]. rewrite Eg. simpl. f_equal. by apply Hc.
  - destruct (zat (grid b) k) as [g|] eqn:Eg; [|done]. simpl. f_equal. by apply Hj.
Qed.

Lemma zat_map_None b i : arrays_ok b → 0 ≤ i < R * C → zat (map b) i = None → False.
Proof. intros Hb Hi Hn. destruct (zat_is_Some (map b) i) as [? E]; [by rewrite (ao_map b Hb)|]. by rewrite Hn in E. Qed.

(** A queued cell gets another character. *)
Lemma push_again b i q item c : arrays_ok b → 0 ≤ i < R * C → zat (map b) i = Some (Some q) → zat (queue b) q = Some item → char_ok c →
  let b' := with_queue (<[Z.to_nat q := mkItem (q_x item) (q_y item) c]> (queue b)) b in
  arrays_ok b' ∧ cells b' = <[Z.to_nat i := c]> (cells b).
Proof.
  intros Hb Hi Hm Hq Hc. destruct (ao_mapped b Hb i q Hm) as (Hqi & item' & Hq' & Hcell). rewrite Hq in Hq'. injection Hq' as <-.
  destruct (ao_queued b Hb q item Hqi Hq) as ((Hx & Hy & _) & _).
  destruct (store_spec (queue b) q (mkItem (q_x item) (q_y item) c)) as (l & _ & <- & Hl & Hz); [by apply zat_Some_range in Hq|]. cbv zeta. split.
  - destruct Hb. constructor; cbn; try done; [lia| |].
    + intros j q' Hj. destruct (ao_mapped0 j q' Hj) as (? & it & Hit & ?). split; [done|]. rewrite Hz. destruct (decide (q' = q)) as [->|]; [|eauto].
      eexists. split; [done|]. rewrite Hq in Hit. by injection Hit as <-.
    + intros q' it Hq'. rewrite Hz. destruct (decide (q' = q)) as [->|]; [|by apply ao_queued0]. intros [= <-]. split; [done|].
      by destruct (ao_queued0 q item Hq' Hq).
  - apply (cells_update b _ i c); [by rewrite (ao_grid b Hb)|done|..].
    + intros g _. unfold cell_of. cbn. by rewrite Hm, Hz, decide_True.
    + intros j g Hj _. unfold cell_of. cbn. destruct (zat (map b) j) as [[q'|]|] eqn:Ej; [|done..]. rewrite Hz. destruct (decide (q' = q)) as [->|]; [|done].
      destruct (ao_mapped b Hb j q Ej) as (_ & it & Hit & Hj'). rewrite Hq in Hit. injection Hit as <-. congruence.
Qed.

(** A cell that is not queued gets a place in the queue. *)
Lemma push_new b x y c : arrays_ok b → 0 ≤ x < C → 0 ≤ y < R → zat (map b) (y * C + x) = Some None → char_ok c →
  let b' := with_queue_i (queue_i b + 1) (with_map (<[Z.to_nat (y * C + x) := Some (queue_i b)]> (map b))
    (with_queue (<[Z.to_nat (queue_i b) := mkItem x y c]> (queue b)) b)) in
  arrays_ok b' ∧ cells b' = <[Z.to_nat (y * C + x) := c]> (cells b).
Proof.
  intros Hb Hx Hy Hm Hc. pose proof (cell_bound x y Hx Hy) as Hi. set (i := y * C + x) in *. pose proof (queue_room b i Hb Hi Hm) as Hr. pose proof (ao_queue_i b Hb).
  destruct (store_spec (queue b) (queue_i b) (mkItem x y c)) as (l & _ & <- & Hl & Hz); [rewrite (ao_queue b Hb); lia|].
  destruct (store_spec (map b) i (Some (queue_i b))) as (m & _ & <- & Hml & Hmz); [by rewrite (ao_map b Hb)|]. cbv zeta. split.
  - destruct Hb. constructor; cbn; try done; [lia..| |].
    + intros j q. rewrite Hmz. destruct (decide (j = i)) as [->|].
      * intros [= <-]. split; [lia|]. rewrite Hz, decide_True by done. eauto.
      * intros Hj. destruct (ao_mapped0 j q Hj) as (? & it & Hit & ?). split; [lia|]. rewrite Hz, decide_False by lia. eauto.
    + intros q it Hq. rewrite Hz. destruct (decide (q = queue_i b)) as [->|].
      * intros [= <-]. split; [done|]. unfold item_cell. simpl. fold i. by rewrite Hmz, decide_True.
      * intros Hit. destruct (ao_queued0 q it) as [? Hc']; [lia|done|]. split; [done|]. rewrite Hmz, decide_False; [done|]. intros E. congruence.
  - apply (cells_update b _ i c); [by rewrite (ao_grid b Hb)|done|..].
    + intros g _. unfold cell_of. cbn. by rewrite Hmz, decide_True, Hz, decide_True.
    + intros j g Hj _. unfold cell_of. cbn. rewrite Hmz, decide_False by done. destruct (zat (map b) j) as [[q'|]|] eqn:Ej; [|done..].
      destruct (ao_mapped b Hb j q' Ej) as (? & _). by rewrite Hz, decide_False by lia.
Qed.

(** Pushing a character changes its cell on the screen, and nothing that is drawn. *)
Lemma push_spec t c x y b : arrays_ok b → rows t = R → cols t = C → 0 ≤ x → 0 ≤ y → char_ok c →
  ∃ b', push_to_queue t c x y b = Ok b' ∧ arrays_ok b' ∧ view b' = put_cell t c x y (view b) ∧ drawn b' = drawn b.
Proof.
  intros Hb HRt HCt Hx Hy Hc. unfold push_to_queue, put_cell. rewrite HRt, HCt. destruct (Z.leb_spec C x) as [?|Hx']; [rewrite (proj2 (Z.ltb_ge x C)) by lia; eauto|].
  destruct (Z.leb_spec R y) as [?|Hy']; [rewrite (proj2 (Z.ltb_ge y R)) by lia; rewrite andb_false_r; eauto|].
  rewrite (proj2 (Z.ltb_lt x C)), (proj2 (Z.ltb_lt y R)) by lia. cbn [orb andb]. pose proof (cell_bound x y ltac:(lia) ltac:(lia)) as Hi. pose proof cells_bound.
  rewrite sz_cell by lia.
  destruct (load_spec (map b) (y * C + x)) as (q & -> & Hq); [by rewrite (ao_map b Hb)|]. cbn [rbind]. destruct q as [q|].
  - destruct (ao_mapped b Hb _ _ Hq) as (Hqi & item & Hit & Hcell). pose proof (zat_Some_range _ _ _ Hit). unfold load. rewrite Hit. cbn [unwrap rbind].
    destruct (store_spec (queue b) q (mkItem (q_x item) (q_y item) c)) as (l & -> & -> & _); [done|]. cbn [rbind].
    destruct (push_again b _ q item c Hb Hi Hq Hit Hc) as [Ha Hcs]. eexists. split; [done|]. split; [exact Ha|]. split; [|done]. unfold view. by rewrite Hcs.
  - destruct (load_spec (grid b) (y * C + x)) as (g & -> & Hg); [by rewrite (ao_grid b Hb)|]. cbn [rbind]. rewrite compare_char_spec. case_bool_decide as Ec.
    + eexists. split; [done|]. split; [done|]. split; [|done]. unfold view, s_with_cells. simpl. f_equal.
      apply (cells_update b b); [by rewrite (ao_grid b Hb)|done| |done]. intros g' Hg'. unfold cell_of. rewrite Hq. congruence.
    + pose proof (queue_room b _ Hb Hi Hq). pose proof (ao_queue_i b Hb).
      destruct (store_spec (queue b) (queue_i b) (mkItem x y c)) as (l & -> & -> & _); [rewrite (ao_queue b Hb); lia|]. cbn [rbind].
      destruct (store_spec (map b) (y * C + x) (Some (queue_i b))) as (m & -> & -> & _); [by rewrite (ao_map b Hb)|]. cbn [rbind].
      unfold wrap. rewrite (Z.mod_small (queue_i b + 1)) by lia.
      destruct (push_new b x y c Hb ltac:(lia) ltac:(lia) Hq Hc) as [Ha Hcs]. eexists. split; [done|]. split; [exact Ha|]. split; [|done]. unfold view. by rewrite Hcs.
Qed.

(** ** Scrolling *)

(** The cells change, and nothing else that is visible. *)
Definition evolves (b b' : fb) : Prop := arrays_ok b' ∧ drawn b' = drawn b ∧ view b' = s_with_cells (cells b') (view b).

Lemma evolves_refl b : arrays_ok b → evolves b b.
Proof. done. Qed.
Lemma evolves_trans b b' b'' : evolves b b' → evolves b' b'' → evolves b b''.
Proof. intros (_ & D1 & V1) (A2 & D2 & V2). split; [done|]. split; [congruence|]. rewrite V2, V1. done. Qed.

Lemma cell_at_spec i b : arrays_ok b → 0 ≤ i < R * C → ∃ c, cell_at i b = Ok c ∧ zat (cells b) i = Some c ∧ char_ok c.
Proof.
  intros Hb Hi. unfold cell_at. rewrite zat_cells. destruct (load_spec (map b) i) as (q & -> & Hq); [by rewrite (ao_map b Hb)|]. cbn [rbind].
  destruct (zat_is_Some (grid b) i) as [g Hg]; [by rewrite (ao_grid b Hb)|]. rewrite Hg. unfold cell_of, load. rewrite Hq. simpl. destruct q as [q|].
  - destruct (ao_mapped b Hb i q Hq) as (Hqi & item & Hit & _). rewrite Hit. simpl. eexists. split; [done|]. split; [done|]. by apply (ao_queued b Hb q item).
  - rewrite Hg. simpl. eexists. split; [done|]. split; [done|]. by apply (ao_chars b Hb i).
Qed.

(** A character is put into the cell with an index. *)
Lemma push_cell t c k x y b : arrays_ok b → rows t = R → cols t = C → char_ok c → 0 ≤ x < C → 0 ≤ y < R → k = y * C + x →
  ∃ b', push_to_queue t c x y b = Ok b' ∧ evolves b b' ∧ ∀ j, zat (cells b') j = if decide (j = k) then Some c else zat (cells b) j.
Proof.
  intros Hb HRt HCt Hc Hx Hy ->. destruct (push_spec t c x y b Hb HRt HCt ltac:(lia) ltac:(lia) Hc) as (b' & E & Hb' & Hv & Hd). exists b'. split; [done|].
  revert Hv. unfold put_cell. rewrite HRt, HCt, (proj2 (Z.ltb_lt x C)), (proj2 (Z.ltb_lt y R)) by lia. simpl. intros Hv.
  assert (Hcs : cells b' = <[Z.to_nat (y * C + x) := c]> (cells b)) by (change (cells b') with (s_cells (view b')); by rewrite Hv).
  split; [split; [done|]; split; [done|]; by rewrite Hv, Hcs|]. intros j. rewrite Hcs.
  destruct (store_spec (cells b) (y * C + x) c) as (l & _ & <- & _ & Hz); [rewrite zlen_cells, (ao_grid b Hb); by apply cell_bound|]. apply Hz.
Qed.

Lemma div_mod_cell k : 0 ≤ k < R * C → 0 ≤ k mod C < C ∧ 0 ≤ k / C < R ∧ k = k / C * C + k mod C.
Proof.
  intros Hk. split; [apply Z.mod_pos_bound; lia|]. split; [|pose proof (Z.div_mod k C); lia].
  split; [apply Z.div_pos; lia|apply Z.div_lt_upper_bound; lia].
Qed.

Lemma clear_row_spec t row b e : arrays_ok b → rows t = R → cols t = C → 0 ≤ row < R → char_ok e →
  ∃ b', rfor (Z.to_nat C) 0 (λ i b', push_to_queue t e i row b') b = Ok b' ∧ evolves b b' ∧
    ∀ k, zat (cells b') k = if decide (row * C ≤ k < (row + 1) * C) then Some e else zat (cells b) k.
Proof.
  intros Hb HRt HCt Hrow He.
  destruct (rfor_inv (λ j b', evolves b b' ∧ ∀ k, zat (cells b') k = if decide (row * C ≤ k < row * C + j) then Some e else zat (cells b) k)
    (Z.to_nat C) 0 (λ i b', push_to_queue t e i row b') b) as (b' & E & Hev & Hz).
  - split; [by apply evolves_refl|]. intros k. by rewrite decide_False by lia.
  - intros j b1 Hj [Hev Hz]. destruct (push_cell t e (row * C + j) j row b1) as (b2 & E2 & Hev2 & Hz2); [apply Hev|done..|lia|done|done|].
    exists b2. split; [done|]. split; [by eapply evolves_trans|]. intros k. rewrite Hz2, Hz. repeat case_decide; try done; lia.
  - exists b'. split; [done|]. split; [done|]. intros k. rewrite Hz. repeat case_decide; try done; nia.
Qed.

Lemma view_cells b b' : evolves b b' → ∀ f, (∀ k, 0 ≤ k < R * C → zat (cells b') k = Some (f k)) → arrays_ok b → view b' = s_with_cells (tabulate (zlen (cells b)) f) (view b).
Proof.
  intros (Hb' & _ & ->) f Hf Hb. f_equal. pose proof cells_bound. rewrite zlen_cells, (ao_grid b Hb). apply zat_ext.
  - rewrite zlen_cells, (ao_grid b' Hb'), zlen_tabulate; lia.
  - intros k Hk. rewrite zlen_cells, (ao_grid b' Hb') in Hk. by rewrite zat_tabulate, decide_True, Hf.
Qed.

Lemma cells_default b d k : arrays_ok b → 0 ≤ k < R * C → zat (cells b) k = Some (cell_or d (cells b) k).
Proof. intros Hb Hk. unfold cell_or. destruct (zat_is_Some (cells b) k) as [c ->]; [by rewrite zlen_cells, (ao_grid b Hb)|done]. Qed.

Lemma evolves_empty b b' : evolves b b' → empty b' = s_empty (view b).
Proof.
  intros (_ & _ & Hv). unfold empty, s_empty. change (text_fg b') with (s_fg (view b')). change (text_bg b') with (s_bg (view b')). by rewrite Hv.
Qed.

Lemma scroll_spec t b : arrays_ok b → geo R C t →
  ∃ b', flanterm_fb_scroll t b = Ok b' ∧ arrays_ok b' ∧ drawn b' = drawn b ∧ view b' = s_scroll t (view b).
Proof.
  intros Hb (HRt & HCt & Htop & Hbot). pose proof cells_bound. unfold flanterm_fb_scroll. rewrite HCt.
  assert (Hfrom : 0 ≤ (scroll_top_margin t + 1) * C ≤ R * C) by nia. assert (Hto : 0 ≤ scroll_bottom_margin t * C ≤ R * C) by nia.
  rewrite (sz_small (scroll_top_margin t + 1)), (sz_small ((scroll_top_margin t + 1) * C)), (sz_small (scroll_bottom_margin t * C)), (sz_small (scroll_bottom_margin t - 1)) by lia.
  set (top := scroll_top_margin t) in *. set (bot := scroll_bottom_margin t) in *.
  destruct (rfor_inv (λ j b', evolves b b' ∧ ∀ k, zat (cells b') k = if decide (top * C ≤ k < j - C) then zat (cells b) (k + C) else zat (cells b) k)
    (Z.to_nat (bot * C - (top + 1) * C)) ((top + 1) * C) (λ i b, let? c := cell_at i b in let? x := umod (sz (i - C)) C in let? y := udiv (sz (i - C)) C in push_to_queue t c x y b) b) as (b1 & E1 & Hev1 & Hz1).
  - split; [by apply evolves_refl|]. intros k. by rewrite decide_False by lia.
  - intros j b1 Hj [Hev Hz]. destruct (cell_at_spec j b1) as (c & -> & Hcj & Hc); [apply Hev|nia|]. cbn [rbind]. rewrite (sz_small (j - C)) by nia.
    rewrite umod_ok, udiv_ok by lia. cbn [rbind]. destruct (div_mod_cell (j - C)) as (Hx & Hy & Ek); [nia|].
    destruct (push_cell t c (j - C) _ _ b1 (proj1 Hev) HRt HCt Hc Hx Hy Ek) as (b2 & -> & Hev2 & Hz2). exists b2. split; [done|].
    split; [by eapply evolves_trans|]. intros k. rewrite Hz2, Hz. rewrite Hz, decide_False in Hcj by lia. repeat case_decide; try done; try lia.
    subst. by rewrite <-Hcj; f_equal; lia.
  - rewrite E1. cbn [rbind]. unfold clear_row. rewrite HCt.
    destruct (clear_row_spec t (bot - 1) b1 (empty b1) (proj1 Hev1) HRt HCt ltac:(lia) ltac:(done)) as (b2 & -> & Hev2 & Hz2).
    pose proof (evolves_trans _ _ _ Hev1 Hev2) as Hev. exists b2. split; [done|]. split; [apply Hev|]. split; [apply Hev|]. unfold s_scroll. rewrite HCt. fold top bot.
    apply (view_cells b b2 Hev); [|done]. intros k Hk. rewrite Hz2, Hz1, (evolves_empty b b1 Hev1). cbn [s_cells view].
    destruct (Z.leb_spec (top * C) k), (Z.ltb_spec k ((bot - 1) * C)), (Z.leb_spec ((bot - 1) * C) k), (Z.ltb_spec k (bot * C)); cbn [andb];
      repeat case_decide; try lia; try done; try (apply cells_default; [done|nia]).
Qed.

(** The loop ends at the first row of the region, which may be that of the screen. *)
Lemma revscroll_end fuel t i b : cols t = C → 0 ≤ scroll_top_margin t < R → i = SIZE_MAX ∨ 0 ≤ i < scroll_top_margin t * C →
  (0 < fuel)%nat → revscroll_loop fuel t i b = Ok b.
Proof.
  intros HCt Htop Hi Hf. destruct fuel as [|fuel]; [lia|]. cbn [revscroll_loop]. rewrite HCt. pose proof cells_bound. rewrite (sz_small (scroll_top_margin t * C)) by nia.
  destruct Hi as [->|Hi]; [by destruct (_ <=? _)|]. by rewrite (proj2 (Z.leb_gt _ _)) by lia.
Qed.

Lemma revscroll_loop_spec n t fuel b : arrays_ok b → rows t = R → cols t = C → 0 ≤ scroll_top_margin t < R →
  scroll_top_margin t * C + Z.of_nat n + C ≤ R * C → (n < fuel)%nat →
  ∃ b', revscroll_loop fuel t (sz (scroll_top_margin t * C + Z.of_nat n - 1)) b = Ok b' ∧ evolves b b' ∧
    ∀ k, zat (cells b') k = if decide (scroll_top_margin t * C + C ≤ k < scroll_top_margin t * C + C + Z.of_nat n) then zat (cells b) (k - C) else zat (cells b) k.
Proof.
  intros Hb HRt HCt Htop. pose proof cells_bound. set (top := scroll_top_margin t) in *. assert (0 ≤ top * C) by nia.
  revert fuel b Hb. induction n as [|n IH]; intros fuel b Hb Hn Hf.
  - exists b. split; [|split; [by apply evolves_refl|intros k; by rewrite decide_False by lia]]. apply revscroll_end; [done|done| |lia]. fold top.
    destruct (decide (top = 0)) as [->|]; [by left|right]. rewrite sz_small; nia.
  - destruct fuel as [|fuel]; [lia|]. cbn [revscroll_loop]. rewrite HCt. fold top. rewrite (sz_small (top * C)), (sz_small (top * C + Z.of_nat (S n) - 1)) by lia.
    rewrite (proj2 (Z.leb_le _ _)) by lia. unfold SIZE_MAX. rewrite (proj2 (Z.eqb_neq _ _)) by lia. set (i := top * C + Z.of_nat (S n) - 1).
    destruct (cell_at_spec i b Hb) as (c & -> & Hci & Hc); [lia|]. cbn [rbind]. rewrite (sz_small (i + C)) by lia. rewrite umod_ok, udiv_ok by lia. cbn [rbind].
    destruct (div_mod_cell (i + C)) as (Hx & Hy & Ek); [lia|]. destruct (push_cell t c (i + C) _ _ b Hb HRt HCt Hc Hx Hy Ek) as (b1 & -> & Hev1 & Hz1). cbn [rbind].
    replace (i - 1) with (top * C + Z.of_nat n - 1) by lia. destruct (IH fuel b1 (proj1 Hev1)) as (b2 & -> & Hev2 & Hz2); [lia..|].
    exists b2. split; [done|]. split; [by eapply evolves_trans|]. intros k. rewrite Hz2, !Hz1. repeat case_decide; try done; try lia.
    rewrite <-Hci. f_equal. lia.
Qed.

Lemma revscroll_spec t b : arrays_ok b → geo R C t →
  ∃ b', flanterm_fb_revscroll t b = Ok b' ∧ arrays_ok b' ∧ drawn b' = drawn b ∧ view b' = s_revscroll t (view b).
Proof.
  intros Hb (HRt & HCt & Htop & Hbot). pose proof cells_bound. set (top := scroll_top_margin t) in *. set (bot := scroll_bottom_margin t) in *.
  assert (Hloop : ∃ b', revscroll_loop (S (Z.to_nat (rows t * cols t))) t (sz (sz (sz (bot - 1) * cols t) - 1)) b = Ok b' ∧ evolves b b' ∧
    ∀ k, zat (cells b') k = if decide ((top + 1) * C ≤ k < bot * C) then zat (cells b) (k - C) else zat (cells b) k).
  { rewrite HRt, HCt. assert (0 ≤ (bot - 1) * C < R * C) by nia. rewrite (sz_small (bot - 1)), (sz_small ((bot - 1) * C)) by lia.
    destruct (decide (top < bot)) as [Hlt|Hge].
    - destruct (revscroll_loop_spec (Z.to_nat ((bot - 1 - top) * C)) t (S (Z.to_nat (R * C))) b Hb HRt HCt Htop) as (b' & E & Hev & Hz); [fold top; nia|nia|].
      fold top in E, Hz. rewrite Z2Nat.id in E, Hz by nia. replace (top * C + (bot - 1 - top) * C) with ((bot - 1) * C) in E by lia.
      exists b'. split; [done|]. split; [done|]. intros k. rewrite Hz. repeat case_decide; try done; lia.
    - exists b. split; [|split; [by apply evolves_refl|intros k; rewrite decide_False; [done|nia]]]. apply revscroll_end; [done|done| |lia]. fold top.
      destruct (decide (bot = 1)) as [->|]; [by left|right]. rewrite sz_small; nia. }
  destruct Hloop as (b1 & E1 & Hev1 & Hz1). unfold flanterm_fb_revscroll. fold bot top. rewrite E1. cbn [rbind]. unfold clear_row. rewrite HCt.
  destruct (clear_row_spec t top b1 (empty b1) (proj1 Hev1) HRt HCt ltac:(lia) ltac:(done)) as (b2 & -> & Hev2 & Hz2).
  pose proof (evolves_trans _ _ _ Hev1 Hev2) as Hev. exists b2. split; [done|]. split; [apply Hev|]. split; [apply Hev|]. unfold s_revscroll. rewrite HCt. fold top bot.
  apply (view_cells b b2 Hev); [|done]. intros k Hk. rewrite Hz2, Hz1, (evolves_empty b b1 Hev1). cbn [s_cells view].
  destruct (Z.leb_spec (top * C) k), (Z.ltb_spec k ((top + 1) * C)), (Z.leb_spec ((top + 1) * C) k), (Z.ltb_spec k (bot * C)); cbn [andb];
    repeat case_decide; try lia; try done; try (apply cells_default; [done|nia]).
Qed.

Lemma clear_spec t move b : arrays_ok b → rows t = R → cols t = C →
  ∃ b', flanterm_fb_clear t move b = Ok b' ∧ arrays_ok b' ∧ drawn b' = drawn b ∧ view b' = s_clear move (view b).
Proof.
  intros Hb HRt HCt. pose proof cells_bound. unfold flanterm_fb_clear. rewrite HRt, HCt, sz_small by lia.
  destruct (rfor_inv (λ j b', evolves b b' ∧ ∀ k, zat (cells b') k = if decide (0 ≤ k < j) then Some (empty b) else zat (cells b) k)
    (Z.to_nat (R * C)) 0 (λ i b', let? x := umod i C in let? y := udiv i C in push_to_queue t (empty b) x y b') b) as (b1 & E1 & Hev1 & Hz1).
  - split; [by apply evolves_refl|]. intros k. by rewrite decide_False by lia.
  - intros j b1 Hj [Hev Hz]. rewrite umod_ok, udiv_ok by lia. cbn [rbind]. destruct (div_mod_cell j) as (Hx & Hy & Ek); [lia|].
    destruct (push_cell t (empty b) j _ _ b1 (proj1 Hev) HRt HCt ltac:(done) Hx Hy Ek) as (b2 & -> & Hev2 & Hz2). exists b2. split; [done|].
    split; [by eapply evolves_trans|]. intros k. rewrite Hz2, Hz. repeat case_decide; try done; lia.
  - rewrite E1. cbn [rbind]. assert (Hv : view b1 = s_with_cells (tabulate (zlen (cells b)) (λ _, s_empty (view b))) (view b)).
    { apply (view_cells b b1 Hev1); [|done]. intros k Hk. by rewrite Hz1, decide_True by lia. }
    eexists. split; [done|]. unfold s_clear. cbn [s_cells view]. destruct move; [|split; [apply Hev1|split; [apply Hev1|exact Hv]]].
    split; [destruct (proj1 Hev1); constructor; done|]. split; [apply Hev1|]. by rewrite <-Hv.
Qed.

Lemma move_spec t nx ny ox oy b : arrays_ok b → rows t = R → cols t = C → is_size nx → is_size ny → is_size ox → is_size oy →
  ∃ b', flanterm_fb_move_character t nx ny ox oy b = Ok b' ∧ arrays_ok b' ∧ drawn b' = drawn b ∧ view b' = s_move_character t nx ny ox oy (view b).
Proof.
  intros Hb HRt HCt Hnx Hny Hox Hoy. unfold flanterm_fb_move_character, s_move_character. rewrite HRt, HCt.
  destruct (Z.leb_spec C ox), (Z.ltb_spec ox C); try lia; [simpl; eauto|]. destruct (Z.leb_spec R oy), (Z.ltb_spec oy R); try lia; [simpl; eauto|]. cbn [orb andb].
  destruct (Z.leb_spec C nx); [unfold put_cell; rewrite HCt, (proj2 (Z.ltb_ge nx C)) by lia; simpl; eauto|].
  destruct (Z.leb_spec R ny); [unfold put_cell; rewrite HRt, (proj2 (Z.ltb_ge ny R)), andb_false_r by lia; simpl; eauto|]. cbn [orb].
  pose proof (sz_cell ox oy ltac:(lia) ltac:(lia)) as Ei. rewrite Z.add_comm in Ei. rewrite Ei. pose proof (cell_bound ox oy ltac:(lia) ltac:(lia)) as Hi.
  destruct (cell_at_spec _ b Hb Hi) as (c & -> & Hci & Hc). cbn [rbind].
  destruct (push_spec t c nx ny b Hb HRt HCt ltac:(lia) ltac:(lia) Hc) as (b' & -> & Hb' & Hv & Hd). exists b'. split; [done|]. split; [done|]. split; [done|].
  rewrite Hv. cbn [s_cells view]. f_equal. pose proof (cells_default b (s_empty (view b)) _ Hb Hi) as Hc'. congruence.
Qed.

(** ** Flushing *)

Definition invert (c : fb_char) : fb_char := mkChar (ch c) (bg c) (fg c).

(** The cursor is shown at a cell. *)
Definition cursor_at (t : term) (b : fb) (x y : Z) : Prop := cursor_enabled t = true ∧ x = cursor_x b ∧ y = cursor_y b.
Definition old_cursor_at (b : fb) (x y : Z) : Prop := x = old_cursor_x b ∧ y = old_cursor_y b.

(** What was drawn last is on the screen, except where the cursor was. *)
Definition displayed (b : fb) : Prop := ∀ x y c, 0 ≤ x < C → 0 ≤ y < R → ¬ old_cursor_at b x y →
  zat (grid b) (y * C + x) = Some c → shows (config b) (framebuffer b) c x y.

Record fb_inv (b : fb) : Prop := mk_fb_inv {
  fi_arrays : arrays_ok b;
  fi_config : config_ok R C (config b) (zlen (framebuffer b));
  fi_x : is_size (cursor_x b);
  fi_y : is_size (cursor_y b);
  fi_saved_x : is_size (saved_state_cursor_x b);
  fi_saved_y : is_size (saved_state_cursor_y b);
  fi_old_x : 0 ≤ old_cursor_x b;
  fi_old_y : 0 ≤ old_cursor_y b;
  fi_display : displayed b;
}.

(** A character that is drawn leaves the other cells as they are. *)
Lemma shows_other cfg f f' c x y x' y' : config_ok R C cfg (zlen f) → 0 ≤ x < C → 0 ≤ y < R → 0 ≤ x' < C → 0 ≤ y' < R → ¬ (x' = x ∧ y' = y) →
  (∀ p, ¬ in_cell cfg x y p → zat f' p = zat f p) → shows cfg f c x' y' → shows cfg f' c x' y'.
Proof.
  intros Hcfg Hx Hy Hx' Hy' Hne Hf Hs gx gy Hgx Hgy. rewrite Hf; [by apply Hs|]. intros Hin. apply Hne.
  eapply (cells_apart R C (zlen f) cfg Hcfg); [done..|by exists gx, gy|done].
Qed.

Lemma plot_char_spec t c x y b : rows t = R → cols t = C → config_ok R C (config b) (zlen (framebuffer b)) → char_ok c → 0 ≤ x < C → 0 ≤ y < R →
  ∃ f, plot_char t c x y b = Ok (with_framebuffer f b) ∧ zlen f = zlen (framebuffer b) ∧ shows (config b) f c x y ∧
    ∀ p, ¬ in_cell (config b) x y p → zat f p = zat (framebuffer b) p.
Proof.
  intros HRt HCt Hcfg Hc Hx Hy. unfold plot_char. rewrite HRt, HCt, (proj2 (Z.leb_gt C x)), (proj2 (Z.leb_gt R y)) by lia. cbn [orb].
  destruct (plot_drawn R C (config b) (framebuffer b) Hcfg c Hc x y Hx Hy) as (f & E & Hf). exists f. rewrite E. split; [done|exact Hf].
Qed.

(** A pixel that belongs to no cell. *)
Definition border (cfg : fb_config) (p : Z) : Prop := ∀ x y, 0 ≤ x < C → 0 ≤ y < R → ¬ in_cell cfg x y p.

(** The state while the items of the queue from [j] on are still to be drawn. *)
Record flushing (t : term) (b0 : fb) (j : Z) (b : fb) : Prop := mk_flushing {
  fl_view : view b = view b0;
  fl_queue : queue b = queue b0;
  fl_queue_i : queue_i b = queue_i b0;
  fl_old : old_cursor_x b = old_cursor_x b0 ∧ old_cursor_y b = old_cursor_y b0;
  fl_grid : zlen (grid b) = R * C;
  fl_map : zlen (map b) = R * C;
  fl_frame : zlen (framebuffer b) = zlen (framebuffer b0);
  fl_border p : border (config b0) p → zat (framebuffer b) p = zat (framebuffer b0) p;
  fl_chars i c : zat (grid b) i = Some c → char_ok c;
  fl_mapped i q : zat (map b) i = Some (Some q) → zat (map b0) i = Some (Some q) ∧ j ≤ q;
  fl_cells x y c : 0 ≤ x < C → 0 ≤ y < R → ¬ old_cursor_at b0 x y → ¬ cursor_at t b0 x y → zat (grid b) (y * C + x) = Some c → shows (config b0) (framebuffer b) c x y;
  fl_cursor x y c : 0 ≤ x < C → 0 ≤ y < R → cursor_at t b0 x y → zat (grid b) (y * C + x) = Some c →
    zat (map b) (y * C + x) = Some None ∧ shows (config b0) (framebuffer b) (invert c) x y;
}.

Lemma flushing_config t b0 j b : flushing t b0 j b → config b = config b0 ∧ cursor_x b = cursor_x b0 ∧ cursor_y b = cursor_y b0.
Proof. intros Hf. pose proof (fl_view _ _ _ _ Hf) as Hv. by injection Hv. Qed.

(** A cell is moved to the grid: its character was the one in the queue. *)
Lemma cells_settle b i c f : zlen (grid b) = R * C → zlen (map b) = R * C → 0 ≤ i < R * C → (∀ g, zat (grid b) i = Some g → cell_of b i g = c) →
  cells (with_map (<[Z.to_nat i := None]> (map b)) (with_grid (<[Z.to_nat i := c]> (grid b)) (with_framebuffer f b))) = cells b.
Proof.
  intros Hg Hm Hi Hc. destruct (store_spec (grid b) i c) as (g' & _ & <- & Hgl & Hgz); [lia|]. destruct (store_spec (map b) i None) as (m' & _ & <- & Hml & Hmz); [lia|].
  apply zat_ext; [rewrite !zlen_cells; cbn; lia|]. intros k Hk. rewrite !zat_cells. cbn. rewrite Hgz. unfold cell_of. cbn. rewrite Hmz.
  destruct (decide (k = i)) as [->|]; [|done]. destruct (zat_is_Some (grid b) i) as [g Eg]; [lia|]. rewrite Eg. simpl. f_equal. symmetry. by apply Hc.
Qed.

Lemma cell_unique x y x' y' : 0 ≤ x < C → 0 ≤ x' < C → y * C + x = y' * C + x' → x = x' ∧ y = y'.
Proof.
  intros Hx Hx' E. assert (y = y') as ->; [|lia].
  rewrite (Z.div_unique_pos (y * C + x) C y x Hx), (Z.div_unique_pos (y * C + x) C y' x' Hx'); lia.
Qed.

Lemma item_of b0 i q : arrays_ok b0 → zat (map b0) i = Some (Some q) →
  0 ≤ q < queue_i b0 ∧ ∃ item, zat (queue b0) q = Some item ∧ item_cell item = i ∧ item_ok item.
Proof.
  intros Hb E. destruct (ao_mapped _ Hb i q E) as (Hq & item & Ei & Ec). split; [done|]. exists item. split; [done|]. split; [done|].
  by apply (ao_queued _ Hb q item Hq Ei).
Qed.

Section flush.
Context (b0 : fb) (Hb : fb_inv b0).

Lemma flushing_cfg t j b : flushing t b0 j b → config_ok R C (config b) (zlen (framebuffer b)).
Proof. intros Hf. destruct (flushing_config _ _ _ _ Hf) as [-> _]. rewrite (fl_frame _ _ _ _ Hf). by apply fi_config. Qed.

Lemma flushing_cells t j b : flushing t b0 j b → cells b = cells b0.
Proof. intros Hf. pose proof (fl_view _ _ _ _ Hf) as Hv. by injection Hv. Qed.

(** A cell is drawn, with or without the cursor, and moved to the grid. *)
Definition settled (i : Z) (c : fb_char) (f : list Z) (b : fb) : fb :=
  with_map (<[Z.to_nat i := None]> (map b)) (with_grid (<[Z.to_nat i := c]> (grid b)) (with_framebuffer f b)).

Lemma flushing_settle t t' j j' b x y c d f : flushing t b0 j b → 0 ≤ x < C → 0 ≤ y < R → zat (cells b0) (y * C + x) = Some c → char_ok c →
  zlen f = zlen (framebuffer b) → shows (config b) f d x y → (∀ p, ¬ in_cell (config b) x y p → zat f p = zat (framebuffer b) p) →
  (∀ i q, i ≠ y * C + x → zat (map b) i = Some (Some q) → j' ≤ q) →
  (∀ x' y', ¬ (x' = x ∧ y' = y) → cursor_at t' b0 x' y' ↔ cursor_at t b0 x' y') →
  (cursor_at t' b0 x y ∧ d = invert c ∨ ¬ cursor_at t' b0 x y ∧ d = c) →
  flushing t' b0 j' (settled (y * C + x) c f b).
Proof.
  intros Hf Hx Hy Ec Hc Hfl Hs Ho Hj Hcur Hd. pose proof (fl_map _ _ _ _ Hf) as Hml. pose proof (fl_grid _ _ _ _ Hf) as Hgl. pose proof (cell_bound _ _ Hx Hy) as Hi.
  assert (Hcell : ∀ g, zat (grid b) (y * C + x) = Some g → cell_of b (y * C + x) g = c).
  { intros g Eg. rewrite <-(flushing_cells _ _ _ Hf), zat_cells, Eg in Ec. by injection Ec. }
  pose proof (cells_settle b (y * C + x) c f Hgl Hml Hi Hcell) as Hset. unfold settled. revert Hset.
  destruct (store_spec (grid b) (y * C + x) c) as (g & _ & <- & Hgl' & Hgz); [lia|]. destruct (store_spec (map b) (y * C + x) None) as (m & _ & <- & Hml' & Hmz); [lia|]. intros Hset.
  destruct (flushing_config _ _ _ _ Hf) as (Hcf & _). pose proof (flushing_cfg _ _ _ Hf) as Hco. rewrite Hcf in Hs, Ho, Hco.
  split; cbn; try apply Hf; try lia.
  - rewrite <-(fl_view _ _ _ _ Hf). unfold view. by rewrite Hset.
  - rewrite Hfl. apply Hf.
  - intros p Hp. rewrite Ho by (by apply Hp). by apply Hf.
  - intros i c'. rewrite Hgz. destruct (decide _); [congruence|apply Hf].
  - intros i q. rewrite Hmz. destruct (decide (i = y * C + x)) as [|Hne]; [done|]. intros E. split; [by apply (fl_mapped _ _ _ _ Hf)|by apply (Hj i)].
  - intros x' y' c' Hx' Hy' Hold Hncur. rewrite Hgz. destruct (decide (y' * C + x' = y * C + x)) as [E|Hne]; intros Ec'.
    + injection Ec' as <-. destruct (cell_unique _ _ _ _ Hx' Hx E) as [-> ->]. by destruct Hd as [[]|[_ <-]].
    + assert (Hneq : ¬ (x' = x ∧ y' = y)) by (by intros [-> ->]). eapply (shows_other _ (framebuffer b)); [done|exact Hx|exact Hy|done..|].
      apply (fl_cells _ _ _ _ Hf); [done..|by rewrite <-Hcur|done].
  - intros x' y' c' Hx' Hy' Hat. rewrite Hgz, Hmz. destruct (decide (y' * C + x' = y * C + x)) as [E|Hne]; intros Ec'.
    + injection Ec' as <-. destruct (cell_unique _ _ _ _ Hx' Hx E) as [-> ->]. by destruct Hd as [[_ <-]|[]].
    + assert (Hneq : ¬ (x' = x ∧ y' = y)) by (by intros [-> ->]). rewrite Hcur in Hat by done. destruct (fl_cursor _ _ _ _ Hf x' y' c' Hx' Hy' Hat Ec') as [Em1 Hs1]. split; [done|].
      eapply (shows_other _ (framebuffer b)); [done|exact Hx|exact Hy|done..].
Qed.

Lemma store_settled i c f b : zlen (grid b) = R * C → zlen (map b) = R * C → 0 ≤ i < R * C →
  (let? grid := store (grid (with_framebuffer f b)) i c in let? map := store (map (with_framebuffer f b)) i None in
   Ok (with_map map (with_grid grid (with_framebuffer f b)))) = Ok (settled i c f b).
Proof.
  intros Hgl Hml Hi. destruct (store_spec (grid b) i c) as (g & Eg & Hg & _); [lia|]. destruct (store_spec (map b) i None) as (m & Em & Hm & _); [lia|].
  cbn [grid map with_framebuffer]. change (grid (with_framebuffer f b)) with (grid b). rewrite Eg. cbn [rbind].
  change (map (with_framebuffer f b)) with (map b). rewrite Em. cbn [rbind]. by subst.
Qed.

Context (t : term) (HRt : rows t = R) (HCt : cols t = C).

Lemma flush_item_spec j b : 0 ≤ j < queue_i b0 → flushing t b0 j b → ∃ b', flush_item t j b = Ok b' ∧ flushing t b0 (j + 1) b'.
Proof.
  intros Hj Hf. pose proof (fi_arrays _ Hb) as Ha. pose proof (ao_queue_i _ Ha). pose proof (ao_queue _ Ha).
  destruct (zat_is_Some (queue b0) j) as [item Ei]; [lia|]. destruct (ao_queued _ Ha j item Hj Ei) as [(Hx & Hy & Hc) Em0].
  unfold flush_item. rewrite (fl_queue _ _ _ _ Hf). destruct (load_spec (queue b0) j) as (q & -> & Eq); [lia|]. rewrite Ei in Eq. injection Eq as <-. cbn [rbind].
  rewrite HCt, sz_cell by done. pose proof (cell_bound _ _ Hx Hy) as Hi. pose proof (fl_map _ _ _ _ Hf) as Hml. pose proof (fl_grid _ _ _ _ Hf) as Hgl.
  assert (Hlater : ∀ i q, i ≠ item_cell item → zat (map b) i = Some (Some q) → j + 1 ≤ q).
  { intros i q Hne E. destruct (fl_mapped _ _ _ _ Hf i q E) as [E0 Hq]. assert (q ≠ j); [|lia]. intros ->. destruct (item_of b0 i j Ha E0) as (_ & it & Eit & Hit & _). congruence. }
  destruct (load_spec (map b) (q_y item * C + q_x item)) as (m & -> & Em); [lia|]. cbn [rbind]. destruct m as [q|].
  - destruct (fl_mapped _ _ _ _ Hf _ _ Em) as [Em' _]. unfold item_cell in Em0. rewrite Em0 in Em'. injection Em' as <-.
    destruct (plot_char_spec t (q_c item) (q_x item) (q_y item) b HRt HCt (flushing_cfg _ _ _ Hf) Hc Hx Hy) as (f & -> & Hfl & Hs & Ho). cbn [rbind].
    rewrite store_settled by done. eexists. split; [done|]. destruct (zat_is_Some (grid b) (q_y item * C + q_x item)) as [c Ec]; [lia|].
    eapply (flushing_settle t t); [done..| | |done|done|done|exact Hlater|done|].
    + rewrite <-(flushing_cells _ _ _ Hf), zat_cells, Ec. simpl. unfold cell_of. by rewrite Em, (fl_queue _ _ _ _ Hf), Ei.
    + done.
    + right. split; [|done]. intros Hcur. destruct (fl_cursor _ _ _ _ Hf _ _ _ Hx Hy Hcur Ec) as [E _]. congruence.
  - eexists. split; [done|]. destruct Hf. split; try done. intros i q E. split; [by apply fl_mapped0|]. apply (Hlater i); [|done]. unfold item_cell. congruence.
Qed.

Lemma flushing_start t' : (∀ x y, 0 ≤ x < C → 0 ≤ y < R → ¬ cursor_at t' b0 x y) → flushing t' b0 0 b0.
Proof.
  intros Hno. pose proof (fi_arrays _ Hb) as Ha. split; try done; try apply Ha.
  - intros i q E. split; [done|]. by apply (ao_mapped _ Ha) in E as [? _]; lia.
  - intros x y c Hx Hy Hold _. by apply (fi_display _ Hb).
  - intros x y c Hx Hy Hat. by destruct (Hno x y).
Qed.

Lemma settled_same i c f b : zat (map b) i = Some None → zat (grid b) i = Some c → settled i c f b = with_framebuffer f b.
Proof.
  intros Em Eg. unfold settled. destruct (zat_Some_range _ _ _ Em). unfold zat in Em, Eg. rewrite (proj2 (Z.ltb_ge i 0)) in Em, Eg by lia.
  by rewrite (list_insert_id (map b)), (list_insert_id (grid b)).
Qed.

Lemma draw_cursor_spec : cursor_enabled t = true → ∃ b, draw_cursor t b0 = Ok b ∧ flushing t b0 0 b.
Proof.
  intros Hen. pose proof (fi_arrays _ Hb) as Ha. pose proof (fi_x _ Hb). pose proof (fi_y _ Hb). unfold draw_cursor. rewrite HRt, HCt.
  destruct ((C <=? cursor_x b0) || (R <=? cursor_y b0)) eqn:E.
  { eexists. split; [done|]. apply flushing_start. intros x y Hx Hy (_ & -> & ->). lia. }
  set (x := cursor_x b0) in *. set (y := cursor_y b0) in *. assert (Hx : 0 ≤ x < C) by lia. assert (Hy : 0 ≤ y < R) by lia.
  pose proof (cell_bound _ _ Hx Hy) as Hi. rewrite Z.add_comm, sz_cell by done.
  destruct (load_spec (map b0) (y * C + x)) as (q & -> & Em); [by rewrite (ao_map _ Ha)|]. cbn [rbind].
  destruct (cell_at_spec _ _ Ha Hi) as (c & -> & Ec & Hc). cbn [rbind].
  destruct (plot_char_spec t (mkChar (ch c) (bg c) (fg c)) x y b0 HRt HCt (fi_config _ Hb) Hc Hx Hy) as (f & -> & Hfl & Hs & Ho). cbn [rbind].
  assert (Hf : flushing t b0 0 (settled (y * C + x) c f b0)).
  { assert (Hst : flushing (with_cursor_enabled false t) b0 0 b0) by (apply flushing_start; by intros x' y' _ _ [? _]).
    eapply (flushing_settle (with_cursor_enabled false t) t 0 0); [done..| | |].
    - intros i k _ Ek. by apply (ao_mapped _ Ha) in Ek as [? _]; lia.
    - intros x' y' Hne. split; intros (He & Hx' & Hy'); [|done]. by destruct Hne.
    - by left. }
  destruct q as [q|].
  - rewrite store_settled by (done || apply Ha). by eexists.
  - assert (Eg : zat (grid b0) (y * C + x) = Some c).
    { rewrite zat_cells in Ec. destruct (zat (grid b0) (y * C + x)) as [g|]; [|done]. injection Ec as Ec. unfold cell_of in Ec. rewrite Em in Ec. congruence. }
    rewrite (settled_same _ _ _ _ Em Eg) in Hf. by eexists.
Qed.

(** What a cell shows: its character, with the colours swapped under the cursor. *)
Definition cell_shown (x y : Z) (c : fb_char) : fb_char :=
  if cursor_enabled t && (x =? cursor_x b0) && (y =? cursor_y b0) then invert c else c.

Lemma cell_shown_spec x y c : (cursor_at t b0 x y ∧ cell_shown x y c = invert c) ∨ (¬ cursor_at t b0 x y ∧ cell_shown x y c = c).
Proof.
  unfold cell_shown, cursor_at. destruct (cursor_enabled t); simpl; [|by right; split; [intros [? _]|]].
  destruct (Z.eqb_spec x (cursor_x b0)), (Z.eqb_spec y (cursor_y b0)); simpl; naive_solver.
Qed.

(** All of the screen is drawn. *)
Definition all_shown (b : fb) : Prop := ∀ x y c, 0 ≤ x < C → 0 ≤ y < R → zat (cells b0) (y * C + x) = Some c → shows (config b0) (framebuffer b) (cell_shown x y c) x y.

Lemma flushed_grid b x y c : flushing t b0 (queue_i b0) b → zat (cells b0) (y * C + x) = Some c → zat (grid b) (y * C + x) = Some c.
Proof.
  intros Hf. rewrite <-(flushing_cells _ _ _ Hf), zat_cells. destruct (zat (grid b) (y * C + x)) as [g|] eqn:Eg; [|done]. simpl. intros [= <-]. f_equal. unfold cell_of.
  destruct (zat (map b) (y * C + x)) as [[q|]|] eqn:Em; [|done..]. destruct (fl_mapped _ _ _ _ Hf _ _ Em) as [E0 Hq]. apply (ao_mapped _ (fi_arrays _ Hb)) in E0 as [? _]. lia.
Qed.

(** The cursor has not moved, or was not on the screen. *)
Lemma flushed_shown b : flushing t b0 (queue_i b0) b → (∀ x y, 0 ≤ x < C → 0 ≤ y < R → old_cursor_at b0 x y → cursor_at t b0 x y) → all_shown b.
Proof.
  intros Hf Hsame x y c Hx Hy Ec. apply (flushed_grid b) in Ec; [|done]. destruct (cell_shown_spec x y c) as [[Hat ->]|[Hnat ->]].
  - by apply (fl_cursor _ _ _ _ Hf x y c).
  - apply (fl_cells _ _ _ _ Hf); try done. intros Hold. apply Hnat. by apply Hsame.
Qed.

Lemma erase_cursor_spec b : flushing t b0 (queue_i b0) b → ∃ f, erase_cursor t b = Ok (with_framebuffer f b) ∧ zlen f = zlen (framebuffer b) ∧ all_shown (with_framebuffer f b) ∧
  ∀ p, border (config b0) p → zat f p = zat (framebuffer b0) p.
Proof.
  intros Hf. pose proof (fi_old_x _ Hb). pose proof (fi_old_y _ Hb). destruct (flushing_config _ _ _ _ Hf) as (Hcf & Hcx & Hcy). destruct (fl_old _ _ _ _ Hf) as [Hox Hoy].
  unfold erase_cursor. rewrite HRt, HCt, Hox, Hoy, Hcx, Hcy.
  destruct ((negb (old_cursor_x b0 =? cursor_x b0) || negb (old_cursor_y b0 =? cursor_y b0)) || negb (cursor_enabled t)) eqn:Econd.
  2: { apply orb_false_iff in Econd as [? ?%negb_false_iff]. exists (framebuffer b). split; [by destruct b|]. split; [done|]. split; [|apply Hf]. apply flushed_shown; [by destruct b|]. intros x y _ _ [-> ->]. split_and!; [done|lia..]. }
  destruct ((old_cursor_x b0 <? C) && (old_cursor_y b0 <? R)) eqn:Ein.
  2: { exists (framebuffer b). split; [by destruct b|]. split; [done|]. split; [|apply Hf]. apply flushed_shown; [by destruct b|]. intros x y Hx Hy [-> ->]. lia. }
  set (x := old_cursor_x b0) in *. set (y := old_cursor_y b0) in *. assert (Hx : 0 ≤ x < C) by lia. assert (Hy : 0 ≤ y < R) by lia.
  rewrite Z.add_comm, sz_cell by done. pose proof (cell_bound _ _ Hx Hy). destruct (load_spec (grid b) (y * C + x)) as (c & -> & Ec); [by rewrite (fl_grid _ _ _ _ Hf)|]. cbn [rbind].
  destruct (plot_char_spec t c x y b HRt HCt (flushing_cfg _ _ _ Hf) (fl_chars _ _ _ _ Hf _ _ Ec) Hx Hy) as (f & -> & Hfl & Hs & Ho).
  exists f. split; [done|]. split; [done|]. rewrite Hcf in Hs, Ho. split; [|intros p Hp; rewrite Ho by (by apply Hp); by apply Hf].
  intros x' y' c' Hx' Hy' Ec'. apply (flushed_grid b) in Ec'; [|done]. cbn.
  destruct (decide (x' = x ∧ y' = y)) as [[-> ->]|Hne].
  - assert (c' = c) as -> by congruence. destruct (cell_shown_spec x y c) as [[(He & Hex & Hey) _]|[_ ->]]; [|done]. rewrite He, <-Hex, <-Hey, !Z.eqb_refl in Econd. done.
  - pose proof (flushing_cfg _ _ _ Hf) as Hco. rewrite Hcf in Hco. eapply (shows_other _ (framebuffer b)); [done|exact Hx|exact Hy|done..|].
    destruct (cell_shown_spec x' y' c') as [[Hat ->]|[Hnat ->]]; [by apply (fl_cursor _ _ _ _ Hf x' y' c')|]. by apply (fl_cells _ _ _ _ Hf).
Qed.
End flush.

(** Everything that is queued has been drawn: the state is settled, with the cursor where it is now. *)
Lemma fb_inv_settle t b0 b f k : fb_inv b0 → flushing t b0 (queue_i b0) b → zlen f = zlen (framebuffer b) → all_shown b0 t (with_framebuffer f b) →
  fb_inv (with_flushes k (with_queue_i 0 (with_old_cursor (cursor_x b) (cursor_y b) (with_framebuffer f b)))) ∧
  view (with_flushes k (with_queue_i 0 (with_old_cursor (cursor_x b) (cursor_y b) (with_framebuffer f b)))) = view b0.
Proof.
  intros Hb Hf Hfl Hall. destruct (flushing_config _ _ _ _ Hf) as (Hcf & Hcx & Hcy). pose proof (fl_view _ _ _ _ Hf) as Hv. pose proof (fi_arrays _ Hb) as Ha.
  assert (Hnone : ∀ i q, zat (map b) i ≠ Some (Some q)).
  { intros i q Em. destruct (fl_mapped _ _ _ _ Hf _ _ Em) as [E0 Hq]. apply (ao_mapped _ Ha) in E0 as [? _]. lia. }
  split; [|exact Hv]. injection Hv as _ Hcells _ _ _ _ _ _ Hsx Hsy. split; cbn; try rewrite Hcf; try rewrite Hcx; try rewrite Hcy; try (by apply Hb).
  - split; cbn; try apply Hf; try (rewrite (fl_queue _ _ _ _ Hf); apply Ha); try lia.
    intros i q E. by destruct (Hnone i q).
  - rewrite Hfl, (fl_frame _ _ _ _ Hf). apply Hb.
  - rewrite Hsx. apply Hb.
  - rewrite Hsy. apply Hb.
  - intros x y c Hx Hy Hold Ec. cbn in *. rewrite Hcf.
    assert (Ec0 : zat (cells b0) (y * C + x) = Some c).
    { rewrite <-Hcells, zat_cells, Ec. simpl. unfold cell_of. destruct (zat (map b) (y * C + x)) as [[q|]|] eqn:Em; [|done..]. by destruct (Hnone _ _ Em). }
    specialize (Hall x y c Hx Hy Ec0). destruct (cell_shown_spec b0 t x y c) as [[(_ & -> & ->) _]|[_ E]]; [|by rewrite E in Hall].
    destruct Hold. split; cbn; congruence.
Qed.

Lemma flush_spec t b0 : rows t = R → cols t = C → fb_inv b0 →
  ∃ b, flanterm_fb_double_buffer_flush t b0 = Ok b ∧ fb_inv b ∧ view b = view b0 ∧ all_shown b0 t b ∧
  ∀ p, border (config b0) p → zat (framebuffer b) p = zat (framebuffer b0) p.
Proof.
  intros HRt HCt Hb. unfold flanterm_fb_double_buffer_flush.
  assert (Hstart : ∃ b, (if cursor_enabled t then draw_cursor t b0 else Ok b0) = Ok b ∧ flushing t b0 0 b).
  { destruct (cursor_enabled t) eqn:En; [by apply draw_cursor_spec|]. exists b0. split; [done|]. apply flushing_start; [done..|]. intros x y _ _ [? _]. congruence. }
  destruct Hstart as (b1 & -> & Hf1). cbn [rbind]. pose proof (ao_queue_i _ (fi_arrays _ Hb)). rewrite (fl_queue_i _ _ _ _ Hf1).
  destruct (rfor_inv (flushing t b0) (Z.to_nat (queue_i b0)) 0 (flush_item t) b1 Hf1) as (b2 & -> & Hf2).
  { intros j b Hj Hf. apply flush_item_spec; [done..|lia|done]. }
  cbn [rbind]. replace (0 + Z.of_nat (Z.to_nat (queue_i b0))) with (queue_i b0) in Hf2 by lia.
  destruct (erase_cursor_spec b0 Hb t HRt HCt b2 Hf2) as (f & -> & Hfl & Hall & Hbor). cbn [rbind]. eexists. split; [done|]. unfold notify_flush.
  set (b3 := with_queue_i 0 _). destruct (fb_inv_settle t b0 b2 f (if flush_callback (config b3) then flushes b3 + 1 else flushes b3) Hb Hf2 Hfl Hall) as [Hi Hv].
  destruct (flush_callback (config b3)); (split; [exact Hi|]); (split; [exact Hv|]); (split; [exact Hall|]); exact Hbor.
Qed.

(** ** The other operations *)

(** What is drawn does not change while characters are queued. *)
Definition screen_ok (s : screen) : Prop :=
  is_size (s_x s) ∧ is_size (s_y s) ∧ is_size (s_saved s).1.2 ∧ is_size (s_saved s).2.

Lemma view_ok b : fb_inv b → screen_ok (view b).
Proof. intros Hb. split_and!; apply Hb. Qed.

Lemma fb_inv_drawn b b' s : fb_inv b → arrays_ok b' → drawn b' = drawn b → view b' = s → s_config s = config b → screen_ok s → fb_inv b'.
Proof.
  intros Hb Ha Hd <- Hc (?&?&?&?). cbn in Hc. injection Hd as Hfr Hg Hox Hoy _. split; try done; try (rewrite ?Hfr, ?Hc, ?Hox, ?Hoy; apply Hb).
  intros x y c Hx Hy Hold Ec. rewrite Hc, Hfr. rewrite Hg in Ec. apply (fi_display _ Hb); try done. unfold old_cursor_at in *. by rewrite <-Hox, <-Hoy.
Qed.

Lemma with_cursor_arrays x y b : arrays_ok b → arrays_ok (with_cursor x y b).
Proof. intros Ha. split; apply Ha. Qed.

Lemma sz_size z : is_size (sz z).
Proof. apply Z.mod_pos_bound. lia. Qed.

Lemma wrap_spec t b : fb_inv b → geo R C t →
  ∃ b', wrap_cursor t b = Ok b' ∧ arrays_ok b' ∧ drawn b' = drawn b ∧ view b' = s_wrap t (view b).
Proof.
  intros Hb Ht. pose proof (fi_arrays _ Hb) as Ha. pose proof Ht as (HRt & HCt & Htop & Hbot). pose proof (fi_y _ Hb). unfold wrap_cursor, s_wrap. cbn [s_x s_y view].
  rewrite (sz_small (scroll_bottom_margin t - 1)), (sz_small (cols t - 1)) by lia.
  destruct (_ && _); [|by eexists]. cbn.
  assert (Hmid : ∃ b1, (if sz (cursor_y b + 1) =? scroll_bottom_margin t then
      flanterm_fb_scroll t (with_cursor 0 (sz (sz (cursor_y b + 1) - 1)) (with_cursor 0 (sz (cursor_y b + 1)) b)) else Ok (with_cursor 0 (sz (cursor_y b + 1)) b)) = Ok b1 ∧
    arrays_ok b1 ∧ drawn b1 = drawn b ∧
    view b1 = if sz (cursor_y b + 1) =? scroll_bottom_margin t then s_scroll t (s_with_cursor 0 (cursor_y b) (view b)) else s_with_cursor 0 (sz (cursor_y b + 1)) (view b)).
  { destruct (Z.eqb_spec (sz (cursor_y b + 1)) (scroll_bottom_margin t)) as [E|_]; [|by eexists; split; [done|]; split; [by apply with_cursor_arrays|]].
    assert (Ey : sz (sz (cursor_y b + 1) - 1) = cursor_y b).
    { unfold wrap in E |- *. destruct (decide (cursor_y b = 2 ^ 64 - 1)) as [Em|]; [rewrite Em in E; change ((2 ^ 64 - 1 + 1) mod 2 ^ 64) with 0 in E; lia|].
      rewrite (Z.mod_small (cursor_y b + 1)) by lia. rewrite Z.mod_small; lia. }
    rewrite Ey. destruct (scroll_spec t (with_cursor 0 (cursor_y b) (with_cursor 0 (sz (cursor_y b + 1)) b))) as (b1 & -> & Ha1 & Hd1 & Hv1); [|done|].
    { by do 2 apply with_cursor_arrays. }
    eexists. split; [done|]. split; [done|]. split; [exact Hd1|]. exact Hv1. }
  destruct Hmid as (b1 & -> & Ha1 & Hd1 & Hv1). cbn [rbind]. eexists. split; [done|]. rewrite <-Hv1. cbn [s_y view].
  destruct (cols t <=? cursor_y b1); [|done]. split; [by apply with_cursor_arrays|]. split; [exact Hd1|].
  assert (Ex : cursor_x b1 = 0) by (change (s_x (view b1) = 0); rewrite Hv1; by destruct (_ =? _)). rewrite Ex. done.
Qed.

Lemma s_wrap_ok t s : cols t = C → screen_ok s → screen_ok (s_wrap t s) ∧ s_config (s_wrap t s) = s_config s.
Proof.
  intros HCt (?&?&?&?). pose proof (sz_size (s_y s + 1)). unfold s_wrap. destruct (_ && _); [|done]. destruct (_ =? _); cbn; (destruct (_ <=? _); [|done]); split; try done; split_and!; cbn; try done; lia.
Qed.

Lemma put_cell_ok t c x y s : screen_ok s → screen_ok (put_cell t c x y s) ∧ s_config (put_cell t c x y s) = s_config s.
Proof. intros. unfold put_cell. by destruct (_ && _). Qed.

Lemma raw_putchar_spec t c b : fb_inv b → geo R C t → 0 ≤ c < 256 →
  ∃ b', flanterm_fb_raw_putchar t c b = Ok b' ∧ fb_inv b' ∧ view b' = s_raw_putchar t c (view b).
Proof.
  intros Hb Ht Hc. destruct (wrap_spec t b Hb Ht) as (b1 & E & Ha & Hd & Hv). unfold flanterm_fb_raw_putchar. rewrite E. cbn [rbind]. destruct Ht as (HRt & HCt & _).
  destruct (s_wrap_ok t (view b) HCt (view_ok b Hb)) as [Hok Hcf]. unfold s_raw_putchar. rewrite <-Hv in *. cbn [s_fg s_bg s_x s_y view]. destruct Hok as (Hx & Hy & Hs1 & Hs2).
  destruct (push_spec t (mkChar c (text_fg b1) (text_bg b1)) (cursor_x b1) (cursor_y b1) (with_cursor (sz (cursor_x b1 + 1)) (cursor_y b1) b1)) as (b2 & E2 & Ha2 & Hv2 & Hd2);
    [by apply with_cursor_arrays|done..|apply Hx|apply Hy|done|].
  exists b2. split; [exact E2|]. split; [|exact Hv2]. edestruct put_cell_ok as [Hok' Hcf']; [|eapply (fb_inv_drawn b b2 _ Hb Ha2); [by rewrite Hd2|exact Hv2| |exact Hok']].
  - split; [apply sz_size|done].
  - rewrite Hcf'. exact Hcf.
Qed.

Lemma hom_op b (op : ub fb) s : fb_inv b → (∃ b', op = Ok b' ∧ arrays_ok b' ∧ drawn b' = drawn b ∧ view b' = s) → s_config s = config b → screen_ok s →
  ∃ b', op = Ok b' ∧ (Ok s : ub screen) = Ok (view b') ∧ fb_inv b'.
Proof. intros Hb (b' & E & Ha & Hd & Hv) Hc Hs. exists b'. rewrite Hv. split_and!; [done..|]. by apply (fb_inv_drawn b b' s). Qed.

Lemma clip_eq limit x : 0 < limit < 2 ^ 31 → (if limit <=? x then if int_negative x then 0 else sz (limit - 1) else x) = clip limit x.
Proof. intros. unfold clip. by rewrite sz_small by lia. Qed.
Lemma clip_size limit x : 0 < limit < 2 ^ 31 → is_size x → is_size (clip limit x).
Proof. intros. unfold clip. destruct (_ <=? _); [destruct (int_negative x)|]; lia. Qed.

(** Changes of the colours, the saved state and the cursor. *)
Lemma attr_arrays b b' : arrays_ok b → grid b' = grid b → queue b' = queue b → queue_i b' = queue_i b → map b' = map b → arrays_ok b'.
Proof. intros Ha Hg Hq Hi Hm. split; rewrite ?Hg, ?Hq, ?Hi, ?Hm; apply Ha. Qed.

Lemma load_colour (l : list Z) v : zlen l = 8 → 0 ≤ v < 8 → ∃ c, load l v = Ok c.
Proof. intros Hl Hv. destruct (load_spec l v) as (c & -> & _); [lia|]. by exists c. Qed.
Lemma convert_colour_total cfg v : red_mask_shift cfg < 32 → green_mask_shift cfg < 32 → blue_mask_shift cfg < 32 → ∃ c, convert_colour cfg v = Ok c.
Proof.
  intros Hr Hg Hbl. unfold convert_colour, shift_left.
  rewrite (proj2 (Z.ltb_lt _ _) Hr), (proj2 (Z.ltb_lt _ _) Hg), (proj2 (Z.ltb_lt _ _) Hbl). cbn. by eexists.
Qed.
Lemma convert_ok b v : fb_inv b → ∃ c, convert_colour (config b) v = Ok c.
Proof. intros Hb. destruct (co_shifts _ _ _ _ (fi_config _ Hb)) as (Hr & Hg & Hbl). by apply convert_colour_total. Qed.

Ltac attr Hb := eapply (hom_op _ _ _ Hb);
  [eexists; split; [reflexivity|]; split; [by apply (attr_arrays _ _ (fi_arrays _ Hb))|done]|done|by apply view_ok].

Lemma s_clear_ok move s : screen_ok s → screen_ok (s_clear move s) ∧ s_config (s_clear move s) = s_config s.
Proof. intros (?&?&?&?). unfold s_clear. destruct move; split; done || (split_and!; cbn; lia). Qed.
Lemma s_move_ok t a b c d s : screen_ok s → screen_ok (s_move_character t a b c d s) ∧ s_config (s_move_character t a b c d s) = s_config s.
Proof. intros. unfold s_move_character. destruct (_ && _); [by apply put_cell_ok|done]. Qed.

Ltac colour l Hb := let E := fresh in match goal with Hv : 0 ≤ ?v < 8 |- _ => destruct (load_colour l v) as [? E]; [apply (fi_config _ Hb)|done|]; rewrite E; cbn [rbind]; attr Hb end.

(** The frame buffer keeps the promises of a back end, with the plain screen as what it stands for. *)
#[export] Instance fb_sim : BackendHom R C fb_inv view.
Proof.
  split; intros t; cbn;
    try (intros v Ht Hv b Hb; cbn; unfold flanterm_fb_set_text_fg, flanterm_fb_set_text_bg, flanterm_fb_set_text_fg_bright, flanterm_fb_set_text_bg_bright; first [colour (ansi_colours (config b)) Hb | colour (ansi_bright_colours (config b)) Hb]);
    try (intros v Ht b Hb; unfold flanterm_fb_set_text_fg_rgb, flanterm_fb_set_text_bg_rgb; destruct (convert_ok b v Hb) as [c E]; cbn; rewrite E; cbn [rbind]; by attr Hb);
    try (intros Ht b Hb; cbn; by attr Hb).
  - intros c Ht Hc b Hb. destruct (raw_putchar_spec t c b Hb Ht Hc) as (b' & E & Hi & Hv). exists b'. by rewrite Hv.
  - intros move (HRt & HCt & _) b Hb. destruct (s_clear_ok move (view b) (view_ok _ Hb)). eapply (hom_op _ _ _ Hb); [by apply clear_spec, HCt; [apply Hb|]|done..].
  - intros x y (HRt & HCt & _) Hx Hy b Hb. unfold flanterm_fb_set_cursor_pos. rewrite !clip_eq by congruence.
    eapply (hom_op _ _ _ Hb); [eexists; split; [reflexivity|]; split; [by apply with_cursor_arrays, Hb|done]|done|].
    split_and!; cbn; try apply Hb; apply clip_size; congruence.
  - intros b (HRt & HCt & _) Hb. pose proof (fi_x _ Hb). pose proof (fi_y _ Hb). unfold flanterm_fb_get_cursor_pos, clip_high. rewrite !sz_small by lia. split; [done|].
    rewrite HRt, HCt. cbn. destruct (Z.leb_spec C (cursor_x b)), (Z.leb_spec R (cursor_y b)); lia.
  - intros x y z w (HRt & HCt & _) ???? b Hb. destruct (s_move_ok t x y z w (view b) (view_ok _ Hb)). eapply (hom_op _ _ _ Hb); [by apply move_spec; [apply Hb|..]|done..].
  - intros Ht b Hb. eapply (hom_op _ _ _ Hb); [by apply scroll_spec; [apply Hb|]|done|by apply view_ok].
  - intros Ht b Hb. eapply (hom_op _ _ _ Hb); [by apply revscroll_spec; [apply Hb|]|done|by apply view_ok].
  - intros Ht b Hb. eapply (hom_op _ _ _ Hb); [eexists; split; [reflexivity|]; split; [by apply (attr_arrays _ _ (fi_arrays _ Hb))|done]|done|split_and!; apply Hb].
  - intros Ht b Hb. eapply (hom_op _ _ _ Hb); [eexists; split; [reflexivity|]; split; [by apply (attr_arrays _ _ (fi_arrays _ Hb))|done]|done|split_and!; apply Hb].
  - intros (HRt & HCt & _) b Hb. destruct (flush_spec t b HRt HCt Hb) as (b' & E & Hi & Hv & _). exists b'. by rewrite Hv.
Qed.

(** ** Refreshing *)

Section refresh.
Context (cfg : fb_config) (n : Z) (Hcfg : config_ok R C cfg n) (Hcanvas : ∀ l, canvas cfg = Some l → zlen l = width cfg * height cfg).

(** The colour of a pixel of the background. *)
Definition back (x y : Z) : Z := match canvas cfg with Some l => default 0 (zat l (y * width cfg + x)) | None => default_bg cfg end.

Lemma refresh_target_pixel x y : 0 ≤ x < width cfg → 0 ≤ y < height cfg → refresh_target cfg x y = pixel_of cfg x y.
Proof.
  intros Hx Hy. destruct (co_size _ _ _ _ Hcfg). unfold refresh_target, pixel_of.
  rewrite (sz_small (height cfg - 1 - y)), (sz_small (width cfg - 1 - x)), !(sz_mul_line R C n cfg Hcfg) by lia.
  destruct (_ =? FLANTERM_FB_ROTATE_90); [lia|]. destruct (_ =? FLANTERM_FB_ROTATE_180); [lia|]. destruct (_ =? FLANTERM_FB_ROTATE_270); lia.
Qed.

Lemma refresh_pixel_spec x y f : zlen f = n → 0 ≤ x < width cfg → 0 ≤ y < height cfg →
  ∃ f', refresh_pixel cfg x y f = Ok f' ∧ zlen f' = n ∧ zat f' (pixel_of cfg x y) = Some (back x y) ∧ ∀ p, p ≠ pixel_of cfg x y → zat f' p = zat f p.
Proof.
  intros Hf Hx Hy. destruct (co_size _ _ _ _ Hcfg). pose proof (pixel_range R C n cfg Hcfg x y Hx Hy). unfold refresh_pixel, back. rewrite (refresh_target_pixel _ _ Hx Hy).
  set (v := match canvas cfg with Some l => default 0 (zat l (y * width cfg + x)) | None => default_bg cfg end).
  assert (Hv : (match canvas cfg with Some l => load l (sz (sz (y * width cfg) + x)) | None => Ok (default_bg cfg) end) = Ok v).
  { subst v. destruct (canvas cfg) as [l|] eqn:El; [|done]. assert (y * width cfg ≤ (height cfg - 1) * width cfg) by nia. rewrite (sz_small (y * width cfg)), sz_small by nia.
    unfold load. destruct (zat_is_Some l (y * width cfg + x)) as [c Ec]; [rewrite (Hcanvas l) by done; nia|]. by rewrite Ec. }
  rewrite Hv. cbn [rbind]. destruct (store_spec f (pixel_of cfg x y) v) as (f' & -> & _ & Hl & Hz); [lia|]. exists f'. split; [done|]. split; [lia|].
  split; [by rewrite Hz, decide_True|]. intros p Hp. by rewrite Hz, decide_False.
Qed.

(** The pixels of the rows before [y], and those of it before [x], have been set. *)
Definition refreshed (y x : Z) (f : list Z) : Prop := zlen f = n ∧
  ∀ x' y', 0 ≤ x' < width cfg → 0 ≤ y' < height cfg → y' < y ∨ (y' = y ∧ x' < x) → zat f (pixel_of cfg x' y') = Some (back x' y').

Lemma refresh_background_spec f : zlen f = n → ∃ f', refresh_background cfg f = Ok f' ∧ zlen f' = n ∧
  ∀ x y, 0 ≤ x < width cfg → 0 ≤ y < height cfg → zat f' (pixel_of cfg x y) = Some (back x y).
Proof.
  intros Hf. destruct (co_size _ _ _ _ Hcfg). unfold refresh_background.
  destruct (rfor_inv (λ y f, refreshed y 0 f) (Z.to_nat (height cfg)) 0 (λ y f, rfor (Z.to_nat (width cfg)) 0 (λ x f, refresh_pixel cfg x y f) f) f) as (f' & -> & Hl & Hz).
  { split; [done|]. lia. }
  { intros y f1 Hy Hr. destruct (rfor_inv (λ x f, refreshed y x f) (Z.to_nat (width cfg)) 0 (λ x f, refresh_pixel cfg x y f) f1 Hr) as (f2 & -> & Hl2 & Hz2).
    - intros x f3 Hx [Hl3 Hz3]. destruct (refresh_pixel_spec x y f3 Hl3) as (f4 & -> & Hl4 & Hp & Ho); [lia..|]. exists f4. split; [done|]. split; [done|].
      intros x' y' Hx' Hy' Hlt. destruct (decide (x' = x ∧ y' = y)) as [[-> ->]|Hne]; [done|]. rewrite Ho; [apply Hz3; lia|].
      intros E. apply Hne. by apply (pixel_inj R C n cfg Hcfg) in E; [lia..].
    - exists f2. split; [done|]. split; [done|]. intros x' y' Hx' Hy' Hlt. apply Hz2; lia. }
  exists f'. split; [done|]. split; [done|]. intros x y Hx Hy. apply Hz; lia.
Qed.
End refresh.

(** The characters of the grid are drawn up to index [i]. *)
Definition redrawn (b : fb) (i : Z) (b' : fb) : Prop := ∃ f, b' = with_framebuffer f b ∧ zlen f = zlen (framebuffer b) ∧
  (∀ x y c, 0 ≤ x < C → 0 ≤ y < R → y * C + x < i → zat (grid b) (y * C + x) = Some c → shows (config b) f c x y) ∧
  ∀ p, border (config b) p → zat f p = zat (framebuffer b) p.

Lemma redraw_spec t b : rows t = R → cols t = C → arrays_ok b → config_ok R C (config b) (zlen (framebuffer b)) →
  ∃ b', rfor (Z.to_nat (sz (rows t * cols t))) 0 (λ i b, let? x := umod i (cols t) in let? y := udiv i (cols t) in let? c := load (grid b) i in plot_char t c x y b) b = Ok b' ∧
    redrawn b (R * C) b'.
Proof.
  intros HRt HCt Ha Hcfg. pose proof cells_bound. rewrite HRt, HCt, sz_small by lia.
  destruct (rfor_inv (redrawn b) (Z.to_nat (R * C)) 0 (λ i b, let? x := umod i C in let? y := udiv i C in let? c := load (grid b) i in plot_char t c x y b) b) as (b' & -> & Hb').
  - exists (framebuffer b). split; [by destruct b|]. split; [done|]. split; [|done]. intros x y c Hx Hy Hlt. nia.
  - intros i b1 Hi (f & -> & Hfl & Hs & Ho). destruct (div_mod_cell i) as (Hx & Hy & Ei); [lia|]. unfold umod, udiv. rewrite (proj2 (Z.eqb_neq C 0)) by lia. cbn [rbind].
    destruct (load_spec (grid b) i) as (c & E & Ec); [rewrite (ao_grid _ Ha); lia|]. change (grid (with_framebuffer f b)) with (grid b). rewrite E. cbn [rbind].
    destruct (plot_char_spec t c (i mod C) (i / C) (with_framebuffer f b) HRt HCt) as (f2 & -> & Hfl2 & Hs2 & Ho2); [by cbn; rewrite Hfl|by apply (ao_chars _ Ha i)|done..|].
    cbn in *. eexists. split; [done|]. exists f2. split; [done|]. split; [lia|]. split; [|intros p Hp; rewrite Ho2 by (by apply Hp); by apply Ho].
    intros x y c' Hx' Hy' Hlt Ec'. destruct (decide (x = i mod C ∧ y = i / C)) as [[-> ->]|Hne]; [rewrite <-Ei in Ec'; assert (c' = c) as -> by congruence; done|].
    eapply (shows_other _ f); [by rewrite Hfl|exact Hx|exact Hy|done..|]. apply Hs; try done.
    assert (y * C + x ≠ i); [|lia]. intros E'. apply Hne. apply cell_unique; [done..|]. lia.
  - exists b'. split; [done|]. by replace (0 + Z.of_nat (Z.to_nat (R * C))) with (R * C) in Hb' by lia.
Qed.

Lemma refresh_spec t b : rows t = R → cols t = C → arrays_ok b → config_ok R C (config b) (zlen (framebuffer b)) →
  (∀ l, canvas (config b) = Some l → zlen l = width (config b) * height (config b)) → screen_ok (view b) →
  queue_i b = 0 → old_cursor_x b = cursor_x b → old_cursor_y b = cursor_y b →
  ∃ b', flanterm_fb_full_refresh t b = Ok b' ∧ fb_inv b' ∧ view b' = view b ∧ all_shown b t b' ∧
    ∀ x y, 0 ≤ x < width (config b) → 0 ≤ y < height (config b) → border (config b) (pixel_of (config b) x y) →
      zat (framebuffer b') (pixel_of (config b) x y) = Some (back (config b) x y).
Proof.
  intros HRt HCt Ha Hcfg Hcanvas (?&?&?&?) Hqi Hox Hoy. cbn in *. unfold flanterm_fb_full_refresh.
  destruct (refresh_background_spec _ _ Hcfg Hcanvas (framebuffer b) eq_refl) as (f & -> & Hfl & Hback). cbn [rbind].
  destruct (redraw_spec t (with_framebuffer f b)) as (b1 & -> & f2 & -> & Hfl2 & Hs & Ho); [done..|apply (attr_arrays b); done|cbn; by rewrite Hfl|]. cbn [rbind].
  set (b1 := with_framebuffer f2 (with_framebuffer f b)) in *. cbn in Hfl2, Hs, Ho.
  assert (Hg : ∀ x y c, 0 ≤ x < C → 0 ≤ y < R → zat (cells b) (y * C + x) = Some c → shows (config b) f2 c x y).
  { intros x y c Hx Hy Ec. pose proof (cell_bound _ _ Hx Hy). apply Hs; [lia..|]. rewrite zat_cells in Ec. destruct (zat (grid b) (y * C + x)) as [g|]; [|done].
    injection Ec as <-. unfold cell_of. destruct (zat (map b) (y * C + x)) as [[q|]|] eqn:Em; [|done..]. apply (ao_mapped _ Ha) in Em as [? _]. lia. }
  assert (Hb1 : fb_inv b1).
  { split; try done; cbn; try lia; [by apply (attr_arrays b)|by rewrite Hfl2, Hfl|]. intros x y c Hx Hy _ Ec. pose proof (cell_bound _ _ Hx Hy). apply Hs; [lia..|done]. }
  assert (Hshape : ∀ b2 k, fb_inv b2 → fb_inv (with_flushes k b2)) by (intros b2 k Hb2; split; [by apply (attr_arrays b2); [apply Hb2|..]|apply Hb2..]).
  assert (Hpix : ∀ b2, (∀ p, border (config b) p → zat (framebuffer b2) p = zat f2 p) → ∀ x y, 0 ≤ x < width (config b) → 0 ≤ y < height (config b) →
    border (config b) (pixel_of (config b) x y) → zat (framebuffer b2) (pixel_of (config b) x y) = Some (back (config b) x y)).
  { intros b2 Hb2 x y Hx Hy Hbor. by rewrite Hb2, Ho, Hback. }
  destruct (cursor_enabled t) eqn:En; cbn [rbind].
  - destruct (draw_cursor_spec b1 Hb1 t HRt HCt En) as (b2 & -> & Hf2). cbn [rbind]. rewrite <-Hqi in Hf2 at 1. change (queue_i b) with (queue_i b1) in Hf2.
    assert (Hall : all_shown b1 t b2) by (apply flushed_shown; [done..|]; intros x y _ _ [Hx Hy]; cbn in Hx, Hy; split; [done|]; cbn; lia).
    destruct (fb_inv_settle t b1 b2 (framebuffer b2) (flushes b2) Hb1 Hf2 eq_refl) as [Hi Hv]; [by destruct b2|].
    destruct (flushing_config _ _ _ _ Hf2) as (Hc2 & Hx2 & Hy2). destruct (fl_old _ _ _ _ Hf2) as [Hox2 Hoy2]. pose proof (fl_queue_i _ _ _ _ Hf2) as Hq2. cbn in Hx2, Hy2, Hox2, Hoy2, Hq2.
    assert (E : with_flushes (flushes b2) (with_queue_i 0 (with_old_cursor (cursor_x b2) (cursor_y b2) (with_framebuffer (framebuffer b2) b2))) = b2).
    { rewrite Hqi in Hq2. rewrite <-Hq2, Hx2, <-Hox, <-Hox2, Hy2, <-Hoy, <-Hoy2. by destruct b2. }
    rewrite E in Hi. exists (notify_flush b2). split; [done|]. unfold notify_flush.
    destruct (flush_callback (config b2)); (split; [by try apply Hshape|]); (split; [exact (fl_view _ _ _ _ Hf2)|]); (split; [exact Hall|]); apply Hpix, (fl_border _ _ _ _ Hf2).
  - exists (notify_flush b1). split; [done|]. unfold notify_flush.
    assert (Hall : all_shown b t b1) by (intros x y c Hx Hy Ec; unfold cell_shown; rewrite En; by apply Hg).
    destruct (flush_callback (config b1)); (split; [by try apply Hshape|]); (split; [done|]); (split; [exact Hall|]); by apply Hpix.
Qed.
End refine.
