(* ===== verification/FbTermInit.v ===== *)
(** * The start of the frame buffer terminal (fb.c, [flanterm_fb_init])

    With the arguments of the kernel the start does not fail: the static pool is
    large enough for every frame buffer, all memory that is written belongs to the
    frame buffer, and the invariants of the terminal hold afterwards. *)

From Stdlib Require Import Ascii.
From S2P Require Import Prelude Bytes FlanTerm FlanTermSafe FbFont FbTerm FbTermDraw FbTermSafe.

#[local] Opaque font_bools builtin_font.

(** ** The arguments *)

(** No rotation, margin or scale is asked for; the frame buffer has room for a
    character and its memory for the lines; the masks are at least 8 bits wide. *)
Record args_ok (a : init_args) : Prop := mk_args_ok {
  ia_rotation : a_rotation a = FLANTERM_FB_ROTATE_0;
  ia_margin : a_margin a = 0;
  ia_scale : a_font_scale_x a = 0;
  ia_width : 9 ≤ a_width a < 2 ^ 31;
  ia_height : 16 ≤ a_height a < 2 ^ 31;
  ia_pitch : a_pitch a mod 4 = 0;
  ia_line : a_width a ≤ a_pitch a / 4 < 2 ^ 31;
  ia_memory : (a_height a - 1) * (a_pitch a / 4) + a_width a ≤ zlen (a_framebuffer a);
  ia_sizes : 8 ≤ a_red_mask_size a ∧ a_green_mask_size a = a_red_mask_size a ∧ a_blue_mask_size a = a_red_mask_size a;
  ia_red : 0 ≤ a_red_mask_shift a + (a_red_mask_size a - 8) < 32;
  ia_green : 0 ≤ a_green_mask_shift a + (a_green_mask_size a - 8) < 32;
  ia_blue : 0 ≤ a_blue_mask_shift a + (a_blue_mask_size a - 8) < 32;
  ia_ansi l : a_ansi_colours a = Some l → zlen l = 8;
  ia_bright l : a_ansi_bright_colours a = Some l → zlen l = 8;
}.

(** The part of the frame buffer that is used, and the scale. *)
Record used_ok (a : init_args) (f : list Z) (w h s : Z) : Prop := mk_used_ok {
  uo_scale : s = 1 ∨ s = 2 ∨ s = 4;
  uo_width : 9 * s ≤ w ≤ 1920;
  uo_height : 16 * s ≤ h ≤ 1200;
  uo_line : w ≤ a_pitch a / 4;
  uo_memory : (h - 1) * (a_pitch a / 4) + w ≤ zlen f;
}.

Lemma init_size_plain a : args_ok a → init_size a = (a_width a, a_height a).
Proof. intros Ha. unfold init_size. by rewrite (ia_rotation _ Ha). Qed.

Lemma init_scale_auto a : args_ok a → ∃ s, init_scale a (a_width a) (a_height a) = (s, s) ∧
  (s = 1 ∨ s = 2 ∧ 2560 ≤ a_width a ∧ 1440 ≤ a_height a ∨ s = 4 ∧ 5120 ≤ a_width a ∧ 2880 ≤ a_height a).
Proof.
  intros Ha. unfold init_scale. rewrite (ia_scale _ Ha). cbn [Z.eqb orb]. change (1920 + 1920 / 3) with 2560. change (1080 + 1080 / 3) with 1440.
  change (3840 + 3840 / 3) with 5120. change (2160 + 2160 / 3) with 2880. eexists. split; [done|].
  destruct (Z.leb_spec 5120 (a_width a)), (Z.leb_spec 2880 (a_height a)), (Z.leb_spec 2560 (a_width a)), (Z.leb_spec 1440 (a_height a)); cbn; lia.
Qed.

(** The centre of a larger area lies within it. *)
Lemma centred l n : 0 ≤ l ≤ n → 0 ≤ n / 2 - l / 2 ∧ l + (n / 2 - l / 2) ≤ n.
Proof. intros. Z.to_euclidean_division_equations. lia. Qed.

Lemma zlen_drop_from {A} (l : list A) n : 0 ≤ n ≤ zlen l → zlen (drop (Z.to_nat n) l) = zlen l - n.
Proof. unfold zlen. rewrite length_drop. lia. Qed.

Lemma init_limit_used a s : args_ok a → (s = 1 ∨ s = 2 ∧ 2560 ≤ a_width a ∧ 1440 ≤ a_height a ∨ s = 4 ∧ 5120 ≤ a_width a ∧ 2880 ≤ a_height a) →
  ∃ f w h, init_limit a (a_width a) (a_height a) = (f, w, h) ∧ used_ok a f w h s.
Proof.
  intros Ha Hs. pose proof (ia_width _ Ha). pose proof (ia_height _ Ha). pose proof (ia_line _ Ha). pose proof (ia_memory _ Ha). pose proof (ia_pitch _ Ha).
  unfold init_limit, FLANTERM_FB_WIDTH_LIMIT, FLANTERM_FB_HEIGHT_LIMIT.
  set (w := if 1920 <? a_width a then 1920 else a_width a). set (h := if 1200 <? a_height a then 1200 else a_height a).
  assert (Hw : w ≤ 1920 ∧ 0 ≤ w ≤ a_width a ∧ 9 * s ≤ w) by (subst w; destruct (Z.ltb_spec 1920 (a_width a)); lia).
  assert (Hh : h ≤ 1200 ∧ 0 ≤ h ≤ a_height a ∧ 16 * s ≤ h) by (subst h; destruct (Z.ltb_spec 1200 (a_height a)); lia).
  destruct (_ || _) eqn:E.
  - destruct (centred w (a_width a)) as [Hw1 Hw2]; [lia|]. destruct (centred h (a_height a)) as [Hh1 Hh2]; [lia|].
    set (dx := a_width a / 2 - w / 2) in *. set (dy := a_height a / 2 - h / 2) in *. set (line := a_pitch a / 4) in *.
    assert (Eo : (dy * a_pitch a + dx * 4) / 4 = dy * line + dx).
    { subst line. rewrite (Z.div_mod (a_pitch a) 4) at 1 by lia. rewrite (ia_pitch _ Ha). symmetry. apply (Z.div_unique _ _ _ 0); lia. }
    rewrite Eo. eexists _, w, h. split; [done|].
    assert (Hm : (h - 1 + dy) * line ≤ (a_height a - 1) * line) by (apply Z.mul_le_mono_nonneg_r; lia).
    assert (0 ≤ dy * line) by (apply Z.mul_nonneg_nonneg; lia). assert (0 ≤ (h - 1) * line) by (apply Z.mul_nonneg_nonneg; lia).
    split; try lia. fold line. rewrite zlen_drop_from by lia. lia.
  - apply orb_false_iff in E as [E1 E2]. subst w h. rewrite E1, E2 in *. eexists _, _, _. split; [done|]. split; lia.
Qed.

(** ** The configuration *)

Lemma zlen_font : zlen (font_bools builtin_font 16 9) = 256 * 16 * 9.
Proof. vm_compute. reflexivity. Qed.

Lemma convert_colours_total cfg l : red_mask_shift cfg < 32 → green_mask_shift cfg < 32 → blue_mask_shift cfg < 32 →
  ∃ l', convert_colours cfg l = Ok l' ∧ zlen l' = zlen l.
Proof.
  intros Hr Hg Hb. induction l as [|c l [l' [IH Hl]]]; [by exists []|]. cbn [convert_colours]. destruct (convert_colour_total cfg c) as [c' ->]; [done..|].
  rewrite IH. cbn [rbind]. exists (c' :: l'). split; [done|]. unfold zlen in *. cbn [length]. lia.
Qed.
Lemma colour_or_total cfg c v : red_mask_shift cfg < 32 → green_mask_shift cfg < 32 → blue_mask_shift cfg < 32 →
  ∃ d, colour_or cfg c (convert_colour cfg v) = Ok d.
Proof. intros Hr Hg Hb. destruct c as [c|]; cbn; by apply convert_colour_total. Qed.

Lemma wrap_mask size shift : 0 ≤ shift + (size - 8) < 32 → wrap 8 (shift + (size - 8)) = shift + (size - 8).
Proof. intros. apply Z.mod_small. lia. Qed.

(** The characters that fit, and the rest on both sides. *)
Lemma fit w g : 0 < g ≤ w → 0 ≤ w mod g / 2 ∧ w mod g / 2 + w / g * g ≤ w.
Proof. intros. pose proof (Z.div_mod w g). pose proof (Z.mod_pos_bound w g). Z.to_euclidean_division_equations. lia. Qed.

Lemma init_config_ok a f w h s : args_ok a → used_ok a f w h s →
  ∃ cfg, init_config a w h s s = Ok cfg ∧ config_ok (h / (16 * s)) (w / (9 * s)) cfg (zlen f) ∧
    glyph_width cfg = 9 * s ∧ glyph_height cfg = 16 * s ∧ canvas cfg = None.
Proof.
  intros Ha Hu. destruct (uo_width _ _ _ _ _ Hu), (uo_height _ _ _ _ _ Hu). pose proof (uo_scale _ _ _ _ _ Hu). pose proof (ia_red _ Ha). pose proof (ia_green _ Ha). pose proof (ia_blue _ Ha).
  unfold init_config. rewrite (ia_margin _ Ha), !wrap_mask by done. change (sz (0 * 2)) with 0. rewrite !Z.sub_0_r.
  rewrite (sz_small (9 * s)), (sz_small (16 * s)), (sz_small w), (sz_small h) by lia. set (cfg := mkConfig _ _ _ _ _ _ _ _ _ _ _ _ _ _ _ _ _ _ _ _ _ _ _ _ _).
  assert (Hr : red_mask_shift cfg < 32) by (cbn; lia). assert (Hg : green_mask_shift cfg < 32) by (cbn; lia). assert (Hb : blue_mask_shift cfg < 32) by (cbn; lia).
  destruct (convert_colours_total cfg (default default_ansi (a_ansi_colours a))) as (ansi & -> & Hansi); [done..|]. cbn [rbind].
  destruct (convert_colours_total cfg (default default_ansi_bright (a_ansi_bright_colours a))) as (bright & -> & Hbright); [done..|]. cbn [rbind].
  assert (Hdbg : ∃ d, colour_or cfg (a_default_bg a) (Ok 0) = Ok d) by (destruct (a_default_bg a); cbn; [by apply convert_colour_total|by eexists]). destruct Hdbg as [dbg ->]. cbn [rbind].
  destruct (colour_or_total cfg (a_default_fg a) 0xaaaaaa) as [dfg ->]; [done..|]. cbn [rbind]. destruct (colour_or_total cfg (a_default_bg_bright a) 0x555555) as [dbgb ->]; [done..|]. cbn [rbind].
  destruct (colour_or_total cfg (a_default_fg_bright a) 0xffffff) as [dfgb ->]; [done..|]. cbn [rbind].
  unfold umod. cbn [glyph_width glyph_height cfg]. rewrite (proj2 (Z.eqb_neq (9 * s) 0)), (proj2 (Z.eqb_neq (16 * s) 0)) by lia. cbn [rbind]. eexists. split; [done|].
  destruct (fit w (9 * s)) as [Hx1 Hx2]; [lia|]. destruct (fit h (16 * s)) as [Hy1 Hy2]; [lia|].
  assert (0 ≤ w / (9 * s) * (9 * s)) by (apply Z.mul_nonneg_nonneg; [apply Z.div_pos|]; lia). assert (0 ≤ h / (16 * s) * (16 * s)) by (apply Z.mul_nonneg_nonneg; [apply Z.div_pos|]; lia).
  rewrite !Z.add_0_l, !sz_small by lia. split; [|done]. pose proof (ia_line _ Ha). pose proof (ia_width _ Ha). pose proof (uo_line _ _ _ _ _ Hu).
  split; cbn; try exact zlen_font; try done; try lia.
  - rewrite Hansi. destruct (a_ansi_colours a) eqn:E; cbn; [by apply (ia_ansi _ Ha)|done].
  - rewrite Hbright. destruct (a_ansi_bright_colours a) eqn:E; cbn; [by apply (ia_bright _ Ha)|done].
  - unfold plotter_ok. cbn. destruct (Z.eqb_spec s 1); cbn; [lia|done].
  - unfold memory_width, sideways. cbn. rewrite (ia_rotation _ Ha). cbn. lia.
  - unfold memory_width, memory_height, sideways. cbn. rewrite (ia_rotation _ Ha). cbn. apply (uo_memory _ _ _ _ _ Hu).
Qed.

(** ** The pool *)

Lemma bump_round_range s : 0 ≤ s < 2 ^ 32 → s ≤ bump_round s ≤ s + 16.
Proof.
  intros Hs. unfold bump_round. rewrite (sz_small (s + 0x10)) by lia. destruct (negb _); [|lia].
  change 0xf with (Z.ones 4). rewrite Z.ldiff_ones_r, Z.shiftl_mul_pow2, Z.shiftr_div_pow2 by lia. pose proof (Z.div_mod (s + 0x10) (2 ^ 4)). pose proof (Z.mod_pos_bound (s + 0x10) (2 ^ 4)). lia.
Qed.

Lemma bump_alloc_ok pool s m : base_offset_added m = true → 0 ≤ s < 2 ^ 32 → 0 ≤ bump_alloc_ptr m → bump_alloc_ptr m + s + 16 ≤ FLANTERM_FB_BUMP_ALLOC_POOL_SIZE →
  ∃ p, bump_alloc pool s m = (true, mkBump p true (bump_allocated_instance m)) ∧ bump_alloc_ptr m + s ≤ p ≤ bump_alloc_ptr m + s + 16.
Proof.
  intros Hm Hs Hp Hfit. unfold FLANTERM_FB_BUMP_ALLOC_POOL_SIZE in *. pose proof (bump_round_range s Hs). unfold bump_alloc, add_base_offset, FLANTERM_FB_BUMP_ALLOC_POOL_SIZE. rewrite Hm, sz_small by lia.
  rewrite (proj2 (Z.ltb_ge _ _)) by lia. rewrite Hm. eexists. split; [done|]. lia.
Qed.

Lemma first_alloc_ok pool s m : bump_alloc_ptr m = 0 → base_offset_added m = false → 0 ≤ s < 2 ^ 16 →
  ∃ p, bump_alloc pool s m = (true, mkBump p true (bump_allocated_instance m)) ∧ s ≤ p ≤ s + 32.
Proof.
  intros Hp Hm Hs. assert (Ha : 0 ≤ bump_alloc_ptr (add_base_offset pool m) ≤ 16 ∧ base_offset_added (add_base_offset pool m) = true ∧
    bump_allocated_instance (add_base_offset pool m) = bump_allocated_instance m).
  { unfold add_base_offset. rewrite Hm, Hp. cbn. split; [|done]. destruct (negb _); [|lia]. change 0xf with (Z.ones 4). rewrite Z.land_ones by lia.
    pose proof (Z.mod_pos_bound pool (2 ^ 4)). rewrite sz_small; lia. }
  destruct Ha as (Hr & Hadd & Hal).
  assert (Hidem : add_base_offset pool (add_base_offset pool m) = add_base_offset pool m) by (unfold add_base_offset at 1; by rewrite Hadd).
  destruct (bump_alloc_ok pool s (add_base_offset pool m) Hadd) as (p & E & Hb); [lia..|unfold FLANTERM_FB_BUMP_ALLOC_POOL_SIZE; lia|].
  exists p. split; [|lia]. rewrite <-Hal, <-E. unfold bump_alloc. by rewrite Hidem.
Qed.

Lemma alloc_all_ok pool sizes m : base_offset_added m = true → 0 ≤ bump_alloc_ptr m → Forall (λ s, 0 ≤ s < 2 ^ 32) sizes →
  bump_alloc_ptr m + foldr (λ s n, s + 16 + n) 0 sizes ≤ FLANTERM_FB_BUMP_ALLOC_POOL_SIZE →
  ∃ p, alloc_all pool sizes m = (true, mkBump p true (bump_allocated_instance m)) ∧ bump_alloc_ptr m ≤ p ≤ FLANTERM_FB_BUMP_ALLOC_POOL_SIZE.
Proof.
  intros Hm Hp Hs. revert m Hm Hp. induction Hs as [|s sizes Hs Hrest IH]; intros m Hm Hp Hfit; cbn [alloc_all foldr] in *.
  - exists (bump_alloc_ptr m). destruct m as [p ? ?]. cbn in *. subst. split; [done|]. lia.
  - assert (0 ≤ foldr (λ s n, s + 16 + n) 0 sizes) by (clear -Hrest; induction Hrest; cbn [foldr]; lia).
    destruct (bump_alloc_ok pool s m) as (p & -> & Hpr); [done..|lia|]. destruct (IH (mkBump p true (bump_allocated_instance m))) as (p' & -> & Hp'); [done|cbn; lia..|].
    exists p'. split; [done|]. cbn in Hp'. lia.
Qed.

(** ** The start *)

Lemma init_term_wf R C : 0 < R → 0 < C → wf R C (init_term R C).
Proof.
  intros HR HC. assert (Hn : colour_ok 0) by (left; lia). assert (Hm : colour_ok SIZE_MAX) by (by right).
  split.
  - reflexivity.
  - reflexivity.
  - reflexivity.
  - exact (Z.le_refl 0).
  - exact HR.
  - exact (Z.le_refl R).
  - reflexivity.
  - apply Forall_replicate. lia.
  - change (0 ≤ 0 ≤ 16). lia.
  - discriminate.
  - change (0 ≤ 0 ≤ 3). lia.
  - change (0 ≤ 0 ≤ 2). lia.
  - reflexivity.
  - change (0 ≤ 0 < 2). lia.
  - change (0 ≤ 0 < 2). lia.
  - change (0 ≤ 0 < C). lia.
  - change (0 ≤ 0 < R). lia.
  - exact Hm.
  - exact Hm.
  - exact Hn.
  - exact Hn.
Qed.

Lemma cells_limit R C s w h : s = 1 ∨ s = 2 ∨ s = 4 → 9 * s ≤ w ≤ 1920 → 16 * s ≤ h ≤ 1200 → R = h / (16 * s) → C = w / (9 * s) →
  0 < R ≤ 75 ∧ 0 < C ≤ 213 ∧ 0 < R * C ≤ 15975.
Proof.
  intros Hs Hw Hh -> ->. assert (HR : 0 < h / (16 * s) ≤ 75). { split; [apply Z.div_str_pos; lia|]. apply Z.div_le_upper_bound; lia. }
  assert (HC : 0 < w / (9 * s) ≤ 213). { split; [apply Z.div_str_pos; lia|]. enough (w / (9 * s) < 214) by lia. apply Z.div_lt_upper_bound; lia. }
  split; [done|]. split; [done|]. nia.
Qed.

(** Arrays without anything in the queue. *)
Definition blank_fb (cfg : fb_config) (f : list Z) (cells : Z) : fb :=
  mkFb cfg f (zrep cells (mkChar (chr " ") (default_fg cfg) 0xffffffff)) (zrep cells (mkItem 0 0 (mkChar 0 0 0))) 0 (zrep cells None)
    (default_fg cfg) 0xffffffff 0 0 0 0 0 0 0 0 0.

Lemma blank_arrays R C cfg f : 0 < R → 0 < C → arrays_ok R C (blank_fb cfg f (R * C)).
Proof.
  intros HR HC. assert (0 < R * C) by nia. split; cbn [grid map queue queue_i blank_fb]; try (rewrite zlen_rep; lia); try lia.
  - intros i c. rewrite zat_rep. destruct (decide _); [|done]. intros [= <-]. cbv. split; [discriminate|reflexivity].
  - intros i q. rewrite zat_rep. by destruct (decide _).
Qed.

Lemma blank_screen cfg f cells : screen_ok (view (blank_fb cfg f cells)).
Proof. split_and!; cbn; lia. Qed.

Lemma blank_cells cfg f n : cells (blank_fb cfg f n) = zrep n (mkChar (chr " ") (default_fg cfg) 0xffffffff).
Proof.
  apply zat_ext; [by rewrite zlen_cells|]. intros k Hk. rewrite zat_cells. cbn [grid blank_fb]. destruct (zat _ k) as [c|]; [|done]. simpl. unfold cell_of. cbn [map blank_fb].
  rewrite zat_rep. by destruct (decide _).
Qed.

Lemma init_start pool a m : args_ok a → bump_alloc_ptr m = 0 → base_offset_added m = false → bump_allocated_instance m = false →
  ∃ t b b0 p, flanterm_fb_init pool a m = Ok (Some (t, b), mkBump p true true) ∧ p ≤ FLANTERM_FB_BUMP_ALLOC_POOL_SIZE ∧
    0 < rows t < 2 ^ 31 ∧ 0 < cols t < 2 ^ 31 ∧ t = init_term (rows t) (cols t) ∧ wf (rows t) (cols t) t ∧ fb_inv (rows t) (cols t) b ∧
    b0 = blank_fb (config b) (framebuffer b0) (rows t * cols t) ∧ view b = view b0 ∧ all_shown (rows t) (cols t) b0 t b.
Proof.
  intros Ha Hp Hm Hal. unfold flanterm_fb_init. rewrite (init_size_plain a Ha). destruct (init_scale_auto a Ha) as (s & -> & Hs).
  destruct (ia_sizes _ Ha) as (Hsize & -> & ->). rewrite (proj2 (Z.ltb_ge _ _) Hsize), Z.eqb_refl, Hal. cbn [orb negb].
  destruct (init_limit_used a s Ha Hs) as (f & w & h & -> & Hu). destruct (first_alloc_ok pool sizeof_fb_context m Hp Hm) as (p & -> & Hpr); [unfold sizeof_fb_context; lia|]. cbn [negb].
  destruct (init_config_ok a f w h s Ha Hu) as (cfg & -> & Hcfg & Hgw & Hgh & Hcan). cbn [rbind].
  destruct (uo_width _ _ _ _ _ Hu), (uo_height _ _ _ _ _ Hu). rewrite (ia_margin _ Ha), Hgw, Hgh. change (sz (0 * 2)) with 0. rewrite !Z.sub_0_r, (sz_small w), (sz_small h) by lia.
  pose proof (uo_scale _ _ _ _ _ Hu). unfold udiv. rewrite (proj2 (Z.eqb_neq (9 * s) 0)), (proj2 (Z.eqb_neq (16 * s) 0)) by lia. cbn [rbind].
  set (C := w / (9 * s)) in *. set (R := h / (16 * s)) in *. destruct (cells_limit R C s w h) as (HR & HC & HRC); [done..|].
  rewrite (sz_small (R * C)) by lia. unfold sizeof_fb_context, sizeof_fb_char, sizeof_queue_item, sizeof_pointer in *. rewrite (sz_small (R * C * 12)), (sz_small (R * C * 32)), (sz_small (R * C * 8)) by lia.
  change (sz (FLANTERM_FB_FONT_GLYPHS * 16 * 9)) with 36864.
  destruct (alloc_all_ok pool [4096; 36864; R * C * 12; R * C * 32; R * C * 8] (mkBump p true (bump_allocated_instance m))) as (p2 & -> & Hp2);
    [done|cbn; lia|repeat (constructor; [lia|]); constructor|cbn [foldr bump_alloc_ptr]; unfold FLANTERM_FB_BUMP_ALLOC_POOL_SIZE; lia|]. cbn [negb rbind].
  fold (blank_fb cfg f (R * C)).
  destruct (refresh_spec R C ltac:(lia) ltac:(lia) (init_term R C) (blank_fb cfg f (R * C))) as (b & -> & Hi & Hv & Hall & _); [reflexivity|reflexivity|by apply blank_arrays; lia|exact Hcfg|by cbn; rewrite Hcan|apply blank_screen|reflexivity|reflexivity|reflexivity|].
  cbn [rbind]. exists (init_term R C), b, (blank_fb cfg f (R * C)), p2. split; [done|]. split; [lia|]. cbn [rows cols init_term reinit].
  split; [lia|]. split; [lia|]. split; [done|]. split; [apply init_term_wf; lia|]. split; [done|]. split; [|done]. injection Hv as Hc _ _ _ _ _ _. by rewrite Hc.
Qed.

(** ** A small terminal *)

(** A frame buffer for two lines of two characters, with 8 bits per colour. *)
Definition demo_args : init_args :=
  mkArgs (zrep 640 0) 18 32 80 8 16 8 8 8 0 None None (Some 0x131a1c) (Some 0xc5c8c9) None None 0 0 0 FLANTERM_FB_ROTATE_0.
Lemma demo_args_ok : args_ok demo_args.
Proof. split; cbn; try done; try lia; vm_compute; intuition discriminate. Qed.

(** ** Results *)

(** C19: With any back end that keeps its promises, whatever bytes are written, the
    terminal context stays well typed: its arrays keep their lengths, the indices
    into them (values of a control sequence, character sets, colours) stay in
    range, the margins and the saved cursor stay on the screen, and no access
    leaves an array. *)
Theorem write_keeps_context {B1 B2 : Type} `{Backend B1, Backend B2} (R C : Z) (inv : B1 → Prop) (abs : B1 → B2) `{!BackendHom R C inv abs} (buf : list Z) (t : term) (b : B1) :
  0 < R < 2 ^ 31 → 0 < C < 2 ^ 31 → Forall (λ c, 0 ≤ c < 256) buf → wf R C t → inv b →
  ∃ t' b', flanterm_write buf (t, b) = Ok (tt, (t', b')) ∧ wf R C t' ∧ inv b'.
Proof. intros HR HC Hbuf Ht Hb. destruct (sim_write R C inv abs HR HC buf Hbuf t b Ht Hb) as ([] & t' & b' & ? & _ & ? & ?). by exists t', b'. Qed.

(** C8: The frame buffer terminal refines the plain screen: whatever bytes are
    written, no access leaves the grid, the queue, the map or the frame buffer, and
    the context, the cells, the cursor and the colours are those that the same
    bytes give on a screen that is a list of characters without a queue. *)
Theorem write_refines_screen (R C : Z) (buf : list Z) (t : term) (b : fb) :
  0 < R < 2 ^ 31 → 0 < C < 2 ^ 31 → Forall (λ c, 0 ≤ c < 256) buf → wf R C t → fb_inv R C b →
  ∃ t' b', flanterm_write buf (t, b) = Ok (tt, (t', b')) ∧ flanterm_write buf (t, view b) = Ok (tt, (t', view b')) ∧
    wf R C t' ∧ fb_inv R C b'.
Proof.
  intros HR HC Hbuf Ht Hb. pose proof (fb_sim R C HR HC) as Hsim.
  destruct (sim_write R C (fb_inv R C) view HR HC buf Hbuf t b Ht Hb) as ([] & t' & b' & ? & ? & ? & ?). by exists t', b'.
Qed.

(** C17: After a flush every pixel of every cell has the colour that the cell's
    character gives it, with the colours swapped under the cursor; the cells
    themselves and the pixels outside of them are as before. *)
Theorem flush_shows_screen (R C : Z) (t : term) (b : fb) :
  0 < R < 2 ^ 31 → 0 < C < 2 ^ 31 → wf R C t → fb_inv R C b →
  ∃ b', flanterm_flush (t, b) = Ok (tt, (t, b')) ∧ view b' = view b ∧ fb_inv R C b' ∧
    (∀ x y c, 0 ≤ x < C → 0 ≤ y < R → zat (s_cells (view b)) (y * C + x) = Some c →
      shows (config b) (framebuffer b') (if cursor_enabled t && (x =? cursor_x b) && (y =? cursor_y b) then mkChar (ch c) (bg c) (fg c) else c) x y) ∧
    ∀ p, border R C (config b) p → zat (framebuffer b') p = zat (framebuffer b) p.
Proof.
  intros HR HC Ht Hb. destruct (flush_spec R C HR HC t b (wf_rows _ _ _ Ht) (wf_cols _ _ _ Ht) Hb) as (b' & E & Hi & Hv & Hall & Hbor).
  exists b'. split; [|done]. unfold flanterm_flush, double_buffer_flush, call. cbn. by rewrite E.
Qed.

(** C18: The start succeeds for every frame buffer that has room for a character,
    masks of the same size of at least 8 bits and shifts that keep the colours inside
    a pixel ([args_ok]), from its first call: the static pool of 873000 bytes, wherever it is in memory,
    is enough for the context, the font and the arrays, no shift is as wide as its
    type, no pixel outside of the frame buffer is written, and then the screen is
    blank, shown, and the invariants of the terminal hold. *)
Theorem init_fits_pool (pool : Z) (a : init_args) :
  args_ok a →
  ∃ t b p, flanterm_fb_init pool a bump_new = Ok (Some (t, b), mkBump p true true) ∧ p ≤ FLANTERM_FB_BUMP_ALLOC_POOL_SIZE ∧
    0 < rows t < 2 ^ 31 ∧ 0 < cols t < 2 ^ 31 ∧ wf (rows t) (cols t) t ∧ fb_inv (rows t) (cols t) b ∧
    s_cells (view b) = zrep (rows t * cols t) (mkChar (chr " ") (default_fg (config b)) 0xffffffff) ∧
    ∀ x y, 0 ≤ x < cols t → 0 ≤ y < rows t →
      shows (config b) (framebuffer b) (if (x =? 0) && (y =? 0) then mkChar (chr " ") 0xffffffff (default_fg (config b)) else mkChar (chr " ") (default_fg (config b)) 0xffffffff) x y.
Proof.
  intros Ha. destruct (init_start pool a bump_new Ha) as (t & b & b0 & p & E & Hp & HR & HC & Ht & Hwf & Hinv & Hb0 & Hv & Hall); [done..|].
  assert (Hc : s_cells (view b) = zrep (rows t * cols t) (mkChar (chr " ") (default_fg (config b)) 0xffffffff)).
  { rewrite Hv, Hb0. apply blank_cells. }
  exists t, b, p. do 7 (split; [done|]). intros x y Hx Hy. injection Hv as Hcf Hcells _ _ _ _ _.
  assert (E0 : zat (cells b0) (y * cols t + x) = Some (mkChar (chr " ") (default_fg (config b)) 0xffffffff)).
  { rewrite <-Hcells. change (cells b) with (s_cells (view b)). rewrite Hc, zat_rep. rewrite decide_True; [done|]. nia. }
  specialize (Hall x y _ Hx Hy E0). rewrite <-Hcf in Hall. unfold cell_shown in Hall.
  assert (Ex : cursor_x b0 = 0) by (by rewrite Hb0). assert (Ey : cursor_y b0 = 0) by (by rewrite Hb0). assert (Ec : cursor_enabled t = true) by (by rewrite Ht).
  by rewrite Ex, Ey, Ec in Hall.
Qed.

(** ** Instances *)

Definition greeting : list Z := [27; chr "["; chr "3"; chr "1"; chr "m"; chr "H"; chr "i"; 10; chr "!"].
Lemma greeting_bytes : Forall (λ c, 0 ≤ c < 256) greeting.
Proof. repeat (constructor; [split; [discriminate|reflexivity]|]). constructor. Qed.

Lemma init_fits_pool_witness : args_ok demo_args ∧ ∃ t b p, flanterm_fb_init 0x1008 demo_args bump_new = Ok (Some (t, b), mkBump p true true).
Proof. split; [apply demo_args_ok|]. destruct (init_fits_pool 0x1008 demo_args demo_args_ok) as (t & b & p & E & _). exists t, b, p. exact E. Defined.

Lemma write_keeps_context_witness : ∃ t b m t' b', flanterm_fb_init 0x1008 demo_args bump_new = Ok (Some (t, b), m) ∧
  flanterm_write greeting (t, b) = Ok (tt, (t', b')) ∧ wf (rows t) (cols t) t'.
Proof.
  destruct (init_start 0x1008 demo_args bump_new demo_args_ok eq_refl eq_refl eq_refl) as (t & b & b0 & p & E & _ & HR & HC & _ & Hwf & Hinv & _).
  pose proof (fb_sim _ _ HR HC) as Hsim.
  destruct (write_keeps_context (rows t) (cols t) (fb_inv (rows t) (cols t)) view greeting t b HR HC greeting_bytes Hwf Hinv) as (t' & b' & Ew & Hwf' & _).
  exists t, b, (mkBump p true true), t', b'. split; [exact E|]. split; [exact Ew|exact Hwf'].
Defined.

Lemma write_refines_screen_witness : ∃ t b m t' b', flanterm_fb_init 0x1008 demo_args bump_new = Ok (Some (t, b), m) ∧
  flanterm_write greeting (t, b) = Ok (tt, (t', b')) ∧ flanterm_write greeting (t, view b) = Ok (tt, (t', view b')).
Proof.
  destruct (init_start 0x1008 demo_args bump_new demo_args_ok eq_refl eq_refl eq_refl) as (t & b & b0 & p & E & _ & HR & HC & _ & Hwf & Hinv & _).
  destruct (write_refines_screen (rows t) (cols t) greeting t b HR HC greeting_bytes Hwf Hinv) as (t' & b' & Ew & Es & _).
  exists t, b, (mkBump p true true), t', b'. split; [exact E|]. split; [exact Ew|exact Es].
Defined.

Lemma flush_shows_screen_witness : ∃ t b m b', flanterm_fb_init 0x1008 demo_args bump_new = Ok (Some (t, b), m) ∧
  flanterm_flush (t, b) = Ok (tt, (t, b')) ∧ view b' = view b.
Proof.
  destruct (init_start 0x1008 demo_args bump_new demo_args_ok eq_refl eq_refl eq_refl) as (t & b & b0 & p & E & _ & HR & HC & _ & Hwf & Hinv & _).
  destruct (flush_shows_screen (rows t) (cols t) t b HR HC Hwf Hinv) as (b' & Ef & Ev & _).
  exists t, b, (mkBump p true true), b'. split; [exact E|]. split; [exact Ef|exact Ev].
Defined.
