(* ===== verification/Console.v ===== *)
(** * The console (src/print.rs)

    Colours and their escape sequences, the terminal on the boot loader's frame
    buffer as a character sink, and the writer behind [kprint!].  Text that is
    formatted in a colour is shown in it, and what is printed up to the end of a
    line is on the screen. *)

From Stdlib Require Import Ascii String.
From S2P Require Import Prelude Bytes FlanTerm FlanTermSafe FbFont FbTerm FbTermDraw FbTermSafe FbTermInit.

#[local] Opaque font_bools builtin_font.

(** The bytes of a string. *)
Fixpoint bytes (s : string) : list Z :=
  match s with
  | EmptyString => []
  | String c s => chr c :: bytes s
  end.
(** The decimal digits of a number, as [Display] writes them; 20 of them are enough
    for 64 bits. *)
Fixpoint digits (fuel : nat) (n : Z) : list Z :=
  match fuel with
  | O => []
  | S fuel => if n <? 10 then [chr "0" + n] else digits fuel (n / 10) ++ [chr "0" + n mod 10]
  end.
Definition decimal (n : Z) : list Z := digits 20 n.

(** ** Colours *)

Record Color : Type := mkColor { red : Z; green : Z; blue : Z }.
Definition rgb (c : Color) : Z := Z.lor (Z.lor (u32 (Z.shiftl (red c) 16)) (u32 (Z.shiftl (green c) 8))) (blue c).
Definition from_rgb (data : Z) : Color := mkColor (wrap 8 (Z.shiftr data 16)) (wrap 8 (Z.shiftr data 8)) (wrap 8 data).

Definition BACKGROUND : Color := from_rgb 0x131a1c.
Definition FOREGROUND : Color := from_rgb 0xc5c8c9.
(** Black, red, green, yellow, blue, purple, cyan and white ... *)
Definition ansi_palette : list Color :=
  from_rgb <$> [0x131a1c; 0xe74c4c; 0x6bb05d; 0xe59e67; 0x5b98a9; 0xb185db; 0x51a39f; 0xc4c4c4].
(** ... and the bright ones. *)
Definition ansi_palette_bright : list Color :=
  from_rgb <$> [0x343636; 0xc26f6f; 0x8dc776; 0xe7ac7e; 0x7ab3c3; 0xbb84e5; 0x6db0ad; 0xcccccc].

(** ** Formatting *)

Record ANSIFormatter : Type := mkFormatter { data : list Z; bold_flag : bool; italic_flag : bool; color : option Color }.
Definition ANSIFormatter_new (d : list Z) : ANSIFormatter := mkFormatter d false false None.
Definition set_color (c : Color) (f : ANSIFormatter) : ANSIFormatter := mkFormatter (data f) (bold_flag f) (italic_flag f) (Some c).
Definition set_bold (f : ANSIFormatter) : ANSIFormatter := mkFormatter (data f) true (italic_flag f) (color f).
Definition set_italic (f : ANSIFormatter) : ANSIFormatter := mkFormatter (data f) (bold_flag f) true (color f).
Definition Color_format (c : Color) (d : list Z) : ANSIFormatter := set_color c (ANSIFormatter_new d).

(** [data] is what the formatter of the value writes. *)
Definition ESC : Z := 0x1b.
Definition color_sequence (c : Color) : list Z :=
  ESC :: bytes "[38;2;" ++ decimal (red c) ++ bytes ";" ++ decimal (green c) ++ bytes ";" ++ decimal (blue c) ++ bytes "m".
Definition fmt (f : ANSIFormatter) : list Z :=
  (if bold_flag f then ESC :: bytes "[1m" else []) ++
  (if italic_flag f then ESC :: bytes "[3m" else []) ++
  (match color f with Some c => color_sequence c | None => [] end) ++
  data f ++ ESC :: bytes "[0m".

(** ** Sinks *)

Class CharSink (S : Type) : Type := { sink_putc : Z → S → ub S; sink_flush : S → ub S }.
Fixpoint put_all {S} `{CharSink S} (l : list Z) (s : S) : ub S :=
  match l with
  | [] => Ok s
  | c :: l => let? s := sink_putc c s in put_all l s
  end.

(** A frame buffer of the boot loader, with its memory as pixels. *)
Record Framebuffer : Type := mkFramebuffer {
  addr : list Z;
  fb_width : Z;
  fb_height : Z;
  fb_pitch : Z;
  fb_red_mask_size : Z;
  fb_red_mask_shift : Z;
  fb_green_mask_size : Z;
  fb_green_mask_shift : Z;
  fb_blue_mask_size : Z;
  fb_blue_mask_shift : Z;
}.

Definition terminal_args (f : Framebuffer) : init_args :=
  mkArgs (addr f) (fb_width f) (fb_height f) (fb_pitch f) (fb_red_mask_size f) (fb_red_mask_shift f) (fb_green_mask_size f) (fb_green_mask_shift f)
    (fb_blue_mask_size f) (fb_blue_mask_shift f) (Some (rgb <$> ansi_palette)) (Some (rgb <$> ansi_palette_bright))
    (Some (rgb BACKGROUND)) (Some (rgb FOREGROUND)) None None 0 0 0 0.

(** A call from Rust. *)
Definition run {B} (m : M (term * B) Empty_set unit) (s : term * B) : ub (term * B) :=
  match m s with
  | Ok (_, s) => Ok s
  | Err (e, _) => Err e
  | Panic => Panic
  end.

(** [FlanTermSink]: the context is used without a test, and without one that is
    undefined. *)
Definition from_framebuffer (pool : Z) (f : Framebuffer) (m : bump) : ub ((term * fb) * bump) :=
  let? (r, m) := flanterm_fb_init pool (terminal_args f) m in
  match r with
  | Some (t, b) => let? s := run (flanterm_set_autoflush false) (t, b) in Ok (s, m)
  | None => Panic
  end.

(** [putc] and [flush] of the sink, for any back end of the terminal. *)
Definition FlanTermSink_putc {B} `{Backend B} (c : Z) : M (term * B) Empty_set unit :=
  let! _ := flanterm_write [c] in
  if c =? 10 then flanterm_flush else mret tt.
#[export] Instance FlanTermSink {B} `{Backend B} : CharSink (term * B) := {
  sink_putc c := run (FlanTermSink_putc c);
  sink_flush := run flanterm_flush;
}.

(** ** The writer *)

(** The two sinks; the serial one is that of the architecture. *)
Record console (S : Type) : Type := mkConsole { FLAN_TERM_BACKEND : option (term * fb); SERIAL_BACKEND : option S }.
Arguments mkConsole {S}.
Arguments FLAN_TERM_BACKEND {S}.
Arguments SERIAL_BACKEND {S}.

Definition put_sink {S} `{CharSink S} (l : list Z) (s : option S) : ub (option S) :=
  match s with
  | Some s => let? s := put_all l s in Ok (Some s)
  | None => Ok None
  end.
Definition write_str {S} `{CharSink S} (l : list Z) (c : console S) : ub (console S) :=
  let? t := put_sink l (FLAN_TERM_BACKEND c) in
  let? s := put_sink l (SERIAL_BACKEND c) in
  Ok (mkConsole t s).

(** [call_once] of a cell that is set once. *)
Definition call_once {A} (o : option A) (f : ub A) : ub (option A) :=
  match o with
  | Some a => Ok (Some a)
  | None => let? a := f in Ok (Some a)
  end.

(** The options of the command line, the answer of the boot loader and the serial
    port of the architecture are given. *)
Definition init_tty {S} `{CharSink S} (fb_enable serial_enable : bool) (response : option Framebuffer) (arch_serial : option S) (pool : Z)
    (c : console S) (m : bump) : ub (console S * bump) :=
  let? (t, m) := (match fb_enable, response, FLAN_TERM_BACKEND c with
    | true, Some f, None => let? (s, m) := from_framebuffer pool f m in Ok (Some s, m)
    | _, _, t => Ok (t, m)
    end) in
  let? c := write_str (bytes "init_tty(): tty initialized" ++ [10]) (mkConsole t (SERIAL_BACKEND c)) in
  let? c := (match response with
    | Some f => write_str (bytes "init_tty(): framebuffer: " ++ decimal (fb_width f) ++ bytes "x" ++ decimal (fb_height f) ++ [10]) c
    | None => Ok c
    end) in
  Ok (if serial_enable then mkConsole (FLAN_TERM_BACKEND c) (match SERIAL_BACKEND c with Some s => Some s | None => arch_serial end) else c, m).
Definition set_serial_backend {S} (serial_enable : bool) (s : S) (c : console S) : ub (console S) :=
  if serial_enable then let? r := call_once (SERIAL_BACKEND c) (Ok s) in Ok (mkConsole (FLAN_TERM_BACKEND c) r) else Ok c.

(** ** Control sequences for colours *)

Section sequences.
Abbreviation B := screen.

(** The context between two control sequences ... *)
Record ground (t : term) : Prop := mk_ground {
  gr_discard : discard_next t = false;
  gr_unicode : unicode_remaining t = 0;
  gr_escape : escape t = false;
  gr_sequence : control_sequence t = false;
  gr_osc : osc t = false;
  gr_select : g_select t = 0;
  gr_private : dec_private t = false;
  gr_insert : insert_mode t = false;
  gr_charset : zat (charsets t) (current_charset t) = Some CHARSET_DEFAULT;
  gr_reverse : reverse_video t = false;
  gr_values : zlen (esc_values t) = 16;
}.
(** ... and within one, at the value with index [i]. *)
Definition within (i : Z) (vs : list Z) (r : bool) (off : Z) (t : term) : term :=
  with_esc_values vs (with_rrr r (with_esc_values_i i (with_escape_offset off (with_csi_unhandled false (with_control_sequence true (with_escape true t)))))).
(** After it. *)
Definition after (i : Z) (vs : list Z) (off : Z) (t : term) : term :=
  with_esc_values vs (with_rrr false (with_esc_values_i i (with_escape_offset off (with_csi_unhandled false (with_control_sequence false (with_escape false t)))))).

Lemma bind_get {A A'} (f : term → A) (k : A → M (term * B) Empty_set A') t b : mbind' (get f) k (t, b) = k (f t) (t, b).
Proof. done. Qed.
Lemma bind_upd {A} f (k : unit → M (term * B) Empty_set A) t b : mbind' (upd f) k (t, b) = k tt (f t, b).
Proof. done. Qed.
Lemma bind_cursor {A} (k : Z * Z → M (term * B) Empty_set A) t b : mbind' get_cursor_pos k (t, b) = k (clip_high (cols t) (s_x b), clip_high (rows t) (s_y b)) (t, b).
Proof. done. Qed.
Lemma within_values i vs r off t : esc_values (within i vs r off t) = vs.
Proof. done. Qed.
Lemma within_i i vs r off t : esc_values_i (within i vs r off t) = i.
Proof. done. Qed.
Lemma within_offset i vs r off t : escape_offset (within i vs r off t) = off.
Proof. done. Qed.

Lemma within_store i vs r off t vs' : with_esc_values vs' (within i vs r off t) = within i vs' r off t.
Proof. destruct t. cbv. reflexivity. Qed.
Lemma within_rrr i vs r off t r' : with_rrr r' (within i vs r off t) = within i vs r' off t.
Proof. destruct t. cbv. reflexivity. Qed.
Lemma within_index i vs r off t j : with_esc_values_i j (within i vs r off t) = within j vs r off t.
Proof. destruct t. cbv. reflexivity. Qed.

Lemma ev_get j t (b : B) v : zat (esc_values t) j = Some v → ev j (t, b) = Ok (v, (t, b)).
Proof. intros E. unfold ev. rewrite bind_get. unfold mlift. by rewrite E. Qed.

Lemma put_escaped c t (b : B) : discard_next t = false → unicode_remaining t = 0 → escape t = true → 0x20 ≤ c < 0x7f →
  flanterm_putchar c (t, b) = escape_parse c (t, b).
Proof.
  intros Hd Hu He Hc. unfold flanterm_putchar. rewrite (mbind_ok _ _ (t, b) _ _ eq_refl). cbn [fst]. rewrite Hd, (proj2 (Z.eqb_neq c 0x18)), (proj2 (Z.eqb_neq c 0x1a)) by lia. cbn [orb].
  rewrite (mbind_ok _ _ (t, b) _ _ eq_refl). cbn [fst]. rewrite Hu. cbn [Z.eqb negb]. unfold putchar_plain. rewrite (proj2 (Z.leb_gt 0xc0 c)) by lia. cbn [andb].
  rewrite (mbind_ok _ _ (t, b) _ _ eq_refl). cbn [fst]. by rewrite He.
Qed.

Lemma put_within c i vs r off t (b : B) : ground t → 0x20 ≤ c < 0x7f → 0 ≤ off < 2 ^ 62 →
  flanterm_putchar c (within i vs r off t, b) = control_sequence_parse c (within i vs r (off + 1) t, b).
Proof.
  intros Ht Hc Ho. rewrite put_escaped by (try done; apply Ht). unfold escape_parse. rewrite (mbind_ok _ _ (_, b) _ _ eq_refl), (mbind_ok _ _ (_, b) _ _ eq_refl).
  change (osc _) with (osc t). rewrite (gr_osc _ Ht), (mbind_ok _ _ (_, b) _ _ eq_refl), (mbind_ok _ _ (_, b) _ _ eq_refl).
  change (escape_offset (within i vs r off t, b).1) with off. rewrite sz_small by lia. done.
Qed.

Lemma list_16 {A} (l : list A) : zlen l = 16 → ∃ v0 v1 v2 v3 v4 v5 v6 v7 v8 v9 v10 v11 v12 v13 v14 v15, l = [v0; v1; v2; v3; v4; v5; v6; v7; v8; v9; v10; v11; v12; v13; v14; v15].
Proof. unfold zlen. intros Hl. do 17 (destruct l as [|? l]; [try lia; naive_solver|]). cbn in Hl. lia. Qed.

Lemma open_sequence t (b : B) : ground t → putchars [ESC; chr "["] (t, b) = Ok (tt, (within 0 (zrep 16 0) false 1 t, b)).
Proof.
  intros Ht. pose proof (gr_values _ Ht) as Hl. destruct t. destruct Ht as [E1 E2 E3 E4 E5 E6 _ _ _ _ _]. cbn in E1, E2, E3, E4, E5, E6, Hl. subst.
  destruct (list_16 _ Hl) as (v0 & v1 & v2 & v3 & v4 & v5 & v6 & v7 & v8 & v9 & v10 & v11 & v12 & v13 & v14 & v15 & ->). reflexivity.
Qed.

Lemma ev_within i j vs r off t (b : B) v : zat vs j = Some v → ev j (within i vs r off t, b) = Ok (v, (within i vs r off t, b)).
Proof. intros E. by apply ev_get. Qed.
Lemma set_ev_within i j vs r off t (b : B) v : 0 ≤ j < zlen vs →
  set_ev j v (within i vs r off t, b) = Ok (tt, (within i (<[Z.to_nat j := v]> vs) r off t, b)).
Proof. intros Hj. unfold set_ev. rewrite bind_get, within_values, (proj2 (Z.leb_le 0 j)), (proj2 (Z.ltb_lt j _)) by lia. unfold upd. cbn [fst snd andb]. by rewrite within_values, within_store. Qed.

Lemma digit_step d i vs r off t (b : B) v : ground t → 0 ≤ d < 10 → 0 ≤ i < 16 → zlen vs = 16 → zat vs i = Some v → 0 ≤ off < 2 ^ 62 → 0 ≤ v * 10 + d < 2 ^ 32 → 0 ≤ v →
  flanterm_putchar (chr "0" + d) (within i vs r off t, b) = Ok (tt, (within i (<[Z.to_nat i := v * 10 + d]> vs) true (off + 1) t, b)).
Proof.
  intros Ht Hd Hi Hl Ev Ho Hv Hv0. change (chr "0") with 48. rewrite put_within by (done || lia). unfold control_sequence_parse.
  rewrite bind_get, within_offset. change (chr "[") with 91. change (chr "?") with 63. change (chr "0") with 48. change (chr "9") with 57.
  rewrite (proj2 (Z.eqb_neq (48 + d) 91)), (proj2 (Z.eqb_neq (48 + d) 63)), !andb_false_r, (proj2 (Z.leb_le 48 (48 + d))), (proj2 (Z.leb_le (48 + d) 57)) by lia. cbn [andb].
  unfold csi_digit. rewrite bind_get, within_i. unfold FLANTERM_MAX_ESC_VALUES. rewrite (proj2 (Z.eqb_neq i 16)) by lia.
  rewrite bind_upd, within_rrr.
  rewrite (mbind_ok _ _ _ _ _ (ev_within i i vs true (off + 1) t b v Ev)), (mbind_ok _ _ _ _ _ (set_ev_within i i vs true (off + 1) t b _ ltac:(lia))).
  destruct (store_spec vs i (u32 (v * 10))) as (vs2 & _ & E2 & Hl2 & Hz2); [lia|]. rewrite <-E2.
  rewrite (mbind_ok _ _ _ _ _ (ev_within i i vs2 true (off + 1) t b (u32 (v * 10)) ltac:(by rewrite Hz2, decide_True))), set_ev_within by lia.
  subst vs2. rewrite list_insert_insert_eq. change (chr "0") with 48. unfold wrap. rewrite (Z.mod_small (v * 10)), Z.mod_small by lia. do 5 f_equal. lia.
Qed.

Lemma separator_step i vs off t (b : B) : ground t → 0 ≤ i < 16 → 2 ≤ off < 2 ^ 62 →
  flanterm_putchar (chr ";") (within i vs true off t, b) = Ok (tt, (within (i + 1) vs false (off + 1) t, b)).
Proof.
  intros Ht Hi Ho. change (chr ";") with 59. rewrite put_within by (done || lia). unfold control_sequence_parse. rewrite bind_get, within_offset, (proj2 (Z.eqb_neq (off + 1) 2)) by lia.
  cbn [andb]. change ((chr "0" <=? 59) && (59 <=? chr "9")) with false. cbv iota.
  assert (E : csi_separator 59 (within i vs true (off + 1) t, b) = Ok (true, (within (i + 1) vs false (off + 1) t, b))).
  { unfold csi_separator. rewrite bind_get. change (rrr (within i vs true (off + 1) t)) with true. cbv iota. by rewrite bind_upd, within_i, within_index, bind_upd, within_rrr, sz_small by lia. }
  by rewrite (mbind_ok _ _ _ _ _ E).
Qed.

Lemma putchars_app l1 l2 (s s' : term * B) : putchars l1 s = Ok (tt, s') → putchars (l1 ++ l2) s = putchars l2 s'.
Proof.
  revert s. induction l1 as [|c l1 IH]; intros s; cbn [putchars app]; [by intros [= ->]|].
  unfold mbind'. destruct (flanterm_putchar c s) as [[[] s1]|[]|]; [apply IH|done..].
Qed.

Lemma putchars_one c l (s s' : term * B) : flanterm_putchar c s = Ok (tt, s') → putchars ([c] ++ l) s = putchars l s'.
Proof. intros E. cbn [app putchars]. by rewrite (mbind_ok _ _ _ _ _ E). Qed.

(** A number is read back from its digits. *)
Lemma digits_step fuel n i vs r off t (b : B) : ground t → 0 ≤ n < 10 ^ Z.of_nat fuel → n < 2 ^ 32 → 0 ≤ i < 16 → zlen vs = 16 → zat vs i = Some 0 → 0 ≤ off < 2 ^ 32 → (fuel ≤ 20)%nat → (fuel ≠ 0)%nat →
  ∃ k, 1 ≤ k ≤ Z.of_nat fuel ∧ putchars (digits fuel n) (within i vs r off t, b) = Ok (tt, (within i (<[Z.to_nat i := n]> vs) true (off + k) t, b)).
Proof.
  intros Ht. revert n. induction fuel as [|fuel IH]; intros n Hn Hn32 Hi Hl Ev Ho Hf Hf0; [done|]. cbn [digits]. destruct (Z.ltb_spec n 10) as [Hs|Hb].
  - exists 1. split; [lia|]. cbn [putchars]. rewrite (mbind_ok _ _ _ _ _ (digit_step n i vs r off t b 0 Ht ltac:(lia) Hi Hl Ev ltac:(lia) ltac:(lia) ltac:(lia))). done.
  - assert (Hpow : 10 ^ Z.of_nat (S fuel) = 10 * 10 ^ Z.of_nat fuel) by (rewrite Nat2Z.inj_succ, Z.pow_succ_r; lia).
    assert (Hq : 0 ≤ n / 10 < 10 ^ Z.of_nat fuel) by (split; [apply Z.div_pos; lia|apply Z.div_lt_upper_bound; lia]).
    pose proof (Z.mod_pos_bound n 10). pose proof (Z.div_mod n 10).
    destruct (IH (n / 10)) as (k & Hk & E); [done|lia|done..|lia|intros ->; cbn in *; lia|].
    exists (k + 1). split; [lia|]. rewrite (putchars_app _ _ _ _ E). cbn [putchars]. destruct (store_spec vs i (n / 10)) as (vs2 & _ & E2 & Hl2 & Hz2); [lia|]. rewrite <-E2.
    rewrite (mbind_ok _ _ _ _ _ (digit_step (n mod 10) i vs2 true (off + k) t b (n / 10) Ht ltac:(lia) Hi ltac:(lia) ltac:(by rewrite Hz2, decide_True) ltac:(lia) ltac:(lia) ltac:(lia))).
    subst vs2. rewrite list_insert_insert_eq. replace (n / 10 * 10 + n mod 10) with n by lia. replace (off + k + 1) with (off + (k + 1)) by lia. done.
Qed.
Lemma decimal_step n i vs r off t (b : B) : ground t → 0 ≤ n < 2 ^ 32 → 0 ≤ i < 16 → zlen vs = 16 → zat vs i = Some 0 → 0 ≤ off < 2 ^ 32 →
  ∃ k, 1 ≤ k ≤ 20 ∧ putchars (decimal n) (within i vs r off t, b) = Ok (tt, (within i (<[Z.to_nat i := n]> vs) true (off + k) t, b)).
Proof. intros. apply (digits_step 20); done || lia. Qed.

(** The end of a sequence that sets attributes. *)
Lemma attributes_end i vs vs1 off t (s s' : B) t' : ground t → 0 ≤ i < 16 → 2 ≤ off < 2 ^ 62 →
  (∀ o, fill_defaults 109 (within (i + 1) vs false o t, s) = Ok (tt, (within (i + 1) vs1 false o t, s))) →
  (∀ o, sgr (with_scroll_enabled false (within (i + 1) vs1 false o t), s) = Ok (tt, (with_scroll_enabled false (within (i + 1) vs1 false o t'), s'))) →
  scroll_enabled t' = scroll_enabled t →
  flanterm_putchar (chr "m") (within i vs true off t, s) = Ok (tt, (after (i + 1) vs1 (off + 1) t', s')).
Proof.
  intros Ht Hi Ho Hfill Hsgr Hsc. change (chr "m") with 109. rewrite put_within by (done || lia). unfold control_sequence_parse. rewrite bind_get, within_offset, (proj2 (Z.eqb_neq (off + 1) 2)) by lia. cbn [andb].
  change ((chr "0" <=? 109) && (109 <=? chr "9")) with false. cbv iota. generalize (off + 1). intros o.
  assert (E : csi_separator 109 (within i vs true o t, s) = Ok (false, (within (i + 1) vs false o t, s))).
  { unfold csi_separator. rewrite bind_get. change (rrr (within i vs true o t)) with true. cbv iota. by rewrite bind_upd, within_i, within_index, bind_upd, within_rrr, sz_small by lia. }
  rewrite (mbind_ok _ _ _ _ _ E), (mbind_ok _ _ _ _ _ (Hfill o)), bind_get. change (dec_private (within _ _ _ _ t)) with (dec_private t). rewrite (gr_private _ Ht).
  unfold csi_final. rewrite bind_get, bind_upd.
  rewrite bind_cursor, bind_get. change (csi_unhandled _) with false. cbv iota.
  change (csi_command 109 _ _) with (let! _ := sgr (B := screen) in mret true).
  assert (E2 : (let! _ := sgr (B := screen) in mret true) (with_scroll_enabled false (within (i + 1) vs1 false o t), s) = Ok (true, (with_scroll_enabled false (within (i + 1) vs1 false o t'), s'))).
  { by rewrite (mbind_ok _ _ _ _ _ (Hsgr o)). }
  rewrite (mbind_ok _ _ _ _ _ E2). change (scroll_enabled (within _ _ _ _ t)) with (scroll_enabled t). rewrite <-Hsc. destruct t'. vm_compute. reflexivity.
Qed.

Lemma sgr_colour t r g u l (s s' : B) : esc_values t = 38 :: 2 :: r :: g :: u :: l → esc_values_i t = 5 → (∀ t', b_set_text_fg_rgb t' (rgb (mkColor r g u)) s = Ok s') →
  sgr (t, s) = Ok (tt, (t, s')).
Proof.
  intros Hv Hi Hs. unfold sgr. rewrite bind_get, Hi. change (5 =? 0) with false. cbv iota. change (Z.to_nat 5) with 5%nat. cbn [sgr_loop]. rewrite bind_get, Hi. change (0 <? 5) with true. cbv iota.
  assert (Hev : ∀ j v, zat (38 :: 2 :: r :: g :: u :: l) j = Some v → ev j (t, s) = Ok (v, (t, s))) by (intros; apply ev_get; by rewrite Hv).
  rewrite (mbind_ok _ _ _ _ _ (Hev 0 38 eq_refl)). change ((38 =? 38) || (38 =? 48)) with true. cbv iota. change (5 <=? 0 + 1) with false. cbv iota.
  rewrite (mbind_ok _ _ _ _ _ (Hev (0 + 1) 2 eq_refl)). change (2 =? 2) with true. cbv iota. change (5 <=? 0 + 1 + 3) with false. cbv iota.
  rewrite (mbind_ok _ _ _ _ _ (Hev (0 + 1 + 1) r eq_refl)), (mbind_ok _ _ _ _ _ (Hev (0 + 1 + 2) g eq_refl)), (mbind_ok _ _ _ _ _ (Hev (0 + 1 + 3) u eq_refl)).
  assert (Er : sgr_rgb (38 =? 38) r g u (t, s) = Ok (tt, (t, s'))).
  { change (38 =? 38) with true. unfold sgr_rgb, set_text_fg_rgb, call. cbn [fst snd]. unfold rgb in Hs. cbn [red green blue] in Hs. by rewrite Hs. }
  rewrite (mbind_ok _ _ _ _ _ Er), bind_get, Hi. done.
Qed.

Lemma rgb_step c t (s s' : B) : ground t → 0 ≤ red c < 256 → 0 ≤ green c < 256 → 0 ≤ blue c < 256 → (∀ t', b_set_text_fg_rgb t' (rgb c) s = Ok s') →
  ∃ vs off, zlen vs = 16 ∧ putchars (color_sequence c) (t, s) = Ok (tt, (after 5 vs off t, s')).
Proof.
  destruct c as [r g u]. cbn [red green blue]. intros Ht Hr Hg Hu Hs. unfold color_sequence. cbn [red green blue]. change (bytes ";") with [chr ";"].
  assert (E1 : putchars (ESC :: bytes "[38;2;") (t, s) = Ok (tt, (within 2 [38; 2; 0; 0; 0; 0; 0; 0; 0; 0; 0; 0; 0; 0; 0; 0] false 6 t, s))).
  { change (ESC :: bytes "[38;2;") with ([ESC; chr "["] ++ [chr "0" + 3; chr "0" + 8; chr ";"; chr "0" + 2; chr ";"]). rewrite (putchars_app _ _ _ _ (open_sequence t s Ht)). cbn [putchars].
    rewrite (mbind_ok _ _ _ _ _ (digit_step 3 0 (zrep 16 0) false 1 t s 0 Ht ltac:(lia) ltac:(lia) eq_refl eq_refl ltac:(lia) ltac:(lia) ltac:(lia))).
    change (<[Z.to_nat 0 := 0 * 10 + 3]> (zrep 16 0)) with (3 :: zrep 15 0). change (1 + 1) with 2.
    rewrite (mbind_ok _ _ _ _ _ (digit_step 8 0 (3 :: zrep 15 0) true 2 t s 3 Ht ltac:(lia) ltac:(lia) eq_refl eq_refl ltac:(lia) ltac:(lia) ltac:(lia))).
    change (<[Z.to_nat 0 := 3 * 10 + 8]> (3 :: zrep 15 0)) with (38 :: zrep 15 0). change (2 + 1) with 3.
    rewrite (mbind_ok _ _ _ _ _ (separator_step 0 (38 :: zrep 15 0) 3 t s Ht ltac:(lia) ltac:(lia))). change (0 + 1) with 1. change (3 + 1) with 4.
    rewrite (mbind_ok _ _ _ _ _ (digit_step 2 1 (38 :: zrep 15 0) false 4 t s 0 Ht ltac:(lia) ltac:(lia) eq_refl eq_refl ltac:(lia) ltac:(lia) ltac:(lia))).
    change (<[Z.to_nat 1 := 0 * 10 + 2]> (38 :: zrep 15 0)) with (38 :: 2 :: zrep 14 0). change (4 + 1) with 5.
    rewrite (mbind_ok _ _ _ _ _ (separator_step 1 (38 :: 2 :: zrep 14 0) 5 t s Ht ltac:(lia) ltac:(lia))). reflexivity. }
  rewrite (app_comm_cons _ _ ESC), (putchars_app _ _ _ _ E1).
  destruct (decimal_step r 2 [38; 2; 0; 0; 0; 0; 0; 0; 0; 0; 0; 0; 0; 0; 0; 0] false 6 t s) as (k1 & Hk1 & Ek1); [done|lia|lia|done|done|lia|]. rewrite (putchars_app _ _ _ _ Ek1).
  rewrite (putchars_one _ _ _ _ (separator_step 2 _ (6 + k1) t s Ht ltac:(lia) ltac:(lia))).
  change (<[Z.to_nat 2 := r]> _) with [38; 2; r; 0; 0; 0; 0; 0; 0; 0; 0; 0; 0; 0; 0; 0]. change (2 + 1) with 3.
  destruct (decimal_step g 3 [38; 2; r; 0; 0; 0; 0; 0; 0; 0; 0; 0; 0; 0; 0; 0] false (6 + k1 + 1) t s) as (k2 & Hk2 & Ek2); [done|lia|lia|done|done|lia|]. rewrite (putchars_app _ _ _ _ Ek2).
  rewrite (putchars_one _ _ _ _ (separator_step 3 _ (6 + k1 + 1 + k2) t s Ht ltac:(lia) ltac:(lia))).
  change (<[Z.to_nat 3 := g]> _) with [38; 2; r; g; 0; 0; 0; 0; 0; 0; 0; 0; 0; 0; 0; 0]. change (3 + 1) with 4.
  destruct (decimal_step u 4 [38; 2; r; g; 0; 0; 0; 0; 0; 0; 0; 0; 0; 0; 0; 0] false (6 + k1 + 1 + k2 + 1) t s) as (k3 & Hk3 & Ek3); [done|lia|lia|done|done|lia|]. rewrite (putchars_app _ _ _ _ Ek3).
  change (<[Z.to_nat 4 := u]> _) with [38; 2; r; g; u; 0; 0; 0; 0; 0; 0; 0; 0; 0; 0; 0]. set (off := 6 + k1 + 1 + k2 + 1 + k3). set (vs1 := [38; 2; r; g; u; 1; 1; 1; 1; 1; 1; 1; 1; 1; 1; 1]).
  exists vs1, (off + 1). split; [done|]. change (bytes "m") with [chr "m"]. cbn [putchars].
  assert (Hfill : ∀ o, fill_defaults 109 (within (4 + 1) [38; 2; r; g; u; 0; 0; 0; 0; 0; 0; 0; 0; 0; 0; 0] false o t, s) = Ok (tt, (within (4 + 1) vs1 false o t, s)))
    by (intros; destruct t; vm_compute; reflexivity).
  assert (Hsgr : ∀ o, sgr (with_scroll_enabled false (within (4 + 1) vs1 false o t), s) = Ok (tt, (with_scroll_enabled false (within (4 + 1) vs1 false o t), s')))
    by (intros; by apply (sgr_colour _ r g u (zrep 11 1))).
  by rewrite (mbind_ok _ _ _ _ _ (attributes_end 4 _ vs1 off t s s' t Ht ltac:(lia) ltac:(lia) Hfill Hsgr eq_refl)).
Qed.

Lemma attribute_step n t t' (s s' : B) : ground t → 0 ≤ n < 10 →
  (∀ vs o, zat vs 0 = Some n → sgr_one n (with_scroll_enabled false (within 1 vs false o t), s) = Ok (tt, (with_scroll_enabled false (within 1 vs false o t'), s'))) →
  scroll_enabled t' = scroll_enabled t →
  ∃ vs off, zlen vs = 16 ∧ putchars (ESC :: [chr "["; chr "0" + n; chr "m"]) (t, s) = Ok (tt, (after 1 vs off t', s')).
Proof.
  intros Ht Hn Hone Hsc. change (ESC :: [chr "["; chr "0" + n; chr "m"]) with ([ESC; chr "["] ++ [chr "0" + n] ++ [chr "m"] ++ []). rewrite (putchars_app _ _ _ _ (open_sequence t s Ht)).
  rewrite (putchars_one _ _ _ _ (digit_step n 0 (zrep 16 0) false 1 t s 0 Ht ltac:(lia) ltac:(lia) eq_refl eq_refl ltac:(lia) ltac:(lia) ltac:(lia))).
  change (<[Z.to_nat 0 := 0 * 10 + n]> (zrep 16 0)) with (0 * 10 + n :: zrep 15 0). change (1 + 1) with 2. rewrite Z.mul_0_l, Z.add_0_l.
  assert (Hfill : ∀ o, fill_defaults 109 (within (0 + 1) (n :: zrep 15 0) false o t, s) = Ok (tt, (within (0 + 1) (n :: zrep 15 1) false o t, s)))
    by (intros; destruct t; vm_compute; reflexivity).
  exists (n :: zrep 15 1), 3. split; [done|].
  rewrite (putchars_one _ _ _ (after (0 + 1) (n :: zrep 15 1) (2 + 1) t', s')); [done|]. apply attributes_end; [done|lia..|done| |done].
  intros o. change (0 + 1) with 1. unfold sgr. rewrite bind_get. change (esc_values_i _) with 1. change (1 =? 0) with false. cbv iota. change (Z.to_nat 1) with 1%nat. cbn [sgr_loop].
  rewrite bind_get. change (esc_values_i _) with 1. change (0 <? 1) with true. cbv iota.
  rewrite (mbind_ok _ _ _ _ _ (ev_get 0 (with_scroll_enabled false (within 1 (n :: zrep 15 1) false o t)) s n eq_refl)), (proj2 (Z.eqb_neq n 38)), (proj2 (Z.eqb_neq n 48)) by lia. cbn [orb].
  by rewrite (mbind_ok _ _ _ _ _ (Hone (n :: zrep 15 1) o eq_refl)).
Qed.

(** A character of the text. *)
Lemma print_step c t (s : B) : ground t → 0x20 ≤ c ≤ 0x7e → flanterm_putchar c (t, s) = Ok (tt, (t, s_raw_putchar t c s)).
Proof.
  intros Ht Hc. unfold flanterm_putchar. rewrite bind_get, (gr_discard _ Ht), (proj2 (Z.eqb_neq c 0x18)), (proj2 (Z.eqb_neq c 0x1a)) by lia. cbn [orb].
  rewrite bind_get, (gr_unicode _ Ht). cbn [Z.eqb negb]. unfold putchar_plain. rewrite (proj2 (Z.leb_gt 0xc0 c)) by lia. cbn [andb]. rewrite bind_get, (gr_escape _ Ht), bind_get, (gr_select _ Ht).
  cbn [Z.eqb negb]. unfold ground_char. rewrite bind_cursor. repeat (rewrite (proj2 (Z.eqb_neq c _)) by lia). cbn [orb].
  unfold print_char. rewrite !bind_get, (gr_insert _ Ht). rewrite (mbind_ok (mret tt) _ (t, s) tt (t, s) eq_refl), !bind_get, (gr_charset _ Ht).
  rewrite (mbind_ok (mlift (unwrap (Some CHARSET_DEFAULT))) _ (t, s) CHARSET_DEFAULT (t, s) eq_refl). change (CHARSET_DEFAULT =? CHARSET_DEC_SPECIAL) with false. cbv iota.
  rewrite (mbind_ok (mret false) _ (t, s) false (t, s) eq_refl), (proj2 (Z.leb_le 0x20 c)), (proj2 (Z.leb_le c 0x7e)) by lia. done.
Qed.

Lemma text_step l t (s : B) : ground t → Forall (λ c, 0x20 ≤ c ≤ 0x7e) l → putchars l (t, s) = Ok (tt, (t, foldl (λ s c, s_raw_putchar t c s) s l)).
Proof.
  intros Ht Hl. revert s. induction Hl as [|c l Hc _ IH]; intros s; [done|]. cbn [putchars foldl]. by rewrite (mbind_ok _ _ _ _ _ (print_step c t s Ht Hc)).
Qed.

Lemma wrap_config t s : s_config (s_wrap t s) = s_config s.
Proof. unfold s_wrap. destruct (_ && _); [|done]. destruct (_ =? _); cbn; by destruct (_ <=? _). Qed.
Lemma raw_putchar_config t c s : s_config (s_raw_putchar t c s) = s_config s.
Proof. unfold s_raw_putchar, put_cell. destruct (_ && _); apply wrap_config. Qed.
Lemma text_config t l s : s_config (foldl (λ s c, s_raw_putchar t c s) s l) = s_config s.
Proof. revert s. induction l as [|c l IH]; intros s; [done|]. cbn [foldl]. by rewrite IH, raw_putchar_config. Qed.

Lemma after_ground i vs off t : ground t → zlen vs = 16 → ground (after i vs off t).
Proof. intros [] Hl. by split. Qed.

Definition reset_context (t : term) : term := with_current_bg SIZE_MAX (with_current_primary SIZE_MAX (with_bg_bold false (with_bold false t))).

Lemma reset_ground t : ground t → ground (reset_context t).
Proof. intros []. by split. Qed.

Lemma reset_step t (s : B) : ground t →
  ∃ vs off, zlen vs = 16 ∧ putchars (ESC :: bytes "[0m") (t, s) = Ok (tt, (after 1 vs off (reset_context t), s_with_fg (default_fg (s_config s)) (s_with_bg 0xffffffff s))).
Proof.
  intros Ht. apply (attribute_step 0); [done|lia| |done]. intros vs o _. unfold sgr_one. cbn [Z.eqb]. unfold sgr_reset. rewrite bind_get.
  change (reverse_video _) with (reverse_video t). rewrite (gr_reverse _ Ht). destruct t. reflexivity.
Qed.

Lemma bold_step R C t (s : B) : ground t → wf R C t → zlen (ansi_bright_colours (s_config s)) = 8 →
  ∃ vs off v, zlen vs = 16 ∧ putchars (ESC :: bytes "[1m") (t, s) = Ok (tt, (after 1 vs off (with_bold true t), s_with_fg v s)).
Proof.
  intros Ht Hwf Hl. assert (Hv : ∃ v, ∀ vs o, sgr_one 1 (with_scroll_enabled false (within 1 vs false o t), s) = Ok (tt, (with_scroll_enabled false (within 1 vs false o (with_bold true t)), s_with_fg v s))).
  { change (sgr_one 1) with (sgr_bold (B := screen)). unfold sgr_bold. pose proof (gr_reverse _ Ht) as Hr. destruct (wf_primary _ _ _ Hwf) as [Hp|Hp].
    - destruct (load_spec (ansi_bright_colours (s_config s)) (current_primary t)) as (v & E & _); [lia|]. exists v. intros vs o. rewrite bind_upd, !bind_get. destruct t. cbn in Hr, Hp, E |- *. subst.
      rewrite (proj2 (Z.eqb_neq _ SIZE_MAX)) by (unfold SIZE_MAX; lia). cbn [negb]. unfold set_text_fg_bright, call. cbn. by rewrite E.
    - exists (default_fg_bright (s_config s)). intros vs o. destruct t. cbn in Hr, Hp. subst. reflexivity. }
  destruct Hv as [v Hv]. destruct (attribute_step 1 t (with_bold true t) s (s_with_fg v s)) as (vs & off & Hvs & E); [done|lia|auto|done|]. by exists vs, off, v.
Qed.

Lemma italic_step t (s : B) : ground t → ∃ vs off, zlen vs = 16 ∧ putchars (ESC :: bytes "[3m") (t, s) = Ok (tt, (after 1 vs off t, s)).
Proof. intros Ht. by apply (attribute_step 3). Qed.
End sequences.

(** The context prints characters in the same way. *)
Definition prints_as (t t' : term) : Prop := ∀ c s, s_raw_putchar t' c s = s_raw_putchar t c s.

Lemma style_step R C f t s : ground t → wf R C t → zlen (ansi_bright_colours (s_config s)) = 8 →
  ∃ t' s', putchars ((if bold_flag f then ESC :: bytes "[1m" else []) ++ (if italic_flag f then ESC :: bytes "[3m" else [])) (t, s) = Ok (tt, (t', s')) ∧
    ground t' ∧ prints_as t t' ∧ (s' = s ∨ ∃ v, s' = s_with_fg v s).
Proof.
  intros Ht Hwf Hl.
  assert (Hb : ∃ t' s', putchars (if bold_flag f then ESC :: bytes "[1m" else []) (t, s) = Ok (tt, (t', s')) ∧ ground t' ∧ prints_as t t' ∧ (s' = s ∨ ∃ v, s' = s_with_fg v s)).
  { destruct (bold_flag f); [|by exists t, s; split; [|split; [|split; [|left]]]]. destruct (bold_step R C t s Ht Hwf Hl) as (vs & off & v & Hvs & E).
    exists (after 1 vs off (with_bold true t)), (s_with_fg v s). split; [done|]. split; [apply after_ground; [by destruct Ht|done]|]. split; [done|]. right. by exists v. }
  destruct Hb as (t1 & s1 & E1 & Ht1 & Hp1 & Hs1). rewrite (putchars_app _ _ _ _ E1). destruct (italic_flag f); [|by exists t1, s1].
  destruct (italic_step t1 s1 Ht1) as (vs & off & Hvs & E). exists (after 1 vs off t1), s1. split; [done|]. split; [by apply after_ground|]. by split.
Qed.

(** C32: Text that is formatted in a colour is shown in it: the sequence with the
    decimal numbers of the colour is read back by the terminal to exactly that
    colour, bold and italic or not; the printable characters of the text are put on
    the screen in it, and afterwards the default colours are set and the terminal is
    between two control sequences again. *)
Theorem formatted_text_coloured (R C : Z) (f : ANSIFormatter) (c : Color) (col : Z) (t : term) (s : screen) :
  color f = Some c → 0 ≤ red c < 256 → 0 ≤ green c < 256 → 0 ≤ blue c < 256 → ground t → wf R C t → zlen (ansi_bright_colours (s_config s)) = 8 →
  convert_colour (s_config s) (rgb c) = Ok col → Forall (λ x, 0x20 ≤ x ≤ 0x7e) (data f) →
  ∃ t', putchars (fmt f) (t, s) = Ok (tt, (t',
      s_with_fg (default_fg (s_config s)) (s_with_bg 0xffffffff (foldl (λ s x, s_raw_putchar t x s) (s_with_fg col s) (data f))))) ∧ ground t'.
Proof.
  intros Hc Hr Hg Hu Ht Hwf Hl Hcol Hd. unfold fmt. rewrite Hc, app_assoc. destruct (style_step R C f t s Ht Hwf Hl) as (t1 & s1 & E1 & Ht1 & Hp1 & Hs1).
  rewrite (putchars_app _ _ _ _ E1). assert (Hcfg : s_config s1 = s_config s) by (by destruct Hs1 as [->|[v ->]]). assert (Hfg : s_with_fg col s1 = s_with_fg col s) by (by destruct Hs1 as [->|[v ->]]).
  destruct (rgb_step c t1 s1 (s_with_fg col s)) as (vs & off & Hvs & E2); [done..| |]. { intros t'. cbn. by rewrite Hcfg, Hcol, <-Hfg. }
  rewrite (putchars_app _ _ _ _ E2). pose proof (after_ground 5 vs off t1 Ht1 Hvs) as Ht2. rewrite (putchars_app _ _ _ _ (text_step (data f) _ _ Ht2 Hd)).
  assert (Efold : ∀ l s, foldl (λ s x, s_raw_putchar (after 5 vs off t1) x s) s l = foldl (λ s x, s_raw_putchar t x s) s l).
  { induction l as [|x l IH]; intros s'; [done|]. cbn [foldl]. rewrite IH. f_equal. apply (Hp1 x s'). }
  rewrite Efold. destruct (reset_step (after 5 vs off t1) (foldl (λ s x, s_raw_putchar t x s) (s_with_fg col s) (data f)) Ht2) as (vs2 & off2 & Hvs2 & ->).
  rewrite text_config. eexists. split; [done|]. apply after_ground; [by apply reset_ground|done].
Qed.

(** ** The console on the frame buffer *)

Lemma putc_sim R C c t b : 0 < R < 2 ^ 31 → 0 < C < 2 ^ 31 → 0 ≤ c < 256 → wf R C t → fb_inv R C b →
  ∃ t' b', sink_putc c (t, b) = Ok (t', b') ∧ sink_putc c (t, view b) = Ok (t', view b') ∧ wf R C t' ∧ fb_inv R C b' ∧
    (c = 10 → ∃ b2, view b' = view b2 ∧ all_shown R C b2 t' b').
Proof.
  intros HR HC Hc Ht Hb. pose proof (fb_sim R C HR HC) as Hsim.
  destruct (sim_write R C (fb_inv R C) view HR HC [c] (Forall_cons_2 _ _ _ Hc (Forall_nil_2 _)) t b Ht Hb) as ([] & t1 & b1 & E1 & E2 & Ht1 & Hb1).
  cbn [sink_putc FlanTermSink]. unfold run, FlanTermSink_putc. rewrite (mbind_ok _ _ _ _ _ E1), (mbind_ok _ _ _ _ _ E2).
  destruct (Z.eqb_spec c 10) as [->|Hne]; [|by exists t1, b1; split_and!].
  destruct (flush_spec R C HR HC t1 b1 (wf_rows _ _ _ Ht1) (wf_cols _ _ _ Ht1) Hb1) as (b2 & E & Hi & Hv & Hall & _). unfold flanterm_flush, double_buffer_flush, call. cbn. rewrite E, <-Hv.
  exists t1, b2. split_and!; try done. by exists b1.
Qed.

Lemma put_all_sim R C l t b : 0 < R < 2 ^ 31 → 0 < C < 2 ^ 31 → Forall (λ c, 0 ≤ c < 256) l → wf R C t → fb_inv R C b →
  ∃ t' b', put_all l (t, b) = Ok (t', b') ∧ put_all l (t, view b) = Ok (t', view b') ∧ wf R C t' ∧ fb_inv R C b'.
Proof.
  intros HR HC Hl. revert t b. induction Hl as [|c l Hc _ IH]; intros t b Ht Hb; [by exists t, b|]. cbn [put_all].
  destruct (putc_sim R C c t b HR HC Hc Ht Hb) as (t1 & b1 & -> & -> & Ht1 & Hb1 & _). cbn [rbind]. by apply IH.
Qed.

Lemma put_all_app {S} `{CharSink S} l1 l2 (s s' : S) : put_all l1 s = Ok s' → put_all (l1 ++ l2) s = put_all l2 s'.
Proof. revert s. induction l1 as [|c l1 IH]; intros s; cbn [put_all app]; [by intros [= ->]|]. destruct (sink_putc c s); cbn [rbind]; [apply IH|done..]. Qed.

(** C9: What is printed up to the end of a line is on the screen.  The frame buffer
    has room for a character (9 by 16 pixels), sizes below 2^31, lines of whole pixels
    that its memory has room for, masks of the same size of at least 8 bits for the
    three colours, and shifts that keep the upper 8 bits of a colour inside the pixel ([args_ok]).  Then
    the terminal of the console starts, any bytes and a line feed can be written to it
    without an access outside of its arrays or of the frame buffer, the cells are those
    that the same bytes give on a plain screen, and every pixel of every cell has the
    colour that its character gives it, with the colours swapped under the cursor.
    With masks of fewer than 8 bits or of different sizes there is no terminal, and the
    kernel uses the null context that it gets all the same. *)
Theorem console_shows (pool : Z) (f : Framebuffer) (l : list Z) :
  let a := terminal_args f in
  Forall (λ c, 0 ≤ c < 256) l →
  (args_ok a → ∃ t b m t' b', from_framebuffer pool f bump_new = Ok ((t, b), m) ∧
    put_all (l ++ [10]) (t, b) = Ok (t', b') ∧ put_all (l ++ [10]) (t, view b) = Ok (t', view b') ∧
    ∀ x y c, 0 ≤ x < cols t' → 0 ≤ y < rows t' → zat (s_cells (view b')) (y * cols t' + x) = Some c →
      shows (config b') (framebuffer b') (if cursor_enabled t' && (x =? cursor_x b') && (y =? cursor_y b') then mkChar (ch c) (bg c) (fg c) else c) x y) ∧
  (¬ (8 ≤ a_red_mask_size a ∧ a_green_mask_size a = a_red_mask_size a ∧ a_blue_mask_size a = a_red_mask_size a) →
     ∀ m, from_framebuffer pool f m = Panic).
Proof.
  intros a Hl. split.
  2: { intros Hm m. unfold from_framebuffer, flanterm_fb_init. fold a. destruct (init_size a), (init_scale a _ _).
       destruct (Z.ltb_spec (a_red_mask_size a) 8), (Z.eqb_spec (a_red_mask_size a) (a_green_mask_size a)), (Z.eqb_spec (a_red_mask_size a) (a_blue_mask_size a)); try done. lia. }
  intros Ha. destruct (init_start pool (terminal_args f) bump_new Ha eq_refl eq_refl eq_refl) as (t0 & b & b0 & p & E & _ & HR & HC & _ & Hwf & Hinv & _).
  assert (Hwf' : wf (rows t0) (cols t0) (with_autoflush false t0)) by (by destruct Hwf).
  exists (with_autoflush false t0), b, (mkBump p true true). unfold from_framebuffer. rewrite E. cbn [rbind run flanterm_set_autoflush upd fst snd].
  destruct (put_all_sim _ _ l _ b HR HC Hl Hwf' Hinv) as (t1 & b1 & E1 & E2 & Ht1 & Hb1).
  destruct (putc_sim _ _ 10 t1 b1 HR HC ltac:(lia) Ht1 Hb1) as (t2 & b2 & E3 & E4 & Ht2 & Hb2 & Hshown). destruct (Hshown eq_refl) as (b3 & Hv & Hall).
  exists t2, b2. split; [done|]. rewrite (put_all_app _ _ _ _ E1), (put_all_app _ _ _ _ E2). cbn [put_all]. rewrite E3, E4. split; [done|]. split; [done|].
  rewrite (wf_rows _ _ _ Ht2), (wf_cols _ _ _ Ht2). intros x y c Hx Hy Ec. injection Hv as Hcf Hcells _ _ Hcx Hcy _. change (s_cells (view b2)) with (cells b2) in Ec. rewrite Hcells in Ec.
  specialize (Hall x y c Hx Hy Ec). unfold cell_shown in Hall. by rewrite Hcf, Hcx, Hcy.
Qed.

(** ** Instances *)

Definition demo_framebuffer : Framebuffer := mkFramebuffer (zrep 640 0) 18 32 80 8 16 8 8 8 0.
Lemma demo_framebuffer_ok : args_ok (terminal_args demo_framebuffer).
Proof. split; cbn; try done; try lia; intros l; vm_compute; intros [= <-]; reflexivity. Qed.

Lemma console_shows_witness : args_ok (terminal_args demo_framebuffer) ∧
  ∃ t b m t' b', from_framebuffer 0x1008 demo_framebuffer bump_new = Ok ((t, b), m) ∧ put_all (greeting ++ [10]) (t, b) = Ok (t', b').
Proof.
  split; [exact demo_framebuffer_ok|]. destruct (proj1 (console_shows 0x1008 demo_framebuffer greeting greeting_bytes) demo_framebuffer_ok) as (t & b & m & t' & b' & E1 & E2 & _).
  exists t, b, m, t', b'. split; [exact E1|exact E2].
Defined.

(** A configuration for 8 bits per colour, and a screen with two cells. *)
Definition demo_config : fb_config :=
  mkConfig Unscaled_uncanvas false 9 16 9 16 1 1 0 0 72 18 16 16 8 0 0 [] (zrep 8 0) (zrep 8 0) 0xc5c8c9 0x131a1c 0xffffff 0x555555 None.
Definition demo_screen : screen := mkScreen demo_config (zrep 2 (mkChar 32 0 0)) 0xc5c8c9 0xffffffff 0 0 (0, 0, 0, 0).
Definition demo_text : ANSIFormatter := set_bold (Color_format (mkColor 231 76 7) (bytes "ok")).
Lemma demo_ground : ground (init_term 1 2).
Proof. by split. Qed.

Lemma formatted_text_coloured_witness : ∃ t', putchars (fmt demo_text) (init_term 1 2, demo_screen) =
  Ok (tt, (t', mkScreen demo_config [mkChar (chr "o") 0xe74c07 0xffffffff; mkChar (chr "k") 0xe74c07 0xffffffff] 0xc5c8c9 0xffffffff 2 0 (0, 0, 0, 0))).
Proof.
  destruct (formatted_text_coloured 1 2 demo_text (mkColor 231 76 7) 0xe74c07 (init_term 1 2) demo_screen) as (t' & E & _).
  - reflexivity.
  - cbn. lia.
  - cbn. lia.
  - cbn. lia.
  - exact demo_ground.
  - apply init_term_wf; lia.
  - reflexivity.
  - vm_compute. reflexivity.
  - repeat (constructor; [split; discriminate|]). constructor.
  - exists t'. rewrite E. vm_compute. reflexivity.
Defined.

(** ** Behaviour worth knowing *)

Definition blank_screen_of (rows cols : Z) : screen := mkScreen demo_config (zrep (rows * cols) (mkChar 32 0 0)) 0xc5c8c9 0xffffffff 0 0 (0, 0, 0, 0).
Definition result (rows cols : Z) (l : list Z) : option (term * screen) :=
  match putchars l (init_term rows cols, blank_screen_of rows cols) with Ok (_, s) => Some s | _ => None end.
Definition text_of (r : option (term * screen)) : list Z := match r with Some (_, s) => ch <$> s_cells s | None => [] end.

(** A sequence that is not known turns scrolling off, for good ... *)
Example unknown_sequence_stops_scrolling : (λ r, (scroll_enabled r.1, control_sequence r.1)) <$> result 2 4 (ESC :: bytes "[5Sx") = Some (false, false).
Proof. vm_compute. reflexivity. Qed.
(** ... so that the text behind the last line is lost ... *)
Example text_lost_after_it : text_of (result 1 4 (ESC :: bytes "[5Sxabcdefgh")) = bytes "abcd" ∧ text_of (result 1 4 (bytes "abcdefgh")) = bytes "efgh".
Proof. split; vm_compute; reflexivity. Qed.
(** ... and its end is only at the next letter, which is not printed. *)
Example letter_lost : text_of (result 1 4 (ESC :: bytes "[5Shi")) = bytes "i   ".
Proof. vm_compute. reflexivity. Qed.
(** An escape character within a sequence does not start a new one: the screen is
    not cleared. *)
Example escape_does_not_restart : text_of (result 1 4 (bytes "ab" ++ [ESC] ++ bytes "[3" ++ [ESC] ++ bytes "[2J")) = bytes "ab  ".
Proof. vm_compute. reflexivity. Qed.
(** Row 0 is the last row. *)
Example row_zero_is_last : (λ r, s_y r.2) <$> result 4 4 (ESC :: bytes "[0d") = Some 3.
Proof. vm_compute. reflexivity. Qed.
(** Lines are deleted at the top margin and not at the cursor. *)
Example lines_deleted_at_top : text_of (result 3 1 (bytes "a" ++ [10] ++ bytes "b" ++ [10] ++ bytes "c" ++ [ESC] ++ bytes "[3;1H" ++ [ESC] ++ bytes "[M")) = bytes "bc ".
Proof. vm_compute. reflexivity. Qed.
(** A character of more than a byte is printed from within a title. *)
Example title_printed : text_of (result 1 4 (ESC :: bytes "]0;" ++ [0xc3; 0xa9] ++ bytes "x" ++ [7])) = [0x82; 32; 32; 32].
Proof. vm_compute. reflexivity. Qed.
(** Restoring a state that was not saved gives black on black. *)
Example restored_unsaved : (λ r, (s_fg r.2, s_bg r.2)) <$> result 1 4 (ESC :: bytes "8") = Some (0, 0).
Proof. vm_compute. reflexivity. Qed.
(** With more rows than columns, text that wraps does not get below the row with the
    number of the columns. *)
Example wrap_stops_at_columns : text_of (result 3 2 (bytes "abcdef")) = bytes "abef  ".
Proof. vm_compute. reflexivity. Qed.

(** A refresh with a full queue forgets an entry of the map, and the next character
    is written behind the end of the queue. *)
Definition full_queue : ub (term * fb) :=
  let? (r, _) := flanterm_fb_init 0 demo_args bump_new in
  match r with
  | Some (t, b) => run (let! _ := flanterm_set_autoflush false in flanterm_write (bytes "abcd" ++ [ESC] ++ bytes "[H")) (t, b)
  | None => Panic
  end.
Definition is_ok {A} (r : ub A) : bool := match r with Ok _ => true | _ => false end.
Example refresh_overflows_queue : match full_queue with
  | Ok s => (is_ok (run (flanterm_write (bytes "x")) s), is_ok (run (let! _ := flanterm_full_refresh in flanterm_write (bytes "x")) s))
  | _ => (false, false)
  end = (true, false).
Proof. vm_compute. reflexivity. Qed.

(** A frame buffer with less than 8 bits per colour has no terminal, and the context
    is used all the same. *)
Example no_context_is_used : from_framebuffer 0 (mkFramebuffer (zrep 640 0) 18 32 80 5 11 6 5 5 0) bump_new = Panic.
Proof. vm_compute. reflexivity. Qed.

Lemma lor_low a n b : 0 ≤ n → 0 ≤ b < 2 ^ n → Z.lor (a * 2 ^ n) b = a * 2 ^ n + b.
Proof.
  intros Hn Hb. assert (E : Z.land (a * 2 ^ n) b = 0).
  { destruct (decide (b = 0)) as [->|]; [by rewrite Z.land_0_r|]. apply Z.bits_inj'. intros k Hk. rewrite Z.land_spec, Z.bits_0. destruct (Z.lt_ge_cases k n) as [Hlt|Hge]; [by rewrite Z.mul_pow2_bits_low|].
    rewrite (Z.bits_above_log2 b k), andb_false_r; [done|lia|]. apply Z.log2_lt_pow2; [lia|]. pose proof (Z.pow_le_mono_r 2 n k). lia. }
  symmetry. by apply Z.add_nocarry_lor.
Qed.
(** Colours are kept by the conversions. *)
Lemma from_rgb_rgb c : 0 ≤ red c < 256 → 0 ≤ green c < 256 → 0 ≤ blue c < 256 → from_rgb (rgb c) = c.
Proof.
  destruct c as [r g u]. cbn [red green blue]. intros Hr Hg Hu. unfold from_rgb, rgb, wrap. cbn [red green blue].
  rewrite !Z.shiftl_mul_pow2 by lia. rewrite !(Z.mod_small (_ * _)) by lia.
  rewrite (lor_low r 16 (g * 2 ^ 8)) by lia. replace (r * 2 ^ 16 + g * 2 ^ 8) with ((r * 2 ^ 8 + g) * 2 ^ 8) by lia. rewrite lor_low by lia.
  rewrite !Z.shiftr_div_pow2 by lia. f_equal; Z.to_euclidean_division_equations; lia.
Qed.
