(* ===== verification/Ramdisk.v ===== *)
(** * The RAM disk (src/fs/ramdisk.rs)

    The boot module named [ramdisk] as a disk of sectors.  A module is the
    memory the boot loader loaded; its address and its bytes are given. *)

From S2P Require Import Prelude Bytes.

(** What [modules::find_by_cmdline] and [modules::module_range] give. *)
Record LoadedModule : Type := mkModule { module_addr : Z; module_bytes : list Z }.

Record Ramdisk : Type := mkRamdisk { base_address : list Z; rd_sector_size : Z }.

Abbreviation RdOp A := (M Ramdisk Empty_set A).

(** [align_offset(n) == 0] for a byte pointer; [align_offset] panics unless the
    alignment is a power of two. *)
Definition align_offset_zero (addr align : Z) : res Empty_set bool :=
  if bool_decide (0 < align ∧ 2 ^ Z.log2 align = align) then Ok (is_multiple_of addr align) else Panic.

Definition Ramdisk_new (module : option LoadedModule) (sector_size : Z) : res Empty_set Ramdisk :=
  let? m := unwrap module in
  let? b := align_offset_zero (module_addr m) sector_size in
  let? _ := rassert b in
  let? _ := rassert (is_multiple_of (zlen (module_bytes m)) sector_size) in
  let? _ := rassert (is_multiple_of PAGE_SIZE sector_size) in
  Ok (mkRamdisk (module_bytes m) sector_size).

Definition read_sector (sector : Z) (buffer : list Z) : RdOp (list Z) := λ d,
  (let! count := mlift (udiv (zlen (base_address d)) (rd_sector_size d)) in
   let! _ := mlift (rassert (sector <? count)) in
   let! start := mlift (umul sector (rd_sector_size d)) in
   let! endp := mlift (uadd start (rd_sector_size d)) in
   let! src := mlift (slice (base_address d) start endp) in
   mlift (copy_at buffer 0 (rd_sector_size d) src)) d.

Definition write_sector (sector : Z) (buffer : list Z) : RdOp unit := λ d,
  (let! count := mlift (udiv (zlen (base_address d)) (rd_sector_size d)) in
   let! _ := mlift (rassert (sector <? count)) in
   let! start := mlift (umul sector (rd_sector_size d)) in
   let! endp := mlift (uadd start (rd_sector_size d)) in
   let! src := mlift (slice buffer 0 (rd_sector_size d)) in
   let! bytes := mlift (copy_at (base_address d) start endp src) in
   mput (mkRamdisk bytes (rd_sector_size d))) d.

Definition sector_size (d : Ramdisk) : Z := rd_sector_size d.

(** ** Correctness *)

Record rd_inv (d : Ramdisk) : Prop := {
  rd_pos : 0 < rd_sector_size d;
  rd_whole : zlen (base_address d) mod rd_sector_size d = 0;
  rd_fits : zlen (base_address d) ≤ usize_max;
}.

Lemma new_spec m ss d :
  zlen (module_bytes m) ≤ usize_max → Ramdisk_new (Some m) ss = Ok d →
  rd_inv d ∧ base_address d = module_bytes m ∧ rd_sector_size d = ss.
Proof.
  intros Hm. unfold Ramdisk_new, align_offset_zero. cbn [unwrap rbind]. case_bool_decide as Hs; [|done]. cbn [rbind].
  destruct (is_multiple_of (module_addr m) ss); [|done]. cbn [rassert rbind].
  destruct (is_multiple_of (zlen (module_bytes m)) ss) eqn:E; [|done]. cbn [rassert rbind].
  destruct (is_multiple_of PAGE_SIZE ss); [|done]. intros [= <-]. split_and!; [|done..].
  split; simpl; [lia| |done]. unfold is_multiple_of in E. by apply Z.eqb_eq in E.
Qed.

Section sector.
Context (d : Ramdisk) (Hd : rd_inv d) (i : Z).
Context (Hi : 0 ≤ i < zlen (base_address d) / rd_sector_size d).

Lemma sector_range :
  0 ≤ i * rd_sector_size d ∧ i * rd_sector_size d + rd_sector_size d ≤ zlen (base_address d).
Proof.
  destruct Hd as [Hp Hw _]. split; [nia|].
  pose proof (Z.div_mod (zlen (base_address d)) (rd_sector_size d) ltac:(lia)). nia.
Qed.

Lemma read_sector_spec buffer :
  rd_sector_size d ≤ zlen buffer →
  read_sector i buffer d =
    Ok (splice buffer 0 (sub (base_address d) (i * rd_sector_size d) (rd_sector_size d)), d).
Proof.
  intros Hb. destruct sector_range as [H1 H2]. destruct Hd as [Hp _ Hf]. unfold read_sector.
  rewrite (mbind_ok _ _ _ _ _ (mlift_ok _ _ _ (udiv_ok (zlen (base_address d)) (rd_sector_size d) ltac:(lia)))), mbind_assert by (apply Z.ltb_lt; lia).
  rewrite (mbind_ok _ _ _ _ _ (mlift_ok _ _ _ (umul_ok i (rd_sector_size d) ltac:(lia)))), (mbind_ok _ _ _ _ _ (mlift_ok _ _ _ (uadd_ok (i * rd_sector_size d) (rd_sector_size d) ltac:(lia)))).
  rewrite (mbind_ok _ _ _ (sub (base_address d) (i * rd_sector_size d) (rd_sector_size d)) d).
  2: { apply mlift_ok. rewrite slice_ok by lia. do 2 f_equal. lia. }
  apply mlift_ok, copy_at_ok; [lia|lia|]. rewrite zlen_sub; lia.
Qed.

Lemma write_sector_spec buffer :
  rd_sector_size d ≤ zlen buffer →
  let d' := mkRamdisk (splice (base_address d) (i * rd_sector_size d) (sub buffer 0 (rd_sector_size d))) (rd_sector_size d) in
  write_sector i buffer d = Ok (tt, d') ∧ rd_inv d'.
Proof.
  intros Hb d'. destruct sector_range as [H1 H2]. pose proof Hd as [Hp Hm Hf].
  assert (zlen (sub buffer 0 (rd_sector_size d)) = rd_sector_size d) as Hs by (rewrite zlen_sub; lia). split.
  - unfold write_sector.
    rewrite (mbind_ok _ _ _ _ _ (mlift_ok _ _ _ (udiv_ok (zlen (base_address d)) (rd_sector_size d) ltac:(lia)))), mbind_assert by (apply Z.ltb_lt; lia).
    rewrite (mbind_ok _ _ _ _ _ (mlift_ok _ _ _ (umul_ok i (rd_sector_size d) ltac:(lia)))), (mbind_ok _ _ _ _ _ (mlift_ok _ _ _ (uadd_ok (i * rd_sector_size d) (rd_sector_size d) ltac:(lia)))).
    rewrite (mbind_ok _ _ _ (sub buffer 0 (rd_sector_size d)) d).
    2: { apply mlift_ok. rewrite slice_ok by lia. do 2 f_equal. lia. }
    rewrite (mbind_ok _ _ _ (splice (base_address d) (i * rd_sector_size d) (sub buffer 0 (rd_sector_size d))) d); [done|].
    apply mlift_ok, copy_at_ok; lia.
  - split; simpl; rewrite ?zlen_splice; lia.
Qed.
End sector.

(** A sector written is read back, and the others keep what they hold. *)
Lemma write_read_sector d i j buffer out :
  rd_inv d → 0 ≤ i < zlen (base_address d) / rd_sector_size d → 0 ≤ j < zlen (base_address d) / rd_sector_size d →
  zlen buffer = rd_sector_size d → zlen out = rd_sector_size d →
  ∃ d', write_sector i buffer d = Ok (tt, d') ∧ rd_inv d' ∧
    read_sector j out d' = if decide (j = i) then Ok (buffer, d') else
      match read_sector j out d with Ok (b, _) => Ok (b, d') | r => r end.
Proof.
  intros Hd Hi Hj Hb Ho. destruct (write_sector_spec d Hd i Hi buffer) as [E Hd']; [lia|]. eexists. split; [exact E|]. split; [done|].
  destruct (sector_range d Hd i Hi) as [A1 A2]. destruct (sector_range d Hd j Hj) as [B1 B2]. pose proof Hd as [Hp _ _].
  rewrite (sub_all buffer) in * by done. set (d' := mkRamdisk _ _) in *.
  assert (zlen (base_address d') = zlen (base_address d)) as Hl by (simpl; rewrite zlen_splice; lia).
  rewrite (read_sector_spec d' Hd' j ltac:(rewrite Hl; exact Hj)) by (simpl; lia).
  rewrite (read_sector_spec d Hd j Hj) by lia. simpl.
  assert (∀ s, zlen s = rd_sector_size d → splice out 0 s = s) as Hall.
  { intros s Hs. apply zat_ext; [rewrite zlen_splice; lia|]. intros k Hk. rewrite zlen_splice in Hk by lia.
    rewrite zat_splice, decide_True by lia. f_equal. lia. }
  rewrite !Hall by (rewrite zlen_sub; rewrite ?zlen_splice; lia).
  case_decide as Eij; do 2 f_equal; (apply zat_ext; [rewrite !zlen_sub; rewrite ?zlen_splice; lia|]); intros k Hk;
    rewrite zlen_sub in Hk by (rewrite ?zlen_splice; lia); rewrite zat_sub, decide_True by lia.
  - subst j. rewrite zat_splice, decide_True by lia. f_equal. lia.
  - rewrite zat_sub, decide_True by lia. rewrite zat_splice by lia. rewrite decide_False; [done|].
    intros Hc. assert (j < i ∨ i < j) as [?|?] by lia; nia.
Qed.
