(* ===== verification/Pid.v ===== *)
(** * Process identifiers (src/process.rs)

    The allocator behind [Process::new]: a bit per identifier and the place
    where the next search starts. *)

From S2P Require Import Prelude Bytes.

Definition MAX_PID : Z := 65536.

Record PidAllocator : Type := mkPids { used : list bool; next_hint : Z }.

Abbreviation POp A := (M PidAllocator Empty_set A).

Definition new : PidAllocator := mkPids (splice (zrep (MAX_PID + 1) false) 0 [true]) 1.

(** [self.used[pid]] and [self.used.set(pid, b)]. *)
Definition bit (l : list bool) (pid : Z) : res Empty_set bool := unwrap (zat l pid).
Definition set_bit (l : list bool) (pid : Z) (b : bool) : res Empty_set (list bool) :=
  if bool_decide (0 ≤ pid < zlen l) then Ok (splice l pid [b]) else Panic.

(** [for pid in lo..lo + n]: the first identifier that is not in use. *)
Fixpoint scan (n : nat) (lo : Z) (l : list bool) : res Empty_set (option Z) :=
  match n with
  | O => Ok None
  | S n =>
      let? b := bit l lo in
      if b then scan n (lo + 1) l else Ok (Some lo)
  end.

(** The body of both loops once an identifier is found. *)
Definition take_pid (pid : Z) : POp (option Z) :=
  let! s := mget in
  let! l := mlift (set_bit (used s) pid true) in
  let! _ := mput (mkPids l (if pid =? MAX_PID then 1 else pid + 1)) in
  mret (Some (wrap 32 pid)).

Definition alloc : POp (option Z) :=
  let! s := mget in
  let! found := mlift (scan (Z.to_nat (MAX_PID + 1 - next_hint s)) (next_hint s) (used s)) in
  match found with
  | Some pid => take_pid pid
  | None =>
      let! found := mlift (scan (Z.to_nat (next_hint s - 1)) 1 (used s)) in
      match found with
      | Some pid => take_pid pid
      | None => mret None
      end
  end.

Definition free (pid : Z) : POp unit :=
  let! _ := mlift (rassert ((1 <=? pid) && (pid <=? MAX_PID))) in
  let! s := mget in
  let! b := mlift (bit (used s) pid) in
  let! _ := mlift (rassert b) in
  let! l := mlift (set_bit (used s) pid false) in
  mput (mkPids l (next_hint s)).

(** ** Correctness *)

(** The identifiers in use. *)
Definition live (s : PidAllocator) (p : Z) : Prop := 1 ≤ p ∧ zat (used s) p = Some true.

Record pid_inv (s : PidAllocator) : Prop := {
  pi_len : zlen (used s) = MAX_PID + 1;
  pi_hint : 1 ≤ next_hint s ≤ MAX_PID;
  pi_zero : zat (used s) 0 = Some true;
}.

Lemma scan_spec n : ∀ lo l,
  0 ≤ lo → lo + Z.of_nat n ≤ zlen l →
  (∃ p, scan n lo l = Ok (Some p) ∧ lo ≤ p < lo + Z.of_nat n ∧ zat l p = Some false) ∨
  (scan n lo l = Ok None ∧ ∀ p, lo ≤ p < lo + Z.of_nat n → zat l p = Some true).
Proof.
  induction n as [|n IH]; intros lo l Hlo Hl; [right; split; [done|lia]|]. cbn [scan]. unfold bit.
  destruct (zat_is_Some l lo) as [b Hb]; [lia|]. rewrite Hb. cbn. destruct b.
  - destruct (IH (lo + 1) l) as [(p & E & ? & ?)|[E Hall]]; [lia|lia|left; exists p; split_and!; [done|lia|lia|done]|].
    right. split; [done|]. intros p Hp. destruct (decide (p = lo)) as [->|]; [done|]. apply Hall. lia.
  - left. exists lo. split_and!; [done|lia|lia|done].
Qed.

Lemma pid_set_bit_spec l p b :
  0 ≤ p < zlen l → set_bit l p b = Ok (splice l p [b]) ∧ zlen (splice l p [b]) = zlen l ∧
  ∀ q, zat (splice l p [b]) q = if decide (q = p) then Some b else zat l q.
Proof.
  intros Hp. unfold set_bit. rewrite bool_decide_eq_true_2 by done. change (zlen [b]) with 1.
  assert (zlen [b] = 1) as H1 by done. split_and!; [done|apply zlen_splice; lia|].
  intros q. rewrite zat_splice by lia. rewrite H1. repeat case_decide; try lia; [|done]. by replace (q - p) with 0 by lia.
Qed.

Lemma take_pid_spec s p :
  pid_inv s → 1 ≤ p ≤ MAX_PID → ∃ s', take_pid p s = Ok (Some p, s') ∧ pid_inv s' ∧
    ∀ q, zat (used s') q = if decide (q = p) then Some true else zat (used s) q.
Proof.
  intros [Hl Hh Hz] Hp. destruct (pid_set_bit_spec (used s) p true) as (E & Hl' & Hat); [lia|].
  unfold take_pid. rewrite (mbind_ok _ _ _ s s) by done. rewrite (mbind_ok _ _ _ _ _ (mlift_ok _ _ _ E)).
  eexists. rewrite (mbind_ok _ _ _ tt (mkPids (splice (used s) p [true]) (if p =? MAX_PID then 1 else p + 1))) by done.
  assert (wrap 32 p = p) as -> by (unfold wrap, MAX_PID in *; rewrite Z.mod_small; lia).
  split_and!; [done| |done]. split; simpl; [lia| |rewrite Hat; by case_decide].
  unfold MAX_PID in *. zcase; lia.
Qed.

Lemma pid_alloc_spec s :
  pid_inv s → ∃ r s', alloc s = Ok (r, s') ∧ pid_inv s' ∧
    match r with
    | Some p => (1 ≤ p ≤ MAX_PID) ∧ ¬ live s p ∧ ∀ q, live s' q ↔ live s q ∨ q = p
    | None => s' = s ∧ ∀ p, 1 ≤ p ≤ MAX_PID → live s p
    end.
Proof.
  intros Hs. pose proof Hs as [Hl Hh Hz].
  assert (∀ p, 1 ≤ p ≤ MAX_PID → zat (used s) p = Some false → ∃ r s', take_pid p s = Ok (r, s') ∧ pid_inv s' ∧
    match r with
    | Some p => (1 ≤ p ≤ MAX_PID) ∧ ¬ live s p ∧ ∀ q, live s' q ↔ live s q ∨ q = p
    | None => s' = s ∧ ∀ p, 1 ≤ p ≤ MAX_PID → live s p
    end) as Htake.
  { intros p Hp Hf. destruct (take_pid_spec s p Hs Hp) as (s' & E & Hs' & Hat). exists (Some p), s'. split_and!; [done|done|lia|lia| |].
    - intros [_ ?]. congruence.
    - intros q. unfold live. rewrite Hat. case_decide; [subst; naive_solver lia|naive_solver]. }
  unfold alloc. rewrite (mbind_ok _ _ _ s s) by done.
  destruct (scan_spec (Z.to_nat (MAX_PID + 1 - next_hint s)) (next_hint s) (used s)) as [(p & E & Hp & Hf)|[E Hall]]; [lia|lia| |].
  { rewrite (mbind_ok _ _ _ _ _ (mlift_ok _ _ _ E)). apply Htake; [lia|done]. }
  rewrite (mbind_ok _ _ _ _ _ (mlift_ok _ _ _ E)).
  destruct (scan_spec (Z.to_nat (next_hint s - 1)) 1 (used s)) as [(p & E2 & Hp & Hf)|[E2 Hall2]]; [lia|lia| |];
    rewrite (mbind_ok _ _ _ _ _ (mlift_ok _ _ _ E2)); [apply Htake; [lia|done]|].
  exists None, s. split_and!; [done|done|done|]. intros p Hp. split; [lia|].
  destruct (decide (p < next_hint s)); [apply Hall2|apply Hall]; lia.
Qed.

Lemma pid_free_spec s p :
  pid_inv s → live s p → ∃ s', free p s = Ok (tt, s') ∧ pid_inv s' ∧ ∀ q, live s' q ↔ live s q ∧ q ≠ p.
Proof.
  intros Hs [Hp1 Hp]. pose proof Hs as [Hl Hh Hz]. pose proof (zat_Some_range _ _ _ Hp).
  destruct (pid_set_bit_spec (used s) p false) as (E & Hl' & Hat); [lia|]. unfold free.
  rewrite mbind_assert by (apply andb_true_iff; split; apply Z.leb_le; lia). rewrite (mbind_ok _ _ _ s s) by done.
  rewrite (mbind_ok _ _ _ true s) by (unfold bit; by rewrite Hp). rewrite mbind_assert by done.
  rewrite (mbind_ok _ _ _ _ _ (mlift_ok _ _ _ E)). eexists. split; [done|]. split.
  - split; simpl; [lia|done|]. rewrite Hat. case_decide; [lia|done].
  - intros q. unfold live. simpl. rewrite Hat. case_decide; [subst; naive_solver|naive_solver].
Qed.

(** ** Histories *)

(** Processes are created and end; [ps] are the identifiers of those there are. *)
Inductive pids : list Z → PidAllocator → Prop :=
| pids_new : pids [] new
| pids_alloc ps s p s' : pids ps s → alloc s = Ok (Some p, s') → pids (p :: ps) s'
| pids_free ps1 p ps2 s s' : pids (ps1 ++ p :: ps2) s → free p s = Ok (tt, s') → pids (ps1 ++ ps2) s'.

Lemma pids_inv ps s : pids ps s → pid_inv s ∧ NoDup ps ∧ ∀ p, p ∈ ps ↔ live s p.
Proof.
  induction 1 as [|ps s p s' _ (Hs & Hnd & Hl) E|ps1 p ps2 s s' _ (Hs & Hnd & Hl) E].
  - split_and!; [split; [by vm_compute|unfold MAX_PID; simpl; lia|by vm_compute]|constructor|].
    intros p. split; [by intros ?%elem_of_nil|]. intros [Hp1 Hp]. exfalso. simpl in Hp.
    rewrite zat_splice in Hp by (rewrite ?zlen_rep; unfold MAX_PID; try change (zlen [true]) with 1; lia).
    change (zlen [true]) with 1 in Hp. rewrite decide_False in Hp by lia. rewrite zat_rep in Hp. by case_decide.
  - destruct (pid_alloc_spec s Hs) as (r & s1 & E1 & Hs1 & Hr). rewrite E in E1. injection E1 as <- <-.
    destruct Hr as (_ & Hn & Hiff). split_and!; [done| |].
    + constructor; [by rewrite Hl|done].
    + intros q. rewrite elem_of_cons, Hl, Hiff. naive_solver.
  - assert (live s p) as Hp by (apply Hl; set_solver).
    destruct (pid_free_spec s p Hs Hp) as (s1 & E1 & Hs1 & Hiff). rewrite E in E1. injection E1 as <-.
    rewrite NoDup_app in Hnd. rewrite NoDup_cons in Hnd. destruct Hnd as (N1 & N12 & Np & N2). split_and!; [done| |].
    + apply NoDup_app. split_and!; [done|set_solver|done].
    + intros q. rewrite Hiff, <-Hl. rewrite !elem_of_app, elem_of_cons. split; [|naive_solver].
      intros Hq. split; [naive_solver|]. intros ->. destruct Hq as [Hq|Hq]; [|done]. apply (N12 p Hq). left.
Qed.

(** However processes are created and end, the identifiers of the running
    ones are distinct and in range, [alloc] fails only when all 65536 are in
    use, and it never panics; a running process can give its identifier back. *)
Lemma pids_correct ps s :
  pids ps s →
  NoDup ps ∧ (∀ p, p ∈ ps → 1 ≤ p ≤ MAX_PID) ∧
  (∃ r s', alloc s = Ok (r, s') ∧
     match r with
     | Some p => pids (p :: ps) s' ∧ p ∉ ps
     | None => s' = s ∧ Z.of_nat (length ps) = MAX_PID
     end) ∧
  (∀ p, p ∈ ps → ∃ s', free p s = Ok (tt, s')).
Proof.
  intros Hps. destruct (pids_inv ps s Hps) as (Hs & Hnd & Hl). split_and!; [done| | |].
  - intros p [H1 H2]%Hl. apply zat_Some_range in H2. pose proof (pi_len s Hs). lia.
  - destruct (pid_alloc_spec s Hs) as (r & s' & E & Hs' & Hr). exists r, s'. split; [done|]. destruct r as [p|].
    + destruct Hr as (_ & Hn & _). split; [by econstructor|by rewrite Hl].
    + destruct Hr as [-> Hall]. split; [done|].
      assert (ps ≡ₚ seqZ 1 MAX_PID) as ->; [|rewrite length_seqZ; unfold MAX_PID; lia].
      apply NoDup_Permutation; [done|apply NoDup_seqZ|]. intros p. rewrite Hl, elem_of_seqZ. split.
      * intros [H1 H2]. apply zat_Some_range in H2. pose proof (pi_len s Hs). lia.
      * intros ?. apply Hall. lia.
  - intros p Hp%Hl. destruct (pid_free_spec s p Hs Hp) as (s' & ? & _). by exists s'.
Qed.

Definition demo_pids : PidAllocator :=
  match alloc new with Ok (_, s) => s | _ => new end.

Definition first_result (s : PidAllocator) : option Z := match alloc s with Ok (r, _) => r | _ => None end.

Lemma first_result_Some s p : first_result s = Some p → ∃ s', alloc s = Ok (Some p, s').
Proof. unfold first_result. destruct (alloc s) as [[r s']| |]; [|done|done]. intros ->. by exists s'. Qed.

Lemma demo_pids_run : alloc new = Ok (Some 1, demo_pids).
Proof.
  destruct (first_result_Some new 1) as [s E]; [by vm_compute|]. unfold demo_pids. by rewrite E.
Qed.

Lemma pids_witness : ∃ s', alloc demo_pids = Ok (Some 2, s') ∧ (2 ∉ [1]).
Proof.
  destruct (pids_correct [1] demo_pids) as (_ & _ & (r & s' & E & Hr) & _).
  - exact (pids_alloc [] new 1 demo_pids pids_new demo_pids_run).
  - destruct (first_result_Some demo_pids 2) as [s2 E2]; [vm_compute; reflexivity|].
    assert (r = Some 2) as Er by (rewrite E in E2; by injection E2). rewrite Er in E, Hr.
    exists s'. split; [exact E|apply Hr].
Defined.
