(* ===== verification/Mutex.v ===== *)
(** * Locks (src/sync/int_spinlock.rs, src/sync/int_mutex.rs)

    An [IntMutex] as a transition system: any number of threads run the code of
    [lock] and of the guard's [drop], one access to shared memory at a time, in
    any interleaving.  The mutex spins and then suspends the thread on a queue
    that is protected by an [IntSpinLock].  Waiting in a spin loop is a step
    that changes nothing.  The interrupt flag is kept per thread: a thread that
    is switched out gets its flag back with its context. *)

From stdpp Require Import functions.
From S2P Require Import Prelude.

(** ** Program counters *)

(** Where a thread is.  [st] is the flag saved by [lock_impl], [g] the one that
    the guard restores, [sv] the one that [suspend_to_queue_if] preserves. *)
Inductive PC : Type :=
| Out                         (* not using the mutex *)
| Try (st g : bool)           (* lock_impl: attempt_acquire_lock *)
| LockBlock (st g : bool)     (* lock_block: can_yield *)
| YTry (st g : bool)          (* lock_block_yield: attempt_acquire_lock *)
| YSpin (n : nat) (st g : bool) (* lock_block_yield: the bounded spin *)
| YWhile (st g : bool)        (* lock_block_yield: while lock.load *)
| YSuspend (st g : bool)      (* suspend_to_queue_if: taking the queue lock *)
| YCheck (sv st g : bool)     (* suspend_to_queue_if: condition() *)
| YPush (sv st g : bool)      (* suspend_impl: push_back and switch *)
| Sleeping (sv st g : bool)   (* on the queue *)
| STry (st g : bool)          (* lock_block_spin: attempt_acquire_lock *)
| SWhile (st g : bool)        (* lock_block_spin: while lock.load *)
| Held (g : bool)             (* in the critical section *)
| DropQueue (g : bool)        (* drop: taking the queue lock *)
| DropPop (g : bool).         (* drop: pop_front and schedule *)

(** The mutex, its queue, and the threads. *)
Record Mutex : Type := mkMutex {
  locked : bool;        (* lock *)
  qlock : bool;         (* the spin lock of blocked *)
  blocked : list nat;   (* the threads in blocked *)
  pc : nat → PC;
  irq : nat → bool;
}.

Definition set_pc (t : nat) (p : PC) (s : Mutex) : Mutex :=
  mkMutex (locked s) (qlock s) (blocked s) (<[t := p]> (pc s)) (irq s).
Definition set_irq (t : nat) (b : bool) (s : Mutex) : Mutex :=
  mkMutex (locked s) (qlock s) (blocked s) (pc s) (<[t := b]> (irq s)).
Definition set_locked (b : bool) (s : Mutex) : Mutex :=
  mkMutex b (qlock s) (blocked s) (pc s) (irq s).
Definition set_qlock (b : bool) (s : Mutex) : Mutex :=
  mkMutex (locked s) b (blocked s) (pc s) (irq s).
Definition set_blocked (l : list nat) (s : Mutex) : Mutex :=
  mkMutex (locked s) (qlock s) l (pc s) (irq s).

Definition new : Mutex := mkMutex false false [] (λ _, Out) (λ _, true).

(** ** The code, one shared access at a time *)

(** [attempt_acquire_lock]: interrupts off, swap, and on failure the saved flag
    is restored. *)
Definition attempt_acquire_lock (t : nat) (st : bool) (got missed : PC) (s : Mutex) : Mutex :=
  if locked s then set_pc t missed (set_irq t st s)
  else set_pc t got (set_locked true (set_irq t false s)).

(** Taking the spin lock of the queue, [IntSpinLock::lock]: a failed swap is
    tried again. *)
Definition lock_queue (t : nat) (got : PC) (s : Mutex) : Mutex :=
  if qlock s then s else set_pc t got (set_qlock true (set_irq t false s)).

(** The wake-up of [x]: it returns from [suspend_to_queue_if] into the loop. *)
Definition schedule (x : nat) (s : Mutex) : Mutex :=
  match pc s x with
  | Sleeping sv st g => set_pc x (YWhile st g) (set_irq x sv s)
  | _ => s
  end.

Definition SPIN_COUNT : nat := 500.

(** [suspend_to_queue_if] with the queue lock held: [condition()] ... *)
Definition suspend_check (t : nat) (sv st g : bool) (s : Mutex) : Mutex :=
  if locked s then set_pc t (YPush sv st g) s
  else set_pc t (YWhile st g) (set_irq t sv (set_qlock false s)).

(** ... and what runs after the switch to the idle thread. *)
Definition suspend_push (t : nat) (sv st g : bool) (s : Mutex) : Mutex :=
  set_pc t (Sleeping sv st g) (set_qlock false (set_blocked (blocked s ++ [t]) s)).

(** The guard's [drop]: the store, and the wake-up with the queue lock held. *)
Definition drop_unlock (t : nat) (g : bool) (s : Mutex) : Mutex := set_pc t (DropQueue g) (set_locked false s).
Definition drop_wake (t : nat) (g : bool) (s : Mutex) : Mutex :=
  let s := match blocked s with [] => s | x :: l => schedule x (set_blocked l s) end in
  set_pc t Out (set_irq t g (set_qlock false s)).

(** One step of thread [t]; [c] is what the rest of the kernel decides: whether
    [lock] or [lock_no_restore_irq] is called, and whether the thread may be
    preempted ([can_yield] apart from the interrupt flag). *)
Definition step_of (t : nat) (c : bool) (s : Mutex) : Mutex :=
  match pc s t with
  | Out => set_pc t (Try (irq s t) (if c then irq s t else false)) s
  | Try st g => attempt_acquire_lock t st (Held g) (LockBlock st g) s
  | LockBlock st g => set_pc t (if irq s t && c then YTry st g else STry st g) s
  | YTry st g => attempt_acquire_lock t st (Held g) (YSpin SPIN_COUNT st g) s
  | YSpin n st g =>
      match n with
      | O => set_pc t (YWhile st g) s
      | S n => set_pc t (if locked s then YSpin n st g else YWhile st g) s
      end
  | YWhile st g => set_pc t (if locked s then YSuspend st g else YTry st g) s
  | YSuspend st g => lock_queue t (YCheck (irq s t) st g) s
  | YCheck sv st g => suspend_check t sv st g s
  | YPush sv st g => suspend_push t sv st g s
  | Sleeping sv st g => s
  | STry st g => attempt_acquire_lock t st (Held g) (SWhile st g) s
  | SWhile st g => set_pc t (if locked s then SWhile st g else STry st g) s
  | Held g => drop_unlock t g s
  | DropQueue g => lock_queue t (DropPop g) s
  | DropPop g => drop_wake t g s
  end.

Inductive reachable : Mutex → Prop :=
| reach_new : reachable new
| reach_step s t c : reachable s → reachable (step_of t c s).

(** ** The invariant *)

Definition is_held (p : PC) : bool := match p with Held _ => true | _ => false end.
Definition in_queue_lock (p : PC) : bool :=
  match p with YCheck _ _ _ | YPush _ _ _ | DropPop _ => true | _ => false end.
Definition is_sleeping (p : PC) : bool := match p with Sleeping _ _ _ => true | _ => false end.
Definition is_pushing (p : PC) : bool := match p with YPush _ _ _ => true | _ => false end.
(** Threads that run towards taking the mutex or towards waking a waiter. *)
Definition is_active (p : PC) : bool :=
  match p with Out | Held _ | YPush _ _ _ | Sleeping _ _ _ => false | _ => true end.

(** The flag [l] is set exactly while one thread is where [P] holds. *)
Record owned (P : PC → bool) (l : bool) (f : nat → PC) : Prop := {
  ow_set t : P (f t) = true → l = true;
  ow_some : l = true → ∃ t, P (f t) = true;
  ow_one t t' : P (f t) = true → P (f t') = true → t = t';
}.

Record mutex_inv (s : Mutex) : Prop := {
  mi_lock : owned is_held (locked s) (pc s);
  mi_qlock : owned in_queue_lock (qlock s) (pc s);
  mi_nodup : NoDup (blocked s);
  mi_blocked t : t ∈ blocked s ↔ is_sleeping (pc s t) = true;
  mi_wake : blocked s ≠ [] ∨ (∃ t, is_pushing (pc s t) = true) →
    locked s = true ∨ ∃ t, is_active (pc s t) = true;
  mi_irq t : is_held (pc s t) = true ∨ in_queue_lock (pc s t) = true → irq s t = false;
}.

Lemma owned_keep P l f t p : owned P l f → P p = P (f t) → owned P l (<[t := p]> f).
Proof.
  intros [H1 H2 H3] Hp.
  assert (∀ u, P (<[t := p]> f u) = P (f u)) as Hu.
  { intros u. destruct (decide (u = t)) as [->|]; [by rewrite fn_lookup_insert|by rewrite fn_lookup_insert_ne]. }
  split.
  - intros u. rewrite Hu. apply H1.
  - intros Hl. destruct (H2 Hl) as [u ?]. exists u. by rewrite Hu.
  - intros u u'. rewrite !Hu. apply H3.
Qed.

Lemma owned_take P f t p : owned P false f → P p = true → owned P true (<[t := p]> f).
Proof.
  intros [H1 H2 H3] Hp.
  assert (∀ u, P (<[t := p]> f u) = true → u = t) as Hu.
  { intros u. destruct (decide (u = t)) as [->|]; [done|]. rewrite fn_lookup_insert_ne by done. by intros ?%H1. }
  split; [done| |].
  - intros _. exists t. by rewrite fn_lookup_insert.
  - intros u u' ?%Hu ?%Hu. congruence.
Qed.

Lemma owned_drop P f t p l : owned P l f → P (f t) = true → P p = false → owned P false (<[t := p]> f).
Proof.
  intros [H1 H2 H3] Ht Hp.
  assert (∀ u, P (<[t := p]> f u) = false) as Hu.
  { intros u. destruct (decide (u = t)) as [->|]; [by rewrite fn_lookup_insert|]. rewrite fn_lookup_insert_ne by done.
    destruct (P (f u)) eqn:E; [|done]. by rewrite (H3 u t E Ht) in *. }
  split; [intros u; by rewrite Hu|done|intros u u'; by rewrite Hu].
Qed.

(** ** Preservation *)

(** A step that moves only [t], outside the queue. *)
Lemma local_step s t p l' q' i' :
  mutex_inv s → (∀ u, u ≠ t → i' u = irq s u) →
  owned is_held l' (<[t := p]> (pc s)) → owned in_queue_lock q' (<[t := p]> (pc s)) →
  is_sleeping (pc s t) = false → is_sleeping p = false → is_active p = true ∨ l' = true →
  (is_held p || in_queue_lock p = true → i' t = false) →
  mutex_inv (mkMutex l' q' (blocked s) (<[t := p]> (pc s)) i').
Proof.
  intros [_ _ Hnd Hb _ Hi] Hirq Hl Hq Hs Hs' Hw Hp. split; simpl; [done|done|done| | |].
  - intros u. rewrite Hb. destruct (decide (u = t)) as [->|]; [by rewrite fn_lookup_insert, Hs, Hs'|by rewrite fn_lookup_insert_ne].
  - intros _. destruct Hw as [?|?]; [right; exists t; by rewrite fn_lookup_insert|by left].
  - intros u. destruct (decide (u = t)) as [->|]; [rewrite fn_lookup_insert|].
    + rewrite <-orb_true_iff. apply Hp.
    + rewrite fn_lookup_insert_ne, Hirq by done. apply Hi.
Qed.

(** A step that changes no lock. *)
Lemma quiet_step s t p :
  mutex_inv s → is_held p = is_held (pc s t) → in_queue_lock p = in_queue_lock (pc s t) →
  is_sleeping (pc s t) = false → is_sleeping p = false → is_active p = true ∨ locked s = true →
  mutex_inv (set_pc t p s).
Proof.
  intros Hs H1 H2 H3 H4 H5. destruct (Hs) as [Hl Hq _ _ _ Hi]. apply (local_step s); try done; [by apply owned_keep..|].
  rewrite H1, H2, orb_true_iff. apply Hi.
Qed.

Lemma attempt_step s t st g missed :
  mutex_inv s → is_held (pc s t) = false → in_queue_lock (pc s t) = false → is_sleeping (pc s t) = false →
  is_held missed = false → in_queue_lock missed = false → is_active missed = true →
  mutex_inv (attempt_acquire_lock t st (Held g) missed s).
Proof.
  intros Hs H1 H2 H3 M1 M2 M3. destruct (Hs) as [Hl Hq _ _ _ Hi]. unfold attempt_acquire_lock.
  assert (is_sleeping missed = false) as M4 by (by destruct missed).
  destruct (locked s) eqn:El; (apply (local_step s); [done| | | | | | |]); try done.
  - intros u ?. simpl. by rewrite fn_lookup_insert_ne.
  - simpl. rewrite El. apply owned_keep; [done|congruence].
  - apply owned_keep; [done|congruence].
  - by left.
  - by rewrite M1, M2.
  - intros u ?. simpl. by rewrite fn_lookup_insert_ne.
  - by apply owned_take.
  - apply owned_keep; [done|by rewrite H2].
  - by right.
  - intros _. simpl. by rewrite fn_lookup_insert.
Qed.

Lemma lock_queue_step s t p :
  mutex_inv s → is_held (pc s t) = false → in_queue_lock (pc s t) = false → is_sleeping (pc s t) = false →
  is_held p = false → in_queue_lock p = true → is_active p = true → mutex_inv (lock_queue t p s).
Proof.
  intros Hs H1 H2 H3 P1 P2 P3. destruct (Hs) as [Hl Hq _ _ _ Hi]. unfold lock_queue.
  destruct (qlock s) eqn:Eq; [done|]. apply (local_step s); try done.
  - intros u ?. simpl. by rewrite fn_lookup_insert_ne.
  - apply owned_keep; [done|congruence].
  - by apply owned_take.
  - by destruct p.
  - by left.
  - intros _. simpl. by rewrite fn_lookup_insert.
Qed.

Lemma push_step s t sv st g :
  mutex_inv s → pc s t = YPush sv st g →
  mutex_inv (set_pc t (Sleeping sv st g) (set_qlock false (set_blocked (blocked s ++ [t]) s))).
Proof.
  intros [Hl Hq Hnd Hb Hw Hi] Hp. split; simpl.
  - apply owned_keep; [done|by rewrite Hp].
  - eapply owned_drop; [done|by rewrite Hp|done].
  - apply NoDup_app. split_and!; [done| |apply NoDup_singleton].
    intros u Hu ->%list_elem_of_singleton. apply Hb in Hu. by rewrite Hp in Hu.
  - intros u. rewrite elem_of_app, list_elem_of_singleton, Hb. destruct (decide (u = t)) as [->|].
    + rewrite fn_lookup_insert. naive_solver.
    + rewrite fn_lookup_insert_ne by done. naive_solver.
  - intros _. destruct Hw as [?|[u Hu]]; [right; exists t; by rewrite Hp|by left|].
    right. exists u. rewrite fn_lookup_insert_ne; [done|]. intros ->. by rewrite Hp in Hu.
  - intros u. destruct (decide (u = t)) as [->|]; [rewrite fn_lookup_insert; naive_solver|].
    rewrite fn_lookup_insert_ne by done. apply Hi.
Qed.

(** [drop] of the guard when nobody waits. *)
Lemma pop_empty_step s t g :
  mutex_inv s → pc s t = DropPop g → blocked s = [] →
  mutex_inv (set_pc t Out (set_irq t g (set_qlock false s))).
Proof.
  intros [Hl Hq Hnd Hb Hw Hi] Hp He. split; simpl.
  - apply owned_keep; [done|by rewrite Hp].
  - eapply owned_drop; [done|by rewrite Hp|done].
  - done.
  - intros u. rewrite Hb. destruct (decide (u = t)) as [->|]; [by rewrite fn_lookup_insert, Hp|by rewrite fn_lookup_insert_ne].
  - intros [?|[u Hu]]; [done|]. exfalso. destruct (decide (u = t)) as [->|]; [by rewrite fn_lookup_insert in Hu|].
    rewrite fn_lookup_insert_ne in Hu by done. assert (in_queue_lock (pc s u) = true) as Hq' by (by destruct (pc s u)).
    by rewrite (ow_one _ _ _ Hq u t Hq') in * by (by rewrite Hp).
  - intros u. destruct (decide (u = t)) as [->|]; [rewrite fn_lookup_insert; naive_solver|].
    rewrite !fn_lookup_insert_ne by done. apply Hi.
Qed.

(** [drop] of the guard when [x] is the first to wait. *)
Lemma pop_step s t g x l sv st g' :
  mutex_inv s → pc s t = DropPop g → blocked s = x :: l → pc s x = Sleeping sv st g' →
  mutex_inv (set_pc t Out (set_irq t g (set_qlock false (set_pc x (YWhile st g') (set_irq x sv (set_blocked l s)))))).
Proof.
  intros [Hl Hq Hnd Hb Hw Hi] Hp He Hx. assert (t ≠ x) as Hne by (intros ->; congruence).
  rewrite He in Hnd. apply NoDup_cons in Hnd as [Hxl Hnd]. split; simpl.
  - apply owned_keep; [apply owned_keep; [done|by rewrite Hx]|]. by rewrite fn_lookup_insert_ne, Hp.
  - eapply owned_drop; [apply owned_keep; [done|by rewrite Hx]|by rewrite fn_lookup_insert_ne, Hp|done].
  - done.
  - intros u. destruct (decide (u = t)) as [->|].
    { rewrite fn_lookup_insert. split; [|done]. intros Ht.
      assert (t ∈ blocked s) as H by (rewrite He; by right). apply Hb in H. by rewrite Hp in H. }
    rewrite fn_lookup_insert_ne by done. destruct (decide (u = x)) as [->|]; [by rewrite fn_lookup_insert|].
    rewrite fn_lookup_insert_ne, <-Hb, He, elem_of_cons by done. naive_solver.
  - intros _. right. exists x. by rewrite fn_lookup_insert_ne, fn_lookup_insert.
  - intros u. destruct (decide (u = t)) as [->|]; [rewrite fn_lookup_insert; naive_solver|].
    rewrite !(fn_lookup_insert_ne _ t) by done. destruct (decide (u = x)) as [->|]; [rewrite fn_lookup_insert; naive_solver|].
    rewrite !fn_lookup_insert_ne by done. apply Hi.
Qed.

Lemma mutex_step_inv s t c : mutex_inv s → mutex_inv (step_of t c s).
Proof.
  intros Hs. unfold step_of, suspend_check, suspend_push, drop_unlock, drop_wake. destruct (pc s t) as [ |st g|st g|st g|n st g|st g|st g|sv st g|sv st g|sv st g|st g|st g|g|g|g] eqn:E.
  - apply quiet_step; rewrite ?E; try done. by left.
  - apply attempt_step; rewrite ?E; done.
  - destruct (irq s t && c); (apply quiet_step; rewrite ?E; try done; by left).
  - apply attempt_step; rewrite ?E; done.
  - destruct n as [|n]; [apply quiet_step; rewrite ?E; try done; by left|].
    destruct (locked s); (apply quiet_step; rewrite ?E; try done; by left).
  - destruct (locked s); (apply quiet_step; rewrite ?E; try done; by left).
  - apply lock_queue_step; rewrite ?E; done.
  - destruct (locked s) eqn:El; [apply quiet_step; rewrite ?E; try done; by right|].
    destruct (Hs) as [Hl Hq _ _ _ Hi]. apply (local_step s); rewrite ?E; try done; [| |  |by left].
    + intros u ?. simpl. by rewrite fn_lookup_insert_ne.
    + apply owned_keep; [done|by rewrite E].
    + eapply owned_drop; [done|by rewrite E|done].
  - by apply push_step.
  - done.
  - apply attempt_step; rewrite ?E; done.
  - destruct (locked s); (apply quiet_step; rewrite ?E; try done; by left).
  - destruct (Hs) as [Hl Hq _ _ _ Hi]. apply (local_step s); rewrite ?E; try done; [| |by left].
    + eapply owned_drop; [done|by rewrite E|done].
    + apply owned_keep; [done|by rewrite E].
  - apply lock_queue_step; rewrite ?E; done.
  - destruct (blocked s) as [|x l] eqn:Eb; [by apply pop_empty_step|]. unfold schedule. simpl.
    assert (is_sleeping (pc s x) = true) as Hx by (apply (mi_blocked s Hs); rewrite Eb; by left).
    destruct (pc s x) as [ | | | | | | | | |sv' st' g'| | | | | ] eqn:Ex; try done. by eapply pop_step.
Qed.

Lemma new_mutex_inv : mutex_inv new.
Proof.
  split; simpl.
  - by split.
  - by split.
  - constructor.
  - intros t. split; [by intros ?%elem_of_nil|done].
  - by intros [?|[??]].
  - by intros t [?|?].
Qed.

Lemma reachable_mutex_inv s : reachable s → mutex_inv s.
Proof. induction 1; [apply new_mutex_inv|by apply mutex_step_inv]. Qed.

(** ** Progress *)

Definition steps : Mutex → Mutex → Prop := rtc (λ s s', ∃ t c, s' = step_of t c s).

Lemma steps_one s t c s' : s' = step_of t c s → steps s s'.
Proof. intros ->. apply rtc_once. by exists t, c. Qed.

Lemma steps_inv s s' : mutex_inv s → steps s s' → mutex_inv s'.
Proof. intros Hs. induction 1 as [|s1 s2 s3 (t & c & ->) _ IH]; [done|]. by apply IH, mutex_step_inv. Qed.

(** Threads between the call of [lock] and its return that are not asleep and
    not in the critical section of the queue. *)
Definition contends (p : PC) : bool :=
  match p with
  | Try _ _ | LockBlock _ _ | YTry _ _ | YSpin _ _ _ | YWhile _ _ | YSuspend _ _ | STry _ _ | SWhile _ _ => true
  | _ => false
  end.

(** Both locks are free. *)
Definition free (s : Mutex) : Prop := locked s = false ∧ qlock s = false.

(** The mutex is taken by [a] and nothing else happened. *)
Definition taken (a : nat) (s s' : Mutex) : Prop :=
  steps s s' ∧ is_held (pc s' a) = true ∧ blocked s' = blocked s ∧ qlock s' = false ∧
  ∀ u, u ≠ a → pc s' u = pc s u.

Lemma taken_after a s s1 s' :
  steps s s1 → blocked s1 = blocked s → (∀ u, u ≠ a → pc s1 u = pc s u) → taken a s1 s' → taken a s s'.
Proof.
  intros H1 Hb Hu (H2 & ? & Hb' & ? & Hu'). split_and!; [by etrans|done|congruence|done|].
  intros u ?. by rewrite Hu', Hu.
Qed.

(** One step of [a] to [p] that changes neither the locks nor the queue. *)
Lemma drive_via s a c p :
  free s → step_of a c s = set_pc a p s →
  (∀ s1, free s1 → pc s1 a = p → ∃ s', taken a s1 s') → ∃ s', taken a s s'.
Proof.
  intros Hf E Hnext. destruct (Hnext (set_pc a p s)) as [s' Hs']; [done|simpl; by rewrite fn_lookup_insert|].
  exists s'. eapply taken_after; [by apply (steps_one s a c)|done| |done].
  intros u ?. simpl. by rewrite fn_lookup_insert_ne.
Qed.

Lemma drive_attempt s a st g p :
  free s → step_of a true s = attempt_acquire_lock a st (Held g) p s → ∃ s', taken a s s'.
Proof.
  intros [Hl Hq] E. eexists. split_and!; [by apply (steps_one s a true)|..]; rewrite ?E; unfold attempt_acquire_lock; rewrite Hl.
  - simpl. by rewrite fn_lookup_insert.
  - done.
  - done.
  - intros u ?. simpl. by rewrite fn_lookup_insert_ne.
Qed.

Lemma drive_while s a st g : free s → pc s a = YWhile st g → ∃ s', taken a s s'.
Proof.
  intros [Hl Hq] Hp. apply (drive_via s a true (YTry st g)); [done|unfold step_of, suspend_check, suspend_push, drop_unlock, drop_wake; by rewrite Hp, Hl|].
  intros s1 Hf Hp1. eapply drive_attempt; [done|]. unfold step_of, suspend_check, suspend_push, drop_unlock, drop_wake. by rewrite Hp1.
Qed.

Lemma drive_suspend s a st g : free s → pc s a = YSuspend st g → ∃ s', taken a s s'.
Proof.
  intros [Hl Hq] Hp. set (s1 := step_of a true s). set (s2 := step_of a true s1).
  assert (s1 = set_pc a (YCheck (irq s a) st g) (set_qlock true (set_irq a false s))) as E1.
  { unfold s1, step_of, suspend_check, suspend_push, drop_unlock, drop_wake. rewrite Hp. unfold lock_queue. by rewrite Hq. }
  assert (pc s1 a = YCheck (irq s a) st g) as Hp1 by (rewrite E1; simpl; by rewrite fn_lookup_insert).
  assert (locked s1 = false) as Hl1 by (by rewrite E1).
  assert (s2 = set_pc a (YWhile st g) (set_irq a (irq s a) (set_qlock false s1))) as E2.
  { unfold s2, step_of, suspend_check, suspend_push, drop_unlock, drop_wake. by rewrite Hp1, Hl1. }
  destruct (drive_while s2 a st g) as [s' Hs'].
  - by rewrite E2.
  - rewrite E2. simpl. by rewrite fn_lookup_insert.
  - exists s'. eapply (taken_after a s s2); [|by rewrite E2, E1| |done].
    + etrans; [by apply (steps_one s a true s1)|by apply (steps_one s1 a true)].
    + intros u ?. rewrite E2, E1. simpl. by rewrite !fn_lookup_insert_ne.
Qed.

(** A thread that contends gets the mutex when it is free. *)
Lemma drive s a : free s → contends (pc s a) = true → ∃ s', taken a s s'.
Proof.
  intros Hf Hc. pose proof Hf as [Hl Hq].
  destruct (pc s a) as [ |st g|st g|st g|n st g|st g|st g| | | |st g|st g| | | ] eqn:E; try done.
  - eapply drive_attempt; [done|]. unfold step_of, suspend_check, suspend_push, drop_unlock, drop_wake. by rewrite E.
  - apply (drive_via s a false (STry st g)); [done|unfold step_of, suspend_check, suspend_push, drop_unlock, drop_wake; rewrite E; by rewrite andb_false_r|].
    intros s1 ? E1. eapply drive_attempt; [done|]. unfold step_of, suspend_check, suspend_push, drop_unlock, drop_wake. by rewrite E1.
  - eapply drive_attempt; [done|]. unfold step_of, suspend_check, suspend_push, drop_unlock, drop_wake. by rewrite E.
  - apply (drive_via s a true (YWhile st g)); [done| |intros s1 ? E1; by eapply drive_while].
    unfold step_of, suspend_check, suspend_push, drop_unlock, drop_wake. rewrite E, Hl. by destruct n.
  - by eapply drive_while.
  - by eapply drive_suspend.
  - eapply drive_attempt; [done|]. unfold step_of, suspend_check, suspend_push, drop_unlock, drop_wake. by rewrite E.
  - apply (drive_via s a true (STry st g)); [done|unfold step_of, suspend_check, suspend_push, drop_unlock, drop_wake; by rewrite E, Hl|].
    intros s1 ? E1. eapply drive_attempt; [done|]. unfold step_of, suspend_check, suspend_push, drop_unlock, drop_wake. by rewrite E1.
Qed.

(** The guard's [drop] after the mutex is released: the first waiter wakes. *)
Definition woke (s s' : Mutex) : Prop :=
  steps s s' ∧ free s' ∧ blocked s' = tail (blocked s) ∧ ∀ x, head (blocked s) = Some x → contends (pc s' x) = true.

Lemma finish_drop s a g : mutex_inv s → free s → pc s a = DropQueue g → ∃ s', woke s s'.
Proof.
  intros Hs [Hl Hq] Hp. set (s1 := step_of a true s). set (s2 := step_of a true s1).
  assert (s1 = set_pc a (DropPop g) (set_qlock true (set_irq a false s))) as E1.
  { unfold s1, step_of, suspend_check, suspend_push, drop_unlock, drop_wake. rewrite Hp. unfold lock_queue. by rewrite Hq. }
  assert (pc s1 a = DropPop g) as Hp1 by (rewrite E1; simpl; by rewrite fn_lookup_insert).
  assert (steps s s2) as Hst.
  { etrans; [by apply (steps_one s a true s1)|by apply (steps_one s1 a true)]. }
  exists s2. split; [done|]. unfold s2, step_of, suspend_check, suspend_push, drop_unlock, drop_wake. rewrite Hp1.
  assert (blocked s1 = blocked s) as Eb by (by rewrite E1). rewrite Eb. unfold free.
  assert (locked s1 = false) as Hl1 by (by rewrite E1).
  destruct (blocked s) as [|x l] eqn:Es; [simpl; by rewrite Eb|].
  assert (is_sleeping (pc s x) = true) as Hx by (apply (mi_blocked s Hs); rewrite Es; by left).
  assert (x ≠ a) as Hne by (intros ->; by rewrite Hp in Hx).
  assert (pc s1 x = pc s x) as Epx by (rewrite E1; simpl; by rewrite fn_lookup_insert_ne).
  unfold schedule. simpl. rewrite Epx. destruct (pc s x) as [ | | | | | | | | |sv st g'| | | | | ]; try done. simpl.
  split_and!; [done|done|done|]. intros ? [= <-]. by rewrite fn_lookup_insert_ne, fn_lookup_insert.
Qed.

Lemma release s a g : mutex_inv s → pc s a = Held g → qlock s = false → ∃ s', woke s s'.
Proof.
  intros Hs Hp Hq. assert (step_of a true s = set_pc a (DropQueue g) (set_locked false s)) as E by (unfold step_of, suspend_check, suspend_push, drop_unlock, drop_wake; by rewrite Hp).
  destruct (finish_drop (step_of a true s) a g) as (s' & Hst & Hf & Hb & Hx).
  - by apply mutex_step_inv.
  - by rewrite E.
  - rewrite E. simpl. by rewrite fn_lookup_insert.
  - exists s'. split_and!; [|done|by rewrite Hb, E|by rewrite E in Hx].
    trans (step_of a true s); [by apply (steps_one s a true)|done].
Qed.

(** While threads sleep on the queue, some thread is on its way to wake one. *)
Lemma wake_first s : mutex_inv s → free s → blocked s ≠ [] → ∃ s', woke s s'.
Proof.
  intros Hs Hf Hb. destruct (mi_wake s Hs) as [?|[a Ha]]; [by left|destruct Hf; congruence|].
  assert (in_queue_lock (pc s a) = false) as Hq.
  { destruct (in_queue_lock (pc s a)) eqn:E; [|done]. apply (ow_set _ _ _ (mi_qlock s Hs)) in E. destruct Hf. congruence. }
  destruct (contends (pc s a)) eqn:Hc.
  - destruct (drive s a Hf Hc) as (s1 & H01 & Hh & Hb1 & Hq1 & _).
    destruct (pc s1 a) as [ | | | | | | | | | | | |g| | ] eqn:E1; try done.
    destruct (release s1 a g) as (s2 & ? & ? & Hb2 & Hx); [by eapply steps_inv|done|done|].
    exists s2. split_and!; [by etrans|done|by rewrite Hb2, Hb1|by rewrite Hb1 in Hx].
  - destruct (pc s a) as [ | | | | | | | | | | | | |g| ] eqn:E; try done. by eapply finish_drop.
Qed.

(** A sleeping thread can get the mutex, after those before it in the queue. *)
Lemma sleeper_gets n : ∀ s t,
  mutex_inv s → free s → blocked s !! n = Some t → ∃ s', steps s s' ∧ is_held (pc s' t) = true.
Proof.
  induction n as [|n IH]; intros s t Hs Hf Ht.
  - destruct (wake_first s Hs Hf) as (s2 & ? & Hf2 & Hb2 & Hx2); [by destruct (blocked s)|].
    destruct (drive s2 t Hf2) as (s3 & ? & ? & _); [apply Hx2; by destruct (blocked s)|]. exists s3. split; [by etrans|done].
  - destruct (wake_first s Hs Hf) as (s2 & ? & Hf2 & Hb2 & Hx2); [by destruct (blocked s)|].
    destruct (IH s2 t) as (s3 & ? & ?); [by eapply steps_inv|done|rewrite Hb2; by destruct (blocked s)|].
    exists s3. split; [by etrans|done].
Qed.

(** Threads between the call of [lock] and its return. *)
Definition waits (p : PC) : bool :=
  contends p || is_sleeping p || match p with YCheck _ _ _ | YPush _ _ _ => true | _ => false end.

(** Whoever holds the queue lock gives it back. *)
Lemma free_queue s t :
  mutex_inv s → waits (pc s t) = true → ∃ s', steps s s' ∧ qlock s' = false ∧ waits (pc s' t) = true.
Proof.
  intros Hs Ht. destruct (qlock s) eqn:Hq; [|exists s; by split_and!].
  destruct (ow_some _ _ _ (mi_qlock s Hs) Hq) as [o Ho].
  assert (∀ s1 p, pc s1 = <[o := p]> (pc s) → (waits (pc s o) = true → waits p = true) → waits (pc s1 t) = true) as Hmove.
  { intros s1 p E Hp. rewrite E. destruct (decide (t = o)) as [->|]; [rewrite fn_lookup_insert; by apply Hp|by rewrite fn_lookup_insert_ne]. }
  destruct (pc s o) as [ | | | | | | |sv st g|sv st g| | | | | |g] eqn:Ep; try done.
  - destruct (locked s) eqn:Hl.
    + set (s1 := set_pc o (YPush sv st g) s). assert (s1 = step_of o true s) as E1 by (unfold step_of, suspend_check, suspend_push, drop_unlock, drop_wake; by rewrite Ep, Hl).
      assert (pc s1 o = YPush sv st g) as Ep1 by (simpl; by rewrite fn_lookup_insert).
      exists (step_of o true s1). split_and!.
      * etrans; [by apply (steps_one s o true s1)|by apply (steps_one s1 o true)].
      * unfold step_of, suspend_check, suspend_push, drop_unlock, drop_wake. by rewrite Ep1.
      * unfold step_of, suspend_check, suspend_push, drop_unlock, drop_wake. rewrite Ep1. simpl. destruct (decide (t = o)) as [->|]; [by rewrite fn_lookup_insert|by rewrite !fn_lookup_insert_ne].
    + exists (step_of o true s). unfold step_of, suspend_check, suspend_push, drop_unlock, drop_wake. rewrite Ep, Hl. split_and!; [|done|by eapply Hmove].
      apply (steps_one s o true). unfold step_of, suspend_check, suspend_push, drop_unlock, drop_wake. by rewrite Ep, Hl.
  - exists (step_of o true s). unfold step_of, suspend_check, suspend_push, drop_unlock, drop_wake. rewrite Ep. split_and!; [|done|by eapply Hmove].
    apply (steps_one s o true). unfold step_of, suspend_check, suspend_push, drop_unlock, drop_wake. by rewrite Ep.
  - exists (step_of o true s). split_and!; [by apply (steps_one s o true)|unfold step_of, suspend_check, suspend_push, drop_unlock, drop_wake; by rewrite Ep|].
    assert (t ≠ o) as Hne by (intros ->; by rewrite Ep in Ht). unfold step_of, suspend_check, suspend_push, drop_unlock, drop_wake. rewrite Ep. simpl. rewrite fn_lookup_insert_ne by done.
    destruct (blocked s) as [|x l]; [done|]. unfold schedule. simpl. destruct (pc s x) eqn:Ex; try done. simpl.
    destruct (decide (t = x)) as [->|]; [by rewrite fn_lookup_insert|by rewrite fn_lookup_insert_ne].
Qed.

(** ... and whoever holds the mutex releases it. *)
Lemma settle s t :
  mutex_inv s → waits (pc s t) = true → ∃ s', steps s s' ∧ free s' ∧ waits (pc s' t) = true.
Proof.
  intros Hs Ht. destruct (free_queue s t Hs Ht) as (s1 & H1 & Hq & Ht1).
  destruct (locked s1) eqn:Hl; [|exists s1; by split_and!].
  assert (mutex_inv s1) as Hs1 by (by eapply steps_inv).
  destruct (ow_some _ _ _ (mi_lock s1 Hs1) Hl) as [h Hh].
  destruct (pc s1 h) as [ | | | | | | | | | | | |g| | ] eqn:Ep; try done.
  exists (step_of h true s1). split_and!; [etrans; [done|by apply (steps_one s1 h true)]| |].
  - unfold step_of, suspend_check, suspend_push, drop_unlock, drop_wake. rewrite Ep. by split.
  - unfold step_of, suspend_check, suspend_push, drop_unlock, drop_wake. rewrite Ep. simpl. rewrite fn_lookup_insert_ne; [done|]. intros ->. by rewrite Ep in Ht1.
Qed.

(** C3: At most one thread is in the critical section, the lock flag is set
    exactly then, and interrupts are off for that thread. *)
Theorem mutex_exclusion s :
  reachable s →
  (∀ t t', is_held (pc s t) = true → is_held (pc s t') = true → t = t') ∧
  (locked s = true ↔ ∃ t, is_held (pc s t) = true) ∧
  (∀ t, is_held (pc s t) = true → irq s t = false).
Proof.
  intros Hs%reachable_mutex_inv. destruct (mi_lock s Hs) as [H1 H2 H3]. split_and!; [done| |].
  - split; [done|]. intros [t Ht]. by eapply H1.
  - intros t Ht. apply (mi_irq s Hs). by left.
Qed.

(** C4: No wake-up is lost: while threads sleep on the queue some thread holds
    the mutex or is on its way to it or to the queue, and from every reachable
    state there is a schedule in which a thread that has called [lock] gets it. *)
Theorem mutex_progress s t :
  reachable s →
  (blocked s ≠ [] → ∃ u, is_held (pc s u) = true ∨ is_active (pc s u) = true) ∧
  (waits (pc s t) = true → ∃ s', steps s s' ∧ is_held (pc s' t) = true).
Proof.
  intros Hs%reachable_mutex_inv. split.
  - intros Hb. destruct (mi_wake s Hs) as [Hl|[u ?]]; [by left| |exists u; by right].
    destruct (ow_some _ _ _ (mi_lock s Hs) Hl) as [u ?]. exists u. by left.
  - intros Ht. destruct (settle s t Hs Ht) as (s1 & H1 & Hf & Ht1). assert (mutex_inv s1) as Hs1 by (by eapply steps_inv).
    destruct (is_sleeping (pc s1 t)) eqn:Esl.
    + apply (mi_blocked s1 Hs1) in Esl as [n Hn]%list_elem_of_lookup_1.
      destruct (sleeper_gets n s1 t Hs1 Hf Hn) as (s2 & ? & ?). exists s2. split; [by etrans|done].
    + assert (contends (pc s1 t) = true) as Hc.
      { destruct (contends (pc s1 t)) eqn:Ec; [done|]. assert (in_queue_lock (pc s1 t) = true) as Hq by (by destruct (pc s1 t)).
        apply (ow_set _ _ _ (mi_qlock s1 Hs1)) in Hq. destruct Hf. congruence. }
      destruct (drive s1 t Hf Hc) as (s2 & ? & ? & _). exists s2. split; [by etrans|done].
Qed.

(** ** Examples *)

(** Thread 0 takes the mutex and thread 1 spins and goes to sleep. *)
Fixpoint run (l : list nat) (s : Mutex) : Mutex :=
  match l with [] => s | t :: l => run l (step_of t true s) end.

Definition demo_mutex : Mutex := run ([0; 0] ++ replicate 510 1)%nat new.

Lemma run_reachable l s : reachable s → reachable (run l s).
Proof. revert s. induction l as [|t l IH]; intros s Hs; [done|]. apply IH. by constructor. Qed.

Lemma demo_mutex_reachable : reachable demo_mutex.
Proof. apply run_reachable. constructor. Qed.

Lemma mutex_exclusion_witness : is_held (pc demo_mutex 0%nat) = true ∧ irq demo_mutex 0%nat = false.
Proof.
  destruct (mutex_exclusion demo_mutex demo_mutex_reachable) as (_ & _ & H).
  split; [vm_compute; reflexivity|apply H; vm_compute; reflexivity].
Defined.

Lemma mutex_progress_witness :
  blocked demo_mutex = [1%nat] ∧ ∃ s', steps demo_mutex s' ∧ is_held (pc s' 1%nat) = true.
Proof.
  split; [vm_compute; reflexivity|].
  apply (mutex_progress demo_mutex 1%nat demo_mutex_reachable). vm_compute. reflexivity.
Defined.
