(* ===== verification/Sync.v ===== *)
(** * Synchronisation built on the mutex (src/sync/)

    [Semaphore], [Promise], [RwLock] and [BoundedBuffer] keep their state under
    an [IntMutex], so each of their critical sections is one step; threads
    interleave between them.  Inside a critical section interrupts are off
    ([Mutex.mutex_exclusion]), which is what [can_yield] sees there.  Threads
    are entries of a list, their place in it is their name. *)

From S2P Require Import Prelude Bytes Mutex.

(** [thread::can_yield]: the interrupt flag and [can_yield_for_preempt]. *)
Definition can_yield (irq preempt : bool) : bool := irq && preempt.

(** The interrupt flag while the state mutex is held. *)
Definition irq_in_critical_section : bool := false.

(** ** Counting threads *)

Section count.
Context {A : Type} (P : A → bool).

Definition count (l : list A) : Z := Z.of_nat (length (base.filter (λ x, P x = true) l)).

Lemma count_nonneg l : 0 ≤ count l.
Proof. unfold count. lia. Qed.

Lemma count_cons x l : count (x :: l) = (if P x then 1 else 0) + count l.
Proof. unfold count. rewrite filter_cons. destruct (P x) eqn:E; [rewrite decide_True by done|rewrite decide_False by congruence]; simpl; lia. Qed.

(** One thread moves. *)
Lemma count_insert l i x y :
  l !! i = Some x → count (<[i := y]> l) = count l - (if P x then 1 else 0) + (if P y then 1 else 0).
Proof.
  revert i. induction l as [|z l IH]; intros i; [done|]. destruct i as [|i]; simpl.
  - intros [= ->]. rewrite !count_cons. lia.
  - intros Hi. rewrite !count_cons, (IH i Hi). lia.
Qed.

Lemma count_some l i x : l !! i = Some x → P x = true → 1 ≤ count l.
Proof.
  intros Hi Hx. assert (count (<[i := x]> l) = count l) as E by (by rewrite list_insert_id).
  revert i Hi E. induction l as [|z l IH]; intros i; [done|]. rewrite count_cons. pose proof (count_nonneg l). destruct i as [|i]; simpl.
  - intros [= ->] _. rewrite Hx. lia.
  - intros Hi _. assert (1 ≤ count l) by (apply (IH i Hi); by rewrite list_insert_id). destruct (P z); lia.
Qed.

Lemma count_all_false l : (∀ x, x ∈ l → P x = false) → count l = 0.
Proof.
  induction l as [|z l IH]; [done|]. intros H. rewrite count_cons, (H z) by (by left). rewrite IH; [done|].
  intros x ?. apply H. by right.
Qed.

Lemma count_pos l : 1 ≤ count l → ∃ i x, l !! i = Some x ∧ P x = true.
Proof.
  induction l as [|z l IH]; [done|]. rewrite count_cons. destruct (P z) eqn:E; [intros _; by exists 0%nat, z|].
  intros H. destruct IH as (i & x & ? & ?); [lia|]. by exists (S i), x.
Qed.
End count.

(** ** Semaphore *)
Module Semaphore.

Inductive PC : Type :=
| Out
| Down              (* down: at the top of the loop *)
| DownSpin          (* down: waiting for a permit in the spin loop *)
| Sleeping          (* down: suspended on waiters *)
| Up (wake : option nat) (* up: to schedule the waiter *).

(** [taken] and [given] record the calls of [down] that returned and of [up]. *)
Record State : Type := mk {
  permits : Z;          (* count *)
  waiters : list nat;
  threads : list PC;
  taken : Z;
  given : Z;
}.

Definition new (initial : Z) (n : nat) : State := mk initial [] (replicate n Out) 0 0.

Definition set_thread (t : nat) (p : PC) (s : State) : State :=
  mk (permits s) (waiters s) (<[t := p]> (threads s)) (taken s) (given s).

(** One turn of the loop of [down]. *)
Definition down_turn (t : nat) (preempt : bool) (s : State) : State :=
  if 0 <? permits s then set_thread t Out (mk (permits s - 1) (waiters s) (threads s) (taken s + 1) (given s))
  else if negb (can_yield irq_in_critical_section preempt) then set_thread t DownSpin s
  else set_thread t Sleeping (mk (permits s) (waiters s ++ [t]) (threads s) (taken s) (given s)).

(** The critical section of [up]. *)
Definition up_section (t : nat) (s : State) : res Empty_set State :=
  let? c := uadd (permits s) 1 in
  Ok (match waiters s with
      | [] => set_thread t (Up None) (mk c [] (threads s) (taken s) (given s + 1))
      | x :: l => set_thread t (Up (Some x)) (mk c l (threads s) (taken s) (given s + 1))
      end).

Definition step (t : nat) (c preempt : bool) (s : State) : res Empty_set State :=
  match threads s !! t with
  | None => Ok s
  | Some Out => if c then Ok (set_thread t Down s) else up_section t s
  | Some Down => Ok (down_turn t preempt s)
  | Some DownSpin => Ok (if permits s =? 0 then s else set_thread t Down s)
  | Some Sleeping => Ok s
  | Some (Up None) => Ok (set_thread t Out s)
  | Some (Up (Some x)) =>
      Ok (set_thread t Out (match threads s !! x with Some Sleeping => set_thread x Down s | _ => s end))
  end.

(** *** Correctness *)

Inductive reachable (initial : Z) (n : nat) : State → Prop :=
| reach_new : reachable initial n (new initial n)
| reach_step s t c preempt s' : reachable initial n s → step t c preempt s = Ok s' → reachable initial n s'.

Record inv (initial : Z) (s : State) : Prop := {
  i_permits : permits s = initial + given s - taken s;
  i_nonneg : 0 ≤ permits s;
  i_waiters : waiters s = [];
  i_awake t : threads s !! t ≠ Some Sleeping ∧ ∀ x, threads s !! t ≠ Some (Up (Some x));
}.

Lemma set_thread_awake t p s :
  (∀ u, threads s !! u ≠ Some Sleeping ∧ ∀ x, threads s !! u ≠ Some (Up (Some x))) →
  p ≠ Sleeping → (∀ x, p ≠ Up (Some x)) →
  ∀ u, threads (set_thread t p s) !! u ≠ Some Sleeping ∧ ∀ x, threads (set_thread t p s) !! u ≠ Some (Up (Some x)).
Proof.
  intros Ha Hp Hp' u. simpl. destruct (decide (u = t)) as [->|]; [|by rewrite list_lookup_insert_ne].
  destruct (decide (t < length (threads s))%nat).
  - rewrite list_lookup_insert_eq by done. split; [congruence|]. intros x. specialize (Hp' x). congruence.
  - rewrite list_insert_ge by lia. apply Ha.
Qed.

Lemma sem_step_inv initial s t c preempt s' : inv initial s → step t c preempt s = Ok s' → inv initial s'.
Proof.
  intros [Hp Hn Hw Ha] E. unfold step in E.
  assert (∀ p, p ≠ Sleeping → (∀ x, p ≠ Up (Some x)) → inv initial (set_thread t p s)) as Hmove.
  { intros p ??. split; simpl; [done|done|done|]. by apply set_thread_awake. }
  destruct (threads s !! t) as [[ | | | |[x|]]|] eqn:Et; simplify_eq.
  - destruct c; simplify_eq; [by apply Hmove|]. unfold up_section in E.
    destruct (@uadd Empty_set (permits s) 1) as [k| |] eqn:Ek; simplify_eq. apply uadd_inv in Ek as [-> _]. cbn in E.
    rewrite Hw in E. simplify_eq. split; simpl; [lia|lia|done|]. by apply (set_thread_awake t (Up None) s).
  - unfold down_turn. destruct (Z.ltb_spec 0 (permits s)); [|by apply Hmove].
    split; simpl; [lia|lia|done|]. by apply (set_thread_awake t Out s).
  - destruct (permits s =? 0); [by split|by apply Hmove].
  - by destruct (proj1 (Ha t) Et).
  - by destruct (proj2 (Ha t) x Et).
  - by apply Hmove.
  - by split.
Qed.

Lemma sem_reachable_inv initial n s : 0 ≤ initial → reachable initial n s → inv initial s.
Proof.
  intros Hi. induction 1; [|by eapply sem_step_inv]. split; simpl; [lia|lia|done|].
  intros t. destruct (replicate n Out !! t) as [p|] eqn:E; [|done]. apply lookup_replicate in E as [-> _]. done.
Qed.
End Semaphore.

(** ** Promise *)
Module Promise.
Section promise.
Context {T : Type}.

Inductive PC : Type :=
| Out
| Get               (* get: at the top of the loop *)
| GetSpin           (* get: in the spin loop *)
| Sleeping          (* get: suspended on waiters *)
| Got (v : T)       (* get returned v *)
| Waking (l : list nat). (* set: scheduling the waiters *)

Record State : Type := mk {
  value : option T;
  waiters : list nat;
  threads : list PC;
}.

Definition new (n : nat) : State := mk None [] (replicate n Out).

Definition set_thread (t : nat) (p : PC) (s : State) : State := mk (value s) (waiters s) (<[t := p]> (threads s)).

(** The critical section of [set]. *)
Definition set_section (t : nat) (x : T) (s : State) : res Empty_set State :=
  match value s with
  | Some _ => Panic
  | None => Ok (set_thread t (Waking (waiters s)) (mk (Some x) [] (threads s)))
  end.

(** One turn of the loop of [get]. *)
Definition get_turn (t : nat) (preempt : bool) (s : State) : State :=
  match value s with
  | Some v => set_thread t (Got v) s
  | None =>
      if negb (can_yield irq_in_critical_section preempt) then set_thread t GetSpin s
      else set_thread t Sleeping (mk None (waiters s ++ [t]) (threads s))
  end.

(** The call a thread makes: [Some x] is [set(x)], [None] is [get()]. *)
Definition step (t : nat) (call : option T) (preempt : bool) (s : State) : res Empty_set State :=
  match threads s !! t with
  | None => Ok s
  | Some Out => match call with Some x => set_section t x s | None => Ok (set_thread t Get s) end
  | Some Get => Ok (get_turn t preempt s)
  | Some GetSpin => Ok (match value s with None => s | Some _ => set_thread t Get s end)
  | Some Sleeping => Ok s
  | Some (Got _) => Ok s
  | Some (Waking []) => Ok (set_thread t Out s)
  | Some (Waking (x :: l)) =>
      Ok (set_thread t (Waking l) (match threads s !! x with Some Sleeping => set_thread x Get s | _ => s end))
  end.

(** *** Correctness *)

Inductive reachable (n : nat) : State → Prop :=
| reach_new : reachable n (new n)
| reach_step s t call preempt s' : reachable n s → step t call preempt s = Ok s' → reachable n s'.

(** Nobody sleeps, and what a getter got is the value. *)
Definition thread_ok (v : option T) (p : PC) : Prop :=
  match p with
  | Got x => v = Some x
  | Sleeping => False
  | Waking l => l = [] ∧ v ≠ None
  | _ => True
  end.

Record inv (s : State) : Prop := {
  i_waiters : waiters s = [];
  i_threads : Forall (thread_ok (value s)) (threads s);
}.

Lemma promise_step_inv s t call preempt s' :
  inv s → step t call preempt s = Ok s' → inv s' ∧ (∀ v, value s = Some v → value s' = Some v).
Proof.
  intros [Hw Ht] E. unfold step in E. destruct (threads s !! t) as [p|] eqn:Et; [|simplify_eq; by repeat split].
  assert (thread_ok (value s) p) as Hp by (by eapply Forall_lookup_1).
  assert (∀ q, thread_ok (value s) q → inv (set_thread t q s)) as Hmove.
  { intros q Hq. split; simpl; [done|]. by apply Forall_insert. }
  destruct p as [ | | | |v|l]; simplify_eq.
  - destruct call as [x|]; simplify_eq; [|split; [by apply Hmove|done]]. unfold set_section in E.
    destruct (value s) as [v|] eqn:Ev; simplify_eq. split; [|done]. split; simpl; [done|].
    apply Forall_insert; [|by rewrite Hw]. eapply Forall_impl; [done|]. intros [ ]; simpl; try done. naive_solver.
  - unfold get_turn. destruct (value s) as [v|] eqn:Ev; (split; [by apply Hmove|simpl; congruence]).
  - destruct (value s) as [v|] eqn:Ev; [split; [by apply Hmove|simpl; congruence]|]. split; [split; [done|by rewrite Ev]|congruence].
  - done.
  - by repeat split.
  - destruct Hp as [-> Hv]. simplify_eq. split; [by apply Hmove|done].
Qed.

Lemma promise_reachable_inv n s : reachable n s → inv s.
Proof.
  induction 1; [|by eapply promise_step_inv]. split; simpl; [done|]. by apply Forall_replicate.
Qed.
End promise.
Arguments PC : clear implicits.
Arguments State : clear implicits.
End Promise.

(** ** Reader-writer lock *)
Module RwLock.

(** [reg] is the local variable [registered_waiter] of [write_lock]. *)
Inductive PC : Type :=
| Out
| ReadTry                 (* read_lock: at the top of the loop *)
| ReadSpin
| ReadSleeping
| Reading                 (* holds a read guard *)
| WriteTry (reg : bool)   (* write_lock: at the top of the loop *)
| WriteSpin               (* write_lock: spinning, registered *)
| WriteSleeping
| Writing                 (* holds the write guard *)
| Waking (l : list nat).  (* unlocked: scheduling the waiters *)

Record State : Type := mk {
  readers : Z;
  writer_active : bool;
  waiting_writers : Z;
  read_wait : list nat;
  write_wait : list nat;
  threads : list PC;
}.

Definition new (n : nat) : State := mk 0 false 0 [] [] (replicate n Out).

Definition set_thread (t : nat) (p : PC) (s : State) : State :=
  mk (readers s) (writer_active s) (waiting_writers s) (read_wait s) (write_wait s) (<[t := p]> (threads s)).
Definition set_readers (n : Z) (s : State) : State :=
  mk n (writer_active s) (waiting_writers s) (read_wait s) (write_wait s) (threads s).
Definition set_writer_active (b : bool) (s : State) : State :=
  mk (readers s) b (waiting_writers s) (read_wait s) (write_wait s) (threads s).
Definition set_waiting_writers (n : Z) (s : State) : State :=
  mk (readers s) (writer_active s) n (read_wait s) (write_wait s) (threads s).
Definition set_read_wait (l : list nat) (s : State) : State :=
  mk (readers s) (writer_active s) (waiting_writers s) l (write_wait s) (threads s).
Definition set_write_wait (l : list nat) (s : State) : State :=
  mk (readers s) (writer_active s) (waiting_writers s) (read_wait s) l (threads s).

(** One turn of the loop of [read_lock]. *)
Definition read_turn (t : nat) (preempt : bool) (s : State) : res Empty_set State :=
  if negb (writer_active s) && (waiting_writers s =? 0) then
    let? n := uadd (readers s) 1 in
    Ok (set_thread t Reading (set_readers n s))
  else if negb (can_yield irq_in_critical_section preempt) then Ok (set_thread t ReadSpin s)
  else Ok (set_thread t ReadSleeping (set_read_wait (read_wait s ++ [t]) s)).

(** One turn of the loop of [write_lock]. *)
Definition write_turn (t : nat) (reg preempt : bool) (s : State) : res Empty_set State :=
  if negb (writer_active s) && (readers s =? 0) then
    let s := set_writer_active true s in
    let? n := (if reg then usub (waiting_writers s) 1 else Ok (waiting_writers s)) in
    Ok (set_thread t Writing (set_waiting_writers n s))
  else
    let? n := (if reg then Ok (waiting_writers s) else uadd (waiting_writers s) 1) in
    let s := set_waiting_writers n s in
    if negb (can_yield irq_in_critical_section preempt) then Ok (set_thread t WriteSpin s)
    else Ok (set_thread t WriteSleeping (set_write_wait (write_wait s ++ [t]) s)).

(** The critical section of [read_unlock]. *)
Definition read_unlock (t : nat) (s : State) : res Empty_set State :=
  let? _ := rassert (0 <? readers s) in
  let? n := usub (readers s) 1 in
  let s := set_readers n s in
  if (readers s =? 0) && (0 <? waiting_writers s) then
    match write_wait s with
    | [] => Ok (set_thread t (Waking []) s)
    | x :: l => Ok (set_thread t (Waking [x]) (set_write_wait l s))
    end
  else Ok (set_thread t (Waking []) s).

(** The critical section of [write_unlock]. *)
Definition write_unlock (t : nat) (s : State) : res Empty_set State :=
  let? _ := rassert (writer_active s) in
  let s := set_writer_active false s in
  if 0 <? waiting_writers s then
    match write_wait s with
    | [] => Ok (set_thread t (Waking []) s)
    | x :: l => Ok (set_thread t (Waking [x]) (set_write_wait l s))
    end
  else Ok (set_thread t (Waking (read_wait s)) (set_read_wait [] s)).

(** [schedule_thread] of a waiter: it runs the loop again. *)
Definition schedule (x : nat) (s : State) : State :=
  match threads s !! x with
  | Some ReadSleeping => set_thread x ReadTry s
  | Some WriteSleeping => set_thread x (WriteTry true) s
  | _ => s
  end.

(** [c]: the thread calls [read_lock] ([true]) or [write_lock]. *)
Definition step (t : nat) (c preempt : bool) (s : State) : res Empty_set State :=
  match threads s !! t with
  | None => Ok s
  | Some Out => Ok (set_thread t (if c then ReadTry else WriteTry false) s)
  | Some ReadTry => read_turn t preempt s
  | Some ReadSpin =>
      Ok (if writer_active s || negb (waiting_writers s =? 0) then s else set_thread t ReadTry s)
  | Some ReadSleeping => Ok s
  | Some Reading => read_unlock t s
  | Some (WriteTry reg) => write_turn t reg preempt s
  | Some WriteSpin =>
      Ok (if writer_active s || negb (readers s =? 0) then s else set_thread t (WriteTry true) s)
  | Some WriteSleeping => Ok s
  | Some Writing => write_unlock t s
  | Some (Waking []) => Ok (set_thread t Out s)
  | Some (Waking (x :: l)) => Ok (set_thread t (Waking l) (schedule x s))
  end.

(** *** Correctness *)

Inductive reachable (n : nat) : State → Prop :=
| reach_new : reachable n (new n)
| reach_step s t c preempt s' : reachable n s → step t c preempt s = Ok s' → reachable n s'.

Definition is_reading (p : PC) : bool := match p with Reading => true | _ => false end.
Definition is_writing (p : PC) : bool := match p with Writing => true | _ => false end.
(** Writers that have registered and do not hold the lock yet. *)
Definition is_registered (p : PC) : bool := match p with WriteTry true | WriteSpin | WriteSleeping => true | _ => false end.
Definition is_asleep (p : PC) : bool := match p with ReadSleeping | WriteSleeping | Waking (_ :: _) => true | _ => false end.

Record inv (s : State) : Prop := {
  i_readers : readers s = count is_reading (threads s);
  i_writer : (if writer_active s then 1 else 0) = count is_writing (threads s);
  i_waiting : waiting_writers s = count is_registered (threads s);
  i_excl : writer_active s = true → readers s = 0;
  i_awake : read_wait s = [] ∧ write_wait s = [] ∧ count is_asleep (threads s) = 0;
}.

Lemma count_bound {A} (P : A → bool) (l : list A) : count P l ≤ zlen l.
Proof. unfold count, zlen. pose proof (length_filter (λ x, P x = true) l). lia. Qed.

(** A thread moves without touching the lock. *)
Lemma rw_move_inv s t p q :
  inv s → threads s !! t = Some p → is_reading q = is_reading p → is_writing q = is_writing p →
  is_registered q = is_registered p → is_asleep q = false → inv (set_thread t q s).
Proof.
  intros [H1 H2 H3 H4 (H5 & H6 & H7)] Ht E1 E2 E3 E4.
  assert (is_asleep p = false) as Ep. { destruct (is_asleep p) eqn:E; [|done]. pose proof (count_some _ _ _ _ Ht E). lia. }
  split; simpl; rewrite ?(count_insert _ _ _ _ q Ht), ?E1, ?E2, ?E3, ?E4, ?Ep; try done; try lia.
  split_and!; [done|done|lia].
Qed.

Section steps.
Context (s : State) (Hs : inv s) (t : nat).

Lemma read_turn_inv preempt s' :
  threads s !! t = Some ReadTry → read_turn t preempt s = Ok s' → inv s'.
Proof.
  intros Ht E. destruct Hs as [H1 H2 H3 H4 (H5 & H6 & H7)]. unfold read_turn in E.
  destruct (negb (writer_active s) && (waiting_writers s =? 0)) eqn:Ec; [|cbn in E; simplify_eq; by eapply rw_move_inv].
  apply andb_true_iff in Ec as [Hw Hz]. apply negb_true_iff in Hw. rewrite Hw in *.
  destruct (@uadd Empty_set (readers s) 1) as [k| |] eqn:Ek; simplify_eq. apply uadd_inv in Ek as [-> _]. cbn in E. simplify_eq.
  split; simpl; rewrite ?(count_insert _ _ _ _ Reading Ht); simpl; rewrite ?Hw; try done; try lia.
  split_and!; [done|done|lia].
Qed.

Lemma write_turn_inv reg preempt s' :
  threads s !! t = Some (WriteTry reg) → write_turn t reg preempt s = Ok s' → inv s'.
Proof.
  intros Ht E. destruct Hs as [H1 H2 H3 H4 (H5 & H6 & H7)]. unfold write_turn in E.
  destruct (negb (writer_active s) && (readers s =? 0)) eqn:Ec.
  - apply andb_true_iff in Ec as [Hw Hz]. apply negb_true_iff in Hw. apply Z.eqb_eq in Hz. rewrite Hw in *.
    assert (∃ k, (if reg then usub (waiting_writers (set_writer_active true s)) 1 else Ok (waiting_writers (set_writer_active true s))) = @Ok Empty_set Z k ∧
      k = waiting_writers s - (if reg then 1 else 0)) as (k & Ek & ->).
    { destruct reg; simpl in *; [|by exists (waiting_writers s); split; [done|lia]].
      destruct (@usub Empty_set (waiting_writers s) 1) as [k| |] eqn:Ek; cbn in E; simplify_eq. exists k. split; [done|].
      unfold usub in Ek. by zcase; simplify_eq. }
    rewrite Ek in E. cbn in E. simplify_eq.
    split; simpl; rewrite ?(count_insert _ _ _ _ Writing Ht); simpl; rewrite ?Hw in *; try done; try (destruct reg; simpl; lia).
    split_and!; [done|done|lia].
  - assert (∃ k, (if reg then Ok (waiting_writers s) else uadd (waiting_writers s) 1) = @Ok Empty_set Z k ∧
      k = waiting_writers s + (if reg then 0 else 1)) as (k & Ek & ->).
    { destruct reg; simpl in *; [exists (waiting_writers s); split; [done|lia]|].
      destruct (@uadd Empty_set (waiting_writers s) 1) as [k| |] eqn:Ek; cbn in E; simplify_eq. exists k. split; [done|].
      by apply uadd_inv in Ek as [-> _]. }
    rewrite Ek in E. cbn in E. simplify_eq.
    split; simpl; rewrite ?(count_insert _ _ _ _ WriteSpin Ht); simpl; try done; try (destruct reg; simpl; lia).
    split_and!; [done|done|destruct reg; simpl; lia].
Qed.

Lemma read_unlock_inv s' : threads s !! t = Some Reading → read_unlock t s = Ok s' → inv s'.
Proof.
  intros Ht E. destruct Hs as [H1 H2 H3 H4 (H5 & H6 & H7)]. unfold read_unlock in E.
  destruct (0 <? readers s) eqn:E0; [|done]. cbn in E. apply Z.ltb_lt in E0.
  destruct (@usub Empty_set (readers s) 1) as [k| |] eqn:Ek; simplify_eq. cbn in E.
  assert (k = readers s - 1) as -> by (unfold usub in Ek; by zcase; simplify_eq).
  rewrite H6 in E. assert (s' = set_thread t (Waking []) (set_readers (readers s - 1) s)) as ->.
  { by destruct (_ && _); simplify_eq. }
  split; simpl; rewrite ?(count_insert _ _ _ _ (Waking []) Ht); simpl; try done; try lia.
  - intros Hw. specialize (H4 Hw). lia.
  - split_and!; [done|done|lia].
Qed.

Lemma write_unlock_inv s' : threads s !! t = Some Writing → write_unlock t s = Ok s' → inv s'.
Proof.
  intros Ht E. destruct Hs as [H1 H2 H3 H4 (H5 & H6 & H7)]. unfold write_unlock in E.
  destruct (writer_active s) eqn:Ew; [|done]. cbn in E. rewrite H5, H6 in E.
  assert (s' = set_thread t (Waking []) (set_read_wait [] (set_writer_active false s))) as ->.
  { destruct s; simpl in *. destruct (_ <? _); simplify_eq; by rewrite ?H5. }
  split; simpl; rewrite ?(count_insert _ _ _ _ (Waking []) Ht); simpl; try done; try lia.
  split_and!; [done|done|lia].
Qed.
End steps.

Lemma rw_step_inv s t c preempt s' : inv s → step t c preempt s = Ok s' → inv s'.
Proof.
  intros Hs E. unfold step in E. destruct (threads s !! t) as [p|] eqn:Et; [|by simplify_eq].
  assert (is_asleep p = false) as Hp.
  { destruct (is_asleep p) eqn:Ea; [|done]. destruct Hs as [_ _ _ _ (_ & _ & H7)]. pose proof (count_some _ _ _ _ Et Ea). lia. }
  destruct p as [ | | | | |reg| | | |[|x l]]; simplify_eq; try done.
  - destruct c; by eapply rw_move_inv.
  - by eapply read_turn_inv.
  - destruct (_ || _); [done|by eapply rw_move_inv].
  - by eapply read_unlock_inv.
  - by eapply write_turn_inv.
  - destruct (_ || _); [done|by eapply rw_move_inv].
  - by eapply write_unlock_inv.
  - by eapply rw_move_inv.
Qed.

Lemma count_replicate_false {A} (P : A → bool) n x : P x = false → count P (replicate n x) = 0.
Proof. intros Hx. apply count_all_false. intros y [-> _]%elem_of_replicate. done. Qed.

Lemma rw_step_length s t c preempt s' : step t c preempt s = Ok s' → length (threads s') = length (threads s).
Proof.
  intros E. unfold step, read_turn, write_turn, read_unlock, write_unlock, schedule, rbind, rassert in E.
  repeat (case_match; simplify_eq/=); rewrite ?length_insert; done.
Qed.

Lemma rw_reachable_inv n s : reachable n s → inv s ∧ length (threads s) = n.
Proof.
  induction 1 as [|s t c preempt s' _ [IH Hl] E].
  - split; [|simpl; by rewrite length_replicate]. split; simpl; rewrite ?count_replicate_false; done.
  - split; [by eapply rw_step_inv|]. by rewrite <-Hl, (rw_step_length _ _ _ _ _ E).
Qed.

(** The counters stay in range, so no step panics. *)
Lemma rw_step_total s t c preempt n :
  inv s → length (threads s) = n → Z.of_nat n < usize_max → ∃ s', step t c preempt s = Ok s'.
Proof.
  intros [H1 H2 H3 H4 (H5 & H6 & H7)] Hl Hn. unfold step. destruct (threads s !! t) as [p|] eqn:Et; [|by eexists].
  pose proof (count_bound is_reading (threads s)) as B1. pose proof (count_bound is_registered (threads s)) as B2.
  unfold zlen in B1, B2. rewrite Hl in B1, B2. pose proof (count_nonneg is_reading (threads s)).
  destruct p as [ | | | | |reg| | | |[|x l]]; try by eexists.
  - unfold read_turn. rewrite uadd_ok by lia. cbn. by destruct (_ && _); eexists.
  - unfold read_unlock. pose proof (count_some is_reading _ _ _ Et eq_refl). destruct (Z.ltb_spec 0 (readers s)); [|lia].
    cbn [rassert rbind]. rewrite usub_ok by lia. cbn [rbind].
    destruct (_ && _); [|by eexists]. simpl. rewrite H6. by eexists.
  - unfold write_turn. destruct (_ && _).
    + destruct reg; [|by eexists]. pose proof (count_some is_registered _ _ _ Et eq_refl).
      rewrite usub_ok by (simpl; lia). by eexists.
    + destruct reg; [by eexists|]. rewrite uadd_ok by lia. by eexists.
  - unfold write_unlock. pose proof (count_some is_writing _ _ _ Et eq_refl). destruct (writer_active s); [|lia].
    cbn [rassert rbind].
    destruct (_ <? _); [|by eexists]. simpl. rewrite H6. by eexists.
Qed.
End RwLock.

(** ** Bounded buffer *)
Module BoundedBuffer.
Section buffer.
Context {T : Type} (N : Z).

(** [spaces.down()] and [items.down()] return in the step that takes the
    permit, see [Semaphore.down_turn]. *)
Inductive PC : Type :=
| Out
| PushDown (x : T)   (* push: spaces.down() *)
| PushCrit (x : T)   (* push: the critical section *)
| PushUp             (* push: items.up() *)
| PopDown            (* pop: items.down() *)
| PopCrit            (* pop: the critical section *)
| PopUp (x : T).     (* pop: spaces.up() *)

(** [BufferState] and the permits of the semaphores; [None] is a slot that is
    not initialised.  [pushed] and [popped] record the order of the critical
    sections. *)
Record State : Type := mk {
  buffer : list (option T);
  head : Z;
  tail : Z;
  len : Z;
  items : Z;
  spaces : Z;
  threads : list PC;
  pushed : list T;
  popped : list T;
}.

Definition new (n : nat) : State := mk (zrep N None) 0 0 0 0 N (replicate n Out) [] [].

Definition set_thread (t : nat) (p : PC) (s : State) : State :=
  mk (buffer s) (head s) (tail s) (len s) (items s) (spaces s) (<[t := p]> (threads s)) (pushed s) (popped s).

(** Indexing panics out of range. *)
Definition put_slot (i : Z) (v : option T) (l : list (option T)) : res Empty_set (list (option T)) :=
  if bool_decide (0 ≤ i < zlen l) then Ok (splice l i [v]) else Panic.

Definition push_section (t : nat) (x : T) (s : State) : res Empty_set State :=
  let? _ := rassert (len s <? N) in
  let? b := put_slot (tail s) (Some x) (buffer s) in
  let? tl := umod (tail s + 1) N in
  Ok (set_thread t PushUp
        (mk b (head s) tl (len s + 1) (items s) (spaces s) (threads s) (pushed s ++ [x]) (popped s))).

(** Reading a slot that is not initialised is undefined behaviour. *)
Definition pop_section (t : nat) (s : State) : res Empty_set State :=
  let? _ := rassert (0 <? len s) in
  let? slot := unwrap (zat (buffer s) (head s)) in
  let? x := unwrap slot in
  let? b := put_slot (head s) None (buffer s) in
  let? hd := umod (head s + 1) N in
  Ok (set_thread t (PopUp x)
        (mk b hd (tail s) (len s - 1) (items s) (spaces s) (threads s) (pushed s) (popped s ++ [x]))).

Definition step (t : nat) (call : option T) (s : State) : res Empty_set State :=
  match threads s !! t with
  | None => Ok s
  | Some Out => Ok (set_thread t (match call with Some x => PushDown x | None => PopDown end) s)
  | Some (PushDown x) =>
      Ok (if 0 <? spaces s
          then set_thread t (PushCrit x)
                 (mk (buffer s) (head s) (tail s) (len s) (items s) (spaces s - 1) (threads s) (pushed s) (popped s))
          else s)
  | Some (PushCrit x) => push_section t x s
  | Some PushUp =>
      let? n := uadd (items s) 1 in
      Ok (set_thread t Out (mk (buffer s) (head s) (tail s) (len s) n (spaces s) (threads s) (pushed s) (popped s)))
  | Some PopDown =>
      Ok (if 0 <? items s
          then set_thread t PopCrit
                 (mk (buffer s) (head s) (tail s) (len s) (items s - 1) (spaces s) (threads s) (pushed s) (popped s))
          else s)
  | Some PopCrit => pop_section t s
  | Some (PopUp x) =>
      let? n := uadd (spaces s) 1 in
      Ok (set_thread t Out (mk (buffer s) (head s) (tail s) (len s) (items s) n (threads s) (pushed s) (popped s)))
  end.

(** *** Correctness *)

Inductive reachable (n : nat) : State → Prop :=
| reach_new : reachable n (new n)
| reach_step s t call s' : reachable n s → step t call s = Ok s' → reachable n s'.

Definition in_push_crit (p : PC) : bool := match p with PushCrit _ => true | _ => false end.
Definition in_push_up (p : PC) : bool := match p with PushUp => true | _ => false end.
Definition in_pop_crit (p : PC) : bool := match p with PopCrit => true | _ => false end.
Definition in_pop_up (p : PC) : bool := match p with PopUp _ => true | _ => false end.

(** The elements in the buffer, from [head] on. *)
Definition holds (s : State) (q : list T) : Prop :=
  zlen q = len s ∧ pushed s = popped s ++ q ∧
  ∀ i x, zat q i = Some x → zat (buffer s) ((head s + i) mod N) = Some (Some x).

(** Every slot is free, being filled, filled, or being emptied. *)
Record inv (s : State) : Prop := {
  i_sum : spaces s + count in_push_crit (threads s) + count in_push_up (threads s) + items s +
          count in_pop_crit (threads s) + count in_pop_up (threads s) = N;
  i_len : len s = count in_push_up (threads s) + items s + count in_pop_crit (threads s);
  i_nonneg : 0 ≤ spaces s ∧ 0 ≤ items s;
  i_buffer : zlen (buffer s) = N;
  i_head : 0 ≤ head s ∧ (0 < N → head s < N);
  i_tail : 0 < N → tail s = (head s + len s) mod N;
  i_queue : ∃ q, holds s q;
}.

Lemma mod_apart a i j : 0 ≤ i < j → j < N → (a + i) mod N ≠ (a + j) mod N.
Proof.
  intros Hi Hj E. pose proof (Z.div_mod (a + i) N ltac:(lia)) as E1. pose proof (Z.div_mod (a + j) N ltac:(lia)) as E2.
  rewrite E in E1. assert (N * ((a + j) / N - (a + i) / N) = j - i) as Hd by lia.
  assert ((a + j) / N - (a + i) / N = 0 ∨ 1 ≤ (a + j) / N - (a + i) / N ∨ (a + j) / N - (a + i) / N ≤ -1) as [H|[H|H]] by lia; nia.
Qed.

Lemma put_slot_spec i v l :
  0 ≤ i < zlen l → ∃ l', put_slot i v l = Ok l' ∧ zlen l' = zlen l ∧
    ∀ j, zat l' j = if decide (j = i) then Some v else zat l j.
Proof.
  intros Hi. unfold put_slot. rewrite bool_decide_eq_true_2 by done. eexists. split; [done|].
  assert (zlen [v] = 1) as H1 by done. split; [apply zlen_splice; lia|]. intros j. rewrite zat_splice by lia. rewrite H1.
  repeat case_decide; try lia; [|done]. by replace (j - i) with 0 by lia.
Qed.

Lemma counts_nonneg s :
  0 ≤ count in_push_crit (threads s) ∧ 0 ≤ count in_push_up (threads s) ∧
  0 ≤ count in_pop_crit (threads s) ∧ 0 ≤ count in_pop_up (threads s).
Proof. split_and!; apply count_nonneg. Qed.

(** A thread that moves to [q], the permits changing as they must. *)
Lemma bb_move_inv s t p q it sp :
  inv s → threads s !! t = Some p → 0 ≤ sp → 0 ≤ it →
  let b (f : PC → bool) := (if f q then 1 else 0) - (if f p then 1 else 0) in
  sp + b in_push_crit + b in_push_up + it + b in_pop_crit + b in_pop_up = spaces s + items s →
  b in_push_up + it + b in_pop_crit = items s →
  inv (set_thread t q (mk (buffer s) (head s) (tail s) (len s) it sp (threads s) (pushed s) (popped s))).
Proof.
  intros [H1 H2 H3 H4 H5 H6 H7] Ht Hsp Hit b E1 E2.
  split; simpl; rewrite ?(count_insert _ _ _ _ q Ht); try done; unfold b in *; lia.
Qed.

Lemma push_section_spec s t x :
  inv s → threads s !! t = Some (PushCrit x) →
  ∃ s', push_section t x s = Ok s' ∧ inv s' ∧ pushed s' = pushed s ++ [x] ∧ popped s' = popped s.
Proof.
  intros [H1 H2 [H3 H3'] H4 [H5 H5'] H6 (q & Hq & Hpp & Hat)] Ht. pose proof (counts_nonneg s) as (C1 & C2 & C3 & C4).
  pose proof (count_some in_push_crit _ _ _ Ht eq_refl) as Hc. pose proof (zlen_nonneg q).
  assert (0 < N) as HN by lia. specialize (H5' HN). specialize (H6 HN).
  assert (0 ≤ tail s < N) as Htl by (rewrite H6; apply Z.mod_pos_bound; lia).
  destruct (put_slot_spec (tail s) (Some x) (buffer s)) as (b & Eb & Hlb & Hb); [lia|].
  unfold push_section. destruct (Z.ltb_spec (len s) N); [|lia]. cbn [rassert rbind]. rewrite Eb. cbn [rbind].
  rewrite umod_ok by lia. cbn [rbind]. eexists. split_and!; [done| |done|done].
  split; simpl; rewrite ?(count_insert _ _ _ _ PushUp Ht); simpl; try lia; try done.
  - intros _. rewrite H6, Z.add_mod_idemp_l by lia. f_equal. lia.
  - exists (q ++ [x]). split_and!; [rewrite zlen_app; change (zlen [x]) with 1; simpl; lia|simpl; by rewrite Hpp, app_assoc|].
    intros i y Hi. simpl. rewrite Hb. pose proof (zat_Some_range _ _ _ Hi) as Hr. rewrite zlen_app in Hr. change (zlen [x]) with 1 in Hr.
    assert (zat (q ++ [x]) i = if decide (i = len s) then Some x else zat q i) as Ei.
    { unfold zat, zlen in *. destruct (Z.ltb_spec i 0); [lia|]. case_decide.
      - rewrite lookup_app_r by lia. by replace (Z.to_nat i - length q)%nat with 0%nat by lia.
      - rewrite lookup_app_l by lia. done. }
    rewrite Ei in Hi. case_decide as Eil.
    + rewrite decide_True by (rewrite H6; by subst i). by rewrite Hi.
    + rewrite decide_False; [by apply Hat|]. rewrite H6. apply mod_apart; lia.
Qed.

Lemma pop_section_spec s t :
  inv s → threads s !! t = Some PopCrit →
  ∃ s' x q, pop_section t s = Ok s' ∧ inv s' ∧ pushed s' = pushed s ∧ popped s' = popped s ++ [x] ∧
    pushed s = popped s ++ x :: q.
Proof.
  intros [H1 H2 [H3 H3'] H4 [H5 H5'] H6 (q & Hq & Hpp & Hat)] Ht. pose proof (counts_nonneg s) as (C1 & C2 & C3 & C4).
  pose proof (count_some in_pop_crit _ _ _ Ht eq_refl) as Hc. assert (0 < N) as HN by lia. specialize (H5' HN). specialize (H6 HN).
  destruct q as [|x q]; [change (zlen []) with 0 in Hq; lia|]. rewrite zlen_cons in Hq. pose proof (zlen_nonneg q).
  pose proof (Hat 0 x eq_refl) as Hx. rewrite Z.add_0_r, Z.mod_small in Hx by lia.
  destruct (put_slot_spec (head s) None (buffer s)) as (b & Eb & Hlb & Hb); [lia|].
  unfold pop_section. destruct (Z.ltb_spec 0 (len s)); [|lia]. cbn [rassert rbind]. rewrite Hx. cbn [unwrap rbind]. rewrite Eb. cbn [rbind].
  rewrite umod_ok by lia. cbn [rbind]. eexists _, x, q. split_and!; [done| |done|done|done].
  pose proof (Z.mod_pos_bound (head s + 1) N HN).
  split; simpl; rewrite ?(count_insert _ _ _ _ (PopUp x) Ht); simpl; try lia; try done.
  - intros _. rewrite H6, Z.add_mod_idemp_l by lia. f_equal. lia.
  - exists q. split_and!; simpl; [lia|rewrite Hpp; by rewrite <-app_assoc|].
    intros i y Hi. pose proof (zat_Some_range _ _ _ Hi). rewrite Z.add_mod_idemp_l by lia. rewrite Hb.
    replace (head s + 1 + i) with (head s + (i + 1)) by lia. rewrite decide_False.
    + apply Hat. unfold zat in *. destruct (Z.ltb_spec i 0); [lia|]. destruct (Z.ltb_spec (i + 1) 0); [lia|].
      by replace (Z.to_nat (i + 1)) with (S (Z.to_nat i)) by lia.
    + intros E. apply (mod_apart (head s) 0 (i + 1)); [lia|lia|]. rewrite E, Z.add_0_r. apply Z.mod_small. lia.
Qed.

(** No step panics, whichever thread runs. *)
Lemma bb_step_spec s t call :
  N ≤ usize_max → inv s → ∃ s', step t call s = Ok s' ∧ inv s'.
Proof.
  intros Hw Hs. pose proof Hs as [H1 H2 [H3 H3'] H4 H5 H6 _]. pose proof (counts_nonneg s) as (C1 & C2 & C3 & C4).
  destruct s as [bf hd tl ln it sp th pu po] eqn:Es. rewrite <-Es in *. unfold step.
  destruct (threads s !! t) as [p|] eqn:Et; [|by exists s].
  assert (∀ q it' sp', 0 ≤ sp' → 0 ≤ it' →
    let b (f : PC → bool) := (if f q then 1 else 0) - (if f p then 1 else 0) in
    sp' + b in_push_crit + b in_push_up + it' + b in_pop_crit + b in_pop_up = spaces s + items s →
    b in_push_up + it' + b in_pop_crit = items s →
    inv (set_thread t q (mk (buffer s) (head s) (tail s) (len s) it' sp' (threads s) (pushed s) (popped s)))) as Hmove.
  { intros. by eapply bb_move_inv. }
  destruct p as [ |x|x| | | |x].
  - eexists. split; [done|]. destruct call; (eapply (Hmove _ (items s) (spaces s)); simpl; lia).
  - eexists. split; [done|]. destruct (Z.ltb_spec 0 (spaces s)); [|done]. eapply Hmove; simpl; lia.
  - destruct (push_section_spec s t x Hs Et) as (s' & ? & ? & _). by exists s'.
  - pose proof (count_some in_push_up _ _ _ Et eq_refl). rewrite uadd_ok by lia. cbn [rbind]. eexists. split; [done|]. eapply Hmove; simpl; lia.
  - eexists. split; [done|]. destruct (Z.ltb_spec 0 (items s)); [|done]. eapply Hmove; simpl; lia.
  - destruct (pop_section_spec s t Hs Et) as (s' & x & q & ? & ? & _). by exists s'.
  - pose proof (count_some in_pop_up _ _ _ Et eq_refl). rewrite uadd_ok by lia. cbn [rbind]. eexists. split; [done|]. eapply Hmove; simpl; lia.
Qed.

Lemma bb_reachable_inv n s : 0 ≤ N ≤ usize_max → reachable n s → inv s.
Proof.
  intros HN. induction 1 as [|s t call s' _ IH E].
  - split; simpl; rewrite ?RwLock.count_replicate_false by done; try lia; try done.
    + rewrite zlen_rep; lia.
    + exists []. split_and!; [done|done|]. intros i x Hi. by apply zat_Some_range in Hi; change (zlen []) with 0 in Hi; lia.
  - destruct (bb_step_spec s t call) as (s1 & E1 & ?); [lia|done|]. rewrite E in E1. by injection E1 as <-.
Qed.

(** [Drop]: the elements from [head] on are dropped in place. *)
Fixpoint drop_loop (n : nat) (idx : Z) (l : list (option T)) : res Empty_set (list T) :=
  match n with
  | O => Ok []
  | S n =>
      let? slot := unwrap (zat l idx) in
      let? x := unwrap slot in
      let? idx := umod (idx + 1) N in
      let? xs := drop_loop n idx l in
      Ok (x :: xs)
  end.

Definition drop_buffer (s : State) : res Empty_set (list T) := drop_loop (Z.to_nat (len s)) (head s) (buffer s).

Lemma drop_loop_spec l q : ∀ h,
  0 < N → 0 ≤ h < N → (∀ i x, zat q i = Some x → zat l ((h + i) mod N) = Some (Some x)) →
  drop_loop (length q) h l = Ok q.
Proof.
  induction q as [|x q IH]; intros h HN Hh Hat; [done|]. cbn [length drop_loop].
  pose proof (Hat 0 x eq_refl) as Hx. rewrite Z.add_0_r, Z.mod_small in Hx by lia. rewrite Hx. cbn [unwrap rbind].
  rewrite umod_ok by lia. cbn [rbind]. rewrite IH; [done|done|by apply Z.mod_pos_bound|].
  intros i y Hi. pose proof (zat_Some_range _ _ _ Hi). rewrite Z.add_mod_idemp_l by lia.
  replace (h + 1 + i) with (h + (i + 1)) by lia. apply Hat. unfold zat in *. destruct (Z.ltb_spec i 0); [lia|].
  destruct (Z.ltb_spec (i + 1) 0); [lia|]. by replace (Z.to_nat (i + 1)) with (S (Z.to_nat i)) by lia.
Qed.

(** Exactly what is held is dropped. *)
Lemma drop_buffer_spec s q : inv s → holds s q → drop_buffer s = Ok q.
Proof.
  intros [H1 H2 [H3 H3'] H4 [H5 H5'] H6 _] (Hq & _ & Hat). unfold drop_buffer. rewrite <-Hq. unfold zlen. rewrite Nat2Z.id.
  pose proof (counts_nonneg s). destruct q as [|x q]; [done|]. rewrite zlen_cons in Hq. pose proof (zlen_nonneg q).
  assert (0 < N) as HN by lia. specialize (H5' HN). by apply drop_loop_spec.
Qed.
End buffer.
Arguments PC : clear implicits.
Arguments State : clear implicits.
End BoundedBuffer.

(** ** The guarantees *)

(** The permits of a semaphore are what was given minus what was taken, never
    negative; [down] never puts a thread to sleep, it spins; and a waiting
    [down] returns when there is a permit. *)
Lemma semaphore_correct initial n s :
  0 ≤ initial → Semaphore.reachable initial n s →
  Semaphore.permits s = initial + Semaphore.given s - Semaphore.taken s ∧ 0 ≤ Semaphore.permits s ∧
  Semaphore.waiters s = [] ∧ (∀ t, Semaphore.threads s !! t ≠ Some Semaphore.Sleeping) ∧
  (∀ t c b, Semaphore.threads s !! t = Some Semaphore.Down → 0 < Semaphore.permits s →
     ∃ s', Semaphore.step t c b s = Ok s' ∧ Semaphore.threads s' !! t = Some Semaphore.Out ∧
       Semaphore.permits s' = Semaphore.permits s - 1).
Proof.
  intros Hi Hr. destruct (Semaphore.sem_reachable_inv initial n s Hi Hr) as [H1 H2 H3 H4]. split_and!; [done|done|done|apply H4|].
  intros t c b Ht Hp. unfold Semaphore.step. rewrite Ht. unfold Semaphore.down_turn. destruct (Z.ltb_spec 0 (Semaphore.permits s)); [|lia].
  eexists. split_and!; [done| |done]. simpl. apply list_lookup_insert_eq. by eapply lookup_lt_Some.
Qed.

(** A promise is set at most once, a second [set] panics, and every [get] that
    returned got the value that was set. *)
Theorem promise_correct T n (s : Promise.State T) :
  Promise.reachable n s →
  (∀ t v, Promise.threads s !! t = Some (Promise.Got v) → Promise.value s = Some v) ∧
  (∀ t x b v, Promise.threads s !! t = Some Promise.Out → Promise.value s = Some v →
     Promise.step t (Some x) b s = Panic) ∧
  (∀ t c b s' v, Promise.value s = Some v → Promise.step t c b s = Ok s' → Promise.value s' = Some v).
Proof.
  intros Hr%Promise.promise_reachable_inv. pose proof Hr as [_ Ht]. split_and!.
  - intros t v Hv. exact (Forall_lookup_1 _ _ _ _ Ht Hv).
  - intros t x b v Ho Hv. unfold Promise.step. rewrite Ho. unfold Promise.set_section. by rewrite Hv.
  - intros t c b s' v Hv E. destruct (Promise.promise_step_inv s t c b s' Hr E) as [_ H]. by apply H.
Qed.

(** C36: A reader-writer lock is held by readers or by one writer, its counters
    are the numbers of readers and of registered writers, a reader does not get
    in while a writer waits, and no call panics. *)
Theorem rwlock_correct n s :
  Z.of_nat n < usize_max → RwLock.reachable n s →
  (∀ t t', RwLock.threads s !! t = Some RwLock.Writing →
     RwLock.threads s !! t' ≠ Some RwLock.Reading ∧ (RwLock.threads s !! t' = Some RwLock.Writing → t' = t)) ∧
  RwLock.readers s = count RwLock.is_reading (RwLock.threads s) ∧
  RwLock.waiting_writers s = count RwLock.is_registered (RwLock.threads s) ∧
  (∀ t b s', RwLock.threads s !! t = Some RwLock.ReadTry → 0 < RwLock.waiting_writers s →
     RwLock.step t true b s = Ok s' → RwLock.threads s' !! t ≠ Some RwLock.Reading) ∧
  (∀ t c b, ∃ s', RwLock.step t c b s = Ok s').
Proof.
  intros Hn Hr. destruct (RwLock.rw_reachable_inv n s Hr) as [Hs Hl]. pose proof Hs as [H1 H2 H3 H4 (H5 & H6 & H7)].
  pose proof (RwLock.count_bound RwLock.is_reading (RwLock.threads s)) as B1.
  pose proof (RwLock.count_bound RwLock.is_registered (RwLock.threads s)) as B2. unfold zlen in B1, B2. rewrite Hl in B1, B2.
  split_and!; [|done|done| |].
  - intros t t' Ht. pose proof (count_some RwLock.is_writing _ _ _ Ht eq_refl) as Hw.
    destruct (RwLock.writer_active s) eqn:Ew; [|lia]. split.
    + intros Ht'. pose proof (count_some RwLock.is_reading _ _ _ Ht' eq_refl). rewrite <-H1, (H4 eq_refl) in *. lia.
    + intros Ht'. destruct (decide (t' = t)) as [|Hne]; [done|]. exfalso.
      assert (count RwLock.is_writing (<[t := RwLock.Out]> (RwLock.threads s)) = 0) as E0.
      { rewrite (count_insert _ _ _ _ _ Ht). simpl. lia. }
      assert (<[t := RwLock.Out]> (RwLock.threads s) !! t' = Some RwLock.Writing) as Ht2 by (by rewrite list_lookup_insert_ne).
      pose proof (count_some RwLock.is_writing _ _ _ Ht2 eq_refl). lia.
  - intros t b s' Ht Hw E. unfold RwLock.step in E. rewrite Ht in E. unfold RwLock.read_turn in E.
    destruct (Z.eqb_spec (RwLock.waiting_writers s) 0); [lia|]. rewrite andb_false_r in E. cbn in E. injection E as <-. simpl.
    rewrite list_lookup_insert_eq; [done|]. by eapply lookup_lt_Some.
  - intros t c b. by eapply RwLock.rw_step_total.
Qed.

(** C21: A bounded buffer is a queue: what was popped, followed by what the buffer
    holds, is what was pushed, in the order of the critical sections, and at
    most [N] elements are held.  No step panics or reads an uninitialised slot,
    and no permit is lost: when no thread is between its two semaphore calls,
    the permits say how many slots are filled and free. *)
Theorem bounded_buffer_fifo T N n (s : BoundedBuffer.State T) :
  0 ≤ N ≤ usize_max → BoundedBuffer.reachable N n s →
  (∃ q, BoundedBuffer.pushed s = BoundedBuffer.popped s ++ q ∧ zlen q ≤ N) ∧
  (∀ t call, ∃ s', BoundedBuffer.step N t call s = Ok s') ∧
  ((∀ p, p ∈ BoundedBuffer.threads s → match p with
      | BoundedBuffer.Out | BoundedBuffer.PushDown _ | BoundedBuffer.PopDown => True | _ => False end) →
   ∃ q, BoundedBuffer.pushed s = BoundedBuffer.popped s ++ q ∧
     BoundedBuffer.items s = zlen q ∧ BoundedBuffer.spaces s = N - zlen q).
Proof.
  intros HN Hr. pose proof (BoundedBuffer.bb_reachable_inv N n s HN Hr) as Hs.
  pose proof Hs as [H1 H2 H3 H4 H5 H6 (q & Hq & Hpp & Hat)]. pose proof (BoundedBuffer.counts_nonneg s) as (C1 & C2 & C3 & C4).
  split_and!.
  - exists q. split; [done|]. lia.
  - intros t call. destruct (BoundedBuffer.bb_step_spec N s t call) as (s' & ? & _); [lia|done|]. by exists s'.
  - intros Hout. exists q. split; [done|].
    assert (∀ P : BoundedBuffer.PC T → bool, (∀ p, P p = true → match p with BoundedBuffer.Out | BoundedBuffer.PushDown _ | BoundedBuffer.PopDown => False | _ => True end) →
      count P (BoundedBuffer.threads s) = 0) as H0.
    { intros P HP. apply count_all_false. intros p Hp. specialize (Hout p Hp). specialize (HP p). destruct (P p); [|done].
      specialize (HP eq_refl). by destruct p. }
    rewrite (H0 BoundedBuffer.in_push_crit), (H0 BoundedBuffer.in_push_up), (H0 BoundedBuffer.in_pop_crit), (H0 BoundedBuffer.in_pop_up) in *
      by (by intros []). lia.
Qed.

(** ** Examples *)

(** A thread that has called [down] on a semaphore with one permit. *)
Definition demo_semaphore : Semaphore.State := Semaphore.set_thread 0 Semaphore.Down (Semaphore.new 1 2).

Lemma semaphore_witness :
  ∃ s', Semaphore.step 0 true true demo_semaphore = Ok s' ∧ Semaphore.threads s' !! 0%nat = Some Semaphore.Out ∧
    Semaphore.permits s' = 0.
Proof.
  destruct (semaphore_correct 1 2 demo_semaphore) as (_ & _ & _ & _ & H).
  - lia.
  - apply (Semaphore.reach_step 1 2 (Semaphore.new 1 2) 0%nat true true); [constructor|reflexivity].
  - exact (H 0%nat true true eq_refl eq_refl).
Defined.

(** A promise that was set to 7 by thread 0. *)
Definition demo_promise : Promise.State Z :=
  Promise.mk (Some 7) [] [Promise.Waking []; Promise.Out].

Lemma promise_witness : Promise.step 1 (Some 8) true demo_promise = Panic.
Proof.
  destruct (promise_correct Z 2 demo_promise) as (_ & H & _).
  - apply (Promise.reach_step 2 (Promise.new 2) 0%nat (Some 7) true); [constructor|reflexivity].
  - exact (H 1%nat 8 true 7 eq_refl eq_refl).
Defined.

(** Thread 0 writes, thread 1 has called [read_lock]. *)
Definition demo_rwlock : RwLock.State :=
  RwLock.mk 0 true 0 [] [] [RwLock.Writing; RwLock.ReadTry].

Lemma rwlock_witness : ∃ s', RwLock.step 1 true true demo_rwlock = Ok s'.
Proof.
  destruct (rwlock_correct 2 demo_rwlock) as (_ & _ & _ & _ & H).
  - reflexivity.
  - apply (RwLock.reach_step 2 (RwLock.mk 0 true 0 [] [] [RwLock.Writing; RwLock.Out]) 1%nat true true); [|reflexivity].
    apply (RwLock.reach_step 2 (RwLock.set_thread 0 (RwLock.WriteTry false) (RwLock.new 2)) 0%nat true true); [|reflexivity].
    apply (RwLock.reach_step 2 (RwLock.new 2) 0%nat false true); [constructor|reflexivity].
  - exact (H 1%nat true true).
Defined.

(** A buffer of one slot into which thread 0 has pushed 5. *)
Definition demo_buffer : BoundedBuffer.State Z :=
  BoundedBuffer.mk [Some 5] 0 0 1 1 0 [BoundedBuffer.Out] [5] [].

Lemma bounded_buffer_witness :
  ∃ q, BoundedBuffer.pushed demo_buffer = BoundedBuffer.popped demo_buffer ++ q ∧ zlen q ≤ 1.
Proof.
  refine (proj1 (bounded_buffer_fifo Z 1 1 demo_buffer _ _)); [unfold usize_max; lia|].
  set (b1 := BoundedBuffer.mk [None] 0 0 0 0 1 [BoundedBuffer.PushDown 5] [] []).
  set (b2 := BoundedBuffer.mk [None] 0 0 0 0 0 [BoundedBuffer.PushCrit 5] [] []).
  set (b3 := BoundedBuffer.mk [Some 5] 0 0 1 0 0 [BoundedBuffer.PushUp] [5] []).
  apply (BoundedBuffer.reach_step 1 1 b3 0%nat None); [|reflexivity].
  apply (BoundedBuffer.reach_step 1 1 b2 0%nat None); [|reflexivity].
  apply (BoundedBuffer.reach_step 1 1 b1 0%nat None); [|reflexivity].
  apply (BoundedBuffer.reach_step 1 1 (BoundedBuffer.new 1 1) 0%nat (Some 5)); [constructor|reflexivity].
Defined.
