(* ===== verification/Sched.v ===== *)
(** * Threads and scheduling (src/thread.rs, src/event.rs)

    Which thread is where: running on a core, on the work queue of a core, on
    the global queue, asleep, waiting for its event to be handled, held by the
    event handler, or on a wait queue of a lock.  The queues are protected by
    spin locks taken with interrupts off, so each operation is one step.  A
    thread is its TID; the idle thread of a core is on no queue and is [None]
    as the current thread.  The model starts when MP_STAGE is MPPreempt; saving
    and restoring registers, and address spaces, are not part of it. *)

From stdpp Require Import functions sorting.
From S2P Require Import Prelude.

Definition TIMER_HZ : Z := 1000.

Record Core : Type := mkCore {
  CURRENT_THREAD : option nat;
  LOCAL_WORK_QUEUE : list nat;
  SLEEP_QUEUE : list (nat * Z);
  EVENT_THREAD_QUEUE : list nat;
  handling : list nat;                 (* taken from the event queue by the handler *)
  TICKS : Z;
}.

Record Sched : Type := mkSched {
  cores : list Core;
  GLOBAL_WORK_QUEUE : list nat;
  wait_queues : list (list nat);
  PINNED_TO_CORE : nat → bool;
  CORE_PINNED_TO : nat → option nat;   (* None is the initial usize::MAX *)
  CAN_YIELD : nat → bool;
  CURR_TID : nat;
  alive : list nat;                    (* threads created and not ended *)
}.

Abbreviation SOp := (Sched → res Empty_set Sched).

Definition set_CURRENT_THREAD (o : option nat) (k : Core) : Core :=
  mkCore o (LOCAL_WORK_QUEUE k) (SLEEP_QUEUE k) (EVENT_THREAD_QUEUE k) (handling k) (TICKS k).
Definition set_LOCAL_WORK_QUEUE (l : list nat) (k : Core) : Core :=
  mkCore (CURRENT_THREAD k) l (SLEEP_QUEUE k) (EVENT_THREAD_QUEUE k) (handling k) (TICKS k).
Definition set_SLEEP_QUEUE (l : list (nat * Z)) (k : Core) : Core :=
  mkCore (CURRENT_THREAD k) (LOCAL_WORK_QUEUE k) l (EVENT_THREAD_QUEUE k) (handling k) (TICKS k).
Definition set_events (l h : list nat) (k : Core) : Core :=
  mkCore (CURRENT_THREAD k) (LOCAL_WORK_QUEUE k) (SLEEP_QUEUE k) l h (TICKS k).
Definition set_TICKS (n : Z) (k : Core) : Core :=
  mkCore (CURRENT_THREAD k) (LOCAL_WORK_QUEUE k) (SLEEP_QUEUE k) (EVENT_THREAD_QUEUE k) (handling k) n.

Definition set_cores (l : list Core) (s : Sched) : Sched :=
  mkSched l (GLOBAL_WORK_QUEUE s) (wait_queues s) (PINNED_TO_CORE s) (CORE_PINNED_TO s) (CAN_YIELD s) (CURR_TID s) (alive s).
Definition set_GLOBAL (l : list nat) (s : Sched) : Sched :=
  mkSched (cores s) l (wait_queues s) (PINNED_TO_CORE s) (CORE_PINNED_TO s) (CAN_YIELD s) (CURR_TID s) (alive s).
Definition set_wait (l : list (list nat)) (s : Sched) : Sched :=
  mkSched (cores s) (GLOBAL_WORK_QUEUE s) l (PINNED_TO_CORE s) (CORE_PINNED_TO s) (CAN_YIELD s) (CURR_TID s) (alive s).
Definition set_pin (p : nat → bool) (f : nat → option nat) (s : Sched) : Sched :=
  mkSched (cores s) (GLOBAL_WORK_QUEUE s) (wait_queues s) p f (CAN_YIELD s) (CURR_TID s) (alive s).
Definition set_CAN_YIELD (p : nat → bool) (s : Sched) : Sched :=
  mkSched (cores s) (GLOBAL_WORK_QUEUE s) (wait_queues s) (PINNED_TO_CORE s) (CORE_PINNED_TO s) p (CURR_TID s) (alive s).
Definition set_alive (n : nat) (l : list nat) (s : Sched) : Sched :=
  mkSched (cores s) (GLOBAL_WORK_QUEUE s) (wait_queues s) (PINNED_TO_CORE s) (CORE_PINNED_TO s) (CAN_YIELD s) n l.

(** [core_local!] variables: [read_for] indexes an array of the cores. *)
Definition on_core (c : nat) (f : Core → Core) : SOp := λ s,
  let? k := unwrap (cores s !! c) in
  Ok (set_cores (<[c := f k]> (cores s)) s).

(** [set_up_idle] on every core: the idle threads take the first TIDs. *)
Definition boot (n w : nat) : Sched :=
  mkSched (replicate n (mkCore None [] [] [] [] 0)) [] (replicate w [])
    (λ _, false) (λ _, None) (λ _, false) (S n) [].

(** ** Queues *)

Definition push_local (c t : nat) : SOp :=
  on_core c (λ k, set_LOCAL_WORK_QUEUE (LOCAL_WORK_QUEUE k ++ [t]) k).

Definition push_global (t : nat) (s : Sched) : Sched := set_GLOBAL (GLOBAL_WORK_QUEUE s ++ [t]) s.

(** Called on core [c]. *)
Definition schedule_thread (c t : nat) : SOp := λ s,
  if PINNED_TO_CORE s t then
    let? core := unwrap (CORE_PINNED_TO s t) in
    push_local core t s
  else push_local c t s.

(** [Thread::new] and the flag that [make_thread] and [make_user_thread] set. *)
Definition make_thread (s : Sched) : nat * Sched :=
  let t := CURR_TID s in
  (t, set_CAN_YIELD (<[t := true]> (CAN_YIELD s)) (set_alive (S t) (t :: alive s) s)).

Definition spawn_thread (s : Sched) : Sched :=
  let '(t, s) := make_thread s in push_global t s.

Definition init_event_handler (c : nat) : SOp := λ s,
  let '(t, s) := make_thread s in
  push_local c t (set_pin (<[t := true]> (PINNED_TO_CORE s)) (<[t := Some c]> (CORE_PINNED_TO s)) s).

(** ** Switching *)

(** [suspend_impl] to the idle thread, after its action. *)
Definition to_idle (c : nat) : SOp := on_core c (set_CURRENT_THREAD None).

(** [thread] runs on core [c] and suspends itself on a wait queue. *)
Definition remember_core (c t : nat) (s : Sched) : Sched :=
  if PINNED_TO_CORE s t then set_pin (PINNED_TO_CORE s) (<[t := Some c]> (CORE_PINNED_TO s)) s else s.

Definition suspend_to_queue (c t w : nat) : SOp := λ s,
  let s := remember_core c t s in
  let? q := unwrap (wait_queues s !! w) in
  to_idle c (set_wait (<[w := q ++ [t]]> (wait_queues s)) s).

(** The condition is evaluated with the queue locked. *)
Definition suspend_to_queue_if (c t w : nat) (condition : bool) : SOp := λ s,
  let s := remember_core c t s in
  let? q := unwrap (wait_queues s !! w) in
  if condition then to_idle c (set_wait (<[w := q ++ [t]]> (wait_queues s)) s) else Ok s.

(** The queue is one of the work queues. *)
Definition yield_thread (c t : nat) : SOp := λ s,
  let s := remember_core c t s in
  let? s := (if PINNED_TO_CORE s t then push_local c t s else Ok (push_global t s)) in
  to_idle c s.

Definition preempt_to (c : nat) (requeue : bool) : SOp := λ s,
  let? k := unwrap (cores s !! c) in
  match CURRENT_THREAD k with
  | None => Ok s
  | Some t =>
      if CAN_YIELD s t then
        let? s := (if requeue then push_local c t s else Ok s) in
        to_idle c s
      else Ok s
  end.
Definition preempt_to_idle (c : nat) : SOp := preempt_to c true.
Definition block_to_idle (c : nat) : SOp := preempt_to c false.

(** [suspend_to_thread] from the idle thread, which is dropped. *)
Definition suspend_to_thread (c t : nat) : SOp := on_core c (set_CURRENT_THREAD (Some t)).

(** The two halves of the loop of [poll_tasks]. *)
Definition poll_local (c : nat) : SOp := λ s,
  let? k := unwrap (cores s !! c) in
  match LOCAL_WORK_QUEUE k with
  | [] => Ok s
  | t :: q =>
      let? s := on_core c (set_LOCAL_WORK_QUEUE q) s in
      if PINNED_TO_CORE s t then suspend_to_thread c t s else Ok (push_global t s)
  end.

Definition poll_global (c : nat) : SOp := λ s,
  match GLOBAL_WORK_QUEUE s with
  | [] => Ok s
  | t :: q => suspend_to_thread c t (set_GLOBAL q s)
  end.

(** The end of [thread_entry]. *)
Definition thread_end (c t : nat) : SOp := λ s,
  to_idle c (set_alive (CURR_TID s) (base.filter (λ u, u ≠ t) (alive s)) s).

(** A lock on core [c] that wakes the first thread of its queue. *)
Definition wake_one (c w : nat) : SOp := λ s,
  let? q := unwrap (wait_queues s !! w) in
  match q with
  | [] => Ok s
  | t :: q => schedule_thread c t (set_wait (<[w := q]> (wait_queues s)) s)
  end.

(** ** Sleeping *)

(** The cursor loop of [sleep]. *)
Fixpoint insert_sleep (t : nat) (wakeup_tick : Z) (l : list (nat * Z)) : list (nat * Z) :=
  match l with
  | [] => [(t, wakeup_tick)]
  | existing :: l' =>
      if wakeup_tick <? existing.2 then (t, wakeup_tick) :: l
      else existing :: insert_sleep t wakeup_tick l'
  end.

Definition wakeup_tick (ticks duration_ms : Z) : Z :=
  saturating_add ticks (div_ceil (saturating_mul duration_ms TIMER_HZ) 1000).

Definition sleep (c t : nat) (duration_ms : Z) : SOp :=
  on_core c (λ k, set_SLEEP_QUEUE (insert_sleep t (wakeup_tick (TICKS k) duration_ms) (SLEEP_QUEUE k)) k).

Fixpoint wake_loop (c : nat) (current_tick : Z) (l : list (nat * Z)) (s : Sched)
    : res Empty_set (list (nat * Z) * Sched) :=
  match l with
  | [] => Ok ([], s)
  | existing :: l' =>
      if existing.2 <=? current_tick then
        let? s := schedule_thread c existing.1 s in
        wake_loop c current_tick l' s
      else Ok (l, s)
  end.

Definition wakeup_sleepers (c : nat) : SOp := λ s,
  let? k := unwrap (cores s !! c) in
  let? (q, s) := wake_loop c (TICKS k) (SLEEP_QUEUE k) s in
  on_core c (set_SLEEP_QUEUE q) s.

(** The requested duration of [sys_nanosleep], in milliseconds. *)
Definition nanosleep_ms (tv_sec tv_nsec : Z) : option Z :=
  if (tv_sec <? 0) || negb ((0 <=? tv_nsec) && (tv_nsec <? 1000000000)) then None
  else Some (saturating_add (saturating_mul tv_sec 1000) (div_ceil tv_nsec 1000000)).

Definition timer_interrupt_handler (c : nat) : SOp := λ s,
  let? s := on_core c (λ k, set_TICKS (wrap 64 (TICKS k + 1)) k) s in
  let? s := wakeup_sleepers c s in
  preempt_to_idle c s.

(** ** Events *)

(** A page fault or a system call of thread [t]: [push_event] without an
    allocation, and [block_to_idle]. *)
Definition push_event (c t : nat) : SOp :=
  on_core c (λ k, set_events (EVENT_THREAD_QUEUE k ++ [t]) (handling k) k).
Definition trap (c t : nat) : SOp := λ s, let? s := push_event c t s in block_to_idle c s.

(** The event handler takes the first thread, and later is done with it: the
    thread is made runnable, is asleep ([nanosleep]), or is left ([exit]). *)
Definition event_take (c : nat) : SOp :=
  on_core c (λ k,
    match EVENT_THREAD_QUEUE k with
    | [] => k
    | t :: q => set_events q (handling k ++ [t]) k
    end).

Inductive Outcome : Type := Runnable | Asleep (duration_ms : Z) | Exited.

Definition event_done (c : nat) (o : Outcome) : SOp := λ s,
  let? k := unwrap (cores s !! c) in
  match handling k with
  | [] => Ok s
  | t :: h =>
      let? s := on_core c (set_events (EVENT_THREAD_QUEUE k) h) s in
      match o with
      | Runnable => schedule_thread c t s
      | Asleep d => sleep c t d s
      | Exited => Ok (set_alive (CURR_TID s) (base.filter (λ u, u ≠ t) (alive s)) s)
      end
  end.

(** ** The guards of src/state.rs: [CorePin] and [Preemption] of a thread *)

Definition set_pinned (t : nat) (b : bool) (s : Sched) : Sched :=
  set_pin (<[t := b]> (PINNED_TO_CORE s)) (CORE_PINNED_TO s) s.
Definition set_preemption (t : nat) (b : bool) (s : Sched) : Sched :=
  set_CAN_YIELD (<[t := b]> (CAN_YIELD s)) s.

(** ** The transition system *)

Definition runs (c t : nat) (s : Sched) : Prop :=
  ∃ k, cores s !! c = Some k ∧ CURRENT_THREAD k = Some t.
Definition idles (c : nat) (s : Sched) : Prop :=
  ∃ k, cores s !! c = Some k ∧ CURRENT_THREAD k = None.

(** A step, and the thread that traps in it (a page fault or a system call). *)
Inductive step (s : Sched) : option nat → Sched → Prop :=
| step_spawn : step s None (spawn_thread s)
| step_handler c s' : init_event_handler c s = Ok s' → step s None s'
| step_suspend c t w b s' : runs c t s → suspend_to_queue_if c t w b s = Ok s' → step s None s'
| step_yield c t s' : runs c t s → yield_thread c t s = Ok s' → step s None s'
| step_timer c s' : timer_interrupt_handler c s = Ok s' → step s None s'
| step_preempt c s' : preempt_to_idle c s = Ok s' → step s None s'
| step_poll_local c s' : idles c s → poll_local c s = Ok s' → step s None s'
| step_poll_global c s' : idles c s → poll_global c s = Ok s' → step s None s'
| step_end c t s' : runs c t s → thread_end c t s = Ok s' → step s None s'
| step_wake c w s' : wake_one c w s = Ok s' → step s None s'
| step_trap c t s' : runs c t s → trap c t s = Ok s' → step s (Some t) s'
| step_take c s' : event_take c s = Ok s' → step s None s'
| step_done c o s' : event_done c o s = Ok s' → step s None s'
| step_pin c t b : runs c t s → step s None (set_pinned t b s)
| step_preemption c t b : runs c t s → step s None (set_preemption t b s).

(** The states from the start on, with what happened on the way: [quiet] says that
    no thread has trapped while it did not allow preemption. *)
Inductive reachable (n w : nat) : bool → Sched → Prop :=
| reachable_boot : reachable n w true (boot n w)
| reachable_step quiet s a s' : reachable n w quiet s → step s a s' →
    reachable n w (quiet && match a with Some t => CAN_YIELD s t | None => true end) s'.

(** ** Where the threads are *)

Definition core_places (k : Core) : list nat :=
  option_list (CURRENT_THREAD k) ++ LOCAL_WORK_QUEUE k ++ (SLEEP_QUEUE k).*1 ++ EVENT_THREAD_QUEUE k ++ handling k.
Definition places (s : Sched) : list nat :=
  concat (core_places <$> cores s) ++ GLOBAL_WORK_QUEUE s ++ concat (wait_queues s).

Abbreviation occ u l := (count_occ Nat.eq_dec l u).

Lemma occ_concat_insert u (l : list (list nat)) c q q' :
  l !! c = Some q → (occ u (concat (<[c := q']> l)) + occ u q = occ u (concat l) + occ u q')%nat.
Proof.
  revert c. induction l as [|x l IH]; intros [|c] Hc; simplify_eq/=; rewrite !count_occ_app; [lia|].
  specialize (IH _ Hc). change (list_insert c q' l) with (<[c:=q']> l). lia.
Qed.

(** From [s] to [s'] the threads [inn] arrive somewhere and [out] leave. *)
Record moves (inn out : list nat) (s s' : Sched) : Prop := mk_moves {
  mv_occ u : (occ u (places s') + occ u out = occ u (places s) + occ u inn)%nat;
  mv_alive : alive s' = alive s;
  mv_tid : CURR_TID s' = CURR_TID s;
  mv_yield : CAN_YIELD s' = CAN_YIELD s;
}.

Definition cur (c : nat) (s : Sched) : option nat := cores s !! c ≫= CURRENT_THREAD.

Lemma moves_trans inn out inn' out' s s' s'' :
  moves inn out s s' → moves inn' out' s' s'' → moves (inn ++ inn') (out ++ out') s s''.
Proof.
  intros [H1 ???] [H2 ???]. split; try congruence.
  intros u. specialize (H1 u); specialize (H2 u). rewrite !count_occ_app. lia.
Qed.
Lemma moves_eq inn out inn' out' s s' :
  moves inn out s s' → (∀ u, occ u inn + occ u out' = occ u inn' + occ u out)%nat → moves inn' out' s s'.
Proof. intros [H ???] E. split; try done. intros u. specialize (H u); specialize (E u). lia. Qed.

Lemma on_core_inv c f s s' :
  on_core c f s = Ok s' → ∃ k, cores s !! c = Some k ∧ s' = set_cores (<[c := f k]> (cores s)) s.
Proof. unfold on_core. destruct (cores s !! c) as [k|] eqn:Hk; simpl; intros [=]. eauto. Qed.

Lemma on_core_moves c f inn out s s' :
  on_core c f s = Ok s' →
  (∀ k u, cores s !! c = Some k → (occ u (core_places (f k)) + occ u out = occ u (core_places k) + occ u inn)%nat) →
  moves inn out s s'.
Proof.
  intros (k & Hk & ->)%on_core_inv H. split; try done.
  intros u. specialize (H k u Hk). unfold places; simpl. rewrite !count_occ_app, list_fmap_insert.
  pose proof (occ_concat_insert u (core_places <$> cores s) c (core_places k) (core_places (f k))
    ltac:(by rewrite list_lookup_fmap, Hk)). lia.
Qed.

Lemma on_core_cur c f s s' :
  (∀ k, CURRENT_THREAD (f k) = CURRENT_THREAD k) → on_core c f s = Ok s' → ∀ d, cur d s' = cur d s.
Proof.
  intros Hf (k & Hk & ->)%on_core_inv d. unfold cur; simpl.
  destruct (decide (d = c)) as [->|]; [|by rewrite list_lookup_insert_ne].
  rewrite list_lookup_insert_eq by (by eapply lookup_lt_Some). by rewrite Hk; simpl.
Qed.

(** Counting in a core whose fields are known. *)
Ltac occ_solve :=
  unfold core_places; simpl; rewrite ?count_occ_app, ?count_occ_nil; simpl;
  rewrite ?count_occ_app; simpl; repeat case_match; simplify_eq/=; try lia.

(** The moves of one operation, by its definition on the core. *)
Lemma push_local_moves c t s s' : push_local c t s = Ok s' → moves [t] [] s s' ∧ ∀ d, cur d s' = cur d s.
Proof.
  intros H. split; [|by eapply on_core_cur; [|exact H]].
  apply (on_core_moves c _ _ _ _ _ H). intros k u Hk. occ_solve.
Qed.

Lemma push_global_moves t s : moves [t] [] s (push_global t s) ∧ ∀ d, cur d (push_global t s) = cur d s.
Proof. split; [|done]. split; try done. intros u. unfold places; simpl. rewrite !count_occ_app; simpl. lia. Qed.

Lemma schedule_thread_moves c t s s' :
  schedule_thread c t s = Ok s' → moves [t] [] s s' ∧ ∀ d, cur d s' = cur d s.
Proof.
  unfold schedule_thread. destruct (PINNED_TO_CORE s t); [|apply push_local_moves].
  destruct (CORE_PINNED_TO s t) as [d|]; simpl; [apply push_local_moves|done].
Qed.

Lemma set_wait_moves w q q' inn out s :
  wait_queues s !! w = Some q → (∀ u, occ u q' + occ u out = occ u q + occ u inn)%nat →
  moves inn out s (set_wait (<[w := q']> (wait_queues s)) s).
Proof.
  intros Hw H. split; try done. intros u. specialize (H u). unfold places; simpl. rewrite !count_occ_app.
  pose proof (occ_concat_insert u _ _ _ q' Hw). lia.
Qed.

Lemma to_idle_moves c s s' : to_idle c s = Ok s' → moves [] (option_list (cur c s)) s s'.
Proof.
  intros H. apply (on_core_moves c _ _ _ _ _ H). intros k u Hk. unfold cur. rewrite Hk; simpl.
  unfold core_places; simpl. rewrite !count_occ_app. lia.
Qed.

Lemma suspend_to_thread_moves c t s s' :
  cur c s = None → suspend_to_thread c t s = Ok s' → moves [t] [] s s'.
Proof.
  intros Hc H. apply (on_core_moves c _ _ _ _ _ H). intros k u Hk. unfold cur in Hc. rewrite Hk in Hc; simpl in Hc.
  unfold core_places; simpl. rewrite Hc, !count_occ_app; simpl. destruct (Nat.eq_dec t u); lia.
Qed.

Lemma remember_core_moves c t s : moves [] [] s (remember_core c t s) ∧ ∀ d, cur d (remember_core c t s) = cur d s.
Proof. unfold remember_core. by destruct (PINNED_TO_CORE s t). Qed.

Lemma runs_cur c t s : runs c t s → cur c s = Some t.
Proof. intros (k & Hk & Ht). unfold cur. by rewrite Hk. Qed.
Lemma idles_cur c s : idles c s → cur c s = None.
Proof. intros (k & Hk & Ht). unfold cur. by rewrite Hk. Qed.

(** Solves the counting goal of [moves_eq]. *)
Ltac occ_eq := let u := fresh "u" in intros u; simpl; repeat case_match; lia.

Lemma suspend_moves c t w b s s' : runs c t s → suspend_to_queue_if c t w b s = Ok s' → moves [] [] s s'.
Proof.
  intros Hr. apply runs_cur in Hr. unfold suspend_to_queue_if.
  destruct (remember_core_moves c t s) as [M0 C0]. set (s0 := remember_core c t s) in *.
  destruct (wait_queues s0 !! w) as [q|] eqn:Hw; simpl; [|done].
  destruct b; [|by intros [= <-]].
  assert (M1 : moves [t] [] s0 (set_wait (<[w := q ++ [t]]> (wait_queues s0)) s0)).
  { apply (set_wait_moves w q); [done|]. intros u. rewrite count_occ_app. simpl. lia. }
  intros M2%to_idle_moves. change (cur c (set_wait _ s0)) with (cur c s0) in M2. rewrite C0, Hr in M2.
  eapply moves_eq; [exact (moves_trans _ _ _ _ _ _ _ M0 (moves_trans _ _ _ _ _ _ _ M1 M2))|occ_eq].
Qed.

Lemma yield_moves c t s s' : runs c t s → yield_thread c t s = Ok s' → moves [] [] s s'.
Proof.
  intros Hr. apply runs_cur in Hr. unfold yield_thread.
  destruct (remember_core_moves c t s) as [M0 C0]. set (s0 := remember_core c t s) in *.
  destruct (if PINNED_TO_CORE s0 t then _ else _) as [s1| |] eqn:E; simpl; [|done..].
  assert (moves [t] [] s0 s1 ∧ ∀ d, cur d s1 = cur d s0) as [M1 C1].
  { destruct (PINNED_TO_CORE s0 t); [by apply (push_local_moves c)|]. simplify_eq. apply push_global_moves. }
  intros M2%to_idle_moves. rewrite C1, C0, Hr in M2.
  eapply moves_eq; [exact (moves_trans _ _ _ _ _ _ _ M0 (moves_trans _ _ _ _ _ _ _ M1 M2))|occ_eq].
Qed.

Lemma moves_refl s : moves [] [] s s.
Proof. by split. Qed.

(** With a running thread that allows preemption, [preempt_to] takes the
    thread off the core. *)
Lemma preempt_to_moves c b s s' :
  preempt_to c b s = Ok s' →
  moves [] [] s s' ∨ b = false ∧ ∃ t, cur c s = Some t ∧ moves [] [t] s s'.
Proof.
  unfold preempt_to. destruct (cores s !! c) as [k|] eqn:Hk; simpl; [|done].
  assert (Hcur : cur c s = CURRENT_THREAD k) by (unfold cur; by rewrite Hk).
  destruct (CURRENT_THREAD k) as [t|]; [|intros [= <-]; left; apply moves_refl].
  destruct (CAN_YIELD s t); [|intros [= <-]; left; apply moves_refl].
  destruct b; simpl.
  - destruct (push_local c t s) as [s1| |] eqn:E; simpl; [|done..].
    apply push_local_moves in E as [M1 C1]. intros M2%to_idle_moves. rewrite C1, Hcur in M2. left.
    eapply moves_eq; [exact (moves_trans _ _ _ _ _ _ _ M1 M2)|occ_eq].
  - intros M2%to_idle_moves. rewrite Hcur in M2. right. eauto.
Qed.

Lemma block_moves c t s s' :
  cur c s = Some t → CAN_YIELD s t = true → block_to_idle c s = Ok s' → moves [] [t] s s'.
Proof.
  unfold cur, block_to_idle, preempt_to. destruct (cores s !! c) as [k|] eqn:Hk; simpl; [|done].
  intros Hc Hy. rewrite Hc, Hy. simpl. intros M2%to_idle_moves. unfold cur in M2.
  by rewrite Hk in M2; simpl in M2; rewrite Hc in M2.
Qed.

Lemma trap_moves c t s s' :
  runs c t s → CAN_YIELD s t = true → trap c t s = Ok s' → moves [] [] s s'.
Proof.
  intros Hr%runs_cur Hy. unfold trap. destruct (push_event c t s) as [s1| |] eqn:E; simpl; [|done..].
  assert (M1 : moves [t] [] s s1) by (apply (on_core_moves c _ _ _ _ _ E); intros k u Hk; occ_solve).
  assert (C1 : cur c s1 = cur c s) by (by eapply on_core_cur; [|exact E]).
  intros M2%(block_moves c t); [|by rewrite C1|by rewrite (mv_yield _ _ _ _ M1)].
  eapply moves_eq; [exact (moves_trans _ _ _ _ _ _ _ M1 M2)|occ_eq].
Qed.

Lemma poll_local_moves c s s' : idles c s → poll_local c s = Ok s' → moves [] [] s s'.
Proof.
  intros Hi%idles_cur. unfold poll_local. destruct (cores s !! c) as [k|] eqn:Hk; simpl; [|done].
  destruct (LOCAL_WORK_QUEUE k) as [|t q] eqn:Hq; [intros [= <-]; apply moves_refl|].
  destruct (on_core c _ s) as [s1| |] eqn:E; simpl; [|done..].
  assert (M1 : moves [] [t] s s1).
  { apply (on_core_moves c _ _ _ _ _ E). intros k' u Hk'. simplify_eq. unfold core_places. rewrite Hq. occ_solve. }
  assert (C1 : cur c s1 = cur c s) by (by eapply on_core_cur; [|exact E]).
  intros H. assert (M2 : moves [t] [] s1 s').
  { destruct (PINNED_TO_CORE s1 t); [apply (suspend_to_thread_moves c); [congruence|done]|].
    simplify_eq. apply push_global_moves. }
  eapply moves_eq; [exact (moves_trans _ _ _ _ _ _ _ M1 M2)|occ_eq].
Qed.

Lemma poll_global_moves c s s' : idles c s → poll_global c s = Ok s' → moves [] [] s s'.
Proof.
  intros Hi%idles_cur. unfold poll_global. destruct (GLOBAL_WORK_QUEUE s) as [|t q] eqn:Hq; [intros [= <-]; apply moves_refl|].
  intros M2%suspend_to_thread_moves; [|done].
  assert (M1 : moves [] [t] s (set_GLOBAL q s)).
  { split; try done. intros u. unfold places; simpl. rewrite Hq, !count_occ_app; simpl. case_match; lia. }
  eapply moves_eq; [exact (moves_trans _ _ _ _ _ _ _ M1 M2)|occ_eq].
Qed.

Lemma wake_one_moves c w s s' : wake_one c w s = Ok s' → moves [] [] s s'.
Proof.
  unfold wake_one. destruct (wait_queues s !! w) as [[|t q]|] eqn:Hw; simpl; [intros [= <-]; apply moves_refl| |done].
  intros [M2 _]%schedule_thread_moves.
  assert (M1 : moves [] [t] s (set_wait (<[w := q]> (wait_queues s)) s)) by (apply (set_wait_moves w (t :: q)); [done|occ_eq]).
  eapply moves_eq; [exact (moves_trans _ _ _ _ _ _ _ M1 M2)|occ_eq].
Qed.

Lemma occ_insert_sleep u t w l : occ u (insert_sleep t w l).*1 = (occ u [t] + occ u l.*1)%nat.
Proof.
  induction l as [|[t' w'] l IH]; [done|]. cbn [insert_sleep].
  destruct (w <? _); rewrite ?fmap_cons; simpl; [|rewrite IH; simpl]; repeat case_match; lia.
Qed.

Lemma sleep_moves c t d s s' : sleep c t d s = Ok s' → moves [t] [] s s'.
Proof.
  intros H. apply (on_core_moves c _ _ _ _ _ H). intros k u Hk. unfold core_places; simpl.
  rewrite !count_occ_app, occ_insert_sleep; simpl. case_match; lia.
Qed.

(** Scheduling leaves the sleep queues alone. *)
Definition sleep_of (c : nat) (s : Sched) : option (list (nat * Z)) := SLEEP_QUEUE <$> cores s !! c.

Lemma schedule_thread_sleep c t s s' d : schedule_thread c t s = Ok s' → sleep_of d s' = sleep_of d s.
Proof.
  assert (∀ c, push_local c t s = Ok s' → sleep_of d s' = sleep_of d s) as H.
  { intros e (k & Hk & ->)%on_core_inv. unfold sleep_of; simpl.
    destruct (decide (d = e)) as [->|]; [|by rewrite list_lookup_insert_ne].
    rewrite list_lookup_insert_eq by (by eapply lookup_lt_Some). by rewrite Hk. }
  unfold schedule_thread. destruct (PINNED_TO_CORE s t); [|apply H].
  destruct (CORE_PINNED_TO s t); simpl; [apply H|done].
Qed.

Lemma wake_loop_moves c n l s q s' :
  wake_loop c n l s = Ok (q, s') → ∃ l1, l = l1 ++ q ∧ moves l1.*1 [] s s' ∧ ∀ d, sleep_of d s' = sleep_of d s.
Proof.
  revert s. induction l as [|x l IH]; simpl; intros s; [intros [= <- <-]; exists []; split_and!; [done|apply moves_refl|done]|].
  destruct (_ <=? _); [|intros [= <- <-]; exists []; split_and!; [done|apply moves_refl|done]].
  destruct (schedule_thread c x.1 s) as [s1| |] eqn:E; simpl; [|done..]. intros H.
  destruct (IH _ H) as (l1 & -> & M2 & S2). apply schedule_thread_moves in E as E'. destruct E' as [M1 _].
  exists (x :: l1). split_and!; [done| |intros d; by rewrite S2, (schedule_thread_sleep _ _ _ _ d E)].
  eapply moves_eq; [exact (moves_trans _ _ _ _ _ _ _ M1 M2)|]. intros u. rewrite fmap_cons. simpl. case_match; lia.
Qed.

Lemma wakeup_moves c s s' : wakeup_sleepers c s = Ok s' → moves [] [] s s'.
Proof.
  unfold wakeup_sleepers. destruct (cores s !! c) as [k|] eqn:Hk; simpl; [|done].
  destruct (wake_loop c _ _ s) as [[q s1]| |] eqn:E; simpl; [|done..].
  destruct (wake_loop_moves _ _ _ _ _ _ E) as (l1 & Hl & M1 & S1). intros H.
  assert (M2 : moves [] l1.*1 s1 s').
  { apply (on_core_moves c _ _ _ _ _ H). intros k1 u Hk1. specialize (S1 c). unfold sleep_of in S1.
    rewrite Hk, Hk1 in S1. injection S1 as S1. unfold core_places; simpl.
    rewrite S1, Hl, fmap_app, !count_occ_app. lia. }
  eapply moves_eq; [exact (moves_trans _ _ _ _ _ _ _ M1 M2)|]. intros u. rewrite app_nil_r. simpl. lia.
Qed.

Lemma timer_moves c s s' : timer_interrupt_handler c s = Ok s' → moves [] [] s s'.
Proof.
  unfold timer_interrupt_handler. destruct (on_core c _ s) as [s1| |] eqn:E1; simpl; [|done..].
  assert (M1 : moves [] [] s s1) by (by apply (on_core_moves c _ _ _ _ _ E1)).
  destruct (wakeup_sleepers c s1) as [s2| |] eqn:E2; simpl; [|done..].
  apply wakeup_moves in E2 as M2. intros [M3|[??]]%preempt_to_moves; [|done].
  exact (moves_trans _ _ _ _ _ _ _ M1 (moves_trans _ _ _ _ _ _ _ M2 M3)).
Qed.

Lemma event_take_moves c s s' : event_take c s = Ok s' → moves [] [] s s'.
Proof.
  intros H. apply (on_core_moves c _ _ _ _ _ H). intros k u Hk.
  destruct (EVENT_THREAD_QUEUE k) as [|t q] eqn:Hq; [done|]. unfold core_places; simpl.
  rewrite Hq, !count_occ_app; simpl. case_match; lia.
Qed.

(** The thread [t] ends: it leaves the places and the threads alive. *)
Record ends (t : nat) (s s' : Sched) : Prop := mk_ends {
  en_occ u : (occ u (places s') + occ u [t] = occ u (places s))%nat;
  en_alive : alive s' = base.filter (λ u, u ≠ t) (alive s);
  en_tid : CURR_TID s' = CURR_TID s;
}.

Lemma event_done_moves c o s s' : event_done c o s = Ok s' → moves [] [] s s' ∨ ∃ t, ends t s s'.
Proof.
  unfold event_done. destruct (cores s !! c) as [k|] eqn:Hk; simpl; [|done].
  destruct (handling k) as [|t h] eqn:Hh; [intros [= <-]; left; apply moves_refl|].
  destruct (on_core c _ s) as [s1| |] eqn:E1; simpl; [|done..].
  assert (M1 : moves [] [t] s s1).
  { apply (on_core_moves c _ _ _ _ _ E1). intros k' u Hk'. simplify_eq. unfold core_places; simpl.
    rewrite Hh, !count_occ_app; simpl. case_match; lia. }
  destruct o as [|d|].
  - intros [M2 _]%schedule_thread_moves. left. eapply moves_eq; [exact (moves_trans _ _ _ _ _ _ _ M1 M2)|occ_eq].
  - intros M2%sleep_moves. left. eapply moves_eq; [exact (moves_trans _ _ _ _ _ _ _ M1 M2)|occ_eq].
  - intros [= <-]. right. exists t. destruct M1 as [H1 H2 H3 H4].
    split; simpl; [|congruence..]. intros u. specialize (H1 u). simpl in H1. simpl. unfold places in *. simpl. lia.
Qed.

Lemma thread_end_ends c t s s' : runs c t s → thread_end c t s = Ok s' → ends t s s'.
Proof.
  intros Hr%runs_cur. unfold thread_end. set (s1 := set_alive _ _ s).
  intros [H1 H2 H3 H4]%to_idle_moves. change (cur c s1) with (cur c s) in H1. rewrite Hr in H1.
  split; [|done..]. intros u. specialize (H1 u). change (places s1) with (places s) in H1. simpl in *. lia.
Qed.

(** A new thread. *)
Record spawns (s s' : Sched) : Prop := mk_spawns {
  sp_occ u : (occ u (places s') = occ u (places s) + occ u [CURR_TID s])%nat;
  sp_alive : alive s' = CURR_TID s :: alive s;
  sp_tid : CURR_TID s' = S (CURR_TID s);
}.

Lemma moves_spawns s s1 s' :
  places s1 = places s → alive s1 = CURR_TID s :: alive s → CURR_TID s1 = S (CURR_TID s) →
  moves [CURR_TID s] [] s1 s' → spawns s s'.
Proof. intros H1 H2 H3 [M1 M2 M3 _]. split; [|congruence..]. intros u. specialize (M1 u). rewrite H1 in M1. simpl in *. lia. Qed.

(** Everyone stays among the places. *)
Definition stays (s s' : Sched) : Prop :=
  (∀ u, occ u (places s') = occ u (places s)) ∧ alive s' = alive s ∧ CURR_TID s' = CURR_TID s.
Lemma moves_stays s s' : moves [] [] s s' → stays s s'.
Proof. intros [H ???]. split_and!; [|done..]. intros u. specialize (H u). simpl in H. lia. Qed.

(** What each step does to the places. *)
Lemma step_kinds s a s' : step s a s' → match a with Some t => CAN_YIELD s t | None => true end = true → stays s s' ∨ (∃ t, ends t s s') ∨ spawns s s'.
Proof.
  intros [] Hq.
  - right; right. apply (moves_spawns s (make_thread s).2); [done..|]. apply push_global_moves.
  - right; right. unfold init_event_handler in *; simpl in *.
    eapply moves_spawns; [..|by eapply push_local_moves]; done.
  - left. by eapply moves_stays, suspend_moves.
  - left. by eapply moves_stays, yield_moves.
  - left. by eapply moves_stays, timer_moves.
  - left. apply moves_stays. by destruct (preempt_to_moves c true s s'0 H) as [?|[??]].
  - left. by eapply moves_stays, poll_local_moves.
  - left. by eapply moves_stays, poll_global_moves.
  - right; left. eexists. by eapply thread_end_ends.
  - left. by eapply moves_stays, wake_one_moves.
  - left. by eapply moves_stays, trap_moves.
  - left. by eapply moves_stays, event_take_moves.
  - destruct (event_done_moves _ _ _ _ H); [left; by apply moves_stays|auto].
  - by left.
  - by left.
Qed.

Record sched_inv (s : Sched) : Prop := mk_sched_inv {
  si_places : places s ≡ₚ alive s;
  si_nodup : NoDup (alive s);
  si_tid t : t ∈ alive s → (t < CURR_TID s)%nat;
}.

Lemma filter_keep {A} (P : A → Prop) `{!∀ x, Decision (P x)} l : Forall P l → base.filter P l = l.
Proof. induction 1 as [|x l Hx _ IH]; [done|]. rewrite filter_cons_True by done. by rewrite IH. Qed.

Lemma occ_filter_ne u t (l : list nat) : NoDup l → t ∈ l →
  (occ u (base.filter (λ v, v ≠ t) l) + occ u [t] = occ u l)%nat.
Proof.
  induction 1 as [|x l Hx Hl IH]; intros Ht; [by apply elem_of_nil in Ht|].
  apply elem_of_cons in Ht. rewrite filter_cons. destruct (decide (x ≠ t)) as [Hne|Hne].
  - destruct Ht as [->|Ht]; [done|]. specialize (IH Ht). simpl in *. repeat case_match; lia.
  - assert (x = t) as -> by lia. rewrite filter_keep.
    + simpl. repeat case_match; lia.
    + apply Forall_forall. by intros ?? ->.
Qed.

Lemma places_occ l l' : l ≡ₚ l' ↔ ∀ u, occ u l = occ u l'.
Proof. apply (Permutation_count_occ Nat.eq_dec). Qed.

Lemma sched_step_inv s a s' : sched_inv s → step s a s' → match a with Some t => CAN_YIELD s t | None => true end = true → sched_inv s'.
Proof.
  intros [Hp Hn Ht] Hstep Hq. destruct (step_kinds s a s' Hstep Hq) as [(H1&H2&H3)|[[t [H1 H2 H3]]|[H1 H2 H3]]]; clear Hstep Hq; rewrite places_occ in Hp.
  - split; rewrite ?H2, ?H3; [|done..]. rewrite places_occ. intros u. by rewrite H1.
  - assert (Hin : t ∈ alive s).
    { apply list_elem_of_In, (count_occ_In Nat.eq_dec). rewrite <-Hp.
      specialize (H1 t). simpl in H1. destruct (Nat.eq_dec t t); [lia|done]. }
    split; rewrite ?H2, ?H3; [|by apply NoDup_filter|intros u [_ Hu]%list_elem_of_filter; auto].
    rewrite places_occ. intros u. pose proof (occ_filter_ne u t _ Hn Hin). specialize (H1 u). specialize (Hp u). lia.
  - split; rewrite ?H2, ?H3.
    + rewrite places_occ. intros u. rewrite H1, Hp. simpl. case_match; lia.
    + constructor; [|done]. intros Hc%Ht. lia.
    + intros u [->|Hu%Ht]%elem_of_cons; lia.
Qed.

Lemma sched_boot_inv n w : sched_inv (boot n w).
Proof.
  split; simpl; [|constructor|by intros t ?%elem_of_nil]. unfold places; simpl.
  assert (concat (core_places <$> replicate n (mkCore None [] [] [] [] 0)) = []) as -> by (induction n; simpl; auto).
  assert (concat (replicate w []) = ([] : list nat)) as -> by (induction w; simpl; auto). done.
Qed.

Lemma quiet_inv n w quiet s : reachable n w quiet s → quiet = true → sched_inv s.
Proof.
  induction 1 as [|quiet s a s' _ IH Hs]; [intros _; apply sched_boot_inv|]. intros [Hq Ha]%andb_true_iff. by apply (sched_step_inv s a); [apply IH|..].
Qed.

(** A thread that does not allow preemption and traps is queued for the event
    handler while it keeps running. *)
Lemma nonpreemptible_trap_duplicates c t s s' :
  runs c t s → CAN_YIELD s t = false → trap c t s = Ok s' →
  runs c t s' ∧ ∃ k, cores s' !! c = Some k ∧ t ∈ EVENT_THREAD_QUEUE k.
Proof.
  intros (k & Hk & Ht) Hy. unfold trap, push_event, on_core. rewrite Hk. simpl.
  assert (Hc : (c < length (cores s))%nat) by (by eapply lookup_lt_Some).
  unfold block_to_idle, preempt_to; simpl. rewrite list_lookup_insert_eq by done. simpl. rewrite Ht, Hy.
  intros [= <-]. split; eexists; simpl; rewrite list_lookup_insert_eq by done; split; [done..|].
  simpl. set_solver.
Qed.

Lemma core_places_sub s c k : cores s !! c = Some k → ∃ l1 l2, places s = l1 ++ core_places k ++ l2.
Proof.
  intros Hk. apply list_elem_of_split_length in Hk as (l1 & l2 & E & _). unfold places. rewrite E, fmap_app, fmap_cons, concat_app. cbn [concat].
  exists (concat (core_places <$> l1)), (concat (core_places <$> l2) ++ GLOBAL_WORK_QUEUE s ++ concat (wait_queues s)). by rewrite <-!app_assoc.
Qed.
Lemma trapped_twice c t s s' : runs c t s → CAN_YIELD s t = false → trap c t s = Ok s' → ¬ NoDup (places s').
Proof.
  intros Hr Hy E. destruct (nonpreemptible_trap_duplicates c t s s' Hr Hy E) as ((k & Hk & Ht) & k' & Hk' & Hin). simplify_eq.
  destruct (core_places_sub s' c k Hk) as (l1 & l2 & ->). intros (_ & _ & (Hn & _)%NoDup_app)%NoDup_app.
  unfold core_places in Hn. rewrite Ht in Hn. apply NoDup_cons in Hn as [Hn _]. apply Hn. rewrite !elem_of_app. auto.
Qed.

(** C10: on any number of cores and under any interleaving of spawning, yielding,
    preemption, sleeping, waiting, waking, traps and event handling, each thread that
    has not ended is in exactly one place (running on one core, or once in one queue)
    and nothing else is queued or runs, as long as no thread has trapped while it did
    not allow preemption.  This condition is necessary, and the code does not check
    it: from such a state a trap keeps every thread in one place if and only if the
    thread that traps allows preemption. *)
Theorem threads_in_one_place n w s :
  reachable n w true s → places s ≡ₚ alive s ∧ NoDup (places s) ∧
  ∀ c t s', runs c t s → trap c t s = Ok s' → NoDup (places s') ↔ CAN_YIELD s t = true.
Proof.
  intros H. assert (Hi : sched_inv s) by (by apply (quiet_inv n w true)). pose proof Hi as [Hp Hn _]. split_and!; [done|by rewrite Hp|].
  intros c t s' Hr E. split.
  - intros Hnd. destruct (CAN_YIELD s t) eqn:Hy; [done|]. by destruct (trapped_twice c t s s').
  - intros Hy. destruct (sched_step_inv s (Some t) s' Hi (step_trap s c t s' Hr E) Hy) as [Hp' Hn' _]. by rewrite Hp'.
Qed.

(** Suspending without a condition is the case that always holds. *)
Lemma suspend_to_queue_eq c t w s : suspend_to_queue c t w s = suspend_to_queue_if c t w true s.
Proof. reflexivity. Qed.

(** ** Sleeping threads *)

Definition earlier (x y : nat * Z) : Prop := x.2 ≤ y.2.
Definition sorted_sleepers (s : Sched) : Prop :=
  ∀ c q, sleep_of c s = Some q → StronglySorted earlier q.

Lemma insert_sleep_in x t w l : x ∈ insert_sleep t w l ↔ x = (t, w) ∨ x ∈ l.
Proof.
  induction l as [|y l IH]; simpl; [by rewrite elem_of_cons|].
  case_match; rewrite !elem_of_cons, ?IH, ?elem_of_cons; naive_solver.
Qed.

Lemma insert_sleep_sorted t w l : StronglySorted earlier l → StronglySorted earlier (insert_sleep t w l).
Proof.
  induction 1 as [|y l Hl IH Hy]; simpl; [by repeat constructor|].
  destruct (Z.ltb_spec w y.2) as [Hw|Hw].
  - constructor; [by constructor|]. constructor; [unfold earlier; simpl; lia|].
    eapply Forall_impl; [exact Hy|]. unfold earlier; simpl. lia.
  - constructor; [done|]. apply Forall_forall. intros x [->|Hx]%insert_sleep_in; [done|].
    by eapply Forall_forall in Hy.
Qed.

(** A newcomer goes behind the sleepers with the same tick. *)
Lemma insert_sleep_fifo t w l1 l2 :
  Forall (λ x, x.2 ≤ w) l1 → Forall (λ x, w < x.2) l2 → insert_sleep t w (l1 ++ l2) = l1 ++ (t, w) :: l2.
Proof.
  intros H1 H2. induction H1 as [|y l1 Hy _ IH]; simpl.
  - destruct H2 as [|y l2 Hy _]; [done|]. simpl. by destruct (Z.ltb_spec w y.2); [|lia].
  - destruct (Z.ltb_spec w y.2); [lia|]. by rewrite IH.
Qed.

Lemma on_core_sleep c f s s' :
  (∀ k, SLEEP_QUEUE (f k) = SLEEP_QUEUE k) → on_core c f s = Ok s' → ∀ d, sleep_of d s' = sleep_of d s.
Proof.
  intros Hf (k & Hk & ->)%on_core_inv d. unfold sleep_of; simpl.
  destruct (decide (d = c)) as [->|]; [|by rewrite list_lookup_insert_ne].
  rewrite list_lookup_insert_eq by (by eapply lookup_lt_Some). by rewrite Hk; simpl; rewrite Hf.
Qed.

Lemma on_core_sorted c f s s' :
  (∀ k, cores s !! c = Some k → StronglySorted earlier (SLEEP_QUEUE k) → StronglySorted earlier (SLEEP_QUEUE (f k))) →
  sorted_sleepers s → on_core c f s = Ok s' → sorted_sleepers s'.
Proof.
  intros Hf Hs (k & Hk & ->)%on_core_inv d q. unfold sleep_of; simpl.
  destruct (decide (d = c)) as [->|]; [|rewrite list_lookup_insert_ne by done; apply Hs].
  rewrite list_lookup_insert_eq by (by eapply lookup_lt_Some). simpl. intros [= <-].
  apply Hf; [done|]. apply (Hs c). unfold sleep_of. by rewrite Hk.
Qed.

Lemma same_sorted s s' : (∀ d, sleep_of d s' = sleep_of d s) → sorted_sleepers s → sorted_sleepers s'.
Proof. intros H Hs c q. rewrite H. apply Hs. Qed.

Lemma wakeup_sorted c s s' : wakeup_sleepers c s = Ok s' → sorted_sleepers s → sorted_sleepers s'.
Proof.
  unfold wakeup_sleepers. destruct (cores s !! c) as [k|] eqn:Hk; simpl; [|done].
  destruct (wake_loop c _ _ s) as [[q s1]| |] eqn:E; simpl; [|done..].
  destruct (wake_loop_moves _ _ _ _ _ _ E) as (l1 & Hl & _ & S1). intros H Hs.
  apply (on_core_sorted c (set_SLEEP_QUEUE q) s1); [|by apply (same_sorted s)|done].
  intros k' _ _. simpl. apply (StronglySorted_app_1_r _ l1). rewrite <-Hl. apply (Hs c). unfold sleep_of. by rewrite Hk.
Qed.

(** Operations that leave the sleep queues alone. *)
Definition keeps_sleepers (m : SOp) : Prop := ∀ s s', m s = Ok s' → ∀ d, sleep_of d s' = sleep_of d s.

Lemma keeps_push_local c t : keeps_sleepers (push_local c t).
Proof. intros s s'. by apply on_core_sleep. Qed.
Lemma keeps_to_idle c : keeps_sleepers (to_idle c).
Proof. intros s s'. by apply on_core_sleep. Qed.
Lemma keeps_suspend_to_thread c t : keeps_sleepers (suspend_to_thread c t).
Proof. intros s s'. by apply on_core_sleep. Qed.
Lemma keeps_push_event c t : keeps_sleepers (push_event c t).
Proof. intros s s'. by apply on_core_sleep. Qed.
Lemma keeps_event_take c : keeps_sleepers (event_take c).
Proof. intros s s'. apply on_core_sleep. intros k. by destruct (EVENT_THREAD_QUEUE k). Qed.
Lemma keeps_schedule c t : keeps_sleepers (schedule_thread c t).
Proof. intros s s' H d. by eapply schedule_thread_sleep. Qed.
Lemma keeps_remember c t s d : sleep_of d (remember_core c t s) = sleep_of d s.
Proof. unfold remember_core. by destruct (PINNED_TO_CORE s t). Qed.

Lemma keeps_preempt c b : keeps_sleepers (preempt_to c b).
Proof.
  intros s s'. unfold preempt_to. destruct (cores s !! c) as [k|]; simpl; [|done].
  destruct (CURRENT_THREAD k) as [t|]; [|by intros [= <-]]. destruct (CAN_YIELD s t); [|by intros [= <-]].
  destruct b; simpl; [|apply keeps_to_idle].
  destruct (push_local c t s) as [s1| |] eqn:E; simpl; [|done..].
  intros H d. by rewrite (keeps_to_idle c _ _ H), (keeps_push_local c t _ _ E).
Qed.

Lemma keeps_suspend c t w b : keeps_sleepers (suspend_to_queue_if c t w b).
Proof.
  intros s s'. unfold suspend_to_queue_if. destruct (wait_queues _ !! w) as [q|]; simpl; [|done].
  destruct b; [|intros [= <-]; apply keeps_remember]. intros H d. rewrite (keeps_to_idle c _ _ H). apply keeps_remember.
Qed.

Lemma keeps_yield c t : keeps_sleepers (yield_thread c t).
Proof.
  intros s s'. unfold yield_thread. destruct (PINNED_TO_CORE _ t); simpl.
  - destruct (push_local c t _) as [s1| |] eqn:E; simpl; [|done..].
    intros H d. rewrite (keeps_to_idle c _ _ H), (keeps_push_local c t _ _ E). apply keeps_remember.
  - intros H d. rewrite (keeps_to_idle c _ _ H). apply keeps_remember.
Qed.

Lemma keeps_poll_local c : keeps_sleepers (poll_local c).
Proof.
  intros s s'. unfold poll_local. destruct (cores s !! c) as [k|]; simpl; [|done].
  destruct (LOCAL_WORK_QUEUE k) as [|t q]; [by intros [= <-]|].
  destruct (on_core c _ s) as [s1| |] eqn:E; simpl; [|done..].
  assert (S1 : ∀ d, sleep_of d s1 = sleep_of d s) by (by apply (on_core_sleep c (set_LOCAL_WORK_QUEUE q))).
  destruct (PINNED_TO_CORE s1 t); [|by intros [= <-]].
  intros H d. by rewrite (keeps_suspend_to_thread c t _ _ H).
Qed.

Lemma keeps_wake_one c w : keeps_sleepers (wake_one c w).
Proof.
  intros s s'. unfold wake_one. destruct (wait_queues s !! w) as [[|t q]|]; simpl; [by intros [= <-]| |done].
  intros H d. by rewrite (keeps_schedule c t _ _ H).
Qed.

Lemma keeps_trap c t : keeps_sleepers (trap c t).
Proof.
  intros s s'. unfold trap. destruct (push_event c t s) as [s1| |] eqn:E; simpl; [|done..].
  intros H d. by rewrite (keeps_preempt c false _ _ H), (keeps_push_event c t _ _ E).
Qed.

Lemma event_done_sorted c o s s' : event_done c o s = Ok s' → sorted_sleepers s → sorted_sleepers s'.
Proof.
  unfold event_done. destruct (cores s !! c) as [k|]; simpl; [|done].
  destruct (handling k) as [|t h]; [by intros [= <-]|].
  destruct (on_core c _ s) as [s1| |] eqn:E; simpl; [|done..]. intros H Hs.
  assert (Hs1 : sorted_sleepers s1) by (by apply (same_sorted s); [eapply on_core_sleep; [|exact E]|]).
  destruct o as [|d|].
  - apply (same_sorted s1); [|done]. by apply keeps_schedule with c t.
  - refine (on_core_sorted c _ s1 s' _ Hs1 H). intros ??. apply insert_sleep_sorted.
  - by injection H as <-.
Qed.

Lemma timer_sorted c s s' : timer_interrupt_handler c s = Ok s' → sorted_sleepers s → sorted_sleepers s'.
Proof.
  unfold timer_interrupt_handler. destruct (on_core c _ s) as [s1| |] eqn:E1; simpl; [|done..].
  destruct (wakeup_sleepers c s1) as [s2| |] eqn:E2; simpl; [|done..]. intros H3 Hs.
  apply (same_sorted s2); [by apply (keeps_preempt c true)|]. apply (wakeup_sorted _ _ _ E2).
  apply (same_sorted s); [|done]. by eapply on_core_sleep; [|exact E1].
Qed.

Lemma keeps_sorted m s s' : keeps_sleepers m → m s = Ok s' → sorted_sleepers s → sorted_sleepers s'.
Proof. intros Hm H. apply same_sorted. by apply Hm. Qed.

Lemma step_sorted s a s' : step s a s' → sorted_sleepers s → sorted_sleepers s'.
Proof.
  intros [].
  - done.
  - by apply (keeps_sorted _ _ _ (keeps_push_local c _) H).
  - by apply (keeps_sorted _ _ _ (keeps_suspend c t w b)).
  - by apply (keeps_sorted _ _ _ (keeps_yield c t)).
  - by apply (timer_sorted c).
  - by apply (keeps_sorted _ _ _ (keeps_preempt c true)).
  - by apply (keeps_sorted _ _ _ (keeps_poll_local c)).
  - unfold poll_global in *. destruct (GLOBAL_WORK_QUEUE s) as [|t q]; [by simplify_eq|].
    by apply (keeps_sorted _ _ _ (keeps_suspend_to_thread c t) H0).
  - by apply (keeps_sorted _ _ _ (keeps_to_idle c) H0).
  - by apply (keeps_sorted _ _ _ (keeps_wake_one c w)).
  - by apply (keeps_sorted _ _ _ (keeps_trap c t)).
  - by apply (keeps_sorted _ _ _ (keeps_event_take c)).
  - by apply (event_done_sorted c o).
  - done.
  - done.
Qed.

Lemma reachable_sorted n w q s : reachable n w q s → sorted_sleepers s.
Proof.
  induction 1; [|by eapply step_sorted].
  intros c q. unfold sleep_of; simpl. intros (k & Hk & ->)%fmap_Some_1.
  apply lookup_replicate in Hk as [-> _]. constructor.
Qed.

(** The core on whose queue [schedule_thread], called on [c], puts a thread. *)
Definition home (c : nat) (s : Sched) (t : nat) : option nat :=
  if PINNED_TO_CORE s t then CORE_PINNED_TO s t else Some c.
Definition local_of (d : nat) (s : Sched) : option (list nat) := LOCAL_WORK_QUEUE <$> cores s !! d.

(** Only the work queues changed. *)
Definition same_but_local (s s' : Sched) : Prop :=
  (∀ d, sleep_of d s' = sleep_of d s) ∧ length (cores s') = length (cores s) ∧
  PINNED_TO_CORE s' = PINNED_TO_CORE s ∧ CORE_PINNED_TO s' = CORE_PINNED_TO s.

Lemma schedule_thread_spec c s t d :
  home c s t = Some d → (d < length (cores s))%nat →
  ∃ s', schedule_thread c t s = Ok s' ∧ same_but_local s s' ∧
    ∀ e, local_of e s' = (λ q, q ++ if decide (e = d) then [t] else []) <$> local_of e s.
Proof.
  intros Hh Hd. assert (∃ s', schedule_thread c t s = Ok s' ∧ push_local d t s = Ok s') as (s' & E & E').
  { apply lookup_lt_is_Some_2 in Hd as [k Hk]. unfold schedule_thread, home in *.
    assert (push_local d t s = Ok (set_cores (<[d := set_LOCAL_WORK_QUEUE (LOCAL_WORK_QUEUE k ++ [t]) k]> (cores s)) s)) as Hp
      by (unfold push_local, on_core; by rewrite Hk).
    destruct (PINNED_TO_CORE s t); [rewrite Hh|injection Hh as ->]; eauto. }
  exists s'. split; [done|]. pose proof (keeps_push_local _ _ _ _ E') as S1.
  apply on_core_inv in E' as (k & Hk & ->). split.
  - split_and!; [done| |done..]. apply length_insert.
  - intros e. unfold local_of; simpl. destruct (decide (e = d)) as [->|].
    + rewrite list_lookup_insert_eq by done. by rewrite Hk.
    + rewrite list_lookup_insert_ne by done. destruct (cores s !! e); simpl; [|done]. by rewrite app_nil_r.
Qed.

Definition due (n : Z) (l : list (nat * Z)) : list nat := (base.filter (λ x, x.2 ≤ n) l).*1.

Lemma later_filter n l : Forall (λ x, n < x.2) l → due n l = [] ∧ base.filter (λ x, n < x.2) l = l.
Proof.
  intros H. split; [|by apply filter_keep]. unfold due.
  induction H as [|x l Hx _ IH]; [done|]. rewrite filter_cons_False by lia. done.
Qed.

Lemma wake_loop_spec c n l s :
  StronglySorted earlier l →
  (∀ t, t ∈ due n l → ∃ d, home c s t = Some d ∧ (d < length (cores s))%nat) →
  ∃ s', wake_loop c n l s = Ok (base.filter (λ x, n < x.2) l, s') ∧ same_but_local s s' ∧
    ∀ e, local_of e s' = (λ q, q ++ base.filter (λ t, home c s t = Some e) (due n l)) <$> local_of e s.
Proof.
  intros Hl. revert s. induction Hl as [|x l Hl IH Hx]; intros s Hh; simpl.
  { exists s. split_and!; [done..|]. intros e. destruct (local_of e s); simpl; [|done]. by rewrite app_nil_r. }
  destruct (Z.leb_spec x.2 n) as [Hn|Hn].
  - assert (Ed : due n (x :: l) = x.1 :: due n l) by (unfold due; by rewrite filter_cons_True by lia).
    rewrite Ed in *. destruct (Hh x.1) as (d & Hd & Hlt); [left|].
    destruct (schedule_thread_spec c s x.1 d Hd Hlt) as (s1 & E1 & (A1 & A2 & A3 & A4) & L1).
    assert (Hhome : ∀ t, home c s1 t = home c s t) by (intros t; unfold home; by rewrite A3, A4).
    destruct (IH s1) as (s2 & E2 & (B1 & B2 & B3 & B4) & L2).
    { intros t Ht. rewrite A2, Hhome. apply Hh. by right. }
    exists s2. rewrite E1. simpl. rewrite E2. rewrite filter_cons_False by lia. split_and!; [done|..].
    + split_and!; [|congruence..]. intros e. by rewrite B1.
    + intros e. rewrite L2, L1. destruct (local_of e s) as [q|]; simpl; [|done]. f_equal.
      rewrite <-app_assoc. f_equal. rewrite filter_cons, Hd.
      assert (base.filter (λ t, home c s1 t = Some e) (due n l) = base.filter (λ t, home c s t = Some e) (due n l)) as ->
        by (apply list_filter_iff; intros t; by rewrite Hhome).
      destruct (decide (e = d)), (decide (Some d = Some e)); simplify_eq; done.
  - destruct (later_filter n (x :: l)) as [-> ->].
    { constructor; [done|]. eapply Forall_impl; [exact Hx|]. unfold earlier. lia. }
    exists s. split_and!; [done..|]. intros e. destruct (local_of e s); simpl; [|done]. by rewrite app_nil_r.
Qed.

(** in every reachable state the timer wakes, on its core, exactly the
    sleepers whose tick has come: they leave the sleep queue, each goes to the
    back of the work queue of its home core (its pinned core, or this one) in
    the order of their ticks, and the others keep sleeping in order.  It needs
    a home core that exists for each thread that wakes. *)
Lemma wakeup_sleepers_correct n w q s c k :
  reachable n w q s → cores s !! c = Some k →
  (∀ t, t ∈ due (TICKS k) (SLEEP_QUEUE k) → ∃ d, home c s t = Some d ∧ (d < length (cores s))%nat) →
  ∃ s', wakeup_sleepers c s = Ok s' ∧
    sleep_of c s' = Some (base.filter (λ x, TICKS k < x.2) (SLEEP_QUEUE k)) ∧
    ∀ e, local_of e s' = (λ q, q ++ base.filter (λ t, home c s t = Some e) (due (TICKS k) (SLEEP_QUEUE k))) <$> local_of e s.
Proof.
  intros Hr Hk Hh. assert (Hs : StronglySorted earlier (SLEEP_QUEUE k)).
  { apply (reachable_sorted _ _ _ _ Hr c). unfold sleep_of. by rewrite Hk. }
  destruct (wake_loop_spec c (TICKS k) _ s Hs Hh) as (s1 & E1 & (A1 & A2 & _) & L1).
  assert (is_Some (cores s1 !! c)) as [k1 Hk1].
  { apply lookup_lt_is_Some. rewrite A2. by eapply lookup_lt_Some. }
  unfold wakeup_sleepers. rewrite Hk. simpl. rewrite E1. simpl. unfold on_core. rewrite Hk1. simpl.
  eexists. split_and!; [done|..].
  - unfold sleep_of; simpl. by rewrite list_lookup_insert_eq by (by eapply lookup_lt_Some).
  - intros e. rewrite <-L1. unfold local_of; simpl. destruct (decide (e = c)) as [->|].
    + rewrite list_lookup_insert_eq by (by eapply lookup_lt_Some). by rewrite Hk1.
    + by rewrite list_lookup_insert_ne.
Qed.

(** ** Limits of the code *)

(** The tick at which a sleeper wakes counts from the start of the current
    tick: a sleep that begins within a tick is shorter than was asked for. *)
Lemma sleep_short now duration_ms :
  0 ≤ now → 0 ≤ duration_ms → now + duration_ms * TIMER_HZ ≤ usize_max → now mod 1000 ≠ 0 →
  wakeup_tick (now / 1000) duration_ms * 1000 < now + duration_ms * 1000.
Proof.
  unfold wakeup_tick, saturating_add, saturating_mul, div_ceil, TIMER_HZ. intros H1 H2 H3 H4.
  pose proof (Z.div_mod now 1000 ltac:(lia)). pose proof (Z.mod_pos_bound now 1000 ltac:(lia)).
  assert (E : (Z.min usize_max (duration_ms * 1000) + 1000 - 1) / 1000 = duration_ms).
  { rewrite Z.min_r by lia. symmetry. apply (Z.div_unique _ 1000 duration_ms 999); lia. }
  rewrite E. rewrite Z.min_r by lia. lia.
Qed.

(** In ticks the sleep is as long as was asked for, and rounds up. *)
Lemma nanosleep_rounds_up tv_sec tv_nsec ms :
  0 ≤ tv_sec → tv_sec * 1000 + 1000 ≤ usize_max → nanosleep_ms tv_sec tv_nsec = Some ms →
  tv_sec * 1000000000 + tv_nsec ≤ ms * 1000000 < tv_sec * 1000000000 + tv_nsec + 1000000.
Proof.
  unfold nanosleep_ms, saturating_add, saturating_mul, div_ceil. intros H1 H2.
  destruct (_ || _) eqn:E; [done|]. intros [= <-].
  apply orb_false_iff in E as [_ E]. apply negb_false_iff, andb_true_iff in E as [E1%Z.leb_le E2%Z.ltb_lt].
  set (q := (tv_nsec + 1000000 - 1) / 1000000).
  pose proof (Z.div_mod (tv_nsec + 1000000 - 1) 1000000 ltac:(lia)).
  pose proof (Z.mod_pos_bound (tv_nsec + 1000000 - 1) 1000000 ltac:(lia)). fold q in H.
  rewrite !Z.min_r by lia. lia.
Qed.

(** ** A run on two cores *)

(** Thread 3 is spawned, runs on core 0 and calls [nanosleep] for no time. *)
Definition demo_ops : list (SOp) :=
  [λ s, Ok (spawn_thread s); poll_global 0; trap 0 3; event_take 0; event_done 0 (Asleep 0)].
Definition demo : Sched :=
  foldl (λ s m, match m s with Ok s' => s' | _ => s end) (boot 2 1) demo_ops.

Lemma reachable_quiet n w s a s' : reachable n w true s → step s a s' → match a with Some t => CAN_YIELD s t | None => true end = true → reachable n w true s'.
Proof. intros Hr Hs Ha. pose proof (reachable_step n w true s a s' Hr Hs) as H. by rewrite Ha in H. Qed.
Lemma sched_demo_reachable : reachable 2 1 true demo.
Proof.
  unfold demo, demo_ops. cbn [foldl].
  eapply (reachable_quiet _ _ _ None); [eapply (reachable_quiet _ _ _ None); [eapply (reachable_quiet _ _ _ (Some 3%nat)); [eapply (reachable_quiet _ _ _ None);
    [eapply (reachable_quiet _ _ _ None); [constructor|apply step_spawn|done]| |done]| |]| |done]| |done].
  - apply (step_poll_global _ 0); [|done]. by eexists.
  - apply (step_trap _ 0 3); [by eexists|done..].
  - done.
  - by apply (step_take _ 0).
  - apply (step_done _ 0 (Asleep 0)). vm_compute. reflexivity.
Qed.

Lemma threads_in_one_place_witness : places demo ≡ₚ [3%nat] ∧ NoDup (places demo).
Proof. destruct (threads_in_one_place 2 1 demo sched_demo_reachable) as (Hp & Hn & _). split; [exact Hp|exact Hn]. Defined.

Lemma wakeup_sleepers_correct_witness :
  ∃ s', wakeup_sleepers 0 demo = Ok s' ∧ sleep_of 0 s' = Some [] ∧ local_of 0 s' = Some [3%nat].
Proof.
  destruct (wakeup_sleepers_correct 2 1 true demo 0 (mkCore None [] [(3%nat, 0)] [] [] 0) sched_demo_reachable) as (s' & E & S & L).
  - done.
  - intros t Ht. assert (t = 3%nat) as -> by (by apply list_elem_of_singleton in Ht).
    exists 0%nat. split; [done|]. vm_compute. lia.
  - exists s'. split_and!; [exact E|rewrite S; vm_compute; done|rewrite (L 0%nat); vm_compute; done].
Defined.
